(* ===== verification/_CoqProject ===== *)
-Q . S2P
Prelude.v
FlowTypes.v
ItemProps.v
SafeQueue.v
ListQueue.v
Ordering.v
Fairness.v
HeapOrder.v
MaxMinHeap.v
MaxMinHeapSpec.v
QueueProps.v
QueueFactory.v
ManagedQueue.v
RegistryConfig.v
Leasing.v
Shard.v
ShardSpec.v
Registry.v
RegistrySpec.v
RegistryGC.v
RegistryScale.v
RegistryProps.v
Processor.v
ProcessorSpec.v
ProcessorRun.v
ProcessorProps.v
ControllerConfig.v
Controller.v
ControllerProps.v
ControllerWorkers.v
Doubles.v
InFlight.v
InFlightProps.v
Saturation.v
Scheduler.v
SchedulerProps.v
Scorers.v
ScorerProps.v
DataGraph.v
DataGraphProps.v
Chunking.v
BinaryHeap.v
EvictionQueue.v
EvictionProps.v
PrefixIndexer.v
PrefixHash.v
PrefixPlugin.v
PrefixProps.v
PrefixClaims.v
ModelRewrite.v
ModelRewriteProps.v
ReqCtx.v
Candidates.v
CandidatesProps.v
Admission.v
Director.v
Server.v
ServerProps.v
DirectorProps.v
ServerClaims.v
Lifecycle.v
Datastore.v
DatastoreProps.v
Runtime.v
Reconcile.v
ReconcileObjects.v
DatastoreClaims.v
RequestQueue.v
Coalescer.v
LatencyScorer.v
PredictedLatency.v
PredictedLatencyProps.v
PredictedLatencyClaims.v
AdaptersStore.v
Bbr.v
BbrProps.v
ConfigLoader.v
ConfigLoaderProps.v
