(* ===== verification/Prelude.v ===== *)
(** * Verification of the endpoint picker

    The program is the Endpoint Picker (EPP) of the Gateway API Inference
    Extension: it receives inference requests from a gateway, queues and admits
    them (flow control), prepares data about them, and picks a model server.
    This library models the path of a request through the program, from the
    stream with Envoy over the director, flow control and the scheduler with its
    built-in plugins back to the stream, and, of the layers around it, the parts
    whose correctness is a matter of state and algorithms.

    ** The program and its parts

    Envoy opens a stream per request with the ext_proc server
    (src/pkg/epp/handlers/), which buffers the body and asks the director
    (src/pkg/epp/requestcontrol/director.go) to route it; the director rewrites
    the model, asks admission (requestcontrol/admission.go), locates the candidate
    endpoints (requestcontrol/candidates.go), runs the plugins and schedules; the
    server then forwards the request, passes the response back, and runs the
    completion hooks when the stream ends.

    Admission makes a flow item of a request (src/pkg/epp/flowcontrol/controller/internal/item.go).
    The flow controller (controller/controller.go) opens a session with the flow
    registry (registry/registry.go), which provisions a managed queue for the
    flow on every shard (registry/shard.go, managedqueue.go) and leases flow and
    priority band while the session lasts (registry/leasing.go). It offers the
    item to the shards by their load; the processor of a shard
    (controller/internal/processor.go) enqueues it if the limits allow, and its
    run loop dispatches from the highest priority band, by a fairness policy
    between flows and an ordering policy within one, on a list or a max-min heap
    (framework/plugins/queue). Items end once: dispatched, rejected or evicted;
    the controller reports the outcome. After scheduling, the eviction plugin
    (eviction/) tracks the request while it is in flight. Before scheduling,
    data plugins run in the order of their dependencies
    (src/pkg/epp/datalayer/data_graph.go); one of them computes how much of a
    prompt each server has cached (approximateprefix/), another how many requests
    and tokens are in flight at each server (inflightload/), from which a
    detector computes the saturation that flow control waits for
    (saturationdetector/), and a third one what latency a prediction service
    expects at each server (predictedlatency/, src/sidecars/latencypredictorasync/),
    which a scorer and an admission read. The scheduler (src/pkg/epp/scheduling/) filters the
    candidate endpoints, adds up weighted scores and picks the best ones. The model of a request is
    rewritten by rules (src/pkg/epp/datastore/modelrewritestore.go), and bodies
    are streamed to Envoy in chunks (src/pkg/common/envoy/chunking.go). The pool,
    its endpoints, objectives and rewrites are in the datastore
    (src/pkg/epp/datastore/datastore.go), which reconcilers
    (src/pkg/epp/controller/) keep up to date with the cluster, and the runtime
    of the data layer (src/pkg/epp/datalayer/runtime.go) runs a collector of
    metrics for every endpoint. At start-up the loader (src/pkg/epp/config/loader/)
    makes the scheduler, the data layer, flow control and the parser of a
    configuration, and injects what it omits. A second program, body-based routing
    (src/pkg/bbr/), runs in front of the gateway's routing decision: another
    ext_proc server, whose plugins copy the model of a body, and the base model an
    adapters store has for it, into headers.

    ** Conventions

    A Go panic, and a run that exceeds the fuel of a loop, is [None]; a returned
    error is the right side of a sum; an [int] or [uint64] is a [Z] with its
    wrap-around written out where it can occur ([i64], [u64]). Objects that are
    shared and mutated live in stores: the final states of items and the handles
    of queues in [Store] (FlowTypes), the index field of heap entries in
    EvictionQueue. Concurrency is interleaving of the atomic sections of the code
    (what a mutex, an atomic or a channel operation makes atomic), as labelled
    steps; where an operation is taken as one step, as those of the registry are,
    its theorem says so. Where Go leaves an order open (map iteration, goroutines,
    select, [sort.Slice]) the order is a parameter and the theorems hold for all of
    them; a comparison that ranges over maps takes an order for each loop.
    Third-party code is a parameter with its documented behaviour as laws:
    the LRU cache ([LRULaws]), the digest, JSON marshalling.

    ** Files

    - Prelude: machine integers, the error and loop combinators, [StrictWeak]
      comparisons, arrays as lists with [lswap], sums, filters, folds over maps.
    - FlowTypes, ItemProps: items, outcomes, errors, finalization (item.go,
      types/). The first finalization wins under every interleaving.
    - SafeQueue, ListQueue, HeapOrder, MaxMinHeap, MaxMinHeapSpec, QueueProps,
      QueueFactory: the queue contract as a class with laws, discharged by both
      queues; heap order of additions, clean-ups and head dispatch, and the two
      cases that lose it.
    - Ordering, Fairness: FCFS, EDF, SLO deadline (one strict weak order whatever
      the order of the header maps at each comparison, for names that differ by
      more than case); global strict, round robin.
    - ManagedQueue, RegistryConfig, Leasing, Shard, ShardSpec, Registry,
      RegistrySpec, RegistryGC, RegistryScale, RegistryProps: the registry. Its
      invariant says that statistics equal queue contents, that registered flows
      have queues on all shards, and that leases count sessions. Operations run one
      after the other; while no flow with items is collected, an operation panics
      exactly if it opens a session of an unknown flow at a priority that a
      draining shard has no band for.
    - Processor, ProcessorSpec, ProcessorRun, ProcessorProps: admission within
      limits, strict priority dispatch, sweep, shutdown, and the ownership of
      items while callers, run loop, sweep and shutdown interleave.
    - ControllerConfig, Controller, ControllerProps, ControllerWorkers: the
      contract of EnqueueAndWait, deadlines, distribution by load, at most one
      live worker per shard.
    - Doubles: the double-precision arithmetic of Go on Stdlib's [spec_float]:
      exact conversions, quotients around one, comparison as a weak order.
    - InFlight, InFlightProps: load counters of endpoints under concurrent hooks;
      they count exactly the requests in flight, unless a request has several
      targets or an endpoint is deleted under way.
    - Saturation: the concurrency detector; at capacity it reports at least one
      and stops the dispatch cycle of the processor.
    - Scheduler, SchedulerProps, Scorers, ScorerProps: a scheduling cycle over
      arbitrary plugins picks the best weighted scores of what the filters leave;
      the built-in scorers and filters meet the conditions of that theorem.
    - BinaryHeap, EvictionQueue, EvictionProps: container/heap over an interface
      with laws; the eviction queue refines a map of in-flight requests; the
      eviction loop and its races.
    - RequestQueue: the queue of running requests by latency objective, over the
      same heap; it refines a map for objectives that are numbers.
    - Coalescer: callers, dispatcher, timer and calls of the client of the latency
      predictor. Callers get the predictions of their own requests from a server
      that answers in order, even too few or too many, and get an answer unless
      the client stops.
    - PredictedLatency, PredictedLatencyProps, PredictedLatencyClaims: the producer
      of latency predictions with its hooks. Its counters and queues are exact for
      every proper sequence of hooks, with objectives that are numbers and not
      negative, and a streamed response trains once; the last file has the cases in
      which they are not.
    - LatencyScorer: the scorer and the admission that read the predictions. The
      scorer scores the best tier of endpoints only, and prefers in it those whose
      headrooms are closest to the objectives, or, when told to, those with most
      headroom; admission rejects exactly the sheddable requests without a
      promising endpoint.
    - DataGraph, DataGraphProps: data dependencies; Kahn's algorithm returns a
      topological order or finds a cycle; plugins run after their producers.
    - PrefixIndexer, PrefixHash, PrefixPlugin, PrefixProps, PrefixClaims: the
      prefix cache; the index is the inverse of the caches, the hashes are the
      chain of blocks, and prompts find the server their prefix went to.
    - ModelRewrite, ModelRewriteProps: rewrite rules by precedence, weighted choice.
    - Chunking: bodies and chunks.
    - ReqCtx: the request context, the messages of the protocol, errors and their
      status, well-known headers, and a state, error and panic monad for the code
      that mutates the context.
    - Candidates, CandidatesProps: the subset hint and its cache; cached answers
      are recent answers to the same hint, for hints of the documented form.
    - Admission: the legacy controller and the adapter to flow control; every
      outcome of flow control reaches the client with its status.
    - Director, DirectorProps: the director with everything it calls as an
      argument; it meets the laws the server relies on ([DirectorLaws]), and
      [path_to] is the sequence of calls by which a request reaches its result.
    - Server, ServerProps, ServerClaims: a stream as a list of inputs. Against any
      director that meets the laws, responses are sent in the order of the
      protocol, completion hooks run exactly once, and a request is forwarded
      whole or answered.
    - Lifecycle: server, director and in-flight producer together; a stream takes
      back the load it added.
    - Datastore, DatastoreProps: the datastore over an endpoint factory with laws
      ([FactoryLaws]); what updates, deletions and resyncs do to the endpoints.
    - Runtime: the runtime of the data layer, which meets those laws; a
      configuration it accepts is complete.
    - Reconcile, ReconcileObjects, DatastoreClaims: the reconcilers and a cluster
      that changes under them. Handling the queued requests leaves exactly the
      endpoints the pool wants, and, while the pool is not deleted, exactly the
      objectives and rewrites of the pool; collectors run for exactly the
      endpoints, whatever fails. The cases in which a failed listing, an outdated pool or a
      deleted pool leave the datastore behind the cluster are theorems, too.
    - ConfigLoader, ConfigLoaderProps: defaults, validation and assembly of a
      configuration. Loading returns; what it accepts is complete, and its
      profiles run without a panic; the default configuration is accepted. Which
      picker an incomplete profile gets can depend on the order of a map.
    - AdaptersStore: adapters and base models from config maps; the store answers
      as the config maps say while they are orderly, with the cases in which they
      are not, and a deleted config map that is not forgotten.
    - Bbr, BbrProps: body-based routing. The mutations sent to Envoy replay what
      the plugins did to the headers; a request is forwarded whole or refused; the
      default plugins route it by its model and pass the response back.

    ** Fuel

    Loops that are not structural take fuel, and their lemmas prove that it is
    enough, so no theorem is about a run that stopped early: sifting in a heap
    takes at most as many steps as there are positions (an index strictly moves
    towards the root or the leaves); Kahn's loop takes each node once; the hash
    and chunk loops advance by at least one byte; the distribution loop of the
    controller is bounded by the rounds its environment offers, and its theorem
    speaks of every number of rounds.

    ** Not modelled

    Metrics, logs and traces, except the gauge of running requests; the set-up of
    the gRPC server and the parsing of bodies; Kubernetes clients and generated
    code (what the reconcilers read is an argument); HTTP polling of model
    servers; of the client of the latency predictor all but the coalescer; the
    decoding of YAML and JSON. What they hand to the modelled code is an argument
    there (the metrics, the predictions, the endpoints, the decoded values). *)

From stdpp Require Export base list gmap sets strings numbers sorting fin_maps.
From Stdlib Require Export ZArith Lia.

Open Scope Z_scope.

(** * Machine integers

    A Go [uint64] is a [Z] in [0, 2^64); an [int64] (and an [int], on the
    64-bit platforms the program is built for) is a [Z] in [-2^63, 2^63).
    Arithmetic wraps around as the language specifies. *)

Definition two63 : Z := 9223372036854775808.
Definition two64 : Z := 18446744073709551616.

Definition u64 (z : Z) : Z := z mod two64.
Definition i64 (z : Z) : Z := (z + two63) mod two64 - two63.

Definition is_u64 (z : Z) : Prop := 0 <= z < two64.
Definition is_i64 (z : Z) : Prop := - two63 <= z < two63.

Lemma u64_id z : is_u64 z -> u64 z = z.
Proof. unfold u64, is_u64. intros. by apply Z.mod_small. Qed.

Lemma u64_range z : is_u64 (u64 z).
Proof. unfold u64, is_u64, two64. apply Z.mod_pos_bound. lia. Qed.

Lemma i64_id z : is_i64 z -> i64 z = z.
Proof. unfold i64, is_i64, two63, two64. intros. rewrite Z.mod_small; lia. Qed.

Lemma i64_range z : is_i64 (i64 z).
Proof.
  unfold i64, is_i64, two63, two64.
  pose proof (Z.mod_pos_bound (z + 9223372036854775808) 18446744073709551616). lia.
Qed.

Lemma u64_add_l a b : u64 (u64 a + b) = u64 (a + b).
Proof. unfold u64. by rewrite Zplus_mod_idemp_l. Qed.

Lemma u64_add_r a b : u64 (a + u64 b) = u64 (a + b).
Proof. unfold u64. by rewrite Zplus_mod_idemp_r. Qed.

Lemma u64_sub_l a b : u64 (u64 a - b) = u64 (a - b).
Proof. unfold u64. by rewrite Zminus_mod_idemp_l. Qed.

(** The sum of two wrapped counters is the wrap of the sum: the counters are
    exact modulo the word size, whatever happened before. *)
Lemma i64_add_l a b : i64 (i64 a + b) = i64 (a + b).
Proof.
  unfold i64. f_equal.
  replace ((a + two63) mod two64 - two63 + b + two63)
    with ((a + two63) mod two64 + b) by lia.
  rewrite Zplus_mod_idemp_l. f_equal. lia.
Qed.

Lemma i64_add_r a b : i64 (a + i64 b) = i64 (a + b).
Proof. rewrite Z.add_comm, i64_add_l. f_equal. lia. Qed.

Lemma i64_sub_r a b : i64 (a - i64 b) = i64 (a - b).
Proof.
  unfold i64. f_equal.
  replace (a - ((b + two63) mod two64 - two63) + two63)
    with (a + 2 * two63 - (b + two63) mod two64) by lia.
  rewrite Zminus_mod_idemp_r. f_equal. lia.
Qed.

(** Conversions between the two widths keep the value modulo 2^64. *)
Lemma u64_i64 z : u64 (i64 z) = u64 z.
Proof.
  unfold u64, i64. rewrite Zminus_mod_idemp_l. f_equal. lia.
Qed.

Lemma i64_u64 z : i64 (u64 z) = i64 z.
Proof. unfold i64, u64. by rewrite Zplus_mod_idemp_l. Qed.

Lemma i64_eq_u64 a b : i64 a = i64 b <-> u64 a = u64 b.
Proof.
  split; intros H.
  - by rewrite <- (u64_i64 a), <- (u64_i64 b), H.
  - by rewrite <- (i64_u64 a), <- (i64_u64 b), H.
Qed.

(** * Fallible code

    A function that returns a value or an error returns a sum; the notation
    reads as the check-and-return of the source. *)

Declare Scope flow_scope.
Delimit Scope flow_scope with flow.
Open Scope flow_scope.

Definition ebind {A B E} (m : A + E) (k : A -> B + E) : B + E :=
  match m with inl a => k a | inr e => inr e end.

Notation "x <-? m ; k" := (ebind m (fun x => k))
  (at level 20, m at level 100, k at level 200, only parsing) : flow_scope.

Notation "' x <-? m ; k" := (ebind m (fun x => k))
  (at level 20, x pattern, m at level 100, k at level 200, only parsing) : flow_scope.

(** [for _, x := range l { if err := f(x); err != nil { return err } }] *)
Fixpoint efold {A S E} (f : S -> A -> S + E) (l : list A) (s : S) : S + E :=
  match l with
  | [] => inl s
  | x :: l => s' <-? f s x; efold f l s'
  end.

Lemma ebind_inl {A B E} (m : A + E) (k : A -> B + E) b :
  ebind m k = inl b <-> exists a, m = inl a /\ k a = inl b.
Proof. destruct m; simpl; naive_solver. Qed.

(** What every iteration keeps, the loop keeps. *)
Lemma efold_inv {A S E} (f : S -> A -> S + E) (P : S -> Prop) l s s' :
  (forall s x s', x ∈ l -> P s -> f s x = inl s' -> P s') ->
  P s -> efold f l s = inl s' -> P s'.
Proof.
  revert s. induction l as [|x l IH]; intros s Hf Hs; simpl; [naive_solver|].
  rewrite ebind_inl. intros (s1 & Hs1 & Hrun). eapply IH; [|eapply (Hf s x); eauto; left|done].
  intros. eapply Hf; eauto. by right.
Qed.

(** A loop whose body may panic. *)
Fixpoint ofold {A S} (f : S -> A -> option S) (l : list A) (s : S) : option S :=
  match l with
  | [] => Some s
  | x :: l => s' ← f s x; ofold f l s'
  end.

Lemma ofold_app {A S} (f : S -> A -> option S) l k s : ofold f (l ++ k) s = s' ← ofold f l s; ofold f k s'.
Proof.
  revert s. induction l as [|x l IH]; intros s; [done|]. cbn [app ofold mbind option_bind].
  destruct (f s x) as [s1|]; [apply IH|done].
Qed.

(** A loop whose body never panics from a state that satisfies the invariant
    runs to its end, and keeps the invariant. *)
Lemma ofold_total {A S} (f : S -> A -> option S) (P : list A -> S -> Prop) l s :
  (forall x l s, P (x :: l) s -> exists s', f s x = Some s' /\ P l s') ->
  P l s -> exists s', ofold f l s = Some s' /\ P [] s'.
Proof.
  intros Hf. revert s. induction l as [|x l IH]; intros s Hs; [by exists s|].
  destruct (Hf x l s Hs) as (s1 & Hs1 & HP). cbn [ofold mbind option_bind]. rewrite Hs1. apply IH, HP.
Qed.

(** * Record update

    [r <| field := v |>] is the record [r] with one field replaced, the
    assignment [r.field = v] of the source.  A record type declares how it is
    taken apart and put together again ([Eta]); the setter of a field is found
    by replacing the field there. *)

Class Eta (R : Type) := eta : R -> R.
Class Setter {R T : Type} (proj : R -> T) := set : (T -> T) -> R -> R.
Arguments set {R T} proj {_} f r /.

Ltac solve_setter :=
  match goal with
  | |- @Setter ?R ?T ?proj =>
      let f := fresh "f" in let r := fresh "r" in
      intros f r;
      let e := eval cbv beta delta [eta] in (@eta R _ r) in
      let e := eval hnf in e in
      match eval pattern (proj r) in e with
      | ?g _ => let t := eval cbv beta in (g (f (proj r))) in exact t
      end
  end.

#[export] Hint Extern 1 (Setter _) => solve_setter : typeclass_instances.

Notation "r <| proj := v |>" := (set proj (fun _ => v) r)
  (at level 12, left associativity, only parsing) : flow_scope.

(** * Comparison functions

    Ordering policies, eviction policies and sort callbacks are boolean
    "comes before" tests.  [StrictWeak] is what a sort or a heap needs. *)

Class StrictWeak {A} (less : A -> A -> bool) : Prop := {
  sw_irrefl x : less x x = false;
  sw_trans x y z : less x y = true -> less y z = true -> less x z = true;
  sw_incomp x y z : less x y = false -> less y z = false -> less x z = false
}.

Lemma sw_asym {A} (less : A -> A -> bool) `{!StrictWeak less} x y :
  less x y = true -> less y x = false.
Proof.
  intros H. destruct (less y x) eqn:E; [|done].
  pose proof (sw_trans _ _ _ H E) as Hc. by rewrite sw_irrefl in Hc.
Qed.

Lemma sw_trans_l {A} (less : A -> A -> bool) `{!StrictWeak less} x y z :
  less x y = true -> less z y = false -> less x z = true.
Proof.
  intros H1 H2. destruct (less x z) eqn:E; [done|].
  by rewrite (sw_incomp _ _ _ E H2) in H1.
Qed.

Lemma sw_trans_r {A} (less : A -> A -> bool) `{!StrictWeak less} x y z :
  less y x = false -> less y z = true -> less x z = true.
Proof.
  intros H1 H2. destruct (less x z) eqn:E; [done|].
  by rewrite (sw_incomp _ _ _ H1 E) in H2.
Qed.

Global Instance flip_StrictWeak {A} (less : A -> A -> bool) :
  StrictWeak less -> StrictWeak (flip less).
Proof. intros []; split; unfold flip; eauto. Qed.

(** A comparison through a key is as good as the comparison of the keys. *)
Lemma key_StrictWeak {A B} (f : A -> B) (less : B -> B -> bool) :
  StrictWeak less -> StrictWeak (fun x y => less (f x) (f y)).
Proof. intros []; split; eauto. Qed.

Global Instance Zltb_StrictWeak : StrictWeak Z.ltb.
Proof. split; intros *; rewrite ?Z.ltb_lt, ?Z.ltb_ge; lia. Qed.

(** Lexicographic comparison of two integer keys. *)
Definition lex_ltb (a b : Z * Z) : bool :=
  if negb (fst a =? fst b) then fst a <? fst b else snd a <? snd b.

Global Instance lex_ltb_StrictWeak : StrictWeak lex_ltb.
Proof.
  split; unfold lex_ltb; intros; repeat case_match; simpl in *; lia.
Qed.

(** * Lists as arrays *)

Definition lswap {A} (i j : nat) (l : list A) : list A :=
  match l !! i, l !! j with
  | Some x, Some y => <[j:=x]> (<[i:=y]> l)
  | _, _ => l
  end.

Section lswap.
Context {A : Type}.
Implicit Types l : list A.

Lemma length_lswap i j l : length (lswap i j l) = length l.
Proof. unfold lswap. repeat case_match; by rewrite ?length_insert. Qed.

Lemma lookup_lswap_l i j l x y :
  l !! i = Some x -> l !! j = Some y -> lswap i j l !! i = Some y.
Proof.
  intros Hi Hj. unfold lswap. rewrite Hi, Hj.
  destruct (decide (i = j)) as [->|Hne].
  - rewrite list_lookup_insert_eq; [congruence|].
    rewrite length_insert. by eapply lookup_lt_Some.
  - rewrite list_lookup_insert_ne by done.
    apply list_lookup_insert_eq. by eapply lookup_lt_Some.
Qed.

Lemma lookup_lswap_r i j l x y :
  l !! i = Some x -> l !! j = Some y -> lswap i j l !! j = Some x.
Proof.
  intros Hi Hj. unfold lswap. rewrite Hi, Hj.
  apply list_lookup_insert_eq. rewrite length_insert. by eapply lookup_lt_Some.
Qed.

Lemma lookup_lswap_ne i j k l : k <> i -> k <> j -> lswap i j l !! k = l !! k.
Proof.
  intros. unfold lswap. repeat case_match; rewrite ?list_lookup_insert_ne by done; done.
Qed.

(** Where each element of a swapped list comes from. *)
Lemma lookup_lswap_inv i j k l x y z :
  l !! i = Some x -> l !! j = Some y -> lswap i j l !! k = Some z ->
  (k = i /\ z = y) \/ (k = j /\ z = x) \/ (k <> i /\ k <> j /\ l !! k = Some z).
Proof.
  intros Hi Hj Hk.
  destruct (decide (k = i)) as [->|]; [rewrite (lookup_lswap_l _ _ _ x y) in Hk by done; naive_solver|].
  destruct (decide (k = j)) as [->|]; [rewrite (lookup_lswap_r _ _ _ x y) in Hk by done; naive_solver|].
  rewrite lookup_lswap_ne in Hk by done. naive_solver.
Qed.

Lemma lswap_Permutation i j l : lswap i j l ≡ₚ l.
Proof.
  destruct (l !! i) as [x|] eqn:Hi; [|unfold lswap; by rewrite Hi].
  destruct (l !! j) as [y|] eqn:Hj; [|unfold lswap; by rewrite Hi, Hj].
  apply Permutation_inj. split; [apply length_lswap|].
  exists (fun k => if decide (k = i) then j else if decide (k = j) then i else k).
  split; [intros a b; repeat case_decide; congruence|].
  intros k. repeat case_decide; subst.
  - rewrite Hj. by eapply lookup_lswap_l.
  - rewrite Hi. by eapply lookup_lswap_r.
  - by apply lookup_lswap_ne.
Qed.

Lemma lswap_last i l x y :
  (l ++ [y]) !! i = Some x -> (i < length l)%nat ->
  lswap i (length l) (l ++ [y]) = <[i:=y]> l ++ [x].
Proof.
  intros Hx Hi. apply list_eq. intros k.
  assert (Hl : (l ++ [y]) !! length l = Some y) by (by apply list_lookup_middle).
  destruct (decide (k = i)) as [->|].
  - rewrite (lookup_lswap_l _ _ _ _ _ Hx Hl).
    rewrite lookup_app_l by (by rewrite length_insert).
    by rewrite list_lookup_insert_eq.
  - destruct (decide (k = length l)) as [->|].
    + rewrite (lookup_lswap_r _ _ _ _ _ Hx Hl). symmetry.
      apply list_lookup_middle. by rewrite length_insert.
    + rewrite lookup_lswap_ne by done.
      destruct (decide (k < length l)%nat).
      * rewrite !lookup_app_l by (rewrite ?length_insert; done).
        by rewrite list_lookup_insert_ne.
      * rewrite !lookup_ge_None_2; [done| |]; rewrite length_app, ?length_insert; simpl; lia.
Qed.
End lswap.

(** Filters that keep everything, or nothing. *)
Lemma filter_id {A} (P : A -> Prop) `{!forall x, Decision (P x)} (l : list A) :
  (forall x, x ∈ l -> P x) -> filter P l = l.
Proof.
  induction l as [|x l IH]; intros Hl; [done|]. rewrite filter_cons_True by (apply Hl; left).
  f_equal. apply IH. intros y Hy. apply Hl. by right.
Qed.

Lemma filter_none {A} (P : A -> Prop) `{!forall x, Decision (P x)} (l : list A) :
  (forall x, x ∈ l -> ~ P x) -> filter P l = [].
Proof.
  induction l as [|x l IH]; intros Hl; [done|]. rewrite filter_cons_False by (apply Hl; left).
  apply IH. intros y Hy. apply Hl. by right.
Qed.

(** * Sums *)

Definition sumZ {A} (f : A -> Z) (l : list A) : Z := foldr (fun x a => f x + a) 0 l.

Lemma sumZ_app {A} (f : A -> Z) l k : sumZ f (l ++ k) = sumZ f l + sumZ f k.
Proof. induction l; simpl; lia. Qed.

Lemma sumZ_cons {A} (f : A -> Z) x l : sumZ f (x :: l) = f x + sumZ f l.
Proof. done. Qed.

Lemma sumZ_perm {A} (f : A -> Z) l k : l ≡ₚ k -> sumZ f l = sumZ f k.
Proof. induction 1; simpl; lia. Qed.

Lemma sumZ_ext {A} (f g : A -> Z) l : (forall x, x ∈ l -> f x = g x) -> sumZ f l = sumZ g l.
Proof.
  induction l as [|x l IH]; simpl; [done|]. intros H.
  rewrite (H x), IH; [done| |by left]. intros; apply H; by right.
Qed.

Lemma sumZ_zero {A} (f : A -> Z) l : (forall x, x ∈ l -> f x = 0) -> sumZ f l = 0.
Proof. induction l as [|x l IH]; simpl; [done|]. intros Hf. rewrite (Hf x), IH; set_solver. Qed.

Lemma sumZ_nonneg {A} (f : A -> Z) l : (forall x, x ∈ l -> 0 <= f x) -> 0 <= sumZ f l.
Proof.
  induction l as [|x l IH]; simpl; [lia|]. intros H.
  pose proof (H x ltac:(left)). assert (0 <= sumZ f l) by (apply IH; set_solver). lia.
Qed.

(** * Filtering with a boolean predicate, both halves *)

Definition keep {A} (p : A -> bool) (l : list A) : list A := List.filter (fun x => negb (p x)) l.
Definition take_out {A} (p : A -> bool) (l : list A) : list A := List.filter p l.

Lemma keep_take_out {A} (p : A -> bool) (l : list A) : take_out p l ++ keep p l ≡ₚ l.
Proof.
  induction l as [|x l IH]; simpl; [done|].
  unfold take_out, keep in *. simpl. destruct (p x); simpl.
  - by rewrite IH.
  - rewrite <- Permutation_middle. by rewrite IH.
Qed.

Global Instance take_out_Permutation {A} (p : A -> bool) :
  Proper ((≡ₚ) ==> (≡ₚ)) (take_out p).
Proof.
  unfold take_out. induction 1 as [|x l k _ IH|x y l|l1 l2 l3 _ IH1 _ IH2]; simpl.
  - done.
  - destruct (p x); by rewrite IH.
  - destruct (p x), (p y); try done. constructor.
  - by rewrite IH1.
Qed.

Global Instance keep_Permutation {A} (p : A -> bool) : Proper ((≡ₚ) ==> (≡ₚ)) (keep p).
Proof. apply (take_out_Permutation (fun x => negb (p x))). Qed.

Lemma elem_of_take_out {A} (p : A -> bool) l x : x ∈ take_out p l <-> x ∈ l /\ p x = true.
Proof. unfold take_out. rewrite !list_elem_of_In. apply filter_In. Qed.

Lemma elem_of_keep {A} (p : A -> bool) l x : x ∈ keep p l <-> x ∈ l /\ p x = false.
Proof. unfold keep. rewrite !list_elem_of_In, filter_In, negb_true_iff. done. Qed.

(** [x.Add(^d + 1)] on an atomic uint64: subtraction by two's complement. *)
Definition atomic_sub (x d : Z) : Z := u64 (x + u64 ((two64 - 1 - d) + 1)).

Lemma atomic_sub_spec x d : atomic_sub x d = u64 (x - d).
Proof.
  unfold atomic_sub. rewrite u64_add_r. unfold u64.
  replace (x + (two64 - 1 - d + 1)) with (x - d + 1 * two64) by lia.
  by rewrite Z.mod_add.
Qed.

(** If a duplicate-free key of the elements factors through another key, the
    other key is duplicate-free as well. *)
Lemma NoDup_fmap_factor {A B C} (f : A -> B) (k : A -> C) (g : C -> B) (l : list A) :
  NoDup (f <$> l) -> (forall x, x ∈ l -> f x = g (k x)) -> NoDup (k <$> l).
Proof.
  induction l as [|x l IH]; simpl; [constructor|].
  intros [Hx Hl]%NoDup_cons Hf. apply NoDup_cons. split.
  - intros (y & Hy & Hyl)%list_elem_of_fmap. apply Hx, list_elem_of_fmap.
    exists y. split; [|done]. rewrite !Hf by set_solver. by f_equal.
  - apply IH; [done|]. set_solver.
Qed.

(** ** A list collected from the entries of a map *)

Section map_bind.
Context {K A B : Type} `{Countable K} (f : K * A -> list B).

Lemma bind_insert (m : gmap K A) k y :
  (map_to_list (<[k := y]> m) ≫= f) ≡ₚ f (k, y) ++ (map_to_list (delete k m) ≫= f).
Proof.
  rewrite <- insert_delete_eq, map_to_list_insert by apply lookup_delete_eq. done.
Qed.

Lemma bind_lookup (m : gmap K A) k x :
  m !! k = Some x -> (map_to_list m ≫= f) ≡ₚ f (k, x) ++ (map_to_list (delete k m) ≫= f).
Proof. intros Hx. rewrite <- (insert_id m k x Hx) at 1. apply bind_insert. Qed.

Lemma elem_of_map_bind (m : gmap K A) x :
  x ∈ (map_to_list m ≫= f) <-> exists k y, m !! k = Some y /\ x ∈ f (k, y).
Proof.
  rewrite list_elem_of_bind. split.
  - intros ([k y] & Hx & Hin). exists k, y. split; [by apply elem_of_map_to_list|done].
  - intros (k & y & Hin & Hx). exists (k, y). split; [done|by apply elem_of_map_to_list].
Qed.
End map_bind.

Lemma map_bind_ext {K A A' B} `{Countable K} (f : K * A -> list B) (g : K * A' -> list B)
    (m : gmap K A) (m' : gmap K A') :
  (forall k, match m !! k, m' !! k with
             | Some x, Some y => f (k, x) = g (k, y)
             | None, None => True
             | _, _ => False
             end) ->
  (map_to_list m ≫= f) ≡ₚ (map_to_list m' ≫= g).
Proof.
  revert m'. induction m as [|k x m Hk IH] using map_ind; intros m' Hm.
  - assert (m' = ∅) as ->; [|by rewrite !map_to_list_empty].
    apply map_empty. intros k. specialize (Hm k). rewrite lookup_empty in Hm. by destruct (m' !! k).
  - pose proof (Hm k) as Hk'. rewrite lookup_insert_eq in Hk'. destruct (m' !! k) as [y|] eqn:Hy; [|done].
    rewrite bind_insert, (bind_lookup _ m' k y Hy), Hk', delete_id by done. f_equiv. apply IH.
    intros k1. specialize (Hm k1). destruct (decide (k1 = k)) as [->|].
    + by rewrite Hk, lookup_delete_eq.
    + by rewrite lookup_insert_ne in Hm by done; rewrite lookup_delete_ne.
Qed.
