(* ===== verification/FlowTypes.v ===== *)
(** Requests, flow keys, outcomes, error values and the item life cycle of the
    flow-control layer: pkg/epp/framework/interface/flowcontrol/flow.go,
    pkg/epp/flowcontrol/types/{outcomes,errors}.go,
    pkg/epp/flowcontrol/contracts/errors.go and
    pkg/epp/flowcontrol/controller/internal/item.go.

    A [FlowItem] is a heap object that the controller, the processor and a
    queue share.  [Item] is its immutable part together with its address
    ([itemRef]); its mutable part ([ItemState]) and the queue handles
    ([HandleCell]) live in a [Store] that every operation threads. *)

From S2P Require Import Prelude.

(** * Error values *)

(** The sentinel errors of the layer and of package context. *)
Inductive sentinel :=
  | ErrRejected | ErrEvicted | ErrQueueAtCapacity | ErrTTLExpired
  | ErrContextCancelled | ErrFlowControllerNotRunning
  | ErrFlowInstanceNotFound | ErrFlowIDEmpty | ErrPriorityBandNotFound
  | ErrPolicyQueueIncompatible | ErrInvalidShardCount | ErrShardDraining
  | ErrInvalidQueueItemHandle | ErrQueueItemNotFound
  | ErrIncompatiblePriorityType | ErrProcessorBusy | ErrNoShards
  | ContextCanceled | ContextDeadlineExceeded.

Global Instance sentinel_eq_dec : EqDecision sentinel.
Proof. solve_decision. Defined.

(** An error is a sentinel, an opaque message, or a [fmt.Errorf] that wraps
    other errors with the %w verb. *)
Inductive error :=
  | Sentinel (s : sentinel)
  | Message (msg : string)
  | Wrap (msg : string) (errs : list error).

(** [errors.Is]: the target occurs in the tree of wrapped errors. *)
Fixpoint errors_Is (e : error) (target : sentinel) : bool :=
  match e with
  | Sentinel s => bool_decide (s = target)
  | Message _ => false
  | Wrap _ es => existsb (fun e' => errors_Is e' target) es
  end.

(** * Queue outcomes *)

Inductive QueueOutcome :=
  | QueueOutcomeNotYetFinalized
  | QueueOutcomeDispatched
  | QueueOutcomeRejectedCapacity
  | QueueOutcomeRejectedOther
  | QueueOutcomeEvictedTTL
  | QueueOutcomeEvictedContextCancelled
  | QueueOutcomeEvictedOther.

Global Instance QueueOutcome_eq_dec : EqDecision QueueOutcome.
Proof. solve_decision. Defined.

Definition outcome_String (o : QueueOutcome) : string :=
  match o with
  | QueueOutcomeNotYetFinalized => "NotYetFinalized"
  | QueueOutcomeDispatched => "Dispatched"
  | QueueOutcomeRejectedCapacity => "RejectedCapacity"
  | QueueOutcomeRejectedOther => "RejectedOther"
  | QueueOutcomeEvictedTTL => "EvictedTTL"
  | QueueOutcomeEvictedContextCancelled => "EvictedContextCancelled"
  | QueueOutcomeEvictedOther => "EvictedOther"
  end.

(** The sentinel an outcome's error wraps, as outcomes.go documents it. *)
Definition outcome_class (o : QueueOutcome) : option sentinel :=
  match o with
  | QueueOutcomeRejectedCapacity | QueueOutcomeRejectedOther => Some ErrRejected
  | QueueOutcomeEvictedTTL | QueueOutcomeEvictedContextCancelled
  | QueueOutcomeEvictedOther => Some ErrEvicted
  | _ => None
  end.

(** * Flow keys *)

Record FlowKey := mkFlowKey { ID : string; Priority : Z }.

Global Instance FlowKey_eq_dec : EqDecision FlowKey.
Proof. solve_decision. Defined.

Global Instance FlowKey_countable : Countable FlowKey.
Proof.
  refine (inj_countable' (fun k => (ID k, Priority k)) (fun p => mkFlowKey p.1 p.2) _).
  by intros [].
Defined.

(** [strings.Compare] *)
Definition strings_Compare (a b : string) : Z :=
  match String.compare a b with Lt => -1 | Eq => 0 | Gt => 1 end.

Definition FlowKey_Compare (k other : FlowKey) : Z :=
  if Priority other <? Priority k then -1
  else if Priority k <? Priority other then 1
  else strings_Compare (ID k) (ID other).

(** * Requests and items *)

(** The part of scheduling.LLMRequest the layer reads. *)
Record LLMRequest := mkLLMRequest { Headers : option (gmap string string) }.

Record FlowControlRequest := mkRequest {
  reqID : string;
  reqFlowKey : FlowKey;
  ByteSize : Z;
  InferenceRequest : option LLMRequest;
  ReceivedTimestamp : Z;
  InitialEffectiveTTL : Z
}.

Abbreviation item_ref := positive (only parsing).
Abbreviation handle_ref := positive (only parsing).

Record Item := mkItem {
  itemRef : item_ref;
  enqueueTime : Z;
  effectiveTTL : Z;
  originalRequest : FlowControlRequest
}.

Definition item_bytes (it : Item) : Z := ByteSize (originalRequest it).
Definition item_key (it : Item) : FlowKey := reqFlowKey (originalRequest it).

Record FinalState := mkFinalState { Outcome : QueueOutcome; Err : option error }.

(** The synchronized fields of a FlowItem.  [st_done] is the buffer of the
    channel [done] (capacity 1) and [st_doneClosed] says it was closed;
    [st_once] is the flag of [onceFinalize]. *)
Record ItemState := mkItemState {
  st_handle : option handle_ref;
  st_finalState : option FinalState;
  st_done : list FinalState;
  st_doneClosed : bool;
  st_once : bool
}.

(** The objects behind a QueueItemHandle: the heapItem of a maxMinHeap or the
    listItemHandle of a listQueue, which remembers its owner. *)
Inductive HandleCell :=
  | HeapItem (item : Item) (index : nat) (isInvalidated : bool)
  | ListItemHandle (value : Item) (owner : positive) (isInvalidated : bool).

Record Store := mkStore {
  istates : gmap item_ref ItemState;
  cells : gmap handle_ref HandleCell
}.

Definition set_istates (f : gmap item_ref ItemState) (σ : Store) : Store := mkStore f (cells σ).
Definition set_cells (f : gmap handle_ref HandleCell) (σ : Store) : Store := mkStore (istates σ) f.

(** [NewItem] allocates the object. *)
Definition NewItem (req : FlowControlRequest) (ttl enq : Z) (σ : Store) : Item * Store :=
  let r := fresh (dom (istates σ)) in
  (mkItem r enq ttl req, set_istates (<[r := mkItemState None None [] false false]> (istates σ)) σ).

Definition Handle (it : Item) (σ : Store) : option handle_ref :=
  s ← istates σ !! itemRef it; st_handle s.

Definition FinalState_of (it : Item) (σ : Store) : option FinalState :=
  s ← istates σ !! itemRef it; st_finalState s.

(** Every operation on an unallocated object, every send on a full or closed
    channel and every second close is [None]: the Go program would panic (or
    block) there. *)
Definition SetHandle (it : Item) (h : handle_ref) (σ : Store) : option Store :=
  s ← istates σ !! itemRef it;
  Some (set_istates (<[itemRef it := mkItemState (Some h) (st_finalState s) (st_done s)
                        (st_doneClosed s) (st_once s)]> (istates σ)) σ).

Definition IsInvalidated (h : handle_ref) (σ : Store) : option bool :=
  c ← cells σ !! h;
  Some (match c with HeapItem _ _ b => b | ListItemHandle _ _ b => b end).

Definition Invalidate (h : handle_ref) (σ : Store) : option Store :=
  c ← cells σ !! h;
  Some (set_cells (<[h := match c with
                          | HeapItem it i _ => HeapItem it i true
                          | ListItemHandle it o _ => ListItemHandle it o true
                          end]> (cells σ)) σ).

(** ** Finalization (item.go) *)

(** [finalizeInternal]: publish the state, send it on [done], close [done]. *)
Definition finalizeInternal (outcome : QueueOutcome) (err : option error) (s : ItemState)
  : option ItemState :=
  let fs := mkFinalState outcome err in
  if st_doneClosed s then None
  else if bool_decide (1 <= length (st_done s))%nat then None
  else Some (mkItemState (st_handle s) (Some fs) (st_done s ++ [fs]) true (st_once s)).

(** [sync.Once.Do] around a body. *)
Definition onceDo (body : ItemState -> option ItemState) (s : ItemState) : option ItemState :=
  if st_once s then Some s
  else s' ← body s;
       Some (mkItemState (st_handle s') (st_finalState s') (st_done s') (st_doneClosed s') true).

(** [inferOutcome]: an error that names the TTL, the context or neither, and
    whether the item had been admitted to a queue. *)
Definition inferOutcome (cause : error) (isQueued : bool) : QueueOutcome * error :=
  let '(specificErr, outcomeIfEvicted) :=
    if errors_Is cause ErrTTLExpired || errors_Is cause ContextDeadlineExceeded
    then (Sentinel ErrTTLExpired, QueueOutcomeEvictedTTL)
    else if errors_Is cause ContextCanceled
    then (Wrap "%w: %w" [Sentinel ErrContextCancelled; cause], QueueOutcomeEvictedContextCancelled)
    else (cause, QueueOutcomeEvictedOther) in
  if isQueued
  then (outcomeIfEvicted, Wrap "%w: %w" [Sentinel ErrEvicted; specificErr])
  else (QueueOutcomeRejectedOther, Wrap "%w: %w" [Sentinel ErrRejected; specificErr]).

Definition update_item (it : Item) (f : ItemState -> option ItemState) (σ : Store) : option Store :=
  s ← istates σ !! itemRef it;
  s' ← f s;
  Some (set_istates (<[itemRef it := s']> (istates σ)) σ).

Definition Finalize (it : Item) (cause : error) (σ : Store) : option Store :=
  update_item it (onceDo (fun s =>
    let isQueued := bool_decide (is_Some (st_handle s)) in
    let '(outcome, finalErr) := inferOutcome cause isQueued in
    finalizeInternal outcome (Some finalErr) s)) σ.

Definition FinalizeWithOutcome (it : Item) (outcome : QueueOutcome) (err : option error)
    (σ : Store) : option Store :=
  update_item it (onceDo (finalizeInternal outcome err)) σ.

(** [<-item.Done()] by the single waiting goroutine: the buffered value. *)
Definition recvDone (it : Item) (σ : Store) : option (FinalState * Store) :=
  s ← istates σ !! itemRef it;
  match st_done s with
  | fs :: rest =>
      Some (fs, set_istates (<[itemRef it := mkItemState (st_handle s) (st_finalState s) rest
                                (st_doneClosed s) (st_once s)]> (istates σ)) σ)
  | [] => None
  end.

(** ** The life-cycle invariant of an item *)

(** The contract of outcomes.go between an outcome and its error: no error for
    a dispatch, an error that wraps ErrRejected or ErrEvicted otherwise. *)
Definition fs_ok (fs : FinalState) : Prop :=
  match Outcome fs with
  | QueueOutcomeNotYetFinalized => False
  | QueueOutcomeDispatched => Err fs = None
  | o => exists e s, Err fs = Some e /\ outcome_class o = Some s /\ errors_Is e s = true
  end.

(** Not finalized: nothing published, nothing sent, channel open.  Finalized:
    one value was published and sent, and the channel is closed. *)
Definition item_ok (s : ItemState) : Prop :=
  if st_once s
  then st_doneClosed s = true /\
       exists fs, st_finalState s = Some fs /\ fs_ok fs /\ (st_done s = [fs] \/ st_done s = [])
  else st_doneClosed s = false /\ st_finalState s = None /\ st_done s = [].

Definition store_ok (σ : Store) : Prop := map_Forall (fun _ s => item_ok s) (istates σ).

Definition allocated (it : Item) (σ : Store) : Prop := is_Some (istates σ !! itemRef it).

(** * Lemmas *)

Create HintDb flow.

(** [fmt.Errorf("%w: %w", ...)] wraps both errors. *)
Lemma Is_wrap_l m s e : errors_Is (Wrap m [Sentinel s; e]) s = true.
Proof. simpl. by rewrite bool_decide_eq_true_2. Qed.

Lemma Is_wrap_r m e1 e2 s : errors_Is e2 s = true -> errors_Is (Wrap m [e1; e2]) s = true.
Proof. simpl. intros ->. by rewrite orb_true_r. Qed.

#[export] Hint Resolve Is_wrap_l Is_wrap_r : flow.

Lemma fs_ok_class o e s :
  outcome_class o = Some s -> errors_Is e s = true -> fs_ok (mkFinalState o (Some e)).
Proof. unfold fs_ok. destruct o; simpl; naive_solver. Qed.

Lemma fs_ok_dispatched : fs_ok (mkFinalState QueueOutcomeDispatched None).
Proof. done. Qed.

#[export] Hint Resolve fs_ok_class fs_ok_dispatched : flow.

Lemma inferOutcome_class cause q :
  outcome_class (inferOutcome cause q).1 = Some (if q then ErrEvicted else ErrRejected) /\
  errors_Is (inferOutcome cause q).2 (if q then ErrEvicted else ErrRejected) = true.
Proof. unfold inferOutcome. repeat case_match; simplify_eq/=; done. Qed.

Lemma inferOutcome_fs_ok cause q o e :
  inferOutcome cause q = (o, e) -> fs_ok (mkFinalState o (Some e)).
Proof.
  intros H. destruct (inferOutcome_class cause q) as [H1 H2]. rewrite H in *.
  eauto with flow.
Qed.

(** One finalization attempt on an item that satisfies its invariant. *)
Lemma onceDo_finalizeInternal s o e :
  item_ok s -> fs_ok (mkFinalState o e) ->
  exists s', onceDo (finalizeInternal o e) s = Some s' /\ item_ok s' /\
    st_handle s' = st_handle s /\ st_once s' = true /\
    st_finalState s' = (if st_once s then st_finalState s else Some (mkFinalState o e)).
Proof.
  intros Hok Hfs. unfold onceDo, item_ok, finalizeInternal in *.
  destruct (st_once s) eqn:Ho; [exists s; rewrite Ho; naive_solver|].
  destruct Hok as (Hc & _ & Hd). rewrite Hc, Hd. simpl.
  eexists; split; [done|]. simpl. naive_solver.
Qed.

Lemma store_ok_insert σ r s :
  store_ok σ -> item_ok s -> store_ok (set_istates (<[r := s]> (istates σ)) σ).
Proof. intros. by apply map_Forall_insert_2. Qed.

(** What an update of one item leaves alone. *)
Definition only_item (it : Item) (σ σ' : Store) : Prop :=
  cells σ' = cells σ /\ (forall r, r <> itemRef it -> istates σ' !! r = istates σ !! r) /\
  dom (istates σ') = dom (istates σ).

Lemma only_item_insert it s s0 σ :
  istates σ !! itemRef it = Some s0 ->
  only_item it σ (set_istates (<[itemRef it := s]> (istates σ)) σ).
Proof.
  intros Hs. split_and!; [done| |].
  - intros r Hr. simpl. by rewrite lookup_insert_ne.
  - simpl. rewrite dom_insert_L. apply elem_of_dom_2 in Hs. set_solver.
Qed.

Lemma FinalizeWithOutcome_spec it o e σ s :
  store_ok σ -> istates σ !! itemRef it = Some s -> fs_ok (mkFinalState o e) ->
  exists σ', FinalizeWithOutcome it o e σ = Some σ' /\ store_ok σ' /\ only_item it σ σ' /\
    Handle it σ' = Handle it σ /\
    FinalState_of it σ' =
      match st_finalState s with Some fs => Some fs | None => Some (mkFinalState o e) end.
Proof.
  intros Hok Hs Hfs. pose proof (Hok _ _ Hs) as Hi. simpl in Hi.
  destruct (onceDo_finalizeInternal s o e Hi Hfs) as (s' & Hs' & Hok' & Hh & _ & Hf).
  unfold FinalizeWithOutcome, update_item. rewrite Hs. simpl. rewrite Hs'. simpl.
  eexists; split; [done|]. split_and!; eauto using store_ok_insert, only_item_insert.
  - unfold Handle. simpl. rewrite lookup_insert_eq, Hs. done.
  - unfold FinalState_of. simpl. rewrite lookup_insert_eq. simpl. rewrite Hf.
    unfold item_ok in Hi. destruct (st_once s).
    + destruct Hi as (_ & fs & -> & _). done.
    + destruct Hi as (_ & -> & _). done.
Qed.

(** [Finalize] is [FinalizeWithOutcome] at the inferred outcome. *)
Lemma Finalize_inferred it cause σ s :
  istates σ !! itemRef it = Some s ->
  Finalize it cause σ =
    let '(o, e) := inferOutcome cause (bool_decide (is_Some (st_handle s))) in
    FinalizeWithOutcome it o (Some e) σ.
Proof.
  intros Hs. unfold Finalize, FinalizeWithOutcome, update_item, onceDo. rewrite Hs. simpl.
  by destruct (st_once s), (inferOutcome _ _).
Qed.
