(* ===== verification/ItemProps.v ===== *)
(** Properties of the flow keys and of the life cycle of a flow item. *)

From S2P Require Import Prelude FlowTypes.

(** * Comparison of flow keys *)

Lemma String_compare_refl s : String.compare s s = Eq.
Proof.
  induction s as [|c s IH]; simpl; [done|]. unfold Ascii.compare.
  by rewrite N.compare_refl.
Qed.

Lemma String_compare_trans a b c :
  String.compare a b = Lt -> String.compare b c = Lt -> String.compare a c = Lt.
Proof.
  revert b c. induction a as [|x a IH]; intros [|y b] [|z c]; simpl; try done.
  unfold Ascii.compare.
  destruct (N.compare_spec (Ascii.N_of_ascii x) (Ascii.N_of_ascii y)) as [H1|H1|H1]; [|intros _|done];
  destruct (N.compare_spec (Ascii.N_of_ascii y) (Ascii.N_of_ascii z)) as [H2|H2|H2];
    intros; try done;
  destruct (N.compare_spec (Ascii.N_of_ascii x) (Ascii.N_of_ascii z)) as [H3|H3|H3];
    try done; try lia. by eapply IH.
Qed.

Definition key_before (a b : FlowKey) : Prop := FlowKey_Compare a b < 0.

(** The comparison in terms of priorities and identifiers. *)
Lemma key_before_spec a b :
  key_before a b <-> Priority b < Priority a \/
                     (Priority a = Priority b /\ String.compare (ID a) (ID b) = Lt).
Proof.
  unfold key_before, FlowKey_Compare, strings_Compare.
  destruct (Z.ltb_spec (Priority b) (Priority a)); [lia|].
  destruct (Z.ltb_spec (Priority a) (Priority b)); [lia|].
  destruct (String.compare (ID a) (ID b)); split; intros; try lia; try done.
  - by destruct H1 as [?|[??]]; [lia|].
  - right. split; [lia|done].
  - by destruct H1 as [?|[??]]; [lia|].
Qed.

Lemma FlowKey_Compare_0 a b : FlowKey_Compare a b = 0 <-> a = b.
Proof.
  destruct a as [i p], b as [j q]. unfold FlowKey_Compare, strings_Compare. simpl.
  destruct (Z.ltb_spec q p), (Z.ltb_spec p q); try (split; intros; simplify_eq; lia).
  destruct (String.compare i j) eqn:E; (split; [intros|intros [= -> ->]]); try done.
  - apply String.compare_eq_iff in E as ->. f_equal. lia.
  - by rewrite String_compare_refl in E.
  - by rewrite String_compare_refl in E.
Qed.

Lemma FlowKey_Compare_opp a b : FlowKey_Compare b a = - FlowKey_Compare a b.
Proof.
  unfold FlowKey_Compare, strings_Compare. rewrite (String.compare_antisym (ID b)).
  destruct (Z.ltb_spec (Priority b) (Priority a)), (Z.ltb_spec (Priority a) (Priority b));
    try lia. by destruct (String.compare (ID a) (ID b)).
Qed.

Lemma key_before_trans a b c : key_before a b -> key_before b c -> key_before a c.
Proof.
  rewrite !key_before_spec. intros [H1|[H1 H1']] [H2|[H2 H2']]; try lia.
  right. split; [lia|by eapply String_compare_trans].
Qed.

(** [FlowKey.Compare] is a total order on flow keys that puts higher priorities
    first and orders equal priorities by identifier: it is zero on equal keys
    only, swapping the arguments negates it, and "before" is transitive. *)
Theorem flow_key_compare_total_order a b c :
  (FlowKey_Compare a b = 0 <-> a = b) /\ FlowKey_Compare b a = - FlowKey_Compare a b /\
  (key_before a b -> key_before b c -> key_before a c) /\
  (Priority b < Priority a -> key_before a b).
Proof.
  split_and!; [apply FlowKey_Compare_0|apply FlowKey_Compare_opp|apply key_before_trans|].
  rewrite key_before_spec. by left.
Qed.

(** The priorities of the two keys differ, so every part of the order is used. *)
Lemma flow_key_compare_total_order_witness :
  key_before (mkFlowKey "b" 10) (mkFlowKey "a" 1) /\
  key_before (mkFlowKey "b" 10) (mkFlowKey "c" 1).
Proof.
  split.
  - apply (flow_key_compare_total_order _ _ (mkFlowKey "c" 1)). vm_compute. reflexivity.
  - apply (flow_key_compare_total_order (mkFlowKey "b" 10) (mkFlowKey "a" 1) (mkFlowKey "c" 1));
      vm_compute; reflexivity.
Defined.

(** * Finalization *)

(** What the goroutines that share an item may do to it, in some order: the
    processor links it into a queue, the controller or the processor finalizes
    it by cause, or the processor by outcome. *)
Inductive item_op :=
  | OpSetHandle (h : handle_ref)
  | OpFinalize (cause : error)
  | OpFinalizeWithOutcome (o : QueueOutcome) (e : option error).

Definition item_step (it : Item) (op : item_op) (σ : Store) : option Store :=
  match op with
  | OpSetHandle h => SetHandle it h σ
  | OpFinalize cause => Finalize it cause σ
  | OpFinalizeWithOutcome o e => FinalizeWithOutcome it o e σ
  end.

Fixpoint item_run (it : Item) (ops : list item_op) (σ : Store) : option Store :=
  match ops with
  | [] => Some σ
  | op :: ops => σ' ← item_step it op σ; item_run it ops σ'
  end.

(** The result of the first finalization attempt of a sequence, given whether
    the item is in a queue. *)
Fixpoint first_result (queued : bool) (ops : list item_op) : option FinalState :=
  match ops with
  | [] => None
  | OpSetHandle _ :: ops => first_result true ops
  | OpFinalize cause :: _ =>
      let '(o, e) := inferOutcome cause queued in Some (mkFinalState o (Some e))
  | OpFinalizeWithOutcome o e :: _ => Some (mkFinalState o e)
  end.

(** Explicit outcomes respect the contract between outcome and error. *)
Definition op_ok (op : item_op) : Prop :=
  match op with OpFinalizeWithOutcome o e => fs_ok (mkFinalState o e) | _ => True end.

(** One step of an item whose invariant holds. *)
Lemma item_step_spec it op σ s :
  store_ok σ -> istates σ !! itemRef it = Some s -> op_ok op ->
  exists σ' s', item_step it op σ = Some σ' /\ store_ok σ' /\ istates σ' !! itemRef it = Some s' /\
    (st_once s = true -> st_finalState s' = st_finalState s /\ st_done s' = st_done s /\
       st_once s' = true) /\
    (st_once s = false ->
       match op with
       | OpSetHandle h => st_handle s' = Some h /\ st_once s' = false
       | _ => exists fs, first_result (bool_decide (is_Some (st_handle s))) [op] = Some fs /\
              st_once s' = true /\ st_finalState s' = Some fs /\ st_done s' = [fs]
       end).
Proof.
  intros Hok Hs Hop. pose proof (Hok _ _ Hs) as Hi. simpl in Hi.
  assert (Hfin : forall o e, fs_ok (mkFinalState o e) ->
    exists σ' s', FinalizeWithOutcome it o e σ = Some σ' /\ store_ok σ' /\
      istates σ' !! itemRef it = Some s' /\
      (st_once s = true -> st_finalState s' = st_finalState s /\ st_done s' = st_done s /\
         st_once s' = true) /\
      (st_once s = false -> st_once s' = true /\ st_finalState s' = Some (mkFinalState o e) /\
         st_done s' = [mkFinalState o e])).
  { intros o e Hfs. destruct (onceDo_finalizeInternal s o e Hi Hfs) as (s' & Hs' & Hi' & _).
    unfold FinalizeWithOutcome, update_item. rewrite Hs. simpl. rewrite Hs'. simpl.
    eexists _, s'. split_and!; [done|by apply store_ok_insert|simpl; by rewrite lookup_insert_eq| |].
    - intros Ho. unfold onceDo in Hs'. rewrite Ho in Hs'. by simplify_eq.
    - intros Ho. unfold onceDo, finalizeInternal in Hs'. rewrite Ho in Hs'.
      unfold item_ok in Hi. rewrite Ho in Hi. destruct Hi as (Hc & _ & Hd).
      rewrite Hc, Hd in Hs'. simpl in Hs'. by simplify_eq. }
  destruct op as [h|cause|o e]; simpl.
  - unfold SetHandle. rewrite Hs. simpl.
    eexists _, _. split_and!; [done|by apply store_ok_insert|simpl; by rewrite lookup_insert_eq|done|done].
  - rewrite (Finalize_inferred _ _ _ _ Hs).
    destruct (inferOutcome cause (bool_decide (is_Some (st_handle s)))) as [o e] eqn:E.
    destruct (Hfin o (Some e) (inferOutcome_fs_ok _ _ _ _ E)) as (σ' & s' & ? & ? & ? & ? & ?).
    exists σ', s'. split_and!; eauto.
  - destruct (Hfin o e Hop) as (σ' & s' & ? & ? & ? & ? & ?). exists σ', s'. split_and!; eauto.
Qed.

Lemma item_run_finalized it ops : forall σ s,
  store_ok σ -> istates σ !! itemRef it = Some s -> st_once s = true -> Forall op_ok ops ->
  exists σ' s', item_run it ops σ = Some σ' /\ store_ok σ' /\ istates σ' !! itemRef it = Some s' /\
    st_finalState s' = st_finalState s /\ st_done s' = st_done s.
Proof.
  induction ops as [|op ops IH]; intros σ s Hok Hs Ho Hops; simpl; [by exists σ, s|].
  apply Forall_cons in Hops as [Hop Hops].
  destruct (item_step_spec it op σ s Hok Hs Hop) as (σ1 & s1 & -> & Hok1 & Hs1 & H1 & _).
  destruct (H1 Ho) as (Hf & Hd & Ho1). simpl.
  destruct (IH σ1 s1 Hok1 Hs1 Ho1 Hops) as (σ' & s' & -> & ? & ? & ? & ?).
  exists σ', s'. split_and!; [done|done|done|congruence|congruence].
Qed.

Lemma item_run_spec it ops : forall σ s,
  store_ok σ -> istates σ !! itemRef it = Some s -> st_once s = false -> Forall op_ok ops ->
  exists σ' s', item_run it ops σ = Some σ' /\ store_ok σ' /\ istates σ' !! itemRef it = Some s' /\
    st_finalState s' = first_result (bool_decide (is_Some (st_handle s))) ops /\
    st_done s' = option_list (first_result (bool_decide (is_Some (st_handle s))) ops).
Proof.
  induction ops as [|op ops IH]; intros σ s Hok Hs Ho Hops; simpl.
  { pose proof (Hok _ _ Hs) as Hi. simpl in Hi. unfold item_ok in Hi. rewrite Ho in Hi.
    destruct Hi as (_ & Hf & Hd). by exists σ, s. }
  apply Forall_cons in Hops as [Hop Hops].
  destruct (item_step_spec it op σ s Hok Hs Hop) as (σ1 & s1 & -> & Hok1 & Hs1 & _ & H1).
  specialize (H1 Ho). simpl. destruct op as [h|cause|o e].
  - destruct H1 as [Hh Ho1]. destruct (IH σ1 s1 Hok1 Hs1 Ho1 Hops) as (σ' & s' & -> & ? & ? & ? & ?).
    rewrite Hh in *. by exists σ', s'.
  - destruct H1 as (fs & Hfs & Ho1 & Hf & Hd). simpl in Hfs.
    destruct (item_run_finalized it ops σ1 s1 Hok1 Hs1 Ho1 Hops) as (σ' & s' & -> & ? & ? & Hf' & Hd').
    exists σ', s'. rewrite Hfs, Hf', Hd'. done.
  - destruct H1 as (fs & Hfs & Ho1 & Hf & Hd). simpl in Hfs. simplify_eq.
    destruct (item_run_finalized it ops σ1 s1 Hok1 Hs1 Ho1 Hops) as (σ' & s' & -> & ? & ? & Hf' & Hd').
    exists σ', s'. rewrite Hf', Hd'. done.
Qed.

Lemma NewItem_spec req ttl enq σ it σ' :
  store_ok σ -> NewItem req ttl enq σ = (it, σ') ->
  store_ok σ' /\ istates σ !! itemRef it = None /\ cells σ' = cells σ /\
  istates σ' = <[itemRef it := mkItemState None None [] false false]> (istates σ) /\
  it = mkItem (itemRef it) enq ttl req.
Proof.
  intros Hok [= <- <-]. simpl. pose proof (is_fresh (dom (istates σ))) as Hf.
  apply not_elem_of_dom in Hf. split_and!; [by apply store_ok_insert|done..].
Qed.

(** C35: However the goroutines interleave queueing and finalizing a new item, no
    finalization attempt panics (the [done] channel is neither closed twice nor
    blocked on), and the waiter receives exactly one final state, that of the
    first attempt, judged by whether the item was queued at that moment. *)
Theorem finalize_first_attempt_wins req ttl enq σ it σ0 ops :
  store_ok σ -> NewItem req ttl enq σ = (it, σ0) -> Forall op_ok ops ->
  exists σ', item_run it ops σ0 = Some σ' /\ store_ok σ' /\
    FinalState_of it σ' = first_result false ops /\
    (fst <$> recvDone it σ') = first_result false ops.
Proof.
  intros Hok Hnew Hops. destruct (NewItem_spec _ _ _ _ _ _ Hok Hnew) as (Hok0 & _ & _ & Hi & _).
  destruct (item_run_spec it ops σ0 (mkItemState None None [] false false)) as
    (σ' & s' & Hrun & Hok' & Hs' & Hf & Hd); [done|by rewrite Hi, lookup_insert_eq|done|done|].
  exists σ'. split_and!; [done|done|..].
  - unfold FinalState_of. by rewrite Hs'.
  - unfold recvDone. rewrite Hs'. simpl. rewrite Hd. simpl. by destruct (first_result false ops).
Qed.

Lemma finalize_first_attempt_wins_witness :
  let '(it, σ0) := NewItem (mkRequest "r" (mkFlowKey "f" 0) 5 None 0 0) 10 3 (mkStore ∅ ∅) in
  exists σ', item_run it [OpSetHandle 4; OpFinalize (Sentinel ContextCanceled);
                          OpFinalizeWithOutcome QueueOutcomeDispatched None] σ0 = Some σ' /\
    Outcome <$> FinalState_of it σ' = Some QueueOutcomeEvictedContextCancelled.
Proof.
  destruct (finalize_first_attempt_wins (mkRequest "r" (mkFlowKey "f" 0) 5 None 0 0) 10 3 (mkStore ∅ ∅)
    (NewItem (mkRequest "r" (mkFlowKey "f" 0) 5 None 0 0) 10 3 (mkStore ∅ ∅)).1
    (NewItem (mkRequest "r" (mkFlowKey "f" 0) 5 None 0 0) 10 3 (mkStore ∅ ∅)).2
    [OpSetHandle 4; OpFinalize (Sentinel ContextCanceled);
     OpFinalizeWithOutcome QueueOutcomeDispatched None]) as (σ' & Hrun & _ & Hf & _).
  - intros r s Hr. simpl in Hr. by rewrite lookup_empty in Hr.
  - reflexivity.
  - repeat constructor.
  - exists σ'. split; [exact Hrun|]. exact (f_equal (fmap Outcome) Hf).
Defined.

(** The error of an inferred outcome tells the caller which of the two classes
    the outcome is in, and why: it wraps ErrEvicted exactly for a queued item and
    ErrRejected exactly for one that was not (causes never wrap these), and it
    wraps ErrTTLExpired when the cause was a deadline and ErrContextCancelled
    together with the cause when the context was cancelled. *)
Theorem infer_outcome_error_contract cause queued o e :
  errors_Is cause ErrEvicted = false -> errors_Is cause ErrRejected = false ->
  inferOutcome cause queued = (o, e) ->
  errors_Is e ErrEvicted = queued /\ errors_Is e ErrRejected = negb queued /\
  outcome_class o = Some (if queued then ErrEvicted else ErrRejected) /\
  (o = QueueOutcomeEvictedTTL <->
     queued = true /\ errors_Is cause ErrTTLExpired || errors_Is cause ContextDeadlineExceeded = true) /\
  (o = QueueOutcomeEvictedTTL -> errors_Is e ErrTTLExpired = true) /\
  (o = QueueOutcomeEvictedContextCancelled ->
     errors_Is e ErrContextCancelled = true /\ errors_Is e ContextCanceled = true).
Proof.
  intros He Hr H. unfold inferOutcome in H.
  destruct (errors_Is cause ErrTTLExpired) eqn:H1, (errors_Is cause ContextDeadlineExceeded) eqn:H2,
    (errors_Is cause ContextCanceled) eqn:H3, queued; simpl in H;
    simplify_eq; simpl; rewrite ?He, ?Hr, ?H1, ?H2, ?H3; simpl; naive_solver.
Qed.

Lemma infer_outcome_error_contract_witness :
  errors_Is (inferOutcome (Sentinel ContextDeadlineExceeded) true).2 ErrTTLExpired = true.
Proof.
  apply (infer_outcome_error_contract (Sentinel ContextDeadlineExceeded) true
           QueueOutcomeEvictedTTL (inferOutcome (Sentinel ContextDeadlineExceeded) true).2);
    reflexivity.
Defined.
