(* ===== verification/SafeQueue.v ===== *)
(** The contract of a queue implementation, contracts.SafeQueue
    (pkg/epp/flowcontrol/contracts/queue.go): the operations as a class, and
    the laws a managed queue relies on as a second class.  ListQueue.v and
    MaxMinHeap.v give the instances; ManagedQueue.v and Processor.v are proved
    against the laws. *)

From S2P Require Import Prelude FlowTypes.

Inductive QueueCapability := CapabilityFIFO | CapabilityPriorityConfigurable.

Global Instance QueueCapability_eq_dec : EqDecision QueueCapability.
Proof. solve_decision. Defined.

(** The SafeQueue interface.  An operation that returns [None] is a run-time
    panic; [Remove] returns an item or an error value. *)
Class SafeQueueOps (Q : Type) := {
  sq_Name : Q -> string;
  sq_Capabilities : Q -> list QueueCapability;
  sq_Len : Q -> Z;
  sq_ByteSize : Q -> Z;
  sq_PeekHead : Q -> option Item;
  sq_PeekTail : Q -> option Item;
  sq_Add : Item -> Store -> Q -> option (Store * Q);
  sq_Remove : option handle_ref -> Store -> Q -> option ((Item + error) * Store * Q);
  sq_Cleanup : (Item -> bool) -> Store -> Q -> option (list Item * Store * Q);
  sq_Drain : Store -> Q -> option (list Item * Store * Q)
}.

Definition cell_item (c : HandleCell) : Item :=
  match c with HeapItem x _ _ => x | ListItemHandle x _ _ => x end.

Definition cell_invalid (c : HandleCell) : bool :=
  match c with HeapItem _ _ b => b | ListItemHandle _ _ b => b end.

(** The handle of [x] is live and points back to [x]. *)
Definition holds (σ : Store) (x : Item) : Prop :=
  exists h c, Handle x σ = Some h /\ cells σ !! h = Some c /\
              cell_item c = x /\ cell_invalid c = false.

(** An operation on a queue whose items are [xs] writes no other handle. *)
Definition touches (xs : list Item) (σ σ' : Store) : Prop :=
  forall h c, cells σ !! h = Some c -> (forall x, x ∈ xs -> Handle x σ <> Some h) ->
              cells σ' !! h = Some c.

(** [SetHandle] changes the handle of one item and nothing else. *)
Definition only_handle (it : Item) (σ σ' : Store) : Prop :=
  (forall r, r <> itemRef it -> istates σ' !! r = istates σ !! r) /\
  (forall s, istates σ !! itemRef it = Some s ->
     exists h, istates σ' !! itemRef it =
       Some (mkItemState (Some h) (st_finalState s) (st_done s) (st_doneClosed s) (st_once s))).

Definition invalidated (x : Item) (σ σ' : Store) : Prop :=
  forall h, Handle x σ = Some h -> IsInvalidated h σ' = Some true.

Class SafeQueue (Q : Type) `{!SafeQueueOps Q} := {
  sq_contents : Q -> list Item;
  sq_inv : Store -> Q -> Prop;

  law_handle σ q x : sq_inv σ q -> x ∈ sq_contents q -> holds σ x;
  law_nodup σ q : sq_inv σ q -> NoDup (itemRef <$> sq_contents q);
  law_frame σ σ' q : sq_inv σ q ->
    (forall x, x ∈ sq_contents q -> Handle x σ' = Handle x σ /\
       forall h, Handle x σ = Some h -> cells σ' !! h = cells σ !! h) ->
    sq_inv σ' q;
  law_len q : sq_Len q = Z.of_nat (length (sq_contents q));
  law_bytes σ q : sq_inv σ q -> sq_ByteSize q = u64 (sumZ item_bytes (sq_contents q));
  law_head_none q : sq_PeekHead q = None <-> sq_contents q = [];
  law_head_some q x : sq_PeekHead q = Some x -> x ∈ sq_contents q;

  law_add σ q it : sq_inv σ q -> allocated it σ ->
    (forall x, x ∈ sq_contents q -> itemRef x <> itemRef it) ->
    exists σ' q', sq_Add it σ q = Some (σ', q') /\ sq_inv σ' q' /\
      sq_contents q' ≡ₚ it :: sq_contents q /\ only_handle it σ σ' /\
      touches (sq_contents q) σ σ';
  law_remove σ q x h : sq_inv σ q -> x ∈ sq_contents q -> Handle x σ = Some h ->
    exists σ' q', sq_Remove (Some h) σ q = Some (inl x, σ', q') /\ sq_inv σ' q' /\
      sq_contents q ≡ₚ x :: sq_contents q' /\ istates σ' = istates σ /\
      touches (sq_contents q) σ σ' /\ IsInvalidated h σ' = Some true;
  law_remove_nil σ q :
    sq_Remove None σ q = Some (inr (Sentinel ErrInvalidQueueItemHandle), σ, q);
  law_remove_invalid σ q h : IsInvalidated h σ = Some true ->
    sq_Remove (Some h) σ q = Some (inr (Sentinel ErrInvalidQueueItemHandle), σ, q);
  law_remove_err σ q h e σ' q' :
    sq_Remove h σ q = Some (inr e, σ', q') -> σ' = σ /\ q' = q;
  law_cleanup σ q p : sq_inv σ q ->
    exists removed σ' q', sq_Cleanup p σ q = Some (removed, σ', q') /\ sq_inv σ' q' /\
      removed = take_out p (sq_contents q) /\ sq_contents q' ≡ₚ keep p (sq_contents q) /\
      istates σ' = istates σ /\ touches (sq_contents q) σ σ' /\
      (forall x, x ∈ removed -> invalidated x σ σ');
  law_drain σ q : sq_inv σ q ->
    exists σ' q', sq_Drain σ q = Some (sq_contents q, σ', q') /\ sq_inv σ' q' /\
      sq_contents q' = [] /\ istates σ' = istates σ /\ touches (sq_contents q) σ σ' /\
      (forall x, x ∈ sq_contents q -> invalidated x σ σ')
}.

(** What a dispatcher does with one queue: take the head out, [n] times. *)
Fixpoint pops {Q} `{!SafeQueueOps Q} (n : nat) (σ : Store) (q : Q)
  : option (list Item * Store * Q) :=
  match n with
  | O => Some ([], σ, q)
  | S n =>
      it ← sq_PeekHead q;
      '(r, σ1, q1) ← sq_Remove (Handle it σ) σ q;
      match r with
      | inl x => '(xs, σ2, q2) ← pops n σ1 q1; Some (x :: xs, σ2, q2)
      | inr _ => None
      end
  end.

(** New items, one after the other, into a store and a queue. *)
Fixpoint adds {Q} `{!SafeQueueOps Q} (reqs : list (FlowControlRequest * Z * Z)) (σ : Store) (q : Q)
  : option (Store * Q) :=
  match reqs with
  | [] => Some (σ, q)
  | (req, ttl, enq) :: reqs =>
      let '(it, σ1) := NewItem req ttl enq σ in
      '(σ2, q2) ← sq_Add it σ1 q; adds reqs σ2 q2
  end.

(** ** Facts shared by the implementations *)

(** [item.Handle()] of a list of items, invalidated one after the other. *)
Fixpoint invalidate_all (xs : list Item) (σ : Store) : option Store :=
  match xs with
  | [] => Some σ
  | x :: xs =>
      σ1 ← match Handle x σ with Some h => Invalidate h σ | None => Some σ end;
      invalidate_all xs σ1
  end.

Lemma holds_inj σ x y :
  holds σ x -> holds σ y -> itemRef x = itemRef y -> x = y.
Proof.
  intros (h & c & Hh & Hc & <- & _) (h' & c' & Hh' & Hc' & <- & _) Href.
  assert (h = h') as -> by (unfold Handle in *; rewrite Href in Hh; congruence). congruence.
Qed.

Lemma Handle_istates x σ σ' : istates σ' = istates σ -> Handle x σ' = Handle x σ.
Proof. unfold Handle. by intros ->. Qed.

Lemma touches_refl xs σ : touches xs σ σ.
Proof. by intros h c. Qed.

Lemma touches_trans xs σ1 σ2 σ3 :
  istates σ2 = istates σ1 -> touches xs σ1 σ2 -> touches xs σ2 σ3 -> touches xs σ1 σ3.
Proof.
  intros Hi H12 H23 h c Hc Hx. apply H23; [by apply H12|].
  intros x ?. rewrite (Handle_istates x _ _ Hi). auto.
Qed.

Lemma touches_weaken xs ys σ σ' : xs ⊆ ys -> touches xs σ σ' -> touches ys σ σ'.
Proof. intros Hsub H h c Hc Hy. apply H; auto. Qed.

(** Invalidating one handle touches nothing else. *)
Lemma Invalidate_spec h σ c :
  cells σ !! h = Some c ->
  exists σ' c', Invalidate h σ = Some σ' /\ istates σ' = istates σ /\
    cells σ' = <[h := c']> (cells σ) /\ cell_item c' = cell_item c /\ cell_invalid c' = true.
Proof.
  intros Hc. unfold Invalidate. rewrite Hc. simpl.
  destruct c; eexists _, _; split_and!; try done.
Qed.

Lemma IsInvalidated_cell h σ c :
  cells σ !! h = Some c -> IsInvalidated h σ = Some (cell_invalid c).
Proof. unfold IsInvalidated. intros ->. by destruct c. Qed.

Lemma invalidate_all_spec xs σ :
  (forall x, x ∈ xs -> exists h c, Handle x σ = Some h /\ cells σ !! h = Some c) ->
  exists σ', invalidate_all xs σ = Some σ' /\ istates σ' = istates σ /\
    touches xs σ σ' /\ (forall x, x ∈ xs -> invalidated x σ σ') /\
    (forall h c, cells σ !! h = Some c ->
       exists c', cells σ' !! h = Some c' /\ cell_item c' = cell_item c /\
         (cell_invalid c = true -> cell_invalid c' = true)).
Proof.
  revert σ. induction xs as [|x xs IH]; intros σ Hx; simpl.
  - exists σ. split_and!; [done|done|apply touches_refl|by intros x ?%elem_of_nil|eauto].
  - destruct (Hx x ltac:(left)) as (h & c & Hh & Hc). rewrite Hh.
    destruct (Invalidate_spec h σ c Hc) as (σ1 & c1 & -> & Hi1 & Hc1 & Hit & Hinv). simpl.
    destruct (IH σ1) as (σ2 & -> & Hi2 & Ht & Hall & Hk).
    { intros y Hy. destruct (Hx y ltac:(by right)) as (hy & cy & Hhy & Hcy).
      rewrite (Handle_istates _ _ _ Hi1), Hc1. exists hy.
      destruct (decide (hy = h)) as [->|];
        [rewrite lookup_insert_eq|rewrite lookup_insert_ne by done]; eauto. }
    assert (Hstep : forall h0 c0, cells σ !! h0 = Some c0 ->
       exists c', cells σ2 !! h0 = Some c' /\ cell_item c' = cell_item c0 /\
         (h0 = h \/ cell_invalid c0 = true -> cell_invalid c' = true)).
    { intros h0 c0 Hc0. destruct (decide (h0 = h)) as [->|Hne].
      - destruct (Hk h c1) as (c' & ? & ? & Hmono); [by rewrite Hc1, lookup_insert_eq|].
        exists c'. naive_solver congruence.
      - destruct (Hk h0 c0) as (c' & ? & ? & Hmono); [by rewrite Hc1, lookup_insert_ne|].
        exists c'. naive_solver. }
    exists σ2. split_and!; [done|congruence| | |].
    + intros h0 c0 Hc0 Hno. apply Ht.
      * rewrite Hc1, lookup_insert_ne; [done|]. intros <-. by apply (Hno x); [left|].
      * intros y Hy. rewrite (Handle_istates _ _ _ Hi1). apply Hno. by right.
    + intros y [->|Hy]%elem_of_cons.
      * intros h0 Hh0. assert (h0 = h) as -> by congruence.
        destruct (Hstep h c Hc) as (c' & Hc' & _ & Hv).
        rewrite (IsInvalidated_cell _ _ _ Hc'), Hv; auto.
      * intros h0 Hh0. apply (Hall y Hy). by rewrite (Handle_istates _ _ _ Hi1).
    + intros h0 c0 Hc0. destruct (Hstep h0 c0 Hc0) as (c' & ? & ? & ?). exists c'. naive_solver.
Qed.
