(* ===== verification/ListQueue.v ===== *)
(** The FIFO queue on container/list:
    pkg/epp/flowcontrol/framework/plugins/queue/listqueue.go.

    A list.Element is allocated together with the handle that points to it,
    so an element is identified with its handle's address.  [lq_self] is the
    address of the queue, which a handle stores as its owner. *)

From S2P Require Import Prelude FlowTypes SafeQueue.

Record listQueue := mkListQueue {
  lq_self : positive;
  requests : list (handle_ref * Item);
  byteSize : Z
}.

Definition newListQueue (self : positive) : listQueue := mkListQueue self [] 0.

Definition Add (it : Item) (σ : Store) (lq : listQueue) : option (Store * listQueue) :=
  let h := fresh (dom (cells σ)) in
  let lq' := mkListQueue (lq_self lq) (requests lq ++ [(h, it)])
               (u64 (byteSize lq + item_bytes it)) in
  σ' ← SetHandle it h (set_cells (<[h := ListItemHandle it (lq_self lq) false]> (cells σ)) σ);
  Some (σ', lq').

(** [list.Remove]: unlink the element if it belongs to this list. *)
Definition list_Remove (h : handle_ref) (l : list (handle_ref * Item)) : list (handle_ref * Item) :=
  List.filter (fun e => negb (bool_decide (e.1 = h))) l.

Definition Remove (handle : option handle_ref) (σ : Store) (lq : listQueue)
  : option ((Item + error) * Store * listQueue) :=
  match handle with
  | None => Some (inr (Sentinel ErrInvalidQueueItemHandle), σ, lq)
  | Some h =>
      inv ← IsInvalidated h σ;
      if (inv : bool) then Some (inr (Sentinel ErrInvalidQueueItemHandle), σ, lq)
      else
        c ← cells σ !! h;
        match c with
        | ListItemHandle item owner _ =>
            if bool_decide (owner <> lq_self lq)
            then Some (inr (Sentinel ErrQueueItemNotFound), σ, lq)
            else
              let lq' := mkListQueue (lq_self lq) (list_Remove h (requests lq))
                           (atomic_sub (byteSize lq) (item_bytes item)) in
              σ' ← Invalidate h σ;
              Some (inl item, σ', lq')
        | HeapItem _ _ _ => Some (inr (Sentinel ErrInvalidQueueItemHandle), σ, lq)
        end
  end.

(** The loop of [Cleanup]; [es] are the elements still to visit. *)
Fixpoint cleanup_loop (predicate : Item -> bool) (es : list (handle_ref * Item))
    (removed : list Item) (σ : Store) (lq : listQueue)
  : option (list Item * Store * listQueue) :=
  match es with
  | [] => Some (removed, σ, lq)
  | (e, item) :: es =>
      if predicate item then
        let lq' := mkListQueue (lq_self lq) (list_Remove e (requests lq))
                     (atomic_sub (byteSize lq) (item_bytes item)) in
        σ' ← match Handle item σ with Some h => Invalidate h σ | None => Some σ end;
        cleanup_loop predicate es (removed ++ [item]) σ' lq'
      else cleanup_loop predicate es removed σ lq
  end.

Definition Cleanup (predicate : Item -> bool) (σ : Store) (lq : listQueue)
  : option (list Item * Store * listQueue) :=
  cleanup_loop predicate (requests lq) [] σ lq.

Definition Drain (σ : Store) (lq : listQueue) : option (list Item * Store * listQueue) :=
  let removedItems := (requests lq).*2 in
  σ' ← invalidate_all removedItems σ;
  Some (removedItems, σ', mkListQueue (lq_self lq) [] 0).

Definition Name (lq : listQueue) : string := "ListQueue".
Definition Capabilities (lq : listQueue) : list QueueCapability := [CapabilityFIFO].
Definition Len (lq : listQueue) : Z := Z.of_nat (length (requests lq)).
Definition ByteSize (lq : listQueue) : Z := byteSize lq.
Definition PeekHead (lq : listQueue) : option Item := snd <$> head (requests lq).
Definition PeekTail (lq : listQueue) : option Item := snd <$> last (requests lq).

Global Instance listQueue_ops : SafeQueueOps listQueue := {|
  sq_Name := Name; sq_Capabilities := Capabilities; sq_Len := Len; sq_ByteSize := ByteSize;
  sq_PeekHead := PeekHead; sq_PeekTail := PeekTail;
  sq_Add := Add; sq_Remove := Remove; sq_Cleanup := Cleanup; sq_Drain := Drain
|}.

(** * The contract *)

Definition contents (lq : listQueue) : list Item := (requests lq).*2.

(** Every linked element is the live handle of its item, owned by this queue. *)
Definition inv (σ : Store) (lq : listQueue) : Prop :=
  NoDup (requests lq).*1 /\
  (forall h x, (h, x) ∈ requests lq ->
     Handle x σ = Some h /\ cells σ !! h = Some (ListItemHandle x (lq_self lq) false)) /\
  byteSize lq = u64 (sumZ item_bytes (contents lq)).

Lemma lq_inv_holds σ lq x : inv σ lq -> x ∈ contents lq -> holds σ x.
Proof.
  intros (_ & H & _) ([h x'] & -> & Hx)%list_elem_of_fmap.
  destruct (H _ _ Hx) as [??]. by exists h, (ListItemHandle x' (lq_self lq) false).
Qed.

Lemma lq_inv_nodup σ lq : inv σ lq -> NoDup (itemRef <$> contents lq).
Proof.
  intros (Hnd & H & _). unfold contents. rewrite <- list_fmap_compose.
  apply (NoDup_fmap_factor (Some ∘ fst) _ (fun r => s ← istates σ !! r; st_handle s)).
  - rewrite list_fmap_compose. by apply NoDup_fmap_2; [apply _|].
  - intros [h x] Hx. simpl. by destruct (H _ _ Hx) as [<- _].
Qed.

Lemma list_Remove_notin h l : h ∉ l.*1 -> list_Remove h l = l.
Proof.
  unfold list_Remove. induction l as [|[h' x] l IH]; simpl; [done|]. intros Hn.
  apply not_elem_of_cons in Hn as [Hne Hn]. rewrite bool_decide_eq_false_2 by done.
  simpl. by rewrite IH.
Qed.

Lemma list_Remove_middle h x l k :
  NoDup (l ++ (h, x) :: k).*1 -> list_Remove h (l ++ (h, x) :: k) = l ++ k.
Proof.
  rewrite fmap_app, fmap_cons, NoDup_app, NoDup_cons. simpl. intros (Hl & Hlk & Hk & _).
  unfold list_Remove. rewrite List.filter_app. simpl. rewrite bool_decide_eq_true_2 by done. simpl.
  fold (list_Remove h l) (list_Remove h k). rewrite !list_Remove_notin; [done|done|].
  intros Hh. apply (Hlk h Hh). left.
Qed.

(** Unlinking one element keeps the invariant, whatever happens to its cell. *)
Lemma lq_inv_unlink σ σ' lq l h x k :
  inv σ lq -> requests lq = l ++ (h, x) :: k -> istates σ' = istates σ ->
  (forall h', h' <> h -> cells σ' !! h' = cells σ !! h') ->
  inv σ' (mkListQueue (lq_self lq) (l ++ k) (atomic_sub (byteSize lq) (item_bytes x))).
Proof.
  intros (Hnd & H & Hb) Hr Hi Hc. unfold inv, contents in *. simpl. rewrite Hr in *.
  split_and!.
  - rewrite fmap_app, fmap_cons in Hnd. rewrite fmap_app.
    apply NoDup_app in Hnd as (? & Hd & [??]%NoDup_cons). apply NoDup_app. split_and!; set_solver.
  - intros h' y Hy. destruct (H h' y) as [Hh' Hc']; [set_solver|].
    split; [by rewrite (Handle_istates _ _ _ Hi)|]. rewrite Hc; [done|]. intros ->.
    rewrite fmap_app, fmap_cons in Hnd. simpl in Hnd.
    apply NoDup_app in Hnd as (_ & Hd & [Hk _]%NoDup_cons).
    apply elem_of_app in Hy as [Hy|Hy]; apply (list_elem_of_fmap_2 fst) in Hy; simpl in Hy.
    + apply (Hd h Hy). left.
    + done.
  - rewrite atomic_sub_spec, Hb. rewrite !fmap_app, fmap_cons, !sumZ_app. simpl.
    rewrite u64_sub_l. f_equal. lia.
Qed.

Lemma cleanup_loop_spec p es : forall kept removed σ lq,
  inv σ lq -> requests lq = kept ++ es ->
  exists σ' lq', cleanup_loop p es removed σ lq = Some (removed ++ take_out p es.*2, σ', lq') /\
    inv σ' lq' /\ contents lq' = kept.*2 ++ keep p es.*2 /\ istates σ' = istates σ /\
    touches es.*2 σ σ' /\ (forall x, x ∈ take_out p es.*2 -> invalidated x σ σ').
Proof.
  induction es as [|[h x] es IH]; intros kept removed σ lq Hinv Hr; simpl.
  { exists σ, lq. unfold contents. rewrite Hr, !app_nil_r.
    split_and!; [done..|apply touches_refl|by intros y ?%elem_of_nil]. }
  unfold take_out, keep. simpl. destruct (p x) eqn:Hp; simpl.
  2: { destruct (IH (kept ++ [(h, x)]) removed σ lq Hinv) as (σ' & lq' & -> & ? & Hc & ? & Ht & ?).
       { by rewrite <- app_assoc. }
       exists σ', lq'. split_and!; [done|done| |done| |done].
       - rewrite Hc, fmap_app, <- app_assoc. done.
       - eapply touches_weaken; [|done]. by intros y ?; right. }
  pose proof Hinv as (Hnd & Hel & _).
  destruct (Hel h x) as [Hh Hc]; [rewrite Hr; set_solver|].
  rewrite Hh. destruct (Invalidate_spec h σ _ Hc) as (σ1 & c1 & -> & Hi1 & Hc1 & _ & Hv1). simpl.
  assert (Hne : forall y, y ∈ es.*2 -> Handle y σ <> Some h).
  { intros y ([h' y'] & -> & Hy)%list_elem_of_fmap Hhy. simpl in Hhy.
    destruct (Hel h' y') as [Hh' _]; [rewrite Hr; set_solver|].
    assert (h' = h) as -> by congruence.
    rewrite Hr, fmap_app, fmap_cons, NoDup_app, NoDup_cons in Hnd.
    destruct Hnd as (_ & _ & Hn & _). apply Hn. by apply (list_elem_of_fmap_2 fst) in Hy. }
  set (lq1 := mkListQueue _ _ _).
  assert (Hlq1 : lq1 = mkListQueue (lq_self lq) (kept ++ es)
                         (atomic_sub (byteSize lq) (item_bytes x))).
  { unfold lq1. f_equal. rewrite Hr. apply list_Remove_middle. by rewrite <- Hr. }
  destruct (IH kept (removed ++ [x]) σ1 lq1) as (σ' & lq' & -> & ? & Hcon & Hi2 & Ht & Hall).
  { rewrite Hlq1. eapply lq_inv_unlink; [done|done|done|].
    intros h' ?. by rewrite Hc1, lookup_insert_ne. }
  { by rewrite Hlq1. }
  exists σ', lq'. split_and!; [by rewrite <- app_assoc|done|done|congruence| |].
  - intros h0 c0 Hc0 Hno. apply Ht.
    + rewrite Hc1, lookup_insert_ne; [done|]. intros <-. by apply (Hno x); [left|].
    + intros y ?. rewrite (Handle_istates _ _ _ Hi1). apply Hno. by right.
  - intros y [->|Hy]%elem_of_cons h0 Hh0.
    + assert (h0 = h) as -> by congruence.
      rewrite (IsInvalidated_cell _ _ c1); [by rewrite Hv1|]. apply Ht.
      * by rewrite Hc1, lookup_insert_eq.
      * intros y' ?. rewrite (Handle_istates _ _ _ Hi1). by apply Hne.
    + apply (Hall y Hy). by rewrite (Handle_istates _ _ _ Hi1).
Qed.

Lemma lq_add_spec σ lq it :
  inv σ lq -> allocated it σ -> (forall x, x ∈ contents lq -> itemRef x <> itemRef it) ->
  exists σ' lq', Add it σ lq = Some (σ', lq') /\ inv σ' lq' /\
    contents lq' = contents lq ++ [it] /\ only_handle it σ σ' /\ touches (contents lq) σ σ'.
Proof.
  intros (Hnd & Hel & Hb) [s Hs] Hfresh. unfold Add, SetHandle.
  pose proof (is_fresh (dom (cells σ))) as Hf. apply not_elem_of_dom in Hf.
  set (h := fresh _) in *. simpl. rewrite Hs. simpl.
  eexists _, _; split_and!; [done| | | |].
  - unfold inv, contents in *. simpl. split_and!.
    + rewrite fmap_app. apply NoDup_app. split_and!; [done| |apply NoDup_singleton].
      intros h' ([h1 x1] & -> & Hx1)%list_elem_of_fmap Hh1%list_elem_of_singleton.
      destruct (Hel _ _ Hx1) as [_ Hc]. simpl in *. congruence.
    + intros h' x [Hx|[= -> ->]%list_elem_of_singleton]%elem_of_app.
      * destruct (Hel _ _ Hx) as [Hh Hc]. unfold Handle in *. simpl.
        rewrite lookup_insert_ne, lookup_insert_ne; [done|intros ->; congruence|].
        apply not_eq_sym, Hfresh. by apply (list_elem_of_fmap_2 snd) in Hx.
      * unfold Handle. simpl. by rewrite !lookup_insert_eq.
    + rewrite fmap_app, sumZ_app. simpl. rewrite Hb, u64_add_l. f_equal. lia.
  - unfold contents. simpl. by rewrite fmap_app.
  - split; simpl.
    + intros r Hr. by rewrite lookup_insert_ne.
    + intros s' Hs'. rewrite lookup_insert_eq. naive_solver.
  - intros h0 c Hc _. simpl. rewrite lookup_insert_ne; [done|]. intros <-. congruence.
Qed.

Lemma lq_remove_spec σ lq x h :
  inv σ lq -> x ∈ contents lq -> Handle x σ = Some h ->
  exists σ' lq', Remove (Some h) σ lq = Some (inl x, σ', lq') /\ inv σ' lq' /\
    (exists l k, contents lq = l ++ x :: k /\ contents lq' = l ++ k) /\
    istates σ' = istates σ /\ touches (contents lq) σ σ' /\ IsInvalidated h σ' = Some true.
Proof.
  intros Hinv Hx Hh. pose proof Hinv as (Hnd & Hel & _).
  apply list_elem_of_fmap in Hx as ([h' x'] & -> & Hx). simpl in *.
  destruct (Hel _ _ Hx) as [Hh' Hc]. assert (h' = h) as -> by congruence.
  apply list_elem_of_split in Hx as (l & k & Hr).
  unfold Remove. rewrite (IsInvalidated_cell _ _ _ Hc). simpl. rewrite Hc. simpl.
  rewrite bool_decide_eq_false_2 by naive_solver.
  destruct (Invalidate_spec h σ _ Hc) as (σ1 & c1 & -> & Hi1 & Hc1 & _ & Hv1). simpl.
  rewrite Hr in Hnd |- *. rewrite (list_Remove_middle _ _ _ _ Hnd).
  eexists _, _; split_and!; [done| | |done| |].
  - eapply lq_inv_unlink; [done|done|done|]. intros h' ?. by rewrite Hc1, lookup_insert_ne.
  - exists l.*2, k.*2. unfold contents. simpl. by rewrite Hr, !fmap_app.
  - intros h0 c0 Hc0 Hno. rewrite Hc1, lookup_insert_ne; [done|]. intros <-.
    apply (Hno x'); [|done]. unfold contents. rewrite Hr, fmap_app. set_solver.
  - rewrite (IsInvalidated_cell _ _ c1); [by rewrite Hv1|]. by rewrite Hc1, lookup_insert_eq.
Qed.

Lemma lq_drain_spec σ lq :
  inv σ lq ->
  exists σ' lq', Drain σ lq = Some (contents lq, σ', lq') /\ inv σ' lq' /\ contents lq' = [] /\
    istates σ' = istates σ /\ touches (contents lq) σ σ' /\
    (forall x, x ∈ contents lq -> invalidated x σ σ').
Proof.
  intros Hinv. unfold Drain.
  destruct (invalidate_all_spec (requests lq).*2 σ) as (σ' & -> & Hi & Ht & Hall & _).
  { intros x Hx. destruct (lq_inv_holds _ _ _ Hinv Hx) as (h & c & ? & ? & _). eauto. }
  eexists _, _. split_and!; [done| |done..].
  split_and!; [by constructor|by intros h x ?%elem_of_nil|done].
Qed.

Global Instance listQueue_SafeQueue : SafeQueue listQueue.
Proof.
  refine {| sq_contents := contents; sq_inv := inv |}.
  - apply lq_inv_holds.
  - apply lq_inv_nodup.
  - intros σ σ' lq (Hnd & Hel & Hb) Hf. split_and!; [done| |done]. intros h x Hx.
    destruct (Hel _ _ Hx) as [Hh Hc].
    destruct (Hf x) as [-> Hc']; [by apply (list_elem_of_fmap_2 snd) in Hx|].
    by rewrite (Hc' _ Hh).
  - intros lq. simpl. unfold Len, contents. by rewrite length_fmap.
  - by intros σ lq (_ & _ & ?).
  - intros lq. simpl. unfold PeekHead, contents. by destruct (requests lq).
  - intros lq x. simpl. unfold PeekHead, contents.
    destruct (requests lq) as [|[h y] l]; intros [= <-]. left.
  - intros σ lq it ? ? ?. destruct (lq_add_spec σ lq it) as (σ' & lq' & ? & ? & Hc & ? & ?); [done..|].
    exists σ', lq'. split_and!; try done. by rewrite Hc, <- Permutation_cons_append.
  - intros σ lq x h ? ? ?.
    destruct (lq_remove_spec σ lq x h) as (σ' & lq' & ? & ? & (l & k & Hc & Hc') & ? & ? & ?); [done..|].
    exists σ', lq'. split_and!; try done. by rewrite Hc, Hc', Permutation_middle.
  - done.
  - intros σ lq h Hh. simpl. unfold Remove. by rewrite Hh.
  - intros σ lq [h|] e σ' lq' Hrem; simpl in Hrem; unfold Remove in Hrem; [|naive_solver].
    destruct (IsInvalidated h σ) as [[]|]; simplify_eq/=; [naive_solver|].
    destruct (cells σ !! h) as [[]|]; simplify_eq/=; [naive_solver|].
    case_bool_decide; simplify_eq/=; [naive_solver|].
    destruct (Invalidate h σ); simplify_eq/=.
  - intros σ lq p Hinv. simpl. unfold Cleanup.
    destruct (cleanup_loop_spec p (requests lq) [] [] σ lq Hinv eq_refl)
      as (σ' & lq' & -> & ? & Hc & ? & ? & ?).
    eexists _, σ', lq'. split_and!; try done. by rewrite Hc.
  - apply lq_drain_spec.
Defined.
