(* ===== verification/Ordering.v ===== *)
(** Ordering policies: pkg/epp/framework/plugins/flowcontrol/ordering/{fcfs,edf,
    slo_deadline}.go, with the header lookup of
    pkg/epp/framework/common/request/headers.go they use.

    A time is a number of nanoseconds since the Unix epoch.  [None] is a nil
    item, request or header map.  Strings are byte strings; lower-casing is
    that of ASCII, which is what HTTP field names consist of. *)

From Stdlib Require Import Ascii.
From S2P Require Import Prelude FlowTypes SafeQueue.

(** The part of flowcontrol.QueueItemAccessor that a policy reads. *)
Record QueueItemAccessor := mkAccessor {
  EnqueueTime : Z;
  EffectiveTTL : Z;
  OriginalRequest : option FlowControlRequest
}.

(** A FlowItem seen through the interface. *)
Definition accessor (it : Item) : QueueItemAccessor :=
  mkAccessor (enqueueTime it) (effectiveTTL it) (Some (originalRequest it)).

(** * The standard library functions used *)

Definition byte_ToLower (c : ascii) : ascii :=
  let n := N_of_ascii c in
  if ((65 <=? n) && (n <=? 90))%N then ascii_of_N (n + 32) else c.

Fixpoint strings_ToLower (s : string) : string :=
  match s with
  | EmptyString => EmptyString
  | String c s => String (byte_ToLower c) (strings_ToLower s)
  end.

Definition bytes (l : list N) : list ascii := ascii_of_N <$> l.

(** The UTF-8 encodings of the white space code points of unicode.IsSpace. *)
Definition space_encodings : list (list ascii) :=
  bytes <$> ([[9]; [10]; [11]; [12]; [13]; [32]; [194; 133]; [194; 160]; [225; 154; 128];
    [226; 128; 128]; [226; 128; 129]; [226; 128; 130]; [226; 128; 131]; [226; 128; 132];
    [226; 128; 133]; [226; 128; 134]; [226; 128; 135]; [226; 128; 136]; [226; 128; 137];
    [226; 128; 138]; [226; 128; 168]; [226; 128; 169]; [226; 128; 175]; [226; 129; 159];
    [227; 128; 128]]%N).

(** [s] without the first of [encs] it starts with. *)
Fixpoint strip_one (encs : list (list ascii)) (s : list ascii) : option (list ascii) :=
  match encs with
  | [] => None
  | e :: encs => if bool_decide (take (length e) s = e) then Some (drop (length e) s)
                 else strip_one encs s
  end.

(** Each round drops a byte at least, so the length is enough fuel. *)
Fixpoint trim_left (fuel : nat) (encs : list (list ascii)) (s : list ascii) : list ascii :=
  match fuel with
  | O => s
  | S fuel => match strip_one encs s with Some s' => trim_left fuel encs s' | None => s end
  end.

Definition strings_TrimSpace (s : string) : string :=
  let l := String.list_ascii_of_string s in
  let l1 := trim_left (length l) space_encodings l in
  let l2 := trim_left (length l1) ((@rev ascii) <$> space_encodings) (rev l1) in
  String.string_of_list_ascii (rev l2).

Definition digit (c : ascii) : option Z :=
  let n := Z.of_N (N_of_ascii c) in
  if (48 <=? n) && (n <=? 57) then Some (n - 48) else None.

Fixpoint parse_digits (s : string) (acc : Z) : option Z :=
  match s with
  | EmptyString => Some acc
  | String c s => d ← digit c; parse_digits s (acc * 10 + d)
  end.

(** [strconv.ParseInt(s, 10, 64)]; [None] is a syntax or a range error. *)
Definition strconv_ParseInt (s : string) : option Z :=
  let '(neg, body) := match s with
                      | String "+" r => (false, r)
                      | String "-" r => (true, r)
                      | _ => (false, s)
                      end in
  match body with
  | EmptyString => None
  | _ => n ← parse_digits body 0;
         let v := if (neg : bool) then - n else n in
         if (- two63 <=? v) && (v <? two63) then Some v else None
  end.

(** * Headers *)

Section headers.
(** The order in which a range loop visits the entries of a map.  The runtime
    chooses it anew for every loop: a definition with several loops takes one
    for each. *)
Variable range : gmap string string -> list (string * string).

Definition GetHeader (headers : gmap string string) (key : string) : string :=
  match headers !! key with
  | Some v => v
  | None =>
      let lower := strings_ToLower key in
      match list_find (fun kv => strings_ToLower kv.1 = lower) (range headers) with
      | Some (_, kv) => kv.2
      | None => EmptyString
      end
  end.

(** * First come, first served *)

Definition fcfs_Less (a b : option QueueItemAccessor) : bool :=
  match a, b with
  | None, _ => false
  | Some _, None => true
  | Some a, Some b => EnqueueTime a <? EnqueueTime b
  end.

Definition fcfs_RequiredQueueCapabilities : list QueueCapability := [].

(** * Earliest deadline first *)

Definition maxDeadlineTime : Z := 2 ^ 63 - 1.

Definition calculateDeadline (item : QueueItemAccessor) : Z :=
  let ttl := EffectiveTTL item in
  if ttl <=? 0 then maxDeadlineTime else EnqueueTime item + ttl.

Definition edf_Less (a b : option QueueItemAccessor) : bool :=
  match a, b with
  | None, _ => false
  | Some _, None => true
  | Some a, Some b =>
      let deadlineA := calculateDeadline a in
      let deadlineB := calculateDeadline b in
      if negb (deadlineA =? deadlineB) then deadlineA <? deadlineB
      else EnqueueTime a <? EnqueueTime b
  end.

Definition edf_RequiredQueueCapabilities : list QueueCapability := [CapabilityPriorityConfigurable].

(** * SLO deadline *)

Definition sloTtftHeader : string := "x-slo-ttft-ms".

Definition sloMaxDeadlineTime : Z := 2 ^ 63 - 1.

Definition Millisecond : Z := 1000000.

Definition calculateSLODeadline (item : QueueItemAccessor) : Z :=
  match OriginalRequest item with
  | None => sloMaxDeadlineTime
  | Some req =>
      match InferenceRequest req with
      | None => sloMaxDeadlineTime
      | Some infReq =>
          match Headers infReq with
          | None => sloMaxDeadlineTime
          | Some headers =>
              let sloTtft := GetHeader headers sloTtftHeader in
              if bool_decide (sloTtft = EmptyString) then sloMaxDeadlineTime
              else
                match strconv_ParseInt (strings_TrimSpace sloTtft) with
                | None => sloMaxDeadlineTime
                | Some ms =>
                    if ms <? 0 then sloMaxDeadlineTime
                    else ReceivedTimestamp req + i64 (ms * Millisecond)
                end
          end
      end
  end.

End headers.

(** [rangeA] and [rangeB] are the orders of the two header look-ups of the call. *)
Definition slo_Less (rangeA rangeB : gmap string string -> list (string * string)) (a b : option QueueItemAccessor) : bool :=
  match a, b with
  | None, _ => false
  | Some _, None => true
  | Some a, Some b =>
      let deadlineA := calculateSLODeadline rangeA a in
      let deadlineB := calculateSLODeadline rangeB b in
      if negb (deadlineA =? deadlineB) then deadlineA <? deadlineB
      else
        match OriginalRequest a, OriginalRequest b with
        | None, _ => false
        | Some _, None => true
        | Some reqA, Some reqB => ReceivedTimestamp reqA <? ReceivedTimestamp reqB
        end
  end.

Definition slo_RequiredQueueCapabilities : list QueueCapability := [CapabilityPriorityConfigurable].

(** The interface flowcontrol.OrderingPolicy, with the type and the name of the
    plugin instance, and the three implementations. *)
Record OrderingPolicy := mkOrderingPolicy {
  op_Type : string;
  op_Name : string;
  op_Less : option QueueItemAccessor -> option QueueItemAccessor -> bool;
  op_RequiredQueueCapabilities : list QueueCapability
}.

Definition FCFSOrderingPolicyType : string := "fcfs-ordering-policy".
Definition EDFOrderingPolicyType : string := "edf-ordering-policy".
Definition SLODeadlineOrderingPolicyType : string := "slo-deadline-ordering-policy".

(** [withName]: an empty name keeps the type as the name. *)
Definition withName (typ name : string) : string :=
  if bool_decide (name = EmptyString) then typ else name.

Definition FCFSOrderingPolicyFactory (name : string) : OrderingPolicy :=
  mkOrderingPolicy FCFSOrderingPolicyType (withName FCFSOrderingPolicyType name)
    fcfs_Less fcfs_RequiredQueueCapabilities.
Definition EDFOrderingPolicyFactory (name : string) : OrderingPolicy :=
  mkOrderingPolicy EDFOrderingPolicyType (withName EDFOrderingPolicyType name)
    edf_Less edf_RequiredQueueCapabilities.
(** A comparator is a function here, so the look-ups of this policy use one order;
    [slo_Less_any_order] is why that loses nothing for headers whose names differ
    by more than case. *)
Definition SLODeadlineOrderingPolicyFactory (range : gmap string string -> list (string * string))
    (name : string) : OrderingPolicy :=
  mkOrderingPolicy SLODeadlineOrderingPolicyType (withName SLODeadlineOrderingPolicyType name)
    (slo_Less range range) slo_RequiredQueueCapabilities.

(** The comparator a queue of items is built with. *)
Definition on_items (less : option QueueItemAccessor -> option QueueItemAccessor -> bool)
    (x y : Item) : bool := less (Some (accessor x)) (Some (accessor y)).

(** * Lemmas *)

(** Nil comes last. *)
Lemma nil_last_StrictWeak {A} (less : A -> A -> bool) :
  StrictWeak less ->
  StrictWeak (fun a b : option A =>
    match a, b with None, _ => false | Some _, None => true | Some a, Some b => less a b end).
Proof.
  intros [Hi Ht Hn]. split; [intros [x|]; auto|..]; intros [x|] [y|] [z|]; try done; eauto.
Qed.

Global Instance fcfs_StrictWeak : StrictWeak fcfs_Less.
Proof. apply nil_last_StrictWeak, (key_StrictWeak EnqueueTime). apply _. Qed.

Global Instance edf_StrictWeak : StrictWeak edf_Less.
Proof.
  apply (nil_last_StrictWeak (fun a b => lex_ltb (calculateDeadline a, EnqueueTime a)
                                               (calculateDeadline b, EnqueueTime b))).
  apply (key_StrictWeak (fun a => (calculateDeadline a, EnqueueTime a))). apply _.
Qed.

(** A missing request compares as the latest possible one. *)
Lemma slo_tie_StrictWeak :
  StrictWeak (fun a b : option FlowControlRequest =>
    match a, b with
    | None, _ => false
    | Some _, None => true
    | Some a, Some b => ReceivedTimestamp a <? ReceivedTimestamp b
    end).
Proof. apply nil_last_StrictWeak, (key_StrictWeak ReceivedTimestamp). apply _. Qed.

(** Lexicographic composition of an integer key with a strict weak order. *)
Lemma lex_StrictWeak {A} (k : A -> Z) (less : A -> A -> bool) :
  StrictWeak less ->
  StrictWeak (fun a b => if negb (k a =? k b) then k a <? k b else less a b).
Proof.
  intros [Hi Ht Hn]. split.
  - intros x. rewrite Z.eqb_refl. apply Hi.
  - intros x y z. destruct (Z.eqb_spec (k x) (k y)), (Z.eqb_spec (k y) (k z)),
      (Z.eqb_spec (k x) (k z)); simpl; rewrite ?Z.ltb_lt; intros; try lia; eauto.
  - intros x y z. destruct (Z.eqb_spec (k x) (k y)), (Z.eqb_spec (k y) (k z)),
      (Z.eqb_spec (k x) (k z)); simpl; rewrite ?Z.ltb_ge; intros; try lia; eauto.
Qed.

Global Instance slo_StrictWeak range : StrictWeak (slo_Less range range).
Proof.
  apply (nil_last_StrictWeak (fun a b =>
    if negb (calculateSLODeadline range a =? calculateSLODeadline range b)
    then calculateSLODeadline range a <? calculateSLODeadline range b
    else _)), (lex_StrictWeak (calculateSLODeadline range)).
  exact (key_StrictWeak OriginalRequest _ slo_tie_StrictWeak).
Qed.

Global Instance on_items_StrictWeak less : StrictWeak less -> StrictWeak (on_items less).
Proof. apply (key_StrictWeak (fun x => Some (accessor x))). Qed.

(** * Properties *)

(** EDF dispatches an item with a deadline before the far-future bound ahead
    of every item without a TTL, never the other way round, and orders two items
    without a TTL by arrival. *)
Theorem edf_no_ttl_last a b :
  EffectiveTTL b <= 0 ->
  (0 < EffectiveTTL a -> EnqueueTime a + EffectiveTTL a < maxDeadlineTime ->
   edf_Less (Some a) (Some b) = true /\ edf_Less (Some b) (Some a) = false) /\
  (EffectiveTTL a <= 0 -> edf_Less (Some a) (Some b) = fcfs_Less (Some a) (Some b)).
Proof.
  intros Hb. unfold edf_Less, calculateDeadline, fcfs_Less.
  rewrite (proj2 (Z.leb_le (EffectiveTTL b) 0)) by done. split.
  - intros Ha Hd. rewrite (proj2 (Z.leb_gt (EffectiveTTL a) 0)) by done.
    destruct (Z.eqb_spec (EnqueueTime a + EffectiveTTL a) maxDeadlineTime); [lia|].
    destruct (Z.eqb_spec maxDeadlineTime (EnqueueTime a + EffectiveTTL a)); [lia|]. simpl.
    rewrite Z.ltb_lt, Z.ltb_ge. lia.
  - intros Ha. rewrite (proj2 (Z.leb_le (EffectiveTTL a) 0)) by done. by rewrite Z.eqb_refl.
Qed.

Lemma edf_no_ttl_last_witness :
  edf_Less (Some (mkAccessor 50 100 None)) (Some (mkAccessor 10 0 None)) = true.
Proof.
  apply (edf_no_ttl_last (mkAccessor 50 100 None) (mkAccessor 10 0 None)); vm_compute; congruence.
Defined.

(** Looking a header up does not depend on the iteration order when the names
    differ by more than their case. *)
Lemma GetHeader_found range headers key k v :
  range headers ≡ₚ map_to_list headers ->
  (forall k1 k2, is_Some (headers !! k1) -> is_Some (headers !! k2) ->
     strings_ToLower k1 = strings_ToLower k2 -> k1 = k2) ->
  headers !! k = Some v -> strings_ToLower k = strings_ToLower key ->
  GetHeader range headers key = v.
Proof.
  intros Hr Huniq Hk Hl. unfold GetHeader. destruct (headers !! key) as [w|] eqn:Hkey.
  { assert (k = key) as -> by (apply Huniq; eauto). congruence. }
  destruct (list_find _ _) as [[i [k' v']]|] eqn:Hf.
  - apply list_find_Some in Hf as (Hin & Hl' & _). apply list_elem_of_lookup_2 in Hin.
    rewrite Hr, elem_of_map_to_list in Hin. simpl in *.
    assert (k' = k) as -> by (apply Huniq; eauto; congruence). congruence.
  - apply list_find_None in Hf. rewrite Forall_forall in Hf. exfalso.
    apply (Hf (k, v)); [|done]. by rewrite Hr, elem_of_map_to_list.
Qed.

(** [GetHeader] finds a header whatever the case of its name and in whatever
    order the map is visited, and returns the empty string exactly when no name
    matches or the matching value is empty, provided no two names differ only by
    case. *)
Theorem GetHeader_case_insensitive range headers key :
  range headers ≡ₚ map_to_list headers ->
  (forall k1 k2, is_Some (headers !! k1) -> is_Some (headers !! k2) ->
     strings_ToLower k1 = strings_ToLower k2 -> k1 = k2) ->
  (forall k v, headers !! k = Some v -> strings_ToLower k = strings_ToLower key ->
     GetHeader range headers key = v) /\
  ((forall k v, headers !! k = Some v -> strings_ToLower k <> strings_ToLower key) ->
     GetHeader range headers key = EmptyString).
Proof.
  intros Hr Huniq. split; [intros; by eapply GetHeader_found|].
  intros Hno. unfold GetHeader. destruct (headers !! key) as [w|] eqn:Hkey.
  { by destruct (Hno key w Hkey). }
  destruct (list_find _ _) as [[i [k v]]|] eqn:Hf; [|done].
  apply list_find_Some in Hf as (Hin & Hl & _). apply list_elem_of_lookup_2 in Hin.
  rewrite Hr, elem_of_map_to_list in Hin. by destruct (Hno k v Hin).
Qed.

Lemma GetHeader_case_insensitive_witness :
  GetHeader map_to_list {[ "X-SLO-TTFT-MS" := "250" ]} sloTtftHeader = "250".
Proof.
  apply (GetHeader_case_insensitive map_to_list {[ "X-SLO-TTFT-MS" := "250" ]} sloTtftHeader)
    with (k := "X-SLO-TTFT-MS").
  - done.
  - intros k1 k2 [? [<- _]%lookup_singleton_Some] [? [<- _]%lookup_singleton_Some]. done.
  - done.
  - vm_compute. reflexivity.
Defined.

(** No two header names of an item differ by case only. *)
Definition clear_headers (a : QueueItemAccessor) : Prop :=
  forall req inf headers k1 k2, OriginalRequest a = Some req -> InferenceRequest req = Some inf -> Headers inf = Some headers ->
    is_Some (headers !! k1) -> is_Some (headers !! k2) -> strings_ToLower k1 = strings_ToLower k2 -> k1 = k2.

Lemma GetHeader_any_order range range' headers key :
  range headers ≡ₚ map_to_list headers -> range' headers ≡ₚ map_to_list headers ->
  (forall k1 k2, is_Some (headers !! k1) -> is_Some (headers !! k2) -> strings_ToLower k1 = strings_ToLower k2 -> k1 = k2) ->
  GetHeader range headers key = GetHeader range' headers key.
Proof.
  intros Hr Hr' Hu.
  destruct (decide (Exists (fun kv => strings_ToLower kv.1 = strings_ToLower key) (map_to_list headers))) as [Hex|Hno].
  - apply Exists_exists in Hex as ([k v] & Hin & Hl). apply elem_of_map_to_list in Hin.
    by rewrite (GetHeader_found range _ _ k v Hr Hu Hin Hl), (GetHeader_found range' _ _ k v Hr' Hu Hin Hl).
  - assert (Hn : forall k v, headers !! k = Some v -> strings_ToLower k <> strings_ToLower key).
    { intros k v Hk Hl. apply Hno, Exists_exists. exists (k, v). by rewrite elem_of_map_to_list. }
    by rewrite (proj2 (GetHeader_case_insensitive _ _ _ Hr Hu) Hn), (proj2 (GetHeader_case_insensitive _ _ _ Hr' Hu) Hn).
Qed.

(** Whatever orders the header maps are visited in at each comparison, the SLO
    policy compares items as one strict weak order does, if no two header names of
    an item differ by case only. *)
Theorem slo_Less_any_order :
  exists less, StrictWeak less /\
    forall rangeA rangeB a b, (forall h, rangeA h ≡ₚ map_to_list h) -> (forall h, rangeB h ≡ₚ map_to_list h) ->
      (forall x, a = Some x \/ b = Some x -> clear_headers x) ->
      slo_Less rangeA rangeB a b = less a b.
Proof.
  exists (slo_Less map_to_list map_to_list). split; [apply _|]. intros rangeA rangeB a b HA HB Hc.
  assert (Hd : forall range x, (forall h, range h ≡ₚ map_to_list h) -> clear_headers x ->
    calculateSLODeadline range x = calculateSLODeadline map_to_list x).
  { intros range x Hr Hx. unfold calculateSLODeadline. destruct (OriginalRequest x) as [req|] eqn:Hq; [|done].
    destruct (InferenceRequest req) as [inf|] eqn:Hi; [|done]. destruct (Headers inf) as [h|] eqn:Hh; [|done].
    by rewrite (GetHeader_any_order range map_to_list h sloTtftHeader (Hr h) ltac:(done) (fun k1 k2 => Hx req inf h k1 k2 Hq Hi Hh)). }
  destruct a as [a|], b as [b|]; [|done..]. unfold slo_Less. by rewrite (Hd rangeA a), (Hd rangeB b) by auto.
Qed.

(** The SLO deadline of a request whose header holds a number of milliseconds
    that fits a [time.Duration] is the arrival time plus that many milliseconds,
    and every request without a usable header gets the far-future deadline. *)
Theorem slo_deadline_spec range a req inf headers :
  OriginalRequest a = Some req -> InferenceRequest req = Some inf -> Headers inf = Some headers ->
  (forall ms, strconv_ParseInt (strings_TrimSpace (GetHeader range headers sloTtftHeader)) = Some ms ->
     0 <= ms <= 9223372036854 ->
     calculateSLODeadline range a = ReceivedTimestamp req + ms * 1000000) /\
  (strconv_ParseInt (strings_TrimSpace (GetHeader range headers sloTtftHeader)) = None ->
     calculateSLODeadline range a = sloMaxDeadlineTime) /\
  (forall ms, strconv_ParseInt (strings_TrimSpace (GetHeader range headers sloTtftHeader)) = Some ms ->
     ms < 0 -> calculateSLODeadline range a = sloMaxDeadlineTime).
Proof.
  intros Hreq Hinf Hh. unfold calculateSLODeadline. rewrite Hreq, Hinf, Hh.
  split_and!; [intros ms Hms Hr|intros Hms|intros ms Hms Hr];
    (case_bool_decide as He; [rewrite He in Hms|rewrite Hms]); try done.
  - destruct (Z.ltb_spec ms 0); [lia|]. f_equal. unfold Millisecond.
    apply i64_id. unfold is_i64, two63. lia.
  - destruct (Z.ltb_spec ms 0); [done|lia].
Qed.

Definition slo_item (recv : Z) (v : string) : QueueItemAccessor :=
  mkAccessor recv 0 (Some (mkRequest "r" (mkFlowKey "f" 0) 1
    (Some (mkLLMRequest (Some {[ sloTtftHeader := v ]}))) recv 0)).

Lemma slo_deadline_spec_witness :
  calculateSLODeadline map_to_list (slo_item 7 " 250 ") = 7 + 250 * 1000000.
Proof.
  apply (slo_deadline_spec map_to_list (slo_item 7 " 250 ")
           (mkRequest "r" (mkFlowKey "f" 0) 1
              (Some (mkLLMRequest (Some {[ sloTtftHeader := " 250 " ]}))) 7 0)
           (mkLLMRequest (Some {[ sloTtftHeader := " 250 " ]})) {[ sloTtftHeader := " 250 " ]});
    [reflexivity|reflexivity|reflexivity|vm_compute; reflexivity|lia].
Defined.

(** A header value of 9223372036855 ms or more overflows [time.Duration]: the
    deadline wraps into the past, and the request that asked for the loosest
    latency is dispatched before one that asked for a millisecond. *)
Theorem slo_deadline_overflow :
  let loose := slo_item 0 "9223372036855" in
  let tight := slo_item 0 "1" in
  calculateSLODeadline map_to_list loose < 0 /\
  slo_Less map_to_list map_to_list (Some loose) (Some tight) = true.
Proof. vm_compute. split; reflexivity. Qed.
