(* ===== verification/Fairness.v ===== *)
(** Fairness policies:
    pkg/epp/framework/plugins/flowcontrol/fairness/{besthead,roundrobin}.go.

    A policy sees a priority band as the flows of the band in the order an
    iteration visits them.  [None] is a nil queue or item. *)

From S2P Require Import Prelude FlowTypes ItemProps SafeQueue Ordering.

(** The part of flowcontrol.FlowQueueAccessor that a policy reads. *)
Record FlowView := mkFlowView {
  fv_FlowKey : FlowKey;
  fv_Len : Z;
  fv_PeekHead : option Item;
  fv_OrderingPolicy : OrderingPolicy
}.

(** The opaque per-band state: nil, or the cursor of the round robin. *)
Inductive PolicyState := NoState | RoundRobinCursor (lastSelected : option FlowKey).

(** The interface flowcontrol.FairnessPolicy. *)
Record FairnessPolicy := mkFairnessPolicy {
  fp_Type : string;
  fp_Name : string;
  fp_NewState : PolicyState;
  fp_Pick : list FlowView -> PolicyState -> (option FlowView + error) * PolicyState
}.

(** * Global strict *)

Definition GlobalStrictFairnessPolicyType : string := "global-strict-fairness-policy".

(** The callback of the iteration, with [best] for bestQueue and bestItem. *)
Fixpoint globalStrict_iterate (flows : list FlowView) (best : option (FlowView * Item))
  : option (FlowView * Item) + error :=
  match flows with
  | [] => inl best
  | queue :: flows =>
      if fv_Len queue =? 0 then globalStrict_iterate flows best
      else
        match fv_PeekHead queue with
        | None => globalStrict_iterate flows best
        | Some item =>
            match best with
            | None => globalStrict_iterate flows (Some (queue, item))
            | Some (bestQueue, bestItem) =>
                if bool_decide (op_Type (fv_OrderingPolicy queue) <> op_Type (fv_OrderingPolicy bestQueue))
                then inr (Wrap "%w: expected %q, got %q" [Sentinel ErrIncompatiblePriorityType])
                else if op_Less (fv_OrderingPolicy bestQueue)
                          (Some (accessor item)) (Some (accessor bestItem))
                then globalStrict_iterate flows (Some (queue, item))
                else globalStrict_iterate flows best
            end
        end
  end.

Definition globalStrict_Pick (flows : list FlowView) : option FlowView + error :=
  match globalStrict_iterate flows None with
  | inr err => inr err
  | inl best => inl (fst <$> best)
  end.

Definition newGlobalStrict (name : string) : FairnessPolicy :=
  mkFairnessPolicy GlobalStrictFairnessPolicyType (withName GlobalStrictFairnessPolicyType name)
    NoState (fun flows st => (globalStrict_Pick flows, st)).

(** * Round robin *)

Definition RoundRobinFairnessPolicyType : string := "round-robin-fairness-policy".

Definition key_le (a b : FlowKey) : Prop := FlowKey_Compare a b <= 0.

Global Instance key_le_dec : RelDecision key_le.
Proof. intros a b. unfold key_le. apply _. Defined.

(** [slices.SortFunc(keys, FlowKey.Compare)]; the keys of a band are distinct
    and the order is total, so the result does not depend on the algorithm. *)
Definition sort_keys (keys : list FlowKey) : list FlowKey := merge_sort key_le keys.

(** [slices.Index] *)
Definition slices_Index (keys : list FlowKey) (k : FlowKey) : option nat :=
  fst <$> list_find (k =.) keys.

(** [flowGroup.Queue(id)] *)
Definition band_Queue (flows : list FlowView) (id : string) : option FlowView :=
  snd <$> list_find (fun q => ID (fv_FlowKey q) = id) flows.

(** The loop over the keys, from offset [i]; [n] rounds are left. *)
Fixpoint roundRobin_loop (flows : list FlowView) (keys : list FlowKey) (startIndex i n : nat)
  : option (FlowKey * FlowView) :=
  match n with
  | O => None
  | S n =>
      let currentIdx := ((startIndex + i) mod length keys)%nat in
      match keys !! currentIdx with
      | None => None
      | Some currentKey =>
          match band_Queue flows (ID currentKey) with
          | Some queue => if 0 <? fv_Len queue then Some (currentKey, queue)
                          else roundRobin_loop flows keys startIndex (S i) n
          | None => roundRobin_loop flows keys startIndex (S i) n
          end
      end
  end.

Definition startIndex_of (keys : list FlowKey) (lastSelected : option FlowKey) : nat :=
  match lastSelected with
  | None => 0%nat
  | Some k => match slices_Index keys k with
              | Some idx => ((idx + 1) mod length keys)%nat
              | None => 0%nat
              end
  end.

Definition roundRobin_Pick (flows : list FlowView) (st : PolicyState)
  : (option FlowView + error) * PolicyState :=
  match st with
  | NoState => (inr (Message "invalid state type for RoundRobin policy"), st)
  | RoundRobinCursor lastSelected =>
      let keys := fv_FlowKey <$> flows in
      if bool_decide (length keys = 0%nat) then (inl None, RoundRobinCursor None)
      else
        let keys := sort_keys keys in
        let startIndex := startIndex_of keys lastSelected in
        match roundRobin_loop flows keys startIndex 0 (length keys) with
        | Some (currentKey, queue) => (inl (Some queue), RoundRobinCursor (Some currentKey))
        | None => (inl None, RoundRobinCursor None)
        end
  end.

Definition newRoundRobin (name : string) : FairnessPolicy :=
  mkFairnessPolicy RoundRobinFairnessPolicyType (withName RoundRobinFairnessPolicyType name)
    (RoundRobinCursor None) roundRobin_Pick.

(** * Lemmas on the global strict policy *)

(** A flow that takes part in the comparison. *)
Definition candidate (q : FlowView) (item : Item) : Prop :=
  fv_Len q <> 0 /\ fv_PeekHead q = Some item.

Definition before (less : option QueueItemAccessor -> option QueueItemAccessor -> bool)
    (x y : Item) : bool := less (Some (accessor x)) (Some (accessor y)).

Lemma globalStrict_iterate_spec less typ flows : forall best,
  StrictWeak less ->
  (forall q, q ∈ flows -> op_Type (fv_OrderingPolicy q) = typ /\ op_Less (fv_OrderingPolicy q) = less) ->
  (forall q x, best = Some (q, x) ->
     op_Type (fv_OrderingPolicy q) = typ /\ op_Less (fv_OrderingPolicy q) = less) ->
  exists r, globalStrict_iterate flows best = inl r /\
    (r = None <-> best = None /\ forall q x, q ∈ flows -> ~ candidate q x) /\
    (forall q x, r = Some (q, x) ->
       (best = Some (q, x) \/ q ∈ flows /\ candidate q x) /\
       (forall q' x', best = Some (q', x') \/ q' ∈ flows /\ candidate q' x' ->
          before less x' x = false)).
Proof.
  induction flows as [|q0 flows IH]; intros best Hs Hf Hb; simpl.
  { exists best. split_and!; [done| |].
    - split; [intros ->; split; [done|by intros ?? ?%elem_of_nil]|by intros [? _]].
    - intros q x ->. split; [by left|]. intros q' x' [[= -> ->]|[?%elem_of_nil _]]; [|done].
      apply sw_irrefl. }
  assert (Hf0 : forall q, q ∈ flows ->
    op_Type (fv_OrderingPolicy q) = typ /\ op_Less (fv_OrderingPolicy q) = less) by (intros; apply Hf; by right).
  destruct (Hf q0 ltac:(left)) as [Ht0 Hl0].
  assert (Hskip : (forall x, ~ candidate q0 x) -> exists r, globalStrict_iterate flows best = inl r /\
    (r = None <-> best = None /\ forall q x, q ∈ q0 :: flows -> ~ candidate q x) /\
    (forall q x, r = Some (q, x) ->
       (best = Some (q, x) \/ q ∈ q0 :: flows /\ candidate q x) /\
       (forall q' x', best = Some (q', x') \/ q' ∈ q0 :: flows /\ candidate q' x' ->
          before less x' x = false))).
  { intros Hno. destruct (IH best Hs Hf0 Hb) as (r & Hr & Hn & Hsome). exists r. split; [done|].
    setoid_rewrite elem_of_cons. split.
    - rewrite Hn. naive_solver.
    - intros q x Hq. destruct (Hsome q x Hq) as [H1 H2]. split; [naive_solver|].
      intros q' x' Hq'. apply (H2 q'). naive_solver. }
  destruct (Z.eqb_spec (fv_Len q0) 0) as [H0|H0]; [apply Hskip; intros x [? _]; done|].
  destruct (fv_PeekHead q0) as [item|] eqn:Hh; [|apply Hskip; intros x [_ ?]; congruence].
  assert (Hc : candidate q0 item) by done.
  destruct best as [[bq bi]|].
  - destruct (Hb bq bi eq_refl) as [Htb Hlb].
    rewrite bool_decide_eq_false_2 by (intros Hne; apply Hne; congruence). rewrite Hlb.
    destruct (less (Some (accessor item)) (Some (accessor bi))) eqn:Hless.
    + destruct (IH (Some (q0, item)) Hs Hf0) as (r & Hr & Hn & Hsome); [naive_solver|].
      exists r. split; [done|]. setoid_rewrite elem_of_cons. split.
      { rewrite Hn. naive_solver. }
      intros q x Hq. destruct (Hsome q x Hq) as [H1 H2]. split; [naive_solver|].
      intros q' x' [[= <- <-]|[[->|Hin] Hcq]].
      * unfold before. apply (sw_incomp _ (Some (accessor item))); [by apply sw_asym|apply (H2 q0); by left].
      * destruct Hcq as [_ Hcq]. simplify_eq. apply (H2 q0). by left.
      * apply (H2 q'). by right.
    + destruct (IH (Some (bq, bi)) Hs Hf0 Hb) as (r & Hr & Hn & Hsome).
      exists r. split; [done|]. setoid_rewrite elem_of_cons. split.
      { rewrite Hn. naive_solver. }
      intros q x Hq. destruct (Hsome q x Hq) as [H1 H2]. split; [naive_solver|].
      intros q' x' [[= <- <-]|[[->|Hin] Hcq]].
      * apply (H2 bq). by left.
      * destruct Hcq as [_ Hcq]. simplify_eq.
        unfold before. apply (sw_incomp _ (Some (accessor bi))); [done|apply (H2 bq); by left].
      * apply (H2 q'). by right.
  - destruct (IH (Some (q0, item)) Hs Hf0) as (r & Hr & Hn & Hsome); [naive_solver|].
    exists r. split; [done|]. setoid_rewrite elem_of_cons. split.
    { rewrite Hn. split; [naive_solver|]. intros [_ Hno]. by destruct (Hno q0 item (or_introl eq_refl)). }
    intros q x Hq. destruct (Hsome q x Hq) as [H1 H2]. split; [naive_solver|].
    intros q' x' [?|[[->|Hin] Hcq]]; [done|..].
    + destruct Hcq as [_ Hcq]. simplify_eq. apply (H2 q0). by left.
    + apply (H2 q'). by right.
Qed.

(** * Lemmas on the round robin *)

Definition ready (flows : list FlowView) (k : FlowKey) : bool :=
  match band_Queue flows (ID k) with Some q => 0 <? fv_Len q | None => false end.

Lemma roundRobin_loop_spec flows keys s n : forall i,
  match roundRobin_loop flows keys s i n with
  | Some (k, q) => exists j, (i <= j < i + n)%nat /\ keys !! ((s + j) mod length keys)%nat = Some k /\
      ready flows k = true /\ band_Queue flows (ID k) = Some q /\
      (forall j' k', (i <= j' < j)%nat -> keys !! ((s + j') mod length keys)%nat = Some k' ->
         ready flows k' = false)
  | None => keys = [] \/
      forall j' k', (i <= j' < i + n)%nat -> keys !! ((s + j') mod length keys)%nat = Some k' ->
        ready flows k' = false
  end.
Proof.
  induction n as [|n IH]; intros i; simpl; [right; intros; lia|].
  destruct (keys !! _) as [k0|] eqn:Hk0.
  2: { left. apply lookup_ge_None in Hk0. destruct keys as [|k keys]; [done|exfalso].
       pose proof (Nat.mod_upper_bound (s + i) (length (k :: keys))). simpl in *. lia. }
  assert (Hskip : ready flows k0 = false ->
    match roundRobin_loop flows keys s (S i) n with
    | Some (k, q) => exists j, (i <= j < i + S n)%nat /\ keys !! ((s + j) mod length keys)%nat = Some k /\
        ready flows k = true /\ band_Queue flows (ID k) = Some q /\
        (forall j' k', (i <= j' < j)%nat -> keys !! ((s + j') mod length keys)%nat = Some k' ->
           ready flows k' = false)
    | None => keys = [] \/
        forall j' k', (i <= j' < i + S n)%nat -> keys !! ((s + j') mod length keys)%nat = Some k' ->
          ready flows k' = false
    end).
  { intros Hr. specialize (IH (S i)). destruct (roundRobin_loop flows keys s (S i) n) as [[k q]|].
    - destruct IH as (j & Hj & Hk & Hrk & Hq & Hbefore). exists j. split_and!; [lia|lia|done|done|done|].
      intros j' k' Hj' Hk'. destruct (decide (j' = i)) as [->|]; [congruence|].
      apply (Hbefore j'); [lia|done].
    - destruct IH as [?|IH]; [by left|right]. intros j' k' Hj' Hk'.
      destruct (decide (j' = i)) as [->|]; [congruence|]. apply (IH j'); [lia|done]. }
  destruct (band_Queue flows (ID k0)) as [q|] eqn:Hq;
    [|apply Hskip; unfold ready; by rewrite Hq].
  destruct (0 <? fv_Len q) eqn:Hlen; [|apply Hskip; unfold ready; by rewrite Hq].
  exists i. split_and!; [lia|lia|done|unfold ready; by rewrite Hq|done|lia].
Qed.

Global Instance key_le_total : Total key_le.
Proof. intros a b. unfold key_le. rewrite (FlowKey_Compare_opp a b). lia. Qed.

Global Instance key_le_trans : Transitive key_le.
Proof.
  unfold key_le. intros a b c Hab Hbc.
  destruct (Z.eq_dec (FlowKey_Compare a b) 0) as [->%FlowKey_Compare_0|]; [done|].
  destruct (Z.eq_dec (FlowKey_Compare b c) 0) as [<-%FlowKey_Compare_0|]; [done|].
  assert (key_before a c) by (apply (key_before_trans a b c); unfold key_before; lia).
  unfold key_before in *. lia.
Qed.

Global Instance key_le_antisymm : AntiSymm (=) key_le.
Proof.
  intros a b. unfold key_le. rewrite (FlowKey_Compare_opp a b). intros.
  apply FlowKey_Compare_0. lia.
Qed.

(** Sorting forgets the iteration order of the map the keys come from. *)
Lemma sort_keys_unique l k : l ≡ₚ k -> sort_keys l = sort_keys k.
Proof.
  intros Hp. apply (StronglySorted_unique key_le); [apply StronglySorted_merge_sort; apply _..|].
  unfold sort_keys. by rewrite !merge_sort_Permutation.
Qed.

Lemma sort_keys_Permutation keys : sort_keys keys ≡ₚ keys.
Proof. apply merge_sort_Permutation. Qed.

Lemma slices_Index_Some keys k i :
  NoDup keys -> keys !! i = Some k -> slices_Index keys k = Some i.
Proof.
  intros Hnd Hi. unfold slices_Index. destruct (list_find (k =.) keys) as [[j k']|] eqn:Hf.
  - apply list_find_Some in Hf as (Hj & <- & _). simpl. f_equal. by eapply NoDup_lookup.
  - apply list_find_None in Hf. rewrite Forall_forall in Hf.
    by destruct (Hf k); [eapply list_elem_of_lookup_2|].
Qed.

(** One step or none around the ring. *)
Lemma mod_ring x n : (x < n + n)%nat -> (0 < n)%nat ->
  (x mod n = if decide (x < n) then x else x - n)%nat.
Proof.
  intros Hx Hn. case_decide; [by apply Nat.mod_small|].
  replace x with ((x - n) + 1 * n)%nat at 1 by lia. rewrite Nat.Div0.mod_add.
  apply Nat.mod_small. lia.
Qed.

(** The number of positions from [s] forward to [p] on a ring of [n]. *)
Definition ring_dist (n s p : nat) : nat := (if decide (s <= p) then p - s else p + n - s)%nat.

(** A pick for a sorted key list [keys], with the cursor at [start]. *)
Lemma roundRobin_step flows last keys k p :
  keys = sort_keys (fv_FlowKey <$> flows) -> NoDup keys ->
  keys !! p = Some k -> ready flows k = true ->
  let s := startIndex_of keys last in
  exists k' q c, roundRobin_Pick flows (RoundRobinCursor last) =
      (inl (Some q), RoundRobinCursor (Some k')) /\
    band_Queue flows (ID k') = Some q /\ keys !! c = Some k' /\ ready flows k' = true /\
    (k' = k \/ (ring_dist (length keys) (startIndex_of keys (Some k')) p <
                ring_dist (length keys) s p)%nat).
Proof.
  intros Hkeys Hnd Hp Hr s. assert (Hn : (p < length keys)%nat) by (by eapply lookup_lt_Some).
  assert (Hs : (s < length keys)%nat).
  { unfold s, startIndex_of. destruct last as [k0|]; [|lia].
    destruct (slices_Index keys k0); [apply Nat.mod_upper_bound; lia|lia]. }
  unfold roundRobin_Pick. rewrite bool_decide_eq_false_2.
  2: { intros Hz. rewrite <- (Permutation_length (sort_keys_Permutation _)), <- Hkeys in Hz. lia. }
  rewrite <- Hkeys. fold s.
  pose proof (roundRobin_loop_spec flows keys s (length keys) 0) as Hloop.
  set (d := ring_dist (length keys) s p).
  assert (Hd : ((s + d) mod length keys = p)%nat /\ (d < length keys)%nat).
  { unfold d, ring_dist. case_decide; rewrite mod_ring by lia; case_decide; lia. }
  destruct Hd as [Hd Hdn].
  destruct (roundRobin_loop flows keys s 0 (length keys)) as [[k' q]|].
  2: { exfalso. destruct Hloop as [->|Hno]; [done|].
       rewrite (Hno d k) in Hr; [done|lia|by rewrite Hd]. }
  destruct Hloop as (j & Hj & Hk' & Hrk & Hq & Hbefore).
  exists k', q, ((s + j) mod length keys)%nat. split_and!; [done|done|done|done|].
  assert (Hjd : (j <= d)%nat).
  { destruct (decide (j <= d)%nat) as [|Hgt]; [done|]. exfalso.
    rewrite (Hbefore d k) in Hr; [done|lia|by rewrite Hd]. }
  destruct (decide (j = d)) as [->|]; [left; rewrite Hd in Hk'; congruence|right].
  unfold startIndex_of. rewrite (slices_Index_Some keys k' _ Hnd Hk').
  clear Hd Hbefore Hk'. pose proof (mod_ring (s + j) (length keys)) as Hc.
  set (c := ((s + j) mod length keys)%nat) in *.
  assert (c < length keys)%nat by (apply Nat.mod_upper_bound; lia).
  pose proof (mod_ring (c + 1) (length keys)) as Hc1.
  unfold d, ring_dist in *. repeat case_decide; lia.
Qed.

(** The keys chosen in a series of picks. *)
Fixpoint roundRobin_picks (rounds : list (list FlowView)) (st : PolicyState) : list FlowKey :=
  match rounds with
  | [] => []
  | flows :: rounds =>
      let '(r, st') := roundRobin_Pick flows st in
      match r with inl (Some q) => [fv_FlowKey q] | _ => [] end ++ roundRobin_picks rounds st'
  end.

Lemma band_Queue_key flows k q :
  NoDup (ID <$> (fv_FlowKey <$> flows)) -> k ∈ fv_FlowKey <$> flows ->
  band_Queue flows (ID k) = Some q -> fv_FlowKey q = k.
Proof.
  intros Hnd (q' & -> & Hq')%list_elem_of_fmap Hq. unfold band_Queue in Hq.
  destruct (list_find _ flows) as [[i q0]|] eqn:Hf; [|done]. simpl in Hq. simplify_eq.
  apply list_find_Some in Hf as (Hi & Hid & _). apply list_elem_of_lookup in Hq' as [j Hj].
  rewrite <- list_fmap_compose in Hnd.
  assert (i = j) as ->.
  { eapply (NoDup_lookup _ i j (ID (fv_FlowKey q'))); [done|..]; rewrite list_lookup_fmap.
    - rewrite Hi. simpl. by rewrite Hid.
    - by rewrite Hj. }
  congruence.
Qed.

(** * Properties *)

(** Among flows that share an ordering policy, the global strict policy
    selects a flow whose head item no other head precedes, never fails, and
    selects nothing only when every queue is empty: the band behaves as one
    priority queue. *)
Theorem global_strict_picks_best less typ flows :
  StrictWeak less ->
  (forall q, q ∈ flows -> op_Type (fv_OrderingPolicy q) = typ /\ op_Less (fv_OrderingPolicy q) = less) ->
  exists r, globalStrict_Pick flows = inl r /\
    (r = None <-> forall q x, q ∈ flows -> ~ candidate q x) /\
    (forall q, r = Some q -> q ∈ flows /\ exists x, candidate q x /\
       forall q' x', q' ∈ flows -> candidate q' x' -> before less x' x = false).
Proof.
  intros Hs Hf. destruct (globalStrict_iterate_spec less typ flows None Hs Hf) as (r & Hr & Hn & Hsome);
    [done|].
  exists (fst <$> r). unfold globalStrict_Pick. rewrite Hr. split_and!; [done| |].
  - assert (Hr' : fst <$> r = None <-> r = None) by (by destruct r). rewrite Hr', Hn. naive_solver.
  - intros q Hq. destruct r as [[q0 x]|]; [|done]. simpl in Hq. simplify_eq.
    destruct (Hsome q x eq_refl) as [[?|[? ?]] H2]; [done|]. split; [done|]. exists x.
    split; [done|]. intros q' x' ? ?. apply (H2 q'). by right.
Qed.

Definition sample_flow (id : string) (n : Z) (t : Z) : FlowView :=
  mkFlowView (mkFlowKey id 0) n
    (Some (mkItem 1 t 0 (mkRequest "r" (mkFlowKey id 0) 1 None t 0))) (FCFSOrderingPolicyFactory "").

Lemma global_strict_picks_best_witness :
  exists r, globalStrict_Pick [sample_flow "a" 2 9; sample_flow "b" 1 4; sample_flow "c" 0 1] = inl r /\
    fv_FlowKey <$> r = Some (mkFlowKey "b" 0).
Proof.
  destruct (global_strict_picks_best fcfs_Less FCFSOrderingPolicyType
    [sample_flow "a" 2 9; sample_flow "b" 1 4; sample_flow "c" 0 1]) as (r & Hr & _).
  - apply fcfs_StrictWeak.
  - apply Forall_forall. repeat constructor.
  - exists r. split; [exact Hr|]. vm_compute in Hr. injection Hr as <-. reflexivity.
Defined.

(** C38: Round robin starves no flow: over any consecutive picks, as many as there
    are flows, in which the set of flows stays the same, a flow whose queue is
    never empty is selected at least once, wherever the cursor starts and
    whatever the other queues and the iteration order do. *)
Theorem round_robin_no_starvation keys k rounds last :
  NoDup (ID <$> keys) -> k ∈ keys -> (length keys <= length rounds)%nat ->
  Forall (fun flows => fv_FlowKey <$> flows ≡ₚ keys /\ ready flows k = true) rounds ->
  k ∈ roundRobin_picks rounds (RoundRobinCursor last).
Proof.
  intros Hnd Hk Hlen Hrounds. set (sk := sort_keys keys).
  assert (Hsnd : NoDup sk).
  { unfold sk. rewrite sort_keys_Permutation. by eapply NoDup_fmap_1. }
  assert (Hp : exists p, sk !! p = Some k).
  { apply list_elem_of_lookup. unfold sk. by rewrite sort_keys_Permutation. }
  destruct Hp as [p Hp].
  assert (Hpn : (p < length sk)%nat) by (by eapply lookup_lt_Some).
  assert (Hd : (ring_dist (length sk) (startIndex_of sk last) p < length rounds)%nat).
  { assert (Hl : length sk = length keys) by (unfold sk; by rewrite sort_keys_Permutation).
    assert (startIndex_of sk last < length sk)%nat.
    { unfold startIndex_of. destruct last as [k0|]; [|lia].
      destruct (slices_Index sk k0); [apply Nat.mod_upper_bound; lia|lia]. }
    unfold ring_dist. case_decide; lia. }
  clear Hlen. revert last Hd Hrounds.
  induction rounds as [|flows rounds IH]; intros last Hd Hrounds;
    cbn [length roundRobin_picks] in *; [lia|].
  apply Forall_cons in Hrounds as [[Hfl Hr] Hrounds].
  destruct (roundRobin_step flows last sk k p) as (k' & q & c & -> & Hq & Hc & _ & Hstep);
    [symmetry; by apply sort_keys_unique|done|done|done|].
  assert (Hqk : fv_FlowKey q = k').
  { eapply band_Queue_key; [|rewrite Hfl|done].
    - by rewrite Hfl.
    - rewrite <- (sort_keys_Permutation keys). by eapply list_elem_of_lookup_2. }
  rewrite Hqk. destruct Hstep as [->|Hlt]; [set_solver|].
  apply elem_of_app. right. apply IH; [lia|done].
Qed.

Lemma round_robin_no_starvation_witness :
  mkFlowKey "b" 0 ∈ roundRobin_picks
    [[sample_flow "b" 1 4; sample_flow "a" 5 9]; [sample_flow "a" 4 9; sample_flow "b" 1 4]]
    (RoundRobinCursor (Some (mkFlowKey "b" 0))).
Proof.
  apply (round_robin_no_starvation [mkFlowKey "a" 0; mkFlowKey "b" 0] (mkFlowKey "b" 0)).
  - vm_compute. repeat constructor; set_solver.
  - vm_compute. set_solver.
  - vm_compute. lia.
  - repeat constructor.
Defined.
