(* ===== verification/HeapOrder.v ===== *)
(** Order theory of the max-min heap, on plain lists.

    A node is related to its children and its grandchildren ([edge]).  On a
    min level ([mn p = true]) no descendant may come after it, on a max level
    none may come before it, where [less a b] says that [a] is dispatched
    before [b].  The lemmas treat one orientation; the other one is the same
    statement for [flip less] and [negb ∘ mn]. *)

From S2P Require Import Prelude.

Local Open Scope nat_scope.

Definition child (p j : nat) : Prop := 2 * p + 1 <= j <= 2 * p + 2.
Definition grand (p j : nat) : Prop := 4 * p + 3 <= j <= 4 * p + 6.
Definition edge (p j : nat) : Prop := child p j \/ grand p j.

Section order.
Context {A : Type} (less : A -> A -> bool) (mn : nat -> bool).
Implicit Types (l : list A) (x y : A).

Definition rel (p : nat) (x y : A) : Prop :=
  if mn p then less x y = false else less y x = false.

(** All edges that start at [r] or later are in order. *)
Definition edges_from (r : nat) (l : list A) : Prop :=
  forall p j x y, r <= p -> edge p j -> l !! p = Some x -> l !! j = Some y -> rel p x y.

Definition heap_ok (l : list A) : Prop := edges_from 0 l.

(** Two different positions never hold items of equal priority. *)
Definition no_ties (l : list A) : Prop :=
  forall i j x y, i <> j -> l !! i = Some x -> l !! j = Some y ->
    less x y = true \/ less y x = true.

(** Only the edge into [i] from its grandparent may be out of order. *)
Definition up_inv (l : list A) (i : nat) : Prop :=
  (forall p j x y, edge p j -> ~ (j = i /\ grand p j) ->
     l !! p = Some x -> l !! j = Some y -> rel p x y) /\
  (forall g d x y, grand g i -> edge i d -> l !! g = Some x -> l !! d = Some y -> rel g x y).

(** Only the edges out of [i] may be out of order (above [r]). *)
Definition down_inv (r : nat) (l : list A) (i : nat) : Prop :=
  (forall p j x y, r <= p -> p <> i -> edge p j ->
     l !! p = Some x -> l !! j = Some y -> rel p x y) /\
  (forall p d x y, r <= p -> edge p i -> edge i d ->
     l !! p = Some x -> l !! d = Some y -> rel p x y).
End order.

Lemma rel_flip {A} (less : A -> A -> bool) mn p x y :
  rel (flip less) (fun i => negb (mn i)) p x y <-> rel less mn p x y.
Proof. unfold rel, flip. by destruct (mn p). Qed.

Lemma edges_from_flip {A} (less : A -> A -> bool) mn r l :
  edges_from (flip less) (fun i => negb (mn i)) r l <-> edges_from less mn r l.
Proof.
  unfold edges_from. split; intros H p j x y ????; by eapply rel_flip, H.
Qed.

Lemma up_inv_flip {A} (less : A -> A -> bool) mn l i :
  up_inv (flip (flip less)) (fun i => negb (negb (mn i))) l i <-> up_inv less mn l i.
Proof.
  unfold up_inv, rel, flip. split; intros [H1 H2]; split; intros p; specialize (H1 p);
    specialize (H2 p); rewrite negb_involutive in *; done.
Qed.

Lemma down_inv_flip {A} (less : A -> A -> bool) mn r l i :
  down_inv less mn r l i -> down_inv (flip less) (fun i => negb (mn i)) r l i.
Proof.
  intros [H1 H2]. split; intros; apply rel_flip; eauto.
Qed.

Lemma no_ties_flip {A} (less : A -> A -> bool) (l : list A) :
  no_ties less l -> no_ties (flip less) l.
Proof.
  intros H i j x y Hij Hx Hy. unfold flip. destruct (H i j x y Hij Hx Hy); auto.
Qed.

Lemma no_ties_perm {A} (less : A -> A -> bool) (l k : list A) :
  l ≡ₚ k -> no_ties less l -> no_ties less k.
Proof.
  intros Hp Hl. apply Permutation_sym, Permutation_inj in Hp as (_ & f & Hf & Heq).
  intros i j x y Hij Hx Hy. rewrite Heq in Hx, Hy. eapply Hl; [|done|done].
  intros ?. by apply Hij, (inj f).
Qed.

Lemma no_ties_keep {A} (less : A -> A -> bool) p (l : list A) :
  no_ties less l -> no_ties less (keep p l).
Proof.
  intros Hl%(no_ties_perm _ _ _ (symmetry (keep_take_out p l))).
  set (m := length (take_out p l)) in *. intros i j x y Hij Hx Hy.
  apply (Hl (m + i) (m + j)); [lia|..]; rewrite lookup_app_r by lia; rewrite <- ?Hx, <- ?Hy;
    f_equal; lia.
Qed.

Section moves.
Context {A : Type} (less : A -> A -> bool) (mn : nat -> bool).
Context `{!StrictWeak less}.
Hypothesis mn_child : forall p j, child p j -> mn j = negb (mn p).
Implicit Types (l : list A) (x y : A).

#[local] Abbreviation rel := (rel less mn).
#[local] Abbreviation edges_from := (edges_from less mn).
#[local] Abbreviation heap_ok := (heap_ok less mn).
#[local] Abbreviation up_inv := (up_inv less mn).
#[local] Abbreviation down_inv := (down_inv less mn).

Lemma mn_grand p j : grand p j -> mn j = mn p.
Proof.
  intros H. assert (exists q, child p q /\ child q j) as (q & H1 & H2).
  { unfold grand, child in *. destruct (decide (j <= 4 * p + 4));
      [exists (2 * p + 1)|exists (2 * p + 2)]; lia. }
  rewrite (mn_child q j H2), (mn_child p q H1). by rewrite negb_involutive.
Qed.

(** ** Moving up *)

Lemma up_inv_done l i :
  up_inv l i -> (forall g x y, grand g i -> l !! g = Some x -> l !! i = Some y -> rel g x y) ->
  heap_ok l.
Proof.
  intros [H1 _] H2 p j x y _ He Hx Hy.
  destruct (decide (j = i)) as [->|Hne]; [|apply (H1 p j); naive_solver].
  destruct He as [Hc|Hg]; [|by apply (H2 p)].
  apply (H1 p i); [by left| |done|done]. unfold grand, child in *. lia.
Qed.

Lemma up_inv_swap l i g x y :
  mn i = false -> grand g i -> l !! i = Some x -> l !! g = Some y -> less x y = true ->
  up_inv l i -> up_inv (lswap i g l) g.
Proof.
  intros Hmi Hgi Hx Hy Hxy [H1 H2].
  assert (Hmg : mn g = false) by (by rewrite <- (mn_grand g i Hgi)).
  split.
  - intros p j u v He Hno Hu Hv. unfold grand in Hgi.
    destruct (lookup_lswap_inv _ _ _ _ _ _ _ Hx Hy Hu) as [[-> ->]|[[-> ->]|(Hpi & Hpg & Hu')]];
    destruct (lookup_lswap_inv _ _ _ _ _ _ _ Hx Hy Hv) as [[-> ->]|[[-> ->]|(Hji & Hjg & Hv')]];
    try (unfold edge, child, grand in He; lia).
    + (* out of i: the old grandparent's value now sits there *)
      unfold rel. rewrite Hmi. specialize (H2 g j y v ltac:(done) He Hy Hv').
      unfold HeapOrder.rel in H2. by rewrite Hmg in H2.
    + (* g -> i *) unfold HeapOrder.rel. rewrite Hmg. by apply sw_asym.
    + (* g -> j *) unfold HeapOrder.rel. rewrite Hmg.
      specialize (H1 g j y v He ltac:(naive_solver) Hy Hv'). unfold HeapOrder.rel in H1.
      rewrite Hmg in H1. destruct (less v x) eqn:E; [|done].
      by rewrite (sw_trans _ _ _ E Hxy) in H1.
    + (* p -> i: p is the parent of i *)
      assert (child p i) as Hc by (unfold edge, child, grand in *; lia).
      assert (mn p = true) as Hmp by (rewrite (mn_child _ _ Hc) in Hmi; by destruct (mn p)).
      assert (child g p) as Hgp by (unfold edge, child, grand in *; lia).
      unfold HeapOrder.rel. rewrite Hmp.
      specialize (H1 g p y u (or_introl Hgp) ltac:(naive_solver lia) Hy Hu').
      unfold HeapOrder.rel in H1. by rewrite Hmg in H1.
    + (* p -> g: p is the parent of g *)
      assert (child p g) as Hc by (destruct He; naive_solver).
      assert (mn p = true) as Hmp by (rewrite (mn_child _ _ Hc) in Hmg; by destruct (mn p)).
      unfold HeapOrder.rel. rewrite Hmp.
      specialize (H1 p g u y He ltac:(naive_solver lia) Hu' Hy). unfold HeapOrder.rel in H1.
      rewrite Hmp in H1. destruct (less u x) eqn:E; [|done].
      by rewrite (sw_trans _ _ _ E Hxy) in H1.
    + apply (H1 p j); naive_solver.
  - intros gg d z v Hgg Hd Hz Hv.
    assert (Hmgg : mn gg = false) by (by rewrite <- (mn_grand gg g Hgg)).
    rewrite lookup_lswap_ne in Hz by (unfold grand in *; lia).
    pose proof (H1 gg g z y (or_intror Hgg) ltac:(unfold grand in *; naive_solver lia) Hz Hy) as Hzy.
    unfold HeapOrder.rel in *. rewrite Hmgg in *.
    destruct (lookup_lswap_inv _ _ _ _ _ _ _ Hx Hy Hv) as [[-> ->]|[[-> ->]|(Hdi & Hdg & Hv')]];
      [done|unfold edge, child, grand in *; lia|].
    specialize (H1 g d y v Hd ltac:(naive_solver) Hy Hv'). unfold HeapOrder.rel in H1.
    rewrite Hmg in H1. by apply (sw_incomp _ y).
Qed.

(** The first comparison of a new leaf with its parent. *)
Lemma up_first_swap l i p x y :
  mn i = true -> child p i -> l !! i = Some x -> l !! p = Some y -> less x y = true ->
  length l = S i ->
  (forall p j x y, edge p j -> j <> i -> l !! p = Some x -> l !! j = Some y -> rel p x y) ->
  up_inv (lswap i p l) p.
Proof.
  intros Hmi Hpi Hx Hy Hxy Hlen H1.
  assert (Hmp : mn p = false) by (rewrite (mn_child _ _ Hpi) in Hmi; by destruct (mn p)).
  assert (Hleaf : forall j v, lswap i p l !! j = Some v -> j <= i).
  { intros j v Hj%lookup_lt_Some. rewrite length_lswap in Hj. lia. }
  split.
  - intros p' j u v He Hno Hu Hv. pose proof (Hleaf _ _ Hv). unfold child in Hpi.
    destruct (lookup_lswap_inv _ _ _ _ _ _ _ Hx Hy Hu) as [[-> ->]|[[-> ->]|(Hpi' & Hpp & Hu')]];
    destruct (lookup_lswap_inv _ _ _ _ _ _ _ Hx Hy Hv) as [[-> ->]|[[-> ->]|(Hji & Hjp & Hv')]];
    try (unfold edge, child, grand in He; lia).
    + unfold HeapOrder.rel. rewrite Hmp. by apply sw_asym.
    + specialize (H1 p j y v He Hji Hy Hv'). unfold HeapOrder.rel in *. rewrite Hmp in *.
      destruct (less v x) eqn:E; [|done]. by rewrite (sw_trans _ _ _ E Hxy) in H1.
    + assert (child p' p) as Hc by (unfold edge, child, grand in *; lia).
      assert (mn p' = true) as Hmp' by (rewrite (mn_child _ _ Hc) in Hmp; by destruct (mn p')).
      specialize (H1 p' p u y (or_introl Hc) ltac:(lia) Hu' Hy).
      unfold HeapOrder.rel in *. by rewrite Hmp' in *.
    + assert (child p' p) as Hc by (destruct He; naive_solver).
      assert (mn p' = true) as Hmp' by (rewrite (mn_child _ _ Hc) in Hmp; by destruct (mn p')).
      specialize (H1 p' p u y He ltac:(lia) Hu' Hy). unfold HeapOrder.rel in *. rewrite Hmp' in *.
      destruct (less u x) eqn:E; [|done]. by rewrite (sw_trans _ _ _ E Hxy) in H1.
    + by apply (H1 p' j).
  - intros gg d z v Hgg Hd Hz Hv. unfold child in Hpi.
    assert (Hmgg : mn gg = false) by (by rewrite <- (mn_grand gg p Hgg)).
    rewrite lookup_lswap_ne in Hz by (unfold grand in *; lia).
    pose proof (H1 gg p z y (or_intror Hgg) ltac:(lia) Hz Hy) as Hzy.
    unfold HeapOrder.rel in *. rewrite Hmgg in *.
    destruct (lookup_lswap_inv _ _ _ _ _ _ _ Hx Hy Hv) as [[-> ->]|[[-> ->]|(Hdi & Hdp & Hv')]];
      [done|unfold edge, child, grand in *; lia|].
    specialize (H1 p d y v Hd Hdi Hy Hv'). rewrite Hmp in H1. by apply (sw_incomp _ y).
Qed.

Lemma up_first_stay l i p x y :
  mn i = true -> child p i -> l !! i = Some x -> l !! p = Some y -> less x y = false ->
  length l = S i ->
  (forall p j x y, edge p j -> j <> i -> l !! p = Some x -> l !! j = Some y -> rel p x y) ->
  HeapOrder.up_inv (flip less) (fun i => negb (mn i)) l i.
Proof.
  intros Hmi Hpi Hx Hy Hxy Hlen H1.
  assert (Hmp : mn p = false) by (rewrite (mn_child _ _ Hpi) in Hmi; by destruct (mn p)).
  split.
  - intros p' j u v He Hno Hu Hv. apply rel_flip.
    destruct (decide (j = i)) as [->|Hne]; [|by apply (H1 p' j)].
    destruct He as [Hc|Hg]; [|naive_solver].
    assert (p' = p) as -> by (unfold child in *; lia). simplify_eq.
    unfold HeapOrder.rel. by rewrite Hmp.
  - intros g d u v _ Hd _ Hv. apply lookup_lt_Some in Hv. unfold edge, child, grand in Hd. lia.
Qed.

(** ** Moving down *)

Lemma down_inv_done r l i x :
  mn i = false -> l !! i = Some x -> down_inv r l i ->
  (forall d v, edge i d -> l !! d = Some v -> less v x = false) ->
  edges_from r l.
Proof.
  intros Hmi Hx [H1 _] H2 p j u v Hr He Hu Hv.
  destruct (decide (p = i)) as [->|Hne]; [|by apply (H1 p j)].
  simplify_eq. unfold HeapOrder.rel. rewrite Hmi. by apply (H2 j).
Qed.

Lemma down_inv_leaf r l i :
  length l <= 2 * i + 1 -> down_inv r l i -> edges_from r l.
Proof.
  intros Hlen [H1 _] p j u v Hr He Hu Hv.
  destruct (decide (p = i)) as [->|Hne]; [|by apply (H1 p j)].
  apply lookup_lt_Some in Hv. unfold edge, child, grand in He. lia.
Qed.

(** The best child or grandchild of [i] is a child: with no ties it is a leaf. *)
Lemma down_child_leaf r l i m x y :
  mn i = false -> r <= i -> child i m -> no_ties less l -> down_inv r l i ->
  l !! i = Some x -> l !! m = Some y ->
  (forall d v, edge i d -> l !! d = Some v -> less v y = false) ->
  length l <= 2 * m + 1.
Proof.
  intros Hmi Hri Hc Hnt [H1 _] Hx Hy Hmax.
  destruct (decide (length l <= 2 * m + 1)) as [|Hgt]; [done|exfalso].
  destruct (lookup_lt_is_Some_2 l (2 * m + 1)) as [c Hc']; [lia|].
  assert (Hmm : mn m = true) by (by rewrite (mn_child _ _ Hc), Hmi).
  assert (Hmc : less y c = false).
  { specialize (H1 m (2 * m + 1) y c). unfold HeapOrder.rel in H1. rewrite Hmm in H1.
    apply H1; [unfold child in *; lia..|left; unfold child; lia|done|done]. }
  assert (Hcm : less c y = false).
  { apply (Hmax (2 * m + 1)); [right; unfold child, grand in *; lia|done]. }
  destruct (Hnt m (2 * m + 1) y c) as [?|?]; [lia|done|done|congruence|congruence].
Qed.

Lemma down_child_swap r l i m x y :
  mn i = false -> r <= i -> child i m -> l !! i = Some x -> l !! m = Some y ->
  less y x = true ->
  (forall d v, edge i d -> l !! d = Some v -> less v y = false) ->
  length l <= 2 * m + 1 ->
  down_inv r l i -> edges_from r (lswap i m l).
Proof.
  intros Hmi Hri Hc Hx Hy Hyx Hmax Hleaf [H1 H2] p j u v Hr He Hu Hv.
  pose proof Hc as Hc'. unfold child in Hc'.
  assert (Hj : j < length l) by (apply lookup_lt_Some in Hv; by rewrite length_lswap in Hv).
  destruct (lookup_lswap_inv _ _ _ _ _ _ _ Hx Hy Hu) as [[-> ->]|[[-> ->]|(Hpi & Hpm & Hu')]];
  destruct (lookup_lswap_inv _ _ _ _ _ _ _ Hx Hy Hv) as [[-> ->]|[[-> ->]|(Hji & Hjm & Hv')]];
  try (unfold edge, child, grand in He; lia).
  - unfold HeapOrder.rel. rewrite Hmi. by apply sw_asym.
  - unfold HeapOrder.rel. rewrite Hmi. by apply (Hmax j).
  - apply (H2 p m); [done|done|by left|done|done].
  - assert (child p i) as Hp by (unfold edge, child, grand in *; lia).
    assert (mn p = true) as Hmp by (rewrite (mn_child _ _ Hp) in Hmi; by destruct (mn p)).
    specialize (H1 p i u x Hr Hpi (or_introl Hp) Hu' Hx).
    unfold HeapOrder.rel in *. by rewrite Hmp in *.
  - by apply (H1 p j).
Qed.

(** A step through a grandchild [m] with parent [q]: the value [x] of [i] goes
    to [m], and changes place with the value of [q] when that one is better. *)
Lemma down_grand_step r l l2 i q m x w y vq vm :
  mn i = false -> r <= i -> child i q -> child q m ->
  l !! i = Some x -> l !! q = Some w -> l !! m = Some y ->
  less y x = true ->
  (forall d v, edge i d -> l !! d = Some v -> less v y = false) ->
  (vq = w /\ vm = x /\ less w x = false \/ vq = x /\ vm = w /\ less w x = true) ->
  (forall k z, l2 !! k = Some z ->
     (k = i /\ z = y) \/ (k = q /\ z = vq) \/ (k = m /\ z = vm) \/
     (k <> i /\ k <> q /\ k <> m /\ l !! k = Some z)) ->
  down_inv r l i -> down_inv r l2 m.
Proof.
  intros Hmi Hri Hiq Hqm Hx Hw Hy Hyx Hmax Hv Hl2 [H1 H2].
  pose proof Hiq as Hiq'. pose proof Hqm as Hqm'. unfold child in Hiq', Hqm'.
  assert (Him : edge i m) by (right; unfold grand; lia).
  assert (Hmq : mn q = true) by (by rewrite (mn_child _ _ Hiq), Hmi).
  assert (Hmm : mn m = false) by (by rewrite (mn_child _ _ Hqm), Hmq).
  assert (Hwy : less w y = false) by (by apply (Hmax q); [left|]).
  assert (Hxy : less x y = false) by (by apply sw_asym).
  assert (Hqy : less vq y = false) by naive_solver.
  assert (Hmy : less vm y = false) by naive_solver.
  assert (Hqw : less vq w = false).
  { destruct Hv as [(-> & _)|(-> & _ & ?)]; [apply sw_irrefl|by apply sw_asym]. }
  assert (Hqm2 : less vq vm = false).
  { destruct Hv as [(-> & -> & ?)|(-> & -> & ?)]; [done|by apply sw_asym]. }
  assert (Hq : forall d v, edge q d -> d <> m -> l !! d = Some v -> less vq v = false).
  { intros d v Hd Hdm Hdv. specialize (H1 q d w v ltac:(lia) ltac:(lia) Hd Hw Hdv).
    unfold HeapOrder.rel in H1. rewrite Hmq in H1. by apply (sw_incomp _ w). }
  split.
  - intros p j u v Hr Hpm He Hu Hv2. apply Hl2 in Hu, Hv2.
    destruct Hu as [[-> ->]|[[-> ->]|[[-> ->]|(Hpi & Hpq & _ & Hu)]]];
    destruct Hv2 as [[-> ->]|[[-> ->]|[[-> ->]|(Hji & Hjq & Hjm & Hv2)]]];
    try (unfold edge, child, grand in He; lia); try done.
    + unfold HeapOrder.rel. by rewrite Hmi.
    + unfold HeapOrder.rel. by rewrite Hmi.
    + unfold HeapOrder.rel. rewrite Hmi. by apply (Hmax j).
    + unfold HeapOrder.rel. by rewrite Hmq.
    + unfold HeapOrder.rel. rewrite Hmq. by apply (Hq j).
    + by apply (H2 p m).
    + assert (child p i) as Hp by (unfold edge, child, grand in *; lia).
      assert (mn p = true) as Hmp by (rewrite (mn_child _ _ Hp) in Hmi; by destruct (mn p)).
      pose proof (H1 p i u x Hr Hpi (or_introl Hp) Hu Hx) as Hpx.
      pose proof (H1 p q u w Hr Hpi He Hu Hw) as Hpw.
      unfold HeapOrder.rel in *. rewrite Hmp in *. naive_solver.
    + by apply (H1 p j).
  - intros p d u v Hr Hpm Hd Hu Hv2. apply Hl2 in Hu, Hv2.
    assert (Hpiq : p = i \/ p = q) by (unfold edge, child, grand in *; lia).
    assert (Hdi : d > m) by (unfold edge, child, grand in *; lia).
    destruct Hv2 as [[-> ->]|[[-> ->]|[[-> ->]|(_ & _ & _ & Hv2)]]]; [lia..|].
    pose proof (H1 m d y v ltac:(lia) ltac:(lia) Hd Hy Hv2) as Hmd.
    destruct Hpiq as [-> | ->].
    + destruct Hu as [[_ ->]|[[-> ->]|[[-> ->]|(? & _)]]]; [|lia..].
      unfold HeapOrder.rel in *. by rewrite Hmi, Hmm in *.
    + destruct Hu as [[-> ->]|[[_ ->]|[[-> ->]|(_ & ? & _)]]]; [lia| |lia|lia].
      unfold HeapOrder.rel. rewrite Hmq. destruct Hd as [Hd|Hd].
      { apply (Hq d); [right; unfold child, grand in *; lia|lia|done]. }
      assert (exists c, child m c /\ child c d) as (c & Hmc & Hcd).
      { unfold grand, child in *. destruct (decide (d <= 4 * m + 4));
          [exists (2 * m + 1)|exists (2 * m + 2)]; lia. }
      destruct (lookup_lt_is_Some_2 l c) as [z Hz].
      { apply lookup_lt_Some in Hv2. unfold child in *; lia. }
      assert (Hmcn : mn c = true) by (by rewrite (mn_child _ _ Hmc), Hmm).
      pose proof (H1 c d z v ltac:(unfold child in *; lia) ltac:(unfold child in *; lia)
                    (or_introl Hcd) Hz Hv2) as Hzv.
      unfold HeapOrder.rel in Hzv. rewrite Hmcn in Hzv. apply (sw_incomp _ z); [|done].
      apply (Hq c); [right|..|done]; unfold child, grand in *; lia.
Qed.

(** Filling the position [i] of a heap with a value that fits below its
    ancestors leaves only the edges out of [i] to repair. *)
Lemma down_inv_fill l i x z :
  heap_ok l -> l !! i = Some x ->
  (forall p u, edge p i -> l !! p = Some u -> rel p u z) ->
  down_inv 0 (<[i:=z]> l) i.
Proof.
  intros Hok Hx Hz. assert (Hi : i < length l) by (by eapply lookup_lt_Some). split.
  - intros p j u v _ Hpi He Hu Hv. rewrite list_lookup_insert_ne in Hu by done.
    destruct (decide (j = i)) as [->|Hji].
    + rewrite list_lookup_insert_eq in Hv by done. simplify_eq. by apply Hz.
    + rewrite list_lookup_insert_ne in Hv by done. by apply (Hok p j); [lia|..].
  - intros p d u v _ Hp Hd Hu Hv.
    assert (p < i < d) by (unfold edge, child, grand in *; lia).
    rewrite list_lookup_insert_ne in Hu, Hv by lia.
    pose proof (Hok p i u x ltac:(lia) Hp Hu Hx) as Hpx.
    pose proof (Hok i d x v ltac:(lia) Hd Hx Hv) as Hxd.
    destruct Hp as [Hp|Hp].
    + destruct Hd as [Hd|Hd]; [apply (Hok p d); [lia|right|done..]; unfold child, grand in *; lia|].
      assert (exists c, child i c /\ child c d) as (c & Hic & Hcd).
      { unfold grand, child in *. destruct (decide (d <= 4 * i + 4));
          [exists (2 * i + 1)|exists (2 * i + 2)]; lia. }
      destruct (lookup_lt_is_Some_2 l c) as [w Hw].
      { apply lookup_lt_Some in Hv. unfold child in *; lia. }
      assert (Hpc : edge p c) by (right; unfold child, grand in *; lia).
      pose proof (Hok p c u w ltac:(lia) Hpc Hu Hw) as Huw.
      pose proof (Hok c d w v ltac:(lia) (or_introl Hcd) Hw Hv) as Hwv.
      unfold HeapOrder.rel in *. rewrite (mn_child _ _ Hic), (mn_child _ _ Hp), negb_involutive in Hwv.
      destruct (mn p); by apply (sw_incomp _ w).
    + unfold HeapOrder.rel in *. rewrite (mn_grand _ _ Hp) in Hxd.
      destruct (mn p); by apply (sw_incomp _ x).
Qed.

(** Where the values go in that step, as the code performs it. *)
Lemma grand_step_lookup l i q m x w y :
  i <> q -> i <> m -> q <> m ->
  l !! i = Some x -> l !! q = Some w -> l !! m = Some y ->
  (forall k z, lswap i m l !! k = Some z ->
     (k = i /\ z = y) \/ (k = q /\ z = w) \/ (k = m /\ z = x) \/
     (k <> i /\ k <> q /\ k <> m /\ l !! k = Some z)) /\
  (forall k z, lswap m q (lswap i m l) !! k = Some z ->
     (k = i /\ z = y) \/ (k = q /\ z = x) \/ (k = m /\ z = w) \/
     (k <> i /\ k <> q /\ k <> m /\ l !! k = Some z)).
Proof.
  intros Hiq Him Hqm Hx Hw Hy.
  assert (Hm1 : lswap i m l !! m = Some x) by (by eapply lookup_lswap_r).
  assert (Hq1 : lswap i m l !! q = Some w) by (by rewrite lookup_lswap_ne).
  assert (H1 : forall k z, lswap i m l !! k = Some z ->
     (k = i /\ z = y) \/ (k = q /\ z = w) \/ (k = m /\ z = x) \/
     (k <> i /\ k <> q /\ k <> m /\ l !! k = Some z)).
  { intros k z Hk. destruct (lookup_lswap_inv _ _ _ _ _ _ _ Hx Hy Hk) as [?|[?|(?&?&?)]];
      [tauto|tauto|]. destruct (decide (k = q)) as [->|]; [right; left; naive_solver|tauto]. }
  split; [done|]. intros k z Hk.
  destruct (lookup_lswap_inv _ _ _ _ _ _ _ Hm1 Hq1 Hk) as [?|[?|(?&?&Hk')]]; [tauto|tauto|].
  apply H1 in Hk'. naive_solver.
Qed.

(** ** The extreme elements *)

Lemma heap_root_best l x :
  mn 0 = false -> heap_ok l -> l !! 0 = Some x ->
  forall j y, l !! j = Some y -> less y x = false.
Proof.
  intros Hm0 Hok Hx j. induction (lt_wf j) as [j _ IH]. intros y Hy.
  destruct (decide (j = 0)) as [->|Hj0]; [simplify_eq; apply sw_irrefl|].
  assert (exists p, child p j) as [p Hp].
  { exists ((j - 1) / 2). unfold child. pose proof (Nat.div_mod_eq (j - 1) 2).
    pose proof (Nat.mod_upper_bound (j - 1) 2). lia. }
  assert (Hlt : p < j) by (unfold child in Hp; lia).
  destruct (lookup_lt_is_Some_2 l p) as [u Hu]; [apply lookup_lt_Some in Hy; lia|].
  destruct (mn j) eqn:Hmj.
  - assert (Hmp : mn p = false) by (rewrite (mn_child _ _ Hp) in Hmj; by destruct (mn p)).
    pose proof (Hok p j u y ltac:(lia) (or_introl Hp) Hu Hy) as Hr.
    unfold HeapOrder.rel in Hr. rewrite Hmp in Hr. by apply (sw_incomp _ u); [|apply (IH p)].
  - destruct (decide (p = 0)) as [->|Hp0].
    { rewrite (mn_child _ _ Hp), Hm0 in Hmj. done. }
    assert (exists g, grand g j) as [g Hg].
    { exists ((p - 1) / 2). unfold child, grand in *. pose proof (Nat.div_mod_eq (p - 1) 2).
      pose proof (Nat.mod_upper_bound (p - 1) 2). lia. }
    destruct (lookup_lt_is_Some_2 l g) as [z Hz]; [apply lookup_lt_Some in Hy; unfold grand in *; lia|].
    pose proof (Hok g j z y ltac:(lia) (or_intror Hg) Hz Hy) as Hr.
    unfold HeapOrder.rel in Hr. rewrite <- (mn_grand _ _ Hg), Hmj in Hr.
    apply (sw_incomp _ z); [done|]. apply (IH g); [unfold grand in *; lia|done].
Qed.

(** Every element but the root is no worse than one of the two children of the root. *)
Lemma heap_children_worst l :
  mn 0 = false -> heap_ok l ->
  forall j y, j <> 0 -> l !! j = Some y ->
    exists c u, (c = 1 \/ c = 2) /\ l !! c = Some u /\ less u y = false.
Proof.
  intros Hm0 Hok j. induction (lt_wf j) as [j _ IH]. intros y Hj0 Hy.
  assert (Hone : forall p u, p < j -> p <> 0 -> mn p = true -> edge p j -> l !! p = Some u ->
            exists c u, (c = 1 \/ c = 2) /\ l !! c = Some u /\ less u y = false).
  { intros p u Hlt Hp0 Hmp He Hu.
    pose proof (Hok p j u y ltac:(lia) He Hu Hy) as Hr. unfold HeapOrder.rel in Hr.
    rewrite Hmp in Hr. destruct (IH p Hlt u Hp0 Hu) as (c & z & Hc & Hz & Hzu).
    exists c, z. split_and!; [done|done|]. by apply (sw_incomp _ u). }
  destruct (decide (j <= 2)) as [Hj|Hj].
  { exists j, y. split_and!; [lia|done|apply sw_irrefl]. }
  assert (exists p, child p j) as [p Hp].
  { exists ((j - 1) / 2). unfold child. pose proof (Nat.div_mod_eq (j - 1) 2).
    pose proof (Nat.mod_upper_bound (j - 1) 2). lia. }
  assert (Hp0 : 0 < p < j) by (unfold child in *; lia).
  destruct (lookup_lt_is_Some_2 l p) as [u Hu]; [apply lookup_lt_Some in Hy; lia|].
  destruct (mn p) eqn:Hmp; [apply (Hone p u); [lia|lia|done|by left|done]|].
  assert (exists g, child g p) as [g Hg].
  { exists ((p - 1) / 2). unfold child in *. pose proof (Nat.div_mod_eq (p - 1) 2).
    pose proof (Nat.mod_upper_bound (p - 1) 2). lia. }
  assert (Hmg : mn g = true) by (rewrite (mn_child _ _ Hg) in Hmp; by destruct (mn g)).
  destruct (decide (g = 0)) as [->|]; [congruence|].
  destruct (lookup_lt_is_Some_2 l g) as [z Hz]; [apply lookup_lt_Some in Hy; unfold child in *; lia|].
  apply (Hone g z); [unfold child in *; lia|done|done|right|done].
  unfold child, grand in *; lia.
Qed.
End moves.
