(* ===== verification/MaxMinHeap.v ===== *)
(** The priority queue on a max-min heap:
    pkg/epp/flowcontrol/framework/plugins/queue/maxminheap.go.

    Indices are natural numbers; [(i - 1) / 2] truncates at 0 as it does in
    Go.  [isMinLevel] computes floor(log2 (i+1)); the source does so in
    float64, which is exact for every index below 2^48, far beyond any heap
    that fits in memory.  Loops carry fuel; the theorems show the fuel given
    by the callers is enough.  An out-of-range index or a missing handle is
    [None]: the Go program would panic. *)

From S2P Require Import Prelude FlowTypes SafeQueue.

Record maxMinHeap := mkMaxMinHeap {
  items : list Item;
  handles : gmap handle_ref handle_ref;
  byteSize : Z;
  policy : Item -> Item -> bool
}.

Definition newMaxMinHeap (less : Item -> Item -> bool) : maxMinHeap := mkMaxMinHeap [] ∅ 0 less.

Definition set_items (l : list Item) (h : maxMinHeap) : maxMinHeap :=
  mkMaxMinHeap l (handles h) (byteSize h) (policy h).
Definition set_handles (m : gmap handle_ref handle_ref) (h : maxMinHeap) : maxMinHeap :=
  mkMaxMinHeap (items h) m (byteSize h) (policy h).
Definition set_byteSize (b : Z) (h : maxMinHeap) : maxMinHeap :=
  mkMaxMinHeap (items h) (handles h) b (policy h).

Definition Name (h : maxMinHeap) : string := "MaxMinHeap".
Definition Capabilities (h : maxMinHeap) : list QueueCapability := [CapabilityPriorityConfigurable].
Definition Len (h : maxMinHeap) : Z := Z.of_nat (length (items h)).
Definition ByteSize (h : maxMinHeap) : Z := byteSize h.

Definition PeekHead (h : maxMinHeap) : option Item := items h !! 0%nat.

Definition PeekTail (h : maxMinHeap) : option Item :=
  match items h with
  | [] => None
  | [x] => Some x
  | [_; y] => Some y
  | _ :: y :: z :: _ => if policy h y z then Some z else Some y
  end.

Definition isMinLevel (i : nat) : bool := Nat.odd (Nat.log2 (i + 1)).

Definition parentIdx (i : nat) : nat := (i - 1) / 2.

(** [h.handles[item.Handle()].index = i] *)
Definition setIndex (x : Item) (i : nat) (σ : Store) (h : maxMinHeap) : option Store :=
  hd ← Handle x σ;
  hi ← handles h !! hd;
  c ← cells σ !! hi;
  match c with
  | HeapItem y _ b => Some (set_cells (<[hi := HeapItem y i b]> (cells σ)) σ)
  | ListItemHandle _ _ _ => None
  end.

Definition swap (i j : nat) (σ : Store) (h : maxMinHeap) : option (Store * maxMinHeap) :=
  x ← items h !! i;
  y ← items h !! j;
  let h' := set_items (<[j := x]> (<[i := y]> (items h))) h in
  xi ← items h' !! i;
  σ1 ← setIndex xi i σ h';
  xj ← items h' !! j;
  σ2 ← setIndex xj j σ1 h';
  Some (σ2, h').

(** [h.policy.Less(h.items[i], h.items[j])] *)
Definition lessAt (h : maxMinHeap) (i j : nat) : option bool :=
  x ← items h !! i; y ← items h !! j; Some (policy h x y).

Fixpoint upMin (fuel i : nat) (σ : Store) (h : maxMinHeap) : option (Store * maxMinHeap) :=
  match fuel with
  | O => None
  | S fuel =>
      let parentIndex := parentIdx i in
      if bool_decide (parentIndex = 0%nat) then Some (σ, h)
      else
        let grandparentIndex := parentIdx parentIndex in
        b ← lessAt h grandparentIndex i;
        if (b : bool) then
          '(σ', h') ← swap i grandparentIndex σ h;
          upMin fuel grandparentIndex σ' h'
        else Some (σ, h)
  end.

Fixpoint upMax (fuel i : nat) (σ : Store) (h : maxMinHeap) : option (Store * maxMinHeap) :=
  match fuel with
  | O => None
  | S fuel =>
      let parentIndex := parentIdx i in
      if bool_decide (parentIndex = 0%nat) then Some (σ, h)
      else
        let grandparentIndex := parentIdx parentIndex in
        b ← lessAt h i grandparentIndex;
        if (b : bool) then
          '(σ', h') ← swap i grandparentIndex σ h;
          upMax fuel grandparentIndex σ' h'
        else Some (σ, h)
  end.

Definition up (i : nat) (σ : Store) (h : maxMinHeap) : option (Store * maxMinHeap) :=
  if bool_decide (i = 0%nat) then Some (σ, h)
  else
    let parentIndex := parentIdx i in
    if isMinLevel i then
      b ← lessAt h i parentIndex;
      if (b : bool) then
        '(σ', h') ← swap i parentIndex σ h; upMax (S i) parentIndex σ' h'
      else upMin (S i) i σ h
    else
      b ← lessAt h parentIndex i;
      if (b : bool) then
        '(σ', h') ← swap i parentIndex σ h; upMin (S i) parentIndex σ' h'
      else upMax (S i) i σ h.

Definition push (it : Item) (σ : Store) (h : maxMinHeap) : option (Store * maxMinHeap) :=
  let hi := fresh (dom (cells σ)) in
  let σ1 := set_cells (<[hi := HeapItem it (length (items h)) false]> (cells σ)) σ in
  let h1 := set_items (items h ++ [it]) h in
  σ2 ← SetHandle it hi σ1;
  hd ← Handle it σ2;
  let h2 := set_handles (<[hd := hi]> (handles h1)) h1 in
  up (length (items h2) - 1) σ2 h2.

Definition Add (it : Item) (σ : Store) (h : maxMinHeap) : option (Store * maxMinHeap) :=
  '(σ', h') ← push it σ h;
  Some (σ', set_byteSize (u64 (byteSize h' + item_bytes it)) h').

(** The loop over the grandchildren [j .. grandchildEnd - 1] of the two find
    functions; [better j m] tells whether [m] is replaced by [j]. *)
Fixpoint grandchildLoop (better : nat -> nat -> option bool) (n j cnt m : nat) : option nat :=
  match cnt with
  | O => Some m
  | S cnt =>
      if bool_decide (j < n)%nat then
        b ← better j m;
        grandchildLoop better n (S j) cnt (if (b : bool) then j else m)
      else Some m
  end.

(** [None] inside the outer option is the result -1. *)
Definition findSmallestChildOrGrandchild (h : maxMinHeap) (i : nat) : option (option nat) :=
  let leftChild := (2 * i + 1)%nat in
  let n := length (items h) in
  if bool_decide (n <= leftChild)%nat then Some None
  else
    let rightChild := (2 * i + 2)%nat in
    m ← (if bool_decide (rightChild < n)%nat
         then b ← lessAt h leftChild rightChild; Some (if (b : bool) then rightChild else leftChild)
         else Some leftChild);
    let grandchildStart := (2 * leftChild + 1)%nat in
    Some <$> grandchildLoop (fun j m => lessAt h m j) n grandchildStart 4 m.

Definition findLargestChildOrGrandchild (h : maxMinHeap) (i : nat) : option (option nat) :=
  let leftChild := (2 * i + 1)%nat in
  let n := length (items h) in
  if bool_decide (n <= leftChild)%nat then Some None
  else
    let rightChild := (2 * i + 2)%nat in
    m ← (if bool_decide (rightChild < n)%nat
         then b ← lessAt h rightChild leftChild; Some (if (b : bool) then rightChild else leftChild)
         else Some leftChild);
    let grandchildStart := (2 * leftChild + 1)%nat in
    Some <$> grandchildLoop (fun j m => lessAt h j m) n grandchildStart 4 m.

Fixpoint downMin (fuel i : nat) (σ : Store) (h : maxMinHeap) : option (Store * maxMinHeap) :=
  match fuel with
  | O => None
  | S fuel =>
      r ← findSmallestChildOrGrandchild h i;
      match r with
      | None => Some (σ, h)
      | Some m =>
          b ← lessAt h i m;
          if (b : bool) then
            '(σ1, h1) ← swap i m σ h;
            let parentOfM := parentIdx m in
            '(σ2, h2) ←
              (if bool_decide (parentOfM <> i) then
                 b' ← lessAt h1 m parentOfM;
                 if (b' : bool) then swap m parentOfM σ1 h1 else Some (σ1, h1)
               else Some (σ1, h1));
            downMin fuel m σ2 h2
          else Some (σ, h)
      end
  end.

Fixpoint downMax (fuel i : nat) (σ : Store) (h : maxMinHeap) : option (Store * maxMinHeap) :=
  match fuel with
  | O => None
  | S fuel =>
      r ← findLargestChildOrGrandchild h i;
      match r with
      | None => Some (σ, h)
      | Some m =>
          b ← lessAt h m i;
          if (b : bool) then
            '(σ1, h1) ← swap i m σ h;
            let parentOfM := parentIdx m in
            '(σ2, h2) ←
              (if bool_decide (parentOfM <> i) then
                 b' ← lessAt h1 parentOfM m;
                 if (b' : bool) then swap m parentOfM σ1 h1 else Some (σ1, h1)
               else Some (σ1, h1));
            downMax fuel m σ2 h2
          else Some (σ, h)
      end
  end.

Definition down (i : nat) (σ : Store) (h : maxMinHeap) : option (Store * maxMinHeap) :=
  if isMinLevel i then downMin (S (length (items h))) i σ h
  else downMax (S (length (items h))) i σ h.

Definition Remove (handle : option handle_ref) (σ : Store) (h : maxMinHeap)
  : option ((Item + error) * Store * maxMinHeap) :=
  match handle with
  | None => Some (inr (Sentinel ErrInvalidQueueItemHandle), σ, h)
  | Some hd =>
      inv ← IsInvalidated hd σ;
      if (inv : bool) then Some (inr (Sentinel ErrInvalidQueueItemHandle), σ, h)
      else
        c ← cells σ !! hd;
        match c with
        | ListItemHandle _ _ _ => Some (inr (Sentinel ErrInvalidQueueItemHandle), σ, h)
        | HeapItem _ i _ =>
            match handles h !! hd with
            | None => Some (inr (Sentinel ErrQueueItemNotFound), σ, h)
            | Some _ =>
                item ← items h !! i;
                let n := (length (items h) - 1)%nat in
                '(σ1, h1) ←
                  (if bool_decide (i < n)%nat then
                     '(σ1, h1) ← swap i n σ h;
                     let h2 := set_items (take n (items h1)) h1 in
                     let h3 := set_handles (delete hd (handles h2)) h2 in
                     let h4 := set_byteSize (atomic_sub (byteSize h3) (item_bytes item)) h3 in
                     down i σ1 h4
                   else
                     let h2 := set_items (take n (items h)) h in
                     let h3 := set_handles (delete hd (handles h2)) h2 in
                     Some (σ, set_byteSize (atomic_sub (byteSize h3) (item_bytes item)) h3));
                σ2 ← Invalidate hd σ1;
                Some (inl item, σ2, h1)
            end
        end
  end.

(** First loop of [Cleanup]: split the items, invalidate the removed ones. *)
Fixpoint cleanup_split (predicate : Item -> bool) (xs removed kept : list Item)
    (σ : Store) (h : maxMinHeap) : option (list Item * list Item * Store * maxMinHeap) :=
  match xs with
  | [] => Some (removed, kept, σ, h)
  | x :: xs =>
      if predicate x then
        '(σ', h') ← match Handle x σ with
                    | Some hd => σ' ← Invalidate hd σ; Some (σ', set_handles (delete hd (handles h)) h)
                    | None => Some (σ, h)
                    end;
        cleanup_split predicate xs (removed ++ [x]) kept σ'
          (set_byteSize (atomic_sub (byteSize h') (item_bytes x)) h')
      else cleanup_split predicate xs removed (kept ++ [x]) σ h
  end.

(** Second loop: renumber the kept items from index [i]. *)
Fixpoint reindex (i : nat) (xs : list Item) (σ : Store) (h : maxMinHeap) : option Store :=
  match xs with
  | [] => Some σ
  | x :: xs => σ' ← setIndex x i σ h; reindex (S i) xs σ' h
  end.

(** Third loop: [for i := k - 1; i >= 0; i-- { h.down(i) }]. *)
Fixpoint heapify (k : nat) (σ : Store) (h : maxMinHeap) : option (Store * maxMinHeap) :=
  match k with
  | O => Some (σ, h)
  | S k => '(σ', h') ← down k σ h; heapify k σ' h'
  end.

Definition Cleanup (predicate : Item -> bool) (σ : Store) (h : maxMinHeap)
  : option (list Item * Store * maxMinHeap) :=
  '(removed, kept, σ1, h1) ← cleanup_split predicate (items h) [] [] σ h;
  if bool_decide (0 < length removed)%nat then
    let h2 := set_items kept h1 in
    σ2 ← reindex 0 kept σ1 h2;
    '(σ3, h3) ← heapify (length kept / 2) σ2 h2;
    Some (removed, σ3, h3)
  else Some (removed, σ1, h1).

Definition Drain (σ : Store) (h : maxMinHeap) : option (list Item * Store * maxMinHeap) :=
  let drainedItems := items h in
  σ' ← invalidate_all drainedItems σ;
  Some (drainedItems, σ', mkMaxMinHeap [] ∅ 0 (policy h)).

Global Instance maxMinHeap_ops : SafeQueueOps maxMinHeap := {|
  sq_Name := Name; sq_Capabilities := Capabilities; sq_Len := Len; sq_ByteSize := ByteSize;
  sq_PeekHead := PeekHead; sq_PeekTail := PeekTail;
  sq_Add := Add; sq_Remove := Remove; sq_Cleanup := Cleanup; sq_Drain := Drain
|}.
