(* ===== verification/MaxMinHeapSpec.v ===== *)
(** The max-min heap of MaxMinHeap.v implements the queue contract, whatever
    its comparator does, and keeps the heap order under a strict weak order. *)

From S2P Require Import Prelude FlowTypes SafeQueue HeapOrder MaxMinHeap.

Local Open Scope nat_scope.

(** * Handles and positions *)

(** The live handle of [x] is registered and stores the position [i]. *)
Definition linked (σ : Store) (h : maxMinHeap) (x : Item) (i : nat) : Prop :=
  exists hd, Handle x σ = Some hd /\ handles h !! hd = Some hd /\
             cells σ !! hd = Some (HeapItem x i false).

Definition indexed (σ : Store) (h : maxMinHeap) : Prop :=
  forall i x, items h !! i = Some x -> linked σ h x i.

Definition mm_inv (σ : Store) (h : maxMinHeap) : Prop :=
  indexed σ h /\
  (forall hd hi, handles h !! hd = Some hi -> exists x, x ∈ items h /\ Handle x σ = Some hd) /\
  byteSize h = u64 (sumZ item_bytes (items h)).

Lemma linked_inj σ h x i j : linked σ h x i -> linked σ h x j -> i = j.
Proof. intros (hd & ? & ? & ?) (hd' & ? & ? & ?). congruence. Qed.

Lemma linked_holds σ h x i : linked σ h x i -> holds σ x.
Proof. intros (hd & ? & ? & ?). by exists hd, (HeapItem x i false). Qed.

Lemma indexed_distinct σ h i j x y :
  indexed σ h -> items h !! i = Some x -> items h !! j = Some y -> i <> j -> x <> y.
Proof. intros H Hx Hy Hij ->. by eapply Hij, linked_inj; apply H. Qed.

Lemma indexed_elem σ h x : indexed σ h -> x ∈ items h -> exists i, linked σ h x i.
Proof. intros H [i Hi]%list_elem_of_lookup. eauto. Qed.

Lemma indexed_nodup σ h : indexed σ h -> NoDup (items h).
Proof. intros H. apply NoDup_alt. intros i j x Hi Hj. eapply linked_inj; by apply H. Qed.

Lemma setIndex_spec x i j σ h :
  linked σ h x j ->
  exists σ', setIndex x i σ h = Some σ' /\ istates σ' = istates σ /\ linked σ' h x i /\
    touches [x] σ σ' /\ (forall y k, y <> x -> linked σ h y k -> linked σ' h y k).
Proof.
  intros (hd & Hh & Hm & Hc). unfold setIndex. rewrite Hh. simpl. rewrite Hm. simpl.
  rewrite Hc. simpl. eexists; split_and!; [done|done| | |].
  - exists hd. split_and!; [done|done|]. simpl. by rewrite lookup_insert_eq.
  - intros h0 c Hc0 Hno. simpl. rewrite lookup_insert_ne; [done|].
    intros <-. apply (Hno x); [left|done].
  - intros y k Hne (hd' & Hh' & Hm' & Hc'). exists hd'. split_and!; [done|done|]. simpl.
    rewrite lookup_insert_ne; [done|]. intros <-. congruence.
Qed.

(** What the loops of the heap do to the state: they permute the items. *)
Definition rearranged (σ : Store) (h : maxMinHeap) (σ' : Store) (h' : maxMinHeap) : Prop :=
  indexed σ' h' /\ items h' ≡ₚ items h /\ handles h' = handles h /\ byteSize h' = byteSize h /\
  policy h' = policy h /\ istates σ' = istates σ /\ touches (items h) σ σ'.

Lemma rearranged_refl σ h : indexed σ h -> rearranged σ h σ h.
Proof. intros ?. split_and!; try done. apply touches_refl. Qed.

Lemma rearranged_trans σ1 h1 σ2 h2 σ3 h3 :
  rearranged σ1 h1 σ2 h2 -> rearranged σ2 h2 σ3 h3 -> rearranged σ1 h1 σ3 h3.
Proof.
  intros (_ & Hp & ? & ? & ? & Hi & Ht) (? & Hp' & ? & ? & ? & ? & Ht').
  split_and!; [done|by rewrite Hp'|congruence..|].
  eapply touches_trans; [done|done|]. eapply touches_weaken; [|done].
  intros x. by rewrite Hp.
Qed.

Lemma rearranged_length σ h σ' h' :
  rearranged σ h σ' h' -> length (items h') = length (items h).
Proof. intros (_ & Hp & _). by rewrite Hp. Qed.

Lemma swap_spec i j x y σ h :
  indexed σ h -> items h !! i = Some x -> items h !! j = Some y -> i <> j ->
  exists σ', swap i j σ h = Some (σ', set_items (lswap i j (items h)) h) /\
             rearranged σ h σ' (set_items (lswap i j (items h)) h).
Proof.
  intros Hidx Hx Hy Hij. unfold swap. rewrite Hx. simpl. rewrite Hy. simpl.
  assert (Hsw : <[j:=x]> (<[i:=y]> (items h)) = lswap i j (items h)).
  { unfold lswap. by rewrite Hx, Hy. }
  rewrite !Hsw, (lookup_lswap_l _ _ _ _ _ Hx Hy), (lookup_lswap_r _ _ _ _ _ Hx Hy). simpl.
  set (h' := set_items _ h).
  assert (Hxy : x <> y) by (eapply indexed_distinct; eauto).
  destruct (setIndex_spec y i j σ h' (Hidx _ _ Hy)) as (σ1 & -> & Hi1 & Hl1 & Ht1 & Ho1). simpl.
  destruct (setIndex_spec x j i σ1 h') as (σ2 & -> & Hi2 & Hl2 & Ht2 & Ho2); [by apply Ho1, Hidx|].
  simpl. exists σ2. split; [done|]. split_and!; [|apply lswap_Permutation|done..|congruence|].
  - intros k z Hk. simpl in Hk.
    destruct (lookup_lswap_inv _ _ _ _ _ _ _ Hx Hy Hk) as [[-> ->]|[[-> ->]|(? & ? & Hz)]];
      [by apply Ho2|done|].
    apply Ho2; [by eapply indexed_distinct|]. apply Ho1; [by eapply indexed_distinct|].
    by apply Hidx.
  - apply (touches_trans _ _ σ1); [done|eapply touches_weaken; [|done]..];
      intros z ->%list_elem_of_singleton; by eapply list_elem_of_lookup_2.
Qed.

(** * Levels and parents *)

Lemma parentIdx_child i : i <> 0 -> child (parentIdx i) i.
Proof.
  intros Hi. unfold parentIdx, child. pose proof (Nat.div_mod_eq (i - 1) 2).
  pose proof (Nat.mod_upper_bound (i - 1) 2). lia.
Qed.

Lemma child_parentIdx p i : child p i -> parentIdx i = p.
Proof.
  intros Hc. assert (Hi : i <> 0) by (unfold child in *; lia).
  pose proof (parentIdx_child i Hi). unfold child in *. lia.
Qed.

Lemma isMinLevel_child p j : child p j -> isMinLevel j = negb (isMinLevel p).
Proof.
  unfold child, isMinLevel. intros Hc.
  assert (Nat.log2 (j + 1) = S (Nat.log2 (p + 1))) as ->.
  { destruct (decide (j = 2 * p + 1)) as [->|].
    - replace (2 * p + 1 + 1) with (2 * (p + 1)) by lia. apply Nat.log2_double. lia.
    - replace (j + 1) with (2 * (p + 1) + 1) by lia. apply Nat.log2_succ_double. lia. }
  by rewrite Nat.odd_succ, Nat.negb_odd.
Qed.

Lemma isMinLevel_flip_child p j : child p j -> negb (isMinLevel j) = negb (negb (isMinLevel p)).
Proof. intros H. by rewrite (isMinLevel_child _ _ H). Qed.

Lemma lessAt_spec h i j x y :
  items h !! i = Some x -> items h !! j = Some y -> lessAt h i j = Some (policy h x y).
Proof. unfold lessAt. intros -> ->. done. Qed.

(** * The two orientations

    The min routines are the max routines for the reversed comparator. *)

Definition flipH (h : maxMinHeap) : maxMinHeap :=
  mkMaxMinHeap (items h) (handles h) (byteSize h) (flip (policy h)).

Definition flip_res (r : Store * maxMinHeap) : Store * maxMinHeap := (r.1, flipH r.2).

Lemma lessAt_flip h i j : lessAt (flipH h) i j = lessAt h j i.
Proof. unfold lessAt. simpl. by destruct (items h !! i), (items h !! j). Qed.

Lemma setIndex_handles x i σ h h' :
  handles h = handles h' -> setIndex x i σ h = setIndex x i σ h'.
Proof. unfold setIndex. by intros ->. Qed.

Lemma swap_flip i j σ h : swap i j σ (flipH h) = flip_res <$> swap i j σ h.
Proof.
  unfold swap. simpl. destruct (items h !! i) as [x|]; [|done]. simpl.
  destruct (items h !! j) as [y|]; [|done]. simpl. set (l := <[j:=x]> _).
  destruct (l !! i) as [z|]; [|done]. simpl.
  rewrite (setIndex_handles z i σ (set_items l (flipH h)) (set_items l h)) by done.
  destruct (setIndex z i σ _) as [σ1|]; [|done]. simpl.
  destruct (l !! j) as [w|]; [|done]. simpl.
  rewrite (setIndex_handles w j σ1 (set_items l (flipH h)) (set_items l h)) by done.
  by destruct (setIndex w j σ1 _).
Qed.

Lemma upMin_flip fuel : forall i σ h,
  upMin fuel i σ h = flip_res <$> upMax fuel i σ (flipH h).
Proof.
  induction fuel as [|fuel IH]; intros i σ h; simpl; [done|].
  case_bool_decide; [by destruct h|]. rewrite lessAt_flip.
  destruct (lessAt h _ i) as [[]|]; simpl; [|by destruct h|done].
  rewrite swap_flip. destruct (swap _ _ _ _) as [[σ1 h1]|]; simpl; [|done]. apply IH.
Qed.

Lemma grandchildLoop_ext f g n cnt : (forall a b, f a b = g a b) ->
  forall j m, grandchildLoop f n j cnt m = grandchildLoop g n j cnt m.
Proof.
  intros Hfg. induction cnt as [|cnt IH]; intros j m; simpl; [done|].
  case_bool_decide; [|done]. rewrite Hfg. destruct (g j m); simpl; [apply IH|done].
Qed.

Lemma findSmallest_flip h i :
  findSmallestChildOrGrandchild h i = findLargestChildOrGrandchild (flipH h) i.
Proof.
  unfold findSmallestChildOrGrandchild, findLargestChildOrGrandchild. simpl items.
  case_bool_decide; [done|]. rewrite lessAt_flip.
  destruct (if bool_decide _ then _ else _); cbn [mbind option_bind]; [|done]. f_equal.
  apply grandchildLoop_ext. intros a b. by rewrite lessAt_flip.
Qed.

Lemma downMin_flip fuel : forall i σ h,
  downMin fuel i σ h = flip_res <$> downMax fuel i σ (flipH h).
Proof.
  induction fuel as [|fuel IH]; intros i σ h; cbn [downMin downMax]; [done|].
  rewrite findSmallest_flip. destruct (findLargestChildOrGrandchild _ i) as [[m|]|]; simpl;
    [|by destruct h|done].
  rewrite lessAt_flip. destruct (lessAt h i m) as [[]|]; simpl; [|by destruct h|done].
  rewrite swap_flip. destruct (swap i m σ h) as [[σ1 h1]|]; simpl; [|done].
  case_bool_decide; [|apply IH]. rewrite lessAt_flip.
  destruct (lessAt h1 m _) as [[]|]; simpl; [|apply IH|done].
  rewrite swap_flip. destruct (swap m _ σ1 h1) as [[σ2 h2]|]; simpl; [apply IH|done].
Qed.

Lemma rearranged_flip σ h σ' h' :
  rearranged σ (flipH h) σ' h' -> rearranged σ h σ' (flipH h').
Proof.
  intros (H1 & ? & ? & ? & Hp & ? & ?). split_and!; try done.
  simpl in *. rewrite Hp. done.
Qed.

(** * Moving up *)

Definition alternates (mn : nat -> bool) : Prop := forall p j, child p j -> mn j = negb (mn p).

Lemma upMax_spec fuel : forall i σ h,
  indexed σ h -> i < length (items h) -> i < fuel ->
  exists σ' h', upMax fuel i σ h = Some (σ', h') /\ rearranged σ h σ' h' /\
    (forall mn, alternates mn -> StrictWeak (policy h) -> mn i = false ->
       up_inv (policy h) mn (items h) i -> heap_ok (policy h) mn (items h')).
Proof.
  induction fuel as [|fuel IH]; intros i σ h Hidx Hi Hf; [lia|]. simpl.
  case_bool_decide as Hp0.
  { exists σ, h. split_and!; [done|by apply rearranged_refl|]. intros mn Hmn Hsw Hmi Hup.
    eapply up_inv_done; [done|]. intros g x y Hg. exfalso.
    assert (Hc : child 0 i) by (rewrite <- Hp0; apply parentIdx_child; unfold grand in Hg; lia).
    unfold child, grand in *. lia. }
  assert (Hi0 : i <> 0) by (intros ->; done).
  pose proof (parentIdx_child i Hi0) as Hc1. pose proof (parentIdx_child _ Hp0) as Hc2.
  set (g := parentIdx (parentIdx i)) in *.
  assert (Hg : grand g i) by (unfold child, grand in *; lia).
  destruct (lookup_lt_is_Some_2 (items h) i) as [x Hx]; [done|].
  destruct (lookup_lt_is_Some_2 (items h) g) as [y Hy]; [unfold grand in *; lia|].
  rewrite (lessAt_spec _ _ _ _ _ Hx Hy). simpl. destruct (policy h x y) eqn:Hxy.
  - destruct (swap_spec i g x y σ h) as (σ1 & -> & Hre); [done..|unfold grand in *; lia|]. simpl.
    destruct (IH g σ1 (set_items (lswap i g (items h)) h)) as (σ' & h' & -> & Hre' & Hok).
    { apply Hre. } { simpl. rewrite length_lswap. unfold grand in *; lia. }
    { unfold grand in *; lia. }
    exists σ', h'. split_and!; [done|by eapply rearranged_trans|].
    intros mn Hmn Hsw Hmi Hup. simpl in Hok. apply Hok; [done..| |by eapply up_inv_swap].
    by rewrite <- (mn_grand mn Hmn g i).
  - exists σ, h. split_and!; [done|by apply rearranged_refl|]. intros mn Hmn Hsw Hmi Hup.
    eapply up_inv_done; [done|]. intros g' x' y' Hg' Hx' Hy'.
    assert (g' = g) as -> by (unfold grand in *; lia). simplify_eq.
    unfold rel. by rewrite <- (mn_grand mn Hmn g i Hg), Hmi.
Qed.

Lemma upMin_spec fuel i σ h :
  indexed σ h -> i < length (items h) -> i < fuel ->
  exists σ' h', upMin fuel i σ h = Some (σ', h') /\ rearranged σ h σ' h' /\
    (forall mn, alternates mn -> StrictWeak (policy h) -> mn i = true ->
       up_inv (flip (policy h)) (fun i => negb (mn i)) (items h) i ->
       heap_ok (policy h) mn (items h')).
Proof.
  intros Hidx Hi Hf. rewrite upMin_flip.
  destruct (upMax_spec fuel i σ (flipH h)) as (σ' & h' & -> & Hre & Hok); [done..|].
  exists σ', (flipH h'). split_and!; [done|by apply rearranged_flip|].
  intros mn Hmn Hsw Hmi Hup. apply edges_from_flip, Hok; [|apply _|by rewrite Hmi|done].
  intros p j Hc. by rewrite (Hmn p j Hc).
Qed.

Lemma up_spec i σ h :
  indexed σ h -> length (items h) = S i ->
  exists σ' h', up i σ h = Some (σ', h') /\ rearranged σ h σ' h' /\
    (StrictWeak (policy h) ->
     (forall p j x y, edge p j -> j <> i -> items h !! p = Some x -> items h !! j = Some y ->
        rel (policy h) isMinLevel p x y) ->
     heap_ok (policy h) isMinLevel (items h')).
Proof.
  intros Hidx Hlen. unfold up. case_bool_decide as Hi0.
  { exists σ, h. split_and!; [done|by apply rearranged_refl|]. intros _ _ p j x y _ He _ Hy.
    apply lookup_lt_Some in Hy. unfold edge, child, grand in He. lia. }
  pose proof (parentIdx_child i Hi0) as Hc. set (p := parentIdx i) in *.
  assert (Hpi : p < i) by (unfold child in *; lia).
  destruct (lookup_lt_is_Some_2 (items h) i) as [x Hx]; [lia|].
  destruct (lookup_lt_is_Some_2 (items h) p) as [y Hy]; [lia|].
  destruct (swap_spec i p x y σ h) as (σ1 & Hsw & Hre1); [done..|lia|].
  pose proof (isMinLevel_child p i Hc) as Hmc.
  destruct (isMinLevel i) eqn:Hmi.
  - rewrite (lessAt_spec _ _ _ _ _ Hx Hy). cbn [mbind option_bind]. destruct (policy h x y) eqn:Hxy.
    + rewrite Hsw. cbn [mbind option_bind].
      destruct (upMax_spec (S i) p σ1 (set_items (lswap i p (items h)) h))
        as (σ' & h' & -> & Hre & Hok); [apply Hre1|simpl; rewrite length_lswap; lia|lia|].
      exists σ', h'. split_and!; [done|by eapply rearranged_trans|].
      intros Hs H1. apply (Hok isMinLevel isMinLevel_child Hs); [by destruct (isMinLevel p)|].
      by eapply (up_first_swap _ isMinLevel isMinLevel_child).
    + destruct (upMin_spec (S i) i σ h) as (σ' & h' & -> & Hre & Hok); [done|lia|lia|].
      exists σ', h'. split_and!; [done|done|].
      intros Hs H1. apply (Hok isMinLevel isMinLevel_child Hs); [done|].
      by eapply (up_first_stay _ isMinLevel isMinLevel_child).
  - rewrite (lessAt_spec _ _ _ _ _ Hy Hx). cbn [mbind option_bind]. destruct (policy h y x) eqn:Hyx.
    + rewrite Hsw. cbn [mbind option_bind].
      destruct (upMin_spec (S i) p σ1 (set_items (lswap i p (items h)) h))
        as (σ' & h' & -> & Hre & Hok); [apply Hre1|simpl; rewrite length_lswap; lia|lia|].
      exists σ', h'. split_and!; [done|by eapply rearranged_trans|].
      intros Hs H1. apply (Hok isMinLevel isMinLevel_child Hs); [by destruct (isMinLevel p)|].
      eapply (up_first_swap _ _ isMinLevel_flip_child); try done; [by rewrite Hmi|].
      intros p' j u v ????. apply rel_flip. by apply (H1 p' j).
    + destruct (upMax_spec (S i) i σ h) as (σ' & h' & -> & Hre & Hok); [done|lia|lia|].
      exists σ', h'. split_and!; [done|done|].
      intros Hs H1. apply (Hok isMinLevel isMinLevel_child Hs); [done|].
      apply up_inv_flip. eapply (up_first_stay _ _ isMinLevel_flip_child); try done; [by rewrite Hmi|].
      intros p' j u v ????. apply rel_flip. by apply (H1 p' j).
Qed.

(** * Moving down *)

Lemma grandchildLoop_spec h cnt : forall j m,
  m < length (items h) ->
  exists m', grandchildLoop (fun j m => lessAt h j m) (length (items h)) j cnt m = Some m' /\
    (m' = m \/ j <= m' < j + cnt) /\ m' < length (items h) /\
    (StrictWeak (policy h) -> forall y', items h !! m' = Some y' ->
       (forall y, items h !! m = Some y -> policy h y y' = false) /\
       (forall d v, j <= d < j + cnt -> items h !! d = Some v -> policy h v y' = false)).
Proof.
  induction cnt as [|cnt IH]; intros j m Hm; simpl.
  { exists m. split_and!; [done|by left|done|]. intros Hs y' Hy'. split; [|lia].
    intros y Hy. simplify_eq. apply sw_irrefl. }
  case_bool_decide as Hj.
  2: { exists m. split_and!; [done|by left|done|]. intros Hs y' Hy'. split.
       - intros y Hy. simplify_eq. apply sw_irrefl.
       - intros d v Hd Hv%lookup_lt_Some. lia. }
  destruct (lookup_lt_is_Some_2 _ _ Hm) as [x Hx]. destruct (lookup_lt_is_Some_2 _ _ Hj) as [z Hz].
  rewrite (lessAt_spec _ _ _ _ _ Hz Hx). simpl.
  destruct (IH (S j) (if policy h z x then j else m)) as (m' & -> & Hm' & Hlt & Hbest);
    [by destruct (policy h z x)|].
  exists m'. split_and!; [done| |done|].
  { destruct (policy h z x); lia. }
  intros Hs y' Hy'. destruct (Hbest Hs y' Hy') as [Hb1 Hb2].
  assert (policy h x y' = false /\ policy h z y' = false) as [Hxy Hzy].
  { destruct (policy h z x) eqn:E.
    - split; [|by apply Hb1]. apply (sw_incomp _ z); [by apply sw_asym|by apply Hb1].
    - split; [by apply Hb1|]. apply (sw_incomp _ x); [done|by apply Hb1]. }
  split; [naive_solver|]. intros d v Hd Hv.
  destruct (decide (d = j)) as [->|]; [naive_solver|]. apply (Hb2 d); [lia|done].
Qed.

Lemma findLargest_spec h i :
  (length (items h) <= 2 * i + 1 /\ findLargestChildOrGrandchild h i = Some None) \/
  (exists m, findLargestChildOrGrandchild h i = Some (Some m) /\ edge i m /\
     m < length (items h) /\
     (StrictWeak (policy h) -> forall y, items h !! m = Some y ->
        forall d v, edge i d -> items h !! d = Some v -> policy h v y = false)).
Proof.
  unfold findLargestChildOrGrandchild. case_bool_decide as Hl; [by left|right].
  destruct (lookup_lt_is_Some_2 (items h) (2 * i + 1)) as [x Hx]; [lia|].
  assert (exists c yc, (if bool_decide (2 * i + 2 < length (items h))
             then b ← lessAt h (2 * i + 2) (2 * i + 1); Some (if (b : bool) then 2 * i + 2 else 2 * i + 1)
             else Some (2 * i + 1)) = Some c /\ child i c /\ items h !! c = Some yc /\
             (StrictWeak (policy h) -> forall d v, child i d -> items h !! d = Some v ->
                policy h v yc = false)) as (c & yc & -> & Hc & Hyc & Hbest).
  { case_bool_decide as Hr.
    - destruct (lookup_lt_is_Some_2 _ _ Hr) as [z Hz].
      rewrite (lessAt_spec _ _ _ _ _ Hz Hx). cbn [mbind option_bind].
      destruct (policy h z x) eqn:E; eexists _, _; (split_and!; [done|unfold child; lia|done|]);
        intros Hs d v Hd Hv;
        (assert (d = 2 * i + 1 \/ d = 2 * i + 2) as [-> | ->] by (unfold child in *; lia));
        simplify_eq; try apply sw_irrefl; [by apply sw_asym|done].
    - eexists _, _; (split_and!; [done|unfold child; lia|done|]). intros Hs d v Hd Hv.
      assert (d = 2 * i + 1) as -> by (apply lookup_lt_Some in Hv; unfold child in *; lia).
      simplify_eq. apply sw_irrefl. }
  cbn [mbind option_bind].
  destruct (grandchildLoop_spec h 4 (2 * (2 * i + 1) + 1) c) as (m & -> & Hm & Hlt & Hb);
    [by eapply lookup_lt_Some|].
  exists m. split_and!; [done| |done|].
  - destruct Hm as [->|?]; [by left|right; unfold grand; lia].
  - intros Hs y Hy d v Hd Hv. destruct (Hb Hs y Hy) as [Hb1 Hb2]. destruct Hd as [Hd|Hd].
    + apply (sw_incomp _ yc); [by apply (Hbest Hs d)|by apply Hb1].
    + apply (Hb2 d); [unfold grand in *; lia|done].
Qed.

Lemma downMax_leaf fuel i σ h :
  length (items h) <= 2 * i + 1 -> 0 < fuel -> downMax fuel i σ h = Some (σ, h).
Proof.
  intros Hl Hf. destruct fuel; [lia|]. simpl. unfold findLargestChildOrGrandchild.
  by rewrite bool_decide_eq_true_2.
Qed.

(** One round of the loop of [downMax], for a best descendant [m]. *)
Definition downMaxRound (i m : nat) (σ : Store) (h : maxMinHeap) : option (Store * maxMinHeap) :=
  '(σ1, h1) ← swap i m σ h;
  let parentOfM := parentIdx m in
  if bool_decide (parentOfM <> i) then
    b' ← lessAt h1 parentOfM m;
    if (b' : bool) then swap m parentOfM σ1 h1 else Some (σ1, h1)
  else Some (σ1, h1).

Lemma edge_cases i m :
  edge i m -> (child i m /\ parentIdx m = i) \/
              (exists q, child i q /\ child q m /\ parentIdx m = q /\ q <> i).
Proof.
  intros [Hc|Hg]; [left; split; [done|by apply child_parentIdx]|right].
  assert (Hm0 : m <> 0) by (unfold grand in *; lia). pose proof (parentIdx_child m Hm0) as Hq.
  exists (parentIdx m). split_and!; [unfold child, grand in *; lia|done|done|].
  unfold child, grand in *; lia.
Qed.

Lemma downMaxRound_spec i m x y σ h :
  indexed σ h -> edge i m -> items h !! i = Some x -> items h !! m = Some y ->
  policy h y x = true ->
  exists σ' h', downMaxRound i m σ h = Some (σ', h') /\ rearranged σ h σ' h' /\
    (child i m -> items h' = lswap i m (items h)) /\
    (forall mn r, alternates mn -> StrictWeak (policy h) -> mn i = false -> r <= i ->
       ~ child i m ->
       (forall d v, edge i d -> items h !! d = Some v -> policy h v y = false) ->
       down_inv (policy h) mn r (items h) i -> down_inv (policy h) mn r (items h') m).
Proof.
  intros Hidx He Hx Hy Hyx. unfold downMaxRound.
  assert (Him : i < m) by (unfold edge, child, grand in He; lia).
  destruct (swap_spec i m x y σ h) as (σ1 & -> & Hre1); [done..|lia|]. cbn [mbind option_bind].
  destruct (edge_cases i m He) as [[Hc Hp]|(q & Hiq & Hqm & Hp & Hqi)]; rewrite Hp.
  { rewrite bool_decide_eq_false_2 by naive_solver. eexists _, _. split_and!; [done|done|done|].
    intros. done. }
  rewrite bool_decide_eq_true_2 by done.
  assert (Hnc : ~ child i m) by (unfold child in *; lia).
  destruct (lookup_lt_is_Some_2 (items h) q) as [w Hw].
  { apply lookup_lt_Some in Hy. unfold child in *; lia. }
  assert (Hm1 : lswap i m (items h) !! m = Some x) by (by eapply lookup_lswap_r).
  assert (Hq1 : lswap i m (items h) !! q = Some w).
  { by rewrite lookup_lswap_ne by (unfold child in *; lia). }
  rewrite (lessAt_spec (set_items _ h) _ _ _ _ Hq1 Hm1). cbn [mbind option_bind].
  destruct (grand_step_lookup (items h) i q m x w y) as [HA HB];
    [unfold child in *; lia..|done|done|done|].
  simpl policy. destruct (policy h w x) eqn:Hwx.
  - destruct (swap_spec m q x w σ1 (set_items (lswap i m (items h)) h)) as (σ2 & -> & Hre2);
      [apply Hre1|done|done|unfold child in *; lia|].
    eexists _, _. split_and!; [done|by eapply rearranged_trans|done|].
    intros mn r Hmn Hs Hmi Hri _ Hmax Hd.
    eapply (down_grand_step _ mn Hmn r (items h) _ i q m x w y x w); eauto 10.
  - eexists _, _. split_and!; [done|done|done|].
    intros mn r Hmn Hs Hmi Hri _ Hmax Hd.
    eapply (down_grand_step _ mn Hmn r (items h) _ i q m x w y w x); eauto 10.
Qed.

Lemma downMax_unfold fuel i σ h :
  downMax (S fuel) i σ h =
    (r ← findLargestChildOrGrandchild h i;
     match r with
     | None => Some (σ, h)
     | Some m => b ← lessAt h m i;
                 if (b : bool) then '(σ2, h2) ← downMaxRound i m σ h; downMax fuel m σ2 h2
                 else Some (σ, h)
     end).
Proof.
  cbn [downMax]. unfold downMaxRound. destruct (findLargestChildOrGrandchild h i) as [[m|]|]; [|done..].
  cbn [mbind option_bind]. destruct (lessAt h m i) as [[]|]; [|done..]. cbn [mbind option_bind].
  destruct (swap i m σ h) as [[σ1 h1]|]; [|done]. cbn [mbind option_bind].
  by case_bool_decide.
Qed.

Lemma downMax_spec fuel : forall i σ h,
  indexed σ h -> i < length (items h) -> length (items h) - i < fuel ->
  exists σ' h', downMax fuel i σ h = Some (σ', h') /\ rearranged σ h σ' h' /\
    (forall mn r, alternates mn -> StrictWeak (policy h) -> no_ties (policy h) (items h) ->
       mn i = false -> r <= i -> down_inv (policy h) mn r (items h) i ->
       edges_from (policy h) mn r (items h')).
Proof.
  induction fuel as [|fuel IH]; intros i σ h Hidx Hi Hf; [lia|]. rewrite downMax_unfold.
  destruct (findLargest_spec h i) as [[Hl ->]|(m & -> & He & Hm & Hbest)]; cbn [mbind option_bind].
  { exists σ, h. split_and!; [done|by apply rearranged_refl|]. intros. by eapply down_inv_leaf. }
  destruct (lookup_lt_is_Some_2 _ _ Hi) as [x Hx]. destruct (lookup_lt_is_Some_2 _ _ Hm) as [y Hy].
  rewrite (lessAt_spec _ _ _ _ _ Hy Hx). cbn [mbind option_bind].
  destruct (policy h y x) eqn:Hyx.
  2: { exists σ, h. split_and!; [done|by apply rearranged_refl|]. intros mn r Hmn Hs _ Hmi Hri Hd.
       eapply down_inv_done; [done|done|done|]. intros d v Hed Hv.
       apply (sw_incomp _ y); [by eapply Hbest|done]. }
  destruct (downMaxRound_spec i m x y σ h) as (σ1 & h1 & -> & Hre & Hch & Hgr); [done..|].
  cbn [mbind option_bind]. pose proof (rearranged_length _ _ _ _ Hre) as Hlen.
  assert (Him : i < m) by (unfold edge, child, grand in He; lia).
  destruct (IH m σ1 h1) as (σ' & h' & Hrun & Hre' & Hok); [apply Hre|lia|lia|].
  exists σ', h'. split_and!; [done|by eapply rearranged_trans|].
  intros mn r Hmn Hs Hnt Hmi Hri Hd.
  assert (Hpol : policy h1 = policy h) by apply Hre.
  destruct (edge_cases i m He) as [[Hc _]|(q & Hiq & Hqm & _ & _)].
  - assert (Hleaf : length (items h) <= 2 * m + 1) by (eapply down_child_leaf; eauto).
    rewrite downMax_leaf in Hrun by lia. simplify_eq. rewrite (Hch Hc).
    eapply down_child_swap; eauto.
  - rewrite Hpol in Hok. apply Hok; [done|done| |..].
    + eapply no_ties_perm; [|done]. symmetry. apply Hre.
    + by rewrite (Hmn q m Hqm), (Hmn i q Hiq), Hmi.
    + lia.
    + apply Hgr; eauto. unfold child in *; lia.
Qed.

Lemma downMin_spec fuel i σ h :
  indexed σ h -> i < length (items h) -> length (items h) - i < fuel ->
  exists σ' h', downMin fuel i σ h = Some (σ', h') /\ rearranged σ h σ' h' /\
    (forall mn r, alternates mn -> StrictWeak (policy h) -> no_ties (policy h) (items h) ->
       mn i = true -> r <= i -> down_inv (policy h) mn r (items h) i ->
       edges_from (policy h) mn r (items h')).
Proof.
  intros Hidx Hi Hf. rewrite downMin_flip.
  destruct (downMax_spec fuel i σ (flipH h)) as (σ' & h' & -> & Hre & Hok); [done..|].
  exists σ', (flipH h'). split_and!; [done|by apply rearranged_flip|].
  intros mn r Hmn Hsw Hnt Hmi Hri Hd. apply edges_from_flip.
  apply Hok; [|apply _|by apply no_ties_flip|by rewrite Hmi|done|by apply down_inv_flip].
  intros p j Hc. by rewrite (Hmn p j Hc).
Qed.

Lemma down_spec i σ h :
  indexed σ h -> i < length (items h) ->
  exists σ' h', down i σ h = Some (σ', h') /\ rearranged σ h σ' h' /\
    (forall r, StrictWeak (policy h) -> no_ties (policy h) (items h) -> r <= i ->
       down_inv (policy h) isMinLevel r (items h) i ->
       edges_from (policy h) isMinLevel r (items h')).
Proof.
  intros Hidx Hi. unfold down. destruct (isMinLevel i) eqn:Hmi.
  - destruct (downMin_spec (S (length (items h))) i σ h) as (σ' & h' & -> & Hre & Hok); [done|lia..|].
    exists σ', h'. split_and!; [done|done|]. intros. by apply (Hok isMinLevel r isMinLevel_child).
  - destruct (downMax_spec (S (length (items h))) i σ h) as (σ' & h' & -> & Hre & Hok); [done|lia..|].
    exists σ', h'. split_and!; [done|done|]. intros. by apply (Hok isMinLevel r isMinLevel_child).
Qed.

Lemma heapify_spec k : forall σ h,
  indexed σ h -> k <= length (items h) ->
  exists σ' h', heapify k σ h = Some (σ', h') /\ rearranged σ h σ' h' /\
    (StrictWeak (policy h) -> no_ties (policy h) (items h) ->
     edges_from (policy h) isMinLevel k (items h) -> heap_ok (policy h) isMinLevel (items h')).
Proof.
  induction k as [|k IH]; intros σ h Hidx Hk; simpl.
  { exists σ, h. split_and!; [done|by apply rearranged_refl|done]. }
  destruct (down_spec k σ h) as (σ1 & h1 & -> & Hre & Hok); [done|lia|]. simpl.
  pose proof (rearranged_length _ _ _ _ Hre) as Hlen.
  destruct (IH σ1 h1) as (σ' & h' & -> & Hre' & Hok'); [apply Hre|lia|].
  exists σ', h'. split_and!; [done|by eapply rearranged_trans|].
  intros Hs Hnt He. assert (Hpol : policy h1 = policy h) by apply Hre. rewrite Hpol in Hok'.
  apply Hok'; [done|eapply no_ties_perm; [symmetry; apply Hre|done]|].
  apply Hok; [done|done|lia|]. split.
  - intros p j x y Hp Hpk. apply He. lia.
  - intros p d x y Hp Hed. unfold edge, child, grand in Hed. lia.
Qed.

Lemma edges_from_leaves {A} (less : A -> A -> bool) mn (l : list A) :
  edges_from less mn (length l / 2) l.
Proof.
  intros p j x y Hp He _ Hy%lookup_lt_Some.
  pose proof (Nat.div_mod_eq (length l) 2). pose proof (Nat.mod_upper_bound (length l) 2).
  unfold edge, child, grand in He. lia.
Qed.

(** * The operations *)

Lemma mm_inv_holds σ h x : mm_inv σ h -> x ∈ items h -> holds σ x.
Proof. intros (Hidx & _) Hx. destruct (indexed_elem _ _ _ Hidx Hx). by eapply linked_holds. Qed.

Lemma mm_inv_nodup σ h : mm_inv σ h -> NoDup (itemRef <$> items h).
Proof.
  intros Hinv. pose proof Hinv as (Hidx & _). apply NoDup_fmap_2_strong.
  - intros x y Hx Hy. by apply (holds_inj σ); eapply mm_inv_holds.
  - by eapply indexed_nodup.
Qed.

(** Rearranging keeps the rest of the invariant. *)
Lemma rearranged_inv σ h σ' h' : mm_inv σ h -> rearranged σ h σ' h' -> mm_inv σ' h'.
Proof.
  intros (_ & Hh & Hb) (Hidx & Hp & Hhs & Hbs & _ & Hi & _). split_and!; [done| |].
  - intros hd hi. rewrite Hhs. intros (x & Hx & Hxh)%Hh. exists x.
    rewrite Hp, (Handle_istates _ _ _ Hi). done.
  - by rewrite Hbs, Hb, (sumZ_perm _ _ _ Hp).
Qed.

Lemma push_spec σ h it :
  mm_inv σ h -> allocated it σ -> (forall x, x ∈ items h -> itemRef x <> itemRef it) ->
  exists σ' h', push it σ h = Some (σ', h') /\
    mm_inv σ' (set_byteSize (u64 (byteSize h' + item_bytes it)) h') /\
    items h' ≡ₚ it :: items h /\ policy h' = policy h /\
    only_handle it σ σ' /\ touches (items h) σ σ' /\
    (StrictWeak (policy h) -> heap_ok (policy h) isMinLevel (items h) ->
     heap_ok (policy h) isMinLevel (items h')).
Proof.
  intros (Hidx & Hh & Hb) [s Hs] Hfresh. unfold push, SetHandle.
  pose proof (is_fresh (dom (cells σ))) as Hf. apply not_elem_of_dom in Hf.
  set (hi := fresh _) in *. simpl. rewrite Hs. cbn [mbind option_bind].
  set (σ2 := set_istates _ _). assert (Hit : Handle it σ2 = Some hi).
  { unfold Handle, σ2. simpl. by rewrite lookup_insert_eq. }
  rewrite Hit. cbn [mbind option_bind]. set (h2 := set_handles _ _).
  assert (Hothers : forall x, x ∈ items h -> Handle x σ2 = Handle x σ).
  { intros x Hx. unfold Handle, σ2. simpl. rewrite lookup_insert_ne; [done|].
    by apply not_eq_sym, Hfresh. }
  assert (Hidx2 : indexed σ2 h2).
  { intros i x Hx. simpl in Hx. apply lookup_app_Some in Hx as [Hx|[Hi Hx]].
    - destruct (Hidx i x Hx) as (hd & Hhd & Hm & Hc).
      assert (hd <> hi) by congruence. exists hd. rewrite Hothers by (by eapply list_elem_of_lookup_2).
      split_and!; [done|..]; simpl; by rewrite lookup_insert_ne.
    - apply list_lookup_singleton_Some in Hx as [? <-]. exists hi. split_and!; [done|..].
      + simpl. by rewrite lookup_insert_eq.
      + simpl. rewrite lookup_insert_eq. do 2 f_equal. lia. }
  change (up _ σ2 h2) with (up (length (items h2) - 1) σ2 h2).
  destruct (up_spec (length (items h2) - 1) σ2 h2 Hidx2) as (σ' & h' & -> & Hre & Hok).
  { simpl. rewrite length_app. simpl. lia. }
  exists σ', h'. pose proof Hre as (Hidx' & Hp & Hhs & Hbs & Hpol & Hi & Ht).
  assert (Hperm : items h' ≡ₚ it :: items h).
  { rewrite Hp. simpl. by rewrite <- Permutation_cons_append. }
  split_and!; [done| |done|done| | |].
  - split_and!; [done| |].
    + simpl. intros hd hi'. rewrite Hhs. simpl. intros [[<- <-]|[Hne Hx]]%lookup_insert_Some.
      * exists it. rewrite Hperm, (Handle_istates _ _ _ Hi). split; [left|done].
      * apply Hh in Hx as (x & Hx & Hxh). exists x.
        rewrite Hperm, (Handle_istates _ _ _ Hi), Hothers by done. split; [by right|done].
    + simpl. rewrite Hbs. simpl. rewrite Hb, u64_add_l, (sumZ_perm _ _ _ Hperm). simpl.
      f_equal. lia.
  - split; rewrite Hi; simpl.
    + intros r Hr. by rewrite lookup_insert_ne.
    + intros s' Hs'. rewrite lookup_insert_eq. naive_solver.
  - intros h0 c Hc Hno. assert (h0 <> hi) by congruence. apply Ht.
    + simpl. by rewrite lookup_insert_ne.
    + intros x [Hx|Hx%list_elem_of_singleton]%elem_of_app; [rewrite Hothers by done; auto|].
      subst x. rewrite Hit. congruence.
  - intros Hsw Hheap. apply Hok; [done|]. simpl. rewrite length_app. simpl.
    intros p j x y He Hj Hx Hy. pose proof (lookup_lt_Some _ _ _ Hy) as Hlt.
    rewrite length_app in Hlt. simpl in Hlt.
    assert (p < j) by (unfold edge, child, grand in He; lia).
    rewrite lookup_app_l in Hx, Hy by lia. by apply (Hheap p j); [lia|..].
Qed.

(** The invariant reads the handles of the items and their cells only. *)
Lemma mm_inv_frame σ σ' h :
  mm_inv σ h ->
  (forall x, x ∈ items h -> Handle x σ' = Handle x σ /\
     forall hd, Handle x σ = Some hd -> cells σ' !! hd = cells σ !! hd) ->
  mm_inv σ' h.
Proof.
  intros (Hidx & Hh & Hb) Hf. split_and!; [| |done].
  - intros i x Hx. destruct (Hidx i x Hx) as (hd & Hhd & Hm & Hc).
    destruct (Hf x) as [He Hce]; [by eapply list_elem_of_lookup_2|].
    exists hd. by rewrite He, Hce.
  - intros hd hi (x & Hx & Hxh)%Hh. exists x. split; [done|]. by destruct (Hf x Hx) as [-> _].
Qed.

(** Dropping the last item, its handle and its bytes. *)
Lemma mm_inv_drop σ h l x hd :
  mm_inv σ h -> items h = l ++ [x] -> Handle x σ = Some hd ->
  mm_inv σ (mkMaxMinHeap l (delete hd (handles h)) (atomic_sub (byteSize h) (item_bytes x)) (policy h))
  /\ (forall y, y ∈ l -> Handle y σ <> Some hd).
Proof.
  intros (Hidx & Hh & Hb) Hl Hx.
  assert (Hne : forall y, y ∈ l -> Handle y σ <> Some hd).
  { intros y [i Hi]%list_elem_of_lookup Hy. pose proof (lookup_lt_Some _ _ _ Hi).
    destruct (Hidx i y) as (hy & ? & _ & Hcy); [by rewrite Hl, lookup_app_l|].
    destruct (Hidx (length l) x) as (hx & ? & _ & Hcx); [rewrite Hl; by apply list_lookup_middle|].
    assert (hx = hy) as -> by congruence. rewrite Hcx in Hcy. injection Hcy. lia. }
  split; [|done]. split_and!; simpl.
  - intros i y Hi. simpl in Hi. destruct (Hidx i y) as (hy & Hhy & Hm & Hc).
    { rewrite Hl, lookup_app_l; [done|]. by eapply lookup_lt_Some. }
    exists hy. split_and!; [done| |done]. simpl. rewrite lookup_delete_ne; [done|].
    intros <-. by eapply Hne; [eapply list_elem_of_lookup_2|].
  - intros hd' hi [Hd Hm]%lookup_delete_Some. apply Hh in Hm as (y & Hy & Hyh).
    exists y. split; [|done]. rewrite Hl in Hy.
    apply elem_of_app in Hy as [?|Hy%list_elem_of_singleton]; [done|]. congruence.
  - rewrite atomic_sub_spec, Hb, Hl, sumZ_app. simpl. rewrite u64_sub_l. f_equal. lia.
Qed.

(** Whether the item that replaces position [i] fits below its ancestors. *)
Definition fits (h : maxMinHeap) (i : nat) (z : Item) : Prop :=
  forall p u, edge p i -> items h !! p = Some u -> rel (policy h) isMinLevel p u z.

(** The state after the item [x] at position [i] has been unlinked. *)
Lemma unlink_spec σ h i x hd l z :
  mm_inv σ h -> items h = l ++ [z] -> items h !! i = Some x -> Handle x σ = Some hd -> i < length l ->
  let h4 := fun h1 => set_byteSize (atomic_sub (byteSize h1) (item_bytes x))
              (set_handles (delete hd (handles h1)) (set_items (take (length l) (items h1)) h1)) in
  exists σ1 h1 σ' h', swap i (length l) σ h = Some (σ1, h1) /\ down i σ1 (h4 h1) = Some (σ', h') /\
    mm_inv σ' h' /\ items h ≡ₚ x :: items h' /\ policy h' = policy h /\ istates σ' = istates σ /\
    touches (items h) σ σ' /\ (exists c, cells σ' !! hd = Some c) /\
    (forall y, y ∈ items h' -> Handle y σ <> Some hd) /\
    (StrictWeak (policy h) -> no_ties (policy h) (items h) ->
     heap_ok (policy h) isMinLevel (items h) -> fits h i z ->
     heap_ok (policy h) isMinLevel (items h')).
Proof.
  intros Hinv Hl Hx Hhd Hi h4. pose proof Hinv as (Hidx & _).
  assert (Hz : items h !! length l = Some z) by (rewrite Hl; by apply list_lookup_middle).
  destruct (swap_spec i (length l) x z σ h) as (σ1 & Hsw & Hre); [done..|lia|].
  set (h1 := set_items _ h) in *. pose proof (rearranged_inv _ _ _ _ Hinv Hre) as Hinv1.
  assert (Hl1 : items h1 = <[i:=z]> l ++ [x]).
  { simpl. rewrite Hl in *. by apply lswap_last. }
  assert (Hhd1 : Handle x σ1 = Some hd).
  { rewrite <- Hhd. apply Handle_istates. apply Hre. }
  destruct (mm_inv_drop _ _ _ _ _ Hinv1 Hl1 Hhd1) as [Hinv4 Hne].
  assert (H4 : h4 h1 = mkMaxMinHeap (<[i:=z]> l) (delete hd (handles h1))
                          (atomic_sub (byteSize h1) (item_bytes x)) (policy h1)).
  { unfold h4. rewrite Hl1. rewrite take_app_length' by (by rewrite length_insert). done. }
  rewrite <- H4 in Hinv4.
  assert (Hit4 : items (h4 h1) = <[i:=z]> l) by (by rewrite H4).
  destruct (down_spec i σ1 (h4 h1)) as (σ' & h' & Hrun & Hre' & Hok);
    [apply Hinv4|by rewrite Hit4, length_insert|].
  exists σ1, h1, σ', h'. pose proof Hre as (_ & Hp1 & _ & _ & Hpol1 & Hi1 & Ht1).
  pose proof Hre' as (_ & Hp' & _ & _ & Hpol' & Hi' & Ht').
  assert (Hsub : forall y, y ∈ items h' -> Handle y σ1 <> Some hd).
  { intros y. rewrite Hp', Hit4. apply Hne. }
  split_and!; [done|done|by eapply rearranged_inv| |by rewrite Hpol'|congruence| | | |].
  - rewrite <- Hp1, Hl1, Hp', Hit4. by rewrite <- Permutation_cons_append.
  - eapply touches_trans; [done|done|]. eapply touches_weaken; [|done]. intros y.
    rewrite Hit4, <- Hp1, Hl1. set_solver.
  - destruct Hinv1 as (Hidx1 & _).
    destruct (Hidx1 (length l) x) as (hx & Hhx & _ & Hcx).
    { rewrite Hl1. apply list_lookup_middle. by rewrite length_insert. }
    assert (hx = hd) as -> by congruence. eexists. apply Ht'; [done|].
    intros y. rewrite Hit4. apply Hne.
  - intros y Hy. rewrite <- (Handle_istates y _ _ Hi1). auto.
  - intros Hs Hnt Hheap Hfit. rewrite <- Hpol1. apply (Hok 0); [by rewrite H4| | |].
    + rewrite H4. simpl. intros a b u v Hab Hu Hv.
      eapply (no_ties_perm _ _ (items h1)); [by symmetry|done|exact Hab|..];
        rewrite Hl1, lookup_app_l; try done; by eapply lookup_lt_Some.
    + lia.
    + rewrite H4. simpl. apply (down_inv_fill _ _ isMinLevel_child l i x).
      * intros p j u v ? ? Hu Hv.
        apply (Hheap p j); [done|done|rewrite Hl, lookup_app_l; [done|by eapply lookup_lt_Some]..].
      * by rewrite Hl, lookup_app_l in Hx.
      * intros p u He Hu. apply (Hfit p u He). rewrite Hl, lookup_app_l; [done|by eapply lookup_lt_Some].
Qed.

(** Invalidating a handle that belongs to no item of the queue. *)
Lemma mm_invalidate σ0 σ h hd c :
  mm_inv σ h -> cells σ !! hd = Some c -> istates σ = istates σ0 ->
  (forall y, y ∈ items h -> Handle y σ0 <> Some hd) ->
  exists σ', Invalidate hd σ = Some σ' /\ mm_inv σ' h /\ istates σ' = istates σ /\
    IsInvalidated hd σ' = Some true /\
    (forall h0, h0 <> hd -> cells σ' !! h0 = cells σ !! h0).
Proof.
  intros Hinv Hc Hi Hne. destruct (Invalidate_spec hd σ c Hc) as (σ' & c' & -> & Hi' & Hc' & _ & Hv).
  exists σ'. split_and!; [done| |done| |].
  - eapply mm_inv_frame; [done|]. intros x Hx. split; [by apply Handle_istates|].
    intros h0 Hh0. rewrite Hc', lookup_insert_ne; [done|]. intros <-.
    rewrite (Handle_istates _ _ _ Hi) in Hh0. by eapply Hne.
  - rewrite (IsInvalidated_cell _ _ c'); [by rewrite Hv|]. by rewrite Hc', lookup_insert_eq.
  - intros h0 ?. by rewrite Hc', lookup_insert_ne.
Qed.

Lemma mm_remove_spec σ h i x hd :
  mm_inv σ h -> items h !! i = Some x -> Handle x σ = Some hd ->
  exists σ' h', Remove (Some hd) σ h = Some (inl x, σ', h') /\ mm_inv σ' h' /\
    items h ≡ₚ x :: items h' /\ istates σ' = istates σ /\ touches (items h) σ σ' /\
    IsInvalidated hd σ' = Some true /\ policy h' = policy h /\
    (StrictWeak (policy h) -> no_ties (policy h) (items h) ->
     heap_ok (policy h) isMinLevel (items h) ->
     (forall z, last (items h) = Some z -> S i <> length (items h) -> fits h i z) ->
     heap_ok (policy h) isMinLevel (items h')).
Proof.
  intros Hinv Hx Hhd. pose proof Hinv as (Hidx & _).
  destruct (Hidx i x Hx) as (hd' & ? & Hm & Hc). assert (hd' = hd) as -> by congruence.
  unfold Remove. rewrite (IsInvalidated_cell _ _ _ Hc). cbn [cell_invalid mbind option_bind].
  rewrite Hc. cbn [mbind option_bind]. rewrite Hm, Hx. cbn [mbind option_bind].
  destruct (items h) as [|z l _] eqn:Hl using rev_ind; [done|].
  rewrite length_app. simpl length. replace (length l + 1 - 1) with (length l) by lia.
  pose proof (lookup_lt_Some _ _ _ Hx) as Hlt. rewrite length_app in Hlt. simpl in Hlt.
  case_bool_decide as Hi.
  - destruct (unlink_spec σ h i x hd l z) as
      (σ1 & h1 & σ2 & h2 & Hsw & Hdn & Hinv2 & Hp & Hpol & Hi2 & Ht & [c2 Hc2] & Hne & Hok);
      [done|done|by rewrite Hl|done|done|].
    rewrite Hsw. cbn [mbind option_bind].
    match goal with |- context [down i σ1 ?t] => rewrite (Hdn : down i σ1 t = _) end.
    cbn [mbind option_bind].
    destruct (mm_invalidate σ σ2 h2 hd c2) as (σ' & -> & Hinv' & Hi' & Hv & Ho); [done..|].
    exists σ', h2. rewrite Hl in *. split_and!; [done|done|done|congruence| |done|done|].
    + intros h0 c0 Hc0 Hno. rewrite Ho; [by apply Ht|]. intros ->.
      apply (Hno x); [|done]. by eapply list_elem_of_lookup_2.
    + intros Hs Hnt Hheap Hfit. apply Hok; [done..|].
      apply Hfit; [by rewrite last_snoc|lia].
  - assert (i = length l) as -> by lia.
    assert (x = z) as -> by (rewrite (list_lookup_middle l [] z) in Hx by done; congruence).
    cbn [mbind option_bind]. destruct (mm_inv_drop σ h l z hd) as [Hinv2 Hne]; [done|done|done|].
    rewrite take_app_length' by done.
    destruct (mm_invalidate σ σ _ hd _ Hinv2 Hc eq_refl Hne) as (σ' & -> & Hinv' & Hi' & Hv & Ho).
    eexists _, _. split_and!; [done|done| |done| |done|done|].
    + simpl. by rewrite <- Permutation_cons_append.
    + intros h0 c0 Hc0 Hno. rewrite Ho; [done|]. intros ->.
      apply (Hno z); [set_solver|done].
    + intros Hs _ Hheap _ p j u v Hp He Hu Hv'. simpl in *. apply (Hheap p j); [done|done|..];
        rewrite lookup_app_l; try done; by eapply lookup_lt_Some.
Qed.

(** ** Cleanup *)

Lemma cleanup_split_spec p xs : forall removed kept σ h,
  (forall x, x ∈ xs -> exists i, linked σ h x i) -> NoDup xs ->
  exists σ' h', cleanup_split p xs removed kept σ h =
      Some (removed ++ take_out p xs, kept ++ keep p xs, σ', h') /\
    items h' = items h /\ policy h' = policy h /\ istates σ' = istates σ /\
    byteSize h' = fold_left (fun b x => atomic_sub b (item_bytes x)) (take_out p xs) (byteSize h) /\
    touches xs σ σ' /\ (forall x, x ∈ take_out p xs -> invalidated x σ σ') /\
    (forall y i, y ∉ take_out p xs -> linked σ h y i -> linked σ' h' y i) /\
    (forall hd hi, handles h' !! hd = Some hi <->
       handles h !! hd = Some hi /\ forall x, x ∈ take_out p xs -> Handle x σ <> Some hd).
Proof.
  induction xs as [|x xs IH]; intros removed kept σ h Hx Hnd; simpl.
  { exists σ, h. rewrite !app_nil_r. split_and!;
      [done..|apply touches_refl|by intros y ?%elem_of_nil|done|].
    intros. split; [intros ?; split; [done|by intros y ?%elem_of_nil]|naive_solver]. }
  apply NoDup_cons in Hnd as [Hxn Hnd]. unfold take_out, keep. simpl.
  destruct (p x) eqn:Hp; simpl.
  2: { destruct (IH removed (kept ++ [x]) σ h) as (σ' & h' & -> & ? & ? & ? & ? & Ht & ? & ? & ?);
         [set_solver|done|].
       exists σ', h'. rewrite <- app_assoc. split_and!; try done.
       eapply touches_weaken; [|done]. set_solver. }
  destruct (Hx x ltac:(left)) as (i & hd & Hhd & Hm & Hc). rewrite Hhd.
  destruct (Invalidate_spec hd σ _ Hc) as (σ1 & c1 & -> & Hi1 & Hc1 & _ & Hv1). cbn [mbind option_bind].
  set (h1 := set_byteSize _ _).
  assert (Hkeep : forall y j, y <> x -> linked σ h y j -> linked σ1 h1 y j).
  { intros y j Hne (hy & Hhy & Hmy & Hcy). assert (hy <> hd) by congruence.
    exists hy. rewrite (Handle_istates _ _ _ Hi1), Hc1. simpl.
    by rewrite lookup_delete_ne, lookup_insert_ne by done. }
  destruct (IH (removed ++ [x]) kept σ1 h1) as (σ' & h' & -> & Hit & Hpol & Hi2 & Hb & Ht & Hall & Hl & Hh).
  { intros y Hy. destruct (Hx y ltac:(by right)) as [j Hj]. exists j. apply Hkeep; [set_solver|done]. }
  { done. }
  assert (Hne : forall y, y ∈ xs -> Handle y σ <> Some hd).
  { intros y Hy Hhy. destruct (Hx y ltac:(by right)) as (j & hy & ? & ? & Hcy).
    assert (y = x) by congruence. set_solver. }
  exists σ', h'. split_and!; [by rewrite <- app_assoc|done|done|congruence|done| | | |].
  - intros h0 c0 Hc0 Hno. apply Ht.
    + rewrite Hc1, lookup_insert_ne; [done|]. intros <-. by apply (Hno x); [left|].
    + intros y ?. rewrite (Handle_istates _ _ _ Hi1). apply Hno. by right.
  - intros y [->|Hy]%elem_of_cons h0 Hh0.
    + assert (h0 = hd) as -> by congruence.
      rewrite (IsInvalidated_cell _ _ c1); [by rewrite Hv1|]. apply Ht.
      * by rewrite Hc1, lookup_insert_eq.
      * intros y' ?. rewrite (Handle_istates _ _ _ Hi1). by apply Hne.
    + apply (Hall y Hy). by rewrite (Handle_istates _ _ _ Hi1).
  - intros y j Hy Hlk. apply Hl; [set_solver|]. apply Hkeep; [set_solver|done].
  - intros hd' hi. rewrite Hh. simpl. rewrite lookup_delete_Some. setoid_rewrite elem_of_cons. split.
    + intros [[Hd Hm'] Hno]. split; [done|]. intros y [->|Hy]; [congruence|].
      rewrite <- (Handle_istates y _ _ Hi1). auto.
    + intros [Hm' Hno]. split_and!; [|done|].
      * intros <-. apply (Hno x); auto.
      * intros y Hy. rewrite (Handle_istates y _ _ Hi1). auto.
Qed.

Lemma reindex_spec xs h : forall i σ,
  (forall x, x ∈ xs -> exists j, linked σ h x j) -> NoDup xs ->
  exists σ', reindex i xs σ h = Some σ' /\ istates σ' = istates σ /\ touches xs σ σ' /\
    (forall k x, xs !! k = Some x -> linked σ' h x (i + k)) /\
    (forall y j, y ∉ xs -> linked σ h y j -> linked σ' h y j).
Proof.
  induction xs as [|x xs IH]; intros i σ Hx Hnd; simpl.
  { exists σ. split_and!; [done|done|apply touches_refl|done|done]. }
  apply NoDup_cons in Hnd as [Hxn Hnd]. destruct (Hx x ltac:(left)) as [j Hj].
  destruct (setIndex_spec x i j σ h Hj) as (σ1 & -> & Hi1 & Hl1 & Ht1 & Ho1). simpl.
  destruct (IH (S i) σ1) as (σ' & -> & Hi2 & Ht2 & Hk & Ho2).
  { intros y Hy. destruct (Hx y ltac:(by right)) as [k Hk]. exists k. apply Ho1; [set_solver|done]. }
  { done. }
  exists σ'. split_and!; [done|congruence| | |].
  - eapply touches_trans; [done| |]; (eapply touches_weaken; [|done]); set_solver.
  - intros [|k] y Hy; simpl in Hy.
    + simplify_eq. rewrite Nat.add_0_r. by apply Ho2.
    + replace (i + S k) with (S i + k) by lia. by apply Hk.
  - intros y k Hy Hlk. apply Ho2; [set_solver|]. apply Ho1; [set_solver|done].
Qed.

Lemma fold_atomic_sub l : forall b,
  fold_left (fun b x => atomic_sub b (item_bytes x)) l (u64 b) = u64 (b - sumZ item_bytes l)%Z.
Proof.
  induction l as [|x l IH]; intros b; simpl; [f_equal; lia|].
  rewrite atomic_sub_spec, u64_sub_l, IH. f_equal. lia.
Qed.

Lemma mm_cleanup_spec σ h p :
  mm_inv σ h ->
  exists σ' h', Cleanup p σ h = Some (take_out p (items h), σ', h') /\ mm_inv σ' h' /\
    items h' ≡ₚ keep p (items h) /\ istates σ' = istates σ /\ touches (items h) σ σ' /\
    (forall x, x ∈ take_out p (items h) -> invalidated x σ σ') /\ policy h' = policy h /\
    (StrictWeak (policy h) -> no_ties (policy h) (items h) ->
     heap_ok (policy h) isMinLevel (items h) \/ take_out p (items h) <> [] ->
     heap_ok (policy h) isMinLevel (items h')).
Proof.
  intros (Hidx & Hh & Hb). pose proof (indexed_nodup _ _ Hidx) as Hnd.
  destruct (cleanup_split_spec p (items h) [] [] σ h) as
    (σ1 & h1 & Hrun & Hit & Hpol & Hi1 & Hb1 & Ht1 & Hall & Hlk & Hh1);
    [by intros x; apply indexed_elem|done|].
  unfold Cleanup. rewrite Hrun. cbn [mbind option_bind app]. pose proof (keep_take_out p (items h)) as Hsplit.
  assert (Hb1' : byteSize h1 = u64 (sumZ item_bytes (keep p (items h)))).
  { rewrite Hb1, Hb, fold_atomic_sub. f_equal. rewrite <- (sumZ_perm item_bytes _ _ Hsplit), sumZ_app. lia. }
  assert (Hkl : forall x, x ∈ keep p (items h) -> exists i, linked σ1 h1 x i).
  { intros x [Hx Hpx]%elem_of_keep. destruct (indexed_elem _ _ _ Hidx Hx) as [i Hi].
    exists i. apply Hlk; [|done]. rewrite elem_of_take_out. naive_solver congruence. }
  assert (Hh2 : forall hd hi, handles h1 !! hd = Some hi ->
            exists x, x ∈ keep p (items h) /\ Handle x σ1 = Some hd).
  { intros hd hi [(x & Hx & Hxh)%Hh Hno]%Hh1. exists x. rewrite (Handle_istates _ _ _ Hi1).
    split; [|done]. rewrite <- Hsplit in Hx. apply elem_of_app in Hx as [Hx|]; [|done].
    by destruct (Hno x Hx). }
  assert (Hndk : NoDup (keep p (items h))).
  { rewrite <- Hsplit in Hnd. by apply NoDup_app in Hnd as (_ & _ & ?). }
  case_bool_decide as Hlen.
  - destruct (reindex_spec (keep p (items h)) (set_items (keep p (items h)) h1) 0 σ1)
      as (σ2 & -> & Hi2 & Ht2 & Hk & _); [done|done|]. cbn [mbind option_bind].
    set (h2 := set_items _ h1) in *.
    assert (Hinv2 : mm_inv σ2 h2).
    { split_and!; [by intros k x; apply (Hk k x)| |done].
      intros hd hi (x & Hx & Hxh)%Hh2. exists x. by rewrite (Handle_istates _ _ _ Hi2). }
    destruct (heapify_spec (length (keep p (items h)) / 2) σ2 h2) as (σ3 & h3 & -> & Hre & Hok).
    { apply Hinv2. } { apply (Nat.Div0.div_le_upper_bound (length (keep p (items h))) 2). simpl items. lia. }
    exists σ3, h3. pose proof Hre as (_ & Hp3 & _ & _ & Hpol3 & Hi3 & Ht3).
    assert (Hsub : keep p (items h) ⊆ items h) by (intros x [??]%elem_of_keep; done).
    split_and!; [done|by eapply rearranged_inv|done|congruence| | |by rewrite Hpol3|].
    + eapply touches_trans; [done|done|]. apply (touches_trans _ _ σ2); [done|..];
        (eapply touches_weaken; [|done]); done.
    + intros x Hx hd Hhd. pose proof (Hall x Hx hd Hhd) as Hv. unfold IsInvalidated in Hv |- *.
      destruct (cells σ1 !! hd) as [c|] eqn:Hc; [|done].
      assert (Hno : forall y, y ∈ keep p (items h) -> Handle y σ1 <> Some hd).
      { intros y Hy Hyh. destruct (Hkl y Hy) as (j & hy & ? & ? & Hcy).
        assert (hy = hd) as -> by congruence. rewrite Hc in Hcy. simplify_eq. }
      rewrite (Ht3 hd c); [done|apply Ht2; done|].
      intros y Hy. rewrite (Handle_istates _ _ _ Hi2). by apply Hno.
    + intros Hs Hnt _. rewrite <- Hpol. apply Hok.
      * simpl. by rewrite Hpol.
      * simpl. rewrite Hpol. by apply no_ties_keep.
      * simpl. apply edges_from_leaves.
  - destruct (take_out p (items h)) as [|x r] eqn:Hto; [|simpl in Hlen; lia].
    exists σ1, h1. rewrite <- Hit in *. simpl in Hsplit. split_and!; [done| |done|done|done|done|done|].
    + split_and!; [| |by rewrite Hb1', (sumZ_perm _ _ _ Hsplit)].
      * intros i x Hx. apply Hlk; [by apply not_elem_of_nil|]. apply Hidx. by rewrite <- Hit.
      * intros hd hi (x & Hx & Hxh)%Hh2. exists x. by rewrite <- Hsplit.
    + intros _ _ [?|?]; done.
Qed.

Lemma mm_add_spec σ h it :
  mm_inv σ h -> allocated it σ -> (forall x, x ∈ items h -> itemRef x <> itemRef it) ->
  exists σ' h', Add it σ h = Some (σ', h') /\ mm_inv σ' h' /\ items h' ≡ₚ it :: items h /\
    only_handle it σ σ' /\ touches (items h) σ σ' /\ policy h' = policy h /\
    (StrictWeak (policy h) -> heap_ok (policy h) isMinLevel (items h) ->
     heap_ok (policy h) isMinLevel (items h')).
Proof.
  intros Hinv Hal Hf. unfold Add.
  destruct (push_spec σ h it Hinv Hal Hf) as (σ' & h' & -> & ? & ? & ? & ? & ? & ?).
  eexists _, _. split_and!; done.
Qed.

Lemma mm_drain_spec σ h :
  mm_inv σ h ->
  exists σ' h', Drain σ h = Some (items h, σ', h') /\ mm_inv σ' h' /\ items h' = [] /\
    istates σ' = istates σ /\ touches (items h) σ σ' /\
    (forall x, x ∈ items h -> invalidated x σ σ').
Proof.
  intros Hinv. unfold Drain.
  destruct (invalidate_all_spec (items h) σ) as (σ' & -> & Hi & Ht & Hall & _).
  { intros x Hx. destruct (mm_inv_holds _ _ _ Hinv Hx) as (hd & c & ? & ? & _). eauto. }
  eexists _, _. split_and!; [done| |done..]. split_and!; [by intros i x ?|by intros hd hi ?|done].
Qed.

Lemma mm_remove_err_spec σ h hd e σ' h' :
  Remove hd σ h = Some (inr e, σ', h') -> σ' = σ /\ h' = h.
Proof.
  destruct hd as [hd|]; simpl; [|naive_solver].
  destruct (IsInvalidated hd σ) as [[]|]; simpl; [naive_solver| |done].
  destruct (cells σ !! hd) as [[y i b|]|]; simpl; [|naive_solver|done].
  destruct (handles h !! hd); [|naive_solver]. destruct (items h !! i); simpl; [|done].
  intros Hr. destruct (if bool_decide _ then _ else _) as [[??]|]; simpl in Hr; [|done].
  destruct (Invalidate _ _); done.
Qed.

Global Instance maxMinHeap_SafeQueue : SafeQueue maxMinHeap.
Proof.
  refine {| sq_contents := items; sq_inv := mm_inv |}.
  - apply mm_inv_holds.
  - apply mm_inv_nodup.
  - apply mm_inv_frame.
  - done.
  - by intros σ h (_ & _ & ?).
  - intros h. simpl. unfold PeekHead. by destruct (items h).
  - intros h x. apply list_elem_of_lookup_2.
  - intros σ h it ? ? ?.
    destruct (mm_add_spec σ h it) as (σ' & h' & ? & ? & ? & ? & ? & _); [done..|]. eauto 10.
  - intros σ h x hd ? [i Hi]%list_elem_of_lookup ?.
    destruct (mm_remove_spec σ h i x hd) as (σ' & h' & ? & ? & ? & ? & ? & ? & _); [done..|]. eauto 10.
  - done.
  - intros σ h hd Hh. simpl. unfold Remove. by rewrite Hh.
  - apply mm_remove_err_spec.
  - intros σ h p Hinv.
    destruct (mm_cleanup_spec σ h p Hinv) as (σ' & h' & ? & ? & ? & ? & ? & ? & _).
    eexists _, σ', h'. split_and!; done.
  - apply mm_drain_spec.
Defined.

(** * Order *)

Lemma list_elem_of_pair {A} (x a b : A) : x ∈ [a; b] <-> x = a \/ x = b.
Proof. by rewrite elem_of_cons, list_elem_of_singleton. Qed.

Lemma isMinLevel_0 : isMinLevel 0 = false.
Proof. done. Qed.

(** The item that replaces the head has no ancestor. *)
Lemma fits_head h z : fits h 0 z.
Proof. intros p u He. unfold edge, child, grand in He. lia. Qed.

Lemma heap_head_best h x :
  StrictWeak (policy h) -> heap_ok (policy h) isMinLevel (items h) -> PeekHead h = Some x ->
  forall y, y ∈ items h -> policy h y x = false.
Proof.
  intros Hs Hok Hx y [j Hy]%list_elem_of_lookup.
  by eapply (heap_root_best _ _ isMinLevel_child); [apply isMinLevel_0|..].
Qed.

Lemma heap_tail_worst h x :
  StrictWeak (policy h) -> heap_ok (policy h) isMinLevel (items h) -> PeekTail h = Some x ->
  x ∈ items h /\ forall y, y ∈ items h -> policy h x y = false.
Proof.
  intros Hs Hok Hx.
  assert (Hroot : forall x y, items h !! 0 = Some x -> y ∈ items h -> policy h y x = false).
  { intros. by eapply heap_head_best. }
  assert (Hch : forall j y, j <> 0 -> items h !! j = Some y ->
            exists c u, (c = 1 \/ c = 2) /\ items h !! c = Some u /\ policy h u y = false).
  { by apply (heap_children_worst _ _ isMinLevel_child). }
  unfold PeekTail in Hx. destruct (items h) as [|a [|b [|c l]]] eqn:Hl; simplify_eq.
  - split; [left|]. intros y ->%list_elem_of_singleton. apply sw_irrefl.
  - split; [set_solver|]. intros y [-> | ->]%list_elem_of_pair; [|apply sw_irrefl].
    eapply Hroot; [done|set_solver].
  - assert (Hx' : (x = b \/ x = c) /\ policy h x b = false /\ policy h x c = false).
    { destruct (policy h b c) eqn:Hbc; simplify_eq;
        split_and!; auto using sw_irrefl, sw_asym. }
    destruct Hx' as (Hbc & Hxb & Hxc). split; [destruct Hbc; set_solver|].
    intros y [j Hy]%list_elem_of_lookup. destruct (decide (j = 0)) as [->|Hj0].
    { simpl in Hy. simplify_eq. apply (Hroot y); [done|destruct Hbc; set_solver]. }
    destruct (Hch j y Hj0 Hy) as (k & u & Hk & Hu & Huy). apply (sw_incomp _ u); [|done].
    destruct Hk as [-> | ->]; simpl in Hu; simplify_eq; done.
Qed.
