(* ===== verification/QueueProps.v ===== *)
(** Properties of the two queue implementations: first-in first-out order of
    the list queue, priority order of the max-min heap, and the concrete runs
    in which the heap loses that order. *)

From S2P Require Import Prelude FlowTypes SafeQueue Ordering ListQueue HeapOrder MaxMinHeap MaxMinHeapSpec.

(** * Executable forms of the invariants *)

Global Instance LLMRequest_eq_dec : EqDecision LLMRequest.
Proof. solve_decision. Defined.
Global Instance FlowControlRequest_eq_dec : EqDecision FlowControlRequest.
Proof. solve_decision. Defined.
Global Instance Item_eq_dec : EqDecision Item.
Proof. solve_decision. Defined.

Definition linkedb (σ : Store) (h : maxMinHeap) (i : nat) (x : Item) : bool :=
  match Handle x σ with
  | Some hd =>
      bool_decide (handles h !! hd = Some hd) &&
      match cells σ !! hd with
      | Some (HeapItem y j false) => bool_decide (y = x) && bool_decide (j = i)
      | _ => false
      end
  | None => false
  end.

Definition mm_invb (σ : Store) (h : maxMinHeap) : bool :=
  forallb (fun p => linkedb σ h p.1 p.2) (imap pair (items h)) &&
  forallb (fun e => existsb (fun x => bool_decide (Handle x σ = Some e.1)) (items h))
    (map_to_list (handles h)) &&
  bool_decide (MaxMinHeap.byteSize h = u64 (sumZ item_bytes (items h))).

Lemma mm_invb_sound σ h : mm_invb σ h = true -> mm_inv σ h.
Proof.
  unfold mm_invb. rewrite !andb_true_iff, !forallb_forall, bool_decide_eq_true.
  intros [[Hl Hh] Hb]. split_and!; [| |done].
  - intros i x Hx. specialize (Hl (i, x)). unfold linkedb in Hl. simpl in Hl.
    destruct (Handle x σ) as [hd|] eqn:Hhd; [|exfalso; apply diff_false_true, Hl].
    + exists hd. rewrite andb_true_iff, bool_decide_eq_true in Hl.
      destruct Hl as [Hm Hc]; [apply list_elem_of_In, list_elem_of_lookup; exists i;
        by rewrite list_lookup_imap, Hx|].
      destruct (cells σ !! hd) as [[y j []|]|]; try done.
      apply andb_true_iff in Hc as [->%bool_decide_eq_true ->%bool_decide_eq_true]. done.
    + apply list_elem_of_In, list_elem_of_lookup. exists i. by rewrite list_lookup_imap, Hx.
  - intros hd hi Hm. specialize (Hh (hd, hi)). simpl in Hh.
    rewrite existsb_exists in Hh. destruct Hh as (x & Hx & Hxh).
    { by apply list_elem_of_In, elem_of_map_to_list. }
    exists x. by rewrite list_elem_of_In, bool_decide_eq_true in *.
Qed.

Definition edgeb (p j : nat) : bool :=
  bool_decide (2 * p + 1 <= j <= 2 * p + 2)%nat || bool_decide (4 * p + 3 <= j <= 4 * p + 6)%nat.

Definition heap_okb (h : maxMinHeap) : bool :=
  forallb (fun p => forallb (fun q =>
    negb (edgeb p.1 q.1) ||
    negb (if isMinLevel p.1 then policy h p.2 q.2 else policy h q.2 p.2))
    (imap pair (items h))) (imap pair (items h)).

Lemma heap_okb_sound h : heap_okb h = true -> heap_ok (policy h) isMinLevel (items h).
Proof.
  unfold heap_okb. rewrite forallb_forall. intros H p j x y _ He Hx Hy.
  specialize (H (p, x)). rewrite forallb_forall in H.
  assert (Hin : forall i z, items h !! i = Some z -> In (i, z) (imap pair (items h))).
  { intros i z Hz. apply list_elem_of_In, list_elem_of_lookup. exists i.
    by rewrite list_lookup_imap, Hz. }
  specialize (H (Hin _ _ Hx) (j, y) (Hin _ _ Hy)). simpl in H.
  assert (Heb : edgeb p j = true).
  { unfold edgeb. rewrite orb_true_iff, !bool_decide_eq_true. done. }
  rewrite Heb in H. simpl in H. unfold rel. by destruct (isMinLevel p); apply negb_true_iff in H.
Qed.

Definition no_tiesb (h : maxMinHeap) : bool :=
  forallb (fun p => forallb (fun q =>
    bool_decide (p.1 = q.1) || policy h p.2 q.2 || policy h q.2 p.2)
    (imap pair (items h))) (imap pair (items h)).

Lemma no_tiesb_sound h : no_tiesb h = true -> no_ties (policy h) (items h).
Proof.
  unfold no_tiesb. rewrite forallb_forall. intros H p j x y Hne Hx Hy.
  specialize (H (p, x)). rewrite forallb_forall in H.
  assert (Hin : forall i z, items h !! i = Some z -> In (i, z) (imap pair (items h))).
  { intros i z Hz. apply list_elem_of_In, list_elem_of_lookup. exists i.
    by rewrite list_lookup_imap, Hz. }
  specialize (H (Hin _ _ Hx) (j, y) (Hin _ _ Hy)). simpl in H.
  rewrite bool_decide_eq_false_2 in H by done. by apply orb_true_iff.
Qed.

(** * Sample data *)

Definition sample_req (n : Z) : FlowControlRequest :=
  mkRequest "req" (mkFlowKey "flow" 0) (10 + n) None n 0.

(** Items that arrived at the given times, added in the given order. *)
Definition sample_reqs (ts : list Z) : list (FlowControlRequest * Z * Z) :=
  (fun t => (sample_req t, 0, t)) <$> ts.

Definition empty_store : Store := mkStore ∅ ∅.

Definition fcfs_heap (ts : list Z) : Store * maxMinHeap :=
  default (empty_store, newMaxMinHeap (on_items fcfs_Less))
    (adds (sample_reqs ts) empty_store (newMaxMinHeap (on_items fcfs_Less))).

Definition fifo_queue (ts : list Z) : Store * listQueue :=
  default (empty_store, newListQueue 1) (adds (sample_reqs ts) empty_store (newListQueue 1)).

(** The arrival times of the items of a queue, for reading results. *)
Definition times (xs : list Item) : list Z := enqueueTime <$> xs.

(** * Lemmas *)

Lemma no_ties_tail {A} (less : A -> A -> bool) x (l : list A) :
  no_ties less (x :: l) -> no_ties less l.
Proof. intros H i j a b Hij Ha Hb. by apply (H (S i) (S j)); [lia|..]. Qed.

(** One dispatch from the head. *)
Lemma mm_pop_spec σ h :
  mm_inv σ h -> StrictWeak (policy h) -> no_ties (policy h) (items h) ->
  heap_ok (policy h) isMinLevel (items h) -> items h <> [] ->
  exists x σ' h', MaxMinHeap.PeekHead h = Some x /\
    MaxMinHeap.Remove (Handle x σ) σ h = Some (inl x, σ', h') /\ mm_inv σ' h' /\
    items h ≡ₚ x :: items h' /\ policy h' = policy h /\ no_ties (policy h) (items h') /\
    heap_ok (policy h) isMinLevel (items h') /\ forall y, y ∈ items h -> policy h y x = false.
Proof.
  intros Hinv Hs Hnt Hok Hne. destruct (items h !! 0%nat) as [x|] eqn:Hx;
    [|by destruct (items h)].
  destruct (mm_inv_holds σ h x Hinv) as (hd & c & Hhd & _); [by eapply list_elem_of_lookup_2|].
  destruct (mm_remove_spec σ h 0 x hd) as (σ' & h' & Hr & ? & Hp & ? & ? & ? & ? & Hok'); [done..|].
  exists x, σ', h'. rewrite Hhd. split_and!; try done.
  - eapply no_ties_tail, no_ties_perm; done.
  - apply Hok'; [done..|]. intros. apply fits_head.
  - by apply heap_head_best.
Qed.

(** * Properties *)

(** C7: Taking the head out of a max-min heap until it is empty never fails and
    yields every item exactly once, in priority order: no item is dispatched
    after one it precedes.  This is for a policy that is a strict weak order, no
    two items of equal priority, and a heap whose items are in heap order, as
    they are after additions and removals at the head.  Ties can break the order
    ([heap_ties_break_order]), and so can a removal from the middle
    ([heap_remove_middle_breaks_order]). *)
Theorem heap_pops_sorted σ h :
  mm_inv σ h -> StrictWeak (policy h) -> no_ties (policy h) (items h) ->
  heap_ok (policy h) isMinLevel (items h) ->
  exists xs σ' h', pops (length (items h)) σ h = Some (xs, σ', h') /\ items h' = [] /\
    xs ≡ₚ items h /\ StronglySorted (fun x y => policy h y x = false) xs.
Proof.
  remember (length (items h)) as n eqn:Hn. revert σ h Hn.
  induction n as [|n IH]; intros σ h Hn Hinv Hs Hnt Hok.
  { exists [], σ, h. symmetry in Hn. apply nil_length_inv in Hn. rewrite Hn.
    split_and!; [done..|constructor]. }
  destruct (mm_pop_spec σ h Hinv Hs Hnt Hok) as (x & σ1 & h1 & Hx & Hr & Hinv1 & Hp & Hpol & Hnt1 & Hok1 & Hb).
  { intros He. by rewrite He in Hn. }
  simpl. rewrite Hx. simpl. rewrite Hr. simpl.
  destruct (IH σ1 h1) as (xs & σ' & h' & -> & He & Hxs & Hsort); rewrite ?Hpol; try done.
  { rewrite Hp in Hn. simpl in Hn. lia. }
  exists (x :: xs), σ', h'. split_and!; [done|done|by rewrite Hxs|].
  rewrite Hpol in Hsort. constructor; [done|]. apply Forall_forall. intros y Hy.
  apply Hb. rewrite Hp, <- Hxs. by right.
Qed.

Lemma heap_pops_sorted_witness :
  exists xs σ' h', pops 6 (fcfs_heap [5; 3; 8; 1; 9; 2]).1 (fcfs_heap [5; 3; 8; 1; 9; 2]).2 =
    Some (xs, σ', h') /\ times xs = [1; 2; 3; 5; 8; 9].
Proof.
  destruct (heap_pops_sorted (fcfs_heap [5; 3; 8; 1; 9; 2]).1 (fcfs_heap [5; 3; 8; 1; 9; 2]).2)
    as (xs & σ' & h' & Hrun & _).
  - apply mm_invb_sound. vm_compute. reflexivity.
  - change (StrictWeak (on_items fcfs_Less)). apply _.
  - apply no_tiesb_sound. vm_compute. reflexivity.
  - apply heap_okb_sound. vm_compute. reflexivity.
  - exists xs, σ', h'. split; [exact Hrun|].
    vm_compute in Hrun. injection Hrun as <- _ _. reflexivity.
Defined.

(** Adding an item to a max-min heap never fails, adds that item only, keeps
    the heap order, and leaves [PeekHead] at an item no other item precedes and
    [PeekTail] at an item that precedes no other, ties included. *)
Theorem heap_add_order σ h it :
  mm_inv σ h -> StrictWeak (policy h) -> heap_ok (policy h) isMinLevel (items h) ->
  allocated it σ -> (forall x, x ∈ items h -> itemRef x <> itemRef it) ->
  exists σ' h', MaxMinHeap.Add it σ h = Some (σ', h') /\ mm_inv σ' h' /\
    items h' ≡ₚ it :: items h /\ heap_ok (policy h) isMinLevel (items h') /\
    (exists hd, MaxMinHeap.PeekHead h' = Some hd /\ forall y, y ∈ items h' -> policy h y hd = false) /\
    (exists tl, MaxMinHeap.PeekTail h' = Some tl /\ tl ∈ items h' /\
       forall y, y ∈ items h' -> policy h tl y = false).
Proof.
  intros Hinv Hs Hok Hal Hf.
  destruct (mm_add_spec σ h it Hinv Hal Hf) as (σ' & h' & Hadd & Hinv' & Hp & _ & _ & Hpol & Hok').
  exists σ', h'. specialize (Hok' Hs Hok). split_and!; try done; rewrite <- Hpol in *.
  - destruct (MaxMinHeap.PeekHead h') as [x|] eqn:Hx; [by exists x; split; [|apply heap_head_best]|].
    unfold MaxMinHeap.PeekHead in Hx. destruct (items h'); [by apply Permutation_nil_cons in Hp|done].
  - destruct (MaxMinHeap.PeekTail h') as [x|] eqn:Hx; [by exists x; split; [|apply heap_tail_worst]|].
    unfold MaxMinHeap.PeekTail in Hx. destruct (items h') as [|a [|b [|c l]]]; try done.
    + by apply Permutation_nil_cons in Hp.
    + by destruct (policy h' b c).
Qed.

Definition new_item (t : Z) (σ : Store) : Item * Store := NewItem (sample_req t) 0 t σ.

Lemma heap_add_order_witness :
  let σh := fcfs_heap [5; 3; 8] in
  let '(it, σ) := new_item 1 σh.1 in
  exists σ' h', MaxMinHeap.Add it σ σh.2 = Some (σ', h') /\
    enqueueTime <$> MaxMinHeap.PeekHead h' = Some 1 /\ enqueueTime <$> MaxMinHeap.PeekTail h' = Some 8.
Proof.
  destruct (heap_add_order (new_item 1 (fcfs_heap [5; 3; 8]).1).2 (fcfs_heap [5; 3; 8]).2
              (new_item 1 (fcfs_heap [5; 3; 8]).1).1) as (σ' & h' & Hadd & _).
  - apply mm_invb_sound. vm_compute. reflexivity.
  - change (StrictWeak (on_items fcfs_Less)). apply _.
  - apply heap_okb_sound. vm_compute. reflexivity.
  - vm_compute. eexists. reflexivity.
  - apply (Forall_forall (fun x => itemRef x <> _)). vm_compute. repeat constructor; congruence.
  - exists σ', h'. split; [exact Hadd|]. vm_compute in Hadd. injection Hadd as _ <-.
    vm_compute. split; reflexivity.
Defined.

(** Removing an item by its handle returns that item, invalidates the handle
    and keeps every other item.  The heap order survives when the last item,
    which takes the vacated position, fits below the ancestors of that position,
    as it always does for the head. *)
Theorem heap_remove_order σ h i x hd :
  mm_inv σ h -> items h !! i = Some x -> Handle x σ = Some hd ->
  exists σ' h', MaxMinHeap.Remove (Some hd) σ h = Some (inl x, σ', h') /\ mm_inv σ' h' /\
    items h ≡ₚ x :: items h' /\ IsInvalidated hd σ' = Some true /\
    (StrictWeak (policy h) -> no_ties (policy h) (items h) ->
     heap_ok (policy h) isMinLevel (items h) ->
     i = 0%nat \/ (forall z, last (items h) = Some z -> fits h i z) ->
     heap_ok (policy h) isMinLevel (items h')).
Proof.
  intros Hinv Hx Hhd.
  destruct (mm_remove_spec σ h i x hd) as (σ' & h' & ? & ? & ? & ? & ? & ? & ? & Hok); [done..|].
  exists σ', h'. split_and!; try done. intros Hs Hnt Hheap Hfit. apply Hok; [done..|].
  intros z Hz _. destruct Hfit as [->|Hfit]; [apply fits_head|by apply Hfit].
Qed.

Definition handle_at (i : nat) (σh : Store * maxMinHeap) : handle_ref :=
  default 1%positive (x ← items σh.2 !! i; Handle x σh.1).
Definition item_at (i : nat) (σh : Store * maxMinHeap) : Item :=
  default (mkItem 1 0 0 (sample_req 0)) (items σh.2 !! i).

Lemma heap_remove_order_witness :
  let σh := fcfs_heap [5; 3; 8; 1] in
  exists σ' h', MaxMinHeap.Remove (Some (handle_at 0 σh)) σh.1 σh.2 = Some (inl (item_at 0 σh), σ', h') /\
    heap_ok (policy σh.2) isMinLevel (items h').
Proof.
  destruct (heap_remove_order (fcfs_heap [5; 3; 8; 1]).1 (fcfs_heap [5; 3; 8; 1]).2 0
              (item_at 0 (fcfs_heap [5; 3; 8; 1])) (handle_at 0 (fcfs_heap [5; 3; 8; 1])))
    as (σ' & h' & Hr & _ & _ & _ & Hok).
  - apply mm_invb_sound. vm_compute. reflexivity.
  - vm_compute. reflexivity.
  - vm_compute. reflexivity.
  - exists σ', h'. split; [exact Hr|]. apply Hok.
    + change (StrictWeak (on_items fcfs_Less)). apply _.
    + apply no_tiesb_sound. vm_compute. reflexivity.
    + apply heap_okb_sound. vm_compute. reflexivity.
    + by left.
Defined.

(** [Cleanup] of a max-min heap removes exactly the items the predicate
    selects, in heap order, invalidates their handles, and keeps the others with
    the heap order; whenever it removed something it re-establishes that order
    even from a disordered heap. *)
Theorem heap_cleanup_order σ h p :
  mm_inv σ h -> StrictWeak (policy h) -> no_ties (policy h) (items h) ->
  heap_ok (policy h) isMinLevel (items h) \/ take_out p (items h) <> [] ->
  exists σ' h', MaxMinHeap.Cleanup p σ h = Some (take_out p (items h), σ', h') /\ mm_inv σ' h' /\
    items h' ≡ₚ keep p (items h) /\ heap_ok (policy h) isMinLevel (items h') /\
    (forall x, x ∈ take_out p (items h) -> invalidated x σ σ').
Proof.
  intros Hinv Hs Hnt Hor.
  destruct (mm_cleanup_spec σ h p Hinv) as (σ' & h' & ? & ? & ? & ? & ? & ? & ? & Hok).
  exists σ', h'. split_and!; auto.
Qed.

Definition even_time (x : Item) : bool := Z.even (enqueueTime x).

Lemma heap_cleanup_order_witness :
  let σh := fcfs_heap [5; 3; 8; 1; 9; 2] in
  exists σ' h', MaxMinHeap.Cleanup even_time σh.1 σh.2 = Some (take_out even_time (items σh.2), σ', h') /\
    heap_ok (policy σh.2) isMinLevel (items h') /\ times (items h') = [1; 9; 3; 5].
Proof.
  destruct (heap_cleanup_order (fcfs_heap [5; 3; 8; 1; 9; 2]).1 (fcfs_heap [5; 3; 8; 1; 9; 2]).2 even_time)
    as (σ' & h' & Hr & _ & _ & Hok & _).
  - apply mm_invb_sound. vm_compute. reflexivity.
  - change (StrictWeak (on_items fcfs_Less)). apply _.
  - apply no_tiesb_sound. vm_compute. reflexivity.
  - right. vm_compute. discriminate.
  - exists σ', h'. split; [exact Hr|]. split; [exact Hok|].
    vm_compute in Hr. injection Hr as _ <-. reflexivity.
Defined.

(** Remove the item that arrived at time [t]. *)
Definition remove_time (t : Z) (σh : Store * maxMinHeap) : option (Store * maxMinHeap) :=
  '(_, x) ← list_find (fun x => enqueueTime x = t) (items σh.2);
  '(r, σ', h') ← MaxMinHeap.Remove (Handle x σh.1) σh.1 σh.2;
  match r with inl _ => Some (σ', h') | inr _ => None end.

(** The state after [n] dispatches from the head. *)
Definition pop_n (n : nat) (σh : Store * maxMinHeap) : option (Store * maxMinHeap) :=
  '(_, σ', h') ← pops n σh.1 σh.2; Some (σ', h').

Definition add_more (ts : list Z) (σh : Store * maxMinHeap) : option (Store * maxMinHeap) :=
  adds (sample_reqs ts) σh.1 σh.2.

(** [Remove] only moves the replacement item down.  Removing an item from the
    middle of an ordered heap of eleven items, all of different age, breaks the
    order: two dispatches later the head is item 3 while item 2 is still queued. *)
Theorem heap_remove_middle_breaks_order :
  let σh := fcfs_heap [7; 3; 5; 1; 9; 6; 4; 8; 10; 2; 0] in
  heap_ok (policy σh.2) isMinLevel (items σh.2) /\ no_ties (policy σh.2) (items σh.2) /\
  exists s1 s2, remove_time 8 σh = Some s1 /\ pop_n 2 s1 = Some s2 /\
    enqueueTime <$> MaxMinHeap.PeekHead s2.2 = Some 3 /\ 2 ∈ times (items s2.2).
Proof.
  split; [|split].
  - apply heap_okb_sound. vm_compute. reflexivity.
  - apply no_tiesb_sound. vm_compute. reflexivity.
  - eexists _, _. split; [vm_compute; reflexivity|]. split; [vm_compute; reflexivity|].
    split; [vm_compute; reflexivity|]. vm_compute. set_solver.
Qed.

(** With items of equal priority even dispatching from the head loses the
    order: [downMax] goes on from a child, which is on a min level, as if it were
    on a max level.  After seven arrivals, a dispatch, four arrivals and two
    dispatches, the head is an item of time 3 while one of time 2 is queued. *)
Theorem heap_ties_break_order :
  exists s1 s2 s3,
    pop_n 1 (fcfs_heap [2; 2; 3; 2; 1; 3; 3]) = Some s1 /\
    add_more [3; 3; 3; 3] s1 = Some s2 /\ pop_n 2 s2 = Some s3 /\
    enqueueTime <$> MaxMinHeap.PeekHead s3.2 = Some 3 /\ 2 ∈ times (items s3.2).
Proof.
  eexists _, _, _. split; [vm_compute; reflexivity|]. split; [vm_compute; reflexivity|].
  split; [vm_compute; reflexivity|]. split; [vm_compute; reflexivity|]. vm_compute. set_solver.
Qed.

(** * The list queue *)

Lemma lq_pop_spec σ lq x l :
  ListQueue.inv σ lq -> contents lq = x :: l ->
  exists σ' lq', ListQueue.PeekHead lq = Some x /\
    ListQueue.Remove (Handle x σ) σ lq = Some (inl x, σ', lq') /\ ListQueue.inv σ' lq' /\
    contents lq' = l.
Proof.
  intros Hinv Hc.
  destruct (lq_inv_holds σ lq x Hinv) as (hd & c & Hhd & _); [rewrite Hc; left|].
  destruct (lq_remove_spec σ lq x hd) as (σ' & lq' & Hr & Hinv' & (l1 & k & Hl & Hk) & _);
    [done|rewrite Hc; left|done|].
  exists σ', lq'. rewrite Hhd. split_and!; [|done|done|].
  - unfold ListQueue.PeekHead. unfold contents in Hc. destruct (requests lq); [done|].
    simpl in *. congruence.
  - rewrite Hk. rewrite Hc in Hl. destruct l1 as [|y l1]; simpl in *; [congruence|].
    exfalso. injection Hl as -> Hl. pose proof (lq_inv_nodup σ lq Hinv) as Hnd.
    rewrite Hc, Hl in Hnd. simpl in Hnd. apply NoDup_cons in Hnd as [Hn _].
    apply Hn. rewrite fmap_app. simpl. set_solver.
Qed.

(** The list queue is first in, first out: an added item goes to the end,
    after which taking the head out until the queue is empty yields the items in
    the order of their arrival, the new one last. *)
Theorem list_queue_fifo σ lq it :
  ListQueue.inv σ lq -> allocated it σ ->
  (forall x, x ∈ contents lq -> itemRef x <> itemRef it) ->
  exists σ1 lq1 σ2 lq2, ListQueue.Add it σ lq = Some (σ1, lq1) /\
    pops (S (length (contents lq))) σ1 lq1 = Some (contents lq ++ [it], σ2, lq2) /\
    contents lq2 = [].
Proof.
  intros Hinv Hal Hf. destruct (lq_add_spec σ lq it) as (σ1 & lq1 & Hadd & Hinv1 & Hc & _); [done..|].
  assert (Hpops : forall l σ lq, ListQueue.inv σ lq -> contents lq = l ->
    exists σ' lq', pops (length l) σ lq = Some (l, σ', lq') /\ contents lq' = []).
  { induction l as [|x l IH]; intros σ0 lq0 Hinv0 Hc0; simpl; [by exists σ0, lq0|].
    destruct (lq_pop_spec σ0 lq0 x l Hinv0 Hc0) as (σ' & lq' & -> & Hr & Hinv' & Hc').
    simpl. rewrite Hr. simpl. destruct (IH σ' lq' Hinv' Hc') as (σ'' & lq'' & -> & ?).
    by exists σ'', lq''. }
  destruct (Hpops (contents lq ++ [it]) σ1 lq1 Hinv1 Hc) as (σ2 & lq2 & Hp & He).
  exists σ1, lq1, σ2, lq2. rewrite length_app in Hp. simpl in Hp. rewrite Nat.add_1_r in Hp. done.
Qed.

Definition list_invb (σ : Store) (lq : listQueue) : bool :=
  bool_decide (NoDup (requests lq).*1) &&
  forallb (fun e => bool_decide (Handle e.2 σ = Some e.1) &&
    match cells σ !! e.1 with
    | Some (ListItemHandle y o false) => bool_decide (y = e.2) && bool_decide (o = lq_self lq)
    | _ => false
    end) (requests lq) &&
  bool_decide (ListQueue.byteSize lq = u64 (sumZ item_bytes (contents lq))).

Lemma list_invb_sound σ lq : list_invb σ lq = true -> ListQueue.inv σ lq.
Proof.
  unfold list_invb. rewrite !andb_true_iff, !bool_decide_eq_true, forallb_forall.
  intros [[Hnd Hl] Hb]. split_and!; [done| |done]. intros hd x Hx.
  specialize (Hl (hd, x)). rewrite <- list_elem_of_In, andb_true_iff, bool_decide_eq_true in Hl.
  destruct (Hl Hx) as [Hh Hc]. simpl in *. split; [done|].
  destruct (cells σ !! hd) as [[|y o []]|]; try done.
  by apply andb_true_iff in Hc as [->%bool_decide_eq_true ->%bool_decide_eq_true].
Qed.

Lemma list_queue_fifo_witness :
  let σq := fifo_queue [5; 3; 8] in
  let '(it, σ) := new_item 1 σq.1 in
  exists σ1 lq1 σ2 lq2, ListQueue.Add it σ σq.2 = Some (σ1, lq1) /\
    pops 4 σ1 lq1 = Some (contents σq.2 ++ [it], σ2, lq2) /\ contents lq2 = [].
Proof.
  apply (list_queue_fifo (new_item 1 (fifo_queue [5; 3; 8]).1).2 (fifo_queue [5; 3; 8]).2
           (new_item 1 (fifo_queue [5; 3; 8]).1).1).
  - apply list_invb_sound. vm_compute. reflexivity.
  - vm_compute. eexists. reflexivity.
  - apply (Forall_forall (fun x => itemRef x <> _)). vm_compute. repeat constructor; congruence.
Defined.
