(* ===== verification/QueueFactory.v ===== *)
(** The registry of queue implementations:
    pkg/epp/flowcontrol/framework/plugins/queue/factory.go.

    A contracts.SafeQueue value is one of the two registered implementations;
    the interface calls dispatch on it. *)

From S2P Require Import Prelude FlowTypes SafeQueue ListQueue MaxMinHeap MaxMinHeapSpec.

Inductive AnyQueue := QList (q : listQueue) | QHeap (q : maxMinHeap).

Definition ListQueueName : string := "ListQueue".
Definition MaxMinHeapName : string := "MaxMinHeap".

Abbreviation QueueConstructor := (positive -> (Item -> Item -> bool) -> AnyQueue) (only parsing).

(** [MustRegisterQueue]: [None] is the panic on a second registration. *)
Definition MustRegisterQueue (name : string) (c : QueueConstructor) (reg : gmap string QueueConstructor)
  : option (gmap string QueueConstructor) :=
  match reg !! name with Some _ => None | None => Some (<[name := c]> reg) end.

(** The two init functions of the package. *)
Definition RegisteredQueues : gmap string QueueConstructor :=
  default ∅ (
    r ← MustRegisterQueue ListQueueName (fun self _ => QList (newListQueue self)) ∅;
    MustRegisterQueue MaxMinHeapName (fun _ less => QHeap (newMaxMinHeap less)) r).

(** [self] is the address the new queue is allocated at. *)
Definition NewQueueFromName (self : positive) (name : string) (less : Item -> Item -> bool)
  : AnyQueue + error :=
  match RegisteredQueues !! name with
  | None => inr (Message "no SafeQueue registered with name")
  | Some constructor => inl (constructor self less)
  end.

Definition lift_list {A} (r : option (A * listQueue)) : option (A * AnyQueue) :=
  '(a, q) ← r; Some (a, QList q).
Definition lift_heap {A} (r : option (A * maxMinHeap)) : option (A * AnyQueue) :=
  '(a, q) ← r; Some (a, QHeap q).

Global Instance AnyQueue_ops : SafeQueueOps AnyQueue := {|
  sq_Name q := match q with QList q => sq_Name q | QHeap q => sq_Name q end;
  sq_Capabilities q := match q with QList q => sq_Capabilities q | QHeap q => sq_Capabilities q end;
  sq_Len q := match q with QList q => sq_Len q | QHeap q => sq_Len q end;
  sq_ByteSize q := match q with QList q => sq_ByteSize q | QHeap q => sq_ByteSize q end;
  sq_PeekHead q := match q with QList q => sq_PeekHead q | QHeap q => sq_PeekHead q end;
  sq_PeekTail q := match q with QList q => sq_PeekTail q | QHeap q => sq_PeekTail q end;
  sq_Add it σ q := match q with
                   | QList q => lift_list (sq_Add it σ q)
                   | QHeap q => lift_heap (sq_Add it σ q)
                   end;
  sq_Remove h σ q := match q with
                     | QList q => lift_list (sq_Remove h σ q)
                     | QHeap q => lift_heap (sq_Remove h σ q)
                     end;
  sq_Cleanup p σ q := match q with
                      | QList q => lift_list (sq_Cleanup p σ q)
                      | QHeap q => lift_heap (sq_Cleanup p σ q)
                      end;
  sq_Drain σ q := match q with
                  | QList q => lift_list (sq_Drain σ q)
                  | QHeap q => lift_heap (sq_Drain σ q)
                  end
|}.

Definition any_contents (q : AnyQueue) : list Item :=
  match q with QList q => sq_contents q | QHeap q => sq_contents q end.
Definition any_inv (σ : Store) (q : AnyQueue) : Prop :=
  match q with QList q => sq_inv σ q | QHeap q => sq_inv σ q end.

Global Instance AnyQueue_SafeQueue : SafeQueue AnyQueue.
Proof.
  refine {| sq_contents := any_contents; sq_inv := any_inv |}.
  - intros σ [q|q] x; [apply (law_handle (Q:=listQueue))|apply (law_handle (Q:=maxMinHeap))].
  - intros σ [q|q]; [apply (law_nodup (Q:=listQueue))|apply (law_nodup (Q:=maxMinHeap))].
  - intros σ σ' [q|q]; [apply (law_frame (Q:=listQueue))|apply (law_frame (Q:=maxMinHeap))].
  - intros [q|q]; [apply (law_len (Q:=listQueue))|apply (law_len (Q:=maxMinHeap))].
  - intros σ [q|q]; [apply (law_bytes (Q:=listQueue))|apply (law_bytes (Q:=maxMinHeap))].
  - intros [q|q]; [apply (law_head_none (Q:=listQueue))|apply (law_head_none (Q:=maxMinHeap))].
  - intros [q|q]; [apply (law_head_some (Q:=listQueue))|apply (law_head_some (Q:=maxMinHeap))].
  - intros σ [q|q] it Hi Ha Hf.
    + destruct (law_add (Q:=listQueue) σ q it Hi Ha Hf) as (σ' & q' & Hr & ?).
      exists σ', (QList q'). cbn [sq_Add AnyQueue_ops]. by rewrite Hr.
    + destruct (law_add (Q:=maxMinHeap) σ q it Hi Ha Hf) as (σ' & q' & Hr & ?).
      exists σ', (QHeap q'). cbn [sq_Add AnyQueue_ops]. by rewrite Hr.
  - intros σ [q|q] x h Hi Hx Hh.
    + destruct (law_remove (Q:=listQueue) σ q x h Hi Hx Hh) as (σ' & q' & Hr & ?).
      exists σ', (QList q'). cbn [sq_Remove AnyQueue_ops]. by rewrite Hr.
    + destruct (law_remove (Q:=maxMinHeap) σ q x h Hi Hx Hh) as (σ' & q' & Hr & ?).
      exists σ', (QHeap q'). cbn [sq_Remove AnyQueue_ops]. by rewrite Hr.
  - by intros σ [q|q].
  - intros σ [q|q] h Hh; cbn [sq_Remove AnyQueue_ops];
      [rewrite (law_remove_invalid (Q:=listQueue) σ q h Hh)
      |rewrite (law_remove_invalid (Q:=maxMinHeap) σ q h Hh)]; done.
  - intros σ [q|q] h e σ' q' Hr; cbn [sq_Remove AnyQueue_ops] in Hr;
      destruct (sq_Remove h σ q) as [[[[x|e'] σ1] q1]|] eqn:Hr'; simplify_eq/=.
    + destruct (law_remove_err (Q:=listQueue) σ q h e σ' q1) as [-> ->]; [exact Hr'|done].
    + destruct (law_remove_err (Q:=maxMinHeap) σ q h e σ' q1) as [-> ->]; [exact Hr'|done].
  - intros σ [q|q] p Hi.
    + destruct (law_cleanup (Q:=listQueue) σ q p Hi) as (r & σ' & q' & Hr & ?).
      exists r, σ', (QList q'). cbn [sq_Cleanup AnyQueue_ops]. by rewrite Hr.
    + destruct (law_cleanup (Q:=maxMinHeap) σ q p Hi) as (r & σ' & q' & Hr & ?).
      exists r, σ', (QHeap q'). cbn [sq_Cleanup AnyQueue_ops]. by rewrite Hr.
  - intros σ [q|q] Hi.
    + destruct (law_drain (Q:=listQueue) σ q Hi) as (σ' & q' & Hr & ?).
      exists σ', (QList q'). cbn [sq_Drain AnyQueue_ops]. by rewrite Hr.
    + destruct (law_drain (Q:=maxMinHeap) σ q Hi) as (σ' & q' & Hr & ?).
      exists σ', (QHeap q'). cbn [sq_Drain AnyQueue_ops]. by rewrite Hr.
Defined.

Lemma RegisteredQueues_eq :
  RegisteredQueues = <[MaxMinHeapName := fun _ less => QHeap (newMaxMinHeap less)]>
                       (<[ListQueueName := fun self _ => QList (newListQueue self)]> ∅).
Proof. reflexivity. Qed.

(** A queue made by the factory is empty and satisfies its contract. *)
Lemma NewQueueFromName_inv self name less q σ :
  NewQueueFromName self name less = inl q -> sq_inv σ q /\ sq_contents q = [].
Proof.
  unfold NewQueueFromName. rewrite RegisteredQueues_eq.
  destruct (_ !! name) as [c|] eqn:Hc; [|done]. intros [= <-].
  apply lookup_insert_Some in Hc as [[_ <-]|[_ Hc]].
  - split; [|done]. split_and!; [by intros i x ?|by intros hd hi ?|done].
  - apply lookup_insert_Some in Hc as [[_ <-]|[_ Hc]]; [|by rewrite lookup_empty in Hc].
    split; [|done]. split_and!; [constructor|by intros h x ?%elem_of_nil|done].
Qed.
