(* ===== verification/ManagedQueue.v ===== *)
(** The statistics decorator around a queue:
    pkg/epp/flowcontrol/registry/managedqueue.go.

    The model is generic in the queue implementation and uses its contract
    only.  A mutating method runs under the queue's mutex and is one step.
    The callback [onStatsDelta] is the list of deltas a method propagates to
    the shard; the callback [isDraining] is the answer it gives at the call.
    [None] is the panic on a negative length. *)

From S2P Require Import Prelude FlowTypes ItemProps SafeQueue ListQueue Ordering Fairness.

(** (priority, lenDelta, byteSizeDelta) *)
Abbreviation stats_delta := (Z * Z * Z)%type (only parsing).

Section managed.
Context {Q : Type} `{!SafeQueueOps Q}.

Record managedQueue := mkManagedQueue {
  mq_key : FlowKey;
  mq_policy : OrderingPolicy;
  mq_queue : Q;
  mq_byteSize : Z;
  mq_len : Z
}.

Definition newManagedQueue (queue : Q) (policy : OrderingPolicy) (key : FlowKey) : managedQueue :=
  mkManagedQueue key policy queue 0 0.

Definition set_queue (q : Q) (mq : managedQueue) : managedQueue :=
  mkManagedQueue (mq_key mq) (mq_policy mq) q (mq_byteSize mq) (mq_len mq).

Definition propagateStatsDeltaLocked (lenDelta byteSizeDelta : Z) (mq : managedQueue)
  : option (managedQueue * list stats_delta) :=
  let newLen := i64 (mq_len mq + lenDelta) in
  if newLen <? 0 then None
  else Some (mkManagedQueue (mq_key mq) (mq_policy mq) (mq_queue mq) (i64 (mq_byteSize mq + byteSizeDelta)) newLen,
             [(Priority (mq_key mq), lenDelta, byteSizeDelta)]).

(** The two accumulators of the loop over removed items. *)
Fixpoint removed_deltas (items : list Item) (lenDelta byteSizeDelta : Z) : Z * Z :=
  match items with
  | [] => (lenDelta, byteSizeDelta)
  | x :: items => removed_deltas items (i64 (lenDelta - 1)) (i64 (byteSizeDelta - i64 (item_bytes x)))
  end.

Definition propagateStatsDeltaForRemovedItemsLocked (items : list Item) (mq : managedQueue)
  : option (managedQueue * list stats_delta) :=
  let '(lenDelta, byteSizeDelta) := removed_deltas items 0 0 in
  propagateStatsDeltaLocked lenDelta byteSizeDelta mq.

Definition Add (it : Item) (isDraining : bool) (σ : Store) (mq : managedQueue)
  : option (option error * Store * managedQueue * list stats_delta) :=
  if isDraining then Some (Some (Sentinel ErrShardDraining), σ, mq, [])
  else
    '(σ', q') ← sq_Add it σ (mq_queue mq);
    '(mq', ds) ← propagateStatsDeltaLocked 1 (i64 (item_bytes it)) (set_queue q' mq);
    Some (None, σ', mq', ds).

Definition Remove (handle : option handle_ref) (σ : Store) (mq : managedQueue)
  : option ((Item + error) * Store * managedQueue * list stats_delta) :=
  '(r, σ', q') ← sq_Remove handle σ (mq_queue mq);
  match r with
  | inr err => Some (inr err, σ', set_queue q' mq, [])
  | inl removedItem =>
      '(mq', ds) ← propagateStatsDeltaLocked (-1) (i64 (- i64 (item_bytes removedItem))) (set_queue q' mq);
      Some (inl removedItem, σ', mq', ds)
  end.

Definition Cleanup (predicate : Item -> bool) (σ : Store) (mq : managedQueue)
  : option (list Item * Store * managedQueue * list stats_delta) :=
  '(cleanedItems, σ', q') ← sq_Cleanup predicate σ (mq_queue mq);
  match cleanedItems with
  | [] => Some ([], σ', set_queue q' mq, [])
  | _ => '(mq', ds) ← propagateStatsDeltaForRemovedItemsLocked cleanedItems (set_queue q' mq);
         Some (cleanedItems, σ', mq', ds)
  end.

Definition Drain (σ : Store) (mq : managedQueue)
  : option (list Item * Store * managedQueue * list stats_delta) :=
  '(drainedItems, σ', q') ← sq_Drain σ (mq_queue mq);
  match drainedItems with
  | [] => Some ([], σ', set_queue q' mq, [])
  | _ => '(mq', ds) ← propagateStatsDeltaForRemovedItemsLocked drainedItems (set_queue q' mq);
         Some (drainedItems, σ', mq', ds)
  end.

Definition Len (mq : managedQueue) : Z := mq_len mq.
Definition ByteSize (mq : managedQueue) : Z := u64 (mq_byteSize mq).

(** The read-only view for policies, flowQueueAccessor. *)
Definition PeekHead (mq : managedQueue) : option Item := sq_PeekHead (mq_queue mq).
Definition PeekTail (mq : managedQueue) : option Item := sq_PeekTail (mq_queue mq).
Definition Capabilities (mq : managedQueue) : list QueueCapability := sq_Capabilities (mq_queue mq).

Definition FlowQueueAccessor (mq : managedQueue) : FlowView :=
  mkFlowView (mq_key mq) (Len mq) (PeekHead mq) (mq_policy mq).

(** * The invariant *)

Context `{!SafeQueue Q}.

Definition mq_items (mq : managedQueue) : list Item := sq_contents (mq_queue mq).

(** The counters are those of the queue: the length exactly, the bytes modulo
    2^64 (exactly while they fit). *)
Definition mq_ok (σ : Store) (mq : managedQueue) : Prop :=
  sq_inv σ (mq_queue mq) /\
  mq_len mq = Z.of_nat (length (mq_items mq)) /\ mq_len mq < two63 /\
  mq_byteSize mq = i64 (sumZ item_bytes (mq_items mq)).

Definition delta_len (ds : list stats_delta) : Z := sumZ (fun d => d.1.2) ds.
Definition delta_bytes (ds : list stats_delta) : Z := sumZ (fun d => d.2) ds.

(** The deltas account for the change from [xs] to [ys], for priority [p]. *)
Definition deltas_ok (p : Z) (xs ys : list Item) (ds : list stats_delta) : Prop :=
  Forall (fun d => d.1.1 = p) ds /\
  delta_len ds = Z.of_nat (length ys) - Z.of_nat (length xs) /\
  i64 (delta_bytes ds) = i64 (sumZ item_bytes ys - sumZ item_bytes xs).

Lemma removed_deltas_spec items : forall l b,
  is_i64 (l - Z.of_nat (length items)) -> is_i64 l ->
  removed_deltas items l (i64 b) =
    (l - Z.of_nat (length items), i64 (b - sumZ item_bytes items)).
Proof.
  induction items as [|x items IH]; intros l b Hl Hl0; simpl.
  { f_equal; [lia|]. f_equal. lia. }
  simpl length in Hl. unfold is_i64, two63 in *.
  assert (Hb : i64 (i64 b - i64 (item_bytes x)) = i64 (b - item_bytes x)).
  { rewrite i64_sub_r, <- Z.add_opp_r, i64_add_l. done. }
  rewrite Hb, IH; rewrite i64_id by (unfold is_i64, two63; lia); unfold is_i64, two63; [|lia..].
  f_equal; [lia|]. f_equal. lia.
Qed.

Lemma propagate_spec lenDelta byteDelta mq xs ys :
  mq_len mq = Z.of_nat (length xs) -> mq_byteSize mq = i64 (sumZ item_bytes xs) ->
  lenDelta = Z.of_nat (length ys) - Z.of_nat (length xs) -> Z.of_nat (length ys) < two63 ->
  i64 byteDelta = i64 (sumZ item_bytes ys - sumZ item_bytes xs) ->
  exists mq', propagateStatsDeltaLocked lenDelta byteDelta mq =
      Some (mq', [(Priority (mq_key mq), lenDelta, byteDelta)]) /\
    mq_key mq' = mq_key mq /\ mq_queue mq' = mq_queue mq /\
    mq_len mq' = Z.of_nat (length ys) /\ mq_byteSize mq' = i64 (sumZ item_bytes ys).
Proof.
  intros Hl Hb Hd Hlt Hbd. unfold propagateStatsDeltaLocked.
  replace (mq_len mq + lenDelta) with (Z.of_nat (length ys)) by lia.
  rewrite i64_id by (unfold is_i64, two63 in *; lia).
  destruct (Z.ltb_spec (Z.of_nat (length ys)) 0); [lia|].
  eexists. split_and!; [done..|]. simpl. rewrite Hb, i64_add_l, <- i64_add_r, Hbd, i64_add_r.
  f_equal. lia.
Qed.

(** ** The operations *)

Lemma mq_add_spec σ mq it :
  mq_ok σ mq -> allocated it σ -> (forall x, x ∈ mq_items mq -> itemRef x <> itemRef it) ->
  mq_len mq + 1 < two63 ->
  exists σ' mq', Add it false σ mq =
      Some (None, σ', mq', [(Priority (mq_key mq), 1, i64 (item_bytes it))]) /\
    mq_ok σ' mq' /\ mq_key mq' = mq_key mq /\ mq_items mq' ≡ₚ it :: mq_items mq /\
    only_handle it σ σ' /\ touches (mq_items mq) σ σ'.
Proof.
  intros (Hinv & Hl & _ & Hb) Hal Hf Hlt. unfold Add.
  destruct (law_add σ (mq_queue mq) it Hinv Hal Hf) as (σ' & q' & -> & Hinv' & Hp & ? & ?). simpl.
  destruct (propagate_spec 1 (i64 (item_bytes it)) (set_queue q' mq) (mq_items mq) (it :: mq_items mq))
    as (mq' & -> & Hk & Hq & Hl' & Hb'); [done|done|simpl length; lia|simpl length; lia| |].
  { rewrite (i64_id (i64 _)) by apply i64_range. f_equal. simpl. lia. }
  simpl in *. exists σ', mq'. split_and!; try done.
  - unfold mq_ok, mq_items. rewrite Hq. split_and!; [done| | |].
    + by rewrite Hl', (Permutation_length Hp).
    + rewrite Hl'. simpl length. unfold mq_items in *. lia.
    + by rewrite Hb', (sumZ_perm _ _ _ Hp).
  - unfold mq_items. by rewrite Hq.
Qed.

(** The state after some items have left the queue. *)
Lemma mq_removed_spec σ σ' mq q' removed :
  mq_ok σ mq -> sq_inv σ' q' -> mq_items mq ≡ₚ removed ++ sq_contents q' ->
  exists mq' lenDelta byteDelta, propagateStatsDeltaLocked lenDelta byteDelta (set_queue q' mq) =
      Some (mq', [(Priority (mq_key mq), lenDelta, byteDelta)]) /\
    removed_deltas removed 0 0 = (lenDelta, byteDelta) /\
    mq_ok σ' mq' /\ mq_key mq' = mq_key mq /\ mq_queue mq' = q' /\
    lenDelta = - Z.of_nat (length removed) /\ i64 byteDelta = i64 (- sumZ item_bytes removed).
Proof.
  intros (Hinv & Hl & Hlt & Hb) Hinv' Hp.
  pose proof (Permutation_length Hp) as Hlen. rewrite length_app in Hlen.
  pose proof (sumZ_perm item_bytes _ _ Hp) as Hsum. rewrite sumZ_app in Hsum.
  assert (Hr : removed_deltas removed 0 0 =
                (- Z.of_nat (length removed), i64 (- sumZ item_bytes removed))).
  { pose proof (removed_deltas_spec removed 0 0) as H. rewrite (i64_id 0) in H by done.
    rewrite H by (unfold is_i64, two63 in *; lia). f_equal; lia. }
  destruct (propagate_spec (- Z.of_nat (length removed)) (i64 (- sumZ item_bytes removed))
              (set_queue q' mq) (mq_items mq) (sq_contents q')) as (mq' & Hrun & Hk & Hq & Hl' & Hb').
  { done. } { done. } { lia. } { lia. }
  { rewrite (i64_id (i64 _)) by apply i64_range. f_equal. lia. }
  exists mq', (- Z.of_nat (length removed)), (i64 (- sumZ item_bytes removed)).
  simpl in *. split_and!; try done.
  - unfold mq_ok, mq_items. rewrite Hq. split_and!; [done|done|lia|done].
  - apply i64_id, i64_range.
Qed.

Lemma mq_remove_spec σ mq x h :
  mq_ok σ mq -> x ∈ mq_items mq -> Handle x σ = Some h ->
  exists σ' mq' ds, Remove (Some h) σ mq = Some (inl x, σ', mq', ds) /\ mq_ok σ' mq' /\
    mq_key mq' = mq_key mq /\ mq_items mq ≡ₚ x :: mq_items mq' /\ istates σ' = istates σ /\
    touches (mq_items mq) σ σ' /\ IsInvalidated h σ' = Some true /\
    deltas_ok (Priority (mq_key mq)) (mq_items mq) (mq_items mq') ds.
Proof.
  intros Hok Hx Hh. pose proof Hok as (Hinv & _). unfold Remove.
  destruct (law_remove σ (mq_queue mq) x h Hinv Hx Hh) as (σ' & q' & -> & Hinv' & Hp & ? & ? & ?). simpl.
  destruct (mq_removed_spec σ σ' mq q' [x] Hok Hinv' Hp) as (mq' & dl & db & Hrun & Hr & ? & ? & Hq & Hdl & Hdb).
  simpl in Hr. injection Hr as _ <-. assert (dl = -1) as -> by (by rewrite Hdl).
  rewrite Z.sub_0_l in Hrun, Hdb. rewrite Hrun. simpl. eexists σ', mq', _. unfold mq_items. rewrite Hq.
  split_and!; try done. split_and!; simpl.
  - by repeat constructor.
  - unfold delta_len. simpl. pose proof (Permutation_length Hp). simpl in *. lia.
  - unfold delta_bytes. simpl. rewrite Z.add_0_r. pose proof (sumZ_perm item_bytes _ _ Hp) as Hs.
    simpl in Hs, Hdb. rewrite Hdb. f_equal. lia.
Qed.

Lemma removed_items_spec σ σ' mq q' removed :
  mq_ok σ mq -> sq_inv σ' q' -> mq_items mq ≡ₚ removed ++ sq_contents q' ->
  exists mq' ds,
    (match removed with
     | [] => Some ([], σ', set_queue q' mq, [])
     | _ => '(mq', ds) ← propagateStatsDeltaForRemovedItemsLocked removed (set_queue q' mq);
            Some (removed, σ', mq', ds)
     end) = Some (removed, σ', mq', ds) /\
    mq_ok σ' mq' /\ mq_key mq' = mq_key mq /\ mq_queue mq' = q' /\
    deltas_ok (Priority (mq_key mq)) (mq_items mq) (mq_items mq') ds.
Proof.
  intros Hok Hinv' Hp. destruct removed as [|x r].
  - eexists (set_queue q' mq), []. simpl in Hp. split_and!; try done.
    + destruct Hok as (_ & Hl & ? & Hb). unfold mq_ok, mq_items in *. simpl.
      by rewrite Hl, Hb, (Permutation_length Hp), (sumZ_perm _ _ _ Hp) in *.
    + split_and!; [done|..]; unfold mq_items, delta_len, delta_bytes in *; simpl.
      * rewrite (Permutation_length Hp). lia.
      * rewrite (sumZ_perm _ _ _ Hp). f_equal. lia.
  - destruct (mq_removed_spec σ σ' mq q' (x :: r) Hok Hinv' Hp)
      as (mq' & dl & db & Hrun & Hr & ? & ? & Hq & Hdl & Hdb).
    unfold propagateStatsDeltaForRemovedItemsLocked. rewrite Hr, Hrun. simpl.
    eexists mq', _. split_and!; try done. unfold mq_items at 2. rewrite Hq.
    pose proof (Permutation_length Hp) as Hlen. pose proof (sumZ_perm item_bytes _ _ Hp) as Hs.
    rewrite length_app in Hlen. rewrite sumZ_app in Hs.
    split_and!; unfold delta_len, delta_bytes; simpl.
    + by repeat constructor.
    + lia.
    + rewrite Z.add_0_r, Hdb. f_equal. lia.
Qed.

Lemma mq_cleanup_spec σ mq p :
  mq_ok σ mq ->
  exists σ' mq' ds, Cleanup p σ mq = Some (take_out p (mq_items mq), σ', mq', ds) /\ mq_ok σ' mq' /\
    mq_key mq' = mq_key mq /\ mq_items mq' ≡ₚ keep p (mq_items mq) /\ istates σ' = istates σ /\
    touches (mq_items mq) σ σ' /\ (forall x, x ∈ take_out p (mq_items mq) -> invalidated x σ σ') /\
    deltas_ok (Priority (mq_key mq)) (mq_items mq) (mq_items mq') ds.
Proof.
  intros Hok. pose proof Hok as (Hinv & _). unfold Cleanup.
  destruct (law_cleanup σ (mq_queue mq) p Hinv) as (r & σ' & q' & -> & Hinv' & -> & Hk & ? & ? & ?). simpl.
  destruct (removed_items_spec σ σ' mq q' (take_out p (sq_contents (mq_queue mq))) Hok Hinv')
    as (mq' & ds & Hrun & ? & ? & Hq & ?).
  { rewrite Hk. symmetry. apply keep_take_out. }
  exists σ', mq', ds. split_and!; try done. unfold mq_items at 1. by rewrite Hq.
Qed.

Lemma mq_drain_spec σ mq :
  mq_ok σ mq ->
  exists σ' mq' ds, Drain σ mq = Some (mq_items mq, σ', mq', ds) /\ mq_ok σ' mq' /\
    mq_key mq' = mq_key mq /\ mq_items mq' = [] /\ istates σ' = istates σ /\
    touches (mq_items mq) σ σ' /\ (forall x, x ∈ mq_items mq -> invalidated x σ σ') /\
    deltas_ok (Priority (mq_key mq)) (mq_items mq) (mq_items mq') ds.
Proof.
  intros Hok. pose proof Hok as (Hinv & _). unfold Drain.
  destruct (law_drain σ (mq_queue mq) Hinv) as (σ' & q' & -> & Hinv' & Hk & ? & ? & ?). simpl.
  destruct (removed_items_spec σ σ' mq q' (sq_contents (mq_queue mq)) Hok Hinv')
    as (mq' & ds & Hrun & ? & ? & Hq & ?).
  { by rewrite Hk, app_nil_r. }
  exists σ', mq', ds. split_and!; try done. unfold mq_items. by rewrite Hq.
Qed.
End managed.

Arguments managedQueue : clear implicits.

(** * Sequences of operations *)

Section trace.
Context {Q : Type} `{!SafeQueueOps Q, !SafeQueue Q}.

(** The calls a shard's processor makes: add a new item (the shard may be
    draining), remove the i-th queued item by its handle, sweep, drain. *)
Inductive mq_op :=
  | MAdd (req : FlowControlRequest) (ttl enq : Z) (isDraining : bool)
  | MRemove (i : nat)
  | MCleanup (p : Item -> bool)
  | MDrain.

Definition mq_step (op : mq_op) (σ : Store) (mq : managedQueue Q)
  : option (Store * managedQueue Q * list stats_delta) :=
  match op with
  | MAdd req ttl enq isDraining =>
      let '(it, σ1) := NewItem req ttl enq σ in
      '(_, σ', mq', ds) ← Add it isDraining σ1 mq; Some (σ', mq', ds)
  | MRemove i =>
      match mq_items mq !! i with
      | Some x => '(_, σ', mq', ds) ← Remove (Handle x σ) σ mq; Some (σ', mq', ds)
      | None => '(_, σ', mq', ds) ← Remove None σ mq; Some (σ', mq', ds)
      end
  | MCleanup p => '(_, σ', mq', ds) ← Cleanup p σ mq; Some (σ', mq', ds)
  | MDrain => '(_, σ', mq', ds) ← Drain σ mq; Some (σ', mq', ds)
  end.

Fixpoint mq_run (ops : list mq_op) (σ : Store) (mq : managedQueue Q)
  : option (Store * managedQueue Q * list stats_delta) :=
  match ops with
  | [] => Some (σ, mq, [])
  | op :: ops =>
      '(σ1, mq1, ds1) ← mq_step op σ mq;
      '(σ2, mq2, ds2) ← mq_run ops σ1 mq1;
      Some (σ2, mq2, ds1 ++ ds2)
  end.

Lemma deltas_ok_refl p xs : deltas_ok p xs xs [].
Proof. split_and!; [done|unfold delta_len; simpl; lia|]. unfold delta_bytes. simpl. f_equal. lia. Qed.

Lemma deltas_ok_app p xs ys zs ds1 ds2 :
  deltas_ok p xs ys ds1 -> deltas_ok p ys zs ds2 -> deltas_ok p xs zs (ds1 ++ ds2).
Proof.
  intros (? & Hl1 & Hb1) (? & Hl2 & Hb2). unfold deltas_ok, delta_len, delta_bytes in *.
  rewrite !sumZ_app. split_and!; [by apply Forall_app|lia|].
  rewrite <- i64_add_l, Hb1, i64_add_l, <- i64_add_r, Hb2, i64_add_r. f_equal. lia.
Qed.

(** A new item is not in any queue, and allocating it disturbs none. *)
Lemma mq_new_item σ mq req ttl enq it σ1 :
  mq_ok σ mq -> NewItem req ttl enq σ = (it, σ1) ->
  mq_ok σ1 mq /\ allocated it σ1 /\ (forall x, x ∈ mq_items mq -> itemRef x <> itemRef it).
Proof.
  intros (Hinv & Hrest) [= <- <-]. pose proof (is_fresh (dom (istates σ))) as Hf.
  apply not_elem_of_dom in Hf.
  assert (Hne : forall x, x ∈ mq_items mq -> itemRef x <> fresh (dom (istates σ))).
  { intros x Hx Heq. destruct (law_handle σ _ x Hinv Hx) as (h & c & Hh & _).
    unfold Handle in Hh. by rewrite Heq, Hf in Hh. }
  split_and!; [|unfold allocated; simpl; rewrite lookup_insert_eq; eauto|done].
  split; [|done]. eapply law_frame; [done|]. intros x Hx. split; [|done].
  unfold Handle. simpl. rewrite lookup_insert_ne; [done|]. by apply not_eq_sym, Hne.
Qed.

Lemma mq_step_spec op σ mq :
  mq_ok σ mq -> mq_len mq + 1 < two63 ->
  exists σ' mq' ds, mq_step op σ mq = Some (σ', mq', ds) /\ mq_ok σ' mq' /\
    mq_key mq' = mq_key mq /\ mq_len mq' <= mq_len mq + 1 /\
    deltas_ok (Priority (mq_key mq)) (mq_items mq) (mq_items mq') ds.
Proof.
  intros Hok Hlt. pose proof Hok as (Hinv & Hl & _).
  assert (Hlen : forall σ' mq', mq_ok σ' mq' -> (length (mq_items mq') <= length (mq_items mq) + 1)%nat ->
            mq_len mq' <= mq_len mq + 1).
  { intros σ' mq' (_ & -> & _) ?. lia. }
  destruct op as [req ttl enq d|i|p|]; cbn [mq_step].
  - destruct (NewItem req ttl enq σ) as [it σ1] eqn:Hn.
    destruct (mq_new_item _ _ _ _ _ _ _ Hok Hn) as (Hok1 & Hal & Hf). destruct d.
    + simpl. exists σ1, mq, []. split_and!; [done|done|done|lia|apply deltas_ok_refl].
    + destruct (mq_add_spec σ1 mq it Hok1 Hal Hf Hlt) as (σ' & mq' & -> & Hok' & Hk & Hp & _).
      eexists σ', mq', _. split_and!; [done|done|done| |].
      * eapply Hlen; [done|]. rewrite Hp. simpl. lia.
      * split_and!; unfold delta_len, delta_bytes; simpl; [by repeat constructor|rewrite Hp; simpl; lia|].
        rewrite Z.add_0_r, (sumZ_perm _ _ _ Hp), i64_id by apply i64_range. f_equal. simpl. lia.
  - destruct (mq_items mq !! i) as [x|] eqn:Hx.
    + apply list_elem_of_lookup_2 in Hx. destruct (law_handle σ _ x Hinv Hx) as (h & c & Hh & _).
      rewrite Hh. destruct (mq_remove_spec σ mq x h Hok Hx Hh) as (σ' & mq' & ds & -> & ? & ? & Hp & _ & _ & _ & ?).
      exists σ', mq', ds. split_and!; try done. eapply Hlen; [done|]. rewrite Hp. simpl. lia.
    + unfold Remove. rewrite law_remove_nil. simpl. exists σ, mq, [].
      split_and!; [by destruct mq|done|done|lia|apply deltas_ok_refl].
  - destruct (mq_cleanup_spec σ mq p Hok) as (σ' & mq' & ds & -> & ? & ? & Hp & _ & _ & _ & ?).
    exists σ', mq', ds. split_and!; try done. eapply Hlen; [done|]. rewrite Hp.
    pose proof (Permutation_length (keep_take_out p (mq_items mq))) as Hk.
    rewrite length_app in Hk. lia.
  - destruct (mq_drain_spec σ mq Hok) as (σ' & mq' & ds & -> & ? & ? & Hp & _ & _ & _ & ?).
    exists σ', mq', ds. split_and!; try done. eapply Hlen; [done|]. rewrite Hp. simpl. lia.
Qed.

Lemma mq_run_spec ops : forall σ mq,
  mq_ok σ mq -> mq_len mq + Z.of_nat (length ops) < two63 ->
  exists σ' mq' ds, mq_run ops σ mq = Some (σ', mq', ds) /\ mq_ok σ' mq' /\ mq_key mq' = mq_key mq /\
    deltas_ok (Priority (mq_key mq)) (mq_items mq) (mq_items mq') ds.
Proof.
  induction ops as [|op ops IH]; intros σ mq Hok Hlt; cbn [mq_run].
  { exists σ, mq, []. split_and!; [done|done|done|apply deltas_ok_refl]. }
  simpl length in Hlt.
  destruct (mq_step_spec op σ mq Hok) as (σ1 & mq1 & ds1 & -> & Hok1 & Hk1 & Hl1 & Hd1); [lia|]. simpl.
  destruct (IH σ1 mq1 Hok1) as (σ2 & mq2 & ds2 & -> & Hok2 & Hk2 & Hd2); [lia|]. simpl.
  eexists σ2, mq2, _. split_and!; [done|done|congruence|].
  rewrite Hk1 in Hd2. by eapply deltas_ok_app.
Qed.

(** Whatever sequence of adds, removals, sweeps and drains a managed queue
    goes through, on any queue implementation that meets the contract, no call
    panics, the published length and byte size are those of the items in the
    queue, and the deltas propagated to the shard add up to exactly these. *)
Theorem managed_queue_stats_exact (q : Q) policy key ops σ :
  sq_inv σ q -> sq_contents q = [] -> Z.of_nat (length ops) < two63 ->
  exists σ' mq' ds, mq_run ops σ (newManagedQueue q policy key) = Some (σ', mq', ds) /\
    sq_inv σ' (mq_queue mq') /\
    Len mq' = sq_Len (mq_queue mq') /\ ByteSize mq' = u64 (sumZ item_bytes (mq_items mq')) /\
    delta_len ds = Len mq' /\ u64 (delta_bytes ds) = ByteSize mq' /\
    Forall (fun d => d.1.1 = Priority key) ds.
Proof.
  intros Hinv Hc Hlt.
  destruct (mq_run_spec ops σ (newManagedQueue q policy key)) as (σ' & mq' & ds & Hrun & Hok & _ & Hf & Hl & Hb).
  { unfold mq_ok, mq_items. simpl. rewrite Hc. done. } { simpl. lia. }
  exists σ', mq', ds. destruct Hok as (Hinv' & Hl' & _ & Hb').
  unfold mq_items in Hl, Hb, Hl', Hb' at 1. simpl in Hl, Hb. rewrite Hc in Hl, Hb. simpl in Hl, Hb.
  split_and!; [done|done| | | | |done].
  - unfold Len. by rewrite law_len.
  - unfold ByteSize. by rewrite Hb', u64_i64.
  - unfold Len. rewrite Hl, Hl'. lia.
  - unfold ByteSize. rewrite Hb', u64_i64. apply i64_eq_u64. rewrite Hb. f_equal. unfold mq_items. lia.
Qed.
End trace.

Definition sample_ops : list mq_op :=
  [MAdd (mkRequest "a" (mkFlowKey "f" 7) 100 None 0 0) 0 1 false;
   MAdd (mkRequest "b" (mkFlowKey "f" 7) 50 None 0 0) 0 2 false;
   MRemove 0; MAdd (mkRequest "c" (mkFlowKey "f" 7) 9 None 0 0) 0 3 true].

Lemma managed_queue_stats_exact_witness :
  exists σ' mq' ds,
    mq_run sample_ops (mkStore ∅ ∅) (newManagedQueue (ListQueue.newListQueue 1) (FCFSOrderingPolicyFactory "p") (mkFlowKey "f" 7)) =
      Some (σ', mq', ds) /\
    delta_len ds = Len mq' /\ Len mq' = 1 /\ ByteSize mq' = 50.
Proof.
  destruct (managed_queue_stats_exact (ListQueue.newListQueue 1) (FCFSOrderingPolicyFactory "p") (mkFlowKey "f" 7) sample_ops (mkStore ∅ ∅))
    as (σ' & mq' & ds & Hrun & _ & _ & _ & Hd & _ & _).
  - split_and!; [constructor|intros h x Hx; by apply elem_of_nil in Hx|reflexivity].
  - reflexivity.
  - reflexivity.
  - exists σ', mq', ds. split; [exact Hrun|]. split; [exact Hd|].
    vm_compute in Hrun. injection Hrun as _ <- _. vm_compute. split; reflexivity.
Defined.
