(* ===== verification/RegistryConfig.v ===== *)
(** The configuration of the flow registry: options, defaults, validation and
    the partitioning of capacity over shards
    (pkg/epp/flowcontrol/registry/config.go).

    Configurations are values: a functional option maps a builder to a new
    builder or to an error.  The plugin handle is a parameter, a function from
    names to plugins.  [Clone] copies a value and is the identity here.  A Go
    map is visited in an unspecified order; [range] is that order. *)

From S2P Require Import Prelude FlowTypes SafeQueue Ordering Fairness QueueFactory.

(** * Capability checking *)

Definition defaultPriorityBandMaxBytes : Z := 1000000000.
Definition defaultQueue : string := ListQueueName.
Definition defaultInitialShardCount : Z := 1.
Definition Minute : Z := 60 * 1000000000.
Definition defaultFlowGCTimeout : Z := 5 * Minute.
Definition defaultPriorityBandGCTimeout : Z := 2 * defaultFlowGCTimeout.
Definition DefaultOrderingPolicyRef : string := FCFSOrderingPolicyType.
Definition DefaultFairnessPolicyRef : string := GlobalStrictFairnessPolicyType.

Abbreviation capabilityChecker := (OrderingPolicy -> string -> option error) (only parsing).

(** The loop over the required capabilities. *)
Fixpoint missing_capability (required queueCapabilities : list QueueCapability)
  : option QueueCapability :=
  match required with
  | [] => None
  | req :: required =>
      if bool_decide (req ∈ queueCapabilities) then missing_capability required queueCapabilities
      else Some req
  end.

Definition CheckCompatibility (p : OrderingPolicy) (q : string) : option error :=
  let requiredCapabilities := op_RequiredQueueCapabilities p in
  match NewQueueFromName 1 q (fun _ _ => false) with
  | inr err => Some (Wrap "failed to instantiate queue type %q: %w" [err])
  | inl tempQueue =>
      if bool_decide (length requiredCapabilities = 0%nat) then None
      else
        match missing_capability requiredCapabilities (sq_Capabilities tempQueue) with
        | Some _ => Some (Wrap "policy %q is not compatible with queue %q: missing capability %q: %w"
                            [Sentinel ErrPolicyQueueIncompatible])
        | None => None
        end
  end.

(** * Configuration records *)

Record PriorityBandConfig := mkPriorityBandConfig {
  pb_Priority : Z;
  pb_OrderingPolicy : option OrderingPolicy;
  pb_FairnessPolicy : option FairnessPolicy;
  pb_Queue : string;
  pb_MaxBytes : Z;
  pb_MaxRequests : Z
}.

Record Config := mkConfig {
  MaxBytes : Z;
  MaxRequests : Z;
  PriorityBands : gmap Z PriorityBandConfig;
  DefaultPriorityBand : option PriorityBandConfig;
  InitialShardCount : Z;
  FlowGCTimeout : Z;
  PriorityBandGCTimeout : Z
}.

Record configBuilder := mkBuilder { b_config : Config; b_checker : option capabilityChecker }.

Abbreviation ConfigOption := (configBuilder -> configBuilder + error) (only parsing).
Abbreviation PriorityBandConfigOption := (PriorityBandConfig -> PriorityBandConfig + error) (only parsing).

(** A plugin instance, by the interfaces it implements. *)
Record Plugin := mkPlugin {
  as_OrderingPolicy : option OrderingPolicy;
  as_FairnessPolicy : option FairnessPolicy
}.
Abbreviation PluginHandle := (string -> option Plugin) (only parsing).

Definition set_bands (m : gmap Z PriorityBandConfig) (c : Config) : Config :=
  mkConfig (MaxBytes c) (MaxRequests c) m (DefaultPriorityBand c) (InitialShardCount c)
    (FlowGCTimeout c) (PriorityBandGCTimeout c).
Definition set_default_band (d : option PriorityBandConfig) (c : Config) : Config :=
  mkConfig (MaxBytes c) (MaxRequests c) (PriorityBands c) d (InitialShardCount c)
    (FlowGCTimeout c) (PriorityBandGCTimeout c).
Definition on_config (f : Config -> Config) (b : configBuilder) : configBuilder :=
  mkBuilder (f (b_config b)) (b_checker b).

(** * Functional options *)

Definition WithMaxBytes (maxBytes : Z) : ConfigOption := fun b =>
  inl (on_config (fun c => mkConfig maxBytes (MaxRequests c) (PriorityBands c) (DefaultPriorityBand c)
    (InitialShardCount c) (FlowGCTimeout c) (PriorityBandGCTimeout c)) b).

Definition WithMaxRequests (maxRequests : Z) : ConfigOption := fun b =>
  inl (on_config (fun c => mkConfig (MaxBytes c) maxRequests (PriorityBands c) (DefaultPriorityBand c)
    (InitialShardCount c) (FlowGCTimeout c) (PriorityBandGCTimeout c)) b).

Definition WithInitialShardCount (count : Z) : ConfigOption := fun b =>
  if count <=? 0 then inr (Message "initialShardCount must be greater than 0")
  else inl (on_config (fun c => mkConfig (MaxBytes c) (MaxRequests c) (PriorityBands c)
    (DefaultPriorityBand c) count (FlowGCTimeout c) (PriorityBandGCTimeout c)) b).

Definition WithFlowGCTimeout (d : Z) : ConfigOption := fun b =>
  if d <=? 0 then inr (Message "flowGCTimeout must be positive")
  else inl (on_config (fun c => mkConfig (MaxBytes c) (MaxRequests c) (PriorityBands c)
    (DefaultPriorityBand c) (InitialShardCount c) d (PriorityBandGCTimeout c)) b).

Definition WithPriorityBandGCTimeout (d : Z) : ConfigOption := fun b =>
  if d <=? 0 then inr (Message "priorityBandGCTimeout must be positive")
  else if (0 <? FlowGCTimeout (b_config b)) && (d <? FlowGCTimeout (b_config b))
  then inr (Message "priorityBandGCTimeout must be >= flowGCTimeout")
  else inl (on_config (fun c => mkConfig (MaxBytes c) (MaxRequests c) (PriorityBands c)
    (DefaultPriorityBand c) (InitialShardCount c) (FlowGCTimeout c) d) b).

Definition WithPriorityBand (band : option PriorityBandConfig) : ConfigOption := fun b =>
  match band with
  | None => inr (Message "cannot add nil PriorityBandConfig")
  | Some band =>
      match PriorityBands (b_config b) !! pb_Priority band with
      | Some _ => inr (Message "duplicate priority level %d")
      | None => inl (on_config (fun c => set_bands (<[pb_Priority band := band]> (PriorityBands c)) c) b)
      end
  end.

Definition WithDefaultPriorityBand (band : option PriorityBandConfig) : ConfigOption := fun b =>
  inl (on_config (set_default_band band) b).

Definition withCapabilityChecker (checker : option capabilityChecker) : ConfigOption := fun b =>
  match checker with
  | None => inr (Message "cannot set nil CapabilityChecker")
  | Some _ => inl (mkBuilder (b_config b) checker)
  end.

Section handle.
Variable handle : PluginHandle.

Definition orderingPolicy (ref : string) : OrderingPolicy + error :=
  match handle ref with
  | None => inr (Message "no ordering policy registered for name %q")
  | Some v => match as_OrderingPolicy v with
              | None => inr (Message "plugin %q is not a flowcontrol.OrderingPolicy (type: %T)")
              | Some policy => inl policy
              end
  end.

Definition fairnessPolicy (ref : string) : FairnessPolicy + error :=
  match handle ref with
  | None => inr (Message "no fairness policy registered for name %q")
  | Some v => match as_FairnessPolicy v with
              | None => inr (Message "plugin %q is not a flowcontrol.FairnessPolicy (type: %T)")
              | Some policy => inl policy
              end
  end.

Definition set_ordering (o : OrderingPolicy) (p : PriorityBandConfig) : PriorityBandConfig :=
  mkPriorityBandConfig (pb_Priority p) (Some o) (pb_FairnessPolicy p) (pb_Queue p)
    (pb_MaxBytes p) (pb_MaxRequests p).
Definition set_fairness (f : FairnessPolicy) (p : PriorityBandConfig) : PriorityBandConfig :=
  mkPriorityBandConfig (pb_Priority p) (pb_OrderingPolicy p) (Some f) (pb_Queue p)
    (pb_MaxBytes p) (pb_MaxRequests p).
Definition set_queue_name (q : string) (p : PriorityBandConfig) : PriorityBandConfig :=
  mkPriorityBandConfig (pb_Priority p) (pb_OrderingPolicy p) (pb_FairnessPolicy p) q
    (pb_MaxBytes p) (pb_MaxRequests p).
Definition set_max_bytes (n : Z) (p : PriorityBandConfig) : PriorityBandConfig :=
  mkPriorityBandConfig (pb_Priority p) (pb_OrderingPolicy p) (pb_FairnessPolicy p) (pb_Queue p)
    n (pb_MaxRequests p).
Definition set_max_requests (n : Z) (p : PriorityBandConfig) : PriorityBandConfig :=
  mkPriorityBandConfig (pb_Priority p) (pb_OrderingPolicy p) (pb_FairnessPolicy p) (pb_Queue p)
    (pb_MaxBytes p) n.

Definition WithOrderingPolicy (ref : string) : PriorityBandConfigOption := fun p =>
  policy <-? orderingPolicy ref; inl (set_ordering policy p).
Definition WithFairnessPolicy (ref : string) : PriorityBandConfigOption := fun p =>
  policy <-? fairnessPolicy ref; inl (set_fairness policy p).
Definition WithQueue (name : string) : PriorityBandConfigOption := fun p =>
  if bool_decide (name = EmptyString) then inr (Message "Queue cannot be empty")
  else inl (set_queue_name name p).
Definition WithBandMaxBytes (maxBytes : Z) : PriorityBandConfigOption := fun p =>
  inl (set_max_bytes maxBytes p).
Definition WithBandMaxRequests (maxRequests : Z) : PriorityBandConfigOption := fun p =>
  inl (set_max_requests maxRequests p).

(** * Defaults and validation *)

Definition applyDefaults (p : PriorityBandConfig) : PriorityBandConfig + error :=
  '(o, p1) <-? match pb_OrderingPolicy p with
               | Some o => inl (o, p)
               | None => policy <-? orderingPolicy DefaultOrderingPolicyRef;
                         inl (policy, set_ordering policy p)
               end;
  let p2 :=
    if bool_decide (pb_Queue p1 = EmptyString) then
      if bool_decide (CapabilityPriorityConfigurable ∈ op_RequiredQueueCapabilities o)
      then set_queue_name MaxMinHeapName p1
      else set_queue_name defaultQueue p1
    else p1 in
  let p3 := if pb_MaxBytes p2 =? 0 then set_max_bytes defaultPriorityBandMaxBytes p2 else p2 in
  match pb_FairnessPolicy p3 with
  | Some _ => inl p3
  | None => policy <-? fairnessPolicy DefaultFairnessPolicyRef; inl (set_fairness policy p3)
  end.

Definition band_validate (checker : option capabilityChecker) (p : PriorityBandConfig)
  : unit + error :=
  match pb_OrderingPolicy p, pb_FairnessPolicy p with
  | None, _ => inr (Message "OrderingPolicy instance is missing for priority band %d")
  | _, None => inr (Message "FairnessPolicy instance is missing for priority band %d")
  | Some o, Some _ =>
      if bool_decide (pb_Queue p = EmptyString) then inr (Message "Queue required for priority band %d")
      else match checker with
           | None => inl tt
           | Some c => match c o (pb_Queue p) with
                       | Some err => inr (Wrap "priority band %d configuration error: %w" [err])
                       | None => inl tt
                       end
           end
  end.

Variable range : gmap Z PriorityBandConfig -> list (Z * PriorityBandConfig).

Definition set_priority (n : Z) (p : PriorityBandConfig) : PriorityBandConfig :=
  mkPriorityBandConfig n (pb_OrderingPolicy p) (pb_FairnessPolicy p) (pb_Queue p)
    (pb_MaxBytes p) (pb_MaxRequests p).

(** A nil DefaultPriorityBand would be dereferenced; [NewConfig] sets it before. *)
Definition validate (checker : option capabilityChecker) (c : Config) : unit + error :=
  if InitialShardCount c <=? 0 then inr (Message "initialShardCount must be greater than 0")
  else if FlowGCTimeout c <=? 0 then inr (Message "flowGCTimeout must be positive")
  else if PriorityBandGCTimeout c <=? 0 then inr (Message "priorityBandGCTimeout must be positive")
  else if PriorityBandGCTimeout c <? FlowGCTimeout c
  then inr (Message "priorityBandGCTimeout must be >= flowGCTimeout")
  else
    match DefaultPriorityBand c with
    | None => inr (Message "nil pointer dereference")
    | Some template =>
        match band_validate checker (set_priority 0 template) with
        | inr err => inr (Wrap "invalid DefaultPriorityBand configuration: %w" [err])
        | inl _ => efold (fun _ e => band_validate checker e.2) (range (PriorityBands c)) tt
        end
    end.

(** * Constructors *)

Definition NewPriorityBandConfig (priority : Z) (opts : list PriorityBandConfigOption)
  : PriorityBandConfig + error :=
  pb <-? efold (fun pb opt => opt pb) opts (mkPriorityBandConfig priority None None EmptyString 0 0);
  applyDefaults pb.

(** [err] wrapped into a message. *)
Definition wrap_err {A} (msg : string) (r : A + error) : A + error :=
  match r with inl a => inl a | inr err => inr (Wrap msg [err]) end.

Definition NewConfig (opts : list ConfigOption) : Config + error :=
  b <-? efold (fun b opt => opt b) opts
          (mkBuilder (mkConfig 0 0 ∅ None defaultInitialShardCount defaultFlowGCTimeout
                        defaultPriorityBandGCTimeout) (Some CheckCompatibility));
  template <-? match DefaultPriorityBand (b_config b) with
               | None => wrap_err "failed to create default priority band: %w"
                           (NewPriorityBandConfig 0 [])
               | Some d => wrap_err "failed to apply defaults to DefaultPriorityBand: %w" (applyDefaults d)
               end;
  let c1 := set_default_band (Some template) (b_config b) in
  bands <-? efold (fun bands e =>
              band <-? wrap_err "failed to apply defaults to priority band %d: %w" (applyDefaults e.2);
              inl (<[e.1 := band]> bands))
            (range (PriorityBands c1)) (PriorityBands c1);
  let c2 := set_bands bands c1 in
  _ <-? wrap_err "invalid registry config: %w" (validate (b_checker b) c2);
  inl c2.

(** The API configuration; a Quantity is given by its [Value()]. *)
Record ApiBand := mkApiBand {
  api_Priority : Z;
  api_BandMaxBytes : option Z;
  api_BandMaxRequests : option Z;
  api_OrderingPolicyRef : string;
  api_FairnessPolicyRef : string
}.

Record FlowControlConfig := mkApiConfig {
  api_MaxBytes : option Z;
  api_MaxRequests : option Z;
  api_DefaultPriorityBand : option ApiBand;
  api_PriorityBands : list ApiBand
}.

Definition resolveQuantity (q : option Z) (fieldName : string) : Z + error :=
  match q with
  | None => inl 0
  | Some v => if v <? 0 then inr (Message "%s must be non-negative, got %d") else inl (u64 v)
  end.

Definition when {A} (b : bool) (x : A) : list A := if b then [x] else [].

(** The options of one band; both builders collect the same ones. *)
Definition band_options (band : ApiBand) (label : string)
  : list PriorityBandConfigOption + error :=
  maxBytes <-? resolveQuantity (api_BandMaxBytes band) label;
  maxRequests <-? resolveQuantity (api_BandMaxRequests band) label;
  inl (when (0 <? maxBytes) (WithBandMaxBytes maxBytes) ++
       when (0 <? maxRequests) (WithBandMaxRequests maxRequests) ++
       when (negb (bool_decide (api_OrderingPolicyRef band = EmptyString)))
         (WithOrderingPolicy (api_OrderingPolicyRef band)) ++
       when (negb (bool_decide (api_FairnessPolicyRef band = EmptyString)))
         (WithFairnessPolicy (api_FairnessPolicyRef band))).

Definition buildDefaultPriorityBandTemplate (apiBand : ApiBand) : PriorityBandConfig + error :=
  bandOpts <-? band_options apiBand "DefaultPriorityBand";
  wrap_err "failed to create default priority band template: %w" (NewPriorityBandConfig 0 bandOpts).

Definition buildPriorityBand (band : ApiBand) : PriorityBandConfig + error :=
  bandOpts <-? band_options band "priority band %d";
  wrap_err "failed to create priority band config for priority %d: %w"
    (NewPriorityBandConfig (api_Priority band) bandOpts).

Definition NewConfigFromAPI (apiConfig : option FlowControlConfig) : Config + error :=
  match apiConfig with
  | None => NewConfig []
  | Some api =>
      maxBytes <-? resolveQuantity (api_MaxBytes api) "global MaxBytes";
      maxRequests <-? resolveQuantity (api_MaxRequests api) "global MaxRequests";
      template <-? match api_DefaultPriorityBand api with
                   | None => inl []
                   | Some d => templateBand <-? buildDefaultPriorityBandTemplate d;
                               inl [WithDefaultPriorityBand (Some templateBand)]
                   end;
      bands <-? efold (fun opts band => pb <-? buildPriorityBand band;
                                        inl (opts ++ [WithPriorityBand (Some pb)]))
                  (api_PriorityBands api) [];
      NewConfig (when (0 <? maxBytes) (WithMaxBytes maxBytes) ++
                 when (0 <? maxRequests) (WithMaxRequests maxRequests) ++ template ++ bands)
  end.
End handle.

(** * Partitioning *)

Record ShardConfig := mkShardConfig {
  sc_MaxBytes : Z;
  sc_MaxRequests : Z;
  sc_PriorityBands : gmap Z PriorityBandConfig
}.

Definition partitionUint64 (total partitionIndex totalPartitions : Z) : Z :=
  if total =? 0 then 0
  else
    let t := u64 totalPartitions in
    let base := total / t in
    let remainder := total mod t in
    if u64 partitionIndex <? remainder then base + 1 else base.

(** One band of a shard. *)
Definition partition_band (shardIndex totalShards : Z) (template : PriorityBandConfig)
  : PriorityBandConfig :=
  mkPriorityBandConfig (pb_Priority template) (pb_OrderingPolicy template) (pb_FairnessPolicy template)
    (pb_Queue template) (partitionUint64 (pb_MaxBytes template) shardIndex totalShards)
    (partitionUint64 (pb_MaxRequests template) shardIndex totalShards).

(** The bands are keyed by their own priority field. *)
Definition partition (range : gmap Z PriorityBandConfig -> list (Z * PriorityBandConfig))
    (shardIndex totalShards : Z) (c : Config) : ShardConfig :=
  mkShardConfig (partitionUint64 (MaxBytes c) shardIndex totalShards)
    (partitionUint64 (MaxRequests c) shardIndex totalShards)
    (fold_left (fun m e => let shardBand := partition_band shardIndex totalShards e.2 in
                           <[pb_Priority shardBand := shardBand]> m)
       (range (PriorityBands c)) ∅).

(** * Lemmas on partitioning *)

Lemma partition_value total i n :
  is_u64 total -> 0 < n < two63 -> 0 <= i < n ->
  partitionUint64 total i n = total / n + (if i <? total mod n then 1 else 0).
Proof.
  intros Ht Hn Hi. unfold partitionUint64, is_u64, two63, two64 in *.
  rewrite !(u64_id n), !(u64_id i) by (unfold is_u64, two64; lia).
  destruct (Z.eqb_spec total 0) as [->|].
  - rewrite Zdiv_0_l, Zmod_0_l. destruct (Z.ltb_spec i 0); lia.
  - destruct (i <? total mod n); lia.
Qed.

Lemma partition_sum_upto total n k :
  is_u64 total -> 0 < n < two63 -> Z.of_nat k <= n ->
  sumZ (fun i => partitionUint64 total (Z.of_nat i) n) (seq 0 k) =
    Z.of_nat k * (total / n) + Z.min (Z.of_nat k) (total mod n).
Proof.
  intros Ht Hn. induction k as [|k IH]; intros Hk.
  - pose proof (Z.mod_pos_bound total n). simpl. lia.
  - rewrite seq_S, sumZ_app, IH by lia. simpl sumZ. rewrite partition_value by (done || lia).
    simpl. destruct (Z.ltb_spec (Z.of_nat k) (total mod n)); lia.
Qed.

(** * Lemmas on validation *)

(** What [band_validate] and [applyDefaults] promise about a band. *)
Definition band_ok (p : PriorityBandConfig) : Prop :=
  pb_MaxBytes p <> 0 /\ pb_Queue p <> EmptyString /\
  exists o f, pb_OrderingPolicy p = Some o /\ pb_FairnessPolicy p = Some f /\
    CheckCompatibility o (pb_Queue p) = None.

Definition config_ok (c : Config) : Prop :=
  0 < InitialShardCount c /\ 0 < FlowGCTimeout c <= PriorityBandGCTimeout c /\
  (exists d, DefaultPriorityBand c = Some d /\ band_ok d) /\
  (forall k p, PriorityBands c !! k = Some p -> pb_Priority p = k /\ band_ok p).

(** The options of the package, other than the test-only one, as data. *)
Inductive config_option :=
  | OMaxBytes (n : Z) | OMaxRequests (n : Z) | OInitialShardCount (n : Z)
  | OFlowGCTimeout (d : Z) | OPriorityBandGCTimeout (d : Z)
  | OPriorityBand (b : option PriorityBandConfig) | ODefaultPriorityBand (b : option PriorityBandConfig).

Definition denote (o : config_option) : ConfigOption :=
  match o with
  | OMaxBytes n => WithMaxBytes n
  | OMaxRequests n => WithMaxRequests n
  | OInitialShardCount n => WithInitialShardCount n
  | OFlowGCTimeout d => WithFlowGCTimeout d
  | OPriorityBandGCTimeout d => WithPriorityBandGCTimeout d
  | OPriorityBand b => WithPriorityBand b
  | ODefaultPriorityBand b => WithDefaultPriorityBand b
  end.

Definition keyed (m : gmap Z PriorityBandConfig) : Prop :=
  forall k p, m !! k = Some p -> pb_Priority p = k.

Lemma denote_keeps o b b' :
  denote o b = inl b' -> keyed (PriorityBands (b_config b)) ->
  b_checker b' = b_checker b /\ keyed (PriorityBands (b_config b')).
Proof.
  intros H Hk. destruct o as [| | | | |[band|]|]; simpl in H;
    unfold WithMaxBytes, WithMaxRequests, WithInitialShardCount, WithFlowGCTimeout,
      WithPriorityBandGCTimeout, WithPriorityBand, WithDefaultPriorityBand in H;
    repeat case_match; simplify_eq/=; try done.
  split; [done|]. intros k p [[<- <-]|[_ ?]]%lookup_insert_Some; auto.
Qed.

Section validation.
Context (handle : PluginHandle) (range : gmap Z PriorityBandConfig -> list (Z * PriorityBandConfig)).
Hypothesis range_perm : forall m, range m ≡ₚ map_to_list m.

Lemma applyDefaults_spec p p' :
  applyDefaults handle p = inl p' ->
  pb_Priority p' = pb_Priority p /\ pb_MaxRequests p' = pb_MaxRequests p /\
  pb_MaxBytes p' = (if pb_MaxBytes p =? 0 then defaultPriorityBandMaxBytes else pb_MaxBytes p) /\
  pb_Queue p' <> EmptyString /\ (pb_Queue p <> EmptyString -> pb_Queue p' = pb_Queue p) /\
  exists o f, pb_OrderingPolicy p' = Some o /\ pb_FairnessPolicy p' = Some f /\
    (forall o0, pb_OrderingPolicy p = Some o0 -> o = o0) /\
    (forall f0, pb_FairnessPolicy p = Some f0 -> f = f0) /\
    (pb_Queue p = EmptyString ->
       pb_Queue p' = if bool_decide (CapabilityPriorityConfigurable ∈ op_RequiredQueueCapabilities o)
                     then MaxMinHeapName else defaultQueue).
Proof.
  unfold applyDefaults. rewrite ebind_inl. intros ([o p1] & H1 & H2).
  assert (Hp1 : pb_Priority p1 = pb_Priority p /\ pb_MaxRequests p1 = pb_MaxRequests p /\
    pb_MaxBytes p1 = pb_MaxBytes p /\ pb_Queue p1 = pb_Queue p /\
    pb_FairnessPolicy p1 = pb_FairnessPolicy p /\ pb_OrderingPolicy p1 = Some o /\
    (forall o0, pb_OrderingPolicy p = Some o0 -> o = o0)).
  { destruct (pb_OrderingPolicy p) as [o0|] eqn:Ho; [naive_solver|].
    apply ebind_inl in H1 as (o1 & _ & [= <- <-]). done. }
  destruct Hp1 as (E1 & E2 & E3 & E4 & E5 & E6 & E7). rewrite <- E1, <- E2, <- E3, <- E4, <- E5.
  clear H1 E1 E2 E3 E4 E5.
  case_bool_decide as Hq; [case_bool_decide as Hc|]; simpl in H2;
    destruct (Z.eqb_spec (pb_MaxBytes p1) 0); simpl in H2;
    (destruct (pb_FairnessPolicy p1) as [f|] eqn:Hf;
     [injection H2 as <-|apply ebind_inl in H2 as (f & _ & [= <-])]); simpl;
    (split_and!; [done|done|done|done|done|]); exists o, f;
    (split_and!; [done|done|done|intros ? ?; congruence|]); intros ?; try done;
    by case_bool_decide.
Qed.

Lemma band_validate_spec p u :
  band_validate (Some CheckCompatibility) p = inl u ->
  pb_Queue p <> EmptyString /\ exists o f, pb_OrderingPolicy p = Some o /\
    pb_FairnessPolicy p = Some f /\ CheckCompatibility o (pb_Queue p) = None.
Proof.
  unfold band_validate. destruct (pb_OrderingPolicy p) as [o|]; [|done].
  destruct (pb_FairnessPolicy p) as [f|]; [|done]. case_bool_decide; [done|].
  destruct (CheckCompatibility o (pb_Queue p)) eqn:E; [done|]. intros _. eauto 10.
Qed.

Lemma validate_bands c u :
  validate range (Some CheckCompatibility) c = inl u ->
  0 < InitialShardCount c /\ 0 < FlowGCTimeout c <= PriorityBandGCTimeout c /\
  (exists d, DefaultPriorityBand c = Some d /\ exists u, band_validate (Some CheckCompatibility) (set_priority 0 d) = inl u) /\
  (forall k p, PriorityBands c !! k = Some p -> exists u, band_validate (Some CheckCompatibility) p = inl u).
Proof.
  unfold validate. destruct (Z.leb_spec (InitialShardCount c) 0); [done|].
  destruct (Z.leb_spec (FlowGCTimeout c) 0); [done|].
  destruct (Z.leb_spec (PriorityBandGCTimeout c) 0); [done|].
  destruct (Z.ltb_spec (PriorityBandGCTimeout c) (FlowGCTimeout c)); [done|].
  destruct (DefaultPriorityBand c) as [d|]; [|done].
  destruct (band_validate _ (set_priority 0 d)) as [u0|] eqn:Hd; [|done]. intros Hrun.
  split_and!; [lia|lia|lia|eauto|]. intros k p Hk.
  assert (Hin : (k, p) ∈ range (PriorityBands c)) by (by rewrite range_perm, elem_of_map_to_list).
  revert Hrun. generalize tt at 1. induction (range (PriorityBands c)) as [|e l IH]; intros t; simpl.
  { by apply elem_of_nil in Hin. }
  rewrite ebind_inl. intros (t' & Ht' & Hrun). apply elem_of_cons in Hin as [<-|Hin]; [eauto|].
  by eapply IH.
Qed.

Lemma defaults_loop l : forall bands bands' : gmap Z PriorityBandConfig,
  (forall e, e ∈ l -> pb_Priority e.2 = e.1) ->
  efold (fun bands e =>
    ebind (wrap_err "failed to apply defaults to priority band %d: %w" (applyDefaults handle e.2))
      (fun band => inl (<[e.1 := band]> bands))) l bands = inl bands' ->
  forall k p, bands' !! k = Some p ->
    (exists p0, (k, p0) ∈ l /\ applyDefaults handle p0 = inl p) \/ ((k ∉ l.*1) /\ bands !! k = Some p).
Proof.
  induction l as [|e l IH]; intros bands bands' Hl; simpl; [|rewrite ebind_inl].
  { intros [= <-] k p Hp. right. split; [by apply not_elem_of_nil|done]. }
  intros (bands1 & H1 & Hrun) k p Hp. apply ebind_inl in H1 as (band & Hb & [= <-]).
  destruct (IH _ _ ltac:(intros; apply Hl; by right) Hrun k p Hp) as [(p0 & Hin & Ha)|[Hnin Hk]].
  - left. exists p0. split; [by right|done].
  - destruct (applyDefaults handle e.2) as [b|] eqn:Ha; [|done]. injection Hb as ->.
    apply lookup_insert_Some in Hk as [[<- <-]|[Hne Hk]].
    + left. exists e.2. split; [destruct e; left|done].
    + right. split; [|done]. simpl. rewrite not_elem_of_cons. split; [congruence|done].
Qed.

(** Whatever [NewConfig] returns is well formed. *)
Lemma NewConfig_ok opts c :
  NewConfig handle range (denote <$> opts) = inl c -> config_ok c.
Proof.
  unfold NewConfig. rewrite ebind_inl. intros (b & Hopts & H).
  assert (Hb : b_checker b = Some CheckCompatibility /\ keyed (PriorityBands (b_config b))).
  { refine (efold_inv _ (fun b => b_checker b = Some CheckCompatibility /\
      keyed (PriorityBands (b_config b))) _ _ _ _ _ Hopts).
    2: { split; [done|]. intros k p Hp. simpl in Hp. by rewrite lookup_empty in Hp. }
    intros s x s' (o & -> & _)%list_elem_of_fmap [Hs1 Hs2] Hx.
    destruct (denote_keeps o s s' Hx Hs2). split; [congruence|done]. }
  destruct Hb as [Hck Hkey]. rewrite Hck in H.
  apply ebind_inl in H as (template & Ht & H). apply ebind_inl in H as (bands & Hbands & H).
  apply ebind_inl in H as (u & Hv & [= <-]).
  destruct (validate range _ _) as [u0|] eqn:Hval in Hv; [|done].
  apply validate_bands in Hval as (? & ? & (d & Hd & u1 & Hdv) & Hall).
  assert (Htm : pb_MaxBytes template <> 0).
  { assert (exists p0, applyDefaults handle p0 = inl template) as [p0 Ha].
    { destruct (DefaultPriorityBand (b_config b)) as [d0|]; simpl in Ht.
      - exists d0. by destruct (applyDefaults handle d0).
      - unfold NewPriorityBandConfig in Ht. simpl in Ht.
        eexists. by destruct (applyDefaults handle _) eqn:E in Ht; [injection Ht as <-|]. }
    apply applyDefaults_spec in Ha as (_ & _ & -> & _).
    destruct (Z.eqb_spec (pb_MaxBytes p0) 0); [done|done]. }
  simpl in Hd. injection Hd as <-. apply band_validate_spec in Hdv as [Hq Hof].
  split_and!; [done|lia|lia| |].
  - exists template. split; [done|]. by split_and!.
  - intros k p Hp. simpl in Hp, Hbands.
    destruct (Hall k p Hp) as [u2 Hu2]. apply band_validate_spec in Hu2 as [Hq2 Hof2].
    destruct (defaults_loop (range (PriorityBands (b_config b))) (PriorityBands (b_config b)) bands)
      with (k := k) (p := p) as [(p0 & Hin & Ha)|[Hnin Hk]]; [|done|done|..].
    { intros [k0 p0] Hin. rewrite range_perm, elem_of_map_to_list in Hin. by apply Hkey. }
    + rewrite range_perm, elem_of_map_to_list in Hin.
      apply applyDefaults_spec in Ha as (Hpr & _ & Hmb & _).
      split; [rewrite Hpr; by apply Hkey|]. split_and!; [|done|done].
      rewrite Hmb. by destruct (Z.eqb_spec (pb_MaxBytes p0) 0).
    + exfalso. apply Hnin. apply (list_elem_of_fmap_2' fst _ (k, p)); [|done].
      by rewrite range_perm, elem_of_map_to_list.
Qed.
End validation.

Lemma partition_bands_loop i n l : forall m : gmap Z PriorityBandConfig,
  NoDup l.*1 -> (forall e, e ∈ l -> pb_Priority e.2 = e.1) ->
  let r := fold_left (fun m e => <[pb_Priority (partition_band i n e.2) := partition_band i n e.2]> m) l m in
  (forall k p, (k, p) ∈ l -> r !! k = Some (partition_band i n p)) /\
  (forall k, (k ∉ l.*1) -> r !! k = m !! k).
Proof.
  induction l as [|[k0 p0] l IH]; intros m Hnd Hl; simpl.
  { split; [by intros k p ?%elem_of_nil|done]. }
  simpl in Hnd. apply NoDup_cons in Hnd as [Hk0 Hnd].
  assert (Hp0 : pb_Priority p0 = k0) by (apply (Hl (k0, p0)); left).
  destruct (IH (<[pb_Priority p0 := partition_band i n p0]> m) Hnd) as [H1 H2];
    [intros; apply Hl; by right|]. split.
  - intros k p [[= -> ->]|Hin]%elem_of_cons; [|by apply H1].
    rewrite H2 by done. by rewrite Hp0, lookup_insert_eq.
  - intros k [Hne Hk]%not_elem_of_cons. rewrite H2 by done.
    rewrite lookup_insert_ne; [done|]. congruence.
Qed.

Lemma partition_lookup range i n c k :
  (forall m, range m ≡ₚ map_to_list m) -> keyed (PriorityBands c) ->
  sc_PriorityBands (partition range i n c) !! k = partition_band i n <$> PriorityBands c !! k.
Proof.
  intros Hr Hkey. unfold partition. cbn [sc_PriorityBands].
  destruct (partition_bands_loop i n (range (PriorityBands c)) ∅) as [H1 H2].
  - rewrite Hr. apply NoDup_fst_map_to_list.
  - intros [k0 p0] Hin. rewrite Hr, elem_of_map_to_list in Hin. by apply Hkey.
  - destruct (PriorityBands c !! k) as [p|] eqn:Hk.
    + apply H1. by rewrite Hr, elem_of_map_to_list.
    + rewrite H2; [apply lookup_empty|]. intros ([k0 p0] & -> & Hin)%list_elem_of_fmap.
      rewrite Hr, elem_of_map_to_list in Hin. simpl in *. congruence.
Qed.

(** * Properties *)

(** Partitioning a configuration over [n] shards conserves every limit: the
    shards' shares of the global limits and of each band's limits add up to the
    configured totals, every share is the quotient or one more, and every shard
    has exactly the configured bands. *)
Theorem partition_conserves_capacity range c n :
  (forall m, range m ≡ₚ map_to_list m) -> keyed (PriorityBands c) -> 0 < n < two63 ->
  is_u64 (MaxBytes c) -> is_u64 (MaxRequests c) ->
  (forall k p, PriorityBands c !! k = Some p -> is_u64 (pb_MaxBytes p) /\ is_u64 (pb_MaxRequests p)) ->
  let shard i := partition range (Z.of_nat i) n c in
  let shards := seq 0 (Z.to_nat n) in
  sumZ (fun i => sc_MaxBytes (shard i)) shards = MaxBytes c /\
  sumZ (fun i => sc_MaxRequests (shard i)) shards = MaxRequests c /\
  (forall i, (i < Z.to_nat n)%nat -> MaxBytes c / n <= sc_MaxBytes (shard i) <= MaxBytes c / n + 1) /\
  (forall k, match PriorityBands c !! k with
     | Some p =>
         (forall i, exists q, sc_PriorityBands (shard i) !! k = Some q /\ pb_Priority q = k /\
            pb_Queue q = pb_Queue p /\ pb_OrderingPolicy q = pb_OrderingPolicy p) /\
         sumZ (fun i => default 0 (pb_MaxBytes <$> sc_PriorityBands (shard i) !! k)) shards = pb_MaxBytes p /\
         sumZ (fun i => default 0 (pb_MaxRequests <$> sc_PriorityBands (shard i) !! k)) shards = pb_MaxRequests p
     | None => forall i, sc_PriorityBands (shard i) !! k = None
     end).
Proof.
  intros Hr Hkey Hn Hb Hq Hbands. cbv zeta.
  assert (Hsum : forall total, is_u64 total ->
    sumZ (fun i => partitionUint64 total (Z.of_nat i) n) (seq 0 (Z.to_nat n)) = total).
  { intros total Ht. rewrite partition_sum_upto by (done || lia).
    pose proof (Z.mod_pos_bound total n). rewrite Z2Nat.id by lia.
    rewrite Z.min_r by lia. pose proof (Z.div_mod total n). lia. }
  split_and!; [by apply Hsum|by apply Hsum| |].
  - intros i Hi. simpl. rewrite partition_value by (done || lia).
    destruct (Z.of_nat i <? MaxBytes c mod n); lia.
  - intros k. destruct (PriorityBands c !! k) as [p|] eqn:Hk.
    + destruct (Hbands k p Hk) as [Hpb Hpq]. split_and!.
      * intros i. rewrite partition_lookup, Hk by done. simpl. eexists. split; [done|].
        split_and!; [exact (Hkey k p Hk)|done|done].
      * etransitivity; [|by apply (Hsum (pb_MaxBytes p))]. apply sumZ_ext.
        intros i _. by rewrite partition_lookup, Hk.
      * etransitivity; [|by apply (Hsum (pb_MaxRequests p))]. apply sumZ_ext.
        intros i _. by rewrite partition_lookup, Hk.
    + intros i. by rewrite partition_lookup, Hk.
Qed.

Definition sample_handle : PluginHandle := fun name =>
  if bool_decide (name = FCFSOrderingPolicyType)
  then Some (mkPlugin (Some (FCFSOrderingPolicyFactory "")) None)
  else if bool_decide (name = EDFOrderingPolicyType)
  then Some (mkPlugin (Some (EDFOrderingPolicyFactory "")) None)
  else if bool_decide (name = GlobalStrictFairnessPolicyType)
  then Some (mkPlugin None (Some (newGlobalStrict ""))) else None.

Definition sample_band : PriorityBandConfig :=
  mkPriorityBandConfig 5 (Some (EDFOrderingPolicyFactory "")) None EmptyString 100 7.

Definition sample_config : Config :=
  mkConfig 10 0 {[ 5 := sample_band ]} None 1 1 1.

Lemma partition_conserves_capacity_witness :
  sumZ (fun i => sc_MaxBytes (partition map_to_list (Z.of_nat i) 3 sample_config)) (seq 0 3) = 10.
Proof.
  apply (partition_conserves_capacity map_to_list sample_config 3).
  - intros m. reflexivity.
  - intros k p Hp. simpl in Hp. apply lookup_singleton_Some in Hp as [<- <-]. reflexivity.
  - vm_compute. split; reflexivity.
  - vm_compute. split; [discriminate|reflexivity].
  - vm_compute. split; [discriminate|reflexivity].
  - intros k p Hp. simpl in Hp. apply lookup_singleton_Some in Hp as [<- <-].
    vm_compute. split; (split; [discriminate|reflexivity]).
Defined.

(** Every configuration [NewConfig] returns is usable: at least one shard,
    positive garbage-collection timeouts with the band timeout no shorter than
    the flow timeout, and in the template and in every band a fairness policy, an
    ordering policy, a registered queue that has the capabilities the policy
    requires, and a positive byte limit; bands are stored under their priority. *)
Theorem new_config_valid handle range opts c :
  (forall m, range m ≡ₚ map_to_list m) ->
  NewConfig handle range (denote <$> opts) = inl c -> config_ok c.
Proof. intros Hr. by apply NewConfig_ok. Qed.

Lemma new_config_valid_witness :
  exists c, NewConfig sample_handle map_to_list (denote <$> [OMaxBytes 10; OPriorityBand (Some sample_band)])
    = inl c /\ config_ok c /\ (pb_Queue <$> PriorityBands c !! 5) = Some MaxMinHeapName.
Proof.
  eexists. split; [vm_compute; reflexivity|]. split.
  - apply (new_config_valid sample_handle map_to_list [OMaxBytes 10; OPriorityBand (Some sample_band)]).
    + intros m. reflexivity.
    + vm_compute. reflexivity.
  - vm_compute. reflexivity.
Defined.

Lemma missing_capability_None req caps :
  missing_capability req caps = None <-> forall c, c ∈ req -> c ∈ caps.
Proof.
  induction req as [|c req IH]; simpl; [by split; [intros _ c ?%elem_of_nil|]|].
  case_bool_decide as Hc.
  - rewrite IH. setoid_rewrite elem_of_cons. naive_solver.
  - split; [done|]. intros H. by destruct Hc; apply H; left.
Qed.

(** When a band names no queue, the queue the defaults choose is compatible
    with the band's ordering policy, unless the policy demands both first-in
    first-out order and a configurable priority, which no queue offers. *)
Theorem default_queue_compatible handle p p' :
  applyDefaults handle p = inl p' -> pb_Queue p = EmptyString ->
  exists o, pb_OrderingPolicy p' = Some o /\
    (CheckCompatibility o (pb_Queue p') = None <->
     ~ (CapabilityFIFO ∈ op_RequiredQueueCapabilities o /\
        CapabilityPriorityConfigurable ∈ op_RequiredQueueCapabilities o)).
Proof.
  intros Ha Hq. destruct (applyDefaults_spec _ _ _ Ha) as (_ & _ & _ & _ & _ & o & f & Ho & _ & _ & _ & Hc).
  exists o. split; [done|]. rewrite (Hc Hq). clear Hc. unfold CheckCompatibility, NewQueueFromName.
  rewrite RegisteredQueues_eq. set (req := op_RequiredQueueCapabilities o).
  assert (Hempty : length req = 0%nat -> forall x, (x ∉ req)).
  { intros ->%nil_length_inv x. apply not_elem_of_nil. }
  destruct (bool_decide_reflect (CapabilityPriorityConfigurable ∈ req)) as [Hpc|Hpc].
  - rewrite lookup_insert_eq. case_bool_decide as Hz; [by destruct (Hempty Hz CapabilityPriorityConfigurable)|].
    simpl. destruct (missing_capability req _) as [c|] eqn:Hm.
    + split; [done|]. intros Hno. exfalso.
      assert (missing_capability req [CapabilityPriorityConfigurable] = None) as Hn;
        [|discriminate (eq_trans (eq_sym Hn) Hm)].
      apply missing_capability_None. intros [] Hin; [|left]. by destruct Hno.
    + split; [|done]. intros _ [Hfifo _]. rewrite missing_capability_None in Hm.
      specialize (Hm _ Hfifo). by apply list_elem_of_singleton in Hm.
  - rewrite lookup_insert_ne, lookup_insert_eq by done.
    case_bool_decide; [naive_solver|]. simpl.
    destruct (missing_capability req _) as [c|] eqn:Hm; [|naive_solver].
    exfalso. assert (missing_capability req [CapabilityFIFO] = None) as Hn;
        [|discriminate (eq_trans (eq_sym Hn) Hm)].
    apply missing_capability_None. intros [] Hin; [left|done].
Qed.

Lemma default_queue_compatible_witness :
  exists o, pb_OrderingPolicy (set_fairness (newGlobalStrict "") (set_queue_name MaxMinHeapName sample_band)) = Some o /\
    CheckCompatibility o MaxMinHeapName = None.
Proof.
  destruct (default_queue_compatible sample_handle sample_band
    (set_fairness (newGlobalStrict "") (set_queue_name MaxMinHeapName sample_band))) as (o & Ho & Hc).
  - vm_compute. reflexivity.
  - reflexivity.
  - exists o. split; [exact Ho|]. apply Hc. injection Ho as <-. vm_compute. set_solver.
Defined.
