(* ===== verification/Leasing.v ===== *)
(** Reference-counted leases and their garbage collection:
    pkg/epp/flowcontrol/registry/leasing.go.

    The first part models the four methods of [leasedState], each of which
    runs under the object's mutex.  The second part is the concurrent
    protocol: a sync.Map from keys to objects, client goroutines that run
    [pinLeasedResource] and later release their lease, and the collector
    goroutine that runs [collectLeasedResources].  A step is one atomic
    action: a map operation or a method of an object.  Steps of different
    goroutines interleave freely. *)

From S2P Require Import Prelude.

(** * The leased state *)

(** [becameIdleAt = None] is the zero time. *)
Record leasedState := mkLeased {
  leaseCount : Z;
  becameIdleAt : option Z;
  markedForDeletion : bool
}.

Definition newLeased : leasedState := mkLeased 0 None false.

Definition tryPin (ls : leasedState) : bool * leasedState :=
  if markedForDeletion ls then (false, ls)
  else (true, mkLeased (leaseCount ls + 1) None (markedForDeletion ls)).

Definition unpin (now : Z) (ls : leasedState) : leasedState :=
  let n := leaseCount ls - 1 in
  mkLeased n (if n =? 0 then Some now else becameIdleAt ls) (markedForDeletion ls).

Definition isActive (ls : leasedState) : bool := 0 <? leaseCount ls.

Definition checkAndMarkForDeletion (timeout now : Z) (ls : leasedState) : bool * leasedState :=
  if 0 <? leaseCount ls then (false, mkLeased (leaseCount ls) None (markedForDeletion ls))
  else
    match becameIdleAt ls with
    | None => (false, mkLeased (leaseCount ls) (Some now) (markedForDeletion ls))
    | Some t =>
        if now - t <? timeout then (false, ls)
        else (true, mkLeased (leaseCount ls) (becameIdleAt ls) true)
    end.

(** * The protocol *)

Section protocol.
Context {K : Type} `{Countable K}.
Variable timeout : Z.

Abbreviation oid := positive (only parsing).
Abbreviation tid := positive (only parsing).

(** Where a client goroutine is in [pinLeasedResource] for its key, or that it
    holds the lease, or that it has released it. *)
Inductive client :=
  | CLoad (k : K)                              (* about to Load *)
  | CLoadOrStore (k : K)                       (* about to LoadOrStore *)
  | CTryPin (k : K) (o : oid) (isNew : bool)   (* about to tryPin *)
  | CRecheck (k : K) (o : oid) (isNew : bool)  (* pinned, about to Load again *)
  | CUnpinStale (k : K) (o : oid)              (* about to unpin a stale object *)
  | CHold (k : K) (o : oid) (isNew : bool)     (* returned; the lease is held *)
  | CDone.                                     (* the lease is released *)

(** The collector: between cycles, ranging over the map (with the keys already
    visited and the time read at the start), or about to delete a marked
    object's key. *)
Inductive collector :=
  | GIdle
  | GRange (now : Z) (visited : gset K)
  | GDelete (now : Z) (visited : gset K) (k : K) (o : oid).

Record state := mkState {
  smap : gmap K oid;
  objs : gmap oid leasedState;
  clients : gmap tid client;
  gc : collector;
  collected : list oid;
  clock : Z
}.

Definition set_smap (m : gmap K oid) (s : state) : state :=
  mkState m (objs s) (clients s) (gc s) (collected s) (clock s).
Definition set_obj (o : oid) (ls : leasedState) (s : state) : state :=
  mkState (smap s) (<[o := ls]> (objs s)) (clients s) (gc s) (collected s) (clock s).
Definition set_client (t : tid) (c : client) (s : state) : state :=
  mkState (smap s) (objs s) (<[t := c]> (clients s)) (gc s) (collected s) (clock s).
Definition set_gc (g : collector) (s : state) : state :=
  mkState (smap s) (objs s) (clients s) g (collected s) (clock s).

Inductive step : state -> state -> Prop :=
  (** time passes *)
  | step_tick s d : 0 < d ->
      step s (mkState (smap s) (objs s) (clients s) (gc s) (collected s) (clock s + d))
  (** a goroutine starts *)
  | step_spawn s t k : clients s !! t = None -> step s (set_client t (CLoad k) s)
  (** [val, ok := m.Load(key)] *)
  | step_load_hit s t k o : clients s !! t = Some (CLoad k) -> smap s !! k = Some o ->
      step s (set_client t (CTryPin k o false) s)
  | step_load_miss s t k : clients s !! t = Some (CLoad k) -> smap s !! k = None ->
      step s (set_client t (CLoadOrStore k) s)
  (** [val, ok = m.LoadOrStore(key, createFn())] *)
  | step_store_lost s t k o : clients s !! t = Some (CLoadOrStore k) -> smap s !! k = Some o ->
      step s (set_client t (CTryPin k o false) s)
  | step_store_new s t k o : clients s !! t = Some (CLoadOrStore k) -> smap s !! k = None ->
      objs s !! o = None ->
      step s (set_client t (CTryPin k o true) (set_obj o newLeased (set_smap (<[k := o]> (smap s)) s)))
  (** [state.tryPin()] *)
  | step_pin s t k o isNew ls ls' : clients s !! t = Some (CTryPin k o isNew) ->
      objs s !! o = Some ls -> tryPin ls = (true, ls') ->
      step s (set_client t (CRecheck k o isNew) (set_obj o ls' s))
  | step_pin_marked s t k o isNew ls ls' : clients s !! t = Some (CTryPin k o isNew) ->
      objs s !! o = Some ls -> tryPin ls = (false, ls') ->
      step s (set_client t (CLoad k) (set_obj o ls' s))
  (** [currentVal, ok := m.Load(key)] *)
  | step_recheck_ok s t k o isNew : clients s !! t = Some (CRecheck k o isNew) ->
      smap s !! k = Some o -> step s (set_client t (CHold k o isNew) s)
  | step_recheck_stale s t k o isNew : clients s !! t = Some (CRecheck k o isNew) ->
      smap s !! k <> Some o -> step s (set_client t (CUnpinStale k o) s)
  | step_unpin_stale s t k o ls : clients s !! t = Some (CUnpinStale k o) ->
      objs s !! o = Some ls ->
      step s (set_client t (CLoad k) (set_obj o (unpin (clock s) ls) s))
  (** the holder releases its lease, with a time it read earlier *)
  | step_release s t k o isNew ls now : clients s !! t = Some (CHold k o isNew) ->
      objs s !! o = Some ls -> now <= clock s ->
      step s (set_client t CDone (set_obj o (unpin now ls) s))
  (** the collector reads the clock and ranges over the map *)
  | step_gc_start s : gc s = GIdle -> step s (set_gc (GRange (clock s) ∅) s)
  | step_gc_keep s now vis k o ls ls' : gc s = GRange now vis -> (k ∉ vis) ->
      smap s !! k = Some o -> objs s !! o = Some ls ->
      checkAndMarkForDeletion timeout now ls = (false, ls') ->
      step s (set_gc (GRange now (vis ∪ {[k]})) (set_obj o ls' s))
  | step_gc_mark s now vis k o ls ls' : gc s = GRange now vis -> (k ∉ vis) ->
      smap s !! k = Some o -> objs s !! o = Some ls ->
      checkAndMarkForDeletion timeout now ls = (true, ls') ->
      step s (set_gc (GDelete now (vis ∪ {[k]}) k o) (set_obj o ls' s))
  (** [m.LoadAndDelete(k)] *)
  | step_gc_delete s now vis k o o' : gc s = GDelete now vis k o -> smap s !! k = Some o' ->
      step s (mkState (delete k (smap s)) (objs s) (clients s) (GRange now vis)
                (collected s ++ [o']) (clock s))
  | step_gc_deleted s now vis k o : gc s = GDelete now vis k o -> smap s !! k = None ->
      step s (set_gc (GRange now vis) s)
  | step_gc_end s now vis : gc s = GRange now vis -> step s (set_gc GIdle s).

Definition init (now : Z) : state := mkState ∅ ∅ ∅ GIdle [] now.

Inductive reachable (now0 : Z) : state -> Prop :=
  | reach_init : reachable now0 (init now0)
  | reach_step s s' : reachable now0 s -> step s s' -> reachable now0 s'.
End protocol.

Arguments client : clear implicits.
Arguments collector _ {_ _}.
Arguments state _ {_ _}.

(** * Safety of the protocol *)

Section safety.
Context {K : Type} `{Countable K}.
Implicit Types (s : state K) (c : client K).

(** The object a client refers to, the pin it holds on it, and whether it is
    the creator. *)
Definition refers c : option positive :=
  match c with
  | CTryPin _ o _ | CRecheck _ o _ | CUnpinStale _ o | CHold _ o _ => Some o
  | _ => None
  end.

Definition pins (o : positive) c : Z :=
  match c with
  | CRecheck _ o' _ | CUnpinStale _ o' | CHold _ o' _ => if bool_decide (o = o') then 1 else 0
  | _ => 0
  end.

Definition creates (o : positive) c : Prop :=
  match c with
  | CTryPin _ o' true | CRecheck _ o' true | CHold _ o' true => o = o'
  | _ => False
  end.

Definition pin_count (o : positive) (cs : gmap positive (client K)) : Z :=
  sumZ (fun e => pins o e.2) (map_to_list cs).

Record inv s : Prop := {
  inv_count o ls : objs s !! o = Some ls -> leaseCount ls = pin_count o (clients s);
  inv_alloc t c o : clients s !! t = Some c -> refers c = Some o -> is_Some (objs s !! o);
  inv_map k o : smap s !! k = Some o -> is_Some (objs s !! o);
  inv_inj k k' o : smap s !! k = Some o -> smap s !! k' = Some o -> k = k';
  inv_marked o ls : objs s !! o = Some ls -> markedForDeletion ls = true -> leaseCount ls = 0;
  inv_gc now vis k o : gc s = GDelete now vis k o ->
    smap s !! k = Some o /\ exists ls, objs s !! o = Some ls /\ markedForDeletion ls = true;
  inv_bound k o ls : smap s !! k = Some o -> objs s !! o = Some ls -> markedForDeletion ls = true ->
    exists now vis, gc s = GDelete now vis k o;
  inv_hold t k o n : clients s !! t = Some (CHold k o n) -> smap s !! k = Some o;
  inv_creates t t' c c' o : clients s !! t = Some c -> clients s !! t' = Some c' ->
    creates o c -> creates o c' -> t = t';
  inv_collected o : o ∈ collected s ->
    (exists ls, objs s !! o = Some ls /\ markedForDeletion ls = true) /\ forall k, smap s !! k <> Some o
}.

Lemma pins_nonneg o c : 0 <= pins o c <= 1.
Proof. unfold pins. repeat case_match; lia. Qed.

Lemma pins_refers o c : pins o c <> 0 -> refers c = Some o.
Proof.
  destruct c; simpl; try done; case_bool_decide; subst; done.
Qed.

Lemma creates_refers o c : creates o c -> refers c = Some o.
Proof. destruct c as [| |? ? []|? ? []| |? ? []|]; simpl; naive_solver. Qed.

Lemma pin_count_nonneg o cs : 0 <= pin_count o cs.
Proof. apply sumZ_nonneg. intros. apply pins_nonneg. Qed.

Lemma pin_count_insert_new o t c (cs : gmap positive (client K)) :
  cs !! t = None -> pin_count o (<[t := c]> cs) = pin_count o cs + pins o c.
Proof.
  intros Ht. unfold pin_count. rewrite (sumZ_perm _ _ _ (map_to_list_insert cs t c Ht)). simpl. lia.
Qed.

Lemma pin_count_insert o t c c' (cs : gmap positive (client K)) :
  cs !! t = Some c -> pin_count o (<[t := c']> cs) = pin_count o cs - pins o c + pins o c'.
Proof.
  intros Ht. rewrite <- insert_delete_eq.
  rewrite pin_count_insert_new by apply lookup_delete_eq.
  rewrite <- (insert_delete_id cs t c Ht) at 2.
  rewrite pin_count_insert_new by apply lookup_delete_eq. lia.
Qed.

Lemma pin_count_zero o (cs : gmap positive (client K)) :
  (forall t c, cs !! t = Some c -> pins o c = 0) -> pin_count o cs = 0.
Proof.
  intros Hz. apply sumZ_zero. intros [t c] Hin%elem_of_map_to_list. by eapply Hz.
Qed.

Lemma pin_count_pos o t c (cs : gmap positive (client K)) :
  cs !! t = Some c -> pins o c = 1 -> 0 < pin_count o cs.
Proof.
  intros Ht Hp. pose proof (pin_count_insert o t c CDone cs Ht) as Hc. simpl in Hc.
  pose proof (pin_count_nonneg o (<[t := CDone]> cs)). lia.
Qed.

(** A client moves without changing any pin. *)
Lemma inv_move s t c c' :
  inv s -> clients s !! t = Some c \/ (clients s !! t = None /\ c = CDone) ->
  (forall o, pins o c' = pins o c) -> (forall o, refers c' = Some o -> is_Some (objs s !! o)) ->
  (forall k o n, c' = CHold k o n -> smap s !! k = Some o) ->
  (forall o, creates o c' -> creates o c) ->
  inv (set_client t c' s).
Proof.
  intros [] Ht Hp Hr Hh Hc. split; simpl; eauto.
  - intros o ls Hls. rewrite (inv_count0 o ls Hls). destruct Ht as [Ht|[Ht ->]].
    + rewrite (pin_count_insert _ _ _ _ _ Ht), Hp. lia.
    + rewrite pin_count_insert_new, Hp by done. simpl. lia.
  - intros t' c0 o [[<- <-]|[_ Ht']]%lookup_insert_Some; eauto.
  - intros t' k o n [[<- Heq]|[_ Ht']]%lookup_insert_Some; eauto.
  - intros t1 t2 c1 c2 o [[<- <-]|[Hn1 Ht1]]%lookup_insert_Some [[<- <-]|[Hn2 Ht2]]%lookup_insert_Some;
      eauto; intros H1 H2.
    + apply Hc in H1. destruct Ht as [Ht|[_ ->]]; [eauto|done].
    + apply Hc in H2. destruct Ht as [Ht|[_ ->]]; [eauto|done].
Qed.

(** A client operates on its object: the lease count follows its pin. *)
Lemma inv_operate s t c c' o ls ls' :
  inv s -> clients s !! t = Some c -> refers c = Some o -> objs s !! o = Some ls ->
  (forall o', pins o' c' - pins o' c = if bool_decide (o' = o) then leaseCount ls' - leaseCount ls else 0) ->
  markedForDeletion ls' = markedForDeletion ls ->
  (markedForDeletion ls = true -> leaseCount ls' = leaseCount ls) ->
  (forall o', refers c' = Some o' -> o' = o) -> (forall k o n, c' <> CHold k o n) ->
  (forall o', creates o' c' -> creates o' c) ->
  inv (set_client t c' (set_obj o ls' s)).
Proof.
  intros [] Ht Hro Ho Hp Hm Hml Hr Hh Hc.
  assert (Hobj : forall o1 l1, <[o := ls']> (objs s) !! o1 = Some l1 ->
    exists l0, objs s !! o1 = Some l0 /\ markedForDeletion l1 = markedForDeletion l0 /\
      leaseCount l1 - leaseCount l0 = if bool_decide (o1 = o) then leaseCount ls' - leaseCount ls else 0).
  { intros o1 l1 [[<- <-]|[Hne Hl]]%lookup_insert_Some.
    - exists ls. by rewrite bool_decide_eq_true_2.
    - exists l1. rewrite bool_decide_eq_false_2 by done. split_and!; [done|done|lia]. }
  assert (Hall : forall o1, is_Some (objs s !! o1) -> is_Some (<[o := ls']> (objs s) !! o1)).
  { intros o1 ?. destruct (decide (o = o1)) as [<-|];
      [rewrite lookup_insert_eq|rewrite lookup_insert_ne by done]; eauto. }
  split; simpl; eauto.
  - intros o1 l1 Hl1. rewrite (pin_count_insert _ _ _ _ _ Ht).
    destruct (Hobj o1 l1 Hl1) as (l0 & Hl0 & _ & Hd). specialize (Hp o1).
    rewrite <- (inv_count0 o1 l0 Hl0). case_bool_decide; lia.
  - intros t' c0 o1 [[<- <-]|[_ Ht']]%lookup_insert_Some Href; [|eauto].
    rewrite (Hr o1 Href). apply Hall. eauto.
  - intros o1 l1 Hl1 Hmk. destruct (Hobj o1 l1 Hl1) as (l0 & Hl0 & Hm0 & Hd). rewrite Hm0 in Hmk.
    pose proof (inv_marked0 o1 l0 Hl0 Hmk). case_bool_decide; [|lia]. subst. simplify_eq.
    specialize (Hml Hmk). lia.
  - intros now vis k o1 Hg. destruct (inv_gc0 now vis k o1 Hg) as (? & l0 & Hl0 & Hm0). split; [done|].
    destruct (decide (o = o1)) as [<-|]; [rewrite lookup_insert_eq|rewrite lookup_insert_ne by done];
      [|eauto]. simplify_eq. exists ls'. by rewrite Hm.
  - intros k o1 l1 Hk Hl1 Hmk. destruct (Hobj o1 l1 Hl1) as (l0 & Hl0 & Hm0 & _).
    rewrite Hm0 in Hmk. eauto.
  - intros t' k o1 n [[<- Heq]|[_ Ht']]%lookup_insert_Some; [by destruct (Hh k o1 n)|eauto].
  - intros t1 t2 c1 c2 o1 [[<- <-]|[Hn1 Ht1]]%lookup_insert_Some [[<- <-]|[Hn2 Ht2]]%lookup_insert_Some;
      eauto.
  - intros o1 Hin. destruct (inv_collected0 o1 Hin) as [(l0 & Hl0 & Hm0) Hno]. split; [|done].
    destruct (decide (o = o1)) as [<-|]; [rewrite lookup_insert_eq|rewrite lookup_insert_ne by done];
      [|eauto]. simplify_eq. exists ls'. by rewrite Hm.
Qed.

(** The collector looks at an object and possibly marks it. *)
Lemma inv_check s g k o ls ls' :
  inv s -> smap s !! k = Some o -> objs s !! o = Some ls ->
  (forall now vis k' o', gc s <> GDelete now vis k' o') ->
  leaseCount ls' = leaseCount ls ->
  (markedForDeletion ls' = markedForDeletion ls /\ (forall now vis k' o', g <> GDelete now vis k' o') \/
   markedForDeletion ls' = true /\ leaseCount ls <= 0 /\ exists now vis, g = GDelete now vis k o) ->
  inv (set_gc g (set_obj o ls' s)).
Proof.
  intros [] Hk Ho Hng Hl Hcase.
  assert (Hunm : forall k1 o1 l1, smap s !! k1 = Some o1 -> objs s !! o1 = Some l1 ->
            markedForDeletion l1 = false).
  { intros k1 o1 l1 Hk1 Hl1. destruct (markedForDeletion l1) eqn:Hm; [|done].
    destruct (inv_bound0 k1 o1 l1 Hk1 Hl1 Hm) as (? & ? & Hg). by destruct (Hng _ _ _ _ Hg). }
  assert (Hobj : forall o1 l1, <[o := ls']> (objs s) !! o1 = Some l1 ->
    (o1 = o /\ l1 = ls') \/ (o1 <> o /\ objs s !! o1 = Some l1)).
  { intros o1 l1 [[<- <-]|[Hne ?]]%lookup_insert_Some; [by left|by right]. }
  assert (Hall : forall o1, is_Some (objs s !! o1) -> is_Some (<[o := ls']> (objs s) !! o1)).
  { intros o1 ?. destruct (decide (o = o1)) as [<-|];
      [rewrite lookup_insert_eq|rewrite lookup_insert_ne by done]; eauto. }
  pose proof (inv_count0 o ls Ho) as Hcnt. pose proof (pin_count_nonneg o (clients s)).
  split; simpl; eauto.
  - intros o1 l1 [[-> ->]|[_ Hl1]]%Hobj; [congruence|eauto].
  - intros o1 l1 [[-> ->]|[_ Hl1]]%Hobj Hm; [|eauto]. rewrite Hl.
    destruct Hcase as [[Hm' _]|(_ & Hle & _)]; [|lia]. rewrite (Hunm k o ls Hk Ho) in Hm'. congruence.
  - intros now vis k1 o1 ->. destruct Hcase as [[_ Hg]|(Hm & _ & now' & vis' & [= -> -> -> ->])].
    + by destruct (Hg now vis k1 o1).
    + split; [done|]. exists ls'. by rewrite lookup_insert_eq.
  - intros k1 o1 l1 Hk1 [[-> ->]|[_ Hl1]]%Hobj Hm.
    + rewrite (inv_inj0 k1 k o Hk1 Hk). destruct Hcase as [[Hm' _]|(_ & _ & ?)]; [|done].
      rewrite (Hunm k o ls Hk Ho) in Hm'. congruence.
    + rewrite (Hunm k1 o1 l1 Hk1 Hl1) in Hm. done.
  - intros o1 Hin. destruct (inv_collected0 o1 Hin) as [(l1 & Hl1 & Hm1) Hno]. split; [|done].
    destruct (decide (o = o1)) as [<-|]; [by destruct (Hno k)|].
    exists l1. by rewrite lookup_insert_ne.
Qed.

(** A client stores a new object. *)
Lemma inv_store s t k o :
  inv s -> clients s !! t = Some (CLoadOrStore k) -> smap s !! k = None -> objs s !! o = None ->
  inv (set_client t (CTryPin k o true) (set_obj o newLeased (set_smap (<[k := o]> (smap s)) s))).
Proof.
  intros [] Ht Hk Ho.
  assert (Hfresh : forall t' c', clients s !! t' = Some c' -> refers c' <> Some o).
  { intros t' c' Ht' Hr. destruct (inv_alloc0 _ _ _ Ht' Hr). congruence. }
  assert (Hzero : pin_count o (clients s) = 0).
  { apply pin_count_zero. intros t' c' Ht'. destruct (Z.eq_dec (pins o c') 0) as [|Hne]; [done|].
    by destruct (Hfresh _ _ Ht' (pins_refers _ _ Hne)). }
  assert (Hall : forall o1, is_Some (objs s !! o1) -> is_Some (<[o := newLeased]> (objs s) !! o1)).
  { intros o1 ?. destruct (decide (o = o1)) as [<-|];
      [rewrite lookup_insert_eq|rewrite lookup_insert_ne by done]; eauto. }
  assert (Hmap : forall k1 o1, <[k := o]> (smap s) !! k1 = Some o1 ->
    (k1 = k /\ o1 = o) \/ (k1 <> k /\ o1 <> o /\ smap s !! k1 = Some o1)).
  { intros k1 o1 [[<- <-]|[Hne Hk1]]%lookup_insert_Some; [by left|right].
    split_and!; [done| |done]. intros ->. destruct (inv_map0 _ _ Hk1). congruence. }
  assert (Hobj : forall o1 l1, <[o := newLeased]> (objs s) !! o1 = Some l1 ->
    (o1 = o /\ l1 = newLeased) \/ (o1 <> o /\ objs s !! o1 = Some l1)).
  { intros o1 l1 [[<- <-]|[? ?]]%lookup_insert_Some; [by left|by right]. }
  split; simpl.
  - intros o1 l1 Hl1. rewrite (pin_count_insert _ _ _ _ _ Ht). simpl.
    apply Hobj in Hl1 as [[-> ->]|[Hne Hl1]]; [simpl; lia|]. rewrite (inv_count0 _ _ Hl1). lia.
  - intros t' c' o1 [[<- <-]|[_ Ht']]%lookup_insert_Some Hr; [|eauto].
    simpl in Hr. simplify_eq. rewrite lookup_insert_eq. eauto.
  - intros k1 o1 [[-> ->]|(_ & _ & Hk1)]%Hmap; [rewrite lookup_insert_eq; eauto|eauto].
  - intros k1 k2 o1 [[-> ->]|(? & ? & Hk1)]%Hmap [[-> ?]|(? & ? & Hk2)]%Hmap; try done; eauto.
  - intros o1 l1 [[-> ->]|[_ Hl1]]%Hobj; [done|eauto].
  - intros now vis k1 o1 Hg. destruct (inv_gc0 _ _ _ _ Hg) as (Hk1 & l1 & Hl1 & Hm1).
    assert (k1 <> k) by congruence. assert (o1 <> o) by congruence.
    rewrite !lookup_insert_ne by done. eauto.
  - intros k1 o1 l1 [[-> ->]|(_ & Hne & Hk1)]%Hmap [[? ->]|[_ Hl1]]%Hobj Hm; try done; try congruence; eauto.
  - intros t' k1 o1 n [[_ ?]|[_ Ht']]%lookup_insert_Some; [done|].
    pose proof (inv_hold0 _ _ _ _ Ht') as Hk1. rewrite lookup_insert_ne; [done|congruence].
  - assert (Hno : forall t' c' , clients s !! t' = Some c' -> ~ creates o c').
    { intros t' c' Ht' Hc. by destruct (Hfresh _ _ Ht' (creates_refers _ _ Hc)). }
    intros t1 t2 c1 c2 o1 [[<- <-]|[Hn1 Ht1]]%lookup_insert_Some [[<- <-]|[Hn2 Ht2]]%lookup_insert_Some H1 H2;
      simpl in *; subst; [done| | |eauto].
    + by destruct (Hno _ _ Ht2).
    + by destruct (Hno _ _ Ht1).
  - intros o1 Hin. destruct (inv_collected0 o1 Hin) as [(l1 & Hl1 & Hm1) Hno].
    assert (o1 <> o) by congruence. rewrite lookup_insert_ne by done. split; [eauto|].
    intros k1 [[_ ?]|(_ & _ & Hk1)]%Hmap; [done|]. by destruct (Hno k1).
Qed.

Lemma inv_init now : inv (init now : state K).
Proof.
  split; simpl; intros *; rewrite ?lookup_empty; try done. by intros ?%elem_of_nil.
Qed.

Lemma inv_gc_local s g :
  inv s -> (forall now vis k o, gc s <> GDelete now vis k o) ->
  (forall now vis k o, g <> GDelete now vis k o) -> inv (set_gc g s).
Proof.
  intros [] Hs Hg. split; simpl; eauto.
  - intros now vis k o ->. by destruct (Hg now vis k o).
  - intros k o ls Hk Hl Hm. destruct (inv_bound0 k o ls Hk Hl Hm) as (? & ? & Hx).
    by destruct (Hs _ _ _ _ Hx).
Qed.

Lemma inv_delete s now vis k o :
  inv s -> gc s = GDelete now vis k o -> smap s !! k = Some o ->
  inv (mkState (delete k (smap s)) (objs s) (clients s) (GRange now vis) (collected s ++ [o]) (clock s)).
Proof.
  intros Hinv Hg Hk. pose proof Hinv as []. destruct (inv_gc0 _ _ _ _ Hg) as (_ & lo & Hlo & Hmo).
  assert (Hdel : forall k1 o1, delete k (smap s) !! k1 = Some o1 -> k1 <> k /\ o1 <> o /\ smap s !! k1 = Some o1).
  { intros k1 o1 [Hne Hk1]%lookup_delete_Some. split_and!; [done| |done]. intros ->. by eauto. }
  split; simpl; eauto.
  - intros k1 o1 (_ & _ & ?)%Hdel. eauto.
  - intros k1 k2 o1 (_ & _ & ?)%Hdel (_ & _ & ?)%Hdel. eauto.
  - done.
  - intros k1 o1 l1 (Hne & _ & Hk1)%Hdel Hl1 Hm1.
    destruct (inv_bound0 k1 o1 l1 Hk1 Hl1 Hm1) as (? & ? & Hx). congruence.
  - intros t k1 o1 n Ht. rewrite lookup_delete_ne; [eauto|]. intros <-.
    assert (o1 = o) as -> by (pose proof (inv_hold0 _ _ _ _ Ht); congruence).
    pose proof (pin_count_pos o t _ _ Ht ltac:(simpl; by rewrite bool_decide_eq_true_2)) as Hpos.
    rewrite <- (inv_count0 o lo Hlo), (inv_marked0 o lo Hlo Hmo) in Hpos. lia.
  - intros o1 [Hin| ->%list_elem_of_singleton]%elem_of_app.
    + destruct (inv_collected0 o1 Hin) as [? Hno]. split; [done|]. intros k1 (_ & _ & ?)%Hdel. by destruct (Hno k1).
    + split; [eauto|]. intros k1 (_ & Hne & _)%Hdel. done.
Qed.

Lemma inv_step timeout s s' : inv s -> step timeout s s' -> inv s'.
Proof.
  intros Hinv Hstep. destruct Hstep.
  - (* tick *) destruct Hinv. by split.
  - eapply inv_move; [done|by right|by intros|by intros|by intros|by intros].
  - eapply inv_move; [done|by left|by intros| |by intros|by intros].
    simpl. intros ? [= <-]. by eapply inv_map.
  - eapply inv_move; [done|by left|by intros|by intros|by intros|by intros].
  - eapply inv_move; [done|by left|by intros| |by intros|by intros].
    simpl. intros ? [= <-]. by eapply inv_map.
  - by apply inv_store.
  - unfold tryPin in *. destruct (markedForDeletion ls) eqn:Hm; simplify_eq.
    eapply inv_operate; [done|done|done|done|..]; simpl; try done; [..|naive_solver].
    + intros o'. case_bool_decide; lia.
    + congruence.
  - unfold tryPin in *. destruct (markedForDeletion ls) eqn:Hm; simplify_eq.
    eapply inv_operate; [done|done|done|done|..]; simpl; try done.
    intros o'. case_bool_decide; lia.
  - eapply inv_move; [done|by left|by intros| |naive_solver|done].
    simpl. intros ? [= <-]. by eapply inv_map.
  - eapply inv_move; [done|by left|by intros| |by intros|by intros].
    simpl. intros ? [= <-]. by eapply (inv_alloc _ Hinv).
  - assert (Hpos : markedForDeletion ls = false).
    { destruct (markedForDeletion ls) eqn:Hm; [|done].
      pose proof (inv_marked _ Hinv _ _ H1 Hm). pose proof (inv_count _ Hinv _ _ H1).
      pose proof (pin_count_pos o t _ _ H0 ltac:(simpl; by rewrite bool_decide_eq_true_2)). lia. }
    eapply inv_operate; [done|done|done|done|..]; simpl; try done; [|congruence].
    intros o'. case_bool_decide; lia.
  - assert (Hpos : markedForDeletion ls = false).
    { destruct (markedForDeletion ls) eqn:Hm; [|done].
      pose proof (inv_marked _ Hinv _ _ H1 Hm). pose proof (inv_count _ Hinv _ _ H1).
      pose proof (pin_count_pos o t _ _ H0 ltac:(simpl; by rewrite bool_decide_eq_true_2)). lia. }
    eapply inv_operate; [done|done|done|done|..]; simpl; try done; [|congruence].
    intros o'. case_bool_decide; lia.
  - apply inv_gc_local; [done|congruence|done].
  - assert (Hng : forall n v k' o', gc s <> GDelete n v k' o') by congruence.
    unfold checkAndMarkForDeletion in *.
    repeat case_match; simplify_eq; (eapply inv_check; [done|done|done|done|done|left; done]).
  - assert (Hng : forall n v k' o', gc s <> GDelete n v k' o') by congruence.
    unfold checkAndMarkForDeletion in *. destruct (Z.ltb_spec 0 (leaseCount ls)); [done|].
    repeat case_match; simplify_eq. eapply inv_check; [done|done|done|done|done|right].
    split_and!; [done|done|eauto].
  - assert (o' = o) as -> by (destruct (inv_gc _ Hinv _ _ _ _ H0); congruence).
    by eapply inv_delete.
  - destruct (inv_gc _ Hinv _ _ _ _ H0). congruence.
  - apply inv_gc_local; [done|congruence|done].
Qed.

Lemma inv_reachable timeout now0 s : reachable timeout now0 s -> inv s.
Proof. induction 1; [apply inv_init|by eapply inv_step]. Qed.
End safety.

(** * Properties *)

(** C14: However clients and the collector interleave, a client that holds a lease
    holds it on the object its key is bound to, that object is neither marked nor
    collected, and its lease count is positive: an active flow is never garbage
    collected.  Two holders of a key hold the same object, and at most one of them
    created it. *)
Theorem lease_holder_never_collected {K} `{Countable K} timeout now0 (s : state K) t k o isNew :
  reachable timeout now0 s -> clients s !! t = Some (CHold k o isNew) ->
  smap s !! k = Some o /\ (o ∉ collected s) /\
  (exists ls, objs s !! o = Some ls /\ markedForDeletion ls = false /\ 0 < leaseCount ls) /\
  (forall t' o' isNew', clients s !! t' = Some (CHold k o' isNew') ->
     o' = o /\ (isNew = true -> isNew' = true -> t' = t)).
Proof.
  intros Hr Ht. pose proof (inv_reachable _ _ _ Hr) as Hinv.
  pose proof (inv_hold _ Hinv _ _ _ _ Ht) as Hk. destruct (inv_map _ Hinv _ _ Hk) as [ls Hls].
  pose proof (pin_count_pos o t _ _ Ht ltac:(simpl; by rewrite bool_decide_eq_true_2)) as Hpos.
  rewrite <- (inv_count _ Hinv _ _ Hls) in Hpos. split_and!; [done| | |].
  - intros Hc. destruct (inv_collected _ Hinv _ Hc) as [_ Hno]. by destruct (Hno k).
  - exists ls. split_and!; [done| |done]. destruct (markedForDeletion ls) eqn:Hm; [|done].
    rewrite (inv_marked _ Hinv _ _ Hls Hm) in Hpos. lia.
  - intros t' o' n' Ht'. pose proof (inv_hold _ Hinv _ _ _ _ Ht') as Hk'.
    assert (o' = o) as -> by congruence. split; [done|]. intros -> ->.
    by eapply (inv_creates _ Hinv _ _ _ _ o Ht' Ht).
Qed.

(** A client that has just acquired a new resource. *)
Definition acquire (t : positive) (k : Z) (o : positive) (s : state Z) : state Z :=
  set_client t (CHold k o true) (set_client t (CRecheck k o true) (set_obj o (mkLeased 1 None false)
    (set_client t (CTryPin k o true) (set_obj o newLeased (set_smap (<[k := o]> (smap s))
      (set_client t (CLoadOrStore k) (set_client t (CLoad k) s))))))).

Definition sample_state : state Z := acquire 3 7 1 (init 0).

Lemma acquire_reachable timeout now0 s t k o :
  reachable timeout now0 s -> clients s !! t = None -> smap s !! k = None -> objs s !! o = None ->
  reachable timeout now0 (acquire t k o s).
Proof.
  intros Hr Ht Hk Ho. unfold acquire.
  eapply reach_step; [eapply reach_step; [eapply reach_step; [eapply reach_step; [eapply reach_step|]|]|]|].
  - exact Hr.
  - by apply (step_spawn _ _ t k).
  - apply step_load_miss; simpl; [apply lookup_insert_eq|done].
  - apply (step_store_new timeout (set_client t (CLoadOrStore k) (set_client t (CLoad k) s)) t k o);
      simpl; [apply lookup_insert_eq|done|done].
  - eapply (step_pin _ _ t k o true); simpl; [apply lookup_insert_eq|apply lookup_insert_eq|reflexivity].
  - apply step_recheck_ok; simpl; apply lookup_insert_eq.
Qed.

Lemma sample_reachable : reachable 10 0 sample_state.
Proof. apply acquire_reachable; [apply reach_init|reflexivity..]. Qed.

Lemma lease_holder_never_collected_witness :
  smap sample_state !! 7 = Some 1%positive /\ (1%positive ∉ collected sample_state).
Proof.
  destruct (lease_holder_never_collected 10 0 sample_state 3%positive 7 1%positive true) as (H1 & H2 & _).
  - exact sample_reachable.
  - reflexivity.
  - split; [exact H1|exact H2].
Defined.

(** The lease count of every object is the number of clients that hold a pin
    on it, a marked object has none, and while the collector is not about to
    delete a key no key is bound to a marked object, so a client that lost a race
    with the collector finds a live object or none when it retries. *)
Theorem lease_count_exact {K} `{Countable K} timeout now0 (s : state K) :
  reachable timeout now0 s ->
  (forall o ls, objs s !! o = Some ls -> leaseCount ls = pin_count o (clients s) /\
     (markedForDeletion ls = true -> leaseCount ls = 0)) /\
  (forall k o ls, smap s !! k = Some o -> objs s !! o = Some ls -> markedForDeletion ls = true ->
     exists now vis, gc s = GDelete now vis k o).
Proof.
  intros Hr. pose proof (inv_reachable _ _ _ Hr) as []. split; [|eauto]. intros o ls Hls. split; eauto.
Qed.

Lemma lease_count_exact_witness :
  exists ls, objs sample_state !! 1%positive = Some ls /\
    leaseCount ls = pin_count 1%positive (clients sample_state) /\ leaseCount ls = 1.
Proof.
  destruct (lease_count_exact 10 0 sample_state sample_reachable) as [H1 _].
  exists (mkLeased 1 None false). split; [reflexivity|].
  split; [|reflexivity]. apply (H1 1%positive (mkLeased 1 None false)). reflexivity.
Defined.
