(* ===== verification/Shard.v ===== *)
(** A shard of the registry: pkg/epp/flowcontrol/registry/shard.go.

    The state of a shard is its bands and, in each band, its managed queues.
    Administrative methods run under the shard's mutex and are one step each.
    A call on a managed queue is one step too: it runs under the queue's
    mutex and propagates its statistics before it returns ([queue_op]).
    [None] is a run-time panic: a nil dereference or a failed type assertion.
    The iteration order of a Go map is a parameter. *)

From S2P Require Import Prelude FlowTypes ItemProps SafeQueue ListQueue Ordering Fairness.
From S2P Require Import MaxMinHeap MaxMinHeapSpec QueueFactory ManagedQueue RegistryConfig.

Abbreviation queue_t := (managedQueue AnyQueue) (only parsing).

Record priorityBand := mkBand {
  band_fairnessPolicy : FairnessPolicy;
  band_policyState : PolicyState;
  band_config : PriorityBandConfig;
  band_queues : gmap string queue_t;
  band_byteSize : Z;
  band_len : Z
}.

Record registryShard := mkShard {
  sh_id : string;
  sh_config : ShardConfig;
  sh_orderedPriorityLevels : list Z;
  sh_priorityBands : gmap Z priorityBand;
  sh_isDraining : bool;
  sh_totalByteSize : Z;
  sh_totalLen : Z
}.

Definition set_shard_bands (m : gmap Z priorityBand) (s : registryShard) : registryShard :=
  mkShard (sh_id s) (sh_config s) (sh_orderedPriorityLevels s) m (sh_isDraining s)
    (sh_totalByteSize s) (sh_totalLen s).
Definition set_band_queues (m : gmap string queue_t) (b : priorityBand) : priorityBand :=
  mkBand (band_fairnessPolicy b) (band_policyState b) (band_config b) m (band_byteSize b) (band_len b).
Definition set_band_config (c : PriorityBandConfig) (b : priorityBand) : priorityBand :=
  mkBand (band_fairnessPolicy b) (band_policyState b) c (band_queues b) (band_byteSize b) (band_len b).
Definition set_band_state (st : PolicyState) (b : priorityBand) : priorityBand :=
  mkBand (band_fairnessPolicy b) st (band_config b) (band_queues b) (band_byteSize b) (band_len b).

(** ** Bands *)

(** [sort.Slice] by descending level *)
Definition sort_levels (levels : list Z) : list Z := merge_sort (flip Z.le) levels.

Definition initPriorityBand (bandConfig : PriorityBandConfig) (s : registryShard)
  : option registryShard :=
  policy ← pb_FairnessPolicy bandConfig;
  let band := mkBand policy (fp_NewState policy) bandConfig ∅ 0 0 in
  Some (mkShard (sh_id s) (sh_config s)
          (sort_levels (sh_orderedPriorityLevels s ++ [pb_Priority bandConfig]))
          (<[pb_Priority bandConfig := band]> (sh_priorityBands s))
          (sh_isDraining s) (sh_totalByteSize s) (sh_totalLen s)).

Definition newShard (range : gmap Z PriorityBandConfig -> list (Z * PriorityBandConfig))
    (id : string) (config : ShardConfig) : option registryShard :=
  ofold (fun s e => initPriorityBand e.2 s) (range (sc_PriorityBands config))
    (mkShard id config [] ∅ false 0 0).

Definition addPriorityBand (priority : Z) (s : registryShard) : option registryShard :=
  match sh_priorityBands s !! priority with
  | Some _ => Some s
  | None =>
      bandConfig ← sc_PriorityBands (sh_config s) !! priority;
      initPriorityBand bandConfig s
  end.

(** The loop that removes the first occurrence of the level. *)
Fixpoint remove_level (priority : Z) (levels : list Z) : list Z :=
  match levels with
  | [] => []
  | p :: levels => if p =? priority then levels else p :: remove_level priority levels
  end.

Definition deletePriorityBand (priority : Z) (s : registryShard) : registryShard :=
  mkShard (sh_id s)
    (mkShardConfig (sc_MaxBytes (sh_config s)) (sc_MaxRequests (sh_config s))
       (delete priority (sc_PriorityBands (sh_config s))))
    (remove_level priority (sh_orderedPriorityLevels s))
    (delete priority (sh_priorityBands s))
    (sh_isDraining s) (sh_totalByteSize s) (sh_totalLen s).

(** ** Read-only accessors *)

Definition IsActive (s : registryShard) : bool := negb (sh_isDraining s).

Definition ManagedQueue (key : FlowKey) (s : registryShard) : queue_t + error :=
  match sh_priorityBands s !! Priority key with
  | None => inr (Wrap "failed to get managed queue for flow %q: %w" [Sentinel ErrPriorityBandNotFound])
  | Some band =>
      match band_queues band !! ID key with
      | None => inr (Wrap "failed to get managed queue for flow %q: %w" [Sentinel ErrFlowInstanceNotFound])
      | Some mq => inl mq
      end
  end.

Definition shard_FairnessPolicy (priority : Z) (s : registryShard) : FairnessPolicy + error :=
  match sh_priorityBands s !! priority with
  | None => inr (Wrap "failed to get fairness policy for priority %d: %w" [Sentinel ErrPriorityBandNotFound])
  | Some band => inl (band_fairnessPolicy band)
  end.

Definition PriorityBandAccessor (priority : Z) (s : registryShard) : priorityBand + error :=
  match sh_priorityBands s !! priority with
  | None => inr (Wrap "failed to get priority band accessor for priority %d: %w"
                   [Sentinel ErrPriorityBandNotFound])
  | Some band => inl band
  end.

Definition AllOrderedPriorityLevels (s : registryShard) : list Z := sh_orderedPriorityLevels s.

Record PriorityBandStats := mkBandStats {
  bs_Priority : Z;
  bs_CapacityBytes : Z;
  bs_CapacityRequests : Z;
  bs_ByteSize : Z;
  bs_Len : Z
}.

Record ShardStats := mkShardStats {
  ss_ID : string;
  ss_IsActive : bool;
  ss_TotalCapacityBytes : Z;
  ss_TotalCapacityRequests : Z;
  ss_TotalByteSize : Z;
  ss_TotalLen : Z;
  ss_PerPriorityBandStats : gmap Z PriorityBandStats
}.

Definition shard_Stats (s : registryShard) : ShardStats :=
  mkShardStats (sh_id s) (IsActive s) (sc_MaxBytes (sh_config s)) (sc_MaxRequests (sh_config s))
    (u64 (sh_totalByteSize s)) (u64 (sh_totalLen s))
    (map_imap (fun priority band =>
       Some (mkBandStats priority (pb_MaxBytes (band_config band)) (pb_MaxRequests (band_config band))
               (u64 (band_byteSize band)) (u64 (band_len band)))) (sh_priorityBands s)).

(** ** Lifecycle *)

Definition synchronizeFlow (key : FlowKey) (policy : OrderingPolicy) (q : AnyQueue) (s : registryShard)
  : option registryShard :=
  band ← sh_priorityBands s !! Priority key;
  match band_queues band !! ID key with
  | Some _ => Some s
  | None =>
      let mq := newManagedQueue q policy key in
      Some (set_shard_bands
              (<[Priority key := set_band_queues (<[ID key := mq]> (band_queues band)) band]>
                 (sh_priorityBands s)) s)
  end.

Definition deleteFlow (key : FlowKey) (s : registryShard) : registryShard :=
  match sh_priorityBands s !! Priority key with
  | Some band =>
      set_shard_bands
        (<[Priority key := set_band_queues (delete (ID key) (band_queues band)) band]>
           (sh_priorityBands s)) s
  | None => s
  end.

Definition markAsDraining (s : registryShard) : registryShard :=
  mkShard (sh_id s) (sh_config s) (sh_orderedPriorityLevels s) (sh_priorityBands s) true
    (sh_totalByteSize s) (sh_totalLen s).

(** The dereference of a missing band configuration panics. *)
Definition updateConfig (newConfig : ShardConfig) (s : registryShard) : option registryShard :=
  if decide (map_Forall (fun priority _ => is_Some (sc_PriorityBands newConfig !! priority))
               (sh_priorityBands s))
  then Some (mkShard (sh_id s) newConfig (sh_orderedPriorityLevels s)
               (map_imap (fun priority band =>
                  newBandConfig ← sc_PriorityBands newConfig !! priority;
                  Some (set_band_config newBandConfig band)) (sh_priorityBands s))
               (sh_isDraining s) (sh_totalByteSize s) (sh_totalLen s))
  else None.

(** ** Statistics *)

Definition propagateStatsDelta (d : stats_delta) (s : registryShard) : option registryShard :=
  let '(priority, lenDelta, byteSizeDelta) := d in
  band ← sh_priorityBands s !! priority;
  let band' := mkBand (band_fairnessPolicy band) (band_policyState band) (band_config band)
                 (band_queues band) (i64 (band_byteSize band + byteSizeDelta))
                 (i64 (band_len band + lenDelta)) in
  Some (mkShard (sh_id s) (sh_config s) (sh_orderedPriorityLevels s)
          (<[priority := band']> (sh_priorityBands s)) (sh_isDraining s)
          (i64 (sh_totalByteSize s + byteSizeDelta)) (i64 (sh_totalLen s + lenDelta))).

(** A call [f] on the managed queue of [key], with the propagation of its
    statistics to the band and the shard.  The last component is what the
    shard reports to the registry.  A missing queue is a nil dereference. *)
Definition queue_op {A} (key : FlowKey)
    (f : Store -> queue_t -> option (A * Store * queue_t * list stats_delta))
    (σ : Store) (s : registryShard) : option (A * Store * registryShard * list stats_delta) :=
  band ← sh_priorityBands s !! Priority key;
  mq ← band_queues band !! ID key;
  '(a, σ', mq', ds) ← f σ mq;
  let s1 := set_shard_bands
              (<[Priority key := set_band_queues (<[ID key := mq']> (band_queues band)) band]>
                 (sh_priorityBands s)) s in
  s' ← ofold (fun s d => propagateStatsDelta d s) ds s1;
  Some (a, σ', s', ds).

(** ** The accessor of a band *)

Section accessor.
Variable range : gmap string queue_t -> list (string * queue_t).

Definition FlowKeys (b : priorityBand) : list FlowKey :=
  (fun e => mkFlowKey e.1 (pb_Priority (band_config b))) <$> range (band_queues b).

Definition accessor_Queue (id : string) (b : priorityBand) : option FlowView :=
  FlowQueueAccessor <$> band_queues b !! id.

(** The snapshot [IterateQueues] runs its callback on. *)
Definition snapshot (b : priorityBand) : list FlowView :=
  (fun e => FlowQueueAccessor e.2) <$> range (band_queues b).

(** [policy.Pick(ctx, band)], which may move the cursor in the band's state. *)
Definition pick (priority : Z) (s : registryShard)
  : option ((option FlowView + error) * registryShard) :=
  band ← sh_priorityBands s !! priority;
  let '(r, st') := fp_Pick (band_fairnessPolicy band) (snapshot band) (band_policyState band) in
  Some (r, set_shard_bands (<[priority := set_band_state st' band]> (sh_priorityBands s)) s).
End accessor.
