(* ===== verification/ShardSpec.v ===== *)
(** The invariant of a shard and what each of its operations does to it.

    [shard_ok] relates every counter of the shard to the items of its queues.
    The lemmas at the end describe a call on one queue as the registry sees
    it: every other queue, of this shard or another, is left as it is. *)

From S2P Require Import Prelude FlowTypes ItemProps SafeQueue ListQueue Ordering Fairness.
From S2P Require Import MaxMinHeap MaxMinHeapSpec QueueFactory ManagedQueue RegistryConfig Shard.

(** * The invariant *)

Definition band_items (b : priorityBand) : list Item :=
  map_to_list (band_queues b) ≫= (fun e => mq_items e.2).
Definition shard_items (s : registryShard) : list Item :=
  map_to_list (sh_priorityBands s) ≫= (fun e => band_items e.2).

(** The items of one band, and the queue of one flow. *)
Definition items_at (p : Z) (s : registryShard) : list Item :=
  match sh_priorityBands s !! p with Some b => band_items b | None => [] end.
Definition queue_at (key : FlowKey) (s : registryShard) : option queue_t :=
  b ← sh_priorityBands s !! Priority key; band_queues b !! ID key.

(** A change that moves no item. *)
Definition same_items (s s' : registryShard) : Prop :=
  shard_items s' ≡ₚ shard_items s /\ forall p, items_at p s' ≡ₚ items_at p s.

(** A counter of a band or a shard is the sum over the items below it. *)
Definition counts (xs : list Item) (n bytes : Z) : Prop :=
  n = i64 (Z.of_nat (length xs)) /\ bytes = i64 (sumZ item_bytes xs).

Record band_wf (σ : Store) (p : Z) (b : priorityBand) : Prop := {
  bwf_prio : pb_Priority (band_config b) = p;
  bwf_queues id mq : band_queues b !! id = Some mq -> mq_key mq = mkFlowKey id p /\ mq_ok σ mq;
  bwf_counts : counts (band_items b) (band_len b) (band_byteSize b)
}.

(** The bands of a configuration are keyed by their priority and have a
    fairness policy. *)
Definition bands_wf (m : gmap Z PriorityBandConfig) : Prop :=
  forall p c, m !! p = Some c -> pb_Priority c = p /\ is_Some (pb_FairnessPolicy c).

Record shard_ok (σ : Store) (s : registryShard) : Prop := {
  so_bands p b : sh_priorityBands s !! p = Some b -> band_wf σ p b;
  so_sorted : StronglySorted (flip Z.lt) (sh_orderedPriorityLevels s);
  so_levels p : p ∈ sh_orderedPriorityLevels s <-> is_Some (sh_priorityBands s !! p);
  so_config : bands_wf (sc_PriorityBands (sh_config s));
  so_nodup : NoDup (itemRef <$> shard_items s);
  so_counts : counts (shard_items s) (sh_totalLen s) (sh_totalByteSize s)
}.

(** An operation that may write the handles of [xs] leaves every other live
    handle as it is. *)
Definition frames (xs : list Item) (σ σ' : Store) : Prop :=
  forall y, holds σ y -> (forall x, x ∈ xs -> itemRef x <> itemRef y) ->
    Handle y σ' = Handle y σ /\ forall h, Handle y σ = Some h -> cells σ' !! h = cells σ !! h.

(** What a call on a managed queue does: it may bring in [new] items and may
    drop items, and it reports the difference. *)
Record effect (new : list Item) (σ : Store) (mq : queue_t) (σ' : Store) (mq' : queue_t)
    (ds : list stats_delta) : Prop := {
  ef_ok : mq_ok σ' mq';
  ef_key : mq_key mq' = mq_key mq;
  ef_items : exists gone, mq_items mq' ++ gone ≡ₚ new ++ mq_items mq;
  ef_frames : frames (new ++ mq_items mq) σ σ';
  ef_deltas : deltas_ok (Priority (mq_key mq)) (mq_items mq) (mq_items mq') ds
}.

(** * Lemmas *)

Lemma frames_touches xs new σ σ' :
  touches xs σ σ' -> (forall x, x ∈ xs -> holds σ x) ->
  (forall r, (forall x, x ∈ new -> itemRef x <> r) -> istates σ' !! r = istates σ !! r) ->
  frames (new ++ xs) σ σ'.
Proof.
  intros Ht Hxs Hst y Hy Hne. split.
  - unfold Handle. rewrite Hst; [done|]. intros x Hx. apply Hne. set_solver.
  - intros h Hh. destruct Hy as (h' & c & Hh' & Hc & Hcy & _). simplify_eq.
    rewrite Hc. apply Ht; [done|]. intros x Hx Hxh.
    destruct (Hxs x Hx) as (h1 & c1 & Hh1 & Hc1 & Hcx & _).
    apply (Hne x); [set_solver|]. congruence.
Qed.

Lemma mq_ok_frames xs σ σ' (mq : queue_t) :
  mq_ok σ mq -> frames xs σ σ' ->
  (forall x y, x ∈ xs -> y ∈ mq_items mq -> itemRef x <> itemRef y) -> mq_ok σ' mq.
Proof.
  intros (Hinv & Hrest) Hf Hne. split; [|done]. eapply law_frame; [exact Hinv|].
  intros y Hy. apply Hf; [by eapply law_handle|]. intros x Hx. by apply Hne.
Qed.

Lemma band_items_update b id mq mq' :
  band_queues b !! id = Some mq ->
  exists rest, band_items b ≡ₚ mq_items mq ++ rest /\
    band_items (set_band_queues (<[id := mq']> (band_queues b)) b) ≡ₚ mq_items mq' ++ rest.
Proof.
  intros H. eexists. split; [exact (bind_lookup (fun e : string * queue_t => mq_items e.2) _ id mq H)|].
  exact (bind_insert (fun e : string * queue_t => mq_items e.2) _ id mq').
Qed.

Lemma shard_items_update (m : gmap Z priorityBand) (p : Z) b b' :
  m !! p = Some b ->
  exists rest, (map_to_list m ≫= (fun e => band_items e.2)) ≡ₚ band_items b ++ rest /\
    (map_to_list (<[p := b']> m) ≫= (fun e => band_items e.2)) ≡ₚ band_items b' ++ rest.
Proof.
  intros H. eexists. split; [exact (bind_lookup (fun e : Z * priorityBand => band_items e.2) _ p b H)|].
  exact (bind_insert (fun e : Z * priorityBand => band_items e.2) _ p b').
Qed.

Lemma counts_change xs ys rest n bytes dl db :
  counts (xs ++ rest) n bytes -> dl = Z.of_nat (length ys) - Z.of_nat (length xs) ->
  i64 db = i64 (sumZ item_bytes ys - sumZ item_bytes xs) ->
  counts (ys ++ rest) (i64 (n + dl)) (i64 (bytes + db)).
Proof.
  intros [-> ->] -> Hb. unfold counts. rewrite !length_app, !sumZ_app, !i64_add_l.
  split; [f_equal; lia|]. rewrite <- i64_add_r, Hb, i64_add_r. f_equal. lia.
Qed.

Lemma counts_perm xs ys n bytes : xs ≡ₚ ys -> counts xs n bytes -> counts ys n bytes.
Proof. intros Hp [-> ->]. split; f_equal; [by rewrite Hp|by apply sumZ_perm]. Qed.

(** All the deltas of a call concern one band. *)
Lemma propagate_all p ds : forall s band,
  sh_priorityBands s !! p = Some band -> Forall (fun d => d.1.1 = p) ds ->
  band_len band = i64 (band_len band) -> band_byteSize band = i64 (band_byteSize band) ->
  sh_totalLen s = i64 (sh_totalLen s) -> sh_totalByteSize s = i64 (sh_totalByteSize s) ->
  ofold (fun s d => propagateStatsDelta d s) ds s =
    Some (mkShard (sh_id s) (sh_config s) (sh_orderedPriorityLevels s)
            (<[p := mkBand (band_fairnessPolicy band) (band_policyState band) (band_config band)
                      (band_queues band) (i64 (band_byteSize band + delta_bytes ds))
                      (i64 (band_len band + delta_len ds))]> (sh_priorityBands s))
            (sh_isDraining s) (i64 (sh_totalByteSize s + delta_bytes ds))
            (i64 (sh_totalLen s + delta_len ds))).
Proof.
  induction ds as [|[[p' dl] db] ds IH]; intros s band Hb Hf H1 H2 H3 H4.
  - unfold delta_len, delta_bytes. simpl. rewrite !Z.add_0_r, <- H1, <- H2, <- H3, <- H4.
    destruct s, band. simpl in *. by rewrite insert_id.
  - apply Forall_cons in Hf as [Hp Hf]. simpl in Hp. subst p'. cbn [ofold propagateStatsDelta].
    rewrite Hb. cbn [mbind option_bind]. erewrite IH; [|apply lookup_insert_eq|done|simpl..];
      [|symmetry; apply i64_id, i64_range..].
    simpl. rewrite insert_insert_eq, !i64_add_l. unfold delta_len, delta_bytes. simpl.
    by rewrite !Z.add_assoc.
Qed.

(** Items of a queue, of its band and of the shard. *)
Lemma shard_items_split s p b id mq :
  sh_priorityBands s !! p = Some b -> band_queues b !! id = Some mq ->
  exists qrest brest, band_items b ≡ₚ mq_items mq ++ qrest /\ shard_items s ≡ₚ band_items b ++ brest /\
    shard_items s ≡ₚ mq_items mq ++ (qrest ++ brest) /\
    forall mq' b', band_queues b' = <[id := mq']> (band_queues b) ->
      band_items b' ≡ₚ mq_items mq' ++ qrest /\
      (map_to_list (<[p := b']> (sh_priorityBands s)) ≫= (fun e => band_items e.2)) ≡ₚ
        mq_items mq' ++ (qrest ++ brest).
Proof.
  intros Hb Hq.
  pose proof (bind_lookup (fun e : string * queue_t => mq_items e.2) _ id mq Hq) as H1.
  pose proof (bind_lookup (fun e : Z * priorityBand => band_items e.2) _ p b Hb) as H2.
  simpl in H1, H2. fold (band_items b) in H1. fold (shard_items s) in H2.
  eexists _, _. split_and!; [exact H1|exact H2|by rewrite H2, H1, app_assoc|].
  intros mq' b' Hb'.
  pose proof (bind_insert (fun e : string * queue_t => mq_items e.2) (band_queues b) id mq') as H3.
  pose proof (bind_insert (fun e : Z * priorityBand => band_items e.2) (sh_priorityBands s) p b') as H4.
  simpl in H3, H4. rewrite <- Hb' in H3. fold (band_items b') in H3.
  split; [exact H3|]. by rewrite H4, H3, app_assoc.
Qed.

(** A queue elsewhere in the shard has other items. *)
Lemma shard_items_other s p b id mq p' b' id' mq' x y :
  NoDup (itemRef <$> shard_items s) ->
  sh_priorityBands s !! p = Some b -> band_queues b !! id = Some mq ->
  sh_priorityBands s !! p' = Some b' -> band_queues b' !! id' = Some mq' ->
  (p, id) <> (p', id') -> x ∈ mq_items mq -> y ∈ mq_items mq' -> itemRef x <> itemRef y.
Proof.
  intros Hnd Hb Hq Hb' Hq' Hne Hx Hy Heq.
  pose proof (bind_lookup (fun e : string * queue_t => mq_items e.2) _ id mq Hq) as H1.
  pose proof (bind_lookup (fun e : Z * priorityBand => band_items e.2) _ p b Hb) as H2.
  fold (shard_items s) in H2. fold (band_items b) in H1. simpl in H1, H2. rewrite H2, H1 in Hnd.
  rewrite <- app_assoc, fmap_app in Hnd. apply NoDup_app in Hnd as (_ & Hdis & _).
  apply (Hdis (itemRef x)); [by apply list_elem_of_fmap_2|].
  rewrite Heq. apply list_elem_of_fmap_2. apply elem_of_app.
  destruct (decide (p = p')) as [<-|Hp].
  - left. simplify_eq. apply elem_of_map_bind. exists id', mq'. split; [|done].
    rewrite lookup_delete_ne; [done|]. congruence.
  - right. apply elem_of_map_bind. exists p', b'. split; [by rewrite lookup_delete_ne|].
    simpl. apply elem_of_map_bind. by exists id', mq'.
Qed.

Lemma new_items_other s p b id mq p' b' id' mq' new :
  NoDup (itemRef <$> new ++ shard_items s) ->
  sh_priorityBands s !! p = Some b -> band_queues b !! id = Some mq ->
  sh_priorityBands s !! p' = Some b' -> band_queues b' !! id' = Some mq' ->
  (p, id) <> (p', id') ->
  forall x y, x ∈ new ++ mq_items mq -> y ∈ mq_items mq' -> itemRef x <> itemRef y.
Proof.
  rewrite fmap_app. intros (_ & Hdis & Hnd)%NoDup_app Hb Hq Hb' Hq' Hne x y [Hx|Hx]%elem_of_app Hy.
  - intros Heq. apply (Hdis (itemRef x)); [by apply list_elem_of_fmap_2|].
    rewrite Heq. apply list_elem_of_fmap_2, elem_of_map_bind. exists p', b'. split; [done|].
    apply elem_of_map_bind. by exists id', mq'.
  - by eapply (shard_items_other s p b id mq p' b' id' mq').
Qed.

Lemma NoDup_items_change (new all all' xs ys gone rest : list Item) :
  NoDup (itemRef <$> new ++ all) -> all ≡ₚ xs ++ rest -> all' ≡ₚ ys ++ rest -> ys ++ gone ≡ₚ new ++ xs ->
  NoDup (itemRef <$> all').
Proof.
  intros Hnd Hall Hall' Hg. rewrite Hall'. rewrite Hall, app_assoc, <- Hg in Hnd.
  eapply (sublist_NoDup _ (itemRef <$> (ys ++ gone) ++ rest)); [exact Hnd|].
  apply fmap_sublist, sublist_app; [|done]. by apply sublist_inserts_r.
Qed.

Lemma counts_i64 xs n bytes : counts xs n bytes -> n = i64 n /\ bytes = i64 bytes.
Proof. intros [-> ->]. split; symmetry; apply i64_id, i64_range. Qed.

Section queue_op_spec.
Context {A : Type} (f : Store -> queue_t -> option (A * Store * queue_t * list stats_delta)).

Lemma queue_op_run key σ s b mq a σ' mq' ds new :
  shard_ok σ s -> sh_priorityBands s !! Priority key = Some b -> band_queues b !! ID key = Some mq ->
  f σ mq = Some (a, σ', mq', ds) -> effect new σ mq σ' mq' ds ->
  queue_op key f σ s =
    Some (a, σ', mkShard (sh_id s) (sh_config s) (sh_orderedPriorityLevels s)
      (<[Priority key := mkBand (band_fairnessPolicy b) (band_policyState b) (band_config b)
           (<[ID key := mq']> (band_queues b)) (i64 (band_byteSize b + delta_bytes ds))
           (i64 (band_len b + delta_len ds))]> (sh_priorityBands s))
      (sh_isDraining s) (i64 (sh_totalByteSize s + delta_bytes ds))
      (i64 (sh_totalLen s + delta_len ds)), ds).
Proof.
  intros Hok Hb Hq Hrun Hef. unfold queue_op. rewrite Hb. cbn [mbind option_bind].
  rewrite Hq. cbn [mbind option_bind]. rewrite Hrun. cbn [mbind option_bind].
  pose proof (so_bands _ _ Hok _ _ Hb) as Hbwf.
  destruct (counts_i64 _ _ _ (bwf_counts _ _ _ Hbwf)). destruct (counts_i64 _ _ _ (so_counts _ _ Hok)).
  erewrite (propagate_all (Priority key)); [|simpl; apply lookup_insert_eq| |done..].
  - cbn [mbind option_bind]. simpl. by rewrite insert_insert_eq.
  - destruct (ef_deltas _ _ _ _ _ _ Hef) as [Hf _].
    destruct (bwf_queues _ _ _ Hbwf _ _ Hq) as [Hk _]. rewrite Hk in Hf. exact Hf.
Qed.

(** A call on one queue keeps the whole shard consistent, and the totals of
    the band and of the shard move by what the call reports. *)
Lemma queue_op_spec key σ s b mq a σ' mq' ds new :
  shard_ok σ s -> sh_priorityBands s !! Priority key = Some b -> band_queues b !! ID key = Some mq ->
  f σ mq = Some (a, σ', mq', ds) -> effect new σ mq σ' mq' ds ->
  NoDup (itemRef <$> new ++ shard_items s) ->
  exists s' rest, queue_op key f σ s = Some (a, σ', s', ds) /\ shard_ok σ' s' /\
    ManagedQueue key s' = inl mq' /\ sh_id s' = sh_id s /\ sh_config s' = sh_config s /\
    sh_isDraining s' = sh_isDraining s /\ sh_orderedPriorityLevels s' = sh_orderedPriorityLevels s /\
    dom (sh_priorityBands s') = dom (sh_priorityBands s) /\
    shard_items s ≡ₚ mq_items mq ++ rest /\ shard_items s' ≡ₚ mq_items mq' ++ rest.
Proof.
  intros Hok Hb Hq Hrun Hef Hnew. rewrite (queue_op_run key σ s b mq a σ' mq' ds new) by done.
  destruct (shard_items_split s _ b _ mq Hb Hq) as (qrest & brest & Hbi & Hsb & Hsi & Hupd).
  set (b' := mkBand _ _ _ _ _ _). destruct (Hupd mq' b' eq_refl) as [Hbi' Hsi'].
  eexists _, (qrest ++ brest). split; [reflexivity|]. destruct Hef as [Hmok Hkey [gone Hgone] Hfr [_ [Hdl Hdb]]].
  pose proof (so_bands _ _ Hok _ _ Hb) as Hbwf.
  pose proof (fun p1 b1 id1 q1 => new_items_other s (Priority key) b (ID key) mq p1 b1 id1 q1 new Hnew Hb Hq) as Hsep.
  split_and!; simpl; try done.
  - split; simpl.
    + intros p b1 Hb1. destruct (decide (p = Priority key)) as [->|Hp].
      * rewrite lookup_insert_eq in Hb1. injection Hb1 as <-. split; simpl; [apply Hbwf| |].
        -- intros id q Hid. destruct (decide (id = ID key)) as [->|Hne].
           ++ rewrite lookup_insert_eq in Hid. injection Hid as <-. split; [|done].
              rewrite Hkey. by apply Hbwf.
           ++ rewrite lookup_insert_ne in Hid by done. destruct (bwf_queues _ _ _ Hbwf _ _ Hid) as [? Hq'].
              split; [done|]. eapply mq_ok_frames; [done|exact Hfr|].
              intros x y. apply (Hsep (Priority key) b id q); [done..|congruence].
        -- eapply counts_perm; [symmetry; exact Hbi'|]. eapply counts_change; [|exact Hdl|exact Hdb].
           eapply counts_perm; [exact Hbi|]. apply Hbwf.
      * rewrite lookup_insert_ne in Hb1 by done. pose proof (so_bands _ _ Hok _ _ Hb1) as [? Hqs ?].
        split; [done| |done]. intros id q Hid. destruct (Hqs _ _ Hid) as [? Hq']. split; [done|].
        eapply mq_ok_frames; [done|exact Hfr|]. intros x y. apply (Hsep p b1 id q); [done..|congruence].
    + apply Hok.
    + intros p. rewrite (so_levels _ _ Hok). destruct (decide (p = Priority key)) as [->|];
        [rewrite lookup_insert_eq, Hb|rewrite lookup_insert_ne by done]; split; eauto.
    + apply Hok.
    + fold (shard_items (set_shard_bands (<[Priority key := b']> (sh_priorityBands s)) s)) in Hsi'.
      eapply (NoDup_items_change new _ _ (mq_items mq) (mq_items mq') gone); [exact Hnew|exact Hsi|exact Hsi'|done].
    + eapply counts_perm; [symmetry; exact Hsi'|]. eapply counts_change; [|exact Hdl|exact Hdb].
      eapply counts_perm; [exact Hsi|]. apply Hok.
  - unfold ManagedQueue. simpl. by rewrite lookup_insert_eq; simpl; rewrite lookup_insert_eq.
  - rewrite dom_insert_L. apply elem_of_dom_2 in Hb. set_solver.
Qed.
End queue_op_spec.

(** ** The calls of a processor on a queue *)

Lemma add_effect it σ mq :
  mq_ok σ mq -> allocated it σ -> (forall x, x ∈ mq_items mq -> itemRef x <> itemRef it) ->
  mq_len mq + 1 < two63 ->
  exists σ' mq' ds, Add it false σ mq = Some (None, σ', mq', ds) /\ effect [it] σ mq σ' mq' ds /\
    mq_items mq' ≡ₚ it :: mq_items mq /\ only_handle it σ σ'.
Proof.
  intros Hok Hal Hf Hlt. pose proof Hok as (Hinv & _).
  destruct (mq_add_spec σ mq it Hok Hal Hf Hlt) as (σ' & mq' & Hr & Hok' & Hk & Hp & Hh & Ht).
  eexists σ', mq', _. split_and!; [exact Hr| |done|done]. split; [done|done| | |].
  - exists []. by rewrite app_nil_r.
  - apply frames_touches; [done|intros x Hx; by eapply law_handle|].
    intros r Hr'. apply Hh. apply not_eq_sym, Hr'. set_solver.
  - split_and!; [by repeat constructor| |]; unfold delta_len, delta_bytes; simpl.
    + rewrite Hp. simpl. lia.
    + rewrite Z.add_0_r, (sumZ_perm _ _ _ Hp), i64_id by apply i64_range. simpl. f_equal. lia.
Qed.

Lemma drop_effect σ (mq : queue_t) σ' mq' ds gone :
  mq_ok σ mq -> mq_ok σ' mq' -> mq_key mq' = mq_key mq -> gone ++ mq_items mq' ≡ₚ mq_items mq ->
  istates σ' = istates σ -> touches (mq_items mq) σ σ' ->
  deltas_ok (Priority (mq_key mq)) (mq_items mq) (mq_items mq') ds ->
  effect [] σ mq σ' mq' ds.
Proof.
  intros (Hinv & _) Hok' Hk Hp Hst Ht Hd. split; [done|done| | |done].
  - exists gone. by rewrite (comm (++)).
  - apply frames_touches; [done|intros x Hx; by eapply law_handle|by rewrite Hst].
Qed.

Lemma remove_effect x h σ (mq : queue_t) :
  mq_ok σ mq -> x ∈ mq_items mq -> Handle x σ = Some h ->
  exists σ' mq' ds, Remove (Some h) σ mq = Some (inl x, σ', mq', ds) /\ effect [] σ mq σ' mq' ds /\
    mq_items mq ≡ₚ x :: mq_items mq' /\ istates σ' = istates σ.
Proof.
  intros Hok Hx Hh.
  destruct (mq_remove_spec σ mq x h Hok Hx Hh) as (σ' & mq' & ds & Hr & ? & ? & Hp & ? & ? & ? & ?).
  exists σ', mq', ds. split_and!; try done. by eapply (drop_effect _ _ _ _ _ [x]).
Qed.

Lemma cleanup_effect p σ (mq : queue_t) :
  mq_ok σ mq ->
  exists σ' mq' ds, Cleanup p σ mq = Some (take_out p (mq_items mq), σ', mq', ds) /\
    effect [] σ mq σ' mq' ds /\ mq_items mq' ≡ₚ keep p (mq_items mq) /\ istates σ' = istates σ.
Proof.
  intros Hok. destruct (mq_cleanup_spec σ mq p Hok) as (σ' & mq' & ds & Hr & ? & ? & Hp & ? & ? & ? & ?).
  exists σ', mq', ds. split_and!; try done. eapply (drop_effect _ _ _ _ _ (take_out p (mq_items mq))); try done.
  rewrite Hp. apply keep_take_out.
Qed.

Lemma drain_effect σ (mq : queue_t) :
  mq_ok σ mq ->
  exists σ' mq' ds, Drain σ mq = Some (mq_items mq, σ', mq', ds) /\
    effect [] σ mq σ' mq' ds /\ mq_items mq' = [] /\ istates σ' = istates σ.
Proof.
  intros Hok. destruct (mq_drain_spec σ mq Hok) as (σ' & mq' & ds & Hr & ? & ? & Hp & ? & ? & ? & ?).
  exists σ', mq', ds. split_and!; try done. eapply (drop_effect _ _ _ _ _ (mq_items mq)); try done.
  by rewrite Hp, app_nil_r.
Qed.

(** A call that fails leaves the queue as it is. *)
Lemma no_effect σ (mq : queue_t) : mq_ok σ mq -> effect [] σ mq σ mq [].
Proof.
  intros Hok. split; [done|done|exists []; by rewrite app_nil_r|done|apply deltas_ok_refl].
Qed.

(** ** Administrative operations *)

Lemma sort_levels_spec l :
  NoDup l -> StronglySorted (flip Z.lt) (sort_levels l) /\ sort_levels l ≡ₚ l.
Proof.
  intros Hnd. assert (Hp : sort_levels l ≡ₚ l) by apply merge_sort_Permutation.
  split; [|done]. rewrite <- Hp in Hnd.
  assert (Hs : StronglySorted (flip Z.le) (sort_levels l)).
  { apply StronglySorted_merge_sort; [intros x y z ? ?; simpl in *; lia|].
    intros x y. simpl. lia. }
  clear Hp. induction Hs as [|p q Hs IH Hall]; [constructor|]. apply NoDup_cons in Hnd as [Hp Hnd].
  constructor; [by apply IH|]. apply Forall_forall. intros x Hx.
  pose proof (proj1 (Forall_forall _ _) Hall x Hx). simpl in *.
  destruct (decide (x = p)) as [->|]; [done|lia].
Qed.

Lemma sorted_levels_NoDup l : StronglySorted (flip Z.lt) l -> NoDup l.
Proof.
  induction 1 as [|p q Hs IH Hall]; constructor; [|done]. intros Hp.
  pose proof (proj1 (Forall_forall _ _) Hall p Hp). simpl in *. lia.
Qed.

Lemma remove_level_spec p l :
  StronglySorted (flip Z.lt) l ->
  StronglySorted (flip Z.lt) (remove_level p l) /\ forall x, x ∈ remove_level p l <-> x ∈ l /\ x <> p.
Proof.
  induction 1 as [|q l Hs [IH1 IH2] Hall]; simpl; [split; [constructor|set_solver]|].
  rewrite Forall_forall in Hall. simpl in Hall. destruct (Z.eqb_spec q p) as [->|Hne].
  - split; [done|]. intros x. split; [|set_solver].
    intros Hx. specialize (Hall x Hx). split; [set_solver|lia].
  - split; [|set_solver]. constructor; [done|]. apply Forall_forall. intros x Hx. apply Hall.
    set_solver.
Qed.

(** Only the queues of a band matter for its items. *)
Lemma band_items_queues b b' : band_queues b' = band_queues b -> band_items b' = band_items b.
Proof. unfold band_items. by intros ->. Qed.

Lemma shard_items_queues (m m' : gmap Z priorityBand) :
  (forall p, band_queues <$> m !! p = band_queues <$> m' !! p) ->
  (map_to_list m ≫= (fun e => band_items e.2)) ≡ₚ (map_to_list m' ≫= (fun e => band_items e.2)).
Proof.
  intros Hm. apply map_bind_ext. intros p. specialize (Hm p).
  destruct (m !! p), (m' !! p); simplify_eq/=; [|done]. by apply band_items_queues.
Qed.

(** A change of the bands that moves no item. *)
Lemma shard_ok_admin σ s s' :
  shard_ok σ s ->
  (forall p b, sh_priorityBands s' !! p = Some b -> band_wf σ p b) ->
  StronglySorted (flip Z.lt) (sh_orderedPriorityLevels s') ->
  (forall p, p ∈ sh_orderedPriorityLevels s' <-> is_Some (sh_priorityBands s' !! p)) ->
  bands_wf (sc_PriorityBands (sh_config s')) ->
  sh_totalLen s' = sh_totalLen s -> sh_totalByteSize s' = sh_totalByteSize s ->
  shard_items s' ≡ₚ shard_items s -> shard_ok σ s'.
Proof.
  intros Hok ? ? ? ? Hl Hb Hi. split; [done..|by rewrite Hi; apply Hok|].
  rewrite Hl, Hb. eapply counts_perm; [symmetry; exact Hi|apply Hok].
Qed.

Lemma initPriorityBand_ok σ s c p :
  shard_ok σ s -> pb_Priority c = p -> is_Some (pb_FairnessPolicy c) -> sh_priorityBands s !! p = None ->
  exists s' b, initPriorityBand c s = Some s' /\ shard_ok σ s' /\ shard_items s' ≡ₚ shard_items s /\
    sh_priorityBands s' = <[p := b]> (sh_priorityBands s) /\ band_queues b = ∅ /\ sh_config s' = sh_config s /\
    sh_id s' = sh_id s /\ sh_isDraining s' = sh_isDraining s.
Proof.
  intros Hok <- [pol Hpol] Hnone. unfold initPriorityBand. rewrite Hpol. cbn [mbind option_bind].
  set (b := mkBand _ _ _ _ _ _). eexists _, b. split; [reflexivity|].
  assert (Hb : band_items b = []) by reflexivity.
  assert (Hi : (map_to_list (<[pb_Priority c := b]> (sh_priorityBands s)) ≫= (fun e => band_items e.2))
                ≡ₚ shard_items s).
  { rewrite bind_insert, delete_id by done. simpl. by rewrite Hb. }
  assert (Hnd : NoDup (sh_orderedPriorityLevels s ++ [pb_Priority c])).
  { apply NoDup_app. split_and!; [apply sorted_levels_NoDup, Hok| |apply NoDup_singleton].
    intros q Hq ->%list_elem_of_singleton. apply (so_levels _ _ Hok) in Hq. rewrite Hnone in Hq. by destruct Hq. }
  destruct (sort_levels_spec _ Hnd) as [Hs Hp].
  split_and!; try done. eapply shard_ok_admin; [exact Hok|simpl..]; try done; [| |apply Hok].
  - intros q b' Hb'. apply lookup_insert_Some in Hb' as [[<- <-]|[? Hb']]; [|by eapply so_bands].
    split; [done|by intros ? ? ?|]. by rewrite Hb.
  - intros q. rewrite Hp, elem_of_app, (so_levels _ _ Hok), list_elem_of_singleton.
    destruct (decide (q = pb_Priority c)) as [->|]; [rewrite lookup_insert_eq; naive_solver|].
    rewrite lookup_insert_ne by done. naive_solver.
Qed.

Lemma new_band_same s s' p b :
  sh_priorityBands s !! p = None -> band_queues b = ∅ ->
  sh_priorityBands s' = <[p := b]> (sh_priorityBands s) ->
  same_items s s' /\ forall k, queue_at k s' = queue_at k s.
Proof.
  intros Hnone Hq Hs. assert (Hb : band_items b = []) by (unfold band_items; by rewrite Hq).
  split; [split|].
  - unfold shard_items. rewrite Hs, bind_insert, delete_id by done. simpl. by rewrite Hb.
  - intros p'. unfold items_at. rewrite Hs. destruct (decide (p' = p)) as [->|].
    + by rewrite lookup_insert_eq, Hnone, Hb.
    + by rewrite lookup_insert_ne.
  - intros k. unfold queue_at. rewrite Hs. destruct (decide (Priority k = p)) as [<-|].
    + rewrite lookup_insert_eq, Hnone. simpl. by rewrite Hq.
    + by rewrite lookup_insert_ne.
Qed.

Lemma addPriorityBand_ok σ s p :
  shard_ok σ s -> is_Some (sc_PriorityBands (sh_config s) !! p) ->
  exists s', addPriorityBand p s = Some s' /\ shard_ok σ s' /\ same_items s s' /\
    (forall k, queue_at k s' = queue_at k s) /\
    dom (sh_priorityBands s') = {[p]} ∪ dom (sh_priorityBands s) /\ sh_config s' = sh_config s /\
    sh_id s' = sh_id s /\ sh_isDraining s' = sh_isDraining s.
Proof.
  intros Hok [c Hc]. unfold addPriorityBand. destruct (sh_priorityBands s !! p) as [b|] eqn:Hb.
  - exists s. split_and!; try done. apply elem_of_dom_2 in Hb. set_solver.
  - rewrite Hc. cbn [mbind option_bind]. destruct (so_config _ _ Hok _ _ Hc) as [Hp Hf].
    destruct (initPriorityBand_ok σ s c p) as (s' & b & -> & ? & ? & Hm & Hbq & ? & ? & ?); [done..|].
    destruct (new_band_same s s' p b) as [? ?]; [done..|].
    exists s'. split_and!; try done. by rewrite Hm, dom_insert_L.
Qed.

Lemma deletePriorityBand_ok σ s p :
  shard_ok σ s -> (forall b, sh_priorityBands s !! p = Some b -> band_items b = []) ->
  shard_ok σ (deletePriorityBand p s) /\ same_items s (deletePriorityBand p s) /\
  (forall k, queue_at k (deletePriorityBand p s) = if decide (Priority k = p) then None else queue_at k s) /\
  dom (sh_priorityBands (deletePriorityBand p s)) = dom (sh_priorityBands s) ∖ {[p]}.
Proof.
  intros Hok He. assert (Hi : shard_items (deletePriorityBand p s) ≡ₚ shard_items s).
  { unfold shard_items. simpl. destruct (sh_priorityBands s !! p) as [b|] eqn:Hb; [|by rewrite delete_id].
    rewrite (bind_lookup _ _ p b Hb). simpl. by rewrite (He b). }
  split_and!; [|split; [done|]| |simpl; apply dom_delete_L].
  2:{ intros q. unfold items_at. simpl. destruct (decide (q = p)) as [->|]; [|by rewrite lookup_delete_ne].
      rewrite lookup_delete_eq. destruct (sh_priorityBands s !! p) as [b|] eqn:Hb; [|done]. by rewrite (He b). }
  2:{ intros k. unfold queue_at. simpl. case_decide as Hk; [by rewrite Hk, lookup_delete_eq|].
      by rewrite lookup_delete_ne. }
  destruct (remove_level_spec p _ (so_sorted _ _ Hok)) as [Hs Hl].
  eapply shard_ok_admin; [exact Hok|simpl..]; try done.
  - intros q b [_ Hb]%lookup_delete_Some. by eapply so_bands.
  - intros q. rewrite Hl, (so_levels _ _ Hok). unfold is_Some. setoid_rewrite lookup_delete_Some. naive_solver.
  - intros q c [_ Hc]%lookup_delete_Some. by eapply so_config.
Qed.

(** A new managed queue on an empty queue. *)
Lemma newManagedQueue_ok σ q policy key :
  sq_inv σ q -> sq_contents q = [] -> mq_ok σ (newManagedQueue q policy key : queue_t).
Proof.
  intros Hi Hc. unfold mq_ok, mq_items. cbn [newManagedQueue mq_queue mq_len mq_byteSize]. by rewrite Hc.
Qed.

Lemma newShard_ok range σ id config :
  range (sc_PriorityBands config) ≡ₚ map_to_list (sc_PriorityBands config) ->
  bands_wf (sc_PriorityBands config) ->
  exists s, newShard range id config = Some s /\ shard_ok σ s /\ shard_items s = [] /\
    dom (sh_priorityBands s) = dom (sc_PriorityBands config) /\
    (forall k, queue_at k s = None) /\
    sh_config s = config /\ sh_id s = id /\ sh_isDraining s = false.
Proof.
  intros Hr Hwf. unfold newShard.
  set (P := fun (l : list (Z * PriorityBandConfig)) s =>
    shard_ok σ s /\ shard_items s ≡ₚ [] /\ NoDup (fst <$> l) /\
    (forall e, e ∈ l -> sc_PriorityBands config !! e.1 = Some e.2) /\
    (forall p, p ∈ dom (sh_priorityBands s) <-> p ∈ dom (sc_PriorityBands config) /\ p ∉ fst <$> l) /\
    (forall k, queue_at k s = None) /\
    sh_config s = config /\ sh_id s = id /\ sh_isDraining s = false).
  destruct (ofold_total (fun s e => initPriorityBand e.2 s) P (range (sc_PriorityBands config))
              (mkShard id config [] ∅ false 0 0)) as (s & Hs & Hok & Hi & _ & _ & Hd & ? & ? & ? & ?).
  - intros [p c] l s (Hok & Hi & Hnd & Hin & Hd & Hqs & Hc & Hid & Hdr).
    apply NoDup_cons in Hnd as [Hp Hnd]. specialize (Hin (p, c)) as Hpc. simpl in *.
    destruct (Hwf p c) as [Hpr Hf]; [apply Hpc; set_solver|].
    assert (Hnone : sh_priorityBands s !! p = None).
    { apply not_elem_of_dom. rewrite Hd. set_solver. }
    destruct (initPriorityBand_ok σ s c p) as (s' & b & Hs' & Hok' & Hi' & Hm & Hbq & Hc' & Hid' & Hdr'); [done..|].
    destruct (new_band_same s s' p b Hnone Hbq Hm) as [_ Hqs'].
    exists s'. split; [done|]. split_and!; [done|by rewrite Hi'|done| | |intros k; by rewrite Hqs'|congruence..].
    + intros e He. apply Hin. set_solver.
    + intros q. rewrite Hm, dom_insert_L, elem_of_union, elem_of_singleton, Hd.
      destruct (decide (q = p)) as [->|]; [|set_solver].
      assert (p ∈ dom (sc_PriorityBands config)); [|set_solver].
      apply elem_of_dom. exists c. apply Hpc. set_solver.
  - split_and!; [| |rewrite Hr; apply NoDup_fst_map_to_list| | |done..].
    + split; simpl; [by intros ? ? ?|constructor|intros p; rewrite lookup_empty| |constructor|done].
      * split; [by intros ?%elem_of_nil|by intros [? ?]].
      * done.
    + reflexivity.
    + intros [p c]. rewrite Hr. by intros ?%elem_of_map_to_list.
    + intros p. simpl. rewrite dom_empty_L. split; [set_solver|]. intros [Hp Hn]. exfalso. apply Hn.
      apply elem_of_dom in Hp as [c Hc]. apply list_elem_of_fmap. exists (p, c). split; [done|].
      rewrite Hr. by apply elem_of_map_to_list.
  - exists s. split_and!; [done|done|by apply Permutation_nil_r| |done..]. apply set_eq. intros p. rewrite Hd. set_solver.
Qed.

Lemma band_update_same s s' p b b' :
  sh_priorityBands s !! p = Some b -> band_items b' ≡ₚ band_items b ->
  sh_priorityBands s' = <[p := b']> (sh_priorityBands s) -> same_items s s'.
Proof.
  intros Hb Hi Hs. split.
  - unfold shard_items. rewrite Hs, bind_insert, (bind_lookup _ _ _ b Hb). simpl. by rewrite Hi.
  - intros q. unfold items_at. rewrite Hs. destruct (decide (q = p)) as [->|].
    + by rewrite lookup_insert_eq, Hb.
    + by rewrite lookup_insert_ne.
Qed.

Lemma queue_at_ManagedQueue key s mq : ManagedQueue key s = inl mq <-> queue_at key s = Some mq.
Proof.
  unfold ManagedQueue, queue_at. destruct (sh_priorityBands s !! Priority key) as [b|]; simpl; [|naive_solver].
  destruct (band_queues b !! ID key); naive_solver.
Qed.

(** The queues of the flows when one band changes. *)
Lemma queue_at_band_update s s' p b b' k :
  sh_priorityBands s !! p = Some b -> sh_priorityBands s' = <[p := b']> (sh_priorityBands s) ->
  queue_at k s' = if decide (Priority k = p) then band_queues b' !! ID k else queue_at k s.
Proof.
  intros Hb Hs. unfold queue_at. rewrite Hs. case_decide as Hk.
  - by rewrite Hk, lookup_insert_eq.
  - by rewrite lookup_insert_ne.
Qed.

Lemma FlowKey_eq (k key : FlowKey) : k = key <-> Priority k = Priority key /\ ID k = ID key.
Proof. destruct k, key; simpl. naive_solver. Qed.

Lemma synchronizeFlow_ok σ s key policy q :
  shard_ok σ s -> is_Some (sh_priorityBands s !! Priority key) ->
  sq_inv σ q -> sq_contents q = [] ->
  exists s', synchronizeFlow key policy q s = Some s' /\ shard_ok σ s' /\ same_items s s' /\
    (forall k, k <> key -> queue_at k s' = queue_at k s) /\ is_Some (queue_at key s') /\
    dom (sh_priorityBands s') = dom (sh_priorityBands s) /\ sh_config s' = sh_config s /\ sh_id s' = sh_id s /\
    sh_isDraining s' = sh_isDraining s.
Proof.
  intros Hok [b Hb] Hinv Hc. unfold synchronizeFlow. rewrite Hb. cbn [mbind option_bind].
  pose proof (so_bands _ _ Hok _ _ Hb) as Hbwf.
  destruct (band_queues b !! ID key) as [mq|] eqn:Hq.
  { exists s. split_and!; try done. unfold queue_at. rewrite Hb. simpl. eauto. }
  set (mq := newManagedQueue q policy key). set (b' := set_band_queues _ b).
  assert (Hm : mq_items mq = []) by exact Hc.
  assert (Hbi : band_items b' ≡ₚ band_items b).
  { unfold band_items. cbn [b' set_band_queues band_queues]. rewrite bind_insert, delete_id by done. cbn [snd].
    by rewrite Hm. }
  set (s' := set_shard_bands (<[Priority key := b']> (sh_priorityBands s)) s).
  assert (Hi : same_items s s') by (by eapply (band_update_same s s' (Priority key) b b')).
  exists s'. split; [reflexivity|]. split_and!; try done; simpl.
  - eapply shard_ok_admin; [exact Hok|simpl..|apply Hi]; try done; try apply Hok.
    + intros p b1 [[<- <-]|[? Hb1]]%lookup_insert_Some; [|by eapply so_bands].
      split; [apply Hbwf| |].
      * simpl. intros id mq1 [[<- <-]|[? Hid]]%lookup_insert_Some; [|by eapply bwf_queues].
        split; [by destruct key|]. by apply newManagedQueue_ok.
      * simpl. eapply counts_perm; [symmetry; exact Hbi|apply Hbwf].
    + intros p. rewrite (so_levels _ _ Hok). destruct (decide (p = Priority key)) as [->|];
        [rewrite lookup_insert_eq, Hb|rewrite lookup_insert_ne by done]; split; eauto.
  - intros k Hk. rewrite (queue_at_band_update s s' (Priority key) b b') by done. case_decide as Hp; [|done].
    unfold queue_at. rewrite Hp, Hb. simpl. apply lookup_insert_ne. intros Hid. by apply Hk, FlowKey_eq.
  - rewrite (queue_at_band_update s s' (Priority key) b b'), decide_True by done. simpl.
    rewrite lookup_insert_eq. eauto.
  - rewrite dom_insert_L. apply elem_of_dom_2 in Hb. set_solver.
Qed.

Lemma deleteFlow_ok σ s key :
  shard_ok σ s -> (forall mq, queue_at key s = Some mq -> mq_items mq = []) ->
  shard_ok σ (deleteFlow key s) /\ same_items s (deleteFlow key s) /\
  (forall k, queue_at k (deleteFlow key s) = if decide (k = key) then None else queue_at k s) /\
  dom (sh_priorityBands (deleteFlow key s)) = dom (sh_priorityBands s).
Proof.
  intros Hok He. unfold deleteFlow. unfold queue_at in He.
  destruct (sh_priorityBands s !! Priority key) as [b|] eqn:Hb.
  2:{ split_and!; try done. intros k. case_decide as Hk; [|done]. subst k. unfold queue_at. by rewrite Hb. }
  cbn [mbind option_bind] in He.
  pose proof (so_bands _ _ Hok _ _ Hb) as Hbwf. set (b' := set_band_queues _ b).
  assert (Hbi : band_items b' ≡ₚ band_items b).
  { unfold band_items. cbn [b' set_band_queues band_queues].
    destruct (band_queues b !! ID key) as [mq|] eqn:Hq; [|by rewrite delete_id].
    rewrite (bind_lookup _ _ _ mq Hq). cbn [snd]. by rewrite (He mq). }
  set (s' := set_shard_bands (<[Priority key := b']> (sh_priorityBands s)) s).
  assert (Hi : same_items s s') by (by eapply (band_update_same s s' (Priority key) b b')).
  split_and!; [|done| |simpl; rewrite dom_insert_L; apply elem_of_dom_2 in Hb; set_solver].
  2:{ intros k. rewrite (queue_at_band_update s s' (Priority key) b b') by done. unfold queue_at. simpl.
      destruct (decide (k = key)) as [->|Hk]; [rewrite decide_True by done; apply lookup_delete_eq|].
      case_decide as Hp; [|done]. rewrite Hp, Hb. simpl. apply lookup_delete_ne.
      intros Hid. by apply Hk, FlowKey_eq. }
  eapply shard_ok_admin; [exact Hok|simpl..|apply Hi]; try done; try apply Hok.
  - intros p b1 [[<- <-]|[? Hb1]]%lookup_insert_Some; [|by eapply so_bands].
    split; [apply Hbwf| |].
    + simpl. intros id mq1 [_ Hid]%lookup_delete_Some. by eapply bwf_queues.
    + simpl. eapply counts_perm; [symmetry; exact Hbi|apply Hbwf].
  - intros p. rewrite (so_levels _ _ Hok). destruct (decide (p = Priority key)) as [->|];
      [rewrite lookup_insert_eq, Hb|rewrite lookup_insert_ne by done]; split; eauto.
Qed.

Lemma markAsDraining_ok σ s : shard_ok σ s -> shard_ok σ (markAsDraining s).
Proof. intros Hok. by eapply shard_ok_admin; [exact Hok|simpl; apply Hok..| | |]. Qed.

Lemma updateConfig_ok σ s newConfig :
  shard_ok σ s -> bands_wf (sc_PriorityBands newConfig) ->
  dom (sh_priorityBands s) ⊆ dom (sc_PriorityBands newConfig) ->
  exists s', updateConfig newConfig s = Some s' /\ shard_ok σ s' /\ same_items s s' /\
    dom (sh_priorityBands s') = dom (sh_priorityBands s) /\ sh_config s' = newConfig /\
    sh_id s' = sh_id s /\ sh_isDraining s' = sh_isDraining s /\
    (forall key, queue_at key s' = queue_at key s).
Proof.
  intros Hok Hwf Hdom. unfold updateConfig. rewrite decide_True.
  2:{ intros p b Hb. apply elem_of_dom, Hdom. by apply elem_of_dom_2 in Hb. }
  assert (Hl : forall p, map_imap (fun priority band =>
             newBandConfig ← sc_PriorityBands newConfig !! priority;
             Some (set_band_config newBandConfig band)) (sh_priorityBands s) !! p =
             b ← sh_priorityBands s !! p; c ← sc_PriorityBands newConfig !! p; Some (set_band_config c b)).
  { intros p. apply map_lookup_imap. }
  assert (Hq : forall p, band_queues <$> sh_priorityBands s !! p = band_queues <$> map_imap (fun priority band =>
             newBandConfig ← sc_PriorityBands newConfig !! priority;
             Some (set_band_config newBandConfig band)) (sh_priorityBands s) !! p).
  { intros p. rewrite Hl. destruct (sh_priorityBands s !! p) as [b|] eqn:Hb; [|done]. simpl.
    apply elem_of_dom_2, Hdom, elem_of_dom in Hb as [c ->]. done. }
  revert Hl Hq. set (m := map_imap _ _). intros Hl Hq.
  assert (Hd : forall p, is_Some (m !! p) <-> is_Some (sh_priorityBands s !! p)).
  { intros p. specialize (Hq p). destruct (m !! p), (sh_priorityBands s !! p); simplify_eq/=; split; eauto. }
  eexists. split; [reflexivity|]. split_and!; simpl; try done.
  - eapply shard_ok_admin; [exact Hok|simpl..|]; try done; try apply Hok.
    + intros p b' Hb'. rewrite Hl in Hb'. destruct (sh_priorityBands s !! p) as [b|] eqn:Hb; [|done].
      simpl in Hb'. destruct (sc_PriorityBands newConfig !! p) as [c|] eqn:Hc; [|done].
      simpl in Hb'. injection Hb' as <-. destruct (so_bands _ _ Hok _ _ Hb) as [? ? ?].
      split; [by apply (Hwf p c)|done|done].
    + intros p. rewrite Hd. apply Hok.
    + symmetry. by apply shard_items_queues.
  - split; [symmetry; by apply shard_items_queues|]. intros p. unfold items_at. simpl. specialize (Hq p).
    destruct (m !! p), (sh_priorityBands s !! p); simplify_eq/=; [|done]. by rewrite (band_items_queues p1).
  - apply set_eq. intros p. rewrite !elem_of_dom. apply Hd.
  - intros key. unfold queue_at. simpl. specialize (Hq (Priority key)).
    destruct (m !! Priority key), (sh_priorityBands s !! Priority key); simplify_eq/=; [|done].
    by rewrite Hq.
Qed.

(** ** A call on a queue, seen from the registry *)

Section queue_op_ok.
Context {A : Type} (f : Store -> queue_t -> option (A * Store * queue_t * list stats_delta)).

Lemma queue_op_ok key σ s mq a σ' mq' ds new :
  shard_ok σ s -> queue_at key s = Some mq ->
  f σ mq = Some (a, σ', mq', ds) -> effect new σ mq σ' mq' ds ->
  NoDup (itemRef <$> new ++ shard_items s) ->
  exists s' rest brest, queue_op key f σ s = Some (a, σ', s', ds) /\ shard_ok σ' s' /\
    sh_id s' = sh_id s /\ sh_config s' = sh_config s /\ sh_isDraining s' = sh_isDraining s /\
    dom (sh_priorityBands s') = dom (sh_priorityBands s) /\
    (forall k, queue_at k s' = if decide (k = key) then Some mq' else queue_at k s) /\
    shard_items s ≡ₚ mq_items mq ++ rest /\ shard_items s' ≡ₚ mq_items mq' ++ rest /\
    items_at (Priority key) s ≡ₚ mq_items mq ++ brest /\
    items_at (Priority key) s' ≡ₚ mq_items mq' ++ brest /\
    (forall p, p <> Priority key -> items_at p s' = items_at p s).
Proof.
  intros Hok Hq Hf Hef Hnd. unfold queue_at in Hq.
  destruct (sh_priorityBands s !! Priority key) as [b|] eqn:Hb; [|done]. cbn [mbind option_bind] in Hq.
  destruct (queue_op_spec f key σ s b mq a σ' mq' ds new)
    as (s' & rest & Hrun & Hok' & _ & Hid & Hc & Hdr & _ & Hd & Hi & Hi'); [done..|].
  rewrite (queue_op_run f key σ s b mq a σ' mq' ds new) in Hrun by done. injection Hrun as <-.
  destruct (band_items_update b (ID key) mq mq' Hq) as (brest & Hbi & Hbi').
  eexists _, rest, brest. rewrite (queue_op_run f key σ s b mq a σ' mq' ds new) by done.
  split; [reflexivity|]. split_and!; try done.
  - intros k. erewrite (queue_at_band_update s _ (Priority key) b _ k Hb) by reflexivity.
    unfold queue_at. cbn [band_queues]. destruct (decide (k = key)) as [->|Hk].
    + rewrite decide_True by done. apply lookup_insert_eq.
    + case_decide as Hp; [|done]. rewrite Hp, Hb. cbn [mbind option_bind]. apply lookup_insert_ne.
      intros Hid'. by apply Hk, FlowKey_eq.
  - unfold items_at. by rewrite Hb.
  - unfold items_at. cbn [sh_priorityBands]. rewrite lookup_insert_eq. exact Hbi'.
  - intros p Hp. unfold items_at. cbn [sh_priorityBands]. by rewrite lookup_insert_ne.
Qed.
End queue_op_ok.

(** What happens elsewhere in the store does not concern a shard. *)
Lemma shard_ok_frames xs σ σ' s :
  shard_ok σ s -> frames xs σ σ' ->
  (forall x y, x ∈ xs -> y ∈ shard_items s -> itemRef x <> itemRef y) -> shard_ok σ' s.
Proof.
  intros Hok Hfr Hne. split; try apply Hok. intros p b Hb.
  destruct (so_bands _ _ Hok _ _ Hb) as [Hp Hq Hc]. split; [done| |done].
  intros id mq Hid. destruct (Hq _ _ Hid) as [Hk Hmq]. split; [done|].
  eapply mq_ok_frames; [done|exact Hfr|]. intros x y Hx Hy. apply Hne; [done|].
  apply elem_of_map_bind. exists p, b. split; [done|]. apply elem_of_map_bind. by exists id, mq.
Qed.

Lemma frames_new_item req ttl enq σ it σ1 :
  NewItem req ttl enq σ = (it, σ1) -> frames [] σ σ1.
Proof.
  intros [= <- <-] y Hy _. split; [|done]. destruct Hy as (h & c & Hh & _).
  unfold Handle in *. simpl. rewrite lookup_insert_ne; [done|]. intros Heq.
  pose proof (is_fresh (dom (istates σ))) as Hf. apply not_elem_of_dom in Hf. by rewrite Heq, Hf in Hh || rewrite <- Heq, Hf in Hh.
Qed.

(** Every queued item has a live handle. *)
Lemma shard_item_holds σ s x : shard_ok σ s -> x ∈ shard_items s -> holds σ x.
Proof.
  intros Hok (p & b & Hb & Hx)%elem_of_map_bind. apply elem_of_map_bind in Hx as (id & mq & Hid & Hx).
  destruct (bwf_queues _ _ _ (so_bands _ _ Hok _ _ Hb) _ _ Hid) as [_ (Hinv & _)]. by eapply law_handle.
Qed.

Lemma queue_at_items σ s key mq :
  shard_ok σ s -> queue_at key s = Some mq -> mq_ok σ mq /\ mq_key mq = key /\
    forall x, x ∈ mq_items mq -> x ∈ shard_items s.
Proof.
  unfold queue_at. intros Hok Hq. destruct (sh_priorityBands s !! Priority key) as [b|] eqn:Hb; [|done].
  cbn [mbind option_bind] in Hq. destruct (bwf_queues _ _ _ (so_bands _ _ Hok _ _ Hb) _ _ Hq) as [Hk ?].
  split_and!; [done|rewrite Hk; by destruct key|]. intros x Hx.
  apply elem_of_map_bind. exists (Priority key), b. split; [done|]. apply elem_of_map_bind. by exists (ID key), mq.
Qed.

Lemma items_at_shard p s x : x ∈ items_at p s -> x ∈ shard_items s.
Proof.
  unfold items_at. destruct (sh_priorityBands s !! p) as [b|] eqn:Hb; [|by intros ?%elem_of_nil].
  intros Hx. apply elem_of_map_bind. eauto.
Qed.
