(* ===== verification/Registry.v ===== *)
(** The flow registry: pkg/epp/flowcontrol/registry/registry.go and
    connection.go.

    A shard is shared between the active list, the draining map and the cached
    list of all shards, so shards live in a heap and the three collections
    hold pointers into it.  Each administrative method runs under the
    registry's mutex and is one step.  [WithConnection] is split at the
    callback: [connect] is everything before it, [release] the deferred unpin,
    so that sessions can overlap with each other, with the garbage collector
    and with scaling.  The protocol of a single lease under full interleaving
    is in Leasing.  [None] is a run-time panic. *)

From stdpp Require Import pretty.
From Stdlib Require Import Ascii.
From S2P Require Import Prelude FlowTypes ItemProps SafeQueue ListQueue Ordering Fairness.
From S2P Require Import MaxMinHeap MaxMinHeapSpec QueueFactory ManagedQueue RegistryConfig Leasing Shard.

Record bandStats := mkAggStats { agg_byteSize : Z; agg_len : Z }.

(** [initialized] and [initErr]: the once-only provisioning and its result. *)
Record flowState := mkFlowState {
  fs_lease : leasedState;
  fs_initialized : bool;
  fs_initErr : option error
}.

Record FlowRegistry := mkRegistry {
  fr_config : Config;
  fr_flowStates : gmap FlowKey flowState;
  fr_priorityBandStates : gmap Z leasedState;
  fr_totalByteSize : Z;
  fr_totalLen : Z;
  fr_perPriorityBandStats : gmap Z bandStats;
  fr_heap : list registryShard;
  fr_activeShards : list nat;
  fr_drainingShards : gmap string nat;
  fr_allShards : list nat;
  fr_nextShardID : Z;
  fr_nextQueue : positive  (* the address of the next queue object *)
}.

Definition set_config (c : Config) (fr : FlowRegistry) : FlowRegistry :=
  mkRegistry c (fr_flowStates fr) (fr_priorityBandStates fr) (fr_totalByteSize fr) (fr_totalLen fr)
    (fr_perPriorityBandStats fr) (fr_heap fr) (fr_activeShards fr) (fr_drainingShards fr)
    (fr_allShards fr) (fr_nextShardID fr) (fr_nextQueue fr).
Definition set_flowStates (m : gmap FlowKey flowState) (fr : FlowRegistry) : FlowRegistry :=
  mkRegistry (fr_config fr) m (fr_priorityBandStates fr) (fr_totalByteSize fr) (fr_totalLen fr)
    (fr_perPriorityBandStats fr) (fr_heap fr) (fr_activeShards fr) (fr_drainingShards fr)
    (fr_allShards fr) (fr_nextShardID fr) (fr_nextQueue fr).
Definition set_bandStates (m : gmap Z leasedState) (fr : FlowRegistry) : FlowRegistry :=
  mkRegistry (fr_config fr) (fr_flowStates fr) m (fr_totalByteSize fr) (fr_totalLen fr)
    (fr_perPriorityBandStats fr) (fr_heap fr) (fr_activeShards fr) (fr_drainingShards fr)
    (fr_allShards fr) (fr_nextShardID fr) (fr_nextQueue fr).
Definition set_bandStats (m : gmap Z bandStats) (fr : FlowRegistry) : FlowRegistry :=
  mkRegistry (fr_config fr) (fr_flowStates fr) (fr_priorityBandStates fr) (fr_totalByteSize fr)
    (fr_totalLen fr) m (fr_heap fr) (fr_activeShards fr) (fr_drainingShards fr)
    (fr_allShards fr) (fr_nextShardID fr) (fr_nextQueue fr).
Definition set_heap (h : list registryShard) (fr : FlowRegistry) : FlowRegistry :=
  mkRegistry (fr_config fr) (fr_flowStates fr) (fr_priorityBandStates fr) (fr_totalByteSize fr)
    (fr_totalLen fr) (fr_perPriorityBandStats fr) h (fr_activeShards fr) (fr_drainingShards fr)
    (fr_allShards fr) (fr_nextShardID fr) (fr_nextQueue fr).
Definition set_topology (active : list nat) (draining : gmap string nat) (all : list nat)
    (fr : FlowRegistry) : FlowRegistry :=
  mkRegistry (fr_config fr) (fr_flowStates fr) (fr_priorityBandStates fr) (fr_totalByteSize fr)
    (fr_totalLen fr) (fr_perPriorityBandStats fr) (fr_heap fr) active draining all
    (fr_nextShardID fr) (fr_nextQueue fr).
Definition set_next (id : Z) (q : positive) (fr : FlowRegistry) : FlowRegistry :=
  mkRegistry (fr_config fr) (fr_flowStates fr) (fr_priorityBandStates fr) (fr_totalByteSize fr)
    (fr_totalLen fr) (fr_perPriorityBandStats fr) (fr_heap fr) (fr_activeShards fr)
    (fr_drainingShards fr) (fr_allShards fr) id q.

(** A loop over shards by pointer; [f] gets the index in the slice. *)
Definition on_shards (ptrs : list nat) (f : nat -> registryShard -> option registryShard)
    (h : list registryShard) : option (list registryShard) :=
  ofold (fun h e => s ← h !! e.2; s' ← f e.1 s; Some (<[e.2 := s']> h)) (imap pair ptrs) h.

(** [fmt.Sprintf("shard-%04d", n)] *)
Fixpoint zeros (k : nat) : string :=
  match k with O => EmptyString | S k => String "0"%char (zeros k) end.
Definition shardID (n : Z) : string :=
  let d := pretty (Z.to_N n) in ("shard-" +:+ zeros (4 - String.length d) +:+ d)%string.

(** The iteration order of a Go map or a sync.Map. *)
Section registry.
Variable range : forall (K V : Type) (E : EqDecision K) (C : Countable K), gmap K V -> list (K * V).
Arguments range {K V E C} _.

(** ** Topology *)

Definition shard_id_le (h : list registryShard) (a b : nat) : Prop :=
  strings_Compare (default EmptyString (sh_id <$> h !! a)) (default EmptyString (sh_id <$> h !! b)) <= 0.

Global Instance shard_id_le_dec h : RelDecision (shard_id_le h).
Proof. intros a b. unfold shard_id_le. apply _. Defined.

Definition updateAllShardsCacheLocked (fr : FlowRegistry) : FlowRegistry :=
  let allShards := fr_activeShards fr ++ (snd <$> range (fr_drainingShards fr)) in
  set_topology (fr_activeShards fr) (fr_drainingShards fr)
    (merge_sort (shard_id_le (fr_heap fr)) allShards) fr.

Definition repartitionShardConfigsLocked (fr : FlowRegistry) : option FlowRegistry :=
  let numActive := Z.of_nat (length (fr_activeShards fr)) in
  h ← on_shards (fr_activeShards fr)
        (fun i s => updateConfig (partition range (Z.of_nat i) numActive (fr_config fr)) s)
        (fr_heap fr);
  Some (set_heap h fr).

Fixpoint build_components (bandConfig : PriorityBandConfig) (policy : OrderingPolicy) (n : nat)
    (next : positive) : list (OrderingPolicy * AnyQueue) + error :=
  match n with
  | O => inl []
  | S n =>
      match NewQueueFromName next (pb_Queue bandConfig) (on_items (op_Less policy)) with
      | inr err => inr (Wrap "failed to instantiate queue %q for flow %s: %w" [err])
      | inl q => rest <-? build_components bandConfig policy n (Pos.succ next);
                 inl ((policy, q) :: rest)
      end
  end.

(** Each instance is a new queue object.  A band without an ordering policy
    does not pass validation; the nil policy is a panic here. *)
Definition buildFlowComponents (key : FlowKey) (numInstances : nat) (fr : FlowRegistry)
  : option ((list (OrderingPolicy * AnyQueue) * FlowRegistry) + error) :=
  match PriorityBands (fr_config fr) !! Priority key with
  | None => Some (inr (Wrap "priority band %d not found: %w" [Sentinel ErrPriorityBandNotFound]))
  | Some bandConfig =>
      policy ← pb_OrderingPolicy bandConfig;
      match build_components bandConfig policy numInstances (fr_nextQueue fr) with
      | inr err => Some (inr err)
      | inl cs => Some (inl (cs, set_next (fr_nextShardID fr)
                                   (fr_nextQueue fr + Pos.of_succ_nat numInstances)%positive fr))
      end
  end.

(** ** Provisioning *)

Definition ensurePriorityBand (priority : Z) (fr : FlowRegistry) : option FlowRegistry :=
  match PriorityBands (fr_config fr) !! priority with
  | Some _ => Some fr
  | None =>
      template ← DefaultPriorityBand (fr_config fr);
      let newBand := set_priority priority template in
      let fr := set_config (set_bands (<[priority := newBand]> (PriorityBands (fr_config fr)))
                              (fr_config fr)) fr in
      let fr := match fr_perPriorityBandStats fr !! priority with
                | Some _ => fr
                | None => set_bandStats (<[priority := mkAggStats 0 0]> (fr_perPriorityBandStats fr)) fr
                end in
      let fr := match fr_priorityBandStates fr !! priority with
                | Some _ => fr
                | None => set_bandStates (<[priority := newLeased]> (fr_priorityBandStates fr)) fr
                end in
      fr ← repartitionShardConfigsLocked fr;
      h ← on_shards (fr_activeShards fr) (fun _ s => addPriorityBand priority s) (fr_heap fr);
      Some (set_heap h fr)
  end.

Definition synchronize_all (key : FlowKey) (components : list (OrderingPolicy * AnyQueue))
    (ptrs : list nat) (h : list registryShard) : option (list registryShard) :=
  on_shards ptrs (fun i s => c ← components !! i; synchronizeFlow key c.1 c.2 s) h.

Definition ensureFlowInfrastructure (key : FlowKey) (fr : FlowRegistry)
  : option (option error * FlowRegistry) :=
  fr ← match PriorityBands (fr_config fr) !! Priority key with
       | Some _ => Some fr
       | None => ensurePriorityBand (Priority key) fr
       end;
  r ← buildFlowComponents key (length (fr_allShards fr)) fr;
  match r with
  | inr err => Some (Some err, fr)
  | inl (components, fr) =>
      h ← synchronize_all key components (fr_allShards fr) (fr_heap fr);
      Some (None, set_heap h fr)
  end.

(** ** Sessions *)

(** [pinLeasedResource] without interference: the second component says
    whether the entry is new.  A marked entry would make it wait. *)
Definition pin_lease {K V} `{Countable K} (lease : V -> leasedState) (with_lease : leasedState -> V -> V)
    (new : V) (key : K) (m : gmap K V) : option (gmap K V * bool) :=
  let '(v, isNew) := match m !! key with Some v => (v, false) | None => (new, true) end in
  match tryPin (lease v) with
  | (true, ls) => Some (<[key := with_lease ls v]> m, isNew)
  | (false, _) => None
  end.

Definition set_lease (ls : leasedState) (v : flowState) : flowState :=
  mkFlowState ls (fs_initialized v) (fs_initErr v).

Definition unpin_band (priority now : Z) (fr : FlowRegistry) : FlowRegistry :=
  match fr_priorityBandStates fr !! priority with
  | Some b => set_bandStates (<[priority := unpin now b]> (fr_priorityBandStates fr)) fr
  | None => fr
  end.

(** [WithConnection] before the callback, run through without interference;
    the second component is the error it returns.  The code takes the two
    leases, initializes the flow once and provisions it in several critical
    sections; how the leases interleave with a collector is [Leasing.step]. *)
Definition connect (key : FlowKey) (now : Z) (fr : FlowRegistry) : option (FlowRegistry * option error) :=
  if bool_decide (ID key = EmptyString) then Some (fr, Some (Sentinel ErrFlowIDEmpty))
  else
    '(flows, isNewFlow) ← pin_lease fs_lease set_lease (mkFlowState newLeased false None) key (fr_flowStates fr);
    let fr := set_flowStates flows fr in
    fr ← (if isNewFlow : bool
          then '(bands, _) ← pin_lease id (fun ls _ => ls) newLeased (Priority key) (fr_priorityBandStates fr);
               Some (set_bandStates bands fr)
          else Some fr);
    state ← fr_flowStates fr !! key;
    '(state, fr) ← (if fs_initialized state then Some (state, fr)
                    else '(initErr, fr) ← ensureFlowInfrastructure key fr;
                         let state := mkFlowState (fs_lease state) true initErr in
                         Some (state, set_flowStates (<[key := state]> (fr_flowStates fr)) fr));
    match fs_initErr state with
    | Some err =>
        (* the deferred unpin concerns an object that is in no map any more *)
        let fr := set_flowStates (delete key (fr_flowStates fr)) fr in
        let fr := if isNewFlow : bool then unpin_band (Priority key) now fr else fr in
        Some (fr, Some (Wrap "failed to provision JIT flow resources: %w" [err]))
    | None => Some (fr, None)
    end.

(** The deferred unpin; [now] was read when the session began. *)
Definition release (key : FlowKey) (now : Z) (fr : FlowRegistry) : FlowRegistry :=
  match fr_flowStates fr !! key with
  | Some state =>
      set_flowStates (<[key := set_lease (unpin now (fs_lease state)) state]> (fr_flowStates fr)) fr
  | None => fr
  end.

(** The callback [fn] sees the registry and may change it, as everything else
    that runs meanwhile may. *)
Definition WithConnection (key : FlowKey) (now : Z)
    (fn : FlowRegistry -> option (FlowRegistry * option error)) (fr : FlowRegistry)
  : option (FlowRegistry * option error) :=
  '(fr, err) ← connect key now fr;
  match err with
  | Some err => Some (fr, Some err)
  | None => '(fr, err) ← fn fr; Some (release key now fr, err)
  end.

Definition ActiveShards (fr : FlowRegistry) : list nat := fr_activeShards fr.

(** ** Statistics *)

Definition reg_propagateStatsDelta (d : stats_delta) (fr : FlowRegistry) : option FlowRegistry :=
  let '(priority, lenDelta, byteSizeDelta) := d in
  stats ← fr_perPriorityBandStats fr !! priority;
  let stats' := mkAggStats (i64 (agg_byteSize stats + byteSizeDelta)) (i64 (agg_len stats + lenDelta)) in
  Some (mkRegistry (fr_config fr) (fr_flowStates fr) (fr_priorityBandStates fr)
          (i64 (fr_totalByteSize fr + byteSizeDelta)) (i64 (fr_totalLen fr + lenDelta))
          (<[priority := stats']> (fr_perPriorityBandStats fr)) (fr_heap fr) (fr_activeShards fr)
          (fr_drainingShards fr) (fr_allShards fr) (fr_nextShardID fr) (fr_nextQueue fr)).

(** A call on a queue of a shard, with the whole propagation
    queue -> band -> shard -> registry. *)
Definition reg_queue_op {A} (ptr : nat) (key : FlowKey)
    (f : Store -> managedQueue AnyQueue -> option (A * Store * managedQueue AnyQueue * list stats_delta))
    (σ : Store) (fr : FlowRegistry) : option (A * Store * FlowRegistry) :=
  s ← fr_heap fr !! ptr;
  '(a, σ', s', ds) ← queue_op key f σ s;
  fr' ← ofold (fun fr d => reg_propagateStatsDelta d fr) ds (set_heap (<[ptr := s']> (fr_heap fr)) fr);
  Some (a, σ', fr').

Record AggregateStats := mkAggregateStats {
  as_TotalCapacityBytes : Z;
  as_TotalCapacityRequests : Z;
  as_TotalByteSize : Z;
  as_TotalLen : Z;
  as_PerPriorityBandStats : gmap Z PriorityBandStats
}.

(** The dereference of a missing band configuration panics. *)
Definition Stats (fr : FlowRegistry) : option AggregateStats :=
  if decide (map_Forall (fun priority _ => is_Some (PriorityBands (fr_config fr) !! priority))
               (fr_perPriorityBandStats fr))
  then Some (mkAggregateStats (MaxBytes (fr_config fr)) (MaxRequests (fr_config fr))
               (u64 (fr_totalByteSize fr)) (u64 (fr_totalLen fr))
               (map_imap (fun priority stats =>
                  bandCfg ← PriorityBands (fr_config fr) !! priority;
                  Some (mkBandStats priority (pb_MaxBytes bandCfg) (pb_MaxRequests bandCfg)
                          (u64 (agg_byteSize stats)) (u64 (agg_len stats))))
                  (fr_perPriorityBandStats fr)))
  else None.

Definition reg_ShardStats (fr : FlowRegistry) : option (list ShardStats) :=
  mapM (fun ptr => shard_Stats <$> fr_heap fr !! ptr) (fr_allShards fr).

(** ** Garbage collection *)

(** [collectLeasedResources] without interference. *)
Definition collect_step {K V} `{Countable K} (lease : V -> leasedState) (with_lease : leasedState -> V -> V)
    (timeout now : Z) (acc : list K * gmap K V) (e : K * V) : list K * gmap K V :=
  match checkAndMarkForDeletion timeout now (lease e.2) with
  | (true, _) => (acc.1 ++ [e.1], delete e.1 acc.2)
  | (false, ls) => (acc.1, <[e.1 := with_lease ls e.2]> acc.2)
  end.

Definition collect {K V} `{Countable K} (lease : V -> leasedState) (with_lease : leasedState -> V -> V)
    (timeout now : Z) (m : gmap K V) : list K * gmap K V :=
  fold_left (collect_step lease with_lease timeout now) (range m) ([], m).

Definition cleanupFlowResources (keys : list FlowKey) (fr : FlowRegistry) : option FlowRegistry :=
  ofold (fun fr key =>
    match fr_flowStates fr !! key with
    | Some _ => Some fr
    | None => h ← on_shards (fr_allShards fr) (fun _ s => Some (deleteFlow key s)) (fr_heap fr);
              Some (set_heap h fr)
    end) keys fr.

Definition gcFlows (now : Z) (fr : FlowRegistry) : option FlowRegistry :=
  let '(deletedFlows, flows) := collect fs_lease set_lease (FlowGCTimeout (fr_config fr)) now (fr_flowStates fr) in
  let fr := set_flowStates flows fr in
  let fr := fold_left (fun fr key => unpin_band (Priority key) now fr) deletedFlows fr in
  cleanupFlowResources deletedFlows fr.

Definition cleanupPriorityBandResources (priorities : list Z) (fr : FlowRegistry) : option FlowRegistry :=
  ofold (fun fr priority =>
    match fr_priorityBandStates fr !! priority with
    | Some _ => Some fr
    | None =>
        let fr := set_config (set_bands (delete priority (PriorityBands (fr_config fr))) (fr_config fr)) fr in
        let fr := set_bandStats (delete priority (fr_perPriorityBandStats fr)) fr in
        h ← on_shards (fr_allShards fr) (fun _ s => Some (deletePriorityBand priority s)) (fr_heap fr);
        Some (set_heap h fr)
    end) priorities fr.

Definition gcPriorityBands (now : Z) (fr : FlowRegistry) : option FlowRegistry :=
  let '(deletedBands, bands) :=
    collect id (fun ls _ => ls) (PriorityBandGCTimeout (fr_config fr)) now (fr_priorityBandStates fr) in
  cleanupPriorityBandResources deletedBands (set_bandStates bands fr).

Definition reg_deletePriorityBand (priority : Z) (fr : FlowRegistry) : option FlowRegistry :=
  cleanupPriorityBandResources [priority]
    (set_bandStates (delete priority (fr_priorityBandStates fr)) fr).

Definition drained (h : list registryShard) (ptr : nat) : bool :=
  match h !! ptr with Some s => sh_totalLen s =? 0 | None => false end.

Definition sweepDrainingShards (fr : FlowRegistry) : FlowRegistry :=
  let shardsToDelete := fst <$> List.filter (fun e => drained (fr_heap fr) e.2) (range (fr_drainingShards fr)) in
  match shardsToDelete with
  | [] => fr
  | _ => updateAllShardsCacheLocked
           (set_topology (fr_activeShards fr)
              (fold_left (fun m id => delete id m) shardsToDelete (fr_drainingShards fr))
              (fr_allShards fr) fr)
  end.

(** The code collects flows and bands in critical sections of their own, and
    does not lock the registry between its three parts. *)
Definition executeGCCycle (now : Z) (fr : FlowRegistry) : option FlowRegistry :=
  fr ← gcFlows now fr;
  fr ← gcPriorityBands now fr;
  Some (sweepDrainingShards fr).

(** ** Scaling *)

(** The components of every flow, for every new shard. *)
Fixpoint prepare_components (keys : list FlowKey) (n : nat) (fr : FlowRegistry)
    (acc : gmap FlowKey (list (OrderingPolicy * AnyQueue)))
  : option ((gmap FlowKey (list (OrderingPolicy * AnyQueue)) * FlowRegistry) + error) :=
  match keys with
  | [] => Some (inl (acc, fr))
  | key :: keys =>
      r ← buildFlowComponents key n fr;
      match r with
      | inr err => Some (inr (Wrap "failed to prepare components for flow %s on new shards: %w" [err]))
      | inl (components, fr) => prepare_components keys n fr (<[key := components]> acc)
      end
  end.

Definition new_shards (currentActive numToAdd : nat) (fr : FlowRegistry) : option (list registryShard) :=
  mapM (fun i => newShard range (shardID (u64 (fr_nextShardID fr + Z.of_nat i)))
                   (partition range (Z.of_nat (currentActive + i)) (Z.of_nat (currentActive + numToAdd))
                      (fr_config fr)))
    (seq 0 numToAdd).

Definition populate (components : gmap FlowKey (list (OrderingPolicy * AnyQueue)))
    (e : nat * registryShard) : option registryShard :=
  ofold (fun s kc => c ← kc.2 !! e.1; synchronizeFlow kc.1 c.1 c.2 s) (range components) e.2.

Definition executeScaleUpLocked (newTotalActive : nat) (fr : FlowRegistry)
  : option (FlowRegistry * option error) :=
  let currentActive := length (fr_activeShards fr) in
  let numToAdd := (newTotalActive - currentActive)%nat in
  newShards ← new_shards currentActive numToAdd fr;
  r ← prepare_components (fst <$> range (fr_flowStates fr)) numToAdd fr ∅;
  match r with
  | inr err => Some (fr, Some err)
  | inl (allComponents, fr) =>
      newShards ← mapM (populate allComponents) (imap pair newShards);
      let ptrs := seq (length (fr_heap fr)) numToAdd in
      let fr := set_heap (fr_heap fr ++ newShards) fr in
      let fr := set_topology (fr_activeShards fr ++ ptrs) (fr_drainingShards fr) (fr_allShards fr) fr in
      let fr := set_next (u64 (fr_nextShardID fr + Z.of_nat numToAdd)) (fr_nextQueue fr) fr in
      fr ← repartitionShardConfigsLocked fr;
      Some (updateAllShardsCacheLocked fr, None)
  end.

Definition executeScaleDownLocked (newTotalActive : nat) (fr : FlowRegistry) : option FlowRegistry :=
  let shardsToDrain := drop newTotalActive (fr_activeShards fr) in
  draining ← ofold (fun m ptr => s ← fr_heap fr !! ptr; Some (<[sh_id s := ptr]> m)) shardsToDrain
               (fr_drainingShards fr);
  h ← on_shards shardsToDrain (fun _ s => Some (markAsDraining s)) (fr_heap fr);
  let fr := set_topology (take newTotalActive (fr_activeShards fr)) draining (fr_allShards fr) (set_heap h fr) in
  fr ← repartitionShardConfigsLocked fr;
  Some (updateAllShardsCacheLocked fr).

Definition updateShardCount (n : Z) (fr : FlowRegistry) : option (FlowRegistry * option error) :=
  if n <=? 0
  then Some (fr, Some (Wrap "%w: shard count must be a positive integer, but got %d" [Sentinel ErrInvalidShardCount]))
  else
    let currentActiveShards := Z.of_nat (length (fr_activeShards fr)) in
    if n =? currentActiveShards then Some (fr, None)
    else if currentActiveShards <? n then executeScaleUpLocked (Z.to_nat n) fr
    else fr ← executeScaleDownLocked (Z.to_nat n) fr; Some (fr, None).

(** ** Construction *)

Definition NewFlowRegistry (config : Config) : option (FlowRegistry + error) :=
  let fr := mkRegistry config ∅ ∅ 0 0 ((fun _ => mkAggStats 0 0) <$> PriorityBands config) [] [] ∅ [] 0 1 in
  '(fr, err) ← updateShardCount (InitialShardCount config) fr;
  match err with
  | Some err => Some (inr (Wrap "failed to initialize shards: %w" [err]))
  | None => Some (inl fr)
  end.
End registry.
