(* ===== verification/RegistrySpec.v ===== *)
(** The invariant of the registry and what each of its operations does to it.

    [reg_ok] ties the counters of the registry to the items in the queues of
    its shards, the shards to the configuration, the queues to the flows, and
    the leases of a band to the flows of the band. *)

From stdpp Require Import pretty.
From Stdlib Require Import Ascii.
From S2P Require Import Prelude FlowTypes ItemProps SafeQueue ListQueue Ordering Fairness.
From S2P Require Import MaxMinHeap MaxMinHeapSpec QueueFactory ManagedQueue RegistryConfig Leasing Shard.
From S2P Require Import ShardSpec Registry.

(** * Loops over shards *)

Lemma on_shards_gen (f : nat -> registryShard -> option registryShard)
    (Q : nat -> registryShard -> registryShard -> Prop) ptrs : forall (g : nat -> nat) h,
  NoDup ptrs ->
  (forall i ptr, ptrs !! i = Some ptr -> exists s s', h !! ptr = Some s /\ f (g i) s = Some s' /\ Q (g i) s s') ->
  exists h', ofold (fun h e => s ← h !! e.2; s' ← f e.1 s; Some (<[e.2 := s']> h))
               (imap (fun i x => (g i, x)) ptrs) h = Some h' /\
    length h' = length h /\ (forall ptr, ptr ∉ ptrs -> h' !! ptr = h !! ptr) /\
    (forall i ptr, ptrs !! i = Some ptr ->
       exists s s', h !! ptr = Some s /\ h' !! ptr = Some s' /\ Q (g i) s s').
Proof.
  induction ptrs as [|p ptrs IH]; intros g h Hnd Hf; cbn [imap ofold].
  { exists h. split_and!; try done. }
  apply NoDup_cons in Hnd as [Hp Hnd]. destruct (Hf 0%nat p eq_refl) as (s & s' & Hs & Hfs & HQ).
  cbn [fst snd mbind option_bind]. rewrite Hs. cbn [mbind option_bind]. rewrite Hfs. cbn [mbind option_bind].
  destruct (IH (g ∘ S) (<[p := s']> h) Hnd) as (h' & Hrun & Hlen & Hout & Hin).
  { intros i ptr Hi. destruct (Hf (S i) ptr Hi) as (s1 & s1' & Hs1 & ?). exists s1, s1'. split_and!; try apply H.
    rewrite list_lookup_insert_ne; [done|]. intros <-. by apply Hp, (list_elem_of_lookup_2 _ i). }
  exists h'. split_and!; [exact Hrun|by rewrite Hlen, length_insert| |].
  - intros ptr Hn. rewrite Hout by set_solver. apply list_lookup_insert_ne. set_solver.
  - intros [|i] ptr Hi; simpl in Hi.
    + simplify_eq. exists s, s'. split_and!; [done| |done]. rewrite Hout by done.
      apply list_lookup_insert_eq. by eapply lookup_lt_Some.
    + destruct (Hin i ptr Hi) as (s1 & s1' & Hs1 & ? & ?). exists s1, s1'. split_and!; try done.
      rewrite list_lookup_insert_ne in Hs1; [done|]. intros <-. by apply Hp, (list_elem_of_lookup_2 _ i).
Qed.

Lemma on_shards_spec f (Q : nat -> registryShard -> registryShard -> Prop) ptrs h :
  NoDup ptrs ->
  (forall i ptr, ptrs !! i = Some ptr -> exists s s', h !! ptr = Some s /\ f i s = Some s' /\ Q i s s') ->
  exists h', on_shards ptrs f h = Some h' /\ length h' = length h /\
    (forall ptr, ptr ∉ ptrs -> h' !! ptr = h !! ptr) /\
    (forall i ptr, ptrs !! i = Some ptr ->
       exists s s', h !! ptr = Some s /\ h' !! ptr = Some s' /\ Q i s s').
Proof. intros. by apply (on_shards_gen f Q ptrs id h). Qed.

(** A loop panics when its body panics on one of the shards. *)
Lemma on_shards_panics f ptrs h ptr s :
  NoDup ptrs -> ptr ∈ ptrs -> h !! ptr = Some s -> (forall i, f i s = None) -> on_shards ptrs f h = None.
Proof.
  intros Hnd Hin Hs Hf. revert h Hs Hnd Hin.
  assert (Hgen : forall g : nat -> nat, NoDup ptrs -> ptr ∈ ptrs -> forall h : list registryShard, h !! ptr = Some s ->
    ofold (fun h e => s ← h !! e.2; s' ← f e.1 s; Some (<[e.2 := s']> h)) (imap (fun i x => (g i, x)) ptrs) h = None).
  2:{ intros. by apply (Hgen id). }
  induction ptrs as [|q ptrs IH]; intros g Hnd Hin h Hs; [by apply elem_of_nil in Hin|].
  apply NoDup_cons in Hnd as [Hq Hnd]. cbn [imap ofold fst snd].
  destruct (decide (q = ptr)) as [->|Hne]; [by rewrite Hs; cbn [mbind option_bind]; rewrite Hf|].
  destruct (h !! q) as [t|]; cbn [mbind option_bind]; [|done].
  destruct (f (g 0%nat) t) as [t'|]; cbn [mbind option_bind]; [|done].
  apply (IH (g ∘ S) Hnd); [set_solver|]. by rewrite list_lookup_insert_ne.
Qed.

(** * Shard identifiers *)

Fixpoint decimal (acc : N) (s : string) : N :=
  match s with
  | EmptyString => acc
  | String c s => decimal (acc * 10 + (N_of_ascii c - 48)) s
  end.

Lemma decimal_go n : forall s, decimal 0 (pretty_N_go n s) = decimal n s.
Proof.
  induction (N.lt_wf_0 n) as [n _ IH]. intros s. destruct (decide (n = 0%N)) as [->|Hn].
  { by rewrite pretty_N_go_0. }
  rewrite pretty_N_go_step, IH by (try apply N.div_lt; lia). simpl. f_equal.
  assert (Hd : (N_of_ascii (pretty_N_char (n `mod` 10)) - 48 = n `mod` 10)%N).
  { pose proof (N.mod_lt n 10). revert H. generalize (n `mod` 10)%N. intros d Hd.
    assert (Hd' : (d < 10)%N) by lia. clear Hd. destruct d as [|d]; [done|].
    do 10 (destruct d as [d|d|]; try done; try lia). }
  rewrite Hd. pose proof (N.div_mod' n 10). lia.
Qed.

Lemma decimal_pretty n : decimal 0 (pretty n) = n.
Proof.
  unfold pretty, pretty_N. case_decide as Hn; [by subst|]. by rewrite decimal_go.
Qed.

Lemma decimal_zeros k s : decimal 0 (zeros k +:+ s) = decimal 0 s.
Proof. induction k as [|k IH]; simpl; [done|]. exact IH. Qed.

(** Different numbers give different identifiers, however wide they are. *)
Lemma shardID_inj m n : 0 <= m -> 0 <= n -> shardID m = shardID n -> m = n.
Proof.
  intros Hm Hn Heq.
  assert (Hinj : forall x y, ("shard-" +:+ x)%string = ("shard-" +:+ y)%string -> x = y)
    by (intros x y Hxy; by injection Hxy).
  apply Hinj in Heq.
  apply (f_equal (decimal 0)) in Heq. rewrite !decimal_zeros, !decimal_pretty in Heq. lia.
Qed.

(** * Items of several shards *)

Definition gather (F : registryShard -> list Item) (h : list registryShard) (ptrs : list nat) : list Item :=
  ptrs ≫= (fun ptr => from_option F [] (h !! ptr)).

Global Instance gather_perm F h : Proper ((≡ₚ) ==> (≡ₚ)) (gather F h).
Proof. intros l k Hp. unfold gather. by apply bind_Permutation. Qed.

Lemma gather_ext F h h' ptrs :
  (forall ptr, ptr ∈ ptrs -> from_option F [] (h' !! ptr) ≡ₚ from_option F [] (h !! ptr)) ->
  gather F h' ptrs ≡ₚ gather F h ptrs.
Proof.
  unfold gather. induction ptrs as [|p ptrs IH]; intros Hh; [done|]. cbn [mbind list_bind].
  rewrite (Hh p) by set_solver. rewrite IH by set_solver. done.
Qed.

Lemma gather_update F h ptrs ptr s :
  NoDup ptrs -> ptr ∈ ptrs -> h !! ptr = Some s ->
  exists rest, gather F h ptrs ≡ₚ F s ++ rest /\
    forall s', gather F (<[ptr := s']> h) ptrs ≡ₚ F s' ++ rest.
Proof.
  intros Hnd Hin Hs. apply list_elem_of_split in Hin as (l1 & l2 & ->).
  apply NoDup_app in Hnd as (_ & H1 & H2). apply NoDup_cons in H2 as [H2 _].
  exists (gather F h l1 ++ gather F h l2).
  assert (Hgo : forall h' s', h' !! ptr = Some s' -> (forall q, q <> ptr -> h' !! q = h !! q) ->
                gather F h' (l1 ++ ptr :: l2) ≡ₚ F s' ++ gather F h l1 ++ gather F h l2).
  { intros h' s' Hs' Hq. unfold gather at 1. rewrite bind_app. cbn [mbind list_bind].
    rewrite Hs'. cbn [from_option]. fold (gather F h' l1) (gather F h' l2).
    rewrite (gather_ext F h h' l1), (gather_ext F h h' l2); [solve_Permutation| |];
      intros q Hin; rewrite Hq; try done; intros ->; [done|]. by apply (H1 ptr Hin), list_elem_of_here. }
  split; [by apply Hgo|]. intros s'. apply Hgo.
  - apply list_lookup_insert_eq. by eapply lookup_lt_Some.
  - intros q Hq. by apply list_lookup_insert_ne.
Qed.

(** One shard changes from [xs] to [ys]. *)
Lemma gather_counts F h ptrs ptr s s' xs ys rest n bytes dl db :
  NoDup ptrs -> ptr ∈ ptrs -> h !! ptr = Some s -> F s ≡ₚ xs ++ rest -> F s' ≡ₚ ys ++ rest ->
  dl = Z.of_nat (length ys) - Z.of_nat (length xs) ->
  i64 db = i64 (sumZ item_bytes ys - sumZ item_bytes xs) ->
  counts (gather F h ptrs) n bytes ->
  counts (gather F (<[ptr := s']> h) ptrs) (i64 (n + dl)) (i64 (bytes + db)).
Proof.
  intros Hnd Hin Hs Hxs Hys Hdl Hdb Hc.
  destruct (gather_update F h ptrs ptr s Hnd Hin Hs) as (R & HR & HR').
  eapply (counts_perm (ys ++ (rest ++ R))); [by rewrite HR', Hys, app_assoc|].
  eapply counts_change; [|done..]. eapply counts_perm; [|exact Hc]. by rewrite HR, Hxs, app_assoc.
Qed.

Lemma elem_of_gather F h ptrs x :
  x ∈ gather F h ptrs <-> exists ptr s, ptr ∈ ptrs /\ h !! ptr = Some s /\ x ∈ F s.
Proof.
  unfold gather. rewrite list_elem_of_bind. split.
  - intros (ptr & Hx & Hin). destruct (h !! ptr) as [s|] eqn:Hs; [|by apply elem_of_nil in Hx]. eauto.
  - intros (ptr & s & Hin & Hs & Hx). exists ptr. by rewrite Hs.
Qed.

(** * The invariant *)

(** What provisioning needs of a band. *)
Definition band_ready (p : Z) (c : PriorityBandConfig) : Prop :=
  pb_Priority c = p /\ is_Some (pb_FairnessPolicy c) /\ is_Some (pb_OrderingPolicy c) /\
  is_Some (RegisteredQueues !! pb_Queue c).

Definition reg_items (fr : FlowRegistry) : list Item := gather shard_items (fr_heap fr) (fr_allShards fr).
Definition reg_band_items (p : Z) (fr : FlowRegistry) : list Item :=
  gather (items_at p) (fr_heap fr) (fr_allShards fr).

(** The flows of a band, and the leases the band holds. *)
Definition flows_at (p : Z) (m : gmap FlowKey flowState) : Z :=
  sumZ (fun e => if Priority e.1 =? p then 1 else 0) (map_to_list m).
Definition band_leases (p : Z) (m : gmap Z leasedState) : Z := from_option leaseCount 0 (m !! p).

Section invariant.
Variable range : forall (K V : Type) (E : EqDecision K) (C : Countable K), gmap K V -> list (K * V).
Arguments range {K V E C} _.

(** The shards, their identity and their lifecycle. *)
Record topo_ok (fr : FlowRegistry) : Prop := {
  to_nodup : NoDup (fr_allShards fr);
  to_all : fr_allShards fr ≡ₚ fr_activeShards fr ++ (snd <$> map_to_list (fr_drainingShards fr));
  to_heap ptr : ptr ∈ fr_allShards fr -> is_Some (fr_heap fr !! ptr);
  to_next : 0 <= fr_nextShardID fr;
  to_id ptr s : ptr ∈ fr_allShards fr -> fr_heap fr !! ptr = Some s ->
    exists n, sh_id s = shardID n /\ 0 <= n < fr_nextShardID fr;
  to_ids p1 p2 s1 s2 : p1 ∈ fr_allShards fr -> p2 ∈ fr_allShards fr ->
    fr_heap fr !! p1 = Some s1 -> fr_heap fr !! p2 = Some s2 -> sh_id s1 = sh_id s2 -> p1 = p2;
  to_active ptr s : ptr ∈ fr_activeShards fr -> fr_heap fr !! ptr = Some s -> sh_isDraining s = false;
  to_draining id ptr s : fr_drainingShards fr !! id = Some ptr -> fr_heap fr !! ptr = Some s ->
    sh_id s = id /\ sh_isDraining s = true
}.

(** The configuration and its copies in the shards. *)
Record config_wf (fr : FlowRegistry) : Prop := {
  co_bands p c : PriorityBands (fr_config fr) !! p = Some c -> band_ready p c;
  co_default : exists d, DefaultPriorityBand (fr_config fr) = Some d /\ forall p, band_ready p (set_priority p d);
  co_dom ptr s : ptr ∈ fr_allShards fr -> fr_heap fr !! ptr = Some s ->
    dom (sh_priorityBands s) ⊆ dom (PriorityBands (fr_config fr));
  co_active i ptr s : fr_activeShards fr !! i = Some ptr -> fr_heap fr !! ptr = Some s ->
    dom (sh_priorityBands s) = dom (PriorityBands (fr_config fr)) /\
    sh_config s = partition range (Z.of_nat i) (Z.of_nat (length (fr_activeShards fr))) (fr_config fr);
  co_stats : dom (fr_perPriorityBandStats fr) = dom (PriorityBands (fr_config fr))
}.

(** The items and the counters. *)
Record items_ok (σ : Store) (fr : FlowRegistry) : Prop := {
  io_shard ptr s : ptr ∈ fr_allShards fr -> fr_heap fr !! ptr = Some s -> shard_ok σ s;
  io_nodup : NoDup (itemRef <$> reg_items fr);
  io_counts : counts (reg_items fr) (fr_totalLen fr) (fr_totalByteSize fr);
  io_stats p st : fr_perPriorityBandStats fr !! p = Some st ->
    counts (reg_band_items p fr) (agg_len st) (agg_byteSize st)
}.

(** The flows, their queues and the leases. *)
Record flows_ok (fr : FlowRegistry) : Prop := {
  fo_flow k fs : fr_flowStates fr !! k = Some fs ->
    fs_initialized fs = true /\ fs_initErr fs = None /\ markedForDeletion (fs_lease fs) = false /\
    0 <= leaseCount (fs_lease fs) /\ is_Some (PriorityBands (fr_config fr) !! Priority k);
  fo_queue k ptr s : is_Some (fr_flowStates fr !! k) -> ptr ∈ fr_allShards fr -> fr_heap fr !! ptr = Some s ->
    is_Some (queue_at k s);
  fo_queues k ptr s : ptr ∈ fr_allShards fr -> fr_heap fr !! ptr = Some s -> is_Some (queue_at k s) ->
    is_Some (fr_flowStates fr !! k);
  fo_leases p : band_leases p (fr_priorityBandStates fr) = flows_at p (fr_flowStates fr);
  fo_marked p b : fr_priorityBandStates fr !! p = Some b -> markedForDeletion b = false
}.

Record reg_ok (σ : Store) (fr : FlowRegistry) : Prop := {
  ro_topo : topo_ok fr;
  ro_config : config_wf fr;
  ro_items : items_ok σ fr;
  ro_flows : flows_ok fr
}.

(** ** A call on a queue *)

Lemma reg_propagate_all p ds : forall fr st,
  fr_perPriorityBandStats fr !! p = Some st -> Forall (fun d => d.1.1 = p) ds ->
  agg_len st = i64 (agg_len st) -> agg_byteSize st = i64 (agg_byteSize st) ->
  fr_totalLen fr = i64 (fr_totalLen fr) -> fr_totalByteSize fr = i64 (fr_totalByteSize fr) ->
  ofold (fun fr d => reg_propagateStatsDelta d fr) ds fr =
    Some (mkRegistry (fr_config fr) (fr_flowStates fr) (fr_priorityBandStates fr)
            (i64 (fr_totalByteSize fr + delta_bytes ds)) (i64 (fr_totalLen fr + delta_len ds))
            (<[p := mkAggStats (i64 (agg_byteSize st + delta_bytes ds)) (i64 (agg_len st + delta_len ds))]>
               (fr_perPriorityBandStats fr)) (fr_heap fr) (fr_activeShards fr)
            (fr_drainingShards fr) (fr_allShards fr) (fr_nextShardID fr) (fr_nextQueue fr)).
Proof.
  induction ds as [|[[p' dl] db] ds IH]; intros fr st Hst Hf H1 H2 H3 H4.
  - unfold delta_len, delta_bytes. simpl. rewrite !Z.add_0_r, <- H1, <- H2, <- H3, <- H4.
    destruct fr, st. simpl in *. by rewrite insert_id.
  - apply Forall_cons in Hf as [Hp Hf]. simpl in Hp. subst p'. cbn [ofold reg_propagateStatsDelta].
    rewrite Hst. cbn [mbind option_bind]. erewrite IH; [|apply lookup_insert_eq|done|simpl..];
      [|symmetry; apply i64_id, i64_range..].
    simpl. rewrite insert_insert_eq, !i64_add_l. unfold delta_len, delta_bytes. simpl.
    by rewrite !Z.add_assoc.
Qed.

(** ** Transfer

    What an operation does to the shards, one by one. *)

Definition shard_rel (R : nat -> registryShard -> registryShard -> Prop) (fr fr' : FlowRegistry) : Prop :=
  forall ptr, ptr ∈ fr_allShards fr ->
    exists s s', fr_heap fr !! ptr = Some s /\ fr_heap fr' !! ptr = Some s' /\ R ptr s s'.

Definition same_topology (fr fr' : FlowRegistry) : Prop :=
  fr_activeShards fr' = fr_activeShards fr /\ fr_drainingShards fr' = fr_drainingShards fr /\
  fr_allShards fr' = fr_allShards fr /\ fr_nextShardID fr' = fr_nextShardID fr.

Lemma shard_rel_inv R fr fr' ptr s' :
  shard_rel R fr fr' -> ptr ∈ fr_allShards fr -> fr_heap fr' !! ptr = Some s' ->
  exists s, fr_heap fr !! ptr = Some s /\ R ptr s s'.
Proof. intros HR Hp Hs'. destruct (HR ptr Hp) as (s & s1 & Hs & Hs1 & HRs). exists s. by simplify_eq. Qed.

Lemma active_in_all fr ptr : topo_ok fr -> ptr ∈ fr_activeShards fr -> ptr ∈ fr_allShards fr.
Proof. intros Ht Hp. rewrite (to_all _ Ht). set_solver. Qed.

Lemma draining_in_all fr id ptr : topo_ok fr -> fr_drainingShards fr !! id = Some ptr -> ptr ∈ fr_allShards fr.
Proof.
  intros Ht Hp. rewrite (to_all _ Ht), elem_of_app. right.
  apply list_elem_of_fmap. exists (id, ptr). split; [done|]. by apply elem_of_map_to_list.
Qed.

Lemma topo_transfer fr fr' :
  topo_ok fr -> same_topology fr fr' ->
  shard_rel (fun _ s s' => sh_id s' = sh_id s /\ sh_isDraining s' = sh_isDraining s) fr fr' -> topo_ok fr'.
Proof.
  intros Ht (Ha & Hd & Hal & Hne) HR. pose proof Ht as [Hnd Hall Hheap Hn Hid Hids Hact Hdr].
  split; rewrite ?Ha, ?Hd, ?Hal, ?Hne; try done.
  - intros q Hq. destruct (HR q Hq) as (? & ? & _ & -> & _). eauto.
  - intros q t Hq Ht'. destruct (shard_rel_inv _ _ _ _ _ HR Hq Ht') as (t0 & Ht0 & -> & _). by apply (Hid q).
  - intros p1 p2 s1 s2 H1 H2 Hs1 Hs2.
    destruct (shard_rel_inv _ _ _ _ _ HR H1 Hs1) as (t1 & Ht1 & -> & _).
    destruct (shard_rel_inv _ _ _ _ _ HR H2 Hs2) as (t2 & Ht2 & -> & _). by apply Hids.
  - intros q t Hq Ht'.
    destruct (shard_rel_inv _ _ _ _ _ HR (active_in_all _ _ Ht Hq) Ht') as (t0 & Ht0 & _ & ->). by apply (Hact q).
  - intros id q t Hq Ht'.
    destruct (shard_rel_inv _ _ _ _ _ HR (draining_in_all _ _ _ Ht Hq) Ht') as (t0 & Ht0 & -> & ->).
    by apply (Hdr id q).
Qed.

Lemma items_transfer σ fr fr' :
  items_ok σ fr -> fr_allShards fr' = fr_allShards fr ->
  fr_totalLen fr' = fr_totalLen fr -> fr_totalByteSize fr' = fr_totalByteSize fr ->
  shard_rel (fun _ s s' => shard_ok σ s' /\ same_items s s') fr fr' ->
  (forall p st, fr_perPriorityBandStats fr' !! p = Some st ->
     fr_perPriorityBandStats fr !! p = Some st \/ (st = mkAggStats 0 0 /\ reg_band_items p fr = [])) ->
  items_ok σ fr' /\ reg_items fr' ≡ₚ reg_items fr.
Proof.
  intros Hok Hal Hl Hb HR Hst.
  assert (Hi : reg_items fr' ≡ₚ reg_items fr).
  { unfold reg_items. rewrite Hal. apply gather_ext. intros q Hq.
    destruct (HR q Hq) as (s & s' & -> & -> & _ & Hs & _). exact Hs. }
  assert (Hbi : forall p, reg_band_items p fr' ≡ₚ reg_band_items p fr).
  { intros p. unfold reg_band_items. rewrite Hal. apply gather_ext. intros q Hq.
    destruct (HR q Hq) as (s & s' & -> & -> & _ & _ & Hs). exact (Hs p). }
  split; [|done]. split; rewrite ?Hal.
  - intros q s Hq Hs. by destruct (shard_rel_inv _ _ _ _ _ HR Hq Hs) as (? & _ & ? & _).
  - rewrite Hi. apply Hok.
  - rewrite Hl, Hb. eapply counts_perm; [symmetry; exact Hi|apply Hok].
  - intros p st Hp. eapply counts_perm; [symmetry; apply Hbi|]. destruct (Hst p st Hp) as [Hp'|[-> ->]].
    + by apply (io_stats _ _ Hok).
    + done.
Qed.

Lemma flows_transfer fr fr' :
  flows_ok fr -> fr_allShards fr' = fr_allShards fr -> fr_flowStates fr' = fr_flowStates fr ->
  fr_priorityBandStates fr' = fr_priorityBandStates fr ->
  (forall k, is_Some (fr_flowStates fr !! k) -> is_Some (PriorityBands (fr_config fr') !! Priority k)) ->
  shard_rel (fun _ s s' => forall k, is_Some (queue_at k s') <-> is_Some (queue_at k s)) fr fr' ->
  flows_ok fr'.
Proof.
  intros [Hf Hq Hqs Hl Hm] Hal Hfs Hbs Hc HR. split; rewrite ?Hal, ?Hfs, ?Hbs; try done.
  - intros k fs Hk. destruct (Hf k fs Hk) as (? & ? & ? & ? & _). split_and!; try done. apply Hc. eauto.
  - intros k q s Hk Hp Hs. destruct (shard_rel_inv _ _ _ _ _ HR Hp Hs) as (s0 & Hs0 & Hiff).
    apply Hiff. by eapply Hq.
  - intros k q s Hp Hs Hk. destruct (shard_rel_inv _ _ _ _ _ HR Hp Hs) as (s0 & Hs0 & Hiff).
    apply Hiff in Hk. by eapply Hqs.
Qed.

Lemma config_transfer fr fr' :
  config_wf fr -> topo_ok fr -> same_topology fr fr' -> fr_config fr' = fr_config fr ->
  dom (fr_perPriorityBandStats fr') = dom (fr_perPriorityBandStats fr) ->
  shard_rel (fun _ s s' => dom (sh_priorityBands s') = dom (sh_priorityBands s) /\ sh_config s' = sh_config s) fr fr' ->
  config_wf fr'.
Proof.
  intros Hc Ht (Ha & Hd & Hal & Hne) Hcf Hst HR.
  split; rewrite ?Ha, ?Hal, ?Hcf; try apply Hc.
  - intros q s Hq Hs. destruct (shard_rel_inv _ _ _ _ _ HR Hq Hs) as (s0 & Hs0 & -> & _).
    by eapply (co_dom _ Hc).
  - intros i q s Hq Hs.
    assert (Hq' : q ∈ fr_allShards fr) by (by eapply active_in_all, list_elem_of_lookup_2).
    destruct (shard_rel_inv _ _ _ _ _ HR Hq' Hs) as (s0 & Hs0 & -> & ->).
    by eapply (co_active _ Hc).
  - rewrite Hst. apply Hc.
Qed.

(** ** A call on a queue *)

Lemma other_shard_items fr ptr s new xs :
  NoDup (itemRef <$> new ++ reg_items fr) -> NoDup (fr_allShards fr) -> ptr ∈ fr_allShards fr ->
  fr_heap fr !! ptr = Some s -> (forall x, x ∈ xs -> x ∈ shard_items s) ->
  NoDup (itemRef <$> new ++ shard_items s) /\
  forall q t, q ∈ fr_allShards fr -> q <> ptr -> fr_heap fr !! q = Some t ->
    forall x y, x ∈ new ++ xs -> y ∈ shard_items t -> itemRef x <> itemRef y.
Proof.
  intros Hnd Hptrs Hin Hs Hxs.
  destruct (gather_update shard_items (fr_heap fr) (fr_allShards fr) ptr s Hptrs Hin Hs) as (rest & Hi & Hupd).
  unfold reg_items in Hnd. rewrite Hi, app_assoc, fmap_app in Hnd. apply NoDup_app in Hnd as (Hnd & Hdis & _).
  split; [done|]. intros q t Hq Hne Ht x y Hx Hy Heq.
  apply (Hdis (itemRef x)); [apply list_elem_of_fmap_2; set_solver|]. rewrite Heq. apply list_elem_of_fmap_2.
  assert (Hy' : y ∈ gather shard_items (<[ptr := mkShard EmptyString (sh_config s) [] ∅ false 0 0]> (fr_heap fr))
                      (fr_allShards fr)).
  { apply elem_of_gather. exists q, t. split_and!; [done| |done]. by rewrite list_lookup_insert_ne. }
  rewrite Hupd in Hy'. apply elem_of_app in Hy' as [Hy'|Hy']; [by apply elem_of_nil in Hy'|done].
Qed.

Lemma queue_at_band key s mq : queue_at key s = Some mq -> Priority key ∈ dom (sh_priorityBands s).
Proof.
  unfold queue_at. intros Hq. apply elem_of_dom.
  destruct (sh_priorityBands s !! Priority key); [eauto|done].
Qed.

Section queue_call.
Context {A : Type}
  (f : Store -> managedQueue AnyQueue -> option (A * Store * managedQueue AnyQueue * list stats_delta)).

Lemma reg_queue_op_ok ptr key σ fr s mq a σ' mq' ds new :
  reg_ok σ fr -> ptr ∈ fr_allShards fr -> fr_heap fr !! ptr = Some s -> queue_at key s = Some mq ->
  f σ mq = Some (a, σ', mq', ds) -> effect new σ mq σ' mq' ds -> NoDup (itemRef <$> new ++ reg_items fr) ->
  exists fr' s' rest, reg_queue_op ptr key f σ fr = Some (a, σ', fr') /\ reg_ok σ' fr' /\
    same_topology fr fr' /\ fr_config fr' = fr_config fr /\ fr_flowStates fr' = fr_flowStates fr /\
    fr_heap fr' = <[ptr := s']> (fr_heap fr) /\ queue_at key s' = Some mq' /\
    reg_items fr ≡ₚ mq_items mq ++ rest /\ reg_items fr' ≡ₚ mq_items mq' ++ rest.
Proof.
  intros [Ht Hc Hi Hfl] Hin Hs Hq Hf Hef Hnd. pose proof (io_shard _ _ Hi ptr s Hin Hs) as Hsok.
  destruct (queue_at_items σ s key mq Hsok Hq) as (_ & Hkey & Hsub).
  destruct (other_shard_items fr ptr s new (mq_items mq) Hnd (to_nodup _ Ht) Hin Hs Hsub) as [Hnds Hother].
  destruct (queue_op_ok f key σ s mq a σ' mq' ds new) as
    (s' & rest & brest & Hrun & Hsok' & Hid & Hcfg & Hdr & Hdom & Hqs & Hi1 & Hi2 & Hb1 & Hb2 & Hbo); [done..|].
  assert (Hst : is_Some (fr_perPriorityBandStats fr !! Priority key)).
  { apply elem_of_dom. rewrite (co_stats _ Hc). eapply (co_dom _ Hc); [done..|]. by eapply queue_at_band. }
  destruct Hst as [st Hst]. pose proof (io_stats _ _ Hi _ _ Hst) as Hcst.
  destruct (counts_i64 _ _ _ Hcst) as [? ?]. destruct (counts_i64 _ _ _ (io_counts _ _ Hi)) as [? ?].
  destruct (ef_deltas _ _ _ _ _ _ Hef) as (Hds & Hdl & Hdb). rewrite Hkey in Hds.
  destruct (gather_update shard_items _ _ ptr s (to_nodup _ Ht) Hin Hs) as (R & HR & HR').
  unfold reg_queue_op. rewrite Hs. cbn [mbind option_bind]. rewrite Hrun. cbn [mbind option_bind].
  erewrite (reg_propagate_all (Priority key)); [|exact Hst|done..]. cbn [mbind option_bind].
  eexists _, s', (rest ++ R). split; [reflexivity|].
  set (fr' := mkRegistry _ _ _ _ _ _ _ _ _ _ _ _).
  assert (Hrel : shard_rel (fun q t t' => t' = t /\ q <> ptr \/ t = s /\ t' = s' /\ q = ptr) fr fr').
  { intros q Hq'. simpl. destruct (decide (q = ptr)) as [->|Hne].
    - exists s, s'. split_and!; [done| |auto]. apply list_lookup_insert_eq. by eapply lookup_lt_Some.
    - destruct (to_heap _ Ht q Hq') as [t Ht']. exists t, t. rewrite list_lookup_insert_ne by done. auto. }
  assert (Hi1' : reg_items fr ≡ₚ mq_items mq ++ rest ++ R).
  { unfold reg_items. by rewrite HR, Hi1, app_assoc. }
  assert (Hi2' : reg_items fr' ≡ₚ mq_items mq' ++ rest ++ R).
  { unfold reg_items. simpl. by rewrite HR', Hi2, app_assoc. }
  split_and!; try done; [|by rewrite Hqs, decide_True].
  split.
  - eapply topo_transfer; [exact Ht|done|]. intros q Hq'. destruct (Hrel q Hq') as (t & t' & ? & ? & Hcase).
    exists t, t'. split_and!; try done; destruct Hcase as [[-> _]|(-> & -> & _)]; done.
  - eapply (config_transfer fr); [done..| |].
    + simpl. rewrite dom_insert_L. apply elem_of_dom_2 in Hst. set_solver.
    + intros q Hq'. destruct (Hrel q Hq') as (t & t' & ? & ? & Hcase).
      exists t, t'. split_and!; try done; destruct Hcase as [[-> _]|(-> & -> & _)]; done.
  - split.
    + intros q t Hq' Ht'. destruct (shard_rel_inv _ _ _ _ _ Hrel Hq' Ht') as (t0 & Ht0 & [[-> Hne]|(-> & -> & _)]);
        [|done]. eapply shard_ok_frames; [by eapply (io_shard _ _ Hi)|apply Hef|]. by eapply Hother.
    + destruct (ef_items _ _ _ _ _ _ Hef) as [gone Hgone]. 
      by eapply (NoDup_items_change new (reg_items fr) _ (mq_items mq) (mq_items mq') gone (rest ++ R)).
    + eapply (gather_counts shard_items); [apply Ht|exact Hin|exact Hs|exact Hi1|exact Hi2|done|done|apply Hi].
    + intros p st' Hp. simpl in Hp. destruct (decide (p = Priority key)) as [->|Hne].
      * rewrite lookup_insert_eq in Hp. injection Hp as <-. simpl.
        eapply (gather_counts (items_at (Priority key)));
          [apply Ht|exact Hin|exact Hs|exact Hb1|exact Hb2|done|done|exact Hcst].
      * rewrite lookup_insert_ne in Hp by done. eapply counts_perm; [|by apply (io_stats _ _ Hi)].
        unfold reg_band_items. simpl. symmetry. apply gather_ext. intros q Hq'.
        destruct (Hrel q Hq') as (t & t' & Ht1 & Ht2 & Hcase). simpl in Ht2. rewrite Ht1, Ht2. simpl.
        destruct Hcase as [[-> _]|(-> & -> & _)]; [done|]. by rewrite Hbo.
  - eapply flows_transfer; [exact Hfl|done..| |].
    + intros k [fs Hk]. by apply (fo_flow _ Hfl k fs).
    + intros q Hq'. destruct (Hrel q Hq') as (t & t' & ? & ? & Hcase). exists t, t'. split_and!; try done.
      destruct Hcase as [[-> _]|(-> & -> & _)]; [done|]. intros k. rewrite Hqs.
      case_decide as Hk; [|done]. subst k. rewrite Hq. split; eauto.
Qed.
End queue_call.

(** ** Provisioning *)

(** An administrative change of one shard. *)
Definition kept (σ : Store) (s s' : registryShard) : Prop :=
  shard_ok σ s' /\ same_items s s' /\ (forall k, queue_at k s' = queue_at k s) /\
  sh_id s' = sh_id s /\ sh_isDraining s' = sh_isDraining s.

Lemma same_items_trans s1 s2 s3 : same_items s1 s2 -> same_items s2 s3 -> same_items s1 s3.
Proof. intros [H1 H2] [H3 H4]. split; [by rewrite H3|]. intros p. by rewrite H4. Qed.

Lemma kept_refl σ s : shard_ok σ s -> kept σ s s.
Proof. done. Qed.

Lemma kept_trans σ s1 s2 s3 : kept σ s1 s2 -> kept σ s2 s3 -> kept σ s1 s3.
Proof.
  intros (_ & Hi1 & Hq1 & Hid1 & Hd1) (? & Hi2 & Hq2 & Hid2 & Hd2). split_and!; try congruence.
  - by eapply same_items_trans.
Qed.

Definition config_ready (c : Config) : Prop := forall p b, PriorityBands c !! p = Some b -> band_ready p b.

Hypothesis Hrange : forall K V E C (m : gmap K V), range (E:=E) (C:=C) m ≡ₚ map_to_list m.

Lemma partition_ready i n c :
  config_ready c -> bands_wf (sc_PriorityBands (partition range i n c)) /\
  dom (sc_PriorityBands (partition range i n c)) = dom (PriorityBands c).
Proof.
  intros Hc. assert (Hl := fun k => partition_lookup range i n c k (Hrange _ _ _ _) (fun p b H => proj1 (Hc p b H))).
  split.
  - intros p b Hb. rewrite Hl in Hb. apply fmap_Some in Hb as (b0 & Hb0 & ->).
    destruct (Hc p b0 Hb0) as (? & ? & _). done.
  - apply set_eq. intros p. by rewrite !elem_of_dom, Hl, fmap_is_Some.
Qed.

Lemma repartition_spec σ fr :
  NoDup (fr_activeShards fr) -> config_ready (fr_config fr) ->
  (forall ptr, ptr ∈ fr_activeShards fr -> exists s, fr_heap fr !! ptr = Some s /\ shard_ok σ s /\
     dom (sh_priorityBands s) ⊆ dom (PriorityBands (fr_config fr))) ->
  exists h', repartitionShardConfigsLocked (@range) fr = Some (set_heap h' fr) /\ length h' = length (fr_heap fr) /\
    (forall ptr, ptr ∉ fr_activeShards fr -> h' !! ptr = fr_heap fr !! ptr) /\
    (forall i ptr, fr_activeShards fr !! i = Some ptr ->
       exists s s', fr_heap fr !! ptr = Some s /\ h' !! ptr = Some s' /\ kept σ s s' /\
         dom (sh_priorityBands s') = dom (sh_priorityBands s) /\
         sh_config s' = partition range (Z.of_nat i) (Z.of_nat (length (fr_activeShards fr))) (fr_config fr)).
Proof.
  intros Hnd Hc Hs. unfold repartitionShardConfigsLocked.
  destruct (on_shards_spec
    (fun i s => updateConfig (partition range (Z.of_nat i) (Z.of_nat (length (fr_activeShards fr))) (fr_config fr)) s)
    (fun i s s' => kept σ s s' /\ dom (sh_priorityBands s') = dom (sh_priorityBands s) /\
       sh_config s' = partition range (Z.of_nat i) (Z.of_nat (length (fr_activeShards fr))) (fr_config fr))
    (fr_activeShards fr) (fr_heap fr) Hnd) as (h' & Hrun & Hlen & Hout & Hin).
  - intros i ptr Hi. destruct (Hs ptr) as (s & Hptr & Hok & Hdom); [by eapply list_elem_of_lookup_2|].
    destruct (partition_ready (Z.of_nat i) (Z.of_nat (length (fr_activeShards fr))) _ Hc) as [Hwf Hd].
    destruct (updateConfig_ok σ s _ Hok Hwf) as (s' & Hu & ? & ? & ? & ? & ? & ? & ?); [by rewrite Hd|].
    exists s, s'. split_and!; done.
  - rewrite Hrun. cbn [mbind option_bind]. exists h'. split_and!; done.
Qed.
Lemma active_nodup fr : topo_ok fr -> NoDup (fr_activeShards fr).
Proof. intros Ht. pose proof (to_nodup _ Ht) as H. rewrite (to_all _ Ht) in H. by apply NoDup_app in H as (? & _). Qed.

Lemma active_shard σ fr ptr :
  topo_ok fr -> config_wf fr -> items_ok σ fr -> ptr ∈ fr_activeShards fr ->
  exists s, fr_heap fr !! ptr = Some s /\ shard_ok σ s /\
    dom (sh_priorityBands s) = dom (PriorityBands (fr_config fr)).
Proof.
  intros Ht Hc Hi Hp. pose proof (active_in_all _ _ Ht Hp) as Hp'. destruct (to_heap _ Ht _ Hp') as [s Hs].
  exists s. split_and!; [done|by eapply (io_shard _ _ Hi)|].
  apply list_elem_of_lookup in Hp as [i Hi']. by apply (co_active _ Hc i ptr s).
Qed.

Lemma reg_band_items_nil fr p :
  config_wf fr -> PriorityBands (fr_config fr) !! p = None -> reg_band_items p fr = [].
Proof.
  intros Hc Hp. apply elem_of_nil_inv. intros x (ptr & s & Hin & Hs & Hx)%elem_of_gather.
  unfold items_at in Hx. destruct (sh_priorityBands s !! p) as [b|] eqn:Hb; [|by apply elem_of_nil in Hx].
  apply elem_of_dom_2, (co_dom _ Hc ptr s Hin Hs), elem_of_dom in Hb as [c Hc']. congruence.
Qed.

(** The band is in the configuration and in every active shard afterwards. *)
Definition band_added (σ : Store) (p : Z) (fr fr' : FlowRegistry) : Prop :=
  same_topology fr fr' /\ fr_flowStates fr' = fr_flowStates fr /\
  fr_priorityBandStates fr' = fr_priorityBandStates fr /\
  dom (PriorityBands (fr_config fr')) = {[p]} ∪ dom (PriorityBands (fr_config fr)) /\
  shard_rel (fun ptr s s' => kept σ s s' /\ (ptr ∉ fr_activeShards fr -> s' = s)) fr fr'.

(** Adding the band to the active shards, once they have the new shares. *)
Lemma add_band_shards σ p c1 fr h1 :
  topo_ok fr -> config_ready c1 -> dom (PriorityBands c1) = {[p]} ∪ dom (PriorityBands (fr_config fr)) ->
  config_wf fr ->
  (forall i ptr, fr_activeShards fr !! i = Some ptr ->
     exists s s', fr_heap fr !! ptr = Some s /\ h1 !! ptr = Some s' /\ kept σ s s' /\
       dom (sh_priorityBands s') = dom (sh_priorityBands s) /\
       sh_config s' = partition range (Z.of_nat i) (Z.of_nat (length (fr_activeShards fr))) c1) ->
  exists h2, on_shards (fr_activeShards fr) (fun _ s => addPriorityBand p s) h1 = Some h2 /\
    (forall ptr, ptr ∉ fr_activeShards fr -> h2 !! ptr = h1 !! ptr) /\
    (forall i ptr, fr_activeShards fr !! i = Some ptr ->
       exists s s', fr_heap fr !! ptr = Some s /\ h2 !! ptr = Some s' /\ kept σ s s' /\
         dom (sh_priorityBands s') = dom (PriorityBands c1) /\
         sh_config s' = partition range (Z.of_nat i) (Z.of_nat (length (fr_activeShards fr))) c1).
Proof.
  intros Ht Hc1 Hd Hc Hin.
  destruct (on_shards_spec (fun _ s => addPriorityBand p s)
    (fun i s s' => kept σ s s' /\ dom (sh_priorityBands s') = {[p]} ∪ dom (sh_priorityBands s) /\
       sh_config s' = sh_config s) (fr_activeShards fr) h1 (active_nodup _ Ht))
    as (h2 & Hrun & _ & Hout & Hin2).
  - intros i ptr Hi. destruct (Hin i ptr Hi) as (s0 & s & Hs0 & Hs & (Hok & _) & Hds & Hcs).
    destruct (partition_ready (Z.of_nat i) (Z.of_nat (length (fr_activeShards fr))) _ Hc1) as [_ Hdp].
    destruct (addPriorityBand_ok σ s p Hok) as (s' & ? & ? & ? & ? & ? & ? & ? & ?).
    { rewrite Hcs. apply elem_of_dom. rewrite Hdp, Hd. set_solver. }
    exists s, s'. split_and!; done.
  - exists h2. split_and!; [done|done|]. intros i ptr Hi.
    destruct (Hin i ptr Hi) as (s0 & s & Hs0 & Hs & Hk & Hds & Hcs).
    destruct (Hin2 i ptr Hi) as (s1 & s' & Hs1 & Hs' & Hk' & Hds' & Hcs'). simplify_eq.
    exists s0, s'. split_and!; [done|done|by eapply kept_trans| |congruence].
    destruct (co_active _ Hc i ptr s0 Hi Hs0) as [Hd0 _]. by rewrite Hds', Hds, Hd0, Hd.
Qed.
Lemma config_ready_add p d c :
  config_ready c -> band_ready p (set_priority p d) ->
  config_ready (set_bands (<[p := set_priority p d]> (PriorityBands c)) c).
Proof. intros Hc Hd q b. simpl. intros [[<- <-]|[_ ?]]%lookup_insert_Some; auto. Qed.

Lemma ensurePriorityBand_spec σ p fr :
  topo_ok fr -> config_wf fr -> items_ok σ fr -> PriorityBands (fr_config fr) !! p = None ->
  is_Some (fr_priorityBandStates fr !! p) ->
  exists fr', ensurePriorityBand (@range) p fr = Some fr' /\ band_added σ p fr fr' /\
    topo_ok fr' /\ config_wf fr' /\ items_ok σ fr' /\ reg_items fr' ≡ₚ reg_items fr.
Proof.
  intros Ht Hc Hi Hnone [b Hb]. destruct (co_default _ Hc) as (d & Hd & Hdr).
  assert (Hst : fr_perPriorityBandStats fr !! p = None).
  { apply not_elem_of_dom. rewrite (co_stats _ Hc). by apply not_elem_of_dom. }
  set (c1 := set_bands (<[p := set_priority p d]> (PriorityBands (fr_config fr))) (fr_config fr)).
  set (fr1 := set_bandStats (<[p := mkAggStats 0 0]> (fr_perPriorityBandStats fr)) (set_config c1 fr)).
  assert (Hens : ensurePriorityBand (@range) p fr =
    fr2 ← repartitionShardConfigsLocked (@range) fr1;
    h ← on_shards (fr_activeShards fr2) (fun _ s => addPriorityBand p s) (fr_heap fr2);
    Some (set_heap h fr2)).
  { unfold ensurePriorityBand. rewrite Hnone, Hd. simpl. rewrite Hst. simpl. by rewrite Hb. }
  rewrite Hens. clear Hens.
  assert (Hc1 : config_ready c1) by (apply config_ready_add; [exact (co_bands _ Hc)|apply Hdr]).
  assert (Hd1 : dom (PriorityBands c1) = {[p]} ∪ dom (PriorityBands (fr_config fr))) by apply dom_insert_L.
  destruct (repartition_spec σ fr1 (active_nodup _ Ht) Hc1) as (h1 & -> & _ & Hout1 & Hin1).
  { intros ptr Hp. destruct (active_shard σ fr ptr Ht Hc Hi Hp) as (s & Hs & Hok & Hds).
    exists s. split_and!; [done|done|]. rewrite Hds. simpl. rewrite dom_insert_L. set_solver. }
  destruct (add_band_shards σ p c1 fr h1 Ht Hc1 Hd1 Hc Hin1) as (h2 & Hrun & Hout2 & Hin2).
  cbn [mbind option_bind]. change (fr_activeShards (set_heap h1 fr1)) with (fr_activeShards fr).
  change (fr_heap (set_heap h1 fr1)) with h1. rewrite Hrun. cbn [mbind option_bind].
  eexists. split; [reflexivity|]. set (fr' := set_heap h2 _).
  assert (Hsh : forall i ptr, fr_activeShards fr !! i = Some ptr -> exists s s', fr_heap fr !! ptr = Some s /\
            fr_heap fr' !! ptr = Some s' /\ kept σ s s' /\ dom (sh_priorityBands s') = dom (PriorityBands c1) /\
            sh_config s' = partition range (Z.of_nat i) (Z.of_nat (length (fr_activeShards fr))) c1)
    by exact Hin2.
  assert (Hrel : shard_rel (fun ptr s s' => kept σ s s' /\ (ptr ∉ fr_activeShards fr -> s' = s)) fr fr').
  { intros ptr Hp. destruct (decide (ptr ∈ fr_activeShards fr)) as [[i Hi']%list_elem_of_lookup|Hn].
    - destruct (Hin2 i ptr Hi') as (s & s' & ? & ? & ? & _). exists s, s'. split_and!; try done.
      intros []. by eapply list_elem_of_lookup_2.
    - destruct (to_heap _ Ht _ Hp) as [s Hs]. exists s, s. split_and!; [done| | |done].
      + simpl. by rewrite Hout2, Hout1.
      + apply kept_refl. by eapply (io_shard _ _ Hi). }
  destruct (items_transfer σ fr fr' Hi) as [Hi' Hperm]; [done..| | |].
  { intros ptr Hp. destruct (Hrel ptr Hp) as (s & s' & ? & ? & (? & ? & _) & _). exists s, s'. done. }
  { intros q st. simpl. intros [[<- <-]|[_ ?]]%lookup_insert_Some; [right|by left].
    split; [done|by apply reg_band_items_nil]. }
  split_and!; [done| | |done|done].
  - eapply topo_transfer; [exact Ht|done|]. intros ptr Hp.
    destruct (Hrel ptr Hp) as (s & s' & ? & ? & (_ & _ & _ & ? & ?) & _). exists s, s'. done.
  - split.
    + exact Hc1.
    + exists d. done.
    + intros ptr s' Hp Hs'. destruct (shard_rel_inv _ _ _ _ _ Hrel Hp Hs') as (s & Hs & _ & Hsame).
      change (fr_config fr') with c1. destruct (decide (ptr ∈ fr_activeShards fr)) as [[i Hi1]%list_elem_of_lookup|Hn].
      * destruct (Hin2 i ptr Hi1) as (? & s1 & _ & Hs1 & _ & Hds & _). simpl in Hs'. simplify_eq. by rewrite Hds.
      * rewrite (Hsame Hn), Hd1. pose proof (co_dom _ Hc ptr s Hp Hs). set_solver.
    + intros i ptr s' Hp Hs'. destruct (Hin2 i ptr Hp) as (? & s1 & _ & Hs1 & _ & ? & ?).
      simpl in Hs'. simplify_eq. done.
    + simpl. rewrite !dom_insert_L. by rewrite (co_stats _ Hc).
Qed.
Lemma build_components_spec σ c policy n : forall next,
  is_Some (RegisteredQueues !! pb_Queue c) ->
  exists cs, build_components c policy n next = inl cs /\ length cs = n /\
    forall e, e ∈ cs -> sq_inv σ e.2 /\ sq_contents e.2 = [].
Proof.
  induction n as [|n IH]; intros next Hq; cbn [build_components].
  { exists []. split_and!; [done|done|by intros e ?%elem_of_nil]. }
  destruct (NewQueueFromName next (pb_Queue c) (on_items (op_Less policy))) as [q|e] eqn:Hn.
  2:{ unfold NewQueueFromName in Hn. destruct Hq as [c' Hq]. by rewrite Hq in Hn. }
  destruct (IH (Pos.succ next) Hq) as (cs & -> & Hlen & Hcs). cbn [ebind].
  eexists. split_and!; [reflexivity|simpl; lia|]. intros e [->|He]%elem_of_cons; [|by apply Hcs].
  by eapply NewQueueFromName_inv.
Qed.

Lemma buildFlowComponents_spec σ key n fr :
  config_ready (fr_config fr) -> is_Some (PriorityBands (fr_config fr) !! Priority key) ->
  exists cs next, buildFlowComponents key n fr = Some (inl (cs, set_next (fr_nextShardID fr) next fr)) /\
    length cs = n /\ forall e, e ∈ cs -> sq_inv σ e.2 /\ sq_contents e.2 = [].
Proof.
  intros Hc [c Hb]. destruct (Hc _ _ Hb) as (_ & _ & [policy Hp] & Hq). unfold buildFlowComponents.
  rewrite Hb, Hp. cbn [mbind option_bind].
  destruct (build_components_spec σ c policy n (fr_nextQueue fr) Hq) as (cs & -> & ? & ?). eauto.
Qed.

(** A shard on which the flow has been provisioned. *)
Definition provisioned (σ : Store) (key : FlowKey) (s s' : registryShard) : Prop :=
  shard_ok σ s' /\ same_items s s' /\ (forall k, k <> key -> queue_at k s' = queue_at k s) /\
  is_Some (queue_at key s') /\ dom (sh_priorityBands s') = dom (sh_priorityBands s) /\
  sh_config s' = sh_config s /\ sh_id s' = sh_id s /\ sh_isDraining s' = sh_isDraining s.

Lemma synchronize_all_spec σ key cs ptrs h :
  NoDup ptrs -> length cs = length ptrs ->
  (forall e, e ∈ cs -> sq_inv σ e.2 /\ sq_contents e.2 = []) ->
  (forall ptr, ptr ∈ ptrs -> exists s, h !! ptr = Some s /\ shard_ok σ s /\ is_Some (sh_priorityBands s !! Priority key)) ->
  exists h', synchronize_all key cs ptrs h = Some h' /\
    forall ptr, ptr ∈ ptrs -> exists s s', h !! ptr = Some s /\ h' !! ptr = Some s' /\ provisioned σ key s s'.
Proof.
  intros Hnd Hlen Hcs Hs. unfold synchronize_all.
  destruct (on_shards_spec (fun i s => c ← cs !! i; synchronizeFlow key c.1 c.2 s)
              (fun _ s s' => provisioned σ key s s') ptrs h Hnd) as (h' & Hrun & _ & _ & Hin).
  - intros i ptr Hi. destruct (Hs ptr) as (s & Hptr & Hok & Hb); [by eapply list_elem_of_lookup_2|].
    destruct (lookup_lt_is_Some_2 cs i) as [c Hc]; [rewrite Hlen; by eapply lookup_lt_Some|].
    destruct (Hcs c) as [Hinv Hnil]; [by eapply list_elem_of_lookup_2|].
    destruct (synchronizeFlow_ok σ s key c.1 c.2 Hok Hb Hinv Hnil) as (s' & Hrun & ?).
    exists s, s'. rewrite Hc. cbn [mbind option_bind]. split_and!; [done|done|]. unfold provisioned. naive_solver.
  - exists h'. split; [done|]. intros ptr [i Hi]%list_elem_of_lookup. by apply (Hin i ptr).
Qed.

(** No draining shard lacks the band. *)
Definition draining_has (p : Z) (fr : FlowRegistry) : Prop :=
  forall id ptr s, fr_drainingShards fr !! id = Some ptr -> fr_heap fr !! ptr = Some s ->
    p ∈ dom (sh_priorityBands s).

Lemma all_shards_have σ p fr :
  topo_ok fr -> config_wf fr -> items_ok σ fr -> draining_has p fr ->
  is_Some (PriorityBands (fr_config fr) !! p) ->
  forall ptr, ptr ∈ fr_allShards fr ->
    exists s, fr_heap fr !! ptr = Some s /\ shard_ok σ s /\ is_Some (sh_priorityBands s !! p).
Proof.
  intros Ht Hc Hi Hdr Hp ptr Hin. destruct (to_heap _ Ht _ Hin) as [s Hs].
  exists s. split_and!; [done|by eapply (io_shard _ _ Hi)|]. apply elem_of_dom.
  rewrite (to_all _ Ht), elem_of_app in Hin. destruct Hin as [Hin|Hin].
  - apply list_elem_of_lookup in Hin as [i Hi']. destruct (co_active _ Hc i ptr s Hi' Hs) as [-> _].
    by apply elem_of_dom.
  - apply list_elem_of_fmap in Hin as ([id q] & -> & Hin). apply elem_of_map_to_list in Hin. by eapply Hdr.
Qed.

Definition infra_ready (σ : Store) (key : FlowKey) (fr fr' : FlowRegistry) : Prop :=
  same_topology fr fr' /\ fr_flowStates fr' = fr_flowStates fr /\
  fr_priorityBandStates fr' = fr_priorityBandStates fr /\
  dom (PriorityBands (fr_config fr')) = {[Priority key]} ∪ dom (PriorityBands (fr_config fr)) /\
  shard_rel (fun _ s s' => (forall k, k <> key -> queue_at k s' = queue_at k s) /\ is_Some (queue_at key s')) fr fr' /\
  topo_ok fr' /\ config_wf fr' /\ items_ok σ fr' /\ reg_items fr' ≡ₚ reg_items fr.
Lemma ensure_band_phase σ p fr :
  topo_ok fr -> config_wf fr -> items_ok σ fr -> is_Some (fr_priorityBandStates fr !! p) ->
  exists fr', match PriorityBands (fr_config fr) !! p with
              | Some _ => Some fr
              | None => ensurePriorityBand (@range) p fr
              end = Some fr' /\ band_added σ p fr fr' /\
    topo_ok fr' /\ config_wf fr' /\ items_ok σ fr' /\ reg_items fr' ≡ₚ reg_items fr.
Proof.
  intros Ht Hc Hi Hb. destruct (PriorityBands (fr_config fr) !! p) as [c|] eqn:Hp.
  - exists fr. split_and!; try done. split_and!; try done.
    + apply elem_of_dom_2 in Hp. set_solver.
    + intros ptr Hptr. destruct (to_heap _ Ht _ Hptr) as [s Hs]. exists s, s. split_and!; try done.
      apply kept_refl. by eapply (io_shard _ _ Hi).
  - by apply ensurePriorityBand_spec.
Qed.

Lemma draining_not_active fr id ptr :
  topo_ok fr -> fr_drainingShards fr !! id = Some ptr -> ptr ∉ fr_activeShards fr.
Proof.
  intros Ht Hid Hin. pose proof (to_nodup _ Ht) as Hnd. rewrite (to_all _ Ht) in Hnd.
  apply NoDup_app in Hnd as (_ & Hdis & _). apply (Hdis ptr Hin).
  apply list_elem_of_fmap. exists (id, ptr). split; [done|]. by apply elem_of_map_to_list.
Qed.

Lemma provision_phase σ key fr :
  topo_ok fr -> config_wf fr -> items_ok σ fr -> draining_has (Priority key) fr ->
  is_Some (PriorityBands (fr_config fr) !! Priority key) ->
  exists fr', (r ← buildFlowComponents key (length (fr_allShards fr)) fr;
               match r with
               | inr err => Some (Some err, fr)
               | inl (components, fr) =>
                   h ← synchronize_all key components (fr_allShards fr) (fr_heap fr);
                   Some (None, set_heap h fr)
               end) = Some (None, fr') /\ infra_ready σ key fr fr'.
Proof.
  intros Ht Hc Hi Hdr Hp.
  destruct (buildFlowComponents_spec σ key (length (fr_allShards fr)) fr (co_bands _ Hc) Hp)
    as (cs & next & -> & Hlen & Hcs). cbn [mbind option_bind].
  destruct (synchronize_all_spec σ key cs (fr_allShards fr) (fr_heap fr) (to_nodup _ Ht) Hlen Hcs
              (all_shards_have σ _ fr Ht Hc Hi Hdr Hp)) as (h' & Hrun & Hin).
  simpl. rewrite Hrun. cbn [mbind option_bind]. eexists. split; [reflexivity|].
  set (fr' := set_heap h' _).
  assert (Hrel : shard_rel (fun _ s s' => provisioned σ key s s') fr fr') by exact Hin.
  destruct (items_transfer σ fr fr' Hi) as [Hi' Hperm]; [done..| |by left|].
  { intros ptr Hptr. destruct (Hrel ptr Hptr) as (s & s' & ? & ? & ? & ? & _). exists s, s'. done. }
  split_and!; try done.
  - simpl. apply elem_of_dom in Hp. set_solver.
  - intros ptr Hptr. destruct (Hrel ptr Hptr) as (s & s' & ? & ? & ? & ? & ? & ? & _). exists s, s'. done.
  - eapply (topo_transfer fr); [done..|]. intros ptr Hptr.
    destruct (Hrel ptr Hptr) as (s & s' & ? & ? & ? & ? & ? & ? & ? & ? & ? & ?). exists s, s'. done.
  - eapply (config_transfer fr); [done..|]. intros ptr Hptr.
    destruct (Hrel ptr Hptr) as (s & s' & ? & ? & ? & ? & ? & ? & ? & ? & ? & ?). exists s, s'. done.
Qed.

Lemma ensureFlowInfrastructure_spec σ key fr :
  topo_ok fr -> config_wf fr -> items_ok σ fr -> is_Some (fr_priorityBandStates fr !! Priority key) ->
  draining_has (Priority key) fr ->
  exists fr', ensureFlowInfrastructure (@range) key fr = Some (None, fr') /\ infra_ready σ key fr fr'.
Proof.
  intros Ht Hc Hi Hb Hdr. unfold ensureFlowInfrastructure.
  destruct (ensure_band_phase σ (Priority key) fr Ht Hc Hi Hb)
    as (fr1 & -> & (Htop & Hfs & Hbs & Hd & Hrel) & Ht1 & Hc1 & Hi1 & Hp1). cbn [mbind option_bind].
  destruct (provision_phase σ key fr1 Ht1 Hc1 Hi1) as (fr2 & -> & Htop2 & Hfs2 & Hbs2 & Hd2 & Hrel2 & ? & ? & ? & Hp2).
  - intros id ptr s Hid Hs. destruct Htop as (_ & Hdrs & _). rewrite Hdrs in Hid.
    destruct (shard_rel_inv _ _ _ _ _ Hrel (draining_in_all _ _ _ Ht Hid) Hs) as (s0 & Hs0 & _ & Hsame).
    rewrite Hsame by (by eapply draining_not_active). by eapply Hdr.
  - apply elem_of_dom. rewrite Hd. set_solver.
  - exists fr2. split; [done|]. destruct Htop as (? & ? & Hall & ?), Htop2 as (? & ? & ? & ?).
    split_and!; try congruence; [split_and!; congruence|rewrite Hd2, Hd; set_solver| |by rewrite Hp2].
    intros ptr Hptr. destruct (Hrel ptr Hptr) as (s & s1 & Hs & Hs1 & (_ & _ & Hq & _) & _).
    destruct (Hrel2 ptr) as (s1' & s2 & Hs1' & Hs2 & Hq2 & Hk); [by rewrite Hall|]. simplify_eq.
    exists s, s2. split_and!; [done|done| |done]. intros k Hne. by rewrite Hq2, Hq.
Qed.
(** ** Sessions *)

Lemma flows_at_new p k v m :
  m !! k = None -> flows_at p (<[k := v]> m) = (if Priority k =? p then 1 else 0) + flows_at p m.
Proof.
  intros Hk. unfold flows_at. rewrite (sumZ_perm _ _ _ (map_to_list_insert m k v Hk)). done.
Qed.

Lemma flows_at_delete p k v m :
  m !! k = Some v -> flows_at p m = (if Priority k =? p then 1 else 0) + flows_at p (delete k m).
Proof.
  intros Hk. rewrite <- (flows_at_new p k v) by apply lookup_delete_eq. by rewrite insert_delete_id.
Qed.

Lemma flows_at_update p k v v' m : m !! k = Some v -> flows_at p (<[k := v']> m) = flows_at p m.
Proof.
  intros Hk. rewrite (flows_at_delete p k v m Hk), <- insert_delete_eq.
  apply flows_at_new, lookup_delete_eq.
Qed.

(** A change of one flow's lease. *)
Lemma flows_lease_ok fr key fs ls :
  flows_ok fr -> fr_flowStates fr !! key = Some fs -> 0 <= leaseCount ls -> markedForDeletion ls = false ->
  flows_ok (set_flowStates (<[key := set_lease ls fs]> (fr_flowStates fr)) fr).
Proof.
  intros [Hf Hq Hqs Hl Hm] Hk Hls Hmk.
  assert (Hd : forall k, is_Some (<[key := set_lease ls fs]> (fr_flowStates fr) !! k) <-> is_Some (fr_flowStates fr !! k)).
  { intros k. destruct (decide (k = key)) as [->|]; [rewrite lookup_insert_eq, Hk; split; eauto|].
    by rewrite lookup_insert_ne. }
  split; simpl; try done.
  - intros k fs' [[<- <-]|[_ ?]]%lookup_insert_Some; [|by apply Hf].
    destruct (Hf _ _ Hk) as (? & ? & _ & _ & ?). split_and!; done.
  - intros k ptr s Hk' ? ?. apply Hd in Hk'. by eapply Hq.
  - intros k ptr s ? ? ?. apply Hd. by eapply Hqs.
  - intros p. rewrite Hl. symmetry. by eapply flows_at_update.
Qed.

Lemma reg_ok_flows σ fr m :
  reg_ok σ fr -> flows_ok (set_flowStates m fr) -> reg_ok σ (set_flowStates m fr).
Proof. intros [[] [] [] _] Hf. by split. Qed.

Lemma release_ok σ fr key fs now :
  reg_ok σ fr -> fr_flowStates fr !! key = Some fs -> 0 < leaseCount (fs_lease fs) ->
  reg_ok σ (release key now fr).
Proof.
  intros Hok Hk Hl. unfold release. rewrite Hk. apply reg_ok_flows; [done|].
  destruct (fo_flow _ (ro_flows _ _ Hok) _ _ Hk) as (_ & _ & Hm & _).
  apply flows_lease_ok; [apply Hok|done|simpl; lia|done].
Qed.

Definition connected (key : FlowKey) (fr : FlowRegistry) : Prop :=
  exists fs, fr_flowStates fr !! key = Some fs /\ 0 < leaseCount (fs_lease fs).

Lemma connect_existing_ok σ fr key now fs :
  reg_ok σ fr -> ID key <> EmptyString -> fr_flowStates fr !! key = Some fs ->
  exists fr', connect (@range) key now fr = Some (fr', None) /\ reg_ok σ fr' /\ connected key fr' /\
    reg_items fr' ≡ₚ reg_items fr /\ same_topology fr fr'.
Proof.
  intros Hok Hid Hk. destruct (fo_flow _ (ro_flows _ _ Hok) _ _ Hk) as (Hinit & Herr & Hm & Hl & _).
  unfold connect. rewrite bool_decide_eq_false_2 by done. unfold pin_lease. rewrite Hk. unfold tryPin.
  rewrite Hm. cbn [mbind option_bind set_flowStates fr_flowStates]. rewrite lookup_insert_eq.
  cbn [mbind option_bind set_lease fs_initialized fs_initErr]. rewrite Hinit.
  cbn [mbind option_bind fs_initErr set_lease]. rewrite Herr. eexists. split; [reflexivity|]. split_and!; [| |done|done].
  - apply (reg_ok_flows σ fr); [done|]. apply flows_lease_ok; [apply Hok|done|simpl; lia|done].
  - eexists. split; [apply lookup_insert_eq|]. simpl. lia.
Qed.

Lemma band_pin σ fr p :
  reg_ok σ fr -> exists bands ls isNew,
    pin_lease id (fun ls _ => ls) newLeased p (fr_priorityBandStates fr) = Some (bands, isNew) /\
    bands = <[p := ls]> (fr_priorityBandStates fr) /\ markedForDeletion ls = false /\
    leaseCount ls = band_leases p (fr_priorityBandStates fr) + 1.
Proof.
  intros Hok. unfold pin_lease, band_leases. destruct (fr_priorityBandStates fr !! p) as [b|] eqn:Hb.
  - unfold tryPin. pose proof (fo_marked _ (ro_flows _ _ Hok) _ _ Hb) as Hm. unfold id at 1. rewrite Hm.
    eexists _, _, _. split_and!; [reflexivity|reflexivity|exact Hm|reflexivity].
  - eexists _, _, _. split_and!; reflexivity.
Qed.
(** The flow state enters the map once its infrastructure is there. *)
Lemma flows_new_ok σ fr fr2 key st bls :
  flows_ok fr -> fr_flowStates fr !! key = None -> infra_ready σ key
    (set_bandStates (<[Priority key := bls]> (fr_priorityBandStates fr))
       (set_flowStates (<[key := st]> (fr_flowStates fr)) fr)) fr2 ->
  markedForDeletion bls = false -> leaseCount bls = band_leases (Priority key) (fr_priorityBandStates fr) + 1 ->
  flows_ok (set_flowStates (<[key := mkFlowState (mkLeased 1 None false) true None]> (fr_flowStates fr2)) fr2).
Proof.
  intros [Hf Hq Hqs Hl Hm] Hk (Htop & Hfs & Hbs & Hd & Hrel & _) Hmk Hlc. simpl in *.
  destruct Htop as (_ & _ & Hall & _). simpl in Hall. rewrite Hfs. split; simpl.
  - intros k fs [[<- <-]|[Hne Hk']]%lookup_insert_Some.
    + split_and!; try done. apply elem_of_dom. rewrite Hd. set_solver.
    + rewrite lookup_insert_ne in Hk' by done. destruct (Hf k fs Hk') as (? & ? & ? & ? & Hb). split_and!; try done.
      apply elem_of_dom. rewrite Hd. apply elem_of_dom in Hb. set_solver.
  - intros k ptr s Hsome Hp Hs. rewrite Hall in Hp.
    destruct (shard_rel_inv _ _ _ _ _ Hrel Hp Hs) as (s0 & Hs0 & Hother & Hkey).
    destruct (decide (k = key)) as [->|Hne]; [done|]. rewrite Hother by done.
    rewrite !lookup_insert_ne in Hsome by done. by eapply Hq.
  - intros k ptr s Hp Hs Hsome. rewrite Hall in Hp.
    destruct (shard_rel_inv _ _ _ _ _ Hrel Hp Hs) as (s0 & Hs0 & Hother & Hkey).
    destruct (decide (k = key)) as [->|Hne]; [rewrite lookup_insert_eq; eauto|].
    rewrite Hother in Hsome by done. rewrite !lookup_insert_ne by done. by eapply Hqs.
  - intros p. rewrite Hbs, insert_insert_eq, flows_at_new by done. unfold band_leases.
    destruct (decide (p = Priority key)) as [->|Hne].
    + rewrite lookup_insert_eq, Z.eqb_refl. simpl. rewrite Hlc, Hl. lia.
    + rewrite lookup_insert_ne by done. destruct (Z.eqb_spec (Priority key) p); [congruence|].
      pose proof (Hl p) as Hlp. unfold band_leases in Hlp. rewrite Hlp. lia.
  - intros p b. rewrite Hbs. intros [[<- <-]|[_ ?]]%lookup_insert_Some; [done|by eapply Hm].
Qed.

Lemma connect_new_ok σ fr key now :
  reg_ok σ fr -> ID key <> EmptyString -> fr_flowStates fr !! key = None -> draining_has (Priority key) fr ->
  exists fr', connect (@range) key now fr = Some (fr', None) /\ reg_ok σ fr' /\ connected key fr' /\
    reg_items fr' ≡ₚ reg_items fr /\ same_topology fr fr'.
Proof.
  intros Hok Hid Hk Hdr. pose proof Hok as [Ht Hc Hi Hfl].
  destruct (band_pin σ fr (Priority key) Hok) as (bands & bls & isNew & Hpin & -> & Hmk & Hlc).
  assert (Hpin0 : pin_lease fs_lease set_lease (mkFlowState newLeased false None) key (fr_flowStates fr) =
    Some (<[key := set_lease (mkLeased 1 None false) (mkFlowState newLeased false None)]> (fr_flowStates fr), true))
    by (unfold pin_lease; by rewrite Hk).
  unfold connect. rewrite bool_decide_eq_false_2 by done. rewrite Hpin0. cbn [mbind option_bind].
  change (fr_priorityBandStates (set_flowStates _ fr)) with (fr_priorityBandStates fr). rewrite Hpin.
  cbn [mbind option_bind]. set (fr1 := set_bandStates _ _).
  assert (Hk1 : fr_flowStates fr1 !! key = Some (set_lease (mkLeased 1 None false) (mkFlowState newLeased false None)))
    by apply lookup_insert_eq.
  rewrite Hk1. cbn [mbind option_bind set_lease fs_initialized].
  destruct (ensureFlowInfrastructure_spec σ key fr1) as (fr2 & -> & Hready).
  { destruct Ht. by split. } { destruct Hc. by split. } { destruct Hi. by split. }
  { simpl. rewrite lookup_insert_eq. eauto. } { done. }
  cbn [mbind option_bind fs_initErr fs_lease]. eexists. split; [reflexivity|].
  pose proof (flows_new_ok σ fr fr2 key _ bls Hfl Hk Hready Hmk Hlc) as Hfl2.
  destruct Hready as (Htop & _ & _ & _ & _ & Ht2 & Hc2 & Hi2 & Hp2). split_and!; [| |exact Hp2|exact Htop].
  - split; [destruct Ht2; by split|destruct Hc2; by split|destruct Hi2; by split|exact Hfl2].
  - eexists. split; [apply lookup_insert_eq|]. done.
Qed.

(** A draining shard without the band stops the provisioning of a new flow. *)
Definition draining_lacks (p : Z) (fr : FlowRegistry) : Prop :=
  exists id ptr s, fr_drainingShards fr !! id = Some ptr /\ fr_heap fr !! ptr = Some s /\
    sh_priorityBands s !! p = None.

Lemma draining_has_or_lacks p fr : topo_ok fr -> draining_has p fr \/ draining_lacks p fr.
Proof.
  intros Ht. pose (lacks := fun ptr => match fr_heap fr !! ptr with
                            | Some s => bool_decide (sh_priorityBands s !! p = None)
                            | None => false
                            end).
  destruct (decide (map_Forall (fun _ ptr => lacks ptr = false) (fr_drainingShards fr))) as [Hall|Hex].
  - left. intros id ptr s Hid Hs. specialize (Hall id ptr Hid). unfold lacks in Hall. rewrite Hs in Hall.
    apply bool_decide_eq_false in Hall. apply elem_of_dom. by apply not_eq_None_Some.
  - right. apply map_not_Forall in Hex as (id & ptr & Hid & Hl); [|solve_decision].
    apply not_false_is_true in Hl. unfold lacks in Hl. destruct (fr_heap fr !! ptr) as [s|] eqn:Hs; [|done].
    apply bool_decide_eq_true in Hl. by exists id, ptr, s.
Qed.

Lemma ensureFlowInfrastructure_panics σ key fr :
  topo_ok fr -> config_wf fr -> items_ok σ fr -> is_Some (fr_priorityBandStates fr !! Priority key) ->
  draining_lacks (Priority key) fr -> ensureFlowInfrastructure (@range) key fr = None.
Proof.
  intros Ht Hc Hi Hb (id & ptr & s & Hid & Hs & Hnone). unfold ensureFlowInfrastructure.
  destruct (ensure_band_phase σ (Priority key) fr Ht Hc Hi Hb)
    as (fr1 & -> & (Htop & _ & _ & Hd & Hrel) & Ht1 & Hc1 & _). cbn [mbind option_bind].
  pose proof (draining_in_all _ _ _ Ht Hid) as Hin.
  destruct (Hrel ptr Hin) as (s0 & s1 & Hs0 & Hs1 & _ & Hsame). rewrite Hs in Hs0. injection Hs0 as <-.
  rewrite Hsame in Hs1 by (by eapply draining_not_active).
  assert (Hp : is_Some (PriorityBands (fr_config fr1) !! Priority key)) by (apply elem_of_dom; rewrite Hd; set_solver).
  destruct (buildFlowComponents_spec σ key (length (fr_allShards fr1)) fr1 (co_bands _ Hc1) Hp)
    as (cs & next & -> & _). cbn [mbind option_bind].
  unfold synchronize_all. erewrite on_shards_panics; [done|apply Ht1| |exact Hs1|].
  - destruct Htop as (_ & _ & Hall & _). simpl. by rewrite Hall.
  - intros i. destruct (cs !! i); [|done]. cbn [mbind option_bind]. unfold synchronizeFlow. by rewrite Hnone.
Qed.

Lemma connect_new_panics σ fr key now :
  reg_ok σ fr -> ID key <> EmptyString -> fr_flowStates fr !! key = None -> draining_lacks (Priority key) fr ->
  connect (@range) key now fr = None.
Proof.
  intros Hok Hid Hk Hdr. pose proof Hok as [Ht Hc Hi Hfl].
  destruct (band_pin σ fr (Priority key) Hok) as (bands & bls & isNew & Hpin & -> & _).
  unfold connect. rewrite bool_decide_eq_false_2 by done.
  assert (Hpin0 : pin_lease fs_lease set_lease (mkFlowState newLeased false None) key (fr_flowStates fr) =
    Some (<[key := set_lease (mkLeased 1 None false) (mkFlowState newLeased false None)]> (fr_flowStates fr), true))
    by (unfold pin_lease; by rewrite Hk).
  rewrite Hpin0. cbn [mbind option_bind].
  change (fr_priorityBandStates (set_flowStates _ fr)) with (fr_priorityBandStates fr). rewrite Hpin.
  cbn [mbind option_bind]. set (fr1 := set_bandStates _ _).
  assert (Hk1 : fr_flowStates fr1 !! key = Some (set_lease (mkLeased 1 None false) (mkFlowState newLeased false None)))
    by apply lookup_insert_eq.
  rewrite Hk1. cbn [mbind option_bind set_lease fs_initialized].
  rewrite (ensureFlowInfrastructure_panics σ key fr1); [done| | | | |done].
  { destruct Ht. by split. } { destruct Hc. by split. } { destruct Hi. by split. }
  simpl. rewrite lookup_insert_eq. eauto.
Qed.
End invariant.
