(* ===== verification/RegistryGC.v ===== *)
(** Garbage collection of flows, bands and drained shards keeps the registry's
    invariant, as long as no flow with queued items is collected. *)

From S2P Require Import Prelude FlowTypes ItemProps SafeQueue ListQueue Ordering Fairness.
From S2P Require Import MaxMinHeap MaxMinHeapSpec QueueFactory ManagedQueue RegistryConfig Leasing Shard.
From S2P Require Import ShardSpec Registry RegistrySpec.

Section gc.
Variable range : forall (K V : Type) (E : EqDecision K) (C : Countable K), gmap K V -> list (K * V).
Arguments range {K V E C} _.
Hypothesis Hrange : forall K V E C (m : gmap K V), range (E:=E) (C:=C) m ≡ₚ map_to_list m.

Abbreviation config_wf := (RegistrySpec.config_wf (@range)) (only parsing).
Abbreviation reg_ok := (RegistrySpec.reg_ok (@range)) (only parsing).

(** ** Collection *)

Section collect.
Context {K V : Type} `{Countable K} (lease : V -> leasedState) (with_lease : leasedState -> V -> V).
Context (timeout now : Z).

Definition expired (v : V) : bool := (checkAndMarkForDeletion timeout now (lease v)).1.
Definition refreshed (v : V) : V := with_lease (checkAndMarkForDeletion timeout now (lease v)).2 v.

Lemma collect_fold (l : list (K * V)) : forall acc m,
  NoDup l.*1 -> (forall e, e ∈ l -> m !! e.1 = Some e.2) ->
  exists ks m', fold_left (collect_step lease with_lease timeout now) l (acc, m) = (acc ++ ks, m') /\
    NoDup ks /\ (forall k, k ∈ ks <-> exists v, (k, v) ∈ l /\ expired v = true) /\
    (forall k v, (k, v) ∈ l -> m' !! k = if expired v then None else Some (refreshed v)) /\
    (forall k, k ∉ l.*1 -> m' !! k = m !! k).
Proof.
  induction l as [|[k0 v0] l IH]; intros acc m Hnd Hl; cbn [fold_left].
  { exists [], m. rewrite app_nil_r. split_and!; [done|constructor| |by intros k v ?%elem_of_nil|done].
    intros k. split; [by intros ?%elem_of_nil|by intros (v & ?%elem_of_nil & _)]. }
  apply NoDup_cons in Hnd as [Hk0 Hnd]. simpl in Hk0.
  assert (Hstep : collect_step lease with_lease timeout now (acc, m) (k0, v0) =
            (acc ++ (if expired v0 then [k0] else []),
             if expired v0 then delete k0 m else <[k0 := refreshed v0]> m)).
  { unfold collect_step, expired, refreshed. simpl.
    destruct (checkAndMarkForDeletion timeout now (lease v0)) as [[] ls]; simpl; [done|by rewrite app_nil_r]. }
  rewrite Hstep.
  destruct (IH (acc ++ (if expired v0 then [k0] else []))
              (if expired v0 then delete k0 m else <[k0 := refreshed v0]> m) Hnd) as
    (ks & m' & -> & Hks & Hin & Hm & Hout).
  { intros [k v] He. simpl. assert (k <> k0) by (intros ->; apply Hk0, list_elem_of_fmap; by exists (k0, v)).
    destruct (expired v0); [rewrite lookup_delete_ne by done|rewrite lookup_insert_ne by done];
      by apply (Hl (k, v)), list_elem_of_further. }
  eexists _, m'. rewrite <- app_assoc. split_and!; [reflexivity| | | |].
  - destruct (expired v0); [|done]. apply NoDup_cons. split; [|done]. intros Hk. apply Hin in Hk as (v & Hv & _).
    apply Hk0, list_elem_of_fmap. by exists (k0, v).
  - intros k. split.
    + intros [Hk|Hk]%elem_of_app.
      * destruct (expired v0) eqn:He; [|by apply elem_of_nil in Hk]. apply list_elem_of_singleton in Hk as ->.
        exists v0. split; [left|done].
      * apply Hin in Hk as (v & Hv & ?). exists v. split; [by right|done].
    + intros (v & [[= -> ->]|Hv]%elem_of_cons & He); apply elem_of_app.
      * left. rewrite He. by apply list_elem_of_singleton.
      * right. apply Hin. eauto.
  - intros k v [[= -> ->]|Hv]%elem_of_cons; [|by apply Hm]. rewrite Hout by done.
    destruct (expired v0); [apply lookup_delete_eq|apply lookup_insert_eq].
  - intros k Hk. simpl in Hk. apply not_elem_of_cons in Hk as [Hne Hk]. rewrite Hout by done.
    destruct (expired v0); [by rewrite lookup_delete_ne|by rewrite lookup_insert_ne].
Qed.

Lemma collect_spec (m : gmap K V) ks m' :
  collect (@range) lease with_lease timeout now m = (ks, m') ->
  NoDup ks /\ (forall k, k ∈ ks <-> exists v, m !! k = Some v /\ expired v = true) /\
  (forall k, m' !! k = v ← m !! k; if expired v then None else Some (refreshed v)).
Proof.
  unfold collect. intros Hc. destruct (collect_fold (range m) [] m) as (ks' & m1 & Hrun & Hnd & Hin & Hm & Hout).
  - rewrite Hrange. apply NoDup_fst_map_to_list.
  - intros [k v]. rewrite Hrange. by intros ?%elem_of_map_to_list.
  - rewrite Hrun in Hc. injection Hc as <- <-. split_and!; [done| |].
    + intros k. rewrite Hin. by setoid_rewrite (Hrange _ _ _ _ m); setoid_rewrite elem_of_map_to_list.
    + intros k. destruct (m !! k) as [v|] eqn:Hk; cbn [mbind option_bind].
      * apply Hm. by rewrite Hrange, elem_of_map_to_list.
      * rewrite Hout; [done|]. intros ([k' v] & -> & He)%list_elem_of_fmap.
        rewrite Hrange, elem_of_map_to_list in He. simpl in *. congruence.
Qed.
End collect.

Lemma expired_idle {V} (lease : V -> leasedState) timeout now v :
  expired lease timeout now v = true -> leaseCount (lease v) <= 0.
Proof.
  unfold expired, checkAndMarkForDeletion. destruct (Z.ltb_spec 0 (leaseCount (lease v))); simpl; [done|lia].
Qed.

Lemma refreshed_lease timeout now ls :
  expired id timeout now ls = false -> let ls' := (checkAndMarkForDeletion timeout now ls).2 in
  leaseCount ls' = leaseCount ls /\ markedForDeletion ls' = markedForDeletion ls.
Proof.
  unfold expired, checkAndMarkForDeletion, id. destruct (0 <? leaseCount ls); simpl; [done|].
  destruct (becameIdleAt ls); simpl; [|done]. by destruct (_ <? _).
Qed.
(** ** Flows *)

Definition unpin_all (now : Z) (ks : list FlowKey) (m : gmap Z leasedState) : gmap Z leasedState :=
  fold_left (fun m key => match m !! Priority key with
                          | Some b => <[Priority key := unpin now b]> m
                          | None => m
                          end) ks m.

Lemma fold_unpin_band now ks : forall fr,
  fold_left (fun fr key => unpin_band (Priority key) now fr) ks fr =
    set_bandStates (unpin_all now ks (fr_priorityBandStates fr)) fr.
Proof.
  induction ks as [|k ks IH]; intros fr; cbn [fold_left unpin_all]; [by destruct fr|].
  rewrite IH. unfold unpin_band. by destruct (fr_priorityBandStates fr !! Priority k).
Qed.

(** The flows among [ks] at one priority. *)
Definition keys_at (p : Z) (ks : list FlowKey) : Z := sumZ (fun k => if Priority k =? p then 1 else 0) ks.

Lemma unpin_all_spec now ks : forall m,
  (forall k, k ∈ ks -> is_Some (m !! Priority k)) ->
  (forall p, band_leases p (unpin_all now ks m) = band_leases p m - keys_at p ks) /\
  (forall p, is_Some (unpin_all now ks m !! p) <-> is_Some (m !! p)) /\
  (forall p b', unpin_all now ks m !! p = Some b' ->
     exists b, m !! p = Some b /\ markedForDeletion b' = markedForDeletion b).
Proof.
  induction ks as [|k ks IH]; intros m Hm; cbn [unpin_all fold_left].
  { split_and!; [intros p; unfold keys_at; simpl; lia|done|eauto]. }
  destruct (Hm k) as [b Hb]; [left|]. rewrite Hb.
  destruct (IH (<[Priority k := unpin now b]> m)) as (H1 & H2 & H3).
  { intros k' Hk'. destruct (decide (Priority k' = Priority k)) as [->|];
      [rewrite lookup_insert_eq; eauto|rewrite lookup_insert_ne by done]. apply Hm. by right. }
  split_and!.
  - intros p. rewrite H1. unfold keys_at, band_leases. rewrite sumZ_cons.
    destruct (Z.eqb_spec (Priority k) p) as [<-|]; [rewrite lookup_insert_eq, Hb; simpl; lia|].
    rewrite lookup_insert_ne by done. lia.
  - intros p. rewrite H2. destruct (decide (p = Priority k)) as [->|];
      [rewrite lookup_insert_eq, Hb; split; eauto|by rewrite lookup_insert_ne].
  - intros p b' Hb'. destruct (H3 p b' Hb') as (b1 & [[<- <-]|[_ ?]]%lookup_insert_Some & Heq); eauto.
Qed.

Lemma flows_at_nonneg p m : 0 <= flows_at p m.
Proof. apply sumZ_nonneg. intros e _. by destruct (_ =? _). Qed.

Lemma flows_at_dom p (m : gmap FlowKey flowState) : forall m',
  (forall k, is_Some (m' !! k) <-> is_Some (m !! k)) -> flows_at p m' = flows_at p m.
Proof.
  induction m as [|k v m Hk IH] using map_ind; intros m' Hd.
  - assert (m' = ∅) as ->; [|done]. apply map_empty. intros k. specialize (Hd k).
    rewrite lookup_empty in Hd. destruct (m' !! k); [|done]. destruct Hd as [[? [=]] _]; eauto.
  - destruct (proj2 (Hd k)) as [v' Hv']; [rewrite lookup_insert_eq; eauto|].
    rewrite (flows_at_delete p k v' m' Hv'), flows_at_new by done. f_equal. apply IH.
    intros k'. specialize (Hd k'). destruct (decide (k' = k)) as [->|].
    + rewrite lookup_delete_eq, Hk. done.
    + by rewrite lookup_insert_ne in Hd by done; rewrite lookup_delete_ne.
Qed.

(** Deleting a set of flows. *)
Lemma flows_at_removed p ks : forall (m m' : gmap FlowKey flowState),
  NoDup ks -> (forall k, k ∈ ks -> is_Some (m !! k)) ->
  (forall k, is_Some (m' !! k) <-> is_Some (m !! k) /\ k ∉ ks) ->
  flows_at p m' = flows_at p m - keys_at p ks.
Proof.
  induction ks as [|k ks IH]; intros m m' Hnd Hks Hm'; unfold keys_at; simpl.
  - rewrite Z.sub_0_r. apply flows_at_dom. intros k. rewrite Hm'. set_solver.
  - apply NoDup_cons in Hnd as [Hk Hnd]. destruct (Hks k) as [v Hv]; [left|].
    rewrite (flows_at_delete p k v m Hv). rewrite (IH (delete k m) m' Hnd); [unfold keys_at; lia| |].
    + intros k' Hk'. rewrite lookup_delete_ne by (intros <-; done). apply Hks. by right.
    + intros k'. rewrite Hm', not_elem_of_cons. destruct (decide (k' = k)) as [->|Hne].
      * rewrite lookup_delete_eq. split; [by intros [_ [? _]]|by intros [[? [=]] _]].
      * rewrite lookup_delete_ne by done. naive_solver.
Qed.

(** The queues of the flows that remain to be cleaned are empty. *)
Definition clean (ks : list FlowKey) (fr : FlowRegistry) : Prop :=
  forall k ptr s mq, k ∈ ks -> ptr ∈ fr_allShards fr -> fr_heap fr !! ptr = Some s ->
    queue_at k s = Some mq -> mq_items mq = [].

Definition queues_are (F : gmap FlowKey flowState) (ks : list FlowKey) (fr : FlowRegistry) : Prop :=
  forall k ptr s, ptr ∈ fr_allShards fr -> fr_heap fr !! ptr = Some s ->
    is_Some (queue_at k s) <-> is_Some (F !! k) \/ k ∈ ks.

Lemma deleteFlow_step σ fr key ks :
  topo_ok fr -> config_wf fr -> items_ok σ fr -> clean (key :: ks) fr -> key ∉ ks ->
  fr_flowStates fr !! key = None -> queues_are (fr_flowStates fr) (key :: ks) fr ->
  exists h, on_shards (fr_allShards fr) (fun _ s => Some (deleteFlow key s)) (fr_heap fr) = Some h /\
    let fr' := set_heap h fr in
    topo_ok fr' /\ config_wf fr' /\ items_ok σ fr' /\ clean ks fr' /\
    queues_are (fr_flowStates fr) ks fr' /\ reg_items fr' ≡ₚ reg_items fr.
Proof.
  intros Ht Hc Hi Hcl Hk HF Hqs.
  destruct (on_shards_spec (fun _ s => Some (deleteFlow key s))
    (fun _ s s' => shard_ok σ s' /\ same_items s s' /\
       (forall k, queue_at k s' = if decide (k = key) then None else queue_at k s) /\
       dom (sh_priorityBands s') = dom (sh_priorityBands s) /\
       sh_config s' = sh_config s /\ sh_id s' = sh_id s /\ sh_isDraining s' = sh_isDraining s)
    (fr_allShards fr) (fr_heap fr) (to_nodup _ Ht)) as (h & Hrun & _ & _ & Hin).
  { intros i ptr Hptr. apply list_elem_of_lookup_2 in Hptr. destruct (to_heap _ Ht _ Hptr) as [s Hs].
    exists s, (deleteFlow key s). split; [done|]. split; [done|].
    destruct (deleteFlow_ok σ s key (io_shard _ _ Hi _ _ Hptr Hs)) as (? & ? & ? & ?).
    { intros mq. apply (Hcl key ptr); [left|done|done]. }
    split_and!; try done; unfold deleteFlow; by destruct (sh_priorityBands s !! Priority key). }
  exists h. split; [done|]. intros fr'.
  assert (Hrel : shard_rel (fun _ s s' => shard_ok σ s' /\ same_items s s' /\
       (forall k, queue_at k s' = if decide (k = key) then None else queue_at k s) /\
       dom (sh_priorityBands s') = dom (sh_priorityBands s) /\
       sh_config s' = sh_config s /\ sh_id s' = sh_id s /\ sh_isDraining s' = sh_isDraining s) fr fr').
  { intros ptr [i Hi']%list_elem_of_lookup. by apply (Hin i ptr). }
  destruct (items_transfer σ fr fr' Hi) as [Hi' Hperm]; [done..| |by left|].
  { intros ptr Hp. destruct (Hrel ptr Hp) as (s & s' & ? & ? & ? & ? & _). by exists s, s'. }
  split_and!; try done.
  - eapply (topo_transfer fr); [done..|]. intros ptr Hp.
    destruct (Hrel ptr Hp) as (s & s' & ? & ? & ? & ? & ? & ? & ? & ? & ?). by exists s, s'.
  - eapply (config_transfer (@range) fr); [done..|]. intros ptr Hp.
    destruct (Hrel ptr Hp) as (s & s' & ? & ? & ? & ? & ? & ? & ? & ? & ?). by exists s, s'.
  - intros k ptr s' mq Hk' Hp Hs' Hq.
    destruct (shard_rel_inv _ _ _ _ _ Hrel Hp Hs') as (s & Hs & _ & _ & Hqk & _). rewrite Hqk in Hq.
    case_decide; [done|]. eapply (Hcl k); [by right|done..].
  - intros k ptr s' Hp Hs'. destruct (shard_rel_inv _ _ _ _ _ Hrel Hp Hs') as (s & Hs & _ & _ & Hqk & _).
    rewrite Hqk. case_decide as Hkk.
    + subst k. rewrite HF. split; [by intros [? ?]|]. intros [[? ?]|?]; done.
    + rewrite (Hqs k ptr s Hp Hs), elem_of_cons. naive_solver.
Qed.
Lemma cleanupFlowResources_ok σ ks fr :
  topo_ok fr -> config_wf fr -> items_ok σ fr -> clean ks fr -> NoDup ks ->
  (forall k, k ∈ ks -> fr_flowStates fr !! k = None) -> queues_are (fr_flowStates fr) ks fr ->
  exists h, cleanupFlowResources ks fr = Some (set_heap h fr) /\ let fr' := set_heap h fr in
    topo_ok fr' /\ config_wf fr' /\ items_ok σ fr' /\ queues_are (fr_flowStates fr) [] fr' /\
    reg_items fr' ≡ₚ reg_items fr.
Proof.
  intros Ht Hc Hi Hcl Hnd HF Hqs. unfold cleanupFlowResources.
  set (P := fun (ks : list FlowKey) fr' => exists h, fr' = set_heap h fr /\
    topo_ok fr' /\ config_wf fr' /\ items_ok σ fr' /\ clean ks fr' /\ NoDup ks /\
    (forall k, k ∈ ks -> fr_flowStates fr !! k = None) /\ queues_are (fr_flowStates fr) ks fr' /\
    reg_items fr' ≡ₚ reg_items fr).
  match goal with |- context [ofold ?f ks fr] => destruct (ofold_total f P ks fr) as (fr' & Hrun & HP) end.
  - intros k l fr' (h & -> & Ht' & Hc' & Hi' & Hcl' & Hnd' & HF' & Hqs' & Hp').
    apply NoDup_cons in Hnd' as [Hk Hnd']. change (fr_flowStates (set_heap h fr)) with (fr_flowStates fr).
    rewrite (HF' k) by left.
    destruct (deleteFlow_step σ (set_heap h fr) k l Ht' Hc' Hi' Hcl' Hk (HF' k (list_elem_of_here _ _)) Hqs')
      as (h' & -> & Ht2 & Hc2 & Hi2 & Hcl2 & Hqs2 & Hp2). cbn [mbind option_bind].
    eexists. split; [reflexivity|]. exists h'. split; [done|]. split_and!; try done.
    + intros k' Hk'. apply HF'. by right.
    + by rewrite <- Hp'.
  - exists (fr_heap fr). split; [by destruct fr|]. split_and!; try done; try by destruct fr.
  - destruct HP as (h & -> & ? & ? & ? & _ & _ & _ & ? & ?). exists h. split; [done|]. by split_and!.
Qed.

(** No flow with queued items is collected. *)
Definition gc_safe (now : Z) (fr : FlowRegistry) : Prop :=
  forall k fs ptr s mq, fr_flowStates fr !! k = Some fs ->
    expired fs_lease (FlowGCTimeout (fr_config fr)) now fs = true ->
    ptr ∈ fr_allShards fr -> fr_heap fr !! ptr = Some s -> queue_at k s = Some mq -> mq_items mq = [].

Lemma gcFlows_ok σ fr now :
  reg_ok σ fr -> gc_safe now fr ->
  exists fr', gcFlows (@range) now fr = Some fr' /\ reg_ok σ fr' /\ same_topology fr fr' /\
    reg_items fr' ≡ₚ reg_items fr.
Proof.
  intros [Ht Hc Hi [Hf Hq Hqs Hl Hm]] Hsafe. unfold gcFlows.
  destruct (collect _ _ _ _ _ _) as [ks flows] eqn:Hcol.
  destruct (collect_spec _ _ _ _ _ _ _ Hcol) as (Hnd & Hks & Hflows). clear Hcol.
  rewrite fold_unpin_band. cbn [set_flowStates fr_priorityBandStates].
  assert (Hdom : forall k, is_Some (flows !! k) <-> is_Some (fr_flowStates fr !! k) /\ k ∉ ks).
  { intros k. rewrite Hflows, Hks. destruct (fr_flowStates fr !! k) as [fs|]; cbn [mbind option_bind].
    - destruct (expired _ _ _ fs) eqn:He; split.
      + by intros [? ?].
      + intros [_ Hn]. destruct Hn. by exists fs.
      + intros _. split; [by eexists|]. intros (v & [= <-] & Hv). congruence.
      + by eexists.
    - split; [by intros [? ?]|by intros [[? ?] _]]. }
  assert (Hband : forall k, k ∈ ks -> is_Some (fr_priorityBandStates fr !! Priority k)).
  { intros k (fs & Hk & _)%Hks. pose proof (Hl (Priority k)) as Hlk. unfold band_leases in Hlk.
    rewrite (flows_at_delete _ k fs _ Hk), Z.eqb_refl in Hlk. pose proof (flows_at_nonneg (Priority k) (delete k (fr_flowStates fr))).
    destruct (fr_priorityBandStates fr !! Priority k); [eauto|simpl in Hlk; lia]. }
  destruct (unpin_all_spec now ks (fr_priorityBandStates fr) Hband) as (Hu1 & _ & Hu3).
  set (fr1 := set_bandStates _ (set_flowStates flows fr)).
  destruct (cleanupFlowResources_ok σ ks fr1) as (h & -> & Ht' & Hc' & Hi' & Hqs' & Hp').
  { destruct Ht; by split. } { destruct Hc; by split. } { destruct Hi; by split. }
  { intros k ptr s mq (fs & Hk & He)%Hks. by apply (Hsafe k fs ptr s mq). } { done. }
  { intros k Hk. simpl. rewrite Hflows. apply Hks in Hk as (fs & -> & He). cbn [mbind option_bind]. by rewrite He. }
  { intros k ptr s Hp Hs. simpl. rewrite Hdom. split.
    - intros Hsome. pose proof (Hqs k ptr s Hp Hs Hsome). destruct (decide (k ∈ ks)); auto.
    - intros [[? _]|(fs & ? & _)%Hks]; eapply Hq; eauto. }
  eexists. split; [reflexivity|]. split_and!; [|done|exact Hp'].
  split; [done..|]. split; simpl.
  - intros k fs' Hk'. rewrite Hflows in Hk'. destruct (fr_flowStates fr !! k) as [fs|] eqn:Hk; [|done].
    cbn [mbind option_bind] in Hk'. destruct (expired _ _ _ fs) eqn:He; [done|]. injection Hk' as <-.
    destruct (Hf k fs Hk) as (? & ? & Hmk & Hlc & ?).
    destruct (refreshed_lease _ _ (fs_lease fs) He) as [Hlc' Hmk']. unfold refreshed. simpl.
    split_and!; try done; [by rewrite Hmk'|by rewrite Hlc'].
  - intros k ptr s Hk Hp Hs. apply (Hqs' k ptr s Hp Hs). by left.
  - intros k ptr s Hp Hs Hk. apply (Hqs' k ptr s Hp Hs) in Hk as [?|?%elem_of_nil]; done.
  - intros p. rewrite Hu1, Hl. symmetry. apply flows_at_removed; [done| |done].
    intros k (fs & ? & _)%Hks. eauto.
  - intros p b' Hb'. destruct (Hu3 p b' Hb') as (b & Hb & ->). by eapply Hm.
Qed.

(** The collection of flows never stops, whatever is queued. *)
Lemma gcFlows_returns fr now : topo_ok fr -> is_Some (gcFlows (@range) now fr).
Proof.
  intros Ht. unfold gcFlows. destruct (collect _ _ _ _ _ _) as [ks flows]. rewrite fold_unpin_band.
  set (fr1 := set_bandStates _ (set_flowStates flows fr)). unfold cleanupFlowResources.
  pose (P := fun (_ : list FlowKey) fr' => fr_allShards fr' = fr_allShards fr /\
    forall ptr, ptr ∈ fr_allShards fr -> is_Some (fr_heap fr' !! ptr)).
  match goal with |- context [ofold ?f ks fr1] => destruct (ofold_total f P ks fr1) as (fr' & -> & _) end; [|..|by eexists].
  - intros k l fr' [Hall Hh]. destruct (fr_flowStates fr' !! k); [by exists fr'|].
    destruct (on_shards_spec (fun _ s => Some (deleteFlow k s)) (fun _ _ _ => True) (fr_allShards fr') (fr_heap fr'))
      as (h & -> & Hlen & _).
    + rewrite Hall. apply Ht.
    + intros i ptr Hp%list_elem_of_lookup_2. rewrite Hall in Hp. destruct (Hh ptr Hp) as [s Hs]. eauto.
    + cbn [mbind option_bind]. eexists. split; [reflexivity|]. split; [done|]. intros ptr Hp.
      apply lookup_lt_is_Some. simpl. rewrite Hlen. apply lookup_lt_is_Some. by apply Hh.
  - split; [done|]. intros ptr Hp. by apply (to_heap _ Ht).
Qed.

(** ** Bands *)

Lemma partition_delete i n c p :
  config_ready c ->
  partition range i n (set_bands (delete p (PriorityBands c)) c) =
  mkShardConfig (sc_MaxBytes (partition range i n c)) (sc_MaxRequests (partition range i n c))
    (delete p (sc_PriorityBands (partition range i n c))).
Proof.
  intros Hc. assert (Hk : keyed (PriorityBands c)) by (intros k b Hb; by apply (Hc k b)).
  assert (Hk' : keyed (delete p (PriorityBands c))) by (intros k b [_ Hb]%lookup_delete_Some; by apply Hk).
  assert (He : sc_PriorityBands (partition range i n (set_bands (delete p (PriorityBands c)) c)) =
               delete p (sc_PriorityBands (partition range i n c))).
  { apply map_eq. intros k. rewrite (partition_lookup range) by (apply Hrange || exact Hk').
    simpl. destruct (decide (k = p)) as [->|]; [by rewrite !lookup_delete_eq|].
    rewrite !lookup_delete_ne by done. symmetry. by apply (partition_lookup range). }
  rewrite <- He. reflexivity.
Qed.

(** No flow and no queue is left at a priority. *)
Definition unused (p : Z) (fr : FlowRegistry) : Prop :=
  forall k, Priority k = p -> fr_flowStates fr !! k = None.

Lemma unused_items σ fr p ptr s :
  items_ok σ fr -> flows_ok fr -> unused p fr -> ptr ∈ fr_allShards fr -> fr_heap fr !! ptr = Some s ->
  forall b, sh_priorityBands s !! p = Some b -> band_items b = [].
Proof.
  intros Hi Hf Hun Hp Hs b Hb. apply elem_of_nil_inv. intros x (id & mq & Hid & _)%elem_of_map_bind.
  destruct (fo_queues _ Hf (mkFlowKey id p) ptr s Hp Hs) as [fs Hfs].
  - unfold queue_at. simpl. rewrite Hb. cbn [mbind option_bind]. rewrite Hid. eauto.
  - by rewrite Hun in Hfs.
Qed.

Lemma reg_band_items_unused σ fr p :
  items_ok σ fr -> flows_ok fr -> unused p fr -> reg_band_items p fr = [].
Proof.
  intros Hi Hf Hun. apply elem_of_nil_inv. intros x (ptr & s & Hp & Hs & Hx)%elem_of_gather.
  unfold items_at in Hx. destruct (sh_priorityBands s !! p) as [b|] eqn:Hb; [|by apply elem_of_nil in Hx].
  rewrite (unused_items σ fr p ptr s) in Hx by done. by apply elem_of_nil in Hx.
Qed.

Definition drop_band (p : Z) (fr : FlowRegistry) : option FlowRegistry :=
  let fr := set_config (set_bands (delete p (PriorityBands (fr_config fr))) (fr_config fr)) fr in
  let fr := set_bandStats (delete p (fr_perPriorityBandStats fr)) fr in
  h ← on_shards (fr_allShards fr) (fun _ s => Some (deletePriorityBand p s)) (fr_heap fr);
  Some (set_heap h fr).

Lemma drop_band_ok σ p fr :
  reg_ok σ fr -> unused p fr -> fr_priorityBandStates fr !! p = None ->
  exists fr', drop_band p fr = Some fr' /\ reg_ok σ fr' /\ same_topology fr fr' /\
    fr_flowStates fr' = fr_flowStates fr /\ fr_priorityBandStates fr' = fr_priorityBandStates fr /\
    reg_items fr' ≡ₚ reg_items fr.
Proof.
  intros [Ht Hc Hi Hf] Hun Hnone. unfold drop_band.
  set (fr1 := set_bandStats _ _).
  destruct (on_shards_spec (fun _ s => Some (deletePriorityBand p s))
    (fun _ s s' => s' = deletePriorityBand p s /\ shard_ok σ s' /\ same_items s s' /\
       (forall k, is_Some (queue_at k s') <-> is_Some (queue_at k s)) /\
       dom (sh_priorityBands s') = dom (sh_priorityBands s) ∖ {[p]})
    (fr_allShards fr) (fr_heap fr) (to_nodup _ Ht)) as (h & Hrun & _ & _ & Hin).
  { intros i ptr Hptr. apply list_elem_of_lookup_2 in Hptr. destruct (to_heap _ Ht _ Hptr) as [s Hs].
    exists s, (deletePriorityBand p s). split; [done|]. split; [done|].
    destruct (deletePriorityBand_ok σ s p (io_shard _ _ Hi _ _ Hptr Hs)) as (? & ? & Hq & ?).
    { by apply (unused_items σ fr p ptr s). }
    split_and!; try done. intros k. rewrite Hq. case_decide as Hk; [|done]. split; [by intros [? ?]|].
    intros Hsome. destruct (fo_queues _ Hf k ptr s Hptr Hs Hsome) as [fs Hfs]. by rewrite Hun in Hfs. }
  change (fr_allShards fr1) with (fr_allShards fr). change (fr_heap fr1) with (fr_heap fr).
  rewrite Hrun. cbn [mbind option_bind]. eexists. split; [reflexivity|]. set (fr' := set_heap h fr1).
  assert (Hrel : shard_rel (fun _ s s' => s' = deletePriorityBand p s /\ shard_ok σ s' /\ same_items s s' /\
       (forall k, is_Some (queue_at k s') <-> is_Some (queue_at k s)) /\
       dom (sh_priorityBands s') = dom (sh_priorityBands s) ∖ {[p]}) fr fr').
  { intros ptr [i Hi']%list_elem_of_lookup. by apply (Hin i ptr). }
  destruct (items_transfer σ fr fr' Hi) as [Hi' Hperm]; [done..| | |].
  { intros ptr Hp. destruct (Hrel ptr Hp) as (s & s' & ? & ? & _ & ? & ? & _). by exists s, s'. }
  { intros q st. simpl. intros [_ ?]%lookup_delete_Some. by left. }
  split_and!; try done. split; [|split|done|].
  - eapply (topo_transfer fr); [done..|]. intros ptr Hp.
    destruct (Hrel ptr Hp) as (s & s' & ? & ? & -> & _). by eexists s, _.
  - intros q b. simpl. intros [_ Hb]%lookup_delete_Some. by apply (co_bands _ _ Hc).
  - apply Hc.
  - intros ptr s' Hp Hs'. destruct (shard_rel_inv _ _ _ _ _ Hrel Hp Hs') as (s & Hs & _ & _ & _ & _ & ->).
    simpl. rewrite dom_delete_L. pose proof (co_dom _ _ Hc ptr s Hp Hs). set_solver.
  - intros i ptr s' Hp Hs'.
    assert (Hp' : ptr ∈ fr_allShards fr) by (by eapply active_in_all, list_elem_of_lookup_2).
    destruct (shard_rel_inv _ _ _ _ _ Hrel Hp' Hs') as (s & Hs & -> & _ & _ & _ & Hd).
    destruct (co_active _ _ Hc i ptr s Hp Hs) as [Hd0 Hcfg]. rewrite Hd, Hd0. split.
    + simpl. by rewrite dom_delete_L.
    + simpl. rewrite Hcfg. symmetry. apply partition_delete. exact (co_bands _ _ Hc).
  - simpl. rewrite !dom_delete_L. by rewrite (co_stats _ _ Hc).
  - eapply flows_transfer; [exact Hf|done..| |].
    + intros k [fs Hk]. simpl. rewrite lookup_delete_ne; [by apply (fo_flow _ Hf k fs)|].
      intros Heq. by rewrite (Hun k) in Hk.
    + intros ptr Hp. destruct (Hrel ptr Hp) as (s & s' & ? & ? & _ & _ & _ & ? & _). by exists s, s'.
Qed.

Lemma cleanupPriorityBandResources_ok σ ps fr :
  reg_ok σ fr -> (forall p, p ∈ ps -> unused p fr /\ fr_priorityBandStates fr !! p = None) ->
  exists fr', cleanupPriorityBandResources ps fr = Some fr' /\ reg_ok σ fr' /\ same_topology fr fr' /\
    reg_items fr' ≡ₚ reg_items fr.
Proof.
  intros Hok Hps. unfold cleanupPriorityBandResources.
  set (P := fun (ps : list Z) fr' => reg_ok σ fr' /\ same_topology fr fr' /\ reg_items fr' ≡ₚ reg_items fr /\
    forall p, p ∈ ps -> unused p fr' /\ fr_priorityBandStates fr' !! p = None).
  match goal with |- context [ofold ?f ps fr] => destruct (ofold_total f P ps fr) as (fr' & Hrun & HP) end.
  - intros p l fr1 (Hok1 & Htop & Hp1 & Hl). destruct (Hl p) as [Hun Hnone]; [left|]. rewrite Hnone.
    destruct (drop_band_ok σ p fr1 Hok1 Hun Hnone) as (fr2 & Hrun & Hok2 & Htop2 & Hfs & Hbs & Hp2).
    exists fr2. split; [exact Hrun|]. split_and!; [done| |by rewrite Hp2|].
    + destruct Htop as (? & ? & ? & ?), Htop2 as (? & ? & ? & ?). split_and!; congruence.
    + intros q Hq. unfold unused. rewrite Hfs, Hbs. apply Hl. by right.
  - split_and!; try done.
  - exists fr'. destruct HP as (? & ? & ? & _). done.
Qed.

Lemma flows_at_zero p m k fs : flows_at p m = 0 -> m !! k = Some fs -> Priority k <> p.
Proof.
  intros Hz Hk Hp. rewrite (flows_at_delete p k fs m Hk) in Hz. pose proof (flows_at_nonneg p (delete k m)).
  destruct (Z.eqb_spec (Priority k) p); [lia|done].
Qed.

Lemma gcPriorityBands_ok σ fr now :
  reg_ok σ fr ->
  exists fr', gcPriorityBands (@range) now fr = Some fr' /\ reg_ok σ fr' /\ same_topology fr fr' /\
    reg_items fr' ≡ₚ reg_items fr.
Proof.
  intros [Ht Hc Hi [Hf Hq Hqs Hl Hm]]. unfold gcPriorityBands.
  destruct (collect _ _ _ _ _ _) as [ps bands] eqn:Hcol.
  destruct (collect_spec _ _ _ _ _ _ _ Hcol) as (Hnd & Hps & Hbands). clear Hcol.
  assert (Hzero : forall p, p ∈ ps -> flows_at p (fr_flowStates fr) = 0).
  { intros p (b & Hb & He)%Hps. apply expired_idle in He. pose proof (Hl p) as Hlp. unfold band_leases in Hlp.
    rewrite Hb in Hlp. simpl in Hlp. unfold id in He. pose proof (flows_at_nonneg p (fr_flowStates fr)). lia. }
  destruct (cleanupPriorityBandResources_ok σ ps (set_bandStates bands fr)) as (fr' & Hrun & ? & ? & ?).
  - split; [destruct Ht; by split|destruct Hc; by split|destruct Hi; by split|].
    split; simpl; try done.
    + intros p. rewrite <- Hl. unfold band_leases. rewrite Hbands.
      destruct (fr_priorityBandStates fr !! p) as [b|] eqn:Hb; [|done]. cbn [mbind option_bind].
      destruct (expired _ _ _ b) eqn:He.
      * pose proof (Hl p) as Hlp. unfold band_leases in Hlp. rewrite Hb in Hlp. simpl in Hlp |- *.
        rewrite Hlp. symmetry. apply Hzero, Hps. eauto.
      * exact (proj1 (refreshed_lease _ _ b He)).
    + intros p b'. rewrite Hbands. destruct (fr_priorityBandStates fr !! p) as [b|] eqn:Hb; [|done].
      cbn [mbind option_bind]. destruct (expired _ _ _ b) eqn:He; [done|]. intros [= <-].
      transitivity (markedForDeletion b); [exact (proj2 (refreshed_lease _ _ b He))|]. by eapply Hm.
  - intros p Hp. split.
    + intros k Hk. simpl. destruct (fr_flowStates fr !! k) as [fs|] eqn:Hfs; [|done].
      by destruct (flows_at_zero p _ k fs (Hzero p Hp) Hfs).
    + simpl. rewrite Hbands. apply Hps in Hp as (b & -> & He). cbn [mbind option_bind]. by rewrite He.
  - exists fr'. done.
Qed.
(** ** Drained shards *)

Lemma updateAllShards_all fr :
  fr_allShards (updateAllShardsCacheLocked (@range) fr) ≡ₚ
    fr_activeShards fr ++ (snd <$> map_to_list (fr_drainingShards fr)).
Proof. unfold updateAllShardsCacheLocked. simpl. rewrite merge_sort_Permutation. by rewrite Hrange. Qed.

Lemma fold_delete_lookup (ids : list string) : forall (m : gmap string nat) i,
  fold_left (fun m id => delete id m) ids m !! i = if decide (i ∈ ids) then None else m !! i.
Proof.
  induction ids as [|id ids IH]; intros m i; cbn [fold_left]; [done|].
  rewrite IH. destruct (decide (i ∈ ids)), (decide (i ∈ id :: ids)) as [Hi|Hi]; try done.
  - exfalso. apply Hi. by right.
  - apply elem_of_cons in Hi as [->|]; [apply lookup_delete_eq|done].
  - apply lookup_delete_ne. intros ->. apply Hi. left.
Qed.

(** Shards without items leave. *)
Lemma shrink_ok σ fr draining all removed :
  reg_ok σ fr -> all ≡ₚ fr_activeShards fr ++ (snd <$> map_to_list draining) ->
  (forall id ptr, draining !! id = Some ptr -> fr_drainingShards fr !! id = Some ptr) ->
  fr_allShards fr ≡ₚ all ++ removed -> gather shard_items (fr_heap fr) removed = [] ->
  let fr' := set_topology (fr_activeShards fr) draining all fr in
  reg_ok σ fr' /\ reg_items fr' ≡ₚ reg_items fr.
Proof.
  intros [Ht Hc Hi Hf] Hall Hdr Hperm Hempty fr'.
  assert (Hin : forall ptr, ptr ∈ all -> ptr ∈ fr_allShards fr) by (intros ptr Hp; rewrite Hperm; set_solver).
  assert (Hg : forall F, (forall s x, x ∈ F s -> x ∈ shard_items s) -> gather F (fr_heap fr) removed = []).
  { intros F HF. apply elem_of_nil_inv. intros x (ptr & s & Hp & Hs & Hx)%elem_of_gather.
    assert (x ∈ gather shard_items (fr_heap fr) removed); [|rewrite Hempty in *; by eapply not_elem_of_nil].
    apply elem_of_gather. eauto 10. }
  assert (Hgather : forall F, (forall s x, x ∈ F s -> x ∈ shard_items s) ->
            gather F (fr_heap fr) all ≡ₚ gather F (fr_heap fr) (fr_allShards fr)).
  { intros F HF. rewrite Hperm. unfold gather at 2. rewrite bind_app.
    fold (gather F (fr_heap fr) all) (gather F (fr_heap fr) removed). by rewrite Hg, app_nil_r. }
  assert (Hitems : reg_items fr' ≡ₚ reg_items fr) by (apply Hgather; done).
  split; [|done]. split.
  - destruct Ht as [Hnd _ Hheap Hn Hid Hids Hact Hdr']. split; simpl; eauto.
    rewrite Hperm in Hnd. by apply NoDup_app in Hnd as (? & _).
  - destruct Hc as [? ? Hdom Hact ?]. split; simpl; eauto.
  - destruct Hi as [Hsh Hnd Hcn Hst]. split; simpl; eauto.
    + by rewrite Hitems.
    + eapply counts_perm; [symmetry; exact Hitems|done].
    + intros p st Hp. eapply counts_perm; [symmetry; apply Hgather|by apply Hst].
      apply items_at_shard.
  - destruct Hf as [Hfl Hq Hqs Hl Hm]. split; simpl; eauto.
Qed.

Lemma sweep_split (drained : nat -> bool) (m m' : gmap string nat) :
  (forall id, m' !! id = ptr ← m !! id; if drained ptr then None else Some ptr) ->
  (snd <$> map_to_list m) ≡ₚ
    (snd <$> map_to_list m') ++ (snd <$> List.filter (fun e => drained e.2) (map_to_list m)).
Proof.
  intros Hm'. rewrite <- fmap_app. apply fmap_Permutation, NoDup_Permutation.
  - apply NoDup_map_to_list.
  - apply NoDup_app. split_and!; [apply NoDup_map_to_list| |].
    + intros [id ptr] H1%elem_of_map_to_list H2. apply list_elem_of_In, filter_In in H2 as [H2 H3].
      apply list_elem_of_In, elem_of_map_to_list in H2. rewrite Hm', H2 in H1. simpl in *. by rewrite H3 in H1.
    + apply NoDup_ListNoDup, List.NoDup_filter, NoDup_ListNoDup, NoDup_map_to_list.
  - intros [id ptr]. rewrite elem_of_app, !elem_of_map_to_list, Hm'.
    rewrite (list_elem_of_In (List.filter _ _)), filter_In, <- list_elem_of_In, elem_of_map_to_list. simpl.
    destruct (m !! id) as [q|]; cbn [mbind option_bind]; [|naive_solver].
    destruct (drained q) eqn:Hq; split; naive_solver.
Qed.

Lemma drained_nil σ fr ptr :
  reg_ok σ fr -> Z.of_nat (length (reg_items fr)) < two63 -> ptr ∈ fr_allShards fr ->
  drained (fr_heap fr) ptr = true -> exists s, fr_heap fr !! ptr = Some s /\ shard_items s = [].
Proof.
  intros [Ht Hc Hi Hf] Hlt Hp. unfold drained. destruct (to_heap _ Ht ptr Hp) as [s Hs]. rewrite Hs.
  intros Hz%Z.eqb_eq. exists s. split; [done|].
  destruct (so_counts _ _ (io_shard _ _ Hi ptr s Hp Hs)) as [Hn _]. rewrite Hz in Hn.
  destruct (gather_update shard_items _ _ ptr s (to_nodup _ Ht) Hp Hs) as (rest & Hperm & _).
  apply Permutation_length in Hperm. rewrite length_app in Hperm. unfold reg_items in Hlt.
  rewrite i64_id in Hn by (unfold is_i64, two63 in *; lia). apply nil_length_inv. lia.
Qed.

Lemma sweepDrainingShards_ok σ fr :
  reg_ok σ fr -> Z.of_nat (length (reg_items fr)) < two63 ->
  reg_ok σ (sweepDrainingShards (@range) fr) /\ reg_items (sweepDrainingShards (@range) fr) ≡ₚ reg_items fr.
Proof.
  intros Hok Hlt. unfold sweepDrainingShards. destruct (fst <$> _) as [|i ids0] eqn:Hids; [done|].
  rewrite <- Hids. clear Hids i ids0. set (ids := fst <$> _). set (draining' := fold_left _ ids _).
  pose proof (updateAllShards_all (set_topology (fr_activeShards fr) draining' (fr_allShards fr) fr)) as Hall.
  simpl in Hall.
  assert (Hd : forall id, draining' !! id =
            ptr ← fr_drainingShards fr !! id; if drained (fr_heap fr) ptr then None else Some ptr).
  { intros id. unfold draining'. rewrite fold_delete_lookup.
    assert (Hin : id ∈ ids <-> exists ptr, fr_drainingShards fr !! id = Some ptr /\ drained (fr_heap fr) ptr = true).
    { unfold ids. rewrite list_elem_of_fmap. setoid_rewrite list_elem_of_In at 1. setoid_rewrite filter_In.
      setoid_rewrite <- list_elem_of_In. setoid_rewrite (Hrange _ _ _ _ (fr_drainingShards fr)). split.
      - intros ([id' ptr] & -> & Hm%elem_of_map_to_list & ?). eauto.
      - intros (ptr & Hm & ?). exists (id, ptr). split_and!; [done|by apply elem_of_map_to_list|done]. }
    destruct (decide (id ∈ ids)) as [(ptr & -> & Hdr)%Hin|Hn]; cbn [mbind option_bind]; [by rewrite Hdr|].
    destruct (fr_drainingShards fr !! id) as [ptr|] eqn:Hp; cbn [mbind option_bind]; [|done].
    destruct (drained (fr_heap fr) ptr) eqn:Hdr; [|done]. destruct Hn. apply Hin. eauto. }
  pose proof (sweep_split _ _ _ Hd) as Hsplit.
  apply (shrink_ok σ fr draining' _ (snd <$> List.filter (fun e => drained (fr_heap fr) e.2)
           (map_to_list (fr_drainingShards fr))) Hok Hall).
  - intros id ptr. rewrite Hd. destruct (fr_drainingShards fr !! id) as [q|]; cbn [mbind option_bind]; [|done].
    by destruct (drained (fr_heap fr) q).
  - rewrite Hall, (to_all _ (ro_topo _ _ _ Hok)). by rewrite <- app_assoc, <- Hsplit.
  - apply elem_of_nil_inv. intros x (ptr & s & Hp & Hs & Hx)%elem_of_gather.
    apply list_elem_of_fmap in Hp as ([id q] & -> & Hf). apply list_elem_of_In, filter_In in Hf as [Hm Hdr].
    apply list_elem_of_In, elem_of_map_to_list in Hm.
    destruct (drained_nil σ fr q Hok Hlt) as (s' & Hs' & Hnil); [|done|].
    { by eapply draining_in_all; [apply Hok|]. }
    simplify_eq/=. rewrite Hnil in Hx. by apply elem_of_nil in Hx.
Qed.

(** ** The whole cycle *)

Lemma executeGCCycle_ok σ fr now :
  reg_ok σ fr -> gc_safe now fr -> Z.of_nat (length (reg_items fr)) < two63 ->
  exists fr', executeGCCycle (@range) now fr = Some fr' /\ reg_ok σ fr' /\ reg_items fr' ≡ₚ reg_items fr.
Proof.
  intros Hok Hsafe Hlt. unfold executeGCCycle.
  destruct (gcFlows_ok σ fr now Hok Hsafe) as (fr1 & -> & Hok1 & _ & Hp1). cbn [mbind option_bind].
  destruct (gcPriorityBands_ok σ fr1 now Hok1) as (fr2 & -> & Hok2 & _ & Hp2). cbn [mbind option_bind].
  destruct (sweepDrainingShards_ok σ fr2 Hok2) as [Hok3 Hp3]; [by rewrite Hp2, Hp1|].
  eexists. split_and!; [reflexivity|done|by rewrite Hp3, Hp2].
Qed.
End gc.
