(* ===== verification/RegistryScale.v ===== *)
(** Scaling the number of shards keeps the registry's invariant. *)

From S2P Require Import Prelude FlowTypes ItemProps SafeQueue ListQueue Ordering Fairness.
From S2P Require Import MaxMinHeap MaxMinHeapSpec QueueFactory ManagedQueue RegistryConfig Leasing Shard.
From S2P Require Import ShardSpec Registry RegistrySpec RegistryGC.

Section scale.
Variable range : forall (K V : Type) (E : EqDecision K) (C : Countable K), gmap K V -> list (K * V).
Arguments range {K V E C} _.

Abbreviation config_wf := (RegistrySpec.config_wf (@range)) (only parsing).
Abbreviation reg_ok := (RegistrySpec.reg_ok (@range)) (only parsing).

(** ** Scaling down *)

Lemma add_draining fr (D : list nat) :
  topo_ok fr -> (forall ptr, ptr ∈ D -> ptr ∈ fr_activeShards fr) -> NoDup D ->
  exists m, ofold (fun m ptr => s ← fr_heap fr !! ptr; Some (<[sh_id s := ptr]> m)) D (fr_drainingShards fr) = Some m /\
    (snd <$> map_to_list m) ≡ₚ (snd <$> map_to_list (fr_drainingShards fr)) ++ D /\
    (forall id ptr, m !! id = Some ptr -> exists s, fr_heap fr !! ptr = Some s /\ sh_id s = id).
Proof.
  intros Ht HD Hnd. pose proof Ht as [Hnda Hall Hheap _ _ Hids _ Hdr].
  assert (Hsub : forall l, l ≡ₚ (snd <$> map_to_list (fr_drainingShards fr)) ++ D -> NoDup l /\
            forall ptr, ptr ∈ l -> ptr ∈ fr_allShards fr).
  { intros l Hl. rewrite Hall in Hnda. apply NoDup_app in Hnda as (_ & Hdis & Hndd). split.
    - rewrite Hl. apply NoDup_app. split_and!; [done| |done]. intros x Hx HxD. by apply (Hdis x (HD x HxD)).
    - intros ptr Hp. rewrite Hl in Hp. rewrite Hall. apply elem_of_app in Hp as [Hp|Hp]; apply elem_of_app; auto. }
  set (P := fun (l : list nat) (m : gmap string nat) =>
    (snd <$> map_to_list m) ++ l ≡ₚ (snd <$> map_to_list (fr_drainingShards fr)) ++ D /\
    forall id ptr, m !! id = Some ptr -> exists s, fr_heap fr !! ptr = Some s /\ sh_id s = id).
  match goal with |- context [ofold ?f D ?m0] => destruct (ofold_total f P D m0) as (m & Hrun & Hp & Hm) end.
  - intros ptr l m (Hp & Hm). destruct (Hsub _ Hp) as [Hnd' Hin].
    destruct (Hheap ptr) as [s Hs]; [apply Hin; set_solver|]. rewrite Hs. cbn [mbind option_bind].
    assert (Hnone : m !! sh_id s = None).
    { destruct (m !! sh_id s) as [q|] eqn:Hq; [exfalso|done]. destruct (Hm _ _ Hq) as (t & Ht' & Hid).
      assert (Hqm : q ∈ snd <$> map_to_list m)
        by (apply list_elem_of_fmap; exists (sh_id s, q); split; [done|by apply elem_of_map_to_list]).
      assert (q = ptr) as -> by (eapply Hids; [apply Hin; set_solver|apply Hin; set_solver|done..]).
      apply NoDup_app in Hnd' as (_ & Hdis & _). apply (Hdis ptr Hqm). left. }
    eexists. split; [reflexivity|]. split.
    + rewrite map_to_list_insert by done. simpl. rewrite <- Hp. by rewrite Permutation_middle.
    + intros id q [[<- <-]|[_ ?]]%lookup_insert_Some; eauto.
  - split; [done|]. intros id ptr Hp. destruct (Hheap ptr) as [s Hs]; [by eapply draining_in_all|].
    exists s. split; [done|]. by apply (Hdr id ptr s).
  - exists m. split_and!; [done|by rewrite app_nil_r in Hp|done].
Qed.

(** The heap after the shards of [D] have been marked. *)
Lemma mark_draining σ fr (D : list nat) :
  topo_ok fr -> items_ok σ fr -> (forall ptr, ptr ∈ D -> ptr ∈ fr_allShards fr) -> NoDup D ->
  exists h, on_shards D (fun _ s => Some (markAsDraining s)) (fr_heap fr) = Some h /\ length h = length (fr_heap fr) /\
    (forall ptr, ptr ∉ D -> h !! ptr = fr_heap fr !! ptr) /\
    (forall ptr, ptr ∈ D -> exists s, fr_heap fr !! ptr = Some s /\ h !! ptr = Some (markAsDraining s)).
Proof.
  intros Ht Hi HD Hnd.
  destruct (on_shards_spec (fun _ s => Some (markAsDraining s)) (fun _ s s' => s' = markAsDraining s) D
              (fr_heap fr) Hnd) as (h & Hrun & Hlen & Hout & Hin).
  - intros i ptr Hp. apply list_elem_of_lookup_2, HD in Hp. destruct (to_heap _ Ht _ Hp) as [s Hs].
    exists s, (markAsDraining s). done.
  - exists h. split_and!; [done..|]. intros ptr [i Hp]%list_elem_of_lookup.
    destruct (Hin i ptr Hp) as (s & s' & ? & ? & ->). eauto.
Qed.
Lemma items_perm σ fr a d all :
  items_ok σ fr -> all ≡ₚ fr_allShards fr ->
  items_ok σ (set_topology a d all fr) /\ reg_items (set_topology a d all fr) ≡ₚ reg_items fr.
Proof.
  intros [Hs Hnd Hcn Hst] Hp.
  assert (Hi : reg_items (set_topology a d all fr) ≡ₚ reg_items fr) by (unfold reg_items; simpl; by rewrite Hp).
  split; [|done]. split; simpl.
  - intros ptr s. rewrite Hp. apply Hs.
  - by rewrite Hi.
  - eapply counts_perm; [symmetry; exact Hi|done].
  - intros p st Hst'. eapply counts_perm; [|by apply Hst]. unfold reg_band_items. simpl. by rewrite Hp.
Qed.

Lemma flows_perm fr a d all :
  flows_ok fr -> all ≡ₚ fr_allShards fr -> flows_ok (set_topology a d all fr).
Proof.
  intros [Hf Hq Hqs Hl Hm] Hp. split; simpl; try done.
  - intros k ptr s. rewrite Hp. apply Hq.
  - intros k ptr s. rewrite Hp. apply Hqs.
Qed.

Lemma scale_down_topo fr fr' n draining (h1 : list registryShard) :
  topo_ok fr -> NoDup (fr_allShards fr') -> fr_allShards fr' ≡ₚ fr_allShards fr ->
  fr_activeShards fr' = take n (fr_activeShards fr) -> fr_drainingShards fr' = draining ->
  fr_nextShardID fr' = fr_nextShardID fr ->
  (snd <$> map_to_list draining) ≡ₚ (snd <$> map_to_list (fr_drainingShards fr)) ++ drop n (fr_activeShards fr) ->
  (forall id ptr, draining !! id = Some ptr -> exists s, fr_heap fr !! ptr = Some s /\ sh_id s = id) ->
  (forall ptr, ptr ∈ drop n (fr_activeShards fr) ->
     exists s, fr_heap fr !! ptr = Some s /\ h1 !! ptr = Some (markAsDraining s)) ->
  (forall ptr, ptr ∉ drop n (fr_activeShards fr) -> h1 !! ptr = fr_heap fr !! ptr) ->
  (forall ptr, ptr ∈ fr_allShards fr -> exists s s', h1 !! ptr = Some s /\ fr_heap fr' !! ptr = Some s' /\
     sh_id s' = sh_id s /\ sh_isDraining s' = sh_isDraining s) ->
  topo_ok fr'.
Proof.
  intros Ht Hnd Hall Ha Hd Hn Hdp Hdl Hin Hout Hrel.
  assert (Hback : forall ptr s', ptr ∈ fr_allShards fr -> fr_heap fr' !! ptr = Some s' ->
            exists s, fr_heap fr !! ptr = Some s /\ sh_id s' = sh_id s /\
              (sh_isDraining s' = if decide (ptr ∈ drop n (fr_activeShards fr)) then true else sh_isDraining s)).
  { intros ptr s' Hp Hs'. destruct (Hrel ptr Hp) as (s1 & s2 & Hs1 & Hs2 & Hid & Hdr).
    assert (s2 = s') as -> by congruence. case_decide as Hc.
    - destruct (Hin ptr Hc) as (s & Hs & Hm). rewrite Hm in Hs1. injection Hs1 as <-. eauto.
    - rewrite Hout in Hs1 by done. eauto. }
  pose proof (active_nodup _ Ht) as Hnda. rewrite <- (take_drop n (fr_activeShards fr)) in Hnda.
  apply NoDup_app in Hnda as (_ & Hdis & _).
  assert (Hact : forall ptr, ptr ∈ take n (fr_activeShards fr) -> ptr ∈ fr_activeShards fr)
    by (intros ptr Hp; rewrite <- (take_drop n (fr_activeShards fr)); set_solver).
  split; rewrite ?Ha, ?Hd, ?Hn; try done.
  - rewrite Hall, (to_all _ Ht), Hdp. rewrite <- (take_drop n (fr_activeShards fr)) at 1. solve_Permutation.
  - intros ptr. rewrite Hall. intros Hp. destruct (Hrel ptr Hp) as (? & ? & _ & -> & _). eauto.
  - apply Ht.
  - intros ptr s'. rewrite Hall. intros Hp Hs'. destruct (Hback ptr s' Hp Hs') as (s & Hs & -> & _).
    by apply (to_id _ Ht ptr).
  - intros p1 p2 s1 s2. rewrite !Hall. intros Hp1 Hp2 Hs1 Hs2.
    destruct (Hback _ _ Hp1 Hs1) as (t1 & Ht1 & -> & _). destruct (Hback _ _ Hp2 Hs2) as (t2 & Ht2 & -> & _).
    by apply (to_ids _ Ht).
  - intros ptr s' Hp Hs'. destruct (Hback ptr s') as (s & Hs & _ & ->); [by apply active_in_all, Hact|done|].
    rewrite decide_False by (by apply Hdis). apply (to_active _ Ht ptr); [by apply Hact|done].
  - intros id ptr s' Hp Hs'.
    assert (Hpd : ptr ∈ snd <$> map_to_list draining)
      by (apply list_elem_of_fmap; exists (id, ptr); split; [done|by apply elem_of_map_to_list]).
    rewrite Hdp in Hpd. destruct (Hback ptr s') as (s & Hs & -> & ->); [|done|].
    { rewrite (to_all _ Ht). rewrite <- (take_drop n (fr_activeShards fr)). set_solver. }
    destruct (Hdl id ptr Hp) as (s0 & Hs0 & <-). simplify_eq. split; [done|]. case_decide as Hc; [done|].
    apply elem_of_app in Hpd as [Hpd|]; [|done]. apply list_elem_of_fmap in Hpd as ([id' q] & -> & Hm).
    apply elem_of_map_to_list in Hm. by apply (to_draining _ Ht id' q s).
Qed.
Hypothesis Hrange : forall K V E C (m : gmap K V), range (E:=E) (C:=C) m ≡ₚ map_to_list m.

(** What scaling does to a shard that stays in the registry. *)
Definition carried (σ : Store) (s s' : registryShard) : Prop :=
  shard_ok σ s' /\ same_items s s' /\ (forall k, queue_at k s' = queue_at k s) /\
  dom (sh_priorityBands s') = dom (sh_priorityBands s).

Lemma carried_mark σ s : shard_ok σ s -> carried σ s (markAsDraining s).
Proof. intros Hok. split; [by apply markAsDraining_ok|done]. Qed.

Lemma carried_refl σ s : shard_ok σ s -> carried σ s s.
Proof. done. Qed.

Lemma carried_ok σ fr fr' :
  items_ok σ fr -> flows_ok fr -> shard_rel (fun _ s s' => carried σ s s') fr fr' -> fr_allShards fr' ≡ₚ fr_allShards fr ->
  fr_config fr' = fr_config fr -> fr_flowStates fr' = fr_flowStates fr ->
  fr_priorityBandStates fr' = fr_priorityBandStates fr -> fr_totalLen fr' = fr_totalLen fr ->
  fr_totalByteSize fr' = fr_totalByteSize fr -> fr_perPriorityBandStats fr' = fr_perPriorityBandStats fr ->
  items_ok σ fr' /\ flows_ok fr' /\ reg_items fr' ≡ₚ reg_items fr.
Proof.
  intros Hi Hf Hrel Hall Hcf Hfs Hbs Hl Hb Hst.
  set (fr0 := set_topology (fr_activeShards fr') (fr_drainingShards fr') (fr_allShards fr) fr').
  assert (Hrel0 : shard_rel (fun _ s s' => carried σ s s') fr fr0) by exact Hrel.
  destruct (items_transfer σ fr fr0 Hi) as [Hi0 Hp0]; [done..| | |].
  { intros ptr Hp. destruct (Hrel0 ptr Hp) as (s & s' & ? & ? & ? & ? & _). by exists s, s'. }
  { intros p st. change (fr_perPriorityBandStats fr0) with (fr_perPriorityBandStats fr'). rewrite Hst. by left. }
  assert (Hf0 : flows_ok fr0).
  { eapply (flows_transfer fr); [done..| |].
    - intros k [fs Hk]. change (fr_config fr0) with (fr_config fr'). rewrite Hcf. by apply (fo_flow _ Hf k fs).
    - intros ptr Hp. destruct (Hrel0 ptr Hp) as (s & s' & ? & ? & _ & _ & Hq & _). exists s, s'.
      split; [done|]. split; [done|]. intros k. by rewrite Hq. }
  assert (Heq : fr' = set_topology (fr_activeShards fr') (fr_drainingShards fr') (fr_allShards fr') fr0)
    by (by destruct fr').
  destruct (items_perm σ fr0 (fr_activeShards fr') (fr_drainingShards fr') (fr_allShards fr') Hi0 Hall) as [Hi' Hp'].
  pose proof (flows_perm fr0 (fr_activeShards fr') (fr_drainingShards fr') (fr_allShards fr') Hf0 Hall) as Hf'.
  rewrite <- Heq in Hi', Hp', Hf'. split_and!; [done|done|by rewrite Hp'].
Qed.

Lemma executeScaleDown_ok σ fr n :
  reg_ok σ fr ->
  exists fr', executeScaleDownLocked (@range) n fr = Some fr' /\ reg_ok σ fr' /\
    reg_items fr' ≡ₚ reg_items fr /\ fr_activeShards fr' = take n (fr_activeShards fr).
Proof.
  intros Hok. pose proof Hok as [Ht Hc Hi Hf]. unfold executeScaleDownLocked.
  set (A := take n (fr_activeShards fr)). set (D := drop n (fr_activeShards fr)).
  pose proof (active_nodup _ Ht) as Hnda. rewrite <- (take_drop n (fr_activeShards fr)) in Hnda.
  apply NoDup_app in Hnda as (HndA & Hdis & HndD).
  assert (HA : forall ptr, ptr ∈ A -> ptr ∈ fr_activeShards fr)
    by (intros ptr Hp; rewrite <- (take_drop n (fr_activeShards fr)); apply elem_of_app; by left).
  assert (HD : forall ptr, ptr ∈ D -> ptr ∈ fr_activeShards fr)
    by (intros ptr Hp; rewrite <- (take_drop n (fr_activeShards fr)); apply elem_of_app; by right).
  destruct (add_draining fr D Ht HD HndD) as (dr & -> & Hdp & Hdl). cbn [mbind option_bind].
  destruct (mark_draining σ fr D Ht Hi) as (h1 & -> & _ & Hout1 & Hin1); [|done|].
  { intros ptr Hp. by apply active_in_all, HD. }
  cbn [mbind option_bind]. set (fr1 := set_topology A dr (fr_allShards fr) (set_heap h1 fr)).
  destruct (repartition_spec (@range) Hrange σ fr1 HndA (co_bands _ _ Hc)) as (h2 & -> & _ & Hout2 & Hin2).
  { intros ptr Hp. destruct (active_shard (@range) σ fr ptr Ht Hc Hi (HA ptr Hp)) as (s & Hs & ? & Hd).
    exists s. split_and!; [|done|simpl; by rewrite Hd]. simpl. by rewrite Hout1 by (by apply Hdis). }
  cbn [mbind option_bind]. eexists. split; [reflexivity|]. set (fr' := updateAllShardsCacheLocked _ _).
  assert (Hall : fr_allShards fr' ≡ₚ fr_allShards fr).
  { unfold fr'. rewrite updateAllShards_all by done. simpl. rewrite Hdp, (to_all _ Ht).
    transitivity ((A ++ D) ++ (snd <$> map_to_list (fr_drainingShards fr))); [solve_Permutation|].
    unfold A, D. by rewrite take_drop. }
  assert (Hrel : forall ptr, ptr ∈ fr_allShards fr -> exists s s1 s2, fr_heap fr !! ptr = Some s /\
            h1 !! ptr = Some s1 /\ h2 !! ptr = Some s2 /\ carried σ s s2 /\
            sh_id s2 = sh_id s1 /\ sh_isDraining s2 = sh_isDraining s1).
  { intros ptr Hp. destruct (decide (ptr ∈ A)) as [[i HpA]%list_elem_of_lookup|HnA].
    - destruct (Hin2 i ptr HpA) as (s1 & s2 & Hs1 & Hs2 & (? & ? & ? & ? & ?) & ? & _). simpl in Hs1.
      exists s1, s1, s2. rewrite <- Hout1 by (apply Hdis; by eapply list_elem_of_lookup_2). split_and!; done.
    - destruct (decide (ptr ∈ D)) as [HpD|HnD].
      + destruct (Hin1 ptr HpD) as (s & Hs & Hm). exists s, (markAsDraining s), (markAsDraining s).
        rewrite (Hout2 ptr HnA). do 3 (split; [done|]).
        split; [by apply carried_mark, (io_shard _ _ Hi ptr)|done].
      + destruct (to_heap _ Ht ptr Hp) as [s Hs]. exists s, s, s. rewrite (Hout2 ptr HnA). simpl.
        rewrite (Hout1 ptr HnD). do 3 (split; [done|]).
        split; [by apply carried_refl, (io_shard _ _ Hi ptr)|done]. }
  destruct (carried_ok σ fr fr') as (Hi' & Hf' & Hp'); [done|done| |done..|].
  { intros ptr Hp. destruct (Hrel ptr Hp) as (s & s1 & s2 & ? & _ & ? & ? & _). by exists s, s2. }
  split_and!; [|done|done]. split; [|split|done|done].
  - eapply (scale_down_topo fr fr' n dr h1); try done.
    + rewrite Hall. apply Ht.
    + intros ptr Hp. destruct (Hrel ptr Hp) as (s & s1 & s2 & _ & ? & ? & _ & ? & ?). by exists s1, s2.
  - exact (co_bands _ _ Hc).
  - apply Hc.
  - intros ptr s2' Hp Hs2'. rewrite Hall in Hp. destruct (Hrel ptr Hp) as (s & s1 & s2 & Hs & _ & Hs2 & (_ & _ & _ & Hd) & _).
    simpl in Hs2'. assert (s2 = s2') as -> by congruence. rewrite Hd. by apply (co_dom _ _ Hc ptr).
  - intros i ptr s2' Hp Hs2'. simpl in Hp, Hs2'. destruct (Hin2 i ptr Hp) as (s1 & s2 & Hs1 & Hs2 & _ & Hd & Hcfg).
    assert (s2 = s2') as -> by congruence. simpl in Hs1. rewrite Hout1 in Hs1 by (apply Hdis; by eapply list_elem_of_lookup_2).
    apply list_elem_of_lookup_2, HA in Hp as HpA. apply list_elem_of_lookup in HpA as [j Hj].
    destruct (co_active _ _ Hc j ptr s1 Hj Hs1) as [Hd1 _]. split; [simpl; by rewrite Hd, Hd1|exact Hcfg].
  - apply Hc.
Qed.
(** ** Scaling up *)

Lemma new_shards_spec σ cur k fr :
  config_ready (fr_config fr) -> 0 <= fr_nextShardID fr -> fr_nextShardID fr + Z.of_nat k < two64 ->
  exists ss, new_shards (@range) cur k fr = Some ss /\ length ss = k /\
    forall i s, ss !! i = Some s -> shard_ok σ s /\ shard_items s = [] /\
      dom (sh_priorityBands s) = dom (PriorityBands (fr_config fr)) /\ (forall key, queue_at key s = None) /\
      sh_id s = shardID (fr_nextShardID fr + Z.of_nat i) /\ sh_isDraining s = false.
Proof.
  intros Hc Hn Hlt. unfold new_shards.
  set (f := fun i => newShard range _ _).
  assert (Hf : forall i, (i < k)%nat -> exists s, f i = Some s /\ shard_ok σ s /\ shard_items s = [] /\
      dom (sh_priorityBands s) = dom (PriorityBands (fr_config fr)) /\ (forall key, queue_at key s = None) /\
      sh_id s = shardID (fr_nextShardID fr + Z.of_nat i) /\ sh_isDraining s = false).
  { intros i Hi. destruct (partition_ready (@range) Hrange (Z.of_nat (cur + i)) (Z.of_nat (cur + k)) _ Hc) as [Hwf Hd].
    destruct (newShard_ok range σ (shardID (u64 (fr_nextShardID fr + Z.of_nat i)))
      (partition range (Z.of_nat (cur + i)) (Z.of_nat (cur + k)) (fr_config fr)) (Hrange _ _ _ _ _) Hwf)
      as (s & Hs & ? & ? & Hds & ? & _ & Hid & ?).
    exists s. split_and!; try done; [by rewrite Hds|]. rewrite Hid, u64_id; [done|]. unfold is_u64. lia. }
  destruct (mapM f (seq 0 k)) as [ss|] eqn:Hm.
  - exists ss. apply mapM_Some in Hm. split_and!; [done| |].
    + apply Forall2_length in Hm. by rewrite length_seq in Hm.
    + intros i s Hs. destruct (Forall2_lookup_r _ _ _ _ _ Hm Hs) as (j & Hj & Hfj).
      apply lookup_seq in Hj as [-> Hj]. destruct (Hf (0 + i)%nat Hj) as (s' & Hs' & ?). by simplify_eq.
  - exfalso. assert (Hsome : is_Some (mapM f (seq 0 k))); [|rewrite Hm in Hsome; by destruct Hsome].
    apply mapM_is_Some_2, Forall_forall. intros i Hi%elem_of_seq. destruct (Hf i) as (s & Hs & _); [lia|]. by exists s.
Qed.

Definition components_ok (σ : Store) (n : nat) (m : gmap FlowKey (list (OrderingPolicy * AnyQueue))) : Prop :=
  forall key cs, m !! key = Some cs -> length cs = n /\ forall e, e ∈ cs -> sq_inv σ e.2 /\ sq_contents e.2 = [].

Lemma prepare_components_spec σ n keys : forall fr acc,
  config_ready (fr_config fr) -> components_ok σ n acc ->
  (forall key, key ∈ keys -> is_Some (PriorityBands (fr_config fr) !! Priority key)) ->
  exists acc' next, prepare_components keys n fr acc = Some (inl (acc', set_next (fr_nextShardID fr) next fr)) /\
    components_ok σ n acc' /\ dom acc' = dom acc ∪ list_to_set keys.
Proof.
  induction keys as [|key keys IH]; intros fr acc Hc Hacc Hkeys; cbn [prepare_components].
  { exists acc, (fr_nextQueue fr). split_and!; [by destruct fr|done|set_solver]. }
  destruct (buildFlowComponents_spec σ key n fr Hc) as (cs & next & -> & Hlen & Hcs); [apply Hkeys; left|].
  cbn [mbind option_bind].
  destruct (IH (set_next (fr_nextShardID fr) next fr) (<[key := cs]> acc)) as (acc' & next' & -> & ? & Hd); [done| | |].
  - intros k c [[<- <-]|[_ ?]]%lookup_insert_Some; [done|by eapply Hacc].
  - intros k Hk. apply Hkeys. by right.
  - exists acc', next'. split_and!; [done|done|]. rewrite Hd, dom_insert_L. set_solver.
Qed.

Lemma populate_spec σ n comps i s :
  components_ok σ n comps -> (i < n)%nat -> shard_ok σ s ->
  (forall key, key ∈ dom comps -> Priority key ∈ dom (sh_priorityBands s)) ->
  exists s', populate (@range) comps (i, s) = Some s' /\ shard_ok σ s' /\ same_items s s' /\
    dom (sh_priorityBands s') = dom (sh_priorityBands s) /\ sh_id s' = sh_id s /\
    sh_isDraining s' = sh_isDraining s /\
    (forall k, is_Some (queue_at k s') <-> is_Some (queue_at k s) \/ k ∈ dom comps).
Proof.
  intros Hcomps Hi Hok Hb. unfold populate. simpl.
  set (P := fun (l : list (FlowKey * list (OrderingPolicy * AnyQueue))) s' =>
    (forall e, e ∈ l -> comps !! e.1 = Some e.2) /\ shard_ok σ s' /\ same_items s s' /\
    dom (sh_priorityBands s') = dom (sh_priorityBands s) /\ sh_id s' = sh_id s /\
    sh_isDraining s' = sh_isDraining s /\
    (forall k, is_Some (queue_at k s') -> is_Some (queue_at k s) \/ k ∈ dom comps) /\
    (forall k, is_Some (queue_at k s) \/ k ∈ dom comps -> is_Some (queue_at k s') \/ k ∈ l.*1)).
  match goal with |- context [ofold ?f ?l s] => destruct (ofold_total f P l s) as (s' & Hrun & HP) end.
  - intros [key cs] l s1 (Hl & Hok1 & Hi1 & Hd1 & Hid1 & Hdr1 & Hq1 & Hq2). simpl.
    assert (Hkey : comps !! key = Some cs) by (apply (Hl (key, cs)); left).
    destruct (Hcomps key cs Hkey) as [Hlen Hcs].
    destruct (lookup_lt_is_Some_2 cs i) as [c Hc]; [lia|]. rewrite Hc. cbn [mbind option_bind].
    destruct (Hcs c) as [Hinv Hnil]; [by eapply list_elem_of_lookup_2|].
    destruct (synchronizeFlow_ok σ s1 key c.1 c.2 Hok1) as (s2 & Hrun & Hok2 & Hi2 & Hqo & Hqk & Hd2 & _ & Hid2 & Hdr2);
      [|done|done|].
    { apply elem_of_dom. rewrite Hd1. apply Hb. by apply elem_of_dom_2 in Hkey. }
    exists s2. split; [done|]. split_and!; try congruence.
    + intros e He. apply Hl. by right.
    + by eapply same_items_trans.
    + intros k Hk. destruct (decide (k = key)) as [->|Hne]; [right; by apply elem_of_dom_2 in Hkey|].
      rewrite Hqo in Hk by done. by apply Hq1.
    + intros k Hk. destruct (decide (k = key)) as [->|Hne]; [by left|]. rewrite Hqo by done.
      destruct (Hq2 k Hk) as [?|Hkl]; [by left|]. simpl in Hkl. apply elem_of_cons in Hkl as [?|?]; [done|by right].
  - split_and!; try done; [|by left|].
    + intros [k c]. rewrite Hrange. by intros ?%elem_of_map_to_list.
    + intros k [?|[c Hk]%elem_of_dom]; [by left|right]. apply list_elem_of_fmap. exists (k, c).
      split; [done|]. by rewrite Hrange, elem_of_map_to_list.
  - exists s'. destruct HP as (_ & ? & ? & ? & ? & ? & H1 & H2). split_and!; try done. intros k. split; [apply H1|].
    intros Hk. destruct (H2 k Hk) as [?|?%elem_of_nil]; done.
Qed.
(** A shard that is ready to join. *)
Definition ready_shard (σ : Store) (fr : FlowRegistry) (i : nat) (s : registryShard) : Prop :=
  shard_ok σ s /\ shard_items s = [] /\ dom (sh_priorityBands s) = dom (PriorityBands (fr_config fr)) /\
  sh_id s = shardID (fr_nextShardID fr + Z.of_nat i) /\ sh_isDraining s = false /\
  forall k, is_Some (queue_at k s) <-> is_Some (fr_flowStates fr !! k).

Lemma populate_all σ fr n comps ss :
  flows_ok fr -> components_ok σ n comps -> dom comps = dom (fr_flowStates fr) -> length ss = n ->
  (forall i s, ss !! i = Some s -> shard_ok σ s /\ shard_items s = [] /\
     dom (sh_priorityBands s) = dom (PriorityBands (fr_config fr)) /\ (forall key, queue_at key s = None) /\
     sh_id s = shardID (fr_nextShardID fr + Z.of_nat i) /\ sh_isDraining s = false) ->
  exists ss', mapM (populate (@range) comps) (imap pair ss) = Some ss' /\ length ss' = n /\
    forall i s', ss' !! i = Some s' -> ready_shard σ fr i s'.
Proof.
  intros Hf Hcomps Hd Hlen Hss.
  assert (Hone : forall i s, ss !! i = Some s -> exists s', populate (@range) comps (i, s) = Some s' /\ ready_shard σ fr i s').
  { intros i s Hi. destruct (Hss i s Hi) as (Hok & Hnil & Hdom & Hq & Hid & Hdr).
    destruct (populate_spec σ n comps i s Hcomps) as (s' & Hrun & Hok' & [Hi' _] & Hd' & Hid' & Hdr' & Hq'); [|done| |].
    { rewrite <- Hlen. by eapply lookup_lt_Some. }
    { intros key Hk. rewrite Hd in Hk. apply elem_of_dom in Hk as [fs Hk]. rewrite Hdom. apply elem_of_dom.
      by apply (fo_flow _ Hf key fs). }
    exists s'. split; [done|]. split_and!; try congruence.
    - apply Permutation_nil_r. by rewrite Hi', Hnil.
    - intros k. rewrite Hq', Hq, Hd, elem_of_dom. split; [intros [[? ?]|]; done|by right]. }
  destruct (mapM (populate (@range) comps) (imap pair ss)) as [ss'|] eqn:Hm.
  - exists ss'. apply mapM_Some in Hm. split_and!; [done| |].
    + apply Forall2_length in Hm. rewrite length_imap in Hm. congruence.
    + intros i s' Hs'. destruct (Forall2_lookup_r _ _ _ _ _ Hm Hs') as ([j s] & Hj & Hrun).
      rewrite list_lookup_imap in Hj. apply fmap_Some in Hj as (t & Ht & [= -> ->]).
      destruct (Hone i t Ht) as (s'' & Hrun' & ?). congruence.
  - exfalso. assert (Hsome : is_Some (mapM (populate (@range) comps) (imap pair ss)));
      [|rewrite Hm in Hsome; by destruct Hsome].
    apply mapM_is_Some_2, Forall_forall. intros [j s] (i & Hi)%list_elem_of_lookup.
    rewrite list_lookup_imap in Hi. apply fmap_Some in Hi as (t & Ht & [= -> ->]).
    destruct (Hone i t Ht) as (s' & Hs' & _). by exists s'.
Qed.

(** The registry with [ss] appended to the active shards. *)
Definition grown (ss : list registryShard) (nid : Z) (q : positive) (fr : FlowRegistry) : FlowRegistry :=
  let ptrs := seq (length (fr_heap fr)) (length ss) in
  set_topology (fr_activeShards fr ++ ptrs) (fr_drainingShards fr) (fr_allShards fr ++ ptrs)
    (set_next nid q (set_heap (fr_heap fr ++ ss) fr)).

Lemma grown_lookup ss nid q fr ptr s :
  topo_ok fr -> ptr ∈ fr_allShards (grown ss nid q fr) -> fr_heap (grown ss nid q fr) !! ptr = Some s ->
  (ptr ∈ fr_allShards fr /\ fr_heap fr !! ptr = Some s) \/
  exists i, ptr = (length (fr_heap fr) + i)%nat /\ ss !! i = Some s /\ ptr ∉ fr_allShards fr.
Proof.
  intros Ht Hp Hs. simpl in Hp, Hs. apply elem_of_app in Hp as [Hp|Hp].
  - left. split; [done|]. destruct (to_heap _ Ht _ Hp) as [t Ht']. rewrite lookup_app_l in Hs; [done|].
    by eapply lookup_lt_Some.
  - right. apply elem_of_seq in Hp as [Hge Hlt]. rewrite lookup_app_r in Hs by done.
    exists (ptr - length (fr_heap fr))%nat. split_and!; [lia|done|]. intros Hin.
    destruct (to_heap _ Ht _ Hin) as [t Ht']. apply lookup_lt_Some in Ht'. lia.
Qed.

Lemma grown_topo σ ss nid q fr :
  topo_ok fr -> (forall i s, ss !! i = Some s -> ready_shard σ fr i s) ->
  nid = fr_nextShardID fr + Z.of_nat (length ss) -> topo_ok (grown ss nid q fr).
Proof.
  intros Ht Hss ->. pose proof Ht as [Hnd Hall Hheap Hn Hid Hids Hact Hdr].
  assert (Hlk := fun ptr s => grown_lookup ss (fr_nextShardID fr + Z.of_nat (length ss)) q fr ptr s Ht).
  assert (Hlt : forall ptr, ptr ∈ fr_allShards fr -> (ptr < length (fr_heap fr))%nat)
    by (intros ptr [t Ht']%Hheap; by eapply lookup_lt_Some).
  split.
  - simpl. apply NoDup_app. split_and!; [done| |apply NoDup_seq]. intros ptr Hp%Hlt ?%elem_of_seq. lia.
  - simpl. rewrite Hall. solve_Permutation.
  - simpl. intros ptr [Hp|Hp]%elem_of_app; apply lookup_lt_is_Some; rewrite length_app.
    + specialize (Hlt ptr Hp). lia.
    + apply elem_of_seq in Hp. lia.
  - simpl. lia.
  - intros ptr s Hp Hs. destruct (Hlk ptr s Hp Hs) as [[Hp' Hs']|(i & -> & Hi & _)]; simpl.
    + destruct (Hid ptr s Hp' Hs') as (n & ? & ?). exists n. split; [done|lia].
    + destruct (Hss i s Hi) as (_ & _ & _ & Hi' & _). exists (fr_nextShardID fr + Z.of_nat i). split; [done|].
      apply lookup_lt_Some in Hi. lia.
  - intros p1 p2 s1 s2 Hp1 Hp2 Hs1 Hs2 Heq.
    destruct (Hlk p1 s1 Hp1 Hs1) as [[Hp1' Hs1']|(i1 & -> & Hi1 & _)],
             (Hlk p2 s2 Hp2 Hs2) as [[Hp2' Hs2']|(i2 & -> & Hi2 & _)].
    + by eapply Hids.
    + destruct (Hid p1 s1 Hp1' Hs1') as (n & Hn1 & ?). destruct (Hss i2 s2 Hi2) as (_ & _ & _ & Hid2 & _).
      rewrite Hn1, Hid2 in Heq. apply shardID_inj in Heq; lia.
    + destruct (Hid p2 s2 Hp2' Hs2') as (n & Hn1 & ?). destruct (Hss i1 s1 Hi1) as (_ & _ & _ & Hid2 & _).
      rewrite Hn1, Hid2 in Heq. apply shardID_inj in Heq; lia.
    + destruct (Hss i1 s1 Hi1) as (_ & _ & _ & Hid1 & _). destruct (Hss i2 s2 Hi2) as (_ & _ & _ & Hid2 & _).
      rewrite Hid1, Hid2 in Heq. apply shardID_inj in Heq; lia.
  - intros ptr s Hp Hs. simpl in Hp. assert (Hin : ptr ∈ fr_allShards (grown ss (fr_nextShardID fr + Z.of_nat (length ss)) q fr)).
    { simpl. apply elem_of_app in Hp as [Hp|Hp]; apply elem_of_app; [left; by apply active_in_all|by right]. }
    destruct (Hlk ptr s Hin Hs) as [[Hp' Hs']|(i & -> & Hi & Hnin)].
    + apply elem_of_app in Hp as [Hp|Hp]; [by eapply Hact|]. apply elem_of_seq in Hp. specialize (Hlt ptr Hp'). lia.
    + by apply (Hss i s Hi).
  - intros id ptr s Hp Hs. simpl in Hp, Hs. rewrite lookup_app_l in Hs by (apply Hlt; by eapply draining_in_all).
    by eapply Hdr.
Qed.
Lemma grown_items σ ss nid q fr :
  topo_ok fr -> items_ok σ fr -> flows_ok fr -> (forall i s, ss !! i = Some s -> ready_shard σ fr i s) ->
  items_ok σ (grown ss nid q fr) /\ flows_ok (grown ss nid q fr) /\ reg_items (grown ss nid q fr) ≡ₚ reg_items fr.
Proof.
  intros Ht Hi Hf Hss. assert (Hlk := fun ptr s => grown_lookup ss nid q fr ptr s Ht).
  assert (Hg : forall F, (forall s x, x ∈ F s -> x ∈ shard_items s) ->
            gather F (fr_heap (grown ss nid q fr)) (fr_allShards (grown ss nid q fr)) ≡ₚ gather F (fr_heap fr) (fr_allShards fr)).
  { intros F HF. simpl. unfold gather. rewrite bind_app.
    fold (gather F (fr_heap fr ++ ss) (fr_allShards fr)).
    assert (gather F (fr_heap fr ++ ss) (seq (length (fr_heap fr)) (length ss)) = []) as Hnil.
    { apply elem_of_nil_inv. intros x (ptr & s & Hp & Hs & Hx)%elem_of_gather. apply elem_of_seq in Hp.
      rewrite lookup_app_r in Hs by lia. destruct (Hss _ s Hs) as (_ & Hnil & _).
      apply HF in Hx. rewrite Hnil in Hx. by apply elem_of_nil in Hx. }
    unfold gather in Hnil at 1. rewrite Hnil, app_nil_r. apply gather_ext. intros ptr Hp.
    destruct (to_heap _ Ht ptr Hp) as [t Ht']. rewrite lookup_app_l; [done|]. by eapply lookup_lt_Some. }
  pose proof (Hg shard_items (fun _ _ H => H)) as Hgi. destruct Hi as [Hsh Hnd Hcn Hst]. split_and!; [|split|done].
  - split.
    + intros ptr s Hp Hs. destruct (Hlk ptr s Hp Hs) as [[? ?]|(i & _ & Hi & _)]; [by eapply Hsh|by apply (Hss i s Hi)].
    + unfold reg_items. by rewrite Hgi.
    + eapply counts_perm; [symmetry; exact Hgi|done].
    + intros p st Hp. eapply counts_perm; [symmetry; apply Hg, items_at_shard|by apply Hst].
  - apply Hf.
  - intros k ptr s Hk Hp Hs. destruct (Hlk ptr s Hp Hs) as [[? ?]|(i & _ & Hi & _)]; [by eapply (fo_queue _ Hf)|].
    by apply (Hss i s Hi).
  - intros k ptr s Hp Hs Hk. destruct (Hlk ptr s Hp Hs) as [[? ?]|(i & _ & Hi & _)]; [by eapply (fo_queues _ Hf)|].
    by apply (Hss i s Hi).
  - apply Hf.
  - apply Hf.
Qed.

Lemma topo_perm fr all :
  topo_ok fr -> all ≡ₚ fr_allShards fr -> topo_ok (set_topology (fr_activeShards fr) (fr_drainingShards fr) all fr).
Proof.
  intros [Hnd Hall Hheap Hn Hid Hids Hact Hdr] Hp. split; simpl; try done.
  - by rewrite Hp.
  - by rewrite Hp.
  - intros ptr. rewrite Hp. apply Hheap.
  - intros ptr s. rewrite Hp. apply Hid.
  - intros p1 p2 s1 s2. rewrite !Hp. apply Hids.
Qed.

(** New shares for everybody, and the new list of all shards. *)
Lemma settle σ fr0 fr :
  topo_ok fr -> items_ok σ fr -> flows_ok fr -> config_ready (fr_config fr) ->
  (exists d, DefaultPriorityBand (fr_config fr) = Some d /\ forall p, band_ready p (set_priority p d)) ->
  (forall ptr s, ptr ∈ fr_allShards fr -> fr_heap fr !! ptr = Some s ->
     dom (sh_priorityBands s) ⊆ dom (PriorityBands (fr_config fr))) ->
  (forall ptr s, ptr ∈ fr_activeShards fr -> fr_heap fr !! ptr = Some s ->
     dom (sh_priorityBands s) = dom (PriorityBands (fr_config fr))) ->
  dom (fr_perPriorityBandStats fr) = dom (PriorityBands (fr_config fr)) ->
  fr = set_topology (fr_activeShards fr0) (fr_drainingShards fr0) (fr_allShards fr) fr0 ->
  exists fr1, repartitionShardConfigsLocked (@range) fr0 = Some fr1 /\
    let fr' := updateAllShardsCacheLocked (@range) fr1 in
    reg_ok σ fr' /\ reg_items fr' ≡ₚ reg_items fr /\ fr_activeShards fr' = fr_activeShards fr.
Proof.
  intros Ht Hi Hf Hc Hdef Hdom Hact Hst Hfr0.
  assert (Ha0 : fr_activeShards fr0 = fr_activeShards fr) by (by rewrite Hfr0).
  assert (Hd0 : fr_drainingShards fr0 = fr_drainingShards fr) by (by rewrite Hfr0).
  assert (Hh0 : fr_heap fr0 = fr_heap fr) by (by rewrite Hfr0).
  assert (Hc0 : fr_config fr0 = fr_config fr) by (by rewrite Hfr0).
  destruct (repartition_spec (@range) Hrange σ fr0) as (h2 & -> & _ & Hout & Hin).
  { rewrite Ha0. by apply active_nodup. } { by rewrite Hc0. }
  { intros ptr. rewrite Ha0, Hh0, Hc0. intros Hp. pose proof (active_in_all _ _ Ht Hp) as Hp'.
    destruct (to_heap _ Ht ptr Hp') as [s Hs]. exists s. split_and!; [done|by eapply (io_shard _ _ Hi)|].
    by rewrite (Hact ptr s). }
  rewrite Ha0, Hh0, Hc0 in Hin. rewrite Ha0, Hh0 in Hout. eexists. split; [reflexivity|].
  set (fr' := updateAllShardsCacheLocked _ _). intros fr''.
  assert (Hall : fr_allShards fr' ≡ₚ fr_allShards fr).
  { unfold fr'. rewrite updateAllShards_all by done. simpl. by rewrite (to_all _ Ht), Ha0, Hd0. }
  set (fr1 := set_heap h2 fr).
  assert (Hrel : shard_rel (fun _ s s' => carried σ s s' /\ sh_id s' = sh_id s /\ sh_isDraining s' = sh_isDraining s) fr fr1).
  { intros ptr Hp. destruct (decide (ptr ∈ fr_activeShards fr)) as [[i Hpi]%list_elem_of_lookup|Hn].
    - destruct (Hin i ptr Hpi) as (s & s' & ? & ? & (? & ? & ? & ? & ?) & ? & _). exists s, s'. done.
    - destruct (to_heap _ Ht ptr Hp) as [s Hs]. exists s, s. split; [done|]. simpl. rewrite Hout by done.
      split; [done|]. split; [|done]. by apply carried_refl, (io_shard _ _ Hi ptr). }
  destruct (carried_ok σ fr fr1 Hi Hf) as (Hi1 & Hf1 & Hp1); [|done..|].
  { intros ptr Hp. destruct (Hrel ptr Hp) as (s & s' & ? & ? & ? & _). by exists s, s'. }
  assert (Ht1 : topo_ok fr1).
  { eapply (topo_transfer fr); [done..|]. intros ptr Hp.
    destruct (Hrel ptr Hp) as (s & s' & ? & ? & _ & ? & ?). by exists s, s'. }
  assert (Heq : fr' = set_topology (fr_activeShards fr1) (fr_drainingShards fr1) (fr_allShards fr') fr1).
  { unfold fr', fr1. rewrite Hfr0. done. }
  change fr'' with fr'. clear fr''. rewrite Heq. clear Heq. revert Hall.
  generalize (fr_allShards fr'). intros all Hall.
  destruct (items_perm σ fr1 (fr_activeShards fr1) (fr_drainingShards fr1) all Hi1 Hall) as [Hi2 Hp2].
  split_and!; [|by rewrite Hp2|done]. split; [by apply topo_perm| |done|by apply flows_perm].
  split; simpl; try done.
  - intros ptr s' Hp Hs'. rewrite Hall in Hp.
    destruct (shard_rel_inv _ _ _ _ _ Hrel Hp Hs') as (s & Hs & (_ & _ & _ & ->) & _). by eapply Hdom.
  - intros i ptr s' Hp Hs'. destruct (Hin i ptr Hp) as (s & s'' & Hs & Hs'' & _ & Hd & Hcfg).
    assert (s'' = s') as -> by congruence. rewrite Hd. split; [|done].
    eapply Hact; [by eapply list_elem_of_lookup_2|done].
Qed.
Lemma executeScaleUp_ok σ fr n :
  reg_ok σ fr -> (length (fr_activeShards fr) <= n)%nat -> fr_nextShardID fr + Z.of_nat n < two64 ->
  exists fr', executeScaleUpLocked (@range) n fr = Some (fr', None) /\ reg_ok σ fr' /\
    reg_items fr' ≡ₚ reg_items fr /\ length (fr_activeShards fr') = n.
Proof.
  intros [Ht Hc Hi Hf] Hle Hlt. unfold executeScaleUpLocked.
  set (k := (n - length (fr_activeShards fr))%nat).
  destruct (new_shards_spec σ (length (fr_activeShards fr)) k fr (co_bands _ _ Hc) (to_next _ Ht))
    as (ss & -> & Hlen & Hss); [lia|]. cbn [mbind option_bind].
  destruct (prepare_components_spec σ k (fst <$> range (fr_flowStates fr)) fr ∅ (co_bands _ _ Hc))
    as (comps & next & -> & Hcomps & Hd); [done| |].
  { intros key ([key' fs] & -> & He)%list_elem_of_fmap. rewrite Hrange, elem_of_map_to_list in He.
    by apply (fo_flow _ Hf key' fs). }
  cbn [mbind option_bind].
  assert (Hdom : dom comps = dom (fr_flowStates fr)).
  { rewrite Hd, dom_empty_L, (left_id_L ∅ (∪)), Hrange. symmetry. apply dom_alt_L || apply set_eq.
    intros key. rewrite elem_of_list_to_set, elem_of_dom, list_elem_of_fmap. split.
    - intros [fs Hk]. exists (key, fs). split; [done|by apply elem_of_map_to_list].
    - intros ([key' fs] & -> & He%elem_of_map_to_list). by eexists. }
  destruct (populate_all σ fr k comps ss Hf Hcomps Hdom Hlen Hss) as (ss' & -> & Hlen' & Hss').
  cbn [mbind option_bind].
  set (fr0 := set_next _ _ _).
  pose proof (grown_topo σ ss' (u64 (fr_nextShardID fr + Z.of_nat k)) next fr Ht Hss') as Htg.
  destruct (grown_items σ ss' (u64 (fr_nextShardID fr + Z.of_nat k)) next fr Ht Hi Hf Hss') as (Hig & Hfg & Hpg).
  set (frg := grown _ _ _ _) in *.
  assert (Hlk := fun ptr s => grown_lookup ss' (u64 (fr_nextShardID fr + Z.of_nat k)) next fr ptr s Ht).
  fold frg in Hlk.
  assert (Htg' : topo_ok frg).
  { apply Htg. rewrite Hlen'. apply u64_id. pose proof (to_next _ Ht). unfold is_u64. lia. }
  destruct (settle σ fr0 frg Htg' Hig Hfg) as (fr1 & -> & Hok' & Hp' & Ha').
  - exact (co_bands _ _ Hc).
  - apply Hc.
  - intros ptr s Hp Hs. destruct (Hlk ptr s Hp Hs) as [[? ?]|(i & _ & Hi' & _)]; [by eapply (co_dom _ _ Hc)|].
    destruct (Hss' i s Hi') as (_ & _ & -> & _). done.
  - intros ptr s Hp Hs. pose proof (active_in_all _ _ Htg' Hp) as Hp'.
    destruct (Hlk ptr s Hp' Hs) as [[Hpa Hs']|(i & _ & Hi' & _)].
    + simpl in Hp. apply elem_of_app in Hp as [[i Hpi]%list_elem_of_lookup|Hp]; [by apply (co_active _ _ Hc i ptr s)|].
      apply elem_of_seq in Hp. apply lookup_lt_Some in Hs'. lia.
    + destruct (Hss' i s Hi') as (_ & _ & -> & _). done.
  - apply Hc.
  - unfold frg, grown, fr0. rewrite Hlen'. done.
  - cbn [mbind option_bind]. eexists. split; [reflexivity|]. split_and!; [done|by rewrite Hp'|].
    rewrite Ha'. simpl. rewrite length_app, length_seq, Hlen'. lia.
Qed.

Lemma updateShardCount_ok σ fr n :
  reg_ok σ fr -> 0 < n -> fr_nextShardID fr + n < two64 ->
  exists fr', updateShardCount (@range) n fr = Some (fr', None) /\ reg_ok σ fr' /\
    reg_items fr' ≡ₚ reg_items fr /\ Z.of_nat (length (fr_activeShards fr')) = n.
Proof.
  intros Hok Hn Hlt. unfold updateShardCount. destruct (Z.leb_spec n 0); [lia|].
  destruct (Z.eqb_spec n (Z.of_nat (length (fr_activeShards fr)))) as [Heq|Hne]; [by exists fr|].
  destruct (Z.ltb_spec (Z.of_nat (length (fr_activeShards fr))) n).
  - destruct (executeScaleUp_ok σ fr (Z.to_nat n) Hok) as (fr' & -> & ? & ? & Hl); [lia|lia|].
    exists fr'. split_and!; [done..|]. rewrite Hl. lia.
  - destruct (executeScaleDown_ok σ fr (Z.to_nat n) Hok) as (fr' & -> & ? & ? & Ha). cbn [mbind option_bind].
    exists fr'. split_and!; [done..|]. rewrite Ha, length_take. lia.
Qed.

(** ** Construction *)

Lemma NewFlowRegistry_ok σ config d :
  config_ready config -> DefaultPriorityBand config = Some d -> (forall p, band_ready p (set_priority p d)) ->
  0 < InitialShardCount config < two64 ->
  exists fr, NewFlowRegistry (@range) config = Some (inl fr) /\ reg_ok σ fr /\ reg_items fr = [] /\
    Z.of_nat (length (fr_activeShards fr)) = InitialShardCount config.
Proof.
  intros Hc Hd Hdr Hn. unfold NewFlowRegistry. set (fr0 := mkRegistry _ _ _ _ _ _ _ _ _ _ _ _).
  assert (Hok : reg_ok σ fr0).
  { split.
    - split; simpl; try done; try by intros ? ? ?%elem_of_nil; try by intros ? ? ? ? ?%elem_of_nil.
      + constructor.
      + intros ptr ?%elem_of_nil. done.
    - split; simpl; [done|by exists d|by intros ptr s ?%elem_of_nil|done|apply dom_fmap_L].
    - split; simpl; [by intros ptr s ?%elem_of_nil|constructor|done|].
      intros p st Hst. rewrite lookup_fmap in Hst. apply fmap_Some in Hst as (? & _ & ->). done.
    - split; simpl; try done; by intros k ptr s ?%elem_of_nil. }
  destruct (updateShardCount_ok σ fr0 (InitialShardCount config) Hok) as (fr' & -> & ? & Hp & ?); [lia|simpl; lia|].
  cbn [mbind option_bind]. exists fr'. split_and!; [done..| |done]. by apply Permutation_nil_r.
Qed.
End scale.
