(* ===== verification/RegistryProps.v ===== *)
(** What the registry guarantees over the sequences of sessions, queue
    operations, garbage collections and scaling steps, and the places where
    it does not do what its comments say. *)

From S2P Require Import Prelude FlowTypes ItemProps SafeQueue ListQueue Ordering Fairness.
From S2P Require Import MaxMinHeap MaxMinHeapSpec QueueFactory ManagedQueue RegistryConfig Leasing Shard.
From S2P Require Import ShardSpec Registry RegistrySpec RegistryGC RegistryScale.

Section trace.
Variable range : forall (K V : Type) (E : EqDecision K) (C : Countable K), gmap K V -> list (K * V).
Arguments range {K V E C} _.

(** * Operations *)

Inductive reg_op :=
  | OpConnect (key : FlowKey) (now : Z)
  | OpRelease (key : FlowKey) (start : Z)
  | OpGCFlows (now : Z)
  | OpGCBands (now : Z)
  | OpSweep
  | OpScale (n : Z)
  | OpAdd (ptr : nat) (key : FlowKey) (req : FlowControlRequest) (ttl enq : Z)
  | OpRemove (ptr : nat) (key : FlowKey) (i : nat)
  | OpCleanup (ptr : nat) (key : FlowKey) (p : Item -> bool)
  | OpDrain (ptr : nat) (key : FlowKey).

Abbreviation finish m := ('(_, σ', fr') ← m; Some (σ', fr')) (only parsing).

Definition exec (op : reg_op) (σ : Store) (fr : FlowRegistry) : option (Store * FlowRegistry) :=
  match op with
  | OpConnect key now => '(fr', _) ← connect (@range) key now fr; Some (σ, fr')
  | OpRelease key start => Some (σ, release key start fr)
  | OpGCFlows now => fr' ← gcFlows (@range) now fr; Some (σ, fr')
  | OpGCBands now => fr' ← gcPriorityBands (@range) now fr; Some (σ, fr')
  | OpSweep => Some (σ, sweepDrainingShards (@range) fr)
  | OpScale n => '(fr', _) ← updateShardCount (@range) n fr; Some (σ, fr')
  | OpAdd ptr key req ttl enq =>
      let '(it, σ1) := NewItem req ttl enq σ in
      s ← fr_heap fr !! ptr;
      finish (reg_queue_op ptr key (Add it (sh_isDraining s)) σ1 fr)
  | OpRemove ptr key i =>
      s ← fr_heap fr !! ptr;
      mq ← queue_at key s;
      finish (reg_queue_op ptr key (Remove (x ← mq_items mq !! i; Handle x σ)) σ fr)
  | OpCleanup ptr key p => finish (reg_queue_op ptr key (Cleanup p) σ fr)
  | OpDrain ptr key => finish (reg_queue_op ptr key Drain σ fr)
  end.

(** What the callers guarantee: a session is released once, a processor works
    on a queue of a flow that exists, on a shard of the registry, and the
    counter of shards does not overflow. *)
Definition callable (op : reg_op) (fr : FlowRegistry) : Prop :=
  match op with
  | OpConnect _ _ | OpGCFlows _ | OpGCBands _ | OpSweep => True
  | OpRelease key start => connected key fr
  | OpScale n => fr_nextShardID fr + n < two64
  | OpAdd ptr key _ _ _ | OpRemove ptr key _ | OpCleanup ptr key _ | OpDrain ptr key =>
      ptr ∈ fr_allShards fr /\ is_Some (fr_flowStates fr !! key)
  end.

(** Nobody guarantees that a flow is collected with empty queues: the runs
    below are those in which it is.  [delete_flow_leaks_stats] is the other
    case. *)
Definition enabled (op : reg_op) (fr : FlowRegistry) : Prop :=
  callable op fr /\ match op with OpGCFlows now => gc_safe now fr | _ => True end.

Definition config_valid (c : Config) : Prop :=
  config_ready c /\ (exists d, DefaultPriorityBand c = Some d /\ forall p, band_ready p (set_priority p d)) /\
  0 < InitialShardCount c < two64.

(** Operations run one after the other; a collection cycle is three of them,
    and others may come between.  A call that panics ends the run. *)
Inductive reg_reach (config : Config) : nat -> Store -> FlowRegistry -> Prop :=
  | reach_new fr : NewFlowRegistry (@range) config = Some (inl fr) -> reg_reach config 0 (mkStore ∅ ∅) fr
  | reach_op n σ fr op σ' fr' : reg_reach config n σ fr -> enabled op fr -> exec op σ fr = Some (σ', fr') ->
      reg_reach config (S n) σ' fr'.

(** * The invariant along a run *)

Hypothesis Hrange : forall K V E C (m : gmap K V), range (E:=E) (C:=C) m ≡ₚ map_to_list m.
Abbreviation reg_ok := (RegistrySpec.reg_ok (@range)) (only parsing).

Lemma reg_ok_frames σ σ' fr : reg_ok σ fr -> frames [] σ σ' -> reg_ok σ' fr.
Proof.
  intros [Ht Hc [Hs Hnd Hcn Hst] Hf] Hfr. split; [done|done| |done]. split; [|done..].
  intros ptr s Hp Hs'. eapply shard_ok_frames; [by eapply Hs|done|]. by intros x y ?%elem_of_nil.
Qed.

Lemma reg_queue_found σ fr ptr key :
  reg_ok σ fr -> ptr ∈ fr_allShards fr -> is_Some (fr_flowStates fr !! key) ->
  exists s mq, fr_heap fr !! ptr = Some s /\ queue_at key s = Some mq /\ shard_ok σ s /\ mq_ok σ mq /\
    forall x, x ∈ mq_items mq -> x ∈ reg_items fr.
Proof.
  intros [Ht Hc Hi Hf] Hp Hk. destruct (to_heap _ Ht ptr Hp) as [s Hs].
  destruct (fo_queue _ Hf key ptr s Hk Hp Hs) as [mq Hmq]. exists s, mq.
  pose proof (io_shard _ _ Hi ptr s Hp Hs) as Hok. destruct (queue_at_items σ s key mq Hok Hmq) as (? & _ & Hsub).
  split_and!; try done. intros x Hx. apply elem_of_gather. exists ptr, s. auto.
Qed.

(** A call whose effect is known. *)
Lemma exec_queue {A} (f : Store -> managedQueue AnyQueue -> option (A * Store * managedQueue AnyQueue * list stats_delta))
    ptr key σ fr s mq a σ' mq' ds new :
  reg_ok σ fr -> ptr ∈ fr_allShards fr -> fr_heap fr !! ptr = Some s -> queue_at key s = Some mq ->
  f σ mq = Some (a, σ', mq', ds) -> effect new σ mq σ' mq' ds -> NoDup (itemRef <$> new ++ reg_items fr) ->
  (length (mq_items mq') <= length (mq_items mq) + 1)%nat ->
  exists fr', finish (reg_queue_op ptr key f σ fr) = Some (σ', fr') /\ reg_ok σ' fr' /\
    (length (reg_items fr') <= length (reg_items fr) + 1)%nat.
Proof.
  intros Hok Hp Hs Hq Hf Hef Hnd Hlen.
  destruct (reg_queue_op_ok (@range) f ptr key σ fr s mq a σ' mq' ds new)
    as (fr' & s' & rest & -> & Hok' & _ & _ & _ & _ & _ & Hi & Hi'); [done..|].
  cbn [mbind option_bind]. exists fr'. split_and!; [done|done|]. rewrite Hi, Hi', !length_app. lia.
Qed.
Lemma queue_len_le σ fr (mq : managedQueue AnyQueue) :
  reg_ok σ fr -> mq_ok σ mq -> (forall x, x ∈ mq_items mq -> x ∈ reg_items fr) ->
  mq_len mq <= Z.of_nat (length (reg_items fr)).
Proof.
  intros Hok (Hinv & -> & _) Hsub. apply inj_le, submseteq_length, NoDup_submseteq; [|done].
  apply (NoDup_fmap_1 itemRef). by eapply law_nodup.
Qed.

Lemma new_item_fresh σ fr req ttl enq it σ1 :
  reg_ok σ fr -> NewItem req ttl enq σ = (it, σ1) ->
  allocated it σ1 /\ NoDup (itemRef <$> [it] ++ reg_items fr).
Proof.
  intros [Ht Hc Hi Hf] Hn. split; [injection Hn as <- <-; unfold allocated; simpl; rewrite lookup_insert_eq; eauto|].
  simpl. apply NoDup_cons. split; [|apply Hi]. intros (y & Hy & (ptr & s & Hp & Hs & Hin)%elem_of_gather)%list_elem_of_fmap.
  destruct (shard_item_holds σ s y (io_shard _ _ Hi ptr s Hp Hs) Hin) as (h & c & Hh & _).
  injection Hn as <- <-. simpl in Hy. pose proof (is_fresh (dom (istates σ))) as Hfr. apply not_elem_of_dom in Hfr.
  unfold Handle in Hh. by rewrite <- Hy, Hfr in Hh.
Qed.

Lemma exec_add_ok ptr key req ttl enq σ fr :
  reg_ok σ fr -> ptr ∈ fr_allShards fr -> is_Some (fr_flowStates fr !! key) ->
  Z.of_nat (length (reg_items fr)) + 1 < two63 ->
  exists σ' fr', exec (OpAdd ptr key req ttl enq) σ fr = Some (σ', fr') /\ reg_ok σ' fr' /\
    (length (reg_items fr') <= length (reg_items fr) + 1)%nat.
Proof.
  intros Hok0 Hp Hk Hlt. cbn [exec]. destruct (NewItem req ttl enq σ) as [it σ1] eqn:Hn.
  destruct (new_item_fresh σ fr req ttl enq it σ1 Hok0 Hn) as [Hal Hnd].
  assert (Hok : reg_ok σ1 fr) by (eapply reg_ok_frames; [done|by eapply frames_new_item]).
  destruct (reg_queue_found σ1 fr ptr key Hok Hp Hk) as (s & mq & Hs & Hq & _ & Hmq & Hsub).
  rewrite Hs. cbn [mbind option_bind]. destruct (sh_isDraining s).
  - destruct (exec_queue (Add it true) ptr key σ1 fr s mq (Some (Sentinel ErrShardDraining)) σ1 mq [] [])
      as (fr' & Hrun & ? & ?); [done..|by apply no_effect|apply Hok|lia|]. eauto.
  - simpl in Hnd. apply NoDup_cons in Hnd as [Hfr Hnd].
    destruct (add_effect it σ1 mq Hmq Hal) as (σ' & mq' & ds & Hrun & Hef & Hi & _).
    + intros x Hx Heq. apply Hfr, list_elem_of_fmap. exists x. split; [done|by apply Hsub].
    + pose proof (queue_len_le σ1 fr mq Hok Hmq Hsub). lia.
    + destruct (exec_queue (Add it false) ptr key σ1 fr s mq None σ' mq' ds [it]) as (fr' & Hrun' & ? & ?); try done.
      * simpl. by apply NoDup_cons.
      * apply Permutation_length in Hi. cbn [length] in Hi. lia.
      * eauto.
Qed.

(** A call that takes items out. *)
Lemma exec_drop {A} (f : Store -> managedQueue AnyQueue -> option (A * Store * managedQueue AnyQueue * list stats_delta))
    ptr key σ fr s mq a σ' mq' ds :
  reg_ok σ fr -> ptr ∈ fr_allShards fr -> fr_heap fr !! ptr = Some s -> queue_at key s = Some mq ->
  f σ mq = Some (a, σ', mq', ds) -> effect [] σ mq σ' mq' ds ->
  exists σ' fr', finish (reg_queue_op ptr key f σ fr) = Some (σ', fr') /\ reg_ok σ' fr' /\
    (length (reg_items fr') <= length (reg_items fr) + 1)%nat.
Proof.
  intros Hok Hp Hs Hq Hf Hef.
  destruct (exec_queue f ptr key σ fr s mq a σ' mq' ds []) as (fr' & ? & ? & ?); [done..|apply Hok| |eauto].
  destruct (ef_items _ _ _ _ _ _ Hef) as [gone Hg]. apply Permutation_length in Hg. rewrite length_app in Hg.
  cbn [app length] in Hg. lia.
Qed.

Lemma exec_remove_ok ptr key i σ fr :
  reg_ok σ fr -> ptr ∈ fr_allShards fr -> is_Some (fr_flowStates fr !! key) ->
  exists σ' fr', exec (OpRemove ptr key i) σ fr = Some (σ', fr') /\ reg_ok σ' fr' /\
    (length (reg_items fr') <= length (reg_items fr) + 1)%nat.
Proof.
  intros Hok Hp Hk. destruct (reg_queue_found σ fr ptr key Hok Hp Hk) as (s & mq & Hs & Hq & _ & Hmq & Hsub).
  cbn [exec]. rewrite Hs. cbn [mbind option_bind]. rewrite Hq. cbn [mbind option_bind].
  destruct (mq_items mq !! i) as [x|] eqn:Hx.
  - apply list_elem_of_lookup_2 in Hx. pose proof Hmq as (Hinv & _).
    destruct (law_handle σ _ x Hinv Hx) as (h & c & Hh & _). cbn [mbind option_bind]. rewrite Hh.
    destruct (remove_effect x h σ mq Hmq Hx Hh) as (σ' & mq' & ds & Hr & Hef & _). by eapply exec_drop.
  - eapply exec_drop; [done..| |by apply no_effect]. unfold Remove. cbn [mbind option_bind].
    rewrite law_remove_nil. cbn [mbind option_bind]. by destruct mq.
Qed.

(** The one operation that panics. *)
Definition stops (op : reg_op) (fr : FlowRegistry) : Prop :=
  exists key now, op = OpConnect key now /\ ID key <> EmptyString /\ fr_flowStates fr !! key = None /\
    draining_lacks (Priority key) fr.

Lemma connect_ok key now σ fr :
  reg_ok σ fr ->
  (connect (@range) key now fr = None /\ stops (OpConnect key now) fr) \/
  exists fr' e, connect (@range) key now fr = Some (fr', e) /\ reg_ok σ fr' /\ reg_items fr' ≡ₚ reg_items fr.
Proof.
  intros Hok. destruct (decide (ID key = EmptyString)) as [He|He].
  { right. exists fr, (Some (Sentinel ErrFlowIDEmpty)). unfold connect. by rewrite bool_decide_eq_true_2. }
  destruct (fr_flowStates fr !! key) as [fs|] eqn:Hk.
  { right. destruct (connect_existing_ok (@range) σ fr key now fs) as (fr' & ? & ? & _ & ? & _); [done..|]. eauto. }
  destruct (draining_has_or_lacks (Priority key) fr (ro_topo _ _ _ Hok)) as [Hdr|Hdr].
  - right. destruct (connect_new_ok (@range) Hrange σ fr key now) as (fr' & ? & ? & _ & ? & _); [done..|]. eauto.
  - left. split; [by eapply (connect_new_panics (@range) Hrange σ)|]. by exists key, now.
Qed.

Lemma exec_ok op σ fr :
  reg_ok σ fr -> enabled op fr -> Z.of_nat (length (reg_items fr)) + 1 < two63 ->
  (exec op σ fr = None /\ stops op fr) \/
  exists σ' fr', exec op σ fr = Some (σ', fr') /\ reg_ok σ' fr' /\
    (length (reg_items fr') <= length (reg_items fr) + 1)%nat.
Proof.
  intros Hok [Hen Hgc] Hlt.
  destruct op as [key now|key start|now|now| |n|ptr key req ttl enq|ptr key i|ptr key p|ptr key]; cbn [callable] in Hen.
  - destruct (connect_ok key now σ fr Hok) as [[Hrun Hst]|(fr' & e & Hrun & Hok' & Hp)]; cbn [exec]; rewrite Hrun;
      cbn [mbind option_bind]; [by left|]. right. exists σ, fr'. split_and!; [done..|]. rewrite Hp. lia.
  - right. destruct Hen as (fs & Hk & Hl). exists σ, (release key start fr). split_and!; [done|by eapply release_ok|].
    unfold release. rewrite Hk. unfold reg_items. simpl. lia.
  - right. destruct (gcFlows_ok (@range) Hrange σ fr now Hok Hgc) as (fr' & Hrun & Hok' & _ & Hp).
    cbn [exec]. rewrite Hrun. exists σ, fr'. split_and!; [done..|]. rewrite Hp. lia.
  - right. destruct (gcPriorityBands_ok (@range) Hrange σ fr now Hok) as (fr' & Hrun & Hok' & _ & Hp).
    cbn [exec]. rewrite Hrun. exists σ, fr'. split_and!; [done..|]. rewrite Hp. lia.
  - right. destruct (sweepDrainingShards_ok (@range) Hrange σ fr Hok) as [Hok' Hp]; [lia|].
    exists σ, (sweepDrainingShards (@range) fr). split_and!; [done..|]. rewrite Hp. lia.
  - right. cbn [exec]. destruct (Z.leb_spec n 0) as [Hn|Hn].
    + unfold updateShardCount. destruct (Z.leb_spec n 0); [|lia]. cbn [mbind option_bind].
      exists σ, fr. split_and!; [done..|lia].
    + destruct (updateShardCount_ok (@range) Hrange σ fr n Hok Hn Hen) as (fr' & -> & Hok' & Hp & _).
      cbn [mbind option_bind]. exists σ, fr'. split_and!; [done..|]. rewrite Hp. lia.
  - right. destruct Hen. by apply exec_add_ok.
  - right. destruct Hen. by apply exec_remove_ok.
  - right. destruct Hen as [Hp Hk]. destruct (reg_queue_found σ fr ptr key Hok Hp Hk) as (s & mq & Hs & Hq & _ & Hmq & _).
    destruct (cleanup_effect p σ mq Hmq) as (σ' & mq' & ds & Hr & Hef & _). by eapply exec_drop.
  - right. destruct Hen as [Hp Hk]. destruct (reg_queue_found σ fr ptr key Hok Hp Hk) as (s & mq & Hs & Hq & _ & Hmq & _).
    destruct (drain_effect σ mq Hmq) as (σ' & mq' & ds & Hr & Hef & _). by eapply exec_drop.
Qed.

Lemma reach_ok config n σ fr :
  config_valid config -> reg_reach config n σ fr -> Z.of_nat n < two63 ->
  reg_ok σ fr /\ (length (reg_items fr) <= n)%nat.
Proof.
  intros (Hc & (d & Hd & Hdr) & Hn) Hr. induction Hr as [fr Hnew|n σ fr op σ' fr' _ IH Hen Hex]; intros Hlt.
  - destruct (NewFlowRegistry_ok (@range) Hrange (mkStore ∅ ∅) config d Hc Hd Hdr Hn) as (fr' & Hnew' & Hok & Hi & _).
    rewrite Hnew in Hnew'. injection Hnew' as <-. split; [done|]. rewrite Hi. simpl. lia.
  - destruct IH as [Hok Hlen]; [lia|].
    destruct (exec_ok op σ fr Hok Hen) as [[Hex' _]|(σ1 & fr1 & Hex' & Hok' & Hlen')]; [lia|congruence|].
    rewrite Hex in Hex'. injection Hex' as <- <-. split; [done|lia].
Qed.
(** ** Lengths *)

Lemma items_at_length p s : (length (items_at p s) <= length (shard_items s))%nat.
Proof.
  unfold items_at. destruct (sh_priorityBands s !! p) as [b|] eqn:Hb; [|simpl; lia].
  pose proof (bind_lookup (fun e : Z * priorityBand => band_items e.2) _ p b Hb) as Hp.
  apply Permutation_length in Hp. rewrite length_app in Hp. fold (shard_items s) in Hp. simpl in Hp. lia.
Qed.

Lemma gather_length F G h ptrs :
  (forall s, (length (F s) <= length (G s))%nat) -> (length (gather F h ptrs) <= length (gather G h ptrs))%nat.
Proof.
  intros HFG. unfold gather. induction ptrs as [|ptr ptrs IH]; [done|]. cbn [mbind list_bind].
  rewrite !length_app. destruct (h !! ptr) as [s|]; simpl; [specialize (HFG s)|]; lia.
Qed.

Lemma counts_exact xs n bytes :
  counts xs n bytes -> Z.of_nat (length xs) < two63 ->
  u64 n = Z.of_nat (length xs) /\ u64 bytes = u64 (sumZ item_bytes xs).
Proof.
  intros [-> ->] Hlt. rewrite !u64_i64. split; [|done]. apply u64_id. unfold is_u64, two63, two64 in *. lia.
Qed.

(** * Properties *)

(** C2: The registry's statistics are exact as long as no flow is collected
    with items in its queues.  After every sequence of sessions, queue
    operations on any shard, collections of flows, of bands and of drained
    shards, and scaling steps, each completed before the next one begins and
    none of them a collection of a flow that holds items, [Stats] does not
    panic, the totals are the number and the bytes of the items queued in all
    shards, active or draining, and the figures of each configured band are
    those of the items queued at its priority.  A flow collected with items
    leaves them in the totals ([delete_flow_leaks_stats]), and a call of
    [Stats] inside the collection of a band can panic
    ([stats_panics_during_band_cleanup]). *)
Theorem registry_stats_exact config n σ fr :
  config_valid config -> reg_reach config n σ fr -> Z.of_nat n < two63 ->
  exists st, Stats fr = Some st /\
    as_TotalLen st = Z.of_nat (length (reg_items fr)) /\
    as_TotalByteSize st = u64 (sumZ item_bytes (reg_items fr)) /\
    dom (as_PerPriorityBandStats st) = dom (PriorityBands (fr_config fr)) /\
    forall p b, as_PerPriorityBandStats st !! p = Some b ->
      bs_Len b = Z.of_nat (length (reg_band_items p fr)) /\
      bs_ByteSize b = u64 (sumZ item_bytes (reg_band_items p fr)).
Proof.
  intros Hv Hr Hlt. destruct (reach_ok config n σ fr Hv Hr Hlt) as [[Ht Hc Hi Hf] Hlen].
  assert (Hlt' : Z.of_nat (length (reg_items fr)) < two63) by lia. unfold Stats. rewrite decide_True.
  2:{ intros p st Hp. apply elem_of_dom. rewrite <- (co_stats _ _ Hc). by eapply elem_of_dom_2. }
  eexists. split; [reflexivity|]. cbn [as_TotalLen as_TotalByteSize as_PerPriorityBandStats].
  destruct (counts_exact _ _ _ (io_counts _ _ Hi) Hlt') as [-> ->]. split_and!; [done|done| |].
  - apply set_eq. intros p. rewrite !elem_of_dom, map_lookup_imap, <- elem_of_dom, <- (co_stats _ _ Hc), elem_of_dom.
    destruct (fr_perPriorityBandStats fr !! p) as [st|] eqn:Hp; cbn [mbind option_bind]; [|done].
    apply elem_of_dom_2 in Hp. rewrite (co_stats _ _ Hc), elem_of_dom in Hp. destruct Hp as [c ->]. simpl.
    split; eauto.
  - intros p b. rewrite map_lookup_imap. destruct (fr_perPriorityBandStats fr !! p) as [st|] eqn:Hp; [|done].
    cbn [mbind option_bind]. destruct (PriorityBands (fr_config fr) !! p) as [c|]; [|done]. intros [= <-]. simpl.
    apply counts_exact; [by apply (io_stats _ _ Hi)|].
    pose proof (gather_length _ _ (fr_heap fr) (fr_allShards fr) (items_at_length p)) as Hle.
    fold (reg_band_items p fr) (reg_items fr) in Hle. lia.
Qed.

(** C36: Exactly one operation of the registry panics.  From every reachable
    state (reached by operations that complete one after the other and collect
    no flow with items), an operation its caller may make, be it a session of
    any flow, the end of one, a collection, a scaling step or a queue
    operation, returns, unless it opens a session of an unknown flow at a
    priority for which a draining shard has no band; that session always
    panics. *)
Theorem registry_panics_exactly config n σ fr op :
  config_valid config -> reg_reach config n σ fr -> Z.of_nat n + 1 < two63 -> callable op fr ->
  (exec op σ fr = None <->
   exists key now, op = OpConnect key now /\ ID key <> EmptyString /\ fr_flowStates fr !! key = None /\
     draining_lacks (Priority key) fr).
Proof.
  intros Hv Hr Hlt Hen. destruct (reach_ok config n σ fr Hv Hr) as [Hok Hlen]; [lia|]. split.
  - intros Hex. assert (Hgc : (exists now, op = OpGCFlows now) \/ ~ exists now, op = OpGCFlows now)
      by (destruct op; eauto; right; by intros [? ?]).
    destruct Hgc as [[now ->]|Hn].
    + destruct (gcFlows_returns (@range) fr now (ro_topo _ _ _ Hok)) as [fr' Hfr']. cbn [exec] in Hex.
      by rewrite Hfr' in Hex.
    + destruct (exec_ok op σ fr Hok) as [[_ Hst]|(σ' & fr' & Hex' & _)]; [|lia|exact Hst|congruence].
      split; [done|]. destruct op; try done. destruct Hn. eauto.
  - intros (key & now & -> & Hid & Hk & Hdr). cbn [exec].
    by rewrite (connect_new_panics (@range) Hrange σ fr key now Hok Hid Hk Hdr).
Qed.

(** A known flow can be served everywhere.  In every reachable state each
    flow of the registry has a managed queue on every shard, its own; each
    queue of each shard belongs to a known flow; and an active shard has
    exactly the configured bands, in descending order of priority, with its
    share of the configuration. *)
Theorem registry_flows_provisioned config n σ fr :
  config_valid config -> reg_reach config n σ fr -> Z.of_nat n < two63 ->
  (forall key ptr, is_Some (fr_flowStates fr !! key) -> ptr ∈ fr_allShards fr ->
     exists s mq, fr_heap fr !! ptr = Some s /\ ManagedQueue key s = inl mq /\ mq_key mq = key) /\
  (forall key ptr s mq, ptr ∈ fr_allShards fr -> fr_heap fr !! ptr = Some s -> ManagedQueue key s = inl mq ->
     is_Some (fr_flowStates fr !! key)) /\
  (forall i ptr, fr_activeShards fr !! i = Some ptr ->
     exists s, fr_heap fr !! ptr = Some s /\ IsActive s = true /\
       StronglySorted (flip Z.lt) (AllOrderedPriorityLevels s) /\
       (forall p, p ∈ AllOrderedPriorityLevels s <-> is_Some (PriorityBands (fr_config fr) !! p)) /\
       sh_config s = partition range (Z.of_nat i) (Z.of_nat (length (fr_activeShards fr))) (fr_config fr)).
Proof.
  intros Hv Hr Hlt. destruct (reach_ok config n σ fr Hv Hr Hlt) as [Hok _]. pose proof Hok as [Ht Hc Hi Hf].
  split_and!.
  - intros key ptr Hk Hp. destruct (reg_queue_found σ fr ptr key Hok Hp Hk) as (s & mq & Hs & Hq & Hsok & _).
    exists s, mq. split_and!; [done|by apply queue_at_ManagedQueue|]. by apply (queue_at_items σ s).
  - intros key ptr s mq Hp Hs Hq%queue_at_ManagedQueue. eapply (fo_queues _ Hf); eauto.
  - intros i ptr Hp. assert (Hin : ptr ∈ fr_activeShards fr) by (by eapply list_elem_of_lookup_2).
    destruct (active_shard (@range) σ fr ptr Ht Hc Hi Hin) as (s & Hs & Hsok & Hd). exists s.
    split_and!; [done| |apply Hsok| |by apply (co_active _ _ Hc i ptr)].
    + unfold IsActive. by rewrite (to_active _ Ht ptr s).
    + intros p. unfold AllOrderedPriorityLevels. rewrite (so_levels _ _ Hsok), <- !elem_of_dom. by rewrite Hd.
Qed.

(** The lease count of a band is the number of flows at its priority, in
    every reachable state, so a band with a flow is never collected. *)
Theorem band_leases_count_flows config n σ fr p :
  config_valid config -> reg_reach config n σ fr -> Z.of_nat n < two63 ->
  band_leases p (fr_priorityBandStates fr) = flows_at p (fr_flowStates fr) /\
  (forall key, is_Some (fr_flowStates fr !! key) -> is_Some (PriorityBands (fr_config fr) !! Priority key)).
Proof.
  intros Hv Hr Hlt. destruct (reach_ok config n σ fr Hv Hr Hlt) as [[Ht Hc Hi Hf] _].
  split; [apply Hf|]. intros key [fs Hk]. by apply (fo_flow _ Hf key fs).
Qed.
End trace.

(** ** A concrete run *)

Definition sorted_range (K V : Type) (E : EqDecision K) (C : Countable K) (m : gmap K V) : list (K * V) :=
  map_to_list m.

Definition sample_band_at (p : Z) : PriorityBandConfig :=
  mkPriorityBandConfig p (Some (FCFSOrderingPolicyFactory EmptyString)) (Some (newGlobalStrict EmptyString))
    ListQueueName 100 7.

(** One static band, two shards, flows collected after 300 and bands after 600. *)
Definition sample_registry_config : Config :=
  mkConfig 10 0 {[ 5 := sample_band_at 5 ]} (Some (sample_band_at 0)) 2 300 600.

Definition sample_key : FlowKey := mkFlowKey "f" 7.

Definition sample_req (id : string) (bytes : Z) : FlowControlRequest := mkRequest id sample_key bytes None 0 0.

Definition sample_run : list reg_op :=
  [OpConnect sample_key 100; OpAdd 0 sample_key (sample_req "a" 30) 0 101;
   OpAdd 1 sample_key (sample_req "b" 12) 0 102; OpRemove 0 sample_key 0].

(** A sufficient test for [enabled]. *)
Definition enabledb (op : reg_op) (fr : FlowRegistry) : bool :=
  match op with
  | OpConnect _ _ | OpGCBands _ | OpSweep => true
  | OpRelease key start =>
      match fr_flowStates fr !! key with Some fs => 0 <? leaseCount (fs_lease fs) | None => false end
  | OpGCFlows now => bool_decide (map_to_list (fr_flowStates fr) = [])
  | OpScale n => fr_nextShardID fr + n <? two64
  | OpAdd ptr key _ _ _ | OpRemove ptr key _ | OpCleanup ptr key _ | OpDrain ptr key =>
      bool_decide (ptr ∈ fr_allShards fr) && bool_decide (is_Some (fr_flowStates fr !! key))
  end.

Lemma enabledb_sound op fr : enabledb op fr = true -> enabled op fr.
Proof.
  unfold enabled. destruct op; simpl; rewrite ?andb_true_iff, ?bool_decide_eq_true, ?Z.ltb_lt; try done.
  - destruct (fr_flowStates fr !! key) as [fs|] eqn:Hk; [|done]. rewrite Z.ltb_lt. intros Hl. split; [|done]. by exists fs.
  - intros Hd. split; [done|]. apply map_to_list_empty_iff in Hd. intros k fs ptr s mq Hk. by rewrite Hd, lookup_empty in Hk.
Qed.

Fixpoint run_checked (ops : list reg_op) (σ : Store) (fr : FlowRegistry) : option (Store * FlowRegistry) :=
  match ops with
  | [] => Some (σ, fr)
  | op :: ops =>
      if enabledb op fr then '(σ1, fr1) ← exec sorted_range op σ fr; run_checked ops σ1 fr1 else None
  end.

Lemma run_checked_reach config ops : forall n σ fr σ' fr',
  reg_reach sorted_range config n σ fr -> run_checked ops σ fr = Some (σ', fr') ->
  reg_reach sorted_range config (n + length ops) σ' fr'.
Proof.
  induction ops as [|op ops IH]; intros n σ fr σ' fr' Hr; cbn [run_checked length].
  { intros [= <- <-]. by rewrite Nat.add_0_r. }
  destruct (enabledb op fr) eqn:He; [|done].
  destruct (exec sorted_range op σ fr) as [[σ1 fr1]|] eqn:Hex; [|done]. cbn [mbind option_bind]. intros Hrun.
  rewrite <- Nat.add_succ_comm. eapply IH; [|exact Hrun].
  eapply reach_op; [exact Hr|by apply enabledb_sound|exact Hex].
Qed.

Definition sample_run_from (config : Config) (ops : list reg_op) : option (Store * FlowRegistry) :=
  match NewFlowRegistry sorted_range config with
  | Some (inl fr) => run_checked ops (mkStore ∅ ∅) fr
  | _ => None
  end.

Lemma sample_run_reach config ops σ fr :
  sample_run_from config ops = Some (σ, fr) -> reg_reach sorted_range config (length ops) σ fr.
Proof.
  unfold sample_run_from. destruct (NewFlowRegistry sorted_range config) as [[fr0|e]|] eqn:Hn; [|done..].
  intros Hrun. eapply (run_checked_reach config ops 0); [by apply reach_new|exact Hrun].
Qed.

Lemma sample_band_ready p : band_ready p (sample_band_at p).
Proof. split_and!; [reflexivity|by eexists|by eexists|]. vm_compute. by eexists. Qed.

Lemma sample_config_valid : config_valid sample_registry_config.
Proof.
  split_and!; [| |reflexivity|reflexivity].
  - intros p b Hb. cbn [sample_registry_config PriorityBands] in Hb.
    apply lookup_singleton_Some in Hb as [<- <-]. apply sample_band_ready.
  - exists (sample_band_at 0). split; [reflexivity|]. intros p. apply sample_band_ready.
Qed.

Lemma sorted_range_ok : forall K V E C (m : gmap K V), sorted_range K V E C m ≡ₚ map_to_list m.
Proof. reflexivity. Qed.

Definition sample_reached : option (Store * FlowRegistry) := sample_run_from sample_registry_config sample_run.

Lemma registry_stats_exact_witness :
  exists σ fr st, sample_reached = Some (σ, fr) /\ Stats fr = Some st /\
    as_TotalLen st = Z.of_nat (length (reg_items fr)) /\ as_TotalLen st = 1 /\ as_TotalByteSize st = 12.
Proof.
  destruct sample_reached as [[σ fr]|] eqn:Hs; [|vm_compute in Hs; discriminate Hs].
  destruct (registry_stats_exact sorted_range sorted_range_ok sample_registry_config 4 σ fr)
    as (st & Hst & Hl & _).
  - exact sample_config_valid.
  - exact (sample_run_reach _ sample_run _ _ Hs).
  - reflexivity.
  - exists σ, fr, st. split; [reflexivity|]. split; [exact Hst|]. split; [exact Hl|].
    vm_compute in Hs. injection Hs as _ <-. vm_compute in Hst. injection Hst as <-. split; reflexivity.
Defined.

(** One of the two shards drains; the band of priority 9 does not exist. *)
Lemma registry_panics_exactly_witness :
  exists σ fr, sample_run_from sample_registry_config (sample_run ++ [OpScale 1]) = Some (σ, fr) /\
    exec sorted_range (OpConnect (mkFlowKey "g" 9) 200) σ fr = None /\
    exec sorted_range (OpConnect sample_key 200) σ fr <> None.
Proof.
  destruct (sample_run_from sample_registry_config (sample_run ++ [OpScale 1])) as [[σ fr]|] eqn:Hs;
    [|vm_compute in Hs; discriminate Hs].
  pose proof (fun op H => registry_panics_exactly sorted_range sorted_range_ok sample_registry_config 5 σ fr op
                sample_config_valid (sample_run_reach _ _ _ _ Hs) H) as Hex.
  exists σ, fr. split; [reflexivity|]. split.
  - apply Hex; [reflexivity|exact I|]. exists (mkFlowKey "g" 9), 200. split; [reflexivity|]. split; [discriminate|].
    vm_compute in Hs. injection Hs as _ <-. split; [reflexivity|]. eexists "shard-0001", 1%nat, _.
    split; [reflexivity|]. split; reflexivity.
  - intros Hn. apply Hex in Hn as (key & now & [= <- <-] & _ & Hk & _); [|reflexivity|exact I].
    vm_compute in Hs. injection Hs as _ <-. vm_compute in Hk. discriminate Hk.
Defined.

Lemma registry_flows_provisioned_witness :
  exists σ fr s mq, sample_reached = Some (σ, fr) /\ fr_heap fr !! 1%nat = Some s /\
    ManagedQueue sample_key s = inl mq /\ mq_key mq = sample_key.
Proof.
  destruct sample_reached as [[σ fr]|] eqn:Hs; [|vm_compute in Hs; discriminate Hs].
  destruct (registry_flows_provisioned sorted_range sorted_range_ok sample_registry_config 4 σ fr) as (Hq & _ & _).
  - exact sample_config_valid.
  - exact (sample_run_reach _ sample_run _ _ Hs).
  - reflexivity.
  - destruct (Hq sample_key 1%nat) as (s & mq & H1 & H2 & H3).
    + vm_compute in Hs. injection Hs as _ <-. vm_compute. eexists. reflexivity.
    + vm_compute in Hs. injection Hs as _ <-. vm_compute. right. left.
    + exists σ, fr, s, mq. split; [reflexivity|]. split; [exact H1|]. split; [exact H2|exact H3].
Defined.

Lemma band_leases_count_flows_witness :
  exists σ fr, sample_reached = Some (σ, fr) /\ band_leases 7 (fr_priorityBandStates fr) = flows_at 7 (fr_flowStates fr) /\
    flows_at 7 (fr_flowStates fr) = 1.
Proof.
  destruct sample_reached as [[σ fr]|] eqn:Hs; [|vm_compute in Hs; discriminate Hs].
  destruct (band_leases_count_flows sorted_range sorted_range_ok sample_registry_config 4 σ fr 7) as [Hl _].
  - exact sample_config_valid.
  - exact (sample_run_reach _ sample_run _ _ Hs).
  - reflexivity.
  - exists σ, fr. split; [reflexivity|]. split; [exact Hl|].
    vm_compute in Hs. injection Hs as _ <-. reflexivity.
Defined.

(** * Where the code departs from its contract *)

(** The idle time of a flow runs from the start of its last session, not
    from its end: the deferred [state.unpin(fr.clock.Now())] reads the clock
    when the session begins.  A collection that runs [FlowGCTimeout] after the
    start deletes the flow, even at the moment the session ends. *)
Theorem idle_time_from_session_start
    (range : forall (K V : Type) (E : EqDecision K) (C : Countable K), gmap K V -> list (K * V))
    fr key fs start now fr' :
  (forall K V E C (m : gmap K V), range K V E C m ≡ₚ map_to_list m) ->
  fr_flowStates fr !! key = Some fs -> leaseCount (fs_lease fs) = 1 ->
  FlowGCTimeout (fr_config fr) <= now - start ->
  gcFlows range now (release key start fr) = Some fr' -> fr_flowStates fr' !! key = None.
Proof.
  intros Hrange Hk Hl Ht Hgc. unfold release in Hgc. rewrite Hk in Hgc. unfold gcFlows in Hgc.
  destruct (collect _ _ _ _ _ _) as [ks flows] eqn:Hcol. cbn [set_flowStates fr_config fr_flowStates] in Hcol.
  destruct (collect_spec range Hrange _ _ _ _ _ _ _ Hcol) as (_ & _ & Hflows).
  assert (Hnone : flows !! key = None).
  { rewrite Hflows, lookup_insert_eq. cbn [mbind option_bind]. unfold expired, checkAndMarkForDeletion, unpin.
    cbn [set_lease fs_lease leaseCount becameIdleAt]. rewrite Hl. cbn [Z.sub Z.ltb Z.eqb]. simpl.
    destruct (Z.ltb_spec (now - start) (FlowGCTimeout (fr_config fr))); [lia|done]. }
  rewrite fold_unpin_band in Hgc. cbn [set_flowStates fr_priorityBandStates] in Hgc.
  assert (Hfs : fr_flowStates fr' = flows); [|by rewrite Hfs].
  revert Hgc. unfold cleanupFlowResources. set (fr1 := set_bandStates _ _).
  assert (Hf1 : fr_flowStates fr1 = flows) by reflexivity. revert Hf1. generalize fr1. clear.
  induction ks as [|k ks IH]; intros fr1 Hf1; cbn [ofold]; [by intros [= <-]|].
  destruct (fr_flowStates fr1 !! k); cbn [mbind option_bind]; [by apply IH|].
  destruct (on_shards _ _ _); cbn [mbind option_bind]; [by apply IH|done].
Qed.

Definition long_session : option FlowRegistry :=
  '(_, fr) ← sample_run_from sample_registry_config [OpConnect sample_key 100]; Some fr.

Lemma idle_time_from_session_start_witness :
  exists fr fr', long_session = Some fr /\ gcFlows sorted_range 400 (release sample_key 100 fr) = Some fr' /\
    is_Some (fr_flowStates fr !! sample_key) /\ fr_flowStates fr' !! sample_key = None.
Proof.
  destruct long_session as [fr|] eqn:Hs; [|vm_compute in Hs; discriminate Hs].
  destruct (gcFlows sorted_range 400 (release sample_key 100 fr)) as [fr'|] eqn:Hgc.
  2:{ vm_compute in Hs. injection Hs as <-. vm_compute in Hgc. discriminate Hgc. }
  exists fr, fr'. split; [reflexivity|]. split; [exact Hgc|].
  destruct (fr_flowStates fr !! sample_key) as [fs|] eqn:Hk.
  - split; [by eexists|].
    eapply (idle_time_from_session_start sorted_range fr sample_key fs 100 400 fr' sorted_range_ok Hk).
    + vm_compute in Hs. injection Hs as <-. vm_compute in Hk. injection Hk as <-. reflexivity.
    + vm_compute in Hs. injection Hs as <-. vm_compute. discriminate.
    + exact Hgc.
  - vm_compute in Hs. injection Hs as <-. vm_compute in Hk. discriminate Hk.
Defined.

(** A band that the configuration declares is deleted like a dynamic one.
    Once a flow has used the static band of priority 5 and has gone, two
    collections remove the band from the configuration, the statistics and
    the shards; the comments promise this for dynamically provisioned bands
    only. *)
Theorem static_band_collected :
  exists fr0 fr1 fr2, NewFlowRegistry sorted_range sample_registry_config = Some (inl fr0) /\
    is_Some (PriorityBands (fr_config fr0) !! 5) /\
    WithConnection sorted_range (mkFlowKey "f" 5) 100 (fun fr => Some (fr, None)) fr0 = Some (fr1, None) /\
    (fr ← executeGCCycle sorted_range 401 fr1; executeGCCycle sorted_range 1002 fr) = Some fr2 /\
    PriorityBands (fr_config fr2) !! 5 = None /\
    Forall (fun s => sh_priorityBands s !! 5 = None) (fr_heap fr2).
Proof.
  do 3 eexists. split; [vm_compute; reflexivity|]. split; [vm_compute; by eexists|].
  split; [vm_compute; reflexivity|]. split; [vm_compute; reflexivity|].
  split; [vm_compute; reflexivity|]. vm_compute. repeat constructor.
Qed.

(** While a shard drains, a flow at a new priority brings the process down.
    [ensurePriorityBand] adds the band to the active shards only, and
    [ensureFlowInfrastructure] then provisions the flow on all shards; on the
    draining one the type assertion on the missing band panics. *)
Theorem new_band_panics_while_draining :
  exists fr0 fr1, NewFlowRegistry sorted_range sample_registry_config = Some (inl fr0) /\
    updateShardCount sorted_range 1 fr0 = Some (fr1, None) /\
    fr_drainingShards fr1 <> ∅ /\ connect sorted_range (mkFlowKey "f" 7) 100 fr1 = None /\
    exists fr2, connect sorted_range (mkFlowKey "f" 5) 100 fr1 = Some (fr2, None).
Proof.
  do 2 eexists. split; [vm_compute; reflexivity|]. split; [vm_compute; reflexivity|].
  split; [vm_compute; discriminate|]. split; [vm_compute; reflexivity|]. eexists. vm_compute. reflexivity.
Qed.

(** [Stats] takes no lock, and the collection of a band deletes the band's
    configuration before the band's statistics.  A call between the two
    deletions dereferences the missing configuration and panics. *)
Theorem stats_panics_during_band_cleanup fr p :
  is_Some (fr_perPriorityBandStats fr !! p) ->
  Stats (set_config (set_bands (delete p (PriorityBands (fr_config fr))) (fr_config fr)) fr) = None.
Proof.
  intros [st Hst]. unfold Stats. rewrite decide_False; [done|]. intros Hall.
  destruct (Hall p st Hst) as [c Hc]. simpl in Hc. by rewrite lookup_delete_eq in Hc.
Qed.

Lemma stats_panics_during_band_cleanup_witness :
  exists fr, NewFlowRegistry sorted_range sample_registry_config = Some (inl fr) /\
    Stats (set_config (set_bands (delete 5 (PriorityBands (fr_config fr))) (fr_config fr)) fr) = None.
Proof.
  eexists. split; [vm_compute; reflexivity|].
  apply (stats_panics_during_band_cleanup _ 5). vm_compute. by eexists.
Defined.

(** Deleting a flow does not settle its statistics.  If the queue still
    holds items (finalized ones that no sweep has taken out yet), the shard's
    total length stays above the items it holds by exactly that number, with
    no queue left that could ever correct it. *)
Theorem delete_flow_leaks_stats σ s key mq :
  shard_ok σ s -> ManagedQueue key s = inl mq -> Z.of_nat (length (shard_items s)) < two63 ->
  sh_totalLen (deleteFlow key s) =
    Z.of_nat (length (shard_items (deleteFlow key s))) + Z.of_nat (length (mq_items mq)).
Proof.
  intros Hok Hq%queue_at_ManagedQueue Hlt. unfold queue_at in Hq.
  destruct (sh_priorityBands s !! Priority key) as [b|] eqn:Hb; [|done]. cbn [mbind option_bind] in Hq.
  destruct (so_counts _ _ Hok) as [Hn _]. rewrite i64_id in Hn by (unfold is_i64, two63 in *; lia).
  unfold deleteFlow. rewrite Hb. cbn [set_shard_bands sh_totalLen]. rewrite Hn.
  set (b' := set_band_queues _ b). unfold shard_items. cbn [set_shard_bands sh_priorityBands].
  pose proof (bind_lookup (fun e : Z * priorityBand => band_items e.2) _ _ b Hb) as H1.
  pose proof (bind_insert (fun e : Z * priorityBand => band_items e.2) (sh_priorityBands s) (Priority key) b') as H2.
  pose proof (bind_lookup (fun e : string * managedQueue AnyQueue => mq_items e.2) _ _ mq Hq) as H3.
  apply Permutation_length in H1, H2, H3. rewrite length_app in H1, H2, H3. cbn [snd] in H1, H2, H3.
  change (map_to_list (band_queues b) ≫= (fun e => mq_items e.2)) with (band_items b) in H3.
  change (map_to_list (delete (ID key) (band_queues b)) ≫= (fun e => mq_items e.2)) with (band_items b') in H3.
  lia.
Qed.

Definition leaky_shard : option (Store * registryShard) :=
  '(σ, fr) ← sample_reached; s ← fr_heap fr !! 1%nat; Some (σ, s).

Lemma leaky_shard_ok σ s : leaky_shard = Some (σ, s) -> shard_ok σ s.
Proof.
  unfold leaky_shard. destruct sample_reached as [[σ' fr]|] eqn:Hs; [|done]. cbn [mbind option_bind].
  destruct (fr_heap fr !! 1%nat) as [s'|] eqn:Hp; [|done]. intros [= <- <-].
  destruct (reach_ok sorted_range sorted_range_ok sample_registry_config 4 σ' fr sample_config_valid
              (sample_run_reach _ sample_run _ _ Hs)) as [[_ _ Hi _] _]; [reflexivity|].
  apply (io_shard _ _ Hi 1%nat); [|done]. vm_compute in Hs. injection Hs as _ <-. vm_compute. right. left.
Qed.

Lemma delete_flow_leaks_stats_witness :
  exists σ s mq, leaky_shard = Some (σ, s) /\ ManagedQueue sample_key s = inl mq /\
    sh_totalLen (deleteFlow sample_key s) =
      Z.of_nat (length (shard_items (deleteFlow sample_key s))) + Z.of_nat (length (mq_items mq)) /\
    length (shard_items (deleteFlow sample_key s)) = 0%nat /\ length (mq_items mq) = 1%nat.
Proof.
  destruct leaky_shard as [[σ s]|] eqn:Hs; [|vm_compute in Hs; discriminate Hs].
  destruct (ManagedQueue sample_key s) as [mq|e] eqn:Hq.
  2:{ vm_compute in Hs. injection Hs as _ <-. vm_compute in Hq. discriminate Hq. }
  exists σ, s, mq. split; [reflexivity|]. split; [exact Hq|]. split.
  - apply (delete_flow_leaks_stats σ); [exact (leaky_shard_ok _ _ Hs)|exact Hq|].
    vm_compute in Hs. injection Hs as _ <-. vm_compute. reflexivity.
  - vm_compute in Hs. injection Hs as _ <-. vm_compute in Hq. injection Hq as <-. split; reflexivity.
Defined.
