(* ===== verification/Processor.v ===== *)
(** The worker of a shard: pkg/epp/flowcontrol/controller/internal/processor.go.

    The run loop is the only goroutine that enqueues and dispatches; the sweep
    of finalized items runs beside it.  Each call on a managed queue is one
    step, so the functions below are the sequential composition of such steps,
    on the shared store of items and the shard's state.  The list of deltas is
    what the calls report to the registry.  The saturation detector, the
    endpoint candidates and the usage limit policy are plugins: the values
    they return are arguments.  Saturation and limits are IEEE 754 doubles.
    [None] is a run-time panic. *)

From Stdlib Require Import SpecFloat.
From S2P Require Import Prelude FlowTypes ItemProps SafeQueue ListQueue Ordering Fairness.
From S2P Require Import MaxMinHeap MaxMinHeapSpec QueueFactory ManagedQueue RegistryConfig Shard ShardSpec.

Abbreviation deltas := (list (Z * Z * Z)) (only parsing).

(** [fmt.Errorf("%w: %w", class, cause)] *)
Definition classed (class : sentinel) (cause : error) : option error :=
  Some (Wrap "%w: %w" [Sentinel class; cause]).

(** ** Admission *)

Definition hasCapacity (priority itemByteSize : Z) (s : registryShard) : bool :=
  let stats := shard_Stats s in
  if (0 <? ss_TotalCapacityBytes stats) &&
     (ss_TotalCapacityBytes stats <? u64 (ss_TotalByteSize stats + itemByteSize)) then false
  else if (0 <? ss_TotalCapacityRequests stats) &&
          (ss_TotalCapacityRequests stats <? u64 (ss_TotalLen stats + 1)) then false
  else
    match ss_PerPriorityBandStats stats !! priority with
    | None => false
    | Some bandStats =>
        if (0 <? bs_CapacityBytes bandStats) &&
           (bs_CapacityBytes bandStats <? u64 (bs_ByteSize bandStats + itemByteSize)) then false
        else if (0 <? bs_CapacityRequests bandStats) &&
                (bs_CapacityRequests bandStats <? u64 (bs_Len bandStats + 1)) then false
        else true
    end.

Definition enqueue (item : Item) (σ : Store) (s : registryShard) : option (Store * registryShard * deltas) :=
  let key := item_key item in
  match FinalState_of item σ with
  | Some _ => Some (σ, s, [])
  | None =>
      match ManagedQueue key s with
      | inr err =>
          σ' ← FinalizeWithOutcome item QueueOutcomeRejectedOther
                 (classed ErrRejected (Wrap "configuration error: failed to get queue for flow key %s: %w" [err])) σ;
          Some (σ', s, [])
      | inl _ =>
          match PriorityBandAccessor (Priority key) s with
          | inr err =>
              σ' ← FinalizeWithOutcome item QueueOutcomeRejectedOther
                     (classed ErrRejected (Wrap "configuration error: failed to get priority band: %w" [err])) σ;
              Some (σ', s, [])
          | inl _ =>
              if negb (hasCapacity (Priority key) (item_bytes item) s)
              then σ' ← FinalizeWithOutcome item QueueOutcomeRejectedCapacity
                          (classed ErrRejected (Sentinel ErrQueueAtCapacity)) σ;
                   Some (σ', s, [])
              else
                '(err, σ', s', ds) ← queue_op key (Add item (sh_isDraining s)) σ s;
                match err with
                | None => Some (σ', s', ds)
                | Some err =>
                    σ'' ← FinalizeWithOutcome item QueueOutcomeRejectedOther
                            (classed ErrRejected (Wrap "failed to add item to queue for flow key %s: %w" [err])) σ';
                    Some (σ'', s', ds)
                end
          end
      end
  end.

(** ** Dispatch *)

Section dispatch.
Variable range : gmap string queue_t -> list (string * queue_t).

Definition selectItem (band : priorityBand) (s : registryShard) : (option Item + error) * registryShard :=
  let priority := pb_Priority (band_config band) in
  match shard_FairnessPolicy priority s with
  | inr err => (inr (Wrap "could not get FairnessPolicy: %w" [err]), s)
  | inl fairnessP =>
      let '(r, st') := fp_Pick fairnessP (snapshot range band) (band_policyState band) in
      let s' := set_shard_bands (<[priority := set_band_state st' band]> (sh_priorityBands s)) s in
      match r with
      | inr err => (inr (Wrap "FairnessPolicy %q failed to select queue: %w" [err]), s')
      | inl None => (inl None, s')
      | inl (Some queue) => (inl (fv_PeekHead queue), s')
      end
  end.

Definition dispatchItem (item : Item) (σ : Store) (s : registryShard)
  : option (option error * Store * registryShard * deltas) :=
  let key := item_key item in
  match ManagedQueue key s with
  | inr err => Some (Some (Wrap "failed to get ManagedQueue for flow %s: %w" [err]), σ, s, [])
  | inl _ =>
      '(r, σ', s', ds) ← queue_op key (Remove (Handle item σ)) σ s;
      match r with
      | inr _ => Some (None, σ', s', ds)
      | inl removedItem =>
          σ'' ← FinalizeWithOutcome removedItem QueueOutcomeDispatched None σ';
          Some (None, σ'', s', ds)
      end
  end.

(** The loop over the bands; [ceilings[i]] panics out of range. *)
Fixpoint dispatch_loop (saturation : spec_float) (priorities : list Z) (ceilings : list spec_float)
    (σ : Store) (s : registryShard) : option (bool * Store * registryShard * deltas) :=
  match priorities with
  | [] => Some (false, σ, s, [])
  | priority :: priorities =>
      match ceilings with
      | [] => None
      | usageLimit :: ceilings =>
          if SFleb usageLimit saturation then Some (false, σ, s, [])
          else
            match PriorityBandAccessor priority s with
            | inr _ => dispatch_loop saturation priorities ceilings σ s
            | inl originalBand =>
                let '(r, s) := selectItem originalBand s in
                match r with
                | inr _ | inl None => dispatch_loop saturation priorities ceilings σ s
                | inl (Some item) =>
                    '(err, σ, s, ds) ← dispatchItem item σ s;
                    match err with
                    | None => Some (true, σ, s, ds)
                    | Some _ => '(b, σ, s, ds') ← dispatch_loop saturation priorities ceilings σ s;
                                Some (b, σ, s, ds ++ ds')
                    end
                end
            end
      end
  end.

(** [saturation] is what the detector reports for the pool; [computeLimit] is
    the usage limit policy. *)
Definition dispatchCycle (saturation : spec_float) (computeLimit : spec_float -> list Z -> list spec_float)
    (σ : Store) (s : registryShard) : option (bool * Store * registryShard * deltas) :=
  let priorities := AllOrderedPriorityLevels s in
  dispatch_loop saturation priorities (computeLimit saturation priorities) σ s.

(** ** Background tasks *)

(** The queues a task will visit, band by band. *)
Definition queuesToProcess (s : registryShard) : list FlowKey :=
  AllOrderedPriorityLevels s ≫= (fun priority =>
    match PriorityBandAccessor priority s with
    | inr _ => []
    | inl band => fv_FlowKey <$> snapshot range band
    end).

(** The body of a worker: one task, atomic on its queue. *)
Definition process_one
    (processFn : FlowKey -> Store -> registryShard -> option (Store * registryShard * deltas))
    (acc : Store * registryShard * deltas) (key : FlowKey) : option (Store * registryShard * deltas) :=
  let '(σ, s, ds) := acc in
  match ManagedQueue key s with
  | inr _ => Some (σ, s, ds)
  | inl _ => '(σ', s', ds') ← processFn key σ s; Some (σ', s', ds ++ ds')
  end.

(** The pool of workers takes the queues in some order. *)
Definition processAllQueuesConcurrently
    (processFn : FlowKey -> Store -> registryShard -> option (Store * registryShard * deltas))
    (order : list FlowKey -> list FlowKey) (σ : Store) (s : registryShard)
  : option (Store * registryShard * deltas) :=
  ofold (process_one processFn) (order (queuesToProcess s)) (σ, s, []).
End dispatch.

Definition is_finalized (σ : Store) (item : Item) : bool :=
  match FinalState_of item σ with Some _ => true | None => false end.

Definition sweep_queue (key : FlowKey) (σ : Store) (s : registryShard) : option (Store * registryShard * deltas) :=
  '(_, σ', s', ds) ← queue_op key (Cleanup (is_finalized σ)) σ s;
  Some (σ', s', ds).

Definition sweepFinalizedItems range (order : list FlowKey -> list FlowKey) (σ : Store) (s : registryShard)
  : option (Store * registryShard * deltas) :=
  processAllQueuesConcurrently range sweep_queue order σ s.

Definition finalize_all (outcome : QueueOutcome) (err : option error) (items : list Item) (σ : Store)
  : option Store :=
  ofold (fun σ item => FinalizeWithOutcome item outcome err σ) items σ.

Definition evict_queue (key : FlowKey) (σ : Store) (s : registryShard) : option (Store * registryShard * deltas) :=
  '(removedItems, σ', s', ds) ← queue_op key Drain σ s;
  σ'' ← finalize_all QueueOutcomeEvictedOther (classed ErrEvicted (Sentinel ErrFlowControllerNotRunning))
          removedItems σ';
  Some (σ'', s', ds).

Definition evictAll range (order : list FlowKey -> list FlowKey) (σ : Store) (s : registryShard)
  : option (Store * registryShard * deltas) :=
  processAllQueuesConcurrently range evict_queue order σ s.

(** [shutdown], with the items buffered in the channel. *)
Definition shutdown range (order : list FlowKey -> list FlowKey) (buffered : list Item) (σ : Store)
    (s : registryShard) : option (Store * registryShard * deltas) :=
  σ' ← finalize_all QueueOutcomeRejectedOther (classed ErrRejected (Sentinel ErrFlowControllerNotRunning))
         buffered σ;
  evictAll range order σ' s.

(** ** Usage limits: the static policy of usagelimitpolicy.go *)

Definition NewConstPolicy (threshold : spec_float) (saturation : spec_float) (priorities : list Z)
  : list spec_float := replicate (length priorities) threshold.
