(* ===== verification/ProcessorSpec.v ===== *)
(** What each operation of a processor does to the items and to its shard.

    [proc_ok] is the invariant of a shard a processor works on: the items'
    life cycles, the shard's counters and queues, and that a queued item sits
    in the queue of its own flow. *)

From Stdlib Require Import SpecFloat.
From S2P Require Import Prelude FlowTypes ItemProps SafeQueue ListQueue Ordering Fairness.
From S2P Require Import MaxMinHeap MaxMinHeapSpec QueueFactory ManagedQueue RegistryConfig Shard ShardSpec.
From S2P Require Import Processor.

Definition flow_keyed (s : registryShard) : Prop :=
  forall key mq x, queue_at key s = Some mq -> x ∈ mq_items mq -> item_key x = key.

Record proc_ok (σ : Store) (s : registryShard) : Prop := {
  po_store : store_ok σ;
  po_shard : shard_ok σ s;
  po_keyed : flow_keyed s
}.

(** The first final state an item gets stays: [fs] is for the items of [xs]
    that have none. *)
Definition finalizes (xs : list Item) (fs : FinalState) (σ σ' : Store) : Prop :=
  forall x, FinalState_of x σ' =
    if decide (itemRef x ∈ itemRef <$> xs) then Some (default fs (FinalState_of x σ))
    else FinalState_of x σ.

(** * Finalization *)

Lemma FinalState_of_ref x y σ : itemRef x = itemRef y -> FinalState_of x σ = FinalState_of y σ.
Proof. unfold FinalState_of. by intros ->. Qed.

Lemma only_item_frames it σ σ' : only_item it σ σ' -> Handle it σ' = Handle it σ -> frames [] σ σ'.
Proof.
  intros (Hc & Hne & _) Hh y _ _. rewrite Hc. split; [|done].
  destruct (decide (itemRef y = itemRef it)) as [Heq|Heq].
  - unfold Handle in *. by rewrite Heq.
  - unfold Handle. by rewrite Hne.
Qed.

Lemma holds_allocated σ x : holds σ x -> allocated x σ.
Proof.
  intros (h & c & Hh & _). unfold Handle in Hh. unfold allocated.
  by destruct (istates σ !! itemRef x).
Qed.

Lemma finalize_ok it o e σ s :
  proc_ok σ s -> allocated it σ -> fs_ok (mkFinalState o e) ->
  exists σ', FinalizeWithOutcome it o e σ = Some σ' /\ proc_ok σ' s /\
    finalizes [it] (mkFinalState o e) σ σ' /\ dom (istates σ') = dom (istates σ).
Proof.
  intros [Hst Hsh Hk] [st Hal] Hfs.
  destruct (FinalizeWithOutcome_spec it o e σ st Hst Hal Hfs) as (σ' & Hrun & Hst' & Hoi & Hh & Hf).
  exists σ'. split_and!; [done| | |apply Hoi].
  - split; [done| |done]. eapply shard_ok_frames; [done|by eapply only_item_frames|].
    by intros x y ?%elem_of_nil.
  - intros x. case_decide as Hx.
    + apply list_elem_of_singleton in Hx. rewrite !(FinalState_of_ref x it) by done. rewrite Hf.
      unfold FinalState_of at 1. rewrite Hal. simpl. by destruct (st_finalState st).
    + unfold FinalState_of. destruct Hoi as (_ & Hne & _). rewrite Hne; [done|]. set_solver.
Qed.

Lemma allocated_dom it σ σ' : dom (istates σ') = dom (istates σ) -> allocated it σ -> allocated it σ'.
Proof. intros Hd. unfold allocated. by rewrite <- !elem_of_dom, Hd. Qed.

Lemma finalizes_trans xs ys fs σ1 σ2 σ3 :
  finalizes xs fs σ1 σ2 -> finalizes ys fs σ2 σ3 -> finalizes (xs ++ ys) fs σ1 σ3.
Proof.
  intros H1 H2 x. rewrite H2, H1, fmap_app.
  repeat case_decide; rewrite ?elem_of_app in *; simpl; naive_solver.
Qed.

Lemma finalizes_refl fs σ : finalizes [] fs σ σ.
Proof. intros x. by rewrite decide_False by set_solver. Qed.

Lemma finalize_all_ok o e s items : forall σ,
  proc_ok σ s -> (forall x, x ∈ items -> allocated x σ) -> fs_ok (mkFinalState o e) ->
  exists σ', finalize_all o e items σ = Some σ' /\ proc_ok σ' s /\
    finalizes items (mkFinalState o e) σ σ' /\ dom (istates σ') = dom (istates σ).
Proof.
  induction items as [|x items IH]; intros σ Hok Hal Hfs; unfold finalize_all in *; cbn [ofold].
  { exists σ. split_and!; [done..|apply finalizes_refl|done]. }
  destruct (finalize_ok x o e σ s) as (σ1 & -> & Hok1 & Hf1 & Hd1); [done|apply Hal; set_solver|done|].
  cbn [mbind option_bind].
  destruct (IH σ1) as (σ2 & -> & Hok2 & Hf2 & Hd2); [done| |done|].
  { intros y Hy. eapply allocated_dom; [done|]. apply Hal. set_solver. }
  exists σ2. split_and!; [done..| |congruence]. by eapply (finalizes_trans [x]).
Qed.

(** * Calls on a queue *)

Lemma only_handle_store it σ σ' :
  only_handle it σ σ' -> allocated it σ -> store_ok σ ->
  store_ok σ' /\ (forall x, FinalState_of x σ' = FinalState_of x σ) /\
  dom (istates σ') = dom (istates σ).
Proof.
  intros [Hne Hit] [st Hst] Hok. destruct (Hit st Hst) as [h Hh]. split_and!.
  - intros r s1 Hr. destruct (decide (r = itemRef it)) as [->|Hr'].
    + rewrite Hh in Hr. injection Hr as <-. exact (Hok _ _ Hst).
    + rewrite Hne in Hr by done. exact (Hok _ _ Hr).
  - intros x. unfold FinalState_of. destruct (decide (itemRef x = itemRef it)) as [->|Hr].
    + by rewrite Hh, Hst.
    + by rewrite Hne.
  - apply set_eq. intros r. rewrite !elem_of_dom. destruct (decide (r = itemRef it)) as [->|Hr].
    + rewrite Hh, Hst. by split; eauto.
    + by rewrite Hne.
Qed.

Lemma flow_keyed_update s s' key mq' :
  flow_keyed s -> (forall k, queue_at k s' = if decide (k = key) then Some mq' else queue_at k s) ->
  (forall x, x ∈ mq_items mq' -> item_key x = key) -> flow_keyed s'.
Proof.
  intros Hk Hq Hi k mq x Hmq Hx. rewrite Hq in Hmq. case_decide as Heq; [|by eapply Hk].
  subst k. injection Hmq as <-. by apply Hi.
Qed.

Lemma mq_len_bound σ s key mq :
  shard_ok σ s -> queue_at key s = Some mq -> mq_len mq <= Z.of_nat (length (shard_items s)).
Proof.
  intros Hok Hq. destruct (queue_at_items σ s key mq Hok Hq) as ((_ & -> & _) & _ & _).
  unfold queue_at in Hq. destruct (sh_priorityBands s !! Priority key) as [b|] eqn:Hb; [|done].
  cbn [mbind option_bind] in Hq.
  destruct (shard_items_split s _ b _ mq Hb Hq) as (qr & br & _ & _ & Hp & _).
  rewrite (Permutation_length Hp), length_app. lia.
Qed.

(** What the operations of a processor keep: all but the queues, the
    counters and the policies' state. *)
Definition band_static (b : priorityBand) : FairnessPolicy * PriorityBandConfig :=
  (band_fairnessPolicy b, band_config b).

Definition same_shape (s s' : registryShard) : Prop :=
  sh_id s' = sh_id s /\ sh_config s' = sh_config s /\ sh_isDraining s' = sh_isDraining s /\
  sh_orderedPriorityLevels s' = sh_orderedPriorityLevels s /\
  forall p, band_static <$> sh_priorityBands s' !! p = band_static <$> sh_priorityBands s !! p.

Lemma same_shape_refl s : same_shape s s.
Proof. done. Qed.

Lemma same_shape_trans s1 s2 s3 : same_shape s1 s2 -> same_shape s2 s3 -> same_shape s1 s3.
Proof.
  intros (Ha & Hb & Hc & Hd & He) (Ha' & Hb' & Hc' & Hd' & He').
  unfold same_shape. split_and!; congruence.
Qed.

Lemma same_shape_band s s' p b' :
  same_shape s s' -> sh_priorityBands s' !! p = Some b' ->
  exists b, sh_priorityBands s !! p = Some b /\ band_static b' = band_static b.
Proof.
  intros (_ & _ & _ & _ & Hs) Hb. specialize (Hs p). rewrite Hb in Hs. revert Hs.
  destruct (sh_priorityBands s !! p) as [b|]; [|done]. intros [= H1 H2]. exists b.
  split; [done|]. unfold band_static. congruence.
Qed.

Lemma update_shape s p b b' n bytes :
  sh_priorityBands s !! p = Some b -> band_static b' = band_static b ->
  same_shape s (mkShard (sh_id s) (sh_config s) (sh_orderedPriorityLevels s)
                  (<[p := b']> (sh_priorityBands s)) (sh_isDraining s) n bytes).
Proof.
  intros Hb Hs. unfold same_shape. simpl. split_and!; try done. intros p'. destruct (decide (p' = p)) as [->|].
  - rewrite lookup_insert_eq, Hb. simpl. by rewrite Hs.
  - by rewrite lookup_insert_ne.
Qed.

Lemma propagate_shape ds : forall s s',
  ofold (fun s d => propagateStatsDelta d s) ds s = Some s' -> same_shape s s'.
Proof.
  induction ds as [|[[p dl] db] ds IH]; intros s s'; cbn [ofold propagateStatsDelta].
  { intros [= <-]. apply same_shape_refl. }
  destruct (sh_priorityBands s !! p) as [b|] eqn:Hb; [|done]. cbn [mbind option_bind]. intros Hs.
  eapply same_shape_trans; [|exact (IH _ _ Hs)]. by eapply update_shape.
Qed.

Lemma queue_op_shape {A} key (f : Store -> queue_t -> option (A * Store * queue_t * list stats_delta)) σ s a σ' s' ds :
  queue_op key f σ s = Some (a, σ', s', ds) -> same_shape s s'.
Proof.
  unfold queue_op. destruct (sh_priorityBands s !! Priority key) as [b|] eqn:Hb; [|done]. cbn [mbind option_bind].
  destruct (band_queues b !! ID key) as [mq|]; [|done]. cbn [mbind option_bind].
  destruct (f σ mq) as [[[[a1 σ1] mq'] ds']|]; [|done]. cbn [mbind option_bind].
  set (s1 := set_shard_bands _ s). assert (H1 : same_shape s s1) by (by eapply (update_shape s _ b)).
  destruct (ofold _ ds' s1) as [s2|] eqn:H2; [|done]. cbn [mbind option_bind]. intros [= _ _ <- _].
  eapply same_shape_trans; [exact H1|exact (propagate_shape _ _ _ H2)].
Qed.

Lemma add_ok item σ s mq :
  proc_ok σ s -> allocated item σ -> (forall x, x ∈ shard_items s -> itemRef x <> itemRef item) ->
  Z.of_nat (length (shard_items s)) + 1 < two63 ->
  queue_at (item_key item) s = Some mq ->
  exists σ' s' ds, queue_op (item_key item) (Add item false) σ s = Some (None, σ', s', ds) /\
    proc_ok σ' s' /\ (forall x, FinalState_of x σ' = FinalState_of x σ) /\
    dom (istates σ') = dom (istates σ) /\ shard_items s' ≡ₚ item :: shard_items s /\
    items_at (Priority (item_key item)) s' ≡ₚ item :: items_at (Priority (item_key item)) s /\
    (forall p, p <> Priority (item_key item) -> items_at p s' = items_at p s) /\ same_shape s s'.
Proof.
  intros [Hst Hsh Hk] Hal Hfresh Hlt Hq.
  destruct (queue_at_items _ _ _ _ Hsh Hq) as (Hmq & _ & Hin).
  pose proof (mq_len_bound _ _ _ _ Hsh Hq).
  destruct (add_effect item σ mq) as (σ' & mq' & ds & Hrun & Hef & Hp & Hoh);
    [done|done|intros x Hx; apply Hfresh, Hin, Hx|lia|].
  destruct (queue_op_ok (Add item false) _ σ s mq _ σ' mq' ds [item] Hsh Hq Hrun Hef)
    as (s' & rest & brest & Hop & Hsh' & Hid & Hc & Hd & Hdom & Hqs & Hi & Hi' & Hb & Hb' & Ho).
  { rewrite fmap_app. apply NoDup_app. split_and!; [apply NoDup_singleton| |apply Hsh].
    intros r ->%list_elem_of_singleton (x & Heq & Hx)%list_elem_of_fmap. by apply (Hfresh x). }
  destruct (only_handle_store item σ σ' Hoh Hal Hst) as (Hst' & Hfs & Hdm).
  exists σ', s', ds. split_and!; try done.
  - split; [done|done|]. eapply flow_keyed_update; [done|exact Hqs|].
    intros x. rewrite Hp. intros [->|Hx]%elem_of_cons; [done|]. by eapply Hk.
  - by rewrite Hi', Hi, Hp.
  - by rewrite Hb', Hb, Hp.
  - by eapply queue_op_shape.
Qed.

(** A call that only takes items out. *)
Lemma drop_ok {A} (f : Store -> queue_t -> option (A * Store * queue_t * list stats_delta))
    key σ s mq a σ' mq' ds gone :
  proc_ok σ s -> queue_at key s = Some mq -> f σ mq = Some (a, σ', mq', ds) -> effect [] σ mq σ' mq' ds ->
  mq_items mq ≡ₚ gone ++ mq_items mq' -> istates σ' = istates σ ->
  exists s', queue_op key f σ s = Some (a, σ', s', ds) /\ proc_ok σ' s' /\
    shard_items s ≡ₚ gone ++ shard_items s' /\
    items_at (Priority key) s ≡ₚ gone ++ items_at (Priority key) s' /\
    (forall p, p <> Priority key -> items_at p s' = items_at p s) /\
    (forall k, queue_at k s' = if decide (k = key) then Some mq' else queue_at k s) /\ same_shape s s'.
Proof.
  intros [Hst Hsh Hk] Hq Hrun Hef Hp Hσ.
  destruct (queue_op_ok f _ σ s mq a σ' mq' ds [] Hsh Hq Hrun Hef (so_nodup _ _ Hsh))
    as (s' & rest & brest & Hop & Hsh' & Hid & Hc & Hd & Hdom & Hqs & Hi & Hi' & Hb & Hb' & Ho).
  exists s'. split_and!; try done.
  - split; [unfold store_ok; by rewrite Hσ|done|]. eapply flow_keyed_update; [done|exact Hqs|].
    intros x Hx. eapply Hk; [done|]. rewrite Hp. apply elem_of_app. by right.
  - by rewrite Hi, Hi', Hp, app_assoc.
  - by rewrite Hb, Hb', Hp, app_assoc.
  - by eapply queue_op_shape.
Qed.

Lemma FinalState_of_istates x σ σ' : istates σ' = istates σ -> FinalState_of x σ' = FinalState_of x σ.
Proof. unfold FinalState_of. by intros ->. Qed.

(** * enqueue *)

(** The flow is registered, the shard and the band have room, the shard is
    not draining. *)
Definition admissible (item : Item) (s : registryShard) : bool :=
  match queue_at (item_key item) s with
  | None => false
  | Some _ => hasCapacity (Priority (item_key item)) (item_bytes item) s && negb (sh_isDraining s)
  end.

(** The outcome of an item that is turned away. *)
Definition rejection (item : Item) (s : registryShard) : QueueOutcome :=
  match queue_at (item_key item) s with
  | None => QueueOutcomeRejectedOther
  | Some _ => if hasCapacity (Priority (item_key item)) (item_bytes item) s
              then QueueOutcomeRejectedOther else QueueOutcomeRejectedCapacity
  end.

Lemma classed_ok o c e : outcome_class o = Some c -> fs_ok (mkFinalState o (classed c e)).
Proof. intros Ho. eapply fs_ok_class; [exact Ho|apply Is_wrap_l]. Qed.

Lemma finalizes_one item fs σ σ' :
  finalizes [item] fs σ σ' -> FinalState_of item σ = None ->
  FinalState_of item σ' = Some fs /\
  forall x, itemRef x <> itemRef item -> FinalState_of x σ' = FinalState_of x σ.
Proof.
  intros Hf Hn. split; [|intros x Hx]; rewrite Hf.
  - rewrite decide_True by set_solver. by rewrite Hn.
  - by rewrite decide_False by set_solver.
Qed.

Lemma reject_ok item o c e σ s (ds : list stats_delta) :
  proc_ok σ s -> allocated item σ -> FinalState_of item σ = None -> outcome_class o = Some c ->
  exists σ', (σ' ← FinalizeWithOutcome item o (classed c e) σ; Some (σ', s, ds)) = Some (σ', s, ds) /\
    proc_ok σ' s /\ dom (istates σ') = dom (istates σ) /\
    (forall x, itemRef x <> itemRef item -> FinalState_of x σ' = FinalState_of x σ) /\
    exists fs, FinalState_of item σ' = Some fs /\ Outcome fs = o /\ fs_ok fs.
Proof.
  intros Hok Hal Hn Ho.
  destruct (finalize_ok item o (classed c e) σ s Hok Hal) as (σ' & -> & Hok' & Hf & Hd);
    [by apply classed_ok|].
  destruct (finalizes_one _ _ _ _ Hf Hn) as [Hf1 Hf2]. exists σ'. split_and!; [done..|].
  eexists. split_and!; [done|done|by apply classed_ok].
Qed.

Lemma enqueue_ok item σ s :
  proc_ok σ s -> allocated item σ -> (forall x, x ∈ shard_items s -> itemRef x <> itemRef item) ->
  Z.of_nat (length (shard_items s)) + 1 < two63 -> FinalState_of item σ = None ->
  exists σ' s' ds, enqueue item σ s = Some (σ', s', ds) /\ proc_ok σ' s' /\ same_shape s s' /\
    dom (istates σ') = dom (istates σ) /\ (forall x, itemRef x <> itemRef item -> FinalState_of x σ' = FinalState_of x σ) /\
    (if admissible item s
    then FinalState_of item σ' = None /\ shard_items s' ≡ₚ item :: shard_items s /\
         items_at (Priority (item_key item)) s' ≡ₚ item :: items_at (Priority (item_key item)) s /\
         (forall p, p <> Priority (item_key item) -> items_at p s' = items_at p s)
    else same_items s s' /\
         exists fs, FinalState_of item σ' = Some fs /\ Outcome fs = rejection item s /\ fs_ok fs).
Proof.
  intros Hok Hal Hfresh Hlt Hn. unfold enqueue, rejection, admissible. rewrite Hn.
  destruct (ManagedQueue (item_key item) s) as [mq|err] eqn:Hmq.
  2: { assert (Hq : queue_at (item_key item) s = None).
       { destruct (queue_at (item_key item) s) as [mq|] eqn:Hq; [|done].
         apply queue_at_ManagedQueue in Hq. congruence. }
       edestruct (reject_ok item QueueOutcomeRejectedOther ErrRejected) as (σ' & -> & Hok' & Hdm & Ho & Hfs);
         [done..|].
       exists σ', s, []. rewrite Hq. split_and!; try done. }
  apply queue_at_ManagedQueue in Hmq. rewrite Hmq. unfold PriorityBandAccessor.
  assert (Hb : is_Some (sh_priorityBands s !! Priority (item_key item))).
  { unfold queue_at in Hmq. by destruct (sh_priorityBands s !! Priority (item_key item)). }
  destruct Hb as [b ->]. destruct (hasCapacity _ _ s) eqn:Hcap; cbn [negb].
  2: { edestruct (reject_ok item QueueOutcomeRejectedCapacity ErrRejected) as (σ' & -> & Hok' & Hdm & Ho & Hfs);
         [done..|]. exists σ', s, []. split_and!; try done. }
  destruct (sh_isDraining s) eqn:Hdr.
  - pose proof (po_shard _ _ Hok) as Hsh. destruct (queue_at_items _ _ _ _ Hsh Hmq) as (Hmok & _ & _).
    destruct (drop_ok (Add item true) (item_key item) σ s mq _ σ mq [] [] Hok Hmq eq_refl)
      as (s' & -> & Hok' & Hi & Hb1 & Hb2 & _ & Hshape); [by apply no_effect|done|done|].
    cbn [mbind option_bind].
    edestruct (reject_ok item QueueOutcomeRejectedOther ErrRejected) as (σ' & -> & Hok'' & Hdm & Ho & Hfs);
      [done..|]. exists σ', s', []. split_and!; try done.
    simpl. split; [split; [by symmetry|]|done]. intros p.
    destruct (decide (p = Priority (item_key item))) as [->|Hp]; [by symmetry|by rewrite Hb2].
  - destruct (add_ok item σ s mq) as (σ' & s' & ds & -> & Hok' & Hfs & Hdm & Hi & Hb1 & Hb2 & Hshape); [done..|].
    cbn [mbind option_bind]. exists σ', s', ds. split_and!; try done. simpl. by rewrite Hfs.
Qed.

(** ** Capacity *)

(** A limit of 0 is no limit. *)
Definition within (limit load : Z) : Prop := 0 < limit -> load <= limit.

Lemma within_test limit load :
  (0 <? limit) && (limit <? load) = false <-> within limit load.
Proof.
  unfold within. destruct (Z.ltb_spec 0 limit), (Z.ltb_spec limit load); simpl; split; intros; lia || done.
Qed.

Lemma counts_load xs n bytes size :
  counts xs n bytes -> 0 <= sumZ item_bytes xs + size < two64 -> Z.of_nat (length xs) + 1 < two64 ->
  u64 (u64 bytes + size) = sumZ item_bytes xs + size /\ u64 (u64 n + 1) = Z.of_nat (length xs) + 1.
Proof.
  intros [-> ->] Hb Hn. rewrite !u64_i64, !u64_add_l, !u64_id; unfold is_u64; [done|lia|lia].
Qed.

(** The test is the comparison of the true loads with the limits, as long as
    the loads fit 64 bits. *)
Lemma hasCapacity_spec σ s p b size :
  shard_ok σ s -> sh_priorityBands s !! p = Some b -> 0 <= size -> 0 <= sumZ item_bytes (band_items b) ->
  sumZ item_bytes (band_items b) <= sumZ item_bytes (shard_items s) ->
  sumZ item_bytes (shard_items s) + size < two64 -> Z.of_nat (length (shard_items s)) + 1 < two64 ->
  hasCapacity p size s = true <->
    within (sc_MaxBytes (sh_config s)) (sumZ item_bytes (shard_items s) + size) /\
    within (sc_MaxRequests (sh_config s)) (Z.of_nat (length (shard_items s)) + 1) /\
    within (pb_MaxBytes (band_config b)) (sumZ item_bytes (band_items b) + size) /\
    within (pb_MaxRequests (band_config b)) (Z.of_nat (length (band_items b)) + 1).
Proof.
  intros Hok Hb Hs H0 Hle Hlt Hn.
  destruct (counts_load _ _ _ size (so_counts _ _ Hok)) as [Hsb Hsn]; [lia|lia|].
  pose proof (bwf_counts _ _ _ (so_bands _ _ Hok _ _ Hb)) as Hbc.
  assert (Z.of_nat (length (band_items b)) <= Z.of_nat (length (shard_items s))).
  { pose proof (bind_lookup (fun e : Z * priorityBand => band_items e.2) _ p b Hb) as Hp.
    fold (shard_items s) in Hp. rewrite (Permutation_length Hp), length_app. simpl. lia. }
  destruct (counts_load _ _ _ size Hbc) as [Hbb Hbn]; [lia|lia|].
  unfold hasCapacity, shard_Stats. cbn [ss_TotalCapacityBytes ss_TotalByteSize ss_TotalCapacityRequests
    ss_TotalLen ss_PerPriorityBandStats].
  rewrite map_lookup_imap, Hb. cbn [mbind option_bind bs_CapacityBytes bs_ByteSize bs_CapacityRequests bs_Len].
  rewrite Hsb, Hsn, Hbb, Hbn, <- !within_test.
  repeat (destruct (_ && _); [naive_solver|]). naive_solver.
Qed.

(** * Dispatch *)

(** A policy that serves the flows of a band: it selects a non-empty queue of
    the band when there is one, and does not fail. *)
Definition serves (pol : FairnessPolicy) (st : PolicyState) (flows : list FlowView) : Prop :=
  exists r st', fp_Pick pol flows st = (inl r, st') /\
    match r with
    | Some q => q ∈ flows /\ 0 < fv_Len q
    | None => forall q, q ∈ flows -> fv_Len q <= 0
    end.

Definition band_serves (b : priorityBand) : Prop :=
  forall flows, flows ≡ₚ ((fun e => FlowQueueAccessor e.2) <$> map_to_list (band_queues b)) ->
    serves (band_fairnessPolicy b) (band_policyState b) flows.

Record dispatched (item : Item) (σ : Store) (s : registryShard) (σ' : Store) (s' : registryShard) : Prop := {
  d_head : exists mq, queue_at (item_key item) s = Some mq /\ PeekHead mq = Some item;
  d_items : shard_items s ≡ₚ item :: shard_items s';
  d_final : finalizes [item] (mkFinalState QueueOutcomeDispatched None) σ σ';
  d_dom : dom (istates σ') = dom (istates σ)
}.

Lemma set_state_ok σ s p b st :
  proc_ok σ s -> sh_priorityBands s !! p = Some b ->
  let s' := set_shard_bands (<[p := set_band_state st b]> (sh_priorityBands s)) s in
  proc_ok σ s' /\ same_items s s' /\ (forall k, queue_at k s' = queue_at k s) /\ same_shape s s'.
Proof.
  intros [Hst Hok Hk] Hb s'. pose proof (so_bands _ _ Hok _ _ Hb) as Hwf.
  assert (Hsame : same_items s s') by (eapply band_update_same; [done| |done]; done).
  assert (Hq : forall k, queue_at k s' = queue_at k s).
  { intros k. erewrite (queue_at_band_update s s' p b _ k Hb) by reflexivity.
    case_decide as Hp; [|done]. unfold queue_at. by rewrite Hp, Hb. }
  assert (Hdom : dom (sh_priorityBands s') = dom (sh_priorityBands s)).
  { simpl. rewrite dom_insert_L. apply elem_of_dom_2 in Hb. set_solver. }
  split; [|split; [done|split; [done|by eapply (update_shape s p b)]]]. split; [done| |].
  - apply (shard_ok_admin σ s); try done; try apply Hok; [| |apply Hsame].
    + intros p' b' Hb'. simpl in Hb'. destruct (decide (p' = p)) as [->|Hp].
      * rewrite lookup_insert_eq in Hb'. injection Hb' as <-. split; apply Hwf.
      * rewrite lookup_insert_ne in Hb' by done. by apply Hok.
    + intros p'. rewrite <- !elem_of_dom, Hdom, elem_of_dom. apply Hok.
  - intros key mq x Hq' Hx. rewrite Hq in Hq'. by eapply Hk.
Qed.

Lemma dispatchItem_ok item σ s mq :
  proc_ok σ s -> queue_at (item_key item) s = Some mq -> PeekHead mq = Some item ->
  exists σ' s' ds, dispatchItem item σ s = Some (None, σ', s', ds) /\ proc_ok σ' s' /\
    dispatched item σ s σ' s' /\ same_shape s s'.
Proof.
  intros Hok Hq Hhd. pose proof Hok as [_ Hsh _].
  assert (Hin : item ∈ mq_items mq) by (by apply law_head_some).
  destruct (queue_at_items _ _ _ _ Hsh Hq) as (Hmq & _ & Hsub).
  pose proof (shard_item_holds _ _ _ Hsh (Hsub _ Hin)) as Hh.
  destruct (Hh) as (h & c & Hhandle & _).
  destruct (remove_effect item h σ mq Hmq Hin Hhandle) as (σ1 & mq1 & ds & Hrun & Hef & Hp & Hst).
  unfold dispatchItem. rewrite (proj2 (queue_at_ManagedQueue _ _ _) Hq), Hhandle.
  destruct (drop_ok (Remove (Some h)) _ σ s mq _ σ1 mq1 ds [item] Hok Hq Hrun Hef Hp Hst)
    as (s1 & -> & Hok1 & Hi & _ & _ & _ & Hshape). cbn [mbind option_bind].
  destruct (finalize_ok item QueueOutcomeDispatched None σ1 s1) as (σ2 & -> & Hok2 & Hf & Hd);
    [done|apply holds_allocated in Hh; unfold allocated; by rewrite Hst|done|].
  cbn [mbind option_bind]. exists σ2, s1, ds. split_and!; try done. split; [by exists mq|done| |congruence].
  intros x. rewrite Hf. by rewrite (FinalState_of_istates x σ σ1).
Qed.

Section dispatch.
Variable range : gmap string queue_t -> list (string * queue_t).
Hypothesis Hrange : forall m, range m ≡ₚ map_to_list m.

Lemma snapshot_perm b :
  snapshot range b ≡ₚ ((fun e => FlowQueueAccessor e.2) <$> map_to_list (band_queues b)).
Proof. unfold snapshot. by rewrite Hrange. Qed.

Lemma elem_of_snapshot b q :
  q ∈ snapshot range b <-> exists id mq, band_queues b !! id = Some mq /\ q = FlowQueueAccessor mq.
Proof.
  rewrite snapshot_perm, list_elem_of_fmap. split.
  - intros ([id mq] & -> & Hin%elem_of_map_to_list). eauto.
  - intros (id & mq & Hin & ->). exists (id, mq). split; [done|]. by apply elem_of_map_to_list.
Qed.

Lemma selectItem_ok σ s p b :
  proc_ok σ s -> sh_priorityBands s !! p = Some b -> band_serves b ->
  exists r st, let s' := set_shard_bands (<[p := set_band_state st b]> (sh_priorityBands s)) s in
    selectItem range b s = (inl r, s') /\
    match r with
    | Some item => Priority (item_key item) = p /\ item ∈ items_at p s /\
        exists mq, queue_at (item_key item) s = Some mq /\ PeekHead mq = Some item
    | None => items_at p s = []
    end.
Proof.
  intros [_ Hok Hk] Hb Hsrv. pose proof (so_bands _ _ Hok _ _ Hb) as Hwf.
  destruct (Hsrv _ (snapshot_perm b)) as (r & st & Hpick & Hr).
  unfold selectItem, shard_FairnessPolicy. rewrite (bwf_prio _ _ _ Hwf), Hb, Hpick.
  assert (Hlen : forall id mq, band_queues b !! id = Some mq -> fv_Len (FlowQueueAccessor mq) = Z.of_nat (length (mq_items mq))).
  { intros id mq Hid. destruct (bwf_queues _ _ _ Hwf _ _ Hid) as [_ (_ & ? & _)]. done. }
  destruct r as [q|].
  - destruct Hr as [(id & mq & Hid & ->)%elem_of_snapshot Hpos].
    rewrite (Hlen id mq Hid) in Hpos. cbn [FlowQueueAccessor fv_PeekHead].
    destruct (PeekHead mq) as [item|] eqn:Hhd.
    2: { apply law_head_none in Hhd. unfold mq_items in Hpos. rewrite Hhd in Hpos. simpl in Hpos. lia. }
    exists (Some item), st. split; [done|].
    assert (Hin : item ∈ mq_items mq) by (by apply law_head_some).
    destruct (bwf_queues _ _ _ Hwf _ _ Hid) as [Hkey _].
    assert (Hq : queue_at (mkFlowKey id p) s = Some mq) by (unfold queue_at; simpl; by rewrite Hb).
    pose proof (Hk _ _ _ Hq Hin) as Hik. rewrite Hik. split_and!; [done| |eauto].
    unfold items_at. rewrite Hb. apply elem_of_map_bind. by exists id, mq.
  - exists None, st. split; [done|]. unfold items_at. rewrite Hb.
    destruct (band_items b) as [|x l] eqn:Hbi; [done|exfalso].
    assert (Hx : x ∈ band_items b) by (rewrite Hbi; set_solver).
    apply elem_of_map_bind in Hx as (id & mq & Hid & Hx). cbn [snd] in Hx.
    assert (Hl : fv_Len (FlowQueueAccessor mq) <= 0) by (apply Hr, elem_of_snapshot; eauto).
    rewrite (Hlen id mq Hid) in Hl. destruct (mq_items mq); [by apply elem_of_nil in Hx|simpl in Hl; lia].
Qed.

(** The bands below [i] are empty, and none up to [i] is saturated. *)
Definition reaches (saturation : spec_float) (ps : list Z) (cs : list spec_float) (s : registryShard) (i : nat) : Prop :=
  (forall j c, (j <= i)%nat -> cs !! j = Some c -> SFleb c saturation = false) /\
  (forall j p, (j < i)%nat -> ps !! j = Some p -> items_at p s = []).

Definition blocked (saturation : spec_float) (cs : list spec_float) (i : nat) : Prop :=
  exists j c, (j <= i)%nat /\ cs !! j = Some c /\ SFleb c saturation = true.

(** What a pass over the bands [ps] does. *)
Definition pass (saturation : spec_float) (ps : list Z) (cs : list spec_float) (r : bool)
    (σ : Store) (s : registryShard) (σ' : Store) (s' : registryShard) : Prop :=
  if r then exists i p item, ps !! i = Some p /\ Priority (item_key item) = p /\
              reaches saturation ps cs s i /\ dispatched item σ s σ' s'
  else σ' = σ /\ same_items s s' /\ (forall k, queue_at k s' = queue_at k s) /\
       forall i p, ps !! i = Some p -> items_at p s = [] \/ blocked saturation cs i.

Lemma pass_skip saturation p ps c cs r σ s s1 σ' s' :
  SFleb c saturation = false -> items_at p s = [] -> same_items s s1 ->
  (forall k, queue_at k s1 = queue_at k s) ->
  pass saturation ps cs r σ s1 σ' s' -> pass saturation (p :: ps) (c :: cs) r σ s σ' s'.
Proof.
  intros Hc Hp [Hs1 Hs2] Hq. unfold pass. destruct r.
  - intros (i & p0 & item & Hi & Hp0 & [Hr1 Hr2] & [Hd1 Hd2 Hd3 Hd4]). exists (S i), p0, item.
    split_and!; [done|done| |].
    + split.
      * intros [|j] c' Hj Hcj; [simpl in Hcj; congruence|]. apply (Hr1 j); [lia|done].
      * intros [|j] p' Hj Hpj; [simpl in Hpj; congruence|]. specialize (Hr2 j p' ltac:(lia) Hpj).
        specialize (Hs2 p'). rewrite Hr2 in Hs2. by apply Permutation_nil_l in Hs2.
    + split; [|by rewrite <- Hs1|done..]. by setoid_rewrite <- Hq.
  - intros (-> & [Hi1 Hi2] & Hk & Hb). split_and!; [done|split|by intros k; rewrite Hk|].
    + by rewrite Hi1.
    + intros p'. by rewrite Hi2.
    + intros [|i] p' Hi; simpl in Hi; [left; congruence|]. destruct (Hb i p' Hi) as [He|(j & c' & Hj & ? & ?)].
      * left. specialize (Hs2 p'). rewrite He in Hs2. by apply Permutation_nil_l in Hs2.
      * right. exists (S j), c'. split_and!; [lia|done|done].
Qed.

Lemma dispatch_loop_ok saturation σ ps : forall cs s,
  length cs = length ps -> NoDup ps -> proc_ok σ s ->
  (forall p b, p ∈ ps -> sh_priorityBands s !! p = Some b -> band_serves b) ->
  exists r σ' s' ds, dispatch_loop range saturation ps cs σ s = Some (r, σ', s', ds) /\
    proc_ok σ' s' /\ same_shape s s' /\ pass saturation ps cs r σ s σ' s'.
Proof.
  induction ps as [|p ps IH]; intros [|c cs] s Hlen Hnd Hok Hsrv; try done; cbn [dispatch_loop].
  { exists false, σ, s, []. split; [done|]. split; [done|]. split; [done|]. unfold pass.
    split_and!; [done..|]. intros i p. by rewrite lookup_nil. }
  apply NoDup_cons in Hnd as [Hp Hnd]. injection Hlen as Hlen.
  destruct (SFleb c saturation) eqn:Hc.
  { exists false, σ, s, []. split; [done|]. split; [done|]. split; [done|]. unfold pass.
    split_and!; [done..|]. intros i p0 _. right. exists 0%nat, c. split_and!; [lia|done|done]. }
  unfold PriorityBandAccessor. destruct (sh_priorityBands s !! p) as [b|] eqn:Hb.
  2: { destruct (IH cs s) as (r & σ' & s' & ds & -> & Hok' & Hshape & Hpass); [done..|set_solver|].
       exists r, σ', s', ds. split; [done|]. split; [done|]. split; [done|]. eapply (pass_skip _ _ _ _ _ _ _ s s); try done.
       unfold items_at. by rewrite Hb. }
  destruct (selectItem_ok σ s p b) as (r & st & -> & Hr); [done..|apply (Hsrv p); [left|done]|].
  destruct (set_state_ok σ s p b st Hok Hb) as (Hok1 & Hsame & Hq1 & Hshape1).
  set (s1 := set_shard_bands _ s) in *. destruct r as [item|].
  - destruct Hr as (Hprio & _ & mq & Hq & Hhd).
    destruct (dispatchItem_ok item σ s1 mq) as (σ' & s' & ds & -> & Hok' & [Hd1 Hd2 Hd3 Hd4] & Hshape);
      [done|by rewrite Hq1|done|].
    cbn [mbind option_bind]. exists true, σ', s', ds. split; [done|]. split; [done|].
    split; [by eapply same_shape_trans|].
    exists 0%nat, p, item. split_and!; [done|done| |].
    + split; [|intros; lia]. intros [|j] c' Hj Hcj; [simpl in Hcj; congruence|lia].
    + split; [eauto| |done..]. destruct Hsame as [Hs _]. by rewrite <- Hs.
  - destruct (IH cs s1) as (r & σ' & s' & ds & Hrun & Hok' & Hshape & Hpass); [done..| |].
    { intros p' b' Hp' Hb'. apply (Hsrv p' b'); [by right|]. unfold s1 in Hb'. simpl in Hb'.
      rewrite lookup_insert_ne in Hb'; [done|]. by intros ->. }
    exists r, σ', s', ds. split; [exact Hrun|]. split; [done|]. split; [by eapply same_shape_trans|].
    by eapply (pass_skip _ _ _ _ _ _ _ s s1).
Qed.

Lemma dispatchCycle_ok saturation computeLimit σ s :
  proc_ok σ s -> (forall p b, sh_priorityBands s !! p = Some b -> band_serves b) ->
  length (computeLimit saturation (sh_orderedPriorityLevels s)) = length (sh_orderedPriorityLevels s) ->
  exists r σ' s' ds, dispatchCycle range saturation computeLimit σ s = Some (r, σ', s', ds) /\
    proc_ok σ' s' /\ same_shape s s' /\
    pass saturation (sh_orderedPriorityLevels s) (computeLimit saturation (sh_orderedPriorityLevels s)) r σ s σ' s'.
Proof.
  intros Hok Hsrv Hlen. apply dispatch_loop_ok; [done| |done|eauto].
  apply sorted_levels_NoDup, Hok.
Qed.
End dispatch.

(** * Background tasks *)

Lemma shard_items_queue σ s x :
  shard_ok σ s -> x ∈ shard_items s -> exists key mq, queue_at key s = Some mq /\ x ∈ mq_items mq.
Proof.
  intros Hok (p & b & Hb & Hx)%elem_of_map_bind. apply elem_of_map_bind in Hx as (id & mq & Hid & Hx).
  exists (mkFlowKey id p), mq. split; [|done]. unfold queue_at. simpl. by rewrite Hb.
Qed.

Section background.
Variable range : gmap string queue_t -> list (string * queue_t).
Hypothesis Hrange : forall m, range m ≡ₚ map_to_list m.
Variable order : list FlowKey -> list FlowKey.
Hypothesis Horder : forall l, order l ≡ₚ l.

Lemma queuesToProcess_all σ s key :
  shard_ok σ s -> is_Some (queue_at key s) -> key ∈ order (queuesToProcess range s).
Proof.
  intros Hok [mq Hq]. destruct (queue_at_items _ _ _ _ Hok Hq) as (_ & Hkey & _). rewrite Horder.
  unfold queue_at in Hq. destruct (sh_priorityBands s !! Priority key) as [b|] eqn:Hb; [|done].
  cbn [mbind option_bind] in Hq. unfold queuesToProcess. apply list_elem_of_bind. exists (Priority key). split.
  - unfold PriorityBandAccessor. rewrite Hb. apply list_elem_of_fmap. exists (FlowQueueAccessor mq).
    split; [by simpl|]. apply elem_of_snapshot; eauto.
  - apply (so_levels _ _ Hok). by rewrite Hb.
Qed.

(** A task that is run once on every queue establishes [done] for all of
    them, if it does so for the queue it runs on and keeps the rest. *)
Lemma processAllQueues_ok processFn (R : Store -> registryShard -> Prop) (fin : list Item -> Prop) σ s :
  proc_ok σ s -> R σ s ->
  (forall key σ1 s1 mq, proc_ok σ1 s1 -> R σ1 s1 -> queue_at key s1 = Some mq ->
     exists σ2 s2 ds mq2, processFn key σ1 s1 = Some (σ2, s2, ds) /\ proc_ok σ2 s2 /\ R σ2 s2 /\
       fin (mq_items mq2) /\ forall k, queue_at k s2 = if decide (k = key) then Some mq2 else queue_at k s1) ->
  exists σ' s' ds, processAllQueuesConcurrently range processFn order σ s = Some (σ', s', ds) /\ proc_ok σ' s' /\
    R σ' s' /\ forall key mq, queue_at key s' = Some mq -> fin (mq_items mq).
Proof.
  intros Hok HR Hstep. unfold processAllQueuesConcurrently.
  set (P := fun (l : list FlowKey) (acc : Store * registryShard * list stats_delta) =>
    proc_ok acc.1.1 acc.1.2 /\ R acc.1.1 acc.1.2 /\
    forall key mq, queue_at key acc.1.2 = Some mq -> key ∈ l \/ fin (mq_items mq)).
  destruct (ofold_total (process_one processFn) P (order (queuesToProcess range s)) (σ, s, [])) as ([[σ' s'] ds] & Hrun & Hok' & HR' & Hall); cycle 2.
  - exists σ', s', ds. split; [exact Hrun|]. split_and!; [done..|]. intros key mq Hq.
    destruct (Hall key mq Hq) as [?%elem_of_nil|?]; done.
  - intros key l [[σ1 s1] ds1] (Hok1 & HR1 & Hl). cbn [fst snd] in *. unfold process_one.
    destruct (queue_at key s1) as [mq|] eqn:Hq.
    + rewrite (proj2 (queue_at_ManagedQueue _ _ _) Hq).
      destruct (Hstep key σ1 s1 mq) as (σ2 & s2 & ds2 & mq2 & -> & Hok2 & HR2 & Hfin & Hqs); [done..|].
      cbn [mbind option_bind]. eexists. split; [reflexivity|]. split_and!; cbn [fst snd]; [done..|].
      intros k mq' Hk. rewrite Hqs in Hk. case_decide as Heq; [right; congruence|].
      destruct (Hl k mq' Hk) as [[?|?]%elem_of_cons|?]; [done|by left|by right].
    + destruct (ManagedQueue key s1) eqn:Hmq; [apply queue_at_ManagedQueue in Hmq; congruence|].
      eexists. split; [reflexivity|]. split_and!; cbn [fst snd]; [done..|]. intros k mq' Hk.
      destruct (Hl k mq' Hk) as [[->|?]%elem_of_cons|?]; [congruence|by left|by right].
  - split_and!; cbn [fst snd]; [done..|]. intros key mq Hq. left.
    eapply queuesToProcess_all; [apply Hok|eauto].
Qed.

Lemma sweep_queue_ok key σ s mq :
  proc_ok σ s -> queue_at key s = Some mq ->
  exists σ' s' ds mq', sweep_queue key σ s = Some (σ', s', ds) /\ proc_ok σ' s' /\ same_shape s s' /\
    istates σ' = istates σ /\
    mq_items mq' ≡ₚ keep (is_finalized σ) (mq_items mq) /\
    shard_items s ≡ₚ take_out (is_finalized σ) (mq_items mq) ++ shard_items s' /\
    (forall k, queue_at k s' = if decide (k = key) then Some mq' else queue_at k s).
Proof.
  intros Hok Hq. pose proof Hok as [_ Hsh _]. destruct (queue_at_items _ _ _ _ Hsh Hq) as (Hmq & _ & _).
  destruct (cleanup_effect (is_finalized σ) σ mq Hmq) as (σ' & mq' & ds & Hrun & Hef & Hp & Hst).
  destruct (drop_ok (Cleanup (is_finalized σ)) key σ s mq _ σ' mq' ds (take_out (is_finalized σ) (mq_items mq)) Hok Hq Hrun Hef)
    as (s' & Hop & Hok' & Hi & _ & _ & Hqs & Hshape); [rewrite Hp; symmetry; apply keep_take_out|done|].
  unfold sweep_queue. rewrite Hop. cbn [mbind option_bind]. by exists σ', s', ds, mq'.
Qed.

Lemma is_finalized_istates σ σ' x : istates σ' = istates σ -> is_finalized σ' x = is_finalized σ x.
Proof. unfold is_finalized. intros H. by rewrite (FinalState_of_istates x σ σ'). Qed.

(** A sweep removes the finalized items and nothing else. *)
Lemma sweepFinalizedItems_ok σ s :
  proc_ok σ s ->
  exists σ' s' ds gone, sweepFinalizedItems range order σ s = Some (σ', s', ds) /\ proc_ok σ' s' /\
    same_shape s s' /\ istates σ' = istates σ /\ shard_items s ≡ₚ gone ++ shard_items s' /\
    (forall x, x ∈ gone -> is_finalized σ x = true) /\
    (forall x, x ∈ shard_items s' -> is_finalized σ x = false).
Proof.
  intros Hok.
  destruct (processAllQueues_ok sweep_queue
    (fun σ1 s1 => same_shape s s1 /\ istates σ1 = istates σ /\ exists gone, shard_items s ≡ₚ gone ++ shard_items s1 /\
       forall x, x ∈ gone -> is_finalized σ x = true)
    (fun xs => forall x, x ∈ xs -> is_finalized σ x = false) σ s)
    as (σ' & s' & ds & Hrun & Hok' & (Hshape & Hst & gone & Hg & Hfin) & Hall); [done|..].
  - split; [done|]. split; [done|]. exists []. split; [done|]. by intros x ?%elem_of_nil.
  - intros key σ1 s1 mq Hok1 (Hsh1 & Hst1 & gone & Hg & Hfin) Hq.
    destruct (sweep_queue_ok key σ1 s1 mq Hok1 Hq) as (σ2 & s2 & ds & mq2 & Hrun & Hok2 & Hsh2 & Hst2 & Hk & Hi & Hqs).
    exists σ2, s2, ds, mq2. split; [done|]. split; [done|]. split; [split; [by eapply same_shape_trans|split; [congruence|]]|].
    2: split; [|exact Hqs].
    + exists (gone ++ take_out (is_finalized σ1) (mq_items mq)). split; [by rewrite Hg, Hi, app_assoc|].
      intros x [Hx|[_ Hx]%elem_of_take_out]%elem_of_app; [by apply Hfin|].
      by rewrite <- (is_finalized_istates σ σ1).
    + intros x. rewrite Hk, elem_of_keep. intros [_ Hx]. by rewrite <- (is_finalized_istates σ σ1).
  - exists σ', s', ds, gone. split; [exact Hrun|]. split; [done|]. split; [done|]. split_and!; [done..|]. intros x Hx.
    destruct (shard_items_queue σ' s' x) as (key & mq & Hq & Hx'); [apply Hok'|done|]. by eapply Hall.
Qed.

Lemma evict_queue_ok key σ s mq :
  proc_ok σ s -> queue_at key s = Some mq ->
  exists σ' s' ds mq', evict_queue key σ s = Some (σ', s', ds) /\ proc_ok σ' s' /\ same_shape s s' /\
    dom (istates σ') = dom (istates σ) /\
    finalizes (mq_items mq) (mkFinalState QueueOutcomeEvictedOther
      (classed ErrEvicted (Sentinel ErrFlowControllerNotRunning))) σ σ' /\
    mq_items mq' = [] /\ shard_items s ≡ₚ mq_items mq ++ shard_items s' /\
    (forall k, queue_at k s' = if decide (k = key) then Some mq' else queue_at k s).
Proof.
  intros Hok Hq. pose proof Hok as [_ Hsh _]. destruct (queue_at_items _ _ _ _ Hsh Hq) as (Hmq & _ & Hsub).
  destruct (drain_effect σ mq Hmq) as (σ1 & mq' & ds & Hrun & Hef & Hp & Hst).
  destruct (drop_ok Drain key σ s mq _ σ1 mq' ds (mq_items mq) Hok Hq Hrun Hef)
    as (s' & Hop & Hok' & Hi & _ & _ & Hqs & Hshape); [by rewrite Hp, app_nil_r|done|].
  unfold evict_queue. rewrite Hop. cbn [mbind option_bind].
  destruct (finalize_all_ok QueueOutcomeEvictedOther (classed ErrEvicted (Sentinel ErrFlowControllerNotRunning))
    s' (mq_items mq) σ1) as (σ2 & -> & Hok2 & Hf & Hd); [done| |by apply classed_ok|].
  { intros x Hx. unfold allocated. rewrite Hst. eapply holds_allocated, shard_item_holds; [done|by apply Hsub]. }
  cbn [mbind option_bind]. exists σ2, s', ds, mq'. split_and!; try done; [congruence|].
  intros x. rewrite Hf. by rewrite (FinalState_of_istates x σ σ1).
Qed.

Lemma evictAll_ok σ s :
  proc_ok σ s ->
  exists σ' s' ds, evictAll range order σ s = Some (σ', s', ds) /\ proc_ok σ' s' /\ same_shape s s' /\
    dom (istates σ') = dom (istates σ) /\ shard_items s' = [] /\
    finalizes (shard_items s) (mkFinalState QueueOutcomeEvictedOther
      (classed ErrEvicted (Sentinel ErrFlowControllerNotRunning))) σ σ'.
Proof.
  intros Hok. set (fs := mkFinalState _ _).
  destruct (processAllQueues_ok evict_queue
    (fun σ1 s1 => same_shape s s1 /\ dom (istates σ1) = dom (istates σ) /\
       exists gone, shard_items s ≡ₚ gone ++ shard_items s1 /\ finalizes gone fs σ σ1)
    (fun xs => xs = []) σ s) as (σ' & s' & ds & Hrun & Hok' & (Hshape & Hd & gone & Hg & Hf) & Hall); [done|..].
  - split; [done|]. split; [done|]. exists []. split; [done|apply finalizes_refl].
  - intros key σ1 s1 mq Hok1 (Hsh1 & Hd1 & gone & Hg & Hf) Hq.
    destruct (evict_queue_ok key σ1 s1 mq Hok1 Hq) as (σ2 & s2 & ds & mq2 & Hrun & Hok2 & Hsh2 & Hd2 & Hf2 & He & Hi & Hqs).
    exists σ2, s2, ds, mq2. split; [done|]. split; [done|]. split; [|done].
    split; [by eapply same_shape_trans|]. split; [congruence|].
    exists (gone ++ mq_items mq). split; [by rewrite Hg, Hi, app_assoc|]. by eapply finalizes_trans.
  - assert (He : shard_items s' = []).
    { destruct (shard_items s') as [|x l] eqn:Hi; [done|exfalso].
      destruct (shard_items_queue σ' s' x) as (key & mq & Hq & Hx); [apply Hok'|rewrite Hi; set_solver|].
      rewrite (Hall _ _ Hq) in Hx. by apply elem_of_nil in Hx. }
    exists σ', s', ds. split; [exact Hrun|]. split; [done|]. split; [done|]. split_and!; [done..|].
    intros x. rewrite Hf.
    rewrite He, app_nil_r in Hg. apply (decide_ext (itemRef x ∈ itemRef <$> gone)). by rewrite Hg.
Qed.
End background.

(** * The policies of the repository serve their bands *)

Definition band_views (b : priorityBand) : list FlowView :=
  (fun e => FlowQueueAccessor e.2) <$> map_to_list (band_queues b).

Lemma elem_of_band_views σ p b q :
  band_wf σ p b -> q ∈ band_views b ->
  exists id mq, band_queues b !! id = Some mq /\ q = FlowQueueAccessor mq /\
    fv_FlowKey q = mkFlowKey id p /\ fv_Len q = Z.of_nat (length (mq_items mq)).
Proof.
  intros Hwf ([id mq] & -> & Hin%elem_of_map_to_list)%list_elem_of_fmap.
  destruct (bwf_queues _ _ _ Hwf _ _ Hin) as (Hk & _ & Hl & _). by exists id, mq.
Qed.

Lemma band_views_NoDup σ p b :
  band_wf σ p b -> NoDup (ID <$> (fv_FlowKey <$> band_views b)).
Proof.
  intros Hwf. unfold band_views. rewrite <- !list_fmap_compose.
  rewrite (list_fmap_ext _ fst); [apply NoDup_fst_map_to_list|].
  intros i [id mq] Hi. apply list_elem_of_lookup_2, elem_of_map_to_list in Hi.
  by destruct (bwf_queues _ _ _ Hwf _ _ Hi) as [Hk _]; simpl; rewrite Hk.
Qed.

Lemma band_Queue_Some flows id q : band_Queue flows id = Some q -> q ∈ flows.
Proof.
  unfold band_Queue. destruct (list_find _ flows) as [[i q']|] eqn:Hf; [|done]. intros [= <-].
  apply list_find_Some in Hf as [Hi _]. by eapply list_elem_of_lookup_2.
Qed.

Lemma ready_flow flows q :
  NoDup (ID <$> (fv_FlowKey <$> flows)) -> q ∈ flows -> ready flows (fv_FlowKey q) = (0 <? fv_Len q).
Proof.
  intros Hnd Hq. unfold ready. destruct (band_Queue flows (ID (fv_FlowKey q))) as [q'|] eqn:Hb.
  - assert (q' = q) as ->; [|done]. unfold band_Queue in Hb.
    destruct (list_find _ flows) as [[i q0]|] eqn:Hf; [|done]. injection Hb as <-.
    apply list_find_Some in Hf as (Hi & Hid & _). apply list_elem_of_lookup in Hq as [j Hj].
    rewrite <- list_fmap_compose in Hnd. assert (i = j) as ->; [|congruence].
    eapply (NoDup_lookup _ i j (ID (fv_FlowKey q))); [done|..]; rewrite list_lookup_fmap.
    + rewrite Hi. simpl. by rewrite Hid.
    + by rewrite Hj.
  - exfalso. unfold band_Queue in Hb. destruct (list_find _ flows) eqn:Hf; [done|].
    apply list_find_None in Hf. rewrite Forall_forall in Hf. by apply (Hf q).
Qed.

Lemma round_robin_serves name flows last :
  NoDup (ID <$> (fv_FlowKey <$> flows)) -> serves (newRoundRobin name) (RoundRobinCursor last) flows.
Proof.
  intros Hnd. unfold serves. cbn [newRoundRobin fp_Pick].
  destruct (decide (Exists (fun q => 0 < fv_Len q) flows)) as [Hex|Hno].
  - apply Exists_exists in Hex as (q & Hq & Hpos). set (sk := sort_keys (fv_FlowKey <$> flows)).
    assert (Hin : fv_FlowKey q ∈ sk).
    { unfold sk. rewrite sort_keys_Permutation. by apply list_elem_of_fmap_2. }
    apply list_elem_of_lookup in Hin as [p Hp].
    destruct (roundRobin_step flows last sk (fv_FlowKey q) p) as (k' & q' & c & -> & Hb & _ & Hr & _);
      [done|unfold sk; rewrite sort_keys_Permutation; by eapply NoDup_fmap_1|done| |].
    { rewrite ready_flow by done. by apply Z.ltb_lt. }
    eexists _, _. split; [done|]. split; [by eapply band_Queue_Some|].
    unfold ready in Hr. rewrite Hb in Hr. by apply Z.ltb_lt.
  - assert (Hle : forall q, q ∈ flows -> fv_Len q <= 0).
    { intros q Hq. destruct (Z.lt_ge_cases 0 (fv_Len q)) as [Hlt|]; [|done].
      destruct Hno. apply Exists_exists. eauto. }
    unfold roundRobin_Pick. case_bool_decide; [by eexists None, _|].
    pose proof (roundRobin_loop_spec flows (sort_keys (fv_FlowKey <$> flows))
      (startIndex_of (sort_keys (fv_FlowKey <$> flows)) last) (length (sort_keys (fv_FlowKey <$> flows))) 0) as Hl.
    destruct (roundRobin_loop _ _ _ _ _) as [[k q]|]; [|by eexists None, _].
    destruct Hl as (_ & _ & _ & Hr & Hb & _). unfold ready in Hr. rewrite Hb in Hr.
    apply Z.ltb_lt in Hr. apply band_Queue_Some in Hb. specialize (Hle q Hb). lia.
Qed.

Lemma round_robin_band σ p b name last :
  band_wf σ p b -> band_fairnessPolicy b = newRoundRobin name -> band_policyState b = RoundRobinCursor last ->
  band_serves b.
Proof.
  intros Hwf Hpl Hst flows Hp. rewrite Hpl, Hst. apply round_robin_serves. rewrite Hp.
  by eapply (band_views_NoDup σ p b).
Qed.

Lemma global_strict_band σ p b name less typ :
  band_wf σ p b -> band_fairnessPolicy b = newGlobalStrict name -> StrictWeak less ->
  (forall id mq, band_queues b !! id = Some mq -> op_Type (mq_policy mq) = typ /\ op_Less (mq_policy mq) = less) ->
  band_serves b.
Proof.
  intros Hwf Hpl Hsw Hpol flows Hp. unfold serves. rewrite Hpl. cbn [newGlobalStrict fp_Pick].
  assert (Hview : forall q, q ∈ flows -> exists id mq, band_queues b !! id = Some mq /\
    q = FlowQueueAccessor mq /\ fv_Len q = Z.of_nat (length (mq_items mq))).
  { intros q. rewrite Hp. intros Hq. destruct (elem_of_band_views σ p b q Hwf Hq) as (id & mq & ? & ? & _ & ?). eauto. }
  destruct (globalStrict_iterate_spec less typ flows None Hsw) as (r & Hr & Hn & Hsome); [|done|].
  { intros q Hq. destruct (Hview q Hq) as (id & mq & Hid & -> & _). by eapply Hpol. }
  unfold globalStrict_Pick. rewrite Hr. destruct r as [[q x]|]; eexists _, _; (split; [done|]).
  - destruct (Hsome q x eq_refl) as [[?|[Hq [Hl _]]] _]; [done|]. split; [done|].
    destruct (Hview q Hq) as (_ & mq & _ & _ & Hlen). cbn [fst]. lia.
  - intros q Hq. destruct (proj1 Hn eq_refl) as [_ Hno]. destruct (Hview q Hq) as (id & mq & _ & -> & Hlen).
    destruct (PeekHead mq) as [x|] eqn:Hx.
    + destruct (Z.eq_dec (fv_Len (FlowQueueAccessor mq)) 0) as [->|Hne]; [done|].
      destruct (Hno _ x Hq). by split.
    + apply law_head_none in Hx. rewrite Hlen. unfold mq_items. by rewrite Hx.
Qed.

(** * Dispatch with any policy

    A policy may fail or pass over its band; all a cycle needs to keep the
    state sound is that the queue it selects is one of the band. *)

Definition sound_policy (pol : FairnessPolicy) : Prop :=
  forall flows st q st', fp_Pick pol flows st = (inl (Some q), st') -> q ∈ flows.

Definition policies_sound (s : registryShard) : Prop :=
  forall p b, sh_priorityBands s !! p = Some b -> sound_policy (band_fairnessPolicy b).

Lemma policies_sound_shape s s' : same_shape s s' -> policies_sound s -> policies_sound s'.
Proof.
  intros Hs Hp p b' Hb'. destruct (same_shape_band s s' p b' Hs Hb') as (b & Hb & [= -> _]). by eapply Hp.
Qed.

Lemma round_robin_sound name : sound_policy (newRoundRobin name).
Proof.
  intros flows st q st'. cbn [newRoundRobin fp_Pick]. unfold roundRobin_Pick. destruct st as [|last]; [done|].
  case_bool_decide; [done|].
  pose proof (roundRobin_loop_spec flows (sort_keys (fv_FlowKey <$> flows))
    (startIndex_of (sort_keys (fv_FlowKey <$> flows)) last) (length (sort_keys (fv_FlowKey <$> flows))) 0) as Hl.
  destruct (roundRobin_loop _ _ _ _ _) as [[k q']|]; [|done]. intros [= <- _].
  destruct Hl as (_ & _ & _ & _ & Hb & _). by eapply band_Queue_Some.
Qed.

Lemma globalStrict_iterate_in flows : forall best q x,
  globalStrict_iterate flows best = inl (Some (q, x)) -> q ∈ flows \/ best = Some (q, x).
Proof.
  induction flows as [|q0 flows IH]; intros best q x; simpl; [intros [= ->]; by right|].
  repeat case_match; intros Hit; try done;
    destruct (IH _ _ _ Hit) as [?|[= <- <-]] || destruct (IH _ _ _ Hit); set_solver.
Qed.

Lemma global_strict_sound name : sound_policy (newGlobalStrict name).
Proof.
  intros flows st q st'. cbn [newGlobalStrict fp_Pick]. unfold globalStrict_Pick.
  destruct (globalStrict_iterate flows None) as [[[q' x]|]|] eqn:Hit; [|done..]. intros [= <- _].
  by destruct (globalStrict_iterate_in _ _ _ _ Hit).
Qed.

Section safe.
Variable range : gmap string queue_t -> list (string * queue_t).
Hypothesis Hrange : forall m, range m ≡ₚ map_to_list m.

Lemma selectItem_safe σ s p b :
  proc_ok σ s -> sh_priorityBands s !! p = Some b -> sound_policy (band_fairnessPolicy b) ->
  exists r st, selectItem range b s = (r, set_shard_bands (<[p := set_band_state st b]> (sh_priorityBands s)) s) /\
    forall item, r = inl (Some item) ->
      exists mq, queue_at (item_key item) s = Some mq /\ PeekHead mq = Some item.
Proof.
  intros [_ Hok Hk] Hb Hsnd. pose proof (so_bands _ _ Hok _ _ Hb) as Hwf.
  unfold selectItem, shard_FairnessPolicy. rewrite (bwf_prio _ _ _ Hwf), Hb.
  destruct (fp_Pick (band_fairnessPolicy b) (snapshot range b) (band_policyState b)) as [r st] eqn:Hpick.
  destruct r as [[q|]|err]; eexists _, st; (split; [reflexivity|]); [|done..].
  intros item [= Hhd]. apply Hsnd in Hpick. apply elem_of_snapshot in Hpick as (id & mq & Hid & ->); [|done].
  assert (Hq : queue_at (mkFlowKey id p) s = Some mq) by (unfold queue_at; simpl; by rewrite Hb).
  assert (Hin : item ∈ mq_items mq) by (by apply law_head_some).
  exists mq. by rewrite (Hk _ _ _ Hq Hin).
Qed.

Lemma dispatch_loop_safe saturation σ ps : forall cs s,
  length cs = length ps -> proc_ok σ s -> policies_sound s ->
  exists r σ' s' ds, dispatch_loop range saturation ps cs σ s = Some (r, σ', s', ds) /\
    proc_ok σ' s' /\ same_shape s s' /\
    (if r then exists item, dispatched item σ s σ' s' else σ' = σ /\ shard_items s' ≡ₚ shard_items s).
Proof.
  induction ps as [|p ps IH]; intros [|c cs] s Hlen Hok Hsnd; try done; cbn [dispatch_loop].
  { exists false, σ, s, []. by repeat (split; [done|]). }
  injection Hlen as Hlen. destruct (SFleb c saturation); [exists false, σ, s, []; by repeat (split; [done|])|].
  unfold PriorityBandAccessor. destruct (sh_priorityBands s !! p) as [b|] eqn:Hb; [|by apply IH].
  destruct (selectItem_safe σ s p b Hok Hb (Hsnd _ _ Hb)) as (r & st & -> & Hr).
  destruct (set_state_ok σ s p b st Hok Hb) as (Hok1 & [Hs _] & Hq1 & Hshape1). cbn zeta in *.
  set (s1 := set_shard_bands _ s) in *.
  assert (Hskip : exists r σ' s' ds, dispatch_loop range saturation ps cs σ s1 = Some (r, σ', s', ds) /\
    proc_ok σ' s' /\ same_shape s s' /\
    (if r then exists item, dispatched item σ s σ' s' else σ' = σ /\ shard_items s' ≡ₚ shard_items s)).
  { destruct (IH cs s1 Hlen Hok1 (policies_sound_shape _ _ Hshape1 Hsnd)) as (r1 & σ' & s' & ds & Hrun & Hok' & Hsh & Hd).
    exists r1, σ', s', ds. split; [done|]. split; [done|]. split; [by eapply same_shape_trans|]. destruct r1.
    - destruct Hd as [item [H1 H2 H3 H4]]. exists item. split; [by setoid_rewrite <- Hq1|by rewrite <- Hs|done..].
    - by rewrite <- Hs. }
  destruct r as [[item|]|err]; [|exact Hskip..].
  destruct (Hr item eq_refl) as (mq & Hq & Hhd).
  destruct (dispatchItem_ok item σ s1 mq) as (σ' & s' & ds & -> & Hok' & [Hd1 Hd2 Hd3 Hd4] & Hshape);
    [done|by rewrite Hq1|done|].
  cbn [mbind option_bind]. exists true, σ', s', ds. split; [done|]. split; [done|].
  split; [by eapply same_shape_trans|]. exists item. split; [eauto| |done..]. by rewrite <- Hs.
Qed.
End safe.

Lemma keep_split {A} (p : A -> bool) gone rest :
  (forall x, x ∈ gone -> p x = true) -> (forall x, x ∈ rest -> p x = false) -> keep p (gone ++ rest) = rest.
Proof.
  intros Hg Hr. unfold keep. rewrite List.filter_app.
  induction gone as [|x gone IH]; simpl.
  - induction rest as [|x rest IH]; [done|]. simpl. rewrite (Hr x) by left. simpl. f_equal. apply IH.
    intros y Hy. apply Hr. by right.
  - rewrite (Hg x) by left. simpl. apply IH. intros y Hy. apply Hg. by right.
Qed.

(** * Positions and priorities *)

Lemma sorted_before (l : list Z) i p p' :
  StronglySorted (flip Z.lt) l -> l !! i = Some p -> p' ∈ l -> p < p' -> exists j, (j < i)%nat /\ l !! j = Some p'.
Proof.
  intros Hs. revert i. induction Hs as [|q l Hs IH Hall]; intros i Hi Hp' Hlt; [by apply elem_of_nil in Hp'|].
  rewrite Forall_forall in Hall. destruct i as [|i]; simpl in Hi.
  - injection Hi as ->. apply elem_of_cons in Hp' as [->|Hp']; [lia|]. specialize (Hall p' Hp'). simpl in Hall. lia.
  - apply elem_of_cons in Hp' as [->|Hp']; [exists 0%nat; split; [lia|done]|].
    destruct (IH i Hi Hp' Hlt) as (j & Hj & Hj'). exists (S j). split; [lia|done].
Qed.

Lemma sorted_le (l : list Z) : StronglySorted (flip Z.lt) l ->
  forall i j p q, l !! i = Some p -> l !! j = Some q -> (j <= i)%nat -> p <= q.
Proof.
  induction 1 as [|x l _ IH Hall]; intros [|i] [|j] p q Hp Hq Hle; simplify_eq/=; [lia|lia| |].
  - rewrite Forall_forall in Hall. apply list_elem_of_lookup_2, Hall in Hp. simpl in Hp. lia.
  - apply (IH i j); [done..|lia].
Qed.

Lemma items_at_none σ s p : shard_ok σ s -> p ∉ sh_orderedPriorityLevels s -> items_at p s = [].
Proof.
  intros Hok Hp. unfold items_at. destruct (sh_priorityBands s !! p) as [b|] eqn:Hb; [|done].
  destruct Hp. apply (so_levels _ _ Hok). eauto.
Qed.

Lemma shard_items_at σ s x :
  shard_ok σ s -> x ∈ shard_items s -> exists i p, sh_orderedPriorityLevels s !! i = Some p /\ x ∈ items_at p s.
Proof.
  intros Hok (p & b & Hb & Hx)%elem_of_map_bind.
  assert (Hp : p ∈ sh_orderedPriorityLevels s) by (apply (so_levels _ _ Hok); eauto).
  apply list_elem_of_lookup in Hp as [i Hi]. exists i, p. split; [done|]. unfold items_at. by rewrite Hb.
Qed.

(** A new item does not concern the shard. *)
Lemma proc_ok_NewItem req ttl enq σ s item σ' :
  proc_ok σ s -> NewItem req ttl enq σ = (item, σ') -> proc_ok σ' s.
Proof.
  intros [Hso Hsh Hk] Hnew. destruct (NewItem_spec _ _ _ _ _ _ Hso Hnew) as (Hst' & _).
  split; [done| |done]. eapply shard_ok_frames; [done|by eapply frames_new_item|by intros ? ? ?%elem_of_nil].
Qed.
