(* ===== verification/ProcessorRun.v ===== *)
(** The life of a processor beside its callers:
    Submit, SubmitOrBlock, Run and shutdown of
    pkg/epp/flowcontrol/controller/internal/processor.go.

    A state has the goroutine of [Run], the sweep, and any number of callers.
    A call of [Submit] is two steps, the load of [isShuttingDown] and the
    [select], because the shutdown can start between them.  The drain loop of
    [shutdown] is one step per item received.  A transition is named by a
    [label]; [sys_exec] runs it ([None] is a panic) and [sys_enabled] says when the
    scheduler may choose it.  The channel is buffered, as the default
    configuration has it. *)

From Stdlib Require Import SpecFloat.
From S2P Require Import Prelude FlowTypes ItemProps SafeQueue ListQueue Ordering Fairness.
From S2P Require Import MaxMinHeap MaxMinHeapSpec QueueFactory ManagedQueue RegistryConfig Shard ShardSpec.
From S2P Require Import Processor ProcessorSpec.

Inductive phase := Running | Draining | Stopped.

Record ShardProcessor := mkProcessor {
  sp_store : Store;
  sp_shard : registryShard;
  sp_enqueueChan : list Item;
  sp_bufferSize : nat;
  sp_lifecycleDone : bool;
  sp_isShuttingDown : bool;
  sp_phase : phase
}.

Definition NewShardProcessor (σ : Store) (shard : registryShard) (enqueueChannelBufferSize : nat)
  : ShardProcessor :=
  mkProcessor σ shard [] enqueueChannelBufferSize false false Running.

Definition set_chan (c : list Item) (sp : ShardProcessor) : ShardProcessor :=
  mkProcessor (sp_store sp) (sp_shard sp) c (sp_bufferSize sp) (sp_lifecycleDone sp)
    (sp_isShuttingDown sp) (sp_phase sp).
Definition set_work (σ : Store) (s : registryShard) (sp : ShardProcessor) : ShardProcessor :=
  mkProcessor σ s (sp_enqueueChan sp) (sp_bufferSize sp) (sp_lifecycleDone sp)
    (sp_isShuttingDown sp) (sp_phase sp).
Definition set_phase (shutting : bool) (ph : phase) (sp : ShardProcessor) : ShardProcessor :=
  mkProcessor (sp_store sp) (sp_shard sp) (sp_enqueueChan sp) (sp_bufferSize sp) (sp_lifecycleDone sp)
    shutting ph.
Definition cancel (sp : ShardProcessor) : ShardProcessor :=
  mkProcessor (sp_store sp) (sp_shard sp) (sp_enqueueChan sp) (sp_bufferSize sp) true
    (sp_isShuttingDown sp) (sp_phase sp).

Definition has_room (sp : ShardProcessor) : bool :=
  bool_decide (length (sp_enqueueChan sp) < sp_bufferSize sp)%nat.

Definition send (item : Item) (sp : ShardProcessor) : ShardProcessor :=
  set_chan (sp_enqueueChan sp ++ [item]) sp.

(** The first statement of both calls: an error, or on to the [select]. *)
Definition submit_check (sp : ShardProcessor) : option error :=
  if sp_isShuttingDown sp then Some (Sentinel ErrFlowControllerNotRunning) else None.

(** The results of the [select] of [Submit], one per case that is ready; the
    default case when none is. *)
Definition Submit_select (item : Item) (sp : ShardProcessor) : list (option error * ShardProcessor) :=
  let ready := (if has_room sp then [(None, send item sp)] else []) ++
               (if sp_lifecycleDone sp then [(Some (Sentinel ErrFlowControllerNotRunning), sp)] else []) in
  match ready with
  | [] => [(Some (Sentinel ErrProcessorBusy), sp)]
  | _ => ready
  end.

(** The results of the [select] of [SubmitOrBlock]; none when it blocks.
    [callerErr] is [ctx.Err()] of the caller's context. *)
Definition SubmitOrBlock_select (callerErr : option error) (item : Item) (sp : ShardProcessor)
  : list (option error * ShardProcessor) :=
  (if has_room sp then [(None, send item sp)] else []) ++
  match callerErr with Some e => [(Some e, sp)] | None => [] end ++
  (if sp_lifecycleDone sp then [(Some (Sentinel ErrFlowControllerNotRunning), sp)] else []).

(** * The system *)

(** [callers] hold items outside a call, [calls] are between the check and
    the [select], [owned] are the items whose handoff returned nil. *)
Record system := mkSystem {
  sy_proc : ShardProcessor;
  sy_callers : list Item;
  sy_calls : list Item;
  sy_owned : list Item
}.

Definition set_proc (sp : ShardProcessor) (sy : system) : system :=
  mkSystem sp (sy_callers sy) (sy_calls sy) (sy_owned sy).

Inductive label :=
  | LNew (req : FlowControlRequest) (ttl enq : Z)
  | LCheck (i : nat)
  | LSelect (i : nat) (blocking : bool) (callerErr : option error) (choice : nat)
  | LReceive (saturation : spec_float) (computeLimit : spec_float -> list Z -> list spec_float)
  | LTick (saturation : spec_float) (computeLimit : spec_float -> list Z -> list spec_float)
  | LSweep
  | LCancel
  | LShutdown
  | LDrain
  | LEvict
  | LFinalize (i : nat) (cause : error).

Section system_exec.
Variable range : gmap string queue_t -> list (string * queue_t).
Variable order : list FlowKey -> list FlowKey.

Definition select_results (blocking : bool) (callerErr : option error) (item : Item) (sp : ShardProcessor)
  : list (option error * ShardProcessor) :=
  if blocking then SubmitOrBlock_select callerErr item sp else Submit_select item sp.

Definition run_dispatch saturation computeLimit (sp : ShardProcessor) : option ShardProcessor :=
  '(_, σ, s, _) ← dispatchCycle range saturation computeLimit (sp_store sp) (sp_shard sp);
  Some (set_work σ s sp).

(** The items some party outside the processor may finalize. *)
Definition outside (sy : system) : list Item := sy_callers sy ++ sy_calls sy ++ sy_owned sy.

Definition sys_exec (l : label) (sy : system) : option system :=
  let sp := sy_proc sy in
  match l with
  | LNew req ttl enq =>
      let '(item, σ) := NewItem req ttl enq (sp_store sp) in
      Some (mkSystem (set_work σ (sp_shard sp) sp) (item :: sy_callers sy) (sy_calls sy) (sy_owned sy))
  | LCheck i =>
      item ← sy_callers sy !! i;
      match submit_check sp with
      | Some _ => Some sy
      | None => Some (mkSystem sp (delete i (sy_callers sy)) (item :: sy_calls sy) (sy_owned sy))
      end
  | LSelect i blocking callerErr choice =>
      item ← sy_calls sy !! i;
      '(err, sp') ← select_results blocking callerErr item sp !! choice;
      match err with
      | None => Some (mkSystem sp' (sy_callers sy) (delete i (sy_calls sy)) (item :: sy_owned sy))
      | Some _ => Some (mkSystem sp' (item :: sy_callers sy) (delete i (sy_calls sy)) (sy_owned sy))
      end
  | LReceive saturation computeLimit =>
      match sp_enqueueChan sp with
      | [] => None
      | item :: rest =>
          '(σ, s, _) ← enqueue item (sp_store sp) (sp_shard sp);
          sp' ← run_dispatch saturation computeLimit (set_work σ s (set_chan rest sp));
          Some (set_proc sp' sy)
      end
  | LTick saturation computeLimit =>
      sp' ← run_dispatch saturation computeLimit sp; Some (set_proc sp' sy)
  | LSweep =>
      '(σ, s, _) ← sweepFinalizedItems range order (sp_store sp) (sp_shard sp);
      Some (set_proc (set_work σ s sp) sy)
  | LCancel => Some (set_proc (cancel sp) sy)
  | LShutdown => Some (set_proc (set_phase true Draining sp) sy)
  | LDrain =>
      match sp_enqueueChan sp with
      | [] => None
      | item :: rest =>
          σ ← FinalizeWithOutcome item QueueOutcomeRejectedOther
                (classed ErrRejected (Sentinel ErrFlowControllerNotRunning)) (sp_store sp);
          Some (set_proc (set_work σ (sp_shard sp) (set_chan rest sp)) sy)
      end
  | LEvict =>
      '(σ, s, _) ← evictAll range order (sp_store sp) (sp_shard sp);
      Some (set_proc (set_phase true Stopped (set_work σ s sp)) sy)
  | LFinalize i cause =>
      item ← outside sy !! i;
      σ ← Finalize item cause (sp_store sp);
      Some (set_proc (set_work σ (sp_shard sp) sp) sy)
  end.
End system_exec.

Definition phase_eqb (a b : phase) : bool :=
  match a, b with
  | Running, Running | Draining, Draining | Stopped, Stopped => true
  | _, _ => false
  end.

Definition limits_ok (saturation : spec_float) (computeLimit : spec_float -> list Z -> list spec_float)
    (s : registryShard) : bool :=
  bool_decide (length (computeLimit saturation (AllOrderedPriorityLevels s)) =
               length (AllOrderedPriorityLevels s)).

(** When the scheduler may take a transition; the limits are as many as the
    priorities, as the policy's interface promises. *)
Definition sys_enabled (l : label) (sy : system) : bool :=
  let sp := sy_proc sy in
  match l with
  | LNew _ _ _ | LCancel => true
  | LCheck i => bool_decide (i < length (sy_callers sy))%nat
  | LSelect i blocking callerErr choice =>
      match sy_calls sy !! i with
      | Some item => bool_decide (choice < length (select_results blocking callerErr item sp))%nat
      | None => false
      end
  | LReceive saturation computeLimit =>
      phase_eqb (sp_phase sp) Running && bool_decide (0 < length (sp_enqueueChan sp))%nat &&
      limits_ok saturation computeLimit (sp_shard sp)
  | LTick saturation computeLimit =>
      phase_eqb (sp_phase sp) Running && limits_ok saturation computeLimit (sp_shard sp)
  | LSweep => negb (phase_eqb (sp_phase sp) Stopped)
  | LShutdown => phase_eqb (sp_phase sp) Running && sp_lifecycleDone sp
  | LDrain => phase_eqb (sp_phase sp) Draining && bool_decide (0 < length (sp_enqueueChan sp))%nat
  | LEvict => phase_eqb (sp_phase sp) Draining && bool_decide (length (sp_enqueueChan sp) = 0%nat)
  | LFinalize i _ => bool_decide (i < length (outside sy))%nat
  end.

(** The executions of a processor over its shard. *)
Inductive sys_reach (range : gmap string queue_t -> list (string * queue_t))
    (order : list FlowKey -> list FlowKey) (σ : Store) (s : registryShard) (cap : nat) : nat -> system -> Prop :=
  | reach_init : sys_reach range order σ s cap 0 (mkSystem (NewShardProcessor σ s cap) [] [] [])
  | reach_step n sy l sy' :
      sys_reach range order σ s cap n sy -> sys_enabled l sy = true -> sys_exec range order l sy = Some sy' ->
      sys_reach range order σ s cap (S n) sy'.

(** * The invariant *)

Definition held (sy : system) : list Item :=
  sy_callers sy ++ sy_calls sy ++ sp_enqueueChan (sy_proc sy) ++ shard_items (sp_shard (sy_proc sy)).

Record run_ok (n : nat) (sy : system) : Prop := {
  ro_proc : proc_ok (sp_store (sy_proc sy)) (sp_shard (sy_proc sy));
  ro_policies : policies_sound (sp_shard (sy_proc sy));
  ro_nodup : NoDup (itemRef <$> held sy);
  ro_alloc x : x ∈ held sy ++ sy_owned sy -> allocated x (sp_store (sy_proc sy));
  ro_owned x : x ∈ sy_owned sy -> x ∈ sp_enqueueChan (sy_proc sy) \/ x ∈ shard_items (sp_shard (sy_proc sy)) \/
                 is_finalized (sp_store (sy_proc sy)) x = true;
  ro_stopped : sp_phase (sy_proc sy) = Stopped -> shard_items (sp_shard (sy_proc sy)) = [];
  ro_count : (length (held sy) <= n)%nat
}.

Lemma is_finalized_Some σ x : is_finalized σ x = true <-> is_Some (FinalState_of x σ).
Proof. unfold is_finalized. destruct (FinalState_of x σ); split; [eauto|done|done|by intros [? ?]]. Qed.

Lemma finalizes_mono xs fs σ σ' x :
  finalizes xs fs σ σ' -> is_finalized σ x = true -> is_finalized σ' x = true.
Proof.
  rewrite !is_finalized_Some. intros Hf [fs' Hx]. rewrite Hf, Hx. case_decide; eauto.
Qed.

Lemma finalizes_in xs fs σ σ' x : finalizes xs fs σ σ' -> x ∈ xs -> is_finalized σ' x = true.
Proof.
  intros Hf Hx. apply is_finalized_Some. rewrite Hf, decide_True by (by apply list_elem_of_fmap_2). eauto.
Qed.

(** A step of the processor: items move from the channel to the shard, or
    leave it finalized. *)
Record progresses (sp sp' : ShardProcessor) : Prop := {
  pg_ok : proc_ok (sp_store sp') (sp_shard sp');
  pg_shape : same_shape (sp_shard sp) (sp_shard sp');
  pg_dom : dom (istates (sp_store sp')) = dom (istates (sp_store sp));
  pg_items : exists gone, sp_enqueueChan sp ++ shard_items (sp_shard sp) ≡ₚ
               gone ++ sp_enqueueChan sp' ++ shard_items (sp_shard sp') /\
               forall x, x ∈ gone -> is_finalized (sp_store sp') x = true;
  pg_final x : is_finalized (sp_store sp) x = true -> is_finalized (sp_store sp') x = true
}.

Lemma run_ok_progresses n sy sp' :
  run_ok n sy -> progresses (sy_proc sy) sp' ->
  (sp_phase sp' = Stopped -> shard_items (sp_shard sp') = []) -> run_ok (S n) (set_proc sp' sy).
Proof.
  intros [Hok Hpol Hnd Hal Hown Hst Hn] [Hok' Hsh Hd (gone & Hg & Hgf) Hf] Hst'.
  assert (Hheld : held sy ≡ₚ gone ++ held (set_proc sp' sy)).
  { unfold held. simpl. rewrite Hg, !(app_assoc gone), !app_assoc. do 2 f_equiv.
    by rewrite <- !app_assoc, (Permutation_app_comm gone), app_assoc. }
  split; simpl; try done.
  - by eapply policies_sound_shape.
  - rewrite Hheld, fmap_app in Hnd. by apply NoDup_app in Hnd as (_ & _ & ?).
  - intros x Hx. eapply allocated_dom; [exact Hd|]. apply Hal. rewrite Hheld.
    rewrite !elem_of_app in *. tauto.
  - intros x Hx. assert (Hx' : x ∈ sp_enqueueChan (sy_proc sy) ++ shard_items (sp_shard (sy_proc sy)) \/
      is_finalized (sp_store (sy_proc sy)) x = true) by (rewrite elem_of_app; destruct (Hown x Hx) as [?|[?|?]]; tauto).
    destruct Hx' as [Hx'|Hx']; [|by auto]. rewrite Hg in Hx'. rewrite !elem_of_app in Hx'. naive_solver.
  - apply Permutation_length in Hheld. rewrite length_app in Hheld. lia.
Qed.

Lemma progresses_same sp sp' :
  proc_ok (sp_store sp) (sp_shard sp) -> sp_store sp' = sp_store sp -> sp_shard sp' = sp_shard sp ->
  sp_enqueueChan sp' = sp_enqueueChan sp -> progresses sp sp'.
Proof.
  intros Hok Hσ Hs Hc. split; rewrite ?Hσ, ?Hs, ?Hc; try done.
  exists []. split; [done|]. by intros x ?%elem_of_nil.
Qed.

Lemma progresses_trans sp1 sp2 sp3 : progresses sp1 sp2 -> progresses sp2 sp3 -> progresses sp1 sp3.
Proof.
  intros [_ Hs1 Hd1 (g1 & Hg1 & Hf1) Hm1] [Hok Hs2 Hd2 (g2 & Hg2 & Hf2) Hm2].
  split; [done|by eapply same_shape_trans|congruence| |auto].
  exists (g1 ++ g2). split; [by rewrite Hg1, Hg2, app_assoc|]. intros x [?|?]%elem_of_app; auto.
Qed.

(** * Every transition keeps the invariant *)

Lemma enqueue_progresses item rest sp :
  proc_ok (sp_store sp) (sp_shard sp) -> allocated item (sp_store sp) ->
  (forall x, x ∈ shard_items (sp_shard sp) -> itemRef x <> itemRef item) ->
  Z.of_nat (length (shard_items (sp_shard sp))) + 1 < two63 -> sp_enqueueChan sp = item :: rest ->
  exists σ s ds, enqueue item (sp_store sp) (sp_shard sp) = Some (σ, s, ds) /\
    progresses sp (set_work σ s (set_chan rest sp)).
Proof.
  intros Hok Hal Hfresh Hlt Hchan.
  destruct (FinalState_of item (sp_store sp)) as [fs|] eqn:Hfs.
  - exists (sp_store sp), (sp_shard sp), []. unfold enqueue. rewrite Hfs. split; [done|].
    split; simpl; try done. exists [item]. rewrite Hchan. split; [done|].
    intros x ->%list_elem_of_singleton. apply is_finalized_Some. eauto.
  - destruct (enqueue_ok item (sp_store sp) (sp_shard sp)) as (σ & s & ds & Hrun & Hok' & Hsh & Hd & Ho & Hcase); [done..|].
    exists σ, s, ds. split; [done|]. split; simpl; try done.
    + destruct (admissible item (sp_shard sp)).
      * destruct Hcase as (_ & Hi & _). exists []. rewrite Hchan, Hi. split; [|by intros x ?%elem_of_nil].
        simpl. by rewrite Permutation_middle.
      * destruct Hcase as ((Hi & _) & fs & Hf & _). exists [item]. rewrite Hchan, Hi. split; [done|].
        intros x ->%list_elem_of_singleton. apply is_finalized_Some. eauto.
    + intros x. rewrite !is_finalized_Some. intros [fs Hx]. rewrite Ho; [eauto|]. intros Heq.
      rewrite (FinalState_of_ref x item) in Hx by done. congruence.
Qed.

Section steps.
Variable range : gmap string queue_t -> list (string * queue_t).
Hypothesis Hrange : forall m, range m ≡ₚ map_to_list m.
Variable order : list FlowKey -> list FlowKey.
Hypothesis Horder : forall l, order l ≡ₚ l.

Lemma dispatch_progresses saturation computeLimit sp :
  proc_ok (sp_store sp) (sp_shard sp) -> policies_sound (sp_shard sp) ->
  limits_ok saturation computeLimit (sp_shard sp) = true ->
  exists sp', run_dispatch range saturation computeLimit sp = Some sp' /\ progresses sp sp' /\
    sp_phase sp' = sp_phase sp.
Proof.
  intros Hok Hpol Hlim%bool_decide_eq_true. unfold run_dispatch, dispatchCycle.
  destruct (dispatch_loop_safe range Hrange saturation (sp_store sp) (AllOrderedPriorityLevels (sp_shard sp))
    (computeLimit saturation (AllOrderedPriorityLevels (sp_shard sp))) (sp_shard sp) Hlim Hok Hpol)
    as (r & σ & s & ds & -> & Hok' & Hsh & Hr).
  cbn [mbind option_bind]. eexists. split; [reflexivity|]. split; [|done]. destruct r.
  - destruct Hr as (item & [_ Hi Hf Hd]). split; simpl; try done.
    + exists [item]. split; [rewrite Hi; simpl; by rewrite Permutation_middle|].
      intros x Hx. by eapply finalizes_in.
    + intros x. by eapply finalizes_mono.
  - destruct Hr as [-> Hi]. split; simpl; try done. exists []. rewrite Hi. split; [done|]. by intros x ?%elem_of_nil.
Qed.

Lemma limits_ok_shape saturation computeLimit s s' :
  same_shape s s' -> limits_ok saturation computeLimit s' = limits_ok saturation computeLimit s.
Proof. intros (_ & _ & _ & Hl & _). unfold limits_ok, AllOrderedPriorityLevels. by rewrite Hl. Qed.

Lemma receive_ok n sy saturation computeLimit :
  run_ok n sy -> Z.of_nat n + 1 < two63 -> sys_enabled (LReceive saturation computeLimit) sy = true ->
  exists sy', sys_exec range order (LReceive saturation computeLimit) sy = Some sy' /\ run_ok (S n) sy'.
Proof.
  intros Hrun Hn Hen. pose proof Hrun as [Hok Hpol Hnd Hal _ _ Hc]. cbn [sys_enabled] in Hen.
  apply andb_true_iff in Hen as [[Hph Hch]%andb_true_iff Hlim]. cbn [sys_exec].
  destruct (sp_enqueueChan (sy_proc sy)) as [|item rest] eqn:Hchan; [done|].
  assert (Hsep : forall x, x ∈ shard_items (sp_shard (sy_proc sy)) -> itemRef x <> itemRef item).
  { intros x Hx Heq. unfold held in Hnd. rewrite Hchan, !fmap_app in Hnd.
    apply NoDup_app in Hnd as (_ & _ & Hnd). apply NoDup_app in Hnd as (_ & _ & Hnd).
    apply NoDup_app in Hnd as (_ & Hdis & _). apply (Hdis (itemRef item)); [set_solver|].
    rewrite <- Heq. by apply list_elem_of_fmap_2. }
  destruct (enqueue_progresses item rest (sy_proc sy)) as (σ & s & ds & -> & Hp1); [done| |done| |done|].
  { apply Hal. unfold held. rewrite Hchan. set_solver. }
  { unfold held in Hc. rewrite !length_app in Hc. lia. }
  cbn [mbind option_bind]. set (sp1 := set_work σ s _) in *.
  destruct (dispatch_progresses saturation computeLimit sp1) as (sp2 & -> & Hp2 & Hph2).
  { apply Hp1. } { eapply policies_sound_shape; [apply Hp1|done]. }
  { by rewrite (limits_ok_shape _ _ (sp_shard (sy_proc sy))) by apply Hp1. }
  cbn [mbind option_bind]. eexists. split; [reflexivity|].
  apply run_ok_progresses; [done|by eapply progresses_trans|].
  rewrite Hph2. simpl. by destruct (sp_phase (sy_proc sy)).
Qed.

Lemma sweep_progresses sp :
  proc_ok (sp_store sp) (sp_shard sp) ->
  exists σ s ds, sweepFinalizedItems range order (sp_store sp) (sp_shard sp) = Some (σ, s, ds) /\
    progresses sp (set_work σ s sp).
Proof.
  intros Hok. destruct (sweepFinalizedItems_ok range Hrange order Horder _ _ Hok)
    as (σ & s & ds & gone & Hrun & Hok' & Hsh & Hst & Hi & Hg & _).
  exists σ, s, ds. split; [done|]. split; simpl; try done.
  - by rewrite Hst.
  - exists gone. split; [by rewrite Hi, !app_assoc, (Permutation_app_comm gone)|].
    intros x Hx. rewrite (is_finalized_istates (sp_store sp) σ) by done. by apply Hg.
  - intros x. by rewrite (is_finalized_istates (sp_store sp) σ).
Qed.

Lemma evict_progresses sp :
  proc_ok (sp_store sp) (sp_shard sp) ->
  exists σ s ds, evictAll range order (sp_store sp) (sp_shard sp) = Some (σ, s, ds) /\ shard_items s = [] /\
    progresses sp (set_phase true Stopped (set_work σ s sp)).
Proof.
  intros Hok. destruct (evictAll_ok range Hrange order Horder _ _ Hok)
    as (σ & s & ds & Hrun & Hok' & Hsh & Hd & Hi & Hf).
  exists σ, s, ds. split; [done|]. split; [done|]. split; simpl; try done.
  - exists (shard_items (sp_shard sp)). rewrite Hi, app_nil_r. split; [by rewrite Permutation_app_comm|].
    intros x Hx. by eapply finalizes_in.
  - intros x. by eapply finalizes_mono.
Qed.

(** A finalization from any side. *)
Lemma finalize_progresses item o e sp σ c gone :
  proc_ok (sp_store sp) (sp_shard sp) -> allocated item (sp_store sp) -> fs_ok (mkFinalState o e) ->
  FinalizeWithOutcome item o e (sp_store sp) = Some σ -> sp_enqueueChan sp = gone ++ c ->
  (gone = [] \/ gone = [item]) -> progresses sp (set_work σ (sp_shard sp) (set_chan c sp)).
Proof.
  intros Hok Hal Hfs Hrun Hc Hg. destruct (finalize_ok item o e _ _ Hok Hal Hfs) as (σ' & Hrun' & Hok' & Hf & Hd).
  rewrite Hrun in Hrun'. injection Hrun' as <-. split; simpl; try done.
  - exists gone. rewrite Hc, app_assoc. split; [done|]. intros x Hx. eapply finalizes_in; [done|].
    destruct Hg as [-> | ->]; [by apply elem_of_nil in Hx|done].
  - intros x. by eapply finalizes_mono.
Qed.

(** Handing an item from one party to another. *)
Lemma run_ok_moves n sy sy' :
  run_ok n sy -> sp_store (sy_proc sy') = sp_store (sy_proc sy) -> sp_shard (sy_proc sy') = sp_shard (sy_proc sy) ->
  sp_phase (sy_proc sy') = sp_phase (sy_proc sy) -> held sy' ≡ₚ held sy ->
  (forall x, x ∈ sp_enqueueChan (sy_proc sy) -> x ∈ sp_enqueueChan (sy_proc sy')) ->
  (forall x, x ∈ sy_owned sy' -> x ∈ sy_owned sy \/ x ∈ sp_enqueueChan (sy_proc sy')) -> run_ok (S n) sy'.
Proof.
  intros [Hok Hpol Hnd Hal Hown Hst Hn] Hσ Hs Hph Hp Hch Ho. split; rewrite ?Hσ, ?Hs, ?Hph, ?Hp; try done.
  - intros x. rewrite Hp, elem_of_app. intros [Hx|Hx]; [apply Hal, elem_of_app; by left|].
    destruct (Ho x Hx) as [Hx'|Hx']; apply Hal, elem_of_app; [by right|left].
    rewrite <- Hp. unfold held. rewrite !elem_of_app. tauto.
  - intros x Hx. destruct (Ho x Hx) as [Hx'|Hx']; [|by left].
    destruct (Hown x Hx') as [H|[H|H]]; [left; by apply Hch|right; by left|right; by right].
  - lia.
Qed.

(** Moving the element at [i] elsewhere. *)
Lemma move_right {A} (l k r : list A) i x :
  l !! i = Some x -> delete i l ++ (x :: k) ++ r ≡ₚ l ++ k ++ r.
Proof. intros Hi%delete_Permutation. simpl. rewrite <- (Permutation_middle (delete i l)). by rewrite Hi at 2. Qed.

Lemma move_left {A} (l k r : list A) i x :
  l !! i = Some x -> (x :: k) ++ delete i l ++ r ≡ₚ k ++ l ++ r.
Proof. intros Hi%delete_Permutation. rewrite Hi at 2. simpl. by rewrite <- Permutation_middle. Qed.

Lemma move_end {A} (l k r : list A) i x :
  l !! i = Some x -> delete i l ++ (k ++ [x]) ++ r ≡ₚ l ++ k ++ r.
Proof. intros Hi. by rewrite <- (move_right l k r i x Hi), <- (Permutation_cons_append k). Qed.

Lemma select_results_spec blocking callerErr item sp err sp' choice :
  select_results blocking callerErr item sp !! choice = Some (err, sp') ->
  match err with None => has_room sp = true /\ sp' = send item sp | Some _ => sp' = sp end.
Proof.
  intros H%list_elem_of_lookup_2. unfold select_results, SubmitOrBlock_select, Submit_select in H.
  destruct (has_room sp), blocking, callerErr, (sp_lifecycleDone sp); simpl in H;
    repeat (apply elem_of_cons in H as [[= -> ->]|H]; [done|]); by apply elem_of_nil in H.
Qed.

Lemma moves_ok n sy l :
  run_ok n sy -> sys_enabled l sy = true ->
  (exists i, l = LCheck i) \/ (exists i b e c, l = LSelect i b e c) ->
  exists sy', sys_exec range order l sy = Some sy' /\ run_ok (S n) sy'.
Proof.
  intros Hrun Hen Hl. destruct Hl as [[i ->]|(i & b & e & c & ->)]; cbn [sys_exec sys_enabled] in *.
  - apply bool_decide_eq_true, lookup_lt_is_Some in Hen as [item Hi]. rewrite Hi. cbn [mbind option_bind].
    destruct (submit_check (sy_proc sy)); eexists; (split; [reflexivity|]).
    + eapply run_ok_moves; try done. auto.
    + eapply (run_ok_moves n sy); try done; simpl; [|auto].
      by apply move_right.
  - destruct (sy_calls sy !! i) as [item|] eqn:Hi; [|done]. apply bool_decide_eq_true, lookup_lt_is_Some in Hen as [[err sp'] Hc].
    cbn [mbind option_bind]. rewrite Hc. cbn [mbind option_bind]. apply select_results_spec in Hc.
    destruct err as [err|]; eexists; (split; [reflexivity|]).
    + subst sp'. eapply (run_ok_moves n sy); try done; simpl; [|auto].
      by apply move_left.
    + destruct Hc as [_ ->]. eapply (run_ok_moves n sy); try done; simpl.
      * unfold held. simpl. f_equiv. by apply move_end.
      * intros x Hx. apply elem_of_app. by left.
      * intros x [->|Hx]%elem_of_cons; [right; set_solver|by left].
Qed.

Lemma new_ok n sy req ttl enq :
  run_ok n sy -> exists sy', sys_exec range order (LNew req ttl enq) sy = Some sy' /\ run_ok (S n) sy'.
Proof.
  intros [Hok Hpol Hnd Hal Hown Hst Hn]. cbn [sys_exec].
  destruct (NewItem req ttl enq (sp_store (sy_proc sy))) as [item σ] eqn:Hnew.
  eexists. split; [reflexivity|]. pose proof Hok as [Hso Hsh Hk].
  destruct (NewItem_spec _ _ _ _ _ _ Hso Hnew) as (Hst' & Hnone & _ & Hins & _).
  assert (Hne : forall x, allocated x (sp_store (sy_proc sy)) -> itemRef x <> itemRef item).
  { intros x [s Hx] Heq. rewrite Heq in Hx. congruence. }
  assert (Hmono : forall x, allocated x (sp_store (sy_proc sy)) -> allocated x σ).
  { intros x Hx. unfold allocated. rewrite Hins, lookup_insert_ne by (apply not_eq_sym, Hne, Hx). exact Hx. }
  split; simpl; try done.
  - by eapply proc_ok_NewItem.
  - unfold held. simpl. apply NoDup_cons. split; [|done]. intros (x & Heq & Hx)%list_elem_of_fmap.
    apply (Hne x); [|done]. apply Hal. apply elem_of_app. by left.
  - intros x [->|Hx]%elem_of_cons; [|by apply Hmono, Hal].
    unfold allocated. rewrite Hins, lookup_insert_eq. eauto.
  - intros x Hx. destruct (Hown x Hx) as [H|[H|H]]; [by left|right; by left|right; right].
    rewrite <- H. unfold is_finalized, FinalState_of. rewrite Hins, lookup_insert_ne; [done|].
    apply not_eq_sym, Hne, Hal, elem_of_app. by right.
  - unfold held in *. simpl. lia.
Qed.

Lemma sys_exec_ok n sy l :
  run_ok n sy -> Z.of_nat n + 1 < two63 -> sys_enabled l sy = true ->
  exists sy', sys_exec range order l sy = Some sy' /\ run_ok (S n) sy'.
Proof.
  intros Hrun Hn Hen. pose proof Hrun as [Hok Hpol Hnd Hal Hown Hst Hc].
  destruct l as [req ttl enq|i|i b e c|sat lim|sat lim| | | | | |i cause];
    [by apply new_ok|apply moves_ok; eauto|apply moves_ok; eauto 10|by apply receive_ok|..];
    cbn [sys_exec sys_enabled] in *.
  - apply andb_true_iff in Hen as [Hph Hlim].
    destruct (dispatch_progresses sat lim (sy_proc sy)) as (sp' & -> & Hp & Hph'); [done..|].
    cbn [mbind option_bind]. eexists. split; [reflexivity|]. apply run_ok_progresses; [done..|].
    rewrite Hph'. by destruct (sp_phase (sy_proc sy)).
  - destruct (sweep_progresses (sy_proc sy) Hok) as (σ & s & ds & -> & Hp).
    cbn [mbind option_bind]. eexists. split; [reflexivity|]. apply run_ok_progresses; [done..|].
    simpl. by destruct (sp_phase (sy_proc sy)).
  - eexists. split; [reflexivity|]. by apply run_ok_progresses; [done|apply progresses_same|].
  - eexists. split; [reflexivity|]. by apply run_ok_progresses; [done|apply progresses_same|].
  - destruct (sp_enqueueChan (sy_proc sy)) as [|item rest] eqn:Hch; [by destruct (sp_phase (sy_proc sy))|].
    assert (Hai : allocated item (sp_store (sy_proc sy))).
    { apply Hal. unfold held. rewrite Hch, !elem_of_app. set_solver. }
    assert (Hfs : fs_ok (mkFinalState QueueOutcomeRejectedOther
      (classed ErrRejected (Sentinel ErrFlowControllerNotRunning)))) by (by apply classed_ok).
    destruct (finalize_ok item _ _ _ _ Hok Hai Hfs) as (σ & Hrun' & _).
    rewrite Hrun'. cbn [mbind option_bind]. eexists. split; [reflexivity|]. apply run_ok_progresses; [done| |].
    + eapply (finalize_progresses item _ _ _ _ rest [item]); try done. by right.
    + simpl. by destruct (sp_phase (sy_proc sy)).
  - destruct (evict_progresses (sy_proc sy) Hok) as (σ & s & ds & -> & Hi & Hp).
    cbn [mbind option_bind]. eexists. split; [reflexivity|]. by apply run_ok_progresses.
  - apply bool_decide_eq_true, lookup_lt_is_Some in Hen as [item Hi]. rewrite Hi. cbn [mbind option_bind].
    assert (Hai : allocated item (sp_store (sy_proc sy))).
    { apply Hal. apply list_elem_of_lookup_2 in Hi. unfold held, outside in *. rewrite !elem_of_app in *. tauto. }
    destruct (Hai) as [st Hst0]. rewrite (Finalize_inferred item cause _ st Hst0).
    destruct (inferOutcome cause _) as [o e] eqn:Ho. pose proof (inferOutcome_fs_ok _ _ _ _ Ho) as Hfs.
    destruct (finalize_ok item _ _ _ _ Hok Hai Hfs) as (σ & Hrun' & _). rewrite Hrun'. cbn [mbind option_bind].
    eexists. split; [reflexivity|]. apply run_ok_progresses; [done| |simpl; by intros ->%Hst].
    pose proof (finalize_progresses item _ _ _ _ (sp_enqueueChan (sy_proc sy)) [] Hok Hai Hfs Hrun' eq_refl
      (or_introl eq_refl)) as Hp.
    by destruct (sy_proc sy).
Qed.

Lemma sys_reach_ok σ s cap n sy :
  store_ok σ -> shard_ok σ s -> policies_sound s -> shard_items s = [] ->
  sys_reach range order σ s cap n sy -> Z.of_nat n < two63 -> run_ok n sy.
Proof.
  intros Hσ Hs Hpol He Hr. induction Hr as [|n sy l sy' Hr IH Hen Hex]; intros Hn.
  - split; simpl; try done.
    + split; [done|done|]. intros key mq x Hq Hx.
      destruct (queue_at_items _ _ _ _ Hs Hq) as (_ & _ & Hsub). apply Hsub in Hx. rewrite He in Hx.
      by apply elem_of_nil in Hx.
    + unfold held. simpl. rewrite He. constructor.
    + unfold held. simpl. rewrite He. by intros x ?%elem_of_nil.
    + by intros x ?%elem_of_nil.
    + unfold held. simpl. by rewrite He.
  - destruct (sys_exec_ok n sy l) as (sy1 & Hex1 & Hok); [apply IH; lia|lia|done|]. congruence.
Qed.
End steps.
