(* ===== verification/ProcessorProps.v ===== *)
(** Properties of the processor of a shard. *)

From Stdlib Require Import SpecFloat.
From S2P Require Import Prelude FlowTypes ItemProps SafeQueue ListQueue Ordering Fairness.
From S2P Require Import MaxMinHeap MaxMinHeapSpec QueueFactory ManagedQueue RegistryConfig Shard ShardSpec.
From S2P Require Import Processor ProcessorSpec ProcessorRun.

(** ** A concrete shard

    Two bands, 5 and 0, with one flow each; at most 10 requests on the shard,
    100 bytes and 7 requests per band. *)

Definition plain_range {K V} `{Countable K} (m : gmap K V) : list (K * V) := map_to_list m.

Definition demo_band (p : Z) : PriorityBandConfig :=
  mkPriorityBandConfig p (Some (FCFSOrderingPolicyFactory EmptyString)) (Some (newRoundRobin EmptyString))
    ListQueueName 100 7.

Definition demo_config : ShardConfig := mkShardConfig 0 10 {[ 5 := demo_band 5; 0 := demo_band 0 ]}.

Definition demo_hi : FlowKey := mkFlowKey "hi" 5.
Definition demo_lo : FlowKey := mkFlowKey "lo" 0.

Definition demo_shard : option registryShard :=
  s ← newShard plain_range "shard-0000" demo_config;
  s ← synchronizeFlow demo_hi (FCFSOrderingPolicyFactory EmptyString) (QList (newListQueue 1)) s;
  synchronizeFlow demo_lo (FCFSOrderingPolicyFactory EmptyString) (QList (newListQueue 2)) s.

Definition demo_store : Store := mkStore ∅ ∅.

Definition demo_req (id : string) (key : FlowKey) (bytes : Z) : FlowControlRequest := mkRequest id key bytes None 0 0.

Lemma demo_bands_wf : bands_wf (sc_PriorityBands demo_config).
Proof.
  intros p c Hc. cbn [demo_config sc_PriorityBands] in Hc.
  apply lookup_insert_Some in Hc as [[<- <-]|[_ [<- <-]%lookup_singleton_Some]]; (split; [reflexivity|by eexists]).
Qed.

Lemma empty_list_queue σ self : sq_inv σ (QList (newListQueue self)).
Proof. split_and!; [constructor|by intros h x ?%elem_of_nil|done]. Qed.

Lemma demo_shard_ok s :
  demo_shard = Some s -> shard_ok demo_store s /\ shard_items s = [].
Proof.
  unfold demo_shard. intros Hs.
  destruct (newShard_ok plain_range demo_store "shard-0000" demo_config) as (s0 & Hn & Hok0 & Hi0 & Hd0 & _);
    [done|apply demo_bands_wf|].
  rewrite Hn in Hs. cbn [mbind option_bind] in Hs.
  assert (Hb : forall p, p ∈ dom (sc_PriorityBands demo_config) -> is_Some (sh_priorityBands s0 !! p)).
  { intros p Hp. by rewrite <- elem_of_dom, Hd0. }
  destruct (synchronizeFlow_ok demo_store s0 demo_hi (FCFSOrderingPolicyFactory EmptyString) (QList (newListQueue 1)))
    as (s1 & Hs1 & Hok1 & [Hi1 _] & _ & _ & Hd1 & _);
    [done|apply Hb; vm_compute; set_solver|apply empty_list_queue|done|].
  rewrite Hs1 in Hs. cbn [mbind option_bind] in Hs.
  destruct (synchronizeFlow_ok demo_store s1 demo_lo (FCFSOrderingPolicyFactory EmptyString) (QList (newListQueue 2)))
    as (s2 & Hs2 & Hok2 & [Hi2 _] & _); [done| |apply empty_list_queue|done|].
  { rewrite <- elem_of_dom, Hd1, elem_of_dom. apply Hb. vm_compute. set_solver. }
  rewrite Hs2 in Hs. injection Hs as <-. split; [done|].
  apply Permutation_nil_r. by rewrite Hi2, Hi1, Hi0.
Qed.

Lemma demo_policies s : demo_shard = Some s -> policies_sound s.
Proof.
  intros Hs p b Hb%elem_of_map_to_list.
  assert (Hf : (fun s => (fun e : Z * priorityBand => band_fairnessPolicy e.2) <$> map_to_list (sh_priorityBands s))
                 <$> demo_shard = Some [newRoundRobin EmptyString; newRoundRobin EmptyString]) by reflexivity.
  rewrite Hs in Hf. injection Hf as Hf. apply (list_elem_of_fmap_2 (fun e : Z * priorityBand => band_fairnessPolicy e.2)) in Hb.
  rewrite Hf in Hb. simpl in Hb. apply elem_of_cons in Hb as [-> | ->%list_elem_of_singleton]; apply round_robin_sound.
Qed.

(** An execution, checked label by label. *)
Fixpoint sys_run (ls : list label) (sy : system) : option system :=
  match ls with
  | [] => Some sy
  | l :: ls => if sys_enabled l sy then sy' ← sys_exec plain_range id l sy; sys_run ls sy' else None
  end.

Lemma sys_run_reach σ s cap ls : forall n sy sy',
  sys_reach plain_range id σ s cap n sy -> sys_run ls sy = Some sy' ->
  sys_reach plain_range id σ s cap (n + length ls) sy'.
Proof.
  induction ls as [|l ls IH]; intros n sy sy' Hr; cbn [sys_run length].
  { intros [= <-]. by rewrite Nat.add_0_r. }
  destruct (sys_enabled l sy) eqn:He; [|done].
  destruct (sys_exec plain_range id l sy) as [sy1|] eqn:Hex; [|done]. cbn [mbind option_bind]. intros Hrun.
  rewrite <- Nat.add_succ_comm. eapply IH; [|exact Hrun]. by eapply reach_step.
Qed.

Definition demo_run (ls : list label) : option system :=
  s ← demo_shard; sys_run ls (mkSystem (NewShardProcessor demo_store s 2) [] [] []).

Lemma demo_run_ok ls sy :
  demo_run ls = Some sy -> Z.of_nat (length ls) < two63 -> run_ok (length ls) sy.
Proof.
  unfold demo_run. destruct demo_shard as [s|] eqn:Hs; [|done]. cbn [mbind option_bind]. intros Hrun Hn.
  destruct (demo_shard_ok s Hs) as [Hok He].
  apply (sys_reach_ok plain_range (fun m => reflexivity _) id (fun l => reflexivity _) demo_store s 2); try done.
  - by apply demo_policies.
  - apply (sys_run_reach _ _ _ ls 0 _ _ (reach_init _ _ _ _ _) Hrun).
Qed.

Definition one : spec_float := S754_finite false 4503599627370496 (-52).
Definition zero : spec_float := S754_zero false.

(** * Properties *)

(** C1: Ownership.  However the callers, the run loop, the sweep and the
    shutdown interleave, an item whose handoff returned nil is in the channel,
    in a queue of the shard, or finalized; it is in one of these places only
    once; and when the run loop has returned with an empty channel, every such
    item is finalized. *)
Theorem processor_ownership range order σ s cap n sy :
  (forall m, range m ≡ₚ map_to_list m) -> (forall l, order l ≡ₚ l) ->
  store_ok σ -> shard_ok σ s -> policies_sound s -> shard_items s = [] ->
  sys_reach range order σ s cap n sy -> Z.of_nat n < two63 ->
  NoDup (itemRef <$> sp_enqueueChan (sy_proc sy) ++ shard_items (sp_shard (sy_proc sy))) /\
  (forall x, x ∈ sy_owned sy ->
     x ∈ sp_enqueueChan (sy_proc sy) \/ x ∈ shard_items (sp_shard (sy_proc sy)) \/
     is_finalized (sp_store (sy_proc sy)) x = true) /\
  (sp_phase (sy_proc sy) = Stopped -> sp_enqueueChan (sy_proc sy) = [] ->
     forall x, x ∈ sy_owned sy -> is_finalized (sp_store (sy_proc sy)) x = true).
Proof.
  intros Hr Ho Hσ Hs Hpol He Hreach Hn.
  destruct (sys_reach_ok range Hr order Ho σ s cap n sy Hσ Hs Hpol He Hreach Hn) as [_ _ Hnd _ Hown Hst _].
  split_and!; [|done|].
  - unfold held in Hnd. rewrite fmap_app in Hnd. apply NoDup_app in Hnd as (_ & _ & Hnd).
    rewrite fmap_app in Hnd. by apply NoDup_app in Hnd as (_ & _ & Hnd).
  - intros Hph Hch x Hx. rewrite (Hst Hph), Hch in Hown.
    destruct (Hown x Hx) as [H|[H|H]]; [by apply elem_of_nil in H..|done].
Qed.

(** Two items are handed off, one is dispatched, then the processor stops. *)
Definition demo_labels : list label :=
  [LNew (demo_req "a" demo_hi 30) 0 1; LNew (demo_req "b" demo_lo 12) 0 2; LCheck 0; LCheck 0;
   LSelect 0 false None 0; LSelect 0 true None 0; LReceive one (NewConstPolicy one);
   LReceive zero (NewConstPolicy one); LSweep; LCancel; LShutdown; LEvict].

Lemma processor_ownership_witness :
  exists sy, demo_run demo_labels = Some sy /\ length (sy_owned sy) = 2%nat /\
    forall x, x ∈ sy_owned sy -> is_finalized (sp_store (sy_proc sy)) x = true.
Proof.
  assert (Hobs : (fun sy => (sp_phase (sy_proc sy), sp_enqueueChan (sy_proc sy), length (sy_owned sy)))
                   <$> demo_run demo_labels = Some (Stopped, [], 2%nat)) by (vm_compute; reflexivity).
  destruct (demo_run demo_labels) as [sy|] eqn:Hrun; [|discriminate Hobs]. injection Hobs as Hph Hch Hlen.
  destruct demo_shard as [s|] eqn:Hs; [|unfold demo_run in Hrun; rewrite Hs in Hrun; discriminate Hrun].
  destruct (demo_shard_ok s Hs) as [Hok He].
  assert (Hr : sys_reach plain_range id demo_store s 2 12 sy).
  { eapply (sys_run_reach _ _ _ demo_labels 0); [apply reach_init|]. unfold demo_run in Hrun.
    rewrite Hs in Hrun. exact Hrun. }
  destruct (processor_ownership plain_range id demo_store s 2 12 sy) as (_ & _ & Hall);
    [reflexivity|reflexivity|apply map_Forall_empty|exact Hok|exact (demo_policies s Hs)|exact He|exact Hr|reflexivity|].
  exists sy. split; [reflexivity|]. split; [exact Hlen|]. exact (Hall Hph Hch).
Defined.



(** A handoff can be lost.  A caller that loaded [isShuttingDown] before
    the shutdown may send into the channel after the drain loop has left it:
    Submit returns nil, the run loop has returned, and the item is in the
    channel, not finalized, with no step of the processor left to finalize
    it. *)
Theorem submit_after_drain_is_lost :
  exists sy x, demo_run [LNew (demo_req "a" demo_hi 30) 0 1; LCheck 0; LCancel; LShutdown; LEvict;
                         LSelect 0 false None 0] = Some sy /\
    x ∈ sy_owned sy /\ sp_phase (sy_proc sy) = Stopped /\ sp_enqueueChan (sy_proc sy) = [x] /\
    is_finalized (sp_store (sy_proc sy)) x = false /\
    forall sat lim, sys_enabled (LReceive sat lim) sy = false /\ sys_enabled (LTick sat lim) sy = false /\
      sys_enabled LSweep sy = false /\ sys_enabled LShutdown sy = false /\ sys_enabled LDrain sy = false /\
      sys_enabled LEvict sy = false.
Proof.
  set (run := demo_run _).
  assert (Hobs : (fun sy => (sp_phase (sy_proc sy), sp_enqueueChan (sy_proc sy), sy_owned sy,
                    is_finalized (sp_store (sy_proc sy)) <$> sy_owned sy)) <$> run =
    Some (Stopped, [mkItem 1 1 0 (demo_req "a" demo_hi 30)], [mkItem 1 1 0 (demo_req "a" demo_hi 30)], [false]))
    by (vm_compute; reflexivity).
  destruct run as [sy|]; [|discriminate Hobs]. injection Hobs as Hph Hch Hown Hfin. rewrite Hown in Hfin.
  injection Hfin as Hfin. exists sy, (mkItem 1 1 0 (demo_req "a" demo_hi 30)).
  split; [done|]. split; [rewrite Hown; left|]. split_and!; [done..|].
  intros sat lim. cbn [sys_enabled]. rewrite Hph. done.
Qed.

(** What enqueue does with an item, on every branch.  An item that was
    finalized while it waited in the channel is dropped.  Another is admitted
    if its flow is registered, the shard and the band have room and the shard
    is not draining: it joins the queue and stays unfinalized.  Otherwise it is
    finalized once, as rejected for capacity when the flow is there but the
    room is not and as rejected for another reason in the other cases, with an
    error of that class.  No other item is finalized, and the shard's
    statistics stay exact. *)
Theorem enqueue_admits_or_rejects item σ s :
  proc_ok σ s -> allocated item σ -> (forall x, x ∈ shard_items s -> itemRef x <> itemRef item) ->
  Z.of_nat (length (shard_items s)) + 1 < two63 ->
  exists σ' s' ds, enqueue item σ s = Some (σ', s', ds) /\ proc_ok σ' s' /\
    (forall x, itemRef x <> itemRef item -> FinalState_of x σ' = FinalState_of x σ) /\
    match FinalState_of item σ with
    | Some _ => σ' = σ /\ s' = s
    | None =>
        if admissible item s
        then FinalState_of item σ' = None /\ shard_items s' ≡ₚ item :: shard_items s
        else shard_items s' ≡ₚ shard_items s /\
             exists fs, FinalState_of item σ' = Some fs /\ Outcome fs = rejection item s /\ fs_ok fs
    end.
Proof.
  intros Hok Hal Hfresh Hlt. destruct (FinalState_of item σ) as [fs|] eqn:Hfs.
  - exists σ, s, []. unfold enqueue. rewrite Hfs. by split_and!.
  - destruct (enqueue_ok item σ s) as (σ' & s' & ds & Hrun & Hok' & _ & _ & Ho & Hcase); [done..|].
    exists σ', s', ds. split_and!; [done..|].
    destruct (admissible item s); [destruct Hcase as (? & ? & _)|destruct Hcase as [[? _] ?]]; done.
Qed.

Definition demo_two : list label :=
  [LNew (demo_req "a" demo_hi 30) 0 1; LNew (demo_req "b" demo_lo 12) 0 2; LCheck 0; LCheck 0;
   LSelect 0 false None 0; LSelect 0 false None 0; LReceive one (NewConstPolicy one);
   LReceive one (NewConstPolicy one)].

(** A third item: one of 90 bytes does not fit the band, one of 60 does. *)
Definition demo_third (bytes : Z) : option (Item * Store * registryShard) :=
  sy ← demo_run demo_two;
  let '(item, σ) := NewItem (demo_req "c" demo_hi bytes) 0 3 (sp_store (sy_proc sy)) in
  Some (item, σ, sp_shard (sy_proc sy)).

Definition disjointb (item : Item) (s : registryShard) : bool :=
  forallb (fun x => negb (itemRef x =? itemRef item)%positive) (shard_items s).

Lemma disjointb_sound item s :
  disjointb item s = true -> forall x, x ∈ shard_items s -> itemRef x <> itemRef item.
Proof.
  unfold disjointb. rewrite forallb_forall. intros H x Hx%list_elem_of_In Heq. specialize (H x Hx).
  by rewrite Heq, Pos.eqb_refl in H.
Qed.

Lemma demo_third_ok bytes item σ s :
  demo_third bytes = Some (item, σ, s) -> proc_ok σ s /\ allocated item σ.
Proof.
  unfold demo_third. destruct (demo_run demo_two) as [sy|] eqn:Hrun; [|done]. cbn [mbind option_bind].
  destruct (NewItem _ _ _ _) as [it σ1] eqn:Hnew. intros [= <- <- <-].
  destruct (demo_run_ok _ _ Hrun) as [Hok _ _ _ _ _ _]; [reflexivity|].
  split; [by eapply proc_ok_NewItem|]. destruct (NewItem_spec _ _ _ _ _ _ (po_store _ _ Hok) Hnew) as (_ & _ & _ & Hi & _).
  unfold allocated. rewrite Hi, lookup_insert_eq. eauto.
Qed.

Lemma enqueue_admits_or_rejects_witness :
  exists item σ s σ' s' ds fs, demo_third 90 = Some (item, σ, s) /\ enqueue item σ s = Some (σ', s', ds) /\
    FinalState_of item σ' = Some fs /\ Outcome fs = QueueOutcomeRejectedCapacity.
Proof.
  assert (Hobs : (fun '(item, σ, s) => (disjointb item s, length (shard_items s), FinalState_of item σ,
                    admissible item s, rejection item s)) <$> demo_third 90 =
                 Some (true, 2%nat, None, false, QueueOutcomeRejectedCapacity)) by (vm_compute; reflexivity).
  destruct (demo_third 90) as [[[item σ] s]|] eqn:Hb; [|discriminate Hobs]. injection Hobs as Hdis Hlen Hfs Hadm Hrej.
  destruct (demo_third_ok 90 item σ s Hb) as [Hok Hal].
  destruct (enqueue_admits_or_rejects item σ s) as (σ' & s' & ds & Hrun & _ & _ & Hcase);
    [exact Hok|exact Hal|exact (disjointb_sound item s Hdis)|rewrite Hlen; reflexivity|].
  rewrite Hfs, Hadm, Hrej in Hcase. destruct Hcase as (_ & fs & Hf & Ho & _).
  exists item, σ, s, σ', s', ds, fs. split; [reflexivity|]. split; [exact Hrun|]. split; [exact Hf|exact Ho].
Defined.

(** C3: Strict priority and work conservation of a dispatch cycle, over bands
    whose policies serve them.  A cycle that dispatches takes the head of a
    flow's queue in a band above which every band is empty and up to which no
    band is saturated; exactly this item leaves the shard, and it is finalized
    as dispatched unless it was finalized already.  A cycle that dispatches
    nothing changes no item, and every band with items had a saturated band at
    its own or a higher priority: a saturated lower band holds nobody up. *)
Theorem dispatch_cycle_strict_priority range saturation computeLimit σ s :
  (forall m, range m ≡ₚ map_to_list m) -> proc_ok σ s ->
  (forall p b, sh_priorityBands s !! p = Some b -> band_serves b) ->
  length (computeLimit saturation (sh_orderedPriorityLevels s)) = length (sh_orderedPriorityLevels s) ->
  exists r σ' s' ds, dispatchCycle range saturation computeLimit σ s = Some (r, σ', s', ds) /\ proc_ok σ' s' /\
    if r
    then exists item mq, queue_at (item_key item) s = Some mq /\ PeekHead mq = Some item /\
           (forall p, Priority (item_key item) < p -> items_at p s = []) /\
           (forall i p c, sh_orderedPriorityLevels s !! i = Some p -> Priority (item_key item) <= p ->
              computeLimit saturation (sh_orderedPriorityLevels s) !! i = Some c -> SFleb c saturation = false) /\
           shard_items s ≡ₚ item :: shard_items s' /\
           finalizes [item] (mkFinalState QueueOutcomeDispatched None) σ σ'
    else σ' = σ /\ shard_items s' ≡ₚ shard_items s /\
         forall p, items_at p s <> [] ->
           exists i q c, sh_orderedPriorityLevels s !! i = Some q /\ p <= q /\
             computeLimit saturation (sh_orderedPriorityLevels s) !! i = Some c /\ SFleb c saturation = true.
Proof.
  intros Hr Hok Hsrv Hlen. pose proof (po_shard _ _ Hok) as Hsh.
  destruct (dispatchCycle_ok range Hr saturation computeLimit σ s Hok Hsrv Hlen)
    as (r & σ' & s' & ds & Hrun & Hok' & _ & Hpass).
  exists r, σ', s', ds. split; [done|]. split; [done|]. destruct r.
  - destruct Hpass as (i & p & item & Hi & <- & [Hsat Hemp] & [(mq & Hq & Hhd) Hit Hfin _]).
    exists item, mq. split_and!; [done..| | |done|done].
    + intros p' Hlt. destruct (decide (p' ∈ sh_orderedPriorityLevels s)) as [Hin|Hin];
        [|by eapply items_at_none].
      destruct (sorted_before _ _ _ _ (so_sorted _ _ Hsh) Hi Hin Hlt) as (j & Hj & Hpj). by eapply Hemp.
    + intros j p' c Hj Hle Hc. apply (Hsat j c); [|done].
      destruct (decide (p' = Priority (item_key item))) as [->|Hne].
      * pose proof (NoDup_lookup _ _ _ _ (sorted_levels_NoDup _ (so_sorted _ _ Hsh)) Hi Hj). lia.
      * destruct (sorted_before _ i _ p' (so_sorted _ _ Hsh) Hi) as (j' & Hj' & Hpj);
          [by eapply list_elem_of_lookup_2|lia|].
        pose proof (NoDup_lookup _ _ _ _ (sorted_levels_NoDup _ (so_sorted _ _ Hsh)) Hj Hpj). lia.
  - destruct Hpass as (-> & [Hs1 _] & _ & Hb). split_and!; [done|done|].
    intros p Hne. destruct (decide (p ∈ sh_orderedPriorityLevels s)) as [Hin|Hin];
      [|by destruct Hne; eapply items_at_none].
    apply list_elem_of_lookup in Hin as [i Hi].
    destruct (Hb i p Hi) as [He|(j & c & Hj & Hc & Hle)]; [done|].
    destruct (lookup_lt_is_Some_2 (sh_orderedPriorityLevels s) j) as [q Hq]; [apply lookup_lt_Some in Hi; lia|].
    exists j, q, c. split_and!; [done| |done|done]. by eapply (sorted_le _ (so_sorted _ _ Hsh) i j).
Qed.

Definition demo_bands_serve (sy : system) : Prop :=
  forall p b, sh_priorityBands (sp_shard (sy_proc sy)) !! p = Some b -> band_serves b.

Lemma demo_two_serves sy : demo_run demo_two = Some sy -> demo_bands_serve sy.
Proof.
  intros Hrun p b Hb. destruct (demo_run_ok _ _ Hrun) as [[_ Hsh _] _ _ _ _ _ _]; [reflexivity|].
  pose proof (so_bands _ _ Hsh _ _ Hb) as Hwf. apply elem_of_map_to_list in Hb.
  assert (Hobs : (fun sy => (fun e : Z * priorityBand => (band_fairnessPolicy e.2, band_policyState e.2)) <$>
                    map_to_list (sh_priorityBands (sp_shard (sy_proc sy)))) <$> demo_run demo_two =
    Some [(newRoundRobin EmptyString, RoundRobinCursor None); (newRoundRobin EmptyString, RoundRobinCursor None)])
    by reflexivity.
  rewrite Hrun in Hobs. injection Hobs as Hobs.
  apply (list_elem_of_fmap_2 (fun e : Z * priorityBand => (band_fairnessPolicy e.2, band_policyState e.2))) in Hb.
  rewrite Hobs in Hb. cbn [snd] in Hb.
  apply elem_of_cons in Hb as [[= Hp Hst]|[= Hp Hst]%list_elem_of_singleton];
    by eapply (round_robin_band _ p b EmptyString None).
Qed.

Lemma dispatch_cycle_strict_priority_witness :
  exists sy σ' s' ds, demo_run demo_two = Some sy /\
    dispatchCycle plain_range zero (NewConstPolicy one) (sp_store (sy_proc sy)) (sp_shard (sy_proc sy)) =
      Some (true, σ', s', ds) /\ length (shard_items s') = 1%nat /\
    (ID ∘ item_key <$> shard_items s') = ["lo"%string].
Proof.
  assert (Hobs : (fun sy => (length (sh_orderedPriorityLevels (sp_shard (sy_proc sy))),
      match dispatchCycle plain_range zero (NewConstPolicy one) (sp_store (sy_proc sy)) (sp_shard (sy_proc sy)) with
      | Some (r, _, s', _) => Some (r, length (shard_items s'), ID ∘ item_key <$> shard_items s')
      | None => None end)) <$> demo_run demo_two = Some (2%nat, Some (true, 1%nat, ["lo"%string])))
    by (vm_compute; reflexivity).
  destruct (demo_run demo_two) as [sy|] eqn:Hrun; [|discriminate Hobs]. injection Hobs as Hlev Hobs.
  destruct (demo_run_ok _ _ Hrun) as [Hok _ _ _ _ _ _]; [reflexivity|].
  destruct (dispatch_cycle_strict_priority plain_range zero (NewConstPolicy one) (sp_store (sy_proc sy))
    (sp_shard (sy_proc sy))) as (r & σ' & s' & ds & Hcyc & _ & _);
    [reflexivity|exact Hok|exact (demo_two_serves sy Hrun)|apply length_replicate|].
  rewrite Hcyc in Hobs. injection Hobs as -> Hlen Hids. exists sy, σ', s', ds.
  split; [reflexivity|]. split; [exact Hcyc|]. split; [exact Hlen|exact Hids].
Defined.

(** ** Capacity *)

(** The loads of a shard respect its limits; a limit of 0 is none. *)
Definition load_ok (s : registryShard) : Prop :=
  within (sc_MaxBytes (sh_config s)) (sumZ item_bytes (shard_items s)) /\
  within (sc_MaxRequests (sh_config s)) (Z.of_nat (length (shard_items s))) /\
  forall p b, sh_priorityBands s !! p = Some b ->
    within (pb_MaxBytes (band_config b)) (sumZ item_bytes (items_at p s)) /\
    within (pb_MaxRequests (band_config b)) (Z.of_nat (length (items_at p s))).

Lemma band_sum_le s p b :
  sh_priorityBands s !! p = Some b -> (forall x, x ∈ shard_items s -> 0 <= item_bytes x) ->
  0 <= sumZ item_bytes (band_items b) <= sumZ item_bytes (shard_items s).
Proof.
  intros Hb Hpos. pose proof (bind_lookup (fun e : Z * priorityBand => band_items e.2) _ p b Hb) as Hp.
  fold (shard_items s) in Hp. cbn [snd] in Hp. rewrite (sumZ_perm _ _ _ Hp), sumZ_app.
  split; [|rewrite <- (Z.add_0_r (sumZ _ (band_items b))) at 1; apply Z.add_le_mono_l]; apply sumZ_nonneg;
    intros x Hx; apply Hpos; rewrite Hp, elem_of_app; tauto.
Qed.

Lemma load_ok_same s s' : same_shape s s' -> same_items s s' -> load_ok s -> load_ok s'.
Proof.
  intros Hsh [Hi Hp] (H1 & H2 & H3). pose proof Hsh as (_ & Hc & _). split_and!.
  - by rewrite Hc, (sumZ_perm _ _ _ Hi).
  - by rewrite Hc, Hi.
  - intros p b' Hb'. destruct (same_shape_band s s' p b' Hsh Hb') as (b & Hb & [= _ ->]).
    rewrite (sumZ_perm _ _ _ (Hp p)), (Hp p). by apply H3.
Qed.

(** C33: Admission never overcommits: a shard whose bytes and requests are
    within its limits, in total and per band, is so after enqueue, whatever the
    item, as long as the sums fit 64 bits. *)
Theorem enqueue_keeps_limits item σ s σ' s' ds :
  proc_ok σ s -> allocated item σ -> (forall x, x ∈ shard_items s -> itemRef x <> itemRef item) ->
  Z.of_nat (length (shard_items s)) + 1 < two63 ->
  (forall x, x ∈ item :: shard_items s -> 0 <= item_bytes x) ->
  sumZ item_bytes (shard_items s) + item_bytes item < two64 ->
  load_ok s -> enqueue item σ s = Some (σ', s', ds) -> load_ok s'.
Proof.
  intros Hok Hal Hfresh Hlt Hpos Hsum Hload Hrun.
  destruct (FinalState_of item σ) as [fs|] eqn:Hfs.
  { unfold enqueue in Hrun. rewrite Hfs in Hrun. by simplify_eq. }
  destruct (enqueue_ok item σ s) as (σ1 & s1 & ds1 & Hrun1 & _ & Hsh & _ & _ & Hcase); [done..|].
  rewrite Hrun in Hrun1. injection Hrun1 as <- <- <-.
  destruct (admissible item s) eqn:Hadm; [|by eapply load_ok_same; [|apply Hcase|]].
  destruct Hcase as (_ & Hi & Hb1 & Hb2). unfold admissible in Hadm.
  destruct (queue_at (item_key item) s) as [mq|] eqn:Hq; [|done]. apply andb_true_iff in Hadm as [Hcap _].
  assert (Hb : is_Some (sh_priorityBands s !! Priority (item_key item))).
  { unfold queue_at in Hq. by destruct (sh_priorityBands s !! Priority (item_key item)). }
  destruct Hb as [b Hb]. destruct (band_sum_le s _ b Hb) as [H0 Hle]; [intros x Hx; apply Hpos; by right|].
  apply (hasCapacity_spec σ s _ b) in Hcap as (C1 & C2 & C3 & C4); [|apply Hok|done|apply Hpos; left|done|done|done|
    unfold two63, two64 in *; lia].
  pose proof Hsh as (_ & Hc & _). destruct Hload as (L1 & L2 & L3). split_and!.
  - rewrite Hc, (sumZ_perm _ _ _ Hi), sumZ_cons, Z.add_comm. done.
  - rewrite Hc, Hi. cbn [length]. by rewrite Nat2Z.inj_succ.
  - intros p b' Hb'. destruct (same_shape_band s s' p b' Hsh Hb') as (b0 & Hb0 & [= _ ->]).
    destruct (decide (p = Priority (item_key item))) as [->|Hp]; [|rewrite Hb2 by done; by apply L3].
    rewrite (sumZ_perm _ _ _ Hb1), Hb1, sumZ_cons, Z.add_comm. cbn [length]. rewrite Nat2Z.inj_succ.
    unfold items_at. rewrite Hb. simplify_eq. done.
Qed.

(** A decision procedure for [load_ok]. *)
Definition withinb (limit load : Z) : bool := negb (0 <? limit) || (load <=? limit).

Lemma withinb_sound limit load : withinb limit load = true -> within limit load.
Proof. unfold withinb, within. destruct (Z.ltb_spec 0 limit), (Z.leb_spec load limit); simpl; lia || done. Qed.

Definition load_okb (s : registryShard) : bool :=
  withinb (sc_MaxBytes (sh_config s)) (sumZ item_bytes (shard_items s)) &&
  withinb (sc_MaxRequests (sh_config s)) (Z.of_nat (length (shard_items s))) &&
  forallb (fun e : Z * priorityBand =>
    withinb (pb_MaxBytes (band_config e.2)) (sumZ item_bytes (items_at e.1 s)) &&
    withinb (pb_MaxRequests (band_config e.2)) (Z.of_nat (length (items_at e.1 s))))
    (map_to_list (sh_priorityBands s)).

Lemma load_okb_sound s : load_okb s = true -> load_ok s.
Proof.
  unfold load_okb. rewrite !andb_true_iff, forallb_forall. intros [[H1 H2] H3].
  split_and!; [by apply withinb_sound..|]. intros p b Hb%elem_of_map_to_list%list_elem_of_In.
  specialize (H3 (p, b) Hb). apply andb_true_iff in H3 as [H3 H4]. split; by apply withinb_sound.
Qed.

Definition nonnegb (l : list Item) : bool := forallb (fun x => 0 <=? item_bytes x) l.

Lemma nonnegb_sound l : nonnegb l = true -> forall x, x ∈ l -> 0 <= item_bytes x.
Proof. unfold nonnegb. rewrite forallb_forall. intros H x Hx%list_elem_of_In. by apply Z.leb_le, H. Qed.

Lemma enqueue_keeps_limits_witness :
  exists item σ s σ' s' ds, demo_third 60 = Some (item, σ, s) /\ enqueue item σ s = Some (σ', s', ds) /\
    length (shard_items s') = 3%nat /\ load_ok s'.
Proof.
  assert (Hobs : (fun '(item, σ, s) => (disjointb item s, length (shard_items s), load_okb s,
      nonnegb (item :: shard_items s),
      sumZ item_bytes (shard_items s) + item_bytes item <? two64,
      match enqueue item σ s with Some (_, s', _) => Some (length (shard_items s')) | None => None end)) <$> demo_third 60 =
    Some (true, 2%nat, true, true, true, Some 3%nat)) by (vm_compute; reflexivity).
  destruct (demo_third 60) as [[[item σ] s]|] eqn:Hb; [|discriminate Hobs].
  injection Hobs as Hdis Hlen Hload Hpos Hsum Henq. destruct (demo_third_ok 60 item σ s Hb) as [Hok Hal].
  destruct (enqueue item σ s) as [[[σ' s'] ds]|] eqn:Hrun; [|discriminate Henq]. injection Henq as Hlen'.
  exists item, σ, s, σ', s', ds. split; [reflexivity|]. split; [exact Hrun|]. split; [exact Hlen'|].
  apply (enqueue_keeps_limits item σ s σ' s' ds Hok Hal (disjointb_sound item s Hdis)).
  - rewrite Hlen. reflexivity.
  - exact (nonnegb_sound (item :: shard_items s) Hpos).
  - apply Z.ltb_lt, Hsum.
  - apply load_okb_sound, Hload.
  - exact Hrun.
Defined.

(** A limit smaller than the number of shards disappears on some of them.
    The share of a shard beyond the limit is 0, which the capacity check reads
    as unlimited: such a shard has room for any request, whatever it holds. *)
Theorem small_limit_unlimited_on_shard range i n c s p b size :
  0 < MaxRequests c -> MaxRequests c <= i < n -> n < two63 -> MaxBytes c = 0 ->
  sh_config s = partition range i n c -> sh_priorityBands s !! p = Some b ->
  pb_MaxBytes (band_config b) = 0 -> pb_MaxRequests (band_config b) = 0 ->
  sc_MaxRequests (sh_config s) = 0 /\ hasCapacity p size s = true.
Proof.
  intros Hpos Hi Hn Hz Hc Hb H1 H2.
  assert (Hr : sc_MaxRequests (sh_config s) = 0).
  { rewrite Hc. cbn [partition sc_MaxRequests].
    rewrite partition_value by (unfold is_u64, two63, two64 in *; lia).
    rewrite Z.div_small, Z.mod_small by lia. destruct (Z.ltb_spec i (MaxRequests c)); lia. }
  split; [done|]. unfold hasCapacity, shard_Stats.
  cbn [ss_TotalCapacityBytes ss_TotalByteSize ss_TotalCapacityRequests ss_TotalLen ss_PerPriorityBandStats].
  rewrite map_lookup_imap, Hb. cbn [mbind option_bind bs_CapacityBytes bs_ByteSize bs_CapacityRequests bs_Len].
  rewrite Hr, H1, H2, Hc. cbn [partition sc_MaxBytes]. unfold partitionUint64. by rewrite Hz.
Qed.

(** One request in all, on two shards; the bands are unlimited. *)
Definition tiny_config : Config :=
  mkConfig 0 1 {[ 0 := mkPriorityBandConfig 0 (Some (FCFSOrderingPolicyFactory EmptyString))
                         (Some (newRoundRobin EmptyString)) ListQueueName 0 0 ]} None 2 300 600.

Lemma small_limit_unlimited_on_shard_witness :
  exists s, newShard plain_range "shard-0001" (partition plain_range 1 2 tiny_config) = Some s /\
    sc_MaxRequests (sh_config s) = 0 /\ hasCapacity 0 1000 s = true.
Proof.
  assert (Hobs : (fun s => (fun b => (pb_MaxBytes (band_config b), pb_MaxRequests (band_config b))) <$>
      sh_priorityBands s !! 0) <$> newShard plain_range "shard-0001" (partition plain_range 1 2 tiny_config) =
    Some (Some (0, 0))) by (vm_compute; reflexivity).
  destruct (newShard_ok plain_range demo_store "shard-0001" (partition plain_range 1 2 tiny_config))
    as (s & Hs & _ & _ & _ & _ & Hc & _).
  - reflexivity.
  - intros p c Hp. change (sc_PriorityBands (partition plain_range 1 2 tiny_config)) with
      ({[ 0 := partition_band 1 2 (mkPriorityBandConfig 0 (Some (FCFSOrderingPolicyFactory EmptyString))
               (Some (newRoundRobin EmptyString)) ListQueueName 0 0) ]} : gmap Z PriorityBandConfig) in Hp.
    apply lookup_singleton_Some in Hp as [<- <-]. split; [reflexivity|by eexists].
  - rewrite Hs in Hobs. injection Hobs as Hobs. exists s. split; [exact Hs|].
    destruct (sh_priorityBands s !! 0) as [b|] eqn:Hb; [|discriminate Hobs]. injection Hobs as Hb1 Hb2.
    apply (small_limit_unlimited_on_shard plain_range 1 2 tiny_config s 0 b 1000);
      [reflexivity|split; [discriminate|reflexivity]|reflexivity|reflexivity|exact Hc|exact Hb|exact Hb1|exact Hb2].
Defined.

(** A sweep removes from the queues exactly the items that were finalized
    before it, whatever order the workers take the queues in, and finalizes
    nothing itself. *)
Theorem sweep_removes_exactly_finalized range order σ s :
  (forall m, range m ≡ₚ map_to_list m) -> (forall l, order l ≡ₚ l) -> proc_ok σ s ->
  exists σ' s' ds, sweepFinalizedItems range order σ s = Some (σ', s', ds) /\ proc_ok σ' s' /\
    shard_items s' ≡ₚ keep (is_finalized σ) (shard_items s) /\
    forall x, FinalState_of x σ' = FinalState_of x σ.
Proof.
  intros Hr Ho Hok. destruct (sweepFinalizedItems_ok range Hr order Ho σ s Hok)
    as (σ' & s' & ds & gone & Hrun & Hok' & _ & Hst & Hi & Hg & Hk).
  exists σ', s', ds. split_and!; [done..| |intros x; by apply FinalState_of_istates].
  by rewrite Hi, keep_split.
Qed.

(** One of two queued items is cancelled by its caller, then swept. *)
Lemma sweep_removes_exactly_finalized_witness :
  exists sy σ' s' ds, demo_run (demo_two ++ [LFinalize 0 (Sentinel ContextCanceled)]) = Some sy /\
    length (shard_items (sp_shard (sy_proc sy))) = 2%nat /\
    sweepFinalizedItems plain_range (@rev _) (sp_store (sy_proc sy)) (sp_shard (sy_proc sy)) = Some (σ', s', ds) /\
    length (shard_items s') = 1%nat.
Proof.
  assert (Hobs : (fun sy => (length (shard_items (sp_shard (sy_proc sy))),
      length (keep (is_finalized (sp_store (sy_proc sy))) (shard_items (sp_shard (sy_proc sy)))))) <$>
      demo_run (demo_two ++ [LFinalize 0 (Sentinel ContextCanceled)]) = Some (2%nat, 1%nat)) by (vm_compute; reflexivity).
  destruct (demo_run _) as [sy|] eqn:Hrun; [|discriminate Hobs]. injection Hobs as Hlen Hkeep.
  destruct (demo_run_ok _ _ Hrun) as [Hok _ _ _ _ _ _]; [reflexivity|].
  destruct (sweep_removes_exactly_finalized plain_range (@rev _) (sp_store (sy_proc sy)) (sp_shard (sy_proc sy)))
    as (σ' & s' & ds & Hsw & _ & Hp & _); [reflexivity|intros l; symmetry; apply Permutation_rev|exact Hok|].
  exists sy, σ', s', ds. split; [reflexivity|]. split; [exact Hlen|]. split; [exact Hsw|].
  rewrite (Permutation_length Hp). exact Hkeep.
Defined.

(** C34: Shutdown finalizes every item the processor holds.  The buffered
    items that have no final state are rejected, then the queued ones evicted,
    both with an error that says the controller is not running; an item that
    was finalized before keeps its state, the queues are empty and no other
    item is touched. *)
Theorem shutdown_finalizes_everything range order buffered σ s :
  (forall m, range m ≡ₚ map_to_list m) -> (forall l, order l ≡ₚ l) -> proc_ok σ s ->
  (forall x, x ∈ buffered -> allocated x σ) ->
  (forall x y, x ∈ buffered -> y ∈ shard_items s -> itemRef x <> itemRef y) ->
  let rejected := mkFinalState QueueOutcomeRejectedOther (classed ErrRejected (Sentinel ErrFlowControllerNotRunning)) in
  let evicted := mkFinalState QueueOutcomeEvictedOther (classed ErrEvicted (Sentinel ErrFlowControllerNotRunning)) in
  exists σ' s' ds, shutdown range order buffered σ s = Some (σ', s', ds) /\ proc_ok σ' s' /\ shard_items s' = [] /\
    forall x, FinalState_of x σ' =
      if decide (itemRef x ∈ itemRef <$> buffered) then Some (default rejected (FinalState_of x σ))
      else if decide (itemRef x ∈ itemRef <$> shard_items s) then Some (default evicted (FinalState_of x σ))
      else FinalState_of x σ.
Proof.
  intros Hr Ho Hok Hal Hdis rejected evicted. unfold shutdown.
  destruct (finalize_all_ok QueueOutcomeRejectedOther (classed ErrRejected (Sentinel ErrFlowControllerNotRunning))
    s buffered σ) as (σ1 & -> & Hok1 & Hf1 & _); [done|done|by apply classed_ok|]. cbn [mbind option_bind].
  destruct (evictAll_ok range Hr order Ho σ1 s Hok1) as (σ2 & s2 & ds & -> & Hok2 & _ & _ & He & Hf2).
  exists σ2, s2, ds. split_and!; [done..|]. intros x. rewrite Hf2, Hf1.
  destruct (decide (itemRef x ∈ itemRef <$> buffered)) as [Hb|Hb]; [|done].
  case_decide as Hs; [|done]. exfalso. apply list_elem_of_fmap in Hb as (y & Hy & Hyb).
  apply list_elem_of_fmap in Hs as (z & Hz & Hzs). apply (Hdis y z); congruence.
Qed.

Lemma shutdown_finalizes_everything_witness :
  exists item σ s σ' s' ds, demo_third 60 = Some (item, σ, s) /\
    shutdown plain_range (@rev _) [item] σ s = Some (σ', s', ds) /\ shard_items s' = [] /\
    Outcome <$> FinalState_of item σ' = Some QueueOutcomeRejectedOther.
Proof.
  assert (Hobs : (fun '(item, σ, s) => (disjointb item s, FinalState_of item σ)) <$> demo_third 60 = Some (true, None))
    by (vm_compute; reflexivity).
  destruct (demo_third 60) as [[[item σ] s]|] eqn:Hb; [|discriminate Hobs]. injection Hobs as Hdis Hfs.
  destruct (demo_third_ok 60 item σ s Hb) as [Hok Hal].
  destruct (shutdown_finalizes_everything plain_range (@rev _) [item] σ s) as (σ' & s' & ds & Hrun & _ & He & Hf);
    [reflexivity|intros l; symmetry; apply Permutation_rev|exact Hok| | |].
  - intros x ->%list_elem_of_singleton. exact Hal.
  - intros x y ->%list_elem_of_singleton Hy Heq. by apply (disjointb_sound item s Hdis y Hy).
  - exists item, σ, s, σ', s', ds. split; [reflexivity|]. split; [exact Hrun|]. split; [exact He|].
    rewrite Hf, decide_True by (apply list_elem_of_singleton; reflexivity). rewrite Hfs. reflexivity.
Defined.

(** A cycle reports a dispatch when nothing was dispatched: an item that
    its caller finalized while it was queued, and that no sweep has removed
    yet, takes a dispatch cycle, which returns true; the item keeps its
    eviction, and the other item stays queued. *)
Theorem dispatch_reports_success_for_expired_item :
  exists sy σ' s' ds, demo_run (demo_two ++ [LFinalize 1 (Sentinel ContextCanceled)]) = Some sy /\
    dispatchCycle plain_range zero (NewConstPolicy one) (sp_store (sy_proc sy)) (sp_shard (sy_proc sy)) =
      Some (true, σ', s', ds) /\ length (shard_items s') = 1%nat /\
    forall x, x ∈ sy_owned sy -> Outcome <$> FinalState_of x σ' <> Some QueueOutcomeDispatched.
Proof.
  set (run := demo_run _).
  assert (Hobs : (fun sy =>
      match dispatchCycle plain_range zero (NewConstPolicy one) (sp_store (sy_proc sy)) (sp_shard (sy_proc sy)) with
      | Some (r, σ', s', _) => Some (r, length (shard_items s'),
          (fun x => Outcome <$> FinalState_of x σ') <$> sy_owned sy)
      | None => None end) <$> run =
    Some (Some (true, 1%nat, [None; Some QueueOutcomeEvictedContextCancelled]))) by (vm_compute; reflexivity).
  destruct run as [sy|]; [|discriminate Hobs]. cbn [fmap option_fmap option_map] in Hobs.
  destruct (dispatchCycle _ _ _ _ _) as [[[[r σ'] s'] ds]|] eqn:Hc; [|discriminate Hobs].
  injection Hobs as -> Hlen Hfin. exists sy, σ', s', ds. split_and!; [done..|]. intros x Hx.
  apply (list_elem_of_fmap_2 (fun x => Outcome <$> FinalState_of x σ')) in Hx. rewrite Hfin in Hx.
  by apply elem_of_cons in Hx as [-> | ->%list_elem_of_singleton].
Qed.
