(* ===== verification/ControllerConfig.v ===== *)
(** The configuration of the flow controller:
    pkg/epp/flowcontrol/controller/config.go.  Durations are nanoseconds. *)

From S2P Require Import Prelude FlowTypes.

Definition Second : Z := 1000000000.
Definition defaultExpiryCleanupInterval : Z := 1 * Second.
Definition defaultProcessorReconciliationInterval : Z := 5 * Second.
Definition defaultEnqueueChannelBufferSize : Z := 100.

Record Config := mkConfig {
  DefaultRequestTTL : Z;
  ExpiryCleanupInterval : Z;
  ProcessorReconciliationInterval : Z;
  EnqueueChannelBufferSize : Z
}.

Definition ConfigOption : Type := Config -> Config.

Definition WithDefaultRequestTTL (d : Z) : ConfigOption := fun c =>
  mkConfig d (ExpiryCleanupInterval c) (ProcessorReconciliationInterval c) (EnqueueChannelBufferSize c).
Definition WithExpiryCleanupInterval (d : Z) : ConfigOption := fun c =>
  mkConfig (DefaultRequestTTL c) d (ProcessorReconciliationInterval c) (EnqueueChannelBufferSize c).
Definition WithProcessorReconciliationInterval (d : Z) : ConfigOption := fun c =>
  mkConfig (DefaultRequestTTL c) (ExpiryCleanupInterval c) d (EnqueueChannelBufferSize c).
Definition WithEnqueueChannelBufferSize (size : Z) : ConfigOption := fun c =>
  mkConfig (DefaultRequestTTL c) (ExpiryCleanupInterval c) (ProcessorReconciliationInterval c) size.

Definition validate (c : Config) : option error :=
  if DefaultRequestTTL c <? 0 then Some (Message "DefaultRequestTTL cannot be negative, but got %v")
  else if ExpiryCleanupInterval c <=? 0 then Some (Message "ExpiryCleanupInterval must be positive, but got %v")
  else if ProcessorReconciliationInterval c <=? 0
  then Some (Message "ProcessorReconciliationInterval must be positive, but got %v")
  else if EnqueueChannelBufferSize c <? 0
  then Some (Message "EnqueueChannelBufferSize cannot be negative, but got %d")
  else None.

Definition NewConfig (opts : list ConfigOption) : Config + error :=
  let c := fold_left (fun c opt => opt c) opts
             (mkConfig 0 defaultExpiryCleanupInterval defaultProcessorReconciliationInterval
                defaultEnqueueChannelBufferSize) in
  match validate c with
  | Some err => inr err
  | None => inl c
  end.

(** [apiTTL] is the field of the API object, when both are set. *)
Definition NewConfigFromAPI (apiTTL : option Z) : Config + error :=
  NewConfig (match apiTTL with Some d => [WithDefaultRequestTTL d] | None => [] end).

(** * Properties *)

Definition valid (c : Config) : Prop :=
  0 <= DefaultRequestTTL c /\ 0 < ExpiryCleanupInterval c /\ 0 < ProcessorReconciliationInterval c /\
  0 <= EnqueueChannelBufferSize c.

Lemma validate_spec c : validate c = None <-> valid c.
Proof.
  unfold validate, valid.
  destruct (Z.ltb_spec (DefaultRequestTTL c) 0), (Z.leb_spec (ExpiryCleanupInterval c) 0),
    (Z.leb_spec (ProcessorReconciliationInterval c) 0), (Z.ltb_spec (EnqueueChannelBufferSize c) 0);
    (split; [|intros (? & ? & ? & ?)]); try done; lia.
Qed.

Lemma NewConfig_valid opts c : NewConfig opts = inl c -> valid c.
Proof.
  unfold NewConfig. destruct (validate _) eqn:Hv; [done|]. intros [= <-]. by apply validate_spec.
Qed.
