(* ===== verification/Controller.v ===== *)
(** The distributor of the flow controller:
    pkg/epp/flowcontrol/controller/controller.go.

    A call of [EnqueueAndWait] is sequential code between points where it
    waits for others.  What the others answer or do at such a point is an
    argument: whether the controller is stopped, the active shards with their
    queues, the answers of the processors, and what happens to the items until
    the call wakes up.  [shardProcessor_answers] is what the interface of a
    processor allows.  Times and durations are nanoseconds. *)

From stdpp Require Import sorting.
From S2P Require Import Prelude FlowTypes ItemProps ControllerConfig.

(** * Contexts *)

(** What the code uses of a context: its deadline, and the cause reported when
    the deadline passes. *)
Record Context := mkContext {
  ctx_Deadline : option Z;
  ctx_DeadlineCause : error
}.

Definition Background : Context := mkContext None (Sentinel ContextDeadlineExceeded).

(** [context.WithDeadlineCause]: an earlier deadline of the parent stays. *)
Definition WithDeadlineCause (parent : Context) (d : Z) (cause : error) : Context :=
  match ctx_Deadline parent with
  | Some cur => if cur <? d then parent else mkContext (Some d) cause
  | None => mkContext (Some d) cause
  end.

(** ([ctx.Err()], [context.Cause(ctx)]) at time [now]; [cancelled] is the cause
    of an explicit cancellation. *)
Definition ctx_Done (ctx : Context) (cancelled : option error) (now : Z) : option (error * error) :=
  match cancelled with
  | Some cause => Some (Sentinel ContextCanceled, cause)
  | None =>
      match ctx_Deadline ctx with
      | Some d => if d <=? now then Some (Sentinel ContextDeadlineExceeded, ctx_DeadlineCause ctx) else None
      | None => None
      end
  end.

(** [Time.Sub] saturates at the bounds of a Duration. *)
Definition time_Sub (t u : Z) : Z := Z.max (- two63) (Z.min (two63 - 1) (t - u)).

(** The derived context and the enqueue time. *)
Definition createRequestContext (config : Config) (ctx : Context) (req : FlowControlRequest) (now : Z)
  : Context * Z :=
  let enqueueTime := now in
  let effectiveTTL := if InitialEffectiveTTL req <=? 0 then DefaultRequestTTL config else InitialEffectiveTTL req in
  if 0 <? effectiveTTL
  then (WithDeadlineCause ctx (enqueueTime + effectiveTTL) (Sentinel ErrTTLExpired), enqueueTime)
  else (ctx, enqueueTime).

(** * Distribution *)

Record candidate := mkCandidate { cd_shardID : string; cd_byteSize : Z }.

(** An active shard: its ID, and the byte size of the flow's queue on it or
    the error of [ManagedQueue]. *)
Abbreviation shard_view := (string * (Z + error))%type (only parsing).

Definition byteSize_le (a b : candidate) : Prop := cd_byteSize a <= cd_byteSize b.

Global Instance byteSize_le_dec : RelDecision byteSize_le.
Proof. intros a b. unfold byteSize_le. apply _. Defined.

Definition errNoShards : error := Wrap "%w for flow %s" [Sentinel ErrNoShards].

Definition candidates_of (shards : list shard_view) : list candidate :=
  omap (fun s : shard_view =>
    match s.2 with inl byteSize => Some (mkCandidate s.1 byteSize) | inr _ => None end) shards.

(** [slices.SortFunc] is not stable: [sort] is any sort by the byte size. *)
Definition selectDistributionCandidates (sort : list candidate -> list candidate) (shards : list shard_view)
  : list candidate + error :=
  match shards with
  | [] => inr errNoShards
  | _ =>
      match candidates_of shards with
      | [] => inr errNoShards
      | candidates => inl (sort candidates)
      end
  end.

(** The loop of the first phase: the first candidate that takes the item. *)
Fixpoint submit_first (submit : candidate -> option error) (candidates : list candidate) : option candidate :=
  match candidates with
  | [] => None
  | c :: candidates =>
      match submit c with
      | None => Some c
      | Some _ => submit_first submit candidates
      end
  end.

(** Both phases; the candidate that took the item, or the outcome and the
    error.  [None] is the panic of [candidates[0]] on an empty list. *)
Definition distributeRequest (submit submitOrBlock : candidate -> option error) (candidates : list candidate)
  : option (candidate + QueueOutcome * error) :=
  match submit_first submit candidates with
  | Some c => Some (inl c)
  | None =>
      match candidates with
      | [] => None
      | bestCandidate :: _ =>
          match submitOrBlock bestCandidate with
          | Some err => Some (inr (QueueOutcomeRejectedOther,
                                   Wrap "%w: request not accepted: %w" [Sentinel ErrRejected; err]))
          | None => Some (inl bestCandidate)
          end
      end
  end.

(** One attempt: the item, the new store, and the candidate that owns the item
    or the error.  [cause] is [context.Cause(reqCtx)] when an error of the
    context was returned. *)
Definition tryDistribution (config : Config) (sort : list candidate -> list candidate) (reqCtx : Context)
    (req : FlowControlRequest) (enqueueTime : Z) (shards : list shard_view)
    (submit submitOrBlock : candidate -> option error) (cause : error) (σ : Store)
  : option (Item * Store * (candidate + error)) :=
  let effectiveTTL :=
    match ctx_Deadline reqCtx with
    | Some deadline => let ttl := time_Sub deadline enqueueTime in
                       if 0 <? ttl then ttl else DefaultRequestTTL config
    | None => DefaultRequestTTL config
    end in
  let '(item, σ) := NewItem req effectiveTTL enqueueTime σ in
  match selectDistributionCandidates sort shards with
  | inr err =>
      let outcome := if errors_Is err ErrNoShards then QueueOutcomeRejectedCapacity
                     else QueueOutcomeRejectedOther in
      let finalErr := Wrap "%w: request not accepted: %w" [Sentinel ErrRejected; err] in
      σ ← FinalizeWithOutcome item outcome (Some finalErr) σ;
      Some (item, σ, inr finalErr)
  | inl candidates =>
      r ← distributeRequest submit submitOrBlock candidates;
      match r with
      | inl c => Some (item, σ, inl c)
      | inr (outcome, err) =>
          if errors_Is err ContextCanceled || errors_Is err ContextDeadlineExceeded
          then σ ← Finalize item cause σ; Some (item, σ, inr err)
          else
            let finalErr := Wrap "%w: request not accepted: %w" [Sentinel ErrRejected; err] in
            σ ← FinalizeWithOutcome item outcome (Some finalErr) σ;
            Some (item, σ, inr finalErr)
      end
  end.

(** The [select]: [woken] is the cause of the context when that case was
    taken.  The outer [None] is a panic, an empty [done] channel a wait that
    has not ended. *)
Inductive waited := Waiting | Finished (fs : FinalState) (σ : Store).

Definition awaitFinalization (item : Item) (woken : option error) (σ : Store) : option waited :=
  match woken with
  | Some cause =>
      σ ← Finalize item cause σ;
      finalState ← FinalState_of item σ;
      Some (Finished finalState σ)
  | None =>
      match recvDone item σ with
      | Some (finalState, σ) => Some (Finished finalState σ)
      | None => Some Waiting
      end
  end.

(** What the others do during one round of the loop. *)
Record round := mkRound {
  rd_parentDone : bool;
  rd_shards : list shard_view;
  rd_submit : candidate -> option error;
  rd_submitOrBlock : candidate -> option error;
  rd_cause : error;
  rd_others : Item -> Store -> Store;
  rd_woken : option error
}.

Inductive result :=
  | Pending
  | Returned (outcome : QueueOutcome) (err : option error) (σ : Store).

(** The loop inside the connection; [Pending] when the rounds given are used
    up or a wait does not end. *)
Fixpoint distribution_loop (config : Config) (sort : list candidate -> list candidate) (reqCtx : Context)
    (req : FlowControlRequest) (enqueueTime : Z) (rounds : list round) (σ : Store) : option result :=
  match rounds with
  | [] => Some Pending
  | rd :: rounds =>
      if rd_parentDone rd
      then Some (Returned QueueOutcomeRejectedOther
                   (Some (Wrap "%w: %w" [Sentinel ErrRejected; Sentinel ErrFlowControllerNotRunning])) σ)
      else
        '(item, σ, r) ← tryDistribution config sort reqCtx req enqueueTime (rd_shards rd) (rd_submit rd)
                          (rd_submitOrBlock rd) (rd_cause rd) σ;
        match r with
        | inr _ =>
            finalState ← FinalState_of item σ;
            Some (Returned (Outcome finalState) (Err finalState) σ)
        | inl _ =>
            w ← awaitFinalization item (rd_woken rd) (rd_others rd item σ);
            match w with
            | Waiting => Some Pending
            | Finished finalState σ =>
                if match Err finalState with Some err => errors_Is err ErrShardDraining | None => false end
                then distribution_loop config sort reqCtx req enqueueTime rounds σ
                else Some (Returned (Outcome finalState) (Err finalState) σ)
            end
        end
  end.

(** [connErr] is the error of [WithConnection] when it does not run the
    callback. *)
Definition EnqueueAndWait (config : Config) (sort : list candidate -> list candidate) (ctx : Context)
    (req : FlowControlRequest) (now : Z) (connErr : option error) (rounds : list round) (σ : Store)
  : option result :=
  let '(reqCtx, enqueueTime) := createRequestContext config ctx req now in
  r ← match connErr with
      | Some err => Some (Returned QueueOutcomeNotYetFinalized (Some err) σ)
      | None => distribution_loop config sort reqCtx req enqueueTime rounds σ
      end;
  match r with
  | Pending => Some Pending
  | Returned outcome (Some err) σ =>
      match outcome with
      | QueueOutcomeNotYetFinalized =>
          Some (Returned QueueOutcomeRejectedOther (Some (Wrap "%w: %w" [Sentinel ErrRejected; err])) σ)
      | _ => Some (Returned outcome (Some err) σ)
      end
  | Returned outcome None σ => Some (Returned outcome None σ)
  end.
