(* ===== verification/ControllerProps.v ===== *)
(** Properties of the distributor. *)

From stdpp Require Import sorting.
From S2P Require Import Prelude FlowTypes ItemProps ControllerConfig Controller.

(** What the others may do to the items: their life cycles stay sound, and no
    item goes away. *)
Definition others_ok (rd : round) : Prop :=
  forall item σ, store_ok σ -> allocated item σ ->
    store_ok (rd_others rd item σ) /\ allocated item (rd_others rd item σ).

(** * Lemmas *)

Lemma NewItem_allocated req ttl enq σ item σ' :
  store_ok σ -> NewItem req ttl enq σ = (item, σ') ->
  store_ok σ' /\ istates σ' !! itemRef item = Some (mkItemState None None [] false false).
Proof.
  intros Hok Hnew. destruct (NewItem_spec _ _ _ _ _ _ Hok Hnew) as (Hst & _ & _ & Hins & _).
  split; [done|]. by rewrite Hins, lookup_insert_eq.
Qed.

(** Finalizing an item that has no final state yet. *)
Lemma finalize_new item o e σ st :
  store_ok σ -> istates σ !! itemRef item = Some st -> st_finalState st = None -> fs_ok (mkFinalState o e) ->
  exists σ', FinalizeWithOutcome item o e σ = Some σ' /\ store_ok σ' /\
    FinalState_of item σ' = Some (mkFinalState o e).
Proof.
  intros Hok Hst Hn Hfs. destruct (FinalizeWithOutcome_spec item o e σ st Hok Hst Hfs)
    as (σ' & Hrun & Hok' & _ & _ & Hf).
  exists σ'. rewrite Hn in Hf. done.
Qed.

Lemma Finalize_ok item cause σ :
  store_ok σ -> allocated item σ ->
  exists σ' fs, Finalize item cause σ = Some σ' /\ store_ok σ' /\ FinalState_of item σ' = Some fs /\ fs_ok fs /\
    (forall fs', FinalState_of item σ = Some fs' -> fs = fs') /\
    (FinalState_of item σ = None ->
       let '(o, e) := inferOutcome cause (bool_decide (is_Some (Handle item σ))) in fs = mkFinalState o (Some e)).
Proof.
  intros Hok [st Hst]. rewrite (Finalize_inferred item cause σ st Hst).
  assert (Hh : Handle item σ = st_handle st) by (unfold Handle; by rewrite Hst).
  assert (Hfs0 : FinalState_of item σ = st_finalState st) by (unfold FinalState_of; by rewrite Hst).
  rewrite Hh, Hfs0. destruct (inferOutcome cause _) as [o e] eqn:Ho.
  pose proof (inferOutcome_fs_ok _ _ _ _ Ho) as Hfs.
  destruct (FinalizeWithOutcome_spec item o (Some e) σ st Hok Hst Hfs) as (σ' & Hrun & Hok' & _ & _ & Hf).
  destruct (st_finalState st) as [fs|] eqn:Hs; eexists σ', _; (split_and!; [done|done|exact Hf|..]); try done.
  - pose proof (Hok _ _ Hst) as Hi. unfold item_ok in Hi. simpl in Hi. destruct (st_once st).
    + destruct Hi as (_ & fs' & Hfs' & ? & _). congruence.
    + destruct Hi as (_ & ? & _). congruence.
  - by intros fs' [= ->].
Qed.

Lemma recvDone_ok item σ fs σ' :
  store_ok σ -> recvDone item σ = Some (fs, σ') -> fs_ok fs /\ store_ok σ'.
Proof.
  unfold recvDone. intros Hok. destruct (istates σ !! itemRef item) as [st|] eqn:Hst; [|done].
  cbn [mbind option_bind]. destruct (st_done st) as [|fs0 rest] eqn:Hd; [done|]. intros [= <- <-].
  pose proof (Hok _ _ Hst) as Hi. unfold item_ok in Hi. simpl in Hi.
  destruct (st_once st) eqn:Ho; [|by destruct Hi as (_ & _ & ?); rewrite Hd in *].
  destruct Hi as (Hc & fs & Hf & Hfs & [Hdone|Hdone]); rewrite Hd in Hdone; [|done]. injection Hdone as -> ->.
  split; [done|]. apply store_ok_insert; [done|]. unfold item_ok. simpl. rewrite ?Ho. split; [done|].
  exists fs. split_and!; [done|done|by right].
Qed.

Lemma rejected_ok o m err :
  outcome_class o = Some ErrRejected -> fs_ok (mkFinalState o (Some (Wrap m [Sentinel ErrRejected; err]))).
Proof. intros Ho. eapply fs_ok_class; [exact Ho|apply Is_wrap_l]. Qed.

(** The first phase stops at the first candidate that accepts. *)
Lemma submit_first_spec submit cs :
  match submit_first submit cs with
  | Some c => exists l1 l2, cs = l1 ++ c :: l2 /\ submit c = None /\ forall c', c' ∈ l1 -> is_Some (submit c')
  | None => forall c', c' ∈ cs -> is_Some (submit c')
  end.
Proof.
  induction cs as [|c cs IH]; simpl; [by intros c' ?%elem_of_nil|].
  destruct (submit c) as [e|] eqn:Hc; [|exists [], cs; split_and!; [done|done|by intros c' ?%elem_of_nil]].
  destruct (submit_first submit cs) as [c0|].
  - destruct IH as (l1 & l2 & -> & H0 & H1). exists (c :: l1), l2. split_and!; [done|done|].
    intros c' [->|?]%elem_of_cons; eauto.
  - intros c' [->|?]%elem_of_cons; eauto.
Qed.

Section distribution.
Variable sort : list candidate -> list candidate.
Hypothesis Hsort : forall l, sort l ≡ₚ l.

Lemma select_nonempty shards candidates :
  selectDistributionCandidates sort shards = inl candidates ->
  candidates <> [] /\ candidates ≡ₚ candidates_of shards.
Proof.
  unfold selectDistributionCandidates. destruct shards as [|s shards]; [done|].
  destruct (candidates_of (s :: shards)) as [|c cs] eqn:Hc; [done|]. intros [= <-].
  split; [|apply Hsort]. intros He. pose proof (Hsort (c :: cs)) as Hp. rewrite He in Hp.
  by apply Permutation_nil_cons in Hp.
Qed.

Lemma select_error shards err :
  selectDistributionCandidates sort shards = inr err -> err = errNoShards /\ candidates_of shards = [].
Proof.
  unfold selectDistributionCandidates. destruct shards as [|s shards]; [by intros [= <-]|].
  by destruct (candidates_of (s :: shards)); [intros [= <-]|].
Qed.

(** An attempt never panics; it hands the item over, or finalizes it. *)
Lemma tryDistribution_spec config reqCtx req enq shards submit submitOrBlock cause σ :
  store_ok σ ->
  exists item σ' r, tryDistribution config sort reqCtx req enq shards submit submitOrBlock cause σ = Some (item, σ', r) /\
    store_ok σ' /\ allocated item σ' /\
    match r with
    | inr _ => exists fs, FinalState_of item σ' = Some fs /\ fs_ok fs
    | inl c => FinalState_of item σ' = None /\ c ∈ candidates_of shards /\ (submit c = None \/ submitOrBlock c = None)
    end.
Proof.
  intros Hok. unfold tryDistribution. destruct (NewItem _ _ _ σ) as [item σ1] eqn:Hnew.
  destruct (NewItem_allocated _ _ _ _ _ _ Hok Hnew) as [Hok1 Hst].
  assert (Hfin : forall o e, fs_ok (mkFinalState o e) -> exists σ', FinalizeWithOutcome item o e σ1 = Some σ' /\
    store_ok σ' /\ allocated item σ' /\ exists fs, FinalState_of item σ' = Some fs /\ fs_ok fs).
  { intros o e Hfs. destruct (finalize_new item o e σ1 _ Hok1 Hst eq_refl Hfs) as (σ' & Hrun & Hok' & Hf).
    exists σ'. split_and!; [done|done| |eauto]. unfold FinalState_of in Hf. unfold allocated.
    by destruct (istates σ' !! itemRef item). }
  destruct (selectDistributionCandidates sort shards) as [cs|err] eqn:Hsel.
  - destruct (select_nonempty _ _ Hsel) as [Hne Hp]. unfold distributeRequest.
    destruct (submit_first submit cs) as [c|] eqn:Hfirst.
    + cbn [mbind option_bind]. eexists item, σ1, _. split; [done|]. split; [done|]. split; [unfold allocated; eauto|].
      pose proof (submit_first_spec submit cs) as Hsub. rewrite Hfirst in Hsub.
      destruct Hsub as (l1 & l2 & Hcs & Hnone & _).
      split; [unfold FinalState_of; by rewrite Hst|]. rewrite <- Hp, Hcs. split; [|by left].
      apply elem_of_app. right. left.
    + destruct cs as [|c cs]; [done|]. destruct (submitOrBlock c) as [err|] eqn:Hb.
      * cbn [mbind option_bind]. destruct (errors_Is _ ContextCanceled || _).
        -- destruct (Finalize_ok item cause σ1 Hok1) as (σ' & fs & -> & Hok' & Hf & Hfs & _); [unfold allocated; eauto|].
           cbn [mbind option_bind]. eexists item, σ', _. split; [done|]. split; [done|]. split; [|eauto].
           unfold FinalState_of in Hf. unfold allocated. by destruct (istates σ' !! itemRef item).
        -- destruct (Hfin _ _ (rejected_ok QueueOutcomeRejectedOther "%w: request not accepted: %w"
             (Wrap "%w: request not accepted: %w" [Sentinel ErrRejected; err]) eq_refl)) as (σ' & -> & Hok' & Hal & Hf).
           cbn [mbind option_bind]. by eexists item, σ', _.
      * cbn [mbind option_bind]. eexists item, σ1, _. split; [done|]. split; [done|]. split; [unfold allocated; eauto|]. split_and!; [| |by right].
        -- unfold FinalState_of. by rewrite Hst.
        -- rewrite <- Hp. left.
  - destruct (select_error _ _ Hsel) as [-> _].
    destruct (Hfin _ _ (rejected_ok QueueOutcomeRejectedCapacity "%w: request not accepted: %w" errNoShards eq_refl))
      as (σ' & Hrun & Hok' & Hal & Hf).
    change (errors_Is errNoShards ErrNoShards) with true. cbn beta iota zeta. rewrite Hrun.
    cbn [mbind option_bind]. by eexists item, σ', _.
Qed.

Lemma awaitFinalization_spec item woken σ :
  store_ok σ -> allocated item σ ->
  exists w, awaitFinalization item woken σ = Some w /\
    match w with
    | Waiting => woken = None
    | Finished fs σ' => fs_ok fs /\ store_ok σ'
    end.
Proof.
  intros Hok Hal. unfold awaitFinalization. destruct woken as [cause|].
  - destruct (Finalize_ok item cause σ Hok Hal) as (σ' & fs & -> & Hok' & Hf & Hfs & _).
    cbn [mbind option_bind]. rewrite Hf. cbn [mbind option_bind]. by eexists.
  - destruct (recvDone item σ) as [[fs σ']|] eqn:Hr; [|by eexists].
    eexists. split; [done|]. by eapply recvDone_ok.
Qed.

Lemma distribution_loop_spec config reqCtx req enq rounds : forall σ,
  store_ok σ -> Forall others_ok rounds ->
  exists r, distribution_loop config sort reqCtx req enq rounds σ = Some r /\
    match r with
    | Pending => True
    | Returned o e σ' => fs_ok (mkFinalState o e) /\ store_ok σ'
    end.
Proof.
  induction rounds as [|rd rounds IH]; intros σ Hok Hoth; cbn [distribution_loop]; [by eexists|].
  apply Forall_cons in Hoth as [Ho Hoth].
  destruct (rd_parentDone rd); [eexists; split; [done|]; split; [by apply rejected_ok|done]|].
  destruct (tryDistribution_spec config reqCtx req enq (rd_shards rd) (rd_submit rd) (rd_submitOrBlock rd)
    (rd_cause rd) σ Hok) as (item & σ1 & r & -> & Hok1 & Hal & Hr).
  cbn [mbind option_bind]. destruct r as [c|err].
  - destruct (Ho item σ1 Hok1 Hal) as [Hok2 Hal2].
    destruct (awaitFinalization_spec item (rd_woken rd) _ Hok2 Hal2) as (w & -> & Hw). cbn [mbind option_bind].
    destruct w as [|fs σ2]; [by eexists|]. destruct Hw as [Hfs Hok3].
    destruct (match Err fs with Some err => _ | None => _ end); [by apply IH|]. eexists. split; [done|]. by destruct fs.
  - destruct Hr as (fs & -> & Hfs). cbn [mbind option_bind]. eexists. split; [done|]. by destruct fs.
Qed.
End distribution.

(** * Properties *)

(** What a call returns, for every behaviour of the others. *)
Lemma EnqueueAndWait_spec config sort ctx req now connErr rounds σ :
  (forall l, sort l ≡ₚ l) -> store_ok σ -> Forall others_ok rounds ->
  exists r, EnqueueAndWait config sort ctx req now connErr rounds σ = Some r /\
    match r with
    | Pending => connErr = None
    | Returned o e σ' => fs_ok (mkFinalState o e) /\ store_ok σ'
    end.
Proof.
  intros Hsort Hok Hoth. unfold EnqueueAndWait.
  destruct (createRequestContext config ctx req now) as [reqCtx enq]. destruct connErr as [err|].
  { cbn [mbind option_bind]. eexists. split; [done|]. split; [by apply rejected_ok|done]. }
  destruct (distribution_loop_spec sort Hsort config reqCtx req enq rounds σ Hok Hoth) as (r & -> & Hr).
  cbn [mbind option_bind]. destruct r as [|o e σ']; [by exists Pending|]. destruct Hr as [Hfs Hok'].
  exists (Returned o e σ'). destruct e as [e|]; [|done]. by destruct o.
Qed.

(** C8: The contract of EnqueueAndWait.  Whatever the processors answer, the
    shards do and the other goroutines do to the items, a call does not panic;
    when it returns, the outcome is terminal, the error is nil exactly for a
    dispatch, and otherwise wraps ErrRejected or ErrEvicted as the outcome
    says. *)
Theorem enqueue_and_wait_contract config sort ctx req now connErr rounds σ :
  (forall l, sort l ≡ₚ l) -> store_ok σ -> Forall others_ok rounds ->
  exists r, EnqueueAndWait config sort ctx req now connErr rounds σ = Some r /\
    match r with
    | Pending => connErr = None
    | Returned o e σ' => fs_ok (mkFinalState o e) /\ store_ok σ'
    end.
Proof. apply EnqueueAndWait_spec. Qed.

(** The processor dispatches the item while the caller waits. *)
Definition dispatch_it (item : Item) (σ : Store) : Store :=
  default σ (FinalizeWithOutcome item QueueOutcomeDispatched None σ).

(** The shard began to drain after it had taken the item. *)
Definition drain_it (item : Item) (σ : Store) : Store :=
  default σ (FinalizeWithOutcome item QueueOutcomeRejectedOther
    (Some (Wrap "%w: %w" [Sentinel ErrRejected; Sentinel ErrShardDraining])) σ).

Lemma finalize_default_ok item o e σ :
  fs_ok (mkFinalState o e) -> store_ok σ -> allocated item σ ->
  store_ok (default σ (FinalizeWithOutcome item o e σ)) /\ allocated item (default σ (FinalizeWithOutcome item o e σ)).
Proof.
  intros Hfs Hok [st Hst]. destruct (FinalizeWithOutcome_spec item o e σ st Hok Hst Hfs)
    as (σ' & -> & Hok' & (_ & _ & Hd) & _).
  split; [done|]. simpl. unfold allocated. rewrite <- elem_of_dom, Hd, elem_of_dom. eauto.
Qed.

(** The first round meets a draining shard; in the second, the lighter of two
    shards is busy and the other takes the item. *)
Definition sample_rounds : list round :=
  [mkRound false [("s0"%string, inl 10)] (fun _ => None) (fun _ => None) (Message "") drain_it None;
   mkRound false [("s1"%string, inl 70); ("s2"%string, inl 20)]
     (fun c => if cd_byteSize c =? 20 then Some (Sentinel ErrProcessorBusy) else None)
     (fun _ => None) (Message "") dispatch_it None].

Definition sample_config : Config := mkConfig 5000000000 1000000000 5000000000 100.

Definition sample_request : FlowControlRequest := mkRequest "r" (mkFlowKey "f" 0) 12 None 0 0.

Lemma sample_rounds_ok : Forall others_ok sample_rounds.
Proof.
  apply Forall_cons. split; [|apply Forall_cons; split; [|constructor]]; intros item σ Hok Hal.
  - apply finalize_default_ok; [|done|done]. by apply rejected_ok.
  - by apply finalize_default_ok.
Qed.

Lemma enqueue_and_wait_contract_witness :
  exists σ', EnqueueAndWait sample_config (merge_sort byteSize_le) Background sample_request 100 None sample_rounds
      (mkStore ∅ ∅) = Some (Returned QueueOutcomeDispatched None σ') /\ store_ok σ'.
Proof.
  destruct (enqueue_and_wait_contract sample_config (merge_sort byteSize_le) Background sample_request 100 None
    sample_rounds (mkStore ∅ ∅)) as (r & Hr & Hres);
    [apply merge_sort_Permutation|apply map_Forall_empty|exact sample_rounds_ok|].
  assert (Hobs : (fun r => match r with Pending => None | Returned o e _ => Some (o, e) end) <$>
    EnqueueAndWait sample_config (merge_sort byteSize_le) Background sample_request 100 None sample_rounds (mkStore ∅ ∅)
    = Some (Some (QueueOutcomeDispatched, None))) by (vm_compute; reflexivity).
  rewrite Hr in Hobs. destruct r as [|o e σ']; [discriminate Hobs|]. injection Hobs as -> ->.
  exists σ'. split; [exact Hr|exact (proj2 Hres)].
Defined.

(** Join the shortest queue.  An attempt offers the item to the active
    shards that have the flow's queue, from the one with the fewest bytes on:
    the shard that takes it without blocking is one below which every shard
    refused, and a blocking submission goes to a shard with the fewest bytes,
    after all have refused.  There is no other way for the item to be handed
    over. *)
Theorem distribution_joins_shortest_queue sort shards submit submitOrBlock candidates c :
  (forall l, sort l ≡ₚ l /\ StronglySorted byteSize_le (sort l)) ->
  selectDistributionCandidates sort shards = inl candidates ->
  distributeRequest submit submitOrBlock candidates = Some (inl c) ->
  (exists byteSize, (cd_shardID c, inl byteSize) ∈ shards /\ cd_byteSize c = byteSize) /\
  ((submit c = None /\
    forall c', c' ∈ candidates_of shards -> cd_byteSize c' < cd_byteSize c -> is_Some (submit c')) \/
   (submitOrBlock c = None /\
    forall c', c' ∈ candidates_of shards -> is_Some (submit c') /\ cd_byteSize c <= cd_byteSize c')).
Proof.
  intros Hsort Hsel Hd. destruct (select_nonempty sort (fun l => proj1 (Hsort l)) _ _ Hsel) as [_ Hp].
  assert (Hs : StronglySorted byteSize_le candidates).
  { unfold selectDistributionCandidates in Hsel. destruct shards; [done|].
    destruct (candidates_of _); [done|]. injection Hsel as <-. apply Hsort. }
  assert (Hin : forall c, c ∈ candidates -> exists byteSize, (cd_shardID c, inl byteSize) ∈ shards /\ cd_byteSize c = byteSize).
  { intros c'. rewrite Hp. unfold candidates_of. intros ([id [bytes|err]] & Hsh & He)%list_elem_of_omap; [|done].
    simpl in He. injection He as <-. by exists bytes. }
  setoid_rewrite <- Hp. unfold distributeRequest in Hd. pose proof (submit_first_spec submit candidates) as Hsub.
  destruct (submit_first submit candidates) as [c0|].
  - injection Hd as ->. destruct Hsub as (l1 & l2 & -> & Hc & Hl1).
    split; [apply Hin, elem_of_app; right; left|]. left. split; [done|]. intros c' Hc' Hlt.
    apply elem_of_app in Hc' as [Hc'|[->|Hc']%elem_of_cons]; [by apply Hl1|lia|].
    apply StronglySorted_app_1_r in Hs. inversion Hs as [|? ? _ Hall]; subst.
    rewrite Forall_forall in Hall. specialize (Hall c' Hc'). unfold byteSize_le in Hall. lia.
  - destruct candidates as [|c0 cs]; [done|]. destruct (submitOrBlock c0) eqn:Hb; [done|]. injection Hd as ->.
    split; [apply Hin; left|]. right. split; [done|]. inversion Hs as [|? ? _ Hall]; subst.
    rewrite Forall_forall in Hall. intros c' Hc'. split; [by apply Hsub|].
    apply elem_of_cons in Hc' as [->|Hc']; [lia|by apply Hall].
Qed.

Lemma distribution_joins_shortest_queue_witness :
  exists candidates, selectDistributionCandidates (merge_sort byteSize_le)
      [("s1"%string, inl 70); ("s2"%string, inl 20); ("s3"%string, inr (Message "gone"))] = inl candidates /\
    let submit c := if cd_byteSize c =? 20 then Some (Sentinel ErrProcessorBusy) else None in
    distributeRequest submit (fun _ => None) candidates = Some (inl (mkCandidate "s1" 70)) /\
    is_Some (submit (mkCandidate "s2" 20)).
Proof.
  eexists. split; [vm_compute; reflexivity|]. split; [reflexivity|].
  destruct (distribution_joins_shortest_queue (merge_sort byteSize_le)
    [("s1"%string, inl 70); ("s2"%string, inl 20); ("s3"%string, inr (Message "gone"))]
    (fun c => if cd_byteSize c =? 20 then Some (Sentinel ErrProcessorBusy) else None) (fun _ => None)
    [mkCandidate "s2" 20; mkCandidate "s1" 70] (mkCandidate "s1" 70)) as [_ [[_ H]|[_ H]]].
  - intros l. split; [apply merge_sort_Permutation|]. apply StronglySorted_merge_sort.
    + intros a b c. unfold byteSize_le. lia.
    + intros a b. unfold byteSize_le. lia.
  - vm_compute. reflexivity.
  - reflexivity.
  - apply H; [right; left|reflexivity].
  - apply H. right. left.
Defined.

(** The deadline of a request is the earlier of its TTL and its caller's
    deadline.  When it was the TTL that passed, a queued item that no one
    finalized before is evicted with QueueOutcomeEvictedTTL and an error that
    wraps ErrTTLExpired and ErrEvicted; one not queued yet is rejected with
    ErrTTLExpired and ErrRejected. *)
Theorem ttl_expiry_finalizes config ctx req now reqCtx enq item σ later err cause :
  createRequestContext config ctx req now = (reqCtx, enq) ->
  let ttl := if InitialEffectiveTTL req <=? 0 then DefaultRequestTTL config else InitialEffectiveTTL req in
  0 < ttl -> (forall d, ctx_Deadline ctx = Some d -> now + ttl <= d) ->
  ctx_Done reqCtx None later = Some (err, cause) ->
  store_ok σ -> allocated item σ -> FinalState_of item σ = None ->
  ctx_Deadline reqCtx = Some (now + ttl) /\ now + ttl <= later /\
  exists fs σ', awaitFinalization item (Some cause) σ = Some (Finished fs σ') /\
    let queued := bool_decide (is_Some (Handle item σ)) in
    Outcome fs = (if queued then QueueOutcomeEvictedTTL else QueueOutcomeRejectedOther) /\
    exists e, Err fs = Some e /\ errors_Is e ErrTTLExpired = true /\
      errors_Is e (if queued then ErrEvicted else ErrRejected) = true.
Proof.
  intros Hc ttl Httl Hd Hdone Hok Hal Hfs. unfold createRequestContext in Hc. fold ttl in Hc.
  rewrite (proj2 (Z.ltb_lt _ _) Httl) in Hc. injection Hc as Hctx _.
  assert (Hrc : reqCtx = mkContext (Some (now + ttl)) (Sentinel ErrTTLExpired)).
  { rewrite <- Hctx. unfold WithDeadlineCause. destruct (ctx_Deadline ctx) as [cur|]; [|done].
    specialize (Hd cur eq_refl). by destruct (Z.ltb_spec cur (now + ttl)); [lia|]. }
  subst reqCtx. rewrite Hrc in *. unfold ctx_Done in Hdone. cbn [ctx_Deadline ctx_DeadlineCause] in *.
  destruct (Z.leb_spec (now + ttl) later) as [Hle|]; [|done]. injection Hdone as _ <-.
  split; [done|]. split; [done|].
  destruct (Finalize_ok item (Sentinel ErrTTLExpired) σ Hok Hal) as (σ' & fs & Hrun & _ & Hf & _ & _ & Hinf).
  specialize (Hinf Hfs). exists fs, σ'. unfold awaitFinalization. rewrite Hrun. cbn [mbind option_bind].
  rewrite Hf. cbn [mbind option_bind]. split; [done|].
  destruct (bool_decide (is_Some (Handle item σ))); simpl in Hinf; subst fs; (split; [done|]); by eexists.
Qed.

Lemma ttl_expiry_finalizes_witness :
  exists item σ fs σ', NewItem sample_request 5000000000 100 (mkStore ∅ ∅) = (item, σ) /\
    awaitFinalization item (Some (Sentinel ErrTTLExpired)) σ = Some (Finished fs σ') /\
    Outcome fs = QueueOutcomeRejectedOther.
Proof.
  destruct (NewItem sample_request 5000000000 100 (mkStore ∅ ∅)) as [item σ] eqn:Hnew.
  destruct (NewItem_allocated _ _ _ _ _ _ (map_Forall_empty _) Hnew) as [Hok Hst].
  destruct (ttl_expiry_finalizes sample_config Background sample_request 100
    (mkContext (Some 5000000100) (Sentinel ErrTTLExpired)) 100 item σ 6000000000
    (Sentinel ContextDeadlineExceeded) (Sentinel ErrTTLExpired)) as (_ & _ & fs & σ' & Hw & Ho & _).
  - reflexivity.
  - reflexivity.
  - intros d Hd. discriminate Hd.
  - reflexivity.
  - exact Hok.
  - exists (mkItemState None None [] false false). exact Hst.
  - unfold FinalState_of. rewrite Hst. reflexivity.
  - exists item, σ, fs, σ'. split; [reflexivity|]. split; [exact Hw|]. rewrite Ho.
    unfold Handle. rewrite Hst. reflexivity.
Defined.

(** With no active shard a request is rejected for capacity, but the error
    does not wrap ErrQueueAtCapacity. *)
Theorem capacity_rejection_without_sentinel config ctx req now :
  exists err σ', EnqueueAndWait config (merge_sort byteSize_le) ctx req now None
      [mkRound false [] (fun _ => None) (fun _ => None) (Message "") (fun _ σ => σ) None] (mkStore ∅ ∅) =
      Some (Returned QueueOutcomeRejectedCapacity (Some err) σ') /\
    errors_Is err ErrRejected = true /\ errors_Is err ErrNoShards = true /\ errors_Is err ErrQueueAtCapacity = false.
Proof.
  unfold EnqueueAndWait. destruct (createRequestContext config ctx req now) as [reqCtx enq].
  cbn [distribution_loop rd_parentDone]. unfold tryDistribution. set (ttl := match ctx_Deadline reqCtx with _ => _ end).
  cbn [rd_shards selectDistributionCandidates]. eexists _, _. split; [reflexivity|]. by split_and!.
Qed.
