(* ===== verification/ControllerWorkers.v ===== *)
(** The worker pool of the flow controller: getOrStartWorker,
    reconcileProcessors and shutdown of
    pkg/epp/flowcontrol/controller/controller.go.

    Any number of callers run [getOrStartWorker] beside the reconciliation
    loop.  A worker is a number, given when it is constructed, and belongs to
    the shard [wp_shard] says.  [wp_pending] are constructed and not yet
    offered to the map, [wp_stored] are in it and not yet started.  Each access
    to the [sync.Map] is one step. *)

From S2P Require Import Prelude FlowTypes.

Record pool := mkPool {
  wp_workers : gmap string nat;
  wp_shard : gmap nat string;
  wp_pending : gset nat;
  wp_stored : gset nat;
  wp_started : gset nat;
  wp_cancelled : gset nat;
  wp_deleting : option string
}.

Definition empty_pool : pool := mkPool ∅ ∅ ∅ ∅ ∅ ∅ None.

(** [workers.Load] found nothing: the caller constructs a worker. *)
Definition construct_worker (shardID : string) (p : pool) : option pool :=
  match wp_workers p !! shardID with
  | Some _ => None
  | None =>
      let w := fresh (dom (wp_shard p)) in
      Some (mkPool (wp_workers p) (<[w := shardID]> (wp_shard p)) ({[w]} ∪ wp_pending p) (wp_stored p)
              (wp_started p) (wp_cancelled p) (wp_deleting p))
  end.

(** [workers.LoadOrStore]: the worker is stored, or another is there and its
    context is cancelled. *)
Definition loadOrStore (w : nat) (p : pool) : option pool :=
  if bool_decide (w ∈ wp_pending p)
  then
    shardID ← wp_shard p !! w;
    match wp_workers p !! shardID with
    | Some _ => Some (mkPool (wp_workers p) (wp_shard p) (wp_pending p ∖ {[w]}) (wp_stored p)
                        (wp_started p) ({[w]} ∪ wp_cancelled p) (wp_deleting p))
    | None => Some (mkPool (<[shardID := w]> (wp_workers p)) (wp_shard p) (wp_pending p ∖ {[w]})
                      ({[w]} ∪ wp_stored p) (wp_started p) (wp_cancelled p) (wp_deleting p))
    end
  else None.

(** The winner starts the goroutine of its processor. *)
Definition start_worker (w : nat) (p : pool) : option pool :=
  if bool_decide (w ∈ wp_stored p)
  then Some (mkPool (wp_workers p) (wp_shard p) (wp_pending p) (wp_stored p ∖ {[w]}) ({[w]} ∪ wp_started p)
               (wp_cancelled p) (wp_deleting p))
  else None.

(** One iteration of the reconciliation loop on a stale shard is a cancel and
    then a delete. *)
Definition reconcile_cancel (activeShards : gset string) (shardID : string) (p : pool) : option pool :=
  match wp_deleting p with
  | Some _ => None
  | None =>
      w ← wp_workers p !! shardID;
      if bool_decide (shardID ∈ activeShards) then None
      else Some (mkPool (wp_workers p) (wp_shard p) (wp_pending p) (wp_stored p) (wp_started p)
                   ({[w]} ∪ wp_cancelled p) (Some shardID))
  end.

Definition reconcile_delete (p : pool) : option pool :=
  shardID ← wp_deleting p;
  Some (mkPool (delete shardID (wp_workers p)) (wp_shard p) (wp_pending p) (wp_stored p) (wp_started p)
          (wp_cancelled p) None).

(** One iteration of [shutdown]. *)
Definition shutdown_cancel (shardID : string) (p : pool) : option pool :=
  w ← wp_workers p !! shardID;
  Some (mkPool (wp_workers p) (wp_shard p) (wp_pending p) (wp_stored p) (wp_started p)
          ({[w]} ∪ wp_cancelled p) (wp_deleting p)).

Inductive pool_step : pool -> pool -> Prop :=
  | step_construct id p p' : construct_worker id p = Some p' -> pool_step p p'
  | step_loadOrStore w p p' : loadOrStore w p = Some p' -> pool_step p p'
  | step_start w p p' : start_worker w p = Some p' -> pool_step p p'
  | step_reconcile active id p p' : reconcile_cancel active id p = Some p' -> pool_step p p'
  | step_delete p p' : reconcile_delete p = Some p' -> pool_step p p'
  | step_shutdown id p p' : shutdown_cancel id p = Some p' -> pool_step p p'.

Definition pool_reach : pool -> Prop := rtc pool_step empty_pool.

(** * The invariant *)

(** The workers that were stored, started or about to be. *)
Definition launched (p : pool) : gset nat := wp_started p ∪ wp_stored p.

(** A launched worker whose context is not cancelled. *)
Definition live (p : pool) (w : nat) : Prop := w ∈ launched p /\ w ∉ wp_cancelled p.

Record pool_ok (p : pool) : Prop := {
  pl_map id w : wp_workers p !! id = Some w -> wp_shard p !! w = Some id /\ w ∈ launched p;
  pl_pending : wp_pending p ## launched p /\ wp_pending p ## wp_cancelled p;
  pl_known : wp_pending p ∪ launched p ∪ wp_cancelled p = dom (wp_shard p);
  pl_stored : wp_stored p ## wp_started p;
  pl_live w id : wp_shard p !! w = Some id -> live p w -> wp_workers p !! id = Some w;
  pl_deleting id : wp_deleting p = Some id -> exists w, wp_workers p !! id = Some w /\ w ∈ wp_cancelled p
}.

(** Sets that differ in how [w] is placed. *)
Ltac same_set w :=
  apply set_eq; let x := fresh "x" in intros x;
  let Hne := fresh "Hne" in destruct (decide (x = w)) as [->|Hne]; [|set_solver +Hne].

Lemma empty_pool_ok : pool_ok empty_pool.
Proof.
  split; simpl.
  - intros id w. by rewrite lookup_empty.
  - split; apply disjoint_empty_l.
  - by rewrite dom_empty_L.
  - apply disjoint_empty_l.
  - intros w id. by rewrite lookup_empty.
  - done.
Qed.

Lemma construct_worker_ok id p p' : pool_ok p -> construct_worker id p = Some p' -> pool_ok p'.
Proof.
  intros [Hm [Hp1 Hp2] Hk Hs Hl Hd]. unfold construct_worker. destruct (wp_workers p !! id) eqn:Hw; [done|].
  pose proof (is_fresh (dom (wp_shard p))) as Hf. set (w := fresh _) in *. intros [= <-].
  split; unfold live, launched in *; simpl in *; try done.
  - intros id' w' Hw'. destruct (Hm id' w' Hw') as [H1 H2]. split; [|done]. rewrite lookup_insert_ne; [done|].
    intros <-. apply elem_of_dom_2 in H1. done.
  - split; set_solver +Hp1 Hp2 Hk Hf.
  - rewrite dom_insert_L, <- Hk. set_solver +.
  - intros w' id' Hw' Hlive. rewrite lookup_insert_ne in Hw'; [by apply Hl|].
    destruct Hlive as [Hlive _]. intros Heq. subst w'. set_solver +Hlive Hk Hf.
Qed.

Lemma loadOrStore_ok w p p' : pool_ok p -> loadOrStore w p = Some p' -> pool_ok p'.
Proof.
  intros [Hm [Hp1 Hp2] Hk Hs Hl Hd]. unfold loadOrStore. case_bool_decide as Hw; [|done].
  destruct (wp_shard p !! w) as [id|] eqn:Hid; [|done]. cbn [mbind option_bind].
  destruct (wp_workers p !! id) as [w0|] eqn:Hw0; intros [= <-]; split; unfold live, launched in *; simpl in *; try done.
  - split; [set_solver +Hp1|set_solver +Hp2].
  - rewrite <- Hk. same_set w. set_solver +Hw.
  - intros w' id' Hw' [H1 H2]. apply Hl; [done|]. set_solver +H1 H2.
  - intros id' Hid'. destruct (Hd id' Hid') as (w' & ? & ?). exists w'. set_solver.
  - intros id' w' Hw'. apply lookup_insert_Some in Hw' as [[<- <-]|[_ Hw']]; [set_solver +Hid|].
    destruct (Hm _ _ Hw') as [? H]. split; [done|]. set_solver +H.
  - split; [set_solver +Hp1 Hw|set_solver +Hp2].
  - rewrite <- Hk. same_set w. set_solver +Hw.
  - set_solver +Hs Hp1 Hw.
  - intros w' id' Hw' [H1 H2]. destruct (decide (w' = w)) as [->|Hne].
    + simplify_eq. apply lookup_insert_eq.
    + assert (H3 : wp_workers p !! id' = Some w') by (apply Hl; [done|set_solver +H1 H2 Hne]).
      rewrite lookup_insert_ne; [done|]. intros ->. congruence.
  - intros id' Hid'. destruct (Hd id' Hid') as (w' & H1 & H2). exists w'. split; [|done].
    rewrite lookup_insert_ne; [done|]. intros ->. congruence.
Qed.

Lemma start_worker_ok w p p' : pool_ok p -> start_worker w p = Some p' -> pool_ok p'.
Proof.
  intros [Hm [Hp1 Hp2] Hk Hs Hl Hd]. unfold start_worker. case_bool_decide as Hw; [|done]. intros [= <-].
  assert (Heq : {[w]} ∪ wp_started p ∪ wp_stored p ∖ {[w]} = wp_started p ∪ wp_stored p).
  { same_set w. set_solver +Hw. }
  split; unfold live, launched in *; simpl in *; rewrite ?Heq; try done. set_solver +Hs.
Qed.

(** Cancelling the worker a shard has in the map. *)
Lemma cancel_ok id w deleting p :
  pool_ok p -> wp_workers p !! id = Some w -> (deleting = wp_deleting p \/ deleting = Some id) ->
  pool_ok (mkPool (wp_workers p) (wp_shard p) (wp_pending p) (wp_stored p) (wp_started p)
             ({[w]} ∪ wp_cancelled p) deleting).
Proof.
  intros [Hm [Hp1 Hp2] Hk Hs Hl Hd] Hw Hdel. destruct (Hm _ _ Hw) as [Hsh Hin].
  split; unfold live, launched in *; simpl in *; try done.
  - split; [done|]. set_solver +Hp1 Hp2 Hin.
  - rewrite <- Hk. set_solver +Hin.
  - intros w' id' Hw' [H1 H2]. apply Hl; [done|]. set_solver +H1 H2.
  - intros id' Hid'. destruct Hdel as [-> | ->].
    + destruct (Hd id' Hid') as (w' & ? & Hc). exists w'. split; [done|]. set_solver +Hc.
    + injection Hid' as <-. exists w. split; [done|]. set_solver +.
Qed.

Lemma reconcile_delete_ok p p' : pool_ok p -> reconcile_delete p = Some p' -> pool_ok p'.
Proof.
  intros [Hm [Hp1 Hp2] Hk Hs Hl Hd]. unfold reconcile_delete. destruct (wp_deleting p) as [id|] eqn:Hdel; [|done].
  intros [= <-]. split; unfold live, launched in *; simpl in *; try done.
  - intros id' w' [_ Hw']%lookup_delete_Some. by apply Hm.
  - intros w' id' Hw' Hlive. pose proof (Hl _ _ Hw' Hlive) as Hmap. apply lookup_delete_Some. split; [|done].
    intros <-. destruct (Hd id eq_refl) as (w & Hw & Hc). destruct Hlive as [_ Hn]. congruence.
Qed.

Lemma pool_step_ok p p' : pool_step p p' -> pool_ok p -> pool_ok p'.
Proof.
  intros Hstep Hok. destruct Hstep as [id p p' H|w p p' H|w p p' H|active id p p' H|p p' H|id p p' H].
  - by eapply construct_worker_ok.
  - by eapply loadOrStore_ok.
  - by eapply start_worker_ok.
  - unfold reconcile_cancel in H. destruct (wp_deleting p) eqn:Hd; [done|].
    destruct (wp_workers p !! id) as [w|] eqn:Hw; [|done]. cbn [mbind option_bind] in H.
    case_bool_decide; [done|]. injection H as <-. eapply cancel_ok; [done|done|by right].
  - by eapply reconcile_delete_ok.
  - unfold shutdown_cancel in H. destruct (wp_workers p !! id) as [w|] eqn:Hw; [|done]. injection H as <-.
    eapply cancel_ok; [done|done|by left].
Qed.

Lemma pool_reach_ok p : pool_reach p -> pool_ok p.
Proof.
  intros H. unfold pool_reach in H. assert (Hgen : forall q, rtc pool_step q p -> pool_ok q -> pool_ok p).
  { induction 1; eauto using pool_step_ok. }
  exact (Hgen _ H empty_pool_ok).
Qed.

(** A worker that lost the race stays out. *)
Definition lost (p : pool) (w : nat) : Prop := w ∈ dom (wp_shard p) /\ w ∉ wp_pending p /\ w ∉ launched p.

Lemma lost_step p p' w : pool_step p p' -> lost p w -> lost p' w.
Proof.
  intros Hstep (Hd & Hp & Hl). destruct Hstep as [id p p' H|v p p' H|v p p' H|active id p p' H|p p' H|id p p' H].
  - unfold construct_worker in H. destruct (wp_workers p !! id); [done|]. injection H as <-.
    pose proof (is_fresh (dom (wp_shard p))) as Hf. unfold lost, launched in *. simpl.
    rewrite dom_insert_L. set_solver +Hd Hp Hl Hf.
  - unfold loadOrStore in H. case_bool_decide as Hv; [|done]. destruct (wp_shard p !! v) as [id|]; [|done].
    cbn [mbind option_bind] in H. unfold lost, launched in *.
    destruct (wp_workers p !! id); injection H as <-; simpl; set_solver +Hd Hp Hl Hv.
  - unfold start_worker in H. case_bool_decide as Hv; [|done]. injection H as <-. unfold lost, launched in *.
    simpl. set_solver +Hd Hp Hl Hv.
  - unfold reconcile_cancel in H. destruct (wp_deleting p); [done|]. destruct (wp_workers p !! id); [|done].
    cbn [mbind option_bind] in H. case_bool_decide; [done|]. injection H as <-. done.
  - unfold reconcile_delete in H. destruct (wp_deleting p); [|done]. injection H as <-. done.
  - unfold shutdown_cancel in H. destruct (wp_workers p !! id); [|done]. injection H as <-. done.
Qed.

Lemma lost_never_started p p' w : rtc pool_step p p' -> lost p w -> w ∉ wp_started p'.
Proof.
  intros Hr Hl. assert (lost p' w) as (_ & _ & Hn) by (induction Hr; eauto using lost_step).
  unfold launched in Hn. set_solver +Hn.
Qed.

(** * Properties *)

(** One worker per shard.  However the callers of getOrStartWorker race
    with each other and with the reconciliation, at most one worker of a shard
    is running or about to run with a live context, and it is the one the map
    holds.  A worker that was constructed is still to be offered to the map,
    or launched, or was cancelled and is never started afterwards. *)
Theorem one_live_worker_per_shard p :
  pool_reach p ->
  (forall id w1 w2, wp_shard p !! w1 = Some id -> wp_shard p !! w2 = Some id -> live p w1 -> live p w2 ->
     w1 = w2 /\ wp_workers p !! id = Some w1) /\
  (forall w, w ∈ dom (wp_shard p) -> w ∈ wp_pending p \/ w ∈ launched p \/
     (w ∈ wp_cancelled p /\ forall p', rtc pool_step p p' -> w ∉ wp_started p')).
Proof.
  intros Hr. pose proof (pool_reach_ok p Hr) as [_ _ Hk _ Hl _]. split.
  - intros id w1 w2 H1 H2 L1 L2. pose proof (Hl _ _ H1 L1). pose proof (Hl _ _ H2 L2). split; congruence.
  - intros w Hw. destruct (decide (w ∈ wp_pending p)) as [|Hp]; [by left|].
    destruct (decide (w ∈ launched p)) as [|Hla]; [by right; left|]. right. right. split.
    + rewrite <- Hk in Hw. set_solver +Hw Hp Hla.
    + intros p' Hp'. by eapply lost_never_started.
Qed.

(** Two callers construct a worker for the same shard; the second loses. *)
Definition race (p : pool) : option pool :=
  p ← construct_worker "s0" p; p ← construct_worker "s0" p; p ← loadOrStore 1 p; p ← loadOrStore 0 p; start_worker 1 p.

Lemma one_live_worker_per_shard_witness :
  exists p, race empty_pool = Some p /\ wp_workers p !! "s0"%string = Some 1%nat /\ 0%nat ∈ wp_cancelled p /\
    forall p', rtc pool_step p p' -> 0%nat ∉ wp_started p'.
Proof.
  assert (Hobs : (fun p => (wp_workers p !! "s0"%string, bool_decide (0%nat ∈ wp_cancelled p),
      bool_decide (0%nat ∈ wp_pending p), bool_decide (0%nat ∈ launched p), bool_decide (0%nat ∈ dom (wp_shard p)))) <$>
    race empty_pool = Some (Some 1%nat, true, false, false, true)) by (vm_compute; reflexivity).
  destruct (race empty_pool) as [p|] eqn:Hr; [|discriminate Hobs]. injection Hobs as Hw Hc Hp Hl Hd.
  assert (Hreach : pool_reach p).
  { unfold race in Hr. destruct (construct_worker "s0" empty_pool) as [p1|] eqn:H1; [|discriminate Hr]. cbn [mbind option_bind] in Hr.
    destruct (construct_worker "s0" p1) as [p2|] eqn:H2; [|discriminate Hr]. cbn [mbind option_bind] in Hr.
    destruct (loadOrStore 1 p2) as [p3|] eqn:H3; [|discriminate Hr]. cbn [mbind option_bind] in Hr.
    destruct (loadOrStore 0 p3) as [p4|] eqn:H4; [|discriminate Hr]. cbn [mbind option_bind] in Hr.
    eapply rtc_l; [by eapply step_construct|]. eapply rtc_l; [by eapply step_construct|].
    eapply rtc_l; [by eapply step_loadOrStore|]. eapply rtc_l; [by eapply step_loadOrStore|].
    eapply rtc_once. by eapply step_start. }
  destruct (one_live_worker_per_shard p Hreach) as [_ Hfate]. exists p. split; [reflexivity|].
  split; [exact Hw|]. apply bool_decide_eq_true in Hc, Hd. apply bool_decide_eq_false in Hp, Hl.
  destruct (Hfate 0%nat Hd) as [H|[H|H]]; [destruct (Hp H)|destruct (Hl H)|exact H].
Defined.
