(* ===== verification/Doubles.v ===== *)
(** Doubles: the float64 arithmetic of the saturation detectors and of the
    scheduler, on [spec_float] with 53 bits of precision and exponents up to
    1024, as [SFadd], [SFmul] and [SFdiv] compute it.

    The lemmas cover what the components rely on: integers up to 2^53 convert
    exactly, a quotient of two of them is below one exactly when the dividend is
    below the divisor, and comparison is a strict weak order without NaN. *)

From S2P Require Import Prelude.
From Stdlib Require Export SpecFloat.

Definition prec : Z := 53.
Definition emax : Z := 1024.

Definition f64_add : spec_float -> spec_float -> spec_float := SFadd prec emax.
Definition f64_mul : spec_float -> spec_float -> spec_float := SFmul prec emax.
Definition f64_div : spec_float -> spec_float -> spec_float := SFdiv prec emax.

(** [float64(z)] *)
Definition f64_of_int (z : Z) : spec_float := binary_normalize prec emax z 0 false.

Definition f64_zero : spec_float := S754_zero false.
Definition f64_one : spec_float := S754_finite false 4503599627370496 (-52).

(** The integer part of a finite double, rounded towards zero. *)
Definition f64_trunc (x : spec_float) : option Z :=
  match x with
  | S754_zero _ => Some 0
  | S754_finite s m e =>
      let a := if 0 <=? e then Z.pos m * 2 ^ e else Z.pos m / 2 ^ (- e) in
      Some (if s then - a else a)
  | _ => None
  end.

Definition is_nan (x : spec_float) : bool := match x with S754_nan => true | _ => false end.

(** * Digits *)

Lemma digits2_spec p : 2 ^ (Z.pos (digits2_pos p) - 1) <= Z.pos p < 2 ^ Z.pos (digits2_pos p).
Proof.
  induction p as [p IH|p IH|]; simpl digits2_pos; [| |done];
    rewrite Pos2Z.inj_succ, Z.pow_succ_r by lia;
    replace (Z.succ (Z.pos (digits2_pos p)) - 1) with (Z.succ (Z.pos (digits2_pos p) - 1)) by lia;
    rewrite Z.pow_succ_r by lia; lia.
Qed.

Lemma digits_unique m d : 0 < d -> 2 ^ (d - 1) <= m < 2 ^ d -> Zdigits2 m = d.
Proof.
  intros Hd [H1 H2]. assert (0 < 2 ^ (d - 1)) by (apply Z.pow_pos_nonneg; lia).
  destruct m as [|p|p]; [lia| |lia]. simpl. pose proof (digits2_spec p) as [H3 H4].
  assert (d - 1 < Z.pos (digits2_pos p)) by (apply (Z.pow_lt_mono_r_iff 2); lia).
  assert (Z.pos (digits2_pos p) - 1 < d) by (apply (Z.pow_lt_mono_r_iff 2); lia). lia.
Qed.

Lemma fexp_normal e : -1021 <= e -> fexp prec emax e = e - 53.
Proof. unfold fexp, emin, prec, emax. lia. Qed.

(** * Rounding a mantissa of 53 or 54 bits *)

Definition two52 : Z := 4503599627370496.

(** A mantissa that rounding may have carried to 54 bits. *)
Definition carry (s : bool) (m e : Z) : spec_float :=
  if m =? 2 * two52 then S754_finite s 4503599627370496 (e + 1)
  else S754_finite s (Z.to_pos m) e.

Lemma shr_fexp_53 m e l :
  two52 <= m < 2 * two52 -> -1074 <= e -> shr_fexp prec emax m e l = (shr_record_of_loc m l, e).
Proof.
  intros Hm He. unfold shr_fexp. rewrite (digits_unique m 53) by (unfold two52 in *; lia).
  rewrite fexp_normal by lia. by replace (53 + e - 53 - e) with 0 by lia.
Qed.

Lemma shr_fexp_54 m e l :
  2 * two52 <= m < 4 * two52 -> -1074 <= e ->
  shr_fexp prec emax m e l = (shr_1 (shr_record_of_loc m l), e + 1).
Proof.
  intros Hm He. unfold shr_fexp. rewrite (digits_unique m 54) by (unfold two52 in *; lia).
  rewrite fexp_normal by lia. by replace (54 + e - 53 - e) with 1 by lia.
Qed.

Lemma loc_of_record m l : loc_of_shr_record (shr_record_of_loc m l) = l.
Proof. by destruct l as [|[]]. Qed.

Lemma shr_m_of_loc m l : shr_m (shr_record_of_loc m l) = m.
Proof. by destruct l as [|[]]. Qed.

Lemma round_range m l : m <= round_nearest_even m l <= m + 1.
Proof. destruct l as [|[]]; simpl; [lia|destruct (Z.even m); lia|lia..]. Qed.

(** The second half of [binary_round_aux], after a first shift to 53 bits. *)
Lemma round_53 s m e l :
  two52 <= m < 2 * two52 -> -1074 <= e < 971 ->
  (let '(mrs, e'') := shr_fexp prec emax (round_nearest_even m l) e loc_Exact in
   match shr_m mrs with
   | Z0 => S754_zero s
   | Zpos m => if Z.leb e'' (Z.sub emax prec) then S754_finite s m e'' else S754_infinity s
   | _ => S754_nan
   end) = carry s (round_nearest_even m l) e.
Proof.
  intros Hm He. pose proof (round_range m l) as Hr. unfold carry.
  destruct (Z.eqb_spec (round_nearest_even m l) (2 * two52)) as [->|Hne].
  - rewrite shr_fexp_54 by (unfold two52 in *; lia). simpl.
    by replace (e + 1 <=? emax - prec) with true by (unfold emax, prec; lia).
  - rewrite shr_fexp_53 by lia. rewrite shr_m_of_loc.
    destruct (round_nearest_even m l) as [|p|p]; [unfold two52 in *; lia| |unfold two52 in *; lia].
    by replace (e <=? emax - prec) with true by (unfold emax, prec; lia).
Qed.

Lemma round_aux_53 s m e l :
  two52 <= m < 2 * two52 -> -1074 <= e < 971 ->
  binary_round_aux prec emax s m e l = carry s (round_nearest_even m l) e.
Proof.
  intros Hm He. unfold binary_round_aux. rewrite (shr_fexp_53 m e l) by lia.
  rewrite shr_m_of_loc, loc_of_record. by apply round_53.
Qed.

Lemma round_aux_54 s m e l :
  2 * two52 <= m < 4 * two52 -> -1074 <= e < 970 ->
  exists l', binary_round_aux prec emax s m e l = carry s (round_nearest_even (m / 2) l') (e + 1) /\
    (m mod 2 = 0 -> l = loc_Exact -> l' = loc_Exact).
Proof.
  intros Hm He. unfold binary_round_aux. rewrite (shr_fexp_54 m e l) by lia.
  set (mrs := shr_1 _). assert (shr_m mrs = m / 2 /\ (m mod 2 = 0 -> l = loc_Exact -> loc_of_shr_record mrs = loc_Exact))
    as [-> Hex].
  { unfold mrs. destruct m as [|[p|p|]|p]; try (unfold two52 in *; lia).
    - split; [|intros Hm0; exfalso; pose proof (Z.div_mod (Z.pos p~1) 2); lia].
      replace (Z.pos p~1 / 2) with (Z.pos p) by (apply (Z.div_unique _ _ _ 1); lia). by destruct l as [|[]].
    - replace (Z.pos p~0 / 2) with (Z.pos p) by (apply (Z.div_unique _ _ _ 0); lia).
      split; [by destruct l as [|[]]|by intros _ ->]. }
  exists (loc_of_shr_record mrs). split; [|done]. apply round_53; [|lia].
  pose proof (Z.div_mod m 2). pose proof (Z.mod_pos_bound m 2). unfold two52 in *. lia.
Qed.

(** * Integers *)

Lemma iter_xO p d : Z.pos (Pos.iter xO p d) = Z.pos p * 2 ^ Z.pos d.
Proof.
  induction d as [|d IH] using Pos.peano_ind; [simpl; lia|].
  rewrite Pos.iter_succ, Pos2Z.inj_xO, IH, Pos2Z.inj_succ, Z.pow_succ_r by lia. ring.
Qed.

Lemma digits_shift z :
  0 < z < 2 ^ 53 -> 1 <= Zdigits2 z <= 53 /\ two52 <= z * 2 ^ (53 - Zdigits2 z) < 2 * two52.
Proof.
  intros Hz. destruct z as [|p|p]; [lia| |lia]. cbn [Zdigits2]. pose proof (digits2_spec p) as [H1 H2].
  set (d := Z.pos (digits2_pos p)) in *. assert (1 <= d) by (unfold d; lia).
  assert (d - 1 < 53) by (apply (Z.pow_lt_mono_r_iff 2); lia). split; [lia|].
  assert (0 < 2 ^ (53 - d)) by (apply Z.pow_pos_nonneg; lia).
  assert (2 ^ (d - 1) * 2 ^ (53 - d) = two52) by (rewrite <- Z.pow_add_r by lia; by replace (d - 1 + (53 - d)) with 52 by lia).
  assert (2 ^ d * 2 ^ (53 - d) = 2 * two52) by (rewrite <- Z.pow_add_r by lia; by replace (d + (53 - d)) with 53 by lia).
  nia.
Qed.

Lemma digits_mono x y : 0 < x -> x <= y -> Zdigits2 x <= Zdigits2 y.
Proof.
  destruct x as [|p|p], y as [|q|q]; try lia. intros _ Hle. simpl.
  pose proof (digits2_spec p) as [Hp _]. pose proof (digits2_spec q) as [_ Hq].
  assert (Z.pos (digits2_pos p) - 1 < Z.pos (digits2_pos q)) by (apply (Z.pow_lt_mono_r_iff 2); lia). lia.
Qed.

(** Integers below 2^53 convert exactly, to a mantissa of 53 bits. *)
Lemma f64_of_int_exact z :
  0 < z < 2 ^ 53 ->
  f64_of_int z = S754_finite false (Z.to_pos (z * 2 ^ (53 - Zdigits2 z))) (Zdigits2 z - 53).
Proof.
  intros Hz. pose proof (digits_shift z Hz) as [Hd Hm].
  destruct z as [|p|p]; [lia| |lia]. unfold f64_of_int, binary_normalize, binary_round.
  change (Z.pos (digits2_pos p) + 0) with (Zdigits2 (Z.pos p)). set (d := Zdigits2 (Z.pos p)) in *.
  rewrite fexp_normal by lia. unfold shl_align.
  assert (exists q, Z.pos q = Z.pos p * 2 ^ (53 - d) /\
    match d - 53 - 0 with Zneg t => (Pos.iter xO p t, d - 53) | _ => (p, 0) end = (q, d - 53)) as (q & Hq & ->).
  { destruct (d - 53 - 0) as [|t|t] eqn:E; [|lia|].
    - exists p. replace d with 53 by lia. by rewrite Z.mul_1_r.
    - exists (Pos.iter xO p t). split; [|done]. rewrite iter_xO. do 2 f_equal. lia. }
  rewrite <- Hq in *. rewrite round_aux_53 by lia. unfold carry. simpl round_nearest_even.
  by replace (Z.pos q =? 2 * two52) with false by lia.
Qed.

Lemma f64_trunc_of_int z : 0 <= z < 2 ^ 53 -> f64_trunc (f64_of_int z) = Some z.
Proof.
  intros Hz. destruct (decide (z = 0)) as [->|Hne]; [done|]. rewrite f64_of_int_exact by lia.
  pose proof (digits_shift z ltac:(lia)) as [Hd Hm]. unfold f64_trunc.
  rewrite Z2Pos.id by (unfold two52 in *; lia). case_match eqn:E; f_equal.
  - replace (Zdigits2 z) with 53 by lia. change (53 - 53) with 0. rewrite Z.pow_0_r. lia.
  - replace (- (Zdigits2 z - 53)) with (53 - Zdigits2 z) by lia. apply Z.div_mul.
    apply Z.pow_nonzero; lia.
Qed.

(** * Comparison with one *)

Lemma one_le_carry m e : two52 <= m <= 2 * two52 -> -52 <= e -> SFleb f64_one (carry false m e) = true.
Proof.
  intros Hm He. unfold SFleb, SFcompare, f64_one, carry. destruct (Z.eqb_spec m (2 * two52)).
  - destruct (Z.compare_spec (-52) (e + 1)); [lia|done|lia].
  - destruct (Z.compare_spec (-52) e); [|done|lia].
    change (Pos.compare_cont Eq 4503599627370496 (Z.to_pos m)) with (Pos.compare 4503599627370496 (Z.to_pos m)).
    destruct (Pos.compare_spec 4503599627370496 (Z.to_pos m)) as [| |Hlt]; [done..|].
    apply Pos2Z.pos_lt_pos in Hlt. rewrite Z2Pos.id in Hlt by (unfold two52 in *; lia). unfold two52 in *. lia.
Qed.

Lemma carry_lt_one m e :
  two52 <= m <= 2 * two52 -> e <= -53 -> (e = -53 -> m < 2 * two52) -> SFleb f64_one (carry false m e) = false.
Proof.
  intros Hm He Hx. unfold SFleb, SFcompare, f64_one, carry. destruct (Z.eqb_spec m (2 * two52)).
  - destruct (Z.compare_spec (-52) (e + 1)); [lia|lia|done].
  - destruct (Z.compare_spec (-52) e); [lia|lia|done].
Qed.

(** The quotient of two 53-bit mantissas, before rounding. *)
Lemma div_core m1 e1 m2 e2 :
  two52 <= m1 < 2 * two52 -> two52 <= m2 < 2 * two52 -> -1000 <= e1 - e2 ->
  exists q r l, SFdiv_core_binary prec emax m1 e1 m2 e2 = (q, e1 - e2 - 53, l) /\
    m1 * 2 ^ 53 = m2 * q + r /\ 0 <= r < m2.
Proof.
  intros H1 H2 He. unfold SFdiv_core_binary.
  rewrite (digits_unique m1 53), (digits_unique m2 53) by (unfold two52 in *; lia).
  replace (53 + e1 - (53 + e2)) with (e1 - e2) by lia. rewrite fexp_normal by lia.
  replace (Z.min (e1 - e2 - 53) (e1 - e2)) with (e1 - e2 - 53) by lia.
  replace (e1 - e2 - (e1 - e2 - 53)) with 53 by lia. rewrite Z.shiftl_mul_pow2 by lia.
  pose proof (Z_div_mod (m1 * 2 ^ 53) m2 ltac:(unfold two52 in *; lia)) as Hdm.
  destruct (Z.div_eucl (m1 * 2 ^ 53) m2) as [q r]. destruct Hdm as [Hq Hr]. by exists q, r, (new_location m2 r).
Qed.

Lemma quotient_bounds m1 m2 q r :
  two52 <= m1 < 2 * two52 -> two52 <= m2 < 2 * two52 -> m1 * 2 ^ 53 = m2 * q + r -> 0 <= r < m2 ->
  if decide (m2 <= m1) then 2 * two52 <= q < 4 * two52 else two52 <= q < 2 * two52.
Proof.
  unfold two52. change (2 ^ 53) with 9007199254740992. intros H1 H2 Hq Hr.
  case_decide; split; apply Z.nlt_ge || apply Z.nle_gt; intros Hc; nia.
Qed.

(** A quotient is at least one exactly when the dividend is at least the
    divisor: rounding never crosses one. *)
Lemma f64_div_ge_one x y :
  0 < x < 2 ^ 53 -> 0 < y < 2 ^ 53 -> y <= x ->
  SFleb f64_one (f64_div (f64_of_int x) (f64_of_int y)) = true.
Proof.
  intros Hx Hy Hle. pose proof (digits_shift x Hx) as [Hdx Hmx]. pose proof (digits_shift y Hy) as [Hdy Hmy].
  rewrite !f64_of_int_exact by done. unfold f64_div, SFdiv.
  rewrite !Z2Pos.id by (unfold two52 in *; lia).
  destruct (div_core _ (Zdigits2 x - 53) _ (Zdigits2 y - 53) Hmx Hmy ltac:(lia)) as (q & r & l & -> & Hq & Hr).
  replace (Zdigits2 x - 53 - (Zdigits2 y - 53)) with (Zdigits2 x - Zdigits2 y) by lia.
  assert (Zdigits2 y <= Zdigits2 x) as Hk by (apply digits_mono; lia).
  pose proof (quotient_bounds _ _ _ _ Hmx Hmy Hq Hr) as Hb. case_decide as Hm.
  - destruct (round_aux_54 (xorb false false) q (Zdigits2 x - Zdigits2 y - 53) l) as (l' & -> & _); [lia..|].
    assert (two52 <= q / 2 < 2 * two52)
      by (split; [apply Z.div_le_lower_bound|apply Z.div_lt_upper_bound]; unfold two52 in *; lia).
    pose proof (round_range (q / 2) l'). apply one_le_carry; lia.
  - assert (Zdigits2 x <> Zdigits2 y) as Hne.
    { intros E. rewrite E in Hm. assert (0 < 2 ^ (53 - Zdigits2 y)) by (apply Z.pow_pos_nonneg; lia). nia. }
    rewrite round_aux_53 by lia. pose proof (round_range q l). apply one_le_carry; lia.
Qed.

(** With [k] the difference of the exponents, the scaled dividend stays below
    the divisor by more than the last bit that rounding could carry. *)
Lemma quotient_gap x y a b q r :
  0 < x < y -> y < 2 ^ 53 -> 0 < a -> b = y * a -> x * a * 2 ^ 53 = b * q + r -> 0 <= r -> q < 2 ^ 53 - 1.
Proof.
  change (2 ^ 53) with 9007199254740992. intros Hx Hy Ha -> Hq Hr. apply Z.nle_gt. intros Hc.
  assert (y * a * 9007199254740991 <= x * a * 9007199254740992) by nia.
  assert (y * 9007199254740991 <= x * 9007199254740992) by nia. lia.
Qed.

Lemma f64_div_lt_one x y :
  0 < x < y -> y < 2 ^ 53 -> SFleb f64_one (f64_div (f64_of_int x) (f64_of_int y)) = false.
Proof.
  intros Hx Hy. pose proof (digits_shift x ltac:(lia)) as [Hdx Hmx].
  pose proof (digits_shift y ltac:(lia)) as [Hdy Hmy].
  rewrite !f64_of_int_exact by lia. unfold f64_div, SFdiv.
  rewrite !Z2Pos.id by (unfold two52 in *; lia).
  destruct (div_core _ (Zdigits2 x - 53) _ (Zdigits2 y - 53) Hmx Hmy ltac:(lia)) as (q & r & l & -> & Hq & Hr).
  replace (Zdigits2 x - 53 - (Zdigits2 y - 53)) with (Zdigits2 x - Zdigits2 y) by lia.
  assert (Zdigits2 x <= Zdigits2 y) as Hk by (apply digits_mono; lia).
  assert (forall n, 0 <= n <= 53 -> 0 < 2 ^ n) as Hpos by (intros; apply Z.pow_pos_nonneg; lia).
  pose proof (quotient_bounds _ _ _ _ Hmx Hmy Hq Hr) as Hb. case_decide as Hm.
  - destruct (round_aux_54 (xorb false false) q (Zdigits2 x - Zdigits2 y - 53) l) as (l' & -> & _); [lia..|].
    assert (two52 <= q / 2 < 2 * two52)
      by (split; [apply Z.div_le_lower_bound|apply Z.div_lt_upper_bound]; unfold two52 in *; lia).
    assert (Zdigits2 x <> Zdigits2 y) as Hne.
    { intros E. rewrite E in Hm. specialize (Hpos (53 - Zdigits2 y) ltac:(lia)). nia. }
    pose proof (round_range (q / 2) l'). apply carry_lt_one; [lia..|]. intros E.
    assert (q / 2 < 2 ^ 53 - 1); [|unfold two52; lia].
    replace (53 - Zdigits2 x) with (Z.succ (53 - Zdigits2 y)) in Hq by lia. rewrite Z.pow_succ_r in Hq by lia.
    pose proof (Z.div_mod q 2 ltac:(lia)). pose proof (Z.mod_pos_bound q 2 ltac:(lia)).
    specialize (Hpos (53 - Zdigits2 y) ltac:(lia)). set (a := 2 ^ (53 - Zdigits2 y)) in *.
    apply (quotient_gap x y (2 * a) (y * (2 * a)) _ (y * a * (q mod 2) + r)); [lia|lia|lia|done| |nia].
    rewrite (Z.div_mod q 2) in Hq at 1 by lia. nia.
  - destruct (decide (Zdigits2 x = Zdigits2 y)) as [E|Hne].
    + assert (q < 2 ^ 53 - 1) by (rewrite E in Hq; eapply (quotient_gap x y); [lia|lia| |done|exact Hq|lia]; auto with lia).
      rewrite round_aux_53 by lia. pose proof (round_range q l). apply carry_lt_one; unfold two52 in *; lia.
    + rewrite round_aux_53 by lia. pose proof (round_range q l). apply carry_lt_one; unfold two52 in *; lia.
Qed.

(** * Multiplication by one *)

Lemma shr_52 m :
  iter_pos shr_1 52 {| shr_m := Z.pos (m * 4503599627370496); shr_r := false; shr_s := false |} =
  {| shr_m := Z.pos m; shr_r := false; shr_s := false |}.
Proof. rewrite Pos.mul_comm. reflexivity. Qed.

(** A positive double with a full mantissa, far from the ends of the range. *)
Definition normal (x : spec_float) : Prop :=
  exists m e, x = S754_finite false m e /\ two52 <= Z.pos m < 2 * two52 /\ -1000 <= e <= 900.

Lemma f64_mul_one x : normal x -> f64_mul x f64_one = x.
Proof.
  intros (m & e & -> & Hm & He). unfold f64_mul, SFmul, f64_one. unfold binary_round_aux, shr_fexp at 1.
  rewrite (digits_unique _ 105), fexp_normal by (rewrite ?Pos2Z.inj_mul; unfold two52 in *; lia).
  replace (105 + (e + -52) - 53 - (e + -52)) with 52 by lia. unfold shr, shr_record_of_loc. rewrite shr_52.
  replace (e + -52 + 52) with e by lia. cbn [shr_m loc_of_shr_record].
  rewrite (round_53 _ (Z.pos m) e loc_Exact) by lia. unfold carry. simpl round_nearest_even.
  by replace (Z.pos m =? 2 * two52) with false by lia.
Qed.

Lemma f64_of_int_normal z : 0 < z < 2 ^ 53 -> normal (f64_of_int z).
Proof.
  intros Hz. pose proof (digits_shift z Hz) as [Hd Hm]. rewrite f64_of_int_exact by done.
  eexists _, _. split; [done|]. rewrite Z2Pos.id by (unfold two52 in *; lia). split; [done|lia].
Qed.

Lemma carry_normal m e : two52 <= m <= 2 * two52 -> -1000 <= e < 900 -> normal (carry false m e).
Proof.
  intros Hm He. unfold carry. destruct (Z.eqb_spec m (2 * two52)); eexists _, _; (split; [done|]); [by unfold two52; lia|].
  rewrite Z2Pos.id by (unfold two52 in *; lia). lia.
Qed.

Lemma f64_mul_one_int z : 0 <= z < 2 ^ 53 -> f64_mul (f64_of_int z) f64_one = f64_of_int z.
Proof.
  intros Hz. destruct (decide (z = 0)) as [->|Hne]; [done|]. apply f64_mul_one, f64_of_int_normal. lia.
Qed.

Lemma f64_div_normal x y :
  0 < x < 2 ^ 53 -> 0 < y < 2 ^ 53 -> normal (f64_div (f64_of_int x) (f64_of_int y)).
Proof.
  intros Hx Hy. pose proof (digits_shift x Hx) as [Hdx Hmx]. pose proof (digits_shift y Hy) as [Hdy Hmy].
  rewrite !f64_of_int_exact by done. unfold f64_div, SFdiv.
  rewrite !Z2Pos.id by (unfold two52 in *; lia).
  destruct (div_core _ (Zdigits2 x - 53) _ (Zdigits2 y - 53) Hmx Hmy ltac:(lia)) as (q & r & l & -> & Hq & Hr).
  pose proof (quotient_bounds _ _ _ _ Hmx Hmy Hq Hr) as Hb. case_decide as Hm.
  - edestruct (round_aux_54 (xorb false false) q) as (l' & -> & _); [done|lia|].
    assert (two52 <= q / 2 < 2 * two52)
      by (split; [apply Z.div_le_lower_bound|apply Z.div_lt_upper_bound]; unfold two52 in *; lia).
    pose proof (round_range (q / 2) l'). apply carry_normal; lia.
  - rewrite round_aux_53 by lia. pose proof (round_range q l). apply carry_normal; lia.
Qed.

Lemma f64_div_self x : 0 < x < 2 ^ 53 -> f64_div (f64_of_int x) (f64_of_int x) = f64_one.
Proof.
  intros Hx. pose proof (digits_shift x Hx) as [Hdx Hmx]. rewrite !f64_of_int_exact by done. unfold f64_div, SFdiv.
  rewrite !Z2Pos.id by (unfold two52 in *; lia). set (m := x * _) in *. unfold SFdiv_core_binary.
  rewrite (digits_unique m 53) by (unfold two52 in *; lia). set (e := Zdigits2 x - 53).
  replace (53 + e - (53 + e)) with 0 by lia. replace (e - e) with 0 by lia. change (fexp prec emax 0) with (-53).
  change (Z.min (-53) 0) with (-53). change (0 - -53) with 53. cbv beta iota zeta. rewrite Z.shiftl_mul_pow2 by lia.
  pose proof (Z_div_mod (m * 2 ^ 53) m ltac:(unfold two52 in *; lia)) as Hdm.
  destruct (Z.div_eucl (m * 2 ^ 53) m) as [q r]. destruct Hdm as [Hq Hr].
  destruct (Z.div_mod_unique m q (2 ^ 53) r 0) as [-> ->]; [unfold two52 in *; lia..|].
  replace (new_location m 0) with loc_Exact by (unfold new_location; by case_match). reflexivity.
Qed.

(** * The order *)

(** Doubles without NaN compare as triples of sign class, exponent, mantissa. *)
Definition f64_key (x : spec_float) : Z * Z * Z :=
  match x with
  | S754_zero _ | S754_nan => (0, 0, 0)
  | S754_infinity s => (if s then -2 else 2, 0, 0)
  | S754_finite false m e => (1, e, Z.pos m)
  | S754_finite true m e => (-1, - e, Z.neg m)
  end.

Definition key_ltb (a b : Z * Z * Z) : bool :=
  let '(a1, a2, a3) := a in let '(b1, b2, b3) := b in
  (a1 <? b1) || ((a1 =? b1) && lex_ltb (a2, a3) (b2, b3)).

#[export] Instance key_ltb_StrictWeak : StrictWeak key_ltb.
Proof. split; unfold key_ltb, lex_ltb; intros; repeat case_match; simpl in *; lia. Qed.

Lemma SFltb_key x y : is_nan x = false -> is_nan y = false -> SFltb x y = key_ltb (f64_key x) (f64_key y).
Proof.
  destruct x as [s|s| |s m e], y as [t|t| |t n f]; try done; intros _ _; try (by destruct s, t || by destruct s || by destruct t).
  unfold SFltb, SFcompare. destruct s, t; try done; unfold key_ltb, lex_ltb; simpl;
    change (Pos.compare_cont Eq m n) with (Pos.compare m n);
    destruct (Z.compare_spec e f); subst; simpl; try (destruct (Pos.compare_spec m n); simpl);
    symmetry; repeat case_match; simpl in *; subst; rewrite <- ?Pos2Z.opp_pos; lia.
Qed.

Definition nan_free (l : list spec_float) : Prop := Forall (fun x => is_nan x = false) l.

(** A comparison that is a strict weak order on the elements of a list, which
    is what the sort functions of the standard library ask for. *)
Record weak_on {A} (less : A -> A -> bool) (l : list A) : Prop := {
  wo_irrefl x : x ∈ l -> less x x = false;
  wo_trans x y z : x ∈ l -> y ∈ l -> z ∈ l -> less x y = true -> less y z = true -> less x z = true;
  wo_incomp x y z : x ∈ l -> y ∈ l -> z ∈ l -> less x y = false -> less y z = false -> less x z = false
}.

(** What [sort.Slice] and [slices.SortStableFunc] promise of a comparison. *)
Definition sorts_by {A} (less : A -> A -> bool) (sort : list A -> list A) : Prop :=
  forall l, sort l ≡ₚ l /\ (weak_on less l -> StronglySorted (fun a b => less b a = false) (sort l)).

Lemma weak_on_f64 {A} (f : A -> spec_float) l :
  nan_free (f <$> l) -> weak_on (fun a b => SFltb (f b) (f a)) l.
Proof.
  unfold nan_free. rewrite Forall_fmap, Forall_forall. intros Hn.
  assert (forall a b, a ∈ l -> b ∈ l -> SFltb (f b) (f a) = flip key_ltb (f64_key (f a)) (f64_key (f b))) as E
    by (intros; apply SFltb_key; by apply Hn).
  split; intros.
  - rewrite E by done. apply sw_irrefl.
  - rewrite E in * by done. by eapply sw_trans.
  - rewrite E in * by done. by eapply sw_incomp.
Qed.
