(* ===== verification/InFlight.v ===== *)
(** The in-flight load producer
    (src/pkg/epp/framework/plugins/requestcontrol/requestdataproducer/inflightload):
    counters of requests and estimated tokens per endpoint, updated by the hooks
    of many requests at once.

    A counter is a pointer into a store, because [add] fetches it under the read
    lock and changes it after releasing the lock.  Each critical section and
    each atomic operation is one step of a goroutine. *)

From S2P Require Import Prelude Doubles.

(** * The tracker *)

Record concurrencyTracker := { counts : gmap string nat; counters : gmap nat Z }.

Definition newConcurrencyTracker : concurrencyTracker := {| counts := ∅; counters := ∅ |}.

Definition get (ct : concurrencyTracker) (endpointID : string) : Z :=
  match counts ct !! endpointID with
  | None => 0
  | Some counter => default 0 (counters ct !! counter)
  end.

(** [counter.Add(delta)] *)
Definition counter_Add (counter : nat) (delta : Z) (ct : concurrencyTracker) : option concurrencyTracker :=
  v ← counters ct !! counter;
  Some {| counts := counts ct; counters := <[counter := i64 (v + delta)]> (counters ct) |}.

(** The critical section of [add], which looks again. *)
Definition add_locked (endpointID : string) (delta : Z) (ct : concurrencyTracker) : option concurrencyTracker :=
  match counts ct !! endpointID with
  | Some counter => counter_Add counter delta ct
  | None =>
      let counter := fresh (dom (counters ct)) in
      Some {| counts := <[endpointID := counter]> (counts ct);
              counters := <[counter := i64 delta]> (counters ct) |}
  end.

(** [add] after its first look-up found [found]. *)
Definition add_found (found : option nat) (endpointID : string) (delta : Z) (ct : concurrencyTracker)
    : option concurrencyTracker :=
  match found with
  | Some counter => counter_Add counter delta ct
  | None => add_locked endpointID delta ct
  end.

Definition tracker_delete (endpointID : string) (ct : concurrencyTracker) : concurrencyTracker :=
  {| counts := delete endpointID (counts ct); counters := counters ct |}.

(** * Token estimation *)

Section Estimator.

(** A decoded JSON value and [json.Marshal] of it, as a string; the error is
    discarded and leaves no bytes. *)
Variable V : Type.
Variable Marshal : V -> string.

Record ContentBlock := { cb_Type : string; cb_Text : string }.

Record Content := { mc_Raw : string; mc_Structured : list ContentBlock }.

Inductive ResponsesInput :=
  | InputString (s : string)
  | InputOther (v : V).

(** The API a body belongs to, in the order the cases are tried. *)
Record LLMRequestBody := {
  Completions : option (string * list string);
  ChatCompletions : option (list Content);
  Responses : option ResponsesInput;
  Conversations : option V
}.

Record LLMRequest := { RequestSizeBytes : Z; Body : option LLMRequestBody }.

Definition Content_PlainText (mc : Content) : string :=
  if String.eqb (mc_Raw mc) EmptyString
  then foldl (fun sb block => if String.eqb (cb_Type block) "text" then sb +:+ cb_Text block +:+ " " else sb)
         EmptyString (mc_Structured mc)
  else mc_Raw mc.

(** [strings.Join(l, " ")] *)
Fixpoint join_space (l : list string) : string :=
  match l with
  | [] => EmptyString
  | [s] => s
  | s :: l => s +:+ " " +:+ join_space l
  end.

Definition Prompt_PlainText (raw : string) (strs : list string) : string :=
  if String.eqb raw EmptyString then join_space strs else raw.

Definition PromptText (r : LLMRequestBody) : string :=
  match Completions r, ChatCompletions r, Responses r, Conversations r with
  | Some (raw, strs), _, _, _ => Prompt_PlainText raw strs
  | None, Some messages, _, _ =>
      foldl (fun sb msg => let text := Content_PlainText msg in
                           if String.eqb text EmptyString then sb else sb +:+ text +:+ " ") EmptyString messages
  | None, None, Some (InputString s), _ => s
  | None, None, Some (InputOther v), _ => Marshal v
  | None, None, None, Some items => Marshal items
  | None, None, None, None => EmptyString
  end.

Record SimpleTokenEstimator := { CharactersPerToken : spec_float; OutputRatio : spec_float }.

(** 4.0 and 1.5 *)
Definition NewSimpleTokenEstimator : SimpleTokenEstimator :=
  {| CharactersPerToken := S754_finite false 4503599627370496 (-50);
     OutputRatio := S754_finite false 6755399441055744 (-52) |}.

(** [math.Round] of a finite double, half away from zero, as an integer. *)
Definition f64_round (x : spec_float) : option Z :=
  match x with
  | S754_zero _ => Some 0
  | S754_finite s m e =>
      let a := if 0 <=? e then Z.pos m * 2 ^ e else (2 * Z.pos m / 2 ^ (- e) + 1) / 2 in
      Some (if s then - a else a)
  | _ => None
  end.

(** [None] stands for the conversion of a double that is not finite. *)
Definition Estimate (e : SimpleTokenEstimator) (request : option LLMRequest) : option Z :=
  match request with
  | None => Some 0
  | Some request =>
      let outputs inputTokens :=
        outputTokens ← f64_round (f64_mul (f64_of_int inputTokens) (OutputRatio e));
        Some (i64 (inputTokens + outputTokens)) in
      if 0 <? RequestSizeBytes request then outputs (Z.max (RequestSizeBytes request / 4) 1)
      else
        match Body request with
        | None => Some 0
        | Some body =>
            let chars := Z.of_nat (String.length (PromptText body)) in
            r ← f64_round (f64_div (f64_of_int chars) (CharactersPerToken e));
            outputs (Z.max 1 r)
        end
  end.

End Estimator.

(** * The producer *)

Record InFlightLoadProducer := {
  requestTracker : concurrencyTracker;
  tokenTracker : concurrencyTracker
}.

Definition InFlightLoadProducerFactory : InFlightLoadProducer :=
  {| requestTracker := newConcurrencyTracker; tokenTracker := newConcurrencyTracker |}.

Record InFlightLoad := { Tokens : Z; Requests : Z }.

(** The attribute put on each endpoint. *)
Definition PrepareRequestData (p : InFlightLoadProducer) (endpoints : list string) : list (string * InFlightLoad) :=
  (fun endpointID => (endpointID, {| Tokens := get (tokenTracker p) endpointID;
                                     Requests := get (requestTracker p) endpointID |})) <$> endpoints.

(** What a hook does to the trackers, one call after the other. *)
Inductive which := InRequests | InTokens.

Inductive call :=
  | CAdd (w : which) (endpointID : string) (delta : Z)
  | CDelete (w : which) (endpointID : string).

#[export] Instance which_eq_dec : EqDecision which.
Proof. solve_decision. Defined.

Definition tracker (w : which) (p : InFlightLoadProducer) : concurrencyTracker :=
  match w with InRequests => requestTracker p | InTokens => tokenTracker p end.

Definition set_tracker (w : which) (ct : concurrencyTracker) (p : InFlightLoadProducer) : InFlightLoadProducer :=
  match w with
  | InRequests => {| requestTracker := ct; tokenTracker := tokenTracker p |}
  | InTokens => {| requestTracker := requestTracker p; tokenTracker := ct |}
  end.

(** A target endpoint that is nil or has no metadata is [None]. *)
Record SchedulingResult := {
  ProfileResults : gmap string (option (list (option string)));
  PrimaryProfileName : string
}.

Section Hooks.

(** The [TokenEstimator] interface. *)
Context {R : Type} (estimate : R -> Z).

Definition PreRequest (request : R) (result : option SchedulingResult) : list call :=
  match result with
  | None => []
  | Some result =>
      match ProfileResults result !! PrimaryProfileName result with
      | None | Some None => []
      | Some (Some targets) =>
          concat ((fun endpoint =>
            match endpoint with
            | None => []
            | Some eid => [CAdd InRequests eid 1; CAdd InTokens eid (estimate request)]
            end) <$> targets)
      end
  end.

(** [resp] is nil or says whether the stream ended. *)
Definition ResponseBody (request : R) (resp : option bool) (targetEndpoint : option string) : list call :=
  match targetEndpoint, resp with
  | Some eid, Some true => [CAdd InRequests eid (-1); CAdd InTokens eid (i64 (- estimate request))]
  | _, _ => []
  end.

Definition DeleteEndpoint (endpointID : string) : list call :=
  [CDelete InRequests endpointID; CDelete InTokens endpointID].

Inductive EventType := EventAddOrUpdate | EventDelete.

Definition ExtractNotification (type : EventType) (object : option string) : list call :=
  match type, object with
  | EventDelete, Some id => DeleteEndpoint id
  | _, _ => []
  end.

Inductive hook :=
  | HPreRequest (request : R) (result : option SchedulingResult)
  | HResponseBody (request : R) (resp : option bool) (targetEndpoint : option string)
  | HNotification (type : EventType) (object : option string).

Definition hook_calls (h : hook) : list call :=
  match h with
  | HPreRequest request result => PreRequest request result
  | HResponseBody request resp target => ResponseBody request resp target
  | HNotification type object => ExtractNotification type object
  end.

(** * Hooks at once *)

(** The calls a goroutine has still to make; [g_found] is the result of the
    first look-up of the [add] it is in. *)
Record goroutine := { g_calls : list call; g_found : option (option nat) }.

Definition go_step (g : goroutine) (p : InFlightLoadProducer) : option (goroutine * InFlightLoadProducer) :=
  match g_calls g with
  | [] => None
  | CDelete w id :: rest =>
      Some ({| g_calls := rest; g_found := None |}, set_tracker w (tracker_delete id (tracker w p)) p)
  | CAdd w id delta :: rest =>
      match g_found g with
      | None => Some ({| g_calls := g_calls g; g_found := Some (counts (tracker w p) !! id) |}, p)
      | Some found =>
          ct ← add_found found id delta (tracker w p);
          Some ({| g_calls := rest; g_found := None |}, set_tracker w ct p)
      end
  end.

Record sys := { s_producer : InFlightLoadProducer; s_running : list goroutine }.

Inductive event :=
  | EStart (h : hook)
  | EStep (i : nat).

Definition sys_exec (s : sys) (e : event) : option sys :=
  match e with
  | EStart h => Some {| s_producer := s_producer s;
                        s_running := s_running s ++ [{| g_calls := hook_calls h; g_found := None |}] |}
  | EStep i =>
      g ← s_running s !! i;
      '(g', p') ← go_step g (s_producer s);
      Some {| s_producer := p'; s_running := <[i := g']> (s_running s) |}
  end.

Definition sys_init : sys := {| s_producer := InFlightLoadProducerFactory; s_running := [] |}.

Definition sys_run (events : list event) : option sys := ofold sys_exec events sys_init.

End Hooks.
