(* ===== verification/InFlightProps.v ===== *)
(** The in-flight load producer: however the hooks of many requests interleave,
    the counters are exact once the hooks have run, and so count the requests in
    flight at each endpoint. *)

From S2P Require Import Prelude Doubles InFlight.

(** What a call adds to the counter of an endpoint. *)
Definition call_delta (w : which) (id : string) (c : call) : Z :=
  match c with
  | CAdd w' id' delta => if decide (w' = w /\ id' = id) then delta else 0
  | CDelete _ _ => 0
  end.

Definition calls_delta (w : which) (id : string) (cs : list call) : Z := sumZ (call_delta w id) cs.

Definition is_add (c : call) : bool := match c with CAdd _ _ _ => true | CDelete _ _ => false end.

(** * One tracker *)

Record tracker_ok (ct : concurrencyTracker) : Prop := {
  tk_counter id c : counts ct !! id = Some c -> is_Some (counters ct !! c);
  tk_inj id1 id2 c : counts ct !! id1 = Some c -> counts ct !! id2 = Some c -> id1 = id2
}.

(** [ct'] is [ct] with [delta] more for [id], and no counter replaced. *)
Record added (id : string) (delta : Z) (ct ct' : concurrencyTracker) : Prop := {
  ad_ok : tracker_ok ct';
  ad_keeps id' c : counts ct !! id' = Some c -> counts ct' !! id' = Some c;
  ad_get id' : get ct' id' = i64 (get ct id' + if decide (id = id') then delta else 0)
}.

(** Values stay in the width of their counter. *)
Definition tracker_i64 (ct : concurrencyTracker) : Prop := map_Forall (fun _ v => is_i64 v) (counters ct).

Lemma get_i64 ct id : tracker_i64 ct -> is_i64 (get ct id).
Proof.
  intros Hw. unfold get. destruct (counts ct !! id) as [c|]; [|done].
  destruct (counters ct !! c) as [v|] eqn:E; [|done]. by apply (Hw c).
Qed.

Lemma counter_Add_ok id c delta ct :
  tracker_ok ct -> tracker_i64 ct -> counts ct !! id = Some c ->
  exists ct', counter_Add c delta ct = Some ct' /\ added id delta ct ct' /\ tracker_i64 ct'.
Proof.
  intros Hok Hw Hc. destruct (tk_counter _ Hok id c Hc) as [v Hv]. unfold counter_Add. rewrite Hv.
  eexists. split; [done|]. split.
  - split; [split| |]; simpl.
    + intros id' c' Hc'. rewrite lookup_insert_is_Some'. right. by eapply tk_counter.
    + apply (tk_inj _ Hok).
    + done.
    + intros id'. pose proof (get_i64 ct id' Hw) as Hr. unfold get in *. simpl.
      destruct (counts ct !! id') as [c'|] eqn:E; case_decide as Hid; subst; simplify_eq.
      * by rewrite lookup_insert_eq, Hv.
      * rewrite lookup_insert_ne, Z.add_0_r, i64_id; [done|done|].
        intros ->. by destruct Hid; eapply tk_inj.
      * done.
  - apply map_Forall_insert_2; [apply i64_range|done].
Qed.

Lemma add_locked_ok id delta ct :
  tracker_ok ct -> tracker_i64 ct ->
  exists ct', add_locked id delta ct = Some ct' /\ added id delta ct ct' /\ tracker_i64 ct'.
Proof.
  intros Hok Hw. unfold add_locked. destruct (counts ct !! id) as [c|] eqn:Hc; [by apply counter_Add_ok|].
  pose proof (is_fresh (dom (counters ct))) as Hf. set (c := fresh _) in *.
  assert (forall id' c', counts ct !! id' = Some c' -> c' <> c) as Hne.
  { intros id' c' Hc' ->. apply Hf, elem_of_dom. by eapply tk_counter. }
  eexists. split; [done|]. split; [split; [split| |]|]; simpl.
  - intros id' c' [[_ <-]|[_ Hc']]%lookup_insert_Some; [by rewrite lookup_insert_eq|].
    rewrite lookup_insert_ne; [by eapply tk_counter|]. intros <-. by eapply Hne.
  - intros id1 id2 c' [[<- <-]|[_ H1]]%lookup_insert_Some [[<- E]|[_ H2]]%lookup_insert_Some; [done|..].
    + by destruct (Hne _ _ H2).
    + subst. by destruct (Hne _ _ H1).
    + by eapply tk_inj.
  - intros id' c' Hc'. rewrite lookup_insert_ne; [done|]. intros ->. congruence.
  - intros id'. pose proof (get_i64 ct id' Hw) as Hr. unfold get in *. simpl. case_decide as Hid; subst.
    + by rewrite lookup_insert_eq, Hc, lookup_insert_eq.
    + rewrite lookup_insert_ne, Z.add_0_r, (i64_id _ Hr) by done. destruct (counts ct !! id') as [c'|] eqn:E; [|done].
      rewrite lookup_insert_ne; [done|]. intros <-. by eapply Hne.
  - apply map_Forall_insert_2; [apply i64_range|done].
Qed.

(** * All goroutines *)

Section Run.
Context {R : Type} (estimate : R -> Z).

(** A goroutine that makes no deletion, and whose look-up is still current. *)
Definition go_ok (p : InFlightLoadProducer) (g : goroutine) : Prop :=
  Forall (fun c => is_add c = true) (g_calls g) /\
  match g_calls g, g_found g with
  | CAdd w id _ :: _, Some (Some c) => counts (tracker w p) !! id = Some c
  | _, _ => True
  end.

Definition remaining (w : which) (id : string) (gs : list goroutine) : Z :=
  sumZ (fun g => calls_delta w id (g_calls g)) gs.

(** [total] is what all the calls started so far add up to. *)
Record sys_ok (total : which -> string -> Z) (s : sys) : Prop := {
  so_tracker w : tracker_ok (tracker w (s_producer s)) /\ tracker_i64 (tracker w (s_producer s));
  so_running : Forall (go_ok (s_producer s)) (s_running s);
  so_exact w id : get (tracker w (s_producer s)) id = i64 (total w id - remaining w id (s_running s))
}.

Lemma tracker_set w w' ct p : tracker w' (set_tracker w ct p) = if decide (w = w') then ct else tracker w' p.
Proof. by destruct w, w'. Qed.

Lemma sumZ_insert {A} (f : A -> Z) l i x y :
  l !! i = Some x -> sumZ f (<[i := y]> l) = sumZ f l - f x + f y.
Proof.
  revert i. induction l as [|z l IH]; intros [|i] Hi; try done; simpl in *.
  - simplify_eq. lia.
  - rewrite IH by done. lia.
Qed.

Lemma go_ok_mono p p' g :
  (forall w id c, counts (tracker w p) !! id = Some c -> counts (tracker w p') !! id = Some c) ->
  go_ok p g -> go_ok p' g.
Proof.
  intros Hk [Ha Hf]. split; [done|]. destruct (g_calls g) as [|[w id d|]]; [done| |done].
  destruct (g_found g) as [[c|]|]; [by apply Hk|done..].
Qed.

Lemma added_get w w' id id' delta p ct' :
  tracker_i64 (tracker w' p) -> added id delta (tracker w p) ct' ->
  get (tracker w' (set_tracker w ct' p)) id' = i64 (get (tracker w' p) id' + call_delta w' id' (CAdd w id delta)).
Proof.
  intros Hw Had. rewrite tracker_set. unfold call_delta. destruct (decide (w = w')) as [<-|Hne].
  - rewrite (ad_get _ _ _ _ Had). f_equal. f_equal. repeat case_decide; tauto.
  - rewrite decide_False by tauto. rewrite Z.add_0_r, i64_id; [done|by apply get_i64].
Qed.

(** A step of a goroutine never fails while it has calls to make. *)
Lemma go_step_ok total s i g :
  sys_ok total s -> s_running s !! i = Some g -> g_calls g <> [] ->
  exists g' p', go_step g (s_producer s) = Some (g', p') /\
    sys_ok total {| s_producer := p'; s_running := <[i := g']> (s_running s) |}.
Proof.
  intros Hok Hi Hne. pose proof (Forall_lookup_1 _ _ _ _ (so_running _ _ Hok) Hi) as [Ha Hf].
  unfold go_step. destruct (g_calls g) as [|[w id delta|w id] rest] eqn:Hcs; [done| |by apply Forall_cons in Ha as [? _]].
  destruct (g_found g) as [found|] eqn:Hg.
  - assert (exists ct', add_found found id delta (tracker w (s_producer s)) = Some ct' /\
      added id delta (tracker w (s_producer s)) ct' /\ tracker_i64 ct') as (ct' & -> & [Hct Hkeep Hget] & Hw).
    { destruct (so_tracker _ _ Hok w). destruct found; [by apply counter_Add_ok|by apply add_locked_ok]. }
    eexists _, _. split; [done|]. split; simpl.
    + intros w'. rewrite tracker_set. case_decide; [done|apply (so_tracker _ _ Hok)].
    + apply Forall_insert; [|by apply Forall_cons in Ha as [_ Ha]; split; [|destruct rest as [|[]]]].
      eapply Forall_impl; [apply (so_running _ _ Hok)|]. intros g' Hg'. eapply go_ok_mono; [|done].
      intros w' id' c. rewrite tracker_set. case_decide; [|done]. subst. apply Hkeep.
    + intros w' id'. rewrite (added_get w w' id id' delta) by (done || apply (so_tracker _ _ Hok)).
      rewrite (so_exact _ _ Hok), i64_add_l. unfold remaining. rewrite (sumZ_insert _ _ _ g) by done.
      rewrite Hcs. cbn [g_calls].
      unfold calls_delta. rewrite sumZ_cons. f_equal. lia.
  - eexists _, _. split; [done|]. split; simpl; [apply (so_tracker _ _ Hok)|..].
    + apply Forall_insert; [apply (so_running _ _ Hok)|]. split; simpl; [done|].
      by destruct (counts _ !! id) eqn:E.
    + intros w' id'. rewrite (so_exact _ _ Hok). unfold remaining.
      rewrite (sumZ_insert _ _ _ g) by done. cbn [g_calls]. rewrite Hcs. f_equal. lia.
Qed.

(** * Runs *)

Definition started (events : list (event (R := R))) : list hook :=
  concat (map (fun e => match e with EStart h => [h] | EStep _ => [] end) events).

(** What the calls of the hooks [hs] add up to. *)
Definition hooks_delta (hs : list hook) (w : which) (id : string) : Z :=
  sumZ (fun h => calls_delta w id (hook_calls estimate h)) hs.

Definition no_deletion (hs : list (hook (R := R))) : Prop :=
  Forall (fun h => Forall (fun c => is_add c = true) (hook_calls estimate h)) hs.

(** All hooks that were started have returned. *)
Definition quiet (s : sys) : Prop := Forall (fun g => g_calls g = []) (s_running s).

Lemma sys_ok_start total s h :
  Forall (fun c => is_add c = true) (hook_calls estimate h) -> sys_ok total s ->
  sys_ok (fun w id => total w id + calls_delta w id (hook_calls estimate h))
    {| s_producer := s_producer s; s_running := s_running s ++ [{| g_calls := hook_calls estimate h; g_found := None |}] |}.
Proof.
  intros Hadd [Ht Hr He]. split; simpl; [done|..].
  - apply Forall_app. split; [done|]. apply Forall_singleton. split; simpl; [done|].
    by destruct (hook_calls estimate h) as [|[]].
  - intros w id. rewrite He. unfold remaining. rewrite sumZ_app. simpl. f_equal. lia.
Qed.

Lemma inflight_exec_ok total s e s' :
  no_deletion (started [e]) -> sys_ok total s -> sys_exec estimate s e = Some s' ->
  sys_ok (fun w id => total w id + hooks_delta (started [e]) w id) s'.
Proof.
  intros Hnd Hok. unfold hooks_delta. destruct e as [h|i]; cbn -[hook_calls go_step].
  - intros [= <-]. apply Forall_cons in Hnd as [Hadd _]. pose proof (sys_ok_start total s h Hadd Hok) as [? ? He].
    split; [done..|]. intros w id. rewrite He. f_equal. simpl. lia.
  - destruct (s_running s !! i) as [g|] eqn:Hi; [|done]. cbn [mbind option_bind].
    destruct (decide (g_calls g = [])) as [Hg|Hg]; [unfold go_step; by rewrite Hg|].
    destruct (go_step_ok total s i g Hok Hi Hg) as (g' & p' & -> & [? ? He]). intros [= <-].
    split; [done..|]. intros w id. by rewrite He, Z.add_0_r.
Qed.

Lemma run_ok events : forall total s s',
  no_deletion (started events) -> sys_ok total s -> ofold (sys_exec estimate) events s = Some s' ->
  sys_ok (fun w id => total w id + hooks_delta (started events) w id) s'.
Proof.
  induction events as [|e events IH]; intros total s s' Hnd Hok.
  - intros [= <-]. destruct Hok as [? ? He]. split; [done..|]. intros w id. by rewrite He, Z.add_0_r.
  - cbn [ofold mbind option_bind]. intros Hrun. destruct (sys_exec estimate s e) as [s1|] eqn:E; [|done].
    assert (started (e :: events) = started [e] ++ started events) as Hst
      by (unfold started; cbn [map concat]; by rewrite app_nil_r).
    rewrite Hst in *. apply Forall_app in Hnd as [Hnd1 Hnd2].
    destruct (IH _ _ _ Hnd2 (inflight_exec_ok _ _ _ _ Hnd1 Hok E) Hrun) as [? ? He]. split; [done..|].
    intros w id. rewrite He. unfold hooks_delta. rewrite sumZ_app. f_equal. lia.
Qed.

Lemma sys_init_ok : sys_ok (fun _ _ => 0) sys_init.
Proof.
  split; simpl; [|done|by intros []]. intros w. split; [split|]; destruct w; intros *; simpl; by rewrite ?lookup_empty.
Qed.

Lemma run_exact events s w id :
  sys_run estimate events = Some s -> no_deletion (started events) -> quiet s ->
  get (tracker w (s_producer s)) id = i64 (hooks_delta (started events) w id).
Proof.
  intros Hrun Hnd Hq. destruct (run_ok events _ _ _ Hnd sys_init_ok Hrun) as [_ _ He]. rewrite He.
  unfold remaining. rewrite sumZ_zero; [f_equal; lia|]. intros g Hg. unfold quiet in Hq.
  rewrite Forall_forall in Hq. by rewrite (Hq g Hg).
Qed.

(** * Progress *)

(** The steps the hooks that are running have still to make. *)
Definition work (g : goroutine) : Z :=
  2 * Z.of_nat (length (g_calls g)) - match g_found g with Some _ => 1 | None => 0 end.

Definition sys_work (s : sys) : Z := sumZ work (s_running s).

Lemma step_progress total s i g :
  sys_ok total s -> s_running s !! i = Some g -> g_calls g <> [] ->
  exists s', sys_exec estimate s (EStep i) = Some s' /\ sys_work s' < sys_work s.
Proof.
  intros Hok Hi Hne. destruct (go_step_ok total s i g Hok Hi Hne) as (g' & p' & Hs & _).
  cbn -[go_step]. rewrite Hi. cbn [mbind option_bind]. rewrite Hs. eexists. split; [done|].
  unfold sys_work. cbn [s_running]. rewrite (sumZ_insert _ _ _ g) by done.
  assert (work g' < work g); [|lia]. revert Hs. unfold go_step, work.
  destruct (g_calls g) as [|[w id d|w id] rest]; [done|..].
  - destruct (g_found g) as [found|]; [|intros [= <- <-]; simpl; lia].
    destruct (add_found _ _ _ _); [|done]. intros [= <- <-]. simpl. lia.
  - intros [= <- <-]. simpl. destruct (g_found g); lia.
Qed.

(** * Requests in flight *)

(** A request that was sent to one endpoint, the chunks of its response so far,
    and whether the response has ended. *)
Record flight := {
  fl_request : R; fl_profile : string; fl_target : string; fl_chunks : nat; fl_ended : bool
}.

Definition flight_hooks (fl : flight) : list hook :=
  HPreRequest (fl_request fl)
    (Some {| ProfileResults := {[ fl_profile fl := Some [Some (fl_target fl)] ]};
             PrimaryProfileName := fl_profile fl |})
  :: replicate (fl_chunks fl) (HResponseBody (fl_request fl) (Some false) (Some (fl_target fl)))
  ++ (if fl_ended fl then [HResponseBody (fl_request fl) (Some true) (Some (fl_target fl))] else []).

Definition flying (id : string) (fls : list flight) : list flight :=
  filter (fun fl => fl_target fl = id /\ fl_ended fl = false) fls.

(** What a request counts for. *)
Definition amount (w : which) (request : R) : Z :=
  match w with InRequests => 1 | InTokens => estimate request end.

Lemma i64_add_congr a a' b b' : i64 a = i64 a' -> i64 b = i64 b' -> i64 (a + b) = i64 (a' + b').
Proof. intros Ha Hb. by rewrite <- i64_add_l, Ha, i64_add_l, <- i64_add_r, Hb, i64_add_r. Qed.

Lemma flight_calls fl :
  concat (map (hook_calls estimate) (flight_hooks fl)) =
  [CAdd InRequests (fl_target fl) 1; CAdd InTokens (fl_target fl) (estimate (fl_request fl))] ++
  if fl_ended fl
  then [CAdd InRequests (fl_target fl) (-1); CAdd InTokens (fl_target fl) (i64 (- estimate (fl_request fl)))]
  else [].
Proof.
  unfold flight_hooks. cbn [map concat]. f_equal.
  - unfold hook_calls, PreRequest. cbn [ProfileResults PrimaryProfileName]. by rewrite lookup_singleton_eq.
  - rewrite map_app, concat_app. replace (concat _) with (@nil call) at 1; [by destruct (fl_ended fl)|].
    induction (fl_chunks fl); [done|]. by simpl.
Qed.

Lemma hooks_delta_calls hs w id :
  hooks_delta hs w id = calls_delta w id (concat (map (hook_calls estimate) hs)).
Proof.
  induction hs as [|h hs IH]; [done|]. unfold hooks_delta in *. rewrite sumZ_cons, IH. cbn [map concat].
  unfold calls_delta. by rewrite sumZ_app.
Qed.

Lemma flight_delta fl w id :
  i64 (hooks_delta (flight_hooks fl) w id) =
  i64 (if decide (fl_target fl = id /\ fl_ended fl = false) then amount w (fl_request fl) else 0).
Proof.
  rewrite hooks_delta_calls, flight_calls. unfold calls_delta, amount. rewrite sumZ_app.
  destruct (fl_ended fl), w; simpl; repeat case_decide; destruct_and?; simplify_eq; try tauto;
    rewrite ?Z.add_0_r, ?Z.add_0_l, ?i64_add_r; f_equal; lia.
Qed.

Lemma flights_delta fls w id :
  i64 (hooks_delta (concat (map flight_hooks fls)) w id) =
  i64 (sumZ (fun fl => amount w (fl_request fl)) (flying id fls)).
Proof.
  induction fls as [|fl fls IH]; [done|]. unfold hooks_delta in *. cbn [map concat]. rewrite sumZ_app.
  unfold flying in *. rewrite filter_cons. pose proof (flight_delta fl w id) as Hf. unfold hooks_delta in Hf.
  case_decide; [rewrite sumZ_cons|rewrite <- (Z.add_0_l (sumZ _ (filter _ _)))]; by apply i64_add_congr.
Qed.

Lemma flights_no_deletion fls : no_deletion (concat (map flight_hooks fls)).
Proof.
  unfold no_deletion. apply Forall_concat, Forall_forall. intros hs (fl & -> & _)%list_elem_of_fmap.
  unfold flight_hooks. apply Forall_cons. split; [|apply Forall_app; split].
  - unfold hook_calls, PreRequest. cbn [ProfileResults PrimaryProfileName]. rewrite lookup_singleton_eq.
    by repeat constructor.
  - apply Forall_replicate. constructor.
  - destruct (fl_ended fl); by repeat constructor.
Qed.

End Run.

(** C16: In-flight counting under interleaving.  Requests are sent to one
    endpoint each, no endpoint is deleted meanwhile, and the hooks of all of the
    requests run at once, in any order and with any interleaving of their
    look-ups and updates.  A hook that has calls left can always make its next
    step, and the steps run out.  When they have, the two counters of every
    endpoint are the number of requests in flight there and the sum of their
    estimates, at the width of the counters. *)
Theorem inflight_counts_requests {R} (estimate : R -> Z) (fls : list flight) events s :
  sys_run estimate events = Some s -> started events ≡ₚ concat (map flight_hooks fls) ->
  (forall i g, s_running s !! i = Some g -> g_calls g <> [] ->
     exists s', sys_exec estimate s (EStep i) = Some s' /\ sys_work s' < sys_work s) /\
  (quiet s -> forall id,
     get (requestTracker (s_producer s)) id = i64 (Z.of_nat (length (flying id fls))) /\
     get (tokenTracker (s_producer s)) id = i64 (sumZ (fun fl => estimate (fl_request fl)) (flying id fls))).
Proof.
  intros Hrun Hst. assert (no_deletion estimate (started events)) as Hnd.
  { unfold no_deletion. rewrite Hst. apply flights_no_deletion. }
  split.
  - intros i g. eapply step_progress, run_ok; [exact Hnd|apply sys_init_ok|exact Hrun].
  - intros Hq id. pose proof (fun w => run_exact estimate events s w id Hrun Hnd Hq) as He.
    assert (forall w, hooks_delta estimate (started events) w id =
      hooks_delta estimate (concat (map flight_hooks fls)) w id) as E
      by (intros w; unfold hooks_delta; by apply sumZ_perm).
    pose proof (He InRequests) as Hr. pose proof (He InTokens) as Ht. rewrite E, flights_delta in Hr, Ht.
    split; [|exact Ht]. etransitivity; [exact Hr|]. f_equal. clear. induction (flying id fls); simpl in *; lia.
Qed.

(** Two requests for one endpoint; the second hook looks the endpoint up before
    the first has created its counter.  The first request ends. *)
Definition sample_target (name id : string) : option SchedulingResult :=
  Some {| ProfileResults := {[ name := Some [Some id] ]}; PrimaryProfileName := name |}.

Definition sample_flights : list (flight (R := Z)) :=
  [ {| fl_request := 10; fl_profile := "p"; fl_target := "a"; fl_chunks := 1; fl_ended := true |};
    {| fl_request := 7; fl_profile := "p"; fl_target := "a"; fl_chunks := 0; fl_ended := false |} ].

Definition sample_events : list (event (R := Z)) :=
  [EStart (HPreRequest 10 (sample_target "p" "a")); EStart (HPreRequest 7 (sample_target "p" "a"));
   EStep 0; EStep 1; EStep 0; EStep 1; EStep 0; EStep 1; EStep 1; EStep 0;
   EStart (HResponseBody 10 (Some false) (Some "a")); EStart (HResponseBody 10 (Some true) (Some "a"));
   EStep 3; EStep 3; EStep 3; EStep 3].

Definition quietb (s : sys) : bool :=
  forallb (fun g => match g_calls g with [] => true | _ => false end) (s_running s).

Lemma quietb_sound s : quietb s = true -> quiet s.
Proof.
  unfold quietb, quiet. rewrite forallb_forall, Forall_forall. intros H g Hg%list_elem_of_In.
  specialize (H g Hg). by destruct (g_calls g).
Qed.

Definition sample_state : sys := default sys_init (sys_run id sample_events).

Lemma inflight_counts_requests_witness :
  get (requestTracker (s_producer sample_state)) "a" = i64 1 /\
  get (tokenTracker (s_producer sample_state)) "a" = i64 7.
Proof.
  assert (sys_run id sample_events = Some sample_state) as Hrun by (vm_compute; reflexivity).
  assert (started sample_events ≡ₚ concat (map flight_hooks sample_flights)) as Hst.
  { unfold sample_events, started. cbn [map concat app sample_flights flight_hooks fl_request fl_profile
      fl_target fl_chunks fl_ended replicate]. fold (sample_target "p" "a"). apply perm_skip.
    etransitivity; [apply perm_swap|]. apply perm_skip, perm_swap. }
  assert (quiet sample_state) as Hq by (apply quietb_sound; vm_compute; reflexivity).
  exact (proj2 (inflight_counts_requests id sample_flights sample_events sample_state Hrun Hst) Hq "a").
Defined.

(** * Where the counters drift *)

(** A request with the targets [targets] that was sent to the first of them. *)
Definition fanout_hooks {R} (request : R) (targets : list string) : list hook :=
  [HPreRequest request
     (Some {| ProfileResults := {[ "p"%string := Some (Some <$> targets) ]}; PrimaryProfileName := "p" |});
   HResponseBody request (Some true) (head targets)].

Definition occurrences (id : string) (l : list string) : Z :=
  sumZ (fun x => if decide (x = id) then 1 else 0) l.

Lemma fanout_delta {R} (estimate : R -> Z) request target targets id :
  hooks_delta estimate (fanout_hooks request (target :: targets)) InRequests id = occurrences id targets.
Proof.
  rewrite hooks_delta_calls. unfold fanout_hooks, hook_calls, PreRequest, calls_delta.
  cbn [map concat ProfileResults PrimaryProfileName]. rewrite lookup_singleton_eq, app_nil_r, sumZ_app.
  rewrite <- list_fmap_compose. cbn [fmap list_fmap concat]. rewrite sumZ_app.
  assert (forall l : list string, sumZ (call_delta InRequests id) (concat ((fun eid => [CAdd InRequests eid 1;
    CAdd InTokens eid (estimate request)]) <$> l)) = occurrences id l) as E.
  { induction l as [|x l IH]; [done|]. cbn [fmap list_fmap concat]. rewrite sumZ_app, IH. unfold occurrences.
    rewrite sumZ_cons. simpl. repeat case_decide; destruct_and?; simplify_eq; try tauto; lia. }
  etransitivity; [apply Z.add_cancel_r, Z.add_cancel_l, E|]. simpl.
  repeat case_decide; destruct_and?; simplify_eq; try tauto; lia.
Qed.

(** A request with several target endpoints is counted at all of them when
    it is sent, and removed only from the first when its response ends: once its
    hooks have returned, in every interleaving, each further target keeps it. *)
Theorem ended_request_stays_at_other_targets {R} (estimate : R -> Z) request target targets events s id :
  sys_run estimate events = Some s -> started events = fanout_hooks request (target :: targets) -> quiet s ->
  get (requestTracker (s_producer s)) id = i64 (occurrences id targets).
Proof.
  intros Hrun Hst Hq. rewrite <- (fanout_delta estimate request target targets id), <- Hst.
  apply (run_exact estimate events s InRequests id Hrun); [|done]. rewrite Hst. unfold no_deletion, fanout_hooks.
  apply Forall_cons; split; [|by repeat constructor]. unfold hook_calls, PreRequest.
  cbn [ProfileResults PrimaryProfileName]. rewrite lookup_singleton_eq. apply Forall_concat, Forall_forall.
  intros cs ([eid|] & -> & _)%list_elem_of_fmap; by repeat constructor.
Qed.

Definition fanout_events : list (event (R := Z)) :=
  (EStart <$> fanout_hooks 3 ["a"; "b"]%string) ++ replicate 8 (EStep 0) ++ replicate 4 (EStep 1).

Definition fanout_state : sys := default sys_init (sys_run id fanout_events).

Lemma ended_request_stays_at_other_targets_witness : get (requestTracker (s_producer fanout_state)) "b" = i64 1.
Proof.
  assert (sys_run id fanout_events = Some fanout_state) as Hrun by (vm_compute; reflexivity).
  assert (quiet fanout_state) as Hq by (apply quietb_sound; vm_compute; reflexivity).
  exact (ended_request_stays_at_other_targets id 3 "a" ["b"%string] fanout_events fanout_state "b" Hrun eq_refl Hq).
Defined.

(** Hooks one after the other. *)
Definition run_call (p : InFlightLoadProducer) (c : call) : option InFlightLoadProducer :=
  match c with
  | CAdd w id delta =>
      ct ← add_found (counts (tracker w p) !! id) id delta (tracker w p); Some (set_tracker w ct p)
  | CDelete w id => Some (set_tracker w (tracker_delete id (tracker w p)) p)
  end.

Definition run_calls (p : InFlightLoadProducer) (cs : list call) : option InFlightLoadProducer :=
  ofold run_call cs p.

Definition producer_ok (p : InFlightLoadProducer) : Prop :=
  forall w, tracker_ok (tracker w p) /\ tracker_i64 (tracker w p).

Lemma run_adds cs : forall p, producer_ok p -> Forall (fun c => is_add c = true) cs ->
  exists p', run_calls p cs = Some p' /\ producer_ok p' /\
    forall w id, get (tracker w p') id = i64 (get (tracker w p) id + calls_delta w id cs).
Proof.
  unfold run_calls. induction cs as [|[w id delta|w id] cs IH]; intros p Hok Ha.
  - exists p. split; [done|]. split; [done|]. intros w id. unfold calls_delta. simpl. rewrite Z.add_0_r, i64_id; [done|].
    by apply get_i64, Hok.
  - apply Forall_cons in Ha as [_ Ha]. cbn [ofold run_call mbind option_bind].
    assert (exists ct', add_found (counts (tracker w p) !! id) id delta (tracker w p) = Some ct' /\
      added id delta (tracker w p) ct' /\ tracker_i64 ct') as (ct' & -> & Had & Hw).
    { destruct (Hok w). destruct (counts (tracker w p) !! id) eqn:E; [by apply counter_Add_ok|by apply add_locked_ok]. }
    cbn [mbind option_bind]. destruct (IH (set_tracker w ct' p)) as (p' & Hrun & Hok' & Hget); [|done|].
    { intros w'. rewrite tracker_set. case_decide; [by split; [apply Had|]|apply Hok]. }
    exists p'. split; [done|]. split; [done|]. intros w' id'. rewrite Hget.
    rewrite (added_get w w' id id' delta) by (done || apply Hok). rewrite i64_add_l. unfold calls_delta.
    rewrite sumZ_cons. f_equal. lia.
  - by apply Forall_cons in Ha as [? _].
Qed.

Lemma delete_endpoint_ok id p : producer_ok p ->
  exists p', run_calls p (DeleteEndpoint id) = Some p' /\ producer_ok p' /\ forall w, get (tracker w p') id = 0.
Proof.
  intros Hok. eexists. split; [done|]. split.
  - intros w. destruct (Hok w) as [[Hc Hi] Hw]. destruct w; (split; [split|done]); simpl in *;
      intros *; rewrite ?lookup_delete_Some; [intros [_ ?]|intros [_ ?] [_ ?]|intros [_ ?]|intros [_ ?] [_ ?]]; eauto.
  - intros w. unfold get. by destruct w; simpl; rewrite lookup_delete_eq.
Qed.

(** A pod that is deleted while requests are in flight loses its counters,
    and the responses that end afterwards create them anew below zero: after
    [n] of them the endpoint counts minus [n], so that a pod of the same name
    starts with room for [n] requests too many. *)
Theorem deleted_endpoint_undercounts {R} (estimate : R -> Z) p id (rs : list R) :
  producer_ok p ->
  exists p', run_calls p (DeleteEndpoint id ++
      concat ((fun r => ResponseBody estimate r (Some true) (Some id)) <$> rs)) = Some p' /\
    get (requestTracker p') id = i64 (- Z.of_nat (length rs)).
Proof.
  intros Hok. destruct (delete_endpoint_ok id p Hok) as (p1 & Hd & Hok1 & Hz).
  destruct (run_adds (concat ((fun r => ResponseBody estimate r (Some true) (Some id)) <$> rs)) p1 Hok1)
    as (p' & Hrun & _ & Hget).
  { apply Forall_concat, Forall_forall. intros cs (r & -> & _)%list_elem_of_fmap. by repeat constructor. }
  exists p'. split; [unfold run_calls in *; by rewrite ofold_app, Hd|].
  etransitivity; [apply (Hget InRequests)|]. rewrite Hz. f_equal. clear.
  induction rs as [|r rs IH]; [done|]. cbn [fmap list_fmap concat]. unfold calls_delta in *. rewrite sumZ_app.
  simpl. simpl in IH. repeat case_decide; destruct_and?; simplify_eq; try tauto; lia.
Qed.

Lemma factory_ok : producer_ok InFlightLoadProducerFactory.
Proof. intros w. apply (sys_init_ok.(so_tracker _ _) w). Qed.

Lemma deleted_endpoint_undercounts_witness :
  exists p', run_calls InFlightLoadProducerFactory (DeleteEndpoint "a" ++
      concat ((fun r => ResponseBody id r (Some true) (Some "a"%string)) <$> [5; 6])) = Some p' /\
    get (requestTracker p') "a" = i64 (-2).
Proof. exact (deleted_endpoint_undercounts id InFlightLoadProducerFactory "a" [5; 6] factory_ok). Defined.
