(* ===== verification/Saturation.v ===== *)
(** The concurrency saturation detector
    (src/pkg/epp/framework/plugins/flowcontrol/saturationdetector/concurrency):
    its configuration ([config.go]), the saturation of the pool that gates
    dispatch, and the filter of overloaded endpoints ([detector.go]). *)

From S2P Require Import Prelude Doubles InFlight FlowTypes Shard ShardSpec Processor ProcessorRun ProcessorProps.

(** * Configuration *)

Inductive concurrencyMode := modeRequests | modeTokens | modeOther (s : string).

#[export] Instance concurrencyMode_eq_dec : EqDecision concurrencyMode.
Proof. solve_decision. Defined.

Record apiConfig := {
  MaxConcurrency : option Z;
  Headroom : option spec_float;
  ConcurrencyMode : option concurrencyMode;
  MaxTokenConcurrency : option Z
}.

Record config := {
  maxConcurrency : Z;
  headroom : spec_float;
  mode : concurrencyMode;
  maxTokenConcurrency : Z
}.

Definition defaultMaxConcurrency : Z := 100.
Definition defaultMaxTokenConcurrency : Z := 1000000.

Inductive config_error := EMaxConcurrency | EHeadroom | EMaxTokenConcurrency | EMode.

Definition applyDefaults (cfg : apiConfig) : apiConfig :=
  {| MaxConcurrency := Some (default defaultMaxConcurrency (MaxConcurrency cfg));
     Headroom := Some (default f64_zero (Headroom cfg));
     ConcurrencyMode := Some (default modeRequests (ConcurrencyMode cfg));
     MaxTokenConcurrency := Some (default defaultMaxTokenConcurrency (MaxTokenConcurrency cfg)) |}.

(** All failures, in order. *)
Definition validateConfig (cfg : apiConfig) : list config_error :=
  match MaxConcurrency cfg with Some m => if m <=? 0 then [EMaxConcurrency] else [] | None => [] end ++
  match Headroom cfg with Some h => if SFltb h f64_zero then [EHeadroom] else [] | None => [] end ++
  match MaxTokenConcurrency cfg with Some m => if m <=? 0 then [EMaxTokenConcurrency] else [] | None => [] end ++
  match ConcurrencyMode cfg with Some (modeOther _) => [EMode] | _ => [] end.

(** The outer [None] would be a nil field dereferenced. *)
Definition buildConfig (apiCfg : option apiConfig) : option (config + list config_error) :=
  let safeCfg := applyDefaults (default {| MaxConcurrency := None; Headroom := None; ConcurrencyMode := None;
                                           MaxTokenConcurrency := None |} apiCfg) in
  match validateConfig safeCfg with
  | [] =>
      m ← MaxConcurrency safeCfg; h ← Headroom safeCfg; c ← ConcurrencyMode safeCfg;
      t ← MaxTokenConcurrency safeCfg;
      Some (inl {| maxConcurrency := m; headroom := h; mode := c; maxTokenConcurrency := t |})
  | errs => Some (inr errs)
  end.

(** * The detector *)

(** An endpoint: whether it has metadata, and its in-flight load attribute if
    one was put there. *)
Record endpoint := { ep_metadata : bool; ep_load : option InFlightLoad }.

Definition getLoad (e : endpoint) : InFlightLoad := default {| Tokens := 0; Requests := 0 |} (ep_load e).

(** The load and the capacity that count in the configured mode. *)
Definition mode_load (cfg : config) (load : InFlightLoad) : Z :=
  if decide (mode cfg = modeTokens) then Tokens load else Requests load.

Definition mode_capacity (cfg : config) : Z :=
  if decide (mode cfg = modeTokens) then maxTokenConcurrency cfg else maxConcurrency cfg.

Definition Saturation (cfg : config) (endpoints : list endpoint) : spec_float :=
  let '(totalInflight, totalCapacity) :=
    foldl (fun '(totalInflight, totalCapacity) e =>
      if ep_metadata e
      then (i64 (totalInflight + mode_load cfg (getLoad e)), i64 (totalCapacity + mode_capacity cfg))
      else (totalInflight, totalCapacity)) (0, 0) endpoints in
  if totalCapacity =? 0 then f64_one else f64_div (f64_of_int totalInflight) (f64_of_int totalCapacity).

Section Filter.

(** [int64(x)] where the integer part does not fit, or there is none: the
    language leaves the result to the implementation. *)
Variable overflow : spec_float -> Z.

Definition f64_to_int64 (x : spec_float) : Z :=
  match f64_trunc x with
  | Some z => if (- two63 <=? z) && (z <? two63) then z else overflow x
  | None => overflow x
  end.

Definition limit (cfg : config) : Z :=
  f64_to_int64 (f64_mul (f64_of_int (mode_capacity cfg)) (f64_add f64_one (headroom cfg))).

Definition Filter (cfg : config) (endpoints : list endpoint) : list endpoint :=
  foldl (fun filtered e => if mode_load cfg (getLoad e) <? limit cfg then filtered ++ [e] else filtered) [] endpoints.

End Filter.

(** * Properties *)

(** The pool as the sums see it. *)
Definition counted (endpoints : list endpoint) : list endpoint := filter (fun e => ep_metadata e = true) endpoints.

Definition inflight (cfg : config) (endpoints : list endpoint) : Z :=
  sumZ (fun e => mode_load cfg (getLoad e)) (counted endpoints).

Definition capacity (cfg : config) (endpoints : list endpoint) : Z :=
  Z.of_nat (length (counted endpoints)) * mode_capacity cfg.

Lemma saturation_sums cfg endpoints : forall a b,
  foldl (fun '(totalInflight, totalCapacity) e =>
      if ep_metadata e
      then (i64 (totalInflight + mode_load cfg (getLoad e)), i64 (totalCapacity + mode_capacity cfg))
      else (totalInflight, totalCapacity)) (i64 a, i64 b) endpoints =
  (i64 (a + inflight cfg endpoints), i64 (b + capacity cfg endpoints)).
Proof.
  unfold inflight, capacity, counted. induction endpoints as [|e endpoints IH]; intros a b; simpl.
  - by rewrite !Z.add_0_r.
  - rewrite filter_cons. destruct (ep_metadata e); simpl.
    + rewrite !i64_add_l, IH. f_equal; f_equal; lia.
    + by rewrite IH.
Qed.

Lemma Saturation_eq cfg endpoints :
  is_i64 (inflight cfg endpoints) -> is_i64 (capacity cfg endpoints) ->
  Saturation cfg endpoints =
  if capacity cfg endpoints =? 0 then f64_one
  else f64_div (f64_of_int (inflight cfg endpoints)) (f64_of_int (capacity cfg endpoints)).
Proof.
  intros Hi Hc. unfold Saturation. pose proof (saturation_sums cfg endpoints 0 0) as E.
  change (i64 0) with 0 in E. rewrite E, !Z.add_0_l, !i64_id by done. done.
Qed.

Lemma buildConfig_spec api c :
  buildConfig api = Some (inl c) -> 0 < mode_capacity c /\ SFltb (headroom c) f64_zero = false.
Proof.
  unfold buildConfig, validateConfig, applyDefaults.
  cbn [MaxConcurrency Headroom ConcurrencyMode MaxTokenConcurrency]. intros H.
  repeat case_match; simplify_eq/=; unfold mode_capacity; simpl; (split; [try case_decide; lia|done]).
Qed.

(** Saturation and capacity.  For a configuration the plugin accepts and
    loads that doubles represent exactly, the saturation of the pool reaches 1
    exactly when the load in flight reaches the capacity of the endpoints: the
    rounding of the quotient never crosses the threshold.  A pool without
    endpoints is saturated. *)
Theorem saturation_at_capacity api cfg endpoints :
  buildConfig api = Some (inl cfg) ->
  0 <= inflight cfg endpoints < 2 ^ 53 -> capacity cfg endpoints < 2 ^ 53 ->
  SFleb f64_one (Saturation cfg endpoints) = (capacity cfg endpoints <=? inflight cfg endpoints).
Proof.
  intros [Hcap _]%buildConfig_spec Hi Hc. assert (0 <= capacity cfg endpoints) as Hc0 by (unfold capacity; nia).
  rewrite Saturation_eq by (unfold is_i64, two63; lia).
  destruct (Z.eqb_spec (capacity cfg endpoints) 0) as [->|Hne]; [symmetry; apply Z.leb_le; lia|].
  destruct (decide (inflight cfg endpoints = 0)) as [->|Hne'].
  - rewrite (f64_of_int_exact (capacity _ _)) by lia. symmetry. apply Z.leb_gt. lia.
  - destruct (Z.leb_spec (capacity cfg endpoints) (inflight cfg endpoints)).
    + apply f64_div_ge_one; lia.
    + apply f64_div_lt_one; lia.
Qed.

Definition sample_pool : list endpoint :=
  [{| ep_metadata := true; ep_load := Some {| Tokens := 0; Requests := 130 |} |};
   {| ep_metadata := true; ep_load := Some {| Tokens := 0; Requests := 69 |} |};
   {| ep_metadata := false; ep_load := None |}].

Definition default_config : config :=
  {| maxConcurrency := 100; headroom := f64_zero; mode := modeRequests; maxTokenConcurrency := 1000000 |}.

Lemma saturation_at_capacity_witness : SFleb f64_one (Saturation default_config sample_pool) = (200 <=? 199).
Proof.
  refine (saturation_at_capacity None default_config sample_pool eq_refl _ _).
  - vm_compute. split; [discriminate|reflexivity].
  - vm_compute. reflexivity.
Defined.

Lemma Filter_eq overflow cfg endpoints :
  Filter overflow cfg endpoints = filter (fun e => mode_load cfg (getLoad e) < limit overflow cfg) endpoints.
Proof.
  unfold Filter. set (f := fun _ _ => _).
  assert (forall acc, foldl f acc endpoints =
    acc ++ filter (fun e => mode_load cfg (getLoad e) < limit overflow cfg) endpoints) as E; [|apply (E [])].
  induction endpoints as [|e endpoints IH]; intros acc; simpl; [by rewrite app_nil_r|].
  rewrite IH, filter_cons. unfold f. destruct (Z.ltb_spec (mode_load cfg (getLoad e)) (limit overflow cfg)).
  - rewrite decide_True by done. by rewrite <- app_assoc.
  - by rewrite decide_False by lia.
Qed.

(** The filter of a configuration without headroom keeps, in order, exactly
    the endpoints whose load is below the configured maximum, which the detour
    through doubles does not change. *)
Theorem filter_keeps_below_maximum overflow api cfg endpoints :
  buildConfig api = Some (inl cfg) -> headroom cfg = f64_zero -> mode_capacity cfg < 2 ^ 53 ->
  Filter overflow cfg endpoints = filter (fun e => mode_load cfg (getLoad e) < mode_capacity cfg) endpoints.
Proof.
  intros [Hcap _]%buildConfig_spec Hh Hc. rewrite Filter_eq.
  assert (limit overflow cfg = mode_capacity cfg) as ->; [|done]. unfold limit. rewrite Hh.
  change (f64_add f64_one f64_zero) with f64_one. rewrite f64_mul_one_int by lia. unfold f64_to_int64.
  rewrite f64_trunc_of_int by lia. by replace (_ && _) with true by (unfold two63; lia).
Qed.

Lemma filter_keeps_below_maximum_witness :
  Filter (fun _ => 0) default_config sample_pool =
  filter (fun e => mode_load default_config (getLoad e) < 100) sample_pool.
Proof. by refine (filter_keeps_below_maximum (fun _ => 0) None default_config sample_pool eq_refl eq_refl _). Defined.

(** Backpressure.  While the pool is at its capacity or above it, a dispatch
    cycle under the usage limit 1 dispatches nothing from any shard, whatever is
    queued, and changes nothing. *)
Theorem full_pool_stops_dispatch range api cfg endpoints σ s :
  buildConfig api = Some (inl cfg) ->
  inflight cfg endpoints < 2 ^ 53 -> capacity cfg endpoints <= inflight cfg endpoints ->
  dispatchCycle range (Saturation cfg endpoints) (NewConstPolicy f64_one) σ s = Some (false, σ, s, []).
Proof.
  intros Hb Hi Hle. pose proof (buildConfig_spec _ _ Hb) as [Hcap _].
  assert (0 <= capacity cfg endpoints) as Hc0 by (unfold capacity; nia).
  assert (SFleb f64_one (Saturation cfg endpoints) = true) as Hs.
  { rewrite Saturation_eq by (unfold is_i64, two63; lia). case_match; [done|]. apply f64_div_ge_one; lia. }
  unfold dispatchCycle, NewConstPolicy. destruct (AllOrderedPriorityLevels s) as [|p ps]; [done|].
  simpl. by rewrite Hs.
Qed.

Definition full_pool : list endpoint :=
  [{| ep_metadata := true; ep_load := Some {| Tokens := 0; Requests := 131 |} |};
   {| ep_metadata := true; ep_load := Some {| Tokens := 0; Requests := 69 |} |}].

Lemma full_pool_stops_dispatch_witness :
  exists sy, demo_run demo_two = Some sy /\ length (shard_items (sp_shard (sy_proc sy))) = 2%nat /\
    dispatchCycle plain_range (Saturation default_config full_pool) (NewConstPolicy f64_one)
      (sp_store (sy_proc sy)) (sp_shard (sy_proc sy)) =
    Some (false, sp_store (sy_proc sy), sp_shard (sy_proc sy), []).
Proof.
  assert (Hobs : (fun sy => length (shard_items (sp_shard (sy_proc sy)))) <$> demo_run demo_two = Some 2%nat)
    by reflexivity.
  destruct (demo_run demo_two) as [sy|]; [|discriminate Hobs]. injection Hobs as Hlen.
  exists sy. split; [reflexivity|]. split; [exact Hlen|].
  apply (full_pool_stops_dispatch plain_range None default_config full_pool); vm_compute; done.
Defined.
