(* ===== verification/Scheduler.v ===== *)
(** The scheduler (src/pkg/epp/scheduling): profiles that filter, score and pick
    endpoints ([scheduler_profile.go], [weighted_scorer.go]), the loop that runs
    the profiles a handler picks ([scheduler.go]), the single-profile handler
    and the pickers (src/pkg/epp/framework/plugins/scheduling/profile and
    picker).

    An endpoint is the pointer the maps are keyed by.  Filters, scorers, pickers
    and handlers are interfaces: functions that may change the [CycleState] they
    share.  Scores are doubles.  The accumulation of a weighted score is a
    multiplication and then an addition, as on targets that do not fuse them. *)

From S2P Require Import Prelude Doubles.

Section Scheduler.

Context {E : Type} `{Countable E}.  (** endpoints *)
Context {CycleState LLMRequest : Type}.

Record ScoredEndpoint := { se_Endpoint : E; Score : spec_float }.

Record ProfileRunResult := { TargetEndpoints : list E }.

(** * Plugins *)

Definition Filter := CycleState -> LLMRequest -> list E -> list E * CycleState.
Definition Scorer := CycleState -> LLMRequest -> list E -> gmap E spec_float * CycleState.
Definition Picker := CycleState -> list ScoredEndpoint -> ProfileRunResult * CycleState.

Record WeightedScorer := { ws_Scorer : Scorer; weight : spec_float }.

Record SchedulerProfile := {
  filters : list Filter;
  scorers : list WeightedScorer;
  picker : option Picker
}.

Definition NewSchedulerProfile : SchedulerProfile := {| filters := []; scorers := []; picker := None |}.

Definition WithFilters (fs : list Filter) (p : SchedulerProfile) : SchedulerProfile :=
  {| filters := fs; scorers := scorers p; picker := picker p |}.

Definition WithScorers (ss : list WeightedScorer) (p : SchedulerProfile) : SchedulerProfile :=
  {| filters := filters p; scorers := ss; picker := picker p |}.

Definition WithPicker (k : Picker) (p : SchedulerProfile) : SchedulerProfile :=
  {| filters := filters p; scorers := scorers p; picker := Some k |}.

(** The interfaces a plugin object implements. *)
Record Plugin := {
  as_Filter : option Filter;
  as_Scorer : option Scorer;
  as_Picker : option Picker
}.

Inductive pluginObject :=
  | Plain (p : Plugin)
  | Weighted (s : WeightedScorer) (p : Plugin).  (** a scorer with a weight, and the object it wraps *)

Inductive add_error := ErrScorerWithoutWeight | ErrSecondPicker.

(** The part of the loop body after the type switch. *)
Definition register (p : SchedulerProfile) (pl : Plugin) : SchedulerProfile * option add_error :=
  let p := match as_Filter pl with
           | Some f => {| filters := filters p ++ [f]; scorers := scorers p; picker := picker p |}
           | None => p
           end in
  match as_Picker pl with
  | None => (p, None)
  | Some k => match picker p with
              | Some _ => (p, Some ErrSecondPicker)
              | None => (WithPicker k p, None)
              end
  end.

(** The profile as it is left, also on error. *)
Fixpoint AddPlugins (p : SchedulerProfile) (pluginObjects : list pluginObject)
    : SchedulerProfile * option add_error :=
  match pluginObjects with
  | [] => (p, None)
  | Weighted s pl :: rest =>
      match register {| filters := filters p; scorers := scorers p ++ [s]; picker := picker p |} pl with
      | (p, Some err) => (p, Some err)
      | (p, None) => AddPlugins p rest
      end
  | Plain pl :: rest =>
      match as_Scorer pl with
      | Some _ => (p, Some ErrScorerWithoutWeight)
      | None => match register p pl with
                | (p, Some err) => (p, Some err)
                | (p, None) => AddPlugins p rest
                end
      end
  end.

(** * Running a profile *)

Definition enforceScoreRange (score : spec_float) : spec_float :=
  if SFltb score f64_zero then f64_zero
  else if SFltb f64_one score then f64_one
  else score.

Fixpoint runFilterPlugins (fs : list Filter) (c : CycleState) (request : LLMRequest) (endpoints : list E)
    : list E * CycleState :=
  match fs with
  | [] => (endpoints, c)
  | f :: fs =>
      let '(filteredEndpoints, c) := f c request endpoints in
      match filteredEndpoints with
      | [] => ([], c)
      | _ => runFilterPlugins fs c request filteredEndpoints
      end
  end.

(** The order in which a map is iterated. *)
Variable range : gmap E spec_float -> list (E * spec_float).

(** One scorer's scores, added to the weighted scores; a missing entry reads 0. *)
Definition accumulate (w : spec_float) (m : gmap E spec_float) (es : E * spec_float) : gmap E spec_float :=
  let '(endpoint, score) := es in
  <[endpoint := f64_add (default f64_zero (m !! endpoint)) (f64_mul (enforceScoreRange score) w)]> m.

Fixpoint score_loop (ss : list WeightedScorer) (c : CycleState) (request : LLMRequest) (endpoints : list E)
    (m : gmap E spec_float) : gmap E spec_float * CycleState :=
  match ss with
  | [] => (m, c)
  | s :: ss =>
      let '(scores, c) := ws_Scorer s c request endpoints in
      score_loop ss c request endpoints (foldl (accumulate (weight s)) m (range scores))
  end.

Definition runScorerPlugins (ss : list WeightedScorer) (c : CycleState) (request : LLMRequest) (endpoints : list E)
    : gmap E spec_float * CycleState :=
  score_loop ss c request endpoints (foldl (fun m e => <[e := f64_zero]> m) ∅ endpoints).

(** A nil picker is dereferenced. *)
Definition runPickerPlugin (p : SchedulerProfile) (c : CycleState) (m : gmap E spec_float)
    : option (ProfileRunResult * CycleState) :=
  k ← picker p;
  Some (k c ((fun '(e, s) => {| se_Endpoint := e; Score := s |}) <$> range m)).

Inductive run_error := ErrNoEndpoints.

Definition Run (p : SchedulerProfile) (request : LLMRequest) (c : CycleState) (candidateEndpoints : list E)
    : option ((ProfileRunResult + run_error) * CycleState) :=
  let '(endpoints, c) := runFilterPlugins (filters p) c request candidateEndpoints in
  match endpoints with
  | [] => Some (inr ErrNoEndpoints, c)
  | _ =>
      let '(m, c) := runScorerPlugins (scorers p) c request endpoints in
      '(result, c) ← runPickerPlugin p c m;
      Some (inl result, c)
  end.

(** * Pickers *)

Definition DefaultMaxNumOfEndpoints : Z := 1.

(** The normalization all constructors do. *)
Definition max_endpoints (maxNumOfEndpoints : Z) : Z :=
  if maxNumOfEndpoints <=? 0 then DefaultMaxNumOfEndpoints else maxNumOfEndpoints.

(** The subset of at most [max] endpoints, as targets. *)
Definition first_endpoints (max : Z) (scoredEndpoints : list ScoredEndpoint) : ProfileRunResult :=
  {| TargetEndpoints := se_Endpoint <$>
       (if max <? Z.of_nat (length scoredEndpoints) then take (Z.to_nat max) scoredEndpoints
        else scoredEndpoints) |}.

(** The permutation [rand.Shuffle] chose for this call. *)
Variable shuffle : list ScoredEndpoint -> list ScoredEndpoint.

Definition higher_score (a b : ScoredEndpoint) : bool := SFltb (Score b) (Score a).

(** [slices.SortStableFunc] by descending score. *)
Variable sort : list ScoredEndpoint -> list ScoredEndpoint.

Definition MaxScorePicker (maxNumOfEndpoints : Z) : Picker := fun c scoredEndpoints =>
  (first_endpoints (max_endpoints maxNumOfEndpoints) (sort (shuffle scoredEndpoints)), c).

Definition RandomPicker (maxNumOfEndpoints : Z) : Picker := fun c scoredEndpoints =>
  (first_endpoints (max_endpoints maxNumOfEndpoints) (shuffle scoredEndpoints), c).

(** [math.Pow], and the random draw made for the endpoint at an index. *)
Variable pow : spec_float -> spec_float -> spec_float.
Variable draw : nat -> spec_float.

(** 1e-10 *)
Definition smallest_draw : spec_float := S754_finite false 7737125245533627 (-86).

Record weightedScoredEndpoint := { wse : ScoredEndpoint; key : spec_float }.

Definition ares_key (i : nat) (se : ScoredEndpoint) : spec_float :=
  if SFleb (Score se) f64_zero then f64_zero
  else let u := draw i in
       let u := if SFeqb u f64_zero then smallest_draw else u in
       pow u (f64_div f64_one (Score se)).

Definition higher_key (a b : weightedScoredEndpoint) : bool := SFltb (key b) (key a).

(** [sort.Slice] by descending key. *)
Variable sort_keys : list weightedScoredEndpoint -> list weightedScoredEndpoint.

Definition WeightedRandomPicker (maxNumOfEndpoints : Z) : Picker := fun c scoredEndpoints =>
  if existsb (fun se => SFltb f64_zero (Score se)) scoredEndpoints
  then
    let weightedEndpoints := imap (fun i se => {| wse := se; key := ares_key i se |}) scoredEndpoints in
    let sorted := sort_keys weightedEndpoints in
    let selectedCount := Z.to_nat (Z.min (max_endpoints maxNumOfEndpoints) (Z.of_nat (length sorted))) in
    ({| TargetEndpoints := (fun w => se_Endpoint (wse w)) <$> take selectedCount sorted |}, c)
  else RandomPicker (max_endpoints maxNumOfEndpoints) c scoredEndpoints.

(** * The scheduler *)

Record SchedulingResult := {
  ProfileResults : gmap string (option ProfileRunResult);
  PrimaryProfileName : string
}.

Inductive schedule_error := ErrNoProfileRun | ErrNotSingleProfile | ErrProfileFailed (name : string).

Record ProfileHandler := {
  Pick : CycleState -> LLMRequest -> gmap string SchedulerProfile -> gmap string (option ProfileRunResult) ->
         gmap string SchedulerProfile * CycleState;
  ProcessResults : CycleState -> LLMRequest -> gmap string (option ProfileRunResult) ->
                   SchedulingResult + schedule_error
}.

(** The order in which the picked profiles are iterated. *)
Variable range_profiles : gmap string SchedulerProfile -> list (string * SchedulerProfile).

(** One pass over the picked profiles; a profile that failed has a nil result. *)
Definition run_profile (request : LLMRequest) (candidateEndpoints : list E)
    (acc : gmap string (option ProfileRunResult) * CycleState) (np : string * SchedulerProfile)
    : option (gmap string (option ProfileRunResult) * CycleState) :=
  let '(results, c) := acc in
  '(r, c) ← Run np.2 request c candidateEndpoints;
  Some (<[np.1 := match r with inl result => Some result | inr _ => None end]> results, c).

Fixpoint schedule_loop (fuel : nat) (h : ProfileHandler) (profiles : gmap string SchedulerProfile)
    (request : LLMRequest) (candidateEndpoints : list E)
    (acc : gmap string (option ProfileRunResult) * CycleState)
    : option (gmap string (option ProfileRunResult) * CycleState) :=
  match fuel with
  | O => None
  | S fuel =>
      let '(results, c) := acc in
      let '(picked, c) := Pick h c request profiles results in
      if Nat.eqb (size picked) 0 then Some (results, c)
      else acc ← ofold (run_profile request candidateEndpoints) (range_profiles picked) (results, c);
           schedule_loop fuel h profiles request candidateEndpoints acc
  end.

(** [None] is a panic, or a loop that has not ended within the fuel. *)
Definition Schedule (fuel : nat) (h : ProfileHandler) (profiles : gmap string SchedulerProfile)
    (newCycleState : CycleState) (request : LLMRequest) (candidateEndpoints : list E)
    : option (SchedulingResult + schedule_error) :=
  '(results, c) ← schedule_loop fuel h profiles request candidateEndpoints (∅, newCycleState);
  if Nat.eqb (size results) 0 then Some (inr ErrNoProfileRun)
  else Some (ProcessResults h c request results).

(** * The single-profile handler *)

Definition single_Pick (c : CycleState) (request : LLMRequest) (profiles : gmap string SchedulerProfile)
    (profileResults : gmap string (option ProfileRunResult)) : gmap string SchedulerProfile * CycleState :=
  if Nat.eqb (size profiles) (size profileResults) then (∅, c) else (profiles, c).

Definition single_ProcessResults (c : CycleState) (request : LLMRequest)
    (profileResults : gmap string (option ProfileRunResult)) : SchedulingResult + schedule_error :=
  match map_to_list profileResults with
  | [(singleProfileName, result)] =>
      match result with
      | None => inr (ErrProfileFailed singleProfileName)
      | Some _ => inl {| ProfileResults := profileResults; PrimaryProfileName := singleProfileName |}
      end
  | _ => inr ErrNotSingleProfile
  end.

Definition SingleProfileHandler : ProfileHandler :=
  {| Pick := single_Pick; ProcessResults := single_ProcessResults |}.

End Scheduler.
