(* ===== verification/SchedulerProps.v ===== *)
(** The scheduler: a request goes to endpoints with the highest weighted score
    among those the filters left, whatever the iteration orders and the random
    tie break, and the scheduling loop ends. *)

From S2P Require Import Prelude Doubles Scheduler.

(** * Scores that are not NaN *)

(** Not negative and not NaN. *)
Definition nonneg (x : spec_float) : bool :=
  match x with
  | S754_zero _ | S754_infinity false | S754_finite false _ _ => true
  | _ => false
  end.

Definition finite (x : spec_float) : bool :=
  match x with S754_zero _ | S754_finite _ _ _ => true | _ => false end.

Lemma nonneg_not_nan x : nonneg x = true -> is_nan x = false.
Proof. by destruct x. Qed.

Lemma iter_pos_ind {A} (P : A -> Prop) (f : A -> A) n x : (forall y, P y -> P (f y)) -> P x -> P (iter_pos f n x).
Proof. intros Hf. revert x. induction n as [n IH|n IH|]; intros x Hx; simpl; auto. Qed.

Lemma shr_nonneg p e m ex l : 0 <= m -> 0 <= shr_m (shr_fexp p e m ex l).1.
Proof.
  intros Hm. unfold shr_fexp, shr. assert (0 <= shr_m (shr_record_of_loc m l)) by (by rewrite shr_m_of_loc).
  destruct (_ - _) as [|n|n]; [done| |done]. simpl.
  apply (iter_pos_ind (fun r => 0 <= shr_m r)); [|done]. intros [[|[]|[]] r s]; simpl; lia.
Qed.

(** Rounding keeps the sign, and never makes NaN of a mantissa that is not
    negative. *)
Lemma round_aux_cases s m e l : 0 <= m ->
  let x := binary_round_aux prec emax s m e l in
  x = S754_zero s \/ x = S754_infinity s \/ exists m' e', x = S754_finite s m' e'.
Proof.
  intros Hm. unfold binary_round_aux. pose proof (shr_nonneg prec emax m e l Hm) as H1.
  destruct (shr_fexp prec emax m e l) as [mrs e']. simpl in H1.
  pose proof (round_range (shr_m mrs) (loc_of_shr_record mrs)) as Hr.
  pose proof (shr_nonneg prec emax (round_nearest_even (shr_m mrs) (loc_of_shr_record mrs)) e' loc_Exact ltac:(lia)) as H2.
  destruct (shr_fexp _ _ _ e' loc_Exact) as [mrs' e'']. simpl in H2.
  destruct (shr_m mrs'); [by left|case_match; eauto|lia].
Qed.

Lemma round_aux_nonneg m e l : 0 <= m -> nonneg (binary_round_aux prec emax false m e l) = true.
Proof. intros Hm. by destruct (round_aux_cases false m e l Hm) as [->|[->|(? & ? & ->)]]. Qed.

Lemma round_aux_not_nan s m e l : 0 <= m -> is_nan (binary_round_aux prec emax s m e l) = false.
Proof. intros Hm. by destruct (round_aux_cases s m e l Hm) as [->|[->|(? & ? & ->)]]. Qed.

Lemma f64_mul_nonneg x y :
  nonneg x = true -> nonneg y = true -> finite x = true -> finite y = true -> nonneg (f64_mul x y) = true.
Proof. destruct x as [|[]| |[]], y as [|[]| |[]]; try done. intros. by apply round_aux_nonneg. Qed.

Lemma f64_add_nonneg x y : nonneg x = true -> nonneg y = true -> nonneg (f64_add x y) = true.
Proof.
  destruct x as [[]|[]| |[] m e], y as [[]|[]| |[] n f]; try done. intros _ _.
  unfold f64_add, SFadd, cond_Zopp. rewrite <- Pos2Z.inj_add. unfold binary_normalize, binary_round.
  destruct (shl_align _ _ (fexp _ _ _)). by apply round_aux_nonneg.
Qed.

Lemma enforce_range x :
  is_nan x = false ->
  nonneg (enforceScoreRange x) = true /\ finite (enforceScoreRange x) = true /\
  SFltb f64_one (enforceScoreRange x) = false.
Proof.
  intros Hx. unfold enforceScoreRange. destruct (SFltb x f64_zero) eqn:H0; [done|].
  destruct (SFltb f64_one x) eqn:H1; [done|]. by destruct x as [|[]| |[]].
Qed.

(** * Weighted scores *)

Section Scores.
Context {E : Type} `{Countable E}.
Context {CycleState LLMRequest : Type}.
Implicit Types (e : E) (ss : list (@WeightedScorer E _ _ CycleState LLMRequest)).

(** The scores the scorers give, each with the weight of its scorer. *)
Fixpoint given ss (c : CycleState) (request : LLMRequest) (endpoints : list E) : list (gmap E spec_float * spec_float) :=
  match ss with
  | [] => []
  | s :: ss =>
      let '(scores, c) := ws_Scorer s c request endpoints in
      (scores, weight s) :: given ss c request endpoints
  end.

(** The weighted score of one endpoint. *)
Definition weighted_score (gs : list (gmap E spec_float * spec_float)) e : spec_float :=
  foldl (fun acc '(scores, w) =>
    match scores !! e with
    | None => acc
    | Some s => f64_add acc (f64_mul (enforceScoreRange s) w)
    end) f64_zero gs.

(** Scorers score only the endpoints they were given, without NaN, and have
    finite weights that are not negative. *)
Definition well_scored (endpoints : list E) (gs : list (gmap E spec_float * spec_float)) : Prop :=
  Forall (fun '(scores, w) =>
    (forall e s, scores !! e = Some s -> e ∈ endpoints /\ is_nan s = false) /\
    nonneg w = true /\ finite w = true) gs.

Lemma weighted_score_nonneg endpoints gs e : well_scored endpoints gs -> nonneg (weighted_score gs e) = true.
Proof.
  unfold weighted_score. assert (nonneg f64_zero = true) as Hz by done. revert Hz. generalize f64_zero as acc.
  induction gs as [|[scores w] gs IH]; intros acc Ha; [done|]. intros [[Hs [Hw Hf]] Hgs]%Forall_cons. simpl.
  apply IH; [|done]. destruct (scores !! e) as [s|] eqn:Es; [|done]. apply f64_add_nonneg; [done|].
  destruct (enforce_range s) as (? & ? & _); [by eapply Hs|]. by apply f64_mul_nonneg.
Qed.

Lemma accumulate_all w l : forall m, NoDup l.*1 -> forall e,
  foldl (accumulate w) m l !! e =
  match (list_to_map l : gmap E spec_float) !! e with
  | None => m !! e
  | Some s => Some (f64_add (default f64_zero (m !! e)) (f64_mul (enforceScoreRange s) w))
  end.
Proof.
  induction l as [|[e0 s0] l IH]; intros m Hnd e; [done|]. apply NoDup_cons in Hnd as [Hn Hnd]. simpl.
  rewrite IH by done. destruct (decide (e = e0)) as [->|Hne].
  - rewrite (not_elem_of_list_to_map_1 l e0) by done. by rewrite !lookup_insert_eq.
  - by rewrite !(lookup_insert_ne _ e0 e) by done.
Qed.

Section Range.
Variable range : gmap E spec_float -> list (E * spec_float).
Hypothesis range_perm : forall m, range m ≡ₚ map_to_list m.

Lemma range_NoDup m : NoDup (range m).*1.
Proof. rewrite (range_perm m). apply NoDup_fst_map_to_list. Qed.

Lemma range_to_map m : list_to_map (range m) = m.
Proof. rewrite (list_to_map_proper _ _ (range_NoDup m) (range_perm m)). apply list_to_map_to_list. Qed.

Lemma score_loop_spec ss : forall c request endpoints m e,
  (score_loop range ss c request endpoints m).1 !! e =
  foldl (fun acc '(scores, w) =>
    match scores !! e with
    | None => acc
    | Some s => Some (f64_add (default f64_zero acc) (f64_mul (enforceScoreRange s) w))
    end) (m !! e) (given ss c request endpoints).
Proof.
  induction ss as [|s ss IH]; intros c request endpoints m e; [done|]. simpl.
  destruct (ws_Scorer s c request endpoints) as [scores c1]. simpl. rewrite IH.
  by rewrite accumulate_all, range_to_map by apply range_NoDup.
Qed.

Lemma initial_scores endpoints : forall (m : gmap E spec_float) e,
  foldl (fun m e => <[e := f64_zero]> m) m endpoints !! e =
  if decide (e ∈ endpoints) then Some f64_zero else m !! e.
Proof.
  induction endpoints as [|e0 endpoints IH]; intros m e; cbn [foldl]; [by rewrite decide_False by set_solver|].
  rewrite IH. destruct (decide (e = e0)) as [->|Hne].
  - rewrite lookup_insert_eq, (decide_True _ _ (P := e0 ∈ e0 :: endpoints)) by set_solver. by case_decide.
  - rewrite lookup_insert_ne by done. repeat case_decide; set_solver.
Qed.

Lemma fold_score (gs : list (gmap E spec_float * spec_float)) e : forall acc,
  foldl (fun acc '(scores, w) =>
    match scores !! e with
    | None => acc
    | Some s => Some (f64_add (default f64_zero acc) (f64_mul (enforceScoreRange s) w))
    end) (Some acc) gs =
  Some (foldl (fun acc '(scores, w) =>
    match scores !! e with
    | None => acc
    | Some s => f64_add acc (f64_mul (enforceScoreRange s) w)
    end) acc gs).
Proof.
  induction gs as [|[scores w] gs IH]; intros acc; [done|]. simpl. rewrite <- IH. by destruct (scores !! e).
Qed.

(** Every endpoint that was given has its weighted score, and no other. *)
Lemma runScorerPlugins_spec ss c request endpoints e :
  well_scored endpoints (given ss c request endpoints) ->
  (runScorerPlugins range ss c request endpoints).1 !! e =
  if decide (e ∈ endpoints) then Some (weighted_score (given ss c request endpoints) e) else None.
Proof.
  intros Hw. unfold runScorerPlugins. rewrite score_loop_spec, initial_scores, lookup_empty. unfold weighted_score.
  case_decide as He.
  - apply fold_score.
  - induction (given ss c request endpoints) as [|[scores w] gs IH]; [done|].
    apply Forall_cons in Hw as [[Hs _] Hw]. simpl. destruct (scores !! e) as [s|] eqn:Es; [by destruct He; eapply Hs|auto].
Qed.

End Range.
End Scores.

(** * Pickers *)

Lemma sorted_take_drop {A} (R : A -> A -> Prop) n l x y :
  StronglySorted R l -> x ∈ take n l -> y ∈ drop n l -> R x y.
Proof.
  intros Hs. revert n. induction Hs as [|z l Hs IH Hz]; intros [|n] Hx Hy; try by apply elem_of_nil in Hx.
  simpl in *. apply elem_of_cons in Hx as [->|Hx]; [|by eapply IH].
  rewrite Forall_forall in Hz. apply Hz. by eapply (subseteq_drop n l).
Qed.

Lemma NoDup_fmap_perm {A B} (f : A -> B) l k : l ≡ₚ k -> NoDup (f <$> k) -> NoDup (f <$> l).
Proof. intros Hp. by rewrite Hp. Qed.

(** The [n] first elements of an arrangement of [l], against the others. *)
Lemma first_n {A B} (f : A -> B) (l k : list A) n :
  k ≡ₚ l -> NoDup (f <$> l) ->
  NoDup (f <$> take n k) /\ (f <$> take n k) ⊆ (f <$> l) /\
  length (f <$> take n k) = Nat.min n (length l) /\
  (forall x, x ∈ l -> f x ∉ (f <$> take n k) -> x ∈ drop n k).
Proof.
  intros Hp Hnd. pose proof (NoDup_fmap_perm f k l Hp Hnd) as Hk.
  assert (NoDup (f <$> take n k)) as Ht by (rewrite fmap_take; by eapply sublist_NoDup; [|apply sublist_take]).
  split_and!; [done| |by rewrite length_fmap, length_take, Hp|].
  - rewrite <- Hp, fmap_take. apply subseteq_take.
  - intros x Hx Hn. rewrite <- Hp, <- (take_drop n k) in Hx. apply elem_of_app in Hx as [Hx|Hx]; [|done].
    destruct Hn. by apply list_elem_of_fmap_2.
Qed.

(** * Running a profile *)

Section Profiles.
Context {E : Type} `{Countable E}.
Context {CycleState LLMRequest : Type}.
Implicit Types (c : CycleState) (request : LLMRequest).

Notation Profile := (@SchedulerProfile E _ _ CycleState LLMRequest).

(** Filters that only leave endpoints out. *)
Definition filters_only (fs : list (@Filter E CycleState LLMRequest)) : Prop :=
  Forall (fun f => forall c request l, (f c request l).1 ⊆ l) fs.

Lemma runFilterPlugins_subset fs : filters_only fs -> forall c request l, (runFilterPlugins fs c request l).1 ⊆ l.
Proof.
  induction fs as [|f fs IH]; intros Hf c request l; [done|]. apply Forall_cons in Hf as [Hf Hfs]. simpl.
  specialize (Hf c request l). destruct (f c request l) as [[|e l'] c']; [set_solver|]. simpl in Hf.
  etransitivity; [by apply IH|done].
Qed.

Variable range : gmap E spec_float -> list (E * spec_float).
Hypothesis range_perm : forall m, range m ≡ₚ map_to_list m.

(** What the picker is called with. *)
Definition scored_list (m : gmap E spec_float) : list ScoredEndpoint :=
  (fun '(e, s) => {| se_Endpoint := e; Score := s |}) <$> range m.

Lemma scored_list_spec m :
  NoDup (se_Endpoint <$> scored_list m) /\ length (scored_list m) = size m /\
  forall se, se ∈ scored_list m <-> m !! se_Endpoint se = Some (Score se).
Proof.
  unfold scored_list. split_and!.
  - rewrite <- list_fmap_compose. rewrite (list_fmap_ext _ fst) by (by intros ? [] ?). by apply range_NoDup.
  - by rewrite length_fmap, range_perm, length_map_to_list.
  - intros [e s]. rewrite list_elem_of_fmap. setoid_rewrite (range_perm m). split.
    + intros ([e' s'] & [= -> ->] & Hin). by apply elem_of_map_to_list.
    + intros Hm. exists (e, s). split; [done|]. by apply elem_of_map_to_list.
Qed.

(** A best choice of at most [n] endpoints for the scores [score], in
    descending order of their scores. *)
Record best_choice (score : E -> spec_float) (endpoints : list E) (n : Z) (targets : list E) : Prop := {
  bc_nodup : NoDup targets;
  bc_subset : targets ⊆ endpoints;
  bc_length : Z.of_nat (length targets) = Z.min n (Z.of_nat (size (list_to_set endpoints : gset E)));
  bc_best t e : t ∈ targets -> e ∈ endpoints -> e ∉ targets -> SFltb (score t) (score e) = false;
  bc_sorted : StronglySorted (fun t u => SFltb (score t) (score u) = false) targets
}.

Lemma best_choice_nil score endpoints n : 0 < n -> best_choice score endpoints n [] -> endpoints = [].
Proof.
  intros Hn [_ _ Hlen _ _]. destruct endpoints as [|e l]; [done|]. rewrite list_to_set_cons, size_union_alt, size_singleton in Hlen.
  change (Z.of_nat (length [])) with 0 in Hlen. lia.
Qed.

Lemma first_endpoints_take max (l : list (@ScoredEndpoint E)) :
  0 < max -> TargetEndpoints (first_endpoints max l) = se_Endpoint <$> take (Z.to_nat max) l.
Proof.
  intros Hm. unfold first_endpoints. simpl. f_equal. case_match; [done|]. rewrite take_ge by lia. done.
Qed.

Lemma StronglySorted_fmap_on {A B} (R1 : A -> A -> Prop) (R2 : B -> B -> Prop) (f : A -> B) l :
  (forall x y, x ∈ l -> y ∈ l -> R1 x y -> R2 (f x) (f y)) -> StronglySorted R1 l -> StronglySorted R2 (f <$> l).
Proof.
  intros Hf Hs. induction Hs as [|x l _ IH Hx]; [constructor|]. cbn [fmap list_fmap]. constructor.
  - apply IH. intros y z Hy Hz. apply Hf; by right.
  - rewrite Forall_fmap. rewrite Forall_forall in Hx |- *. intros y Hy. simpl. apply Hf; [left|by right|by apply Hx].
Qed.

Lemma max_score_best shuffle sort k c (score : E -> spec_float) endpoints m :
  (forall l, shuffle l ≡ₚ l) -> sorts_by higher_score sort ->
  (forall e, is_nan (score e) = false) ->
  (forall e, m !! e = if decide (e ∈ endpoints) then Some (score e) else None) ->
  exists targets, MaxScorePicker shuffle sort k c (scored_list m) = ({| TargetEndpoints := targets |}, c) /\
    best_choice score endpoints (max_endpoints k) targets.
Proof.
  intros Hsh Hso Hnan Hm. destruct (scored_list_spec m) as (Hnd & Hlen & Hin).
  destruct (Hso (shuffle (scored_list m))) as [Hp0 Hs].
  pose proof (Permutation_trans Hp0 (Hsh _)) as Hp. clear Hp0.
  set (n := Z.to_nat (max_endpoints k)). set (l := sort _) in *.
  assert (0 < max_endpoints k) as Hk by (unfold max_endpoints, DefaultMaxNumOfEndpoints; case_match; lia).
  exists (se_Endpoint <$> take n l). unfold MaxScorePicker. fold l. split.
  { f_equal. rewrite <- (first_endpoints_take _ _ Hk). by destruct (first_endpoints _ _). }
  destruct (first_n se_Endpoint _ l n Hp Hnd) as (H1 & H2 & H3 & H4).
  assert (forall se, se ∈ scored_list m -> Score se = score (se_Endpoint se) /\ se_Endpoint se ∈ endpoints) as Hsc.
  { intros se Hse%Hin. rewrite Hm in Hse. case_decide; [|done]. by injection Hse as <-. }
  assert (StronglySorted (fun a b => higher_score b a = false) l) as Hsort.
  { apply Hs. apply weak_on_f64. unfold nan_free. rewrite Forall_fmap, Forall_forall. intros x Hx.
    rewrite Hsh in Hx. simpl. destruct (Hsc x Hx) as [-> _]. apply Hnan. }
  split; [done|..].
  - intros e He%H2. apply list_elem_of_fmap in He as (se & -> & Hse). by apply Hsc.
  - rewrite H3, Hlen. assert (dom m = list_to_set endpoints) as Hd.
    { apply set_eq. intros e. rewrite elem_of_dom, Hm, elem_of_list_to_set. case_decide; split; naive_solver. }
    rewrite <- Hd, size_dom. unfold n. lia.
  - intros t e Ht He Hne. apply list_elem_of_fmap in Ht as (se & -> & Hse).
    assert (se ∈ scored_list m) as Hse' by (rewrite <- Hp; by eapply subseteq_take).
    destruct (Hsc se Hse') as [<- _].
    set (se2 := {| se_Endpoint := e; Score := score e |}).
    assert (se2 ∈ scored_list m) as Hse2 by (apply Hin; simpl; by rewrite Hm, decide_True).
    change (higher_score se2 se = false).
    apply (sorted_take_drop (fun a b => higher_score b a = false) n l); [done|done|by apply H4].
  - eapply StronglySorted_fmap_on; [|rewrite <- (take_drop n l) in Hsort; by apply StronglySorted_app_1_l in Hsort].
    intros x y Hx%subseteq_take Hy%subseteq_take Hxy. rewrite Hp in Hx, Hy.
    destruct (Hsc x Hx) as [<- _], (Hsc y Hy) as [<- _]. exact Hxy.
Qed.

(** The endpoints the filters leave, and the scores they get. *)
Definition eligible (p : Profile) c request (candidates : list E) : list E :=
  (runFilterPlugins (filters p) c request candidates).1.

Definition scores_of (p : Profile) c request (candidates : list E) : list (gmap E spec_float * spec_float) :=
  given (scorers p) (runFilterPlugins (filters p) c request candidates).2 request (eligible p c request candidates).

Lemma Run_best shuffle sort k fs ss c request candidates :
  let p : Profile := {| filters := fs; scorers := ss; picker := Some (MaxScorePicker shuffle sort k) |} in
  (forall l, shuffle l ≡ₚ l) -> sorts_by higher_score sort ->
  well_scored (eligible p c request candidates) (scores_of p c request candidates) ->
  exists c',
    if decide (eligible p c request candidates = [])
    then Run range p request c candidates = Some (inr ErrNoEndpoints, c')
    else exists targets, Run range p request c candidates = Some (inl {| TargetEndpoints := targets |}, c') /\
      best_choice (weighted_score (scores_of p c request candidates)) (eligible p c request candidates)
        (max_endpoints k) targets.
Proof.
  intros p Hsh Hso. unfold scores_of, eligible, Run. destruct (runFilterPlugins _ c request candidates) as [l c1].
  cbn [fst snd]. intros Hw. case_decide as Hl; [subst; by eexists|]. destruct l as [|e0 l0] eqn:El; [done|]. rewrite <- El in *.
  pose proof (fun e => runScorerPlugins_spec range range_perm (scorers p) c1 request l e Hw) as Hsc.
  destruct (runScorerPlugins range (scorers p) c1 request l) as [m c2]. cbn [fst] in Hsc. exists c2.
  destruct (max_score_best shuffle sort k c2 _ l m Hsh Hso
    (fun e => nonneg_not_nan _ (weighted_score_nonneg l _ e Hw)) Hsc) as (targets & Hpick & Hbest).
  exists targets. split; [|done]. unfold runPickerPlugin. cbn [picker p mbind option_bind].
  fold (scored_list m). by rewrite Hpick.
Qed.

(** * The scheduling loop *)

Variable range_profiles : gmap string Profile -> list (string * Profile).
Hypothesis range_profiles_perm : forall m, range_profiles m ≡ₚ map_to_list m.

Lemma Run_total (p : Profile) request c candidates : is_Some (picker p) -> is_Some (Run range p request c candidates).
Proof.
  intros [k Hk]. unfold Run. destruct (runFilterPlugins _ _ _ _) as [[|e l] c1]; [done|].
  destruct (runScorerPlugins _ _ _ _ _) as [m c2]. unfold runPickerPlugin. rewrite Hk. cbn [mbind option_bind].
  by destruct (k c2 _).
Qed.

Lemma run_profiles request candidates (l : list (string * Profile)) : forall results c,
  Forall (fun np => is_Some (picker np.2)) l ->
  exists results' c', ofold (run_profile range request candidates) l (results, c) = Some (results', c') /\
    dom results' = dom results ∪ list_to_set l.*1.
Proof.
  induction l as [|[name p] l IH]; intros results c Hl; [exists results, c; split; [done|set_solver]|].
  apply Forall_cons in Hl as [Hp Hl]. destruct (Run_total p request c candidates Hp) as [[r c1] Hr].
  cbn [ofold run_profile fst snd]. rewrite Hr. cbn [mbind option_bind].
  destruct (IH (<[name := match r with inl result => Some result | inr _ => None end]> results) c1 Hl)
    as (results' & c' & Hrun & Hd).
  exists results', c'. split; [exact Hrun|]. rewrite Hd, dom_insert_L. set_solver.
Qed.

(** The loop runs all profiles once and then stops. *)
Lemma single_loop fuel profiles request candidates c :
  map_Forall (fun _ p => is_Some (picker p)) profiles -> (2 <= fuel)%nat ->
  exists results c', schedule_loop range range_profiles fuel SingleProfileHandler profiles request candidates (∅, c) =
      Some (results, c') /\ dom results = dom profiles /\
    (profiles <> ∅ -> ofold (run_profile range request candidates) (range_profiles profiles) (∅, c) = Some (results, c')).
Proof.
  intros Hp Hf. destruct fuel as [|[|fuel]]; [lia..|]. cbn [schedule_loop Pick SingleProfileHandler].
  unfold single_Pick at 1. rewrite map_size_empty. destruct (Nat.eqb_spec (size profiles) 0) as [Hz|Hz].
  { apply map_size_empty_inv in Hz as ->. exists ∅, c. by rewrite map_size_empty. }
  destruct (Nat.eqb_spec (size profiles) 0) as [|_]; [done|].
  destruct (run_profiles request candidates (range_profiles profiles) ∅ c) as (results & c' & Hrun & Hd).
  { rewrite (range_profiles_perm profiles). apply Forall_forall. intros [name p] Hin%elem_of_map_to_list. by eapply Hp. }
  assert (dom results = dom profiles) as Hdom.
  { rewrite Hd, dom_empty_L, union_empty_l_L, (range_profiles_perm profiles). apply set_eq. intros x.
    rewrite elem_of_list_to_set, elem_of_dom, list_elem_of_fmap. split.
    - intros ([? p] & -> & Hin%elem_of_map_to_list). by eexists.
    - intros [p Hx]. exists (x, p). by rewrite elem_of_map_to_list. }
  rewrite Hrun. cbn [mbind option_bind]. exists results, c'. split_and!; [|done|done].
  unfold single_Pick. rewrite <- (size_dom profiles), <- (size_dom results), Hdom, Nat.eqb_refl. by rewrite map_size_empty.
Qed.

End Profiles.

(** * Properties *)

(** With one profile, scheduling is running it. *)
Lemma schedule_one {E} `{Countable E} {C R : Type} range range_profiles (p : @SchedulerProfile E _ _ C R) name
    (c : C) (request : R) candidates fuel :
  (forall m, range m ≡ₚ map_to_list m) -> (forall m, range_profiles m ≡ₚ map_to_list m) ->
  is_Some (picker p) -> (2 <= fuel)%nat ->
  Schedule range range_profiles fuel SingleProfileHandler {[ name := p ]} c request candidates =
  '(r, _) ← Run range p request c candidates;
  Some (match r with
        | inl result => inl {| ProfileResults := {[ name := Some result ]}; PrimaryProfileName := name |}
        | inr _ => inr (ErrProfileFailed name)
        end).
Proof.
  intros Hr Hrp Hp Hf.
  destruct (single_loop range Hr range_profiles Hrp fuel {[ name := p ]} request candidates c) as (results & c' & Hloop & Hd & Hrun);
    [by apply map_Forall_singleton|done|].
  specialize (Hrun (map_non_empty_singleton _ _)).
  pose proof (Hrp {[ name := p ]}) as Hone. rewrite map_to_list_singleton in Hone.
  apply Permutation_singleton_r in Hone. rewrite Hone in Hrun.
  unfold Schedule. rewrite Hloop. cbn [mbind option_bind]. cbn [ofold run_profile fst snd] in Hrun.
  destruct (Run range p request c candidates) as [[r c1]|]; [|done]. cbn [mbind option_bind] in *.
  injection Hrun as <- _. rewrite insert_empty, map_size_singleton. cbn [Nat.eqb ProcessResults SingleProfileHandler].
  unfold single_ProcessResults. rewrite map_to_list_singleton. by destruct r.
Qed.

(** C11: Scheduling picks the best endpoints.  One profile with filters, weighted
    scorers and the max-score picker, under the single-profile handler: if the
    filters leave no endpoint the request fails for that profile; otherwise the
    result names that profile and distinct endpoints that the filters left, as
    many as the picker may return, in descending order of their weighted scores,
    none of which has a lower weighted score than an endpoint that was left out.
    This holds for every order in which the maps are iterated, every shuffle and
    every sort by score, provided the scorers score only endpoints they are given,
    never with NaN, and have finite weights that are not negative. *)
Theorem schedule_picks_best {E} `{Countable E} {C R : Type} range range_profiles shuffle sort
    (fs : list (@Filter E C R)) ss k name (c : C) (request : R) candidates fuel :
  let p := {| filters := fs; scorers := ss; picker := Some (MaxScorePicker shuffle sort k) |} in
  (forall m, range m ≡ₚ map_to_list m) -> (forall m, range_profiles m ≡ₚ map_to_list m) ->
  (forall l, shuffle l ≡ₚ l) -> sorts_by higher_score sort ->
  well_scored (eligible p c request candidates) (scores_of p c request candidates) -> (2 <= fuel)%nat ->
  let scheduled := Schedule range range_profiles fuel SingleProfileHandler {[ name := p ]} c request candidates in
  if decide (eligible p c request candidates = [])
  then scheduled = Some (inr (ErrProfileFailed name))
  else exists targets,
    scheduled = Some (inl {| ProfileResults := {[ name := Some {| TargetEndpoints := targets |} ]};
                             PrimaryProfileName := name |}) /\
    best_choice (weighted_score (scores_of p c request candidates)) (eligible p c request candidates)
      (max_endpoints k) targets /\
    (filters_only fs -> targets ⊆ candidates).
Proof.
  intros p Hr Hrp Hsh Hso Hw Hf scheduled. subst scheduled. rewrite schedule_one by (done || by eexists).
  destruct (Run_best range Hr shuffle sort k fs ss c request candidates Hsh Hso Hw) as (c1 & HR). fold p in HR.
  case_decide as He; [by rewrite HR|]. destruct HR as (targets & -> & Hb). exists targets. split_and!; [done|done|].
  intros Hfo. etransitivity; [apply Hb|]. by apply runFilterPlugins_subset.
Qed.

(** * A sort *)

Section Insertion.
Context {A : Type} (less : A -> A -> bool).

Fixpoint insert_sorted (x : A) (l : list A) : list A :=
  match l with
  | [] => [x]
  | y :: l => if less y x then y :: insert_sorted x l else x :: y :: l
  end.

Definition insertion_sort (l : list A) : list A := foldr insert_sorted [] l.

Lemma insert_sorted_perm x l : insert_sorted x l ≡ₚ x :: l.
Proof. induction l as [|y l IH]; simpl; [done|]. case_match; [|done]. rewrite IH. apply perm_swap. Qed.

Lemma weak_on_incl l k : k ⊆ l -> weak_on less l -> weak_on less k.
Proof.
  intros Hs [H1 H2 H3]. split; [auto|..].
  - intros x y z Hx Hy Hz. apply H2; by apply Hs.
  - intros x y z Hx Hy Hz. apply H3; by apply Hs.
Qed.

Lemma insert_sorted_sorted x l :
  weak_on less (x :: l) -> StronglySorted (fun a b => less b a = false) l ->
  StronglySorted (fun a b => less b a = false) (insert_sorted x l).
Proof.
  induction l as [|y l IH]; intros Hw Hs; simpl; [by repeat constructor|].
  apply StronglySorted_inv in Hs as [Hs Hy]. destruct (less y x) eqn:Hyx.
  - constructor; [apply IH; [|done]; eapply weak_on_incl; [|done]; set_solver|].
    rewrite insert_sorted_perm. constructor; [|done]. destruct (less x y) eqn:Hxy; [|done].
    rewrite <- (wo_irrefl _ _ Hw x ltac:(left)). symmetry. eapply (wo_trans _ _ Hw x y x); set_solver.
  - constructor; [by constructor|]. constructor; [done|]. rewrite Forall_forall in *. intros z Hz.
    apply (wo_incomp _ _ Hw z y x); [set_solver..|by apply Hy|done].
Qed.

Lemma insertion_sort_perm l : insertion_sort l ≡ₚ l.
Proof. induction l as [|x l IH]; [done|]. simpl. by rewrite insert_sorted_perm, IH. Qed.

Lemma insertion_sort_sorts : sorts_by less insertion_sort.
Proof.
  intros l.  split; [apply insertion_sort_perm|]. induction l as [|x l IH]; intros Hw; [constructor|]. simpl.
  apply insert_sorted_sorted; [|apply IH; eapply weak_on_incl; [|done]; set_solver].
  eapply weak_on_incl; [|done]. intros z. rewrite !elem_of_cons, insertion_sort_perm. tauto.
Qed.

End Insertion.

(** Four endpoints: the filter drops one, a scorer of weight 2 and one of weight
    1 that does not know all of them. *)
Definition sample_filter : @Filter Z unit unit := fun c _ l => (filter (fun e => e <> 4) l, c).

Definition half : spec_float := S754_finite false 4503599627370496 (-53).
Definition two : spec_float := S754_finite false 4503599627370496 (-51).

Definition sample_scorers : list (@WeightedScorer Z _ _ unit unit) :=
  [{| ws_Scorer := fun c _ _ => ({[ 1 := half; 2 := f64_one; 3 := two ]}, c); weight := two |};
   {| ws_Scorer := fun c _ _ => ({[ 1 := f64_one; 2 := half ]}, c); weight := f64_one |}].

Definition sample_profile (k : Z) : @SchedulerProfile Z _ _ unit unit :=
  {| filters := [sample_filter]; scorers := sample_scorers;
     picker := Some (MaxScorePicker (@reverse _) (insertion_sort higher_score) k) |}.

Lemma sample_well_scored k :
  well_scored (eligible (sample_profile k) tt tt [1; 2; 3; 4]) (scores_of (sample_profile k) tt tt [1; 2; 3; 4]).
Proof.
  unfold scores_of, eligible, well_scored. cbn [given sample_profile scorers sample_scorers ws_Scorer weight].
  assert (forall x, x ∈ [1; 2; 3] -> x ∈ (runFilterPlugins [sample_filter] tt tt [1; 2; 3; 4]).1) as Hin by done.
  apply Forall_cons. split; [|apply Forall_singleton]; (split; [|done]); intros e s;
    rewrite ?lookup_insert_Some, lookup_singleton_Some; intros He;
    repeat match goal with H : _ \/ _ |- _ => destruct H | H : _ /\ _ |- _ => destruct H end; subst; (split; [apply Hin; set_solver|done]).
Qed.

Lemma schedule_picks_best_witness :
  exists targets,
    Schedule map_to_list map_to_list 2 SingleProfileHandler {[ "default"%string := sample_profile 2 ]} tt tt [1; 2; 3; 4] =
      Some (inl {| ProfileResults := {[ "default"%string := Some {| TargetEndpoints := targets |} ]};
                   PrimaryProfileName := "default" |}) /\
    targets = [2; 1].
Proof.
  pose proof (schedule_picks_best map_to_list map_to_list (@reverse _) (insertion_sort higher_score)
    [sample_filter] sample_scorers 2 "default" tt tt [1; 2; 3; 4] 2 (fun _ => reflexivity _) (fun _ => reflexivity _)
    (fun l => reverse_Permutation l) (insertion_sort_sorts higher_score) (sample_well_scored 2) (le_n 2)) as Hs.
  cbv zeta in Hs. fold (sample_profile 2) in Hs. destruct (decide (eligible (sample_profile 2) tt tt [1; 2; 3; 4] = [])) as [Hc|_];
    [discriminate Hc|]. destruct Hs as (targets & Hs & _ & _). exists targets. split; [exact Hs|].
  assert (Hobs : match Schedule map_to_list map_to_list 2 SingleProfileHandler {[ "default"%string := sample_profile 2 ]}
                   tt tt [1; 2; 3; 4] with
    | Some (inl r) => concat (map (fun e => match e.2 with Some t => TargetEndpoints t | None => [] end)
                                (map_to_list (ProfileResults r)))
    | _ => [] end = [2; 1]) by (vm_compute; reflexivity).
  rewrite Hs in Hobs. cbn [ProfileResults] in Hobs. rewrite map_to_list_singleton in Hobs. cbn in Hobs.
  by rewrite app_nil_r in Hobs.
Defined.

(** The scheduling loop ends.  With the single-profile handler, any set of
    profiles that have pickers and any plugins, two iterations are enough and
    nothing panics: without profiles and with several of them the request fails
    with the error for it; with one, the profile runs once, on the initial cycle
    state, and its result or failure is that of the request. *)
Theorem single_profile_schedule_total {E} `{Countable E} {C R : Type} range range_profiles
    (profiles : gmap string (@SchedulerProfile E _ _ C R)) (c : C) (request : R) candidates fuel :
  (forall m, range m ≡ₚ map_to_list m) -> (forall m, range_profiles m ≡ₚ map_to_list m) ->
  map_Forall (fun _ p => is_Some (picker p)) profiles -> (2 <= fuel)%nat ->
  exists r, Schedule range range_profiles fuel SingleProfileHandler profiles c request candidates = Some r /\
    match r with
    | inr ErrNoProfileRun => profiles = ∅
    | inr ErrNotSingleProfile => (2 <= size profiles)%nat
    | inr (ErrProfileFailed name) =>
        exists p c', profiles = {[ name := p ]} /\ Run range p request c candidates = Some (inr ErrNoEndpoints, c')
    | inl result =>
        exists name p t c', profiles = {[ name := p ]} /\ Run range p request c candidates = Some (inl t, c') /\
          result = {| ProfileResults := {[ name := Some t ]}; PrimaryProfileName := name |}
    end.
Proof.
  intros Hr Hrp Hp Hf.
  destruct (single_loop range Hr range_profiles Hrp fuel profiles request candidates c Hp Hf) as (results & c' & Hloop & Hd & Hrun).
  unfold Schedule. rewrite Hloop. cbn [mbind option_bind].
  assert (size results = size profiles) as Hsz by (by rewrite <- !size_dom, Hd).
  destruct (Nat.eqb_spec (size results) 0) as [Hz|Hz].
  { eexists. split; [done|]. apply map_size_empty_inv. congruence. }
  eexists. split; [done|]. cbn [ProcessResults SingleProfileHandler]. unfold single_ProcessResults.
  destruct (map_to_list results) as [|[name res] [|x l]] eqn:Hl.
  - apply map_to_list_empty_iff in Hl as ->. by rewrite map_size_empty in Hz.
  - assert (results = {[ name := res ]}) as -> by (apply map_to_list_inj; by rewrite Hl, map_to_list_singleton).
    destruct (dom_singleton_inv_L profiles name) as [p ->]; [by rewrite <- Hd, dom_singleton_L|].
    specialize (Hrun (map_non_empty_singleton _ _)). pose proof (Hrp {[ name := p ]}) as Hone.
    rewrite map_to_list_singleton in Hone. apply Permutation_singleton_r in Hone. rewrite Hone in Hrun.
    cbn [ofold run_profile fst snd] in Hrun. destruct (Run range p request c candidates) as [[[t|[]] c1]|] eqn:HR; [..|done];
      apply (f_equal (fun o => match o with Some (m, _) => m !! name | None => None end)) in Hrun;
      cbn beta iota delta [mbind option_bind] in Hrun; rewrite insert_empty, !lookup_singleton_eq in Hrun; injection Hrun as <-.
    + by exists name, p, t, c1.
    + by exists p, c1.
  - rewrite <- Hsz, <- length_map_to_list, Hl. simpl. lia.
Qed.

Lemma single_profile_schedule_total_witness :
  exists r, Schedule map_to_list map_to_list 2 SingleProfileHandler
      {[ "a"%string := sample_profile 1; "b"%string := sample_profile 1 ]} tt tt [1; 2] = Some r /\
    r = inr ErrNotSingleProfile.
Proof.
  destruct (single_profile_schedule_total map_to_list map_to_list
    {[ "a"%string := sample_profile 1; "b"%string := sample_profile 1 ]} tt tt [1; 2] 2
    (fun _ => reflexivity _) (fun _ => reflexivity _)) as (r & Hr & _).
  - apply map_Forall_insert_2; [by eexists|]. apply map_Forall_singleton. by eexists.
  - done.
  - exists r. split; [exact Hr|].
    assert (Hobs : match Schedule map_to_list map_to_list 2 SingleProfileHandler
      {[ "a"%string := sample_profile 1; "b"%string := sample_profile 1 ]} tt tt [1; 2] with
      | Some (inr ErrNotSingleProfile) => true | _ => false end = true) by (vm_compute; reflexivity).
    rewrite Hr in Hobs. by destruct r as [|[]].
Defined.
