(* ===== verification/Scorers.v ===== *)
(** The built-in scheduling plugins over endpoint metrics and attributes
    (src/pkg/epp/framework/plugins/scheduling/scorer and filter): the queue,
    running-requests, KV-cache, LoRA-affinity, token-load and prefix-cache
    scorers, the prefix-affinity and SLO-headroom filters, and the utilization
    saturation detector
    (src/pkg/epp/framework/plugins/flowcontrol/saturationdetector/utilization).

    They are instances of the interfaces of the scheduler.  [metrics] and the
    attribute functions are what the endpoints report during one cycle. *)

From S2P Require Import Prelude Doubles InFlight Scheduler.

Definition f64_sub : spec_float -> spec_float -> spec_float := SFsub prec emax.

(** 0.8, 0.6 and [math.MaxFloat64] *)
Definition f64_0_8 : spec_float := S754_finite false 7205759403792794 (-53).
Definition f64_0_6 : spec_float := S754_finite false 5404319552844595 (-53).
Definition f64_max_value : spec_float := S754_finite false 9007199254740991 971.

(** The built-in [max] on doubles. *)
Definition f64_max (x y : spec_float) : spec_float :=
  if is_nan x || is_nan y then S754_nan
  else match x, y with
       | S754_zero s, S754_zero t => S754_zero (s && t)
       | _, _ => if SFltb x y then y else x
       end.

Record Metrics := {
  ActiveModels : gmap string Z;
  WaitingModels : gmap string Z;
  MaxActiveModels : Z;
  RunningRequestsSize : Z;
  WaitingQueueSize : Z;
  KVCacheUsagePercent : spec_float;
  UpdateTime : Z
}.

Record PrefixCacheMatchInfo := { MatchBlocks : Z; TotalBlocks : Z }.

Record LatencyPredictionInfo := {
  TTFTValid : bool;
  TPOTValid : bool;
  TTFTHeadroom : spec_float;
  TPOTHeadroom : spec_float;
  TTFT : spec_float;
  TPOT : spec_float;
  DispatchedRequestCount : Z
}.

Definition IsValid (info : LatencyPredictionInfo) : bool := TTFTValid info && TPOTValid info.

Section Plugins.

Context {E : Type} `{Countable E}.
Context {CycleState : Type}.

Variable metrics : E -> Metrics.
Variable prefixInfo : E -> option PrefixCacheMatchInfo.
Variable latencyInfo : E -> option LatencyPredictionInfo.
Variable inFlightLoad : E -> option InFlightLoad.

(** The request, as far as these plugins look at it: its target model. *)
Definition request := string.

(** * Scorers *)

(** The map that gives every endpoint its score. *)
Definition score_each (score : E -> spec_float) (endpoints : list E) : gmap E spec_float :=
  foldl (fun scores e => <[e := score e]> scores) ∅ endpoints.

Definition maxInt : Z := two63 - 1.
Definition minInt : Z := - two63.

(** The smallest and the largest size. *)
Definition min_max (size : E -> Z) (endpoints : list E) : Z * Z :=
  foldl (fun '(mn, mx) e => (if size e <? mn then size e else mn, if mx <? size e then size e else mx))
    (maxInt, minInt) endpoints.

(** [endpointScoreFunc] of the queue and the running-requests scorer. *)
Definition size_score (size : E -> Z) (mn mx : Z) (e : E) : spec_float :=
  if mx =? mn then f64_one else f64_div (f64_of_int (i64 (mx - size e))) (f64_of_int (i64 (mx - mn))).

Definition QueueScorer : @Scorer E _ _ CycleState request := fun c _ endpoints =>
  let '(minQueueSize, maxQueueSize) := min_max (fun e => WaitingQueueSize (metrics e)) endpoints in
  (score_each (size_score (fun e => WaitingQueueSize (metrics e)) minQueueSize maxQueueSize) endpoints, c).

Definition RunningRequestsSizeScorer : @Scorer E _ _ CycleState request := fun c _ endpoints =>
  let '(minQueueSize, maxQueueSize) := min_max (fun e => RunningRequestsSize (metrics e)) endpoints in
  (score_each (size_score (fun e => RunningRequestsSize (metrics e)) minQueueSize maxQueueSize) endpoints, c).

Definition KVCacheUtilizationScorer : @Scorer E _ _ CycleState request := fun c _ endpoints =>
  (score_each (fun e => f64_sub f64_one (KVCacheUsagePercent (metrics e))) endpoints, c).

Definition lora_score (targetModel : string) (e : E) : spec_float :=
  let m := metrics e in
  if bool_decide (is_Some (ActiveModels m !! targetModel)) then f64_one
  else if Z.of_nat (size (ActiveModels m)) + Z.of_nat (size (WaitingModels m)) <? MaxActiveModels m then f64_0_8
  else if bool_decide (is_Some (WaitingModels m !! targetModel)) then f64_0_6
  else f64_zero.

Definition LoraAffinityScorer : @Scorer E _ _ CycleState request := fun c targetModel endpoints =>
  (score_each (lora_score targetModel) endpoints, c).

Definition tokenQueueThresholdDefault : Z := 4194304.

(** The factory, after the parameters were decoded. *)
Definition queueThresholdTokens (configured : Z) : spec_float :=
  f64_of_int (if configured <=? 0 then tokenQueueThresholdDefault else configured).

Definition token_score (threshold : spec_float) (e : E) : spec_float :=
  let tokenLoad := match inFlightLoad e with Some load => f64_of_int (Tokens load) | None => f64_zero end in
  if SFleb tokenLoad f64_zero then f64_one
  else let tokenLoad := if SFltb threshold tokenLoad then threshold else tokenLoad in
       f64_sub f64_one (f64_div tokenLoad threshold).

Definition TokenLoadScorer (configured : Z) : @Scorer E _ _ CycleState request := fun c _ endpoints =>
  (score_each (token_score (queueThresholdTokens configured)) endpoints, c).

Definition prefix_score (e : E) : spec_float :=
  match prefixInfo e with
  | None => f64_zero
  | Some info => if TotalBlocks info =? 0 then f64_zero
                 else f64_div (f64_of_int (MatchBlocks info)) (f64_of_int (TotalBlocks info))
  end.

Definition PrefixCacheScorer : @Scorer E _ _ CycleState request := fun c _ endpoints =>
  (score_each prefix_score endpoints, c).

(** * Filters *)

Record AffinityConfig := {
  AffinityThreshold : spec_float;
  ExplorationProbability : spec_float;
  MaxTTFTPenaltyMs : spec_float
}.

Definition affinity_validate (c : AffinityConfig) : bool :=
  negb (SFltb f64_one (AffinityThreshold c)) &&
  negb (SFltb (ExplorationProbability c) f64_zero || SFltb f64_one (ExplorationProbability c)) &&
  negb (SFltb (MaxTTFTPenaltyMs c) f64_zero).

Definition prefixCacheScore (e : E) : spec_float :=
  match prefixInfo e with
  | Some info =>
      if 0 <? TotalBlocks info
      then let score := f64_div (f64_of_int (MatchBlocks info)) (f64_of_int (TotalBlocks info)) in
           if is_nan score then f64_zero else score
      else f64_zero
  | None => f64_zero
  end.

Definition bestTTFT (endpoints : list E) : spec_float :=
  foldl (fun best e => match latencyInfo e with
                       | Some info => if SFltb (TTFT info) best then TTFT info else best
                       | None => best
                       end) f64_max_value endpoints.

(** [draw] is the random number of this call. *)
Definition PrefixAffinityFilter (config : AffinityConfig) (draw : spec_float) : @Filter E CycleState request :=
  fun c _ endpoints =>
  (if Nat.leb (length endpoints) 1 || SFleb (AffinityThreshold config) f64_zero then endpoints
   else if SFltb draw (ExplorationProbability config) then endpoints
   else
     let sticky := List.filter (fun e => SFleb (AffinityThreshold config) (prefixCacheScore e)) endpoints in
     let nonSticky := List.filter (fun e => negb (SFleb (AffinityThreshold config) (prefixCacheScore e))) endpoints in
     match sticky with
     | [] => endpoints
     | _ =>
         if SFltb f64_zero (MaxTTFTPenaltyMs config) && negb (Nat.eqb (length nonSticky) 0) &&
            SFltb (MaxTTFTPenaltyMs config) (f64_sub (bestTTFT sticky) (bestTTFT nonSticky))
         then endpoints else sticky
     end, c).

(** The tier an endpoint belongs to; [None] without a prediction. *)
Definition headroom_tier (e : E) : option bool :=
  match latencyInfo e with
  | None => None
  | Some info => Some (SFleb f64_zero (TTFTHeadroom info) && SFleb f64_zero (TPOTHeadroom info))
  end.

Definition SLOHeadroomTierFilter (epsilonExploreNeg draw : spec_float) : @Filter E CycleState request :=
  fun c _ endpoints =>
  (if Nat.leb (length endpoints) 1 then endpoints
   else
     let positive := List.filter (fun e => bool_decide (headroom_tier e = Some true)) endpoints in
     let negative := List.filter (fun e => bool_decide (headroom_tier e = Some false)) endpoints in
     let noPrediction := List.filter (fun e => bool_decide (headroom_tier e = None)) endpoints in
     if Nat.eqb (length positive) 0 && Nat.eqb (length negative) 0 then endpoints
     else
       let negative := negative ++ noPrediction in
       match positive, negative with
       | _ :: _, _ :: _ => if SFltb draw epsilonExploreNeg then negative else positive
       | _ :: _, [] => positive
       | [], _ => negative
       end, c).

(** * The utilization detector *)

Record UtilizationConfig := {
  QueueDepthThreshold : Z;
  KVCacheUtilThreshold : spec_float;
  MetricsStalenessThreshold : Z;
  u_Headroom : spec_float
}.

Definition utilization_validate (c : UtilizationConfig) : bool :=
  negb (QueueDepthThreshold c <=? 0) &&
  negb (SFleb (KVCacheUtilThreshold c) f64_zero || SFltb f64_one (KVCacheUtilThreshold c)) &&
  negb (MetricsStalenessThreshold c <=? 0) && negb (SFltb (u_Headroom c) f64_zero).

(** The metrics of an endpoint, unless nil. *)
Variable reported : E -> option Metrics.

(** Metrics that are there and not older than the threshold; [now] is read per
    endpoint. *)
Definition fresh_metrics (cfg : UtilizationConfig) (now : E -> Z) (e : E) : option Metrics :=
  match reported e with
  | Some m => if MetricsStalenessThreshold cfg <? now e - UpdateTime m then None else Some m
  | None => None
  end.

Definition pod_score (cfg : UtilizationConfig) (now : E -> Z) (e : E) : spec_float :=
  match fresh_metrics cfg now e with
  | None => f64_one
  | Some m => f64_max (f64_div (f64_of_int (WaitingQueueSize m)) (f64_of_int (QueueDepthThreshold cfg)))
                (f64_div (KVCacheUsagePercent m) (KVCacheUtilThreshold cfg))
  end.

Definition utilization_Saturation (cfg : UtilizationConfig) (now : E -> Z) (candidates : list E) : spec_float :=
  match candidates with
  | [] => f64_one
  | _ => f64_div (foldl (fun total e => f64_add total (pod_score cfg now e)) f64_zero candidates)
           (f64_of_int (Z.of_nat (length candidates)))
  end.

Definition has_room (cfg : UtilizationConfig) (now : E -> Z) (e : E) : bool :=
  match fresh_metrics cfg now e with
  | None => false
  | Some m =>
      SFltb (f64_of_int (WaitingQueueSize m))
        (f64_mul (f64_of_int (QueueDepthThreshold cfg)) (f64_add f64_one (u_Headroom cfg))) &&
      SFltb (KVCacheUsagePercent m) (f64_mul (KVCacheUtilThreshold cfg) (f64_add f64_one (u_Headroom cfg)))
  end.

Definition UtilizationFilter (cfg : UtilizationConfig) (now : E -> Z) : @Filter E CycleState request :=
  fun c _ endpoints =>
  (match List.filter (has_room cfg now) endpoints with
   | [] => endpoints
   | filtered => filtered
   end, c).

End Plugins.
