(* ===== verification/ScorerProps.v ===== *)
(** The built-in scheduling plugins meet the contracts the scheduler relies on:
    scorers score exactly the endpoints they are given and never NaN, filters
    only leave endpoints out and never all of them.  A profile with the queue
    scorer sends a request to a shortest queue. *)

From S2P Require Import Prelude Doubles InFlight Scheduler SchedulerProps Scorers.

(** * Doubles that are not NaN *)

Lemma binary_normalize_not_nan z e s : is_nan (binary_normalize prec emax z e s) = false.
Proof.
  destruct z as [|p|p]; [done|..]; unfold binary_normalize, binary_round;
    (destruct (shl_align _ _ _); by apply round_aux_not_nan).
Qed.

Lemma f64_sub_not_nan x y : finite x = true -> is_nan y = false -> is_nan (f64_sub x y) = false.
Proof.
  destruct x as [[]|[]| |[] m e], y as [[]|[]| |[] n f]; try done; intros _ _; apply binary_normalize_not_nan.
Qed.

(** A quotient by a finite number that is not zero. *)
Lemma f64_div_not_nan x y :
  is_nan x = false -> (exists s m e, y = S754_finite s m e) -> is_nan (f64_div x y) = false.
Proof.
  intros Hx (s & m & e & ->). destruct x as [|[]| |t n f]; try done. unfold f64_div, SFdiv, SFdiv_core_binary.
  set (e' := Z.min _ _). set (a := match _ - _ - e' with 0 => _ | _ => _ end).
  assert (0 <= a) as Ha by (unfold a; destruct (_ - e'); [lia|rewrite Z.shiftl_mul_pow2; nia|lia]).
  pose proof (Z_div_mod a (Z.pos m) ltac:(lia)) as Hdm. destruct (Z.div_eucl a (Z.pos m)) as [q r].
  destruct Hdm as [Hq Hr]. apply round_aux_not_nan. nia.
Qed.

Lemma normal_finite x : normal x -> exists s m e, x = S754_finite s m e.
Proof. intros (m & e & -> & _). eauto. Qed.

(** * Score maps *)

Section Plugins.
Context {E : Type} `{Countable E}.

Lemma score_each_lookup (score : E -> spec_float) endpoints e :
  score_each score endpoints !! e = if decide (e ∈ endpoints) then Some (score e) else None.
Proof.
  unfold score_each.
  assert (forall m : gmap E spec_float, foldl (fun scores e => <[e := score e]> scores) m endpoints !! e =
    if decide (e ∈ endpoints) then Some (score e) else m !! e) as Hf.
  { induction endpoints as [|x l IH]; intros m; cbn [foldl]; [by rewrite decide_False by set_solver|].
    rewrite IH. destruct (decide (e = x)) as [->|Hne].
    - rewrite lookup_insert_eq, (decide_True _ _ (P := x ∈ x :: l)) by set_solver. by case_decide.
    - rewrite lookup_insert_ne by done. repeat case_decide; set_solver. }
  by rewrite Hf, lookup_empty.
Qed.

(** The smallest and largest size among some endpoints. *)
Lemma min_max_spec (sz : E -> Z) endpoints mn mx :
  endpoints <> [] -> (forall e, e ∈ endpoints -> is_i64 (sz e)) -> min_max sz endpoints = (mn, mx) ->
  (forall e, e ∈ endpoints -> mn <= sz e <= mx) /\
  (exists e, e ∈ endpoints /\ sz e = mn) /\ exists e, e ∈ endpoints /\ sz e = mx.
Proof.
  unfold min_max.
  set (f := fun '(mn, mx) e => (if sz e <? mn then sz e else mn, if mx <? sz e then sz e else mx)).
  assert (forall l a b mn mx, foldl f (a, b) l = (mn, mx) ->
    mn <= a /\ b <= mx /\ (forall e, e ∈ l -> mn <= sz e <= mx) /\
    (mn = a \/ exists e, e ∈ l /\ sz e = mn) /\ (mx = b \/ exists e, e ∈ l /\ sz e = mx)) as Hf.
  { clear. induction l as [|x l IH]; intros a b mn mx Hm.
    - injection Hm as -> ->. split_and!; [lia|lia| |by left..]. intros e He. by apply elem_of_nil in He.
    - cbn [foldl] in Hm. unfold f in Hm at 2. apply IH in Hm as (H1 & H2 & H3 & H4 & H5). split_and!.
      + destruct (Z.ltb_spec (sz x) a); lia.
      + destruct (Z.ltb_spec b (sz x)); lia.
      + intros e [->|He]%elem_of_cons; [|by apply H3].
        destruct (Z.ltb_spec (sz x) a), (Z.ltb_spec b (sz x)); lia.
      + destruct H4 as [->|(e & He & Hs)]; [|right; exists e; split; [by right|done]].
        destruct (Z.ltb_spec (sz x) a); [right; exists x; split; [left|done]|by left].
      + destruct H5 as [->|(e & He & Hs)]; [|right; exists e; split; [by right|done]].
        destruct (Z.ltb_spec b (sz x)); [right; exists x; split; [left|done]|by left]. }
  intros Hne Hi Hm. apply Hf in Hm as (H1 & H2 & H3 & H4 & H5). split; [done|].
  destruct endpoints as [|x l]; [done|]. pose proof (H3 x ltac:(left)). pose proof (Hi x ltac:(left)).
  unfold maxInt, minInt, is_i64 in *.
  split; [destruct H4 as [->|He]|destruct H5 as [->|He]]; try done; exists x; (split; [left|lia]).
Qed.

End Plugins.

(** * The contract of scorers *)

Section Contract.
Context {E : Type} `{Countable E} {C : Type}.

(** Scores exactly the given endpoints, and not NaN. *)
Definition scorer_ok (s : @Scorer E _ _ C request) (endpoints : list E) : Prop :=
  forall c r e, match (s c r endpoints).1 !! e with
                | Some x => e ∈ endpoints /\ is_nan x = false
                | None => e ∉ endpoints
                end.

Lemma score_each_ok (score : E -> spec_float) endpoints :
  (forall e, e ∈ endpoints -> is_nan (score e) = false) ->
  forall e, match score_each score endpoints !! e with
            | Some x => e ∈ endpoints /\ is_nan x = false
            | None => e ∉ endpoints
            end.
Proof. intros Hs e. rewrite score_each_lookup. case_decide; auto. Qed.

Lemma given_well_scored (ss : list (@WeightedScorer E _ _ C request)) endpoints : forall c r,
  Forall (fun s => scorer_ok (ws_Scorer s) endpoints /\ nonneg (weight s) = true /\ finite (weight s) = true) ss ->
  well_scored endpoints (given ss c r endpoints).
Proof.
  unfold well_scored. induction ss as [|s ss IH]; intros c r Hss; [constructor|].
  apply Forall_cons in Hss as [[Hs Hw] Hss]. simpl. specialize (Hs c r).
  destruct (ws_Scorer s c r endpoints) as [scores c1]. constructor; [|by apply IH]. split; [|done].
  intros e x Hx. specialize (Hs e). simpl in Hs. by rewrite Hx in Hs.
Qed.

Lemma size_score_ok (sz : E -> Z) endpoints mn mx :
  (forall e, e ∈ endpoints -> 0 <= sz e < 2 ^ 53) -> min_max sz endpoints = (mn, mx) ->
  forall e, e ∈ endpoints -> is_nan (size_score sz mn mx e) = false.
Proof.
  intros Hs Hm e He. assert (endpoints <> []) as Hne by (intros ->; by apply elem_of_nil in He).
  destruct (min_max_spec sz endpoints mn mx Hne) as (Hb & (e0 & He0 & <-) & (e1 & He1 & <-)); [|done|].
  { intros x Hx. specialize (Hs x Hx). unfold is_i64, two63. lia. }
  pose proof (Hb e He). pose proof (Hs e He). pose proof (Hs e0 He0). pose proof (Hs e1 He1).
  unfold size_score. case_match; [done|]. rewrite !i64_id by (unfold is_i64, two63; lia).
  apply f64_div_not_nan; [apply binary_normalize_not_nan|]. apply normal_finite, f64_of_int_normal. lia.
Qed.

(** * The built-in scorers *)

Section Builtin.
Variable metrics : E -> Metrics.
Variable prefixInfo : E -> option PrefixCacheMatchInfo.
Variable inFlightLoad : E -> option InFlightLoad.

Inductive builtin := BQueue | BRunning | BKVCache | BLora | BTokenLoad (configured : Z) | BPrefix.

Definition builtin_scorer (b : builtin) : @Scorer E _ _ C request :=
  match b with
  | BQueue => QueueScorer metrics
  | BRunning => RunningRequestsSizeScorer metrics
  | BKVCache => KVCacheUtilizationScorer metrics
  | BLora => LoraAffinityScorer metrics
  | BTokenLoad configured => TokenLoadScorer inFlightLoad configured
  | BPrefix => PrefixCacheScorer prefixInfo
  end.

(** What the endpoints report is in the range doubles represent exactly, and
    the KV-cache usage is a number. *)
Record reports_ok (endpoints : list E) : Prop := {
  ro_waiting e : e ∈ endpoints -> 0 <= WaitingQueueSize (metrics e) < 2 ^ 53;
  ro_running e : e ∈ endpoints -> 0 <= RunningRequestsSize (metrics e) < 2 ^ 53;
  ro_usage e : e ∈ endpoints -> is_nan (KVCacheUsagePercent (metrics e)) = false;
  ro_prefix e info : e ∈ endpoints -> prefixInfo e = Some info -> 0 <= TotalBlocks info < 2 ^ 53
}.

Definition builtin_config_ok (b : builtin) : Prop :=
  match b with BTokenLoad configured => configured < 2 ^ 53 | _ => True end.

Lemma token_score_ok configured e : configured < 2 ^ 53 ->
  is_nan (token_score inFlightLoad (queueThresholdTokens configured) e) = false.
Proof.
  intros Hc. assert (normal (queueThresholdTokens configured)) as Hn.
  { unfold queueThresholdTokens. apply f64_of_int_normal. unfold tokenQueueThresholdDefault.
    destruct (Z.leb_spec configured 0); lia. }
  unfold token_score. set (load := match inFlightLoad e with Some _ => _ | None => _ end).
  assert (is_nan load = false) as Hl by (unfold load; case_match; [apply binary_normalize_not_nan|done]).
  destruct (SFleb load f64_zero); [done|]. apply f64_sub_not_nan; [done|].
  apply f64_div_not_nan; [|by apply normal_finite]. case_match; [|done].
  by destruct (normal_finite _ Hn) as (? & ? & ? & ->).
Qed.

Lemma builtin_scorer_ok b endpoints : reports_ok endpoints -> builtin_config_ok b -> scorer_ok (builtin_scorer b) endpoints.
Proof.
  intros Hro Hb c r. destruct b; cbn [builtin_scorer builtin_config_ok] in *.
  - unfold QueueScorer. destruct (min_max _ _) as [mn mx] eqn:Hm. cbn [fst]. apply score_each_ok.
    eapply size_score_ok; [|done]. apply (ro_waiting _ Hro).
  - unfold RunningRequestsSizeScorer. destruct (min_max _ _) as [mn mx] eqn:Hm. cbn [fst]. apply score_each_ok.
    eapply size_score_ok; [|done]. apply (ro_running _ Hro).
  - unfold KVCacheUtilizationScorer. cbn [fst]. apply score_each_ok. intros e He. apply f64_sub_not_nan; [done|by apply (ro_usage _ Hro)].
  - unfold LoraAffinityScorer. cbn [fst]. apply score_each_ok. intros e _. unfold lora_score.
    case_match; [done|]. case_match; [done|]. by case_match.
  - unfold TokenLoadScorer. cbn [fst]. apply score_each_ok. intros e _. by apply token_score_ok.
  - unfold PrefixCacheScorer. cbn [fst]. apply score_each_ok. intros e He. unfold prefix_score. destruct (prefixInfo e) as [info|] eqn:Hi; [|done].
    case_match; [done|]. pose proof (ro_prefix _ Hro e info He Hi).
    apply f64_div_not_nan; [apply binary_normalize_not_nan|]. apply normal_finite, f64_of_int_normal. lia.
Qed.

End Builtin.

End Contract.

(** * The shortest queue *)

Lemma SFleb_of_ltb x y : SFltb x y = true -> SFleb x y = true.
Proof. unfold SFltb, SFleb. by destruct (SFcompare x y) as [[]|]. Qed.

Lemma SFleb_negb x y : is_nan x = false -> is_nan y = false -> SFleb x y = negb (SFltb y x).
Proof.
  destruct x as [s|s| |s m e], y as [t|t| |t n f]; try done; intros _ _; try (by destruct s, t || by destruct s || by destruct t).
  unfold SFleb, SFltb, SFcompare. change (Pos.compare_cont Eq n m) with (Pos.compare n m).
  change (Pos.compare_cont Eq m n) with (Pos.compare m n). rewrite (Z.compare_antisym e f), (Pos.compare_antisym m n).
  destruct s, t; try done; destruct (Z.compare e f); simpl; try done; by destruct (Pos.compare m n).
Qed.

Lemma SFltb_of_not_leb x : is_nan x = false -> SFleb f64_one x = false -> SFltb x f64_one = true.
Proof. intros Hx. rewrite SFleb_negb by done. by destruct (SFltb x f64_one). Qed.

(** A score of the queue scorer survives the clamp and a weight of one. *)
Lemma size_score_weighted x :
  normal x \/ x = f64_zero -> SFltb f64_one x = false ->
  f64_add f64_zero (f64_mul (enforceScoreRange x) f64_one) = x.
Proof.
  intros Hx H1. assert (enforceScoreRange x = x) as ->.
  { unfold enforceScoreRange. rewrite H1. by destruct Hx as [(m & e & -> & _)| ->]. }
  destruct Hx as [Hx| ->]; [|done]. rewrite f64_mul_one by done. by destruct Hx as (m & e & -> & _).
Qed.

Section Shortest.
Context {E : Type} `{Countable E}.
Variable sz : E -> Z.

Lemma size_score_cases endpoints mn mx e :
  (forall e, e ∈ endpoints -> 0 <= sz e < 2 ^ 53) -> min_max sz endpoints = (mn, mx) -> e ∈ endpoints ->
  (sz e = mn -> size_score sz mn mx e = f64_one) /\
  (mn < sz e -> SFltb (size_score sz mn mx e) f64_one = true) /\
  (normal (size_score sz mn mx e) \/ size_score sz mn mx e = f64_zero) /\
  SFltb f64_one (size_score sz mn mx e) = false.
Proof.
  intros Hs Hm He. assert (endpoints <> []) as Hne by (intros ->; by apply elem_of_nil in He).
  destruct (min_max_spec sz endpoints mn mx Hne) as (Hb & (e0 & He0 & Hmn) & (e1 & He1 & Hmx)); [|done|].
  { intros x Hx. specialize (Hs x Hx). unfold is_i64, two63. lia. }
  pose proof (Hb e He). pose proof (Hs e He). pose proof (Hs e0 He0). pose proof (Hs e1 He1).
  assert (normal f64_one) as Hone
    by (exists 4503599627370496%positive, (-52); split; [done|]; unfold two52; lia).
  unfold size_score. destruct (Z.eqb_spec mx mn) as [->|Hd]; [split_and!; [done|lia|by left|done]|].
  rewrite !i64_id by (unfold is_i64, two63; lia).
  destruct (decide (sz e = mn)) as [Hq|Hq].
  - rewrite Hq, f64_div_self by lia. split_and!; [done|lia|by left|done].
  - destruct (decide (sz e = mx)) as [Hx|Hx].
    + rewrite Hx, Z.sub_diag. destruct (f64_of_int_normal (mx - mn)) as (m & ex & -> & _); [lia|].
      split_and!; [lia|done|by right|done].
    + pose proof (f64_div_normal (mx - sz e) (mx - mn) ltac:(lia) ltac:(lia)) as Hn.
      pose proof (f64_div_lt_one (mx - sz e) (mx - mn) ltac:(lia) ltac:(lia)) as Hlt.
      split_and!; [lia|intros _; apply SFltb_of_not_leb; [|done]; by destruct Hn as (? & ? & -> & _)|by left|].
      destruct (SFltb f64_one _) eqn:Hc; [|done]. apply SFleb_of_ltb in Hc. congruence.
Qed.

End Shortest.

(** * Filters *)

Section Filters.
Context {E C : Type}.

(** Leaves endpoints out, and not all of them. *)
Definition filter_ok (f : @Filter E C request) : Prop :=
  forall c r l, (f c r l).1 ⊆ l /\ (l <> [] -> (f c r l).1 <> []).

Lemma List_filter_subset (P : E -> bool) l : List.filter P l ⊆ l.
Proof. intros e. rewrite !list_elem_of_In, filter_In. tauto. Qed.

Lemma run_filters_ok fs : Forall filter_ok fs -> forall c r l,
  l <> [] -> (runFilterPlugins fs c r l).1 ⊆ l /\ (runFilterPlugins fs c r l).1 <> [].
Proof.
  induction fs as [|f fs IH]; intros Hf c r l Hl; [done|]. apply Forall_cons in Hf as [Hf Hfs]. simpl.
  destruct (Hf c r l) as [Hs Hn]. specialize (Hn Hl). destruct (f c r l) as [[|e l'] c']; [done|]. simpl in *.
  destruct (IH Hfs c' r (e :: l')) as [Hs' Hn']; [done|]. split; [by etransitivity|done].
Qed.

Variable prefixInfo : E -> option PrefixCacheMatchInfo.
Variable latencyInfo : E -> option LatencyPredictionInfo.
Variable reported : E -> option Metrics.

Lemma affinity_filter_ok config draw : filter_ok (PrefixAffinityFilter prefixInfo latencyInfo config draw).
Proof.
  intros c r l. unfold PrefixAffinityFilter. cbn [fst]. destruct (_ || _); [done|].
  destruct (SFltb draw _); [done|]. cbv zeta.
  set (sticky := List.filter (fun e => SFleb (AffinityThreshold config) (prefixCacheScore prefixInfo e)) l). pose proof (List_filter_subset _ l : sticky ⊆ l) as Hs. clearbody sticky.
  destruct sticky as [|e sticky]; [done|]. by case_match.
Qed.

Lemma headroom_filter_ok epsilon draw : filter_ok (SLOHeadroomTierFilter latencyInfo epsilon draw).
Proof.
  intros c r l. unfold SLOHeadroomTierFilter. cbn [fst]. case_match; [done|].
  set (pos := List.filter (fun e => bool_decide (headroom_tier latencyInfo e = Some true)) l).
  set (neg := List.filter (fun e => bool_decide (headroom_tier latencyInfo e = Some false)) l).
  set (none := List.filter (fun e => bool_decide (headroom_tier latencyInfo e = None)) l). cbv zeta.
  pose proof (List_filter_subset _ l : pos ⊆ l) as Hp. pose proof (List_filter_subset _ l : neg ⊆ l) as Hn.
  pose proof (List_filter_subset _ l : none ⊆ l) as Hz.
  destruct (Nat.eqb (length pos) 0 && Nat.eqb (length neg) 0) eqn:Hb; [done|].
  assert (neg ++ none ⊆ l) as Hnn by (intros e [He|He]%elem_of_app; auto).
  clearbody pos neg none. destruct pos as [|p ps], (neg ++ none) as [|n rest] eqn:Hnr; simpl in Hb.
  - apply app_eq_nil in Hnr as [Hneg _]. by rewrite Hneg in Hb.
  - by split.
  - by split.
  - case_match; by split.
Qed.

Lemma utilization_filter_ok cfg now : filter_ok (UtilizationFilter reported cfg now).
Proof.
  intros c r l. unfold UtilizationFilter. cbn [fst]. pose proof (List_filter_subset (has_room reported cfg now) l) as Hs.
  destruct (List.filter _ l); by split.
Qed.

(** The built-in filters, with the random number of the call or the clock. *)
Inductive builtin_filter :=
  | FAffinity (config : AffinityConfig) (draw : spec_float)
  | FHeadroom (epsilonExploreNeg draw : spec_float)
  | FUtilization (cfg : UtilizationConfig) (now : E -> Z).

Definition the_filter (b : builtin_filter) : @Filter E C request :=
  match b with
  | FAffinity config draw => PrefixAffinityFilter prefixInfo latencyInfo config draw
  | FHeadroom epsilon draw => SLOHeadroomTierFilter latencyInfo epsilon draw
  | FUtilization cfg now => UtilizationFilter reported cfg now
  end.

Lemma the_filter_ok b : filter_ok (the_filter b).
Proof. destruct b; [apply affinity_filter_ok|apply headroom_filter_ok|apply utilization_filter_ok]. Qed.

End Filters.

(** * Properties *)

(** C18: A profile of the filters and scorers that rate endpoints by their load
    and their caches schedules.  It has any of the prefix-affinity, SLO-headroom
    and utilization filters, any of the queue, running-requests, KV-cache, LoRA,
    token-load and prefix-cache scorers with finite weights that are not
    negative (a token-load threshold is below 2^53), and the max-score picker;
    the latency scorers are not among them.  If the candidates report queue
    lengths, running requests and prefix blocks from 0 to below 2^53 and a
    KV-cache usage that is not NaN, every request that has a candidate is
    scheduled: whatever the random draws, the clock, the iteration orders and
    the shuffle, the cycle returns candidates that no eligible candidate left
    out beats. *)
Theorem builtin_profile_schedules {E} `{Countable E} {C : Type} range range_profiles shuffle sort
    metrics prefixInfo latencyInfo inFlightLoad reported
    (bfs : list (@builtin_filter E)) (bss : list (builtin * spec_float)) k name (c : C) r candidates fuel :
  let p := {| filters := the_filter prefixInfo latencyInfo reported <$> bfs;
              scorers := (fun bw => {| ws_Scorer := builtin_scorer metrics prefixInfo inFlightLoad bw.1;
                                       weight := bw.2 |}) <$> bss;
              picker := Some (MaxScorePicker shuffle sort k) |} in
  (forall m, range m ≡ₚ map_to_list m) -> (forall m, range_profiles m ≡ₚ map_to_list m) ->
  (forall l, shuffle l ≡ₚ l) -> sorts_by higher_score sort ->
  Forall (fun bw => builtin_config_ok bw.1 /\ nonneg bw.2 = true /\ finite bw.2 = true) bss ->
  reports_ok metrics prefixInfo candidates -> candidates <> [] -> (2 <= fuel)%nat ->
  exists targets,
    Schedule range range_profiles fuel SingleProfileHandler {[ name := p ]} c r candidates =
      Some (inl {| ProfileResults := {[ name := Some {| TargetEndpoints := targets |} ]};
                   PrimaryProfileName := name |}) /\
    targets <> [] /\ targets ⊆ candidates /\
    forall t e, t ∈ targets -> e ∈ eligible p c r candidates -> e ∉ targets ->
      SFltb (weighted_score (scores_of p c r candidates) t) (weighted_score (scores_of p c r candidates) e) = false.
Proof.
  intros p Hr Hrp Hsh Hso Hb Hro Hne Hf.
  destruct (run_filters_ok (filters p)) with (c := c) (r := r) (l := candidates) as [Hsub Hn]; [|done|].
  { apply Forall_fmap, Forall_forall. intros b _. apply the_filter_ok. }
  assert (well_scored (eligible p c r candidates) (scores_of p c r candidates)) as Hw.
  { apply given_well_scored, Forall_fmap. eapply Forall_impl; [exact Hb|]. intros [b w] [Hc Hw].
    split; [|exact Hw]. apply builtin_scorer_ok; [|exact Hc]. destruct Hro. by split; eauto. }
  rewrite schedule_one by (done || by eexists).
  destruct (Run_best range Hr shuffle sort k (filters p) (scorers p) c r candidates Hsh Hso Hw) as (c1 & HR).
  change {| filters := filters p; scorers := scorers p; picker := Some (MaxScorePicker shuffle sort k) |} with p in HR.
  rewrite decide_False in HR by done. destruct HR as (targets & -> & Hb').
  exists targets. split_and!; [done| |etransitivity; [apply Hb'|done]|apply Hb'].
  intros ->. apply Hn. apply (best_choice_nil _ _ _) in Hb'; [done|].
  unfold max_endpoints, DefaultMaxNumOfEndpoints. case_match; lia.
Qed.

(** Endpoints 1 and 2 with queues of 3 and 8 requests; the prefix of the request
    is cached on 2. *)
Definition sample_metrics (e : Z) : Metrics :=
  {| ActiveModels := ∅; WaitingModels := ∅; MaxActiveModels := 4; RunningRequestsSize := e;
     WaitingQueueSize := if e =? 1 then 3 else 8; KVCacheUsagePercent := half; UpdateTime := 0 |}.

Definition sample_prefix (e : Z) : option PrefixCacheMatchInfo :=
  if e =? 2 then Some {| MatchBlocks := 9; TotalBlocks := 10 |} else None.

Definition sample_affinity : AffinityConfig :=
  {| AffinityThreshold := f64_0_8; ExplorationProbability := f64_zero; MaxTTFTPenaltyMs := f64_zero |}.

Lemma sample_reports_ok : reports_ok sample_metrics sample_prefix [1; 2].
Proof.
  assert (forall e, e ∈ [1; 2] -> e = 1 \/ e = 2) as Hin by (intros e; rewrite !elem_of_cons, elem_of_nil; tauto).
  split.
  - intros e [->| ->]%Hin; simpl; lia.
  - intros e [->| ->]%Hin; simpl; lia.
  - done.
  - intros e info [->| ->]%Hin; [done|]. intros [= <-]. simpl. lia.
Qed.

Lemma builtin_profile_schedules_witness :
  exists targets,
    Schedule map_to_list map_to_list 2 SingleProfileHandler
      {[ "p"%string := {| filters := the_filter sample_prefix (fun _ => None) (fun _ => None) <$>
                            [FAffinity sample_affinity half];
                          scorers := (fun bw => {| ws_Scorer := builtin_scorer sample_metrics sample_prefix (fun _ => None) bw.1;
                                                   weight := bw.2 |}) <$> [(BQueue, f64_one); (BPrefix, two)];
                          picker := Some (MaxScorePicker id (insertion_sort higher_score) 1) |} ]} tt "m"%string [1; 2] =
      Some (inl {| ProfileResults := {[ "p"%string := Some {| TargetEndpoints := targets |} ]};
                   PrimaryProfileName := "p" |}) /\
    targets <> [] /\ targets ⊆ [1; 2].
Proof.
  destruct (builtin_profile_schedules map_to_list map_to_list id (insertion_sort higher_score)
    sample_metrics sample_prefix (fun _ => None) (fun _ => None) (fun _ => None)
    [FAffinity sample_affinity half] [(BQueue, f64_one); (BPrefix, two)] 1 "p" tt "m" [1; 2] 2
    (fun _ => reflexivity _) (fun _ => reflexivity _) (fun _ => reflexivity _) (insertion_sort_sorts higher_score))
    as (targets & Hs & Hne & Hsub & _).
  - by repeat constructor.
  - exact sample_reports_ok.
  - done.
  - done.
  - exists targets. split; [exact Hs|]. split; [exact Hne|exact Hsub].
Defined.

(** A profile whose only scorer is the queue scorer, with weight one and the
    max-score picker for one endpoint, sends the request to an endpoint whose
    waiting queue is shortest among those the filters left: neither the
    normalization, nor rounding, nor the shuffle of ties changes that. *)
Theorem shortest_queue_wins {E} `{Countable E} {C : Type} range range_profiles shuffle sort metrics
    (fs : list (@Filter E C request)) name (c : C) r candidates fuel :
  let p := {| filters := fs; scorers := [{| ws_Scorer := QueueScorer metrics; weight := f64_one |}];
              picker := Some (MaxScorePicker shuffle sort 1) |} in
  (forall m, range m ≡ₚ map_to_list m) -> (forall m, range_profiles m ≡ₚ map_to_list m) ->
  (forall l, shuffle l ≡ₚ l) -> sorts_by higher_score sort ->
  (forall e, e ∈ eligible p c r candidates -> 0 <= WaitingQueueSize (metrics e) < 2 ^ 53) ->
  eligible p c r candidates <> [] -> (2 <= fuel)%nat ->
  exists t,
    Schedule range range_profiles fuel SingleProfileHandler {[ name := p ]} c r candidates =
      Some (inl {| ProfileResults := {[ name := Some {| TargetEndpoints := [t] |} ]}; PrimaryProfileName := name |}) /\
    t ∈ eligible p c r candidates /\
    forall e, e ∈ eligible p c r candidates -> WaitingQueueSize (metrics t) <= WaitingQueueSize (metrics e).
Proof.
  intros p Hr Hrp Hsh Hso Hq Hne Hf. set (sz := fun e => WaitingQueueSize (metrics e)) in *.
  set (l := eligible p c r candidates) in *. destruct (min_max sz l) as [mn mx] eqn:Hm.
  assert (scores_of p c r candidates = [(score_each (size_score sz mn mx) l, f64_one)]) as Hsc.
  { unfold scores_of. cbn [given scorers p ws_Scorer weight]. unfold QueueScorer. fold l sz. by rewrite Hm. }
  assert (forall e, e ∈ l -> weighted_score (scores_of p c r candidates) e = size_score sz mn mx e) as Hws.
  { intros e He. rewrite Hsc. unfold weighted_score. cbn [foldl]. rewrite score_each_lookup, decide_True by done.
    destruct (size_score_cases sz l mn mx e Hq Hm He) as (_ & _ & Hn & Hle). by apply size_score_weighted. }
  assert (well_scored l (scores_of p c r candidates)) as Hw.
  { rewrite Hsc. apply Forall_singleton. split; [|done]. intros e x. rewrite score_each_lookup.
    case_decide; [|done]. intros [= <-]. split; [done|]. by eapply size_score_ok. }
  rewrite schedule_one by (done || by eexists).
  destruct (Run_best range Hr shuffle sort 1 fs (scorers p) c r candidates Hsh Hso Hw) as (c1 & HR).
  change {| filters := fs; scorers := scorers p; picker := Some (MaxScorePicker shuffle sort 1) |} with p in HR.
  fold l in HR.
  rewrite decide_False in HR by done. destruct HR as (targets & -> & Hb).
  destruct (min_max_spec sz l mn mx Hne) as (Hbd & (e0 & He0 & Hmn) & _); [|done|].
  { intros e He. specialize (Hq e He). unfold is_i64, two63. unfold sz. lia. }
  assert (exists t, targets = [t]) as [t ->].
  { destruct targets as [|t [|t' ts]]; [by apply best_choice_nil in Hb|by exists t|].
    pose proof (bc_length _ _ _ _ Hb) as Hlen. cbn [length] in Hlen. unfold max_endpoints in Hlen. simpl in Hlen. lia. }
  assert (t ∈ l) as Ht by (apply (bc_subset _ _ _ _ Hb); left). exists t. split_and!; [done|done|].
  intros e He. pose proof (Hbd e He) as [Hle _]. pose proof (Hbd t Ht) as [Hlt _]. fold (sz t) (sz e).
  destruct (decide (sz t = mn)) as [->|Hnt]; [done|]. exfalso.
  assert (e0 ∉ [t]) as Hn0 by (intros ->%list_elem_of_singleton; congruence).
  pose proof (bc_best _ _ _ _ Hb t e0 ltac:(left) He0 Hn0) as Hbest. rewrite !Hws in Hbest by done.
  destruct (size_score_cases sz l mn mx e0 Hq Hm He0) as (E0 & _). rewrite (E0 Hmn) in Hbest.
  destruct (size_score_cases sz l mn mx t Hq Hm Ht) as (_ & Et & _). rewrite Et in Hbest by lia. done.
Qed.

Lemma shortest_queue_wins_witness :
  exists t : Z,
    Schedule map_to_list map_to_list 2 SingleProfileHandler
      {[ "p"%string := {| filters := [fun c _ l => (l, c)];
                          scorers := [{| ws_Scorer := QueueScorer sample_metrics; weight := f64_one |}];
                          picker := Some (MaxScorePicker (@reverse _) (insertion_sort higher_score) 1) |} ]}
      tt "m"%string [1; 2] =
      Some (inl {| ProfileResults := {[ "p"%string := Some {| TargetEndpoints := [t] |} ]}; PrimaryProfileName := "p" |}) /\
    t ∈ [1; 2] /\ forall e, e ∈ [1; 2] -> WaitingQueueSize (sample_metrics t) <= WaitingQueueSize (sample_metrics e).
Proof.
  refine (shortest_queue_wins map_to_list map_to_list (@reverse _) (insertion_sort higher_score) sample_metrics
    [fun c _ l => (l, c)] "p" tt "m" [1; 2] 2 (fun _ => reflexivity _) (fun _ => reflexivity _)
    (fun l => reverse_Permutation l) (insertion_sort_sorts higher_score) (ro_waiting _ _ _ sample_reports_ok) _ _); done.
Defined.
