(* ===== verification/DataGraph.v ===== *)
(** Data dependencies among the plugins
    (src/pkg/epp/datalayer/data_graph.go, src/pkg/epp/requestcontrol/request_control_config.go,
    plugin_executor.go, and their composition in
    src/cmd/epp/runner/runner.go): the plugins that produce and consume request
    data are checked for agreeing types and layers, sorted by Kahn's algorithm,
    and executed producers first.

    Go iterates over a map in an order it does not specify.  The parameter
    [range] gives the order; its first argument names the loop, so that two
    loops over one map, or two runs of an inner loop, may see different orders. *)

From S2P Require Import Prelude.

(** * Values of the language *)

(** A value of type [any]: comparing two of them compares the dynamic types
    first, and panics when they are the same type and that type is not
    comparable. *)
Record GoType := { type_name : string; type_comparable : bool }.
Record any := { dyn_type : GoType; dyn_value : Z }.

#[global] Instance GoType_eq_dec : EqDecision GoType.
Proof. solve_decision. Defined.

(** How a function ends when it does not return a result. *)
Inductive failure (E : Type) :=
  | Returned (e : E)
  | Panicked.
Arguments Returned {E} e.
Arguments Panicked {E}.

Definition any_neq {E} (a b : any) : bool + failure E :=
  if decide (dyn_type a = dyn_type b) then
    if type_comparable (dyn_type a)
    then inl (negb (Z.eqb (dyn_value a) (dyn_value b))) else inr Panicked
  else inl true.

(** * Plugins *)

Definition separator : string := "/".

Record TypedName := { tn_Type : string; tn_Name : string }.

Definition TypedName_String (tn : TypedName) : string := (tn_Name tn +:+ separator +:+ tn_Type tn).

(** The methods by which the program recognises what a plugin is. *)
Inductive method :=
  | mFairnessPick | mOrderingLess
  | mPrepareRequestData | mAdmitRequest | mPreRequest | mResponseHeader | mResponseBody
  | mProfilePick | mFilter | mScore | mPickerPick.

#[global] Instance method_eq_dec : EqDecision method.
Proof. solve_decision. Defined.

(** [Produces] and [Consumes] are present when the plugin has the method; the
    method may return a nil map. *)
Record Plugin := {
  pl_TypedName : TypedName;
  pl_Produces : option (option (gmap string any));
  pl_Consumes : option (option (gmap string any));
  pl_methods : list method
}.

Definition pl_name (p : Plugin) : string := TypedName_String (pl_TypedName p).

Definition has_method (p : Plugin) (x : method) : bool := bool_decide (x ∈ pl_methods p).
Definition is_ProducerPlugin (p : Plugin) : bool := bool_decide (is_Some (pl_Produces p)).
Definition is_ConsumerPlugin (p : Plugin) : bool := bool_decide (is_Some (pl_Consumes p)).

(** The interface embeds the producer and the consumer interfaces. *)
Definition is_PrepareDataPlugin (p : Plugin) : bool :=
  has_method p mPrepareRequestData && is_ProducerPlugin p && is_ConsumerPlugin p.

Definition produced (p : Plugin) : option (gmap string any) := default None (pl_Produces p).
Definition consumed (p : Plugin) : option (gmap string any) := default None (pl_Consumes p).

Definition FlowControlLayer : Z := 0.
Definition RequestControlLayer : Z := 1.
Definition SchedulingLayer : Z := 2.
Definition DefaultLayer : Z := -1.

Definition pluginToLayerExecutionOrder (p : Plugin) : Z :=
  if has_method p mFairnessPick then FlowControlLayer
  else if has_method p mOrderingLess then FlowControlLayer
  else if is_PrepareDataPlugin p then RequestControlLayer
  else if has_method p mAdmitRequest then RequestControlLayer
  else if has_method p mPreRequest then RequestControlLayer
  else if has_method p mResponseHeader then RequestControlLayer
  else if has_method p mProfilePick then SchedulingLayer
  else if has_method p mFilter then SchedulingLayer
  else if has_method p mScore then SchedulingLayer
  else if has_method p mPickerPick then SchedulingLayer
  else DefaultLayer.

(** * The dependency graph *)

Inductive graph_error :=
  | ErrTypeMismatch (key : string)
  | ErrLayerOrder (producer consumer : string)
  | ErrCycle.

(** The order a loop sees, and that it is an order of the whole map. *)
Definition iteration := forall A : Type, string -> gmap string A -> list (string * A).

Definition iterates (range : iteration) : Prop :=
  forall (A : Type) site (m : gmap string A), range A site m ≡ₚ map_to_list m.

Section Graph.

Variable range : iteration.
Arguments range {A}.

(** The loop over the produced keys: the first key the consumer also names
    decides, and the loop breaks. *)
Fixpoint shared_key (p c : Plugin) (cs : gmap string any) (ps : list (string * any))
    : bool + failure graph_error :=
  match ps with
  | [] => inl false
  | (k, d) :: ps =>
      match cs !! k with
      | None => shared_key p c cs ps
      | Some d' =>
          neq <-? any_neq d d';
          if neq then inr (Returned (ErrTypeMismatch k))
          else if Z.gtb (pluginToLayerExecutionOrder p) (pluginToLayerExecutionOrder c)
          then inr (Returned (ErrLayerOrder (pl_name p) (pl_name c)))
          else inl true
      end
  end.

Definition add_edge (pName : string) (producer : Plugin) (dag : gmap string (list string))
    (ce : string * Plugin) : gmap string (list string) + failure graph_error :=
  let '(cName, consumer) := ce in
  if String.eqb pName cName then inl dag
  else match produced producer, consumed consumer with
       | Some ps, Some cs =>
           found <-? shared_key producer consumer cs (range (pName +:+ cName) ps);
           inl (if found then <[cName := default [] (dag !! cName) ++ [pName]]> dag else dag)
       | _, _ => inl dag
       end.

Definition buildDAG (producers consumers : gmap string Plugin)
    : gmap string (list string) + failure graph_error :=
  let dag := foldl (fun dag pe => <[pl_name pe.2 := []]> dag) ∅ (range "producers" producers) in
  let dag := foldl (fun dag ce => <[pl_name ce.2 := []]> dag) dag (range "consumers" consumers) in
  efold (fun dag pe => efold (add_edge pe.1 pe.2) (range pe.1 consumers) dag)
        (range "edges" producers) dag.

(** * Kahn's algorithm *)

(** A missing key of a Go map reads as the zero value. *)
Definition deg (d : gmap string Z) (v : string) : Z := default 0 (d !! v).

Definition count_neighbors (d : gmap string Z) (ns : list string) : gmap string Z :=
  foldl (fun d v => <[v := deg d v + 1]> d) d ns.

Definition inDegrees (graph : gmap string (list string)) : gmap string Z :=
  foldl (fun d ue => count_neighbors
                       (match d !! ue.1 with None => <[ue.1 := 0]> d | Some _ => d end) ue.2)
        ∅ (range "graph" graph).

Definition initial_queue (d : gmap string Z) : list string :=
  foldl (fun q ne => if Z.eqb ne.2 0 then q ++ [ne.1] else q) [] (range "inDegree" d).

(** Decrease the in-degree of one neighbour. *)
Definition relax (dq : gmap string Z * list string) (v : string) : gmap string Z * list string :=
  let '(d, q) := dq in
  let d := <[v := deg d v - 1]> d in
  (d, if Z.eqb (deg d v) 0 then q ++ [v] else q).

Fixpoint topo_loop (fuel : nat) (graph : gmap string (list string)) (d : gmap string Z)
    (queue result : list string) : option (list string) :=
  match queue with
  | [] => Some result
  | u :: queue =>
      match fuel with
      | O => None
      | S fuel =>
          let '(d, queue) := foldl relax (d, queue) (default [] (graph !! u)) in
          topo_loop fuel graph d queue (result ++ [u])
      end
  end.

(** One iteration takes one node for good, so the number of nodes bounds the
    iterations. *)
Definition topologicalSort (graph : gmap string (list string))
    : option (list string + graph_error) :=
  let d := inDegrees graph in
  result ← topo_loop (size d) graph d (initial_queue d) [];
  Some (if Nat.eqb (length result) (size d) then inl (reverse result) else inr ErrCycle).

(** * The operation *)

Definition pluginMap (plugins : list Plugin) : gmap string Plugin :=
  foldl (fun m p => <[pl_name p := p]> m) ∅ plugins.

(** The type switch over the plugin map: those that satisfy an interface. *)
Definition having (P : Plugin -> bool) (ps : list (string * Plugin)) : gmap string Plugin :=
  foldl (fun m ne => if P ne.2 then <[ne.1 := ne.2]> m else m) ∅ ps.

Definition ValidateAndOrderDataDependencies (plugins : list Plugin)
    : option (list string + failure graph_error) :=
  let ps := range "plugins" (pluginMap plugins) in
  match buildDAG (having is_ProducerPlugin ps) (having is_ConsumerPlugin ps) with
  | inr e => Some (inr e)
  | inl dag =>
      r ← topologicalSort dag;
      Some (match r with inl names => inl names | inr e => inr (Returned e) end)
  end.

End Graph.

(** * The request-control configuration *)

Record Config := {
  admissionPlugins : list Plugin;
  prepareDataPlugins : list Plugin;
  preRequestPlugins : list Plugin;
  responseReceivedPlugins : list Plugin;
  responseStreamingPlugins : list Plugin
}.

Definition NewConfig : Config :=
  {| admissionPlugins := []; prepareDataPlugins := []; preRequestPlugins := [];
     responseReceivedPlugins := []; responseStreamingPlugins := [] |}.

Definition add_if (b : bool) (p : Plugin) (l : list Plugin) : list Plugin :=
  if b then l ++ [p] else l.

Definition AddPlugins (c : Config) (pluginObjects : list Plugin) : Config :=
  foldl (fun c p =>
    {| preRequestPlugins := add_if (has_method p mPreRequest) p (preRequestPlugins c);
       responseReceivedPlugins := add_if (has_method p mResponseHeader) p (responseReceivedPlugins c);
       responseStreamingPlugins := add_if (has_method p mResponseBody) p (responseStreamingPlugins c);
       prepareDataPlugins := add_if (is_PrepareDataPlugin p) p (prepareDataPlugins c);
       admissionPlugins := add_if (has_method p mAdmitRequest) p (admissionPlugins c) |})
    c pluginObjects.

Definition OrderPrepareDataPlugins (c : Config) (sortedPluginNames : list string) : Config :=
  let nameToPlugin := pluginMap (prepareDataPlugins c) in
  let sortedPlugins :=
    foldl (fun acc name => match nameToPlugin !! name with
                           | Some p => acc ++ [p] | None => acc end) [] sortedPluginNames in
  {| preRequestPlugins := preRequestPlugins c;
     responseReceivedPlugins := responseReceivedPlugins c;
     responseStreamingPlugins := responseStreamingPlugins c;
     prepareDataPlugins := sortedPlugins;
     admissionPlugins := admissionPlugins c |}.

(** [eppHandlePlugins.GetAllPlugins]: the values of the handle's map. *)
Definition GetAllPlugins (range : iteration)
    (site : string) (plugins : gmap string Plugin) : list Plugin :=
  snd <$> range Plugin site plugins.

(** The part of [parseConfigurationPhaseTwo] after the plugins are created. *)
Definition parseConfigurationPhaseTwo (range : iteration)
    (c : Config) (handle : gmap string Plugin) : option (Config + failure graph_error) :=
  let c := AddPlugins c (GetAllPlugins range "AddPlugins" handle) in
  r ← ValidateAndOrderDataDependencies range (GetAllPlugins range "Validate" handle);
  Some (match r with inl dag => inl (OrderPrepareDataPlugins c dag) | inr e => inr e end).

(** Executing the plugins: [run] is what [PrepareRequestData] does to the
    request data [S], with the error it returns. *)
Fixpoint executePluginsAsDAG {S E} (run : Plugin -> S -> S * option E) (plugins : list Plugin)
    (s : S) : S * option (string * E) :=
  match plugins with
  | [] => (s, None)
  | p :: plugins => match run p s with
                    | (s, None) => executePluginsAsDAG run plugins s
                    | (s, Some e) => (s, Some (pl_name p, e))
                    end
  end.

(** * Kahn's algorithm sorts *)

(** An edge points from a consumer to a producer. *)
Definition edge (g : gmap string (list string)) (u v : string) : Prop :=
  exists ns, g !! u = Some ns /\ v ∈ ns.

Definition node (g : gmap string (list string)) (v : string) : Prop :=
  is_Some (g !! v) \/ exists u, edge g u v.

(** [v] comes before [u] in the list. *)
Definition before {A} (l : list A) (v u : A) : Prop :=
  exists l1 l2 l3, l = l1 ++ v :: l2 ++ u :: l3.

(** The targets of the edges that leave nodes not in [done]. *)
Definition targets (g : gmap string (list string)) (done : list string) : list string :=
  map_to_list g ≫= fun ue => if decide (ue.1 ∈ done) then [] else ue.2.

Definition occ (v : string) (l : list string) : Z := Z.of_nat (length (filter (v =.) l)).

Lemma occ_cons v x l : occ v (x :: l) = (if decide (v = x) then 1 else 0) + occ v l.
Proof. unfold occ. rewrite filter_cons. case_decide; simpl; lia. Qed.

Lemma occ_app v l k : occ v (l ++ k) = occ v l + occ v k.
Proof. unfold occ. rewrite filter_app, length_app. lia. Qed.

Lemma occ_nonneg v l : 0 <= occ v l.
Proof. unfold occ. lia. Qed.

Lemma occ_perm v l k : l ≡ₚ k -> occ v l = occ v k.
Proof. intros H. unfold occ. by rewrite H. Qed.

Lemma occ_zero v l : occ v l = 0 <-> v ∉ l.
Proof.
  induction l as [|x l IH]; [split; [intros _; apply not_elem_of_nil|done]|].
  rewrite occ_cons, not_elem_of_cons, <- IH. pose proof (occ_nonneg v l).
  case_decide; split; naive_solver lia.
Qed.

Lemma elem_of_targets g done v :
  v ∈ targets g done <-> exists u, edge g u v /\ u ∉ done.
Proof.
  unfold targets, edge. rewrite list_elem_of_bind. split.
  - intros ([u ns] & Hv & Hu%elem_of_map_to_list). simpl in *. case_decide; [|naive_solver].
    by apply not_elem_of_nil in Hv.
  - intros (u & (ns & Hu & Hv) & Hd). exists (u, ns). simpl.
    rewrite decide_False by done. by rewrite elem_of_map_to_list.
Qed.

(** Finishing a node takes its edges out of the targets. *)
Lemma targets_finish g done u :
  u ∉ done -> targets g done ≡ₚ default [] (g !! u) ++ targets g (done ++ [u]).
Proof.
  intros Hu. unfold targets. destruct (g !! u) as [ns|] eqn:E; simpl.
  - rewrite <- (map_to_list_delete g u ns E). simpl. rewrite decide_False by done.
    rewrite decide_True by set_solver. simpl. f_equiv.
    apply reflexive_eq, Forall_bind_ext, Forall_forall.
    intros [w ms] [Hw _]%elem_of_map_to_list%lookup_delete_Some. simpl.
    apply decide_ext. set_solver.
  - apply reflexive_eq, Forall_bind_ext, Forall_forall. intros [w ms] Hw%elem_of_map_to_list.
    simpl. apply decide_ext. assert (w <> u) by congruence. set_solver.
Qed.

Lemma deg_insert d v k w : deg (<[v := k]> d) w = if decide (w = v) then k else deg d w.
Proof. unfold deg. case_decide; simplify_map_eq; done. Qed.

(** The state of the loop while the neighbours [pending] of the node taken
    last are still to be relaxed. *)
Record kahn (g : gmap string (list string)) (d : gmap string Z)
    (queue result pending : list string) : Prop := {
  kahn_nodup : NoDup (result ++ queue);
  kahn_dom : forall v, is_Some (d !! v) <-> node g v;
  kahn_deg : forall v, deg d v = occ v (pending ++ targets g result);
  kahn_zero : forall v, v ∈ result ++ queue <-> node g v /\ deg d v = 0;
  kahn_order : forall l1 v l2 u, result = l1 ++ v :: l2 -> edge g u v -> u ∈ l1
}.

Lemma kahn_relax g d q r v pending d' q' :
  node g v -> kahn g d q r (v :: pending) -> relax (d, q) v = (d', q') ->
  kahn g d' q' r pending.
Proof.
  intros Hn [Hnd Hdom Hdeg Hz Hord]. unfold relax. intros [= <- <-].
  pose proof (Hdeg v) as Hv. simpl in Hv. rewrite occ_cons, decide_True in Hv by done.
  pose proof (occ_nonneg v (pending ++ targets g r)).
  assert (v ∉ r ++ q) as Hnew by (rewrite Hz; intros [_ ?]; lia).
  rewrite deg_insert, decide_True by done. split.
  - case_match; [|done]. rewrite app_assoc. apply NoDup_app.
    split; [done|]. split; [set_solver +Hnew|apply NoDup_singleton].
  - intros w. rewrite <- Hdom, lookup_insert_is_Some'. rewrite <- Hdom in Hn. clear -Hn. naive_solver.
  - intros w. rewrite deg_insert, (Hdeg v), (Hdeg w). simpl. rewrite !occ_cons.
    repeat case_decide; subst; try done; lia.
  - intros w. rewrite deg_insert. case_match eqn:E; [apply Z.eqb_eq in E | apply Z.eqb_neq in E].
    + rewrite app_assoc, elem_of_app, Hz, list_elem_of_singleton.
      clear -Hn E. case_decide; naive_solver.
    + rewrite Hz. case_decide as Hw; [subst w|done]. split; intros [? ?]; [exfalso|]; lia.
  - done.
Qed.

Lemma kahn_relax_all g d q r pending d' q' :
  (forall v, v ∈ pending -> node g v) -> kahn g d q r pending ->
  foldl relax (d, q) pending = (d', q') -> kahn g d' q' r [].
Proof.
  revert d q. induction pending as [|v pending IH]; intros d q Hn Hk; simpl.
  - by intros [= <- <-].
  - destruct (relax (d, q) v) as [d1 q1] eqn:E. apply IH.
    + intros w Hw. apply Hn. by right.
    + eapply kahn_relax; [|done..]. apply Hn. by left.
Qed.

Lemma kahn_take g d u q r :
  kahn g d (u :: q) r [] -> kahn g d q (r ++ [u]) (default [] (g !! u)).
Proof.
  intros [Hnd Hdom Hdeg Hz Hord].
  assert (node g u /\ deg d u = 0) as [Hn Hu] by (apply Hz; set_solver).
  assert (u ∉ r) as Hur by (apply NoDup_app in Hnd; set_solver).
  split; try done.
  - by rewrite <- app_assoc.
  - intros v. rewrite Hdeg. simpl. apply occ_perm, targets_finish, Hur.
  - intros v. rewrite <- app_assoc. apply Hz.
  - intros l1 v l2 w Hr Hw.
    destruct l2 as [|x l2 _] using rev_ind.
    + apply app_inj_tail in Hr as [<- ->]. rewrite Hdeg in Hu. simpl in Hu.
      apply occ_zero in Hu. rewrite elem_of_targets in Hu.
      destruct (decide (w ∈ r)); [done|]. destruct Hu. by exists w.
    + rewrite app_comm_cons, app_assoc in Hr. apply app_inj_tail in Hr as [-> _].
      by eapply Hord.
Qed.

Lemma kahn_bound g d q r pending : kahn g d q r pending -> (length (r ++ q) <= size d)%nat.
Proof.
  intros [Hnd Hdom _ Hz _]. rewrite <- (size_dom (D:=gset string)).
  rewrite <- (size_list_to_set (C:=gset string)) by done.
  apply subseteq_size. intros v. rewrite elem_of_list_to_set, elem_of_dom, Hdom, Hz. by intros [? _].
Qed.

Lemma relax_size d q pending d' q' g r :
  (forall v, v ∈ pending -> node g v) -> kahn g d q r pending ->
  foldl relax (d, q) pending = (d', q') -> size d' = size d.
Proof.
  intros Hn Hk Hf. pose proof (kahn_relax_all _ _ _ _ _ _ _ Hn Hk Hf) as Hk'.
  rewrite <- !(size_dom (D:=gset string)). f_equal. apply set_eq. intros v.
  rewrite !elem_of_dom, (kahn_dom _ _ _ _ _ Hk), (kahn_dom _ _ _ _ _ Hk'). done.
Qed.

(** The loop ends with the queue empty, given as many iterations as there are
    nodes not yet taken. *)
Lemma topo_loop_ok fuel g d q r :
  kahn g d q r [] -> (size d <= fuel + length r)%nat ->
  exists result d', topo_loop fuel g d q r = Some result /\ kahn g d' [] result [] /\
                    size d' = size d.
Proof.
  revert d q r. induction fuel as [|fuel IH]; intros d [|u q] r Hk Hf; simpl.
  1,3: by exists r, d.
  - apply kahn_bound in Hk. rewrite length_app in Hk. simpl in Hk. lia.
  - pose proof (kahn_take _ _ _ _ _ Hk) as Ht.
    assert (forall v, v ∈ default [] (g !! u) -> node g v) as Hns.
    { intros v Hv. right. exists u. destruct (g !! u) as [ns|] eqn:E; simpl in Hv;
        [by exists ns|by apply not_elem_of_nil in Hv]. }
    destruct (foldl relax (d, q) (default [] (g !! u))) as [d1 q1] eqn:E.
    pose proof (relax_size _ _ _ _ _ _ _ Hns Ht E) as Hsz.
    destruct (IH d1 q1 (r ++ [u])) as (result & d' & -> & Hk' & Hd').
    + by eapply kahn_relax_all.
    + rewrite length_app. simpl. lia.
    + exists result, d'. split; [done|]. split; [done|lia].
Qed.
