(* ===== verification/DataGraphProps.v ===== *)
(** What the ordering of the data plugins guarantees: Kahn's algorithm returns
    a topological order of every acyclic graph and the cycle error on every
    other one, the graph has an edge exactly where a consumer needs a
    producer, and the configured plugins run producers first. *)

From S2P Require Import Prelude DataGraph.

(** * The initial state of the loop *)

Lemma count_neighbors_deg d ns v : deg (count_neighbors d ns) v = deg d v + occ v ns.
Proof.
  unfold count_neighbors. revert d. induction ns as [|w ns IH]; intros d; simpl.
  - by rewrite Z.add_0_r.
  - rewrite IH, deg_insert, occ_cons. repeat case_decide; subst; try done; lia.
Qed.

Lemma count_neighbors_dom d ns v :
  is_Some (count_neighbors d ns !! v) <-> is_Some (d !! v) \/ v ∈ ns.
Proof.
  unfold count_neighbors. revert d. induction ns as [|w ns IH]; intros d; simpl; [set_solver|].
  rewrite IH, lookup_insert_is_Some', elem_of_cons. naive_solver.
Qed.

Definition count_entry (d : gmap string Z) (ue : string * list string) : gmap string Z :=
  count_neighbors (match d !! ue.1 with None => <[ue.1 := 0]> d | Some _ => d end) ue.2.

Lemma count_entries_deg l d v :
  deg (foldl count_entry d l) v = deg d v + occ v (l ≫= snd).
Proof.
  revert d. induction l as [|[u ns] l IH]; intros d; [simpl; by rewrite Z.add_0_r|].
  rewrite bind_cons. cbn [foldl]. rewrite IH. unfold count_entry.
  rewrite count_neighbors_deg, occ_app. cbn [fst snd].
  destruct (d !! u) eqn:E; [lia|]. rewrite deg_insert. case_decide; [|lia].
  subst. unfold deg. rewrite E. simpl. lia.
Qed.

Lemma count_entries_dom l d v :
  is_Some (foldl count_entry d l !! v) <->
  is_Some (d !! v) \/ v ∈ l.*1 \/ v ∈ l ≫= snd.
Proof.
  revert d. induction l as [|[u ns] l IH]; intros d.
  - simpl. rewrite !elem_of_nil. tauto.
  - rewrite bind_cons, fmap_cons. cbn [foldl]. rewrite IH. unfold count_entry.
    rewrite count_neighbors_dom. cbn [fst snd]. rewrite elem_of_cons, elem_of_app. destruct (d !! u) eqn:E.
    + assert (v = u -> is_Some (d !! v)) by (intros ->; rewrite E; eauto). tauto.
    + rewrite lookup_insert_is_Some'. intuition.
Qed.

Lemma initial_queue_eq range d :
  initial_queue range d = (filter (fun ne => ne.2 = 0) (range Z "inDegree" d)).*1.
Proof.
  unfold initial_queue. set (l := range Z "inDegree" d).
  enough (forall acc, foldl (fun q ne => if Z.eqb ne.2 0 then q ++ [ne.1] else q) acc l
                    = acc ++ (filter (fun ne => ne.2 = 0) l).*1) as H by (by rewrite H).
  clearbody l. induction l as [|[v k] l IH]; intros acc; simpl; [by rewrite app_nil_r|].
  rewrite IH, filter_cons. simpl. case_decide as Hk.
  - subst. simpl. by rewrite <- app_assoc.
  - apply Z.eqb_neq in Hk. by rewrite Hk.
Qed.

Section Kahn.

Variable range : iteration.
Hypothesis Hrange : iterates range.

Lemma targets_nil g : targets g [] ≡ₚ range _ "graph" g ≫= snd.
Proof.
  rewrite (Hrange _ "graph" g). unfold targets. apply reflexive_eq, list_bind_ext; [|done].
  intros ue. by rewrite decide_False by apply not_elem_of_nil.
Qed.

Lemma inDegrees_dom g v : is_Some (inDegrees range g !! v) <-> node g v.
Proof.
  change (inDegrees range g) with (foldl count_entry ∅ (range _ "graph" g)).
  rewrite count_entries_dom, <- targets_nil, elem_of_targets, lookup_empty.
  assert (v ∈ (range _ "graph" g).*1 <-> is_Some (g !! v)) as ->.
  { rewrite (Hrange _ "graph" g), list_elem_of_fmap. split.
    - intros ([w ns] & -> & Hw%elem_of_map_to_list). by exists ns.
    - intros [ns Hv]. exists (v, ns). by rewrite elem_of_map_to_list. }
  unfold node. split.
  - intros [[? [=]]|[?|(u & ? & _)]]; [by left|right; by exists u].
  - intros [?|[u ?]]; right; [by left|right]. exists u. split; [done|apply not_elem_of_nil].
Qed.

Lemma initial_queue_spec d :
  NoDup (initial_queue range d) /\ forall v, v ∈ initial_queue range d <-> d !! v = Some 0.
Proof.
  rewrite initial_queue_eq. split.
  - eapply (sublist_NoDup _ (range _ "inDegree" d).*1).
    + rewrite (Hrange _ "inDegree" d). apply NoDup_fst_map_to_list.
    + apply (fmap_sublist fst), sublist_filter.
  - intros v. rewrite list_elem_of_fmap. setoid_rewrite list_elem_of_filter.
    setoid_rewrite (Hrange _ "inDegree" d). split.
    + by intros ([w k] & -> & Hk & Hw%elem_of_map_to_list); simpl in *; subst.
    + intros Hv. exists (v, 0). by rewrite elem_of_map_to_list.
Qed.

Lemma kahn_initial g :
  kahn g (inDegrees range g) (initial_queue range (inDegrees range g)) [] [].
Proof.
  destruct (initial_queue_spec (inDegrees range g)) as [Hnd Hq]. split; simpl.
  - done.
  - apply inDegrees_dom.
  - intros v. rewrite (occ_perm _ _ _ (targets_nil g)).
    change (inDegrees range g) with (foldl count_entry ∅ (range _ "graph" g)).
    rewrite count_entries_deg. unfold deg. by rewrite lookup_empty.
  - intros v. rewrite Hq, <- inDegrees_dom. unfold deg.
    destruct (inDegrees range g !! v); simpl; [|naive_solver].
    split; [intros [= ->]; eauto|intros [_ ->]; done].
  - intros [|] ? ? ? [=].
Qed.

(** Every node not in the final result has a predecessor that is not either. *)
Lemma kahn_stuck g d r v :
  kahn g d [] r [] -> node g v -> v ∉ r -> exists u, edge g u v /\ u ∉ r.
Proof.
  intros [_ _ Hdeg Hz _] Hn Hv. apply elem_of_targets.
  destruct (decide (v ∈ targets g r)) as [?|Ht]; [done|]. exfalso. apply Hv.
  apply occ_zero in Ht. specialize (Hz v). rewrite app_nil_r in Hz. apply Hz.
  by rewrite Hdeg.
Qed.

(** A set from which every member has a predecessor in the set has a cycle,
    because the graph is finite. *)
Lemma predecessors_cycle g (P : string -> Prop) v :
  (forall w, P w -> node g w) -> (forall w, P w -> exists u, edge g u w /\ P u) ->
  P v -> exists w, tc (edge g) w w.
Proof.
  intros HPn HP Hv. set (U := dom (inDegrees range g)).
  assert (HU : forall w, P w -> w ∈ U).
  { intros w Hw. unfold U. rewrite elem_of_dom. by apply inDegrees_dom, HPn. }
  enough (forall n l w, (size U < n + length l)%nat -> NoDup (w :: l) -> P w ->
            (forall u, u ∈ l -> P u /\ tc (edge g) w u) -> exists w, tc (edge g) w w) as Hwalk.
  { apply (Hwalk (S (size U)) [] v); [lia|apply NoDup_singleton|done|].
    by intros u ?%not_elem_of_nil. }
  clear v Hv. induction n as [|n IH]; intros l w Hn Hnd Hw Hl.
  - exfalso. apply NoDup_cons in Hnd as [_ Hnd].
    rewrite <- (size_list_to_set (C:=gset string)) in Hn by done.
    assert (list_to_set l ⊆ U) as Hsub%subseteq_size; [|lia].
    intros u. rewrite elem_of_list_to_set. intros Hu. by apply HU, Hl.
  - destruct (HP w Hw) as (u & Huw & Hu).
    destruct (decide (u ∈ w :: l)) as [[->|Hul]%elem_of_cons|Hnew].
    + exists w. by apply tc_once.
    + exists u. eapply tc_l; [done|]. by apply Hl.
    + apply (IH (w :: l) u); [simpl; lia|by apply NoDup_cons|done|].
      intros x [->|Hx]%elem_of_cons.
      * split; [done|by apply tc_once].
      * destruct (Hl x Hx) as [? ?]. split; [done|by eapply tc_l].
Qed.

Lemma before_reverse {A} (l : list A) u v : before l u v -> before (reverse l) v u.
Proof.
  intros (l1 & l2 & l3 & ->). exists (reverse l3), (reverse l2), (reverse l1).
  rewrite reverse_app, reverse_cons, reverse_app, reverse_cons.
  by rewrite <- !app_assoc.
Qed.

Lemma kahn_before g d r u v : kahn g d [] r [] -> v ∈ r -> edge g u v -> before r u v.
Proof.
  intros Hk (l1 & l2 & ->)%list_elem_of_split He.
  pose proof (kahn_order _ _ _ _ _ Hk l1 v l2 u eq_refl He) as (k1 & k2 & ->)%list_elem_of_split.
  exists k1, k2, l2. by rewrite <- app_assoc.
Qed.

Lemma kahn_result_node g d r : kahn g d [] r [] -> forall v, v ∈ r -> node g v.
Proof. intros Hk v Hv. apply (kahn_zero _ _ _ _ _ Hk v). by rewrite app_nil_r. Qed.

(** The length test of the code tells whether every node was taken. *)
Lemma kahn_full g d r :
  kahn g d [] r [] -> length r = size d -> forall v, node g v -> v ∈ r.
Proof.
  intros Hk Hlen v Hv. apply (kahn_dom _ _ _ _ _ Hk) in Hv.
  rewrite <- (elem_of_dom (D:=gset string)) in Hv. rewrite <- (elem_of_list_to_set (C:=gset string)).
  replace (list_to_set r) with (dom d : gset string); [done|]. symmetry.
  apply set_subseteq_size_eq.
  - intros w. rewrite elem_of_list_to_set, elem_of_dom. intros Hw.
    by apply (kahn_dom _ _ _ _ _ Hk), (kahn_result_node _ _ _ Hk).
  - pose proof (kahn_nodup _ _ _ _ _ Hk) as Hnd. rewrite app_nil_r in Hnd.
    rewrite size_list_to_set, size_dom by done. lia.
Qed.

Lemma kahn_missing g d r :
  kahn g d [] r [] -> length r <> size d -> exists v, node g v /\ v ∉ r.
Proof.
  intros Hk Hlen. pose proof (kahn_nodup _ _ _ _ _ Hk) as Hnd. rewrite app_nil_r in Hnd.
  destruct (decide (dom d ∖ (list_to_set r : gset string) = ∅)) as [Hs|(v & Hv)%set_choose_L].
  - exfalso. apply Hlen. apply kahn_bound in Hk. rewrite app_nil_r in Hk.
    assert (dom d ⊆ (list_to_set r : gset string)) as Hsub%subseteq_size by set_solver +Hs.
    rewrite size_dom, size_list_to_set in Hsub by done. lia.
  - apply elem_of_difference in Hv as [Hv Hvr]. exists v.
    rewrite elem_of_dom in Hv. rewrite elem_of_list_to_set in Hvr.
    split; [|done]. by apply (kahn_dom _ _ _ _ _ Hk).
Qed.

(** In a topological order of the nodes there is no cycle. *)
Lemma order_acyclic g (r : list string) :
  NoDup r -> (forall u v, edge g u v -> before r u v) -> forall v, ~ tc (edge g) v v.
Proof.
  intros Hnd Hb v Hc.
  assert (forall u w, tc (edge g) u w -> exists i j, r !! i = Some u /\ r !! j = Some w /\ (i < j)%nat) as Hlt.
  { assert (forall u w, before r u w -> exists i j, r !! i = Some u /\ r !! j = Some w /\ (i < j)%nat) as Hidx.
    { intros u w (l1 & l2 & l3 & ->). exists (length l1), (length l1 + S (length l2))%nat.
      rewrite list_lookup_middle by done. split; [done|]. split; [|lia].
      rewrite lookup_app_r by lia. replace (_ - _)%nat with (S (length l2)) by lia. simpl.
      by rewrite list_lookup_middle. }
    induction 1 as [u w He|u w x He _ (i & j & Hi & Hj & ?)]; [by apply Hidx, Hb|].
    destruct (Hidx _ _ (Hb _ _ He)) as (i' & j' & Hi' & Hj' & ?).
    exists i', j. split; [done|]. split; [done|]. pose proof (NoDup_lookup _ _ _ _ Hnd Hj' Hi). lia. }
  destruct (Hlt v v Hc) as (i & j & Hi & Hj & ?).
  pose proof (NoDup_lookup _ _ _ _ Hnd Hi Hj). lia.
Qed.

Lemma topologicalSort_run g :
  exists r d, topologicalSort range g = Some (if Nat.eqb (length r) (size d) then inl (reverse r) else inr ErrCycle)
    /\ kahn g d [] r [].
Proof.
  unfold topologicalSort.
  destruct (topo_loop_ok (size (inDegrees range g)) g _ _ _ (kahn_initial g)) as (r & d & -> & Hk & Hd);
    [simpl; lia|].
  exists r, d. simpl. by rewrite Hd.
Qed.

End Kahn.

(** * The graph of the plugins *)

(** [c] needs data of [p]: some key is produced by the one and consumed by
    the other. *)
Definition shares (p c : Plugin) : Prop :=
  exists ps cs k, produced p = Some ps /\ consumed c = Some cs /\
    is_Some (ps !! k) /\ is_Some (cs !! k).

Definition needs (producers consumers : gmap string Plugin) (c p : string) : Prop :=
  p <> c /\ exists pp cc, producers !! p = Some pp /\ consumers !! c = Some cc /\ shares pp cc.

(** The data of a key agree, and the layer of the producer runs no later. *)
Definition agree (p c : Plugin) : Prop :=
  pluginToLayerExecutionOrder p <= pluginToLayerExecutionOrder c /\
  forall ps cs k a b, produced p = Some ps -> consumed c = Some cs ->
    ps !! k = Some a -> cs !! k = Some b -> a = b /\ type_comparable (dyn_type a) = true.

(** What adding edges does to a graph. *)
Definition grows (R : string -> string -> Prop) (g g' : gmap string (list string)) : Prop :=
  (forall u v, edge g' u v <-> edge g u v \/ R u v) /\
  (forall v, is_Some (g !! v) -> is_Some (g' !! v)) /\
  (forall v, is_Some (g' !! v) -> is_Some (g !! v) \/ exists p, R v p).

Lemma grows_refl g (R : string -> string -> Prop) : (forall u v, ~ R u v) -> grows R g g.
Proof. intros H. split; [firstorder|split; [done|]]. by left. Qed.

Lemma efold_grows {A E} (f : gmap string (list string) -> A -> gmap string (list string) + E)
    (R : A -> string -> string -> Prop) l g g' :
  (forall g x g', x ∈ l -> f g x = inl g' -> grows (R x) g g') ->
  efold f l g = inl g' -> grows (fun u v => exists x, x ∈ l /\ R x u v) g g'.
Proof.
  revert g. induction l as [|x l IH]; intros g Hf; simpl.
  - intros [= <-]. apply grows_refl. by intros u v (x & ?%not_elem_of_nil & _).
  - rewrite ebind_inl. intros (g1 & H1 & H2).
    destruct (Hf g x g1) as (He1 & Hd1 & Hr1); [by left|done|].
    destruct (IH g1) as (He2 & Hd2 & Hr2); [|done|].
    { intros. apply Hf; [by right|done]. }
    split; [|split].
    + intros u v. rewrite He2, He1. setoid_rewrite elem_of_cons. clear. naive_solver.
    + auto.
    + intros v [[?|[p ?]]%Hr1|(p & y & ? & ?)]%Hr2; [by left| |].
      * right. exists p, x. by split; [left|].
      * right. exists p, y. by split; [right|].
Qed.

Lemma shared_key_found p c cs l :
  shared_key p c cs l = inl true -> exists k a, (k, a) ∈ l /\ cs !! k = Some a /\
    pluginToLayerExecutionOrder p <= pluginToLayerExecutionOrder c.
Proof.
  induction l as [|[k a] l IH]; simpl; [done|].
  destruct (cs !! k) as [b|] eqn:E.
  - unfold any_neq. case_decide as Ht; [|done]. destruct (type_comparable _); [|done]. simpl.
    destruct (negb _) eqn:Hn; [done|]. destruct (Z.gtb _ _) eqn:Hg; [done|]. intros _.
    apply negb_false_iff, Z.eqb_eq in Hn. rewrite Z.gtb_ltb in Hg. apply Z.ltb_ge in Hg.
    exists k, a. split; [left|]. split; [|done]. rewrite E. f_equal.
    destruct a, b; simpl in *. by subst.
  - intros (k' & a' & ? & ? & ?)%IH. exists k', a'. by split; [right|].
Qed.

Lemma shared_key_none p c cs l k a :
  shared_key p c cs l = inl false -> (k, a) ∈ l -> cs !! k = None.
Proof.
  induction l as [|[k' a'] l IH]; simpl; [by intros _ ?%not_elem_of_nil|].
  destruct (cs !! k') as [b|] eqn:E.
  - unfold any_neq. case_decide; [|done]. destruct (type_comparable _); [|done]. simpl.
    destruct (negb _); [done|]. by destruct (Z.gtb _ _).
  - intros Hn [[= -> ->]|?]%elem_of_cons; [done|auto].
Qed.

Section Build.

Variable range : iteration.
Hypothesis Hrange : iterates range.

Lemma elem_of_range {A} site (m : gmap string A) k x : (k, x) ∈ range A site m <-> m !! k = Some x.
Proof. by rewrite (Hrange A site m), elem_of_map_to_list. Qed.

Lemma shared_key_spec site p c ps cs found :
  produced p = Some ps -> consumed c = Some cs ->
  shared_key p c cs (range _ site ps) = inl found ->
  (found = true <-> shares p c) /\
  (found = true -> pluginToLayerExecutionOrder p <= pluginToLayerExecutionOrder c).
Proof.
  intros Hp Hc Hs. destruct found.
  - apply shared_key_found in Hs as (k & a & Hk%elem_of_range & Hk' & Hl).
    split; [|done]. split; [|done]. intros _. exists ps, cs, k. rewrite Hk, Hk'. eauto.
  - split; [|done]. split; [done|]. intros (ps' & cs' & k & ? & ? & [a Ha] & [b Hb]). simplify_eq.
    pose proof (shared_key_none _ _ _ _ k a Hs) as Hn. rewrite elem_of_range in Hn.
    by rewrite Hn in Hb.
Qed.

Lemma edge_snoc (g : gmap string (list string)) c p u v :
  edge (<[c := default [] (g !! c) ++ [p]]> g) u v <-> edge g u v \/ (u = c /\ v = p).
Proof.
  unfold edge. destruct (decide (u = c)) as [->|Hu].
  - rewrite lookup_insert_eq. destruct (g !! c) as [ns|] eqn:E; simpl; split.
    + intros (? & [= <-] & [? | ->%list_elem_of_singleton]%elem_of_app); [left; eauto|by right].
    + intros [(? & [= <-] & ?)|[_ ->]]; eexists; (split; [done|]); set_solver.
    + intros (? & [= <-] & ->%list_elem_of_singleton). by right.
    + intros [(? & [=] & ?)|[_ ->]]. eexists. split; [done|]. set_solver.
  - rewrite lookup_insert_ne by done. split; [by left|]. intros [?|[? _]]; done.
Qed.

Lemma add_edge_grows p pp c cc g g' :
  add_edge range p pp g (c, cc) = inl g' ->
  grows (fun u v => u = c /\ v = p /\ p <> c /\ shares pp cc) g g' /\
  (p <> c -> shares pp cc -> pluginToLayerExecutionOrder pp <= pluginToLayerExecutionOrder cc).
Proof.
  unfold add_edge. destruct (String.eqb_spec p c) as [->|Hpc].
  { intros [= <-]. split; [apply grows_refl; naive_solver|done]. }
  destruct (produced pp) as [ps|] eqn:Hp, (consumed cc) as [cs|] eqn:Hc.
  2-4: intros [= <-]; split; [apply grows_refl|]; unfold shares; intros; naive_solver.
  rewrite ebind_inl. intros (found & Hs & [= <-]).
  destruct (shared_key_spec _ _ _ _ _ _ Hp Hc Hs) as [Hf Hl].
  split; [|by intros _ ?%Hf; auto].
  destruct found; [|apply grows_refl; naive_solver].
  assert (shares pp cc) as Hsh by by apply Hf. split; [|split].
  - intros u v. rewrite edge_snoc. naive_solver.
  - intros v. rewrite lookup_insert_is_Some'. by right.
  - intros v. rewrite lookup_insert_is_Some'. intros [<-|?]; [right; by exists p|by left].
Qed.

Lemma efold_each {A S E} (f : S -> A -> S + E) l s s' x :
  efold f l s = inl s' -> x ∈ l -> exists s1 s2, f s1 x = inl s2.
Proof.
  revert s. induction l as [|y l IH]; intros s; simpl; [by intros _ ?%not_elem_of_nil|].
  rewrite ebind_inl. intros (s1 & H1 & H2) [->|Hx]%elem_of_cons; [by exists s, s1|eauto].
Qed.

Lemma efold_total {A S E} (f : S -> A -> S + E) l s :
  (forall s x, x ∈ l -> exists s', f s x = inl s') -> exists s', efold f l s = inl s'.
Proof.
  revert s. induction l as [|y l IH]; intros s Hf; simpl; [by eexists|].
  destruct (Hf s y) as [s1 ->]; [left|]. apply IH. intros. apply Hf. by right.
Qed.

Lemma shared_key_total site p c ps cs :
  (shares p c -> agree p c) -> produced p = Some ps -> consumed c = Some cs ->
  exists found, shared_key p c cs (range _ site ps) = inl found.
Proof.
  intros Ha Hp Hc.
  assert (forall k a, (k, a) ∈ range _ site ps -> ps !! k = Some a) as Hl
    by (intros k a; apply elem_of_range).
  induction (range _ site ps) as [|[k a] l IH]; simpl; [by exists false|].
  destruct (cs !! k) as [b|] eqn:E.
  - pose proof (Hl k a ltac:(left)) as Hk.
    destruct Ha as [Hlay Hag]; [exists ps, cs, k; rewrite Hk, E; eauto|].
    destruct (Hag ps cs k a b) as [<- Hcmp]; [done..|]. unfold any_neq.
    rewrite decide_True, Hcmp, Z.eqb_refl by done. simpl.
    rewrite Z.gtb_ltb, (proj2 (Z.ltb_ge _ _) Hlay).
    by exists true.
  - apply IH. intros. apply Hl. by right.
Qed.

(** The skeleton of the graph: a node with no edge for each plugin. *)
Definition skeleton (m : gmap string Plugin) (site : string) (g : gmap string (list string)) :=
  foldl (fun g ne => <[pl_name ne.2 := []]> g) g (range _ site m).

Definition named (m : gmap string Plugin) : Prop := forall n p, m !! n = Some p -> pl_name p = n.

Lemma skeleton_spec m site g :
  named m -> (forall u v, ~ edge g u v) ->
  (forall u v, ~ edge (skeleton m site g) u v) /\
  (forall v, is_Some (skeleton m site g !! v) <-> is_Some (g !! v) \/ is_Some (m !! v)).
Proof.
  intros Hn. unfold skeleton.
  assert (forall v, is_Some (m !! v) <-> v ∈ (range _ site m).*1) as Hm.
  { intros v. rewrite list_elem_of_fmap. split.
    - intros [p Hp]. exists (v, p). by rewrite elem_of_range.
    - intros ([w p] & -> & Hp%elem_of_range). by exists p. }
  setoid_rewrite Hm.
  assert (forall n p, (n, p) ∈ range _ site m -> pl_name p = n) as Hl
    by (intros n p ?%elem_of_range; auto).
  clear Hm. revert g. induction (range _ site m) as [|[n p] l IH]; intros g He; simpl.
  - split; [done|]. intros v. rewrite elem_of_nil. tauto.
  - destruct (IH ltac:(intros; apply Hl; by right) (<[pl_name p := []]> g)) as [He' Hd'].
    + intros u v (ns & Hu & Hv). destruct (decide (u = pl_name p)) as [->|Hne].
      * rewrite lookup_insert_eq in Hu. injection Hu as <-. by apply not_elem_of_nil in Hv.
      * rewrite lookup_insert_ne in Hu by done. apply (He u v). by exists ns.
    + split; [done|]. intros v. rewrite Hd', lookup_insert_is_Some', elem_of_cons.
      rewrite (Hl n p) by left. naive_solver.
Qed.

Section Maps.

Variables P C : gmap string Plugin.
Hypotheses (HP : named P) (HC : named C).

Lemma buildDAG_skeleton :
  exists g0, (forall u v, ~ edge g0 u v) /\
    (forall v, is_Some (g0 !! v) <-> is_Some (P !! v) \/ is_Some (C !! v)) /\
    buildDAG range P C =
      efold (fun dag pe => efold (add_edge range pe.1 pe.2) (range _ pe.1 C) dag) (range _ "edges" P) g0.
Proof.
  destruct (skeleton_spec P "producers" ∅ HP) as [He1 Hd1].
  { by intros u v (ns & [=] & _). }
  destruct (skeleton_spec C "consumers" _ HC He1) as [He2 Hd2].
  eexists. split; [exact He2|]. split; [|reflexivity].
  intros v. rewrite Hd2, Hd1, lookup_empty. split; [|tauto].
  intros [[[? [=]]|?]|?]; tauto.
Qed.

(** The graph has an edge exactly where a consumer needs a producer, and a
    producer never runs in a later layer than a consumer of its data. *)
Lemma buildDAG_spec g :
  buildDAG range P C = inl g ->
  (forall u v, edge g u v <-> needs P C u v) /\
  (forall v, is_Some (g !! v) <-> is_Some (P !! v) \/ is_Some (C !! v)) /\
  (forall c p pp cc, p <> c -> P !! p = Some pp -> C !! c = Some cc -> shares pp cc ->
     pluginToLayerExecutionOrder pp <= pluginToLayerExecutionOrder cc).
Proof.
  destruct buildDAG_skeleton as (g0 & He0 & Hd0 & ->). intros Hb. split; [|split].
  1,2: apply (efold_grows _ (fun pe u v => exists ce, ce ∈ range _ pe.1 C /\ u = ce.1 /\ v = pe.1 /\
                pe.1 <> ce.1 /\ shares pe.2 ce.2)) in Hb as (He & Hd & Hr);
         [|intros g1 pe g2 _; apply efold_grows; intros g3 [c cc] g4 _ ?; by eapply add_edge_grows].
  - intros u v. rewrite He. unfold needs. split.
    + intros [[]%He0|([p pp] & Hp%elem_of_range & [c cc] & Hc%elem_of_range & -> & -> & ? & ?)].
      simpl in *. eauto 10.
    + intros (Hne & pp & cc & Hp & Hc & Hs). right. exists (v, pp). rewrite elem_of_range.
      split; [done|]. exists (u, cc). by rewrite elem_of_range.
  - intros v. rewrite <- Hd0. split; [|apply Hd].
    intros [?|(p & [p' pp] & _ & [c cc] & Hc%elem_of_range & -> & _)]%Hr; [done|].
    apply Hd0. right. by exists cc.
  - intros c p pp cc Hne Hp Hc Hs.
    destruct (efold_each _ _ _ _ (p, pp) Hb) as (g1 & g2 & Hin); [by apply elem_of_range|].
    destruct (efold_each _ _ _ _ (c, cc) Hin) as (g3 & g4 & Hadd); [by apply elem_of_range|].
    apply add_edge_grows in Hadd as [_ Hl]. auto.
Qed.

Lemma buildDAG_total :
  (forall c p pp cc, p <> c -> P !! p = Some pp -> C !! c = Some cc -> shares pp cc -> agree pp cc) ->
  exists g, buildDAG range P C = inl g.
Proof.
  intros Ha. destruct buildDAG_skeleton as (g0 & _ & _ & ->).
  apply efold_total. intros g1 [p pp] Hp%elem_of_range.
  apply efold_total. intros g2 [c cc] Hc%elem_of_range. simpl. unfold add_edge.
  destruct (String.eqb_spec p c); [by eexists|].
  destruct (produced pp) as [ps|] eqn:Ep, (consumed cc) as [cs|] eqn:Ec; try by eexists.
  destruct (shared_key_total (p +:+ c) pp cc ps cs) as [found ->]; [by eauto|done..|].
  simpl. by eexists.
Qed.

End Maps.

(** The construction never reports a cycle. *)
Lemma efold_error {A S E} (f : S -> A -> S + E) (Q : E -> Prop) l s e :
  (forall s x e, f s x = inr e -> Q e) -> efold f l s = inr e -> Q e.
Proof.
  intros Hf. revert s. induction l as [|x l IH]; intros s; simpl; [done|].
  destruct (f s x) as [s1|e1] eqn:E1; simpl; [apply IH|]. intros [= <-]. by eapply Hf.
Qed.

Lemma buildDAG_no_cycle P C : buildDAG range P C <> inr (Returned ErrCycle).
Proof.
  intros Hb. enough (Returned ErrCycle <> Returned ErrCycle :> failure graph_error) by done.
  revert Hb. apply (efold_error _ (fun e => e <> Returned ErrCycle)). intros g1 pe e1.
  apply (efold_error _ (fun e => e <> Returned ErrCycle)). intros g2 [c cc] e2. unfold add_edge.
  destruct (String.eqb _ _); [done|].
  destruct (produced pe.2) as [ps|], (consumed cc) as [cs|]; [|done..].
  destruct (shared_key _ _ _ _) as [|e3] eqn:Hs; simpl; [done|]. intros [= <-].
  revert Hs. generalize (range _ (pe.1 +:+ c) ps).
  intros l. induction l as [|[k a] l IH]; simpl; [done|].
  destruct (cs !! k); [|done]. unfold any_neq.
  case_decide; [destruct (type_comparable _)|]; simpl; [|by intros [= <-]..].
  destruct (negb _); [by intros [= <-]|]. destruct (Z.gtb _ _); [by intros [= <-]|done].
Qed.

End Build.

(** * The operation on a list of plugins *)

Lemma pluginMap_named plugins : named (pluginMap plugins).
Proof.
  unfold pluginMap. assert (named ∅) as H by (by intros ? ? [=]). revert H.
  generalize (∅ : gmap string Plugin). induction plugins as [|p plugins IH]; intros m Hm; [done|].
  apply IH. intros n q. destruct (decide (n = pl_name p)) as [->|?].
  - rewrite lookup_insert_eq. by intros [= ->].
  - rewrite lookup_insert_ne by done. apply Hm.
Qed.

Lemma having_lookup P l n p :
  NoDup l.*1 -> having P l !! n = Some p <-> (n, p) ∈ l /\ P p = true.
Proof.
  unfold having. assert (Hm : forall m : gmap string Plugin, NoDup l.*1 ->
    (forall k, k ∈ l.*1 -> m !! k = None) ->
    foldl (fun m ne => if P ne.2 then <[ne.1 := ne.2]> m else m) m l !! n = Some p
    <-> m !! n = Some p \/ ((n, p) ∈ l /\ P p = true)).
  { induction l as [|[k q] l IH]; intros m Hnd Hf; simpl.
    - rewrite elem_of_nil. naive_solver.
    - simpl in *. apply NoDup_cons in Hnd as [Hk Hnd].
      pose proof (Hf k ltac:(left)) as Hmk.
      rewrite IH, elem_of_cons; [|done|].
      2: { intros k' Hk'. destruct (P q); [rewrite lookup_insert_ne by (intros ->; done)|];
           apply Hf; by right. }
      destruct (P q) eqn:Eq; cycle 1.
      { split; [intros [?|[? ?]]; auto|].
        intros [?|[[[= -> ->]|?] ?]]; [by left|congruence|by right]. }
      destruct (decide (n = k)) as [->|Hne].
      + rewrite lookup_insert_eq, Hmk.
        assert ((k, p) ∉ l) by (intros Hin; apply Hk; apply (list_elem_of_fmap_2 fst) in Hin; done).
        clear -H Eq. naive_solver.
      + rewrite lookup_insert_ne by done. clear -Hne. naive_solver. }
  intros Hnd. rewrite Hm; [|done|by intros; apply lookup_empty].
  rewrite lookup_empty. naive_solver.
Qed.

(** [c] consumes data that [p] produces, among the given plugins. *)
Definition depends (plugins : list Plugin) (c p : string) : Prop :=
  p <> c /\ exists pp cc, pluginMap plugins !! p = Some pp /\ pluginMap plugins !! c = Some cc /\
    shares pp cc.

(** The plugins that take part: producers and consumers. *)
Definition data_plugin (plugins : list Plugin) (n : string) : Prop :=
  exists p, pluginMap plugins !! n = Some p /\ (is_ProducerPlugin p || is_ConsumerPlugin p) = true.

(** The plugins fit together: the data of shared keys agree, and no producer is
    in a later layer. *)
Definition fits (plugins : list Plugin) : Prop :=
  forall c p pp cc, p <> c -> pluginMap plugins !! p = Some pp -> pluginMap plugins !! c = Some cc ->
    shares pp cc -> agree pp cc.

Lemma shares_kinds p c : shares p c -> is_ProducerPlugin p = true /\ is_ConsumerPlugin c = true.
Proof.
  intros (ps & cs & k & Hp & Hc & _). unfold produced, consumed in *.
  unfold is_ProducerPlugin, is_ConsumerPlugin.
  by destruct (pl_Produces p), (pl_Consumes c).
Qed.

Section Order.

Variable range : iteration.
Hypothesis Hrange : iterates range.

Lemma having_range P plugins n p :
  having P (range _ "plugins" (pluginMap plugins)) !! n = Some p <->
  pluginMap plugins !! n = Some p /\ P p = true.
Proof.
  rewrite having_lookup, elem_of_range by
    (try done; rewrite (Hrange _ _ (pluginMap plugins)); apply NoDup_fst_map_to_list).
  done.
Qed.

Lemma having_named P plugins : named (having P (range _ "plugins" (pluginMap plugins))).
Proof. intros n p [H _]%having_range. by eapply pluginMap_named. Qed.

Lemma needs_depends plugins c p :
  needs (having is_ProducerPlugin (range _ "plugins" (pluginMap plugins)))
        (having is_ConsumerPlugin (range _ "plugins" (pluginMap plugins))) c p <->
  depends plugins c p.
Proof.
  unfold needs, depends. setoid_rewrite having_range. split.
  - intros (? & pp & cc & [? _] & [? _] & ?). split; [done|]. by exists pp, cc.
  - intros (? & pp & cc & ? & ? & Hs). split; [done|]. exists pp, cc.
    by destruct (shares_kinds _ _ Hs).
Qed.

(** A graph whose edges are the dependencies among the data plugins. *)
Definition dependency_graph (plugins : list Plugin) (g : gmap string (list string)) : Prop :=
  (forall c p, edge g c p <-> depends plugins c p) /\
  (forall n, node g n <-> data_plugin plugins n).

Lemma buildDAG_plugins plugins g :
  buildDAG range (having is_ProducerPlugin (range _ "plugins" (pluginMap plugins)))
                 (having is_ConsumerPlugin (range _ "plugins" (pluginMap plugins))) = inl g ->
  dependency_graph plugins g /\
  (forall c p pp cc, p <> c -> pluginMap plugins !! p = Some pp -> pluginMap plugins !! c = Some cc ->
     shares pp cc -> pluginToLayerExecutionOrder pp <= pluginToLayerExecutionOrder cc).
Proof.
  intros (He & Hd & Hl)%buildDAG_spec; [|done|apply having_named..]. split; [split|].
  - intros c p. by rewrite He, needs_depends.
  - intros n. unfold node, data_plugin. setoid_rewrite He. setoid_rewrite needs_depends.
    rewrite Hd. unfold is_Some. setoid_rewrite having_range. setoid_rewrite orb_true_iff. split.
    + intros [[(p & ? & ?)|(p & ? & ?)]|(c & _ & pp & cc & ? & ? & Hs)];
        [exists p; by auto..|]. destruct (shares_kinds _ _ Hs). exists pp. by auto.
    + intros (p & ? & [?|?]); left; eauto.
  - intros c p pp cc Hne Hp Hc Hs. destruct (shares_kinds _ _ Hs).
    apply (Hl c p); [done| |..]; [by apply having_range..|done].
Qed.

(** The names come back once each, producers before consumers. *)
Definition ordered (plugins : list Plugin) (order : list string) : Prop :=
  NoDup order /\ (forall n, n ∈ order <-> data_plugin plugins n) /\
  (forall c p, depends plugins c p -> before order p c).

Lemma topologicalSort_plugins plugins g :
  dependency_graph plugins g ->
  (exists order, topologicalSort range g = Some (inl order) /\ ordered plugins order /\
     forall v, ~ tc (depends plugins) v v) \/
  (topologicalSort range g = Some (inr ErrCycle) /\ exists v, tc (depends plugins) v v).
Proof.
  intros [He Hn]. destruct (topologicalSort_run range Hrange g) as (r & d & -> & Hk).
  assert (forall v w, tc (edge g) v w <-> tc (depends plugins) v w) as Htc.
  { intros v w. split; (induction 1; [apply tc_once|eapply tc_l; [|done]]; by apply He). }
  pose proof (kahn_nodup _ _ _ _ _ Hk) as Hnd. rewrite app_nil_r in Hnd.
  pose proof (kahn_result_node _ _ _ Hk) as Hr.
  destruct (Nat.eqb_spec (length r) (size d)) as [Hlen|Hlen].
  - pose proof (kahn_full _ _ _ Hk Hlen) as Hall.
    assert (forall u v, edge g u v -> before r u v) as Hb.
    { intros u v Huv. eapply kahn_before; [done| |done]. apply Hall. right. by exists u. }
    left. exists (reverse r). split; [done|]. split; [split; [|split]|].
    + by rewrite reverse_Permutation.
    + intros n. rewrite <- Hn, elem_of_reverse. split; auto.
    + intros c p ?%He. by apply before_reverse, Hb.
    + intros v Hv%Htc. by eapply order_acyclic.
  - right. split; [done|].
    destruct (kahn_missing _ _ _ Hk Hlen) as (v & Hv & Hvr).
    destruct (predecessors_cycle range Hrange g (fun w => node g w /\ w ∉ r) v) as [w Hw%Htc];
      [naive_solver| |done|by exists w].
    intros w [Hw Hwr]. destruct (kahn_stuck _ _ _ _ Hk Hw Hwr) as (u & Hu & Hur).
    exists u. split; [done|]. split; [|done]. destruct Hu as (ns & ? & ?). left. by exists ns.
Qed.

End Order.

(** * The configured plugins *)

Lemma pluginMap_lookup l n p :
  NoDup (pl_name <$> l) -> pluginMap l !! n = Some p <-> p ∈ l /\ pl_name p = n.
Proof.
  intros Hnd. induction l as [|q l IH] using rev_ind.
  - unfold pluginMap. simpl. rewrite lookup_empty, elem_of_nil. naive_solver.
  - rewrite fmap_app in Hnd. apply NoDup_app in Hnd as (Hnd & Hd & _).
    unfold pluginMap in *. rewrite foldl_app. simpl. specialize (IH Hnd).
    rewrite elem_of_app, list_elem_of_singleton.
    destruct (decide (n = pl_name q)) as [->|Hne].
    + rewrite lookup_insert_eq. split; [intros [= <-]; auto|].
      intros [[Hp| ->] Hn]; [|done]. exfalso. apply (Hd (pl_name q)); [|left].
      rewrite <- Hn. by apply list_elem_of_fmap_2.
    + rewrite lookup_insert_ne, IH by done. split; [naive_solver|].
      intros [[?| ->] ?]; [done|by destruct Hne].
Qed.

Lemma AddPlugins_prepare c l :
  prepareDataPlugins (AddPlugins c l) =
  prepareDataPlugins c ++ filter (fun p => is_PrepareDataPlugin p = true) l.
Proof.
  unfold AddPlugins. revert c. induction l as [|p l IH]; intros c; simpl; [by rewrite app_nil_r|].
  rewrite IH, filter_cons. simpl. unfold add_if.
  destruct (is_PrepareDataPlugin p); simpl; [by rewrite <- app_assoc|done].
Qed.

Lemma OrderPrepare_omap c names :
  prepareDataPlugins (OrderPrepareDataPlugins c names) =
  omap (fun n => pluginMap (prepareDataPlugins c) !! n) names.
Proof.
  unfold OrderPrepareDataPlugins. simpl. set (m := pluginMap _).
  enough (forall acc, foldl (fun acc n => match m !! n with Some p => acc ++ [p] | None => acc end) acc names
            = acc ++ omap (fun n => m !! n) names) as H by (by rewrite H).
  clearbody m. induction names as [|n names IH]; intros acc; simpl; [by rewrite app_nil_r|].
  rewrite IH. destruct (m !! n); simpl; [by rewrite <- app_assoc|done].
Qed.

Lemma before_omap {A B} (f : A -> option B) l u v x y :
  before l u v -> f u = Some x -> f v = Some y -> before (omap f l) x y.
Proof.
  intros (l1 & l2 & l3 & ->) Hu Hv. exists (omap f l1), (omap f l2), (omap f l3).
  rewrite omap_app. simpl. rewrite Hu, omap_app. simpl. by rewrite Hv.
Qed.

Lemma NoDup_split_inj {A} (k1 k2 j1 j2 : list A) v :
  NoDup (k1 ++ v :: k2) -> k1 ++ v :: k2 = j1 ++ v :: j2 -> k1 = j1.
Proof.
  intros Hnd Heq. assert (length k1 = length j1) as Hlen.
  { eapply (NoDup_lookup _ _ _ v Hnd); [|rewrite Heq]; by apply list_lookup_middle. }
  by apply app_inj_1 in Heq as [-> _].
Qed.

Lemma before_prefix {A} (l k : list A) u v : NoDup (l ++ k) -> before (l ++ k) u v -> v ∈ l -> before l u v.
Proof.
  intros Hnd (l1 & l2 & l3 & Heq) (k1 & k2 & ->)%list_elem_of_split.
  rewrite <- app_assoc in *. simpl in *.
  assert (k1 = l1 ++ u :: l2) as ->.
  { replace (l1 ++ u :: l2 ++ v :: l3) with ((l1 ++ u :: l2) ++ v :: l3) in Heq
      by (by rewrite <- app_assoc).
    by eapply NoDup_split_inj. }
  exists l1, l2, k2. by rewrite <- app_assoc.
Qed.

Lemma NoDup_omap_inj {A B} (f : A -> option B) l :
  (forall x y z, f x = Some z -> f y = Some z -> x = y) -> NoDup l -> NoDup (omap f l).
Proof.
  intros Hf. induction 1 as [|x l Hx _ IH]; simpl; [constructor|].
  destruct (f x) as [z|] eqn:E; [|done]. apply NoDup_cons. split; [|done].
  rewrite list_elem_of_omap. intros (y & Hy & Hz). by rewrite (Hf _ _ _ E Hz) in Hx.
Qed.

(** The run of a plugin with the plugins run so far recorded. *)
Definition logged {S E} (run : Plugin -> S -> S * option E) (p : Plugin) (sl : S * list Plugin)
    : (S * list Plugin) * option E :=
  let '(s', e) := run p sl.1 in ((s', sl.2 ++ [p]), e).

Lemma execute_log {S E} (run : Plugin -> S -> S * option E) l s k s' k' e :
  executePluginsAsDAG (logged run) l (s, k) = ((s', k'), e) ->
  exists rest, k ++ l = k' ++ rest /\ (e = None -> rest = []).
Proof.
  revert s k. induction l as [|p l IH]; intros s k; simpl.
  - intros [= <- <- <-]. by exists [].
  - unfold logged at 1. simpl. destruct (run p s) as [s1 [e1|]].
    + intros [= <- <- <-]. exists l. by rewrite <- app_assoc.
    + intros (rest & Heq & He)%IH. exists rest. by rewrite <- app_assoc in Heq.
Qed.

Section Configured.

Variable range : iteration.
Hypothesis Hrange : iterates range.
Variable handle : gmap string Plugin.
Let plugins := snd <$> map_to_list handle.
Hypothesis Hnames : NoDup (pl_name <$> plugins).

Lemma GetAllPlugins_perm site : GetAllPlugins range site handle ≡ₚ plugins.
Proof. unfold GetAllPlugins, plugins. by rewrite (Hrange _ site handle). Qed.

Lemma GetAllPlugins_lookup site n p :
  pluginMap (GetAllPlugins range site handle) !! n = Some p <-> p ∈ plugins /\ pl_name p = n.
Proof.
  rewrite pluginMap_lookup; by rewrite GetAllPlugins_perm.
Qed.

Lemma name_inj p q : p ∈ plugins -> q ∈ plugins -> pl_name p = pl_name q -> p = q.
Proof.
  intros Hp Hq Heq.
  assert (Some p = Some q) as [= ->]; [|done].
  rewrite <- (proj2 (pluginMap_lookup plugins (pl_name p) p Hnames)) by done.
  by apply pluginMap_lookup.
Qed.

Lemma prepare_lookup site n p :
  pluginMap (prepareDataPlugins (AddPlugins NewConfig (GetAllPlugins range site handle))) !! n = Some p
  <-> p ∈ plugins /\ is_PrepareDataPlugin p = true /\ pl_name p = n.
Proof.
  rewrite AddPlugins_prepare. simpl. rewrite pluginMap_lookup.
  - rewrite list_elem_of_filter, GetAllPlugins_perm. naive_solver.
  - eapply sublist_NoDup; [|apply (fmap_sublist pl_name), sublist_filter].
    by rewrite GetAllPlugins_perm.
Qed.

Lemma prepare_is_data_plugin site p :
  p ∈ plugins -> is_PrepareDataPlugin p = true ->
  data_plugin (GetAllPlugins range site handle) (pl_name p).
Proof.
  intros Hp Hd. exists p. rewrite GetAllPlugins_lookup. split; [done|].
  unfold is_PrepareDataPlugin in Hd. rewrite !andb_true_iff in Hd. by destruct Hd as [[_ ->] _].
Qed.

(** The configured list holds every plugin that prepares data once, and a
    producer before each consumer of its data. *)
Lemma configured_order c :
  parseConfigurationPhaseTwo range NewConfig handle = Some (inl c) ->
  NoDup (prepareDataPlugins c) /\
  prepareDataPlugins c ≡ₚ filter (fun p => is_PrepareDataPlugin p = true) plugins /\
  forall p q, p ∈ prepareDataPlugins c -> q ∈ prepareDataPlugins c -> p <> q -> shares p q ->
    before (prepareDataPlugins c) p q.
Proof.
  unfold parseConfigurationPhaseTwo. rewrite bind_Some. intros (r & Hr & Hc).
  destruct r as [order|]; [|done]. injection Hc as <-.
  assert (ordered (GetAllPlugins range "Validate" handle) order) as (Hnd & Hel & Hord).
  { revert Hr. unfold ValidateAndOrderDataDependencies.
    destruct (buildDAG _ _ _) as [g|] eqn:Hb; [|done].
    apply buildDAG_plugins in Hb as [Hg _]; [|done].
    destruct (topologicalSort_plugins range Hrange _ _ Hg) as [(o & -> & Ho & _)|[-> _]]; simpl;
      [by intros [= <-]|done]. }
  rewrite OrderPrepare_omap.
  set (f := fun n => pluginMap (prepareDataPlugins
              (AddPlugins NewConfig (GetAllPlugins range "AddPlugins" handle))) !! n).
  assert (forall p, p ∈ omap f order <-> p ∈ plugins /\ is_PrepareDataPlugin p = true) as Hin.
  { intros p. rewrite list_elem_of_omap. unfold f. setoid_rewrite prepare_lookup. split.
    - by intros (n & _ & ? & ? & _).
    - intros [Hp Hd]. exists (pl_name p). split; [|done]. by apply Hel, prepare_is_data_plugin. }
  assert (NoDup (omap f order)) as Hnd'.
  { apply NoDup_omap_inj; [|done]. intros n m p Hn%prepare_lookup Hm%prepare_lookup.
    destruct Hn as (_ & _ & <-). by destruct Hm as (_ & _ & <-). }
  split; [done|]. split.
  - apply NoDup_Permutation; [done|apply NoDup_filter; by apply NoDup_fmap_1 in Hnames|].
    intros p. rewrite Hin, list_elem_of_filter. tauto.
  - intros p q [Hp Hpd]%Hin [Hq Hqd]%Hin Hne Hs.
    eapply (before_omap f order (pl_name p) (pl_name q)); [|by apply prepare_lookup..].
    apply Hord. split.
    + intros Heq. by apply Hne, name_inj.
    + exists p, q. rewrite !GetAllPlugins_lookup. done.
Qed.

End Configured.

(** * Claims *)

(** C17: Validation returns for every list of plugins and every iteration order of
    the maps. A returned order names each producer and consumer once, with
    every producer before the consumers of its data and in no later layer, and
    shows that no plugin depends on itself through others. The cycle error is
    returned only when one does; any other failure means that two plugins do
    not fit together. *)
Theorem data_dependencies_ordered range plugins :
  iterates range ->
  exists r, ValidateAndOrderDataDependencies range plugins = Some r /\
  match r with
  | inl order => ordered plugins order /\ (forall v, ~ tc (depends plugins) v v) /\
      (forall c p pp cc, p <> c -> pluginMap plugins !! p = Some pp ->
         pluginMap plugins !! c = Some cc -> shares pp cc ->
         pluginToLayerExecutionOrder pp <= pluginToLayerExecutionOrder cc)
  | inr (Returned ErrCycle) => exists v, tc (depends plugins) v v
  | inr _ => ~ fits plugins
  end.
Proof.
  intros Hrange. unfold ValidateAndOrderDataDependencies.
  destruct (buildDAG _ _ _) as [g|e] eqn:Hb.
  - apply buildDAG_plugins in Hb as [Hg Hl]; [|done].
    destruct (topologicalSort_plugins range Hrange _ _ Hg) as [(o & -> & Ho & Hc)|[-> Hc]]; simpl;
      by eexists.
  - exists (inr e). split; [done|].
    assert (~ fits plugins) as Hf.
    { intros Hf.
      edestruct (buildDAG_total range Hrange) as [g Hg]; [..|by rewrite Hb in Hg].
      1,2: by apply having_named.
      intros c p pp cc Hne [Hp _]%having_range [Hc _]%having_range Hs; [|done..]. by eapply Hf. }
    assert (e <> Returned ErrCycle) as He by (intros ->; by apply buildDAG_no_cycle in Hb).
    destruct e as [[]|]; done.
Qed.

(** A sample: a producer of two keys and two consumers of one each. *)
Definition sample_iteration : iteration := fun A _ m => map_to_list m.
Definition reversed_iteration : iteration := fun A _ m => reverse (map_to_list m).

Lemma sample_iterates : iterates sample_iteration.
Proof. by intros A site m. Qed.

Lemma reversed_iterates : iterates reversed_iteration.
Proof. intros A site m. apply reverse_Permutation. Qed.

Definition sample_any (t : string) : any :=
  {| dyn_type := {| type_name := t; type_comparable := true |}; dyn_value := 0 |}.

Definition sample_plugin (n : string) (ps cs : list (string * any)) : Plugin :=
  {| pl_TypedName := {| tn_Type := "t"; tn_Name := n |};
     pl_Produces := Some (Some (list_to_map ps)); pl_Consumes := Some (Some (list_to_map cs));
     pl_methods := [mPrepareRequestData] |}.

Definition sample_c := sample_plugin "c" [("z", sample_any "Z")] [("x", sample_any "X")].
Definition sample_d := sample_plugin "d" [] [("y", sample_any "Y"); ("z", sample_any "Z")].
Definition sample_p := sample_plugin "p" [("x", sample_any "X"); ("y", sample_any "Y")] [].
Definition sample_plugins : list Plugin := [sample_c; sample_d; sample_p].

Definition sample_run (p : Plugin) (s : nat) : nat * option unit :=
  (S s, if String.eqb (pl_name p) "c/t" then Some tt else None).

Definition sample_handle : gmap string Plugin :=
  list_to_map ((fun p => (tn_Name (pl_TypedName p), p)) <$> sample_plugins).

Lemma data_dependencies_ordered_witness :
  ValidateAndOrderDataDependencies sample_iteration sample_plugins = Some (inl ["p/t"; "c/t"; "d/t"]) /\
  ordered sample_plugins ["p/t"; "c/t"; "d/t"] /\ before ["p/t"; "c/t"; "d/t"] "c/t" "d/t".
Proof.
  assert (ValidateAndOrderDataDependencies sample_iteration sample_plugins
          = Some (inl ["p/t"; "c/t"; "d/t"])) as E by (vm_compute; reflexivity).
  split; [exact E|].
  destruct (data_dependencies_ordered sample_iteration sample_plugins sample_iterates) as (r & Hr & H).
  rewrite E in Hr. injection Hr as <-. destruct H as [Ho _]. split; [exact Ho|].
  apply Ho. split; [done|]. do 2 eexists. split; [vm_compute; reflexivity|].
  split; [vm_compute; reflexivity|]. do 2 eexists. exists "z". split; [reflexivity|].
  split; [reflexivity|]. split; eexists; vm_compute; reflexivity.
Defined.

(** With distinctly named plugins, the configuration holds every plugin that
    prepares data exactly once, and executing it runs a plugin only after the
    plugins that produce its data, whatever the plugins do and wherever one of
    them fails; without a failure all of them run. *)
Theorem prepare_data_producers_first {S E} range handle c
    (run : Plugin -> S -> S * option E) s s' log err :
  iterates range -> NoDup (pl_name <$> (snd <$> map_to_list handle)) ->
  parseConfigurationPhaseTwo range NewConfig handle = Some (inl c) ->
  executePluginsAsDAG (logged run) (prepareDataPlugins c) (s, []) = ((s', log), err) ->
  prepareDataPlugins c ≡ₚ filter (fun p => is_PrepareDataPlugin p = true) (snd <$> map_to_list handle) /\
  (err = None -> log = prepareDataPlugins c) /\
  forall p q, p ∈ prepareDataPlugins c -> q ∈ log -> p <> q -> shares p q -> before log p q.
Proof.
  intros Hrange Hn Hc He.
  destruct (configured_order range Hrange handle Hn c Hc) as (Hnd & Hperm & Hb).
  destruct (execute_log _ _ _ _ _ _ _ He) as (rest & Heq & Hrest). simpl in Heq.
  split; [done|]. split; [intros ->; rewrite Hrest, app_nil_r in Heq by done; by rewrite Heq|].
  intros p q Hp Hq Hne Hs. rewrite Heq in Hp, Hnd, Hb. eapply before_prefix; [done| |done].
  apply Hb; try done. apply elem_of_app. by left.
Qed.

Lemma prepare_data_producers_first_witness :
  exists c, parseConfigurationPhaseTwo reversed_iteration NewConfig sample_handle = Some (inl c) /\
    executePluginsAsDAG (logged sample_run) (prepareDataPlugins c) (0%nat, [])
      = ((2%nat, [sample_p; sample_c]), Some ("c/t", tt)) /\
    before [sample_p; sample_c] sample_p sample_c.
Proof.
  destruct (parseConfigurationPhaseTwo reversed_iteration NewConfig sample_handle) as [[c|]|] eqn:E;
    [|vm_compute in E; discriminate..].
  assert (prepareDataPlugins c = [sample_p; sample_c; sample_d]) as Hl.
  { vm_compute in E. injection E as <-. vm_compute. reflexivity. }
  assert (executePluginsAsDAG (logged sample_run) (prepareDataPlugins c) (0%nat, [])
          = ((2%nat, [sample_p; sample_c]), Some ("c/t", tt))) as He by (rewrite Hl; reflexivity).
  exists c. split; [reflexivity|]. split; [exact He|].
  eapply (prepare_data_producers_first reversed_iteration sample_handle c); try exact E; try exact He.
  - apply reversed_iterates.
  - apply (bool_decide_unpack _). vm_compute. exact I.
  - rewrite Hl. left.
  - right. left.
  - intros [=].
  - do 2 eexists. exists "x". split; [reflexivity|]. split; [reflexivity|].
    split; eexists; vm_compute; reflexivity.
Defined.

(** A producer and a consumer that agree on one key and not on another. *)
Definition mixed_plugins : list Plugin :=
  [ sample_plugin "p" [("x", sample_any "X"); ("y", sample_any "Y")] [];
    sample_plugin "c" [] [("x", sample_any "X"); ("y", sample_any "Other")] ].

(** Only the first shared key a map iteration meets is compared, so the same
    plugins are accepted under one iteration order and rejected under
    another. *)
Theorem validation_depends_on_iteration_order :
  exists range1 range2, iterates range1 /\ iterates range2 /\
    ValidateAndOrderDataDependencies range1 mixed_plugins = Some (inl ["p/t"; "c/t"]) /\
    ValidateAndOrderDataDependencies range2 mixed_plugins
      = Some (inr (Returned (ErrTypeMismatch "y"))).
Proof.
  exists reversed_iteration, sample_iteration. split; [apply reversed_iterates|].
  split; [apply sample_iterates|]. split; vm_compute; reflexivity.
Qed.
