(* ===== verification/Chunking.v ===== *)
(** Streaming a body to Envoy in chunks (src/pkg/common/envoy/chunking.go). *)

From S2P Require Import Prelude.

(** A byte is an integer below 256; its value is irrelevant here. *)
Definition bytes := list Z.

Definition BodyByteLimit : nat := Z.to_nat 62000.

(** The streamed body response a [CommonResponse] carries. *)
Record StreamedBodyResponse := { Body : bytes; EndOfStream : bool }.

(** [bodyBytes[i:j]] for indices within the slice. *)
Definition slice (b : bytes) (i j : nat) : bytes := take (j - i) (drop i b).

Section Build.

Variable limit : nat.

(** The loop: [fuel] bounds the iterations. *)
Fixpoint chunk_loop (fuel : nat) (bodyBytes : bytes) (setEos : bool) (startingIndex : nat)
    (responses : list StreamedBodyResponse) : option (list StreamedBodyResponse) :=
  if Nat.ltb startingIndex (length bodyBytes) then
    match fuel with
    | O => None
    | S fuel =>
        let len := Nat.min (length bodyBytes - startingIndex) limit in
        let chunk := slice bodyBytes startingIndex (len + startingIndex) in
        let eos := setEos && Nat.leb (length bodyBytes) (len + startingIndex) in
        chunk_loop fuel bodyBytes setEos (startingIndex + len)
          (responses ++ [{| Body := chunk; EndOfStream := eos |}])
    end
  else Some responses.

End Build.

(** Each iteration advances by at least one byte, so the length of the body
    bounds the iterations. *)
Definition BuildChunkedBodyResponses (bodyBytes : bytes) (setEos : bool)
    : option (list StreamedBodyResponse) :=
  if Nat.eqb (length bodyBytes) 0 then Some [{| Body := bodyBytes; EndOfStream := setEos |}]
  else chunk_loop BodyByteLimit (length bodyBytes) bodyBytes setEos 0 [].

(** What Envoy makes of the stream: the bodies up to the end of stream. *)
Definition reassemble (rs : list StreamedBodyResponse) : bytes := rs ≫= Body.

(** The chunks of a suffix of the body. *)
Definition chunked (limit : nat) (setEos : bool) (b : bytes) (rs : list StreamedBodyResponse) : Prop :=
  reassemble rs = b /\ Forall (fun r => (0 < length (Body r) <= limit)%nat) rs /\
  (exists init last, rs = init ++ [last] /\ EndOfStream last = setEos /\
     Forall (fun r => EndOfStream r = false /\ length (Body r) = limit) init).

Lemma chunk_loop_spec limit fuel b setEos i rs :
  (0 < limit)%nat -> (i < length b)%nat -> (length b - i <= fuel)%nat ->
  exists rs', chunk_loop limit fuel b setEos i rs = Some (rs ++ rs') /\
    chunked limit setEos (drop i b) rs'.
Proof.
  intros Hl. revert i rs. induction fuel as [|fuel IH]; intros i rs Hi Hf; [lia|].
  cbn [chunk_loop]. rewrite (proj2 (Nat.ltb_lt _ _) Hi).
  set (len := Nat.min (length b - i) limit).
  unfold slice. replace (len + i - i)%nat with len by lia.
  destruct (decide (i + len < length b)%nat) as [Hmore|Hlast].
  - assert (len = limit) as Hlen by lia.
    rewrite (proj2 (Nat.leb_gt _ _)), andb_false_r by lia.
    destruct (IH (i + len)%nat (rs ++ [{| Body := take len (drop i b); EndOfStream := false |}]))
      as (rs' & -> & Hre & Hall & init & last & Hrs & He & Hin); [lia..|].
    rewrite <- app_assoc. eexists. split; [reflexivity|]. split; [|split].
    + unfold reassemble in *. cbn [app]. rewrite bind_cons, Hre. simpl.
      rewrite <- drop_drop. apply take_drop.
    + constructor; [|done]. simpl. rewrite length_take, length_drop. lia.
    + exists ({| Body := take len (drop i b); EndOfStream := false |} :: init), last.
      rewrite Hrs. split; [done|]. split; [done|]. constructor; [|done].
      simpl. rewrite length_take, length_drop. split; [done|lia].
  - assert (len = length b - i)%nat as Hlen by lia.
    rewrite (proj2 (Nat.leb_le _ _)), andb_true_r by lia.
    assert (chunk_loop limit fuel b setEos (i + len)
              (rs ++ [{| Body := take len (drop i b); EndOfStream := setEos |}])
            = Some (rs ++ [{| Body := take len (drop i b); EndOfStream := setEos |}])) as ->.
    { destruct fuel; cbn [chunk_loop]; by rewrite (proj2 (Nat.ltb_ge _ _)) by lia. }
    eexists. split; [reflexivity|]. rewrite take_ge by (rewrite length_drop; lia). split; [|split].
    + unfold reassemble. rewrite bind_cons. simpl. apply app_nil_r.
    + constructor; [|constructor]. simpl. rewrite length_drop. lia.
    + exists [], {| Body := drop i b; EndOfStream := setEos |}. done.
Qed.

(** The chunks of a body. *)
Lemma BuildChunked_spec body setEos :
  exists rs, BuildChunkedBodyResponses body setEos = Some rs /\
    reassemble rs = body /\
    Forall (fun r => (length (Body r) <= BodyByteLimit)%nat) rs /\
    exists init last, rs = init ++ [last] /\ EndOfStream last = setEos /\
      Forall (fun r => EndOfStream r = false /\ length (Body r) = BodyByteLimit) init.
Proof.
  unfold BuildChunkedBodyResponses. destruct (Nat.eqb_spec (length body) 0) as [H0|H0].
  - apply nil_length_inv in H0 as ->. eexists. split; [reflexivity|]. split; [done|]. split.
    + constructor; [simpl; lia|constructor].
    + by exists [], {| Body := []; EndOfStream := setEos |}.
  - destruct (chunk_loop_spec BodyByteLimit (length body) body setEos 0 [])
      as (rs & -> & Hre & Hall & Hlast); [unfold BodyByteLimit; lia|lia..|].
    exists rs. split; [done|]. split; [done|]. split; [|done].
    eapply Forall_impl; [done|]. simpl. lia.
Qed.

(** Chunking returns for every body, and loses nothing: the chunks concatenate
    to the body, each has at most [BodyByteLimit] bytes, all but the last are
    full and do not end the stream, and the last ends it exactly when asked. *)
Theorem chunking_roundtrip body setEos :
  exists rs, BuildChunkedBodyResponses body setEos = Some rs /\
    reassemble rs = body /\
    Forall (fun r => (length (Body r) <= BodyByteLimit)%nat) rs /\
    exists init last, rs = init ++ [last] /\ EndOfStream last = setEos /\
      Forall (fun r => EndOfStream r = false /\ length (Body r) = BodyByteLimit) init.
Proof. apply BuildChunked_spec. Qed.
