(* ===== verification/BinaryHeap.v ===== *)
(** The standard library's container/heap, which the eviction queue uses
    (src/pkg/epp/flowcontrol/eviction/queue.go): the algorithms over the
    interface [heap.Interface], and what they guarantee of every implementation
    whose methods act on a sequence of elements as the interface demands.

    Indices are natural numbers.  In the source they are [int]; the product
    [2*i+1] does not overflow for a slice that fits in memory. *)

From S2P Require Import Prelude.

(** * The interface *)

(** The methods of [heap.Interface]; a method panics when an index is out of
    range. *)
Class HeapOps (H E : Type) := {
  heap_Len : H -> nat;
  heap_Less : H -> nat -> nat -> option bool;
  heap_Swap : H -> nat -> nat -> option H;
  heap_Push : H -> E -> H;
  heap_Pop : H -> option (E * H)
}.

(** What an implementation promises: it holds a sequence of elements, [Swap]
    exchanges two of them, [Push] appends, [Pop] takes the last; [heap_inv] is
    its own invariant. *)
Class HeapLaws (H E : Type) `{HeapOps H E} (less : E -> E -> bool) := {
  heap_view : H -> list E;
  heap_inv : H -> Prop;
  heap_pushable : H -> E -> Prop;
  law_Len : forall h, heap_Len h = length (heap_view h);
  law_Less : forall h i j x y, heap_inv h -> heap_view h !! i = Some x -> heap_view h !! j = Some y ->
    heap_Less h i j = Some (less x y);
  law_Swap : forall h i j, heap_inv h -> (i < length (heap_view h))%nat -> (j < length (heap_view h))%nat ->
    exists h', heap_Swap h i j = Some h' /\ heap_inv h' /\ heap_view h' = lswap i j (heap_view h);
  law_Push : forall h x, heap_inv h -> heap_pushable h x ->
    heap_inv (heap_Push h x) /\ heap_view (heap_Push h x) = heap_view h ++ [x];
  law_Pop : forall h l x, heap_inv h -> heap_view h = l ++ [x] ->
    exists h', heap_Pop h = Some (x, h') /\ heap_inv h' /\ heap_view h' = l
}.

(** * The algorithms *)

Section Algorithms.

Context {H E : Type} `{HeapOps H E}.

Definition parent (j : nat) : nat := Nat.div2 (j - 1).

(** The loop moves to the parent, which is smaller: [j] bounds the iterations. *)
Fixpoint heap_up (fuel : nat) (h : H) (j : nat) : option H :=
  let i := parent j in
  if Nat.eqb i j then Some h
  else
    b ← heap_Less h j i;
    if negb b then Some h
    else match fuel with
         | O => None
         | S fuel => h ← heap_Swap h i j; heap_up fuel h i
         end.

(** The loop moves to a child, which is larger: [n] bounds the iterations. *)
Fixpoint heap_down (fuel : nat) (h : H) (i n : nat) : option (H * nat) :=
  let j1 := (2 * i + 1)%nat in
  if Nat.leb n j1 then Some (h, i)
  else
    let j2 := (j1 + 1)%nat in
    b2 ← (if Nat.ltb j2 n then heap_Less h j2 j1 else Some false);
    let j := if b2 : bool then j2 else j1 in
    b ← heap_Less h j i;
    if negb b then Some (h, i)
    else match fuel with
         | O => None
         | S fuel => h ← heap_Swap h i j; heap_down fuel h j n
         end.

Definition Push (h : H) (x : E) : option H :=
  let h := heap_Push h x in
  heap_up (heap_Len h - 1) h (heap_Len h - 1).

(** [Pop] of an empty heap swaps with position -1, which panics. *)
Definition Pop (h : H) : option (E * H) :=
  match heap_Len h with
  | O => None
  | S n => h ← heap_Swap h 0 n;
           '(h, _) ← heap_down n h 0 n;
           heap_Pop h
  end.

Definition Remove (h : H) (i : nat) : option (E * H) :=
  match heap_Len h with
  | O => None
  | S n =>
      if Nat.eqb n i then heap_Pop h
      else
        h ← heap_Swap h i n;
        '(h, i') ← heap_down n h i n;
        h ← (if Nat.ltb i i' then Some h else heap_up i h i);
        heap_Pop h
  end.

Definition Fix (h : H) (i : nat) : option H :=
  '(h, i') ← heap_down (heap_Len h) h i (heap_Len h);
  if Nat.ltb i i' then Some h else heap_up i h i.

End Algorithms.

(** * Order on lists *)

Section Order.

Context {E : Type} (less : E -> E -> bool) `{!StrictWeak less}.
Implicit Types l : list E.
Local Open Scope nat_scope.

(** Position [k] does not come before its parent. *)
Definition in_order l (k : nat) : Prop :=
  forall x y, l !! parent k = Some x -> l !! k = Some y -> less y x = false.

(** The first [n] positions form a heap. *)
Definition heap_order (n : nat) l : Prop := forall k, 0 < k < n -> in_order l k.

(** No child of [i] comes before the parent of [i]. *)
Definition bridged (n : nat) l (i : nat) : Prop :=
  forall k x y, 0 < k < n -> parent k = i -> 0 < i ->
    l !! parent i = Some x -> l !! k = Some y -> less y x = false.

(** Only [i] may be out of order with its children or its parent. *)
Definition hole (n : nat) l (i : nat) : Prop :=
  (forall k, 0 < k < n -> k <> i -> parent k <> i -> in_order l k) /\ bridged n l i.

(** Only [j] may be out of order with its parent. *)
Definition rising (n : nat) l (j : nat) : Prop :=
  (forall k, 0 < k < n -> k <> j -> in_order l k) /\ bridged n l j.

Lemma parent_spec k : 0 < k -> k = 2 * parent k + 1 \/ k = 2 * parent k + 2.
Proof.
  intros Hk. unfold parent. destruct k as [|k]; [lia|]. simpl. rewrite Nat.sub_0_r.
  pose proof (Nat.div2_odd k) as Hd. destruct (Nat.odd k); simpl in Hd; lia.
Qed.

Lemma parent_lt k : 0 < k -> parent k < k.
Proof. intros Hk. pose proof (parent_spec k Hk). lia. Qed.

Lemma parent_child k i : 0 < k -> parent k = i <-> k = 2 * i + 1 \/ k = 2 * i + 2.
Proof. intros Hk. pose proof (parent_spec k Hk). lia. Qed.

(** Moving the smaller child up moves the hole down. *)
Lemma hole_step n l i j x c :
  hole n l i -> 0 < j < n -> parent j = i -> l !! i = Some x -> l !! j = Some c ->
  less c x = true ->
  (forall k y, 0 < k < n -> parent k = i -> l !! k = Some y -> less y c = false) ->
  hole n (lswap i j l) j /\ in_order (lswap i j l) j.
Proof.
  intros [Hok Hbr] Hj Hpj Hi Hc Hlt Hmin. pose proof (parent_lt j ltac:(lia)).
  assert (in_order (lswap i j l) j) as Hoj.
  { intros u v. rewrite Hpj, (lookup_lswap_l i j l x c), (lookup_lswap_r i j l x c) by done.
    intros [= <-] [= <-]. by apply sw_asym. }
  split; [|done]. split.
  - intros k Hk Hkj Hpk u v Hu Hv. pose proof (parent_lt k ltac:(lia)).
    apply (lookup_lswap_inv _ _ _ _ _ _ _ Hi Hc) in Hu, Hv.
    destruct Hu as [[Hpki ->]|[[? _]|(Hpki & _ & Hu)]]; [|done|].
    + destruct Hv as [[-> _]|[[-> _]|(_ & _ & Hv)]]; [lia|done|]. by eapply Hmin.
    + destruct Hv as [[-> ->]|[[-> _]|(Hki & _ & Hv)]]; [|done|].
      * eapply (Hbr j); [done|done|lia|done|done].
      * by eapply Hok.
  - intros k u v Hk Hpk _ Hu Hv. rewrite Hpj in Hu.
    rewrite (lookup_lswap_l i j l x c) in Hu by done. injection Hu as <-.
    pose proof (parent_lt k ltac:(lia)).
    rewrite lookup_lswap_ne in Hv by lia.
    apply (Hok k); [done|lia|lia| |done]. by rewrite Hpk.
Qed.

(** Moving an element above its parent moves the disorder up. *)
Lemma rising_step n l j x y :
  rising n l j -> 0 < j < n -> l !! parent j = Some x -> l !! j = Some y -> less y x = true ->
  rising n (lswap (parent j) j l) (parent j).
Proof.
  intros [Hok Hbr] Hj Hx Hy Hlt. pose proof (parent_lt j ltac:(lia)) as Hpj.
  set (i := parent j) in *.
  assert (forall k z, 0 < k < n -> parent k = i -> k <> j -> l !! k = Some z -> less z x = false) as Hsib.
  { intros k z Hk Hpk Hkj Hz. eapply (Hok k); [done|done|by rewrite Hpk|done]. }
  split.
  - intros k Hk Hki u v Hu Hv. pose proof (parent_lt k ltac:(lia)).
    destruct (decide (k = j)) as [->|Hkj].
    + fold i in Hu. rewrite (lookup_lswap_l i j l x y) in Hu by done.
      rewrite (lookup_lswap_r i j l x y) in Hv by done. simplify_eq. by apply sw_asym.
    + rewrite lookup_lswap_ne in Hv by done.
      apply (lookup_lswap_inv _ _ _ _ _ _ _ Hx Hy) in Hu.
      destruct Hu as [[Hpk ->]|[[Hpk ->]|(_ & _ & Hu)]].
      * eapply sw_incomp; [by eapply Hsib|]. by apply sw_asym.
      * eapply (Hbr k); [done|done|lia|done|done].
      * by eapply (Hok k).
  - intros k u v Hk Hpk Hi0 Hu Hv. pose proof (parent_lt i ltac:(lia)).
    rewrite lookup_lswap_ne in Hu by lia.
    assert (less x u = false) as Hxu by (eapply (Hok i); [lia|lia|done|done]).
    apply (lookup_lswap_inv _ _ _ _ _ _ _ Hx Hy) in Hv.
    destruct Hv as [[-> _]|[[-> ->]|(_ & Hkj & Hv)]]; [exfalso|done|].
    + pose proof (parent_lt i ltac:(lia)). lia.
    + eapply sw_incomp; [by eapply Hsib|done].
Qed.

(** The root of a heap comes first. *)
Lemma heap_order_root n l x k y :
  heap_order n l -> l !! 0 = Some x -> k < n -> l !! k = Some y -> less y x = false.
Proof.
  intros Hh Hx. revert y. induction k as [k IH] using lt_wf_ind. intros y Hk Hy.
  destruct (decide (k = 0)) as [->|Hk0]; [simplify_eq; apply sw_irrefl|].
  pose proof (parent_lt k ltac:(lia)) as Hp.
  destruct (lookup_lt_is_Some_2 l (parent k)) as [z Hz].
  { apply lookup_lt_Some in Hy. lia. }
  eapply sw_incomp; [by eapply (Hh k); [lia|..]|]. eapply (IH (parent k)); [done|lia|done].
Qed.

Lemma rising_done n l j :
  rising n l j -> (0 < j -> in_order l j) -> heap_order n l.
Proof.
  intros [Hok _] Hj k Hk. destruct (decide (k = j)) as [->|]; [apply Hj; lia|by apply Hok].
Qed.

End Order.

(** * The algorithms keep the order *)

Section Correct.

Context {H E : Type} `{HeapOps H E} (less : E -> E -> bool) `{!StrictWeak less}.
Context `{!HeapLaws H E less}.
Local Open Scope nat_scope.
Implicit Types h : H.

Notation view := (heap_view (less := less)).
Notation inv := (heap_inv (less := less)).

Lemma heap_up_ok fuel h n j :
  inv h -> rising less n (view h) j -> j < n -> n <= length (view h) -> j <= fuel ->
  exists h', heap_up fuel h j = Some h' /\ inv h' /\ view h' ≡ₚ view h /\
    heap_order less n (view h') /\ (forall k, n <= k -> view h' !! k = view h !! k).
Proof.
  revert h j. induction fuel as [|fuel IH]; intros h j Hinv Hr Hjn Hn Hf; cbn [heap_up].
  all: destruct (Nat.eqb_spec (parent j) j) as [Heq|Hne].
  1,3: exists h; split_and!; [done..| |done]; eapply rising_done; [done|];
       intros Hj; pose proof (parent_lt j Hj); lia.
  { destruct (decide (j = 0)) as [->|]; [done|lia]. }
  assert (0 < j) as Hj by (destruct j; [done|lia]). pose proof (parent_lt j Hj).
  destruct (lookup_lt_is_Some_2 (view h) j) as [y Hy]; [lia|].
  destruct (lookup_lt_is_Some_2 (view h) (parent j)) as [x Hx]; [lia|].
  rewrite (law_Less _ _ _ _ _ Hinv Hy Hx). simpl. destruct (less y x) eqn:Hlt; simpl.
  - destruct (law_Swap h (parent j) j) as (h1 & -> & Hinv1 & Hv1); [done|lia..|]. simpl.
    destruct (IH h1 (parent j)) as (h' & -> & Hinv' & Hp & Ho & Hs).
    + done.
    + rewrite Hv1. by eapply rising_step.
    + lia.
    + by rewrite Hv1, length_lswap.
    + lia.
    + exists h'. split; [done|]. split; [done|]. split; [by rewrite Hp, Hv1, lswap_Permutation|].
      split; [done|]. intros k Hk. rewrite Hs, Hv1 by done. apply lookup_lswap_ne; lia.
  - exists h. split_and!; [done..| |done]. eapply rising_done; [done|]. intros _ u v Hu Hv.
    by simplify_eq.
Qed.

(** The child the loop compares with: the smaller of the two. *)
Lemma smaller_child h i n :
  inv h -> 2 * i + 1 < n -> n <= length (view h) ->
  exists j c, (b2 ← (if Nat.ltb (2 * i + 1 + 1) n then heap_Less h (2 * i + 1 + 1) (2 * i + 1) else Some false);
               Some (if b2 : bool then 2 * i + 1 + 1 else 2 * i + 1)) = Some j /\
    0 < j < n /\ parent j = i /\ view h !! j = Some c /\
    (forall k y, 0 < k < n -> parent k = i -> view h !! k = Some y -> less y c = false).
Proof.
  intros Hinv Hi Hn. destruct (lookup_lt_is_Some_2 (view h) (2 * i + 1)) as [c1 Hc1]; [lia|].
  assert (forall c, less c1 c = false -> (2 * i + 2 < n -> exists c2, view h !! (2 * i + 2) = Some c2 /\ less c2 c = false) ->
     forall k y, 0 < k < n -> parent k = i -> view h !! k = Some y -> less y c = false) as Hmin.
  { intros c H1 H2 k y Hk Hpk Hy. apply parent_child in Hpk as [-> | ->]; [| |lia].
    - by simplify_eq.
    - destruct H2 as (c2 & Hc2 & ?); [lia|]. by simplify_eq. }
  destruct (Nat.ltb_spec (2 * i + 1 + 1) n) as [H2|H2].
  - destruct (lookup_lt_is_Some_2 (view h) (2 * i + 1 + 1)) as [c2 Hc2]; [lia|].
    rewrite (law_Less _ _ _ _ _ Hinv Hc2 Hc1). simpl. replace (2 * i + 2) with (2 * i + 1 + 1) in Hmin by lia.
    destruct (less c2 c1) eqn:Hlt.
    + exists (2 * i + 1 + 1), c2. split; [done|]. split; [lia|]. split; [apply parent_child; lia|].
      split; [done|]. apply Hmin; [by apply sw_asym|]. intros _. exists c2. split; [done|apply sw_irrefl].
    + exists (2 * i + 1), c1. split; [done|]. split; [lia|]. split; [apply parent_child; lia|].
      split; [done|]. apply Hmin; [apply sw_irrefl|]. intros _. by exists c2.
  - exists (2 * i + 1), c1. split; [done|]. split; [lia|]. split; [apply parent_child; lia|].
    split; [done|]. apply Hmin; [apply sw_irrefl|lia].
Qed.

Lemma heap_down_eq fuel h i n j c x :
  inv h -> 2 * i + 1 < n -> view h !! i = Some x -> view h !! j = Some c ->
  (b2 ← (if Nat.ltb (2 * i + 1 + 1) n then heap_Less h (2 * i + 1 + 1) (2 * i + 1) else Some false);
   Some (if b2 : bool then 2 * i + 1 + 1 else 2 * i + 1)) = Some j ->
  heap_down fuel h i n =
    if less c x then match fuel with O => None | S fuel => h ← heap_Swap h i j; heap_down fuel h j n end
    else Some (h, i).
Proof.
  intros Hinv Hi Hx Hc Hj.
  assert (forall k, heap_down k h i n = (b ← heap_Less h j i;
    if negb b then Some (h, i) else match k with O => None | S k => h ← heap_Swap h i j; heap_down k h j n end)) as ->.
  { intros k. destruct k; cbn [heap_down]; rewrite (proj2 (Nat.leb_gt _ _) Hi);
      (destruct (if Nat.ltb _ _ then _ else _) as [b2|]; [|done]); simpl in Hj |- *; by injection Hj as ->. }
  rewrite (law_Less _ _ _ _ _ Hinv Hc Hx). simpl. by destruct (less c x).
Qed.

Lemma heap_down_ok fuel h i n :
  inv h -> hole less n (view h) i -> i < n -> n <= length (view h) -> n <= fuel + i ->
  exists h' i', heap_down fuel h i n = Some (h', i') /\ inv h' /\ view h' ≡ₚ view h /\ i <= i' /\
    rising less n (view h') i' /\ (i' = i -> h' = h) /\ (i < i' -> in_order less (view h') i') /\
    (forall k, n <= k -> view h' !! k = view h !! k).
Proof.
  revert h i. induction fuel as [|fuel IH]; intros h i Hinv Hh Hi Hn Hf; [lia|].
  destruct (decide (2 * i + 1 < n)) as [Hc|Hc].
  2: { exists h, i. cbn [heap_down]. rewrite (proj2 (Nat.leb_le _ _)) by lia.
       split_and!; try done; [|lia]. destruct Hh as [Hok Hbr]. split; [|done].
       intros k Hk Hki. apply Hok; [done..|]. intros Hpk%parent_child; lia. }
  destruct (smaller_child h i n Hinv Hc Hn) as (j & c & Hj & Hjn & Hpj & Hcj & Hmin).
  destruct (lookup_lt_is_Some_2 (view h) i) as [x Hx]; [lia|].
  rewrite (heap_down_eq _ _ _ _ _ _ _ Hinv Hc Hx Hcj Hj). pose proof (parent_lt j ltac:(lia)).
  destruct (less c x) eqn:Hlt.
  - destruct (law_Swap h i j) as (h1 & -> & Hinv1 & Hv1); [done|lia..|]. simpl.
    destruct (hole_step less n (view h) i j x c) as [Hh1 Ho1]; [done..|].
    rewrite <- Hv1 in Hh1, Ho1.
    destruct (IH h1 j) as (h' & i' & -> & Hinv' & Hp & Hji & Hr & Hsame & Hord & Hrest);
      [done|done|lia|by rewrite Hv1, length_lswap|lia|].
    exists h', i'. split; [done|]. split; [done|]. split; [by rewrite Hp, Hv1, lswap_Permutation|].
    split; [lia|]. split; [done|]. split; [lia|]. split.
    + intros _. destruct (decide (i' = j)) as [->|]; [by rewrite (Hsame eq_refl)|apply Hord; lia].
    + intros k Hk. rewrite Hrest, Hv1 by done. apply lookup_lswap_ne; lia.
  - exists h, i. split_and!; try done; [|lia]. destruct Hh as [Hok Hbr]. split; [|done].
    intros k Hk Hki. destruct (decide (parent k = i)) as [Hpk|]; [|by apply Hok].
    intros u v Hu Hv. rewrite Hpk in Hu. simplify_eq.
    eapply sw_incomp; [by eapply Hmin|done].
Qed.

(** A whole heap: its invariant and its order. *)
Definition heap_ok h : Prop := inv h /\ heap_order less (length (view h)) (view h).

Lemma Push_ok h x :
  heap_ok h -> heap_pushable (less := less) h x ->
  exists h', Push h x = Some h' /\ heap_ok h' /\ view h' ≡ₚ x :: view h.
Proof.
  intros [Hinv Ho] Hx. destruct (law_Push h x Hinv Hx) as [Hinv' Hv]. unfold Push.
  rewrite law_Len, Hv, length_app. simpl. replace (length (view h) + 1 - 1) with (length (view h)) by lia.
  destruct (heap_up_ok (length (view h)) (heap_Push h x) (S (length (view h))) (length (view h)))
    as (h' & -> & Hi' & Hp & Ho' & _).
  - done.
  - rewrite Hv. split.
    + intros k Hk Hne u v Hu Hw. pose proof (parent_lt k ltac:(lia)).
      rewrite lookup_app_l in Hu, Hw by lia. eapply (Ho k); [lia|done..].
    + intros k u v Hk Hpk%parent_child; lia.
  - lia.
  - rewrite Hv, length_app. simpl. lia.
  - lia.
  - exists h'. split; [done|]. assert (view h' ≡ₚ x :: view h) as Hp'.
    { rewrite Hp, Hv. by rewrite Permutation_app_comm. }
    split; [split; [done|]|done].
    by rewrite (Permutation_length Hp').
Qed.

(** Taking the last position off. *)
Lemma heap_Pop_ok h n e :
  inv h -> length (view h) = S n -> view h !! n = Some e -> heap_order less n (view h) ->
  exists h', heap_Pop h = Some (e, h') /\ heap_ok h' /\ view h ≡ₚ e :: view h'.
Proof.
  intros Hinv Hlen He Ho.
  assert (view h = take n (view h) ++ [e]) as Hv.
  { rewrite <- (take_S_r _ _ _ He). symmetry. apply take_ge. lia. }
  destruct (law_Pop h _ _ Hinv Hv) as (h' & -> & Hinv' & Hv').
  exists h'. split; [done|]. split.
  - split; [done|]. rewrite Hv', length_take. intros k Hk u v Hu Hw.
    apply lookup_take_Some in Hu, Hw. eapply (Ho k); [lia|naive_solver..].
  - rewrite Hv at 1. rewrite Hv'. by rewrite Permutation_app_comm.
Qed.

Lemma Pop_ok h x l :
  heap_ok h -> view h = x :: l ->
  exists h', Pop h = Some (x, h') /\ heap_ok h' /\ view h' ≡ₚ l.
Proof.
  intros [Hinv Ho] Hv. unfold Pop. rewrite law_Len. rewrite Hv in *. cbn [length].
  assert (exists y, view h !! length l = Some y) as [y Hy].
  { apply lookup_lt_is_Some_2. rewrite Hv. simpl. lia. }
  assert (view h !! 0 = Some x) as Hroot by by rewrite Hv.
  assert (length (view h) = S (length l)) as Hlen by by rewrite Hv.
  destruct (law_Swap h 0 (length l)) as (h1 & -> & Hinv1 & Hv1); [done|lia..|]. simpl.
  assert (exists h2 i2, heap_down (length l) h1 0 (length l) = Some (h2, i2) /\ inv h2 /\
    view h2 ≡ₚ view h1 /\ heap_order less (length l) (view h2) /\
    view h2 !! length l = view h1 !! length l) as (h2 & i2 & -> & Hinv2 & Hp2 & Ho2 & Hs2).
  { destruct (decide (length l = 0)) as [Hl0|Hl0].
    - rewrite Hl0. exists h1, 0. split_and!; try done. intros k Hk. lia.
    - destruct (heap_down_ok (length l) h1 0 (length l)) as (h2 & i2 & -> & Hinv2 & Hp2 & _ & Hr & _ & Ho2 & Hs2).
      + done.
      + split; [|intros k u v Hk Hpk Hlt; lia].
        intros k Hk _ Hpk u v Hu Hw. pose proof (parent_lt k ltac:(lia)).
        rewrite Hv1, lookup_lswap_ne in Hu by lia. rewrite Hv1, lookup_lswap_ne in Hw by lia.
        rewrite Hv in *. eapply (Ho k); [simpl; lia|done..].
      + lia.
      + rewrite Hv1, length_lswap. lia.
      + lia.
      + exists h2, i2. split_and!; try done; [|by apply Hs2].
        eapply rising_done; [done|]. intros. by apply Ho2. }
  simpl. rewrite Hv1 in Hp2, Hs2. rewrite lswap_Permutation in Hp2.
  rewrite (lookup_lswap_r 0 _ _ x y) in Hs2 by done.
  destruct (heap_Pop_ok h2 (length l) x) as (h' & -> & Hok' & Hp'); [done|by rewrite Hp2|done..|].
  exists h'. split; [done|]. split; [done|].
  rewrite Hp2, Hv in Hp'. by apply (Permutation_cons_inv (a := x)).
Qed.

Lemma swapped_hole h1 h i n :
  heap_order less (S n) (view h) -> view h1 = lswap i n (view h) -> i < n -> n < length (view h) ->
  hole less n (view h1) i.
Proof.
  intros Ho Hv1 Hi Hn. rewrite Hv1. split.
  - intros k Hk Hki Hpk u v Hu Hw. pose proof (parent_lt k ltac:(lia)).
    rewrite lookup_lswap_ne in Hu by lia. rewrite lookup_lswap_ne in Hw by lia.
    eapply (Ho k); [lia|done..].
  - intros k u v Hk Hpk Hi0 Hu Hw. pose proof (parent_lt k ltac:(lia)). pose proof (parent_lt i ltac:(lia)).
    rewrite lookup_lswap_ne in Hu by lia. rewrite lookup_lswap_ne in Hw by lia.
    destruct (lookup_lt_is_Some_2 (view h) i) as [z Hz]; [lia|].
    eapply sw_incomp; [eapply (Ho k); [lia|by rewrite Hpk|done]|].
    eapply (Ho i); [lia|done..].
Qed.

(** What follows [heap_down]: an element that did not sink may rise. *)
Lemma sift_ok h1 h2 i i2 n :
  inv h2 -> view h2 ≡ₚ view h1 -> i <= i2 -> rising less n (view h2) i2 -> (i2 = i -> h2 = h1) ->
  (i < i2 -> in_order less (view h2) i2) -> (forall k, n <= k -> view h2 !! k = view h1 !! k) ->
  i < n -> n <= length (view h1) ->
  exists h3, (if Nat.ltb i i2 then Some h2 else heap_up i h2 i) = Some h3 /\ inv h3 /\
    view h3 ≡ₚ view h1 /\ heap_order less n (view h3) /\ (forall k, n <= k -> view h3 !! k = view h1 !! k).
Proof.
  intros Hinv2 Hp2 Hge Hr Hsame Ho2 Hs2 Hi Hn. destruct (Nat.ltb_spec i i2) as [Hlt|Hlt].
  - exists h2. split_and!; try done. eapply rising_done; [done|]. intros _. by apply Ho2.
  - assert (i2 = i) as -> by lia. rewrite (Hsame eq_refl) in *.
    destruct (heap_up_ok i h1 n i) as (h3 & -> & ? & ? & ? & Hs3); [done|done|lia..|]. by exists h3.
Qed.

(** [Fix] after the element at [i] changed. *)
Lemma Fix_ok h i :
  inv h -> i < length (view h) -> hole less (length (view h)) (view h) i ->
  exists h', Fix h i = Some h' /\ heap_ok h' /\ view h' ≡ₚ view h.
Proof.
  intros Hinv Hi Hh. unfold Fix. rewrite law_Len.
  destruct (heap_down_ok (length (view h)) h i (length (view h))) as (h2 & i2 & -> & Hinv2 & Hp2 & Hge & Hr & Hsame & Ho2 & Hs2);
    [done|done|lia..|]. cbn [mbind option_bind].
  destruct (sift_ok h h2 i i2 (length (view h))) as (h3 & -> & Hinv3 & Hp3 & Ho3 & _); try done.
  exists h3. split; [done|]. split; [|done]. split; [done|]. by rewrite (Permutation_length Hp3).
Qed.

Lemma Remove_ok h i x :
  heap_ok h -> view h !! i = Some x ->
  exists h', Remove h i = Some (x, h') /\ heap_ok h' /\ view h ≡ₚ x :: view h'.
Proof.
  intros [Hinv Ho] Hx. pose proof (lookup_lt_Some _ _ _ Hx) as Hi. unfold Remove. rewrite law_Len.
  destruct (length (view h)) as [|n] eqn:Hlen; [lia|].
  destruct (Nat.eqb_spec n i) as [->|Hne].
  { apply (heap_Pop_ok h i x); [done..|]. intros k Hk. apply Ho. lia. }
  destruct (lookup_lt_is_Some_2 (view h) n) as [y Hy]; [lia|].
  destruct (law_Swap h i n) as (h1 & -> & Hinv1 & Hv1); [done|lia..|]. simpl.
  assert (length (view h1) = S n) as Hlen1 by by rewrite Hv1, length_lswap.
  destruct (heap_down_ok n h1 i n) as (h2 & i2 & -> & Hinv2 & Hp2 & Hge & Hr & Hsame & Ho2 & Hs2).
  { done. } { by apply (swapped_hole h1 h); [..|lia|lia]. } { lia. } { lia. } { lia. }
  simpl.
  assert (exists h3, (if Nat.ltb i i2 then Some h2 else heap_up i h2 i) = Some h3 /\ inv h3 /\
    view h3 ≡ₚ view h1 /\ heap_order less n (view h3) /\ view h3 !! n = view h1 !! n)
    as (h3 & -> & Hinv3 & Hp3 & Ho3 & Hs3).
  { destruct (sift_ok h1 h2 i i2 n) as (h3 & -> & ? & ? & ? & Hs3); try done; [lia|lia|].
    exists h3. split_and!; try done. by apply Hs3. }
  simpl. rewrite Hv1, (lookup_lswap_r i n _ x y) in Hs3 by done.
  destruct (heap_Pop_ok h3 n x) as (h' & -> & Hok' & Hp'); [done|by rewrite Hp3|done..|].
  exists h'. split; [done|]. split; [done|]. by rewrite <- Hp', Hp3, Hv1, lswap_Permutation.
Qed.

End Correct.
