(* ===== verification/EvictionQueue.v ===== *)
(** Eviction of in-flight requests (src/pkg/epp/flowcontrol/eviction): the
    queue that tracks the requests dispatched to model servers and keeps the
    evictable ones in a heap ([queue.go]), the plugin that feeds it and evicts
    from it ([plugin.go], [aborter.go]), and the built-in ordering and filter
    policies (src/pkg/epp/framework/plugins/flowcontrol/eviction).

    A [heapEntry] is shared by the heap and the handle map: it is a pointer
    with an immutable item, and its mutable [index] field lives in a store. *)

From S2P Require Import Prelude BinaryHeap.
From Stdlib Require Import Ascii.

(** * Data *)

Record EndpointMetadata := { Address : string; Port : string; PodName : string }.

Record LLMRequest := { Headers : gmap string string; ObjectivePriority : Z }.

Record EvictionItem := {
  RequestID : string;
  Priority : Z;
  DispatchTime : Z;
  TargetURL : string;
  Request : LLMRequest;
  TargetEndpoint : EndpointMetadata
}.

Record heapEntry := { he_id : nat; he_item : EvictionItem }.

Record evictionHeap := { entries : list heapEntry; index : gmap nat Z }.

Record EvictionQueue := {
  q_h : evictionHeap;
  handles : gmap string heapEntry;
  allInFlight : gmap string EvictionItem;
  q_next : nat  (** the next pointer to allocate *)
}.

(** * The heap's methods *)

Section Queue.

(** The policies the queue was created with. *)
Variable less : EvictionItem -> EvictionItem -> bool.
Variable accept : EvictionItem -> bool.

Definition entry_less (a b : heapEntry) : bool := less (he_item a) (he_item b).

Definition eh_Len (h : evictionHeap) : nat := length (entries h).

Definition eh_Less (h : evictionHeap) (i j : nat) : option bool :=
  a ← entries h !! i; b ← entries h !! j; Some (entry_less a b).

Definition eh_Swap (h : evictionHeap) (i j : nat) : option evictionHeap :=
  a ← entries h !! i; b ← entries h !! j;
  Some {| entries := lswap i j (entries h);
          index := <[he_id a := Z.of_nat j]> (<[he_id b := Z.of_nat i]> (index h)) |}.

Definition eh_Push (h : evictionHeap) (e : heapEntry) : evictionHeap :=
  {| entries := entries h ++ [e];
     index := <[he_id e := Z.of_nat (length (entries h))]> (index h) |}.

Definition eh_Pop (h : evictionHeap) : option (heapEntry * evictionHeap) :=
  match length (entries h) with
  | O => None
  | S n => e ← entries h !! n;
           Some (e, {| entries := take n (entries h); index := <[he_id e := -1]> (index h) |})
  end.

#[local] Instance evictionHeap_ops : HeapOps evictionHeap heapEntry := {
  heap_Len := eh_Len; heap_Less := eh_Less; heap_Swap := eh_Swap;
  heap_Push := eh_Push; heap_Pop := eh_Pop
}.

(** * The queue's operations *)

Definition NewEvictionQueue : EvictionQueue :=
  {| q_h := {| entries := []; index := ∅ |}; handles := ∅; allInFlight := ∅; q_next := 0 |}.

(** [heap.Remove(&q.h, e.index)]: a negative index panics. *)
Definition remove_entry (h : evictionHeap) (e : heapEntry) : option evictionHeap :=
  i ← index h !! he_id e;
  if Z.ltb i 0 then None else snd <$> Remove h (Z.to_nat i).

(** The part [Track] and [Untrack] share: take the request out of the heap. *)
Definition drop_handle (q : EvictionQueue) (requestID : string) : option EvictionQueue :=
  match handles q !! requestID with
  | None => Some q
  | Some e =>
      h ← remove_entry (q_h q) e;
      Some {| q_h := h; handles := delete requestID (handles q);
              allInFlight := allInFlight q; q_next := q_next q |}
  end.

Definition Track (q : EvictionQueue) (item : EvictionItem) : option EvictionQueue :=
  q ← drop_handle q (RequestID item);
  let inFlight := <[RequestID item := item]> (allInFlight q) in
  if accept item then
    let e := {| he_id := q_next q; he_item := item |} in
    h ← Push (q_h q) e;
    Some {| q_h := h; handles := <[RequestID item := e]> (handles q);
            allInFlight := inFlight; q_next := S (q_next q) |}
  else Some {| q_h := q_h q; handles := handles q; allInFlight := inFlight; q_next := q_next q |}.

Definition Untrack (q : EvictionQueue) (requestID : string) : option EvictionQueue :=
  q ← drop_handle q requestID;
  Some {| q_h := q_h q; handles := handles q;
          allInFlight := delete requestID (allInFlight q); q_next := q_next q |}.

Fixpoint pop_loop (n : nat) (q : EvictionQueue) (result : list EvictionItem)
    : option (list EvictionItem * EvictionQueue) :=
  match n with
  | O => Some (result, q)
  | S n =>
      if Nat.eqb (eh_Len (q_h q)) 0 then Some (result, q)
      else
        '(e, h) ← Pop (q_h q);
        pop_loop n {| q_h := h; handles := delete (RequestID (he_item e)) (handles q);
                      allInFlight := delete (RequestID (he_item e)) (allInFlight q);
                      q_next := q_next q |}
          (result ++ [he_item e])
  end.

(** [make([]T, 0, n)] panics when [n] is negative. *)
Definition PopN (q : EvictionQueue) (n : Z) : option (list EvictionItem * EvictionQueue) :=
  if Z.ltb n 0 then None else pop_loop (Z.to_nat n) q [].

Definition Peek (q : EvictionQueue) : option EvictionItem :=
  if Nat.eqb (eh_Len (q_h q)) 0 then None else he_item <$> head (entries (q_h q)).

Definition EvictableLen (q : EvictionQueue) : nat := eh_Len (q_h q).
Definition InFlightLen (q : EvictionQueue) : nat := size (allInFlight q).

(** * The plugin *)

(** The aborter: its own state, and the error it returns. *)
Context {A X : Type}.
Variable Abort : A -> EvictionItem -> A * option X.

(** [EvictN] without another operation in between. *)
Fixpoint evict_loop (n : nat) (a : A) (q : EvictionQueue) (aborted : list string)
    : option (list string * A * EvictionQueue) :=
  match n with
  | O => Some (aborted, a, q)
  | S n =>
      '(items, q) ← PopN q 1;
      match items with
      | [] => Some (aborted, a, q)
      | item :: _ =>
          match Abort a item with
          | (a, Some _) => q ← Track q item; evict_loop n a q aborted
          | (a, None) => evict_loop n a q (aborted ++ [RequestID item])
          end
      end
  end.

Definition EvictN (a : A) (q : EvictionQueue) (n : Z) : option (list string * A * EvictionQueue) :=
  if Z.ltb n 0 then None else evict_loop (Z.to_nat n) a q [].

End Queue.

Definition NoOpAborter (_ : unit) (_ : EvictionItem) : unit * option Empty_set := (tt, None).

(** * The plugin's hooks *)

Definition RequestIdHeaderKey : string := "x-request-id".

(** [strings.IndexByte(host, ':') >= 0] *)
Fixpoint contains_colon (s : string) : bool :=
  match s with
  | EmptyString => false
  | String c s => Ascii.eqb c ":"%char || contains_colon s
  end.

Definition JoinHostPort (host port : string) : string :=
  if contains_colon host then "[" +:+ host +:+ "]:" +:+ port else host +:+ ":" +:+ port.

Record SchedulingResult := {
  ProfileResults : gmap string (option (list EndpointMetadata));  (** nil, or the target endpoints *)
  PrimaryProfileName : string
}.

(** A missing key reads as the empty string or the nil pointer. *)
Definition header (r : LLMRequest) (k : string) : string := default EmptyString (Headers r !! k).

(** The item [PreRequest] tracks, when it tracks one. *)
Definition preRequest_item (now : Z) (request : option LLMRequest) (result : option SchedulingResult)
    : option EvictionItem :=
  request ← request; result ← result;
  if Nat.eqb (size (ProfileResults result)) 0 then None
  else
    match mjoin (ProfileResults result !! PrimaryProfileName result) with
    | None | Some [] => None
    | Some (metadata :: _) =>
        let requestID := header request RequestIdHeaderKey in
        if String.eqb requestID EmptyString then None
        else Some {| RequestID := requestID; Priority := ObjectivePriority request;
                     DispatchTime := now;
                     TargetURL := "http://" +:+ JoinHostPort (Address metadata) (Port metadata);
                     Request := request; TargetEndpoint := metadata |}
    end.

Definition PreRequest less accept (now : Z) (q : EvictionQueue) (request : option LLMRequest)
    (result : option SchedulingResult) : option EvictionQueue :=
  match preRequest_item now request result with
  | None => Some q
  | Some item => Track less accept q item
  end.

Definition ResponseBody less (q : EvictionQueue) (endOfStream : bool) (request : option LLMRequest)
    : option EvictionQueue :=
  if negb endOfStream then Some q
  else match request with
       | None => Some q
       | Some request =>
           let requestID := header request RequestIdHeaderKey in
           if String.eqb requestID EmptyString then Some q else Untrack less q requestID
       end.

(** * Built-in policies *)

Definition PriorityThenTimeOrdering_Less (a b : EvictionItem) : bool :=
  if negb (Z.eqb (Priority a) (Priority b)) then Z.ltb (Priority a) (Priority b)
  else Z.gtb (DispatchTime a) (DispatchTime b).

Definition SheddableFilter_Accept (item : EvictionItem) : bool := Z.ltb (Priority item) 0.
