(* ===== verification/EvictionProps.v ===== *)
(** What the eviction queue guarantees: it refines a map of the in-flight
    requests from which the most evictable ones are taken first, under every
    sequence of operations; and what the plugin's eviction loop does when an
    abort fails. *)

From S2P Require Import Prelude BinaryHeap EvictionQueue.

#[global] Instance PriorityThenTime_StrictWeak : StrictWeak PriorityThenTimeOrdering_Less.
Proof.
  split; unfold PriorityThenTimeOrdering_Less; intros; repeat case_match; simpl in *;
    rewrite ?negb_true_iff, ?negb_false_iff, ?Z.eqb_eq, ?Z.eqb_neq in *;
    rewrite ?Z.gtb_ltb, ?Z.ltb_lt, ?Z.ltb_ge in *; try lia; congruence.
Qed.

(** * The abstract queue: a map of requests in flight *)

Section Spec.

Variable less : EvictionItem -> EvictionItem -> bool.
Variable accept : EvictionItem -> bool.
Implicit Types M : gmap string EvictionItem.

(** [it] may be evicted next: it is evictable, and no evictable request comes
    before it. *)
Definition next_victim M (it : EvictionItem) : Prop :=
  M !! RequestID it = Some it /\ accept it = true /\
  forall r it', M !! r = Some it' -> accept it' = true -> less it' it = false.

Definition none_evictable M : Prop := forall r it, M !! r = Some it -> accept it = false.

(** Taking up to [n] victims, one after the other. *)
Inductive pops : nat -> gmap string EvictionItem -> list EvictionItem -> gmap string EvictionItem -> Prop :=
  | pops_stop M : pops 0 M [] M
  | pops_empty n M : none_evictable M -> pops n M [] M
  | pops_next n M it its M' :
      next_victim M it -> pops n (delete (RequestID it) M) its M' -> pops (S n) M (it :: its) M'.

Inductive op :=
  | OpTrack (item : EvictionItem)
  | OpUntrack (requestID : string)
  | OpPopN (n : nat)
  | OpPeek.

(** What each operation does to the map, and the items it returns. *)
Inductive spec_step : op -> gmap string EvictionItem -> list EvictionItem -> gmap string EvictionItem -> Prop :=
  | spec_track item M : spec_step (OpTrack item) M [] (<[RequestID item := item]> M)
  | spec_untrack r M : spec_step (OpUntrack r) M [] (delete r M)
  | spec_pop n M items M' : pops n M items M' -> spec_step (OpPopN n) M items M'
  | spec_peek_none M : none_evictable M -> spec_step OpPeek M [] M
  | spec_peek M it : next_victim M it -> spec_step OpPeek M [it] M.

Inductive spec_run : list op -> gmap string EvictionItem -> list (list EvictionItem) -> gmap string EvictionItem -> Prop :=
  | spec_nil M : spec_run [] M [] M
  | spec_cons o ops M r M1 rs M2 :
      spec_step o M r M1 -> spec_run ops M1 rs M2 -> spec_run (o :: ops) M (r :: rs) M2.

(** The operations of the code. *)
Definition exec_op (o : op) (q : EvictionQueue) : option (list EvictionItem * EvictionQueue) :=
  match o with
  | OpTrack item => q ← Track less accept q item; Some ([], q)
  | OpUntrack r => q ← Untrack less q r; Some ([], q)
  | OpPopN n => PopN less q (Z.of_nat n)
  | OpPeek => Some (match Peek q with Some it => [it] | None => [] end, q)
  end.

Fixpoint exec_ops (ops : list op) (q : EvictionQueue) : option (list (list EvictionItem) * EvictionQueue) :=
  match ops with
  | [] => Some ([], q)
  | o :: ops => '(r, q) ← exec_op o q; '(rs, q) ← exec_ops ops q; Some (r :: rs, q)
  end.

(** * The refinement relation *)

Context `{!StrictWeak less}.

#[local] Instance queue_heap_ops : HeapOps evictionHeap heapEntry := evictionHeap_ops less.

#[local] Instance entry_less_StrictWeak : StrictWeak (entry_less less).
Proof. apply (key_StrictWeak he_item less). done. Qed.

Definition indexed (h : evictionHeap) : Prop :=
  forall i e, entries h !! i = Some e -> index h !! he_id e = Some (Z.of_nat i).

Lemma indexed_inj h i j a b :
  indexed h -> entries h !! i = Some a -> entries h !! j = Some b -> he_id a = he_id b -> i = j.
Proof.
  intros Hi Ha%Hi Hb%Hi Heq. rewrite Heq, Hb in Ha. injection Ha as Ha. lia.
Qed.

Lemma eh_Swap_law h i j :
  indexed h -> (i < length (entries h))%nat -> (j < length (entries h))%nat ->
  exists h', eh_Swap h i j = Some h' /\ indexed h' /\ entries h' = lswap i j (entries h).
Proof.
  intros Hin [a Ha]%lookup_lt_is_Some_2 [b Hb]%lookup_lt_is_Some_2. unfold eh_Swap.
  rewrite Ha, Hb. simpl. eexists. split; [done|]. split; [|done].
  intros k e Hk. simpl in *.
  apply (lookup_lswap_inv _ _ _ _ _ _ _ Ha Hb) in Hk as [[-> ->]|[[-> ->]|(Hki & Hkj & Hk)]].
  - destruct (decide (he_id a = he_id b)) as [Heq|Hne].
    + pose proof (indexed_inj _ _ _ _ _ Hin Ha Hb Heq) as ->. rewrite Heq. by rewrite lookup_insert_eq.
    + rewrite lookup_insert_ne by done. by rewrite lookup_insert_eq.
  - by rewrite lookup_insert_eq.
  - rewrite lookup_insert_ne by (intros Heq; by apply Hki, (indexed_inj h k i e a)).
    rewrite lookup_insert_ne by (intros Heq; by apply Hkj, (indexed_inj h k j e b)).
    by apply Hin.
Qed.

#[local, refine] Instance evictionHeap_laws : HeapLaws evictionHeap heapEntry (entry_less less) := {
  heap_view := entries; heap_inv := indexed;
  heap_pushable := fun h e => forall e', e' ∈ entries h -> he_id e' <> he_id e
}.
Proof.
  - done.
  - intros h i j x y _ Hx Hy. simpl. unfold eh_Less. by rewrite Hx, Hy.
  - apply eh_Swap_law.
  - intros h x Hin Hfresh. split; [|done]. intros i e Hi. simpl in *.
    apply lookup_app_Some in Hi as [Hi|[Hlen Hi]].
    + rewrite lookup_insert_ne; [by apply Hin|]. intros Heq.
      apply (Hfresh e); [by eapply list_elem_of_lookup_2|done].
    + apply list_lookup_singleton_Some in Hi as [Hi <-]. rewrite lookup_insert_eq. f_equal. lia.
  - intros h l x Hin Hv. simpl in *. unfold eh_Pop. rewrite Hv, length_app, Nat.add_comm. simpl.
    rewrite list_lookup_middle by done. simpl. eexists. split; [done|]. simpl.
    rewrite take_app_length. split; [|done]. intros i e Hi. simpl in *.
    assert (entries h !! i = Some e) as Hi' by (rewrite Hv; by apply lookup_app_l_Some).
    rewrite lookup_insert_ne; [by apply Hin|]. intros Heq.
    assert (entries h !! length l = Some x) as Hx by (rewrite Hv; by apply list_lookup_middle).
    pose proof (indexed_inj _ _ _ _ _ Hin Hx Hi' Heq). apply lookup_lt_Some in Hi. lia.
Defined.

(** The queue [q] implements the map [M]: the heap holds an entry for each
    accepted request of [M] and no other, in heap order and with its index up
    to date, and the handles name exactly these entries. *)
Record q_rel (q : EvictionQueue) (M : gmap string EvictionItem) : Prop := {
  rel_heap : heap_ok (entry_less less) (q_h q);
  rel_handles : forall r e, handles q !! r = Some e <-> e ∈ entries (q_h q) /\ RequestID (he_item e) = r;
  rel_entry : forall e, e ∈ entries (q_h q) ->
    M !! RequestID (he_item e) = Some (he_item e) /\ accept (he_item e) = true;
  rel_map : forall r it, M !! r = Some it -> RequestID it = r /\ (accept it = true -> is_Some (handles q !! r));
  rel_next : forall e, e ∈ entries (q_h q) -> (he_id e < q_next q)%nat
}.

Lemma rel_nodup q M : q_rel q M -> NoDup (entries (q_h q)).
Proof.
  intros [[Hin _] _ _ _ _]. apply NoDup_alt. intros i j e Hi Hj.
  by apply (indexed_inj (q_h q) i j e e).
Qed.

(** Two entries of one request are the same entry. *)
Lemma rel_unique q M e e' :
  q_rel q M -> e ∈ entries (q_h q) -> e' ∈ entries (q_h q) ->
  RequestID (he_item e) = RequestID (he_item e') -> e = e'.
Proof.
  intros HR He He' Heq.
  assert (handles q !! RequestID (he_item e) = Some e) as H1 by (by apply (rel_handles _ _ HR)).
  assert (handles q !! RequestID (he_item e) = Some e') as H2 by (by apply (rel_handles _ _ HR)).
  congruence.
Qed.

Lemma rel_new : q_rel NewEvictionQueue ∅.
Proof.
  split; simpl.
  - split; [by intros i e ?|]. intros k Hk. simpl in Hk. lia.
  - intros r e. rewrite lookup_empty, elem_of_nil. naive_solver.
  - by intros e ?%not_elem_of_nil.
  - by intros r it ?.
  - by intros e ?%not_elem_of_nil.
Qed.

(** Taking one entry out of the heap. *)
Lemma rel_remove q M e h' :
  q_rel q M -> heap_ok (entry_less less) h' -> entries (q_h q) ≡ₚ e :: entries h' ->
  q_rel {| q_h := h'; handles := delete (RequestID (he_item e)) (handles q);
           allInFlight := allInFlight q; q_next := q_next q |} (delete (RequestID (he_item e)) M).
Proof.
  intros HR Hh' Hp.
  assert (forall e', e' ∈ entries h' -> e' ∈ entries (q_h q)) as Hsub by (intros e' ?; rewrite Hp; by right).
  assert (e ∈ entries (q_h q)) as He by (rewrite Hp; left).
  assert (e ∉ entries h') as Hne.
  { pose proof (rel_nodup _ _ HR) as Hnd. rewrite Hp in Hnd. by apply NoDup_cons in Hnd as [? _]. }
  assert (forall e', e' ∈ entries h' -> RequestID (he_item e') <> RequestID (he_item e)) as Hid.
  { intros e' He' Heq. apply Hne. by rewrite <- (rel_unique _ _ e' e HR (Hsub _ He') He Heq). }
  split; simpl.
  - done.
  - intros r e'. rewrite lookup_delete_Some, (rel_handles _ _ HR), Hp, elem_of_cons. split.
    + intros (Hr & [-> | He'] & <-); [done|by split].
    + intros [He' <-]. split; [by apply not_eq_sym, Hid|]. by split; [right|].
  - intros e' He'. rewrite lookup_delete_ne by (by apply not_eq_sym, Hid). apply (rel_entry _ _ HR). auto.
  - intros r it [Hr Hit]%lookup_delete_Some. destruct (rel_map _ _ HR _ _ Hit) as [<- Hacc].
    split; [done|]. by rewrite lookup_delete_ne.
  - intros e' He'. apply (rel_next _ _ HR). auto.
Qed.

Lemma remove_entry_ok h e :
  heap_ok (entry_less less) h -> e ∈ entries h ->
  exists h', remove_entry less h e = Some h' /\ heap_ok (entry_less less) h' /\ entries h ≡ₚ e :: entries h'.
Proof.
  intros Hh [i Hi]%list_elem_of_lookup. unfold remove_entry.
  destruct (Hh) as [Hin _]. rewrite (Hin i e Hi). simpl.
  rewrite (proj2 (Z.ltb_ge _ _)), Nat2Z.id by lia.
  destruct (Remove_ok (entry_less less) h i e Hh Hi) as (h' & Hrm & Hok & Hp).
  exists h'. split; [|done]. unfold queue_heap_ops in Hrm. by rewrite Hrm.
Qed.

Lemma drop_handle_ok q M r :
  q_rel q M -> exists q', drop_handle less q r = Some q' /\ q_rel q' (delete r M) /\
    allInFlight q' = allInFlight q.
Proof.
  intros HR. unfold drop_handle. destruct (handles q !! r) as [e|] eqn:He.
  - apply (rel_handles _ _ HR) in He as [He <-].
    destruct (remove_entry_ok _ _ (rel_heap _ _ HR) He) as (h' & -> & Hok & Hp). simpl.
    eexists. split; [done|]. split; [|done]. by apply rel_remove.
  - exists q. split; [done|]. split; [|done].
    assert (forall e, e ∈ entries (q_h q) -> RequestID (he_item e) <> r) as Hno.
    { intros e Hin Heq. rewrite (proj2 (rel_handles _ _ HR r e)) in He by done. done. }
    destruct HR as [Hh Hha Hen Hma Hnx]. split; [done|done| | |done].
    + intros e Hin. rewrite lookup_delete_ne by (by apply not_eq_sym, Hno). by apply Hen.
    + intros r' it [_ Hit]%lookup_delete_Some. by apply Hma.
Qed.

(** The relation does not read the in-flight map of the code. *)
Lemma rel_inflight q M m :
  q_rel q M -> q_rel {| q_h := q_h q; handles := handles q; allInFlight := m; q_next := q_next q |} M.
Proof. intros []. by split. Qed.

Lemma Untrack_ok q M r :
  q_rel q M -> allInFlight q = M ->
  exists q', Untrack less q r = Some q' /\ q_rel q' (delete r M) /\ allInFlight q' = delete r M.
Proof.
  intros HR <-. unfold Untrack. destruct (drop_handle_ok q _ r HR) as (q' & -> & HR' & Ha). simpl.
  eexists. split; [done|]. simpl. rewrite Ha. split; [|done]. by apply rel_inflight.
Qed.

(** Putting a new entry into the heap. *)
Lemma rel_push q M item h' m :
  let e := {| he_id := q_next q; he_item := item |} in
  q_rel q M -> accept item = true ->
  (forall e', e' ∈ entries (q_h q) -> RequestID (he_item e') <> RequestID item) ->
  heap_ok (entry_less less) h' -> entries h' ≡ₚ e :: entries (q_h q) ->
  q_rel {| q_h := h'; handles := <[RequestID item := e]> (handles q);
           allInFlight := m; q_next := S (q_next q) |} (<[RequestID item := item]> M).
Proof.
  intros e HR Hacc Hno Hok Hp. set (r := RequestID item) in *.
  assert (forall e', e' ∈ entries h' <-> e' = e \/ e' ∈ entries (q_h q)) as Hel
    by (intros e'; by rewrite Hp, elem_of_cons).
  split; simpl.
  - done.
  - intros r' e'. rewrite Hel. destruct (decide (r' = r)) as [->|Hr].
    + rewrite lookup_insert_eq. split; [intros [= <-]; auto|].
      intros [[-> | He] Heq]; [done|]. by destruct (Hno e' He).
    + rewrite lookup_insert_ne, (rel_handles _ _ HR) by done.
      split; [by intros [? ?]; auto|]. by intros [[-> | ?] ?].
  - intros e' [-> | He]%Hel; simpl; [by rewrite lookup_insert_eq|].
    rewrite lookup_insert_ne by (by apply not_eq_sym, Hno). by apply (rel_entry _ _ HR).
  - intros r' it. destruct (decide (r' = r)) as [->|Hr].
    + rewrite !lookup_insert_eq. intros [= <-]. by eauto.
    + rewrite !lookup_insert_ne by done. apply (rel_map _ _ HR).
  - intros e' [-> | He]%Hel; simpl; [lia|]. pose proof (rel_next _ _ HR e' He). lia.
Qed.

Lemma Track_ok q M item :
  q_rel q M -> allInFlight q = M ->
  exists q', Track less accept q item = Some q' /\ q_rel q' (<[RequestID item := item]> M) /\
    allInFlight q' = <[RequestID item := item]> M.
Proof.
  intros HR <-. unfold Track. destruct (drop_handle_ok q _ (RequestID item) HR) as (q' & -> & HR' & Ha).
  cbn [mbind option_bind]. rewrite Ha. set (M := allInFlight q) in *.
  assert (forall e, e ∈ entries (q_h q') -> RequestID (he_item e) <> RequestID item) as Hno.
  { intros e He Heq. destruct (rel_entry _ _ HR' e He) as [Hl _]. by rewrite Heq, lookup_delete_eq in Hl. }
  rewrite <- (insert_delete_eq M (RequestID item) item). destruct (accept item) eqn:Hacc.
  - destruct (Push_ok (entry_less less) (q_h q') {| he_id := q_next q'; he_item := item |})
      as (h' & Hpush & Hok & Hp); [apply HR'| |].
    { simpl. intros e He. pose proof (rel_next _ _ HR' e He). lia. }
    unfold queue_heap_ops in Hpush. rewrite Hpush. eexists. split; [done|].
    split; [|done]. by apply rel_push.
  - eexists. split; [done|]. split; [|done]. apply (rel_inflight q').
    destruct HR' as [Hh Hha Hen Hma Hnx]. split; [done|done| | |done].
    + intros e He. rewrite lookup_insert_ne by (by apply not_eq_sym, Hno). by apply Hen.
    + intros r' it. destruct (decide (r' = RequestID item)) as [->|Hr].
      * rewrite lookup_insert_eq. intros [= <-]. split; [done|]. by rewrite Hacc.
      * rewrite lookup_insert_ne by done. apply Hma.
Qed.

(** * Taking victims *)

Lemma rel_root q M e l :
  q_rel q M -> entries (q_h q) = e :: l -> next_victim M (he_item e).
Proof.
  intros HR Hl. assert (e ∈ entries (q_h q)) as He by (rewrite Hl; left).
  destruct (rel_entry _ _ HR e He) as [HM Hacc]. split; [done|]. split; [done|].
  intros r it Hit Hacc'. destruct (rel_map _ _ HR r it Hit) as [<- Hh].
  destruct (Hh Hacc') as [e' He']. apply (rel_handles _ _ HR) in He' as [He' Hid].
  destruct (rel_entry _ _ HR e' He') as [HM' _]. rewrite Hid, Hit in HM'. injection HM' as ->.
  apply list_elem_of_lookup in He' as [k Hk]. destruct (rel_heap _ _ HR) as [_ Ho].
  apply (heap_order_root (entry_less less) _ _ _ k e' Ho); simpl; [by rewrite Hl| |done].
  by eapply lookup_lt_Some.
Qed.

Lemma rel_empty q M : q_rel q M -> entries (q_h q) = [] -> none_evictable M.
Proof.
  intros HR Hl r it Hit. destruct (accept it) eqn:Hacc; [|done]. exfalso.
  destruct (rel_map _ _ HR r it Hit) as [_ Hh]. destruct (Hh Hacc) as [e He].
  apply (rel_handles _ _ HR) in He as [He _]. rewrite Hl in He. by apply not_elem_of_nil in He.
Qed.

Lemma pop_loop_ok n q M res :
  q_rel q M -> allInFlight q = M ->
  exists items q' M', pop_loop less n q res = Some (res ++ items, q') /\ pops n M items M' /\
    q_rel q' M' /\ allInFlight q' = M'.
Proof.
  revert q M res. induction n as [|n IH]; intros q M res HR Ha; simpl.
  - exists [], q, M. rewrite app_nil_r. split_and!; [done|constructor|done..].
  - unfold eh_Len. destruct (entries (q_h q)) as [|e l] eqn:Hl; simpl.
    + exists [], q, M. rewrite app_nil_r. split_and!; [done| |done..].
      apply pops_empty. by eapply rel_empty.
    + destruct (Pop_ok (entry_less less) (q_h q) e l (rel_heap _ _ HR) Hl) as (h' & Hpop & Hok & Hp).
      unfold queue_heap_ops in Hpop. rewrite Hpop. simpl.
      assert (q_rel {| q_h := h'; handles := delete (RequestID (he_item e)) (handles q);
        allInFlight := delete (RequestID (he_item e)) (allInFlight q); q_next := q_next q |}
        (delete (RequestID (he_item e)) M)) as HR'.
      { apply (rel_inflight _ _ _ (rel_remove q M e h' HR Hok ltac:(rewrite Hl; by rewrite Hp))). }
      edestruct (IH _ _ (res ++ [he_item e]) HR') as (items & q' & M' & -> & Hpops & HR'' & Ha');
        [simpl; by rewrite Ha|].
      exists (he_item e :: items), q', M'. rewrite <- app_assoc. split; [done|]. split; [|done].
      apply pops_next; [by eapply rel_root|done].
Qed.

Lemma PopN_ok q M n :
  q_rel q M -> allInFlight q = M ->
  exists items q' M', PopN less q (Z.of_nat n) = Some (items, q') /\ pops n M items M' /\
    q_rel q' M' /\ allInFlight q' = M'.
Proof.
  intros HR Ha. unfold PopN. rewrite (proj2 (Z.ltb_ge _ _)), Nat2Z.id by lia.
  apply (pop_loop_ok n q M [] HR Ha).
Qed.

Lemma exec_op_ok o q M :
  q_rel q M -> allInFlight q = M ->
  exists r q' M', exec_op o q = Some (r, q') /\ spec_step o M r M' /\ q_rel q' M' /\ allInFlight q' = M'.
Proof.
  intros HR Ha. destruct o as [item|r|n|]; simpl.
  - destruct (Track_ok q M item HR Ha) as (q' & -> & HR' & Ha'). simpl.
    eexists [], q', _. split; [done|]. split; [constructor|done].
  - destruct (Untrack_ok q M r HR Ha) as (q' & -> & HR' & Ha'). simpl.
    eexists [], q', _. split; [done|]. split; [constructor|done].
  - destruct (PopN_ok q M n HR Ha) as (items & q' & M' & -> & Hp & HR').
    exists items, q', M'. split; [done|]. split; [by constructor|done].
  - unfold Peek, eh_Len. destruct (entries (q_h q)) as [|e l] eqn:Hl; simpl.
    + exists [], q, M. split; [done|]. split; [|done]. apply spec_peek_none. by eapply rel_empty.
    + exists [he_item e], q, M. split; [done|]. split; [|done]. apply spec_peek. by eapply rel_root.
Qed.

Lemma exec_ops_ok ops q M :
  q_rel q M -> allInFlight q = M ->
  exists rs q' M', exec_ops ops q = Some (rs, q') /\ spec_run ops M rs M' /\ q_rel q' M' /\ allInFlight q' = M'.
Proof.
  revert q M. induction ops as [|o ops IH]; intros q M HR Ha; simpl.
  - exists [], q, M. split; [done|]. split; [constructor|done].
  - destruct (exec_op_ok o q M HR Ha) as (r & q1 & M1 & -> & Hs & HR1 & Ha1). simpl.
    destruct (IH q1 M1 HR1 Ha1) as (rs & q' & M' & -> & Hrs & HR' & Ha'). simpl.
    exists (r :: rs), q', M'. split; [done|]. split; [by econstructor|done].
Qed.

(** The heap holds exactly the accepted requests. *)
Lemma rel_evictable q M :
  q_rel q M ->
  he_item <$> entries (q_h q) ≡ₚ filter (fun it => accept it = true) (map_to_list M).*2.
Proof.
  intros HR. apply NoDup_Permutation.
  - apply NoDup_fmap_2_strong; [|by eapply rel_nodup].
    intros e e' He He' Heq. apply (rel_unique q M); [done..|]. by rewrite Heq.
  - apply NoDup_filter, NoDup_fmap_2_strong; [|apply NoDup_map_to_list].
    intros [r it] [r' it'] Hr%elem_of_map_to_list Hr'%elem_of_map_to_list. simpl. intros <-.
    apply (rel_map _ _ HR) in Hr as [<- _], Hr' as [<- _]. done.
  - intros it. rewrite list_elem_of_filter, !list_elem_of_fmap. split.
    + intros (e & -> & He). destruct (rel_entry _ _ HR e He) as [HM Hacc]. split; [done|].
      exists (RequestID (he_item e), he_item e). by rewrite elem_of_map_to_list.
    + intros [Hacc ([r it'] & -> & Hr%elem_of_map_to_list)]. simpl in *.
      destruct (rel_map _ _ HR _ _ Hr) as [<- Hh]. destruct (Hh Hacc) as [e He].
      apply (rel_handles _ _ HR) in He as [He Hid]. exists e. split; [|done].
      destruct (rel_entry _ _ HR e He) as [HM _]. rewrite Hid, Hr in HM. by injection HM.
Qed.

(** Victims come out in eviction order, before everything evictable that
    stays. *)
Lemma pops_order n M items M' :
  pops n M items M' ->
  M' ⊆ M /\ StronglySorted (fun a b => less b a = false) items /\
  forall it, it ∈ items -> M !! RequestID it = Some it /\ accept it = true /\
    forall r it', M' !! r = Some it' -> accept it' = true -> less it' it = false.
Proof.
  induction 1 as [M|n M Hn|n M it its M' (HM & Hacc & Hmin) _ (Hsub & Hsort & Hall)].
  1,2: split; [done|]; split; [constructor|]; by intros it ?%not_elem_of_nil.
  assert (M' ⊆ M) as Hsub' by (etrans; [done|apply delete_subseteq]).
  split; [done|]. split.
  - constructor; [done|]. apply Forall_forall. intros it' Hin.
    destruct (Hall it' Hin) as (HM' & Hacc' & _). apply lookup_delete_Some in HM' as [_ HM'].
    by eapply Hmin.
  - intros it' [->|Hin]%elem_of_cons.
    + split; [done|]. split; [done|]. intros r it'' Hr. apply (Hmin r). by eapply lookup_weaken.
    + destruct (Hall it' Hin) as (HM' & ? & ?). apply lookup_delete_Some in HM' as [_ HM']. done.
Qed.

(** As many as asked for, unless there are fewer. *)
Lemma pops_length n M items M' :
  pops n M items M' -> length items = n \/ ((length items <= n)%nat /\ none_evictable M').
Proof.
  induction 1 as [| |? ? ? ? ? _ _ [IH|[IH Hn]]]; simpl; [by left|right; split; [lia|done]|left; lia|].
  right. split; [lia|done].
Qed.

Lemma pops_one M items M' :
  pops 1 M items M' -> (items = [] /\ M' = M /\ none_evictable M) \/
    exists it, items = [it] /\ next_victim M it /\ M' = delete (RequestID it) M.
Proof.
  inversion 1 as [|? ? Hn|? ? it its ? Hv Hp]; subst; [by left|]. right. exists it.
  inversion Hp; by subst.
Qed.

(** * The eviction loop *)

Section Evict.

Context {A X : Type} (Abort : A -> EvictionItem -> A * option X).

Definition without (ids : list string) M : gmap string EvictionItem := foldl (fun M r => delete r M) M ids.

Lemma evict_loop_ok n a q M acc :
  q_rel q M -> allInFlight q = M ->
  exists ids a' q', evict_loop less accept Abort n a q acc = Some (acc ++ ids, a', q') /\
    q_rel q' (without ids M) /\ allInFlight q' = without ids M /\ NoDup ids /\ (length ids <= n)%nat /\
    (forall r, r ∈ ids -> exists it, M !! r = Some it /\ accept it = true).
Proof.
  revert a q M acc. induction n as [|n IH]; intros a q M acc HR Ha.
  { exists [], a, q. rewrite app_nil_r. split_and!; [done..|constructor|done|by intros ? ?%not_elem_of_nil]. }
  cbn [evict_loop]. destruct (PopN_ok q M 1 HR Ha) as (items & q1 & M1 & Hpop & Hp & HR1 & Ha1).
  change (Z.of_nat 1) with 1 in Hpop. rewrite Hpop. simpl.
  apply pops_one in Hp as [(-> & -> & _)|(it & -> & (HM & Hacc & _) & ->)].
  { exists [], a, q1. rewrite app_nil_r.
    split_and!; [done..|constructor|simpl; lia|by intros ? ?%not_elem_of_nil]. }
  destruct (Abort a it) as [a1 [x|]].
  - destruct (Track_ok q1 _ it HR1 Ha1) as (q2 & -> & HR2 & Ha2). simpl.
    rewrite insert_delete_eq, insert_id in HR2, Ha2 by done.
    destruct (IH a1 q2 M acc HR2 Ha2) as (ids & a' & q' & -> & ? & ? & ? & ? & ?).
    exists ids, a', q'. split_and!; try done. lia.
  - destruct (IH a1 q1 _ (acc ++ [RequestID it]) HR1 Ha1) as (ids & a' & q' & -> & HR' & Ha' & Hnd & Hlen & Hall).
    exists (RequestID it :: ids), a', q'. rewrite <- app_assoc. split_and!; try done; simpl; [|lia|].
    + apply NoDup_cons. split; [|done]. intros (it' & Hd & _)%Hall. by rewrite lookup_delete_eq in Hd.
    + intros r [->|Hr]%elem_of_cons; [by exists it|].
      destruct (Hall r Hr) as (it' & [_ ?]%lookup_delete_Some & ?). by exists it'.
Qed.

Lemma evict_loop_all n a q M acc :
  (forall a it, (Abort a it).2 = None) -> q_rel q M -> allInFlight q = M ->
  exists items a' q', evict_loop less accept Abort n a q acc = Some (acc ++ (RequestID <$> items), a', q') /\
    pops n M items (allInFlight q').
Proof.
  intros HA. revert a q M acc. induction n as [|n IH]; intros a q M acc HR Ha.
  { exists [], a, q. rewrite app_nil_r, Ha. split; [done|constructor]. }
  cbn [evict_loop]. destruct (PopN_ok q M 1 HR Ha) as (items & q1 & M1 & Hpop & Hp & HR1 & Ha1).
  change (Z.of_nat 1) with 1 in Hpop. rewrite Hpop. simpl.
  apply pops_one in Hp as [(-> & -> & Hn)|(it & -> & Hv & ->)].
  { exists [], a, q1. rewrite app_nil_r, Ha1. split; [done|]. by apply pops_empty. }
  pose proof (HA a it) as Hab. destruct (Abort a it) as [a1 o]. simpl in Hab. subst o.
  destruct (IH a1 q1 _ (acc ++ [RequestID it]) HR1 Ha1) as (items & a' & q' & -> & Hps).
  exists (it :: items), a', q'. rewrite <- app_assoc. split; [done|]. by apply pops_next.
Qed.

(** A request that comes before all others and whose abort fails is taken and
    put back in every iteration. *)
Lemma evict_loop_stuck n a q M acc it :
  M !! RequestID it = Some it -> accept it = true ->
  (forall r it', M !! r = Some it' -> accept it' = true -> it' <> it -> less it it' = true) ->
  (forall a, is_Some (Abort a it).2) -> q_rel q M -> allInFlight q = M ->
  exists a' q', evict_loop less accept Abort n a q acc = Some (acc, a', q') /\ allInFlight q' = M.
Proof.
  intros HM Hacc Hmin Hfail. revert a q. induction n as [|n IH]; intros a q HR Ha.
  { by exists a, q. }
  cbn [evict_loop]. destruct (PopN_ok q M 1 HR Ha) as (items & q1 & M1 & Hpop & Hp & HR1 & Ha1).
  change (Z.of_nat 1) with 1 in Hpop. rewrite Hpop. simpl.
  apply pops_one in Hp as [(-> & -> & Hn)|(it' & -> & (HM' & Hacc' & Hmin') & ->)].
  { rewrite (Hn _ _ HM) in Hacc. done. }
  assert (it' = it) as ->.
  { pose proof (Hmin' _ _ HM Hacc) as Hle. destruct (decide (RequestID it' = RequestID it)) as [Heq|Hne].
    - rewrite Heq, HM in HM'. by injection HM'.
    - rewrite (Hmin _ _ HM' Hacc') in Hle; [done|]. congruence. }
  destruct (Hfail a) as [x Hx]. destruct (Abort a it) as [a1 o]. simpl in Hx. subst o.
  destruct (Track_ok q1 _ it HR1 Ha1) as (q2 & -> & HR2 & Ha2). simpl.
  rewrite insert_delete_eq, insert_id in HR2, Ha2 by done. apply IH; done.
Qed.

End Evict.

End Spec.

(** * Requests, hooks and an evictor, interleaved

    [EvictN] holds the lock only within [PopN] and [Track]; between the two the
    request it took may complete.  [live] holds the requests whose completion
    hook (the end of the response, or the end of the request context) is still
    to run. *)

Record ev_sys := { es_queue : EvictionQueue; es_aborting : option EvictionItem; es_live : gset string }.

Inductive ev_label :=
  | LStart (item : EvictionItem)    (** [PreRequest] tracks the request *)
  | LFinish (requestID : string)    (** its hook untracks it *)
  | LPop                            (** [EvictN]: [PopN(1)] *)
  | LAborted                        (** [Abort] returned nil *)
  | LAbortFailed.                   (** [Abort] returned an error: [Track] again *)

Definition ev_init : ev_sys := {| es_queue := NewEvictionQueue; es_aborting := None; es_live := ∅ |}.

Definition ev_exec less accept (l : ev_label) (s : ev_sys) : option ev_sys :=
  match l with
  | LStart item =>
      q ← Track less accept (es_queue s) item;
      Some {| es_queue := q; es_aborting := es_aborting s; es_live := {[RequestID item]} ∪ es_live s |}
  | LFinish r =>
      q ← Untrack less (es_queue s) r;
      Some {| es_queue := q; es_aborting := es_aborting s; es_live := es_live s ∖ {[r]} |}
  | LPop =>
      match es_aborting s with
      | Some _ => None
      | None => '(items, q) ← PopN less (es_queue s) 1;
                Some {| es_queue := q; es_aborting := head items; es_live := es_live s |}
      end
  | LAborted =>
      _ ← es_aborting s;
      Some {| es_queue := es_queue s; es_aborting := None; es_live := es_live s |}
  | LAbortFailed =>
      item ← es_aborting s;
      q ← Track less accept (es_queue s) item;
      Some {| es_queue := q; es_aborting := None; es_live := es_live s |}
  end.

Fixpoint ev_run less accept (ls : list ev_label) (s : ev_sys) : option ev_sys :=
  match ls with
  | [] => Some s
  | l :: ls => s ← ev_exec less accept l s; ev_run less accept ls s
  end.

Section System.

Context (less : EvictionItem -> EvictionItem -> bool) (accept : EvictionItem -> bool) `{!StrictWeak less}.

Definition ev_ok (s : ev_sys) : Prop :=
  q_rel less accept (es_queue s) (allInFlight (es_queue s)) /\
  forall r, is_Some (allInFlight (es_queue s) !! r) -> r ∈ es_live s.

Lemma ev_exec_ok l s s' :
  l <> LAbortFailed -> ev_ok s -> ev_exec less accept l s = Some s' -> ev_ok s'.
Proof.
  intros Hl [HR Hlive]. destruct l as [item|r| | |]; simpl; [..|done].
  - destruct (Track_ok less accept _ _ item HR eq_refl) as (q & -> & HR' & Ha). simpl.
    intros [= <-]. unfold ev_ok. simpl. rewrite Ha. split; [done|].
    intros r. rewrite lookup_insert_is_Some'. set_solver +Hlive.
  - destruct (Untrack_ok less accept _ _ r HR eq_refl) as (q & -> & HR' & Ha). simpl.
    intros [= <-]. unfold ev_ok. simpl. rewrite Ha. split; [done|].
    intros r'. rewrite lookup_delete_is_Some. set_solver +Hlive.
  - destruct (es_aborting s); [done|].
    destruct (PopN_ok less accept _ _ 1 HR eq_refl) as (items & q & M & Hp & Hpops & HR' & Ha).
    change (Z.of_nat 1) with 1 in Hp. rewrite Hp. simpl. intros [= <-]. unfold ev_ok. simpl.
    rewrite Ha. split; [done|]. intros r [it Hr]. apply Hlive. exists it.
    apply pops_order in Hpops as [Hsub _]. by eapply lookup_weaken.
  - destruct (es_aborting s); [|done]. simpl. by intros [= <-].
Qed.

Lemma ev_run_ok ls s s' :
  LAbortFailed ∉ ls -> ev_ok s -> ev_run less accept ls s = Some s' -> ev_ok s'.
Proof.
  revert s. induction ls as [|l ls IH]; intros s Hl Hs; simpl; [by intros [= <-]|].
  apply not_elem_of_cons in Hl as [Hl Hls].
  destruct (ev_exec less accept l s) as [s1|] eqn:E; [simpl|done].
  apply IH; [done|]. eapply ev_exec_ok; [|done..]. congruence.
Qed.

End System.

(** * Claims *)

(** C15: Whatever operations are applied to a new eviction queue, none panics, and
    the queue behaves as a map from request IDs to the items tracked last:
    [Track] inserts, [Untrack] deletes, [PopN] takes the evictable requests
    that come first in the eviction order, [Peek] shows the next one. The heap
    always holds exactly the tracked requests that the filter accepts. *)
Theorem eviction_queue_refines less accept ops :
  StrictWeak less ->
  exists rs q M, exec_ops less accept ops NewEvictionQueue = Some (rs, q) /\
    spec_run less accept ops ∅ rs M /\ allInFlight q = M /\
    he_item <$> entries (q_h q) ≡ₚ filter (fun it => accept it = true) (map_to_list M).*2.
Proof.
  intros Hw. destruct (exec_ops_ok less accept ops NewEvictionQueue ∅ (rel_new less accept) eq_refl)
    as (rs & q & M & Hex & Hsp & HR & Ha).
  exists rs, q, M. split; [done|]. split; [done|]. split; [done|]. by apply (rel_evictable less).
Qed.

Definition sample_item (r : string) (p t : Z) : EvictionItem :=
  {| RequestID := r; Priority := p; DispatchTime := t; TargetURL := EmptyString;
     Request := {| Headers := ∅; ObjectivePriority := p |};
     TargetEndpoint := {| Address := EmptyString; Port := EmptyString; PodName := EmptyString |} |}.

Definition sample_ops : list op :=
  [ OpTrack (sample_item "a" (-1) 1); OpTrack (sample_item "b" (-2) 2); OpTrack (sample_item "c" 5 3);
    OpTrack (sample_item "d" (-1) 4); OpTrack (sample_item "e" (-3) 5); OpUntrack "e"; OpPeek; OpPopN 2 ].

Lemma eviction_queue_refines_witness :
  exists rs q M, exec_ops PriorityThenTimeOrdering_Less SheddableFilter_Accept sample_ops NewEvictionQueue
      = Some (rs, q) /\
    RequestID <$> concat rs = ["b"; "b"; "d"] /\
    spec_run PriorityThenTimeOrdering_Less SheddableFilter_Accept sample_ops ∅ rs M /\ size M = 2%nat.
Proof.
  destruct (eviction_queue_refines PriorityThenTimeOrdering_Less SheddableFilter_Accept sample_ops)
    as (rs & q & M & Hex & Hsp & HM & _); [typeclasses eauto|].
  exists rs, q, M. split; [exact Hex|]. revert Hsp. subst M. intros Hsp.
  assert ((fun '(rs, q) => (RequestID <$> concat rs, size (allInFlight q))) <$>
    exec_ops PriorityThenTimeOrdering_Less SheddableFilter_Accept sample_ops NewEvictionQueue
    = Some (["b"; "b"; "d"], 2%nat)) as Hobs by (vm_compute; reflexivity).
  rewrite Hex in Hobs. simpl in Hobs. injection Hobs as -> ->. split; [reflexivity|].
  split; [exact Hsp|reflexivity].
Defined.

(** [PopN] on any reachable queue returns distinct tracked requests that the
    filter accepts, in eviction order, as many as asked for unless there are
    fewer, and none of the evictable requests it leaves comes before one it
    returns. *)
Theorem popn_takes_most_evictable less accept ops rs q n :
  StrictWeak less -> exec_ops less accept ops NewEvictionQueue = Some (rs, q) ->
  exists items q', PopN less q (Z.of_nat n) = Some (items, q') /\
    StronglySorted (fun a b => less b a = false) items /\
    (length items = n \/ ((length items <= n)%nat /\ none_evictable accept (allInFlight q'))) /\
    allInFlight q' ⊆ allInFlight q /\
    forall it, it ∈ items -> allInFlight q !! RequestID it = Some it /\ accept it = true /\
      forall r it', allInFlight q' !! r = Some it' -> accept it' = true -> less it' it = false.
Proof.
  intros Hw Hex. destruct (exec_ops_ok less accept ops NewEvictionQueue ∅ (rel_new less accept) eq_refl)
    as (rs' & q1 & M & Hex' & _ & HR & Ha). rewrite Hex in Hex'. injection Hex' as <- <-.
  destruct (PopN_ok less accept q M n HR Ha) as (items & q' & M' & -> & Hp & _ & Ha').
  exists items, q'. rewrite Ha, Ha'. destruct (pops_order _ _ _ _ _ _ Hp) as (Hsub & Hs & Hall).
  split; [done|]. split; [done|]. split; [by eapply pops_length|]. done.
Qed.

Definition sample_queue : option EvictionQueue :=
  snd <$> exec_ops PriorityThenTimeOrdering_Less SheddableFilter_Accept (take 6 sample_ops) NewEvictionQueue.

Definition sample_pops : option (list string) :=
  q ← sample_queue;
  match PopN PriorityThenTimeOrdering_Less q 5 with Some (items, _) => Some (map RequestID items) | None => None end.

Definition sample_evicts : option (list string) :=
  q ← sample_queue;
  match EvictN PriorityThenTimeOrdering_Less SheddableFilter_Accept NoOpAborter tt q 2 with
  | Some (ids, _, _) => Some ids | None => None end.

Lemma popn_takes_most_evictable_witness :
  exists rs q items q', exec_ops PriorityThenTimeOrdering_Less SheddableFilter_Accept
      (take 6 sample_ops) NewEvictionQueue = Some (rs, q) /\
    PopN PriorityThenTimeOrdering_Less q 5 = Some (items, q') /\
    StronglySorted (fun a b => PriorityThenTimeOrdering_Less b a = false) items /\
    RequestID <$> items = ["b"; "d"; "a"].
Proof.
  destruct (exec_ops PriorityThenTimeOrdering_Less SheddableFilter_Accept (take 6 sample_ops) NewEvictionQueue)
    as [[rs q]|] eqn:Hex; [|vm_compute in Hex; discriminate].
  destruct (popn_takes_most_evictable PriorityThenTimeOrdering_Less SheddableFilter_Accept
    (take 6 sample_ops) rs q 5) as (items & q' & Hp & Hs & _); [typeclasses eauto|exact Hex|].
  exists rs, q, items, q'. split; [reflexivity|]. split; [exact Hp|]. split; [exact Hs|].
  assert (sample_pops = Some ["b"; "d"; "a"]) as Hobs by (vm_compute; reflexivity).
  unfold sample_pops, sample_queue in Hobs. rewrite Hex in Hobs. change (Z.of_nat 5) with 5 in Hp.
  simpl in Hobs. rewrite Hp in Hobs. injection Hobs as Hobs. exact Hobs.
Defined.

(** [EvictN] run alone on any reachable queue returns the requests it aborted,
    each once and at most [n]; exactly these leave the in-flight map, so a
    request whose abort failed is tracked again. When no abort fails, the
    aborted ones are the [n] most evictable, in order. *)
Theorem evictn_removes_exactly_aborted {A X} less accept (Abort : A -> EvictionItem -> A * option X)
    ops rs q a n :
  StrictWeak less -> exec_ops less accept ops NewEvictionQueue = Some (rs, q) ->
  exists ids a' q', EvictN less accept Abort a q (Z.of_nat n) = Some (ids, a', q') /\
    NoDup ids /\ (length ids <= n)%nat /\ allInFlight q' = without ids (allInFlight q) /\
    (forall r, r ∈ ids -> exists it, allInFlight q !! r = Some it /\ accept it = true) /\
    ((forall a it, (Abort a it).2 = None) ->
       exists items, ids = RequestID <$> items /\ pops less accept n (allInFlight q) items (allInFlight q')).
Proof.
  intros Hw Hex. destruct (exec_ops_ok less accept ops NewEvictionQueue ∅ (rel_new less accept) eq_refl)
    as (rs' & q1 & M & Hex' & _ & HR & Ha). rewrite Hex in Hex'. injection Hex' as <- <-.
  unfold EvictN. rewrite (proj2 (Z.ltb_ge _ _)), Nat2Z.id by lia.
  destruct (evict_loop_ok less accept Abort n a q M [] HR Ha)
    as (ids & a' & q' & He & HR' & Ha' & Hnd & Hlen & Hall).
  exists ids, a', q'. rewrite Ha. split; [done|]. split; [done|]. split; [done|]. split; [done|].
  split; [done|]. intros HA.
  destruct (evict_loop_all less accept Abort n a q M [] HA HR Ha) as (items & a2 & q2 & He2 & Hp).
  rewrite He in He2. injection He2 as -> <- <-. by exists items.
Qed.

Lemma evictn_removes_exactly_aborted_witness :
  exists rs q ids q', exec_ops PriorityThenTimeOrdering_Less SheddableFilter_Accept
      (take 6 sample_ops) NewEvictionQueue = Some (rs, q) /\
    EvictN PriorityThenTimeOrdering_Less SheddableFilter_Accept NoOpAborter tt q 2 = Some (ids, tt, q') /\
    ids = ["b"; "d"] /\ allInFlight q' = without ids (allInFlight q).
Proof.
  destruct (exec_ops PriorityThenTimeOrdering_Less SheddableFilter_Accept (take 6 sample_ops) NewEvictionQueue)
    as [[rs q]|] eqn:Hex; [|vm_compute in Hex; discriminate].
  destruct (evictn_removes_exactly_aborted PriorityThenTimeOrdering_Less SheddableFilter_Accept NoOpAborter
    (take 6 sample_ops) rs q tt 2) as (ids & [] & q' & He & _ & _ & Ha & _); [typeclasses eauto|exact Hex|].
  exists rs, q, ids, q'. split; [reflexivity|]. split; [exact He|]. split; [|exact Ha].
  assert (sample_evicts = Some ["b"; "d"]) as Hobs by (vm_compute; reflexivity).
  unfold sample_evicts, sample_queue in Hobs. rewrite Hex in Hobs. change (Z.of_nat 2) with 2 in He.
  simpl in Hobs. rewrite He in Hobs. simpl in Hobs. injection Hobs as ->. reflexivity.
Defined.

(** While the abort of the request that comes first fails, [EvictN] evicts
    nothing, whatever [n] is: each iteration takes the same request, fails and
    puts it back, and the requests after it are never tried. *)
Theorem evictn_stuck_on_failing_abort {A X} less accept (Abort : A -> EvictionItem -> A * option X)
    ops rs q a n it :
  StrictWeak less -> exec_ops less accept ops NewEvictionQueue = Some (rs, q) ->
  allInFlight q !! RequestID it = Some it -> accept it = true ->
  (forall r it', allInFlight q !! r = Some it' -> accept it' = true -> it' <> it -> less it it' = true) ->
  (forall a, is_Some (Abort a it).2) ->
  exists a' q', EvictN less accept Abort a q (Z.of_nat n) = Some ([], a', q') /\
    allInFlight q' = allInFlight q.
Proof.
  intros Hw Hex Hit Hacc Hmin Hfail.
  destruct (exec_ops_ok less accept ops NewEvictionQueue ∅ (rel_new less accept) eq_refl)
    as (rs' & q1 & M & Hex' & _ & HR & Ha). rewrite Hex in Hex'. injection Hex' as <- <-.
  unfold EvictN. rewrite (proj2 (Z.ltb_ge _ _)), Nat2Z.id by lia. rewrite Ha in *.
  by apply (evict_loop_stuck less accept Abort n a q M [] it).
Qed.

Definition sample_in_flight : option (list (string * EvictionItem)) :=
  (fun rq => map_to_list (allInFlight rq.2)) <$>
    exec_ops PriorityThenTimeOrdering_Less SheddableFilter_Accept (take 3 sample_ops) NewEvictionQueue.

Definition sample_stuck : option nat :=
  match exec_ops PriorityThenTimeOrdering_Less SheddableFilter_Accept (take 3 sample_ops) NewEvictionQueue with
  | Some (_, q) =>
      match EvictN PriorityThenTimeOrdering_Less SheddableFilter_Accept
        (fun (k : nat) it => (S k, if String.eqb (RequestID it) "b" then Some tt else None)) 0%nat q 7 with
      | Some (_, k, _) => Some k | None => None end
  | None => None
  end.

Lemma evictn_stuck_on_failing_abort_witness :
  exists rs q q', exec_ops PriorityThenTimeOrdering_Less SheddableFilter_Accept
      (take 3 sample_ops) NewEvictionQueue = Some (rs, q) /\
    EvictN PriorityThenTimeOrdering_Less SheddableFilter_Accept
      (fun (k : nat) it => (S k, if String.eqb (RequestID it) "b" then Some tt else None)) 0%nat q 7
      = Some ([], 7%nat, q') /\ allInFlight q' = allInFlight q.
Proof.
  destruct (exec_ops PriorityThenTimeOrdering_Less SheddableFilter_Accept (take 3 sample_ops) NewEvictionQueue)
    as [[rs q]|] eqn:Hex; [|vm_compute in Hex; discriminate].
  assert (map_to_list (allInFlight q) = (fun it => (RequestID it, it)) <$>
            [sample_item "c" 5 3; sample_item "a" (-1) 1; sample_item "b" (-2) 2]) as Hm.
  { assert (sample_in_flight = Some ((fun it => (RequestID it, it)) <$>
            [sample_item "c" 5 3; sample_item "a" (-1) 1; sample_item "b" (-2) 2])) as Hobs
      by (vm_compute; reflexivity).
    unfold sample_in_flight in Hobs. rewrite Hex in Hobs. by injection Hobs. }
  destruct (evictn_stuck_on_failing_abort PriorityThenTimeOrdering_Less SheddableFilter_Accept
    (fun (k : nat) it => (S k, if String.eqb (RequestID it) "b" then Some tt else None))
    (take 3 sample_ops) rs q 0%nat 7 (sample_item "b" (-2) 2)) as (a' & q' & He & Ha).
  - typeclasses eauto.
  - exact Hex.
  - apply elem_of_map_to_list. rewrite Hm. right. right. left.
  - reflexivity.
  - intros r it' Hr%elem_of_map_to_list Hacc Hne. rewrite Hm in Hr. simpl in Hr.
    rewrite !elem_of_cons in Hr. destruct Hr as [[= _ ->]|[[= _ ->]|[[= _ ->]|[]%not_elem_of_nil]]]; done.
  - intros a. by exists tt.
  - exists rs, q, q'. split; [reflexivity|]. split; [|exact Ha].
    assert (sample_stuck = Some 7%nat) as Hobs by (vm_compute; reflexivity).
    unfold sample_stuck in Hobs. rewrite Hex in Hobs. change (Z.of_nat 7) with 7 in He.
    simpl in Hobs. rewrite He in Hobs. simpl in Hobs. injection Hobs as ->. exact He.
Defined.

(** As long as no abort fails, every tracked request still has its completion
    hook to run, however the hooks and the evictor interleave. When one fails,
    a request that completed during the abort is tracked again and nothing
    will ever untrack it. *)
Theorem failed_abort_leaks_completed_request :
  (forall less accept ls s, StrictWeak less -> LAbortFailed ∉ ls ->
     ev_run less accept ls ev_init = Some s ->
     forall r, is_Some (allInFlight (es_queue s) !! r) -> r ∈ es_live s) /\
  (exists ls s r, ev_run PriorityThenTimeOrdering_Less SheddableFilter_Accept ls ev_init = Some s /\
     is_Some (allInFlight (es_queue s) !! r) /\ es_live s = ∅).
Proof.
  split.
  - intros less accept ls s Hw Hl Hrun r Hr.
    assert (ev_ok less accept s) as [_ Hok]; [|by apply Hok].
    eapply ev_run_ok; [done|done| |done]. split; [apply rel_new|].
    simpl. intros r' [it Hit]. by rewrite lookup_empty in Hit.
  - exists [LStart (sample_item "a" (-1) 1); LPop; LFinish "a"; LAbortFailed].
    eexists _, "a". split; [vm_compute; reflexivity|]. split; [eexists; vm_compute; reflexivity|].
    vm_compute. reflexivity.
Qed.
