(* ===== verification/PrefixIndexer.v ===== *)
(** The approximate prefix-cache index
    (src/pkg/epp/framework/plugins/requestcontrol/dataproducer/approximateprefix/indexer.go
    and the matching in plugin.go): for each server an LRU cache of the block
    hashes sent to it, and the inverse map from a hash to the servers that may
    have it cached.

    The LRU cache is the third-party package hashicorp/golang-lru: the class
    [LRU] has the operations the code calls, [LRULaws] what its documentation
    says of them. *)

From S2P Require Import Prelude.

(** * The cache library *)

Class LRU (L : Type) := {
  lru_New : Z -> option L;           (** [None]: a nil cache and an error *)
  lru_Add : L -> Z -> L * option Z;  (** the key evicted, passed to the callback *)
  lru_Remove : L -> Z -> L * bool;   (** whether the key was present, and passed to the callback *)
  lru_Keys : L -> list Z             (** from oldest to newest *)
}.

Definition except (k : Z) (l : list Z) : list Z := filter (fun x => x <> k) l.

Class LRULaws (L : Type) `{LRU L} := {
  lru_ok : L -> Prop;
  lru_cap : L -> nat;
  lru_nodup : forall l, lru_ok l -> NoDup (lru_Keys l) /\ (length (lru_Keys l) <= lru_cap l)%nat;
  lru_New_ok : forall n, 0 < n ->
    exists l, lru_New n = Some l /\ lru_ok l /\ lru_Keys l = [] /\ lru_cap l = Z.to_nat n;
  lru_New_error : forall n, n <= 0 -> lru_New n = None;
  lru_Add_hit : forall l k, lru_ok l -> k ∈ lru_Keys l ->
    exists l', lru_Add l k = (l', None) /\ lru_ok l' /\ lru_cap l' = lru_cap l /\
      lru_Keys l' = except k (lru_Keys l) ++ [k];
  lru_Add_room : forall l k, lru_ok l -> k ∉ lru_Keys l -> (length (lru_Keys l) < lru_cap l)%nat ->
    exists l', lru_Add l k = (l', None) /\ lru_ok l' /\ lru_cap l' = lru_cap l /\
      lru_Keys l' = lru_Keys l ++ [k];
  lru_Add_full : forall l k old rest, lru_ok l -> k ∉ lru_Keys l -> lru_Keys l = old :: rest ->
    length (lru_Keys l) = lru_cap l ->
    exists l', lru_Add l k = (l', Some old) /\ lru_ok l' /\ lru_cap l' = lru_cap l /\
      lru_Keys l' = rest ++ [k];
  lru_Remove_ok : forall l k, lru_ok l ->
    exists l', lru_Remove l k = (l', bool_decide (k ∈ lru_Keys l)) /\ lru_ok l' /\ lru_cap l' = lru_cap l /\
      lru_Keys l' = except k (lru_Keys l)
}.

(** * The index *)

Record ServerID := { sv_Namespace : string; sv_Name : string }.

#[global] Instance ServerID_eq_dec : EqDecision ServerID.
Proof. solve_decision. Defined.

#[global, program] Instance ServerID_countable : Countable ServerID :=
  inj_countable' (fun s => (sv_Namespace s, sv_Name s))
                 (fun p => {| sv_Namespace := p.1; sv_Name := p.2 |}) _.
Next Obligation. by intros []. Qed.

Record server := { sv_id : ServerID; NumOfGPUBlocks : Z }.

Definition podSet := gset ServerID.

Section Indexer.

Context {L : Type} `{LRU L}.

(** A nil cache pointer is stored when the constructor fails. *)
Record indexer := {
  hashToPods : gmap Z podSet;
  podToLRU : gmap ServerID (option L);
  defaultLRUSize : Z
}.

Definition newIndexer (size : Z) : indexer :=
  {| hashToPods := ∅; podToLRU := ∅; defaultLRUSize := size |}.

(** The eviction callback of a pod's cache. *)
Definition evictionFn (pod : ServerID) (m : gmap Z podSet) (hash : Z) : gmap Z podSet :=
  match m !! hash with
  | None => m
  | Some pods => let pods := pods ∖ {[pod]} in
                 if decide (pods = ∅) then delete hash m else <[hash := pods]> m
  end.

Definition on_evict (pod : ServerID) (m : gmap Z podSet) (evicted : option Z) : gmap Z podSet :=
  match evicted with Some hash => evictionFn pod m hash | None => m end.

(** The first loop of [Add]: the hashes go into the pod's cache. *)
Definition lru_add_all (pod : ServerID) (hashes : list Z) (lm : L * gmap Z podSet) : L * gmap Z podSet :=
  foldl (fun '(l, m) hash => let '(l, evicted) := lru_Add l hash in (l, on_evict pod m evicted)) lm hashes.

(** The second loop: the pod is recorded for every hash. *)
Definition record_all (pod : ServerID) (hashes : list Z) (m : gmap Z podSet) : gmap Z podSet :=
  foldl (fun m hash => <[hash := {[pod]} ∪ default ∅ (m !! hash)]> m) m hashes.

Definition lruSize (i : indexer) (pod : server) : Z :=
  if Z.leb (NumOfGPUBlocks pod) 0 then defaultLRUSize i else NumOfGPUBlocks pod.

(** A method of a nil cache panics. *)
Definition Add (i : indexer) (hashes : list Z) (pod : server) : option indexer :=
  let lruForPod := match podToLRU i !! sv_id pod with
                   | Some l => l
                   | None => lru_New (lruSize i pod)
                   end in
  match hashes, lruForPod with
  | _ :: _, None => None
  | [], _ => Some {| hashToPods := hashToPods i; podToLRU := <[sv_id pod := lruForPod]> (podToLRU i);
                     defaultLRUSize := defaultLRUSize i |}
  | _ :: _, Some l =>
      let '(l, m) := lru_add_all (sv_id pod) hashes (l, hashToPods i) in
      Some {| hashToPods := record_all (sv_id pod) hashes m;
              podToLRU := <[sv_id pod := Some l]> (podToLRU i);
              defaultLRUSize := defaultLRUSize i |}
  end.

Definition Get (i : indexer) (hash : Z) : podSet := default ∅ (hashToPods i !! hash).

(** The loop of [RemovePod] over a snapshot of the keys. *)
Definition lru_remove_all (pod : ServerID) (keys : list Z) (lm : L * gmap Z podSet) : L * gmap Z podSet :=
  foldl (fun '(l, m) hash => let '(l, present) := lru_Remove l hash in
                             (l, on_evict pod m (if present then Some hash else None))) lm keys.

Definition RemovePod (i : indexer) (pod : ServerID) : option indexer :=
  match podToLRU i !! pod with
  | None => Some i
  | Some None => None
  | Some (Some l) =>
      let '(_, m) := lru_remove_all pod (lru_Keys l) (l, hashToPods i) in
      Some {| hashToPods := m; podToLRU := delete pod (podToLRU i); defaultLRUSize := defaultLRUSize i |}
  end.

Definition Pods (i : indexer) : list ServerID := (map_to_list (podToLRU i)).*1.

(** One tick of [CleanUpInactivePods]. *)
Definition cleanUpInactivePods (activePods : gset ServerID) (i : indexer) : option indexer :=
  ofold (fun i pod => if decide (pod ∈ activePods) then Some i else RemovePod i pod) (Pods i) i.

(** * Matching *)

Definition bump (res : gmap ServerID Z) (sv : ServerID) : gmap ServerID Z :=
  <[sv := default 0 (res !! sv) + 1]> res.

Fixpoint match_loop (i : indexer) (hashes : list Z) (res : gmap ServerID Z) : gmap ServerID Z :=
  match hashes with
  | [] => res
  | hash :: hashes =>
      let cachedServers := Get i hash in
      if decide (cachedServers = ∅) then res
      else match_loop i hashes (foldl bump res (elements cachedServers))
  end.

Definition matchLongestPrefix (i : indexer) (hashes : list Z) : gmap ServerID Z := match_loop i hashes ∅.

End Indexer.

(** * The server of an endpoint *)

Definition defaultLRUCapacityPerServer : Z := 31250.

Record config := {
  AutoTune : bool;
  BlockSizeTokens : Z;
  BlockSize : Z;
  MaxPrefixBlocksToMatch : Z;
  LRUCapacityPerServer : Z
}.

(** The metrics the plugin reads of an endpoint; the pointer may be nil. *)
Record endpoint_metrics := { CacheNumBlocks : Z; CacheBlockSize : Z }.
Record endpoint := { ep_id : ServerID; ep_metrics : option endpoint_metrics }.

(** With [AutoTune] the metrics are read without a nil check. *)
Definition makeserver (c : config) (targetEndpoint : endpoint) : option server :=
  gpuBlocks ← (if AutoTune c then
                 m ← ep_metrics targetEndpoint;
                 Some (if Z.ltb 0 (CacheNumBlocks m) then CacheNumBlocks m else defaultLRUCapacityPerServer)
               else Some defaultLRUCapacityPerServer);
  Some {| sv_id := ep_id targetEndpoint; NumOfGPUBlocks := gpuBlocks |}.

Definition GetBlockSize (c : config) (endpoints : list endpoint) : Z :=
  if negb (AutoTune c) then BlockSizeTokens c
  else match endpoints with
       | {| ep_metrics := Some m |} :: _ =>
           if Z.ltb 0 (CacheBlockSize m) then CacheBlockSize m else BlockSizeTokens c
       | _ => BlockSizeTokens c
       end.

(** * The configuration *)

Inductive config_error := ErrBlockSizeDeprecated | ErrBlockSizeTokens.

(** The checks of [newPrepareData]. *)
Definition check_config (c : config) : unit + config_error :=
  if Z.ltb 0 (BlockSize c) && Z.leb (BlockSizeTokens c) 0 then inr ErrBlockSizeDeprecated
  else if negb (AutoTune c) && Z.leb (BlockSizeTokens c) 0 then inr ErrBlockSizeTokens
  else inl tt.

Definition defaultConfig : config :=
  {| AutoTune := true; BlockSize := 0; BlockSizeTokens := 16; MaxPrefixBlocksToMatch := 256;
     LRUCapacityPerServer := defaultLRUCapacityPerServer |}.
