(* ===== verification/PrefixHash.v ===== *)
(** Hashing a prompt into a chain of block hashes
    (src/pkg/epp/framework/plugins/requestcontrol/dataproducer/approximateprefix/hashing.go).

    The digest is the third-party package cespare/xxhash: [Sum64] is the digest
    of the bytes written since the last reset.  The bytes of a structured
    request body come from [json.Marshal], the parameter [Marshal]. *)

From S2P Require Import Prelude.
From Stdlib Require Import Ascii.

Definition bytes := list Z.

(** [[]byte(s)] *)
Fixpoint string_bytes (s : string) : bytes :=
  match s with
  | EmptyString => []
  | String c s => Z.of_N (N_of_ascii c) :: string_bytes s
  end.

(** [binary.LittleEndian.PutUint64] *)
Definition toBytes (i : Z) : bytes :=
  (fun k => Z.land (Z.shiftr i (8 * Z.of_nat k)) 255) <$> seq 0 8.

Definition averageCharactersPerToken : Z := 4.

(** * The request *)

Section Request.

(** A decoded JSON value. *)
Variable V : Type.

Record Prompt := { Raw : string; Strings : list string }.

Record ResponsesRequest := {
  Input : option V; Instructions : option V; Tools : option V; resp_CacheSalt : string
}.

(** One field for each API; nil when the request is not of that API. *)
Record LLMRequestBody := {
  Completions : option (Prompt * string);
  ChatCompletions : option (V * string);
  Responses : option ResponsesRequest;
  Conversations : option (V * string);
  Embeddings : option (V * string)
}.

Record LLMRequest := { RequestId : string; TargetModel : string; Body : option LLMRequestBody }.

(** [strings.Join(l, " ")] *)
Fixpoint join_space (l : list string) : string :=
  match l with
  | [] => EmptyString
  | [s] => s
  | s :: l => s +:+ " " +:+ join_space l
  end.

Definition PlainText (p : Prompt) : string :=
  if String.eqb (Raw p) EmptyString then join_space (Strings p) else Raw p.

Definition CacheSalt (b : LLMRequestBody) : string :=
  match Conversations b, Responses b, ChatCompletions b, Completions b, Embeddings b with
  | Some (_, salt), _, _, _, _ => salt
  | None, Some r, _, _, _ => resp_CacheSalt r
  | None, None, Some (_, salt), _, _ => salt
  | None, None, None, Some (_, salt), _ => salt
  | None, None, None, None, Some (_, salt) => salt
  | None, None, None, None, None => EmptyString
  end.

(** What [json.Marshal] is called with: a value, or the list of one-entry
    maps. *)
Inductive marshalled :=
  | MValue (v : V)
  | MList (l : list (string * option V)).

Inductive input_error :=
  | ErrMarshal
  | ErrNoApi.

Variable Marshal : marshalled -> option bytes.

Definition marshal (x : marshalled) : bytes + input_error :=
  match Marshal x with Some b => inl b | None => inr ErrMarshal end.

Definition named_part (k : string) (v : option V) : list (string * option V) :=
  match v with Some v => [(k, Some v)] | None => [] end.

Definition getUserInputBytes (b : LLMRequestBody) : bytes + input_error :=
  match Conversations b, Responses b, ChatCompletions b, Completions b, Embeddings b with
  | Some (items, _), _, _, _, _ => marshal (MValue items)
  | None, Some r, _, _, _ =>
      marshal (MList (named_part "instructions" (Instructions r) ++ named_part "tools" (Tools r)
                      ++ [("input", Input r)]))
  | None, None, Some (messages, _), _, _ => marshal (MValue messages)
  | None, None, None, Some (prompt, _), _ => inl (string_bytes (PlainText prompt))
  | None, None, None, None, Some (input, _) => marshal (MValue input)
  | None, None, None, None, None => inr ErrNoApi
  end.

(** * The hashes *)

Variable Sum64 : bytes -> Z.

(** The loop: [size] is the block size, [i] the position in the input. *)
Fixpoint hash_loop (fuel : nat) (userInput : bytes) (size i : nat) (prev : Z) (res : list Z)
    : option (list Z) :=
  if Nat.leb (i + size) (length userInput) then
    match fuel with
    | O => None
    | S fuel =>
        let h := Sum64 (take size (drop i userInput) ++ toBytes prev) in
        hash_loop fuel userInput size (i + size) h (res ++ [h])
    end
  else Some res.

(** The digest before the first block. *)
Definition seed (request : LLMRequest) (b : LLMRequestBody) : Z :=
  let salt := CacheSalt b in
  Sum64 (string_bytes (TargetModel request)
         ++ if String.eqb salt EmptyString then [] else string_bytes salt).

(** The products are computed in [int]; slicing to a negative length
    panics. *)
Definition hashPrompt (request : option LLMRequest) (blockSizeTokens maxPrefixBlocks : Z)
    : option (list Z) :=
  match request with
  | None => Some []
  | Some request =>
      match Body request with
      | None => Some []
      | Some b =>
          match getUserInputBytes b with
          | inr _ => Some []
          | inl userInput =>
              let size := i64 (blockSizeTokens * averageCharactersPerToken) in
              if Z.leb size 0 then Some []
              else if Z.ltb (Z.of_nat (length userInput)) size then Some []
              else
                let limit := i64 (size * maxPrefixBlocks) in
                userInput ← (if Z.ltb limit (Z.of_nat (length userInput)) then
                               let limit' := i64 (maxPrefixBlocks * size) in
                               if Z.ltb limit' 0 then None else Some (take (Z.to_nat limit') userInput)
                             else Some userInput);
                hash_loop (length userInput) userInput (Z.to_nat size) 0 (seed request b) []
          end
      end
  end.

(** * A reference definition *)

(** The full blocks of an input. *)
Definition block (userInput : bytes) (size k : nat) : bytes := take size (drop (k * size) userInput).

(** The chain of hashes of the first [n] blocks. *)
Fixpoint chain (userInput : bytes) (size : nat) (k n : nat) (prev : Z) : list Z :=
  match n with
  | O => []
  | S n => let h := Sum64 (block userInput size k ++ toBytes prev) in h :: chain userInput size (S k) n h
  end.

End Request.
