(* ===== verification/PrefixPlugin.v ===== *)
(** The plugin that prepares prefix-cache data
    (src/pkg/epp/framework/plugins/requestcontrol/dataproducer/approximateprefix/plugin.go):
    before scheduling it hashes the prompt and attaches to each endpoint how
    many of its blocks the endpoint may have cached; after scheduling it
    records the hashes for the endpoint that was chosen. *)

From S2P Require Import Prelude PrefixIndexer PrefixHash.

Section Plugin.

Context {L : Type} `{!LRU L}.
Context {V : Type} (Marshal : marshalled V -> option bytes) (Sum64 : bytes -> Z).

Record SchedulingContextState := {
  PrefixHashes : list Z;
  PrefixCacheServers : gmap ServerID Z
}.

(** The plugin state is keyed by request; only this plugin's key is used. *)
Record prepareData := {
  pd_config : config;
  pd_indexer : @indexer L;
  pd_state : gmap string SchedulingContextState
}.

(** The attribute put on an endpoint. *)
Record PrefixCacheMatchInfo := { matchBlocks : Z; totalBlocks : Z; blockSizeTokens : Z }.

Definition newPrepareData (c : config) : prepareData + config_error :=
  _ <-? check_config c;
  inl {| pd_config := c; pd_indexer := newIndexer (LRUCapacityPerServer c); pd_state := ∅ |}.

(** The attributes of the endpoints, and the state kept for [PreRequest]; a
    nil request is dereferenced at the end. *)
Definition PrepareRequestData (p : prepareData) (request : option (LLMRequest V)) (pods : list endpoint)
    : option (prepareData * list (ServerID * PrefixCacheMatchInfo)) :=
  let blockSize := GetBlockSize (pd_config p) pods in
  hashes ← hashPrompt V Marshal Sum64 request blockSize (MaxPrefixBlocksToMatch (pd_config p));
  let total := Z.of_nat (length hashes) in
  let prefixCacheServers := matchLongestPrefix (pd_indexer p) hashes in
  let infos := (fun pod => (ep_id pod,
    {| matchBlocks := default 0 (prefixCacheServers !! ep_id pod); totalBlocks := total;
       blockSizeTokens := blockSize |})) <$> pods in
  request ← request;
  Some ({| pd_config := pd_config p; pd_indexer := pd_indexer p;
           pd_state := <[RequestId V request := {| PrefixHashes := hashes;
                           PrefixCacheServers := prefixCacheServers |}]> (pd_state p) |}, infos).

(** A profile result: nil, or the target endpoints. *)
Definition ProfileResult := option (list endpoint).

Definition experimentalDefaultPrefillProfile : string := "prefill".

(** The target endpoints of a profile; a nil result is dereferenced. *)
Definition primary_endpoints (results : gmap string ProfileResult) (name : string) : option (list endpoint) :=
  mjoin (results !! name).

(** The servers to record: the primary target, and the prefill target if there
    is one. *)
Definition target_servers (c : config) (results : gmap string ProfileResult) (target : endpoint)
    : option (list server) :=
  s ← makeserver c target;
  match results !! experimentalDefaultPrefillProfile with
  | None => Some [s]
  | Some None => None
  | Some (Some []) => Some [s]
  | Some (Some (prefill :: _)) => s' ← makeserver c prefill; Some [s; s']
  end.

(** [PreRequest] deletes the state and starts a goroutine that updates the
    index: the second result is what the goroutine will add. *)
Definition PreRequest (p : prepareData) (requestId : string) (results : gmap string ProfileResult)
    (primaryProfileName : string) : option (prepareData * option (list Z * list server)) :=
  let p' := {| pd_config := pd_config p; pd_indexer := pd_indexer p;
               pd_state := delete requestId (pd_state p) |} in
  targets ← primary_endpoints results primaryProfileName;
  match targets with
  | [] => Some (p', None)
  | target :: _ =>
      servers ← target_servers (pd_config p) results target;
      match pd_state p !! requestId with
      | None => Some (p', None)
      | Some state => Some (p', Some (PrefixHashes state, servers))
      end
  end.

(** The goroutine. *)
Definition update_index (p : prepareData) (hashes : list Z) (servers : list server) : option prepareData :=
  i ← ofold (fun i s => Add i hashes s) servers (pd_indexer p);
  Some {| pd_config := pd_config p; pd_indexer := i; pd_state := pd_state p |}.

End Plugin.
