(* ===== verification/PrefixProps.v ===== *)
(** What the prefix index guarantees, for every cache library that satisfies
    the laws: while additions fit the caches the index is exactly the inverse
    of their contents, an addition is found again by the longest common
    prefix, and the hashes of a prompt are the chain of its full blocks. *)

From S2P Require Import Prelude PrefixIndexer PrefixHash.

(** * The index and the caches *)

Lemma elem_of_except k x l : x ∈ except k l <-> x ∈ l /\ x <> k.
Proof. unfold except. rewrite list_elem_of_filter. tauto. Qed.

Lemma except_app k l l' : except k (l ++ l') = except k l ++ except k l'.
Proof. apply filter_app. Qed.

Definition pods_of (m : gmap Z podSet) (h : Z) : podSet := default ∅ (m !! h).

Lemma evictionFn_spec pod m h h' p :
  p ∈ pods_of (evictionFn pod m h) h' <-> p ∈ pods_of m h' /\ ~ (h' = h /\ p = pod).
Proof.
  unfold evictionFn, pods_of. destruct (m !! h) as [pods|] eqn:E.
  - case_decide as Hd.
    + destruct (decide (h' = h)) as [->|Hne].
      * rewrite lookup_delete_eq, E. simpl. set_solver.
      * rewrite lookup_delete_ne by done. naive_solver.
    + destruct (decide (h' = h)) as [->|Hne].
      * rewrite lookup_insert_eq, E. simpl. set_solver.
      * rewrite lookup_insert_ne by done. naive_solver.
  - split; [|naive_solver]. intros Hp. split; [done|]. intros [-> ->]. by rewrite E in Hp.
Qed.

Lemma record_all_spec pod hashes m h p :
  p ∈ pods_of (record_all pod hashes m) h <-> p ∈ pods_of m h \/ (h ∈ hashes /\ p = pod).
Proof.
  unfold record_all. revert m. induction hashes as [|x hashes IH]; intros m; simpl.
  - rewrite elem_of_nil. naive_solver.
  - rewrite IH, elem_of_cons. unfold pods_of. destruct (decide (h = x)) as [->|Hne].
    + rewrite lookup_insert_eq. simpl. set_solver.
    + rewrite lookup_insert_ne by done. naive_solver.
Qed.

Section Laws.

Context {L : Type} `{!LRU L} `{!LRULaws L}.

(** One addition to a cache: what stays, what leaves. *)
Lemma lru_Add_spec l k :
  lru_ok l -> (0 < lru_cap l)%nat ->
  exists l' ev, lru_Add l k = (l', ev) /\ lru_ok l' /\ lru_cap l' = lru_cap l /\
    (forall x, x ∈ lru_Keys l' <-> (x ∈ lru_Keys l \/ x = k) /\ ev <> Some x) /\
    (forall x, ev = Some x -> x ∈ lru_Keys l /\ x <> k).
Proof.
  intros Hok Hcap. destruct (decide (k ∈ lru_Keys l)) as [Hin|Hin].
  - destruct (lru_Add_hit l k Hok Hin) as (l' & Ha & Hok' & Hc & Hk). exists l', None.
    split_and!; try done. intros x. rewrite Hk, elem_of_app, elem_of_except, list_elem_of_singleton.
    destruct (decide (x = k)); naive_solver.
  - destruct (lru_nodup l Hok) as [Hnd Hlen]. destruct (decide (length (lru_Keys l) < lru_cap l)%nat) as [Hlt|Hge].
    + destruct (lru_Add_room l k Hok Hin Hlt) as (l' & Ha & Hok' & Hc & Hk). exists l', None.
      split_and!; try done. intros x. rewrite Hk, elem_of_app, list_elem_of_singleton. naive_solver.
    + destruct (lru_Keys l) as [|old rest] eqn:E; [simpl in *; lia|].
      destruct (lru_Add_full l k old rest) as (l' & Ha & Hok' & Hc & Hk); rewrite ?E; try done; [lia|].
      exists l', (Some old). apply NoDup_cons in Hnd as [Hold _]. apply not_elem_of_cons in Hin as [Hne Hin].
      split_and!; try done.
      * intros x. rewrite Hk, elem_of_app, list_elem_of_singleton, elem_of_cons.
        split; [intros [Hx| ->]|].
        -- split; [auto|]. intros [= ->]. done.
        -- split; [auto|]. intros [= ->]. done.
        -- intros [[[-> | ?] | ->] ?]; naive_solver.
      * intros x [= <-]. split; [left|done].
Qed.

(** The additions of one call, in one pass over the cache and the map. *)
Lemma lru_add_all_spec pod hashes l m l' m' added :
  lru_ok l -> (0 < lru_cap l)%nat -> lru_add_all pod hashes (l, m) = (l', m') ->
  lru_ok l' /\ lru_cap l' = lru_cap l /\
  ((forall h, pod ∈ pods_of m h -> h ∈ lru_Keys l) -> forall h, pod ∈ pods_of m' h -> h ∈ lru_Keys l') /\
  ((forall h, h ∈ lru_Keys l -> pod ∈ pods_of m h \/ h ∈ added) ->
    forall h, h ∈ lru_Keys l' -> pod ∈ pods_of m' h \/ h ∈ added ++ hashes) /\
  (forall p h, p <> pod -> p ∈ pods_of m' h <-> p ∈ pods_of m h).
Proof.
  unfold lru_add_all. revert l m added. induction hashes as [|k hashes IH]; intros l m added Hok Hcap; simpl.
  - intros [= <- <-]. rewrite app_nil_r. done.
  - destruct (lru_Add_spec l k Hok Hcap) as (l1 & ev & -> & Hok1 & Hc1 & Hk1 & Hev).
    intros Hrun. specialize (IH l1 (on_evict pod m ev) (added ++ [k]) Hok1 ltac:(lia) Hrun).
    assert (forall p h, p ∈ pods_of (on_evict pod m ev) h <-> p ∈ pods_of m h /\ ~ (ev = Some h /\ p = pod)) as Hm1.
    { intros p h. unfold on_evict. destruct ev as [e|]; [rewrite evictionFn_spec|]; clear; naive_solver. }
    destruct IH as (Hok' & Hc' & Hi & Hii & Hother). split; [done|]. split; [lia|]. split; [|split].
    + intros Hsub. apply Hi. intros h [Hp Hne]%Hm1. apply Hk1. split; [left; auto|]. naive_solver.
    + intros Hsup h Hh. rewrite <- app_assoc in Hii. apply Hii; [|done]. clear h Hh.
      intros h [[Hh | ->] Hne]%Hk1; [|right; apply elem_of_app; right; left].
      destruct (Hsup h Hh) as [Hp|Ha]; [left|right; apply elem_of_app; by left].
      apply Hm1. split; [done|]. by intros [-> _].
    + intros p h Hne. rewrite Hother, Hm1 by done. naive_solver.
Qed.

(** When the distinct hashes fit the capacity, all of them are the newest keys
    of the cache at the end: only older keys are evicted. *)
Lemma lru_add_all_recent pod hashes l m l' m' (D O N : list Z) :
  lru_ok l -> NoDup D -> (length D <= lru_cap l)%nat -> (forall x, x ∈ N ++ hashes -> x ∈ D) ->
  lru_Keys l = O ++ N -> lru_add_all pod hashes (l, m) = (l', m') ->
  exists O' N', lru_Keys l' = O' ++ N' /\ forall x, x ∈ N' <-> x ∈ N ++ hashes.
Proof.
  unfold lru_add_all. revert l m O N. induction hashes as [|k hashes IH]; intros l m O N Hok HD Hcap Hsub HK; simpl.
  { intros [= <- _]. exists O, N. by rewrite app_nil_r. }
  destruct (lru_nodup l Hok) as [Hnd Hlen].
  assert (exists l1 ev O1 N1, lru_Add l k = (l1, ev) /\ lru_ok l1 /\ lru_cap l1 = lru_cap l /\
            lru_Keys l1 = O1 ++ N1 /\ forall x, x ∈ N1 <-> x ∈ N \/ x = k) as (l1 & ev & O1 & N1 & Ha & Hok1 & Hc1 & HK1 & HN1).
  { destruct (decide (k ∈ lru_Keys l)) as [Hin|Hin].
    { destruct (lru_Add_hit l k Hok Hin) as (l1 & Ha & Hok1 & Hc1 & Hk1).
      exists l1, None, (except k O), (except k N ++ [k]). rewrite Hk1, HK, except_app, <- app_assoc.
      split_and!; try done. intros x. rewrite elem_of_app, elem_of_except, list_elem_of_singleton.
      destruct (decide (x = k)); naive_solver. }
    destruct (decide (length (lru_Keys l) < lru_cap l)%nat) as [Hlt|Hge].
    { destruct (lru_Add_room l k Hok Hin Hlt) as (l1 & Ha & Hok1 & Hc1 & Hk1).
      exists l1, None, O, (N ++ [k]). rewrite Hk1, HK, <- app_assoc. split_and!; try done. set_solver. }
    destruct O as [|old O].
    { exfalso. simpl in HK. assert (NoDup (N ++ [k])) as HndN.
      { rewrite HK in Hnd, Hin. apply NoDup_app. split; [done|]. split; [set_solver +Hin|apply NoDup_singleton]. }
      assert (N ++ [k] ⊆ D) as Hin' by (intros x Hx; apply Hsub; set_solver +Hx).
      apply NoDup_submseteq, submseteq_length in Hin'; [|done].
      rewrite length_app in Hin'. simpl in Hin'. rewrite HK in Hge. lia. }
    destruct (lru_Add_full l k old (O ++ N)) as (l1 & Ha & Hok1 & Hc1 & Hk1); [done..|lia|].
    exists l1, (Some old), O, (N ++ [k]). rewrite Hk1, <- app_assoc. split_and!; try done. set_solver. }
  rewrite Ha. intros Hrun. destruct (IH l1 (on_evict pod m ev) O1 N1 Hok1 HD ltac:(lia)) as (O' & N' & HK' & HN'); [|done..|].
  - intros y. rewrite elem_of_app, HN1. intros Hy. apply Hsub. set_solver +Hy.
  - exists O', N'. split; [done|]. intros x. rewrite HN', !elem_of_app, elem_of_cons, HN1. tauto.
Qed.

(** * Invariants of the index *)

(** The caches are what the library makes of them, and what a cache holds the
    inverse map knows. *)
Definition idx_sound (i : indexer) : Prop :=
  forall pod o, podToLRU i !! pod = Some o ->
    exists l, o = Some l /\ lru_ok l /\ (0 < lru_cap l)%nat /\ forall h, h ∈ lru_Keys l -> pod ∈ Get i h.

(** The inverse map knows nothing else. *)
Definition idx_exact (i : indexer) : Prop :=
  idx_sound i /\
  forall pod h, pod ∈ Get i h -> exists l, podToLRU i !! pod = Some (Some l) /\ h ∈ lru_Keys l.

(** The capacity the pod's cache has, or will be created with. *)
Definition pod_capacity (i : indexer) (pod : server) : Z :=
  match podToLRU i !! sv_id pod with
  | Some (Some l) => Z.of_nat (lru_cap l)
  | _ => lruSize i pod
  end.

Definition fits (i : indexer) (hashes : list Z) (pod : server) : Prop :=
  Z.of_nat (length (remove_dups hashes)) <= pod_capacity i pod.

(** The cache an addition works on. *)
Lemma Add_cache i pod :
  idx_sound i -> 0 < pod_capacity i pod ->
  exists l, (match podToLRU i !! sv_id pod with Some l => l | None => lru_New (lruSize i pod) end) = Some l /\
    lru_ok l /\ (0 < lru_cap l)%nat /\ Z.of_nat (lru_cap l) = pod_capacity i pod /\
    (forall h, h ∈ lru_Keys l -> sv_id pod ∈ Get i h) /\
    (idx_exact i -> forall h, sv_id pod ∈ Get i h -> h ∈ lru_Keys l).
Proof.
  intros Hs. unfold pod_capacity. destruct (podToLRU i !! sv_id pod) as [o|] eqn:E.
  - destruct (Hs _ _ E) as (l & -> & Hok & Hcap & Hk). intros _. exists l. split_and!; try done.
    intros [_ Hex] h Hh. destruct (Hex _ _ Hh) as (l' & Hl' & ?). by simplify_eq.
  - intros Hpos. destruct (lru_New_ok _ Hpos) as (l & -> & Hok & Hkeys & Hcap). exists l.
    split_and!; try done; [lia|lia| |].
    + intros h. rewrite Hkeys. by intros ?%not_elem_of_nil.
    + intros [_ Hex] h Hh. destruct (Hex _ _ Hh) as (l' & Hl' & ?). by simplify_eq.
Qed.

Lemma Add_eq i hashes pod l l' m' :
  (match podToLRU i !! sv_id pod with Some l => l | None => lru_New (lruSize i pod) end) = Some l ->
  lru_add_all (sv_id pod) hashes (l, hashToPods i) = (l', m') ->
  Add i hashes pod = Some {| hashToPods := record_all (sv_id pod) hashes m';
                             podToLRU := <[sv_id pod := Some l']> (podToLRU i);
                             defaultLRUSize := defaultLRUSize i |}.
Proof.
  unfold Add. intros -> Hrun. destruct hashes as [|h hs].
  - by injection Hrun as -> ->.
  - by rewrite Hrun.
Qed.

(** An addition never panics on a positive capacity, records the pod for every
    hash, leaves the other pods alone, and keeps the index exact when the
    hashes fit. *)
Lemma Add_ok i hashes pod :
  idx_sound i -> 0 < pod_capacity i pod ->
  exists i', Add i hashes pod = Some i' /\ idx_sound i' /\
    (forall h, h ∈ hashes -> sv_id pod ∈ Get i' h) /\
    (idx_exact i -> fits i hashes pod -> idx_exact i') /\
    (forall p h, p <> sv_id pod -> p ∈ Get i' h <-> p ∈ Get i h).
Proof.
  intros Hs Hpos. destruct (Add_cache i pod Hs Hpos) as (l & Hl & Hok & Hcap & Hc & Hin & Hout).
  destruct (lru_add_all (sv_id pod) hashes (l, hashToPods i)) as [l' m'] eqn:Hrun.
  rewrite (Add_eq _ _ _ _ _ _ Hl Hrun). eexists. split; [done|].
  destruct (lru_add_all_spec _ _ _ _ _ _ [] Hok Hcap Hrun) as (Hok' & Hc' & Hi & Hii & Hother).
  set (i' := {| hashToPods := _ |}).
  assert (forall p h, p ∈ Get i' h <-> p ∈ pods_of m' h \/ (h ∈ hashes /\ p = sv_id pod)) as HG
    by (intros; apply record_all_spec).
  assert (forall p h, p <> sv_id pod -> p ∈ Get i' h <-> p ∈ Get i h) as Hoth.
  { intros p h Hne. rewrite HG, (Hother p h Hne). naive_solver. }
  assert (idx_sound i') as Hs'.
  { intros p o. destruct (decide (p = sv_id pod)) as [->|Hne]; unfold i'; simpl.
    - rewrite lookup_insert_eq. intros [= <-]. exists l'. split; [done|]. split; [done|]. split; [lia|].
      intros h Hh. apply HG. destruct (Hii ltac:(intros; left; by apply Hin) h Hh) as [?|?]; [by left|by right].
    - rewrite lookup_insert_ne by done. intros (lp & -> & ? & ? & Hk)%Hs. exists lp. split_and!; try done.
      intros h Hh. apply Hoth; [done|]. by apply Hk. }
  split; [done|]. split; [intros h Hh; apply HG; by right|]. split; [|done].
  intros Hex Hfit. split; [done|]. intros p h Hp. destruct (decide (p = sv_id pod)) as [->|Hne].
  - exists l'. split; [apply lookup_insert_eq|]. apply HG in Hp as [Hp|[Hh _]].
    + apply Hi; [|done]. intros h' Hh'. by apply Hout.
    + destruct (lru_add_all_recent (sv_id pod) hashes l (hashToPods i) l' m' (remove_dups hashes) (lru_Keys l) [] Hok
        (NoDup_remove_dups _)) as (O' & N' & -> & HN'); [| | |done|].
      * unfold fits in Hfit. lia.
      * intros x. by rewrite elem_of_remove_dups.
      * by rewrite app_nil_r.
      * apply elem_of_app. right. by apply HN'.
  - apply Hoth in Hp; [|done]. destruct Hex as [_ Hex]. destruct (Hex p h Hp) as (lp & Hlp & ?).
    exists lp. split; [|done]. unfold i'. simpl. by rewrite lookup_insert_ne.
Qed.

(** Removing the keys of a cache takes the pod off each of them. *)
Lemma lru_remove_all_spec pod ks l m l' m' :
  lru_ok l -> NoDup ks -> (forall k, k ∈ ks -> k ∈ lru_Keys l) ->
  lru_remove_all pod ks (l, m) = (l', m') ->
  forall p h, p ∈ pods_of m' h <-> p ∈ pods_of m h /\ ~ (h ∈ ks /\ p = pod).
Proof.
  unfold lru_remove_all. revert l m. induction ks as [|k ks IH]; intros l m Hok Hnd Hin; simpl.
  - intros [= _ <-] p h. rewrite elem_of_nil. naive_solver.
  - apply NoDup_cons in Hnd as [Hk Hnd].
    destruct (lru_Remove_ok l k Hok) as (l1 & -> & Hok1 & _ & HK1).
    rewrite bool_decide_eq_true_2 by (apply Hin; left). simpl. intros Hrun p h.
    rewrite (IH l1 (evictionFn pod m k)) with (p := p) (h := h); [|done|done| |done].
    + rewrite evictionFn_spec, elem_of_cons. clear. destruct (decide (h = k)); naive_solver.
    + intros k' Hk'. rewrite HK1, elem_of_except. split; [apply Hin; by right|]. by intros ->.
Qed.

Lemma RemovePod_ok i pod :
  idx_sound i ->
  exists i', RemovePod i pod = Some i' /\ idx_sound i' /\ podToLRU i' = delete pod (podToLRU i) /\
    (forall p h, p <> pod -> p ∈ Get i' h <-> p ∈ Get i h) /\
    (forall h, pod ∈ Get i' h <-> pod ∈ Get i h /\
       forall l, podToLRU i !! pod = Some (Some l) -> h ∉ lru_Keys l).
Proof.
  intros Hs. unfold RemovePod. destruct (podToLRU i !! pod) as [o|] eqn:E.
  - destruct (Hs _ _ E) as (l & -> & Hok & Hcap & Hk). destruct (lru_nodup l Hok) as [Hnd _].
    destruct (lru_remove_all pod (lru_Keys l) (l, hashToPods i)) as [l' m'] eqn:Hrun.
    pose proof (lru_remove_all_spec _ _ _ _ _ _ Hok Hnd ltac:(done) Hrun) as Hm.
    eexists. split; [done|]. set (i' := {| hashToPods := _ |}).
    assert (forall p h, p <> pod -> p ∈ Get i' h <-> p ∈ Get i h) as Hoth.
    { intros p h Hne. unfold Get at 1. simpl. fold (pods_of m' h). rewrite Hm. unfold pods_of, Get. naive_solver. }
    split; [|split; [done|split; [done|]]].
    + intros p o Hpo. change (podToLRU i') with (delete pod (podToLRU i)) in Hpo.
      apply lookup_delete_Some in Hpo as [Hne Hp]. destruct (Hs _ _ Hp) as (lp & -> & ? & ? & Hkp).
      exists lp. split_and!; try done. intros h Hh. apply Hoth; [done|]. by apply Hkp.
    + intros h. unfold Get at 1. simpl. fold (pods_of m' h). rewrite Hm. unfold pods_of, Get. naive_solver.
  - exists i. split; [done|]. split; [done|]. split; [by rewrite delete_id|]. split; [done|].
    intros h. split; [|naive_solver]. intros Hp. split; [done|]. intros l [=].
Qed.

Lemma RemovePod_exact i pod i' :
  idx_exact i -> RemovePod i pod = Some i' -> idx_exact i' /\ forall h, pod ∉ Get i' h.
Proof.
  intros [Hs Hex] Hr. destruct (RemovePod_ok i pod Hs) as (i1 & Hr1 & Hs1 & Hp1 & Hoth & Hpod).
  rewrite Hr in Hr1. injection Hr1 as <-.
  assert (forall h, pod ∉ Get i' h) as Hno.
  { intros h [Hp Hl]%Hpod. destruct (Hex _ _ Hp) as (l & Hlk & Hh). by apply (Hl l). }
  split; [|done]. split; [done|]. intros p h Hp.
  assert (p <> pod) as Hne by (intros ->; by apply (Hno h)).
  apply Hoth in Hp; [|done]. destruct (Hex _ _ Hp) as (l & Hlk & Hh).
  exists l. split; [|done]. by rewrite Hp1, lookup_delete_ne.
Qed.

(** ** What stays in a cache *)

(** The cache of [pod] has room for the distinct hashes [D], of which its newest
    keys are some, all of [N] among them. *)
Definition recent (i : indexer) (pod : ServerID) (D N : list Z) : Prop :=
  exists l O N', podToLRU i !! pod = Some (Some l) /\ (length D <= lru_cap l)%nat /\
    lru_Keys l = O ++ N' /\ (forall x, x ∈ N' -> x ∈ D) /\ (forall x, x ∈ N -> x ∈ N').

Lemma recent_found i pod D N h : idx_sound i -> recent i pod D N -> h ∈ N -> pod ∈ Get i h.
Proof.
  intros Hs (l & O & N' & Hl & _ & HK & _ & HN) Hh. destruct (Hs _ _ Hl) as (l' & [= <-] & _ & _ & Hk).
  apply Hk. rewrite HK. apply elem_of_app. right. by apply HN.
Qed.

Lemma recent_same i i' pod D N : podToLRU i' !! pod = podToLRU i !! pod -> recent i pod D N -> recent i' pod D N.
Proof. intros Heq (l & O & N' & Hl & Hr). exists l, O, N'. by rewrite Heq. Qed.

Lemma Add_recent i hashes pod D N i' :
  idx_sound i -> 0 < pod_capacity i pod -> NoDup D -> (forall x, x ∈ hashes -> x ∈ D) ->
  N = [] /\ Z.of_nat (length D) <= pod_capacity i pod \/ recent i (sv_id pod) D N ->
  Add i hashes pod = Some i' -> recent i' (sv_id pod) D (N ++ hashes).
Proof.
  intros Hs Hpos HD Hsub Hrec. destruct (Add_cache i pod Hs Hpos) as (l & Hl & Hok & Hcap & Hc & _ & _).
  assert (exists O N', lru_Keys l = O ++ N' /\ (length D <= lru_cap l)%nat /\ (forall x, x ∈ N' -> x ∈ D) /\
            (forall x, x ∈ N -> x ∈ N')) as (O & N1 & HK & Hfit & HN1 & HN).
  { destruct Hrec as [[-> Hfit]|(l1 & O & N1 & Hl1 & Hfit & HK & HN1 & HN)].
    - exists (lru_Keys l), []. rewrite app_nil_r. split_and!; [done|lia|by intros x ?%not_elem_of_nil|done].
    - rewrite Hl1 in Hl. injection Hl as <-. by exists O, N1. }
  destruct (lru_add_all (sv_id pod) hashes (l, hashToPods i)) as [l' m'] eqn:Hrun.
  rewrite (Add_eq _ _ _ _ _ _ Hl Hrun). intros [= <-].
  destruct (lru_add_all_recent (sv_id pod) hashes l (hashToPods i) l' m' D O N1 Hok HD Hfit) as (O' & N' & HK' & HN'); [|done..|].
  { intros x [?|?]%elem_of_app; auto. }
  destruct (lru_add_all_spec _ _ _ _ _ _ [] Hok Hcap Hrun) as (_ & Hc' & _).
  exists l', O', N'. cbn [podToLRU]. rewrite lookup_insert_eq. split_and!; [done|lia|done| |].
  - intros x [?|?]%HN'%elem_of_app; auto.
  - intros x [?|?]%elem_of_app; apply HN', elem_of_app; auto.
Qed.

Lemma Add_others i hashes pod i' p :
  Add i hashes pod = Some i' -> p <> sv_id pod -> podToLRU i' !! p = podToLRU i !! p.
Proof.
  unfold Add. intros Ha Hne. destruct hashes as [|h hashes].
  - injection Ha as <-. cbn [podToLRU]. by rewrite lookup_insert_ne.
  - destruct (match podToLRU i !! sv_id pod with Some l => l | None => _ end) as [l|]; [|done].
    destruct (lru_add_all _ _ _) as [l' m']. injection Ha as <-. cbn [podToLRU]. by rewrite lookup_insert_ne.
Qed.

(** A clean-up leaves the caches of active pods alone. *)
Lemma cleanUp_keeps active i i' pod :
  idx_sound i -> cleanUpInactivePods active i = Some i' -> pod ∈ active ->
  idx_sound i' /\ podToLRU i' !! pod = podToLRU i !! pod.
Proof.
  unfold cleanUpInactivePods. generalize (Pods i). intros ps. revert i. induction ps as [|q ps IH]; intros i Hs.
  { intros [= <-]. done. }
  cbn [ofold]. case_decide as Hq; [by apply IH|]. destruct (RemovePod_ok i q Hs) as (i1 & -> & Hs1 & Hp1 & _).
  cbn [mbind option_bind]. intros Hrun Hact. destruct (IH i1 Hs1 Hrun Hact) as [Hs' Heq]. split; [done|].
  rewrite Heq, Hp1. apply lookup_delete_ne. by intros ->.
Qed.

End Laws.
