(* ===== verification/PrefixClaims.v ===== *)
(** The claims on the prefix cache: the hash chain, the index under sequences
    of operations, matching, and the path of a prompt through the plugin.  The
    samples use a list as the cache library, which satisfies its laws. *)

From S2P Require Import Prelude PrefixIndexer PrefixHash PrefixPlugin PrefixProps.

(** * The hash chain *)

Section Hash.

Context {V : Type} (Marshal : marshalled V -> option bytes) (Sum64 : bytes -> Z).

Lemma hash_loop_chain fuel u size k prev res :
  (0 < size)%nat -> (length u <= fuel + k * size)%nat ->
  hash_loop Sum64 fuel u size (k * size) prev res =
    Some (res ++ chain Sum64 u size k (length u / size - k) prev).
Proof.
  intros Hs. revert k prev res. induction fuel as [|fuel IH]; intros k prev res Hf; cbn [hash_loop].
  - rewrite (proj2 (Nat.leb_gt _ _)) by lia.
    assert (length u / size <= k)%nat by (apply Nat.Div0.div_le_upper_bound; lia).
    replace (length u / size - k)%nat with 0%nat by lia. simpl. by rewrite app_nil_r.
  - destruct (Nat.leb_spec (k * size + size) (length u)) as [Hle|Hgt].
    + replace (k * size + size)%nat with (S k * size)%nat by lia. rewrite IH by lia.
      assert (S k <= length u / size)%nat as Hk by (apply Nat.div_le_lower_bound; lia).
      replace (length u / size - k)%nat with (S (length u / size - S k)) by lia. simpl.
      by rewrite <- app_assoc.
    + assert (length u / size < S k)%nat by (apply Nat.Div0.div_lt_upper_bound; lia).
      replace (length u / size - k)%nat with 0%nat by lia. simpl. by rewrite app_nil_r.
Qed.

Lemma length_chain u size k n prev : length (chain Sum64 u size k n prev) = n.
Proof. revert k prev. induction n as [|n IH]; intros k prev; simpl; [done|]. by rewrite IH. Qed.

(** The chain of the first blocks reads nothing beyond them. *)
Lemma chain_ext u v size k n prev :
  take ((k + n) * size) u = take ((k + n) * size) v ->
  chain Sum64 u size k n prev = chain Sum64 v size k n prev.
Proof.
  revert k prev. induction n as [|n IH]; intros k prev Heq; simpl; [done|].
  assert (block u size k = block v size k) as ->.
  { unfold block. rewrite !take_drop_commute. f_equal.
    apply (f_equal (take (k * size + size))) in Heq. rewrite !take_take in Heq.
    by replace (Nat.min (k * size + size) ((k + S n) * size)) with (k * size + size)%nat in Heq by nia. }
  f_equal. apply IH. by replace (S k + n)%nat with (k + S n)%nat by lia.
Qed.

Lemma take_chain u size k n m prev :
  (m <= n)%nat -> take m (chain Sum64 u size k n prev) = chain Sum64 u size k m prev.
Proof.
  revert k n prev. induction m as [|m IH]; intros k n prev Hm; [done|].
  destruct n as [|n]; [lia|]. simpl. f_equal. apply IH. lia.
Qed.

(** On a usable configuration the hashes of a prompt are the chain of its full
    blocks, up to the configured number of blocks. *)
Lemma hashPrompt_chain request b u blockSizeTokens maxPrefixBlocks :
  Body V request = Some b -> getUserInputBytes V Marshal b = inl u ->
  0 < blockSizeTokens -> 0 <= maxPrefixBlocks ->
  blockSizeTokens * 4 < two63 -> blockSizeTokens * 4 * maxPrefixBlocks < two63 ->
  let size := Z.to_nat (blockSizeTokens * 4) in
  hashPrompt V Marshal Sum64 (Some request) blockSizeTokens maxPrefixBlocks =
    Some (chain Sum64 u size 0 (Nat.min (length u / size) (Z.to_nat maxPrefixBlocks)) (seed V Sum64 request b)).
Proof.
  intros Hb Hu Hbs Hmax Hov Hov'. simpl. rewrite Hb, Hu. unfold averageCharactersPerToken.
  rewrite !i64_id by (unfold is_i64; nia). rewrite (Z.mul_comm maxPrefixBlocks).
  set (size := Z.to_nat (blockSizeTokens * 4)). set (sd := seed V Sum64 request b).
  rewrite (proj2 (Z.leb_gt _ _)) by lia.
  assert (0 < size)%nat as Hs by lia.
  destruct (Z.ltb_spec (Z.of_nat (length u)) (blockSizeTokens * 4)) as [Hlt|Hge].
  { rewrite Nat.div_small by lia. done. }
  assert (forall v, hash_loop Sum64 (length v) v size 0 sd [] = Some (chain Sum64 v size 0 (length v / size) sd)) as Hloop.
  { intros v. pose proof (hash_loop_chain (length v) v size 0 sd [] Hs ltac:(lia)) as Hc.
    by rewrite Nat.sub_0_r in Hc. }
  destruct (Z.ltb_spec (blockSizeTokens * 4 * maxPrefixBlocks) (Z.of_nat (length u))) as [Htr|Hfull].
  - rewrite (proj2 (Z.ltb_ge _ _)) by nia. simpl. rewrite Hloop, length_take.
    replace (Nat.min (Z.to_nat (blockSizeTokens * 4 * maxPrefixBlocks)) (length u))
      with (Z.to_nat maxPrefixBlocks * size)%nat by nia.
    rewrite Nat.div_mul by lia.
    assert (Z.to_nat maxPrefixBlocks <= length u / size)%nat by (apply Nat.div_le_lower_bound; nia).
    rewrite Nat.min_r by done. f_equal. apply chain_ext. rewrite take_take. f_equal. nia.
  - simpl. rewrite Hloop. rewrite Nat.min_l; [done|]. apply Nat.Div0.div_le_upper_bound. nia.
Qed.

(** Prompts that agree on the first [k] blocks have the same first [k] hashes. *)
Lemma chain_common u v size k n m prev :
  take (k * size) u = take (k * size) v -> (k <= n)%nat -> (k <= m)%nat ->
  take k (chain Sum64 u size 0 n prev) = take k (chain Sum64 v size 0 m prev).
Proof. intros Heq Hn Hm. rewrite !take_chain by done. by apply chain_ext. Qed.

End Hash.

(** * Matching *)

Section Match.

Context {L : Type} `{!LRU L} `{!LRULaws L}.
Implicit Types i : @indexer L.

(** The leading hashes that some server has. *)
Fixpoint lead i (hashes : list Z) : list Z :=
  match hashes with
  | [] => []
  | h :: hashes => if decide (Get i h = ∅) then [] else h :: lead i hashes
  end.

Lemma bump_all (l : list ServerID) res s :
  NoDup l -> default 0 (foldl bump res l !! s) = default 0 (res !! s) + if decide (s ∈ l) then 1 else 0.
Proof.
  revert res. induction l as [|x l IH]; intros res Hnd; cbn [foldl].
  - rewrite decide_False by apply not_elem_of_nil. lia.
  - apply NoDup_cons in Hnd as [Hx Hnd]. rewrite IH by done. unfold bump.
    destruct (decide (s = x)) as [->|Hne].
    + rewrite lookup_insert_eq, (decide_False (P := x ∈ l)), decide_True by (done || left). simpl. lia.
    + rewrite lookup_insert_ne by done. f_equal. apply decide_ext. rewrite elem_of_cons. naive_solver.
Qed.

(** The count of a server: the leading hashes it has. *)
Lemma match_counts i hashes s :
  default 0 (matchLongestPrefix i hashes !! s) = Z.of_nat (length (filter (fun h => s ∈ Get i h) (lead i hashes))).
Proof.
  unfold matchLongestPrefix.
  enough (forall res, default 0 (match_loop i hashes res !! s) =
    default 0 (res !! s) + Z.of_nat (length (filter (fun h => s ∈ Get i h) (lead i hashes)))) as ->
    by (rewrite lookup_empty; simpl; lia).
  induction hashes as [|h hashes IH]; intros res; cbn [match_loop lead].
  - simpl. lia.
  - case_decide as Hd; [simpl; lia|]. rewrite IH, bump_all by apply NoDup_elements.
    rewrite filter_cons.
    case_decide as H1; case_decide as H2; rewrite elem_of_elements in H1; simpl; try done; lia.
Qed.

Lemma lead_prefix i hashes k :
  (forall h, h ∈ take k hashes -> Get i h <> ∅) -> exists rest, lead i hashes = take k hashes ++ rest.
Proof.
  revert hashes. induction k as [|k IH]; intros hashes Hk; [by eexists|].
  destruct hashes as [|h hashes]; [by eexists|]. cbn [lead take] in *.
  rewrite decide_False by (apply Hk; left). destruct (IH hashes) as [rest ->]; [|by eexists].
  intros x Hx. apply Hk. by right.
Qed.

(** A server that has the first [k] hashes is credited with [k] at least. *)
Lemma match_at_least i hashes k s :
  (k <= length hashes)%nat -> (forall h, h ∈ take k hashes -> s ∈ Get i h) ->
  Z.of_nat k <= default 0 (matchLongestPrefix i hashes !! s).
Proof.
  intros Hk Hs. rewrite match_counts. destruct (lead_prefix i hashes k) as [rest ->].
  { intros h Hh%Hs. set_solver +Hh. }
  rewrite filter_app, length_app. rewrite (filter_id (fun h => s ∈ Get i h) (take k hashes)) by done.
  rewrite length_take. lia.
Qed.

End Match.

(** * Recording the servers of a request *)

Section Record.

Context {L : Type} `{!LRU L} `{!LRULaws L}.
Implicit Types i : @indexer L.

Lemma makeserver_spec c ep s :
  makeserver c ep = Some s -> sv_id s = ep_id ep /\ 0 < NumOfGPUBlocks s.
Proof.
  unfold makeserver, defaultLRUCapacityPerServer. destruct (AutoTune c); [destruct (ep_metrics ep) as [m|]|]; simpl;
    [|done|by intros [= <-]].
  destruct (Z.ltb_spec 0 (CacheNumBlocks m)); by intros [= <-].
Qed.

Lemma capacity_pos i s : idx_sound i -> 0 < NumOfGPUBlocks s -> 0 < pod_capacity i s.
Proof.
  intros Hs Hn. unfold pod_capacity, lruSize. rewrite (proj2 (Z.leb_gt _ _) Hn).
  destruct (podToLRU i !! sv_id s) as [[l|]|] eqn:E; [|done..].
  destruct (Hs _ _ E) as (l' & [= <-] & _ & ? & _). lia.
Qed.

Lemma record_servers hashes servers i :
  idx_sound i -> (forall s, s ∈ servers -> 0 < NumOfGPUBlocks s) ->
  exists i', ofold (fun i s => Add i hashes s) servers i = Some i' /\ idx_sound i' /\
    (forall s h, s ∈ servers -> h ∈ hashes -> sv_id s ∈ Get i' h) /\
    (forall p h, h ∈ hashes -> p ∈ Get i h -> p ∈ Get i' h).
Proof.
  revert i. induction servers as [|s servers IH]; intros i Hs Hn.
  - exists i. split; [done|]. split; [done|]. split; [by intros ? ? ?%not_elem_of_nil|done].
  - destruct (Add_ok i hashes s Hs (capacity_pos i s Hs (Hn s ltac:(left)))) as (i1 & Ha & Hs1 & Hin & _ & Hoth).
    destruct (IH i1 Hs1) as (i' & Hrun & Hs' & Hall & Hmono); [intros; apply Hn; by right|].
    exists i'. cbn [ofold mbind option_bind]. rewrite Ha. split; [done|]. split; [done|]. split.
    + intros s' h [->|Hs'']%elem_of_cons Hh; [|by apply Hall]. apply Hmono; [done|]. by apply Hin.
    + intros p h Hh Hp. apply Hmono; [done|]. destruct (decide (p = sv_id s)) as [->|Hne]; [by apply Hin|].
      by apply Hoth.
Qed.

Lemma target_servers_spec c results target servers :
  target_servers c results target = Some servers ->
  (exists s, s ∈ servers /\ sv_id s = ep_id target) /\ forall s, s ∈ servers -> 0 < NumOfGPUBlocks s.
Proof.
  unfold target_servers. rewrite bind_Some. intros (s & Hs & Hr).
  destruct (makeserver_spec _ _ _ Hs) as [Hid Hpos].
  assert (servers = [s] \/ exists ep s', makeserver c ep = Some s' /\ servers = [s; s']) as Hcases.
  { repeat case_match; simplify_eq; auto. apply bind_Some in Hr as (s' & Hs' & [= <-]). eauto. }
  destruct Hcases as [-> | (ep & s' & Hs' & ->)].
  - split; [exists s; split; [left|done]|]. by intros ? ->%list_elem_of_singleton.
  - destruct (makeserver_spec _ _ _ Hs') as [_ Hpos']. split; [exists s; split; [left|done]|].
    by intros x [-> | ->%list_elem_of_singleton]%elem_of_cons.
Qed.

Lemma match_at_most i hashes s :
  default 0 (matchLongestPrefix i hashes !! s) <= Z.of_nat (length hashes).
Proof.
  rewrite match_counts. enough (length (lead i hashes) <= length hashes)%nat.
  { pose proof (length_filter (fun h => s ∈ Get i h) (lead i hashes)). lia. }
  induction hashes as [|h hashes IH]; simpl; [done|]. case_decide; simpl; lia.
Qed.

End Record.

(** * A cache library for the samples *)

Record listLRU := { ll_keys : list Z; ll_cap : nat }.

Definition ll_New (n : Z) : option listLRU :=
  if Z.ltb 0 n then Some {| ll_keys := []; ll_cap := Z.to_nat n |} else None.

Definition ll_Add (l : listLRU) (k : Z) : listLRU * option Z :=
  if decide (k ∈ ll_keys l) then ({| ll_keys := except k (ll_keys l) ++ [k]; ll_cap := ll_cap l |}, None)
  else if Nat.ltb (length (ll_keys l)) (ll_cap l)
  then ({| ll_keys := ll_keys l ++ [k]; ll_cap := ll_cap l |}, None)
  else ({| ll_keys := tail (ll_keys l) ++ [k]; ll_cap := ll_cap l |}, head (ll_keys l)).

Definition ll_Remove (l : listLRU) (k : Z) : listLRU * bool :=
  ({| ll_keys := except k (ll_keys l); ll_cap := ll_cap l |}, bool_decide (k ∈ ll_keys l)).

#[global] Instance listLRU_ops : LRU listLRU :=
  {| lru_New := ll_New; lru_Add := ll_Add; lru_Remove := ll_Remove; lru_Keys := ll_keys |}.

Definition ll_ok (l : listLRU) : Prop := NoDup (ll_keys l) /\ (length (ll_keys l) <= ll_cap l)%nat.

Lemma length_except k (l : list Z) : NoDup l -> k ∈ l -> S (length (except k l)) = length l.
Proof.
  intros Hnd (l1 & l2 & ->)%list_elem_of_split. unfold except.
  rewrite filter_app, filter_cons_False by auto.
  apply NoDup_app in Hnd as (_ & Hd & [Hk _]%NoDup_cons).
  rewrite (filter_id _ l1), (filter_id _ l2).
  - rewrite !length_app. simpl. lia.
  - intros x Hx ->. done.
  - intros x Hx ->. apply (Hd k Hx). left.
Qed.

Lemma ll_snoc_ok l k cap : NoDup l -> k ∉ l -> (length l < cap)%nat -> ll_ok {| ll_keys := l ++ [k]; ll_cap := cap |}.
Proof.
  intros Hnd Hk Hlen. split; simpl.
  - apply NoDup_app. split; [done|]. split; [set_solver +Hk|apply NoDup_singleton].
  - rewrite length_app. simpl. lia.
Qed.

#[global, refine] Instance listLRU_laws : LRULaws listLRU := {| lru_ok := ll_ok; lru_cap := ll_cap |}.
Proof.
  - by intros l.
  - intros n Hn. simpl. unfold ll_New. rewrite (proj2 (Z.ltb_lt _ _) Hn). eexists.
    split; [done|]. split; [|done]. split; [constructor|simpl; lia].
  - intros n Hn. simpl. unfold ll_New. by rewrite (proj2 (Z.ltb_ge _ _) Hn).
  - intros l k [Hnd Hlen] Hk. simpl in *. unfold ll_Add. rewrite decide_True by done.
    eexists. split; [done|]. split; [|done]. pose proof (length_except k _ Hnd Hk).
    apply ll_snoc_ok; [by apply NoDup_filter|by intros [_ ?]%elem_of_except|lia].
  - intros l k [Hnd Hlen] Hk Hlt. simpl in *. unfold ll_Add. rewrite decide_False by done.
    rewrite (proj2 (Nat.ltb_lt _ _) Hlt). eexists. split; [done|]. split; [|done]. by apply ll_snoc_ok.
  - intros l k old rest [Hnd Hlen] Hk Heq Hfull. simpl in *. unfold ll_Add. rewrite decide_False by done.
    rewrite (proj2 (Nat.ltb_ge _ _)) by lia. eexists. rewrite Heq. split; [done|]. split; [|done].
    rewrite Heq in *. apply NoDup_cons in Hnd as [_ Hnd]. apply ll_snoc_ok; [done|set_solver +Hk|].
    simpl in *. lia.
  - intros l k [Hnd Hlen]. simpl in *. eexists. split; [done|]. split; [|done]. split; simpl.
    + by apply NoDup_filter.
    + unfold except. pose proof (length_filter (fun x => x <> k) (ll_keys l)). lia.
Defined.

(** * The index under sequences of operations *)

Section Reach.

Context {L : Type} `{!LRU L} `{!LRULaws L}.

(** The states of an index whose additions fit the caches. *)
Inductive idx_reach : @indexer L -> Prop :=
  | reach_new n : 0 < n -> idx_reach (newIndexer n)
  | reach_add i hashes pod i' :
      idx_reach i -> 0 < pod_capacity i pod -> fits i hashes pod ->
      Add i hashes pod = Some i' -> idx_reach i'
  | reach_remove i pod i' : idx_reach i -> RemovePod i pod = Some i' -> idx_reach i'.

Lemma new_exact n : idx_exact (newIndexer n).
Proof.
  split; [by intros pod o ?|]. intros pod h Hp. unfold Get in Hp. simpl in Hp.
  rewrite lookup_empty in Hp. simpl in Hp. set_solver +Hp.
Qed.

Lemma reach_exact i : idx_reach i -> idx_exact i.
Proof.
  induction 1 as [n Hn|i hashes pod i' _ IH Hcap Hfit Ha|i pod i' _ IH Hr].
  - apply new_exact.
  - destruct (Add_ok i hashes pod (proj1 IH) Hcap) as (i1 & Ha1 & _ & _ & Hex & _).
    rewrite Ha in Ha1. injection Ha1 as <-. auto.
  - by destruct (RemovePod_exact i pod i' IH Hr).
Qed.

Lemma cleanUp_ok active i :
  idx_exact i -> exists i', cleanUpInactivePods active i = Some i' /\ idx_exact i' /\
    forall pod h, pod ∈ Get i' h -> pod ∈ active.
Proof.
  intros Hex. unfold cleanUpInactivePods.
  destruct (ofold_total (fun i pod => if decide (pod ∈ active) then Some i else RemovePod i pod)
    (fun l i => idx_exact i /\ forall pod, is_Some (podToLRU i !! pod) -> pod ∈ active \/ pod ∈ l)
    (Pods i) i) as (i' & Hrun & Hex' & Hdom).
  - intros pod l j [Hj Hd]. case_decide as Hact.
    + exists j. split; [done|]. split; [done|]. intros p Hp. destruct (Hd p Hp) as [?|[-> | ?]%elem_of_cons]; auto.
    + destruct (RemovePod_ok j pod (proj1 Hj)) as (j' & Hr & _ & Hp' & _). exists j'. split; [done|].
      destruct (RemovePod_exact j pod j' Hj Hr) as [Hj' _]. split; [done|].
      intros p. rewrite Hp', lookup_delete_is_Some. intros [Hne Hp].
      destruct (Hd p Hp) as [?|[-> | ?]%elem_of_cons]; [by left|done|by right].
  - split; [done|]. intros pod [o Ho]. right. unfold Pods. apply list_elem_of_fmap.
    exists (pod, o). by rewrite elem_of_map_to_list.
  - exists i'. split; [done|]. split; [done|]. intros pod h Hp.
    destruct (proj2 Hex' pod h Hp) as (l & Hl & _).
    destruct (Hdom pod) as [?|[]%not_elem_of_nil]; [by exists (Some l)|done].
Qed.

End Reach.

(** * Claims *)

(** C40: While every addition fits the server's cache, whose capacity is positive, the
    index is exactly the inverse of the caches: a server is returned for a hash if and only if its
    cache holds the hash. Removing a server takes it off every hash, and a
    clean-up leaves only active servers; none of these operations panics. *)
Theorem index_mirrors_caches {L} `{!LRU L} `{!LRULaws L} (i : @indexer L) :
  idx_reach i ->
  (forall pod h, pod ∈ Get i h <-> exists l, podToLRU i !! pod = Some (Some l) /\ h ∈ lru_Keys l) /\
  (forall pod, exists i', RemovePod i pod = Some i' /\ forall h, pod ∉ Get i' h) /\
  (forall active, exists i', cleanUpInactivePods active i = Some i' /\
     forall pod h, pod ∈ Get i' h -> pod ∈ active).
Proof.
  intros Hr%reach_exact. split; [|split].
  - intros pod h. split; [apply Hr|]. intros (l & Hl & Hh).
    destruct (proj1 Hr _ _ Hl) as (l' & [= <-] & _ & _ & Hk). by apply Hk.
  - intros pod. destruct (RemovePod_ok i pod (proj1 Hr)) as (i' & Hrm & _). exists i'. split; [done|].
    by destruct (RemovePod_exact i pod i' Hr Hrm).
  - intros active. destruct (cleanUp_ok active i Hr) as (i' & ? & _ & ?). by exists i'.
Qed.

Definition sample_pod (n : string) : ServerID := {| sv_Namespace := "ns"; sv_Name := n |}.
Definition sample_server (n : string) (cap : Z) : server := {| sv_id := sample_pod n; NumOfGPUBlocks := cap |}.

(** Two servers; the first block of the second was evicted. *)
Definition sample_index1 : @indexer listLRU :=
  default (newIndexer 4) (Add (newIndexer 4) [1; 2] (sample_server "b" 2)).
Definition sample_index2 : @indexer listLRU :=
  default (newIndexer 4) (Add sample_index1 [3] (sample_server "b" 2)).
Definition sample_index : @indexer listLRU :=
  default (newIndexer 4) (Add sample_index2 [1] (sample_server "a" 2)).

Lemma sample_reach : idx_reach sample_index.
Proof.
  assert (idx_reach sample_index1) as H1.
  { apply (reach_add (newIndexer 4) [1; 2] (sample_server "b" 2)); [by apply reach_new|..];
      vm_compute; first [reflexivity | discriminate]. }
  assert (idx_reach sample_index2) as H2.
  { apply (reach_add sample_index1 [3] (sample_server "b" 2)); [done|..];
      vm_compute; first [reflexivity | discriminate]. }
  apply (reach_add sample_index2 [1] (sample_server "a" 2)); [done|..];
    vm_compute; first [reflexivity | discriminate].
Qed.

Lemma index_mirrors_caches_witness :
  sample_pod "b" ∈ Get sample_index 2 /\ ~ sample_pod "b" ∈ Get sample_index 1 /\
  exists l, podToLRU sample_index !! sample_pod "b" = Some (Some l) /\ 2 ∈ lru_Keys l.
Proof.
  destruct (index_mirrors_caches sample_index sample_reach) as [Hm _].
  assert (sample_pod "b" ∈ Get sample_index 2) as H2 by (apply (bool_decide_unpack _); vm_compute; exact I).
  split; [exact H2|]. split; [|by apply Hm].
  apply (bool_decide_unpack _). vm_compute. exact I.
Defined.

(** An addition of more distinct hashes than the cache holds leaves the server
    recorded for a hash its cache has already evicted; removing the server
    does not take it off that hash, and nothing ever will. *)
Theorem overflowing_add_leaks {L} `{!LRU L} `{!LRULaws L} (i : @indexer L) hashes pod :
  idx_sound i -> 0 < pod_capacity i pod -> NoDup hashes ->
  pod_capacity i pod < Z.of_nat (length hashes) ->
  exists i1 i2 h, Add i hashes pod = Some i1 /\ RemovePod i1 (sv_id pod) = Some i2 /\
    podToLRU i2 !! sv_id pod = None /\ h ∈ hashes /\ sv_id pod ∈ Get i2 h.
Proof.
  intros Hs Hpos Hnd Hbig. destruct (Add_ok i hashes pod Hs Hpos) as (i1 & Ha & Hs1 & Hin & _).
  destruct (RemovePod_ok i1 (sv_id pod) Hs1) as (i2 & Hr & _ & Hp2 & _ & Hpod).
  destruct (Add_cache i pod Hs Hpos) as (l & Hl & Hok & Hcap & Hc & _).
  destruct (lru_add_all (sv_id pod) hashes (l, hashToPods i)) as [l' m'] eqn:Hrun.
  destruct (lru_add_all_spec _ _ _ _ _ _ [] Hok Hcap Hrun) as (Hok' & Hc' & _).
  rewrite (Add_eq _ _ _ _ _ _ Hl Hrun) in Ha. destruct (lru_nodup l' Hok') as [Hndk Hlen].
  assert (exists h, h ∈ hashes /\ h ∉ lru_Keys l') as (h & Hh & Hk).
  { destruct (decide (Forall (fun h => h ∈ lru_Keys l') hashes)) as [Hall|Hno].
    - exfalso. rewrite Forall_forall in Hall.
      assert (hashes ⊆ lru_Keys l') as Hsub by (intros x; apply Hall).
      apply NoDup_submseteq, submseteq_length in Hsub; [lia|done].
    - apply not_Forall_Exists, Exists_exists in Hno; [|apply _]. done. }
  exists i1, i2, h. injection Ha as <-. split; [by apply (Add_eq _ _ _ _ _ _ Hl Hrun)|].
  split; [done|]. split; [by rewrite Hp2, lookup_delete_eq|]. split; [done|].
  apply Hpod. split; [by apply Hin|]. intros l2. simpl. rewrite lookup_insert_eq. by intros [= <-].
Qed.

Lemma overflowing_add_leaks_witness :
  exists i1 i2 h, Add (newIndexer 4 : @indexer listLRU) [1; 2; 3] (sample_server "a" 2) = Some i1 /\
    RemovePod i1 (sample_pod "a") = Some i2 /\ podToLRU i2 !! sample_pod "a" = None /\
    h ∈ [1; 2; 3] /\ sample_pod "a" ∈ Get i2 h.
Proof.
  apply (overflowing_add_leaks (newIndexer 4 : @indexer listLRU) [1; 2; 3] (sample_server "a" 2)).
  - apply new_exact.
  - vm_compute. reflexivity.
  - apply (bool_decide_unpack _). vm_compute. exact I.
  - vm_compute. reflexivity.
Defined.

(** The match length of a server is the number of hashes it has among the
    leading ones that some server has; it is at least the length of the prefix
    the server has. It can exceed that length: a server whose first block was
    evicted is credited with the second one. *)
Theorem match_length_bounds :
  (forall {L} `{!LRU L} (i : @indexer L) hashes s,
     default 0 (matchLongestPrefix i hashes !! s) =
       Z.of_nat (length (filter (fun h => s ∈ Get i h) (lead i hashes)))) /\
  (forall {L} `{!LRU L} (i : @indexer L) hashes k s,
     (k <= length hashes)%nat -> (forall h, h ∈ take k hashes -> s ∈ Get i h) ->
     Z.of_nat k <= default 0 (matchLongestPrefix i hashes !! s)) /\
  (idx_reach sample_index /\ sample_pod "b" ∉ Get sample_index 1 /\
   matchLongestPrefix sample_index [1; 2] !! sample_pod "b" = Some 1).
Proof.
  split; [intros; apply match_counts|]. split; [intros; by apply match_at_least|].
  split; [apply sample_reach|]. split; [apply (bool_decide_unpack _); vm_compute; exact I|].
  vm_compute. reflexivity.
Qed.

(** The plain configuration values with which the products do not overflow. *)
Definition usable (blockSizeTokens maxPrefixBlocks : Z) : Prop :=
  0 < blockSizeTokens /\ 0 <= maxPrefixBlocks /\ blockSizeTokens * 4 < two63 /\
  blockSizeTokens * 4 * maxPrefixBlocks < two63.

(** C39: With a usable configuration (a positive block size that does not overflow
    and a maximum that is not negative) hashing never panics, and computes the
    chain of the full blocks of the input, up to the maximum, each hashed with the
    hash of the one before; requests for the same model and salt whose inputs
    agree on the first [k] blocks have the same first [k] hashes. *)
Theorem hash_prompt_is_block_chain {V} (Marshal : marshalled V -> option bytes) (Sum64 : bytes -> Z)
    r1 r2 b1 b2 u1 u2 blockSizeTokens maxPrefixBlocks k :
  usable blockSizeTokens maxPrefixBlocks ->
  Body V r1 = Some b1 -> getUserInputBytes V Marshal b1 = inl u1 ->
  Body V r2 = Some b2 -> getUserInputBytes V Marshal b2 = inl u2 ->
  TargetModel V r1 = TargetModel V r2 -> CacheSalt V b1 = CacheSalt V b2 ->
  let size := Z.to_nat (blockSizeTokens * 4) in
  let blocks u := Nat.min (length u / size) (Z.to_nat maxPrefixBlocks) in
  (k <= blocks u1)%nat -> (k <= blocks u2)%nat -> take (k * size) u1 = take (k * size) u2 ->
  exists h1 h2, hashPrompt V Marshal Sum64 (Some r1) blockSizeTokens maxPrefixBlocks = Some h1 /\
    hashPrompt V Marshal Sum64 (Some r2) blockSizeTokens maxPrefixBlocks = Some h2 /\
    h1 = chain Sum64 u1 size 0 (blocks u1) (seed V Sum64 r1 b1) /\
    length h1 = blocks u1 /\ length h2 = blocks u2 /\ take k h1 = take k h2.
Proof.
  intros (Hb & Hm & Ho & Ho') Hb1 Hu1 Hb2 Hu2 Hmodel Hsalt size blocks Hk1 Hk2 Heq.
  rewrite (hashPrompt_chain Marshal Sum64 r1 b1 u1) by done.
  rewrite (hashPrompt_chain Marshal Sum64 r2 b2 u2) by done.
  do 2 eexists. split; [done|]. split; [done|]. split; [done|]. rewrite !length_chain.
  split; [done|]. split; [done|].
  assert (seed V Sum64 r1 b1 = seed V Sum64 r2 b2) as -> by (unfold seed; by rewrite Hmodel, Hsalt).
  by apply chain_common.
Qed.

Definition sample_body (prompt salt : string) : LLMRequestBody Z :=
  {| Completions := Some ({| Raw := prompt; Strings := [] |}, salt); ChatCompletions := None;
     Responses := None; Conversations := None; Embeddings := None |}.

Definition sample_request (id model prompt salt : string) : LLMRequest Z :=
  {| RequestId := id; TargetModel := model; Body := Some (sample_body prompt salt) |}.

Definition sample_Marshal (_ : marshalled Z) : option bytes := None.
Definition sample_Sum64 (b : bytes) : Z := foldl (fun a x => u64 (a * 31 + x)) 7 b.

Lemma hash_prompt_is_block_chain_witness :
  exists h1 h2, hashPrompt Z sample_Marshal sample_Sum64 (Some (sample_request "1" "m" "aaaabbbbcccc" "s")) 1 256 = Some h1 /\
    hashPrompt Z sample_Marshal sample_Sum64 (Some (sample_request "2" "m" "aaaabbbbdddd" "s")) 1 256 = Some h2 /\
    take 2 h1 = take 2 h2 /\ length h1 = 3%nat.
Proof.
  destruct (hash_prompt_is_block_chain sample_Marshal sample_Sum64
    (sample_request "1" "m" "aaaabbbbcccc" "s") (sample_request "2" "m" "aaaabbbbdddd" "s")
    (sample_body "aaaabbbbcccc" "s") (sample_body "aaaabbbbdddd" "s")
    (string_bytes "aaaabbbbcccc") (string_bytes "aaaabbbbdddd") 1 256 2)
    as (h1 & h2 & H1 & H2 & _ & L1 & _ & Ht).
  1: unfold usable, two63; lia.
  1-6: reflexivity.
  1-2: vm_compute; lia.
  1: reflexivity.
  exists h1, h2. split; [exact H1|]. split; [exact H2|]. split; [exact Ht|]. rewrite L1. reflexivity.
Defined.

(** The model name and the salt are written to the digest one after the other
    with nothing in between, so requests for different models can have the
    same hashes, whatever the digest is. *)
Theorem model_and_salt_collide :
  forall Sum64 prompt blockSizeTokens maxPrefixBlocks,
    hashPrompt Z sample_Marshal Sum64 (Some (sample_request "1" "base" prompt "-v2")) blockSizeTokens maxPrefixBlocks =
    hashPrompt Z sample_Marshal Sum64 (Some (sample_request "2" "base-v2" prompt EmptyString)) blockSizeTokens maxPrefixBlocks.
Proof. intros. reflexivity. Qed.

Lemma PlainText_raw u : PlainText {| Raw := u; Strings := [] |} = u.
Proof. unfold PlainText. simpl. by destruct (String.eqb_spec u EmptyString) as [->|]. Qed.

(** A negative number of blocks is not rejected by the configuration check, and
    makes every prompt of at least one block panic. *)
Theorem negative_max_blocks_panics c Sum64 u :
  check_config c = inl tt -> AutoTune c = false ->
  MaxPrefixBlocksToMatch c < 0 -> BlockSizeTokens c * 4 * - MaxPrefixBlocksToMatch c < two63 ->
  BlockSizeTokens c * 4 <= Z.of_nat (length (string_bytes u)) ->
  hashPrompt Z sample_Marshal Sum64 (Some (sample_request "1" "m" u EmptyString))
    (BlockSizeTokens c) (MaxPrefixBlocksToMatch c) = None.
Proof.
  intros Hc Hat Hneg Hov Hlen. unfold check_config in Hc. rewrite Hat in Hc. simpl in Hc.
  destruct (Z.leb_spec (BlockSizeTokens c) 0) as [|Hpos]; [by destruct (Z.ltb 0 (BlockSize c))|].
  simpl. rewrite PlainText_raw. unfold averageCharactersPerToken.
  rewrite !i64_id by (unfold is_i64; nia).
  rewrite (proj2 (Z.leb_gt _ _)), (proj2 (Z.ltb_ge _ _)) by lia.
  rewrite !(proj2 (Z.ltb_lt _ _)) by nia. done.
Qed.

(** ** What happens between two requests *)

Section Between.

Context {L : Type} `{!LRU L} `{!LRULaws L}.
Context {V : Type} (Marshal : marshalled V -> option bytes) (Sum64 : bytes -> Z).

(** The plugin's hooks for any requests, the goroutines they start, and the
    clean-up. *)
Inductive plugin_event :=
| EvPrepare (request : option (LLMRequest V)) (pods : list endpoint)
| EvPreRequest (requestId : string) (results : gmap string ProfileResult) (primaryProfileName : string)
| EvUpdate (hashes : list Z) (servers : list server)
| EvCleanUp (activePods : gset ServerID).

Definition plugin_step (p : @prepareData L) (e : plugin_event) : option prepareData :=
  match e with
  | EvPrepare request pods => '(p', _) ← PrepareRequestData Marshal Sum64 p request pods; Some p'
  | EvPreRequest requestId results name => '(p', _) ← PreRequest p requestId results name; Some p'
  | EvUpdate hashes servers => update_index p hashes servers
  | EvCleanUp active =>
      i ← cleanUpInactivePods active (pd_indexer p);
      Some {| pd_config := pd_config p; pd_indexer := i; pd_state := pd_state p |}
  end.

(** The servers of an update are those [makeserver] makes. *)
Definition regular (e : plugin_event) : Prop :=
  match e with EvUpdate _ servers => forall s, s ∈ servers -> 0 < NumOfGPUBlocks s | _ => True end.

(** A clean-up sees the pod among the active ones. *)
Definition spares (pod : ServerID) (e : plugin_event) : Prop :=
  match e with EvCleanUp active => pod ∈ active | _ => True end.

(** The hashes the updates record for a pod. *)
Definition recorded_for (pod : ServerID) (es : list plugin_event) : list Z :=
  es ≫= (fun e => match e with
                  | EvUpdate hashes servers => if decide (pod ∈ sv_id <$> servers) then hashes else []
                  | _ => []
                  end).

Lemma step_sound p e p' :
  idx_sound (pd_indexer p) -> regular e -> plugin_step p e = Some p' ->
  idx_sound (pd_indexer p') /\ pd_config p' = pd_config p.
Proof.
  intros Hs Hreg. destruct e as [request pods|id results name|hashes servers|active]; cbn [plugin_step].
  - unfold PrepareRequestData. destruct (hashPrompt _ _ _ _ _ _); [|done]. cbn [mbind option_bind].
    destruct request; [|done]. by intros [= <-].
  - unfold PreRequest. destruct (primary_endpoints _ _) as [[|t ts]|]; [by intros [= <-]| |done]. cbn [mbind option_bind].
    destruct (target_servers _ _ _); [|done]. cbn [mbind option_bind]. destruct (pd_state p !! id); by intros [= <-].
  - unfold update_index. destruct (record_servers hashes servers (pd_indexer p) Hs Hreg) as (i' & -> & Hs' & _).
    by intros [= <-].
  - intros (i & Hi & [= <-])%bind_Some. split; [|done]. cbn [pd_indexer]. unfold cleanUpInactivePods in Hi.
    revert Hi Hs. generalize (Pods (pd_indexer p)) as ps. generalize (pd_indexer p) as i0. intros i0 ps. revert i0.
    induction ps as [|q ps IH]; intros i0; cbn [ofold]; [by intros [= <-]|]. case_decide; [by apply IH|].
    intros Hrun Hs. destruct (RemovePod_ok i0 q Hs) as (i1 & Hi1 & Hs1 & _). rewrite Hi1 in Hrun. by apply (IH i1).
Qed.

Lemma steps_sound es : forall p p',
  idx_sound (pd_indexer p) -> Forall regular es -> ofold plugin_step es p = Some p' ->
  idx_sound (pd_indexer p') /\ pd_config p' = pd_config p.
Proof.
  induction es as [|e es IH]; intros p p' Hs Hreg; cbn [ofold]; [by intros [= <-]|].
  apply Forall_cons in Hreg as [He Hes]. intros (p1 & H1 & Hrun)%bind_Some.
  destruct (step_sound p e p1 Hs He H1) as [Hs1 Hc1]. destruct (IH p1 p' Hs1 Hes Hrun) as [Hs' Hc']. split; [done|congruence].
Qed.

Lemma recent_fewer (i : @indexer L) pod D N N' : (forall x, x ∈ N' -> x ∈ N) -> recent i pod D N -> recent i pod D N'.
Proof. intros Hsub (l & O & N1 & Hl & Hc & HK & HD & HN). exists l, O, N1. auto 10. Qed.

(** Additions for any servers keep what is recent at a pod, if the hashes that
    go to the pod fit. *)
Lemma servers_keep_recent hashes servers pod D N : forall i i' : @indexer L,
  idx_sound i -> (forall s, s ∈ servers -> 0 < NumOfGPUBlocks s) -> NoDup D ->
  (pod ∈ sv_id <$> servers -> forall x, x ∈ hashes -> x ∈ D) -> recent i pod D N ->
  ofold (fun i s => Add i hashes s) servers i = Some i' -> recent i' pod D N.
Proof.
  induction servers as [|s servers IH]; intros i i' Hs Hpos HD Hsub Hrec; cbn [ofold]; [by intros [= <-]|].
  assert (0 < pod_capacity i s) as Hcap by (apply capacity_pos; [done|apply Hpos; left]).
  destruct (Add_ok i hashes s Hs Hcap) as (i1 & Ha & Hs1 & _). rewrite Ha. cbn [mbind option_bind].
  apply IH; [done|intros; apply Hpos; by right|done|intros; apply Hsub; [by right|done]|].
  destruct (decide (pod = sv_id s)) as [->|Hne]; [|by eapply recent_same; [eapply Add_others|]].
  eapply recent_fewer; [|eapply (Add_recent i hashes s D N); [done|done|done| |by right|done]].
  - intros x Hx. apply elem_of_app. by left.
  - apply Hsub. left.
Qed.

Lemma servers_record_recent hashes servers pod D : forall i i' : @indexer L,
  idx_sound i -> (forall s, s ∈ servers -> 0 < NumOfGPUBlocks s) -> NoDup D -> (forall x, x ∈ hashes -> x ∈ D) ->
  (forall s, s ∈ servers -> sv_id s = pod -> Z.of_nat (length D) <= pod_capacity i s) -> pod ∈ sv_id <$> servers ->
  ofold (fun i s => Add i hashes s) servers i = Some i' -> recent i' pod D hashes.
Proof.
  induction servers as [|s servers IH]; intros i i' Hs Hpos HD Hsub Hfit Hin; [by apply elem_of_nil in Hin|].
  assert (0 < pod_capacity i s) as Hcap by (apply capacity_pos; [done|apply Hpos; left]).
  destruct (Add_ok i hashes s Hs Hcap) as (i1 & Ha & Hs1 & _). cbn [ofold]. rewrite Ha. cbn [mbind option_bind].
  destruct (decide (sv_id s = pod)) as [Hid|Hne].
  - apply servers_keep_recent; [done|intros; apply Hpos; by right|done|done|]. rewrite <- Hid.
    eapply (Add_recent i hashes s D []); [done..| |done]. left. split; [done|]. apply Hfit; [left|done].
  - apply IH; [done|intros; apply Hpos; by right|done|done| |].
    + intros s' Hs' Hid. specialize (Hfit s' ltac:(by right) Hid). unfold pod_capacity, lruSize in *.
      rewrite (Add_others i hashes s i1) by (done || congruence). specialize (Hpos s' ltac:(by right)).
      by rewrite (proj2 (Z.leb_gt _ _) Hpos) in *.
    + cbn [fmap list_fmap] in Hin. by apply elem_of_cons in Hin as [->|?].
Qed.

Lemma steps_keep_recent pod D N es : forall p p',
  idx_sound (pd_indexer p) -> Forall regular es -> Forall (spares pod) es -> NoDup D ->
  (forall x, x ∈ recorded_for pod es -> x ∈ D) -> recent (pd_indexer p) pod D N ->
  ofold plugin_step es p = Some p' -> recent (pd_indexer p') pod D N.
Proof.
  induction es as [|e es IH]; intros p p' Hs Hreg Hsp HD Hsub Hrec; cbn [ofold]; [by intros [= <-]|].
  apply Forall_cons in Hreg as [He Hes], Hsp as [Hse Hsp]. intros (p1 & H1 & Hrun)%bind_Some.
  destruct (step_sound p e p1 Hs He H1) as [Hs1 _]. unfold recorded_for in Hsub. cbn [mbind list_bind] in Hsub.
  apply (IH p1 p'); [done..|intros x Hx; apply Hsub, elem_of_app; by right| |done].
  destruct e as [request pods|id results name|hashes servers|active]; cbn [plugin_step] in H1.
  - unfold PrepareRequestData in H1. destruct (hashPrompt _ _ _ _ _ _); [|done]. cbn [mbind option_bind] in H1.
    destruct request; [|done]. by injection H1 as <-.
  - unfold PreRequest in H1. destruct (primary_endpoints _ _) as [[|t ts]|]; [by injection H1 as <-| |done]. cbn [mbind option_bind] in H1.
    destruct (target_servers _ _ _); [|done]. cbn [mbind option_bind] in H1. destruct (pd_state p !! id); by injection H1 as <-.
  - apply bind_Some in H1 as (i' & Hi & [= <-]). cbn [pd_indexer].
    eapply servers_keep_recent; [exact Hs|exact He|done| |done|exact Hi]. intros Hin x Hx. apply Hsub, elem_of_app. left.
    by rewrite decide_True.
  - apply bind_Some in H1 as (i' & Hi & [= <-]). cbn [pd_indexer].
    destruct (cleanUp_keeps active _ _ pod Hs Hi Hse) as [_ Heq]. by eapply recent_same.
Qed.

End Between.

(** C19: A prompt is routed back to where its prefix went.  A request is scheduled
    to an endpoint, and the goroutine of [PreRequest] records its hashes, after
    whatever else the plugin did meanwhile.  A later request for the same model
    and salt, hashed with the same block size, that agrees with it on the first
    [k] blocks then finds the endpoint with a match of at least [k] blocks, and
    never more than the request has; whatever requests were prepared, scheduled
    and recorded between the two, as long as all the distinct hashes recorded for
    the endpoint since then fit its cache and no clean-up found the endpoint
    inactive. *)
Theorem prefix_affinity {L} `{!LRU L} `{!LRULaws L} {V} (Marshal : marshalled V -> option bytes)
    (Sum64 : bytes -> Z) (p p1 p2 p2' p3' : @prepareData L) r1 r2 b1 b2 u1 u2 pods1 pods2 infos1
    results name target others hashes servers before between k :
  idx_sound (pd_indexer p) ->
  let bs := GetBlockSize (pd_config p) pods1 in
  let mx := MaxPrefixBlocksToMatch (pd_config p) in
  let size := Z.to_nat (bs * 4) in
  usable bs mx -> GetBlockSize (pd_config p) pods2 = bs ->
  Body V r1 = Some b1 -> getUserInputBytes V Marshal b1 = inl u1 ->
  Body V r2 = Some b2 -> getUserInputBytes V Marshal b2 = inl u2 ->
  TargetModel V r1 = TargetModel V r2 -> CacheSalt V b1 = CacheSalt V b2 ->
  (k <= Nat.min (length u1 / size) (Z.to_nat mx))%nat -> (k <= Nat.min (length u2 / size) (Z.to_nat mx))%nat ->
  take (k * size) u1 = take (k * size) u2 ->
  PrepareRequestData Marshal Sum64 p (Some r1) pods1 = Some (p1, infos1) ->
  results !! name = Some (Some (target :: others)) ->
  PreRequest p1 (RequestId V r1) results name = Some (p2, Some (hashes, servers)) ->
  Forall regular before -> ofold (plugin_step Marshal Sum64) before p2 = Some p2' ->
  Forall regular between -> Forall (spares (ep_id target)) between ->
  (forall s, s ∈ servers -> sv_id s = ep_id target ->
     Z.of_nat (length (remove_dups (hashes ++ recorded_for (ep_id target) between))) <= pod_capacity (pd_indexer p2') s) ->
  (p3 ← update_index p2' hashes servers; ofold (plugin_step Marshal Sum64) between p3) = Some p3' ->
  exists p4 infos2, PrepareRequestData Marshal Sum64 p3' (Some r2) pods2 = Some (p4, infos2) /\
    forall ep, ep ∈ pods2 -> ep_id ep = ep_id target ->
      exists info, (ep_id ep, info) ∈ infos2 /\ Z.of_nat k <= matchBlocks info <= totalBlocks info.
Proof.
  intros Hs bs mx size (Hb & Hm & Ho & Ho') Hbs Hb1 Hu1 Hb2 Hu2 Hmodel Hsalt Hk1 Hk2 Heq Hprep Hres Hpre
    Hreg0 Hbefore Hreg Hsp Hfit Hrun.
  unfold PrepareRequestData in Hprep. fold bs mx in Hprep.
  rewrite (hashPrompt_chain Marshal Sum64 r1 b1 u1) in Hprep by done.
  cbn [mbind option_bind] in Hprep. injection Hprep as <- _.
  unfold PreRequest, primary_endpoints in Hpre. cbn [pd_config pd_indexer pd_state] in Hpre. rewrite Hres in Hpre.
  cbn [mjoin option_join mbind option_bind] in Hpre. rewrite lookup_insert_eq in Hpre.
  apply bind_Some in Hpre as (sv & Hsv & [= <- <- <-]).
  destruct (target_servers_spec _ _ _ _ Hsv) as [(s0 & Hs0 & Hid0) Hpos].
  set (hs1 := chain Sum64 u1 _ _ _ _) in *.
  destruct (fun H => steps_sound Marshal Sum64 before _ p2' H Hreg0 Hbefore) as [Hs2 Hc2]; [exact Hs|]. cbn [pd_config] in Hc2.
  apply bind_Some in Hrun as (p3 & Hup & Hrun). apply bind_Some in Hup as (i' & Hadd & [= <-]).
  destruct (record_servers hs1 sv (pd_indexer p2') Hs2 Hpos) as (i1 & Hi1 & Hs' & _).
  rewrite Hadd in Hi1. injection Hi1 as <-.
  set (D := remove_dups (hs1 ++ recorded_for (ep_id target) between)) in *.
  assert (recent i' (ep_id target) D hs1) as Hrec.
  { eapply servers_record_recent; [exact Hs2|exact Hpos|apply NoDup_remove_dups| |exact Hfit| |exact Hadd].
    - intros x Hx. apply elem_of_remove_dups, elem_of_app. by left.
    - apply list_elem_of_fmap. by exists s0. }
  destruct (fun H => steps_sound Marshal Sum64 between _ p3' H Hreg Hrun) as [Hs3 Hc3]; [exact Hs'|]. cbn [pd_config] in Hc3.
  assert (recent (pd_indexer p3') (ep_id target) D hs1) as Hrec3.
  { refine (steps_keep_recent Marshal Sum64 _ _ _ between _ p3' _ Hreg Hsp (NoDup_remove_dups _) _ _ Hrun);
      [exact Hs'| |exact Hrec]. intros x Hx. apply elem_of_remove_dups, elem_of_app. by right. }
  unfold PrepareRequestData. rewrite Hc3, Hc2. cbn [pd_config].
  rewrite Hbs. fold mx. rewrite (hashPrompt_chain Marshal Sum64 r2 b2 u2) by done.
  cbn [mbind option_bind]. do 2 eexists. split; [done|]. intros ep Hep Hid.
  eexists. split; [apply list_elem_of_fmap; exists ep; by split|]. cbn [matchBlocks totalBlocks].
  split; [|apply match_at_most]. apply match_at_least; [by rewrite length_chain|].
  intros h Hh. rewrite Hid. apply (recent_found _ _ _ _ _ Hs3 Hrec3).
  assert (seed V Sum64 r1 b1 = seed V Sum64 r2 b2) as Hseed by (unfold seed; by rewrite Hmodel, Hsalt).
  rewrite <- Hseed, <- (chain_common Sum64 u1 u2 _ k _ _ _ Heq Hk1 Hk2) in Hh.
  rewrite <- (take_drop k hs1). apply elem_of_app. by left.
Qed.

Definition sample_config : config :=
  {| AutoTune := false; BlockSizeTokens := 1; BlockSize := 0; MaxPrefixBlocksToMatch := 256;
     LRUCapacityPerServer := 10 |}.

Definition sample_endpoint (n : string) : endpoint := {| ep_id := sample_pod n; ep_metrics := None |}.
Definition sample_pods : list endpoint := [sample_endpoint "a"; sample_endpoint "b"].

Definition sample_plugin : @prepareData listLRU :=
  {| pd_config := sample_config; pd_indexer := newIndexer 10; pd_state := ∅ |}.

Definition sample_results : gmap string ProfileResult := <["decode" := Some [sample_endpoint "b"]]> ∅.

Definition sample_r1 := sample_request "1" "m" "aaaabbbbcccc" "s".
Definition sample_r2 := sample_request "2" "m" "aaaabbbbdddd" "s".

(** Between the two requests another one is recorded for the same endpoint, and
    a clean-up removes the other endpoint. *)
Definition sample_between : list (plugin_event (V := Z)) :=
  [EvPrepare (Some (sample_request "3" "m" "eeeeffff" "s")) sample_pods; EvUpdate [71; 72] [sample_server "b" 10];
   EvCleanUp {[ sample_pod "b" ]}].

Lemma prefix_affinity_witness :
  exists p1 infos1 p2 hashes servers p3' p4 infos2 info,
    PrepareRequestData sample_Marshal sample_Sum64 sample_plugin (Some sample_r1) sample_pods = Some (p1, infos1) /\
    PreRequest p1 "1" sample_results "decode" = Some (p2, Some (hashes, servers)) /\
    (p3 ← update_index p2 hashes servers; ofold (plugin_step sample_Marshal sample_Sum64) sample_between p3) = Some p3' /\
    PrepareRequestData sample_Marshal sample_Sum64 p3' (Some sample_r2) sample_pods = Some (p4, infos2) /\
    (sample_pod "b", info) ∈ infos2 /\ 2 <= matchBlocks info <= totalBlocks info.
Proof.
  destruct (PrepareRequestData sample_Marshal sample_Sum64 sample_plugin (Some sample_r1) sample_pods)
    as [[p1 infos1]|] eqn:E1; [|discriminate].
  destruct (PreRequest p1 "1" sample_results "decode") as [[p2 [[hashes servers]|]]|] eqn:E2.
  2-3: vm_compute in E1; injection E1 as <- _; vm_compute in E2; discriminate.
  destruct (p3 ← update_index p2 hashes servers; ofold (plugin_step sample_Marshal sample_Sum64) sample_between p3)
    as [p3'|] eqn:E3.
  2: vm_compute in E1; injection E1 as <- _; vm_compute in E2; injection E2 as <- <- <-; vm_compute in E3; discriminate.
  destruct (prefix_affinity sample_Marshal sample_Sum64 sample_plugin p1 p2 p2 p3' sample_r1 sample_r2
    (sample_body "aaaabbbbcccc" "s") (sample_body "aaaabbbbdddd" "s")
    (string_bytes "aaaabbbbcccc") (string_bytes "aaaabbbbdddd") sample_pods sample_pods infos1
    sample_results "decode" (sample_endpoint "b") [] hashes servers [] sample_between 2)
    as (p4 & infos2 & E4 & Hall).
  1: apply new_exact.
  1: vm_compute; split_and!; first [reflexivity | discriminate].
  1-7: reflexivity.
  1-2: vm_compute; lia.
  1: reflexivity.
  1: exact E1.
  1: reflexivity.
  1: exact E2.
  1: constructor.
  1: reflexivity.
  1: repeat constructor; intros s ->%list_elem_of_singleton; reflexivity.
  1: repeat constructor; set_solver.
  1: vm_compute in E1; injection E1 as <- _; vm_compute in E2; injection E2 as <- <- <-;
     intros s ->%list_elem_of_singleton _; vm_compute; discriminate.
  1: exact E3.
  destruct (Hall (sample_endpoint "b")) as (info & Hin & Hle); [right; left|reflexivity|].
  exists p1, infos1, p2, hashes, servers, p3', p4, infos2, info.
  split; [reflexivity|]. split; [exact E2|]. split; [exact E3|]. split; [exact E4|]. split; [exact Hin|exact Hle].
Defined.

(** The configured capacity of the caches is never used: whatever endpoint is
    chosen, the cache of its server has the size the model server reports or
    the built-in default. *)
Theorem configured_capacity_is_ignored {L} (i : @indexer L) c ep s :
  makeserver c ep = Some s ->
  lruSize i s = NumOfGPUBlocks s /\
  (NumOfGPUBlocks s = defaultLRUCapacityPerServer \/
   exists m, ep_metrics ep = Some m /\ NumOfGPUBlocks s = CacheNumBlocks m).
Proof.
  intros Hmk. destruct (makeserver_spec _ _ _ Hmk) as [_ Hpos]. split.
  - unfold lruSize. by rewrite (proj2 (Z.leb_gt _ _) Hpos).
  - unfold makeserver in Hmk. destruct (AutoTune c); [|injection Hmk as <-; by left].
    destruct (ep_metrics ep) as [m|]; [|done]. simpl in Hmk.
    destruct (Z.ltb 0 (CacheNumBlocks m)); injection Hmk as <-; [right; by exists m|by left].
Qed.
