(* ===== verification/ModelRewrite.v ===== *)
(** Model rewrites (src/pkg/epp/datastore/modelrewritestore.go, and their use in
    src/pkg/epp/requestcontrol/director.go): the store that keeps the rules of
    all InferenceModelRewrite resources by precedence, and the weighted choice
    of a target model.

    [sort.Slice] does not keep the order of equal elements: [sort] is what it
    makes of a list, any sorted permutation of it. *)

From S2P Require Import Prelude.

(** * Resources *)

Record TargetModel := { Weight : Z; ModelRewriteName : string }.

(** A match names a model, or nothing (a nil pointer). *)
Record Rule := { Matches : list (option string); Targets : list TargetModel }.

Record InferenceModelRewrite := { rw_Name : string; CreationTimestamp : Z; Rules : list Rule }.

Record rewriteRuleWithMetadata := {
  rr_rule : Rule;
  createTimestamp : Z;
  parentRewriteName : string
}.

#[global] Instance TargetModel_eq_dec : EqDecision TargetModel.
Proof. solve_decision. Defined.
#[global] Instance Rule_eq_dec : EqDecision Rule.
Proof. solve_decision. Defined.
#[global] Instance rewriteRule_eq_dec : EqDecision rewriteRuleWithMetadata.
Proof. solve_decision. Defined.

Definition isGeneric (rr : rewriteRuleWithMetadata) : bool :=
  Nat.eqb (length (Matches (rr_rule rr))) 0.

Definition exactModels (rr : rewriteRuleWithMetadata) : gset string :=
  list_to_set (omap id (Matches (rr_rule rr))).

(** * The store *)

Record modelRewriteStore := {
  genericRules : list rewriteRuleWithMetadata;
  rulesByExactModelMatch : gmap string (list rewriteRuleWithMetadata);
  allReWrites : gmap string InferenceModelRewrite
}.

Definition newModelRewriteStore : modelRewriteStore :=
  {| genericRules := []; rulesByExactModelMatch := ∅; allReWrites := ∅ |}.

Definition drop_parent (n : string) (l : list rewriteRuleWithMetadata) : list rewriteRuleWithMetadata :=
  filter (fun r => parentRewriteName r <> n) l.

Definition deleteInternal (ms : modelRewriteStore) (n : string) : modelRewriteStore :=
  match allReWrites ms !! n with
  | None => ms
  | Some _ =>
      {| allReWrites := delete n (allReWrites ms);
         genericRules := drop_parent n (genericRules ms);
         rulesByExactModelMatch :=
           omap (fun l => let newRules := drop_parent n l in
                          if Nat.eqb (length newRules) 0 then None else Some newRules)
                (rulesByExactModelMatch ms) |}
  end.

Definition add_exact (rr : rewriteRuleWithMetadata) (m : gmap string (list rewriteRuleWithMetadata))
    (model : string) : gmap string (list rewriteRuleWithMetadata) :=
  <[model := default [] (m !! model) ++ [rr]]> m.

(** One iteration of the loop over the rules. *)
Definition add_rule (infModelRewrite : InferenceModelRewrite) (ms : modelRewriteStore) (rule : Rule)
    : modelRewriteStore :=
  let rr := {| rr_rule := rule; createTimestamp := CreationTimestamp infModelRewrite;
               parentRewriteName := rw_Name infModelRewrite |} in
  if isGeneric rr then
    {| genericRules := genericRules ms ++ [rr]; rulesByExactModelMatch := rulesByExactModelMatch ms;
       allReWrites := allReWrites ms |}
  else
    {| genericRules := genericRules ms;
       rulesByExactModelMatch := foldl (add_exact rr) (rulesByExactModelMatch ms) (elements (exactModels rr));
       allReWrites := allReWrites ms |}.

Section Sort.

Variable sort : list rewriteRuleWithMetadata -> list rewriteRuleWithMetadata.

Definition store_set (ms : modelRewriteStore) (infModelRewrite : InferenceModelRewrite) : modelRewriteStore :=
  let name := rw_Name infModelRewrite in
  let ms := match allReWrites ms !! name with Some _ => deleteInternal ms name | None => ms end in
  let ms := {| genericRules := genericRules ms; rulesByExactModelMatch := rulesByExactModelMatch ms;
               allReWrites := <[name := infModelRewrite]> (allReWrites ms) |} in
  let ms := foldl (add_rule infModelRewrite) ms (Rules infModelRewrite) in
  {| genericRules := sort (genericRules ms);
     rulesByExactModelMatch := sort <$> rulesByExactModelMatch ms;
     allReWrites := allReWrites ms |}.

End Sort.

Definition store_delete (ms : modelRewriteStore) (name : string) : modelRewriteStore := deleteInternal ms name.

Definition getRule (ms : modelRewriteStore) (modelName : string) : option (Rule * string) :=
  match rulesByExactModelMatch ms !! modelName with
  | Some (r :: _) => Some (rr_rule r, parentRewriteName r)
  | _ => match genericRules ms with
         | r :: _ => Some (rr_rule r, parentRewriteName r)
         | [] => None
         end
  end.

Definition getAll (ms : modelRewriteStore) : list InferenceModelRewrite := (map_to_list (allReWrites ms)).*2.

(** * The director's use *)

Definition i32 (z : Z) : Z := (z + 2147483648) mod 4294967296 - 2147483648.

Fixpoint pick_weighted (randomNum currentWeight : Z) (models : list TargetModel) : option string :=
  match models with
  | [] => None
  | m :: models =>
      let currentWeight := i32 (currentWeight + Weight m) in
      if Z.ltb randomNum currentWeight then Some (ModelRewriteName m)
      else pick_weighted randomNum currentWeight models
  end.

(** [rand.Intn(n)], which panics unless [n] is positive; [rnd] is the number
    drawn. *)
Definition rand_Intn (rnd : Z -> Z) (n : Z) : option Z := if Z.leb n 0 then None else Some (rnd n).

Definition selectWeightedModel (rnd : Z -> Z) (models : list TargetModel) : option string :=
  match models with
  | [] => Some EmptyString
  | _ :: _ =>
      let totalWeight := foldl (fun t m => i32 (t + Weight m)) 0 models in
      if Z.eqb totalWeight 0 then
        k ← rand_Intn rnd (Z.of_nat (length models));
        m ← models !! Z.to_nat k; Some (ModelRewriteName m)
      else
        randomNum ← rand_Intn rnd totalWeight;
        match pick_weighted randomNum 0 models with
        | Some name => Some name
        | None => ModelRewriteName <$> last models
        end
  end.

(** The target of a request for [incoming]; [current] is the target set
    before, empty when there is none. *)
Definition target_model (rnd : Z -> Z) (ms : modelRewriteStore) (incoming current : string) : option string :=
  match getRule ms incoming with
  | None => Some (if String.eqb current EmptyString then incoming else current)
  | Some (rule, _) => selectWeightedModel rnd (Targets rule)
  end.

(** * The contract

    The rules of a set of resources, each with its timestamp and parent. *)

Definition rules_of (rw : InferenceModelRewrite) : list rewriteRuleWithMetadata :=
  (fun rule => {| rr_rule := rule; createTimestamp := CreationTimestamp rw;
                  parentRewriteName := rw_Name rw |}) <$> Rules rw.

Definition all_rules (M : gmap string InferenceModelRewrite) : list rewriteRuleWithMetadata :=
  map_to_list M ≫= fun kv => rules_of kv.2.

Definition matches_exactly (model : string) (rr : rewriteRuleWithMetadata) : Prop := model ∈ exactModels rr.

(** [rr] is a rule of [M] with property [P], and none is older. *)
Definition oldest (P : rewriteRuleWithMetadata -> Prop) (M : gmap string InferenceModelRewrite)
    (rr : rewriteRuleWithMetadata) : Prop :=
  rr ∈ all_rules M /\ P rr /\
  forall rr', rr' ∈ all_rules M -> P rr' -> createTimestamp rr <= createTimestamp rr'.
