(* ===== verification/ModelRewriteProps.v ===== *)
(** What the rewrite store guarantees: the precedence of the resources'
    documentation, for every sequence of updates; and the distribution of the
    weighted choice. *)

From S2P Require Import Prelude ModelRewrite.

Definition ts_le (a b : rewriteRuleWithMetadata) : Prop := createTimestamp a <= createTimestamp b.

(** What [sort.Slice] promises. *)
Definition sorts (sort : list rewriteRuleWithMetadata -> list rewriteRuleWithMetadata) : Prop :=
  forall l, sort l ≡ₚ l /\ StronglySorted ts_le (sort l).

#[global] Instance matches_exactly_dec model rr : Decision (matches_exactly model rr).
Proof. unfold matches_exactly. apply _. Defined.

Lemma StronglySorted_filter_keep {A} (R : A -> A -> Prop) (P : A -> Prop) `{!forall x, Decision (P x)} l :
  StronglySorted R l -> StronglySorted R (filter P l).
Proof.
  induction 1 as [|x l Hl IH Hx]; [constructor|]. rewrite filter_cons. case_decide; [|done].
  constructor; [done|]. apply Forall_forall. intros y [_ Hy]%list_elem_of_filter.
  rewrite Forall_forall in Hx. auto.
Qed.

Lemma sorted_head (l : list rewriteRuleWithMetadata) x l' :
  StronglySorted ts_le l -> l = x :: l' -> forall y, y ∈ l -> createTimestamp x <= createTimestamp y.
Proof.
  intros Hs -> y Hy. inversion Hs as [|? ? _ Hall]; subst. rewrite Forall_forall in Hall.
  apply elem_of_cons in Hy as [->|Hy]; [done|]. by apply Hall.
Qed.

(** * The rules of a set of resources *)

Definition keyed (M : gmap string InferenceModelRewrite) : Prop := forall k rw, M !! k = Some rw -> rw_Name rw = k.

Lemma all_rules_insert M n rw : M !! n = None -> all_rules (<[n := rw]> M) ≡ₚ rules_of rw ++ all_rules M.
Proof. intros Hn. unfold all_rules. by rewrite map_to_list_insert. Qed.

Lemma elem_of_rules_of rw rr : rr ∈ rules_of rw -> parentRewriteName rr = rw_Name rw.
Proof. unfold rules_of. by intros (rule & -> & _)%list_elem_of_fmap. Qed.

Lemma elem_of_all_rules M rr : rr ∈ all_rules M -> exists k rw, M !! k = Some rw /\ rr ∈ rules_of rw.
Proof.
  unfold all_rules. intros ([k rw] & Hin & Hk%elem_of_map_to_list)%list_elem_of_bind. by exists k, rw.
Qed.

Lemma drop_parent_all M n : keyed M -> drop_parent n (all_rules M) ≡ₚ all_rules (delete n M).
Proof.
  intros HM. unfold drop_parent.
  destruct (M !! n) as [rw|] eqn:E.
  - rewrite <- (insert_delete_id M n rw E) at 1. rewrite all_rules_insert by apply lookup_delete_eq.
    rewrite filter_app, (filter_none _ (rules_of rw)).
    2: { intros rr Hrr Hne. apply Hne. rewrite (elem_of_rules_of _ _ Hrr). by apply HM. }
    simpl. rewrite filter_id; [done|]. intros rr (k & rw' & [Hne Hk]%lookup_delete_Some & Hrr)%elem_of_all_rules.
    rewrite (elem_of_rules_of _ _ Hrr), (HM _ _ Hk). congruence.
  - rewrite delete_id by done. rewrite filter_id; [done|].
    intros rr (k & rw & Hk & Hrr)%elem_of_all_rules. rewrite (elem_of_rules_of _ _ Hrr), (HM _ _ Hk). congruence.
Qed.

(** * The loop over the rules of a resource *)

Definition exact_rules (ms : modelRewriteStore) (model : string) : list rewriteRuleWithMetadata :=
  default [] (rulesByExactModelMatch ms !! model).

Lemma add_exact_all rr l m model :
  NoDup l ->
  default [] (foldl (add_exact rr) m l !! model) =
  default [] (m !! model) ++ (if decide (model ∈ l) then [rr] else []).
Proof.
  revert m. induction l as [|x l IH]; intros m Hnd; cbn [foldl].
  - rewrite decide_False by apply not_elem_of_nil. by rewrite app_nil_r.
  - apply NoDup_cons in Hnd as [Hx Hnd]. rewrite IH by done. unfold add_exact.
    destruct (decide (model = x)) as [->|Hne].
    + rewrite lookup_insert_eq, (decide_False (P := x ∈ l)), decide_True by (done || left).
      simpl. by rewrite app_nil_r.
    + rewrite lookup_insert_ne by done. f_equal. apply decide_ext. rewrite elem_of_cons. naive_solver.
Qed.

Lemma generic_no_exact rr model : isGeneric rr = true -> ~ matches_exactly model rr.
Proof.
  unfold isGeneric, matches_exactly, exactModels. intros Hg%Nat.eqb_eq%nil_length_inv. rewrite Hg. set_solver.
Qed.

Lemma add_rules_spec rw ms :
  let ms' := foldl (add_rule rw) ms (Rules rw) in
  allReWrites ms' = allReWrites ms /\
  genericRules ms' = genericRules ms ++ filter (fun rr => isGeneric rr = true) (rules_of rw) /\
  forall model, exact_rules ms' model = exact_rules ms model ++ filter (matches_exactly model) (rules_of rw).
Proof.
  unfold rules_of. revert ms. induction (Rules rw) as [|rule rules IH]; intros ms; cbn [foldl fmap list_fmap].
  - rewrite !app_nil_r. split; [done|]. split; [done|]. intros model. by rewrite app_nil_r.
  - destruct (IH (add_rule rw ms rule)) as (Ha & Hg & He). rewrite Ha, Hg.
    set (rr := {| rr_rule := rule; createTimestamp := CreationTimestamp rw; parentRewriteName := rw_Name rw |}) in *.
    assert (add_rule rw ms rule = if isGeneric rr then _ else _) as Hadd by reflexivity.
    destruct (isGeneric rr) eqn:Hgen; rewrite Hadd in *; cbn [allReWrites genericRules] in *.
    + rewrite filter_cons_True by done. split; [done|]. split; [by rewrite <- app_assoc|].
      intros model. rewrite He, filter_cons_False by (by apply generic_no_exact). done.
    + rewrite filter_cons_False by (by rewrite Hgen). split; [done|]. split; [done|]. intros model. rewrite He.
      unfold exact_rules. simpl. rewrite add_exact_all by apply NoDup_elements. rewrite <- app_assoc. f_equal.
      rewrite filter_cons. unfold matches_exactly.
      case_decide as H1; case_decide as H2; rewrite elem_of_elements in H1; done.
Qed.

(** * The invariant *)

Record store_ok (ms : modelRewriteStore) : Prop := {
  ok_keyed : keyed (allReWrites ms);
  ok_generic : genericRules ms ≡ₚ filter (fun rr => isGeneric rr = true) (all_rules (allReWrites ms));
  ok_generic_sorted : StronglySorted ts_le (genericRules ms);
  ok_exact : forall model, exact_rules ms model ≡ₚ filter (matches_exactly model) (all_rules (allReWrites ms));
  ok_exact_sorted : forall model, StronglySorted ts_le (exact_rules ms model)
}.

Lemma store_new_ok : store_ok newModelRewriteStore.
Proof.
  split; simpl.
  - by intros k rw ?.
  - unfold all_rules. by rewrite map_to_list_empty.
  - constructor.
  - intros model. unfold exact_rules, all_rules. simpl. by rewrite lookup_empty, map_to_list_empty.
  - intros model. unfold exact_rules. simpl. rewrite lookup_empty. constructor.
Qed.

Lemma drop_filter n (P : rewriteRuleWithMetadata -> Prop) `{!forall x, Decision (P x)} l :
  drop_parent n (filter P l) = filter P (drop_parent n l).
Proof.
  unfold drop_parent. rewrite !list_filter_filter. apply list_filter_iff. tauto.
Qed.

Lemma delete_exact ms n model :
  is_Some (allReWrites ms !! n) ->
  exact_rules (deleteInternal ms n) model = drop_parent n (exact_rules ms model).
Proof.
  intros [rw Hn]. unfold deleteInternal, exact_rules. rewrite Hn. simpl. rewrite lookup_omap.
  destruct (rulesByExactModelMatch ms !! model) as [l|]; simpl; [|done].
  destruct (drop_parent n l) as [|x l'] eqn:E; simpl; by rewrite ?E.
Qed.

Lemma delete_ok ms n : store_ok ms ->
  store_ok (deleteInternal ms n) /\ allReWrites (deleteInternal ms n) = delete n (allReWrites ms).
Proof.
  intros [Hk Hg Hgs He Hes]. destruct (allReWrites ms !! n) as [rw|] eqn:Hn.
  - assert (allReWrites (deleteInternal ms n) = delete n (allReWrites ms)) as Ha
      by (unfold deleteInternal; by rewrite Hn).
    assert (genericRules (deleteInternal ms n) = drop_parent n (genericRules ms)) as Hgen
      by (unfold deleteInternal; by rewrite Hn).
    split; [|done]. split; rewrite ?Ha, ?Hgen.
    + intros k rw' [_ ?]%lookup_delete_Some. by apply Hk.
    + rewrite <- drop_parent_all by done. rewrite <- drop_filter. unfold drop_parent. by rewrite Hg.
    + by apply StronglySorted_filter_keep.
    + intros model. rewrite delete_exact, <- drop_parent_all, <- drop_filter by done || by rewrite Hn.
      unfold drop_parent. by rewrite (He model).
    + intros model. rewrite delete_exact by (by rewrite Hn). by apply StronglySorted_filter_keep.
  - unfold deleteInternal. rewrite Hn. split; [done|]. by rewrite delete_id.
Qed.

Section Sorted.

Variable sort : list rewriteRuleWithMetadata -> list rewriteRuleWithMetadata.
Hypothesis Hsort : sorts sort.

Lemma set_ok ms rw : store_ok ms ->
  store_ok (store_set sort ms rw) /\ allReWrites (store_set sort ms rw) = <[rw_Name rw := rw]> (allReWrites ms).
Proof.
  intros Hms. unfold store_set.
  set (ms1 := match allReWrites ms !! rw_Name rw with Some _ => _ | None => ms end).
  assert (store_ok ms1 /\ allReWrites ms1 = delete (rw_Name rw) (allReWrites ms)) as [Hok1 Ha1].
  { unfold ms1. destruct (allReWrites ms !! rw_Name rw) eqn:E; [by apply delete_ok|]. split; [done|].
    by rewrite delete_id. }
  set (ms2 := {| genericRules := genericRules ms1 |}).
  destruct (add_rules_spec rw ms2) as (Ha & Hg & He). cbn zeta in *.
  set (ms3 := foldl (add_rule rw) ms2 (Rules rw)) in *.
  assert (allReWrites ms3 = <[rw_Name rw := rw]> (allReWrites ms)) as Ha3.
  { rewrite Ha. simpl. by rewrite Ha1, insert_delete_eq. }
  assert (all_rules (allReWrites ms3) ≡ₚ rules_of rw ++ all_rules (allReWrites ms1)) as Hall.
  { rewrite Ha. simpl. apply all_rules_insert. by rewrite Ha1, lookup_delete_eq. }
  split; [|done]. destruct Hok1 as [Hk Hgp Hgs Hep Hes].
  assert (forall model, exact_rules {| genericRules := sort (genericRules ms3);
     rulesByExactModelMatch := sort <$> rulesByExactModelMatch ms3; allReWrites := allReWrites ms3 |} model
     ≡ₚ exact_rules ms3 model) as Hex.
  { intros model. unfold exact_rules. simpl. rewrite lookup_fmap.
    destruct (rulesByExactModelMatch ms3 !! model) as [l|]; simpl; [apply Hsort|done]. }
  split; simpl.
  - rewrite Ha3. intros k rw'. destruct (decide (k = rw_Name rw)) as [->|Hne].
    + rewrite lookup_insert_eq. by intros [= <-].
    + rewrite lookup_insert_ne by done. intros Hk'. apply Hk. by rewrite Ha1, lookup_delete_ne.
  - rewrite (proj1 (Hsort (genericRules ms3))), Hg. simpl. rewrite Hgp, Hall, filter_app.
    by rewrite Permutation_app_comm.
  - apply Hsort.
  - intros model. rewrite Hex, He. change (exact_rules ms2 model) with (exact_rules ms1 model).
    rewrite Hep, Hall, filter_app. by rewrite Permutation_app_comm.
  - intros model. unfold exact_rules. simpl. rewrite lookup_fmap.
    destruct (rulesByExactModelMatch ms3 !! model) as [l|]; simpl; [apply Hsort|constructor].
Qed.

End Sorted.

(** The state after a sequence of updates, and the resources that remain. *)
Inductive rw_op := RwSet (rw : InferenceModelRewrite) | RwDelete (name : string).

Definition rw_exec sort (ms : modelRewriteStore) (o : rw_op) : modelRewriteStore :=
  match o with RwSet rw => store_set sort ms rw | RwDelete n => store_delete ms n end.

Definition rw_spec (M : gmap string InferenceModelRewrite) (o : rw_op) : gmap string InferenceModelRewrite :=
  match o with RwSet rw => <[rw_Name rw := rw]> M | RwDelete n => delete n M end.

Lemma rw_run_ok sort ops ms : sorts sort -> store_ok ms ->
  store_ok (foldl (rw_exec sort) ms ops) /\
  allReWrites (foldl (rw_exec sort) ms ops) = foldl rw_spec (allReWrites ms) ops.
Proof.
  intros Hsort. revert ms. induction ops as [|o ops IH]; intros ms Hok; [done|]. simpl.
  assert (store_ok (rw_exec sort ms o) /\ allReWrites (rw_exec sort ms o) = rw_spec (allReWrites ms) o) as [Hok' <-].
  { destruct o; [by apply set_ok|by apply delete_ok]. }
  by apply IH.
Qed.

Lemma getRule_ok ms model : store_ok ms ->
  match getRule ms model with
  | Some (rule, parent) => exists rr, rr_rule rr = rule /\ parentRewriteName rr = parent /\
      (oldest (matches_exactly model) (allReWrites ms) rr \/
       (forall rr', rr' ∈ all_rules (allReWrites ms) -> ~ matches_exactly model rr') /\
       oldest (fun rr => isGeneric rr = true) (allReWrites ms) rr)
  | None => forall rr', rr' ∈ all_rules (allReWrites ms) ->
      ~ matches_exactly model rr' /\ isGeneric rr' = false
  end.
Proof.
  intros [_ Hg Hgs He Hes]. specialize (He model). specialize (Hes model).
  unfold getRule. unfold exact_rules in *.
  set (le := default [] (rulesByExactModelMatch ms !! model)) in *.
  assert (forall rr, rr ∈ le <-> matches_exactly model rr /\ rr ∈ all_rules (allReWrites ms)) as Hin
    by (intros rr; by rewrite He, list_elem_of_filter).
  assert (forall rr, rr ∈ genericRules ms <-> isGeneric rr = true /\ rr ∈ all_rules (allReWrites ms)) as Hing
    by (intros rr; by rewrite Hg, list_elem_of_filter).
  destruct le as [|r l] eqn:El.
  - assert (forall rr', rr' ∈ all_rules (allReWrites ms) -> ~ matches_exactly model rr') as Hno.
    { intros rr' Hr' Hm. assert (rr' ∈ []) as []%not_elem_of_nil by (by apply Hin). }
    replace (match rulesByExactModelMatch ms !! model with Some (r :: _) => Some (rr_rule r, parentRewriteName r) | _ => _ end)
      with (match genericRules ms with r :: _ => Some (rr_rule r, parentRewriteName r) | [] => None end)
      by (subst le; destruct (rulesByExactModelMatch ms !! model) as [[|? ?]|]; done).
    destruct (genericRules ms) as [|r l] eqn:Eg.
    + intros rr' Hr'. split; [by apply Hno|]. destruct (isGeneric rr') eqn:E; [|done].
      assert (rr' ∈ []) as []%not_elem_of_nil by (by apply Hing).
    + exists r. split; [done|]. split; [done|]. right. split; [done|].
      destruct (proj1 (Hing r) ltac:(left)) as [? ?]. split; [done|]. split; [done|].
      intros rr' Hr' Hgr. apply (sorted_head (r :: l) r l Hgs eq_refl). by apply Hing.
  - assert (rulesByExactModelMatch ms !! model = Some (r :: l)) as ->
      by (subst le; destruct (rulesByExactModelMatch ms !! model); simpl in El; congruence).
    exists r. split; [done|]. split; [done|]. left. destruct (proj1 (Hin r) ltac:(left)) as [? ?].
    split; [done|]. split; [done|]. intros rr' Hr' Hm. apply (sorted_head (r :: l) r l Hes eq_refl). by apply Hin.
Qed.

(** * Claims *)

(** After any sequence of updates the store serves the resources that remain:
    a model gets a rule that names it exactly, from the oldest such resource;
    only when there is none, a generic rule from the oldest resource that has
    one; and no rule only when neither exists. *)
Theorem rewrite_precedence sort ops model :
  sorts sort ->
  let ms := foldl (rw_exec sort) newModelRewriteStore ops in
  let M := foldl rw_spec ∅ ops in
  allReWrites ms = M /\
  match getRule ms model with
  | Some (rule, parent) => exists rr, rr_rule rr = rule /\ parentRewriteName rr = parent /\
      (oldest (matches_exactly model) M rr \/
       (forall rr', rr' ∈ all_rules M -> ~ matches_exactly model rr') /\
       oldest (fun rr => isGeneric rr = true) M rr)
  | None => forall rr', rr' ∈ all_rules M -> ~ matches_exactly model rr' /\ isGeneric rr' = false
  end.
Proof.
  intros Hsort ms M. destruct (rw_run_ok sort ops newModelRewriteStore Hsort store_new_ok) as [Hok Ha].
  split; [done|]. pose proof (getRule_ok _ model Hok) as Hg. fold ms in Ha, Hg.
  change (allReWrites newModelRewriteStore) with (∅ : gmap string InferenceModelRewrite) in Ha.
  fold M in Ha. by rewrite Ha in Hg.
Qed.

(** A stable sort, and one that reverses runs of equal elements. *)
#[global] Instance ts_le_dec : RelDecision ts_le.
Proof. intros a b. unfold ts_le. apply _. Defined.
#[global] Instance ts_le_total : Total ts_le.
Proof. intros a b. unfold ts_le. lia. Qed.
#[global] Instance ts_le_trans : Transitive ts_le.
Proof. intros a b c. unfold ts_le. lia. Qed.

Definition stable_sort := merge_sort ts_le.
Definition other_sort (l : list rewriteRuleWithMetadata) := merge_sort ts_le (reverse l).

Lemma stable_sorts : sorts stable_sort.
Proof. intros l. split; [apply merge_sort_Permutation|by apply StronglySorted_merge_sort; apply _]. Qed.

Lemma other_sorts : sorts other_sort.
Proof.
  intros l. unfold other_sort. split; [|by apply StronglySorted_merge_sort; apply _].
  by rewrite merge_sort_Permutation, reverse_Permutation.
Qed.

Definition sample_rule (models : list string) (target : string) : Rule :=
  {| Matches := Some <$> models; Targets := [{| Weight := 1; ModelRewriteName := target |}] |}.

Definition sample_rw (n : string) (ts : Z) (rules : list Rule) : InferenceModelRewrite :=
  {| rw_Name := n; CreationTimestamp := ts; Rules := rules |}.

Definition sample_rw_ops : list rw_op :=
  [ RwSet (sample_rw "new" 9 [sample_rule ["m"] "t-new"]);
    RwSet (sample_rw "old" 3 [sample_rule [] "t-generic"; sample_rule ["m"; "k"] "t-old"]);
    RwSet (sample_rw "older" 1 [sample_rule ["m"] "t-older"]); RwDelete "older" ].

Lemma rewrite_precedence_witness :
  getRule (foldl (rw_exec stable_sort) newModelRewriteStore sample_rw_ops) "m"
    = Some (sample_rule ["m"; "k"] "t-old", "old") /\
  exists rr, rr_rule rr = sample_rule ["m"; "k"] "t-old" /\ parentRewriteName rr = "old" /\
    createTimestamp rr <= 9.
Proof.
  assert (getRule (foldl (rw_exec stable_sort) newModelRewriteStore sample_rw_ops) "m"
    = Some (sample_rule ["m"; "k"] "t-old", "old")) as E by (vm_compute; reflexivity).
  split; [exact E|]. destruct (rewrite_precedence stable_sort sample_rw_ops "m" stable_sorts) as [_ H].
  rewrite E in H. destruct H as (rr & Hr & Hp & [(_ & _ & Hold)|[Hno _]]).
  - exists rr. split; [exact Hr|]. split; [exact Hp|].
    apply (Hold {| rr_rule := sample_rule ["m"] "t-new"; createTimestamp := 9; parentRewriteName := "new" |});
      apply (bool_decide_unpack _); vm_compute; exact I.
  - exfalso. apply (Hno {| rr_rule := sample_rule ["m"] "t-new"; createTimestamp := 9; parentRewriteName := "new" |});
      apply (bool_decide_unpack _); vm_compute; exact I.
Defined.

(** Within one resource the first matching rule should win.  Sorting does not
    keep the order of rules with the same timestamp, so with a sort that is
    free to reorder them the second rule of a resource can win. *)
Theorem rule_order_in_resource_is_lost :
  exists sort, sorts sort /\
    getRule (store_set sort newModelRewriteStore
      (sample_rw "r" 1 [sample_rule ["m"] "first"; sample_rule ["m"] "second"])) "m"
    = Some (sample_rule ["m"] "second", "r").
Proof. exists other_sort. split; [apply other_sorts|]. vm_compute. reflexivity. Qed.

(** * The weighted choice *)

Definition total_weight (models : list TargetModel) : Z := sumZ Weight models.

Lemma i32_id z : -2147483648 <= z < 2147483648 -> i32 z = z.
Proof. intros. unfold i32. rewrite Z.mod_small; lia. Qed.

Lemma fold_weight models t :
  (forall m, m ∈ models -> 0 <= Weight m) -> 0 <= t -> t + total_weight models < 2147483648 ->
  foldl (fun t m => i32 (t + Weight m)) t models = t + total_weight models.
Proof.
  unfold total_weight. revert t. induction models as [|m models IH]; intros t Hw Ht Hs; simpl; [lia|].
  rewrite sumZ_cons in Hs. assert (0 <= Weight m) by (apply Hw; left).
  assert (0 <= sumZ Weight models) by (apply sumZ_nonneg; intros; apply Hw; by right).
  rewrite i32_id by lia. rewrite IH; [lia|intros; apply Hw; by right|lia|lia].
Qed.

Lemma pick_weighted_spec l1 m l2 n t :
  (forall m', m' ∈ l1 ++ m :: l2 -> 0 <= Weight m') -> 0 <= t ->
  t + total_weight (l1 ++ m :: l2) < 2147483648 ->
  t + total_weight l1 <= n < t + total_weight l1 + Weight m ->
  pick_weighted n t (l1 ++ m :: l2) = Some (ModelRewriteName m).
Proof.
  unfold total_weight. revert t. induction l1 as [|x l1 IH]; intros t Hw Ht Hs Hn; cbn [app pick_weighted].
  - cbn [app] in Hs, Hw. rewrite sumZ_cons in Hs. change (sumZ Weight []) with 0 in Hn.
    assert (0 <= sumZ Weight l2) by (apply sumZ_nonneg; intros; apply Hw; by right).
    rewrite i32_id by lia. by rewrite (proj2 (Z.ltb_lt _ _)) by lia.
  - cbn [app] in Hs, Hw. rewrite sumZ_cons in Hs, Hn.
    assert (0 <= Weight x) by (apply Hw; left).
    assert (0 <= sumZ Weight (l1 ++ m :: l2)) by (apply sumZ_nonneg; intros; apply Hw; by right).
    assert (0 <= sumZ Weight l1) by (apply sumZ_nonneg; intros; apply Hw; right; apply elem_of_app; by left).
    rewrite i32_id by lia. rewrite (proj2 (Z.ltb_ge _ _)) by lia.
    apply IH; [intros; apply Hw; by right|lia|lia|lia].
Qed.

(** Among non-negative weights whose sum is positive and fits [int32], a target
    is chosen by exactly as many of the equally likely random numbers as its
    weight: those from the sum of the weights before it on. *)
Theorem weighted_choice_proportional l1 m l2 n :
  (forall m', m' ∈ l1 ++ m :: l2 -> 0 <= Weight m') ->
  total_weight (l1 ++ m :: l2) < 2147483648 ->
  total_weight l1 <= n < total_weight l1 + Weight m ->
  selectWeightedModel (fun _ => n) (l1 ++ m :: l2) = Some (ModelRewriteName m).
Proof.
  intros Hw Hs Hn. unfold selectWeightedModel.
  assert (0 < total_weight (l1 ++ m :: l2)) as Hpos.
  { unfold total_weight in *. rewrite sumZ_app, sumZ_cons.
    assert (0 <= sumZ Weight l1) by (apply sumZ_nonneg; intros; apply Hw; apply elem_of_app; by left).
    assert (0 <= sumZ Weight l2) by (apply sumZ_nonneg; intros; apply Hw; apply elem_of_app; right; by right).
    lia. }
  rewrite fold_weight by (done || lia). rewrite Z.add_0_l.
  rewrite (proj2 (Z.eqb_neq _ _)) by lia. unfold rand_Intn. rewrite (proj2 (Z.leb_gt _ _)) by lia. simpl.
  rewrite pick_weighted_spec by (done || lia). by destruct (l1 ++ m :: l2) eqn:E; [destruct l1|].
Qed.

Lemma weighted_choice_proportional_witness :
  selectWeightedModel (fun _ => 7) [{| Weight := 7; ModelRewriteName := "a" |}; {| Weight := 3; ModelRewriteName := "b" |}]
    = Some "b".
Proof.
  apply (weighted_choice_proportional [{| Weight := 7; ModelRewriteName := "a" |}] {| Weight := 3; ModelRewriteName := "b" |} [] 7).
  - intros m' Hm. simpl in Hm. rewrite !elem_of_cons in Hm.
    destruct Hm as [-> | [-> | []%not_elem_of_nil]]; vm_compute; discriminate.
  - vm_compute. reflexivity.
  - vm_compute. split; [discriminate|reflexivity].
Defined.
