(* ===== verification/ReqCtx.v ===== *)
(** The data an ext_proc stream works on: the messages of Envoy, the request
    context (src/pkg/epp/handlers/server.go), requests and responses as plugins
    see them, errors (src/pkg/common/error/error.go), headers
    (src/pkg/common/envoy/headers.go, src/pkg/epp/util/request/headers.go), and
    the monad of code that mutates a context, fails or panics. *)

From S2P Require Import Prelude InFlight Ordering Chunking.

(** * Values of dynamic type

    What [structpb.Struct.AsMap] and [json.Unmarshal] produce, as far as the
    program looks into it. *)

Inductive value :=
| VString (s : string)
| VList (l : list value)
| VMap (m : list (string * value))
| VOther (n : Z).

Definition assoc {A} (k : string) (l : list (string * A)) : option A :=
  match list_find (fun kv => kv.1 = k) l with Some (_, kv) => Some kv.2 | None => None end.

(** * Errors *)

(** An [errcommon.Error], or another error with its gRPC status code. *)
Inductive goerror :=
| Err (Code Msg : string)
| ErrOther (status : Z) (msg : string).

Definition Unknown : string := "Unknown".
Definition BadRequest : string := "BadRequest".
Definition Unauthorized : string := "Unauthorized".
Definition Forbidden : string := "Forbidden".
Definition NotFound : string := "NotFound".
Definition Internal : string := "Internal".
Definition ServiceUnavailable : string := "ServiceUnavailable".
Definition ModelServerError : string := "ModelServerError".
Definition ResourceExhausted : string := "ResourceExhausted".

Definition error_Error (e : goerror) : string :=
  match e with
  | Err c m => "inference error: " +:+ c +:+ " - " +:+ m
  | ErrOther _ m => m
  end.

Definition CanonicalCode (e : goerror) : string :=
  match e with Err c _ => c | ErrOther _ _ => Unknown end.

(** * Messages of the ext_proc protocol *)

Record HeaderValue := { hv_Key : string; hv_Value : string; hv_RawValue : string }.

(** What Envoy sends.  The list of headers is behind a pointer. *)
Inductive message :=
| MRequestHeaders (headers : option (list HeaderValue)) (eos : bool)
| MRequestBody (body : bytes) (eos : bool)
| MRequestTrailers
| MResponseHeaders (headers : option (list HeaderValue))
| MResponseBody (body : bytes) (eos : bool)
| MResponseTrailers.

(** The message with the metadata of its filters, as maps. *)
Record ProcessingRequest := { pr_Metadata : option (gmap string value); pr_Request : message }.

Definition Struct := gmap string value.

(** What the server answers; header mutations are key and raw value. *)
Inductive ProcessingResponse :=
| PRequestHeaders (ClearRouteCache : bool) (SetHeaders : list (string * string)) (DynamicMetadata : option Struct)
| PRequestBody (r : StreamedBodyResponse)
| PRequestTrailers
| PResponseHeaders (SetHeaders : list (string * string))
| PResponseBody (r : StreamedBodyResponse) (DynamicMetadata : option Struct)
| PResponseTrailers
| PImmediateResponse (code : Z) (body : string).

Definition ExtractMetadataValues (req : ProcessingRequest) : Struct := default ∅ (pr_Metadata req).

Definition GetHeaderValue (header : HeaderValue) : string :=
  if negb (String.eqb (hv_RawValue header) EmptyString) then hv_RawValue header else hv_Value header.

Definition ExtractHeaderValue (headers : option (list HeaderValue)) (headerKey : string) : string :=
  match headers with
  | None => EmptyString
  | Some hs =>
      match list_find (fun h => strings_ToLower (hv_Key h) = strings_ToLower headerKey) hs with
      | Some (_, h) => GetHeaderValue h
      | None => EmptyString
      end
  end.

(** The HTTP status of an error code; [None] for the codes that have none. *)
Definition http_status (code : string) : option Z :=
  if String.eqb code BadRequest then Some 400
  else if String.eqb code Unauthorized then Some 401
  else if String.eqb code Forbidden then Some 403
  else if String.eqb code NotFound then Some 404
  else if String.eqb code ResourceExhausted then Some 429
  else if String.eqb code Internal then Some 500
  else if String.eqb code ServiceUnavailable then Some 503
  else None.

(** [codes.Unknown], the status of an error that carries none. *)
Definition status_Unknown : Z := 2.

Definition BuildErrResponse (e : goerror) : ProcessingResponse + goerror :=
  match http_status (CanonicalCode e) with
  | Some httpCode => inl (PImmediateResponse httpCode (error_Error e))
  | None =>
      inr (ErrOther (match e with Err _ _ => status_Unknown | ErrOther c _ => c end)
             ("failed to handle request: " +:+ error_Error e))
  end.

(** * Well-known names *)

Definition RequestIdHeaderKey : string := "x-request-id".
Definition SubsetFilterNamespace : string := "envoy.lb.subset_hint".
Definition SubsetFilterKey : string := "x-gateway-destination-endpoint-subset".
Definition DestinationEndpointNamespace : string := "envoy.lb".
Definition DestinationEndpointKey : string := "x-gateway-destination-endpoint".
Definition DestinationEndpointServedKey : string := "x-gateway-destination-endpoint-served".
Definition FlowFairnessIDKey : string := "x-gateway-inference-fairness-id".
Definition ObjectiveKeyHeader : string := "x-gateway-inference-objective".
Definition ModelNameRewriteKey : string := "x-gateway-model-name-rewrite".
Definition DefaultFairnessID : string := "default-flow".

Definition InputControlHeaders : list string :=
  strings_ToLower <$> [FlowFairnessIDKey; ObjectiveKeyHeader; ModelNameRewriteKey; SubsetFilterKey].
Definition OutputInjectionHeaders : list string :=
  strings_ToLower <$> [DestinationEndpointKey; DestinationEndpointServedKey].
Definition ProtocolHeaders : list string := ["content-length"].

Definition IsSystemOwnedHeader (key : string) : bool :=
  let k := strings_ToLower key in
  bool_decide (k ∈ InputControlHeaders) || bool_decide (k ∈ OutputInjectionHeaders)
    || bool_decide (k ∈ ProtocolHeaders).

(** * Requests and responses as plugins see them *)

(** The unmarshaled payload of a request; a type that is none of these is what
    the [default] case of a type switch is for. *)
Inductive RequestPayload :=
| PayloadMap (m : gmap string value)
| PayloadProto
| RawPayload (b : bytes)
| OtherPayload.

Record LLMRequestBody := mkBody {
  lb_Prompt : InFlight.LLMRequestBody value;
  lb_Payload : RequestPayload;
  lb_Stream : bool
}.

Record LLMRequest := mkRequest {
  lr_RequestId : string;
  lr_TargetModel : string;
  lr_Body : option LLMRequestBody;
  lr_Headers : gmap string string;
  lr_Priority : Z;
  lr_RequestSizeBytes : Z;
  lr_TokenIDs : option (list Z)
}.

Record EndpointMetadata := {
  NamespacedName : string * string;
  PodName : string;
  Address : string;
  Port : string;
  MetricsHost : string;
  Labels : gmap string string
}.

Record Usage := {
  PromptTokens : Z;
  CompletionTokens : Z;
  TotalTokens : Z;
  CachedTokens : option Z
}.

Record PluginResponse := mkPluginResponse {
  rs_RequestId : string;
  rs_Headers : gmap string string;
  rs_EndOfStream : bool;
  rs_ReqMetadata : option Struct;
  rs_Usage : Usage;
  rs_DynamicMetadata : option Struct
}.

(** * The request context *)

Inductive StreamRequestState :=
| RequestReceived
| HeaderRequestResponseComplete
| BodyRequestResponsesComplete
| TrailerRequestResponsesComplete
| ResponseReceived
| HeaderResponseResponseComplete
| BodyResponseResponsesComplete
| TrailerResponseResponsesComplete.

#[global] Instance StreamRequestState_eq_dec : EqDecision StreamRequestState.
Proof. solve_decision. Defined.

Record Request := mkReq {
  rq_Headers : gmap string string;
  rq_RawBody : bytes;
  rq_Metadata : Struct
}.

Record Response := mkResp {
  rp_Headers : gmap string string;
  rp_DynamicMetadata : option Struct
}.

Record RequestContext := mkCtx {
  TargetPod : option EndpointMetadata;
  TargetEndpoint : string;
  IncomingModelName : string;
  TargetModelName : string;
  FairnessID : string;
  ObjectiveKey : string;
  Priority : Z;
  RequestReceivedTimestamp : Z;
  ResponseCompleteTimestamp : Z;
  RequestSize : Z;
  ctx_Usage : Usage;
  ResponseSize : Z;
  ResponseComplete : bool;
  ResponseStatusCode : string;
  RequestRunning : bool;
  ctx_Request : Request;
  SchedulingRequest : option LLMRequest;
  RequestState : StreamRequestState;
  modelServerStreaming : bool;
  ctx_Response : Response;
  reqHeaderResp : option ProcessingResponse;
  reqBodyResp : list ProcessingResponse;
  reqTrailerResp : option ProcessingResponse;
  respHeaderResp : option ProcessingResponse;
  respBodyResp : list ProcessingResponse;
  respTrailerResp : option ProcessingResponse
}.

#[global] Instance eta_LLMRequestBody : Eta LLMRequestBody := fun b => mkBody (lb_Prompt b) (lb_Payload b) (lb_Stream b).
#[global] Instance eta_PluginResponse : Eta PluginResponse := fun r =>
  mkPluginResponse (rs_RequestId r) (rs_Headers r) (rs_EndOfStream r) (rs_ReqMetadata r) (rs_Usage r)
    (rs_DynamicMetadata r).
#[global] Instance eta_Request : Eta Request := fun r => mkReq (rq_Headers r) (rq_RawBody r) (rq_Metadata r).
#[global] Instance eta_Response : Eta Response := fun r => mkResp (rp_Headers r) (rp_DynamicMetadata r).
#[global] Instance eta_RequestContext : Eta RequestContext := fun c =>
  mkCtx (TargetPod c) (TargetEndpoint c) (IncomingModelName c) (TargetModelName c) (FairnessID c) (ObjectiveKey c)
    (Priority c) (RequestReceivedTimestamp c) (ResponseCompleteTimestamp c) (RequestSize c) (ctx_Usage c)
    (ResponseSize c) (ResponseComplete c) (ResponseStatusCode c) (RequestRunning c) (ctx_Request c)
    (SchedulingRequest c) (RequestState c) (modelServerStreaming c) (ctx_Response c) (reqHeaderResp c)
    (reqBodyResp c) (reqTrailerResp c) (respHeaderResp c) (respBodyResp c) (respTrailerResp c).

Definition no_usage : Usage :=
  {| PromptTokens := 0; CompletionTokens := 0; TotalTokens := 0; CachedTokens := None |}.

(** The context [Process] starts with. *)
Definition new_context : RequestContext :=
  mkCtx None EmptyString EmptyString EmptyString EmptyString EmptyString 0 0 0 0 no_usage 0 false EmptyString false
    (mkReq ∅ [] ∅) None RequestReceived false (mkResp ∅ None) None [] None None [] None.

(** * Code that mutates a shared object

    A computation changes a state, and returns, fails with an error, or panics;
    the state keeps what was assigned before. *)

Inductive result (A : Type) :=
| Ret (a : A)
| Fails (e : goerror)
| Panics.
Arguments Ret {A} a.
Arguments Fails {A} e.
Arguments Panics {A}.

Definition M (S A : Type) : Type := S -> S * result A.

Definition ret {S A} (a : A) : M S A := fun s => (s, Ret a).
Definition fail {S A} (e : goerror) : M S A := fun s => (s, Fails e).
Definition panic {S A} : M S A := fun s => (s, Panics).
Definition read {S A} (f : S -> A) : M S A := fun s => (s, Ret (f s)).
Definition modify {S} (f : S -> S) : M S unit := fun s => (f s, Ret tt).

Definition bind {S A B} (m : M S A) (k : A -> M S B) : M S B := fun s =>
  match m s with
  | (s', Ret a) => k a s'
  | (s', Fails e) => (s', Fails e)
  | (s', Panics) => (s', Panics)
  end.

Notation "x <~ m ;; k" := (bind m (fun x => k))
  (at level 100, m at next level, right associativity) : flow_scope.
Notation "m ;;; k" := (bind m (fun _ => k))
  (at level 100, right associativity) : flow_scope.

(** Dereferencing a pointer, or indexing. *)
Definition deref {S A} (o : option A) : M S A :=
  match o with Some a => ret a | None => panic end.

(** A loop over a slice. *)
Fixpoint each {S A} (f : A -> M S unit) (l : list A) : M S unit :=
  match l with
  | [] => ret tt
  | x :: l => f x ;;; each f l
  end.
