(* ===== verification/CandidatesProps.v ===== *)
(** What the look-up of endpoint candidates and its cache promise. *)

From Stdlib Require Import Ascii.
From S2P Require Import Prelude InFlight Ordering Chunking ReqCtx Candidates.

(** * Cache keys *)

Definition bar : ascii := "|".
Definition colon : ascii := ":".

Fixpoint occurs (c : ascii) (s : string) : bool :=
  match s with
  | EmptyString => false
  | String d s => Ascii.eqb d c || occurs c s
  end.

Lemma occurs_app c s t : occurs c (s +:+ t) = occurs c s || occurs c t.
Proof. induction s as [|d s IH]; [done|]. simpl. by rewrite IH, orb_assoc. Qed.

(** A string of the documented form "address:port". *)
Definition hint_string (v : value) : Prop :=
  exists s, v = VString s /\ occurs colon s = true /\ occurs bar s = false.

(** Metadata whose subset hint, if there is one, is well formed. *)
Definition hint_ok (md : option Struct) : Prop :=
  forall l, metadata_subset md = Some l -> Forall hint_string l.

Lemma split_bar s t u v :
  occurs bar s = false -> occurs bar t = false ->
  s +:+ String bar u = t +:+ String bar v -> s = t /\ u = v.
Proof.
  revert t. induction s as [|c s IH]; intros [|d t] Hs Ht Heq; cbn in *.
  - by injection Heq.
  - injection Heq as <- _. by rewrite Ascii.eqb_refl in Ht.
  - injection Heq as -> _. by rewrite Ascii.eqb_refl in Hs.
  - apply orb_false_iff in Hs as [_ Hs]. apply orb_false_iff in Ht as [_ Ht].
    injection Heq as -> Heq. destruct (IH t Hs Ht Heq) as [-> ->]. done.
Qed.

Lemma join_bar_inj l k :
  Forall (fun s => occurs bar s = false) l -> Forall (fun s => occurs bar s = false) k ->
  l <> [] -> k <> [] -> join_bar l = join_bar k -> l = k.
Proof.
  assert (Hsep : forall s u, occurs bar (s +:+ String bar u) = true).
  { intros. rewrite occurs_app. simpl. by rewrite orb_true_r. }
  revert k. induction l as [|s l IH]; intros [|t k] Hl Hk Hl0 Hk0 Heq; [done..|].
  apply Forall_cons in Hl as [Hs Hl]. apply Forall_cons in Hk as [Ht Hk].
  destruct l as [|s' l], k as [|t' k].
  - cbn in Heq. by subst.
  - change (s = t +:+ String bar (join_bar (t' :: k))) in Heq. by rewrite Heq, Hsep in Hs.
  - change (s +:+ String bar (join_bar (s' :: l)) = t) in Heq. by rewrite <- Heq, Hsep in Ht.
  - change (s +:+ String bar (join_bar (s' :: l)) = t +:+ String bar (join_bar (t' :: k))) in Heq.
    destruct (split_bar _ _ _ _ Hs Ht Heq) as [-> Hj]. f_equal. by apply IH.
Qed.

Lemma join_bar_colon l : l <> [] -> Forall (fun s => occurs colon s = true) l -> occurs colon (join_bar l) = true.
Proof.
  intros Hne Hl. destruct l as [|s [|t l]]; [done|by apply Forall_cons in Hl as [? _]|].
  apply Forall_cons in Hl as [Hs _]. change (occurs colon (s +:+ ("|" +:+ join_bar (t :: l))) = true).
  by rewrite occurs_app, Hs.
Qed.

(** The strings of a well-formed hint. *)
Lemma hint_strings l :
  Forall hint_string l ->
  exists ss, l = VString <$> ss /\ omap string_of l = ss /\
    Forall (fun s => occurs colon s = true) ss /\ Forall (fun s => occurs bar s = false) ss.
Proof.
  induction 1 as [|v l (s & -> & Hc & Hb) Hl IH]; [by exists []|].
  destruct IH as (ss & -> & Hss & Hcs & Hbs). exists (s :: ss). cbn. rewrite Hss. by repeat split; constructor.
Qed.

Lemma key_of_strings ss md :
  metadata_subset md = Some (VString <$> ss) -> ss <> [] ->
  generateCacheKey md = join_bar (merge_sort string_le ss).
Proof.
  intros Hmd Hne. unfold generateCacheKey. rewrite Hmd.
  assert (Hom : omap string_of (VString <$> ss) = ss).
  { clear. induction ss as [|s ss IH]; [done|]. cbn. by rewrite IH. }
  destruct ss as [|s [|t ss]]; [done|done|]. cbn [fmap list_fmap] in *. by rewrite Hom.
Qed.

Lemma sorted_nil (ss : list string) : ss <> [] -> merge_sort string_le ss <> [].
Proof.
  intros Hne Hm. apply Hne, Permutation_nil. rewrite <- Hm. apply merge_sort_Permutation.
Qed.

(** The three kinds of well-formed metadata and their keys. *)
Lemma hint_cases md :
  hint_ok md ->
  (metadata_subset md = None /\ generateCacheKey md = defaultCacheKey) \/
  (metadata_subset md = Some [] /\ generateCacheKey md = emptySubsetCacheKey) \/
  exists ss, ss <> [] /\ Forall (fun s => occurs colon s = true) ss /\ Forall (fun s => occurs bar s = false) ss /\
    metadata_subset md = Some (VString <$> ss) /\ generateCacheKey md = join_bar (merge_sort string_le ss).
Proof.
  intros Hok. destruct (metadata_subset md) as [l|] eqn:Hmd; [|left; split; [done|]; unfold generateCacheKey; by rewrite Hmd].
  destruct (hint_strings l (Hok l Hmd)) as (ss & -> & _ & Hc & Hb). destruct ss as [|s ss].
  - right; left. split; [done|]. unfold generateCacheKey. by rewrite Hmd.
  - right; right. exists (s :: ss). repeat split; try done. by apply key_of_strings.
Qed.

(** * The look-up *)

Section Locate.

Context {E : Type} (GetMetadata : E -> option EndpointMetadata).
Implicit Types pods : list E.

Lemma elem_of_subset_set l a : a ∈ subset_set l <-> exists s, VString s ∈ l /\ a = address_of s.
Proof.
  unfold subset_set. transitivity (a ∈ (∅ : gset string) \/ exists s, VString s ∈ l /\ a = address_of s); [|set_solver].
  generalize (∅ : gset string). induction l as [|v l IH]; intros X; cbn [foldl]; [set_solver|].
  rewrite IH. destruct v; cbn [string_of]; set_solver.
Qed.

Lemma PodList_all pods : PodList pods AllPodsPredicate = pods.
Proof. induction pods as [|e pods IH]; [done|]. cbn. by f_equal. Qed.

(** The endpoints a hint selects: those whose address it names. *)
Definition selected (md : option Struct) (e : E) : Prop :=
  match metadata_subset md with
  | None => True
  | Some l => exists pod s, GetMetadata e = Some pod /\ VString s ∈ l /\ Address pod = address_of s
  end.

Lemma in_subset_spec (X : gset string) e :
  in_subset GetMetadata X e = true <-> exists pod, GetMetadata e = Some pod /\ Address pod ∈ X.
Proof.
  unfold in_subset. destruct (GetMetadata e) as [pod|]; [|naive_solver].
  rewrite bool_decide_eq_true. naive_solver.
Qed.

(** The look-up keeps, in the order of the datastore, the endpoints the hint
    selects. *)
Lemma locate_selects pods md e :
  e ∈ Locate GetMetadata false pods md <-> e ∈ pods /\ selected md e.
Proof.
  unfold Locate, selected, PodList. destruct (metadata_subset md) as [l|].
  - assert (Hin : e ∈ List.filter (in_subset GetMetadata (subset_set l)) pods <->
      e ∈ pods /\ (exists pod s, GetMetadata e = Some pod /\ VString s ∈ l /\ Address pod = address_of s)).
    { rewrite !list_elem_of_In, filter_In, <- list_elem_of_In, in_subset_spec.
      setoid_rewrite elem_of_subset_set. set_solver. }
    destruct l as [|v l]; [|exact Hin]. set_solver.
  - rewrite !list_elem_of_In, filter_In. unfold AllPodsPredicate. naive_solver.
Qed.

(** Well-formed metadata with the same cache key asks the same question. *)
Lemma same_key_same_answer disable pods md md' :
  hint_ok md -> hint_ok md' -> generateCacheKey md = generateCacheKey md' ->
  Locate GetMetadata disable pods md = Locate GetMetadata disable pods md'.
Proof.
  intros Hmd Hmd' Hkey. unfold Locate. destruct disable; [done|].
  destruct (hint_cases md Hmd) as [[-> Hk]|[[-> Hk]|(ss & Hss & Hc & Hb & -> & Hk)]],
    (hint_cases md' Hmd') as [[-> Hk']|[[-> Hk']|(ss' & Hss' & Hc' & Hb' & -> & Hk')]];
    try done; rewrite Hk, Hk' in Hkey; try discriminate;
    try (exfalso; apply (f_equal (occurs colon)) in Hkey; rewrite join_bar_colon in Hkey; [discriminate|by apply sorted_nil|
           by rewrite merge_sort_Permutation]).
  assert (Hp : ss ≡ₚ ss').
  { apply join_bar_inj in Hkey; rewrite ?merge_sort_Permutation; try done; try by apply sorted_nil.
    etrans; [symmetry; apply (merge_sort_Permutation string_le)|]. rewrite Hkey. apply merge_sort_Permutation. }
  destruct ss as [|s ss]; [done|]. destruct ss' as [|s' ss']; [done|].
  apply filter_ext. intros e. apply eq_iff_eq_true.
  rewrite !in_subset_spec. setoid_rewrite elem_of_subset_set. by setoid_rewrite Hp.
Qed.

End Locate.

(** * The cache *)

Section Cache.

Context {E : Type} (GetMetadata : E -> option EndpointMetadata) (disable : bool).
Context (ttl0 now0 : Z) (pods0 : list E) (H : Z).

Notation run := (sys_run GetMetadata disable ttl0 now0 pods0).
Notation TTL := (ttl (NewCachedEndpointCandidates (E := E) ttl0)).

(** [s1] is a state the run went through. *)
Definition moment (evs : list event) (s1 : sys) : Prop := exists evs1 evs2, evs = evs1 ++ evs2 /\ run evs1 = Some s1.

Lemma moment_now evs s : run evs = Some s -> moment evs s.
Proof. intros Hrun. exists evs, []. by rewrite app_nil_r. Qed.

Lemma moment_later evs ev s1 : moment evs s1 -> moment (evs ++ [ev]) s1.
Proof. intros (evs1 & evs2 & -> & Hrun). exists evs1, (evs2 ++ [ev]). by rewrite <- app_assoc. Qed.

(** What the datastore answered to [md] at most [TTL + H] before [t]. *)
Definition recent (evs : list event) (md : option Struct) (r : list E) (t : Z) : Prop :=
  exists s1, moment evs s1 /\ r = Locate GetMetadata disable (s_pods s1) md /\ s_now s1 <= t <= s_now s1 + TTL + H.

(** Requests carry well-formed hints, and no call holds the lock longer than [H]. *)
Definition event_ok (ev : event (E := E)) : Prop :=
  match ev with
  | FastPath md => hint_ok md
  | SlowPath _ hold => Z.of_nat hold <= H
  | _ => True
  end.

Record entry_ok (evs : list event) (now : Z) (k : string) (en : cacheEntry) : Prop := {
  eo_source : exists s1 md, moment evs s1 /\ hint_ok md /\ generateCacheKey md = k /\
    ce_pods en = Locate GetMetadata disable (s_pods s1) md /\
    expiry en <= s_now s1 + TTL + H /\ s_now s1 <= now
}.

Record cached_ok (evs : list event) (s : sys) : Prop := {
  co_ttl : ttl (s_cached s) = TTL;
  co_missed : Forall hint_ok (s_missed s);
  co_entries : map_Forall (entry_ok evs (s_now s)) (cache (s_cached s));
  co_answers : Forall (fun a => recent evs (an_metadata a) (an_pods a) (an_time a)) (s_answers s)
}.

Lemma entry_later evs ev now now' k en :
  now <= now' -> entry_ok evs now k en -> entry_ok (evs ++ [ev]) now' k en.
Proof.
  intros Hn [(s1 & md & Hm & Hrest)]. constructor. exists s1, md. split; [by apply moment_later|].
  destruct Hrest as (? & ? & ? & ? & ?). repeat split; try done. lia.
Qed.

Lemma recent_later evs ev md r t : recent evs md r t -> recent (evs ++ [ev]) md r t.
Proof. intros (s1 & Hm & Hrest). exists s1. split; [by apply moment_later|done]. Qed.

(** A fresh entry answers a well-formed request as the datastore recently did. *)
Lemma fresh_recent evs s md r :
  map_Forall (entry_ok evs (s_now s)) (cache (s_cached s)) -> hint_ok md ->
  fresh_entry (s_now s) (generateCacheKey md) (s_cached s) = Some r -> recent evs md r (s_now s).
Proof.
  intros Hen Hmd Hf. unfold fresh_entry in Hf.
  destruct (cache (s_cached s) !! generateCacheKey md) as [en|] eqn:Hlk; [|done]. cbn in Hf.
  destruct (s_now s <? expiry en) eqn:Hexp; [|done]. injection Hf as <-. apply Z.ltb_lt in Hexp.
  destruct (Hen _ _ Hlk) as [(s1 & md' & Hm & Hok & Hk & Hp & He & Ht)]. exists s1. split; [done|]. split; [|lia].
  rewrite Hp. by apply same_key_same_answer.
Qed.

Lemma cached_step evs ev s s' :
  run evs = Some s -> cached_ok evs s -> event_ok ev -> sys_exec GetMetadata disable s ev = Some s' ->
  cached_ok (evs ++ [ev]) s'.
Proof.
  intros Hrun [Httl Hmi Hen Han] Hev Hex.
  assert (Hen' : forall now', s_now s <= now' -> map_Forall (entry_ok (evs ++ [ev]) now') (cache (s_cached s))).
  { intros now' Hn k en Hlk. eapply entry_later, Hen, Hlk. done. }
  assert (Han' : Forall (fun a => recent (evs ++ [ev]) (an_metadata a) (an_pods a) (an_time a)) (s_answers s)).
  { eapply Forall_impl; [exact Han|]. intros a. apply recent_later. }
  destruct ev as [d|pods|md|i hold|]; cbn [sys_exec] in Hex.
  - injection Hex as <-. split; cbn; try done. apply Hen'. lia.
  - injection Hex as <-. split; cbn; try done. by apply Hen'.
  - destruct (fresh_entry _ _ _) as [r|] eqn:Hf; injection Hex as <-; split; cbn; try done; try by apply Hen'.
    + constructor; [|done]. by apply recent_later, fresh_recent.
    + by constructor.
  - destruct (s_missed s !! i) as [md|] eqn:Hi; [|done]. cbn [mbind option_bind] in Hex.
    assert (Hmd : hint_ok md) by (by eapply Forall_lookup in Hmi).
    assert (Hdel : Forall hint_ok (delete i (s_missed s))) by by apply Forall_delete.
    unfold locate_locked in Hex. destruct (fresh_entry _ _ _) as [r|] eqn:Hf; injection Hex as <-; split; cbn; try done.
    + by apply Hen'.
    + constructor; [|done]. by apply recent_later, fresh_recent.
    + assert (Hle : s_now s <= s_now s + Z.of_nat hold) by lia.
      apply map_Forall_insert_2; [|by apply Hen'].
      constructor. exists s, md. cbn [event_ok] in Hev. cbn [expiry ce_pods]. rewrite Httl.
      split; [by apply moment_later, moment_now|]. repeat split; try done; lia.
    + constructor; [|done]. cbn in Hev |- *. exists s. split; [by apply moment_later, moment_now|].
      split; [done|]. unfold NewCachedEndpointCandidates. cbn. case_match; unfold defaultCacheTTL; lia.
  - injection Hex as <-. split; cbn; try done. unfold cleanup; cbn. intros k en.
    rewrite map_lookup_filter_Some. intros [Hlk _]. by eapply Hen'.
Qed.

Lemma cached_run evs s : run evs = Some s -> Forall event_ok evs -> cached_ok evs s.
Proof.
  revert s. induction evs as [|ev evs IH] using rev_ind; intros s Hrun Hok.
  - injection Hrun as <-. by split; cbn.
  - apply Forall_app in Hok as [Hok Hev]. apply Forall_cons in Hev as [Hev _].
    unfold sys_run in Hrun. rewrite ofold_app in Hrun.
    destruct (ofold _ evs _) as [s1|] eqn:Hs1; [|done]. cbn [mbind option_bind ofold] in Hrun.
    destruct (sys_exec _ _ s1 ev) as [s2|] eqn:Hs2; [|done]. injection Hrun as <-.
    eapply cached_step; [exact Hs1|exact (IH s1 Hs1 Hok)|exact Hev|exact Hs2].
Qed.

End Cache.

(** * Claims *)

(** Cached candidates are recent and right.  For every interleaving of
    look-ups, clean-ups, changes of the datastore and passing time, every answer
    is what the datastore gave to the request's own subset hint at a moment of
    the run at most the time-to-live (and the time a call held the lock) ago,
    when the hints have the documented form. *)
Theorem cached_candidates_recent {E} (GetMetadata : E -> option EndpointMetadata) disable ttl0 now0 pods0 H evs s :
  sys_run GetMetadata disable ttl0 now0 pods0 evs = Some s -> Forall (event_ok H) evs ->
  Forall (fun a => exists evs1 evs2 s1, evs = evs1 ++ evs2 /\
      sys_run GetMetadata disable ttl0 now0 pods0 evs1 = Some s1 /\
      an_pods a = Locate GetMetadata disable (s_pods s1) (an_metadata a) /\
      s_now s1 <= an_time a <= s_now s1 + ttl (s_cached s) + H) (s_answers s).
Proof.
  intros Hrun Hok. destruct (cached_run _ _ _ _ _ _ _ _ Hrun Hok) as [Httl _ _ Han].
  eapply Forall_impl; [exact Han|]. rewrite Httl. intros a (s1 & (evs1 & evs2 & -> & H1) & Hp & Ht). eauto 10.
Qed.

Definition sample_metadata (l : list value) : option Struct :=
  Some {[ SubsetFilterNamespace := VMap [(SubsetFilterKey, VList l)] ]}.

Definition sample_pod (addr : string) : EndpointMetadata :=
  {| NamespacedName := ("default", addr); PodName := addr; Address := addr; Port := "8000";
     MetricsHost := EmptyString; Labels := ∅ |}.

(** Two look-ups with the hint in different order: the second one is answered
    from the cache, although an endpoint was added meanwhile. *)
Definition sample_lookups : list (event (E := EndpointMetadata)) :=
  [FastPath (sample_metadata [VString "a:1"; VString "b:1"]); SlowPath 0 3; Elapse 10;
   Datastore (sample_pod <$> ["a"; "b"; "c"]); FastPath (sample_metadata [VString "b:1"; VString "a:1"]); Cleanup].

Definition sample_answers : option (list (list string)) :=
  s ← sys_run Some false 0 100 (sample_pod <$> ["a"; "c"]) sample_lookups;
  Some ((fun a => Address <$> an_pods a) <$> s_answers s).

Lemma sample_hint_ok ss :
  forallb (fun s => occurs colon s && negb (occurs bar s)) ss = true -> hint_ok (sample_metadata (VString <$> ss)).
Proof.
  intros Hss l Hl. change (Some (VString <$> ss) = Some l) in Hl. injection Hl as <-.
  apply Forall_fmap, Forall_forall. intros s Hs. rewrite forallb_forall in Hss.
  specialize (Hss s (proj1 (list_elem_of_In _ _) Hs)). apply andb_prop in Hss as [? ?%negb_true_iff]. by exists s.
Qed.

Lemma cached_candidates_recent_witness :
  sample_answers = Some [["a"]; ["a"]] /\
  exists s, sys_run Some false 0 100 (sample_pod <$> ["a"; "c"]) sample_lookups = Some s /\
    Forall (fun a => exists evs1 evs2 s1, sample_lookups = evs1 ++ evs2 /\
      sys_run Some false 0 100 (sample_pod <$> ["a"; "c"]) evs1 = Some s1 /\
      an_pods a = Locate Some false (s_pods s1) (an_metadata a) /\
      s_now s1 <= an_time a <= s_now s1 + ttl (s_cached s) + 3) (s_answers s).
Proof.
  split; [vm_compute; reflexivity|].
  destruct (sys_run Some false 0 100 (sample_pod <$> ["a"; "c"]) sample_lookups) as [s|] eqn:Hrun;
    [|vm_compute in Hrun; discriminate].
  exists s. split; [reflexivity|].
  apply (cached_candidates_recent Some false 0 100 (sample_pod <$> ["a"; "c"]) 3 sample_lookups s Hrun).
  unfold sample_lookups. rewrite !Forall_cons. repeat split; cbn [event_ok]; try apply Forall_nil_2; try lia.
  - by apply (sample_hint_ok ["a:1"; "b:1"]).
  - by apply (sample_hint_ok ["b:1"; "a:1"]).
Defined.

Lemma fresh_empty {E} now key ttl0 : fresh_entry (E := E) now key {| ttl := ttl0; cache := ∅ |} = None.
Proof. unfold fresh_entry. cbn [cache]. by rewrite lookup_empty. Qed.

Lemma fresh_insert {E} now key ttl0 r t (m : gmap string (cacheEntry (E := E))) :
  now < t -> fresh_entry now key {| ttl := ttl0; cache := <[key := {| ce_pods := r; expiry := t |}]> m |} = Some r.
Proof. intros Hlt. unfold fresh_entry. cbn [cache]. rewrite lookup_insert_eq. cbn. by rewrite (proj2 (Z.ltb_lt _ _)). Qed.

(** One malformed hint empties the pool for everybody.  A hint with a single
    value that is not a string selects no endpoint, but its empty answer is
    cached under the key of the requests without a hint, which are then told
    that there is no endpoint. *)
Theorem malformed_hint_poisons_cache {E} (GetMetadata : E -> option EndpointMetadata) ttl0 now0 pods n md :
  0 < ttl0 -> metadata_subset md = None ->
  exists s, sys_run GetMetadata false ttl0 now0 pods
      [FastPath (sample_metadata [VOther n]); SlowPath 0 0; FastPath md] = Some s /\
    an_pods <$> s_answers s = [[]; []] /\ Locate GetMetadata false pods md = pods.
Proof.
  intros Httl Hmd.
  assert (Hkey : generateCacheKey md = defaultCacheKey) by (unfold generateCacheKey; by rewrite Hmd).
  assert (Hloc : Locate GetMetadata false pods (sample_metadata [VOther n]) = []).
  { unfold Locate, PodList. change (metadata_subset _) with (Some [VOther n]). cbn [subset_set foldl string_of].
    destruct (List.filter _ pods) as [|e l] eqn:Hf; [done|]. exfalso.
    assert (He : In e (e :: l)) by (by left). rewrite <- Hf in He. apply filter_In in He as [_ He].
    apply in_subset_spec in He as (pod & _ & Hin). set_solver. }
  assert (Hk : generateCacheKey (sample_metadata [VOther n]) = defaultCacheKey) by done.
  assert (Hall : Locate GetMetadata false pods md = pods) by (unfold Locate; rewrite Hmd; apply PodList_all).
  unfold sys_run, sys_init, NewCachedEndpointCandidates. rewrite (proj2 (Z.leb_gt _ _) Httl).
  cbn [ofold sys_exec mbind option_bind s_cached]. rewrite fresh_empty.
  cbn [ofold sys_exec mbind option_bind set s_now s_cached s_missed s_pods].
  change ([sample_metadata [VOther n]] !! 0%nat) with (Some (sample_metadata [VOther n])).
  cbn [mbind option_bind]. unfold locate_locked. rewrite fresh_empty.
  cbn [ofold mbind option_bind answered set s_now s_cached s_missed s_pods s_answers ttl cache]. rewrite Hloc, Hk, Hkey.
  rewrite fresh_insert by lia. eexists. by split.
Qed.

Lemma malformed_hint_poisons_cache_witness :
  exists s, sys_run Some false 1000 0 [sample_pod "a"]
      [FastPath (sample_metadata [VOther 7]); SlowPath 0 0; FastPath None] = Some s /\
    an_pods <$> s_answers s = [[]; []] /\ Locate Some false [sample_pod "a"] None = [sample_pod "a"].
Proof. apply (malformed_hint_poisons_cache Some 1000 0 [sample_pod "a"] 7 None); [lia|reflexivity]. Defined.
