(* ===== verification/Admission.v ===== *)
(** Admission control (src/pkg/epp/requestcontrol/admission.go): the legacy
    controller, which sheds requests of negative priority when the pool is
    saturated, and the one that hands requests to flow control and translates
    its outcome into the errors of the program. *)

From Stdlib Require Import SpecFloat.
From S2P Require Import Prelude FlowTypes ItemProps ControllerConfig Controller ControllerProps Doubles InFlight.
From S2P Require Import Saturation Ordering Chunking ReqCtx.

Definition IsSheddable (priority : Z) : bool := priority <? 0.

(** [saturation] is what the detector computes for the located endpoints. *)
Definition rejectIfSheddableAndSaturated (saturation : spec_float) (priority : Z) : option goerror :=
  if IsSheddable priority then
    if SFleb f64_one saturation then Some (ReqCtx.Err ResourceExhausted "system saturated, sheddable request dropped")
    else None
  else None.

(** * The legacy controller

    [Locate] may change the state of its cache.  [None] is the panic of the log
    lines that read the identifier of a request that is nil. *)

Section Legacy.

Context {W E : Type} (Locate : W -> option Struct -> W * list E) (detector : W -> list E -> spec_float).

Definition Legacy_Admit (w : W) (c : RequestContext) (priority : Z) : option (W * option goerror) :=
  _ ← SchedulingRequest c;
  let '(w', saturation) :=
    if IsSheddable priority
    then let '(w', endpoints) := Locate w (Some (rq_Metadata (ctx_Request c))) in (w', detector w' endpoints)
    else (w, f64_zero) in
  Some (w', rejectIfSheddableAndSaturated saturation priority).

End Legacy.

(** * Flow control *)

(** The adapter that makes a flow-control request of a request context; it
    leaves the time-to-live to the controller.  Its [ID] is empty for a nil
    request. *)
Definition flowControlRequest (c : RequestContext) (priority : Z) : FlowControlRequest :=
  {| reqID := match SchedulingRequest c with Some r => lr_RequestId r | None => EmptyString end;
     reqFlowKey := mkFlowKey (FairnessID c) priority;
     ByteSize := u64 (RequestSize c);
     InferenceRequest := (fun r => mkLLMRequest (Some (lr_Headers r))) <$> SchedulingRequest c;
     ReceivedTimestamp := RequestReceivedTimestamp c;
     InitialEffectiveTTL := 0 |}.

Section FlowControl.

(** The text of an error of flow control. *)
Variable text : FlowTypes.error -> string.

Definition translateFlowControlOutcome (outcome : QueueOutcome) (err : option FlowTypes.error) : option goerror :=
  let msg := match err with Some e => text e | None => "request rejected by flow control" end in
  match outcome with
  | QueueOutcomeDispatched => None
  | QueueOutcomeRejectedCapacity => Some (ReqCtx.Err ResourceExhausted msg)
  | QueueOutcomeEvictedTTL => Some (ReqCtx.Err ServiceUnavailable ("request timed out in queue: " +:+ msg))
  | QueueOutcomeEvictedContextCancelled => Some (ReqCtx.Err ServiceUnavailable ("client disconnected: " +:+ msg))
  | QueueOutcomeRejectedOther | QueueOutcomeEvictedOther =>
      Some (ReqCtx.Err Internal ("internal flow control error: " +:+ msg))
  | QueueOutcomeNotYetFinalized => Some (ReqCtx.Err Internal ("unhandled flow control outcome: " +:+ msg))
  end.

(** [None] is a panic: [Admit] logs the identifier of the request before and
    after the call.  [Some (None, _)] is a call that still waits in the queue. *)
Definition FlowControl_Admit (config : Config) (sort : list candidate -> list candidate) (ctx : Context) (now : Z)
    (connErr : option FlowTypes.error) (rounds : list round) (σ : Store) (c : RequestContext) (priority : Z)
    : option (option (option goerror) * Store) :=
  _ ← SchedulingRequest c;
  r ← EnqueueAndWait config sort ctx (flowControlRequest c priority) now connErr rounds σ;
  match r with
  | Pending => Some (None, σ)
  | Returned outcome err σ => Some (Some (translateFlowControlOutcome outcome err), σ)
  end.

End FlowControl.

(** * Properties *)

(** The HTTP status a client sees for an outcome of flow control. *)
Definition outcome_status (o : QueueOutcome) : Z :=
  match o with
  | QueueOutcomeRejectedCapacity => 429
  | QueueOutcomeEvictedTTL | QueueOutcomeEvictedContextCancelled => 503
  | _ => 500
  end.

Lemma translate_spec text o e :
  match translateFlowControlOutcome text o e with
  | None => o = QueueOutcomeDispatched
  | Some err => o <> QueueOutcomeDispatched /\
      exists body, BuildErrResponse err = inl (PImmediateResponse (outcome_status o) body)
  end.
Proof. destruct o; cbn [translateFlowControlOutcome]; first [done|split; [done|eexists; reflexivity]]. Qed.

(** C10: Every verdict of flow control reaches the client.  For a request
    context whose scheduling request is set, as the director sets it before
    admission, and whatever shards and processors do within their contract,
    admission does not panic; it admits exactly the requests
    that were dispatched, and every other outcome becomes an error that is
    answered with its own HTTP status: 429 for a full queue, 503 for a request
    that timed out or whose client left, 500 otherwise. *)
Theorem flow_control_verdict_reaches_client text config sort ctx now connErr rounds σ c priority :
  is_Some (SchedulingRequest c) -> (forall l, sort l ≡ₚ l) -> store_ok σ -> Forall others_ok rounds ->
  exists r, EnqueueAndWait config sort ctx (flowControlRequest c priority) now connErr rounds σ = Some r /\
    match r with
    | Pending => FlowControl_Admit text config sort ctx now connErr rounds σ c priority = Some (None, σ)
    | Returned o e σ' =>
        exists verdict, FlowControl_Admit text config sort ctx now connErr rounds σ c priority = Some (Some verdict, σ') /\
          match verdict with
          | None => o = QueueOutcomeDispatched
          | Some err => o <> QueueOutcomeDispatched /\
              exists body, BuildErrResponse err = inl (PImmediateResponse (outcome_status o) body)
          end
    end.
Proof.
  intros [request Hrq] Hsort Hok Hoth.
  destruct (EnqueueAndWait_spec config sort ctx (flowControlRequest c priority) now connErr rounds σ Hsort Hok Hoth)
    as (r & Hr & _).
  exists r. split; [done|]. unfold FlowControl_Admit. rewrite Hrq, Hr. cbn [mbind option_bind].
  destruct r as [|o e σ']; [done|]. eexists. split; [done|]. apply translate_spec.
Qed.

(** A request that waits for admission. *)
Definition sample_context : RequestContext :=
  new_context <| SchedulingRequest := Some (mkRequest "r" "m" None {[ "x-request-id" := "r" ]} 0 0 None) |>.

Lemma flow_control_verdict_reaches_client_witness :
  exists σ', FlowControl_Admit (fun _ => EmptyString) sample_config (merge_sort byteSize_le) Background 100 None sample_rounds
      (mkStore ∅ ∅) sample_context 0 = Some (Some None, σ').
Proof.
  destruct (flow_control_verdict_reaches_client (fun _ => EmptyString) sample_config (merge_sort byteSize_le) Background
    100 None sample_rounds (mkStore ∅ ∅) sample_context 0) as (r & Hr & Hres);
    [by eexists|apply merge_sort_Permutation|apply map_Forall_empty|exact sample_rounds_ok|].
  assert (Hobs : match EnqueueAndWait sample_config (merge_sort byteSize_le) Background (flowControlRequest sample_context 0)
      100 None sample_rounds (mkStore ∅ ∅) with
    | Some (Returned o _ _) => bool_decide (o = QueueOutcomeDispatched)
    | _ => false
    end = true) by (vm_compute; reflexivity).
  rewrite Hr in Hobs. destruct r as [|o e σ']; [discriminate|]. apply bool_decide_eq_true in Hobs. subst o.
  destruct Hres as (verdict & Hadm & Hv). destruct verdict as [err|]; [by destruct Hv|]. by exists σ'.
Defined.

(** The legacy controller under the concurrency detector sheds exactly the
    requests of negative priority that arrive while the load in flight has
    reached the capacity of the pool, with 429; every other request passes. *)
Theorem legacy_sheds_at_capacity {W} (locate : W -> option Struct -> W * list endpoint) api cfg w c priority w' endpoints :
  is_Some (SchedulingRequest c) -> buildConfig api = Some (inl cfg) -> locate w (Some (rq_Metadata (ctx_Request c))) = (w', endpoints) ->
  0 <= inflight cfg endpoints < 2 ^ 53 -> capacity cfg endpoints < 2 ^ 53 ->
  exists w1 verdict, Legacy_Admit locate (fun _ => Saturation cfg) w c priority = Some (w1, verdict) /\
  match verdict with
  | None => 0 <= priority \/ inflight cfg endpoints < capacity cfg endpoints
  | Some err => priority < 0 /\ capacity cfg endpoints <= inflight cfg endpoints /\
      exists body, BuildErrResponse err = inl (PImmediateResponse 429 body)
  end.
Proof.
  intros [request Hrq] Hb Hl Hi Hc. pose proof (saturation_at_capacity api cfg endpoints Hb Hi Hc) as Hsat.
  unfold Legacy_Admit, rejectIfSheddableAndSaturated, IsSheddable. rewrite Hrq. cbn [mbind option_bind].
  destruct (Z.ltb_spec priority 0); [|do 2 eexists; split; [reflexivity|by left]]. rewrite Hl. rewrite Hsat.
  do 2 eexists. split; [reflexivity|].
  destruct (Z.leb_spec (capacity cfg endpoints) (inflight cfg endpoints)); [|by right].
  split; [done|]. split; [done|]. eexists. reflexivity.
Qed.

Lemma legacy_sheds_at_capacity_witness :
  exists w1 verdict,
    Legacy_Admit (fun (w : unit) _ => (w, full_pool)) (fun _ => Saturation default_config) tt sample_context (-1) =
      Some (w1, verdict) /\
    match verdict with
    | None => 0 <= -1 \/ 200 < 200
    | Some err => -1 < 0 /\ 200 <= 200 /\ exists body, BuildErrResponse err = inl (PImmediateResponse 429 body)
    end.
Proof.
  refine (legacy_sheds_at_capacity (fun (w : unit) _ => (w, full_pool)) None default_config tt sample_context (-1) tt full_pool
    _ eq_refl eq_refl _ _); vm_compute; [by eexists|done..].
Defined.
