(* ===== verification/Director.v ===== *)
(** The director (src/pkg/epp/requestcontrol/director.go): what happens to a
    request between its body and its scheduling, and the hooks of its response.

    The state of everything the director calls (admission, candidates, scheduler,
    plugins) is a world [W]; each of them is an argument.  The request context is
    shared and mutated, so an error or a panic leaves the assignments made before
    it.  A plugin gets the scheduling request by reference: it returns the request
    as it left it, and its header map is the one of the context.  The code the
    director calls returns: a panic in a plugin, which would end the stream as a
    panic of the director does, is not modelled. *)

From Stdlib Require Import Ascii.
From S2P Require Import Prelude InFlight ModelRewrite DataGraph Scheduler Ordering Chunking ReqCtx Candidates.

(** * Endpoints as Envoy sees them *)

(** [net.JoinHostPort] *)
Definition JoinHostPort (host port : string) : string :=
  if existsb (Ascii.eqb ":"%char) (String.list_ascii_of_string host)
  then "[" +:+ host +:+ "]:" +:+ port else host +:+ ":" +:+ port.

(** [strings.Join(l, ",")] *)
Fixpoint join_comma (l : list string) : string :=
  match l with
  | [] => EmptyString
  | [s] => s
  | s :: l => s +:+ "," +:+ join_comma l
  end.

(** * The environment *)

Record dstate (W : Type) := mkD { d_world : W; d_ctx : RequestContext }.
Arguments mkD {W} d_world d_ctx.
Arguments d_world {W} d.
Arguments d_ctx {W} d.

#[global] Instance eta_dstate W : Eta (dstate W) := fun s => mkD (d_world s) (d_ctx s).

(** How the wait for the data plugins ends: with their end, or with a timeout or
    a cancellation after some of them. *)
Inductive prepare_event := PrepareDone | PrepareInterrupted (completed : nat) (err : string).

Section Director.

Context {W E : Type} (GetMetadata : E -> option EndpointMetadata).

Abbreviation D := (M (dstate W)).
Abbreviation Result := (Scheduler.SchedulingResult (E := E)).

(** The plugins of the director, of one kind each. *)
Record DirectorConfig := {
  ParseRequest : bytes -> gmap string string -> LLMRequestBody + string;
  Marshal : gmap string value -> option bytes;
  rewrites : W -> modelRewriteStore;
  rnd : W -> Z -> Z;
  ObjectiveGet : W -> string -> option (option Z);
  AdmitRequest : W -> RequestContext -> Z -> W * option goerror;
  LocateCandidates : W -> option Struct -> W * list E;
  PodsOf : W -> list E;
  prepareDataPlugins : list DataGraph.Plugin;
  PrepareRequestData : DataGraph.Plugin -> list E -> W * LLMRequest -> (W * LLMRequest) * option string;
  prepare_ends : W -> prepare_event;
  admissionPlugins : list (W -> LLMRequest -> list E -> W * option string);
  ScheduleRequest : W -> LLMRequest -> list E -> W * (option Result + string);
  preRequestPlugins : list (W -> LLMRequest -> option Result -> W * LLMRequest);
  responseReceivedPlugins : list (W -> option LLMRequest -> PluginResponse -> option EndpointMetadata -> W * PluginResponse);
  responseStreamingPlugins : list (W -> option LLMRequest -> PluginResponse -> option EndpointMetadata -> W * PluginResponse)
}.

Context (d : DirectorConfig).

Definition ctx_get {A} (f : RequestContext -> A) : D A := read (fun s => f (d_ctx s)).
Definition ctx_set (f : RequestContext -> RequestContext) : D unit := modify (fun s => s <| d_ctx := f (d_ctx s) |>).
Definition world_call {A} (f : W -> W * A) : D A := fun s =>
  let '(w, a) := f (d_world s) in (s <| d_world := w |>, Ret a).

(** A plugin called with the scheduling request. *)
Definition request_call {A} (f : W * LLMRequest -> (W * LLMRequest) * A) : D A := fun s =>
  match SchedulingRequest (d_ctx s) with
  | None => (s, Panics)
  | Some request =>
      let '((w, request'), a) := f (d_world s, request) in
      (mkD w (d_ctx s <| SchedulingRequest := Some request' |>
                      <| ctx_Request := ctx_Request (d_ctx s) <| rq_Headers := lr_Headers request' |> |>), Ret a)
  end.

(** * Requests *)

Definition defaultPriority : Z := 0.

(** The priority of the objective; an unknown objective, and one without a
    priority, has the default. *)
Definition getInferenceObjective : D Z :=
  key <~ ctx_get ObjectiveKey ;;
  w <~ read d_world ;;
  ret (match ObjectiveGet d w key with Some (Some p) => p | _ => defaultPriority end).

Definition applyWeightedModelRewrite : D unit :=
  incoming <~ ctx_get IncomingModelName ;;
  w <~ read d_world ;;
  match getRule (rewrites d w) incoming with
  | None => ret tt
  | Some (rewriteRule, _) =>
      target <~ deref (selectWeightedModel (rnd d w) (Targets rewriteRule)) ;;
      ctx_set (fun c => c <| TargetModelName := target |>)
  end.

(** The map with its model replaced. *)
Definition mutateModel (bodyMap : gmap string value) : D (gmap string value) :=
  match bodyMap !! "model" with
  | Some (VString incoming) =>
      ctx_set (fun c => c <| IncomingModelName := incoming |>) ;;;
      ctx_set (fun c => if String.eqb (TargetModelName c) EmptyString
                        then c <| TargetModelName := IncomingModelName c |> else c) ;;;
      applyWeightedModelRewrite ;;;
      target <~ ctx_get TargetModelName ;;
      ret (<["model" := VString target]> bodyMap)
  | _ =>
      ctx_set (fun c => c <| IncomingModelName := EmptyString |>) ;;;
      fail (Err BadRequest "model not found in request body")
  end.

Definition set_body (b : bytes) (c : RequestContext) : RequestContext :=
  c <| ctx_Request := ctx_Request c <| rq_RawBody := b |> |> <| RequestSize := Z.of_nat (length b) |>.

Definition mutateAndRepackage (bodyMap : gmap string value) : D (gmap string value) :=
  bodyMap <~ mutateModel bodyMap ;;
  match Marshal d bodyMap with
  | None => fail (Err Internal "Error marshalling request body")
  | Some requestBodyBytes => ctx_set (set_body requestBodyBytes) ;;; ret bodyMap
  end.

Definition processRequestBody : D LLMRequestBody :=
  request <~ ctx_get ctx_Request ;;
  match ParseRequest d (rq_RawBody request) (rq_Headers request) with
  | inr msg => fail (Err BadRequest msg)
  | inl llmRequestBody =>
      match lb_Payload llmRequestBody with
      | PayloadProto | RawPayload _ =>
          ctx_set (fun c => c <| RequestSize := Z.of_nat (length (rq_RawBody (ctx_Request c))) |>) ;;;
          ret llmRequestBody
      | PayloadMap m =>
          m <~ mutateAndRepackage m ;;
          ret (llmRequestBody <| lb_Payload := PayloadMap m |>)
      | OtherPayload => fail (Err BadRequest "Unsupported llmRequest parsedBody")
      end
  end.

(** The goroutine of the data plugins against timeout and cancellation; plugins
    that run on after an interruption are not waited for. *)
Definition prepareDataPluginsWithTimeout (endpoints : list E) : D (option string) :=
  w <~ read d_world ;;
  match prepare_ends d w with
  | PrepareDone =>
      err <~ request_call (executePluginsAsDAG (fun p => PrepareRequestData d p endpoints) (prepareDataPlugins d)) ;;
      ret (match err with
           | Some (name, e) => Some ("prepare data plugin " +:+ name +:+ " failed: " +:+ e)
           | None => None
           end)
  | PrepareInterrupted k err =>
      request_call (executePluginsAsDAG (fun p => PrepareRequestData d p endpoints) (take k (prepareDataPlugins d))) ;;;
      ret (Some err)
  end.

Definition runPrepareDataPlugins (endpoints : list E) : D (option string) :=
  match prepareDataPlugins d with
  | [] => ret None
  | _ => prepareDataPluginsWithTimeout endpoints
  end.

Fixpoint runAdmissionPlugins (plugins : list (W -> LLMRequest -> list E -> W * option string)) (endpoints : list E)
    : D bool :=
  match plugins with
  | [] => ret true
  | plugin :: plugins =>
      denyReason <~ request_call (fun '(w, request) => let '(w, r) := plugin w request endpoints in ((w, request), r)) ;;
      match denyReason with
      | Some _ => ret false
      | None => runAdmissionPlugins plugins endpoints
      end
  end.

Definition runPreRequestPlugins (result : option Result) : D unit :=
  each (fun plugin => request_call (fun '(w, request) => (plugin w request result, tt))) (preRequestPlugins d).

(** The metadata of the targets and their addresses. *)
Fixpoint targets_of (pods : list E) : D (list EndpointMetadata * list string) :=
  match pods with
  | [] => ret ([], [])
  | pod :: pods =>
      curMetadata <~ deref (GetMetadata pod) ;;
      rest <~ targets_of pods ;;
      ret (curMetadata :: rest.1, JoinHostPort (Address curMetadata) (Port curMetadata) :: rest.2)
  end.

Definition prepareRequest (result : option Result) : D unit :=
  match result with
  | None => fail (Err Internal "results must be greater than zero")
  | Some r =>
      if Nat.eqb (size (ProfileResults r)) 0 then fail (Err Internal "results must be greater than zero")
      else
        primary <~ deref (mjoin (ProfileResults r !! PrimaryProfileName r)) ;;
        targets <~ targets_of (TargetEndpoints primary) ;;
        target <~ deref (head targets.1) ;;
        ctx_set (fun c => c <| TargetPod := Some target |> <| TargetEndpoint := join_comma targets.2 |>) ;;;
        runPreRequestPlugins result
  end.

Definition new_request (c : RequestContext) (body : LLMRequestBody) (priority : Z) : LLMRequest :=
  {| lr_RequestId := default EmptyString (rq_Headers (ctx_Request c) !! RequestIdHeaderKey);
     lr_TargetModel := TargetModelName c;
     lr_Body := Some body;
     lr_Headers := rq_Headers (ctx_Request c);
     lr_Priority := priority;
     lr_RequestSizeBytes := RequestSize c;
     lr_TokenIDs := None |}.

Definition HandleRequest : D unit :=
  llmRequestBody <~ processRequestBody ;;
  priority <~ getInferenceObjective ;;
  ctx_set (fun c => c <| Priority := priority |>
                      <| SchedulingRequest := Some (new_request c llmRequestBody priority) |>) ;;;
  c <~ ctx_get (fun c => c) ;;
  err <~ world_call (fun w => AdmitRequest d w c priority) ;;
  match err with
  | Some e => fail e
  | None =>
      endpointCandidates <~ world_call (fun w => LocateCandidates d w (Some (rq_Metadata (ctx_Request c)))) ;;
      match endpointCandidates with
      | [] => fail (Err ServiceUnavailable "failed to find endpoint candidates for serving the request")
      | _ =>
          runPrepareDataPlugins endpointCandidates ;;;
          admitted <~ runAdmissionPlugins (admissionPlugins d) endpointCandidates ;;
          if (admitted : bool) then
            request <~ ctx_get SchedulingRequest ;;
            request <~ deref request ;;
            result <~ world_call (fun w => ScheduleRequest d w request endpointCandidates) ;;
            match result with
            | inr err => fail (Err ResourceExhausted ("failed to find target endpoint: " +:+ err))
            | inl result => prepareRequest result
            end
          else fail (Err Internal "request cannot be admitted")
      end
  end.

(** * Responses *)

(** The plugins of a response, which share the response object. *)
Fixpoint run_response_plugins
    (plugins : list (W -> option LLMRequest -> PluginResponse -> option EndpointMetadata -> W * PluginResponse))
    (response : PluginResponse) : D PluginResponse :=
  match plugins with
  | [] => ret response
  | plugin :: plugins =>
      request <~ ctx_get SchedulingRequest ;;
      target <~ ctx_get TargetPod ;;
      response <~ world_call (fun w => plugin w request response target) ;;
      run_response_plugins plugins response
  end.

(** The header map of the response is the one of the context. *)
Definition HandleResponseHeader : D unit :=
  c <~ ctx_get (fun c => c) ;;
  response <~ run_response_plugins (responseReceivedPlugins d)
    {| rs_RequestId := default EmptyString (rq_Headers (ctx_Request c) !! RequestIdHeaderKey);
       rs_Headers := rp_Headers (ctx_Response c);
       rs_EndOfStream := false;
       rs_ReqMetadata := Some (rq_Metadata (ctx_Request c));
       rs_Usage := no_usage;
       rs_DynamicMetadata := None |} ;;
  ctx_set (fun c => c <| ctx_Response := ctx_Response c <| rp_Headers := rs_Headers response |> |>).

Definition HandleResponseBody (endOfStream : bool) : D unit :=
  c <~ ctx_get (fun c => c) ;;
  response <~ run_response_plugins (responseStreamingPlugins d)
    {| rs_RequestId := default EmptyString (rq_Headers (ctx_Request c) !! RequestIdHeaderKey);
       rs_Headers := rp_Headers (ctx_Response c);
       rs_EndOfStream := endOfStream;
       rs_ReqMetadata := None;
       rs_Usage := ctx_Usage c;
       rs_DynamicMetadata := None |} ;;
  ctx_set (fun c => c <| ctx_Response := mkResp (rs_Headers response) (rs_DynamicMetadata response) |>).

(** A random endpoint; its metadata may be nil. *)
Definition GetRandomEndpoint : D (option EndpointMetadata) :=
  w <~ read d_world ;;
  match PodList (PodsOf d w) AllPodsPredicate with
  | [] => ret None
  | pods =>
      number <~ deref (rand_Intn (rnd d w) (Z.of_nat (length pods))) ;;
      pod <~ deref (pods !! Z.to_nat number) ;;
      ret (GetMetadata pod)
  end.

End Director.
