(* ===== verification/Server.v ===== *)
(** The ext_proc server (src/pkg/epp/handlers/server.go, request.go, response.go):
    one stream is one HTTP request.  The server buffers the request body, lets the
    director route the request, answers Envoy in the order the protocol demands,
    passes the response back and tells the plugins when it has ended.

    The director is an interface: a record of computations on its own world [W]
    and the shared request context.  What Envoy sends, and whether a send
    succeeds, are arguments. *)

From stdpp Require Import pretty.
From S2P Require Import Prelude InFlight Scheduler Ordering Chunking ReqCtx Candidates Director.

(** * Bytes *)

Definition bytes_of_string (s : string) : bytes :=
  (fun c => Z.of_N (Ascii.N_of_ascii c)) <$> String.list_ascii_of_string s.

Fixpoint is_prefix (old b : bytes) : bool :=
  match old, b with
  | [], _ => true
  | x :: old, y :: b => (x =? y) && is_prefix old b
  | _ :: _, [] => false
  end.

(** [bytes.ReplaceAll(b, old, new)] for a non-empty [old]; [skip] bytes of an
    occurrence are still to be dropped. *)
Fixpoint replace_all (old new : bytes) (skip : nat) (b : bytes) : bytes :=
  match b with
  | [] => []
  | x :: t =>
      match skip with
      | S skip => replace_all old new skip t
      | O => if is_prefix old b then new ++ replace_all old new (length old - 1) t
             else x :: replace_all old new 0 t
      end
  end.

Definition ReplaceAll (b old new : bytes) : bytes := replace_all old new 0 b.

Definition model_field (sep name : string) : bytes :=
  bytes_of_string (String (Ascii.ascii_of_nat 34) ("model" +:+ String (Ascii.ascii_of_nat 34)
    (sep +:+ String (Ascii.ascii_of_nat 34) (name +:+ String (Ascii.ascii_of_nat 34) EmptyString)))).

Definition rewriteModelName (body : bytes) (targetModel incomingModel : string) : bytes :=
  if String.eqb targetModel EmptyString || String.eqb incomingModel EmptyString || String.eqb targetModel incomingModel
  then body
  else
    let result := ReplaceAll body (model_field ":" targetModel) (model_field ":" incomingModel) in
    if negb (bool_decide (result = body)) then result
    else ReplaceAll body (model_field ": " targetModel) (model_field ": " incomingModel).

(** [strings.Contains] *)
Fixpoint strings_Contains (s sub : string) : bool :=
  String.prefix sub s || match s with EmptyString => false | String _ s => strings_Contains s sub end.

(** * The server *)

(** The director as the server sees it. *)
Record DirectorI (W : Type) := {
  di_HandleRequest : M (dstate W) unit;
  di_HandleResponseHeader : M (dstate W) unit;
  di_HandleResponseBody : bool -> M (dstate W) unit;
  di_GetRandomEndpoint : M (dstate W) (option EndpointMetadata)
}.
Arguments di_HandleRequest {W} _.
Arguments di_HandleResponseHeader {W} _.
Arguments di_HandleResponseBody {W} _ _.
Arguments di_GetRandomEndpoint {W} _.

(** The calls the server makes to the director. *)
Inductive call :=
| CHandleRequest
| CHandleResponseHeader
| CHandleResponseBody (endOfStream : bool)
| CGetRandomEndpoint.

(** The gauge of running requests, and the counter of errors. *)
Inductive metric :=
| IncRunningRequests (model : string)
| DecRunningRequests (model : string)
| RecordRequestErrCounter (incoming target code : string).

Record stream (W : Type) := mkStream {
  st_world : W;
  st_ctx : RequestContext;
  st_body : bytes;
  st_sent : list ProcessingResponse;
  st_calls : list call;
  st_metrics : list metric
}.
Arguments mkStream {W} _ _ _ _ _ _.
Arguments st_world {W} _.
Arguments st_ctx {W} _.
Arguments st_body {W} _.
Arguments st_sent {W} _.
Arguments st_calls {W} _.
Arguments st_metrics {W} _.

#[global] Instance eta_stream W : Eta (stream W) := fun s =>
  mkStream (st_world s) (st_ctx s) (st_body s) (st_sent s) (st_calls s) (st_metrics s).

(** What happens next on the stream: the request's context is done, the stream
    ends (or was cancelled), receiving fails, or a message arrives.  [now] and
    [uuid] are what the clock and the generator return. *)
Inductive input :=
| CtxDone
| RecvEOF
| RecvFails (msg : string)
| Recv (now : Z) (uuid : string) (req : ProcessingRequest).

Inductive outcome :=
| Running
| Returned (err : option goerror)
| Panicked.

Section Server.

Context {W : Type} (director : DirectorI W).

(** [parser.ParseResponse]: the usage it found, or an error. *)
Variable ParseResponse : bytes -> gmap string string -> bool -> option Usage + string.

(** The headers the trace propagator injects, and the order of a range loop over
    a map. *)
Variable traceHeaders : list (string * string).
Variable range : gmap string string -> list (string * string).

(** Whether [srv.Send] succeeds, after what was sent before. *)
Variable send_ok : list ProcessingResponse -> ProcessingResponse -> bool.

Abbreviation S := (M (stream W)).

Definition get {A} (f : RequestContext -> A) : S A := read (fun s => f (st_ctx s)).
Definition assign (f : RequestContext -> RequestContext) : S unit := modify (fun s => s <| st_ctx := f (st_ctx s) |>).
Definition record (m : metric) : S unit := modify (fun s => s <| st_metrics := st_metrics s ++ [m] |>).

Definition direct {A} (c : call) (m : M (dstate W) A) : S A := fun s =>
  let '(d, r) := m (mkD (st_world s) (st_ctx s)) in
  (s <| st_world := d_world d |> <| st_ctx := d_ctx d |> <| st_calls := st_calls s ++ [c] |>, r).

Definition errSend : goerror := ErrOther status_Unknown "failed to send response back to Envoy".

Definition Send (r : ProcessingResponse) : S unit := fun s =>
  if send_ok (st_sent s) r then (s <| st_sent := st_sent s ++ [r] |>, Ret tt) else (s, Fails errSend).

(** * Responses to Envoy *)

Definition not_system_owned (headers : gmap string string) : list (string * string) :=
  List.filter (fun kv => negb (IsSystemOwnedHeader kv.1)) (range headers).

Definition generateHeaders (c : RequestContext) : list (string * string) :=
  [(DestinationEndpointKey, TargetEndpoint c)]
  ++ (if 0 <? RequestSize c then [("Content-Length", pretty (RequestSize c))] else [])
  ++ traceHeaders
  ++ not_system_owned (rq_Headers (ctx_Request c)).

Definition generateMetadata (endpoint : string) : Struct :=
  {[ DestinationEndpointNamespace := VMap [(DestinationEndpointKey, VString endpoint)] ]}.

Definition generateRequestHeaderResponse (c : RequestContext) : ProcessingResponse :=
  PRequestHeaders true (generateHeaders c)
    (Some (match rp_DynamicMetadata (ctx_Response c) with
           | Some fields => fields ∪ generateMetadata (TargetEndpoint c)
           | None => generateMetadata (TargetEndpoint c)
           end)).

Definition GenerateRequestBodyResponses (requestBodyBytes : bytes) : S (list ProcessingResponse) :=
  chunks <~ deref (BuildChunkedBodyResponses requestBodyBytes true) ;;
  ret (PRequestBody <$> chunks).

Definition generateResponseHeaders (c : RequestContext) : list (string * string) :=
  ("x-went-into-resp-headers", "true") :: not_system_owned (rp_Headers (ctx_Response c)).

Definition generateResponseHeaderResponse (c : RequestContext) : ProcessingResponse :=
  PResponseHeaders (generateResponseHeaders c).

(** The dynamic metadata goes on the last response. *)
Fixpoint body_responses (chunks : list StreamedBodyResponse) (dynamicMetadata : option Struct) : list ProcessingResponse :=
  match chunks with
  | [] => []
  | [r] => [PResponseBody r dynamicMetadata]
  | r :: chunks => PResponseBody r None :: body_responses chunks dynamicMetadata
  end.

Definition generateResponseBodyResponses (responseBodyBytes : bytes) (setEoS : bool) (dynamicMetadata : option Struct)
    : S (list ProcessingResponse) :=
  chunks <~ deref (BuildChunkedBodyResponses responseBodyBytes setEoS) ;;
  ret (body_responses chunks dynamicMetadata).

(** * Messages *)

(** One header of the request: it is stored, and some are looked at. *)
Definition request_header (c : RequestContext) (header : HeaderValue) : RequestContext :=
  let v := GetHeaderValue header in
  let c := c <| ctx_Request := ctx_Request c <| rq_Headers := <[hv_Key header := v]> (rq_Headers (ctx_Request c)) |> |> in
  if String.eqb (hv_Key header) FlowFairnessIDKey then c <| FairnessID := v |>
  else if String.eqb (hv_Key header) ObjectiveKeyHeader then c <| ObjectiveKey := v |>
  else if String.eqb (hv_Key header) ModelNameRewriteKey then c <| TargetModelName := v |>
  else c.

(** A request without a body goes to a random endpoint. *)
Definition HandleRequestHeaders (now : Z) (headers : option (list HeaderValue)) (endOfStream : bool) : S unit :=
  assign (fun c => c <| RequestReceivedTimestamp := now |>) ;;;
  if endOfStream then
    endpoint <~ direct CGetRandomEndpoint (di_GetRandomEndpoint director) ;;
    match endpoint with
    | None => fail (Err Internal "no pods available in datastore")
    | Some e =>
        assign (fun c => c <| TargetEndpoint := Address e +:+ ":" +:+ Port e |> <| RequestSize := 0 |>) ;;;
        assign (fun c => c <| reqHeaderResp := Some (generateRequestHeaderResponse c) |>)
    end
  else
    hs <~ deref headers ;;
    assign (fun c => foldl request_header c hs) ;;;
    assign (fun c => if String.eqb (FairnessID c) EmptyString then c <| FairnessID := DefaultFairnessID |> else c).

Definition on_request_headers (now : Z) (uuid : string) (headers : option (list HeaderValue)) (endOfStream : bool) : S unit :=
  (if String.eqb (ExtractHeaderValue headers RequestIdHeaderKey) EmptyString
   then assign (fun c => c <| ctx_Request := ctx_Request c <| rq_Headers :=
                               <[RequestIdHeaderKey := uuid]> (rq_Headers (ctx_Request c)) |> |>)
   else ret tt) ;;;
  HandleRequestHeaders now headers endOfStream.

Definition on_request_body (chunk : bytes) (endOfStream : bool) : S unit :=
  modify (fun s => s <| st_body := st_body s ++ chunk |>) ;;;
  if endOfStream then
    body <~ read st_body ;;
    assign (fun c => c <| ctx_Request := ctx_Request c <| rq_RawBody := body |> |>
                       <| RequestSize := Z.of_nat (length body) |>) ;;;
    modify (fun s => s <| st_body := [] |>) ;;;
    direct CHandleRequest (di_HandleRequest director) ;;;
    assign (fun c => match SchedulingRequest c with
                     | Some r => match lr_Body r with
                                 | Some b => c <| modelServerStreaming := lb_Stream b |>
                                 | None => c
                                 end
                     | None => c
                     end) ;;;
    assign (fun c => c <| reqHeaderResp := Some (generateRequestHeaderResponse c) |>) ;;;
    raw <~ get (fun c => rq_RawBody (ctx_Request c)) ;;
    responses <~ GenerateRequestBodyResponses raw ;;
    assign (fun c => c <| reqBodyResp := responses |>)
  else ret tt.

(** One header of the response. *)
Definition response_header (c : RequestContext) (header : HeaderValue) : RequestContext :=
  let v := hv_RawValue header in
  if String.eqb (hv_Key header) "status" && negb (String.eqb v "200")
  then c <| ResponseStatusCode := ModelServerError |>
  else if String.eqb (hv_Key header) "content-type" && strings_Contains v "text/event-stream"
  then c <| modelServerStreaming := true |>
  else c.

Definition HandleResponseHeaders (headers : option (list HeaderValue)) : S unit :=
  hs <~ deref headers ;;
  assign (fun c => foldl (fun c h => c <| ctx_Response := ctx_Response c
    <| rp_Headers := <[hv_Key h := GetHeaderValue h]> (rp_Headers (ctx_Response c)) |> |>) c hs) ;;;
  direct CHandleResponseHeader (di_HandleResponseHeader director).

Definition on_response_headers (headers : option (list HeaderValue)) : S unit :=
  assign (fun c => foldl response_header c (default [] headers)) ;;;
  assign (fun c => c <| RequestState := ResponseReceived |>) ;;;
  HandleResponseHeaders headers ;;;
  assign (fun c => c <| respHeaderResp := Some (generateResponseHeaderResponse c) |>).

Definition HandleResponseBody (responseBytes : bytes) (endOfStream : bool) : S unit :=
  assign (fun c => c <| ResponseSize := ResponseSize c + Z.of_nat (length responseBytes) |>) ;;;
  assign (fun c => match ParseResponse responseBytes (rp_Headers (ctx_Response c)) endOfStream with
                   | inl (Some usage) => c <| ctx_Usage := usage |>
                   | _ => c
                   end) ;;;
  direct (CHandleResponseBody endOfStream) (di_HandleResponseBody director endOfStream).

(** The rewritten body, as responses in the context. *)
Definition respond (body : bytes) (setEos : bool) : S unit :=
  c <~ get (fun c => c) ;;
  responses <~ generateResponseBodyResponses (rewriteModelName body (TargetModelName c) (IncomingModelName c)) setEos
                 (rp_DynamicMetadata (ctx_Response c)) ;;
  assign (fun c => c <| respBodyResp := responses |>).

Definition complete (now : Z) : S unit :=
  assign (fun c => c <| ResponseComplete := true |> <| ResponseCompleteTimestamp := now |>).

Definition finishResponse (now : Z) (body : bytes) (modelStreaming setEos : bool) : S unit :=
  done <~ get ResponseComplete ;;
  if (done : bool) then ret tt
  else
    complete now ;;;
    HandleResponseBody body true ;;;
    if modelStreaming then ret tt else respond body setEos.

Definition on_response_body (now : Z) (chunk : bytes) (endOfStream : bool) : S unit :=
  streaming <~ get modelServerStreaming ;;
  if (streaming : bool) then
    (if endOfStream then complete now else ret tt) ;;;
    HandleResponseBody chunk endOfStream ;;;
    respond chunk endOfStream
  else
    modify (fun s => s <| st_body := st_body s ++ chunk |>) ;;;
    if endOfStream then body <~ read st_body ;; finishResponse now body streaming true else ret tt.

Definition on_response_trailers (now : Z) : S unit :=
  streaming <~ get modelServerStreaming ;;
  body <~ read st_body ;;
  finishResponse now body streaming false ;;;
  assign (fun c => c <| respTrailerResp := Some PResponseTrailers |>).

Definition on_message (now : Z) (uuid : string) (req : ProcessingRequest) : S unit :=
  assign (fun c => c <| ctx_Request := ctx_Request c <| rq_Metadata := ExtractMetadataValues req |> |>) ;;;
  match pr_Request req with
  | MRequestHeaders headers eos => on_request_headers now uuid headers eos
  | MRequestBody body eos => on_request_body body eos
  | MRequestTrailers => ret tt
  | MResponseHeaders headers => on_response_headers headers
  | MResponseBody body eos => on_response_body now body eos
  | MResponseTrailers => on_response_trailers now
  end.

(** * Sending in order *)

Definition when_state (st : StreamRequestState) (m : S unit) : S unit :=
  cur <~ get RequestState ;;
  if bool_decide (cur = st) then m else ret tt.

Definition when_some {A} (f : RequestContext -> option A) (m : A -> S unit) : S unit :=
  o <~ get f ;;
  match o with Some a => m a | None => ret tt end.

Definition enter (st : StreamRequestState) : S unit := assign (fun c => c <| RequestState := st |>).

Definition updateStateAndSendIfNeeded : S unit :=
  when_state RequestReceived (when_some reqHeaderResp (fun r => Send r ;;; enter HeaderRequestResponseComplete)) ;;;
  when_state HeaderRequestResponseComplete (
    rs <~ get reqBodyResp ;;
    match rs with
    | [] => ret tt
    | _ =>
        each Send rs ;;;
        enter BodyRequestResponsesComplete ;;;
        model <~ get IncomingModelName ;;
        record (IncRunningRequests model) ;;;
        assign (fun c => c <| RequestRunning := true |> <| reqBodyResp := [] |>)
    end) ;;;
  when_state BodyRequestResponsesComplete (when_some reqTrailerResp Send) ;;;
  when_state ResponseReceived (when_some respHeaderResp (fun r => Send r ;;; enter HeaderResponseResponseComplete)) ;;;
  when_state HeaderResponseResponseComplete (
    rs <~ get respBodyResp ;;
    each Send rs ;;;
    done <~ get ResponseComplete ;;
    (if (done : bool) then enter BodyResponseResponsesComplete else ret tt) ;;;
    assign (fun c => c <| respBodyResp := [] |>)) ;;;
  when_state BodyResponseResponsesComplete (when_some respTrailerResp Send).

(** * The stream *)

(** The error of the handler is answered with an immediate response, if its code
    has a status. *)
Definition fail_stream (e : goerror) (s : stream W) : stream W * outcome :=
  match BuildErrResponse e with
  | inr e' => (s, Returned (Some e'))
  | inl resp =>
      match Send resp s with
      | (s, Ret _) => (s, Returned None)
      | (s, Fails e') => (s, Returned (Some e'))
      | (s, Panics) => (s, Panicked)
      end
  end.

(** One turn of the loop, with the error the deferred function will find. *)
Definition turn (i : input) (s : stream W) : stream W * outcome * option goerror :=
  match i with
  | CtxDone => (s, Returned (Some (ErrOther 1 "context canceled")), None)
  | RecvEOF => (s, Returned None, None)
  | RecvFails msg => (s, Returned (Some (ErrOther status_Unknown ("cannot receive stream request: " +:+ msg))), None)
  | Recv now uuid req =>
      match on_message now uuid req s with
      | (s, Panics) => (s, Panicked, None)
      | (s, Fails e) => (fail_stream e s, Some e)
      | (s, Ret _) =>
          match updateStateAndSendIfNeeded s with
          | (s, Ret _) => (s, Running, None)
          | (s, Fails e) => (s, Returned (Some e), None)
          | (s, Panics) => (s, Panicked, None)
          end
      end
  end.

(** The deferred function. *)
Definition deferred (err : option goerror) : S unit :=
  c <~ get (fun c => c) ;;
  (if negb (String.eqb (ResponseStatusCode c) EmptyString)
   then record (RecordRequestErrCounter (IncomingModelName c) (TargetModelName c) (ResponseStatusCode c))
   else match err with
        | Some e => record (RecordRequestErrCounter (IncomingModelName c) (TargetModelName c) (CanonicalCode e))
        | None => ret tt
        end) ;;;
  (if RequestRunning c then record (DecRunningRequests (IncomingModelName c)) else ret tt) ;;;
  match TargetPod c with
  | Some _ => if ResponseComplete c then ret tt
              else direct (CHandleResponseBody true) (di_HandleResponseBody director true)
  | None => ret tt
  end.

Fixpoint process_loop (inputs : list input) (s : stream W) : stream W * outcome :=
  match inputs with
  | [] => (s, Running)
  | i :: inputs =>
      match turn i s with
      | (s, Running, _) => process_loop inputs s
      | (s, o, err) => let '(s, r) := deferred err s in (s, match r with Panics => Panicked | _ => o end)
      end
  end.

Definition new_stream (w : W) : stream W := mkStream w new_context [] [] [] [].

(** The stream after the inputs; [Running] while it waits for more. *)
Definition Process (w : W) (inputs : list input) : stream W * outcome := process_loop inputs (new_stream w).

End Server.
