(* ===== verification/ServerProps.v ===== *)
(** What the ext_proc server promises, against the director's interface: the
    order of the responses to Envoy, the completion hooks, the gauge of running
    requests, the forwarding of bodies and the answers to errors. *)

From stdpp Require Import pretty.
From S2P Require Import Prelude InFlight Scheduler Ordering Chunking ReqCtx Candidates Director Server.

(** * Counters at 64 bits *)

(** Equal as 64-bit counters. *)
Record cong64 (a b : Z) : Prop := { cong64_i64 : i64 a = i64 b }.

Lemma cong64_refl a : cong64 a a.
Proof. done. Qed.

Lemma cong64_eq a b : a = b -> cong64 a b.
Proof. by intros ->. Qed.

Lemma cong64_trans a b c : cong64 a b -> cong64 b c -> cong64 a c.
Proof. intros [H1] [H2]. constructor. congruence. Qed.

Lemma cong64_sub a b n : cong64 a b -> cong64 (a - n) (b - n).
Proof.
  intros [Hab]. constructor. rewrite <- !Z.add_opp_r, <- (i64_add_l a), <- (i64_add_l b). by rewrite Hab.
Qed.

(** * Reasoning about computations *)

(** [wp m Q s]: from [s], [m] ends in a state and with a result that satisfy [Q]. *)
Definition wp {S A} (m : M S A) (Q : result A -> S -> Prop) (s : S) : Prop :=
  let '(s', r) := m s in Q r s'.

(** The postcondition of the first part of a sequence. *)
Definition then_ {S A B} (k : A -> M S B) (Q : result B -> S -> Prop) (r : result A) (s : S) : Prop :=
  match r with
  | Ret a => wp (k a) Q s
  | Fails e => Q (Fails e) s
  | Panics => Q Panics s
  end.

Section wp.
Context {S : Type}.
Implicit Types s : S.

Lemma wp_bind {A B} (m : M S A) (k : A -> M S B) Q s : wp m (then_ k Q) s -> wp (bind m k) Q s.
Proof. unfold wp, bind, then_. destruct (m s) as [s' [a|e|]]; done. Qed.

Lemma wp_mono {A} (m : M S A) (Q Q' : result A -> S -> Prop) s :
  (forall r s', Q r s' -> Q' r s') -> wp m Q s -> wp m Q' s.
Proof. unfold wp. destruct (m s). auto. Qed.

Lemma wp_ret {A} (a : A) (Q : result A -> S -> Prop) s : Q (Ret a) s -> wp (ret a) Q s.
Proof. done. Qed.

Lemma wp_fail {A} e (Q : result A -> S -> Prop) s : Q (Fails e) s -> wp (fail e) Q s.
Proof. done. Qed.

Lemma wp_read {A} (f : S -> A) (Q : result A -> S -> Prop) s : Q (Ret (f s)) s -> wp (read f) Q s.
Proof. done. Qed.

Lemma wp_modify (f : S -> S) (Q : result unit -> S -> Prop) s : Q (Ret tt) (f s) -> wp (modify f) Q s.
Proof. done. Qed.

Lemma wp_deref {A} (o : option A) (Q : result A -> S -> Prop) s :
  match o with Some a => Q (Ret a) s | None => Q Panics s end -> wp (deref o) Q s.
Proof. by destruct o. Qed.

(** What every step keeps, the loop keeps. *)
Lemma wp_each {A} (f : A -> M S unit) (P : S -> Prop) (Q : result unit -> S -> Prop) l s :
  (forall x s, x ∈ l -> P s -> wp (f x) (fun r s' => match r with Ret _ => P s' | _ => Q r s' end) s) ->
  (forall s, P s -> Q (Ret tt) s) -> P s -> wp (each f l) Q s.
Proof.
  intros Hf HQ. revert s. induction l as [|x l IH]; intros s HP; cbn [each]; [by apply wp_ret, HQ|].
  apply wp_bind. eapply wp_mono; [|apply Hf; [left|done]].
  intros [a|e|] s' Hs'; [|done..]. cbn [then_]. apply IH; [|done]. intros. apply Hf; [by right|done].
Qed.

End wp.

(** One step of a computation, up to what is not a primitive. *)
Ltac wp_step :=
  match goal with
  | |- wp (bind _ _) _ _ => apply wp_bind
  | |- wp (ret _) _ _ => apply wp_ret
  | |- wp (fail _) _ _ => apply wp_fail
  | |- wp (read _) _ _ => apply wp_read
  | |- wp (modify _) _ _ => apply wp_modify
  | |- wp (deref _) _ _ => apply wp_deref
  | |- wp (get _) _ _ => apply wp_read
  | |- wp (assign _) _ _ => apply wp_modify
  | |- wp (record _) _ _ => apply wp_modify
  | |- wp (enter _) _ _ => apply wp_modify
  | |- then_ _ _ _ _ => cbn [then_]
  end.

(** * The protocol of Envoy

    Per stream, the request body ends at most once, and not after the response has;
    response headers come at most once; the end of the response is signalled by an end-of-stream body or by
    trailers, and no body with end of stream comes after either; nothing follows
    the trailers. *)

Record progress := mkProgress {
  p_request : bool;   (* the request body has ended *)
  p_headers : bool;   (* response headers came *)
  p_ended : bool;     (* the response has ended *)
  p_trailers : bool   (* response trailers came *)
}.

#[global] Instance eta_progress : Eta progress := fun p =>
  mkProgress (p_request p) (p_headers p) (p_ended p) (p_trailers p).

(** The progress after a message, if the protocol allows it. *)
Definition advance (p : progress) (m : message) : option progress :=
  if p_trailers p then None
  else
    match m with
    | MRequestBody _ true => if p_request p || p_ended p then None else Some (p <| p_request := true |>)
    | MResponseHeaders _ => if p_headers p then None else Some (p <| p_headers := true |>)
    | MResponseBody _ true => if p_ended p then None else Some (p <| p_ended := true |>)
    | MResponseTrailers => Some (p <| p_ended := true |> <| p_trailers := true |>)
    | _ => Some p
    end.

Definition advance_input (p : progress) (i : input) : option progress :=
  match i with Recv _ _ req => advance p (pr_Request req) | _ => Some p end.

Definition envoy_stream (inputs : list input) : option progress :=
  ofold advance_input inputs (mkProgress false false false false).

(** * The laws of a director *)

(** The part of the context that belongs to the protocol. *)
Definition protocol (c : RequestContext) :=
  (RequestState c, ResponseComplete c, RequestRunning c, reqHeaderResp c, reqBodyResp c, reqTrailerResp c,
   respHeaderResp c, respBodyResp c, respTrailerResp c).

(** A director routes a request, or fails, without touching the protocol; a
    routed request has a target, and its size is that of the body to forward.
    The hooks of the response leave everything but the response alone.

    [load] is a 64-bit counter of the plugins in the world, and [share] what one
    routed request adds to it: routing adds the share of the request, a request
    that is not routed adds nothing, and the end of the response takes the share
    away again.  [good] is an invariant of the world. *)
Class DirectorLaws {W} (di : DirectorI W) (good : W -> Prop) (load : W -> Z)
    (share : option EndpointMetadata -> option LLMRequest -> Z) : Prop := {
  dl_request s : good (d_world s) -> wp (di_HandleRequest di) (fun r s' =>
    good (d_world s') /\ protocol (d_ctx s') = protocol (d_ctx s) /\
    match r with
    | Ret _ => is_Some (TargetPod (d_ctx s')) /\
        RequestSize (d_ctx s') = Z.of_nat (length (rq_RawBody (ctx_Request (d_ctx s')))) /\
        cong64 (load (d_world s')) (load (d_world s) + share (TargetPod (d_ctx s')) (SchedulingRequest (d_ctx s')))
    | _ => TargetPod (d_ctx s') = TargetPod (d_ctx s) /\ load (d_world s') = load (d_world s)
    end) s;
  dl_header s : good (d_world s) -> wp (di_HandleResponseHeader di) (fun r s' =>
    r = Ret tt /\ good (d_world s') /\ cong64 (load (d_world s')) (load (d_world s)) /\
    exists resp, d_ctx s' = d_ctx s <| ctx_Response := resp |>) s;
  dl_body eos s : good (d_world s) -> wp (di_HandleResponseBody di eos) (fun r s' =>
    r = Ret tt /\ good (d_world s') /\
    cong64 (load (d_world s')) (load (d_world s) -
      (if (eos : bool) then share (TargetPod (d_ctx s)) (SchedulingRequest (d_ctx s)) else 0)) /\
    exists resp, d_ctx s' = d_ctx s <| ctx_Response := resp |>) s;
  dl_random s : good (d_world s) -> wp (di_GetRandomEndpoint di) (fun r s' =>
    good (d_world s') /\ d_ctx s' = d_ctx s /\ load (d_world s') = load (d_world s) /\ forall e, r <> Fails e) s;
  dl_unrouted r : share None r = 0
}.

(** * Order of the responses *)

Definition phase (r : ProcessingResponse) : Z :=
  match r with
  | PRequestHeaders _ _ _ => 0
  | PRequestBody _ => 1
  | PRequestTrailers => 2
  | PResponseHeaders _ => 3
  | PResponseBody _ _ => 4
  | PResponseTrailers => 5
  | PImmediateResponse _ _ => 6
  end.

(** [y] may be sent after [x]: headers, bodies, trailers, first of the request
    and then of the response; only bodies are sent more than once. *)
Definition may_follow (x y : ProcessingResponse) : Prop :=
  phase x < phase y \/ phase x = phase y /\ (phase x = 1 \/ phase x = 4).

(** What may have been sent in a state. *)
Definition level (st : StreamRequestState) : Z :=
  match st with
  | RequestReceived => -1
  | HeaderRequestResponseComplete => 0
  | BodyRequestResponsesComplete => 1
  | TrailerRequestResponsesComplete | ResponseReceived => 2
  | HeaderResponseResponseComplete | BodyResponseResponsesComplete => 4
  | TrailerResponseResponsesComplete => 5
  end.

Definition is_completion (c : call) : bool := match c with CHandleResponseBody true => true | _ => false end.
Definition is_gauge (m : metric) : bool := match m with RecordRequestErrCounter _ _ _ => false | _ => true end.

Section Invariant.

Context {W : Type} (director : DirectorI W) (good : W -> Prop) (load : W -> Z).
Context (share : option EndpointMetadata -> option LLMRequest -> Z) `{!DirectorLaws director good load share} (load0 : Z).
Context (ParseResponse : bytes -> gmap string string -> bool -> option Usage + string).
Context (traceHeaders : list (string * string)) (range : gmap string string -> list (string * string)).
Context (send_ok : list ProcessingResponse -> ProcessingResponse -> bool).
Implicit Types (s : stream W) (c : RequestContext) (p : progress).

Abbreviation S := (M (stream W)).

(** How often the completion hooks ran, and what the gauge of running requests saw. *)
Definition completions s : nat := length (List.filter is_completion (st_calls s)).
Definition gauge s : list metric := List.filter is_gauge (st_metrics s).

(** The load without what the request of the stream holds. *)
Definition balance s : Z :=
  load (st_world s) -
  if ResponseComplete (st_ctx s) then 0 else share (TargetPod (st_ctx s)) (SchedulingRequest (st_ctx s)).

(** The responses prepared in the context are of the right kind. *)
Record prepared c : Prop := {
  pr_reqHeader r : reqHeaderResp c = Some r -> phase r = 0;
  pr_reqBody : Forall (fun r => phase r = 1) (reqBodyResp c);
  pr_reqTrailer : reqTrailerResp c = None;
  pr_respHeader r : respHeaderResp c = Some r -> phase r = 3;
  pr_respBody : Forall (fun r => phase r = 4) (respBodyResp c);
  pr_respTrailer r : respTrailerResp c = Some r -> phase r = 5
}.

(** What holds whenever the stream ends. *)
Record ending s : Prop := {
  en_order : StronglySorted may_follow (st_sent s);
  en_level : Forall (fun r => phase r <= 5) (st_sent s);
  en_completions : completions s = if ResponseComplete (st_ctx s) then 1%nat else 0%nat;
  en_gauge : gauge s = if RequestRunning (st_ctx s) then [IncRunningRequests (IncomingModelName (st_ctx s))] else [];
  en_balance : cong64 (balance s) load0;
  en_good : good (st_world s)
}.

(** What holds between the steps of a turn. *)
Record core p s : Prop := {
  co_prepared : prepared (st_ctx s);
  co_ending : ending s;
  co_levels : Forall (fun r => phase r <= level (RequestState (st_ctx s))) (st_sent s);
  co_state : if p_headers p
             then RequestState (st_ctx s) ∈ [ResponseReceived; HeaderResponseResponseComplete; BodyResponseResponsesComplete]
             else RequestState (st_ctx s) ∈ [RequestReceived; HeaderRequestResponseComplete; BodyRequestResponsesComplete];
  co_complete : ResponseComplete (st_ctx s) = p_ended p;
  co_running : p_request p = false -> RequestRunning (st_ctx s) = false /\ reqBodyResp (st_ctx s) = [];
  co_trailer : p_trailers p = false -> respTrailerResp (st_ctx s) = None;
  co_waiting : RequestState (st_ctx s) ∈ [RequestReceived; HeaderRequestResponseComplete] ->
               RequestRunning (st_ctx s) = false;
  co_unrouted : p_request p = false -> TargetPod (st_ctx s) = None
}.

(** The parts of the stream the invariant reads. *)
Definition same_protocol p s s' : Prop :=
  protocol (st_ctx s') = protocol (st_ctx s) /\ st_sent s' = st_sent s /\
  completions s' = completions s /\ gauge s' = gauge s /\ cong64 (balance s') (balance s) /\ (good (st_world s) -> good (st_world s')) /\
  (p_request p = false -> TargetPod (st_ctx s') = TargetPod (st_ctx s)) /\
  (RequestRunning (st_ctx s) = true -> IncomingModelName (st_ctx s') = IncomingModelName (st_ctx s)).

Lemma core_same p s s' : same_protocol p s s' -> core p s -> core p s'.
Proof.
  intros (Hp & Hs & Hc & Hg & Hb & Hgo & Ht & Hn) [[] [] Hlv Hst Hcm Hru Htr Hwa Hun]. injection Hp as E1 E2 E3 E4 E5 E6 E7 E8 E9.
  split; rewrite ?E1, ?E2, ?E3, ?E4, ?E5, ?E6, ?E7, ?E8, ?E9, ?Hs; try done.
  - split; rewrite ?E4, ?E5, ?E6, ?E7, ?E8, ?E9; done.
  - split; rewrite ?Hs, ?Hc, ?Hg, ?E2, ?E3; try done; [|by eapply cong64_trans|by apply Hgo].
    destruct (RequestRunning (st_ctx s)) eqn:Hr; [|done]. by rewrite Hn.
  - intros Hpr. rewrite Ht by done. by apply Hun.
Qed.

(** ** Calls of the director *)

Lemma wp_direct {A} (cl : call) (m : M (dstate W) A) (Q : result A -> stream W -> Prop) s :
  wp m (fun r d => Q r (s <| st_world := d_world d |> <| st_ctx := d_ctx d |> <| st_calls := st_calls s ++ [cl] |>))
    (mkD (st_world s) (st_ctx s)) -> wp (direct cl m) Q s.
Proof. unfold wp, direct. by destruct (m _). Qed.

Lemma completions_app s cl :
  length (List.filter is_completion (st_calls s ++ [cl])) = (completions s + if is_completion cl then 1 else 0)%nat.
Proof. unfold completions. rewrite List.filter_app, length_app. cbn [List.filter]. by destruct (is_completion cl). Qed.

(** Routing the request of the stream keeps the invariant. *)
Lemma direct_request p s :
  core p s -> RequestRunning (st_ctx s) = false -> TargetPod (st_ctx s) = None -> p_ended p = false -> p_request p = true ->
  wp (direct CHandleRequest (di_HandleRequest director)) (fun r s' => core p s') s.
Proof.
  intros Hcore Hrun Htp Hpe Hpr. pose proof (co_complete _ _ Hcore) as Hc. rewrite Hpe in Hc.
  apply wp_direct. eapply wp_mono; [|apply (dl_request (good := good) (load := load) (share := share)), Hcore].
  cbn. intros r d (Hgo & Hp & Hr).
  assert (Hc' : ResponseComplete (d_ctx d) = false) by (injection Hp; congruence).
  eapply core_same; [|exact Hcore]. repeat split; try done; try congruence.
  - etrans; [apply completions_app|]. apply Nat.add_0_r.
  - unfold balance. cbn. rewrite Hc, Hc', Htp, dl_unrouted.
    destruct r as [[]|e|]; [|destruct Hr as [-> ->]; rewrite Htp, dl_unrouted; apply cong64_refl..].
    destruct Hr as (_ & _ & Hr). eapply cong64_trans; [apply cong64_sub, Hr|]. apply cong64_eq. lia.
Qed.

(** A hook that changes only the response, and is not a completion. *)
Lemma direct_hook p s cl (m : M (dstate W) unit) :
  is_completion cl = false ->
  wp m (fun r d => r = Ret tt /\ good (d_world d) /\ cong64 (load (d_world d)) (load (st_world s)) /\
      exists resp, d_ctx d = st_ctx s <| ctx_Response := resp |>)
    (mkD (st_world s) (st_ctx s)) ->
  core p s -> wp (direct cl m) (fun r s' => r = Ret tt /\ core p s') s.
Proof.
  intros Hcl Hm Hcore. apply wp_direct. eapply wp_mono; [|exact Hm]. cbn. intros r d (-> & Hgo & Hl & [resp Hd]).
  split; [done|]. eapply core_same; [|exact Hcore]. unfold same_protocol, balance. cbn. rewrite Hd. repeat split; try done.
  - etrans; [apply completions_app|]. rewrite Hcl. apply Nat.add_0_r.
  - by apply cong64_sub.
Qed.

(** ** Assignments *)

(** What an assignment must leave alone. *)
Definition frame c := (protocol c, IncomingModelName c, TargetPod c, SchedulingRequest c).

Lemma core_assign p s (f : RequestContext -> RequestContext) :
  frame (f (st_ctx s)) = frame (st_ctx s) -> core p s -> core p (s <| st_ctx := f (st_ctx s) |>).
Proof.
  intros Hf. injection Hf as E1 E2 E3 E4 E5 E6 E7 E8 E9 E10 E11 E12. apply core_same.
  unfold same_protocol, protocol, balance. cbn.
  rewrite ?E1, ?E2, ?E3, ?E4, ?E5, ?E6, ?E7, ?E8, ?E9, ?E10, ?E11, ?E12. by repeat split.
Qed.

Lemma core_reqHeader p s r : phase r = 0 -> core p s -> core p (s <| st_ctx := st_ctx s <| reqHeaderResp := Some r |> |>).
Proof. intros Hr [[] [] Hlv Hst Hcm Hru Htr Hwa Hun]. split; try done; split; cbn; try done. naive_solver. Qed.

Lemma core_reqBody p s rs :
  p_request p = true -> Forall (fun r => phase r = 1) rs -> core p s ->
  core p (s <| st_ctx := st_ctx s <| reqBodyResp := rs |> |>).
Proof. intros Hp Hr [[] [] Hlv Hst Hcm Hru Htr Hwa Hun]. split; try done; try (split; cbn; done). cbn. congruence. Qed.

Lemma core_respHeader p s r : phase r = 3 -> core p s -> core p (s <| st_ctx := st_ctx s <| respHeaderResp := Some r |> |>).
Proof. intros Hr [[] [] Hlv Hst Hcm Hru Htr Hwa Hun]. split; try done; split; cbn; try done. naive_solver. Qed.

Lemma core_respBody p s rs :
  Forall (fun r => phase r = 4) rs -> core p s -> core p (s <| st_ctx := st_ctx s <| respBodyResp := rs |> |>).
Proof. intros Hr [[] [] Hlv Hst Hcm Hru Htr Hwa Hun]. split; try done; split; cbn; done. Qed.

Lemma core_request p s : core p s -> core (p <| p_request := true |>) s.
Proof. intros []. by split. Qed.

Lemma core_ended p s : p_ended p = true -> core p s -> core (p <| p_ended := true |>) s.
Proof. intros Hp [? ? ? ? Hc ? ? ? ?]. split; try done. by rewrite Hc, Hp. Qed.

(** The response headers open the second half of the stream. *)
Lemma core_response_received p s :
  p_headers p = false -> core p s ->
  core (p <| p_headers := true |>) (s <| st_ctx := st_ctx s <| RequestState := ResponseReceived |> |>).
Proof.
  intros Hp [[] [] Hlv Hst Hcm Hru Htr Hwa Hun]. rewrite Hp in Hst. split; cbn; try done; try (split; cbn; done).
  - eapply Forall_impl; [exact Hlv|]. cbn. intros r Hr.
    set_unfold. destruct (RequestState (st_ctx s)); cbn in Hr; try lia; naive_solver.
  - set_solver.
  - set_solver.
Qed.

(** ** The handlers *)

Lemma request_header_frame c hs : frame (foldl request_header c hs) = frame c.
Proof.
  revert c. induction hs as [|h hs IH]; intros c; cbn [foldl]; [done|].
  rewrite IH. unfold request_header. cbn zeta. by repeat case_match.
Qed.

Lemma on_request_headers_ok p now uuid headers eos s :
  core p s -> wp (on_request_headers director traceHeaders range now uuid headers eos) (fun _ s' => core p s') s.
Proof.
  intros Hcore. unfold on_request_headers. wp_step.
  assert (Hstart : forall s0, core p s0 ->
    wp (HandleRequestHeaders director traceHeaders range now headers eos) (fun _ s' => core p s') s0).
  { intros s0 H0. unfold HandleRequestHeaders. do 3 wp_step. apply (core_assign _ _ (fun c => c <| RequestReceivedTimestamp := now |>)) in H0; [|done].
    destruct eos.
    - wp_step. apply wp_direct. eapply wp_mono; [|apply (dl_random (good := good) (load := load) (share := share)), H0]. cbn. intros r d (Hgo & Hd & Hl & Hr).
      assert (H1 : core p (s0 <| st_ctx := st_ctx s0 <| RequestReceivedTimestamp := now |> |> <| st_world := d_world d |>
        <| st_ctx := d_ctx d |> <| st_calls := st_calls s0 ++ [CGetRandomEndpoint] |>)).
      { eapply core_same; [|exact H0]. unfold same_protocol, balance. cbn. rewrite Hd, Hl. repeat split; try done.
        etrans; [apply completions_app|]. apply Nat.add_0_r. }
      destruct r as [[e|]|e|]; cbn [then_]; try done; repeat wp_step.
      apply (core_reqHeader p (_ <| st_ctx := _ |>)); [done|]. by eapply core_same; [|exact H1].
    - wp_step. wp_step. destruct headers as [hs|]; [|done]. repeat wp_step.
      pose proof (request_header_frame (st_ctx (s0 <| st_ctx := st_ctx s0 <| RequestReceivedTimestamp := now |> |>)) hs) as Hf.
      apply (core_assign _ _ (fun c => foldl request_header c hs)) in H0; [|exact Hf].
      apply (core_assign _ _ (fun c => if String.eqb (FairnessID c) EmptyString
        then c <| FairnessID := DefaultFairnessID |> else c)) in H0; [exact H0|]. by case_match. }
  destruct (String.eqb _ _); repeat wp_step; apply Hstart; [|done].
  by apply (core_assign _ _ (fun c => c <| ctx_Request := ctx_Request c
     <| rq_Headers := <[RequestIdHeaderKey := uuid]> (rq_Headers (ctx_Request c)) |> |>)).
Qed.

(** Steps that keep the invariant, one after the other. *)
Lemma keep_bind {A B} p (m : S A) (k : A -> S B) s :
  wp m (fun _ s' => core p s') s -> (forall a s', core p s' -> wp (k a) (fun _ s' => core p s') s') ->
  wp (bind m k) (fun _ s' => core p s') s.
Proof.
  intros Hm Hk. apply wp_bind. eapply wp_mono; [|exact Hm]. intros [a|e|] s' Hs'; cbn [then_]; [by apply Hk|done..].
Qed.

(** Steps that keep it and do return. *)
Lemma keep_bind_ret {A B} p (m : S A) (k : A -> S B) (Q : result B -> stream W -> Prop) s :
  wp m (fun r s' => (exists a, r = Ret a) /\ core p s') s -> (forall a s', core p s' -> wp (k a) Q s') ->
  wp (bind m k) Q s.
Proof.
  intros Hm Hk. apply wp_bind. eapply wp_mono; [|exact Hm]. intros r s' [[a ->] Hs']. by apply Hk.
Qed.

Lemma keep_assign p (f : RequestContext -> RequestContext) s :
  frame (f (st_ctx s)) = frame (st_ctx s) -> core p s -> wp (assign f) (fun r s' => (exists a, r = Ret a) /\ core p s') s.
Proof. intros Hf Hs. wp_step. split; [eauto|]. by apply (core_assign p s f). Qed.

(** Computing the chunks of a body returns. *)
Lemma wp_chunks (b : bytes) eos (Q : result (list StreamedBodyResponse) -> stream W -> Prop) s :
  (forall rs, BuildChunkedBodyResponses b eos = Some rs -> Q (Ret rs) s) ->
  wp (deref (BuildChunkedBodyResponses b eos)) Q s.
Proof. intros HQ. destruct (BuildChunked_spec b eos) as (rs & Hrs & _). rewrite Hrs. by apply HQ. Qed.

Lemma phases_fmap {A} (f : A -> ProcessingResponse) n l :
  (forall x, phase (f x) = n) -> Forall (fun r => phase r = n) (f <$> l).
Proof. intros Hf. apply Forall_fmap, Forall_true. intros x. apply Hf. Qed.

Lemma on_request_body_ok p p' chunk eos s :
  advance p (MRequestBody chunk eos) = Some p' -> core p s ->
  wp (on_request_body director traceHeaders range chunk eos) (fun _ s' => core p' s') s.
Proof.
  intros Hadv Hcore. unfold advance in Hadv. destruct (p_trailers p); [done|]. unfold on_request_body. do 3 wp_step.
  assert (H0 : core p (s <| st_body := st_body s ++ chunk |>)) by (by eapply core_same; [|exact Hcore]).
  destruct eos; [|injection Hadv as <-; by wp_step].
  destruct (p_request p) eqn:Hpr; [done|]. destruct (p_ended p) eqn:Hpe; [done|]. injection Hadv as Heq.
  assert (Hp' : p_request p' = true) by (by rewrite <- Heq). assert (Hpe' : p_ended p' = false) by (by rewrite <- Heq).
  destruct (co_running _ _ H0 Hpr) as [Hrun _]. pose proof (co_unrouted _ _ H0 Hpr) as Htp. apply core_request in H0.
  assert (H1 : core p' (s <| st_body := st_body s ++ chunk |>)) by (destruct p; cbn in *; by subst).
  do 9 wp_step.
  apply keep_bind; [eapply direct_request; [by eapply core_same; [|exact H1]|done..]|].
  clear dependent s. intros [] s H1.
  eapply keep_bind_ret; [apply keep_assign; [by repeat case_match|done]|]. intros _ s2 H2.
  eapply keep_bind_ret; [wp_step; split; [eauto|]; by apply core_reqHeader|]. intros _ s3 H3. do 2 wp_step.
  unfold GenerateRequestBodyResponses. do 3 wp_step. apply wp_chunks. intros rs _. repeat wp_step.
  apply core_reqBody; [done| |done]. by apply phases_fmap.
Qed.

Lemma response_header_frame c hs : frame (foldl response_header c hs) = frame c.
Proof.
  revert c. induction hs as [|h hs IH]; intros c; cbn [foldl]; [done|].
  rewrite IH. unfold response_header. by repeat case_match.
Qed.

Lemma stored_headers_frame c hs :
  frame (foldl (fun c h => c <| ctx_Response := ctx_Response c
    <| rp_Headers := <[hv_Key h := GetHeaderValue h]> (rp_Headers (ctx_Response c)) |> |>) c hs) = frame c.
Proof. revert c. induction hs as [|h hs IH]; intros c; cbn [foldl]; [done|]. by rewrite IH. Qed.

Lemma on_response_headers_ok p p' headers s :
  advance p (MResponseHeaders headers) = Some p' -> core p s ->
  wp (on_response_headers director range headers) (fun _ s' => core p' s') s.
Proof.
  intros Hadv Hcore. unfold advance in Hadv. destruct (p_trailers p); [done|]. destruct (p_headers p) eqn:Hp; [done|].
  injection Hadv as Heq. unfold on_response_headers.
  eapply keep_bind_ret; [apply keep_assign; [apply response_header_frame|exact Hcore]|]. intros _ s1 H1. do 3 wp_step.
  apply (core_response_received p s1 Hp) in H1.
  assert (H2 : core p' (s1 <| st_ctx := st_ctx s1 <| RequestState := ResponseReceived |> |>)) by (by rewrite <- Heq).
  clear H1. generalize dependent (s1 <| st_ctx := st_ctx s1 <| RequestState := ResponseReceived |> |>). intros s2 H2.
  apply keep_bind.
  - unfold HandleResponseHeaders. do 2 wp_step. destruct headers as [hs|]; [|done]. wp_step.
    eapply keep_bind_ret; [apply keep_assign; [apply stored_headers_frame|exact H2]|]. intros _ s3 H3.
    eapply wp_mono; [|apply direct_hook; [done|apply (dl_header (good := good) (load := load) (share := share)), H3|exact H3]]. naive_solver.
  - intros [] s3 H3. wp_step. by apply core_respHeader.
Qed.

Lemma respond_ok p b eos s :
  core p s -> wp (respond b eos) (fun r s' => (exists a, r = Ret a) /\ core p s') s.
Proof.
  intros Hcore. unfold respond. do 3 wp_step. unfold generateResponseBodyResponses. do 2 wp_step. apply wp_chunks.
  intros rs _. repeat wp_step. split; [eauto|]. apply core_respBody; [|done].
  induction rs as [|r [|r' rs] IH]; cbn [body_responses]; repeat constructor. apply IH.
Qed.

Lemma hook_body_ok p b s :
  core p s -> wp (HandleResponseBody director ParseResponse b false) (fun r s' => (exists a, r = Ret a) /\ core p s') s.
Proof.
  intros Hcore. unfold HandleResponseBody.
  eapply keep_bind_ret; [by apply keep_assign; [|exact Hcore]|]. intros _ s1 H1.
  eapply keep_bind_ret; [apply keep_assign; [by repeat case_match|exact H1]|]. intros _ s2 H2.
  eapply wp_mono; [|apply direct_hook; [done| |exact H2]]; [naive_solver|].
  eapply wp_mono; [|apply (dl_body (good := good) (load := load) (share := share)), H2]. cbn. intros r d (-> & Hgo & Hl & Hd).
  split; [done|]. split; [done|]. split; [|done]. by rewrite Z.sub_0_r in Hl.
Qed.

(** The end of the response runs the completion hooks once. *)
Lemma core_completed p s s' :
  protocol (st_ctx s') = protocol (st_ctx s <| ResponseComplete := true |>) -> st_sent s' = st_sent s ->
  completions s' = Datatypes.S (completions s) -> gauge s' = gauge s ->
  IncomingModelName (st_ctx s') = IncomingModelName (st_ctx s) -> TargetPod (st_ctx s') = TargetPod (st_ctx s) ->
  cong64 (load (st_world s')) (load (st_world s) - share (TargetPod (st_ctx s)) (SchedulingRequest (st_ctx s))) ->
  good (st_world s') ->
  p_ended p = false -> core p s -> core (p <| p_ended := true |>) s'.
Proof.
  intros Hpr Hs Hc Hg Hn Htp Hl Hgo Hp [[] [] Hlv Hst Hcm Hru Htr Hwa Hun]. injection Hpr as E1 E2 E3 E4 E5 E6 E7 E8 E9.
  rewrite Hcm, Hp in *.
  split; cbn; rewrite ?E1, ?E2, ?E3, ?E4, ?E5, ?E6, ?E7, ?E8, ?E9, ?Hs; try done.
  - split; rewrite ?E4, ?E5, ?E6, ?E7, ?E8, ?E9; done.
  - split; rewrite ?Hs, ?Hc, ?Hg, ?Hn, ?E2, ?E3; try done; [by f_equal|].
    unfold balance in en_balance0 |- *. rewrite E2, Z.sub_0_r. rewrite Hcm in en_balance0. by eapply cong64_trans.
  - by rewrite Htp.
Qed.

Lemma complete_ok p now b s :
  p_ended p = false -> core p s ->
  wp (complete now ;;; HandleResponseBody director ParseResponse b true)
    (fun r s' => (exists a, r = Ret a) /\ core (p <| p_ended := true |>) s') s.
Proof.
  intros Hp Hcore. unfold HandleResponseBody, complete. do 9 wp_step. apply wp_direct.
  eapply wp_mono; [|apply (dl_body (good := good) (load := load) (share := share)), Hcore]. cbn beta.
  intros r d (-> & Hgo & Hl & [resp Hd]). split; [eauto|].
  apply (core_completed p s); try done; cbn; rewrite ?Hd.
  - cbn. by repeat case_match.
  - etrans; [apply completions_app|]. cbn. apply Nat.add_1_r.
  - cbn. by repeat case_match.
  - cbn. by repeat case_match.
  - eapply cong64_trans; [exact Hl|]. apply cong64_eq. cbn. by repeat case_match.
Qed.

Lemma finishResponse_ok p now b streaming eos s :
  core p s ->
  wp (finishResponse director ParseResponse now b streaming eos)
    (fun r s' => (exists a, r = Ret a) /\ core (p <| p_ended := true |>) s') s.
Proof.
  intros Hcore. unfold finishResponse. do 3 wp_step. pose proof (co_complete _ _ Hcore) as Hc.
  destruct (ResponseComplete (st_ctx s)).
  - wp_step. split; [eauto|]. by apply core_ended.
  - assert (Hassoc : forall Q, wp ((complete now ;;; HandleResponseBody director ParseResponse b true) ;;;
        if streaming then ret tt else respond b eos) Q s ->
      wp (complete now ;;; HandleResponseBody director ParseResponse b true ;;;
        if streaming then ret tt else respond b eos) Q s) by done.
    apply Hassoc. eapply keep_bind_ret; [by apply complete_ok|]. intros _ s1 H1.
    destruct streaming; [wp_step; eauto|by apply respond_ok].
Qed.

Lemma on_response_body_ok p p' now chunk eos s :
  advance p (MResponseBody chunk eos) = Some p' -> core p s ->
  wp (on_response_body director ParseResponse now chunk eos) (fun _ s' => core p' s') s.
Proof.
  intros Hadv Hcore. unfold advance in Hadv. destruct (p_trailers p); [done|]. unfold on_response_body. do 3 wp_step.
  destruct (modelServerStreaming (st_ctx s)).
  - destruct eos.
    + destruct (p_ended p) eqn:Hp; [done|]. injection Hadv as Heq.
      assert (Hassoc : forall Q, wp ((complete now ;;; HandleResponseBody director ParseResponse chunk true) ;;;
          respond chunk true) Q s ->
        wp (complete now ;;; HandleResponseBody director ParseResponse chunk true ;;; respond chunk true) Q s) by done.
      apply Hassoc. eapply keep_bind_ret; [by apply complete_ok|]. intros _ s1 H1. rewrite <- Heq.
      eapply wp_mono; [|by apply respond_ok]. naive_solver.
    + injection Hadv as <-. do 3 wp_step. eapply keep_bind_ret; [by apply hook_body_ok|]. intros _ s1 H1.
      eapply wp_mono; [|by apply respond_ok]. naive_solver.
  - do 3 wp_step.
    assert (H0 : core p (s <| st_body := st_body s ++ chunk |>)) by (by eapply core_same; [|exact Hcore]).
    destruct eos; [|injection Hadv as <-; by wp_step].
    destruct (p_ended p); [done|]. injection Hadv as Heq. rewrite <- Heq. do 3 wp_step.
    eapply wp_mono; [|by apply finishResponse_ok]. naive_solver.
Qed.

Lemma on_response_trailers_ok p p' now s :
  advance p MResponseTrailers = Some p' -> core p s ->
  wp (on_response_trailers director ParseResponse now) (fun _ s' => core p' s') s.
Proof.
  intros Hadv Hcore. unfold advance in Hadv. destruct (p_trailers p); [done|]. injection Hadv as Heq.
  unfold on_response_trailers. do 6 wp_step. eapply keep_bind_ret; [by apply finishResponse_ok|].
  intros _ s1 [[] [] Hlv Hst Hcm Hru Htr Hwa Hun]. wp_step. rewrite <- Heq.
  split; try done; split; cbn; try done. naive_solver.
Qed.

(** A message the protocol allows keeps the invariant, whether its handler
    returns, fails or panics. *)
Lemma on_message_ok p p' now uuid req s :
  advance p (pr_Request req) = Some p' -> core p s ->
  wp (on_message director ParseResponse traceHeaders range now uuid req) (fun _ s' => core p' s') s.
Proof.
  intros Hadv Hcore. unfold on_message.
  eapply keep_bind_ret; [by apply keep_assign; [|exact Hcore]|]. intros _ s1 H1.
  assert (Hp : p_trailers p = false) by (unfold advance in Hadv; by destruct (p_trailers p)).
  destruct (pr_Request req) as [hs eos|b eos| |hs|b eos|].
  - eapply wp_mono; [|apply (on_request_headers_ok p); exact H1]. unfold advance in Hadv. rewrite Hp in Hadv. naive_solver.
  - by eapply on_request_body_ok.
  - wp_step. unfold advance in Hadv. rewrite Hp in Hadv. naive_solver.
  - by eapply on_response_headers_ok.
  - by eapply on_response_body_ok.
  - by eapply on_response_trailers_ok.
Qed.

(** ** Sending *)

Lemma sorted_app (l k : list ProcessingResponse) :
  StronglySorted may_follow l -> StronglySorted may_follow k -> (forall x y, x ∈ l -> y ∈ k -> may_follow x y) ->
  StronglySorted may_follow (l ++ k).
Proof.
  intros Hl Hk Hx. induction Hl as [|x l Hl IH Hall]; [done|]. cbn. constructor.
  - apply IH. intros. apply Hx; [by right|done].
  - apply Forall_app. split; [done|]. apply Forall_forall. intros y Hy. apply Hx; [left|done].
Qed.

(** Responses of one kind that may be appended. *)
Definition appendable s (n : Z) (l : list ProcessingResponse) : Prop :=
  n <= 5 /\ Forall (fun r => phase r = n) l /\
  (Forall (fun r => phase r < n) (st_sent s) /\ (length l <= 1)%nat \/
   Forall (fun r => phase r <= n) (st_sent s) /\ (n = 1 \/ n = 4)).

Lemma ending_send s n l : appendable s n l -> ending s -> ending (s <| st_sent := st_sent s ++ l |>).
Proof.
  intros (Hn & Hl & Hs) []. rewrite Forall_forall in Hl. split; cbn; try done.
  - apply sorted_app; [done| |].
    + destruct Hs as [[_ Hlen]|[_ Hn4]].
      * destruct l as [|x [|y l]]; [constructor|repeat constructor|cbn in Hlen; lia].
      * clear -Hl Hn4. induction l as [|x l IH]; constructor; [apply IH; set_solver|].
        apply Forall_forall. intros y Hy. right. rewrite !Hl by set_solver. naive_solver.
    + intros x y Hx Hy. unfold may_follow. rewrite (Hl y Hy).
      destruct Hs as [[Hs _]|[Hs Hn4]]; rewrite Forall_forall in Hs; specialize (Hs x Hx); naive_solver lia.
  - apply Forall_app. split; [done|]. apply Forall_forall. intros x Hx. by rewrite (Hl x Hx).
Qed.

Lemma wp_Send s r (Q : result unit -> stream W -> Prop) :
  Q (Ret tt) (s <| st_sent := st_sent s ++ [r] |>) -> Q (Fails errSend) s -> wp (Send send_ok r) Q s.
Proof. intros. unfold wp, Send. by destruct (send_ok _ _). Qed.

(** A loop of sends sends a prefix, and all of it when it returns. *)
Lemma wp_Sends l : forall s (Q : result unit -> stream W -> Prop),
  (forall k, k `prefix_of` l -> Q (Fails errSend) (s <| st_sent := st_sent s ++ k |>)) ->
  Q (Ret tt) (s <| st_sent := st_sent s ++ l |>) -> wp (each (Send send_ok) l) Q s.
Proof.
  induction l as [|x l IH]; intros s Q Hfail Hret; cbn [each].
  - wp_step. cbn in Hret. rewrite app_nil_r in Hret. by destruct s.
  - wp_step. apply wp_Send; cbn [then_].
    + apply IH; cbn; rewrite <- ?app_assoc; [|done]. intros k Hk. rewrite <- app_assoc. apply Hfail. by apply prefix_cons.
    + specialize (Hfail [] (prefix_nil _)). cbn in Hfail. rewrite app_nil_r in Hfail. by destruct s.
Qed.

Lemma appendable_prefix s n k l : k `prefix_of` l -> appendable s n l -> appendable s n k.
Proof.
  intros [k' ->] (Hn & Hl & Hs). apply Forall_app in Hl as [Hl _]. rewrite length_app in Hs.
  split; [done|]. split; [done|]. destruct Hs as [[Hs Hlen]|Hs]; [left|by right]. split; [done|lia].
Qed.

Lemma wp_when_state st (m : S unit) (Q : result unit -> stream W -> Prop) s :
  (RequestState (st_ctx s) = st -> wp m Q s) -> Q (Ret tt) s -> wp (when_state st m) Q s.
Proof. intros Hm HQ. unfold when_state. do 3 wp_step. case_bool_decide; [by apply Hm|by wp_step]. Qed.

Lemma wp_when_some {A} (f : RequestContext -> option A) (m : A -> S unit) (Q : result unit -> stream W -> Prop) s :
  (forall a, f (st_ctx s) = Some a -> wp (m a) Q s) -> Q (Ret tt) s -> wp (when_some f m) Q s.
Proof. intros Hm HQ. unfold when_some. do 3 wp_step. destruct (f (st_ctx s)); [by apply Hm|by wp_step]. Qed.

(** What a stage of sending leaves: the invariant, or a stream that ends well. *)
Definition stage p (r : result unit) s : Prop :=
  match r with Ret _ => core p s | Fails _ => ending s | Panics => False end.

Lemma stage_bind p (m k : S unit) (Q : result unit -> stream W -> Prop) s :
  wp m (stage p) s -> (forall s', core p s' -> wp k Q s') -> (forall e s', ending s' -> Q (Fails e) s') ->
  wp (m ;;; k) Q s.
Proof.
  intros Hm Hk HQ. apply wp_bind. eapply wp_mono; [|exact Hm]. intros [[]|e|] s' Hs'; cbn in Hs' |- *; [by apply Hk|by apply HQ|done].
Qed.

(** Headers of either half: sent once, and the state moves on. *)
Lemma header_stage p s st r :
  core p s -> phase r <= 5 -> level (RequestState (st_ctx s)) < phase r -> phase r <= level st ->
  (if p_headers p
   then st ∈ [ResponseReceived; HeaderResponseResponseComplete; BodyResponseResponsesComplete]
   else st ∈ [RequestReceived; HeaderRequestResponseComplete; BodyRequestResponsesComplete]) ->
  (st ∈ [RequestReceived; HeaderRequestResponseComplete] -> RequestRunning (st_ctx s) = false) ->
  wp (Send send_ok r ;;; enter st) (stage p) s.
Proof.
  intros [Hpre Hen Hlv Hst Hcm Hru Htr Hwa Hun] H5 Hlt Hle Hin Hwait. wp_step. apply wp_Send; [|exact Hen]. cbn [then_]. wp_step.
  assert (Happ : appendable s (phase r) [r]).
  { split; [done|]. split; [by constructor|]. left. split; [|done]. eapply Forall_impl; [exact Hlv|]. cbn. lia. }
  pose proof (ending_send _ _ _ Happ Hen) as []. destruct Hpre. split; try done; try (split; cbn; done). cbn.
  apply Forall_app. split; [eapply Forall_impl; [exact Hlv|]; cbn; lia|by constructor].
Qed.

Lemma request_body_stage p s :
  core p s -> RequestState (st_ctx s) = HeaderRequestResponseComplete ->
  wp (rs <~ get reqBodyResp ;;
      match rs with
      | [] => ret tt
      | _ =>
          each (Send send_ok) rs ;;;
          enter BodyRequestResponsesComplete ;;;
          model <~ get IncomingModelName ;;
          record (IncRunningRequests model) ;;;
          assign (fun c => c <| RequestRunning := true |> <| reqBodyResp := [] |>)
      end) (stage p) s.
Proof.
  intros Hcore Heq. do 3 wp_step. destruct (reqBodyResp (st_ctx s)) as [|r rs] eqn:Hrs; [by wp_step|].
  destruct Hcore as [[] Hen Hlv Hst Hcm Hru Htr Hwa Hun].
  assert (Happ : appendable s 1 (r :: rs)).
  { split; [lia|]. split; [by rewrite <- Hrs|]. right. split; [|by left]. eapply Forall_impl; [exact Hlv|].
    rewrite Heq. cbn. lia. }
  wp_step. apply wp_Sends; cbn [then_].
  { intros k Hk. cbn. eapply ending_send; [|exact Hen]. by eapply appendable_prefix. }
  repeat wp_step. pose proof (ending_send _ _ _ Happ Hen) as [Hord H5 Hco Hga].
  assert (Hrun : RequestRunning (st_ctx s) = false) by (apply Hwa; rewrite Heq; set_solver).
  rewrite Heq in Hst, Hlv. cbn in Hga. rewrite Hrun in Hga. split; try done.
  - split; cbn; try done. unfold gauge. cbn. rewrite List.filter_app. unfold gauge in Hga. cbn in Hga. by rewrite Hga.
  - cbn. apply Forall_app. split; [eapply Forall_impl; [exact Hlv|]; cbn; lia|].
    destruct Happ as (_ & Hl & _). eapply Forall_impl; [exact Hl|]. cbn. lia.
  - cbn. destruct (p_headers p); set_solver.
  - cbn. intros Hp. specialize (Hru Hp) as [_ Hru]. congruence.
  - cbn. set_solver.
Qed.

Lemma response_body_stage p s :
  core p s -> RequestState (st_ctx s) = HeaderResponseResponseComplete ->
  wp (rs <~ get respBodyResp ;;
      each (Send send_ok) rs ;;;
      done <~ get ResponseComplete ;;
      (if (done : bool) then enter BodyResponseResponsesComplete else ret tt) ;;;
      assign (fun c => c <| respBodyResp := [] |>)) (stage p) s.
Proof.
  intros [[] Hen Hlv Hst Hcm Hru Htr Hwa Hun] Heq. do 4 wp_step.
  assert (Happ : appendable s 4 (respBodyResp (st_ctx s))).
  { split; [lia|]. split; [done|]. right. split; [|by right]. by rewrite Heq in Hlv. }
  apply wp_Sends; cbn [then_].
  { intros k Hk. cbn. eapply ending_send; [|exact Hen]. by eapply appendable_prefix. }
  pose proof (ending_send _ _ _ Happ Hen) as [].
  assert (Hall : Forall (fun r => phase r <= 4) (st_sent s ++ respBodyResp (st_ctx s))).
  { apply Forall_app. rewrite Heq in Hlv. split; [done|]. eapply Forall_impl; [done|]. cbn. lia. }
  do 4 wp_step. cbn [st_ctx set]. destruct (ResponseComplete (st_ctx s)) eqn:Hd; repeat wp_step; rewrite Heq in Hst;
    (split; cbn; try done; try (split; cbn; try done; by rewrite ?Heq, ?Hd); rewrite ?Heq; try done).
  all: try (destruct (p_headers p); set_solver). all: try set_solver.
Qed.

Lemma update_ok p s :
  core p s ->
  wp (updateStateAndSendIfNeeded send_ok) (fun r s' =>
    match r with Ret _ => if p_trailers p then ending s' else core p s' | Fails _ => ending s' | Panics => False end) s.
Proof.
  intros Hcore. unfold updateStateAndSendIfNeeded.
  apply (stage_bind p); [|clear s Hcore; intros s Hcore|done].
  { apply wp_when_state; [intros Heq|done]. apply wp_when_some; [intros r Hr|done].
    pose proof (pr_reqHeader _ (co_prepared _ _ Hcore) r Hr). pose proof (co_state _ _ Hcore) as Hst.
    pose proof (co_waiting _ _ Hcore) as Hw. rewrite Heq in Hst, Hw.
    apply header_stage; rewrite ?Heq; cbn; try done; try lia; [|set_solver]. destruct (p_headers p); set_solver. }
  apply (stage_bind p); [|clear s Hcore; intros s Hcore|done].
  { apply wp_when_state; [intros Heq|done]. by apply request_body_stage. }
  apply (stage_bind p); [|clear s Hcore; intros s Hcore|done].
  { apply wp_when_state; [intros Heq|done]. apply wp_when_some; [|done].
    intros r Hr. rewrite (pr_reqTrailer _ (co_prepared _ _ Hcore)) in Hr. done. }
  apply (stage_bind p); [|clear s Hcore; intros s Hcore|done].
  { apply wp_when_state; [intros Heq|done]. apply wp_when_some; [intros r Hr|done].
    pose proof (pr_respHeader _ (co_prepared _ _ Hcore) r Hr). pose proof (co_state _ _ Hcore) as Hst.
    rewrite Heq in Hst. apply header_stage; rewrite ?Heq; cbn; try done; try lia; [|set_solver].
    destruct (p_headers p); set_solver. }
  apply (stage_bind p); [|clear s Hcore; intros s Hcore|done].
  { apply wp_when_state; [intros Heq|done]. by apply response_body_stage. }
  assert (Hend : if p_trailers p then ending s else core p s) by (destruct (p_trailers p); [apply Hcore|done]).
  apply wp_when_state; [intros Heq|done]. apply wp_when_some; [intros r Hr|done].
  destruct (p_trailers p) eqn:Ht; [|by rewrite (co_trailer _ _ Hcore Ht) in Hr].
  apply wp_Send; [|done]. eapply ending_send; [|done]. pose proof (pr_respTrailer _ (co_prepared _ _ Hcore) r Hr) as H5.
  split; [|split]; [|constructor; [exact H5|constructor]|]; [lia|]. left. split; [|done].
  pose proof (co_levels _ _ Hcore) as Hlv. rewrite Heq in Hlv. eapply Forall_impl; [exact Hlv|]. cbn. lia.
Qed.

(** ** The stream *)

Definition inv p s : Prop := if p_trailers p then ending s else core p s.

Lemma inv_ending p s : inv p s -> ending s.
Proof. unfold inv. destruct (p_trailers p); [done|]. apply co_ending. Qed.

(** When the loop has ended, before the deferred function runs. *)
Record ended s : Prop := {
  ed_order : StronglySorted may_follow (st_sent s);
  ed_completions : completions s = if ResponseComplete (st_ctx s) then 1%nat else 0%nat;
  ed_gauge : gauge s = if RequestRunning (st_ctx s) then [IncRunningRequests (IncomingModelName (st_ctx s))] else [];
  ed_balance : cong64 (balance s) load0;
  ed_good : good (st_world s)
}.

Lemma ending_ended s : ending s -> ended s.
Proof. intros []. by split. Qed.

Lemma fail_stream_ok e s s' o : ending s -> fail_stream send_ok e s = (s', o) -> ended s' /\ o <> Running.
Proof.
  intros Hen Hf. unfold fail_stream in Hf. destruct (BuildErrResponse e) as [resp|e'] eqn:Hb; [|simplify_eq; by split; [apply ending_ended|]].
  assert (Hresp : phase resp = 6) by (unfold BuildErrResponse in Hb; destruct (http_status _); [by injection Hb as <-|discriminate]).
  unfold Send in Hf. destruct (send_ok (st_sent s) resp); simplify_eq; (split; [|done]); [|by apply ending_ended].
  destruct Hen. split; cbn; try done. apply sorted_app; [done|repeat constructor|].
  intros x y Hx Hy. apply list_elem_of_singleton in Hy as ->. left. rewrite Hresp.
  rewrite Forall_forall in en_level0. specialize (en_level0 x Hx). lia.
Qed.

Abbreviation turn := (turn director ParseResponse traceHeaders range send_ok).
Abbreviation process_loop := (process_loop director ParseResponse traceHeaders range send_ok).
Abbreviation Process := (Process director ParseResponse traceHeaders range send_ok).

Lemma turn_ok p p' i s s' o err :
  inv p s -> advance_input p i = Some p' -> turn i s = (s', o, err) ->
  match o with Running => inv p' s' | _ => ended s' end.
Proof.
  intros Hinv Hadv Ht. destruct i as [| |msg|now uuid req]; cbn [Server.turn] in Ht; cbn [advance_input] in Hadv;
    [simplify_eq; by eapply ending_ended, inv_ending..|].
  assert (Hcore : core p s).
  { unfold inv in Hinv. unfold advance in Hadv. by destruct (p_trailers p). }
  pose proof (on_message_ok p p' now uuid req s Hadv Hcore) as Hm. unfold wp in Hm.
  destruct (on_message _ _ _ _ _ _ _ s) as [s1 [[]|e|]].
  - pose proof (update_ok p' s1 Hm) as Hu. unfold wp in Hu.
    destruct (updateStateAndSendIfNeeded _ s1) as [s2 [[]|e|]]; simplify_eq; [|by apply ending_ended|done].
    done.
  - destruct (fail_stream send_ok e s1) as [s2 o2] eqn:Hf. simplify_eq.
    destruct (fail_stream_ok e s1 s' o (co_ending _ _ Hm) Hf) as [Hed Ho]. by destruct o.
  - simplify_eq. apply ending_ended, Hm.
Qed.

(** The deferred function runs the completion hooks of a scheduled request that
    has not completed, and takes it from the gauge. *)
Record finished s : Prop := {
  fi_order : StronglySorted may_follow (st_sent s);
  fi_completions : completions s =
    if bool_decide (is_Some (TargetPod (st_ctx s))) || ResponseComplete (st_ctx s) then 1%nat else 0%nat;
  fi_gauge : gauge s = if RequestRunning (st_ctx s)
                       then [IncRunningRequests (IncomingModelName (st_ctx s)); DecRunningRequests (IncomingModelName (st_ctx s))]
                       else [];
  fi_load : cong64 (load (st_world s)) load0;
  fi_good : good (st_world s)
}.

Lemma filter_gauge_err l i tg code :
  List.filter is_gauge (l ++ [RecordRequestErrCounter i tg code]) = List.filter is_gauge l.
Proof. rewrite List.filter_app. cbn. by rewrite app_nil_r. Qed.

Lemma deferred_ok err s : ended s -> wp (deferred director err) (fun r s' => r = Ret tt /\ finished s') s.
Proof.
  intros Hed. unfold deferred. do 3 wp_step.
  assert (Hrest : forall s1, st_ctx s1 = st_ctx s -> ended s1 ->
    wp ((if RequestRunning (st_ctx s) then record (DecRunningRequests (IncomingModelName (st_ctx s))) else ret tt) ;;;
        match TargetPod (st_ctx s) with
        | Some _ => if ResponseComplete (st_ctx s) then ret tt
                    else direct (CHandleResponseBody true) (di_HandleResponseBody director true)
        | None => ret tt
        end) (fun r s' => r = Ret tt /\ finished s') s1).
  2: { assert (Herr : forall i tg code, ended (s <| st_metrics := st_metrics s ++ [RecordRequestErrCounter i tg code] |>)).
    { intros. destruct Hed as [Hord Hco Hga Hba Hgo]. split; try done. unfold gauge. cbn. by rewrite filter_gauge_err. }
    wp_step. destruct (negb _); [|destruct err]; wp_step; cbn [then_]; (apply Hrest; [done|]); [apply Herr..|exact Hed]. }
  clear err. intros s1 Hc [Hord Hco Hga Hba Hgo]. unfold balance in Hba. rewrite Hc in Hco, Hga, Hba.
  assert (Hgauge : wp (if RequestRunning (st_ctx s) then record (DecRunningRequests (IncomingModelName (st_ctx s))) else ret tt)
    (fun r s2 => r = Ret tt /\ st_ctx s2 = st_ctx s /\ st_world s2 = st_world s1 /\ st_sent s2 = st_sent s1 /\ completions s2 = completions s1 /\
       gauge s2 = if RequestRunning (st_ctx s)
                  then [IncRunningRequests (IncomingModelName (st_ctx s)); DecRunningRequests (IncomingModelName (st_ctx s))]
                  else []) s1).
  { destruct (RequestRunning (st_ctx s)); wp_step; [|done]. repeat split; try done. unfold gauge. cbn.
    rewrite List.filter_app. unfold gauge in Hga. by rewrite Hga. }
  wp_step. eapply wp_mono; [|exact Hgauge]. intros r s2 (-> & Hc2 & Hw2 & Hs2 & Hco2 & Hg2). cbn [then_].
  rewrite <- Hs2 in Hord. rewrite <- Hco2 in Hco. rewrite <- Hw2 in Hba, Hgo. clear Hgauge Hga Hs2 Hco2 Hc.
  destruct (TargetPod (st_ctx s)) eqn:Htp; [destruct (ResponseComplete (st_ctx s)) eqn:Hrc|]; repeat wp_step.
  - rewrite Z.sub_0_r in Hba. split; [done|]. split; rewrite ?Hc2; [done| |done..]. by rewrite Hrc, orb_true_r.
  - apply wp_direct. eapply wp_mono; [|apply (dl_body (good := good) (load := load) (share := share)); exact Hgo]. cbn.
    intros r d (-> & Hgo' & Hl & [resp Hd]). split; [done|].
    split; cbn; rewrite ?Hd, ?Hc2; cbn; [done| |done| |done].
    + rewrite Htp. cbn. etrans; [apply completions_app|]. by rewrite Hco.
    + rewrite Hc2, Htp in Hl. by eapply cong64_trans.
  - split; [done|]. split; rewrite ?Hc2; [done|by rewrite Htp|done| |done]. rewrite dl_unrouted in Hba. by destruct (ResponseComplete (st_ctx s)); rewrite Z.sub_0_r in Hba.
Qed.

(** From a state that satisfies the invariant, a stream that ends is finished. *)
Lemma process_loop_ok inputs : forall p pf s s' o,
  inv p s -> ofold advance_input inputs p = Some pf -> process_loop inputs s = (s', o) ->
  match o with Running => inv pf s' | _ => finished s' end.
Proof.
  induction inputs as [|i inputs IH]; intros p pf s s' o Hinv Hadv Hrun; cbn [Server.process_loop] in Hrun.
  - cbn in Hadv. by simplify_eq.
  - cbn [ofold mbind option_bind] in Hadv. destruct (advance_input p i) as [p1|] eqn:Hp1; [|done].
    destruct (turn i s) as [[s1 o1] err] eqn:Ht. pose proof (turn_ok p p1 i s s1 o1 err Hinv Hp1 Ht) as Hok.
    destruct o1 as [|e|]; [by eapply IH|..];
      pose proof (deferred_ok err s1 Hok) as Hd; unfold wp in Hd; destruct (deferred director err s1) as [s2 r];
      destruct Hd as [-> Hfin]; by simplify_eq.
Qed.

Lemma new_stream_ok w : good w -> load w = load0 -> inv (mkProgress false false false false) (new_stream w).
Proof.
  intros Hgo Hw.
  split; [split; cbn; try done; constructor|split; cbn; try done; [constructor..|]|constructor|cbn; set_solver|done..].
  unfold balance. cbn. rewrite dl_unrouted, Z.sub_0_r. by apply cong64_eq.
Qed.

Lemma process_ok w inputs pf s o :
  good w -> load w = load0 -> envoy_stream inputs = Some pf -> Process w inputs = (s, o) -> match o with Running => inv pf s | _ => finished s end.
Proof. intros Hgo Hw Hadv Hrun. eapply process_loop_ok; [by apply new_stream_ok|exact Hadv|exact Hrun]. Qed.

(** A stream Envoy ends is over. *)
Lemma process_loop_ends inputs i : forall s,
  match i with Recv _ _ _ => False | _ => True end -> snd (process_loop (inputs ++ [i]) s) <> Running.
Proof.
  induction inputs as [|j inputs IH]; intros s Hi; cbn [app Server.process_loop].
  - destruct i; [..|done]; cbn [Server.turn]; destruct (deferred director None s) as [s1 r]; by destruct r.
  - destruct (turn j s) as [[s1 o1] err]. destruct o1; [by apply IH|..]; destruct (deferred director err s1) as [s2 r]; by destruct r.
Qed.

(** The input ends the stream: end of file, cancellation or an error. *)
Definition ends (i : input) : Prop := match i with Recv _ _ _ => False | _ => True end.

Lemma process_ended w inputs pf i s o :
  good w -> load w = load0 -> envoy_stream inputs = Some pf -> ends i -> Process w (inputs ++ [i]) = (s, o) ->
  o <> Running /\ finished s.
Proof.
  intros Hgo Hw Henv Hi Hrun.
  assert (Hend : o <> Running).
  { pose proof (process_loop_ends inputs i (new_stream w) Hi) as He. unfold Server.Process in Hrun. by rewrite Hrun in He. }
  split; [done|]. assert (Henv' : envoy_stream (inputs ++ [i]) = Some pf).
  { unfold envoy_stream in *. rewrite ofold_app, Henv. by destruct i. }
  pose proof (process_ok w (inputs ++ [i]) pf s o Hgo Hw Henv' Hrun). by destruct o.
Qed.

End Invariant.
