(* ===== verification/DirectorProps.v ===== *)
(** What the director promises: it meets the laws the server relies on, it runs
    the hooks of a request exactly when it routes it, and forwards a body that
    names the target model. *)

From S2P Require Import Prelude InFlight ModelRewrite DataGraph Scheduler Ordering Chunking ReqCtx Candidates Director.
From S2P Require Import Server ServerProps.

Section Director.

Context {W E : Type} (GetMetadata : E -> option EndpointMetadata) (d : DirectorConfig (W := W) (E := E)).
Implicit Types (w : W) (s : dstate W).

(** The director as the server's interface. *)
Definition director_of : DirectorI W := {|
  di_HandleRequest := HandleRequest GetMetadata d;
  di_HandleResponseHeader := HandleResponseHeader d;
  di_HandleResponseBody := Director.HandleResponseBody d;
  di_GetRandomEndpoint := GetRandomEndpoint GetMetadata d
|}.

(** The hooks of a list, one after the other. *)
Definition run_pre (result : option (Scheduler.SchedulingResult (E := E))) (w : W) (request : LLMRequest) : W * LLMRequest :=
  foldl (fun '(w, request) plugin => plugin w request result) (w, request) (preRequestPlugins d).

Definition run_hooks
    (plugins : list (W -> option LLMRequest -> PluginResponse -> option EndpointMetadata -> W * PluginResponse))
    (request : option LLMRequest) (target : option EndpointMetadata) (w : W) (response : PluginResponse)
    : W * PluginResponse :=
  foldl (fun '(w, response) plugin => plugin w request response target) (w, response) plugins.

(** [r] came from the scheduler, and [target] is the first target of its primary
    profile. *)
Definition routes_to (r : Scheduler.SchedulingResult (E := E)) (target : EndpointMetadata) : Prop :=
  exists pr e, ProfileResults r !! PrimaryProfileName r = Some (Some pr) /\
    head (TargetEndpoints pr) = Some e /\ GetMetadata e = Some target.

Definition scheduled (r : Scheduler.SchedulingResult (E := E)) : Prop :=
  exists w request endpoints w', ScheduleRequest d w request endpoints = (w', inl (Some r)).

(** A counter the hooks keep, in worlds that satisfy an invariant: only the hooks
    of routed requests and of the ends of responses change it. *)
Class PluginLaws (good : W -> Prop) (load : W -> Z) (share : option EndpointMetadata -> option LLMRequest -> Z) : Prop := {
  pl_admit w c p : good w -> good (AdmitRequest d w c p).1 /\ load (AdmitRequest d w c p).1 = load w;
  pl_locate w md : good w -> good (LocateCandidates d w md).1 /\ load (LocateCandidates d w md).1 = load w;
  pl_prepare p endpoints w request : good w ->
    good (PrepareRequestData d p endpoints (w, request)).1.1 /\ load (PrepareRequestData d p endpoints (w, request)).1.1 = load w;
  pl_admission plugin w request endpoints : plugin ∈ admissionPlugins d -> good w ->
    good (plugin w request endpoints).1 /\ load (plugin w request endpoints).1 = load w;
  pl_schedule w request endpoints : good w ->
    good (ScheduleRequest d w request endpoints).1 /\ load (ScheduleRequest d w request endpoints).1 = load w;
  pl_pre w request r target : scheduled r -> routes_to r target -> good w ->
    good (run_pre (Some r) w request).1 /\
    cong64 (load (run_pre (Some r) w request).1)
           (load w + share (Some target) (Some (run_pre (Some r) w request).2));
  pl_header w request response target : good w ->
    good (run_hooks (responseReceivedPlugins d) request target w response).1 /\
    cong64 (load (run_hooks (responseReceivedPlugins d) request target w response).1) (load w);
  pl_body w request response target : good w ->
    good (run_hooks (responseStreamingPlugins d) request target w response).1 /\
    cong64 (load (run_hooks (responseStreamingPlugins d) request target w response).1)
           (load w - if rs_EndOfStream response then share target request else 0);
  pl_none r : share None r = 0
}.

(** Every director keeps the counter that counts nothing. *)
#[export] Instance no_counter : PluginLaws (fun _ => True) (fun _ => 0) (fun _ _ => 0).
Proof. split; intros; try done. split; [done|]. by case_match. Qed.

Context (good : W -> Prop) (load : W -> Z) (share : option EndpointMetadata -> option LLMRequest -> Z).
Context `{!PluginLaws good load share}.

(** * Steps *)

Lemma wp_ctx_get {A} (f : RequestContext -> A) (Q : result A -> dstate W -> Prop) s :
  Q (Ret (f (d_ctx s))) s -> wp (ctx_get f) Q s.
Proof. done. Qed.

Lemma wp_ctx_set f (Q : result unit -> dstate W -> Prop) s :
  Q (Ret tt) (s <| d_ctx := f (d_ctx s) |>) -> wp (ctx_set f) Q s.
Proof. done. Qed.

Lemma wp_world_call {A} (f : W -> W * A) (Q : result A -> dstate W -> Prop) s :
  Q (Ret (f (d_world s)).2) (s <| d_world := (f (d_world s)).1 |>) -> wp (world_call f) Q s.
Proof. unfold wp, world_call. by destruct (f (d_world s)). Qed.

Ltac dstep :=
  match goal with
  | |- wp (ctx_get _) _ _ => apply wp_ctx_get
  | |- wp (ctx_set _) _ _ => apply wp_ctx_set
  | |- wp (world_call _) _ _ => apply wp_world_call
  | _ => wp_step
  end.

(** Nothing the server or the counter sees has happened since [s0]. *)
Definition quiet s0 s : Prop :=
  good (d_world s) /\ protocol (d_ctx s) = protocol (d_ctx s0) /\ TargetPod (d_ctx s) = TargetPod (d_ctx s0) /\
  load (d_world s) = load (d_world s0).

Lemma quiet_bind {A B} s0 (m : M (dstate W) A) (k : A -> M (dstate W) B) s :
  wp m (fun _ s' => quiet s0 s') s -> (forall a s', quiet s0 s' -> wp (k a) (fun _ s' => quiet s0 s') s') ->
  wp (bind m k) (fun _ s' => quiet s0 s') s.
Proof.
  intros Hm Hk. apply wp_bind. eapply wp_mono; [|exact Hm]. intros [a|e|] s' Hs'; cbn [then_]; [by apply Hk|done..].
Qed.

Lemma rewrite_quiet s0 s :
  quiet s0 s -> wp (applyWeightedModelRewrite d) (fun r s' => quiet s0 s' /\ forall e, r <> Fails e) s.
Proof.
  intros Hq. unfold applyWeightedModelRewrite. repeat dstep. destruct (getRule _ _) as [[rule n]|]; repeat dstep; [|done].
  destruct (selectWeightedModel _ _); repeat dstep; done.
Qed.

(** An error that is answered with a status of its own. *)
Definition has_status {A} (r : result A) : Prop := forall e, r = Fails e -> is_Some (http_status (CanonicalCode e)).

(** The body to forward, in the context [c] of a request that came with [c0]: its
    size is known; JSON is marshalled again with the target model in place of the
    client's, and every other body is the client's. *)
Definition body_ok (c0 c : RequestContext) : Prop :=
  RequestSize c = Z.of_nat (length (rq_RawBody (ctx_Request c))) /\
  exists b, ParseRequest d (rq_RawBody (ctx_Request c0)) (rq_Headers (ctx_Request c0)) = inl b /\
    match lb_Payload b with
    | PayloadMap m =>
        m !! "model" = Some (VString (IncomingModelName c)) /\
        Marshal d (<["model" := VString (TargetModelName c)]> m) = Some (rq_RawBody (ctx_Request c))
    | PayloadProto | RawPayload _ => rq_RawBody (ctx_Request c) = rq_RawBody (ctx_Request c0)
    | OtherPayload => False
    end.

Lemma rewrite_keeps s :
  wp (applyWeightedModelRewrite d) (fun _ s' => exists target, s' = s <| d_ctx := d_ctx s <| TargetModelName := target |> |>) s.
Proof.
  assert (Hid : exists target, s = s <| d_ctx := d_ctx s <| TargetModelName := target |> |>).
  { exists (TargetModelName (d_ctx s)). destruct s as [w []]. done. }
  unfold applyWeightedModelRewrite. repeat dstep. destruct (getRule _ _) as [[rule n]|]; repeat dstep; [|done].
  destruct (selectWeightedModel _ _); repeat dstep; eauto.
Qed.

Lemma mutate_spec m s0 s :
  quiet s0 s ->
  wp (mutateAndRepackage d m) (fun r s' => quiet s0 s' /\ has_status r /\
    forall m', r = Ret m' -> RequestSize (d_ctx s') = Z.of_nat (length (rq_RawBody (ctx_Request (d_ctx s')))) /\
      m !! "model" = Some (VString (IncomingModelName (d_ctx s'))) /\
      Marshal d (<["model" := VString (TargetModelName (d_ctx s'))]> m) = Some (rq_RawBody (ctx_Request (d_ctx s')))) s.
Proof.
  intros Hq. unfold mutateAndRepackage, mutateModel. dstep.
  destruct (m !! "model") as [[incoming| | |]|]; [|repeat dstep; split_and!; try done; by intros e [= <-]; eexists..].
  do 6 dstep. dstep. match goal with |- wp _ _ ?x => set (s2 := x) end.
  assert (Hq2 : quiet s0 s2) by (subst s2; cbn; by case_match).
  assert (Hin : IncomingModelName (d_ctx s2) = incoming) by (subst s2; cbn; by destruct (String.eqb _ _)). clearbody s2.
  pose proof (rewrite_quiet s0 s2 Hq2) as Hrq. pose proof (rewrite_keeps s2) as Hrk. unfold wp in Hrq, Hrk. unfold wp at 1.
  destruct (applyWeightedModelRewrite d s2) as [s1 [[]|e|]]; destruct Hrq as [H1 He]; cbn [then_]; [|by destruct (He e)|by split_and!].
  repeat dstep. destruct (Marshal d _) as [b|] eqn:Hb; repeat dstep; [|split_and!; try done; by intros e [= <-]; eexists].
  split; [done|]. split; [done|]. intros m' [= <-]. split; [done|]. destruct Hrk as [target ->]. cbn in *. by rewrite Hin.
Qed.

Lemma processRequestBody_spec s :
  quiet s s ->
  wp (processRequestBody d) (fun r s' =>
    quiet s s' /\ has_status r /\ forall b, r = Ret b -> body_ok (d_ctx s) (d_ctx s')) s.
Proof.
  intros Hq. unfold processRequestBody. do 3 dstep.
  destruct (ParseRequest d _ _) as [b|msg] eqn:Hparse; [|dstep; split_and!; try done; by intros e [= <-]; eexists].
  destruct (lb_Payload b) as [m| |raw|] eqn:Hp; [|..|dstep; split_and!; try done; by intros e [= <-]; eexists].
  2,3: repeat dstep; split; [done|]; split; [done|]; intros b' _; split; [done|]; exists b; by rewrite Hp.
  dstep. eapply wp_mono; [|by apply (mutate_spec m s)].
  intros [m'|e|] s1 (H1 & He & Hm); cbn [then_]; [|split_and!; try done; intros e' [= <-]; by apply He|by split_and!].
  dstep. split; [done|]. split; [done|]. intros b' _. destruct (Hm m' eq_refl) as (Hsz & Hin & Hmar).
  split; [done|]. exists b. by rewrite Hp.
Qed.

(** * Plugins *)

Lemma prepare_load endpoints plugins w request :
  good w ->
  good (executePluginsAsDAG (fun p => PrepareRequestData d p endpoints) plugins (w, request)).1.1 /\
  load (executePluginsAsDAG (fun p => PrepareRequestData d p endpoints) plugins (w, request)).1.1 = load w.
Proof.
  revert w request. induction plugins as [|p plugins IH]; intros w request Hgo; cbn [executePluginsAsDAG]; [done|].
  destruct (pl_prepare p endpoints w request Hgo) as [Hgo' Hp].
  destruct (PrepareRequestData d p endpoints (w, request)) as [[w' request'] [e|]]; cbn in Hgo', Hp |- *; [done|].
  destruct (IH w' request' Hgo') as [? ->]. done.
Qed.

(** What is known once the request is assembled. *)
Definition assembled s0 s : Prop :=
  quiet s0 s /\ body_ok (d_ctx s0) (d_ctx s) /\ is_Some (SchedulingRequest (d_ctx s)).

(** A call that leaves the counter alone. *)
Lemma world_bind {A B} (f : W -> W * A) (k : A -> M (dstate W) B) s0 s (Q : result B -> dstate W -> Prop) :
  (forall w, good w -> good (f w).1 /\ load (f w).1 = load w) -> assembled s0 s ->
  (forall s', assembled s0 s' -> wp (k (f (d_world s)).2) Q s') -> wp (bind (world_call f) k) Q s.
Proof.
  intros Hf ((Hgo & Hpr & Htp & Hl) & Hb & Hr) Hk. apply wp_bind, wp_world_call. cbn [then_]. apply Hk.
  destruct (Hf _ Hgo) as [Hgo' Hl']. split; [|done]. split; [done|]. split; [done|]. split; [done|]. cbn. by rewrite Hl'.
Qed.

Lemma request_call_spec {A} (f : W * LLMRequest -> (W * LLMRequest) * A) s0 s :
  (forall w request, good w -> good (f (w, request)).1.1 /\ load (f (w, request)).1.1 = load w) -> assembled s0 s ->
  wp (request_call f) (fun r s' => (exists a, r = Ret a) /\ assembled s0 s') s.
Proof.
  intros Hf ((Hgo & Hpr & Htp & Hl) & Hb & [request Hr]). unfold wp, request_call. rewrite Hr.
  specialize (Hf (d_world s) request Hgo). destruct (f (d_world s, request)) as [[w' request'] a]. cbn in Hf.
  destruct Hf as [Hgo' Hl']. split; [eauto|]. split; [split_and!; try done|split; [done|by eexists]]. cbn. congruence.
Qed.

Lemma runPrepareDataPlugins_spec endpoints s0 s :
  assembled s0 s ->
  wp (runPrepareDataPlugins d endpoints) (fun r s' => (exists a, r = Ret a) /\ assembled s0 s') s.
Proof.
  intros Ha. unfold runPrepareDataPlugins.
  assert (Hrun : forall plugins, wp (request_call (executePluginsAsDAG (fun p => PrepareRequestData d p endpoints) plugins))
      (fun r s' => (exists a, r = Ret a) /\ assembled s0 s') s).
  { intros. apply request_call_spec; [apply prepare_load|done]. }
  destruct (prepareDataPlugins d) as [|p ps] eqn:Hps; [dstep; eauto|]. unfold prepareDataPluginsWithTimeout. do 3 dstep.
  destruct (prepare_ends d _) as [|k err]; dstep; (eapply wp_mono; [|apply Hrun]); intros r s1 [[a ->] H1]; repeat dstep; eauto.
Qed.

Lemma runAdmissionPlugins_spec plugins endpoints s0 s :
  (forall plugin, plugin ∈ plugins -> plugin ∈ admissionPlugins d) -> assembled s0 s ->
  wp (runAdmissionPlugins plugins endpoints) (fun r s' => (exists a, r = Ret a) /\ assembled s0 s') s.
Proof.
  revert s. induction plugins as [|plugin plugins IH]; intros s Hin Ha; cbn [runAdmissionPlugins]; [dstep; eauto|].
  dstep. eapply wp_mono; [|apply request_call_spec; [|exact Ha]].
  - intros r s1 [[a ->] H1]. cbn [then_]. destruct a; [dstep; eauto|]. apply IH; [|done]. intros. apply Hin. by right.
  - intros w request Hgo. pose proof (pl_admission plugin w request endpoints (Hin plugin (list_elem_of_here _ _)) Hgo) as Hp.
    by destruct (plugin w request endpoints).
Qed.

(** The hooks of a routed request see the world and the request one after the
    other; the context keeps everything but the request and its headers. *)
Lemma run_pre_spec (result : option (Scheduler.SchedulingResult (E := E))) plugins s request :
  SchedulingRequest (d_ctx s) = Some request ->
  wp (each (fun plugin => request_call (fun '(w, request) => (plugin w request result, tt))) plugins) (fun r s' =>
    r = Ret tt /\
    (d_world s', SchedulingRequest (d_ctx s')) =
      (let '(w, r) := foldl (fun '(w, request) plugin => plugin w request result) (d_world s, request) plugins in (w, Some r)) /\
    protocol (d_ctx s') = protocol (d_ctx s) /\ TargetPod (d_ctx s') = TargetPod (d_ctx s) /\
    TargetEndpoint (d_ctx s') = TargetEndpoint (d_ctx s) /\ (forall c0, body_ok c0 (d_ctx s) -> body_ok c0 (d_ctx s'))) s.
Proof.
  revert s request. induction plugins as [|plugin plugins IH]; intros s request Hr; cbn [each foldl].
  - dstep. by rewrite Hr.
  - dstep. unfold wp at 1, request_call. rewrite Hr. destruct (plugin (d_world s) request result) as [w' request'] eqn:Hp.
    cbn [then_]. eapply wp_mono; [|by apply (IH _ request')]. cbn. intros r s' (-> & Hw & Hpr & Htp & Hte & Hb).
    split; [done|]. split; [by rewrite Hw|]. split; [by rewrite Hpr|]. split; [done|]. split; [done|].
    intros c0 Hb0. by apply Hb.
Qed.

Lemma targets_of_spec pods s :
  wp (targets_of GetMetadata pods) (fun r s' => s' = s /\
    match r with
    | Ret (ms, addrs) => addrs = (fun m => JoinHostPort (Address m) (Port m)) <$> ms /\ GetMetadata <$> pods = Some <$> ms
    | Fails _ => False
    | Panics => True
    end) s.
Proof.
  revert s. induction pods as [|pod pods IH]; intros s; cbn [targets_of]; [by dstep|].
  do 2 dstep. destruct (GetMetadata pod) as [m|] eqn:Hm; [|done]. do 2 dstep. eapply wp_mono; [|apply IH].
  intros [[ms addrs]|e|] s' [-> Hres]; cbn [then_]; [|done..]. dstep. split; [done|]. cbn.
  destruct Hres as [-> Hg]. split; [done|]. cbn. by rewrite Hm, Hg.
Qed.

(** What routing does: the context names the targets of the primary profile, and
    the hooks run on the world [w] of before. *)
Record routed s0 s : Prop := {
  ro_protocol : protocol (d_ctx s) = protocol (d_ctx s0);
  ro_body : body_ok (d_ctx s0) (d_ctx s);
  ro_target : exists w request result pr ms, good w /\ load w = load (d_world s0) /\ scheduled result /\
    ProfileResults result !! PrimaryProfileName result = Some (Some pr) /\ GetMetadata <$> TargetEndpoints pr = Some <$> ms /\
    (exists target, head ms = Some target /\ TargetPod (d_ctx s) = Some target) /\
    TargetEndpoint (d_ctx s) = join_comma ((fun m => JoinHostPort (Address m) (Port m)) <$> ms) /\
    d_world s = (run_pre (Some result) w request).1 /\
    SchedulingRequest (d_ctx s) = Some (run_pre (Some result) w request).2
}.

Lemma prepareRequest_spec result s0 s :
  (forall r, result = Some r -> scheduled r) -> assembled s0 s ->
  wp (prepareRequest GetMetadata d result) (fun r s' =>
    match r with
    | Ret _ => routed s0 s'
    | Fails e => quiet s0 s' /\ is_Some (http_status (CanonicalCode e))
    | Panics => quiet s0 s'
    end) s.
Proof.
  intros Hsched (Hq & Hb & [request Hr]). unfold prepareRequest.
  destruct result as [r|]; [|dstep; split; [done|by eexists]].
  destruct (Nat.eqb _ _); [dstep; split; [done|by eexists]|]. do 2 dstep.
  destruct (ProfileResults r !! PrimaryProfileName r) as [[pr|]|] eqn:Hpr; cbn [mjoin option_join]; [|done..].
  do 2 dstep. eapply wp_mono; [|apply targets_of_spec]. intros [[ms addrs]|e|] s' [-> Ht]; cbn [then_]; [|done..].
  destruct Ht as [-> Hms]. do 2 dstep. cbn [fst snd]. destruct (head ms) as [target|] eqn:Hhd; [|done]. do 4 dstep.
  unfold runPreRequestPlugins. eapply wp_mono; [|by apply (run_pre_spec _ _ _ request)].
  cbn. intros r0 s' (-> & Hw & Hpr' & Htp & Hte & Hbo). destruct Hq as (Hq0 & Hq1 & Hq2 & Hq3).
  split; [by rewrite Hpr', <- Hq1|by apply Hbo|].
  exists (d_world s), request, r, pr, ms. split; [done|]. split; [done|]. split; [by apply Hsched|]. split; [done|]. split; [done|].
  split; [by exists target|]. split; [done|]. unfold run_pre.
  destruct (foldl _ _ _) as [w' request'] in Hw |- *. by injection Hw as -> ->.
Qed.

(** The director routes a request or leaves everything as it was; its errors
    have an HTTP status, apart from those of admission. *)
Lemma HandleRequest_spec s :
  good (d_world s) -> wp (HandleRequest GetMetadata d) (fun r s' =>
    match r with
    | Ret _ => routed s s'
    | Fails e => quiet s s' /\ (is_Some (http_status (CanonicalCode e)) \/ exists w c p w', AdmitRequest d w c p = (w', Some e))
    | Panics => quiet s s'
    end) s.
Proof.
  intros Hgood. unfold HandleRequest. dstep. eapply wp_mono; [|by apply processRequestBody_spec].
  intros [b|e|] s1 (H1 & He & Hb); cbn [then_]; [|split; [done|]; left; by apply He|done].
  unfold getInferenceObjective. do 12 dstep. set (prio := match ObjectiveGet d _ _ with Some _ => _ | None => _ end).
  set (s2 := s1 <| d_ctx := _ |>). assert (H2 : assembled s s2).
  { destruct H1 as (? & ? & ? & ?). split; [done|]. split; [by apply (Hb b)|by eexists]. }
  clearbody s2 prio. clear H1 He Hb s1. do 3 dstep.
  eapply world_bind; [by intros; apply pl_admit|exact H2|]. intros s3 H3.
  destruct (AdmitRequest d _ _ prio).2 as [e|] eqn:Hadm.
  { dstep. split; [apply H3|]. right. exists (d_world s2), (d_ctx s2), prio, (AdmitRequest d (d_world s2) (d_ctx s2) prio).1.
    by rewrite <- Hadm, <- surjective_pairing. }
  eapply world_bind; [by intros; apply pl_locate|exact H3|]. intros s4 H4.
  destruct (LocateCandidates d _ _).2 as [|ep eps] eqn:Hloc; [dstep; split; [apply H4|left; by eexists]|].
  dstep. eapply wp_mono; [|by apply (runPrepareDataPlugins_spec _ s)]. intros r s5 [[a ->] H5]. dstep.
  dstep. eapply wp_mono; [|by apply (runAdmissionPlugins_spec _ _ s)]. intros r s6 [[admitted ->] H6]. dstep.
  destruct admitted; [|dstep; split; [apply H6|left; by eexists]]. do 4 dstep.
  destruct H6 as (Hq6 & Hb6 & [request Hr6]). rewrite Hr6. dstep.
  eapply world_bind; [by intros; apply pl_schedule|split; [exact Hq6|split; [exact Hb6|by eexists]]|]. intros s7 H7.
  destruct (ScheduleRequest d _ _ _).2 as [result|err] eqn:Hsch; [|dstep; split; [apply H7|left; by eexists]].
  eapply wp_mono; [|apply (prepareRequest_spec _ s); [|exact H7]].
  - intros [[]|e|] s8 H8; [done|destruct H8; split; [done|by left]|done].
  - intros r ->. exists (d_world s6), request, (ep :: eps), (ScheduleRequest d (d_world s6) request (ep :: eps)).1.
    by rewrite <- Hsch, <- surjective_pairing.
Qed.

Lemma run_hooks_spec plugins response s :
  wp (run_response_plugins plugins response) (fun r s' =>
    r = Ret (run_hooks plugins (SchedulingRequest (d_ctx s)) (TargetPod (d_ctx s)) (d_world s) response).2 /\
    s' = s <| d_world := (run_hooks plugins (SchedulingRequest (d_ctx s)) (TargetPod (d_ctx s)) (d_world s) response).1 |>) s.
Proof.
  unfold run_hooks. revert s response. induction plugins as [|plugin plugins IH]; intros s response; cbn [run_response_plugins foldl].
  - dstep. by destruct s.
  - do 7 dstep. apply wp_world_call. dstep.
    destruct (plugin (d_world s) (SchedulingRequest (d_ctx s)) response (TargetPod (d_ctx s))) as [w' response'].
    cbn [fst snd]. eapply wp_mono; [|apply IH]. by cbn.
Qed.

(** The director meets the laws of the server, for every counter of its hooks. *)
#[export] Instance director_laws : DirectorLaws director_of good load share.
Proof.
  assert (Hand : forall A B C : Prop, (A /\ B) /\ C -> A /\ B /\ C) by tauto.
  split.
  - intros s Hgood. eapply wp_mono; [|by apply HandleRequest_spec]. intros [[]|e|] s'.
    + intros [Hpr Hb (w & request & result & pr & ms & Hgo & Hw & Hs & Hp & Hms & (target & Hhd & Htp) & Hte & Hwo & Hsr)].
      rewrite Htp, Hsr, Hwo, <- Hw.
      assert (Hto : routes_to result target).
      { destruct ms as [|m ms]; [done|]. injection Hhd as ->. destruct (TargetEndpoints pr) as [|e eps] eqn:He; [done|].
        injection Hms as Hm _. exists pr, e. by rewrite He. }
      destruct (pl_pre w request result target Hs Hto Hgo) as [Hgo' Hl]. split_and!; try done. apply Hb.
    + intros [(Hgo & Hp & Ht & Hl) _]. by split_and!.
    + intros (Hgo & Hp & Ht & Hl). by split_and!.
  - intros s Hgood. cbn [di_HandleResponseHeader director_of]. unfold HandleResponseHeader. do 4 dstep.
    eapply wp_mono; [|apply run_hooks_spec]. intros r s' [-> ->]. do 2 dstep. split; [done|]. apply Hand.
    split; [by apply pl_header|]. by eexists.
  - intros eos s Hgood. cbn [di_HandleResponseBody director_of]. unfold Director.HandleResponseBody. do 4 dstep.
    eapply wp_mono; [|apply run_hooks_spec]. intros r s' [-> ->]. do 2 dstep. split; [done|]. apply Hand.
    split; [by apply pl_body|]. by eexists.
  - intros s Hgood. cbn [di_GetRandomEndpoint director_of]. unfold GetRandomEndpoint. do 3 dstep.
    destruct (PodList _ _) as [|e l]; [by dstep|]. do 2 dstep. destruct (rand_Intn _ _) as [n|]; [|done]. do 3 dstep.
    destruct ((e :: l) !! _); [|done]. by do 2 dstep.
  - apply pl_none.
Qed.

(** * The path of a request

    What the director computes from one request: the request that is scheduled,
    and the calls that lead there. *)

(** The model a request for [incoming] goes to: that of the rewrite rule that
    matches, else that of the client's header, else [incoming]. *)
Definition target_model w (c : RequestContext) (incoming target : string) : Prop :=
  match getRule (rewrites d w) incoming with
  | Some (rule, _) => selectWeightedModel (rnd d w) (Targets rule) = Some target
  | None => target = if String.eqb (TargetModelName c) EmptyString then incoming else TargetModelName c
  end.

(** The parsed body with its model replaced, in the context [c'] of a request that
    came with [c]. *)
Definition body_of w (c c' : RequestContext) (body : LLMRequestBody) : Prop :=
  exists b, ParseRequest d (rq_RawBody (ctx_Request c)) (rq_Headers (ctx_Request c)) = inl b /\
    match lb_Payload b with
    | PayloadMap m =>
        m !! "model" = Some (VString (IncomingModelName c')) /\ target_model w c (IncomingModelName c') (TargetModelName c') /\
        body = b <| lb_Payload := PayloadMap (<["model" := VString (TargetModelName c')]> m) |> /\
        Marshal d (<["model" := VString (TargetModelName c')]> m) = Some (rq_RawBody (ctx_Request c'))
    | PayloadProto | RawPayload _ =>
        TargetModelName c' = TargetModelName c /\ body = b /\ rq_RawBody (ctx_Request c') = rq_RawBody (ctx_Request c)
    | OtherPayload => False
    end.

(** What reading a body leaves of the context. *)
Definition client_part (c : RequestContext) := (rq_Headers (ctx_Request c), rq_Metadata (ctx_Request c), FairnessID c, ObjectiveKey c).

(** [c'] is the context of a request that came with [c], in the world [w], when
    it is put to admission. *)
Definition assembles w (c c' : RequestContext) : Prop :=
  exists body, body_of w c c' body /\ client_part c' = client_part c /\
    RequestSize c' = Z.of_nat (length (rq_RawBody (ctx_Request c'))) /\
    Priority c' = match ObjectiveGet d w (ObjectiveKey c) with Some (Some p) => p | _ => 0 end /\
    SchedulingRequest c' = Some
      {| lr_RequestId := default EmptyString (rq_Headers (ctx_Request c) !! RequestIdHeaderKey);
         lr_TargetModel := TargetModelName c'; lr_Body := Some body; lr_Headers := rq_Headers (ctx_Request c);
         lr_Priority := Priority c'; lr_RequestSizeBytes := Z.of_nat (length (rq_RawBody (ctx_Request c')));
         lr_TokenIDs := None |}.

(** The data plugins that end in time, one after the other. *)
Definition prepared (candidates : list E) w (request : LLMRequest) : W * LLMRequest :=
  (executePluginsAsDAG (fun p => PrepareRequestData d p candidates)
     (match prepare_ends d w with PrepareDone => prepareDataPlugins d | PrepareInterrupted k _ => take k (prepareDataPlugins d) end)
     (w, request)).1.

(** The world after the admission plugins, if none of them denies the request. *)
Fixpoint admitted (plugins : list (W -> LLMRequest -> list E -> W * option string)) (candidates : list E) w (request : LLMRequest)
    : option W :=
  match plugins with
  | [] => Some w
  | plugin :: plugins =>
      match plugin w request candidates with
      | (w, None) => admitted plugins candidates w request
      | (_, Some _) => None
      end
  end.

(** The context [c] with the scheduling request [request], whose headers it shares. *)
Definition carries (c : RequestContext) (request : LLMRequest) : RequestContext :=
  c <| SchedulingRequest := Some request |> <| ctx_Request := ctx_Request c <| rq_Headers := lr_Headers request |> |>.

Lemma carries_self c request :
  SchedulingRequest c = Some request -> rq_Headers (ctx_Request c) = lr_Headers request -> carries c request = c.
Proof. destruct c as [a1 a2 a3 a4 a5 a6 a7 a8 a9 a10 a11 a12 a13 a14 a15 [h b md] sr ? ? ? ? ? ? ? ? ?]. cbn. by intros -> ->. Qed.

Lemma wp_request_call {A} (f : W * LLMRequest -> (W * LLMRequest) * A) c w request (Q : result A -> dstate W -> Prop) :
  (let '((w', request'), a) := f (w, request) in Q (Ret a) (mkD w' (carries c request'))) ->
  wp (request_call f) Q (mkD w (carries c request)).
Proof. intros HQ. unfold wp, request_call. cbn. by destruct (f (w, request)) as [[w' request'] a]. Qed.

Lemma wp_world_at {A} (f : W -> W * A) w c (Q : result A -> dstate W -> Prop) :
  (let '(w', a) := f w in Q (Ret a) (mkD w' c)) -> wp (world_call f) Q (mkD w c).
Proof. intros HQ. unfold wp, world_call. cbn. by destruct (f w). Qed.

Lemma runPrepare_path candidates c w request (Q : result (option string) -> dstate W -> Prop) :
  (forall a, let '(w', request') := prepared candidates w request in Q (Ret a) (mkD w' (carries c request'))) ->
  wp (runPrepareDataPlugins d candidates) Q (mkD w (carries c request)).
Proof.
  intros HQ. unfold runPrepareDataPlugins, prepared in *. destruct (prepareDataPlugins d) as [|p ps] eqn:Hps.
  - dstep. specialize (HQ None). by destruct (prepare_ends d w); rewrite ?take_nil in HQ.
  - unfold prepareDataPluginsWithTimeout. rewrite Hps. do 3 dstep. cbn [d_world]. destruct (prepare_ends d w) as [|k err]; dstep; apply wp_request_call.
    all: destruct (executePluginsAsDAG _ _ _) as [[w' request'] o]; cbn in HQ; repeat dstep; apply HQ.
Qed.

Lemma runAdmission_path plugins candidates c request : forall w (Q : result bool -> dstate W -> Prop),
  (forall w', admitted plugins candidates w request = Some w' -> Q (Ret true) (mkD w' (carries c request))) ->
  (forall s', Q (Ret false) s') ->
  wp (runAdmissionPlugins plugins candidates) Q (mkD w (carries c request)).
Proof.
  induction plugins as [|plugin plugins IH]; intros w Q Ht Hf; cbn [runAdmissionPlugins admitted] in *; [dstep; by apply Ht|].
  dstep. apply wp_request_call. destruct (plugin w request candidates) as [w' [reason|]]; cbn [then_]; [dstep; apply Hf|]. by apply IH.
Qed.

Lemma run_pre_path (sr : option (Scheduler.SchedulingResult (E := E))) plugins c : forall w request (Q : result unit -> dstate W -> Prop),
  (let '(w', request') := foldl (fun '(w, request) plugin => plugin w request sr) (w, request) plugins in
   Q (Ret tt) (mkD w' (carries c request'))) ->
  wp (each (fun plugin => request_call (fun '(w, request) => (plugin w request sr, tt))) plugins) Q (mkD w (carries c request)).
Proof.
  induction plugins as [|plugin plugins IH]; intros w request Q HQ; cbn [each foldl] in *; [by dstep|].
  dstep. apply wp_request_call. destruct (plugin w request sr) as [w' request']. cbn [then_]. by apply IH.
Qed.

(** The world and the context [c] that the scheduler leads to, with the hooks of a
    routed request still to run. *)
Definition path_to w (c cA : RequestContext) (candidates : list E) (w5 : W) (request : LLMRequest)
    (result : Scheduler.SchedulingResult (E := E)) : Prop :=
  exists w1 w2 request0 w3 w4, assembles w c cA /\
    AdmitRequest d w cA (Priority cA) = (w1, None) /\
    LocateCandidates d w1 (Some (rq_Metadata (ctx_Request c))) = (w2, candidates) /\ candidates <> [] /\
    SchedulingRequest cA = Some request0 /\ prepared candidates w2 request0 = (w3, request) /\
    admitted (admissionPlugins d) candidates w3 request = Some w4 /\
    ScheduleRequest d w4 request candidates = (w5, inl (Some result)).

Lemma rewrite_path s (Q : result unit -> dstate W -> Prop) :
  (forall target, match getRule (rewrites d (d_world s)) (IncomingModelName (d_ctx s)) with
     | Some (rule, _) => selectWeightedModel (rnd d (d_world s)) (Targets rule) = Some target
     | None => target = TargetModelName (d_ctx s)
     end -> Q (Ret tt) (s <| d_ctx := d_ctx s <| TargetModelName := target |> |>)) ->
  Q Panics s -> wp (applyWeightedModelRewrite d) Q s.
Proof.
  intros HQ HP. unfold applyWeightedModelRewrite. repeat dstep. destruct (getRule _ _) as [[rule n]|]; repeat dstep.
  - destruct (selectWeightedModel _ _) as [target|]; [|done]. repeat dstep. by apply HQ.
  - replace s with (s <| d_ctx := d_ctx s <| TargetModelName := TargetModelName (d_ctx s) |> |>) by (by destruct s as [w []]). by apply HQ.
Qed.

Lemma processRequestBody_path w c (Q : result LLMRequestBody -> dstate W -> Prop) :
  (forall body c', body_of w c c' body -> client_part c' = client_part c ->
     RequestSize c' = Z.of_nat (length (rq_RawBody (ctx_Request c'))) -> Q (Ret body) (mkD w c')) ->
  (forall r s', (forall body, r <> Ret body) -> has_status r -> Q r s') ->
  wp (processRequestBody d) Q (mkD w c).
Proof.
  intros HQ HF. unfold processRequestBody. do 3 dstep. cbn [d_ctx].
  destruct (ParseRequest d _ _) as [b|msg] eqn:Hparse; [|dstep; apply HF; [done|by intros e [= <-]; eexists]].
  destruct (lb_Payload b) as [m| |raw|] eqn:Hp; [|..|dstep; apply HF; [done|by intros e [= <-]; eexists]].
  2,3: repeat dstep; apply HQ; [exists b; by rewrite Hp|done|done].
  unfold mutateAndRepackage, mutateModel. do 2 dstep.
  destruct (m !! "model") as [[incoming| | |]|] eqn:Hm; [|repeat dstep; apply HF; [done|by intros e [= <-]; eexists]..].
  do 7 dstep.
  match goal with |- wp _ _ ?s => replace s with (mkD w (c <| IncomingModelName := incoming |>
    <| TargetModelName := if String.eqb (TargetModelName c) EmptyString then incoming else TargetModelName c |>))
    by (cbn; destruct (String.eqb (TargetModelName c) EmptyString); by destruct c) end.
  apply rewrite_path; [|dstep; apply HF; [done|by intros]].
  intros target Ht. repeat dstep. cbn [d_ctx d_world] in *.
  destruct (Marshal d _) as [bs|] eqn:Hb; repeat dstep; [|apply HF; [done|by intros e [= <-]; eexists]].
  cbn [d_ctx d_world] in *.
  match goal with |- Q (Ret ?body) (_ <| d_ctx := ?c' |>) => apply (HQ body c') end.
  - exists b. by rewrite Hp.
  - done.
  - done.
Qed.

Lemma prepareRequest_path sr cA w request (Q : result unit -> dstate W -> Prop) :
  (forall r pr target rest, sr = Some r -> ProfileResults r !! PrimaryProfileName r = Some (Some pr) ->
     GetMetadata <$> TargetEndpoints pr = Some <$> target :: rest ->
     Q (Ret tt) (mkD (run_pre (Some r) w request).1
       (carries (cA <| TargetPod := Some target |>
                    <| TargetEndpoint := join_comma ((fun m => JoinHostPort (Address m) (Port m)) <$> target :: rest) |>)
                (run_pre (Some r) w request).2))) ->
  (forall r s', r <> Ret tt -> has_status r -> Q r s') ->
  wp (prepareRequest GetMetadata d sr) Q (mkD w (carries cA request)).
Proof.
  intros HQ HF. unfold prepareRequest. destruct sr as [r|]; [|dstep; apply HF; [done|by intros e [= <-]; eexists]].
  destruct (Nat.eqb _ _); [dstep; apply HF; [done|by intros e [= <-]; eexists]|]. do 2 dstep.
  destruct (ProfileResults r !! PrimaryProfileName r) as [[pr|]|] eqn:Hpr; cbn [mjoin option_join]; [|cbn [then_]; apply HF; done..].
  do 2 dstep. eapply wp_mono; [|apply targets_of_spec]. intros [[ms addrs]|e|] s' [-> Ht]; cbn [then_]; [|done|apply HF; done].
  destruct Ht as [-> Hms]. do 2 dstep. cbn [fst snd]. destruct ms as [|target rest]; [cbn [head then_]; apply HF; done|]. cbn [head]. do 4 dstep.
  specialize (HQ r pr target rest eq_refl Hpr Hms). unfold runPreRequestPlugins.
  match goal with |- wp _ _ ?s => change s with (mkD w (carries (cA <| TargetPod := Some target |>
    <| TargetEndpoint := join_comma ((fun m => JoinHostPort (Address m) (Port m)) <$> target :: rest) |>) request)) end.
  apply run_pre_path. unfold run_pre in HQ. by destruct (foldl _ _ _).
Qed.

Lemma HandleRequest_path w c :
  wp (HandleRequest GetMetadata d) (fun r s' =>
    match r with
    | Ret _ => exists cA candidates w5 request result pr target rest, path_to w c cA candidates w5 request result /\
        ProfileResults result !! PrimaryProfileName result = Some (Some pr) /\
        GetMetadata <$> TargetEndpoints pr = Some <$> target :: rest /\
        s' = mkD (run_pre (Some result) w5 request).1
          (carries (cA <| TargetPod := Some target |>
                       <| TargetEndpoint := join_comma ((fun m => JoinHostPort (Address m) (Port m)) <$> target :: rest) |>)
                   (run_pre (Some result) w5 request).2)
    | Fails e => is_Some (http_status (CanonicalCode e)) \/
        exists cA w', assembles w c cA /\ AdmitRequest d w cA (Priority cA) = (w', Some e)
    | Panics => True
    end) (mkD w c).
Proof.
  unfold HandleRequest. dstep. apply processRequestBody_path.
  2: { intros [b|e|] s' Hn He; cbn [then_]; [by destruct (Hn b)|left; by apply He|done]. }
  intros body c1 Hbody Hcl Hsz. cbn [then_]. unfold getInferenceObjective. do 12 dstep. cbn [d_ctx d_world].
  set (prio := match ObjectiveGet d _ _ with Some _ => _ | None => _ end).
  set (cA := c1 <| Priority := prio |> <| SchedulingRequest := _ |>).
  injection Hcl as Hh Hmd Hfa Hob.
  assert (HcA : assembles w c cA).
  { exists body. split; [done|]. split; [unfold client_part; cbn; congruence|]. split; [done|].
    split; [by rewrite <- Hob|]. cbn. unfold new_request. by rewrite Hh, Hsz. }
  set (request0 := new_request c1 body prio) in *.
  assert (Hself : carries cA request0 = cA) by (by apply carries_self).
  assert (HmdA : rq_Metadata (ctx_Request cA) = rq_Metadata (ctx_Request c)) by done.
  assert (Hpr : Priority cA = prio) by done. assert (Hsr : SchedulingRequest cA = Some request0) by done.
  match goal with |- then_ _ _ _ ?s => change s with (mkD w cA) | |- wp _ _ ?s => change s with (mkD w cA) end.
  rewrite <- Hpr. clearbody cA request0 prio. do 4 dstep. apply wp_world_at. cbn [d_ctx].
  destruct (AdmitRequest d w cA (Priority cA)) as [w1 [e|]] eqn:Hadm; cbn [then_]; [dstep; right; eauto|].
  dstep. apply wp_world_at. rewrite HmdA. destruct (LocateCandidates d w1 _) as [w2 candidates] eqn:Hloc. cbn [then_].
  destruct candidates as [|ep eps] eqn:Hc; [dstep; left; by eexists|]. rewrite <- Hc in *. assert (Hne : candidates <> []) by (by subst). clear Hc ep eps.
  dstep. rewrite <- Hself at 1. apply runPrepare_path. intros a.
  destruct (prepared candidates w2 request0) as [w3 request] eqn:Hprep. cbn [then_].
  dstep. apply runAdmission_path; [|intros s'; cbn [then_]; dstep; left; by eexists]. intros w4 Had. cbn [then_].
  do 5 dstep. change (SchedulingRequest (d_ctx (mkD w4 (carries cA request)))) with (Some request). cbn [then_]. dstep. apply wp_world_at.
  destruct (ScheduleRequest d w4 request candidates) as [w5 [sr|err]] eqn:Hsch; cbn [then_]; [|dstep; left; by eexists].
  apply prepareRequest_path.
  - intros r pr target rest -> Hp Hms. exists cA, candidates, w5, request, r, pr, target, rest. split; [|done].
    exists w1, w2, request0, w3, w4. done.
  - intros [[]|e|] s' Hn He; [done|left; by apply He|done].
Qed.

End Director.
