(* ===== verification/ServerClaims.v ===== *)
(** The claims about one request, from the first message of Envoy to the end of
    its stream: server and director together. *)

From stdpp Require Import pretty.
From S2P Require Import Prelude InFlight ModelRewrite DataGraph Scheduler Ordering Chunking ReqCtx Candidates Director.
From S2P Require Import Server ServerProps DirectorProps.

Section Claims.

Context {W E : Type} (GetMetadata : E -> option EndpointMetadata) (d : DirectorConfig (W := W) (E := E)).
Context (ParseResponse : bytes -> gmap string string -> bool -> option Usage + string).
Context (traceHeaders : list (string * string)) (range : gmap string string -> list (string * string)).
Context (send_ok : list ProcessingResponse -> ProcessingResponse -> bool).
Implicit Types (w : W) (s : stream W).

Abbreviation process := (Process (director_of GetMetadata d) ParseResponse traceHeaders range send_ok).
Abbreviation loop := (process_loop (director_of GetMetadata d) ParseResponse traceHeaders range send_ok).
Abbreviation handle := (HandleRequest GetMetadata d).

(** C13: Responses reach Envoy in the order its protocol demands.  Whatever the
    director, the plugins and the parser do, and whichever sends fail, the
    responses sent on a stream are, in this order: the request headers, the
    request body, the response headers, the response body, the trailers, and an
    immediate response; only bodies come in several parts. *)
Theorem responses_in_protocol_order w inputs p :
  envoy_stream inputs = Some p -> StronglySorted may_follow (st_sent (process w inputs).1).
Proof.
  intros Henv. destruct (process w inputs) as [s o] eqn:Hrun.
  pose proof (process_ok (director_of GetMetadata d) (fun _ => True) (fun _ => 0) (fun _ _ => 0) 0 ParseResponse traceHeaders range
    send_ok w inputs p s o I eq_refl Henv Hrun) as Hok.
  destruct o; [|apply Hok..]. by destruct (inv_ending _ _ _ _ _ _ Hok).
Qed.

(** C5: The completion hooks of a routed request run exactly once, however its
    stream ends: with its response, with an error of a handler or of a send, with
    a disconnect or a panic.  The server always returns once Envoy has ended the
    stream, and leaves the gauge of running requests as it was. *)
Theorem completion_hooks_run_once w inputs p i :
  envoy_stream inputs = Some p -> ends i ->
  let '(s, o) := process w (inputs ++ [i]) in
  o <> Running /\
  completions s = (if bool_decide (is_Some (TargetPod (st_ctx s))) || ResponseComplete (st_ctx s) then 1%nat else 0%nat) /\
  gauge s = (if RequestRunning (st_ctx s)
             then [IncRunningRequests (IncomingModelName (st_ctx s)); DecRunningRequests (IncomingModelName (st_ctx s))]
             else []).
Proof.
  intros Henv Hi. destruct (process w (inputs ++ [i])) as [s o] eqn:Hrun.
  destruct (process_ended (director_of GetMetadata d) (fun _ => True) (fun _ => 0) (fun _ _ => 0) 0 ParseResponse traceHeaders range
    send_ok w inputs p i s o I eq_refl Henv Hi Hrun) as [Hend []]. done.
Qed.

(** C9: A request goes where the scheduler says.  The director lets a request
    through after this path: its body is parsed and its model rewritten; the
    request made of it (its own id, headers, model, priority and size) is admitted,
    the candidates are those located for its own metadata, the data plugins that
    end in time and the admission plugins see it in turn, and the scheduler is
    called with it and these candidates.  Then its destination is the address of
    every target of the primary profile of that result, its target pod the first of
    them, and its body JSON with the target model in the place of the client's and
    everything else as it was, or any other body unchanged.  Every other request is
    left without a target, and its error has an HTTP status unless the admission of
    this request chose it. *)
Theorem request_goes_where_scheduled w c :
  let '(ds, r) := handle (mkD w c) in
  match r with
  | Ret _ => exists cA candidates w' request result pr target rest,
      path_to d w c cA candidates w' request result /\
      ProfileResults result !! PrimaryProfileName result = Some (Some pr) /\
      GetMetadata <$> TargetEndpoints pr = Some <$> target :: rest /\ TargetPod (d_ctx ds) = Some target /\
      TargetEndpoint (d_ctx ds) = join_comma ((fun m => JoinHostPort (Address m) (Port m)) <$> target :: rest) /\
      body_ok d c (d_ctx ds) /\ rq_RawBody (ctx_Request (d_ctx ds)) = rq_RawBody (ctx_Request cA) /\
      TargetModelName (d_ctx ds) = TargetModelName cA /\
      (d_world ds, SchedulingRequest (d_ctx ds), rq_Headers (ctx_Request (d_ctx ds))) =
        (let '(w', request') := run_pre d (Some result) w' request in (w', Some request', lr_Headers request'))
  | Fails e => TargetPod (d_ctx ds) = TargetPod c /\ protocol (d_ctx ds) = protocol c /\
      (is_Some (http_status (CanonicalCode e)) \/
       exists cA w', assembles d w c cA /\ AdmitRequest d w cA (Priority cA) = (w', Some e))
  | Panics => TargetPod (d_ctx ds) = TargetPod c /\ protocol (d_ctx ds) = protocol c
  end.
Proof.
  pose proof (HandleRequest_spec GetMetadata d (fun _ => True) (fun _ => 0) (fun _ _ => 0) (mkD w c) I) as Hd.
  pose proof (HandleRequest_path GetMetadata d w c) as Hp. unfold wp in Hd, Hp. destruct (handle _) as [ds [[]|e|]].
  - destruct Hd as [_ Hb _]. destruct Hp as (cA & candidates & w' & request & result & pr & target & rest & Hpath & Hpr & Hms & ->).
    exists cA, candidates, w', request, result, pr, target, rest. split_and!; try done. by destruct (run_pre _ _ _ _).
  - by destruct Hd as [(_ & Hpr & Ht & _) _].
  - by destruct Hd as (_ & Hpr & Ht & _).
Qed.

(** * The request on its way *)

(** The value of the last header of a name. *)
Definition last_value (hs : list HeaderValue) (k : string) : option string :=
  GetHeaderValue <$> last (List.filter (fun h => String.eqb (hv_Key h) k) hs).

(** The client's headers as a map; a request without an id gets one. *)
Definition client_headers (uuid : string) (hs : list HeaderValue) : gmap string string :=
  foldl (fun m h => <[hv_Key h := GetHeaderValue h]> m)
    (if String.eqb (ExtractHeaderValue (Some hs) RequestIdHeaderKey) EmptyString then {[ RequestIdHeaderKey := uuid ]} else ∅) hs.

(** The context of a request whose headers and body were received. *)
Definition received (now : Z) (uuid : string) (hs : list HeaderValue) (md : option Struct) (body : bytes) : RequestContext :=
  new_context <| RequestReceivedTimestamp := now |>
    <| FairnessID := let v := default EmptyString (last_value hs FlowFairnessIDKey) in
                     if String.eqb v EmptyString then DefaultFairnessID else v |>
    <| ObjectiveKey := default EmptyString (last_value hs ObjectiveKeyHeader) |>
    <| TargetModelName := default EmptyString (last_value hs ModelNameRewriteKey) |>
    <| RequestSize := Z.of_nat (length body) |> <| ctx_Request := mkReq (client_headers uuid hs) body (default ∅ md) |>.

Lemma last_value_snoc hs h k :
  last_value (hs ++ [h]) k = if String.eqb (hv_Key h) k then Some (GetHeaderValue h) else last_value hs k.
Proof.
  unfold last_value. rewrite List.filter_app. cbn [List.filter]. destruct (String.eqb (hv_Key h) k); [by rewrite last_snoc|].
  by rewrite app_nil_r.
Qed.

Lemma headers_lookup hs k : forall m : gmap string string,
  foldl (fun m h => <[hv_Key h := GetHeaderValue h]> m) m hs !! k =
  match last_value hs k with Some v => Some v | None => m !! k end.
Proof.
  induction hs as [|h hs IH] using rev_ind; intros m; [done|]. rewrite foldl_snoc, last_value_snoc.
  destruct (String.eqb_spec (hv_Key h) k) as [->|Hne]; [by rewrite lookup_insert_eq|]. by rewrite lookup_insert_ne.
Qed.

(** Storing the headers. *)
Lemma request_headers_fold hs c :
  foldl request_header c hs =
  c <| ctx_Request := ctx_Request c
         <| rq_Headers := foldl (fun m h => <[hv_Key h := GetHeaderValue h]> m) (rq_Headers (ctx_Request c)) hs |> |>
    <| FairnessID := default (FairnessID c) (last_value hs FlowFairnessIDKey) |>
    <| ObjectiveKey := default (ObjectiveKey c) (last_value hs ObjectiveKeyHeader) |>
    <| TargetModelName := default (TargetModelName c) (last_value hs ModelNameRewriteKey) |>.
Proof.
  induction hs as [|h hs IH] using rev_ind; [destruct c as [? ? ? ? ? ? ? ? ? ? ? ? ? ? ? [] ? ? ? ? ? ? ? ? ? ?]; done|].
  rewrite !foldl_snoc, !last_value_snoc, IH. unfold request_header. cbn zeta.
  destruct (String.eqb_spec (hv_Key h) FlowFairnessIDKey) as [->|_]; [done|].
  destruct (String.eqb_spec (hv_Key h) ObjectiveKeyHeader) as [->|_]; [done|].
  by destruct (String.eqb_spec (hv_Key h) ModelNameRewriteKey).
Qed.

(** The stream with the headers in the context [c] waits for the rest of the
    request body, of which it has [b]. *)
Definition waiting (c : RequestContext) w (b : bytes) s : Prop :=
  st_world s = w /\ st_body s = b /\ st_sent s = [] /\
  exists md, st_ctx s = c <| ctx_Request := ctx_Request c <| rq_Metadata := md |> |>.

Lemma waiting_idle now uuid hs w b s :
  waiting (received now uuid hs None []) w b s -> protocol (st_ctx s) = protocol new_context /\ TargetPod (st_ctx s) = None.
Proof. intros (_ & _ & _ & md & ->). done. Qed.

Definition headers_message now uuid md hs : input :=
  Recv now uuid {| pr_Metadata := md; pr_Request := MRequestHeaders (Some hs) false |}.

Definition chunk_message (m : Z * string * option Struct * bytes) (eos : bool) : input :=
  let '(now, uuid, md, c) := m in Recv now uuid {| pr_Metadata := md; pr_Request := MRequestBody c eos |}.

Lemma wp_det {S A} (m : M S A) (x y : S) r : wp m (fun r' y' => r' = r /\ y' = y) x -> m x = (y, r).
Proof. unfold wp. destruct (m x). by intros [-> ->]. Qed.

Lemma update_waiting now uuid hs w b s :
  waiting (received now uuid hs None []) w b s -> updateStateAndSendIfNeeded send_ok s = (s, Ret tt).
Proof.
  intros [Hp _]%waiting_idle. injection Hp as Hst _ _ Hh _ _ _ _ _. apply wp_det. unfold updateStateAndSendIfNeeded.
  apply wp_bind, wp_when_state; [intros _; apply wp_when_some; [congruence|]|]; cbn [then_].
  all: do 4 (apply wp_bind, wp_when_state; [congruence|]; cbn [then_]).
  all: by apply wp_when_state; [congruence|].
Qed.

(** The state before the director sees the request. *)
Lemma headers_waiting w now uuid md hs :
  exists s, turn (director_of GetMetadata d) ParseResponse traceHeaders range send_ok (headers_message now uuid md hs)
    (new_stream w) = (s, Running, None) /\ waiting (received now uuid hs None []) w [] s.
Proof.
  assert (Hm : wp (on_message (director_of GetMetadata d) ParseResponse traceHeaders range now uuid
      {| pr_Metadata := md; pr_Request := MRequestHeaders (Some hs) false |})
    (fun r s => r = Ret tt /\ waiting (received now uuid hs None []) w [] s) (new_stream w)).
  { unfold on_message, on_request_headers, HandleRequestHeaders. cbn [pr_Request]. do 4 wp_step.
    unfold received, client_headers. destruct (String.eqb (ExtractHeaderValue _ _) EmptyString); repeat wp_step; (split; [done|]).
    all: split_and!; [done..|]; exists (default ∅ md); cbn; rewrite request_headers_fold; cbn.
    all: by destruct (String.eqb (default EmptyString (last_value hs FlowFairnessIDKey)) EmptyString). }
  unfold wp in Hm. unfold headers_message. cbn [turn]. destruct (on_message _ _ _ _ _ _ _ _) as [s r].
  destruct Hm as [-> Hw]. exists s. by rewrite (update_waiting now uuid hs w []).
Qed.

Section Body.
Context (now0 : Z) (uuid0 : string) (hs0 : list HeaderValue).
Abbreviation waits := (waiting (received now0 uuid0 hs0 None [])).

Lemma chunk_waiting w b s now uuid md c :
  waits w b s ->
  exists s', turn (director_of GetMetadata d) ParseResponse traceHeaders range send_ok (chunk_message (now, uuid, md, c) false) s
    = (s', Running, None) /\ waits w (b ++ c) s'.
Proof.
  intros (Hw & Hb & Hs & md0 & Hc).
  set (s' := s <| st_ctx := st_ctx s <| ctx_Request := ctx_Request (st_ctx s) <| rq_Metadata := default ∅ md |> |> |>
               <| st_body := st_body s ++ c |>).
  assert (Hwait : waits w (b ++ c) s').
  { split; [done|]. split; [by rewrite <- Hb|]. split; [done|]. exists (default ∅ md). subst s'. cbn. by rewrite Hc. }
  exists s'. split; [|done]. cbn [chunk_message turn].
  change (on_message _ _ _ _ now uuid _ s) with (s', @Ret unit tt). cbn iota beta. by rewrite (update_waiting now0 uuid0 hs0 w (b ++ c)).
Qed.

Lemma chunks_waiting w ms rest : forall b s,
  waits w b s ->
  exists s', waits w (b ++ concat (snd <$> ms)) s' /\
    loop (((fun m => chunk_message m false) <$> ms) ++ rest) s = loop rest s'.
Proof.
  induction ms as [|[[[now uuid] md] c] ms IH]; intros b s Hw.
  - exists s. cbn. by rewrite app_nil_r.
  - destruct (chunk_waiting w b s now uuid md c Hw) as (s1 & Ht & H1). destruct (IH (b ++ c) s1 H1) as (s2 & H2 & Hrun).
    exists s2. cbn [fmap list_fmap concat snd app]. rewrite app_assoc. split; [done|].
    cbn [process_loop]. rewrite Ht. exact Hrun.
Qed.

End Body.

(** What Envoy gets for a routed request: the headers with the destination, with
    the length of the body and with the client's headers that the gateway does
    not own, and then the whole body, ended once. *)
Definition forwarded (c : RequestContext) (sent : list ProcessingResponse) : Prop :=
  exists hdrs dyn chunks, sent = PRequestHeaders true hdrs dyn :: (PRequestBody <$> chunks) /\
    reassemble chunks = rq_RawBody (ctx_Request c) /\
    (exists init last, chunks = init ++ [last] /\ EndOfStream last = true /\ Forall (fun r => EndOfStream r = false) init) /\
    (DestinationEndpointKey, TargetEndpoint c) ∈ hdrs /\
    (forall v, DestinationEndpointKey ∉ traceHeaders.*1 -> (DestinationEndpointKey, v) ∈ hdrs -> v = TargetEndpoint c) /\
    (rq_RawBody (ctx_Request c) <> [] ->
      ("Content-Length"%string, pretty (Z.of_nat (length (rq_RawBody (ctx_Request c))))) ∈ hdrs) /\
    (forall k v, rq_Headers (ctx_Request c) !! k = Some v -> IsSystemOwnedHeader k = false -> (k, v) ∈ hdrs).

Lemma not_system_owned_spec headers k v :
  (k, v) ∈ not_system_owned range headers <-> (k, v) ∈ range headers /\ IsSystemOwnedHeader k = false.
Proof.
  unfold not_system_owned. rewrite !list_elem_of_In, List.filter_In. cbn. rewrite negb_true_iff. done.
Qed.

Lemma forwarded_intro c chunks :
  (forall m, range m ≡ₚ map_to_list m) -> RequestSize c = Z.of_nat (length (rq_RawBody (ctx_Request c))) ->
  BuildChunkedBodyResponses (rq_RawBody (ctx_Request c)) true = Some chunks ->
  forwarded c (generateRequestHeaderResponse traceHeaders range c :: (PRequestBody <$> chunks)).
Proof.
  intros Hrange Hsize Hch. destruct (BuildChunked_spec (rq_RawBody (ctx_Request c)) true) as (rs & Hrs & Hre & _ & init & last & -> & Hl & Hi).
  rewrite Hch in Hrs. injection Hrs as ->. unfold generateRequestHeaderResponse. eexists _, _, _. split; [reflexivity|].
  split; [done|]. split; [exists init, last; split_and!; try done; by eapply Forall_impl; [exact Hi|]; intros ? []|].
  unfold generateHeaders. rewrite Hsize. split; [set_solver|]. split_and!.
  - intros v Htr Hin. rewrite !elem_of_app in Hin. destruct Hin as [Hin|[Hin|[Hin|Hin]]]; [set_solver|by destruct (Z.ltb _ _); set_solver| |].
    + destruct Htr. apply list_elem_of_fmap. by exists (DestinationEndpointKey, v).
    + by apply not_system_owned_spec in Hin as [_ Hin].
  - intros Hne. rewrite (proj2 (Z.ltb_lt 0 _)); [set_solver|]. destruct (rq_RawBody _); [done|cbn; lia].
  - intros k v Hk Hs. do 3 (apply elem_of_app; right). apply not_system_owned_spec. split; [|done].
    rewrite Hrange. by apply elem_of_map_to_list.
Qed.

(** Sends succeed, and a range loop visits the entries of a map in some order. *)
Context (Hsend : forall l r, send_ok l r = true).
Context (Hrange : forall m, range m ≡ₚ map_to_list m).

Lemma wp_sent r (Q : result unit -> stream W -> Prop) s :
  Q (Ret tt) (s <| st_sent := st_sent s ++ [r] |>) -> wp (Send send_ok r) Q s.
Proof. unfold wp, Send. by rewrite Hsend. Qed.

Lemma wp_each_sent rs : forall s (Q : result unit -> stream W -> Prop),
  Q (Ret tt) (s <| st_sent := st_sent s ++ rs |>) -> wp (each (Send send_ok) rs) Q s.
Proof.
  induction rs as [|r rs IH]; intros s Q HQ; cbn [each].
  - wp_step. rewrite app_nil_r in HQ. by destruct s.
  - wp_step. apply wp_sent. wp_step. apply IH. cbn. by rewrite <- app_assoc.
Qed.

Lemma wp_in_state st (m : M (stream W) unit) (Q : result unit -> stream W -> Prop) s :
  RequestState (st_ctx s) = st -> wp m Q s -> wp (when_state st m) Q s.
Proof. intros Hst Hm. unfold when_state. do 3 wp_step. by rewrite bool_decide_eq_true_2. Qed.

Lemma wp_other_state st (m : M (stream W) unit) (Q : result unit -> stream W -> Prop) s :
  RequestState (st_ctx s) <> st -> Q (Ret tt) s -> wp (when_state st m) Q s.
Proof. intros Hst HQ. unfold when_state. do 3 wp_step. rewrite bool_decide_eq_false_2 by done. by wp_step. Qed.

(** The state that has an answer to the request sends it. *)
Lemma update_sends s r rs :
  protocol (st_ctx s) = protocol (new_context <| reqHeaderResp := Some r |> <| reqBodyResp := rs |>) ->
  st_sent s = [] -> rs <> [] ->
  wp (updateStateAndSendIfNeeded send_ok) (fun res s' => res = Ret tt /\ st_sent s' = r :: rs /\ st_world s' = st_world s) s.
Proof.
  intros Hp Hs Hrs. injection Hp as Hst _ _ Hh Hb Htr _ _ _. unfold updateStateAndSendIfNeeded.
  wp_step. apply wp_in_state; [done|]. unfold when_some at 1. do 3 wp_step. rewrite Hh. wp_step. apply wp_sent. repeat wp_step.
  apply wp_in_state; [done|]. do 3 wp_step. cbn. rewrite Hb. destruct rs as [|r1 rs]; [done|]. wp_step.
  apply wp_each_sent. repeat wp_step.
  apply wp_in_state; [done|]. unfold when_some at 1. do 3 wp_step. cbn. rewrite Htr. repeat wp_step.
  do 2 (apply wp_other_state; [done|]; repeat wp_step).
  apply wp_other_state; [done|]. cbn. by rewrite Hs.
Qed.

(** The message that ends the body hands the request to the director. *)
Section Last.
Context (now0 : Z) (uuid0 : string) (hs0 : list HeaderValue).
Abbreviation waits := (waiting (received now0 uuid0 hs0 None [])).

Lemma on_last_chunk w b s now uuid md c :
  waits w b s ->
  wp (on_message (director_of GetMetadata d) ParseResponse traceHeaders range now uuid
        {| pr_Metadata := md; pr_Request := MRequestBody c true |}) (fun r s' =>
    match handle (mkD w (received now0 uuid0 hs0 md (b ++ c))) with
    | (ds, Ret _) => r = Ret tt /\ st_sent s' = [] /\ st_world s' = d_world ds /\
        exists c1 chunks, (protocol c1, TargetEndpoint c1, RequestSize c1, ctx_Request c1) =
            (protocol new_context, TargetEndpoint (d_ctx ds), RequestSize (d_ctx ds), ctx_Request (d_ctx ds)) /\
          BuildChunkedBodyResponses (rq_RawBody (ctx_Request c1)) true = Some chunks /\
          protocol (st_ctx s') = protocol (new_context <| reqHeaderResp := Some (generateRequestHeaderResponse traceHeaders range c1) |>
            <| reqBodyResp := PRequestBody <$> chunks |>)
    | (ds, Fails e) => r = Fails e /\ st_sent s' = [] /\ st_world s' = d_world ds /\ TargetPod (st_ctx s') = None
    | (ds, Panics) => r = Panics /\ st_sent s' = [] /\ TargetPod (st_ctx s') = None
    end) s.
Proof.
  intros Hwait. destruct (waiting_idle _ _ _ _ _ _ Hwait) as [Hp Ht]. destruct Hwait as (Hw & Hb & Hs & md0 & Hc).
  unfold on_message, on_request_body. cbn [pr_Request]. repeat wp_step. apply wp_direct.
  match goal with |- wp _ _ ?x => assert (Hx : x = mkD w (received now0 uuid0 hs0 md (b ++ c))) by (cbn; by rewrite Hw, Hb, Hc) end.
  rewrite Hx. clear Hx.
  pose proof (HandleRequest_spec GetMetadata d (fun _ => True) (fun _ => 0) (fun _ _ => 0) (mkD w (received now0 uuid0 hs0 md (b ++ c))) I) as Hd.
  unfold wp at 1 in Hd. unfold wp at 1. cbn [di_HandleRequest director_of]. destruct (handle _) as [ds [[]|e|]].
  - destruct Hd as [Hpr Hbo _]. cbn [then_]. repeat wp_step.
    unfold GenerateRequestBodyResponses. wp_step. apply wp_chunks. intros rs Hrs. repeat wp_step.
    change (protocol (d_ctx ds) = protocol new_context) in Hpr. clear Hp Hbo Ht.
    split; [done|]. split; [done|]. split; [done|].
    exists (match SchedulingRequest (d_ctx ds) with
            | Some r => match lr_Body r with Some b => d_ctx ds <| modelServerStreaming := lb_Stream b |> | None => d_ctx ds end
            | None => d_ctx ds
            end), rs.
    cbn in Hrs |- *. destruct (SchedulingRequest (d_ctx ds)) as [lr|]; [destruct (lr_Body lr)|]; unfold protocol in *; cbn in *.
    all: injection Hpr as -> -> -> -> -> -> -> -> ->; done.
  - destruct Hd as [(_ & _ & Htp & _) _]. cbn. by split_and!.
  - destruct Hd as (_ & _ & Htp & _). cbn. by split_and!.
Qed.

Lemma deferred_unrouted err s :
  TargetPod (st_ctx s) = None ->
  exists s', deferred (director_of GetMetadata d) err s = (s', Ret tt) /\ st_sent s' = st_sent s /\ st_world s' = st_world s.
Proof.
  intros Ht.
  cut (wp (deferred (director_of GetMetadata d) err) (fun r s' =>
    r = Ret tt /\ st_sent s' = st_sent s /\ st_world s' = st_world s) s).
  { unfold wp. destruct (deferred _ _ _). intros (-> & Hs). eauto. }
  unfold deferred. do 3 wp_step. rewrite Ht. wp_step.
  destruct (negb _); [|destruct err]; repeat wp_step; destruct (RequestRunning _); by repeat wp_step.
Qed.

Lemma last_chunk w b s now uuid md c :
  waits w b s ->
  let '(s', o) := loop [chunk_message (now, uuid, md, c) true] s in
  match handle (mkD w (received now0 uuid0 hs0 md (b ++ c))) with
  | (ds, Ret _) => o = Running /\ st_world s' = d_world ds /\ forwarded (d_ctx ds) (st_sent s')
  | (ds, Fails e) => st_world s' = d_world ds /\
      match BuildErrResponse e with
      | inl response => o = Returned None /\ st_sent s' = [response]
      | inr e' => o = Returned (Some e') /\ st_sent s' = []
      end
  | (ds, Panics) => o = Panicked /\ st_sent s' = []
  end.
Proof.
  intros Hwait. pose proof (on_last_chunk w b s now uuid md c Hwait) as Hm. unfold wp in Hm.
  pose proof (HandleRequest_spec GetMetadata d (fun _ => True) (fun _ => 0) (fun _ _ => 0) (mkD w (received now0 uuid0 hs0 md (b ++ c))) I) as Hd.
  unfold wp in Hd. cbn [process_loop turn chunk_message].
  destruct (on_message _ _ _ _ _ _ _ _) as [s1 r]. destruct (handle _) as [ds [[]|e|]].
  - destruct Hm as (-> & Hs1 & Hw1 & c1 & chunks & Hc1 & Hch & Hp). apply pair_equal_spec in Hc1 as [[[_ Hte]%pair_equal_spec Hsz]%pair_equal_spec Hrq].
    destruct Hd as [_ [Hsize _] _].
    assert (Hne : PRequestBody <$> chunks <> []).
    { destruct (BuildChunked_spec (rq_RawBody (ctx_Request c1)) true) as (rs & Hrs & _ & _ & init & last & -> & _).
      rewrite Hch in Hrs. injection Hrs as ->. by destruct init. }
    pose proof (update_sends s1 _ _ Hp Hs1 Hne) as Hu. unfold wp in Hu.
    destruct (updateStateAndSendIfNeeded _ _) as [s2 r2]. destruct Hu as (-> & -> & ->). split; [done|]. split; [done|].
    assert (Hf : forwarded c1 (generateRequestHeaderResponse traceHeaders range c1 :: (PRequestBody <$> chunks))).
    { apply forwarded_intro; [done| |done]. by rewrite Hsz, Hsize, Hrq. }
    unfold forwarded in *. by rewrite Hte, Hrq in Hf.
  - destruct Hm as (-> & Hs1 & Hw1 & Ht1). unfold fail_stream.
    destruct (BuildErrResponse e) as [response|e'].
    + unfold Send. rewrite Hsend. cbv iota beta.
      match goal with |- context [deferred _ _ ?x] => destruct (deferred_unrouted (Some e) x Ht1) as (s2 & -> & Hs2 & Hw2) end.
      rewrite Hs2, Hw2. cbn. by rewrite Hs1.
    + destruct (deferred_unrouted (Some e) s1 Ht1) as (s2 & -> & Hs2 & Hw2). by rewrite Hs2, Hw2, Hs1.
  - destruct Hm as (-> & Hs1 & Ht1). destruct (deferred_unrouted None s1 Ht1) as (s2 & -> & Hs2 & _). by rewrite Hs2, Hs1.
Qed.

End Last.

(** No plugin changes the headers of a request. *)
Definition keeps_headers : Prop :=
  (forall p endpoints w request, lr_Headers (PrepareRequestData d p endpoints (w, request)).1.2 = lr_Headers request) /\
  (forall plugin w request r, plugin ∈ preRequestPlugins d -> lr_Headers (plugin w request r).2 = lr_Headers request).

Lemma run_pre_headers {R} (r : R) plugins : forall w request,
  (forall (plugin : W -> LLMRequest -> R -> W * LLMRequest) w request, plugin ∈ plugins -> lr_Headers (plugin w request r).2 = lr_Headers request) ->
  lr_Headers (foldl (fun '(w, request) plugin => plugin w request r) (w, request) plugins).2 = lr_Headers request.
Proof.
  induction plugins as [|plugin plugins IH]; intros w request Hk; [done|]. cbn [foldl].
  pose proof (Hk plugin w request ltac:(by left)) as H1. destruct (plugin w request r) as [w' request']. cbn in H1.
  rewrite IH; [done|]. intros. apply Hk. by right.
Qed.

Lemma prepared_headers candidates w request :
  keeps_headers -> lr_Headers (prepared d candidates w request).2 = lr_Headers request.
Proof.
  intros [Hk _]. unfold prepared. generalize (match prepare_ends d w with PrepareDone => prepareDataPlugins d
    | PrepareInterrupted k _ => take k (prepareDataPlugins d) end). intros plugins. revert w request.
  induction plugins as [|p plugins IH]; intros w request; [done|]. cbn [executePluginsAsDAG].
  pose proof (Hk p candidates w request) as H1. destruct (PrepareRequestData d p candidates (w, request)) as [[w' request'] [e|]]; [done|].
  by rewrite IH.
Qed.

(** The headers of a routed request are the client's. *)
Lemma routed_headers w c ds :
  handle (mkD w c) = (ds, Ret tt) -> keeps_headers -> rq_Headers (ctx_Request (d_ctx ds)) = rq_Headers (ctx_Request c).
Proof.
  intros Hrun Hk. pose proof (HandleRequest_path GetMetadata d w c) as Hp. unfold wp in Hp. rewrite Hrun in Hp.
  destruct Hp as (cA & candidates & w' & request & result & pr & target & rest & Hpath & _ & _ & ->).
  destruct Hpath as (w1 & w2 & request0 & w3 & w4 & (body & _ & _ & _ & _ & Hsr) & _ & _ & _ & Hr0 & Hprep & _).
  cbn. unfold run_pre. rewrite run_pre_headers by (intros; by apply Hk).
  pose proof (prepared_headers candidates w2 request0 Hk) as Hph. rewrite Hprep in Hph. cbn in Hph. rewrite Hph.
  rewrite Hr0 in Hsr. injection Hsr as ->. done.
Qed.

(** C12: A request is forwarded whole or answered.  For a request that arrives as
    headers and then as any number of chunks, on a stream on which sends succeed,
    the director gets the context made of exactly these: every header of the client
    with its last value, and an id if there was none; the fairness id, objective
    and model that headers name; the concatenation of the chunks; the metadata of
    the last message.  If it routes the request, Envoy gets one response with the
    headers (the destination the director chose, which the client cannot set, the
    length of the body, and every header of the request the gateway does not own;
    these are the client's, if no plugin changes headers) and then the chunks of
    the director's body, the last of which ends the stream.  If it fails, Envoy
    gets the immediate response of the error's status, or the error ends the
    stream; nothing else is sent, and the world is the director's. *)
Theorem request_forwarded_or_answered w now uuid md hs ms now' uuid' md' c :
  let '(s, o) := process w (headers_message now uuid md hs :: ((fun m => chunk_message m false) <$> ms) ++
                            [chunk_message (now', uuid', md', c) true]) in
  match handle (mkD w (received now uuid hs md' (concat (snd <$> ms) ++ c))) with
  | (ds, Ret _) => o = Running /\ st_world s = d_world ds /\ forwarded (d_ctx ds) (st_sent s) /\
      (keeps_headers -> forall k v, last_value hs k = Some v -> IsSystemOwnedHeader k = false ->
         exists hdrs dyn body, st_sent s = PRequestHeaders true hdrs dyn :: body /\ (k, v) ∈ hdrs)
  | (ds, Fails e) => st_world s = d_world ds /\
      match BuildErrResponse e with
      | inl response => o = Returned None /\ st_sent s = [response]
      | inr e' => o = Returned (Some e') /\ st_sent s = []
      end
  | (ds, Panics) => o = Panicked /\ st_sent s = []
  end.
Proof.
  destruct (headers_waiting w now uuid md hs) as (s1 & Ht & H1).
  destruct (chunks_waiting now uuid hs w ms [chunk_message (now', uuid', md', c) true] [] s1 H1) as (s2 & H2 & Hrun).
  pose proof (last_chunk now uuid hs w _ s2 now' uuid' md' c H2) as Hl. unfold Process. cbn [process_loop].
  rewrite Ht. cbv iota beta. rewrite Hrun. destruct (loop _ s2) as [s o]. cbn [app] in Hl.
  destruct (handle _) as [ds [[]|e|]] eqn:Hd; [|exact Hl..]. destruct Hl as (-> & Hw & Hf). split_and!; try done.
  intros Hk k v Hv Ho. apply routed_headers in Hd; [|done].
  assert (Hlk : rq_Headers (ctx_Request (d_ctx ds)) !! k = Some v).
  { rewrite Hd. cbn. unfold client_headers. by rewrite headers_lookup, Hv. }
  destruct Hf as (hdrs & dyn & chunks & -> & _ & _ & _ & _ & _ & Hall). eauto 10.
Qed.

End Claims.

(** * A stream, from end to end *)

Definition sample_endpoint : EndpointMetadata :=
  {| NamespacedName := ("default", "vllm-0"); PodName := "vllm-0"; Address := "10.0.0.1"; Port := "8000";
     MetricsHost := "10.0.0.1:8000"; Labels := ∅ |}.

(** A director for a pool of one pod, with the hooks it is given. *)
Definition sample_config {W} pre streaming : DirectorConfig (W := W) (E := EndpointMetadata) :=
  {| ParseRequest body _ := inl (mkBody (Build_LLMRequestBody value None None None None)
                                   (PayloadMap {[ "model" := VString "llama" ]}) false);
     Marshal m := match m !! "model" with Some (VString model) => Some (bytes_of_string model) | _ => None end;
     rewrites _ := newModelRewriteStore;
     rnd _ _ := 0;
     ObjectiveGet _ _ := None;
     AdmitRequest w _ _ := (w, None);
     LocateCandidates w _ := (w, [sample_endpoint]);
     PodsOf _ := [sample_endpoint];
     prepareDataPlugins := [];
     Director.PrepareRequestData _ _ wr := (wr, None);
     prepare_ends _ := PrepareDone;
     admissionPlugins := [];
     ScheduleRequest w _ _ :=
       (w, inl (Some {| ProfileResults := {[ "default" := Some {| TargetEndpoints := [sample_endpoint] |} ]};
                        PrimaryProfileName := "default" |}));
     preRequestPlugins := pre;
     responseReceivedPlugins := [];
     responseStreamingPlugins := streaming |}.

Definition sample_message (m : message) : input := Recv 0 "id" {| pr_Metadata := None; pr_Request := m |}.

Definition sample_stream : list input :=
  [sample_message (MRequestHeaders (Some []) false); sample_message (MRequestBody [1; 2] false);
   sample_message (MRequestBody [3] true); sample_message (MResponseHeaders (Some []));
   sample_message (MResponseBody [4] false)].

Abbreviation sample_process := (Process (director_of Some (sample_config (W := unit) [] [])) (fun _ _ _ => inl None) [] map_to_list).

Lemma responses_in_protocol_order_witness :
  let sent := st_sent (sample_process (fun _ _ => true) tt (sample_stream ++ [sample_message (MResponseBody [5] true)])).1 in
  phase <$> sent = [0; 1; 3; 4] /\ StronglySorted may_follow sent.
Proof.
  split; [vm_compute; reflexivity|]. apply (responses_in_protocol_order _ _ _ _ _ _ _ _ (mkProgress true true true false)). vm_compute. reflexivity.
Defined.

Lemma completion_hooks_run_once_witness :
  let s := (sample_process (fun _ _ => true) tt (sample_stream ++ [RecvEOF])).1 in
  completions s = 1%nat /\ gauge s = [IncRunningRequests "llama"; DecRunningRequests "llama"].
Proof.
  pose proof (completion_hooks_run_once Some (sample_config (W := unit) [] []) (fun _ _ _ => inl None) [] map_to_list
    (fun _ _ => true) tt sample_stream (mkProgress true true false false) RecvEOF) as H.
  specialize (H ltac:(vm_compute; reflexivity) I). rewrite (surjective_pairing (Process _ _ _ _ _ _ _)) in H.
  destruct H as (_ & Hc & Hg). cbv zeta. rewrite Hc, Hg. split; vm_compute; reflexivity.
Defined.

Definition sample_header (k v : string) : HeaderValue := {| hv_Key := k; hv_Value := EmptyString; hv_RawValue := v |}.

(** A client that names a destination of its own: it is not forwarded. *)
Lemma request_forwarded_or_answered_witness :
  let hs := [sample_header "accept" "text/plain"; sample_header DestinationEndpointKey "10.9.9.9:1"] in
  let inputs := [headers_message 0 "id" None hs; chunk_message (0, "id", None, [1; 2]) false; chunk_message (0, "id", None, [3]) true] in
  let s := (sample_process (fun _ _ => true) tt inputs).1 in
  (exists hdrs dyn body, st_sent s = PRequestHeaders true hdrs dyn :: body /\ ("accept", "text/plain") ∈ hdrs) /\
  exists dyn, st_sent s =
    [PRequestHeaders true [(DestinationEndpointKey, "10.0.0.1:8000"); ("Content-Length", "5"); ("accept", "text/plain");
                           (RequestIdHeaderKey, "id")] dyn;
     PRequestBody {| Body := bytes_of_string "llama"; EndOfStream := true |}].
Proof.
  intros hs inputs s. split; [|vm_compute; by eexists]. subst hs inputs s.
  pose proof (request_forwarded_or_answered Some (sample_config (W := unit) [] []) (fun _ _ _ => inl None) [] map_to_list
    (fun _ _ => true) ltac:(done) ltac:(done) tt 0 "id" None
    [sample_header "accept" "text/plain"; sample_header DestinationEndpointKey "10.9.9.9:1"] [(0, "id", None, [1; 2])] 0 "id" None [3]) as H.
  cbn [fmap list_fmap app] in H. destruct (sample_process _ _ _) as [s o] eqn:Hs.
  assert (Ho : o = Running) by (change o with (s, o).2; rewrite <- Hs; vm_compute; reflexivity). rewrite Ho in H. clear Hs Ho.
  destruct (HandleRequest _ _ _) as [ds [[]|e|]].
  - destruct H as (_ & _ & _ & H). cbn [fst]. refine (H _ "accept" "text/plain" _ _); [|vm_compute; reflexivity|vm_compute; reflexivity].
    split; [intros; reflexivity|]. intros plugin w request r Hin. by apply elem_of_nil in Hin.
  - destruct H as [_ H]. destruct (BuildErrResponse e); destruct H as [H _]; discriminate H.
  - destruct H as [H _]. discriminate H.
Defined.
