(* ===== verification/Lifecycle.v ===== *)
(** The in-flight load producer as a plugin of the director: what a request adds
    to the load of its endpoint when it is routed is taken away again when its
    stream ends, however it ends.  Server, director and producer together. *)

From S2P Require Import Prelude Doubles InFlight InFlightProps ModelRewrite DataGraph Scheduler Ordering Chunking ReqCtx.
From S2P Require Import Candidates Director Server ServerProps DirectorProps ServerClaims.

(** [NamespacedName.String()] *)
Definition endpoint_id (m : EndpointMetadata) : string :=
  (NamespacedName m).1 +:+ "/" +:+ (NamespacedName m).2.

Section Lifecycle.

Context {V E : Type} (GetMetadata : E -> option EndpointMetadata).
Context (estimate : option ReqCtx.LLMRequest -> Z).

(** The world: the producer, and the rest. *)
Abbreviation World := (InFlightLoadProducer * V)%type.

(** * The producer's hooks *)

Definition target_ids (r : Scheduler.SchedulingResult (E := E)) : InFlight.SchedulingResult :=
  {| InFlight.ProfileResults :=
       (fun o => option_map (fun pr => map (fun e => option_map endpoint_id (GetMetadata e)) (TargetEndpoints pr)) o)
         <$> Scheduler.ProfileResults r;
     InFlight.PrimaryProfileName := Scheduler.PrimaryProfileName r |}.

Definition make_calls (p : InFlightLoadProducer) (cs : list InFlight.call) : InFlightLoadProducer := default p (run_calls p cs).

Definition inflight_pre (w : World) (request : ReqCtx.LLMRequest) (result : option (Scheduler.SchedulingResult (E := E)))
    : World * ReqCtx.LLMRequest :=
  ((make_calls w.1 (PreRequest estimate (Some request) (target_ids <$> result)), w.2), request).

Definition inflight_body (w : World) (request : option ReqCtx.LLMRequest) (response : PluginResponse)
    (target : option EndpointMetadata) : World * PluginResponse :=
  ((make_calls w.1 (ResponseBody estimate request (Some (rs_EndOfStream response)) (endpoint_id <$> target)), w.2), response).

(** * The director with the producer *)

(** A call that leaves the producer alone. *)
Definition beside {A} (f : V -> V * A) (w : World) : World * A :=
  let '(v, a) := f w.2 in ((w.1, v), a).

Definition with_inflight (base : DirectorConfig (W := V) (E := E)) : DirectorConfig (W := World) (E := E) :=
  {| ParseRequest := ParseRequest base;
     Marshal := Marshal base;
     rewrites w := rewrites base w.2;
     rnd w := rnd base w.2;
     ObjectiveGet w := ObjectiveGet base w.2;
     AdmitRequest w c p := beside (fun v => AdmitRequest base v c p) w;
     LocateCandidates w md := beside (fun v => LocateCandidates base v md) w;
     PodsOf w := PodsOf base w.2;
     prepareDataPlugins := prepareDataPlugins base;
     Director.PrepareRequestData p endpoints wr :=
       let '((v, r), err) := Director.PrepareRequestData base p endpoints (wr.1.2, wr.2) in (((wr.1.1, v), r), err);
     prepare_ends w := prepare_ends base w.2;
     admissionPlugins := (fun plugin w r endpoints => beside (fun v => plugin v r endpoints) w) <$> admissionPlugins base;
     ScheduleRequest w r endpoints := beside (fun v => ScheduleRequest base v r endpoints) w;
     preRequestPlugins := ((fun plugin w r result => beside (fun v => plugin v r result) w) <$> preRequestPlugins base)
                            ++ [inflight_pre];
     responseReceivedPlugins :=
       (fun plugin w r resp target => beside (fun v => plugin v r resp target) w) <$> responseReceivedPlugins base;
     responseStreamingPlugins :=
       ((fun plugin w r resp target => beside (fun v => plugin v r resp target) w) <$> responseStreamingPlugins base)
         ++ [inflight_body] |}.

(** What a routed request adds to a counter of the endpoint [id]. *)
Definition share_of (wh : which) (id : string) (target : option EndpointMetadata) (request : option ReqCtx.LLMRequest) : Z :=
  match target with
  | Some m => if decide (endpoint_id m = id) then match wh with InRequests => 1 | InTokens => estimate request end else 0
  | None => 0
  end.

Context (base : DirectorConfig (W := V) (E := E)).

Abbreviation d := (with_inflight base).

Lemma beside_fst {A} (f : V -> V * A) w : (beside f w).1.1 = w.1.
Proof. unfold beside. by destruct (f w.2). Qed.

(** Calls that only add change the counters by what they add. *)
Lemma make_calls_ok p cs :
  producer_ok p -> Forall (fun c => is_add c = true) cs ->
  producer_ok (make_calls p cs) /\
  forall wh id, cong64 (InFlight.get (tracker wh (make_calls p cs)) id) (InFlight.get (tracker wh p) id + calls_delta wh id cs).
Proof.
  intros Hok Ha. destruct (run_adds cs p Hok Ha) as (p' & Hrun & Hok' & Hget). unfold make_calls. rewrite Hrun.
  split; [done|]. intros wh id. constructor. cbn [default]. rewrite Hget. apply i64_id, i64_range.
Qed.

(** Hooks that leave the producer alone, one after the other. *)
Lemma pre_beside (plugins : list (V -> ReqCtx.LLMRequest -> option (Scheduler.SchedulingResult (E := E)) -> V * ReqCtx.LLMRequest)) result :
  forall w request,
  (foldl (fun '(w, request) plugin => plugin w request result) (w, request)
     ((fun plugin w r result => beside (fun v => plugin v r result) w) <$> plugins)).1.1 = w.1.
Proof.
  induction plugins as [|f fs IH]; intros w x; [done|]. cbn. pose proof (beside_fst (fun v => f v x result) w) as Hf.
  destruct (beside _ w) as [w' x']. by rewrite IH.
Qed.

Lemma hooks_beside (plugins : list (V -> option ReqCtx.LLMRequest -> PluginResponse -> option EndpointMetadata -> V * PluginResponse))
    request target :
  forall w response,
  let '(w', response') := run_hooks ((fun plugin w r resp target => beside (fun v => plugin v r resp target) w) <$> plugins)
                            request target w response in
  w'.1 = w.1 /\
  ((forall plugin v request response target, plugin ∈ plugins ->
      rs_EndOfStream (plugin v request response target).2 = rs_EndOfStream response) ->
   rs_EndOfStream response' = rs_EndOfStream response).
Proof.
  unfold run_hooks. induction plugins as [|f fs IH]; intros w x; [done|]. cbn.
  specialize (IH (w.1, (f w.2 request x target).1) (f w.2 request x target).2).
  assert (Hb : beside (fun v => f v request x target) w = ((w.1, (f w.2 request x target).1), (f w.2 request x target).2)).
  { unfold beside. by destruct (f w.2 request x target). }
  rewrite Hb. destruct (foldl _ _ _) as [w' x']. destruct IH as [IH1 IH2]. split; [done|]. intros Hall.
  rewrite IH2; [apply Hall; left|]. intros. apply Hall. by right.
Qed.

(** A result has one target in its primary profile, and no hook changes whether a
    response has ended. *)
Context (Hone : forall r pr, scheduled base r -> Scheduler.ProfileResults r !! Scheduler.PrimaryProfileName r = Some (Some pr) ->
  length (TargetEndpoints pr) = 1%nat).
Context (Heos : forall plugin v request response target, plugin ∈ responseStreamingPlugins base ->
  rs_EndOfStream (plugin v request response target).2 = rs_EndOfStream response).

Context (wh : which) (id : string).

Definition load_of (w : World) : Z := InFlight.get (tracker wh w.1) id.

Lemma pre_calls r target request :
  scheduled base r -> routes_to GetMetadata r target ->
  PreRequest estimate (Some request) (Some (target_ids r)) =
    [CAdd InRequests (endpoint_id target) 1; CAdd InTokens (endpoint_id target) (estimate (Some request))].
Proof.
  intros Hs (pr & e & Hpr & Hhd & He). specialize (Hone r pr Hs Hpr). unfold PreRequest, target_ids. cbn [InFlight.ProfileResults InFlight.PrimaryProfileName].
  rewrite lookup_fmap, Hpr. cbn. destruct (TargetEndpoints pr) as [|e' [|]]; [done| |done]. injection Hhd as ->. cbn. by rewrite He.
Qed.

Lemma calls_share target request :
  calls_delta wh id [CAdd InRequests (endpoint_id target) 1; CAdd InTokens (endpoint_id target) (estimate request)] =
  share_of wh id (Some target) request.
Proof.
  unfold calls_delta, share_of. rewrite !sumZ_cons. unfold sumZ, call_delta. cbn.
  destruct wh; repeat case_decide; try lia; naive_solver.
Qed.

Lemma beside_keeps {A} (f : V -> V * A) w :
  producer_ok w.1 -> producer_ok (beside f w).1.1 /\ load_of (beside f w).1 = load_of w.
Proof. unfold load_of. by rewrite beside_fst. Qed.

Lemma inflight_pre_ok w request r target :
  scheduled base r -> routes_to GetMetadata r target -> producer_ok w.1 ->
  producer_ok (inflight_pre w request (Some r)).1.1 /\
  cong64 (load_of (inflight_pre w request (Some r)).1) (load_of w + share_of wh id (Some target) (Some request)).
Proof.
  intros Hs Hr Hok. unfold inflight_pre, load_of. cbn [fst option_fmap option_map fmap].
  rewrite (pre_calls r target request Hs Hr).
  edestruct (make_calls_ok w.1) as [Hok' Hg]; [done| |split; [exact Hok'|]]; [by repeat constructor|].
  specialize (Hg wh id). by rewrite calls_share in Hg.
Qed.

Lemma inflight_body_ok w request response target :
  producer_ok w.1 ->
  producer_ok (inflight_body w request response target).1.1 /\
  cong64 (load_of (inflight_body w request response target).1)
         (load_of w - if rs_EndOfStream response then share_of wh id target request else 0).
Proof.
  intros Hok. unfold inflight_body, load_of. cbn [fst].
  set (cs := ResponseBody _ _ _ _).
  assert (Ha : Forall (fun c => is_add c = true) cs).
  { subst cs. destruct target as [m|], (rs_EndOfStream response); by repeat constructor. }
  destruct (make_calls_ok w.1 cs Hok Ha) as [Hok' Hg]. split; [done|]. eapply cong64_trans; [apply Hg|].
  assert (Hd : cong64 (calls_delta wh id cs) (- if rs_EndOfStream response then share_of wh id target request else 0)).
  { subst cs. destruct target as [m|], (rs_EndOfStream response); try apply cong64_refl. cbn -[calls_delta].
    unfold calls_delta. rewrite !sumZ_cons. unfold sumZ, call_delta. cbn.
    destruct wh; repeat case_decide; try (by apply cong64_refl); try naive_solver.
    constructor. rewrite Z.add_0_l, Z.add_0_r. apply i64_id, i64_range. }
  destruct Hd as [Hd]. constructor. rewrite <- Z.add_opp_r, <- (i64_add_r _ (calls_delta _ _ _)), Hd. apply i64_add_r.
Qed.

#[export] Instance inflight_laws : PluginLaws GetMetadata d (fun w => producer_ok w.1) load_of (share_of wh id).
Proof.
  split; try (by intros; apply beside_keeps).
  - intros p endpoints w request Hok. cbn. by destruct (Director.PrepareRequestData _ _ _ _) as [[v r] err].
  - intros plugin w request endpoints (f & -> & _)%list_elem_of_fmap. apply beside_keeps.
  - intros w request r target Hs Hr Hok. unfold run_pre. cbn [preRequestPlugins with_inflight]. rewrite foldl_app.
    pose proof (pre_beside (preRequestPlugins base) (Some r) w request) as Hpre.
    destruct (foldl _ _ (_ <$> _)) as [w' request']. cbn [foldl fst] in Hpre |- *.
    assert (Hb : scheduled base r).
    { destruct Hs as (w0 & req & es & w1 & Hs). cbn in Hs. unfold beside in Hs.
      destruct (ScheduleRequest base w0.2 req es) as [v' o] eqn:Hsch. exists w0.2, req, es, v'. by rewrite Hsch; injection Hs as _ ->. }
    assert (Hl : load_of w' = load_of w) by (unfold load_of; by rewrite Hpre). rewrite <- Hl.
    apply inflight_pre_ok; [done..|by rewrite Hpre].
  - intros w request response target Hok. pose proof (hooks_beside (responseReceivedPlugins base) request target w response) as Hh.
    cbn [responseReceivedPlugins with_inflight]. destruct (run_hooks _ _ _ _ _) as [w' response']. destruct Hh as [Hw _].
    unfold load_of. cbn [fst]. rewrite Hw. split; [done|]. apply cong64_refl.
  - intros w request response target Hok. pose proof (hooks_beside (responseStreamingPlugins base) request target w response) as Hh.
    unfold run_hooks in *. cbn [responseStreamingPlugins with_inflight]. rewrite foldl_app.
    destruct (foldl _ _ (_ <$> _)) as [w' response']. cbn [foldl]. destruct Hh as [Hw He].
    assert (Hl : load_of w' = load_of w) by (unfold load_of; by rewrite Hw). rewrite <- Hl, <- (He Heos).
    apply inflight_body_ok. by rewrite Hw.
  - done.
Qed.

(** C4: A stream takes back the load it added.  With the in-flight load producer
    among the plugins of the director, both counters of every endpoint (requests,
    and estimated tokens) are, after a stream has ended, what they were before it:
    whether its request was rejected, routed, answered or cut off, and whichever
    sends failed.  Two conditions: the primary profile of every result of the
    scheduler has exactly one target, since a request with more targets stays
    counted at the others ([InFlightProps.ended_request_stays_at_other_targets]),
    and no response plugin that runs before the producer changes whether the
    response has ended. *)
Theorem stream_returns_its_load ParseResponse traceHeaders range send_ok p v inputs pf i :
  producer_ok p -> envoy_stream inputs = Some pf -> ends i ->
  let '(s, o) := Process (director_of GetMetadata d) ParseResponse traceHeaders range send_ok (p, v) (inputs ++ [i]) in
  o <> Running /\ InFlight.get (tracker wh (st_world s).1) id = InFlight.get (tracker wh p) id.
Proof.
  intros Hok Henv Hi. destruct (Process _ _ _ _ _ _ _) as [s o] eqn:Hrun.
  destruct (process_ended (director_of GetMetadata d) (fun w => producer_ok w.1) load_of (share_of wh id) (load_of (p, v))
    ParseResponse traceHeaders range send_ok (p, v) inputs pf i s o Hok eq_refl Henv Hi Hrun) as [Hend Hfin]. split; [done|].
  destruct (fi_load _ _ _ _ Hfin) as [Hl]. pose proof (fi_good _ _ _ _ Hfin) as Hg. unfold load_of in Hl. cbn [fst] in Hl.
  rewrite !i64_id in Hl; [done|apply get_i64, Hok|apply get_i64, Hg].
Qed.

End Lifecycle.

(** The estimator of the producer. *)
Definition SimpleEstimate (Marshal : value -> string) (request : option ReqCtx.LLMRequest) : Z :=
  default 0 (Estimate value Marshal NewSimpleTokenEstimator
    ((fun r => {| RequestSizeBytes := lr_RequestSizeBytes r; InFlight.Body := lb_Prompt <$> lr_Body r |}) <$> request)).

Definition sample_director :=
  director_of Some (with_inflight Some (SimpleEstimate (fun _ => EmptyString)) (sample_config (W := unit) [] [])).

Definition sample_load (inputs : list input) (wh : which) : Z :=
  InFlight.get (tracker wh (st_world (Process sample_director (fun _ _ _ => inl None) [] map_to_list (fun _ _ => true)
    (InFlightLoadProducerFactory, tt) inputs).1).1) "default/vllm-0".

Lemma sample_one r pr :
  scheduled (sample_config (W := unit) [] []) r ->
  Scheduler.ProfileResults r !! Scheduler.PrimaryProfileName r = Some (Some pr) -> length (TargetEndpoints pr) = 1%nat.
Proof.
  intros (w & req & es & w' & Hs) Hpr. apply (f_equal snd) in Hs. cbn [snd ScheduleRequest sample_config] in Hs.
  assert (Hr : r = {| Scheduler.ProfileResults := {[ "default" := Some {| TargetEndpoints := [sample_endpoint] |} ]};
                      Scheduler.PrimaryProfileName := "default" |}) by congruence.
  rewrite Hr in Hpr. cbn in Hpr. rewrite lookup_singleton_eq in Hpr. assert (pr = {| TargetEndpoints := [sample_endpoint] |}) as -> by congruence. done.
Qed.

(** The stream of the sample holds one request and three tokens until it is cut
    off. *)
Lemma stream_returns_its_load_witness :
  (sample_load sample_stream InRequests = 1 /\ sample_load sample_stream InTokens = 3) /\
  forall wh, sample_load (sample_stream ++ [CtxDone]) wh = 0.
Proof.
  split; [by split; vm_compute; reflexivity|]. intros wh.
  pose proof (stream_returns_its_load Some (SimpleEstimate (fun _ => EmptyString)) (sample_config (W := unit) [] [])
    sample_one ltac:(intros plugin v request response target Hin; by apply elem_of_nil in Hin) wh "default/vllm-0"
    (fun _ _ _ => inl None) [] map_to_list (fun _ _ => true) InFlightLoadProducerFactory tt sample_stream
    (mkProgress true true false false) CtxDone factory_ok ltac:(vm_compute; reflexivity) I) as H.
  rewrite (surjective_pairing (Process _ _ _ _ _ _ _)) in H. destruct H as [_ H]. unfold sample_load, sample_director.
  etransitivity; [exact H|]. by destruct wh.
Defined.
