(* ===== verification/Datastore.v ===== *)
(** The datastore (src/pkg/epp/datastore/datastore.go): the pool, its endpoints
    and the objectives and rewrites of the cluster, kept up to date by the
    reconcilers.

    The endpoint factory is an interface with a state of its own; the iteration
    order of a [sync.Map] and the selectors of Kubernetes are arguments. *)

From Stdlib Require Import Ascii.
From stdpp Require Import pretty.
From S2P Require Import Prelude InFlight ModelRewrite DataGraph Scheduler Ordering Chunking ReqCtx Candidates Director.

(** * Kubernetes objects *)

Record Pod := mkPod {
  pod_Name : string;
  pod_Namespace : string;
  pod_Labels : gmap string string;
  pod_Annotations : gmap string string;
  PodIP : string;
  pod_Deleted : bool;                       (* has a deletion timestamp *)
  Conditions : list (string * string)       (* type and status *)
}.

(** The first condition of the type decides. *)
Fixpoint ready_condition (conditions : list (string * string)) : bool :=
  match conditions with
  | [] => false
  | (type, status) :: conditions =>
      if String.eqb type "Ready" then String.eqb status "True" else ready_condition conditions
  end.

Definition IsPodReady (pod : Pod) : bool := negb (pod_Deleted pod) && ready_condition (Conditions pod).

Record EndpointPool := mkPool {
  Selector : gmap string string;
  TargetPorts : list Z;
  ep_Namespace : string;
  ep_Name : string;
  AppProtocol : string
}.

(** The specification of a pool in the cluster. *)
Record InferencePool := {
  ip_Name : string;
  ip_Namespace : string;
  ip_Deleted : bool;
  MatchLabels : gmap string string;
  ip_TargetPorts : list Z;
  ip_AppProtocol : string
}.

Definition InferencePoolToEndpointPool (inferencePool : InferencePool) : EndpointPool :=
  {| Selector := MatchLabels inferencePool;
     TargetPorts := ip_TargetPorts inferencePool;
     ep_Namespace := ip_Namespace inferencePool;
     ep_Name := ip_Name inferencePool;
     AppProtocol := ip_AppProtocol inferencePool |}.

Record InferenceObjective := {
  obj_Name : string;
  obj_Deleted : bool;
  obj_PoolRef : string * string;            (* name and group *)
  obj_Priority : option Z
}.

(** * Ports *)

Definition activePortsAnnotation : string := "inference.networking.k8s.io/active-ports".

(** [strings.SplitSeq(s, ",")] *)
Fixpoint split_comma (s : string) : list string :=
  match s with
  | EmptyString => [EmptyString]
  | String c s =>
      if Ascii.eqb c "," then EmptyString :: split_comma s
      else match split_comma s with
           | t :: ts => String c t :: ts
           | [] => [String c EmptyString]
           end
  end.

(** ASCII white space. *)
Definition is_space (c : ascii) : bool :=
  let n := N_of_ascii c in N.eqb n 32 || (N.leb 9 n && N.leb n 13).

Fixpoint skip_space (s : string) : string :=
  match s with
  | String c s' => if is_space c then skip_space s' else s
  | EmptyString => EmptyString
  end.

Definition digit (c : ascii) : option Z :=
  let n := N_of_ascii c in if N.leb 48 n && N.leb n 57 then Some (Z.of_N (n - 48)) else None.

(** The value of the digits a string starts with, after [acc]. *)
Fixpoint scan_digits (acc : Z) (s : string) : Z :=
  match s with
  | String c s' => match digit c with Some d => scan_digits (acc * 10 + d) s' | None => acc end
  | EmptyString => acc
  end.

(** [fmt.Sscanf(s, "%d", &n)]: a sign, at least one digit, and a value that fits
    into an [int]; what follows is not looked at. *)
Definition scan_int (s : string) : option Z :=
  let s := skip_space s in
  let '(sign, t) := match s with
                    | String c t => if Ascii.eqb c "-" then (-1, t) else if Ascii.eqb c "+" then (1, t) else (1, s)
                    | EmptyString => (1, s)
                    end in
  match t with
  | String c _ => d ← digit c; let n := sign * scan_digits 0 t in if (- two63 <=? n) && (n <? two63) then Some n else None
  | EmptyString => None
  end.

Definition extractActivePorts (pod : Pod) (targetPorts : list Z) : gset Z :=
  let allPorts : gset Z := list_to_set targetPorts in
  match pod_Annotations pod !! activePortsAnnotation with
  | None => allPorts
  | Some portsAnnotation =>
      foldl (fun activePorts portStr =>
        match scan_int portStr with
        | Some portNum => if (0 <? portNum) && bool_decide (portNum ∈ allPorts) then {[ portNum ]} ∪ activePorts else activePorts
        | None => activePorts
        end) ∅ (split_comma portsAnnotation)
  end.

(** * Endpoints *)

Abbreviation NamespacedName := (string * string)%type.

Record endpoint := mkEndpoint { ep_id : nat; ep_Metadata : EndpointMetadata }.

#[global] Instance eta_endpoint : Eta endpoint := fun e => mkEndpoint (ep_id e) (ep_Metadata e).

(** [pod.Name + "-rank-" + strconv.Itoa(idx)] *)
Definition rank_name (name : string) (idx : nat) : string := name +:+ "-rank-" +:+ pretty (N.of_nat idx).

Definition createEndpointNamespacedName (pod : Pod) (idx : nat) : NamespacedName :=
  (pod_Namespace pod, rank_name (pod_Name pod) idx).

(** The endpoint factory of the data layer. *)
Class EndpointFactory (F : Type) := {
  NewEndpoint : F -> EndpointMetadata -> F * option endpoint;
  ReleaseEndpoint : F -> endpoint -> F
}.

Section Datastore.

Context {F : Type} `{!EndpointFactory F}.

(** [labels.Equals], [SelectorFromSet(s).Matches(labels)], and the order in which
    a [sync.Map] is ranged over. *)
Context (labels_Equals : gmap string string -> gmap string string -> bool).
Context (labels_Match : gmap string string -> gmap string string -> bool).
Context (range : gmap NamespacedName endpoint -> list (NamespacedName * endpoint)).

Record datastore := mkDatastore {
  pool : option EndpointPool;
  objectives : gmap string InferenceObjective;
  modelRewrites : modelRewriteStore;
  pods : gmap NamespacedName endpoint;
  modelServerMetricsPort : Z;
  epf : F
}.

#[global] Instance eta_datastore : Eta datastore := fun ds =>
  mkDatastore (pool ds) (objectives ds) (modelRewrites ds) (pods ds) (modelServerMetricsPort ds) (epf ds).

Definition NewDatastore (epFactory : F) (modelServerMetricsPort : Z) : datastore :=
  mkDatastore None ∅ newModelRewriteStore ∅ modelServerMetricsPort epFactory.

Definition WithEndpointPool (ds : datastore) (p : EndpointPool) : datastore := ds <| pool := Some p |>.

(** Deleting an entry and releasing its endpoint. *)
Definition drop_pod (ds : datastore) (k : NamespacedName) (ep : endpoint) : datastore :=
  ds <| pods := delete k (pods ds) |> <| epf := ReleaseEndpoint (epf ds) ep |>.

Definition Clear (ds : datastore) : datastore :=
  let ds := ds <| pool := None |> <| objectives := ∅ |> <| modelRewrites := newModelRewriteStore |> in
  let ds := foldl (fun ds '(_, ep) => ds <| epf := ReleaseEndpoint (epf ds) ep |>) ds (range (pods ds)) in
  ds <| pods := ∅ |>.

Definition PoolGet (ds : datastore) : EndpointPool + string :=
  match pool ds with
  | None => inr "InferencePool is not initialized in data store"
  | Some p => inl p
  end.

Definition PoolHasSynced (ds : datastore) : bool := bool_decide (is_Some (pool ds)).

Definition PoolLabelsMatch (ds : datastore) (podLabels : gmap string string) : bool :=
  match pool ds with
  | None => false
  | Some p => labels_Match (Selector p) podLabels
  end.

Definition ObjectiveSet (ds : datastore) (infObjective : InferenceObjective) : datastore :=
  ds <| objectives := <[obj_Name infObjective := infObjective]> (objectives ds) |>.

Definition ObjectiveGet (ds : datastore) (objectiveName : string) : option InferenceObjective := objectives ds !! objectiveName.

Definition ObjectiveDelete (ds : datastore) (name : string) : datastore :=
  ds <| objectives := delete name (objectives ds) |>.

Definition ObjectiveGetAll (ds : datastore) : list InferenceObjective := (map_to_list (objectives ds)).*2.

Definition ModelRewriteSet (sort : list rewriteRuleWithMetadata -> list rewriteRuleWithMetadata) (ds : datastore)
    (infModelRewrite : InferenceModelRewrite) : datastore :=
  ds <| modelRewrites := store_set sort (modelRewrites ds) infModelRewrite |>.

Definition ModelRewriteDelete (ds : datastore) (name : string) : datastore :=
  ds <| modelRewrites := store_delete (modelRewrites ds) name |>.

Definition ModelRewriteGet (ds : datastore) (modelName : string) : option (Rule * string) := getRule (modelRewrites ds) modelName.

Definition ModelRewriteGetAll (ds : datastore) : list InferenceModelRewrite := getAll (modelRewrites ds).

(** * Pods *)

Definition PodList (ds : datastore) (predicate : endpoint -> bool) : list endpoint :=
  List.filter predicate (snd <$> range (pods ds)).

(** The metadata of the endpoint of a port. *)
Definition endpoint_metadata (metricsPort : Z) (pod : Pod) (idx : nat) (port : Z) : EndpointMetadata :=
  {| ReqCtx.NamespacedName := createEndpointNamespacedName pod idx;
     PodName := pod_Name pod;
     Address := PodIP pod;
     Port := pretty port;
     MetricsHost := JoinHostPort (PodIP pod) (pretty (if metricsPort =? 0 then port else metricsPort));
     Labels := pod_Labels pod |}.

(** The ports of a pool with their ranks, of those that satisfy [f]. *)
Definition ranks (f : Z -> bool) (targetPorts : list Z) : list (nat * Z) :=
  List.filter (fun '(_, port) => f port) (imap pair targetPorts).

Definition endpoints_of (ds : datastore) (pod : Pod) (p : EndpointPool) : list EndpointMetadata :=
  let metricsPort := if Nat.eqb (length (TargetPorts p)) 1 then modelServerMetricsPort ds else 0 in
  let activePorts := extractActivePorts pod (TargetPorts p) in
  (fun '(idx, port) => endpoint_metadata metricsPort pod idx port)
    <$> ranks (fun port => bool_decide (port ∈ activePorts)) (TargetPorts p).

(** One endpoint is updated, or made when there is none. *)
Definition register_endpoint (acc : datastore * bool) (m : EndpointMetadata) : datastore * bool :=
  let '(ds, result) := acc in
  match pods ds !! ReqCtx.NamespacedName m with
  | Some ep => (ds <| pods := <[ReqCtx.NamespacedName m := ep <| ep_Metadata := m |>]> (pods ds) |>, result)
  | None =>
      match NewEndpoint (epf ds) m with
      | (f, None) => (ds <| epf := f |>, result)
      | (f, Some ep) =>
          (ds <| epf := f |> <| pods := <[ReqCtx.NamespacedName m := ep <| ep_Metadata := m |>]> (pods ds) |>, false)
      end
  end.

(** An endpoint of a port that is not active is removed. *)
Definition remove_rank (pod : Pod) (ds : datastore) (idx : nat) : datastore :=
  let k := createEndpointNamespacedName pod idx in
  match pods ds !! k with
  | Some ep => drop_pod ds k ep
  | None => ds
  end.

Definition podUpdateOrAddIfNotExist (ds : datastore) (pod : Pod) (p : option EndpointPool) : datastore * bool :=
  match p with
  | None => (ds, true)
  | Some p =>
      let activePorts := extractActivePorts pod (TargetPorts p) in
      let '(ds, result) := foldl register_endpoint (ds, true) (endpoints_of ds pod p) in
      (foldl (remove_rank pod) ds (fst <$> ranks (fun port => bool_decide (port ∉ activePorts)) (TargetPorts p)), result)
  end.

Definition PodUpdateOrAddIfNotExist (ds : datastore) (pod : Pod) : datastore * bool :=
  podUpdateOrAddIfNotExist ds pod (pool ds).

Definition PodDelete (ds : datastore) (podName : string) : datastore :=
  foldl (fun ds '(k, ep) => if String.eqb (PodName (ep_Metadata ep)) podName then drop_pod ds k ep else ds) ds (range (pods ds)).

(** * The pool *)

(** What [reader.List] returns for a selector and a namespace. *)
Context (list_pods : gmap string string -> string -> list Pod + string).

Definition resync_pod (p : EndpointPool) (acc : datastore * gset NamespacedName) (pod : Pod) : datastore * gset NamespacedName :=
  let '(ds, activeEndpoints) := acc in
  if IsPodReady pod
  then ((podUpdateOrAddIfNotExist ds pod (Some p)).1,
        foldl (fun s idx => {[ createEndpointNamespacedName pod idx ]} ∪ s) activeEndpoints (seq 0 (length (TargetPorts p))))
  else acc.

Definition podResyncAll (ds : datastore) (p : EndpointPool) : datastore * option string :=
  match list_pods (Selector p) (ep_Namespace p) with
  | inr err => (ds, Some ("failed to list pods - " +:+ err))
  | inl podList =>
      let '(ds, activeEndpoints) := foldl (resync_pod p) (ds, ∅) podList in
      (foldl (fun ds '(k, ep) =>
         if bool_decide (ReqCtx.NamespacedName (ep_Metadata ep) ∈ activeEndpoints) then ds else drop_pod ds k ep)
         ds (range (pods ds)), None)
  end.

Definition PoolSet (ds : datastore) (endpointPool : option EndpointPool) : datastore * option string :=
  match endpointPool with
  | None => (Clear ds, None)
  | Some p =>
      let oldEndpointPool := pool ds in
      let ds := ds <| pool := Some p |> in
      let selectorChanged := match oldEndpointPool with
                             | None => true
                             | Some old => negb (labels_Equals (Selector old) (Selector p))
                             end in
      let targetPortsChanged := match oldEndpointPool with
                                | None => false
                                | Some old => negb (bool_decide (TargetPorts old = TargetPorts p))
                                end in
      if selectorChanged || targetPortsChanged then
        match podResyncAll ds p with
        | (ds, Some err) => (ds, Some ("failed to update pods according to the pool selector - " +:+ err))
        | (ds, None) => (ds, None)
        end
      else (ds, None)
  end.

End Datastore.
