(* ===== verification/DatastoreProps.v ===== *)
(** What the operations of the datastore do to its endpoints: an update of a pod
    sets exactly the endpoints of its active ports, a deletion removes exactly
    those of the pod, and a resync leaves exactly those of the pods listed. *)

From Stdlib Require Import Ascii.
From stdpp Require Import pretty.
From S2P Require Import Prelude InFlight ModelRewrite DataGraph Scheduler Ordering Chunking ReqCtx Candidates Director Datastore.

(** * Names *)

Definition is_digit (c : ascii) : Prop := is_Some (digit c).

Lemma pretty_N_char_digit x : is_digit (pretty_N_char x).
Proof. unfold pretty_N_char, is_digit. repeat case_match; by eexists. Qed.

Lemma pretty_N_go_digits x s :
  Forall is_digit (String.list_ascii_of_string s) -> Forall is_digit (String.list_ascii_of_string (pretty_N_go x s)).
Proof.
  revert s. induction (N.lt_wf_0 x) as [x _ IH]. intros s Hs. destruct (decide (x = 0)%N) as [->|Hx]; [by rewrite pretty_N_go_0|].
  rewrite pretty_N_go_step by lia. apply IH; [apply N.div_lt; lia|]. constructor; [apply pretty_N_char_digit|done].
Qed.

Lemma pretty_N_digits (n : N) : Forall is_digit (String.list_ascii_of_string (pretty n)).
Proof.
  unfold pretty, pretty_N. case_decide; [|by apply pretty_N_go_digits, Forall_nil_2]. repeat constructor. by eexists.
Qed.

Lemma app_list_ascii s t : String.list_ascii_of_string (s +:+ t) = String.list_ascii_of_string s ++ String.list_ascii_of_string t.
Proof. induction s as [|c s IH]; [done|]. by apply (f_equal (cons c)). Qed.

(** What follows the last character that is not a digit is determined. *)
Lemma digits_split (a b d e : list ascii) x y :
  ~ is_digit x -> ~ is_digit y -> Forall is_digit d -> Forall is_digit e ->
  a ++ x :: d = b ++ y :: e -> a = b /\ x = y /\ d = e.
Proof.
  intros Hx Hy. revert e. induction d as [|c d IH] using rev_ind; intros e Hd He Heq.
  - destruct e as [|c e] using rev_ind; [by apply app_inj_tail in Heq as [-> ->]|]. exfalso.
    rewrite app_comm_cons, app_assoc in Heq. apply app_inj_tail in Heq as [_ ->]. apply Forall_app in He as [_ He].
    by apply Forall_cons in He as [].
  - destruct e as [|c' e _] using rev_ind.
    + exfalso. rewrite app_comm_cons, app_assoc in Heq. apply app_inj_tail in Heq as [_ <-]. apply Forall_app in Hd as [_ Hd].
      by apply Forall_cons in Hd as [].
    + rewrite !app_comm_cons, !app_assoc in Heq. apply app_inj_tail in Heq as [Heq ->].
      apply Forall_app in Hd as [Hd _]. apply Forall_app in He as [He _]. by destruct (IH e Hd He Heq) as (-> & -> & ->).
Qed.

Lemma list_ascii_inj s t : String.list_ascii_of_string s = String.list_ascii_of_string t -> s = t.
Proof. intros H. apply (f_equal String.string_of_list_ascii) in H. by rewrite !String.string_of_list_ascii_of_string in H. Qed.

(** Different pods and ranks have different names. *)
Lemma rank_name_inj n1 n2 i1 i2 : rank_name n1 i1 = rank_name n2 i2 -> n1 = n2 /\ i1 = i2.
Proof.
  unfold rank_name. intros H. apply (f_equal String.list_ascii_of_string) in H. rewrite !app_list_ascii in H.
  cbn [String.list_ascii_of_string app] in H.
  assert (Hsplit : forall n d : list ascii, n ++ ["-"%char; "r"%char; "a"%char; "n"%char; "k"%char; "-"%char] ++ d =
    (n ++ ["-"%char; "r"%char; "a"%char; "n"%char; "k"%char]) ++ "-"%char :: d) by (intros; by rewrite <- app_assoc).
  cbn in Hsplit. rewrite !Hsplit in H.
  apply digits_split in H as (H & _ & Hd); [|by intros []|by intros []|apply pretty_N_digits..].
  apply app_inj_2 in H as [H _]; [|done]. apply list_ascii_inj in H, Hd. split; [done|]. apply (inj pretty) in Hd. lia.
Qed.

Lemma foldl_same {A B} (f g : A -> B -> A) l : forall a, (forall a x, f a x = g a x) -> foldl f a l = foldl g a l.
Proof. induction l as [|x l IH]; intros a H; [done|]. cbn. by rewrite H, IH. Qed.

(** * The factory *)

Abbreviation nn := (ReqCtx.NamespacedName).

(** What the datastore relies on: an endpoint is made unless something still runs
    for its name, and a released endpoint leaves nothing running.  Whether the
    factory runs something for its endpoints is [tracking]. *)
Class FactoryLaws (F : Type) `{!EndpointFactory F} := {
  live : F -> gset NamespacedName;
  tracking : F -> bool;
  new_endpoint f m : nn m ∉ live f -> exists f' ep,
    NewEndpoint f m = (f', Some ep) /\ ep_Metadata ep = m /\ tracking f' = tracking f /\
    live f' = if tracking f then {[ nn m ]} ∪ live f else live f;
  release_endpoint f ep : tracking (ReleaseEndpoint f ep) = tracking f /\
    live (ReleaseEndpoint f ep) = live f ∖ {[ nn (ep_Metadata ep) ]}
}.

Section Datastore.

Context {F : Type} `{!EndpointFactory F} `{!FactoryLaws F}.
Context (range : gmap NamespacedName endpoint -> list (NamespacedName * endpoint)).
Context (Hrange : forall m, range m ≡ₚ map_to_list m).
Implicit Types (ds : datastore (F := F)) (m : EndpointMetadata) (pod : Pod) (p : EndpointPool).

(** The metadata of the endpoints, by their names. *)
Definition view ds : gmap NamespacedName EndpointMetadata := ep_Metadata <$> pods ds.

Record store_ok ds : Prop := {
  so_key k ep : pods ds !! k = Some ep -> nn (ep_Metadata ep) = k;
  so_live : live (epf ds) ⊆ dom (pods ds);
  so_tracked : tracking (epf ds) = true -> dom (pods ds) ⊆ live (epf ds)
}.

(** [ds'] has the endpoints [v], and everything else of [ds]. *)
Record endpoints_become (v : gmap NamespacedName EndpointMetadata) ds ds' : Prop := {
  eb_ok : store_ok ds';
  eb_view : view ds' = v;
  eb_pool : pool ds' = pool ds;
  eb_port : modelServerMetricsPort ds' = modelServerMetricsPort ds;
  eb_tracking : tracking (epf ds') = tracking (epf ds);
  eb_objectives : objectives ds' = objectives ds;
  eb_rewrites : modelRewrites ds' = modelRewrites ds
}.

(** What is not about endpoints. *)
Definition rest ds := (objectives ds, modelRewrites ds, tracking (epf ds)).

Lemma eb_rest v ds ds' : endpoints_become v ds ds' -> rest ds' = rest ds.
Proof. intros [_ _ _ _ Ht Ho Hr]. unfold rest. by rewrite Ht, Ho, Hr. Qed.

Lemma endpoints_refl ds : store_ok ds -> endpoints_become (view ds) ds ds.
Proof. by split. Qed.

Lemma endpoints_trans v ds ds1 ds2 :
  endpoints_become (view ds1) ds ds1 -> endpoints_become v ds1 ds2 -> endpoints_become v ds ds2.
Proof. intros [] []. split; congruence. Qed.

Lemma view_None ds k : view ds !! k = None <-> pods ds !! k = None.
Proof. unfold view. rewrite lookup_fmap. by destruct (pods ds !! k). Qed.

Lemma register_ok ds b m :
  store_ok ds -> endpoints_become (<[nn m := m]> (view ds)) ds (register_endpoint (ds, b) m).1.
Proof.
  intros [Hk Hl Ht]. unfold register_endpoint. destruct (pods ds !! nn m) as [ep|] eqn:Hp.
  - assert (Hd : forall e, dom (<[nn m := e]> (pods ds)) = dom (pods ds)).
    { intros e. rewrite dom_insert_L. assert (nn m ∈ dom (pods ds)) by (apply elem_of_dom; eauto). set_solver. }
    split; cbn; try done; [split; cbn|].
    + intros k e. rewrite lookup_insert. case_decide; [intros [= <-]; done|apply Hk].
    + by rewrite Hd.
    + by rewrite Hd.
    + unfold view. cbn. by rewrite fmap_insert.
  - destruct (new_endpoint (epf ds) m) as (f' & ep & Hnew & Hm & Htr & Hlive).
    { intros Hin. apply Hl, elem_of_dom in Hin as [? ?]. congruence. }
    rewrite Hnew. split; cbn; try done; [split; cbn|].
    + intros k e. rewrite lookup_insert. case_decide; [intros [= <-]; done|apply Hk].
    + rewrite dom_insert, Hlive. destruct (tracking (epf ds)); set_solver.
    + intros Htrue. rewrite Htr in Htrue. rewrite dom_insert, Hlive, Htrue. specialize (Ht Htrue). set_solver.
    + unfold view. cbn. by rewrite fmap_insert.
Qed.

Lemma register_all_ok ms : forall ds b,
  store_ok ds ->
  endpoints_become (foldl (fun v m => <[nn m := m]> v) (view ds) ms) ds (foldl register_endpoint (ds, b) ms).1.
Proof.
  induction ms as [|m ms IH]; intros ds b Hok; [by apply endpoints_refl|]. cbn [foldl].
  pose proof (register_ok ds b m Hok) as H1. destruct (register_endpoint (ds, b) m) as [ds1 b1]. cbn [fst] in H1.
  eapply endpoints_trans; [rewrite (eb_view _ _ _ H1); exact H1|]. rewrite <- (eb_view _ _ _ H1). apply IH, H1.
Qed.

Lemma drop_pod_ok ds k ep :
  store_ok ds -> pods ds !! k = Some ep -> endpoints_become (delete k (view ds)) ds (drop_pod ds k ep).
Proof.
  intros [Hk Hl Ht] Hep. pose proof (Hk k ep Hep) as Hn. destruct (release_endpoint (epf ds) ep) as [Htr Hlive].
  split; cbn; try done; [split; cbn|].
  - intros k' e. rewrite lookup_delete_Some. intros [_ He]. by apply Hk.
  - rewrite Hlive, dom_delete, Hn. set_solver.
  - intros Htrue. rewrite Htr in Htrue. specialize (Ht Htrue). rewrite Hlive, dom_delete, Hn. set_solver.
  - unfold view. cbn. by rewrite fmap_delete.
Qed.

Lemma remove_ranks_ok pod idxs : forall ds,
  store_ok ds ->
  endpoints_become (foldl (fun v idx => delete (createEndpointNamespacedName pod idx) v) (view ds) idxs) ds
    (foldl (remove_rank pod) ds idxs).
Proof.
  induction idxs as [|idx idxs IH]; intros ds Hok; [by apply endpoints_refl|]. cbn [foldl].
  assert (H1 : endpoints_become (delete (createEndpointNamespacedName pod idx) (view ds)) ds (remove_rank pod ds idx)).
  { unfold remove_rank. destruct (pods ds !! _) as [ep|] eqn:Hp; [by apply drop_pod_ok|].
    rewrite delete_id by (by apply view_None). by apply endpoints_refl. }
  eapply endpoints_trans; [rewrite (eb_view _ _ _ H1); exact H1|]. rewrite <- (eb_view _ _ _ H1). apply IH, H1.
Qed.

(** A loop over the entries of before that drops some of them. *)
Lemma drop_loop_ok (bad : endpoint -> bool) l : forall ds,
  store_ok ds -> (forall k ep, (k, ep) ∈ l -> pods ds !! k = Some ep) -> NoDup l.*1 ->
  endpoints_become (foldl (fun v '(k, ep) => if bad ep then delete k v else v) (view ds) l) ds
    (foldl (fun ds '(k, ep) => if bad ep then drop_pod ds k ep else ds) ds l).
Proof.
  induction l as [|[k ep] l IH]; intros ds Hok Hl Hnd; [by apply endpoints_refl|]. cbn [foldl].
  apply NoDup_cons in Hnd as [Hk Hnd]. destruct (bad ep); [|apply IH; [done| |done]; intros; apply Hl; by right].
  assert (H1 : endpoints_become (delete k (view ds)) ds (drop_pod ds k ep)).
  { apply drop_pod_ok; [done|]. apply Hl. left. }
  eapply endpoints_trans; [rewrite (eb_view _ _ _ H1); exact H1|]. rewrite <- (eb_view _ _ _ H1). apply IH; [apply H1| |done].
  intros k' ep' Hin. cbn. rewrite lookup_delete_ne; [apply Hl; by right|].
  intros ->. apply Hk, list_elem_of_fmap. by exists (k', ep').
Qed.

Lemma drop_fold_lookup (bad : EndpointMetadata -> bool) k (l : list (NamespacedName * endpoint)) :
  forall v : gmap NamespacedName EndpointMetadata,
  NoDup l.*1 -> (forall j e, (j, e) ∈ l -> v !! j = Some (ep_Metadata e)) ->
  foldl (fun v '(k, ep) => if bad (ep_Metadata ep) then delete k v else v) v l !! k =
    if bool_decide (k ∈ l.*1) then (m ← v !! k; if bad m then None else Some m) else v !! k.
Proof.
  induction l as [|[j e] l IH]; intros v Hnd Hv; [done|]. apply NoDup_cons in Hnd as [Hj Hnd]. cbn [foldl].
  assert (Hv' : forall j' e', (j', e') ∈ l -> (if bad (ep_Metadata e) then delete j v else v) !! j' = Some (ep_Metadata e')).
  { intros j' e' Hin. assert (j <> j') by (intros ->; apply Hj, list_elem_of_fmap; by exists (j', e')).
    destruct (bad _); [rewrite lookup_delete_ne by done|]; apply Hv; by right. }
  rewrite IH by done. specialize (Hv j e (list_elem_of_here _ _)). destruct (decide (k = j)) as [->|Hne].
  - rewrite bool_decide_eq_false_2 by done. rewrite bool_decide_eq_true_2 by (cbn; set_solver). rewrite Hv. cbn.
    destruct (bad _); [by rewrite lookup_delete_eq|done].
  - assert (Hk : (if bad (ep_Metadata e) then delete j v else v) !! k = v !! k) by (destruct (bad _); [by rewrite lookup_delete_ne|done]).
    rewrite Hk. assert (Hin : k ∈ ((j, e) :: l).*1 <-> k ∈ l.*1) by (cbn; rewrite elem_of_cons; tauto).
    by rewrite (bool_decide_ext _ _ Hin).
Qed.

(** The whole range: what stays is what is not bad. *)
Lemma drop_range_ok (bad : EndpointMetadata -> bool) ds :
  store_ok ds ->
  endpoints_become (filter (fun km => bad km.2 = false) (view ds)) ds
    (foldl (fun ds '(k, ep) => if bad (ep_Metadata ep) then drop_pod ds k ep else ds) ds (range (pods ds))).
Proof.
  intros Hok.
  assert (Hnd : NoDup (range (pods ds)).*1) by (rewrite Hrange; apply NoDup_fst_map_to_list).
  pose proof (drop_loop_ok (fun ep => bad (ep_Metadata ep)) (range (pods ds)) ds Hok) as Hd. cbv beta in Hd.
  assert (Heq : foldl (fun v '(k, ep) => if bad (ep_Metadata ep) then delete k v else v) (view ds) (range (pods ds)) =
    filter (fun km => bad km.2 = false) (view ds)); [|rewrite Heq in Hd; apply Hd; [|done]].
  2: { intros k ep. rewrite Hrange. apply elem_of_map_to_list. }
  apply map_eq. intros k. rewrite drop_fold_lookup; [|done|].
  2: { intros j e Hin. unfold view. rewrite Hrange in Hin. apply elem_of_map_to_list in Hin. by rewrite lookup_fmap, Hin. }
  rewrite map_lookup_filter. unfold view. rewrite lookup_fmap. destruct (pods ds !! k) as [ep|] eqn:Hep; cbn.
  - rewrite bool_decide_eq_true_2.
    + destruct (bad _) eqn:Hb; [by rewrite option_guard_False|by rewrite option_guard_True].
    + apply list_elem_of_fmap. exists (k, ep). split; [done|]. rewrite Hrange. by apply elem_of_map_to_list.
  - by case_bool_decide.
Qed.

(** * Updating a pod *)

Lemma insert_all_out ms k : forall v : gmap NamespacedName EndpointMetadata,
  (forall m, m ∈ ms -> nn m <> k) -> foldl (fun v m => <[nn m := m]> v) v ms !! k = v !! k.
Proof.
  induction ms as [|m ms IH]; intros v Hout; [done|]. cbn [foldl]. rewrite IH; [|intros; apply Hout; by right].
  apply lookup_insert_ne, Hout. left.
Qed.

Lemma insert_all_in ms m : forall v : gmap NamespacedName EndpointMetadata,
  m ∈ ms -> (forall m', m' ∈ ms -> nn m' = nn m -> m' = m) -> foldl (fun v m => <[nn m := m]> v) v ms !! nn m = Some m.
Proof.
  induction ms as [|m1 ms IH]; intros v Hin Huniq; [by apply elem_of_nil in Hin|]. cbn [foldl].
  destruct (decide (nn m ∈ nn <$> ms)) as [Hms|Hms].
  - apply list_elem_of_fmap in Hms as (m' & Heq & Hm').
    rewrite (Huniq m' (list_elem_of_further _ _ _ Hm') (eq_sym Heq)) in Hm'. apply IH; [done|]. intros. apply Huniq; [by right|done].
  - rewrite insert_all_out.
    + apply elem_of_cons in Hin as [->|Hin]; [apply lookup_insert_eq|]. destruct Hms. by apply list_elem_of_fmap_2.
    + intros m' Hm' Heq. apply Hms. rewrite <- Heq. by apply list_elem_of_fmap_2.
Qed.

Lemma delete_all_lookup {A} (f : A -> NamespacedName) l k : forall v : gmap NamespacedName EndpointMetadata,
  foldl (fun v x => delete (f x) v) v l !! k = if bool_decide (k ∈ f <$> l) then None else v !! k.
Proof.
  induction l as [|x l IH]; intros v; [done|]. cbn [foldl]. rewrite IH. rewrite lookup_delete.
  cbn [fmap list_fmap]. destruct (decide (k ∈ f <$> l)) as [Hl|Hl].
  - rewrite !bool_decide_eq_true_2 by set_solver. done.
  - rewrite (bool_decide_eq_false_2 (k ∈ f <$> l)) by done. destruct (decide (f x = k)) as [->|Hne].
    + by rewrite bool_decide_eq_true_2 by set_solver.
    + by rewrite bool_decide_eq_false_2 by set_solver.
Qed.

Lemma ranks_spec f ports idx port : (idx, port) ∈ ranks f ports <-> ports !! idx = Some port /\ f port = true.
Proof.
  unfold ranks. rewrite list_elem_of_In, List.filter_In, <- list_elem_of_In, elem_of_lookup_imap. split.
  - intros [(i & x & [= -> ->] & Hx) Hf]. done.
  - intros [Hp Hf]. split; [by exists idx, port|done].
Qed.

(** The endpoint the pool wants for a rank of a pod. *)
Definition wanted ds pod p (idx : nat) : option EndpointMetadata :=
  port ← TargetPorts p !! idx;
  if bool_decide (port ∈ extractActivePorts pod (TargetPorts p))
  then Some (endpoint_metadata (if Nat.eqb (length (TargetPorts p)) 1 then modelServerMetricsPort ds else 0) pod idx port)
  else None.

Lemma endpoints_of_spec ds pod p m :
  m ∈ endpoints_of ds pod p <-> exists idx, wanted ds pod p idx = Some m.
Proof.
  unfold endpoints_of, wanted. rewrite list_elem_of_fmap. split.
  - intros ([idx port] & -> & Hin). apply ranks_spec in Hin as [Hp Hf]. exists idx. rewrite Hp. cbn. by rewrite Hf.
  - intros [idx Hm]. destruct (TargetPorts p !! idx) as [port|] eqn:Hp; [|done]. cbn in Hm.
    case_bool_decide; [|done]. injection Hm as <-. exists (idx, port). split; [done|]. apply ranks_spec.
    split; [done|]. by apply bool_decide_eq_true_2.
Qed.

Lemma wanted_nn ds pod p idx m : wanted ds pod p idx = Some m -> nn m = createEndpointNamespacedName pod idx /\ PodName m = pod_Name pod.
Proof. unfold wanted. destruct (TargetPorts p !! idx); [|done]. cbn. case_bool_decide; [|done]. by intros [= <-]. Qed.

Lemma endpoint_name_inj pod1 pod2 i j :
  createEndpointNamespacedName pod1 i = createEndpointNamespacedName pod2 j ->
  pod_Namespace pod1 = pod_Namespace pod2 /\ pod_Name pod1 = pod_Name pod2 /\ i = j.
Proof. unfold createEndpointNamespacedName. intros [= H1 H2%rank_name_inj]. by destruct H2. Qed.

(** An update sets every rank of the pool's ports, and leaves everything else. *)
Lemma pod_update_ok ds pod p :
  store_ok ds -> exists v, endpoints_become v ds (podUpdateOrAddIfNotExist ds pod (Some p)).1 /\
    (forall idx, (idx < length (TargetPorts p))%nat -> v !! createEndpointNamespacedName pod idx = wanted ds pod p idx) /\
    (forall k, (forall idx, (idx < length (TargetPorts p))%nat -> k <> createEndpointNamespacedName pod idx) -> v !! k = view ds !! k).
Proof.
  intros Hok. cbn [podUpdateOrAddIfNotExist].
  pose proof (register_all_ok (endpoints_of ds pod p) ds true Hok) as H1.
  destruct (foldl register_endpoint (ds, true) (endpoints_of ds pod p)) as [ds1 b1]. cbn [fst] in *.
  set (idxs := fst <$> ranks _ _). pose proof (remove_ranks_ok pod idxs ds1 (eb_ok _ _ _ H1)) as H2.
  rewrite (eb_view _ _ _ H1) in H2. eexists. split; [eapply endpoints_trans; [rewrite (eb_view _ _ _ H1); exact H1|exact H2]|].
  split.
  - intros idx Hidx. destruct (lookup_lt_is_Some_2 _ _ Hidx) as [port Hport]. rewrite delete_all_lookup.
    assert (Hw : wanted ds pod p idx = if bool_decide (port ∈ extractActivePorts pod (TargetPorts p))
      then Some (endpoint_metadata (if Nat.eqb (length (TargetPorts p)) 1 then modelServerMetricsPort ds else 0) pod idx port) else None)
      by (unfold wanted; by rewrite Hport).
    destruct (decide (createEndpointNamespacedName pod idx ∈ createEndpointNamespacedName pod <$> idxs)) as [Hin|Hin];
      [rewrite (bool_decide_eq_true_2 _ Hin)|rewrite (bool_decide_eq_false_2 _ Hin)].
    + rewrite Hw. apply list_elem_of_fmap in Hin as (i & Hi & Hin). apply endpoint_name_inj in Hi as (_ & _ & <-).
      apply list_elem_of_fmap in Hin as ([i' port'] & -> & Hr). apply ranks_spec in Hr as [Hp' Hf]. cbn in *.
      rewrite Hport in Hp'. injection Hp' as <-. apply bool_decide_eq_true in Hf. by rewrite bool_decide_eq_false_2.
    + rewrite bool_decide_eq_true_2 in Hw.
      * destruct (wanted_nn _ _ _ _ _ Hw) as [<- _]. rewrite Hw. apply insert_all_in.
        { apply endpoints_of_spec. by exists idx. }
        intros m' (i & Hm')%endpoints_of_spec Heq. destruct (wanted_nn _ _ _ _ _ Hm') as [Hn _].
        destruct (wanted_nn _ _ _ _ _ Hw) as [Hn' _]. rewrite Hn, Hn' in Heq.
        apply endpoint_name_inj in Heq as (_ & _ & ->). congruence.
      * destruct (decide (port ∈ extractActivePorts pod (TargetPorts p))); [done|]. destruct Hin. apply list_elem_of_fmap_2.
        apply list_elem_of_fmap. exists (idx, port). split; [done|]. apply ranks_spec. split; [done|]. by apply bool_decide_eq_true_2.
  - intros k Hk. rewrite delete_all_lookup, bool_decide_eq_false_2.
    + apply insert_all_out. intros m (idx & Hm)%endpoints_of_spec. destruct (wanted_nn _ _ _ _ _ Hm) as [-> _].
      intros <-. eapply Hk; [|reflexivity]. unfold wanted in Hm. destruct (TargetPorts p !! idx) eqn:Hp; [|done].
      by eapply lookup_lt_Some.
    + intros (idx & -> & Hin)%list_elem_of_fmap. apply list_elem_of_fmap in Hin as ([i port] & -> & Hr).
      apply ranks_spec in Hr as [Hp _]. eapply Hk; [|reflexivity]. by eapply lookup_lt_Some.
Qed.

Lemma wanted_same ds ds' pod p idx :
  modelServerMetricsPort ds' = modelServerMetricsPort ds -> wanted ds' pod p idx = wanted ds pod p idx.
Proof. unfold wanted. by intros ->. Qed.

(** * Deleting and clearing *)

Lemma PodDelete_ok ds name :
  store_ok ds -> endpoints_become (filter (fun km => String.eqb (PodName km.2) name = false) (view ds)) ds (PodDelete range ds name).
Proof. apply (drop_range_ok (fun m => String.eqb (PodName m) name)). Qed.

Lemma release_all (l : list (NamespacedName * endpoint)) : forall ds,
  let ds' := foldl (fun ds '(_, ep) => ds <| epf := ReleaseEndpoint (epf ds) ep |>) ds l in
  (pool ds', objectives ds', modelRewrites ds', pods ds', modelServerMetricsPort ds') =
    (pool ds, objectives ds, modelRewrites ds, pods ds, modelServerMetricsPort ds) /\
  tracking (epf ds') = tracking (epf ds) /\
  live (epf ds') = live (epf ds) ∖ list_to_set ((fun kep => nn (ep_Metadata kep.2)) <$> l).
Proof.
  induction l as [|[k ep] l IH]; intros ds; cbn [foldl]; [split; [done|split; [done|set_solver]]|].
  destruct (IH (ds <| epf := ReleaseEndpoint (epf ds) ep |>)) as (IH1 & IH2 & IH3). split; [exact IH1|].
  destruct (release_endpoint (epf ds) ep) as [Htr Hlive]. split; [rewrite IH2; exact Htr|].
  rewrite IH3. cbn. rewrite Hlive. set_solver.
Qed.

Lemma Clear_ok ds :
  store_ok ds -> store_ok (Clear range ds) /\ view (Clear range ds) = ∅ /\ pool (Clear range ds) = None /\
    objectives (Clear range ds) = ∅ /\ modelRewrites (Clear range ds) = newModelRewriteStore /\
    tracking (epf (Clear range ds)) = tracking (epf ds) /\ modelServerMetricsPort (Clear range ds) = modelServerMetricsPort ds.
Proof.
  intros [Hk Hl Ht]. unfold Clear. cbn zeta.
  match goal with |- context [foldl ?f ?d ?l] => pose proof (release_all l d) as (H1 & H3 & H2) end. cbv zeta in H1.
  injection H1 as Hp Ho Hw _ Hm. split; [split|].
  - intros k ep Hlk. cbn in Hlk. by rewrite lookup_empty in Hlk.
  - cbn. cbn in H2. rewrite H2. intros x [Hx1 Hx2]%elem_of_difference. exfalso. apply Hx2, elem_of_list_to_set, list_elem_of_fmap.
    apply Hl, elem_of_dom in Hx1 as [ep Hep]. exists (x, ep). split; [symmetry; by apply (Hk x ep)|]. rewrite Hrange. by apply elem_of_map_to_list.
  - intros _. cbn. set_solver.
  - cbn in *. unfold view. cbn. rewrite fmap_empty, Hp, Ho, Hw, Hm. cbn in H3. done.
Qed.

(** * Resync *)

Definition pod_key pod : NamespacedName := (pod_Namespace pod, pod_Name pod).

(** [k] is the name of a rank of a ready pod of the list. *)
Definition listed p (l : list Pod) (k : NamespacedName) : Prop :=
  exists pod idx, pod ∈ l /\ IsPodReady pod = true /\ (idx < length (TargetPorts p))%nat /\ k = createEndpointNamespacedName pod idx.

Lemma active_fold pod n : forall A : gset NamespacedName,
  foldl (fun s idx => {[ createEndpointNamespacedName pod idx ]} ∪ s) A (seq 0 n) ≡
  A ∪ list_to_set (createEndpointNamespacedName pod <$> seq 0 n).
Proof.
  generalize (seq 0 n). induction l as [|i l IH]; intros A; cbn; [set_solver|]. rewrite IH. set_solver.
Qed.

Lemma resync_loop_ok p l : forall ds A,
  store_ok ds -> NoDup (pod_key <$> l) ->
  exists v, endpoints_become v ds (foldl (resync_pod p) (ds, A) l).1 /\
    (forall k, k ∈ (foldl (resync_pod p) (ds, A) l).2 <-> k ∈ A \/ listed p l k) /\
    (forall pod idx, pod ∈ l -> IsPodReady pod = true -> (idx < length (TargetPorts p))%nat ->
       v !! createEndpointNamespacedName pod idx = wanted ds pod p idx) /\
    (forall k, ~ listed p l k -> v !! k = view ds !! k).
Proof.
  induction l as [|pod l IH]; intros ds A Hok Hnd.
  - exists (view ds). split; [by apply endpoints_refl|]. split; [|split; [|done]].
    + intros k. cbn. split; [by left|]. intros [?|(pod & idx & Hin & _)]; [done|]. by apply elem_of_nil in Hin.
    + intros pod idx Hin. by apply elem_of_nil in Hin.
  - cbn in Hnd. apply NoDup_cons in Hnd as [Hnew Hnd]. cbn [foldl]. unfold resync_pod at 2 4. destruct (IsPodReady pod) eqn:Hr.
    + destruct (pod_update_ok ds pod p Hok) as (v1 & H1 & Hin1 & Hout1).
      set (ds1 := (podUpdateOrAddIfNotExist ds pod (Some p)).1) in *.
      match goal with |- context [foldl (resync_pod p) (ds1, ?B) l] => set (A1 := B) end.
      destruct (IH ds1 A1 (eb_ok _ _ _ H1) Hnd) as (v & H2 & HA & Hin & Hout).
      exists v. split; [eapply endpoints_trans; [rewrite (eb_view _ _ _ H1); exact H1|exact H2]|]. split; [|split].
      * intros k. rewrite HA. subst A1. rewrite active_fold. rewrite elem_of_union, elem_of_list_to_set, list_elem_of_fmap. split.
        { intros [[?|(idx & -> & Hi%elem_of_seq)]|(q & idx & ? & ? & ? & ?)]; [by left| |].
          - right. exists pod, idx. split_and!; [left|done|lia|done].
          - right. exists q, idx. split_and!; [by right|done..]. }
        intros [?|(q & idx & Hq & ? & ? & ->)]; [by left; left|]. apply elem_of_cons in Hq as [->|Hq].
        { left. right. exists idx. split; [done|]. apply elem_of_seq. lia. }
        right. by exists q, idx.
      * intros q idx Hq Hrq Hidx. apply elem_of_cons in Hq as [->|Hq].
        { rewrite Hout; [rewrite (eb_view _ _ _ H1); by apply Hin1|].
          intros (q & i & Hq & _ & _ & Heq). apply endpoint_name_inj in Heq as (Hns & Hn & _). apply Hnew.
          apply list_elem_of_fmap. exists q. unfold pod_key. by rewrite Hns, Hn. }
        rewrite Hin by done. apply wanted_same, H1.
      * intros k Hk. rewrite Hout.
        { rewrite (eb_view _ _ _ H1). apply Hout1. intros idx Hidx ->. apply Hk. exists pod, idx. split_and!; [left|done..]. }
        intros (q & idx & Hq & ? & ? & ->). apply Hk. exists q, idx. split_and!; [by right|done..].
    + destruct (IH ds A Hok Hnd) as (v & H2 & HA & Hin & Hout).
      assert (Hl : forall k, listed p (pod :: l) k <-> listed p l k).
      { intros k. split; intros (q & idx & Hq & Hrq & ? & ->); exists q, idx; split_and!; try done; [|by right].
        apply elem_of_cons in Hq as [->|?]; [congruence|done]. }
      exists v. split; [exact H2|]. split; [intros k; by rewrite HA, Hl|]. split; [|intros k Hk; apply Hout; by rewrite <- Hl].
      intros q idx Hq Hrq Hidx. apply elem_of_cons in Hq as [->|?]; [congruence|by apply Hin].
Qed.

Context (list_pods : gmap string string -> string -> list Pod + string).

(** After a resync the endpoints are those the pool wants of the ready pods that
    were listed. *)
Lemma podResyncAll_ok ds p l :
  store_ok ds -> list_pods (Selector p) (ep_Namespace p) = inl l -> NoDup (pod_key <$> l) ->
  exists v ds', podResyncAll range list_pods ds p = (ds', None) /\ endpoints_become v ds ds' /\
    forall k m, v !! k = Some m <-> exists pod idx, pod ∈ l /\ IsPodReady pod = true /\
      k = createEndpointNamespacedName pod idx /\ wanted ds pod p idx = Some m.
Proof.
  intros Hok Hlist Hnd. unfold podResyncAll. rewrite Hlist.
  destruct (resync_loop_ok p l ds ∅ Hok Hnd) as (v1 & H1 & HA & Hin & Hout).
  destruct (foldl (resync_pod p) (ds, ∅) l) as [ds1 A]. cbn [fst snd] in *.
  pose proof (drop_range_ok (fun m => negb (bool_decide (nn m ∈ A))) ds1 (eb_ok _ _ _ H1)) as H2.
  eexists _, _. split; [reflexivity|]. split.
  - eapply endpoints_trans; [rewrite (eb_view _ _ _ H1); exact H1|].
    erewrite foldl_same; [exact H2|]. intros d [k ep]. by case_bool_decide.
  - rewrite (eb_view _ _ _ H1). intros k m. rewrite map_lookup_filter_Some. cbn [snd]. rewrite negb_false_iff, bool_decide_eq_true, HA.
    assert (Hkey : v1 !! k = Some m -> nn m = k).
    { rewrite <- (eb_view _ _ _ H1). unfold view. rewrite lookup_fmap. destruct (pods ds1 !! k) as [ep|] eqn:Hep; [|done].
      intros [= <-]. by eapply so_key; [apply H1|]. }
    split.
    + intros [Hm [He|(pod & idx & Hp & Hr & Hi & Hk)]]; [set_solver|]. rewrite (Hkey Hm) in Hk.
      exists pod, idx. split_and!; try done. rewrite <- (Hin pod idx) by done. by rewrite <- Hk.
    + intros (pod & idx & Hp & Hr & -> & Hw).
      assert (Hi : (idx < length (TargetPorts p))%nat).
      { unfold wanted in Hw. destruct (TargetPorts p !! idx) eqn:E; [|done]. by eapply lookup_lt_Some. }
      assert (Hv : v1 !! createEndpointNamespacedName pod idx = Some m) by (by rewrite Hin).
      split; [done|]. right. exists pod, idx. by rewrite (Hkey Hv).
Qed.

End Datastore.
