(* ===== verification/Runtime.v ===== *)
(** The runtime of the data layer (src/pkg/epp/datalayer/runtime.go): its
    configuration with sources and extractors, and the lifecycle of endpoints,
    each with a collector that polls it.  It is the endpoint factory of the
    datastore.

    The order of a [sync.Map] and the outcome of starting a collector are
    arguments. *)

From S2P Require Import Prelude InFlight ModelRewrite DataGraph Scheduler Ordering Chunking ReqCtx Candidates Director Datastore.
From S2P Require Import DatastoreProps.

(** * Types *)

(** [reflect.Type]: its name, whether it is an interface, and its method set. *)
Record rtype := mkType { rt_Name : string; rt_Interface : bool; rt_Methods : gset string }.

#[global] Instance rtype_eq_dec : EqDecision rtype.
Proof. solve_decision. Defined.

Definition Implements (t i : rtype) : bool := bool_decide (rt_Methods i ⊆ rt_Methods t).

Definition validateInputTypeCompatible (dataSourceOutput extractorInput : option rtype) : option string :=
  match dataSourceOutput, extractorInput with
  | Some output, Some input =>
      if bool_decide (output = input)
         || (rt_Interface input && bool_decide (rt_Methods input = ∅))
         || (rt_Interface input && Implements output input)
      then None
      else Some ("extractor input type " +:+ rt_Name input +:+ " is not compatible with data source output type " +:+ rt_Name output)
  | _, _ => Some "data source output type or extractor input type can't be nil"
  end.

Definition validateExtractorCompatible (extractorType expectedInterfaceType : option rtype) : option string :=
  match extractorType, expectedInterfaceType with
  | Some t, Some i =>
      if negb (rt_Interface i) then Some ("expected type must be an interface, got " +:+ rt_Name i)
      else if negb (Implements t i)
      then Some ("extractor type " +:+ rt_Name t +:+ " does not implement interface " +:+ rt_Name i)
      else None
  | _, _ => Some "extractor type or expected interface type can't be nil"
  end.

(** * Sources and extractors *)

Record EndpointEvent := { ee_Type : EventType; ee_Endpoint : endpoint }.

(** [ex_GVK] of a notification extractor; [ex_Endpoint] says whether it takes
    endpoint events. *)
Record Extractor := {
  ex_TypedName : TypedName;
  ex_Type : option rtype;
  ExpectedInputType : option rtype;
  ex_GVK : option string;
  ex_Endpoint : bool
}.

(** The interface of a source, in the order in which they are tried. *)
Inductive source_kind :=
| PollingDataSource
| NotificationSource (gvk : string)
| EndpointSource (notify : EndpointEvent -> option EndpointEvent + string)
| OtherSource.

Record DataSource := {
  src_TypedName : TypedName;
  src_Kind : source_kind;
  ExtractorType : option rtype;
  OutputType : option rtype;
  ValidateExtractor : option (Extractor -> option string)
}.

Record DataSourceConfig := { sc_Plugin : DataSource; sc_Extractors : list Extractor }.

(** * The runtime *)

(** A delivery of an endpoint event to an extractor. *)
Record delivery := { dl_Extractor : TypedName; dl_Event : EndpointEvent }.

Record Runtime := mkRuntime {
  pollingInterval : Z;
  pollers : gmap string DataSource;
  notifiers : gmap string DataSource;
  endpointSources : gmap string DataSource;
  sourceExtractors : gmap string (list Extractor);
  collectors : gmap NamespacedName nat;
  rt_next : nat;                           (* names of endpoints and collectors *)
  rt_deliveries : list delivery
}.

#[global] Instance eta_Runtime : Eta Runtime := fun r =>
  mkRuntime (pollingInterval r) (pollers r) (notifiers r) (endpointSources r) (sourceExtractors r) (collectors r)
    (rt_next r) (rt_deliveries r).

Definition defaultRefreshInterval : Z := 50000000.

Definition NewRuntime (pollingInterval : Z) : Runtime :=
  mkRuntime (if 0 <? pollingInterval then pollingInterval else defaultRefreshInterval) ∅ ∅ ∅ ∅ ∅ 0 [].

(** One extractor of a source; the first check that fails is reported. *)
Definition validateSourceExtractor (src : DataSource) (disallowedExtractorType : string) (ext : Extractor) : option string :=
  let name := TypedName_String (ex_TypedName ext) in
  let source := TypedName_String (src_TypedName src) in
  if negb (String.eqb disallowedExtractorType EmptyString) && String.eqb (tn_Type (ex_TypedName ext)) disallowedExtractorType
  then Some ("disallowed Extractor " +:+ name +:+ " is configured for source " +:+ source)
  else match validateExtractorCompatible (ex_Type ext) (ExtractorType src) with
  | Some err => Some ("extractor " +:+ name +:+ " type incompatible with datasource " +:+ source +:+ ": " +:+ err)
  | None =>
  match validateInputTypeCompatible (OutputType src) (ExpectedInputType ext) with
  | Some err => Some ("extractor " +:+ name +:+ " input type incompatible with datasource " +:+ source +:+ ": " +:+ err)
  | None =>
  match src_Kind src, ex_GVK ext with
  | NotificationSource gvk, Some gvk' =>
      if negb (String.eqb gvk gvk')
      then Some ("extractor " +:+ name +:+ " GVK " +:+ gvk' +:+ " does not match source " +:+ source +:+ " GVK " +:+ gvk)
      else (f ← ValidateExtractor src; err ← f ext;
            Some ("extractor " +:+ name +:+ " failed custom validation for datasource " +:+ source +:+ ": " +:+ err))
  | _, _ => f ← ValidateExtractor src; err ← f ext;
            Some ("extractor " +:+ name +:+ " failed custom validation for datasource " +:+ source +:+ ": " +:+ err)
  end end end.

Fixpoint validateSourceExtractors (src : DataSource) (extractors : list Extractor) (disallowedExtractorType : string) : option string :=
  match extractors with
  | [] => None
  | ext :: extractors =>
      match validateSourceExtractor src disallowedExtractorType ext with
      | Some err => Some err
      | None => validateSourceExtractors src extractors disallowedExtractorType
      end
  end.

Definition store_extractors (cfg : DataSourceConfig) (r : Runtime) : Runtime :=
  match sc_Extractors cfg with
  | [] => r
  | exts => r <| sourceExtractors := <[tn_Name (src_TypedName (sc_Plugin cfg)) := exts]> (sourceExtractors r) |>
  end.

(** The loop over the sources; an error leaves what was stored before it. *)
Fixpoint configure_sources (disallowedExtractorType : string) (sources : list DataSourceConfig) (gvkToSource : gmap string string)
    (r : Runtime) : Runtime * option string :=
  match sources with
  | [] => (r, None)
  | cfg :: sources =>
      let src := sc_Plugin cfg in
      let srcName := tn_Name (src_TypedName src) in
      match validateSourceExtractors src (sc_Extractors cfg) disallowedExtractorType with
      | Some err => (r, Some err)
      | None =>
          match src_Kind src with
          | PollingDataSource =>
              configure_sources disallowedExtractorType sources gvkToSource
                (store_extractors cfg (r <| pollers := <[srcName := src]> (pollers r) |>))
          | NotificationSource gvk =>
              match gvkToSource !! gvk with
              | Some existing =>
                  (r, Some ("duplicate notification source GVK " +:+ gvk +:+ ": already used by source " +:+ existing
                            +:+ ", cannot add " +:+ TypedName_String (src_TypedName src)))
              | None =>
                  configure_sources disallowedExtractorType sources (<[gvk := srcName]> gvkToSource)
                    (store_extractors cfg (r <| notifiers := <[srcName := src]> (notifiers r) |>))
              end
          | EndpointSource _ =>
              configure_sources disallowedExtractorType sources gvkToSource
                (store_extractors cfg (r <| endpointSources := <[srcName := src]> (endpointSources r) |>))
          | OtherSource => (r, Some ("skipping unknown datasource plugin type " +:+ TypedName_String (src_TypedName src)))
          end
      end
  end.

Definition Configure (r : Runtime) (cfg : option (list DataSourceConfig)) (enableNewMetrics : bool) (disallowedExtractorType : string)
    : Runtime * option string :=
  match cfg with
  | None | Some [] => (r, if enableNewMetrics then Some "data layer enabled but no data sources configured" else None)
  | Some sources => configure_sources disallowedExtractorType sources ∅ r
  end.

(** * Endpoints *)

Section Endpoints.

Context (range : gmap string DataSource -> list (string * DataSource)).

(** Whether a collector, with its number and its endpoint, starts. *)
Context (starts : nat -> NamespacedName -> bool).

(** The event a source makes of an event, for its extractors. *)
Definition deliver (r : Runtime) (event : EndpointEvent) (srcName : string) (src : DataSource) : list delivery :=
  match src_Kind src with
  | EndpointSource notify =>
      match notify event with
      | inl (Some processed) =>
          (fun ext => {| dl_Extractor := ex_TypedName ext; dl_Event := processed |})
            <$> List.filter ex_Endpoint (default [] (sourceExtractors r !! srcName))
      | _ => []
      end
  | _ => []
  end.

Definition dispatchEndpointEvent (r : Runtime) (event : EndpointEvent) : Runtime :=
  r <| rt_deliveries := rt_deliveries r ++ concat ((fun '(srcName, src) => deliver r event srcName src) <$> range (endpointSources r)) |>.

Definition Runtime_NewEndpoint (r : Runtime) (endpointMetadata : EndpointMetadata) : Runtime * option endpoint :=
  let ep := mkEndpoint (rt_next r) endpointMetadata in
  let r := r <| rt_next := S (rt_next r) |> in
  if bool_decide (pollers r = ∅) then (r, Some ep)
  else
    let key := nn endpointMetadata in
    match collectors r !! key with
    | Some _ => (r, None)
    | None =>
        let r := r <| collectors := <[key := rt_next r]> (collectors r) |> in
        if starts (rt_next r) key
        then (dispatchEndpointEvent r {| ee_Type := EventAddOrUpdate; ee_Endpoint := ep |}, Some ep)
        else (r <| collectors := delete key (collectors r) |>, None)
    end.

Definition Runtime_ReleaseEndpoint (r : Runtime) (ep : endpoint) : Runtime :=
  let r := dispatchEndpointEvent r {| ee_Type := EventDelete; ee_Endpoint := ep |} in
  r <| collectors := delete (nn (ep_Metadata ep)) (collectors r) |>.

Definition Runtime_factory : EndpointFactory Runtime :=
  {| NewEndpoint := Runtime_NewEndpoint; ReleaseEndpoint := Runtime_ReleaseEndpoint |}.

End Endpoints.

(** * The runtime as a factory *)

Section Laws.

Context (range : gmap string DataSource -> list (string * DataSource)) (starts : nat -> NamespacedName -> bool).
Context (Hstarts : forall n k, starts n k = true).

#[local] Existing Instance Runtime_factory.

#[export] Instance Runtime_laws : FactoryLaws Runtime (EndpointFactory0 := Runtime_factory range starts).
Proof.
  refine {| live := fun r => dom (collectors r); tracking := fun r => negb (bool_decide (pollers r = ∅)) |}.
  - intros r m Hlive. cbn [NewEndpoint Runtime_factory]. unfold Runtime_NewEndpoint. cbn [pollers collectors set].
    destruct (bool_decide (pollers r = ∅)) eqn:Hp; cbn.
    + eexists _, _. split; [reflexivity|]. cbn. by rewrite Hp.
    + apply not_elem_of_dom in Hlive. rewrite Hlive. cbn. rewrite Hstarts. eexists _, _. split; [reflexivity|]. cbn. rewrite Hp.
      by rewrite dom_insert_L.
  - intros r ep. split; [done|]. cbn. by rewrite dom_delete_L.
Defined.

End Laws.

(** * Configuration *)

Definition source_name (cfg : DataSourceConfig) : string := tn_Name (src_TypedName (sc_Plugin cfg)).

Definition source_gvk (cfg : DataSourceConfig) : option string :=
  match src_Kind (sc_Plugin cfg) with NotificationSource gvk => Some gvk | _ => None end.

(** The source is in the map of its kind, with its extractors, which fit. *)
Record registered (disallowed : string) (r : Runtime) (cfg : DataSourceConfig) : Prop := {
  re_valid : validateSourceExtractors (sc_Plugin cfg) (sc_Extractors cfg) disallowed = None;
  re_map : match src_Kind (sc_Plugin cfg) with
           | PollingDataSource => pollers r
           | NotificationSource _ => notifiers r
           | EndpointSource _ => endpointSources r
           | OtherSource => ∅
           end !! source_name cfg = Some (sc_Plugin cfg);
  re_extractors : default [] (sourceExtractors r !! source_name cfg) = sc_Extractors cfg
}.

(** What is stored under a name. *)
Definition stored (r : Runtime) (n : string) :=
  (pollers r !! n, notifiers r !! n, endpointSources r !! n, sourceExtractors r !! n).

Lemma registered_stored disallowed r r' cfg :
  stored r' (source_name cfg) = stored r (source_name cfg) -> registered disallowed r cfg -> registered disallowed r' cfg.
Proof.
  unfold stored. intros [= H1 H2 H3 H4] [Hv Hm He]. split; [done| |by rewrite H4].
  destruct (src_Kind (sc_Plugin cfg)); congruence.
Qed.

Lemma store_extractors_spec cfg r :
  sourceExtractors r !! source_name cfg = None ->
  default [] (sourceExtractors (store_extractors cfg r) !! source_name cfg) = sc_Extractors cfg /\
  (pollers (store_extractors cfg r), notifiers (store_extractors cfg r), endpointSources (store_extractors cfg r)) =
    (pollers r, notifiers r, endpointSources r) /\
  forall n, n <> source_name cfg -> sourceExtractors (store_extractors cfg r) !! n = sourceExtractors r !! n.
Proof.
  intros Hn. unfold store_extractors. destruct (sc_Extractors cfg) as [|ext exts]; [by rewrite Hn|]. cbn.
  split; [by rewrite lookup_insert_eq|]. split; [done|]. intros n Hne. by apply lookup_insert_ne.
Qed.

(** One source is added to its map, its extractors are stored, and no other name
    is touched. *)
Lemma configure_one disallowed sources g r r' :
  configure_sources disallowed sources g r = (r', None) -> NoDup (source_name <$> sources) ->
  Forall (fun cfg => sourceExtractors r !! source_name cfg = None) sources ->
  Forall (registered disallowed r') sources /\
  (forall n, n ∉ source_name <$> sources -> stored r' n = stored r n) /\
  NoDup (omap source_gvk sources) /\ Forall (fun gvk => g !! gvk = None) (omap source_gvk sources).
Proof.
  revert g r. induction sources as [|cfg sources IH]; intros g r Hc Hnd Hex.
  { cbn in Hc. injection Hc as <-. repeat split; try constructor; done. }
  cbn in Hnd. apply NoDup_cons in Hnd as [Hn Hnd]. apply Forall_cons in Hex as [Hex Hexs]. cbn [configure_sources] in Hc.
  destruct (validateSourceExtractors _ _ _) eqn:Hv; [done|].
  assert (Hstep : forall g1 r1, sourceExtractors r1 = sourceExtractors r ->
    (forall n, n <> source_name cfg -> (pollers r1 !! n, notifiers r1 !! n, endpointSources r1 !! n) =
       (pollers r !! n, notifiers r !! n, endpointSources r !! n)) ->
    match src_Kind (sc_Plugin cfg) with
    | PollingDataSource => pollers r1 | NotificationSource _ => notifiers r1 | EndpointSource _ => endpointSources r1
    | OtherSource => ∅ end !! source_name cfg = Some (sc_Plugin cfg) ->
    configure_sources disallowed sources g1 (store_extractors cfg r1) = (r', None) ->
    Forall (registered disallowed r') (cfg :: sources) /\
    (forall n, n ∉ source_name <$> cfg :: sources -> stored r' n = stored r n) /\
    NoDup (omap source_gvk sources) /\ Forall (fun gvk => g1 !! gvk = None) (omap source_gvk sources)).
  { intros g1 r1 He1 Ho1 Hm1 Hc1. rewrite <- He1 in Hex.
    destruct (store_extractors_spec cfg r1 Hex) as (Hse & Hmaps & Hother). injection Hmaps as Hp2 Hn2 Hs2.
    destruct (IH _ _ Hc1 Hnd) as (IHr & IHs & IHg).
    { rewrite Forall_forall in Hexs |- *. intros c Hin. rewrite Hother; [rewrite He1; by apply Hexs|].
      intros Heq. apply Hn. rewrite <- Heq. by apply list_elem_of_fmap_2. }
    split; [constructor; [|done]|split; [|done]].
    - apply (registered_stored _ (store_extractors cfg r1)); [by apply IHs|]. split; [done| |done].
      destruct (src_Kind (sc_Plugin cfg)); by rewrite ?Hp2, ?Hn2, ?Hs2.
    - intros n Hout. cbn in Hout. apply not_elem_of_cons in Hout as [Hne Hout]. rewrite IHs by done. unfold stored.
      rewrite Hp2, Hn2, Hs2, Hother, He1 by done. specialize (Ho1 n Hne). by injection Ho1 as -> -> ->. }
  destruct (src_Kind (sc_Plugin cfg)) as [|gvk|notify|] eqn:Hk; [..|done].
  - assert (Hg : source_gvk cfg = None) by (unfold source_gvk; by rewrite Hk). cbn [omap list_omap]. rewrite Hg.
    apply (Hstep g (r <| pollers := <[source_name cfg := sc_Plugin cfg]> (pollers r) |>)); try done;
      cbn; [intros n Hne; by rewrite lookup_insert_ne|by rewrite lookup_insert_eq].
  - assert (Hg : source_gvk cfg = Some gvk) by (unfold source_gvk; by rewrite Hk). cbn [omap list_omap]. rewrite Hg.
    destruct (g !! gvk) eqn:Hgv; [done|].
    destruct (Hstep (<[gvk := source_name cfg]> g) (r <| notifiers := <[source_name cfg := sc_Plugin cfg]> (notifiers r) |>))
      as (H1 & H2 & H3 & H4); try done; [intros n Hne; cbn; by rewrite lookup_insert_ne|cbn; by rewrite lookup_insert_eq|].
    split; [done|]. split; [done|]. rewrite Forall_forall in H4. split; constructor; try done.
    + intros Hin. specialize (H4 _ Hin). by rewrite lookup_insert_eq in H4.
    + apply Forall_forall. intros gvk' Hin. specialize (H4 _ Hin). by apply lookup_insert_None in H4 as [? _].
  - assert (Hg : source_gvk cfg = None) by (unfold source_gvk; by rewrite Hk). cbn [omap list_omap]. rewrite Hg.
    apply (Hstep g (r <| endpointSources := <[source_name cfg := sc_Plugin cfg]> (endpointSources r) |>)); try done;
      cbn; [intros n Hne; by rewrite lookup_insert_ne|by rewrite lookup_insert_eq].
Qed.

(** A configuration that is accepted is complete: every source is in the map of
    its kind with all its extractors, each of which passed every check, and no two
    notification sources watch the same kind of object. *)
Theorem accepted_configuration_complete interval sources enable disallowed r :
  Configure (NewRuntime interval) (Some sources) enable disallowed = (r, None) -> NoDup (source_name <$> sources) ->
  Forall (registered disallowed r) sources /\ NoDup (omap source_gvk sources).
Proof.
  intros Hc Hnd. destruct sources as [|cfg sources]; [by split; constructor|].
  destruct (configure_one disallowed (cfg :: sources) ∅ (NewRuntime interval) r Hc Hnd) as (H1 & _ & H2 & _); [|done].
  apply Forall_true. intros c. apply lookup_empty.
Qed.
