(* ===== verification/Reconcile.v ===== *)
(** The reconcilers (src/pkg/epp/controller) and the cluster they follow: every
    change of the cluster queues a request, unless a filter drops it, and a
    reconciler brings the datastore up to date with what it then reads.

    The convergence theorem says that once the requests that are queued have been
    handled, the endpoints of the datastore are exactly those the pool wants of
    the ready pods it selects, after every history of changes, requests and failed
    reads.  Failed listings of pods are the exception, and a finding. *)

From S2P Require Import Prelude InFlight ModelRewrite DataGraph Scheduler Ordering Chunking ReqCtx Candidates Director Datastore.
From S2P Require Import DatastoreProps.

Section Reconcile.

Context {F : Type} `{!EndpointFactory F}.
Context (labels_Equals : gmap string string -> gmap string string -> bool).
Context (labels_Match : gmap string string -> gmap string string -> bool).
Context (range : gmap NamespacedName endpoint -> list (NamespacedName * endpoint)).

Abbreviation datastore := (datastore (F := F)).

(** * Reconcilers *)

(** What a [Get] returns: an object, nothing, or an error. *)
Definition got (A : Type) : Type := option A + string.

Definition InferencePool_Reconcile (get : got InferencePool) (list_pods : gmap string string -> string -> list Pod + string)
    (ds : datastore) : datastore * option string :=
  match get with
  | inr err => (ds, Some ("unable to get InferencePool - " +:+ err))
  | inl None => (Clear range ds, None)
  | inl (Some p) =>
      if ip_Deleted p then (Clear range ds, None)
      else match PoolSet labels_Equals range list_pods ds (Some (InferencePoolToEndpointPool p)) with
           | (ds, Some err) => (ds, Some ("failed to update datastore - " +:+ err))
           | (ds, None) => (ds, None)
           end
  end.

Definition updateDatastore (ds : datastore) (pod : Pod) : datastore :=
  if negb (IsPodReady pod) || negb (PoolLabelsMatch labels_Match ds (pod_Labels pod))
  then PodDelete range ds (pod_Name pod)
  else (PodUpdateOrAddIfNotExist ds pod).1.

Definition Pod_Reconcile (get : got Pod) (name : string) (ds : datastore) : datastore * option string :=
  if negb (PoolHasSynced ds) then (ds, None)
  else match get with
       | inr err => (ds, Some ("unable to get pod - " +:+ err))
       | inl None => (PodDelete range ds name, None)
       | inl (Some pod) => (updateDatastore ds pod, None)
       end.

(** The filter of pod events, for a pod that was [old] and is [new]. *)
Definition pod_filter (ds : datastore) (old new : option Pod) : bool :=
  match old, new with
  | None, None => false
  | None, Some pod | Some pod, None => PoolLabelsMatch labels_Match ds (pod_Labels pod)
  | Some oldPod, Some newPod => PoolLabelsMatch labels_Match ds (pod_Labels oldPod) || PoolLabelsMatch labels_Match ds (pod_Labels newPod)
  end.

(** The pool this process serves: name and group. *)
Context (PoolGKNN : string * string).

Definition eventPredicate (infObjective : InferenceObjective) : bool := bool_decide (obj_PoolRef infObjective = PoolGKNN).

Definition InferenceObjective_Reconcile (get : got InferenceObjective) (name : string) (ds : datastore) : datastore * option string :=
  match get with
  | inr err => (ds, Some ("unable to get InferenceObjective - " +:+ err))
  | inl None => (ObjectiveDelete ds name, None)
  | inl (Some o) =>
      if obj_Deleted o || negb (eventPredicate o) then (ObjectiveDelete ds name, None) else (ObjectiveSet ds o, None)
  end.

Definition objective_filter (old new : option InferenceObjective) : bool :=
  match old, new with
  | None, None => false
  | None, Some o | Some o, None => eventPredicate o
  | Some oldO, Some newO => eventPredicate oldO || eventPredicate newO
  end.

(** The object of the cluster that carries a rewrite. *)
Record RewriteObject := {
  rwo_Rewrite : InferenceModelRewrite;
  rwo_Deleted : bool;
  rwo_PoolRef : option (string * string)
}.

Definition rewrite_eventPredicate (infModelRewrite : RewriteObject) : bool := bool_decide (rwo_PoolRef infModelRewrite = Some PoolGKNN).

(** What [sort.Slice] makes of a list of rules. *)
Context (sort_rules : list rewriteRuleWithMetadata -> list rewriteRuleWithMetadata).

Definition InferenceModelRewrite_Reconcile (get : got RewriteObject) (name : string) (ds : datastore) : datastore * option string :=
  match get with
  | inr err => (ds, Some ("unable to get InferenceModelRewrite - " +:+ err))
  | inl None => (ModelRewriteDelete ds name, None)
  | inl (Some o) =>
      if rwo_Deleted o || negb (rewrite_eventPredicate o) then (ModelRewriteDelete ds name, None)
      else (ModelRewriteSet sort_rules ds (rwo_Rewrite o), None)
  end.

Definition rewrite_filter (old new : option RewriteObject) : bool :=
  match old, new with
  | None, None => false
  | None, Some o | Some o, None => rewrite_eventPredicate o
  | Some oldO, Some newO => rewrite_eventPredicate oldO || rewrite_eventPredicate newO
  end.

(** * The cluster *)

(** The order in which the cache lists pods. *)
Context (cache_order : gmap string Pod -> list Pod).

Record world := mkWorld {
  w_pool : option InferencePool;
  w_pods : gmap string Pod;
  w_objectives : gmap string InferenceObjective;
  w_rewrites : gmap string RewriteObject;
  w_ds : datastore;
  q_pool : bool;
  q_pods : gset string;
  q_objectives : gset string;
  q_rewrites : gset string
}.

#[export] Instance eta_world : Eta world := fun w =>
  mkWorld (w_pool w) (w_pods w) (w_objectives w) (w_rewrites w) (w_ds w) (q_pool w) (q_pods w) (q_objectives w) (q_rewrites w).

Definition new_world (f : F) (metricsPort : Z) : world :=
  mkWorld None ∅ ∅ ∅ (NewDatastore f metricsPort) false ∅ ∅ ∅.

(** A change of the cluster, or a request that is handled; the reads of a request
    may fail, and then it stays queued. *)
Inductive event :=
| PoolChanged (new : option InferencePool)
| PodChanged (name : string) (new : option Pod)
| ObjectiveChanged (name : string) (new : option InferenceObjective)
| RewriteChanged (name : string) (new : option RewriteObject)
| RunPool (getErr listErr : option string)
| RunPod (name : string) (getErr : option string)
| RunObjective (name : string) (getErr : option string)
| RunRewrite (name : string) (getErr : option string).

Definition read_object {A} (err : option string) (o : option A) : got A :=
  match err with Some e => inr e | None => inl o end.

(** The pods of the cache a selector matches. *)
Definition List_pods (pods : gmap string Pod) (err : option string) (selector : gmap string string) (ns : string) : list Pod + string :=
  match err with
  | Some e => inr e
  | None => inl (List.filter (fun pod => labels_Match selector (pod_Labels pod) && String.eqb (pod_Namespace pod) ns) (cache_order pods))
  end.

Definition exec (w : world) (e : event) : option world :=
  match e with
  | PoolChanged new => Some (w <| w_pool := new |> <| q_pool := true |>)
  | PodChanged name new =>
      let passes := pod_filter (w_ds w) (w_pods w !! name) new in
      Some (w <| w_pods := partial_alter (fun _ => new) name (w_pods w) |>
              <| q_pods := if passes then {[ name ]} ∪ q_pods w else q_pods w |>)
  | ObjectiveChanged name new =>
      let passes := objective_filter (w_objectives w !! name) new in
      Some (w <| w_objectives := partial_alter (fun _ => new) name (w_objectives w) |>
              <| q_objectives := if passes then {[ name ]} ∪ q_objectives w else q_objectives w |>)
  | RewriteChanged name new =>
      let passes := rewrite_filter (w_rewrites w !! name) new in
      Some (w <| w_rewrites := partial_alter (fun _ => new) name (w_rewrites w) |>
              <| q_rewrites := if passes then {[ name ]} ∪ q_rewrites w else q_rewrites w |>)
  | RunPool getErr listErr =>
      if q_pool w then
        let '(ds, err) := InferencePool_Reconcile (read_object getErr (w_pool w)) (List_pods (w_pods w) listErr) (w_ds w) in
        Some (w <| w_ds := ds |> <| q_pool := bool_decide (is_Some err) |>)
      else None
  | RunPod name getErr =>
      if bool_decide (name ∈ q_pods w) then
        let '(ds, err) := Pod_Reconcile (read_object getErr (w_pods w !! name)) name (w_ds w) in
        Some (w <| w_ds := ds |> <| q_pods := match err with Some _ => q_pods w | None => q_pods w ∖ {[ name ]} end |>)
      else None
  | RunObjective name getErr =>
      if bool_decide (name ∈ q_objectives w) then
        let '(ds, err) := InferenceObjective_Reconcile (read_object getErr (w_objectives w !! name)) name (w_ds w) in
        Some (w <| w_ds := ds |> <| q_objectives := match err with Some _ => q_objectives w | None => q_objectives w ∖ {[ name ]} end |>)
      else None
  | RunRewrite name getErr =>
      if bool_decide (name ∈ q_rewrites w) then
        let '(ds, err) := InferenceModelRewrite_Reconcile (read_object getErr (w_rewrites w !! name)) name (w_ds w) in
        Some (w <| w_ds := ds |> <| q_rewrites := match err with Some _ => q_rewrites w | None => q_rewrites w ∖ {[ name ]} end |>)
      else None
  end.

Definition run (w : world) (es : list event) : option world := ofold exec es w.

(** The requests that are queued, handled without failures. *)
Definition drain (w : world) : list event :=
  (if q_pool w then [RunPool None None] else []) ++ ((fun name => RunPod name None) <$> elements (q_pods w))
    ++ ((fun name => RunObjective name None) <$> elements (q_objectives w))
    ++ ((fun name => RunRewrite name None) <$> elements (q_rewrites w)).

(** * Convergence *)

Context `{!FactoryLaws F}.
Context (Hrange : forall m, range m ≡ₚ map_to_list m).
Context (Horder : forall m, cache_order m ≡ₚ snd <$> map_to_list m).
Context (Hequals : forall a b, labels_Equals a b = true -> a = b).

(** The namespace of the pool, to which the caches are restricted. *)
Context (NS : string).
Implicit Types (ds : datastore) (w : world).

Definition wanted_pool (o : option InferencePool) : option EndpointPool :=
  p ← o; if ip_Deleted p then None else Some (InferencePoolToEndpointPool p).

(** The endpoint the datastore should have for a rank of a pod of the cluster. *)
Definition expected ds (cluster : gmap string Pod) (name : string) (idx : nat) : option EndpointMetadata :=
  p ← pool ds;
  pod ← cluster !! name;
  if IsPodReady pod && labels_Match (Selector p) (pod_Labels pod) then wanted ds pod p idx else None.

(** Every endpoint is that of a rank of the pool's ports. *)
Definition shape ds : Prop := forall k m, view ds !! k = Some m ->
  exists p name idx, pool ds = Some p /\ (idx < length (TargetPorts p))%nat /\ k = (NS, rank_name name idx) /\ PodName m = name.

Record conv w : Prop := {
  cv_ok : store_ok (w_ds w);
  cv_shape : shape (w_ds w);
  cv_ns : match w_pool w with Some p => ip_Namespace p = NS | None => True end;
  cv_pods name pod : w_pods w !! name = Some pod -> pod_Name pod = name /\ pod_Namespace pod = NS;
  cv_pool : q_pool w = false -> pool (w_ds w) = wanted_pool (w_pool w);
  cv_endpoints name : name ∈ q_pods w \/
    forall idx, view (w_ds w) !! (NS, rank_name name idx) = expected (w_ds w) (w_pods w) name idx
}.

(** Events that concern the namespace; listings of pods do not fail. *)
Definition event_ok (e : event) : Prop :=
  match e with
  | PoolChanged (Some p) => ip_Namespace p = NS
  | PodChanged name (Some pod) => pod_Name pod = name /\ pod_Namespace pod = NS
  | ObjectiveChanged name (Some o) => obj_Name o = name
  | RewriteChanged name (Some o) => rw_Name (rwo_Rewrite o) = name
  | RunPool _ listErr => listErr = None
  | _ => True
  end.

Lemma wanted_rank ds pod p idx m : wanted ds pod p idx = Some m -> (idx < length (TargetPorts p))%nat.
Proof. unfold wanted. destruct (TargetPorts p !! idx) eqn:E; [|done]. intros _. by eapply lookup_lt_Some. Qed.

Lemma endpoint_name pod name idx :
  pod_Name pod = name -> pod_Namespace pod = NS -> createEndpointNamespacedName pod idx = (NS, rank_name name idx).
Proof. unfold createEndpointNamespacedName. by intros -> ->. Qed.

Lemma delete_spec ds name :
  store_ok ds -> shape ds ->
  let ds' := PodDelete range ds name in
  store_ok ds' /\ shape ds' /\ pool ds' = pool ds /\ modelServerMetricsPort ds' = modelServerMetricsPort ds /\
  forall n idx, view ds' !! (NS, rank_name n idx) = if decide (n = name) then None else view ds !! (NS, rank_name n idx).
Proof.
  intros Hok Hsh. destruct (PodDelete_ok range Hrange ds name Hok) as [Hok' Hv Hp Hm _ _]. cbv zeta.
  split; [done|]. split; [|split; [done|split; [done|]]].
  - intros k m. rewrite Hv, Hp. intros [Hk _]%map_lookup_filter_Some. by apply Hsh.
  - intros n idx. rewrite Hv. case_decide as Hn; [subst n|].
    + apply map_lookup_filter_None_2. right. intros m Hm' Hne. destruct (Hsh _ _ Hm') as (p & n & i & _ & _ & [= Hr] & Hpn).
      apply rank_name_inj in Hr as [-> _]. cbn in Hne. by rewrite Hpn, String.eqb_refl in Hne.
    + rewrite map_lookup_filter. destruct (view ds !! _) as [m|] eqn:Hm'; [|done]. cbn.
      destruct (Hsh _ _ Hm') as (p & n' & i & _ & _ & [= Hr] & Hpn). apply rank_name_inj in Hr as [<- _].
      rewrite option_guard_True; [done|]. rewrite Hpn. by apply String.eqb_neq.
Qed.

Lemma update_spec ds pod p name :
  store_ok ds -> shape ds -> pool ds = Some p -> pod_Name pod = name -> pod_Namespace pod = NS ->
  let ds' := (PodUpdateOrAddIfNotExist ds pod).1 in
  store_ok ds' /\ shape ds' /\ pool ds' = pool ds /\ modelServerMetricsPort ds' = modelServerMetricsPort ds /\
  forall n idx, view ds' !! (NS, rank_name n idx) = if decide (n = name) then wanted ds pod p idx else view ds !! (NS, rank_name n idx).
Proof.
  intros Hok Hsh Hpool Hn Hns. unfold PodUpdateOrAddIfNotExist. rewrite Hpool.
  destruct (pod_update_ok range Hrange ds pod p Hok) as (v & [Hok' Hv Hp Hm _ _] & Hin & Hout). cbv zeta.
  assert (Hat : forall n idx, v !! (NS, rank_name n idx) = if decide (n = name) then wanted ds pod p idx else view ds !! (NS, rank_name n idx)).
  { intros n idx. case_decide as Hd; [subst n|].
    - rewrite <- (endpoint_name pod name idx Hn Hns). destruct (decide (idx < length (TargetPorts p))%nat) as [Hi|Hi]; [by apply Hin|].
      rewrite Hout; [|intros i Hi' Heq; apply endpoint_name_inj in Heq as (_ & _ & ->); lia].
      destruct (wanted ds pod p idx) eqn:Hw; [by apply wanted_rank in Hw|].
      destruct (view ds !! _) as [m|] eqn:Hm'; [|done]. exfalso. destruct (Hsh _ _ Hm') as (p' & n & i & Hp' & Hi' & Heq & _).
      rewrite (endpoint_name pod name idx Hn Hns) in Heq. injection Heq as Heq. apply rank_name_inj in Heq as [_ ->]. congruence.
    - apply Hout. intros i _ Heq. rewrite (endpoint_name pod name i Hn Hns) in Heq. injection Heq as Heq.
      by apply rank_name_inj in Heq as [-> _]. }
  split; [done|]. split; [|split; [by rewrite Hp|split; [done|intros n idx; by rewrite Hv]]].
  intros k m Hk. rewrite Hv in Hk. rewrite Hp, Hpool.
  destruct (decide (k ∈ createEndpointNamespacedName pod <$> seq 0 (length (TargetPorts p)))) as [Hk'|Hno].
  - apply list_elem_of_fmap in Hk' as (idx & -> & [_ Hi]%elem_of_seq). cbn in Hi. rewrite Hin in Hk by done. exists p, name, idx. split_and!; try done; [by apply endpoint_name|].
    apply wanted_nn in Hk as [_ ->]. done.
  - rewrite Hout in Hk; [|intros idx Hi ->; apply Hno, list_elem_of_fmap_2, elem_of_seq; lia]. rewrite <- Hpool. by apply Hsh.
Qed.

Lemma expected_same ds ds' cluster name idx :
  pool ds' = pool ds -> modelServerMetricsPort ds' = modelServerMetricsPort ds ->
  expected ds' cluster name idx = expected ds cluster name idx.
Proof. intros Hp Hm. unfold expected. rewrite Hp. destruct (pool ds); [|done]. cbn. destruct (cluster !! name); [|done]. cbn. by rewrite (wanted_same ds ds'). Qed.

(** The request of one pod is handled: its endpoints are the expected ones, and
    those of other pods are as they were. *)
Lemma handled_ok w name ds' :
  conv w -> store_ok ds' -> shape ds' -> pool ds' = pool (w_ds w) -> modelServerMetricsPort ds' = modelServerMetricsPort (w_ds w) ->
  (forall n idx, view ds' !! (NS, rank_name n idx) =
    if decide (n = name) then expected (w_ds w) (w_pods w) name idx else view (w_ds w) !! (NS, rank_name n idx)) ->
  conv (w <| w_ds := ds' |> <| q_pods := q_pods w ∖ {[ name ]} |>).
Proof.
  intros [Hok Hsh Hns Hpods Hpool Hep] Hok' Hsh' Hp Hm Hv. split; cbn; try done; [by intros; rewrite Hp; apply Hpool|].
  intros n. destruct (decide (n = name)) as [->|Hne].
  - right. intros idx. rewrite Hv, decide_True by done. symmetry. by apply expected_same.
  - destruct (Hep n) as [Hq|He]; [left; set_solver|]. right. intros idx. rewrite Hv, decide_False by done. rewrite He.
    symmetry. by apply expected_same.
Qed.

Lemma run_pod_ok w name getErr w' :
  conv w -> exec w (RunPod name getErr) = Some w' -> conv w'.
Proof.
  intros Hcv. cbn. case_bool_decide as Hq; [|done]. unfold Pod_Reconcile.
  pose proof Hcv as [Hok Hsh Hns Hpods Hpool Hep]. destruct (pool (w_ds w)) as [p|] eqn:Hp.
  - assert (Hsync : PoolHasSynced (w_ds w) = true) by (unfold PoolHasSynced; rewrite Hp; by apply bool_decide_eq_true_2).
    rewrite Hsync. cbn [negb]. destruct getErr as [err|]; cbn [read_object].
    { intros [= <-]. by destruct w. }
    destruct (delete_spec (w_ds w) name Hok Hsh) as (Hok1 & Hsh1 & Hp1 & Hm1 & Hv1).
    assert (Hdel : (forall idx, expected (w_ds w) (w_pods w) name idx = None) ->
      conv (w <| w_ds := PodDelete range (w_ds w) name |> <| q_pods := q_pods w ∖ {[ name ]} |>)).
    { intros Hnone. apply handled_ok; try done. intros n idx. rewrite Hv1. case_decide; [by rewrite Hnone|done]. }
    destruct (w_pods w !! name) as [pod|] eqn:Hpod; intros [= <-].
    + destruct (Hpods name pod Hpod) as [Hn Hpns]. unfold updateDatastore, PoolLabelsMatch. rewrite Hp.
      assert (Hexp : forall idx, expected (w_ds w) (w_pods w) name idx =
        if IsPodReady pod && labels_Match (Selector p) (pod_Labels pod) then wanted (w_ds w) pod p idx else None).
      { intros idx. unfold expected. by rewrite Hp, Hpod. }
      destruct (IsPodReady pod), (labels_Match (Selector p) (pod_Labels pod)); cbn [negb orb andb] in *;
        [|rewrite Hn; by apply Hdel..].
      destruct (update_spec (w_ds w) pod p name Hok Hsh Hp Hn Hpns) as (Hok2 & Hsh2 & Hp2 & Hm2 & Hv2).
      apply handled_ok; try done. intros n idx. rewrite Hv2. case_decide; [by rewrite Hexp|done].
    + apply Hdel. intros idx. unfold expected. by rewrite Hp, Hpod.
  - assert (Hsync : PoolHasSynced (w_ds w) = false) by (unfold PoolHasSynced; rewrite Hp; by apply bool_decide_eq_false_2; intros []).
    rewrite Hsync. intros [= <-]. apply handled_ok; try done. intros n idx. case_decide; [subst n|done].
    unfold expected. rewrite Hp. cbn. destruct (view (w_ds w) !! (NS, rank_name name idx)) as [m|] eqn:Hm; [|done].
    destruct (Hsh _ _ Hm) as (p & _ & _ & Hp' & _). congruence.
Qed.

Lemma pod_changed_ok w name new w' :
  conv w -> event_ok (PodChanged name new) -> exec w (PodChanged name new) = Some w' -> conv w'.
Proof.
  intros [Hok Hsh Hns Hpods Hpool Hep] Hev [= <-]. split; cbn; try done.
  - intros n pod. rewrite lookup_partial_alter. case_decide as Hn; [subst n; intros ->; exact Hev|apply Hpods].
  - assert (Hother : forall n idx, n <> name ->
      expected (w_ds w) (partial_alter (fun _ => new) name (w_pods w)) n idx = expected (w_ds w) (w_pods w) n idx).
    { intros n idx Hne. unfold expected. by rewrite lookup_partial_alter_ne. }
    intros n. destruct (decide (n = name)) as [->|Hne].
    2: { destruct (Hep n) as [Hq|He]; [left; destruct (pod_filter _ _ _); [apply elem_of_union_r|]; done|]. right. intros idx. by rewrite Hother. }
    destruct (pod_filter _ _ _) eqn:Hpass; [left; by apply elem_of_union_l, elem_of_singleton_2|]. destruct (Hep name) as [Hq|He]; [by left|]. right.
    intros idx. rewrite He. unfold expected. rewrite lookup_partial_alter_eq. destruct (pool (w_ds w)) as [p|] eqn:Hp; [|done]. cbn.
    unfold pod_filter, PoolLabelsMatch in Hpass. rewrite Hp in Hpass.
    destruct (w_pods w !! name) as [old|], new as [pod|]; cbn in *; try done;
      [apply orb_false_iff in Hpass as [-> ->]|rewrite Hpass|rewrite Hpass]; by rewrite ?andb_false_r.
Qed.

Lemma listed_pods w selector pod :
  conv w ->
  pod ∈ List.filter (fun pod => labels_Match selector (pod_Labels pod) && String.eqb (pod_Namespace pod) NS) (cache_order (w_pods w)) <->
  w_pods w !! pod_Name pod = Some pod /\ labels_Match selector (pod_Labels pod) = true.
Proof.
  intros Hcv. rewrite list_elem_of_In, List.filter_In, <- list_elem_of_In, Horder, andb_true_iff, list_elem_of_fmap. split.
  - intros [([n q] & -> & Hin%elem_of_map_to_list) [Hm _]]. cbn in *. destruct (cv_pods w Hcv n q Hin) as [-> _]. done.
  - intros [Hin Hm]. split_and!; [|done|].
    + exists (pod_Name pod, pod). split; [done|]. by apply elem_of_map_to_list.
    + apply String.eqb_eq. by destruct (cv_pods w Hcv _ _ Hin).
Qed.

Lemma listed_nodup w f : conv w -> NoDup (pod_key <$> List.filter f (cache_order (w_pods w))).
Proof.
  intros Hcv. apply NoDup_fmap_2_strong.
  - intros x y Hx Hy [= _ Heq]. rewrite list_elem_of_In in Hx, Hy. apply List.filter_In in Hx as [Hx _], Hy as [Hy _].
    rewrite <- list_elem_of_In, Horder in Hx, Hy.
    apply list_elem_of_fmap in Hx as ([nx x'] & -> & Hx%elem_of_map_to_list), Hy as ([ny y'] & -> & Hy%elem_of_map_to_list). cbn in *.
    destruct (cv_pods w Hcv _ _ Hx) as [Hx' _], (cv_pods w Hcv _ _ Hy) as [Hy' _]. congruence.
  - apply NoDup_ListNoDup, List.NoDup_filter, NoDup_ListNoDup. rewrite Horder. apply NoDup_fmap_2_strong; [|apply NoDup_map_to_list].
    intros [nx x] [ny y] Hx%elem_of_map_to_list Hy%elem_of_map_to_list Heq. cbn in Heq. subst y.
    destruct (cv_pods w Hcv _ _ Hx) as [Hx' _], (cv_pods w Hcv _ _ Hy) as [Hy' _]. congruence.
Qed.

(** The pool is set: the endpoints are the expected ones of all pods, or they and
    what is expected are as before. *)
Lemma pool_set_spec w p :
  conv w -> ip_Namespace p = NS ->
  let P := InferencePoolToEndpointPool p in
  exists ds', PoolSet labels_Equals range (List_pods (w_pods w) None) (w_ds w) (Some P) = (ds', None) /\
    store_ok ds' /\ shape ds' /\ pool ds' = Some P /\ rest ds' = rest (w_ds w) /\
    ((forall name idx, view ds' !! (NS, rank_name name idx) = expected ds' (w_pods w) name idx) \/
     view ds' = view (w_ds w) /\ forall name idx, expected ds' (w_pods w) name idx = expected (w_ds w) (w_pods w) name idx).
Proof.
  intros Hcv Hns P. pose proof Hcv as [Hok Hsh _ Hpods Hpool Hep]. unfold PoolSet.
  set (ds0 := w_ds w <| pool := Some P |>).
  set (changed := match pool (w_ds w) with None => true | Some old => _ end || _).
  destruct changed eqn:Hch; subst changed.
  - assert (Hok0 : store_ok ds0) by (by destruct Hok).
    assert (Hlist : List_pods (w_pods w) None (Selector P) (ep_Namespace P) = inl (List.filter (fun pod =>
      labels_Match (Selector P) (pod_Labels pod) && String.eqb (pod_Namespace pod) NS) (cache_order (w_pods w)))).
    { unfold List_pods. cbn. by rewrite Hns. }
    destruct (podResyncAll_ok range Hrange (List_pods (w_pods w) None) ds0 P _ Hok0 Hlist (listed_nodup w _ Hcv))
      as (v & ds' & -> & Hbe & Hiff). pose proof (eb_rest _ _ _ Hbe) as Ho. destruct Hbe as [Hok' Hv Hp Hm _ _ _].
    exists ds'. split; [done|]. split; [done|]. split; [|split; [done|split; [exact Ho|left]]].
    + intros k m. rewrite Hv, Hp. intros (pod & idx & Hin & _ & -> & Hw)%Hiff. apply (listed_pods w _ _ Hcv) in Hin as [Hin _].
      destruct (Hpods _ _ Hin) as [_ Hpns]. exists P, (pod_Name pod), idx. split; [done|]. split; [by eapply wanted_rank|].
      split; [by apply endpoint_name|]. by apply wanted_nn in Hw as [_ ->].
    + intros name idx. rewrite Hv. apply option_eq. intros m. rewrite Hiff. unfold expected. rewrite Hp. change (pool ds0) with (Some P).
      cbn [mbind option_bind]. split.
      * intros (pod & i & Hin & Hr & Heq & Hw). apply (listed_pods w _ _ Hcv) in Hin as [Hin Hmatch].
        destruct (Hpods _ _ Hin) as [_ Hpns]. rewrite (endpoint_name pod (pod_Name pod) i eq_refl Hpns) in Heq.
        injection Heq as Heq. apply rank_name_inj in Heq as [-> ->]. rewrite Hin. cbn [mbind option_bind]. rewrite Hr, Hmatch. cbn [andb].
        rewrite <- Hw. by apply wanted_same.
      * destruct (w_pods w !! name) as [pod|] eqn:Hin; [|done]. cbn [mbind option_bind]. destruct (Hpods _ _ Hin) as [Hn Hpns].
        destruct (IsPodReady pod) eqn:Hr, (labels_Match _ _) eqn:Hmatch; cbn [andb]; try done. intros Hw. exists pod, idx.
        split; [apply (listed_pods w _ _ Hcv); by rewrite Hn|]. split; [done|]. split; [symmetry; by apply endpoint_name|].
        rewrite <- Hw. symmetry. by apply wanted_same.
  - destruct (pool (w_ds w)) as [old|] eqn:Hold; [|done]. apply orb_false_iff in Hch as [Hsel Hports].
    apply negb_false_iff, Hequals in Hsel. apply negb_false_iff, bool_decide_eq_true in Hports.
    exists ds0. split; [done|]. split; [by destruct Hok|]. split; [|split; [done|split; [done|right; split; [done|]]]].
    + intros k m Hk. destruct (Hsh k m Hk) as (p' & n & i & Hp' & Hi & Heq). rewrite Hold in Hp'. injection Hp' as <-.
      exists P, n, i. split; [done|]. rewrite <- Hports. done.
    + intros name idx. unfold expected. rewrite Hold. change (pool ds0) with (Some P). cbn [mbind option_bind].
      destruct (w_pods w !! name) as [pod|]; [|done]. cbn [mbind option_bind]. rewrite <- Hsel. unfold wanted. by rewrite <- Hports.
Qed.

Lemma shape_empty ds : view ds = ∅ -> shape ds.
Proof. intros Hv k m. by rewrite Hv, lookup_empty. Qed.

Lemma expected_pool_none ds cluster name idx : pool ds = None -> expected ds cluster name idx = None.
Proof. unfold expected. by intros ->. Qed.

Lemma run_pool_ok w getErr w' :
  conv w -> exec w (RunPool getErr None) = Some w' -> conv w'.
Proof.
  intros Hcv. unfold exec. destruct (q_pool w) eqn:Hq; [|done]. unfold InferencePool_Reconcile.
  pose proof Hcv as [Hok Hsh Hns Hpods Hpool Hep]. destruct getErr as [err|]; cbn [read_object].
  { intros [= <-]. split; done. }
  destruct (Clear_ok range Hrange (w_ds w) Hok) as (Hok1 & Hv1 & Hp1 & _).
  assert (Hclear : wanted_pool (w_pool w) = None ->
    conv (w <| w_ds := Clear range (w_ds w) |> <| q_pool := bool_decide (is_Some (@None string)) |>)).
  { intros Hw. split; [exact Hok1| |exact Hns|exact Hpods| |].
    - apply (shape_empty (Clear range (w_ds w))), Hv1.
    - intros _. etrans; [exact Hp1|symmetry; exact Hw].
    - intros name. right. intros idx. etrans; [apply (f_equal (lookup _)), Hv1|]. rewrite lookup_empty. symmetry.
      etrans; [apply (expected_pool_none (Clear range (w_ds w))), Hp1|done]. }
  intros Hex. destruct (w_pool w) as [p|] eqn:Hwp; [|injection Hex as <-; by apply Hclear].
  destruct (ip_Deleted p) eqn:Hdel; [injection Hex as <-; apply Hclear; cbn; by rewrite Hdel|].
  destruct (pool_set_spec w p Hcv Hns) as (ds' & Hps & Hok' & Hsh' & Hp' & _ & Hend). rewrite Hps in Hex. injection Hex as <-. split; cbn; try done.
  - by rewrite Hwp.
  - intros _. rewrite Hwp, Hp'. cbn. by rewrite Hdel.
  - intros name. destruct Hend as [Hend|[Hv Hexp]]; [by right|]. rewrite Hv. destruct (Hep name) as [?|He]; [by left|].
    right. intros idx. by rewrite Hexp.
Qed.

(** Objectives and rewrites do not matter to the endpoints. *)
Lemma objectives_ok w objs q :
  conv w -> conv (w <| w_ds := w_ds w <| objectives := objs |> |> <| q_objectives := q |>).
Proof. intros [[Hk Hl Ht] Hsh Hns Hpods Hpool Hep]. by split. Qed.

Lemma rewrites_ok w rws q :
  conv w -> conv (w <| w_ds := w_ds w <| modelRewrites := rws |> |> <| q_rewrites := q |>).
Proof. intros [[Hk Hl Ht] Hsh Hns Hpods Hpool Hep]. by split. Qed.

Lemma reconcile_exec_ok w e w' : conv w -> event_ok e -> exec w e = Some w' -> conv w'.
Proof.
  intros Hcv Hev Hex. destruct e as [new|name new|name new|name new|getErr listErr|name getErr|name getErr|name getErr].
  - destruct Hcv. injection Hex as <-. by split.
  - by eapply pod_changed_ok.
  - destruct Hcv. injection Hex as <-. by split.
  - destruct Hcv. injection Hex as <-. by split.
  - cbn in Hev. subst listErr. by eapply run_pool_ok.
  - by eapply run_pod_ok.
  - unfold exec in Hex. case_bool_decide; [|done]. unfold InferenceObjective_Reconcile in Hex.
    destruct (read_object _ _) as [[o|]|err]; [destruct (_ || _)|..]; injection Hex as <-.
    1-3: by apply objectives_ok. by destruct Hcv.
  - unfold exec in Hex. case_bool_decide; [|done]. unfold InferenceModelRewrite_Reconcile in Hex.
    destruct (read_object _ _) as [[o|]|err]; [destruct (_ || _)|..]; injection Hex as <-.
    1-3: by apply rewrites_ok. by destruct Hcv.
Qed.

Lemma run_conv es : forall w w', conv w -> Forall event_ok es -> run w es = Some w' -> conv w'.
Proof.
  induction es as [|e es IH]; intros w w' Hcv Hev Hrun; [by injection Hrun as <-|]. apply Forall_cons in Hev as [He Hev].
  cbn in Hrun. destruct (exec w e) as [w1|] eqn:Hex; [|done]. eapply IH; [by eapply reconcile_exec_ok|done|done].
Qed.

(** Handling the queued requests empties the queues. *)
Lemma run_pool_drains w :
  conv w -> exists w', run w (if q_pool w then [RunPool None None] else []) = Some w' /\ q_pool w' = false /\
    (w_pool w', w_pods w', w_objectives w', w_rewrites w') = (w_pool w, w_pods w, w_objectives w, w_rewrites w) /\
    (q_pods w', q_objectives w', q_rewrites w') = (q_pods w, q_objectives w, q_rewrites w).
Proof.
  intros Hcv. destruct (q_pool w) eqn:Hq; [|by exists w]. unfold run. cbn [ofold]. unfold exec. rewrite Hq.
  unfold InferencePool_Reconcile. cbn [read_object].
  destruct (w_pool w) as [p|] eqn:Hwp; [destruct (ip_Deleted p)|];
    [eexists; split; [reflexivity|by rewrite <- Hwp]| |eexists; split; [reflexivity|by rewrite <- Hwp]].
  pose proof (cv_ns w Hcv) as Hns. rewrite Hwp in Hns. destruct (pool_set_spec w p Hcv Hns) as (ds' & -> & _).
  eexists. split; [reflexivity|]. by rewrite <- Hwp.
Qed.

(** Requests that each take their name off a queue and keep the rest. *)
Lemma run_drains {K} (request : string -> event) (queue : world -> gset string) (keep : world -> K) :
  (forall w n, n ∈ queue w -> exists w', exec w (request n) = Some w' /\ queue w' = queue w ∖ {[ n ]} /\ keep w' = keep w) ->
  forall w, exists w', run w (request <$> elements (queue w)) = Some w' /\ queue w' = ∅ /\ keep w' = keep w.
Proof.
  intros Hstep w.
  assert (Hgo : forall names w, NoDup names -> (forall n, n ∈ names -> n ∈ queue w) ->
    exists w', run w (request <$> names) = Some w' /\ queue w' = queue w ∖ list_to_set names /\ keep w' = keep w).
  { clear w. induction names as [|n names IH]; intros w Hnd Hin.
    - exists w. split; [done|]. split; [|done]. cbn. by rewrite difference_empty_L.
    - apply NoDup_cons in Hnd as [Hn Hnd]. destruct (Hstep w n) as (w1 & Hex & Hq & Hk); [apply Hin; left|].
      destruct (IH w1 Hnd) as (w' & Hrun & Hq' & Hk').
      { intros x Hx. rewrite Hq. assert (x <> n) by (by intros ->). specialize (Hin x (list_elem_of_further _ _ _ Hx)). set_solver. }
      exists w'. unfold run in *. cbn [fmap list_fmap ofold]. rewrite Hex. split; [exact Hrun|]. rewrite Hq', Hq, Hk', Hk. split; [|done].
      cbn. set_solver. }
  destruct (Hgo (elements (queue w)) w) as (w' & Hrun & Hq & Hk); [apply NoDup_elements|by intros n; rewrite elem_of_elements|].
  exists w'. split; [done|]. split; [|done]. rewrite Hq, list_to_set_elements_L. set_solver.
Qed.

(** Handling everything that is queued, without failures, empties the queues. *)
Lemma drain_runs w :
  conv w -> exists w', run w (drain w) = Some w' /\ conv w' /\
    (q_pool w', q_pods w', q_objectives w', q_rewrites w') = (false, ∅, ∅, ∅) /\
    (w_pool w', w_pods w', w_objectives w', w_rewrites w') = (w_pool w, w_pods w, w_objectives w, w_rewrites w).
Proof.
  intros Hcv. destruct (run_pool_drains w Hcv) as (w1 & Hr1 & Hq1 & Hk1 & Hqs). injection Hqs as Hqp Hqo Hqr.
  set (kept w := (w_pool w, w_pods w, w_objectives w, w_rewrites w)) in *.
  destruct (run_drains (fun n => RunPod n None) q_pods (fun w => (q_pool w, q_objectives w, q_rewrites w, kept w))) with (w := w1)
    as (w2 & Hr2 & Hq2 & Hk2).
  { intros w0 n Hn. unfold exec. rewrite bool_decide_eq_true_2 by done. unfold Pod_Reconcile. cbn [read_object].
    destruct (negb _); [by eexists|]. destruct (w_pods w0 !! n); by eexists. }
  injection Hk2 as Hp2 Ho2 Hr2' Hk2.
  destruct (run_drains (fun n => RunObjective n None) q_objectives (fun w => (q_pool w, q_pods w, q_rewrites w, kept w))) with (w := w2)
    as (w3 & Hr3 & Hq3 & Hk3).
  { intros w0 n Hn. unfold exec. rewrite bool_decide_eq_true_2 by done. unfold InferenceObjective_Reconcile. cbn [read_object].
    destruct (w_objectives w0 !! n) as [o|]; [destruct (_ || _)|]; by eexists. }
  injection Hk3 as Hp3 Ho3 Hr3' Hk3.
  destruct (run_drains (fun n => RunRewrite n None) q_rewrites (fun w => (q_pool w, q_pods w, q_objectives w, kept w))) with (w := w3)
    as (w4 & Hr4 & Hq4 & Hk4).
  { intros w0 n Hn. unfold exec. rewrite bool_decide_eq_true_2 by done. unfold InferenceModelRewrite_Reconcile. cbn [read_object].
    destruct (w_rewrites w0 !! n) as [o|]; [destruct (_ || _)|]; by eexists. }
  injection Hk4 as Hp4 Ho4 Hr4' Hk4. exists w4.
  assert (Hdrain : run w (drain w) = Some w4).
  { unfold run, drain in *. rewrite <- Hqp, <- Hqo, <- Hqr, <- Ho2, <- Hr2', <- Hr3'. rewrite ofold_app, Hr1. cbn [mbind option_bind].
    rewrite ofold_app, Hr2. cbn [mbind option_bind]. rewrite ofold_app, Hr3. exact Hr4. }
  split; [done|]. split; [|split; [congruence|unfold kept in *; congruence]].
  eapply run_conv; [exact Hcv| |exact Hdrain]. unfold drain. rewrite !Forall_app, !Forall_fmap.
  split; [by destruct (q_pool w); repeat constructor|]. split_and!; by apply Forall_true.
Qed.

Lemma new_world_conv f port : live f = ∅ -> conv (new_world f port).
Proof.
  intros Hl. split; [split|..]; cbn; try done; [by rewrite Hl; set_solver|].
  intros name. right. intros idx. unfold view. cbn. by rewrite fmap_empty, lookup_empty.
Qed.

(** When nothing is queued, the endpoints are those of the cluster. *)
Lemma conv_quiet w :
  conv w -> q_pool w = false -> q_pods w = ∅ ->
  forall k m, view (w_ds w) !! k = Some m <-> exists p pod idx, wanted_pool (w_pool w) = Some p /\
    w_pods w !! pod_Name pod = Some pod /\ IsPodReady pod = true /\ labels_Match (Selector p) (pod_Labels pod) = true /\
    k = createEndpointNamespacedName pod idx /\ wanted (w_ds w) pod p idx = Some m.
Proof.
  intros [Hok Hsh Hns Hpods Hpool Hep] Hq1 Hq2 k m. specialize (Hpool Hq1).
  assert (He : forall name idx, view (w_ds w) !! (NS, rank_name name idx) = expected (w_ds w) (w_pods w) name idx).
  { intros name. destruct (Hep name) as [Hq|He]; [rewrite Hq2 in Hq; set_solver|done]. }
  rewrite <- Hpool. split.
  - intros Hm. destruct (Hsh k m Hm) as (p & name & idx & Hp & _ & -> & _). rewrite He in Hm. unfold expected in Hm. rewrite Hp in Hm.
    cbn [mbind option_bind] in Hm. destruct (w_pods w !! name) as [pod|] eqn:Hpod; [|done]. cbn [mbind option_bind] in Hm.
    destruct (IsPodReady pod) eqn:Hr, (labels_Match _ _) eqn:Hmt; cbn [andb] in Hm; try done.
    destruct (Hpods _ _ Hpod) as [Hn Hpns]. exists p, pod, idx. rewrite Hn. split_and!; try done. symmetry. by apply endpoint_name.
  - intros (p & pod & idx & Hp & Hpod & Hr & Hmt & -> & Hw). destruct (Hpods _ _ Hpod) as [_ Hpns].
    rewrite (endpoint_name pod (pod_Name pod) idx eq_refl Hpns), He. unfold expected. rewrite Hp. cbn [mbind option_bind].
    rewrite Hpod. cbn [mbind option_bind]. by rewrite Hr, Hmt.
Qed.

(** C6: The datastore converges to the cluster, as long as no listing of pods
    fails.  Take any history of changes of the pool, the pods, the objectives and
    the rewrites in the namespace, of queued requests handled in any order but
    one at a time, and of reads of single objects that failed.  Handling the
    requests that are queued then terminates and leaves exactly the endpoints the
    pool of the cluster wants: one for every active port of every ready pod its
    selector matches, with the metadata of that pod, and none for any other.  A
    failed listing is not made good
    ([DatastoreClaims.failed_resync_not_retried]), nor is a pod update that
    overlaps with a change of the pool
    ([DatastoreClaims.stale_pool_leaves_endpoint]). *)
Theorem datastore_converges f port es w :
  live f = ∅ -> Forall event_ok es -> run (new_world f port) es = Some w ->
  exists w', run w (drain w) = Some w' /\ w_pool w' = w_pool w /\ w_pods w' = w_pods w /\
    forall k m, view (w_ds w') !! k = Some m <-> exists p pod idx, wanted_pool (w_pool w) = Some p /\
      w_pods w !! pod_Name pod = Some pod /\ IsPodReady pod = true /\ labels_Match (Selector p) (pod_Labels pod) = true /\
      k = createEndpointNamespacedName pod idx /\ wanted (w_ds w') pod p idx = Some m.
Proof.
  intros Hf Hes Hrun. assert (Hcv : conv w) by (eapply run_conv; [by apply new_world_conv|done|done]).
  destruct (drain_runs w Hcv) as (w' & Hdr & Hcv' & Hq & Hk). injection Hq as Hq1 Hq2 _ _. injection Hk as Hk1 Hk2 _ _.
  exists w'. split; [done|]. split; [done|]. split; [done|]. rewrite <- Hk1, <- Hk2. by apply conv_quiet.
Qed.

End Reconcile.
