(* ===== verification/ReconcileObjects.v ===== *)
(** The objectives and rewrites of the datastore follow those of the cluster as
    long as the pool is not deleted, and the collectors of the data layer follow
    the endpoints. *)

From S2P Require Import Prelude InFlight ModelRewrite ModelRewriteProps DataGraph Scheduler Ordering Chunking ReqCtx Candidates Director.
From S2P Require Import Datastore DatastoreProps Runtime Reconcile.

(** * Objects that are mirrored *)

Section Mirror.

Context {O V : Type} (expect : O -> option V).

(** What the store has of every name that is not queued is what is expected of
    the object of the cluster. *)
Definition mirror (cluster : gmap string O) (queue : gset string) (store : gmap string V) : Prop :=
  forall name, name ∈ queue \/ store !! name = cluster !! name ≫= expect.

Lemma mirror_changed (serves : O -> bool) cluster queue store name new :
  (forall o, serves o = false -> expect o = None) ->
  let passes := match cluster !! name, new with
                | None, None => false
                | None, Some o | Some o, None => serves o
                | Some o, Some o' => serves o || serves o'
                end in
  mirror cluster queue store ->
  mirror (partial_alter (fun _ => new) name cluster) (if passes then {[ name ]} ∪ queue else queue) store.
Proof.
  cbv zeta. intros Hexpect Hm n. destruct (decide (n = name)) as [->|Hne].
  - rewrite lookup_partial_alter_eq. destruct (Hm name) as [Hq|Hs]; [left; case_match; set_solver|].
    destruct (cluster !! name) as [o|], new as [o'|]; cbn in *.
    + destruct (serves o) eqn:Ho; [left; set_solver|]. destruct (serves o') eqn:Ho'; [left; set_solver|]. right.
      by rewrite Hs, !Hexpect.
    + destruct (serves o) eqn:Ho; [left; set_solver|]. right. by rewrite Hs, Hexpect.
    + destruct (serves o') eqn:Ho'; [left; set_solver|]. right. by rewrite Hs, Hexpect.
    + by right.
  - rewrite lookup_partial_alter_ne by done. destruct (Hm n) as [Hq|Hs]; [left; case_match; set_solver|by right].
Qed.

Lemma mirror_handled cluster queue store store' name :
  mirror cluster queue store -> store' !! name = cluster !! name ≫= expect ->
  (forall n, n <> name -> store' !! n = store !! n) -> mirror cluster (queue ∖ {[ name ]}) store'.
Proof.
  intros Hm Hn Hother n. destruct (decide (n = name)) as [->|Hne]; [by right|].
  rewrite Hother by done. destruct (Hm n) as [Hq|Hs]; [left; set_solver|by right].
Qed.

Lemma mirror_quiet cluster store : mirror cluster ∅ store -> forall name, store !! name = cluster !! name ≫= expect.
Proof. intros Hm name. destruct (Hm name) as [Hq|Hs]; [set_solver|done]. Qed.

End Mirror.

Section Objects.

Context {F : Type} `{!EndpointFactory F} `{!FactoryLaws F}.
Context (labels_Equals labels_Match : gmap string string -> gmap string string -> bool).
Context (range : gmap NamespacedName endpoint -> list (NamespacedName * endpoint)).
Context (PoolGKNN : string * string).
Context (sort_rules : list rewriteRuleWithMetadata -> list rewriteRuleWithMetadata).
Context (cache_order : gmap string Pod -> list Pod).
Context (Hrange : forall m, range m ≡ₚ map_to_list m).
Context (Horder : forall m, cache_order m ≡ₚ snd <$> map_to_list m).
Context (Hequals : forall a b, labels_Equals a b = true -> a = b).
Context (Hsort : sorts sort_rules).
Context (NS : string).

Abbreviation exec := (exec (F := F) labels_Equals labels_Match range PoolGKNN sort_rules cache_order).
Abbreviation run := (run (F := F) labels_Equals labels_Match range PoolGKNN sort_rules cache_order).
Abbreviation conv := (conv (F := F) labels_Match NS).
Abbreviation event_ok := (event_ok NS).
Abbreviation run_conv := (run_conv labels_Equals labels_Match range PoolGKNN sort_rules cache_order Hrange Horder Hequals NS).
Implicit Types (w : world (F := F)).

(** The objects of the cluster that are for this pool. *)
Definition expected_objective (o : InferenceObjective) : option InferenceObjective :=
  if obj_Deleted o || negb (eventPredicate PoolGKNN o) then None else Some o.

Definition expected_rewrite (o : RewriteObject) : option InferenceModelRewrite :=
  if rwo_Deleted o || negb (rewrite_eventPredicate PoolGKNN o) then None else Some (rwo_Rewrite o).

Lemma expected_objective_served o : eventPredicate PoolGKNN o = false -> expected_objective o = None.
Proof. unfold expected_objective. intros ->. by rewrite orb_true_r. Qed.

Lemma expected_rewrite_served o : rewrite_eventPredicate PoolGKNN o = false -> expected_rewrite o = None.
Proof. unfold expected_rewrite. intros ->. by rewrite orb_true_r. Qed.

Abbreviation objectives_mirror := (mirror expected_objective).
Abbreviation rewrites_mirror := (mirror expected_rewrite).

Record objects_ok w : Prop := {
  oo_objectives : objectives_mirror (w_objectives w) (q_objectives w) (objectives (w_ds w));
  oo_rewrites : rewrites_mirror (w_rewrites w) (q_rewrites w) (allReWrites (modelRewrites (w_ds w)));
  oo_store : ModelRewriteProps.store_ok (modelRewrites (w_ds w));
  oo_onames name o : w_objectives w !! name = Some o -> obj_Name o = name;
  oo_rnames name o : w_rewrites w !! name = Some o -> rw_Name (rwo_Rewrite o) = name;
  oo_pool : q_pool w = true -> is_Some (wanted_pool (w_pool w))
}.

(** The pool is never deleted. *)
Definition keeps_pool (e : event) : Prop :=
  match e with PoolChanged new => is_Some (wanted_pool new) | _ => True end.

(** Requests of the pool and of pods leave objectives and rewrites alone. *)
Lemma run_pod_rest w name getErr w' :
  conv w -> exec w (RunPod name getErr) = Some w' ->
  exists ds q, w' = w <| w_ds := ds |> <| q_pods := q |> /\ rest ds = rest (w_ds w).
Proof.
  intros Hcv. cbn. case_bool_decide as Hq; [|done]. unfold Pod_Reconcile. pose proof (cv_ok _ _ _ Hcv) as Hok.
  destruct (negb _); [intros [= <-]; by eexists _, _|].
  destruct (read_object getErr (w_pods w !! name)) as [[pod|]|err]; intros [= <-]; eexists _, _; (split; [reflexivity|]); [| |done].
  - unfold updateDatastore. destruct (_ || _); [by eapply eb_rest, PodDelete_ok|]. unfold PodUpdateOrAddIfNotExist.
    destruct (pool (w_ds w)) as [p|]; [|done]. destruct (pod_update_ok range Hrange (w_ds w) pod p Hok) as (v & Hbe & _).
    by eapply eb_rest.
  - by eapply eb_rest, PodDelete_ok.
Qed.

Lemma run_pool_rest w getErr w' :
  conv w -> is_Some (wanted_pool (w_pool w)) -> exec w (RunPool getErr None) = Some w' ->
  exists ds q, w' = w <| w_ds := ds |> <| q_pool := q |> /\ rest ds = rest (w_ds w).
Proof.
  intros Hcv [P HP]. unfold Reconcile.exec. destruct (q_pool w) eqn:Hq; [|done]. unfold InferencePool_Reconcile.
  destruct getErr as [err|]; cbn [read_object]; [intros [= <-]; by eexists _, _|].
  pose proof (cv_ns _ _ _ Hcv) as Hns. destruct (w_pool w) as [p|] eqn:Hwp; [|done]. cbn in HP. destruct (ip_Deleted p) eqn:Hd; [done|].
  destruct (pool_set_spec labels_Equals labels_Match range cache_order Hrange Horder Hequals NS w p Hcv Hns)
    as (ds' & -> & _ & _ & _ & Hrest & _). intros [= <-]. by eexists _, _.
Qed.

Lemma objects_rest w w' :
  objects_ok w -> rest (w_ds w') = rest (w_ds w) ->
  (w_objectives w', w_rewrites w', q_objectives w', q_rewrites w') = (w_objectives w, w_rewrites w, q_objectives w, q_rewrites w) ->
  (q_pool w' = true -> is_Some (wanted_pool (w_pool w'))) -> objects_ok w'.
Proof.
  intros [Ho Hr Hst Hon Hrn Hp] Hrest Hk Hp'. unfold rest in Hrest. injection Hrest as Hro Hrr _. injection Hk as Hwo Hwr Hqo Hqr.
  split; rewrite ?Hwo, ?Hwr, ?Hqo, ?Hqr, ?Hro, ?Hrr; done.
Qed.

Lemma run_objective_objects w name getErr w' :
  objects_ok w -> exec w (RunObjective name getErr) = Some w' -> objects_ok w'.
Proof.
  intros [Ho Hr Hst Hon Hrn Hp]. unfold Reconcile.exec. case_bool_decide as Hq; [|done]. unfold InferenceObjective_Reconcile.
  assert (Hdone : forall objs, objs !! name = w_objectives w !! name ≫= expected_objective ->
    (forall n, n <> name -> objs !! n = objectives (w_ds w) !! n) ->
    objects_ok (w <| w_ds := w_ds w <| objectives := objs |> |> <| q_objectives := q_objectives w ∖ {[ name ]} |>)).
  { intros objs H1 H2. split; try done. exact (mirror_handled expected_objective _ _ _ _ _ Ho H1 H2). }
  destruct getErr as [err|]; cbn [read_object]; [intros [= <-]; by split|].
  destruct (w_objectives w !! name) as [o|] eqn:Hwo; [destruct (_ || _) eqn:Hb|]; intros [= <-]; apply Hdone.
  1,5: by rewrite lookup_delete_eq; cbn; unfold expected_objective; rewrite ?Hb.
  1,4: by intros n Hne; rewrite lookup_delete_ne.
  - rewrite (Hon _ _ Hwo), lookup_insert_eq. cbn. unfold expected_objective. by rewrite Hb.
  - intros n Hne. rewrite (Hon _ _ Hwo). by rewrite lookup_insert_ne.
Qed.

Lemma run_rewrite_objects w name getErr w' :
  objects_ok w -> exec w (RunRewrite name getErr) = Some w' -> objects_ok w'.
Proof.
  intros [Ho Hr Hst Hon Hrn Hp]. unfold Reconcile.exec. case_bool_decide as Hq; [|done]. unfold InferenceModelRewrite_Reconcile.
  assert (Hdone : forall ms, ModelRewriteProps.store_ok ms -> allReWrites ms !! name = w_rewrites w !! name ≫= expected_rewrite ->
    (forall n, n <> name -> allReWrites ms !! n = allReWrites (modelRewrites (w_ds w)) !! n) ->
    objects_ok (w <| w_ds := w_ds w <| modelRewrites := ms |> |> <| q_rewrites := q_rewrites w ∖ {[ name ]} |>)).
  { intros ms Hok H1 H2. split; try done. exact (mirror_handled expected_rewrite _ _ _ _ _ Hr H1 H2). }
  destruct (delete_ok (modelRewrites (w_ds w)) name Hst) as [Hd1 Hd2].
  destruct getErr as [err|]; cbn [read_object]; [intros [= <-]; by split|].
  destruct (w_rewrites w !! name) as [o|] eqn:Hwo; [destruct (_ || _) eqn:Hb|]; intros [= <-].
  1,3: apply Hdone; [exact Hd1| |]; unfold store_delete; rewrite Hd2;
    [by rewrite lookup_delete_eq; cbn; unfold expected_rewrite; rewrite ?Hb|by intros n Hne; rewrite lookup_delete_ne].
  destruct (set_ok sort_rules Hsort (modelRewrites (w_ds w)) (rwo_Rewrite o) Hst) as [Hs1 Hs2]. rewrite (Hrn _ _ Hwo) in Hs2.
  apply Hdone; [exact Hs1| |]; rewrite Hs2; [|by intros n Hne; rewrite lookup_insert_ne].
  rewrite lookup_insert_eq. cbn. unfold expected_rewrite. by rewrite Hb.
Qed.

Lemma exec_objects w e w' :
  conv w -> event_ok e -> keeps_pool e -> objects_ok w -> exec w e = Some w' -> objects_ok w'.
Proof.
  intros Hcv Hev Hkp Hok Hex. pose proof Hok as [Ho Hr Hst Hon Hrn Hp].
  destruct e as [new|name new|name new|name new|getErr listErr|name getErr|name getErr|name getErr].
  - injection Hex as <-. by split.
  - injection Hex as <-. by split.
  - injection Hex as <-. split; try done; [|intros n o; cbn; rewrite lookup_partial_alter; case_decide; [subst n; intros ->; exact Hev|apply Hon]].
    exact (mirror_changed _ _ _ _ _ name new expected_objective_served Ho).
  - injection Hex as <-. split; try done; [|intros n o; cbn; rewrite lookup_partial_alter; case_decide; [subst n; intros ->; exact Hev|apply Hrn]].
    exact (mirror_changed _ _ _ _ _ name new expected_rewrite_served Hr).
  - cbn in Hev. subst listErr. destruct (q_pool w) eqn:Hq; [|unfold Reconcile.exec in Hex; by rewrite Hq in Hex].
    destruct (run_pool_rest w getErr w' Hcv (Hp eq_refl) Hex) as (ds & q & -> & Hrest). apply (objects_rest w); try done. intros _. by apply Hp.
  - destruct (run_pod_rest w name getErr w' Hcv Hex) as (ds & q & -> & Hrest). by apply (objects_rest w).
  - by eapply run_objective_objects.
  - by eapply run_rewrite_objects.
Qed.

Lemma run_objects es : forall w w', conv w -> Forall event_ok es -> Forall keeps_pool es -> objects_ok w ->
  run w es = Some w' -> objects_ok w'.
Proof.
  induction es as [|e es IH]; intros w w' Hcv Hev Hkp Hok Hrun; [by injection Hrun as <-|].
  apply Forall_cons in Hev as [He Hev], Hkp as [Hk Hkp]. cbn in Hrun. destruct (exec w e) as [w1|] eqn:Hex; [|done].
  apply (IH w1 w'); try done; [|by eapply exec_objects]. eapply (run_conv [e]); [exact Hcv|by constructor|]. cbn. by rewrite Hex.
Qed.

Lemma new_world_objects f port : objects_ok (new_world f port).
Proof.
  split; cbn; try done; [intros n; right; by rewrite !lookup_empty..|]. apply store_new_ok.
Qed.

(** C20: Objectives and rewrites follow the cluster, while the pool is not deleted
    and no listing of pods fails.  After every history of changes, requests
    handled one at a time and failed reads of single objects, handling what is
    queued leaves exactly the objectives of the cluster that refer to the pool,
    and a model is served by a rule of the remaining rewrites: one that matches it
    exactly, from a resource than which no other with such a rule is older; if
    there is none, a generic rule, from the oldest in the same sense; else none.
    Which of several such rules of equally old resources, or of one resource, is
    left open: the code does not keep their order in the resource
    ([ModelRewriteProps.rule_order_in_resource_is_lost]). *)
Theorem objects_converge f port es w :
  live f = ∅ -> Forall event_ok es -> Forall keeps_pool es -> run (new_world f port) es = Some w ->
  exists w', run w (drain w) = Some w' /\
    (forall name, ObjectiveGet (w_ds w') name = w_objectives w !! name ≫= expected_objective) /\
    exists M, (forall name, M !! name = w_rewrites w !! name ≫= expected_rewrite) /\
      forall model, match ModelRewriteGet (w_ds w') model with
      | Some (rule, parent) => exists rr, rr_rule rr = rule /\ parentRewriteName rr = parent /\
          (oldest (matches_exactly model) M rr \/
           (forall rr', rr' ∈ all_rules M -> ~ matches_exactly model rr') /\ oldest (fun rr => isGeneric rr = true) M rr)
      | None => forall rr', rr' ∈ all_rules M -> ~ matches_exactly model rr' /\ isGeneric rr' = false
      end.
Proof.
  intros Hf Hev Hkp Hrun. pose proof (new_world_conv labels_Match NS f port Hf) as Hcv0.
  pose proof (run_conv es _ _ Hcv0 Hev Hrun) as Hcv. pose proof (run_objects es _ _ Hcv0 Hev Hkp (new_world_objects f port) Hrun) as Hok.
  destruct (drain_runs labels_Equals labels_Match range PoolGKNN sort_rules cache_order Hrange Horder Hequals NS w Hcv)
    as (w' & Hdr & _ & Hq & Hk). exists w'. split; [exact Hdr|].
  assert (Hok' : objects_ok w').
  { eapply (run_objects (drain w)); [exact Hcv| | |exact Hok|exact Hdr]; unfold drain; rewrite !Forall_app, !Forall_fmap.
    all: split; [by destruct (q_pool w); repeat constructor|]; split_and!; by apply Forall_true. }
  injection Hq as _ _ Hqo Hqr. injection Hk as _ _ Hko Hkr. destruct Hok' as [Ho Hr Hst _ _ _]. rewrite Hqo in Ho. rewrite Hqr in Hr.
  rewrite Hko in Ho. rewrite Hkr in Hr. split; [exact (mirror_quiet _ _ _ Ho)|].
  exists (allReWrites (modelRewrites (w_ds w'))). split; [exact (mirror_quiet _ _ _ Hr)|].
  intros model. exact (getRule_ok _ model Hst).
Qed.

(** * Deleted pools *)

(** The pool is deleted and made again, with everything handled in between. *)
Definition recreate (p : InferencePool) : list event :=
  [PoolChanged None; RunPool None None; PoolChanged (Some p); RunPool None None].

(** After the pool is deleted and made again the datastore has no objective and no
    rewrite, though the cluster has them all and nothing is queued that would
    bring them back. *)
Theorem clear_forgets_objects w p :
  conv w -> q_pool w = false -> ip_Namespace p = NS -> ip_Deleted p = false ->
  exists w', run w (recreate p) = Some w' /\ is_Some (pool (w_ds w')) /\
    objectives (w_ds w') = ∅ /\ modelRewrites (w_ds w') = newModelRewriteStore /\
    (w_objectives w', w_rewrites w') = (w_objectives w, w_rewrites w) /\
    (q_pool w', q_objectives w', q_rewrites w') = (false, q_objectives w, q_rewrites w).
Proof.
  intros Hcv Hq Hns Hdel.
  set (w2 := w <| w_pool := None |> <| q_pool := false |> <| w_ds := Clear range (w_ds w) |>).
  assert (H2 : run w [PoolChanged None; RunPool None None] = Some w2) by done.
  assert (Hcv2 : conv w2) by (eapply run_conv; [exact Hcv| |exact H2]; by repeat constructor).
  set (w3 := w2 <| w_pool := Some p |> <| q_pool := true |>).
  assert (Hcv3 : conv w3) by (eapply (run_conv [PoolChanged (Some p)]); [exact Hcv2| |reflexivity]; by constructor).
  destruct (Clear_ok range Hrange (w_ds w) (cv_ok _ _ _ Hcv)) as (_ & _ & _ & Hco & Hcr & _).
  destruct (pool_set_spec labels_Equals labels_Match range cache_order Hrange Horder Hequals NS w3 p Hcv3 Hns)
    as (ds' & Hps & _ & _ & Hp & Hrest & _).
  exists (w3 <| w_ds := ds' |> <| q_pool := false |>). unfold rest in Hrest. injection Hrest as Hro Hrr _. split.
  - unfold Reconcile.run, recreate in *. change [PoolChanged None; RunPool None None; PoolChanged (Some p); RunPool None None] with
      ([PoolChanged None; RunPool None None] ++ [PoolChanged (Some p); RunPool None None]).
    rewrite ofold_app, H2. cbn [mbind option_bind ofold]. change (exec w2 (PoolChanged (Some p))) with (Some w3). cbn [mbind option_bind].
    unfold Reconcile.exec. change (q_pool w3) with true. cbn iota. unfold InferencePool_Reconcile.
    change (w_pool w3) with (Some p). cbn [read_object]. rewrite Hdel, Hps. done.
  - split; [cbn; rewrite Hp; by eexists|]. split; [exact (eq_trans Hro Hco)|]. split; [exact (eq_trans Hrr Hcr)|]. done.
Qed.

End Objects.
