(* ===== verification/DatastoreClaims.v ===== *)
(** The datastore with the runtime of the data layer as its factory, and where
    the reconcilers and hooks do not do what they mean to. *)

From S2P Require Import Prelude InFlight InFlightProps ModelRewrite DataGraph Scheduler Ordering Chunking ReqCtx Candidates.
From S2P Require Import ModelRewriteProps Director Lifecycle Datastore DatastoreProps Runtime Reconcile ReconcileObjects.

Section Claims.

Context {F : Type} `{!EndpointFactory F} `{!FactoryLaws F}.
Context (labels_Equals labels_Match : gmap string string -> gmap string string -> bool).
Context (range : gmap NamespacedName endpoint -> list (NamespacedName * endpoint)).
Context (Hrange : forall m, range m ≡ₚ map_to_list m).
Implicit Types (ds : datastore (F := F)) (pod : Pod) (p : EndpointPool).

(** A listing that fails is never made up for.  The pool is stored before the pods
    are listed, so that the retry finds the pool unchanged and succeeds without a
    listing: the endpoints stay as they were before the pool was set. *)
Theorem failed_resync_not_retried list_pods list_pods' ds p err :
  (forall a, labels_Equals a a = true) -> pool ds = None -> list_pods (Selector p) (ep_Namespace p) = inr err ->
  exists ds1 msg, PoolSet labels_Equals range list_pods ds (Some p) = (ds1, Some msg) /\
    PoolSet labels_Equals range list_pods' ds1 (Some p) = (ds1, None) /\ pods ds1 = pods ds.
Proof.
  intros Hrefl Hnone Hlist. unfold PoolSet. rewrite Hnone. cbn [orb]. unfold podResyncAll. rewrite Hlist.
  eexists _, _. split; [reflexivity|]. cbn [pool set]. rewrite Hrefl, bool_decide_eq_true_2 by done. cbn [negb orb].
  split; [|done]. by destruct ds.
Qed.

(** An update with the pool of before leaves an endpoint behind.  A pod event reads
    the pool, the pool then loses ports, and the update goes on with the ports of
    before: the endpoint of a rank the pool no longer has stays, whatever pod
    events follow. *)
Theorem stale_pool_leaves_endpoint ds p p' pod idx m updates :
  store_ok ds -> pool ds = Some p' -> wanted ds pod p idx = Some m -> (length (TargetPorts p') <= idx)%nat ->
  view (foldl (fun ds q => (PodUpdateOrAddIfNotExist ds q).1) (podUpdateOrAddIfNotExist ds pod (Some p)).1 updates)
    !! createEndpointNamespacedName pod idx = Some m.
Proof.
  intros Hok Hpool Hw Hidx. destruct (pod_update_ok range Hrange ds pod p Hok) as (v & [Hok1 Hv Hp _ _ _ _] & Hin & _).
  assert (Hhas : view (podUpdateOrAddIfNotExist ds pod (Some p)).1 !! createEndpointNamespacedName pod idx = Some m).
  { rewrite Hv, Hin; [done|]. unfold wanted in Hw. destruct (TargetPorts p !! idx) eqn:E; [|done]. by eapply lookup_lt_Some. }
  rewrite Hpool in Hp. revert Hok1 Hp Hhas. generalize (podUpdateOrAddIfNotExist ds pod (Some p)).1. clear -Hrange Hidx.
  induction updates as [|q updates IH]; intros ds Hok Hp Hhas; [done|]. cbn [foldl].
  unfold PodUpdateOrAddIfNotExist at 2. rewrite Hp.
  destruct (pod_update_ok range Hrange ds q p' Hok) as (v & [Hok1 Hv Hp1 _ _ _ _] & _ & Hout).
  apply IH; [done|by rewrite Hp1|]. rewrite Hv, Hout; [done|].
  intros i Hi Heq. apply endpoint_name_inj in Heq as (_ & _ & ->). lia.
Qed.

End Claims.

(** The deletion of a pod does not release the load of its endpoints.  The in-flight
    producer is notified of the deletion of a pod by the name of the pod, but its
    counters have the names of endpoints, which carry a rank: no counter of an
    endpoint of the pod is removed. *)
Theorem pod_deletion_keeps_counters pr metricsPort pod idx port wh :
  let id := endpoint_id (endpoint_metadata metricsPort pod idx port) in
  InFlight.get (tracker wh (make_calls pr (ExtractNotification EventDelete (Some (pod_Namespace pod +:+ "/" +:+ pod_Name pod))))) id =
  InFlight.get (tracker wh pr) id.
Proof.
  cbv zeta. assert (Hne : pod_Namespace pod +:+ "/" +:+ pod_Name pod <> endpoint_id (endpoint_metadata metricsPort pod idx port)).
  { unfold endpoint_id. cbn. intros Heq. apply (inj (String.app _)) in Heq. apply (inj (String.app "/")) in Heq.
    apply (f_equal (fun s => length (String.list_ascii_of_string s))) in Heq. unfold rank_name in Heq.
    rewrite !app_list_ascii, !length_app in Heq. cbn in Heq. lia. }
  unfold make_calls, run_calls. cbn. unfold InFlight.get, tracker_delete. destruct wh; cbn; by rewrite lookup_delete_ne.
Qed.

(** * The runtime as the factory *)

Section Collectors.

Context (range_sources : gmap string DataSource -> list (string * DataSource)) (starts : nat -> NamespacedName -> bool).
Context (labels_Equals labels_Match : gmap string string -> gmap string string -> bool).
Context (range : gmap NamespacedName endpoint -> list (NamespacedName * endpoint)).
Context (PoolGKNN : string * string).
Context (sort_rules : list rewriteRuleWithMetadata -> list rewriteRuleWithMetadata).
Context (cache_order : gmap string Pod -> list Pod).
Context (Hrange : forall m, range m ≡ₚ map_to_list m).

#[local] Instance polled : EndpointFactory Runtime := Runtime_factory range_sources starts.
Implicit Types (ds : datastore (F := Runtime)) (w : world (F := Runtime)).

(** There is a source to poll, endpoints are stored under their names, and
    collectors run for exactly these names. *)
Record matched ds : Prop := {
  ma_pollers : pollers (epf ds) <> ∅;
  ma_key k ep : pods ds !! k = Some ep -> nn (ep_Metadata ep) = k;
  ma_dom : dom (collectors (epf ds)) = dom (pods ds)
}.

Lemma drop_pod_matched ds k ep : nn (ep_Metadata ep) = k -> matched ds -> matched (drop_pod ds k ep).
Proof.
  intros Hk [Hp Hkey Hd]. split; cbn; [done| |rewrite !dom_delete_L, Hk; by rewrite Hd].
  intros k' ep' [_ Hl]%lookup_delete_Some. by apply Hkey.
Qed.

Lemma insert_matched ds k ep f :
  nn (ep_Metadata ep) = k -> pollers f <> ∅ -> (forall k ep, pods ds !! k = Some ep -> nn (ep_Metadata ep) = k) ->
  dom (collectors f) = {[ k ]} ∪ dom (pods ds) -> matched (ds <| epf := f |> <| pods := <[k := ep]> (pods ds) |>).
Proof.
  intros Hk Hp Hkey Hd. split; cbn; [done| |by rewrite dom_insert_L].
  intros k' ep' [[<- <-]|[_ Hl]]%lookup_insert_Some; [done|by apply Hkey].
Qed.

Lemma register_matched acc m : matched acc.1 -> matched (register_endpoint acc m).1.
Proof.
  destruct acc as [ds result]. cbn [fst]. intros [Hp Hkey Hd]. unfold register_endpoint.
  destruct (pods ds !! nn m) as [ep|] eqn:Hpod.
  - assert (Hin : nn m ∈ dom (pods ds)) by (by apply elem_of_dom_2 in Hpod).
    pose proof (insert_matched ds (nn m) (ep <| ep_Metadata := m |>) (epf ds) eq_refl Hp Hkey) as Hm.
    destruct ds; apply Hm. cbn in *. set_solver.
  - assert (Hno : collectors (epf ds) !! nn m = None) by (apply not_elem_of_dom; rewrite Hd; by apply not_elem_of_dom).
    cbn [NewEndpoint polled Runtime_factory]. unfold Runtime_NewEndpoint. cbn [pollers set collectors].
    rewrite bool_decide_eq_false_2 by done. cbn. rewrite Hno. destruct (starts _ _); cbn [fst].
    + apply insert_matched; try done. cbn. by rewrite dom_insert_L, Hd.
    + split; cbn; try done. by rewrite delete_insert_id.
Qed.

Lemma fold_matched {A} (f : datastore -> A -> datastore) l ds :
  (forall ds x, x ∈ l -> matched ds -> matched (f ds x)) -> matched ds -> matched (foldl f ds l).
Proof.
  revert ds. induction l as [|x l IH]; intros ds Hf Hm; [done|]. cbn. apply IH; [|by apply Hf; [left|]].
  intros ds' y Hy. apply Hf. by right.
Qed.

Lemma register_all_matched ms acc : matched acc.1 -> matched (foldl register_endpoint acc ms).1.
Proof. revert acc. induction ms as [|m ms IH]; intros acc Hm; [done|]. cbn. by apply IH, register_matched. Qed.

Lemma update_matched ds pod p : matched ds -> matched (podUpdateOrAddIfNotExist ds pod p).1.
Proof.
  intros Hm. unfold podUpdateOrAddIfNotExist. destruct p as [p|]; [|done].
  pose proof (register_all_matched (endpoints_of ds pod p) (ds, true) Hm) as H1. destruct (foldl register_endpoint _ _) as [ds1 result].
  apply fold_matched; [|exact H1]. intros ds2 idx _ H2. unfold remove_rank. destruct (pods ds2 !! _) as [ep|] eqn:Hp; [|done].
  apply drop_pod_matched; [|done]. by apply (ma_key ds2 H2).
Qed.

(** Dropping an endpoint of a listing made before. *)
Lemma drop_listed ds ds1 k ep : matched ds -> (k, ep) ∈ range (pods ds) -> matched ds1 -> matched (drop_pod ds1 k ep).
Proof. intros Hm Hin. apply drop_pod_matched. rewrite Hrange, elem_of_map_to_list in Hin. by apply (ma_key ds Hm). Qed.

Lemma drop_some_matched (keep : NamespacedName -> endpoint -> bool) ds :
  matched ds -> matched (foldl (fun ds '(k, ep) => if keep k ep then ds else drop_pod ds k ep) ds (range (pods ds))).
Proof.
  intros Hm. apply fold_matched; [|done]. intros ds1 [k ep] Hin H1. destruct (keep k ep); [done|]. by apply (drop_listed ds).
Qed.

Lemma delete_matched ds name : matched ds -> matched (PodDelete range ds name).
Proof.
  intros Hm. apply fold_matched; [|done]. intros ds1 [k ep] Hin H1. destruct (String.eqb _ _); [|done].
  by apply (drop_listed ds).
Qed.

Lemma release_listed l ds :
  let ds' := foldl (fun ds '((_, ep) : NamespacedName * endpoint) => ds <| epf := ReleaseEndpoint (epf ds) ep |>) ds l in
  pollers (epf ds') = pollers (epf ds) /\
  dom (collectors (epf ds')) = dom (collectors (epf ds)) ∖ list_to_set ((fun kv => nn (ep_Metadata kv.2)) <$> l).
Proof.
  revert ds. induction l as [|[k ep] l IH]; intros ds; cbv zeta; [split; [done|]; cbn; set_solver|]. cbn [foldl].
  destruct (IH (ds <| epf := ReleaseEndpoint (epf ds) ep |>)) as [-> ->]. split; [done|]. cbn. rewrite dom_delete_L. set_solver.
Qed.

Lemma clear_matched ds : matched ds -> matched (Clear range ds).
Proof.
  intros [Hp Hkey Hd]. unfold Clear.
  set (ds0 := ds <| pool := None |> <| objectives := ∅ |> <| modelRewrites := newModelRewriteStore |>).
  destruct (release_listed (range (pods ds0)) ds0) as [Hp' Hd']. set (ds1 := foldl _ ds0 _) in *.
  change (matched (ds1 <| pods := ∅ |>)). clearbody ds1. split; cbn; [by rewrite Hp'|by intros|].
  rewrite Hd', dom_empty_L. change (dom (collectors (epf ds0))) with (dom (collectors (epf ds))). rewrite Hd.
  apply set_eq. intros k. rewrite elem_of_difference, elem_of_list_to_set, elem_of_empty. split; [|done]. intros [Hin Hno]. apply Hno.
  apply elem_of_dom in Hin as [ep Hin]. rewrite Hrange. apply list_elem_of_fmap. exists (k, ep). split; [symmetry; by apply Hkey|].
  by apply elem_of_map_to_list.
Qed.

Lemma resync_matched list_pods ds p : matched ds -> matched (podResyncAll range list_pods ds p).1.
Proof.
  intros Hm. unfold podResyncAll. destruct (list_pods _ _) as [podList|err]; [|done].
  assert (Hacc : forall l acc, matched acc.1 -> matched (foldl (resync_pod p) acc l).1).
  { intros l. induction l as [|pod l IH]; intros [ds1 active] H1; [done|]. cbn [foldl]. apply IH.
    unfold resync_pod. destruct (IsPodReady pod); [by apply (update_matched ds1 pod (Some p))|done]. }
  specialize (Hacc podList (ds, ∅) Hm). destruct (foldl (resync_pod p) _ _) as [ds1 active]. cbn [fst] in *.
  by apply (drop_some_matched (fun _ ep => bool_decide (nn (ep_Metadata ep) ∈ active))).
Qed.

Lemma with_pool_matched ds o : matched ds -> matched (ds <| pool := o |>).
Proof. by intros []. Qed.

Lemma pool_set_matched list_pods ds o : matched ds -> matched (PoolSet labels_Equals range list_pods ds o).1.
Proof.
  intros Hm. unfold PoolSet. destruct o as [p|]; [|by apply clear_matched]. destruct (_ || _); [|by apply with_pool_matched].
  pose proof (resync_matched list_pods (ds <| pool := Some p |>) p (with_pool_matched ds (Some p) Hm)) as H1.
  by destruct (podResyncAll _ _ _ _) as [ds1 [err|]].
Qed.

Lemma exec_matched w e w' :
  matched (w_ds w) -> exec labels_Equals labels_Match range PoolGKNN sort_rules cache_order w e = Some w' -> matched (w_ds w').
Proof.
  intros Hm. destruct e as [new|name new|name new|name new|getErr listErr|name getErr|name getErr|name getErr]; cbn [exec].
  1-4: by intros [= <-].
  - destruct (q_pool w); [|done]. unfold InferencePool_Reconcile.
    destruct (read_object getErr (w_pool w)) as [[p|]|err]; [|by intros [= <-]; apply clear_matched|by intros [= <-]].
    destruct (ip_Deleted p); [by intros [= <-]; apply clear_matched|].
    pose proof (pool_set_matched (List_pods labels_Match cache_order (w_pods w) listErr) (w_ds w) (Some (InferencePoolToEndpointPool p)) Hm) as H1.
    destruct (PoolSet _ _ _ _ _) as [ds [err|]]; by intros [= <-].
  - case_bool_decide; [|done]. unfold Pod_Reconcile. destruct (negb _); [by intros [= <-]|].
    destruct (read_object _ _) as [[pod|]|err]; [|by intros [= <-]; apply delete_matched|by intros [= <-]].
    intros [= <-]. cbn. unfold updateDatastore. destruct (_ || _); [by apply delete_matched|by apply update_matched].
  - case_bool_decide; [|done]. unfold InferenceObjective_Reconcile.
    destruct (read_object _ _) as [[o|]|err]; [destruct (_ || _)|..]; intros [= <-]; by destruct Hm.
  - case_bool_decide; [|done]. unfold InferenceModelRewrite_Reconcile.
    destruct (read_object _ _) as [[o|]|err]; [destruct (_ || _)|..]; intros [= <-]; by destruct Hm.
Qed.

(** C21: Exactly the endpoints of the datastore are polled.  With a source to poll,
    after every history of changes of the cluster and of handled requests,
    whichever reads and listings fail and whichever collectors fail to start, a
    collector runs for a name exactly when the datastore has an endpoint of that
    name: none is left behind by a deletion, a resync, a failed start or the
    removal of the pool, and no endpoint is without one. *)
Theorem collectors_match_endpoints (r : Runtime) port es w :
  pollers r <> ∅ -> collectors r = ∅ ->
  run labels_Equals labels_Match range PoolGKNN sort_rules cache_order (new_world r port) es = Some w ->
  dom (collectors (epf (w_ds w))) = dom (pods (w_ds w)).
Proof.
  intros Hp Hc. assert (Hm : matched (w_ds (new_world r port))) by (split; cbn; [done|by intros|by rewrite Hc, !dom_empty_L]).
  revert Hm. generalize (new_world r port). induction es as [|e es IH]; intros w0 Hm Hrun; [injection Hrun as <-; apply Hm|].
  cbn in Hrun. destruct (exec _ _ _ _ _ _ w0 e) as [w1|] eqn:Hex; [|done]. by eapply (IH w1); [eapply exec_matched|].
Qed.

End Collectors.

(** * A cluster *)

Definition sample_source : DataSource :=
  {| src_TypedName := {| tn_Type := "metrics-data-source"; tn_Name := "metrics" |}; src_Kind := PollingDataSource;
     ExtractorType := None; OutputType := None; ValidateExtractor := None |}.

Definition sample_runtime : Runtime := NewRuntime 0 <| pollers := {[ "metrics" := sample_source ]} |>.

Definition sample_pod (name : string) (ready : bool) : Pod :=
  mkPod name "ns" {[ "app" := "llm" ]} ∅ "10.0.0.1" false [("Ready", if ready then "True" else "False")].

Definition sample_pool (ports : list Z) : InferencePool :=
  {| ip_Name := "pool"; ip_Namespace := "ns"; ip_Deleted := false; MatchLabels := {[ "app" := "llm" ]};
     ip_TargetPorts := ports; ip_AppProtocol := "http" |}.

Definition sample_objective : InferenceObjective :=
  {| obj_Name := "gold"; obj_Deleted := false; obj_PoolRef := ("pool", "group"); obj_Priority := Some 5 |}.

Definition sample_rewrite : RewriteObject :=
  {| rwo_Rewrite := sample_rw "canary" 1 [sample_rule ["m"] "m-v2"]; rwo_Deleted := false; rwo_PoolRef := Some ("pool", "group") |}.

(** A pod is there before the pool, another becomes ready later and the ports of
    the pool change; reads fail on the way and requests are still queued. *)
Definition sample_history : list event :=
  [ PodChanged "a" (Some (sample_pod "a" true)); PodChanged "b" (Some (sample_pod "b" false));
    ObjectiveChanged "gold" (Some sample_objective); RewriteChanged "canary" (Some sample_rewrite);
    PoolChanged (Some (sample_pool [8000; 8001])); RunPool (Some "timeout") None; RunPool None None;
    PodChanged "b" (Some (sample_pod "b" true)); RunPod "b" (Some "timeout"); PoolChanged (Some (sample_pool [8000])) ].

Definition labels_eq (a b : gmap string string) : bool := bool_decide (a = b).
Definition labels_sub (a b : gmap string string) : bool := bool_decide (a ⊆ b).
Definition all_pods (m : gmap string Pod) : list Pod := snd <$> map_to_list m.

Abbreviation sample_run :=
  (@run Runtime (Runtime_factory map_to_list (fun _ _ => true)) labels_eq labels_sub map_to_list ("pool", "group") stable_sort all_pods).

Lemma sample_history_ok : Forall (event_ok "ns") sample_history /\ Forall keeps_pool sample_history.
Proof. split; repeat constructor; by eexists. Qed.

Lemma labels_eq_ok a b : labels_eq a b = true -> a = b.
Proof. apply bool_decide_eq_true. Qed.

Abbreviation sample_world := (sample_run (new_world sample_runtime 0) sample_history).

Definition observe (w : world (F := Runtime)) :=
  (w_pool w, w_pods w !! "b", w_objectives w !! "gold", w_rewrites w !! "canary").

Lemma sample_world_observed :
  observe <$> sample_world = Some (Some (sample_pool [8000]), Some (sample_pod "b" true), Some sample_objective, Some sample_rewrite).
Proof. vm_compute. reflexivity. Qed.

Lemma sample_world_endpoints : (fun w => elements (dom (pods (w_ds w)))) <$> sample_world = Some [("ns", "a-rank-1"); ("ns", "a-rank-0")].
Proof. vm_compute. reflexivity. Qed.

Lemma sample_active : extractActivePorts (sample_pod "b" true) [8000] = {[ 8000 ]}.
Proof. vm_compute. reflexivity. Qed.

Lemma datastore_converges_witness : exists w w', sample_world = Some w /\ sample_run w (drain w) = Some w' /\
  is_Some (view (w_ds w') !! ("ns", "b-rank-0")) /\ view (w_ds w') !! ("ns", "a-rank-1") = None.
Proof.
  destruct (fmap_Some_1 _ _ _ sample_world_observed) as (w & Hw & Hobs). unfold observe in Hobs. injection Hobs as Hp Hb _ _.
  destruct (@datastore_converges Runtime _ labels_eq labels_sub map_to_list ("pool", "group") stable_sort all_pods
    (Runtime_laws map_to_list (fun _ _ => true) (fun _ _ => eq_refl)) (fun _ => reflexivity _) (fun _ => reflexivity _) labels_eq_ok "ns"
    sample_runtime 0 sample_history w eq_refl (proj1 sample_history_ok) Hw) as (w' & Hrun & _ & _ & Hiff).
  exists w, w'. split; [exact Hw|]. split; [exact Hrun|]. rewrite <- Hp in Hiff. split.
  - exists (endpoint_metadata (modelServerMetricsPort (w_ds w')) (sample_pod "b" true) 0 8000).
    apply Hiff. eexists _, (sample_pod "b" true), 0%nat. split; [reflexivity|]. split; [exact (eq_sym Hb)|].
    split; [reflexivity|]. split; [vm_compute; reflexivity|]. split; [vm_compute; reflexivity|].
    unfold wanted. cbn [TargetPorts InferencePoolToEndpointPool ip_TargetPorts sample_pool]. cbn [lookup list_lookup mbind option_bind].
    rewrite sample_active, bool_decide_eq_true_2 by (by apply elem_of_singleton). reflexivity.
  - destruct (view (w_ds w') !! ("ns", "a-rank-1")) as [m|] eqn:Hm; [|done]. exfalso.
    apply Hiff in Hm as (p & pod & idx & HP & _ & _ & _ & Hk & Hwt). injection HP as <-. apply wanted_rank in Hwt. cbn in Hwt.
    assert (idx = 0%nat) as -> by lia. injection Hk as _ Hk. change "a-rank-1" with (rank_name "a" 1) in Hk.
    by apply rank_name_inj in Hk as [_ ?].
Defined.

Lemma objects_converge_witness : exists w w', sample_world = Some w /\ sample_run w (drain w) = Some w' /\
  ObjectiveGet (w_ds w') "gold" = Some sample_objective /\
  is_Some (ModelRewriteGet (w_ds w') "m").
Proof.
  destruct (fmap_Some_1 _ _ _ sample_world_observed) as (w & Hw & Hobs). unfold observe in Hobs. injection Hobs as _ _ Ho Hr.
  destruct (@objects_converge Runtime _ (Runtime_laws map_to_list (fun _ _ => true) (fun _ _ => eq_refl)) labels_eq labels_sub map_to_list
    ("pool", "group") stable_sort all_pods (fun _ => reflexivity _) (fun _ => reflexivity _) labels_eq_ok stable_sorts "ns"
    sample_runtime 0 sample_history w eq_refl (proj1 sample_history_ok) (proj2 sample_history_ok) Hw) as (w' & Hrun & Hobj & M & HM & Hrule).
  exists w, w'. split; [exact Hw|]. split; [exact Hrun|]. split; [by rewrite Hobj, <- Ho|].
  specialize (Hrule "m"). destruct (ModelRewriteGet (w_ds w') "m") as [rule|]; [by eexists|]. exfalso.
  specialize (HM "canary"). rewrite <- Hr in HM.
  destruct (Hrule {| rr_rule := sample_rule ["m"] "m-v2"; createTimestamp := 1; parentRewriteName := "canary" |}) as [Hno _].
  - apply list_elem_of_bind. exists ("canary", rwo_Rewrite sample_rewrite). split; [left|]. by apply elem_of_map_to_list.
  - apply Hno. apply (bool_decide_unpack _). vm_compute. exact I.
Defined.

(** The collector of the first endpoint does not start: the datastore does not have
    the endpoint. *)
Abbreviation failing_run :=
  (@run Runtime (Runtime_factory map_to_list (fun n _ => negb (Nat.eqb n 1))) labels_eq labels_sub map_to_list ("pool", "group") stable_sort all_pods).

Lemma failing_endpoints :
  (fun w => elements (dom (pods (w_ds w)))) <$> failing_run (new_world sample_runtime 0) sample_history = Some [("ns", "a-rank-1")].
Proof. vm_compute. reflexivity. Qed.

Lemma collectors_match_endpoints_witness : exists w, failing_run (new_world sample_runtime 0) sample_history = Some w /\
  dom (collectors (epf (w_ds w))) = {[ ("ns", "a-rank-1") ]}.
Proof.
  destruct (fmap_Some_1 _ _ _ failing_endpoints) as (w & Hw & Hobs). exists w. split; [exact Hw|].
  rewrite (collectors_match_endpoints map_to_list (fun n _ => negb (Nat.eqb n 1)) labels_eq labels_sub map_to_list ("pool", "group")
    stable_sort all_pods (fun _ => reflexivity _) sample_runtime 0 sample_history w (map_non_empty_singleton _ _) eq_refl Hw).
  apply set_eq. intros k. rewrite <- elem_of_elements, <- Hobs, list_elem_of_singleton, elem_of_singleton. reflexivity.
Defined.
