(* ===== verification/RequestQueue.v ===== *)
(** The running requests of an endpoint by their TPOT objective
    (src/pkg/epp/framework/plugins/requestcontrol/requestdataproducer/predictedlatency/running_request_tpot_slo_queue.go):
    a priority queue on container/heap with removal and update by id, and its
    refinement of a map from ids to objectives.

    A [request] is shared by the slice of the heap and the look-up map and has
    mutable fields: pointers are natural numbers into a store of cells.  [Clone],
    [ToSlice] and [String], which only tests use, are left out. *)

From S2P Require Import Prelude Doubles BinaryHeap.

(** * The queue *)

Record request := mkRequest { rq_id : string; rq_tpot : spec_float; rq_index : Z }.

#[global] Instance eta_request : Eta request := fun r => mkRequest (rq_id r) (rq_tpot r) (rq_index r).

Record requestPriorityQueue := mkQueue {
  rq_items : list nat;
  rq_lookup : gmap string nat;
  rq_cells : gmap nat request;
  rq_next : nat                            (* the next pointer to allocate *)
}.

#[global] Instance eta_requestPriorityQueue : Eta requestPriorityQueue := fun q =>
  mkQueue (rq_items q) (rq_lookup q) (rq_cells q) (rq_next q).

Definition newRequestPriorityQueue : requestPriorityQueue := mkQueue [] ∅ ∅ 0.

Definition rq_Len (q : requestPriorityQueue) : nat := length (rq_items q).

Definition rq_Less (q : requestPriorityQueue) (i j : nat) : option bool :=
  p ← rq_items q !! i; p' ← rq_items q !! j;
  r ← rq_cells q !! p; r' ← rq_cells q !! p';
  Some (SFltb (rq_tpot r) (rq_tpot r')).

Definition set_index (p : nat) (i : Z) (cells : gmap nat request) : gmap nat request :=
  alter (fun r => r <| rq_index := i |>) p cells.

Definition rq_Swap (q : requestPriorityQueue) (i j : nat) : option requestPriorityQueue :=
  p ← rq_items q !! i; p' ← rq_items q !! j;
  Some (q <| rq_items := lswap i j (rq_items q) |>
          <| rq_cells := set_index p (Z.of_nat j) (set_index p' (Z.of_nat i) (rq_cells q)) |>).

Definition rq_Push (q : requestPriorityQueue) (p : nat) : requestPriorityQueue :=
  q <| rq_cells := set_index p (Z.of_nat (length (rq_items q))) (rq_cells q) |>
    <| rq_items := rq_items q ++ [p] |>.

Definition rq_Pop (q : requestPriorityQueue) : option (nat * requestPriorityQueue) :=
  match length (rq_items q) with
  | O => None
  | S n => p ← rq_items q !! n;
           Some (p, q <| rq_cells := set_index p (-1) (rq_cells q) |> <| rq_items := take n (rq_items q) |>)
  end.

#[global] Instance rq_heap_ops : HeapOps requestPriorityQueue nat := {
  heap_Len := rq_Len; heap_Less := rq_Less; heap_Swap := rq_Swap; heap_Push := rq_Push; heap_Pop := rq_Pop
}.

Definition rq_Add (q : requestPriorityQueue) (id : string) (tpot : spec_float) : option (bool * requestPriorityQueue) :=
  if bool_decide (id = EmptyString) then Some (false, q)
  else if SFltb tpot f64_zero then Some (false, q)
  else match rq_lookup q !! id with
  | Some _ => Some (false, q)
  | None =>
      let item := rq_next q in
      let q := q <| rq_cells := <[item := mkRequest id tpot 0]> (rq_cells q) |> <| rq_next := S item |>
                 <| rq_lookup := <[id := item]> (rq_lookup q) |> in
      q ← Push q item;
      Some (true, q)
  end.

(** [heap.Fix] of a negative index neither moves anything nor panics. *)
Definition rq_Update (q : requestPriorityQueue) (id : string) (tpot : spec_float) : option (bool * requestPriorityQueue) :=
  if SFltb tpot f64_zero then Some (false, q)
  else match rq_lookup q !! id with
  | None => Some (false, q)
  | Some item =>
      let q := q <| rq_cells := alter (fun r => r <| rq_tpot := tpot |>) item (rq_cells q) |> in
      r ← rq_cells q !! item;
      if rq_index r <? 0 then Some (true, q)
      else q ← Fix q (Z.to_nat (rq_index r)); Some (true, q)
  end.

(** [heap.Remove] of a negative index panics. *)
Definition rq_Remove (q : requestPriorityQueue) (id : string) : option (option request * requestPriorityQueue) :=
  match rq_lookup q !! id with
  | None => Some (None, q)
  | Some item =>
      r ← rq_cells q !! item;
      if rq_index r <? 0 then None
      else
        '(p, q) ← Remove q (Z.to_nat (rq_index r));
        removed ← rq_cells q !! p;
        Some (Some removed, q <| rq_lookup := delete id (rq_lookup q) |>)
  end.

Definition rq_Peek (q : requestPriorityQueue) : option request := p ← head (rq_items q); rq_cells q !! p.

Definition rq_GetSize (q : requestPriorityQueue) : nat := length (rq_items q).

Definition rq_Contains (q : requestPriorityQueue) (id : string) : bool := bool_decide (is_Some (rq_lookup q !! id)).

(** * The heap laws *)

(** What the heap operations leave alone: ids and objectives, and the look-up map. *)
Definition body (r : request) : string * spec_float := (rq_id r, rq_tpot r).

Record frame := mkFrame { fr_bodies : gmap nat (string * spec_float); fr_lookup : gmap string nat; fr_next : nat }.

Definition frame_of (q : requestPriorityQueue) : frame := mkFrame (body <$> rq_cells q) (rq_lookup q) (rq_next q).

(** The order of pointers, by the objectives of the frame; it is [<] unless one of
    them is not a number. *)
Definition tpot_of (fr : frame) (p : nat) : spec_float := default S754_nan (snd <$> fr_bodies fr !! p).
Definition before (fr : frame) (p p' : nat) : bool := key_ltb (f64_key (tpot_of fr p)) (f64_key (tpot_of fr p')).

#[global] Instance before_StrictWeak fr : StrictWeak (before fr).
Proof. apply (key_StrictWeak (fun p => f64_key (tpot_of fr p)) key_ltb). apply _. Qed.

(** Every item has a cell with its position and a number. *)
Definition indexed (q : requestPriorityQueue) : Prop :=
  forall i p, rq_items q !! i = Some p -> exists r, rq_cells q !! p = Some r /\ rq_index r = Z.of_nat i /\ is_nan (rq_tpot r) = false.

Lemma rq_indexed_inj q i j p : indexed q -> rq_items q !! i = Some p -> rq_items q !! j = Some p -> i = j.
Proof. intros Hin Hi Hj. destruct (Hin _ _ Hi) as (r & Hr & Hx & _), (Hin _ _ Hj) as (r' & Hr' & Hx' & _). simplify_eq. lia. Qed.

Lemma set_index_lookup p i cells p' :
  set_index p i cells !! p' = if decide (p = p') then (fun r => r <| rq_index := i |>) <$> cells !! p' else cells !! p'.
Proof.
  unfold set_index. case_decide as H; [subst; by rewrite lookup_alter_eq|by rewrite lookup_alter_ne].
Qed.

Lemma set_index_body p i cells : body <$> set_index p i cells = body <$> cells.
Proof.
  apply map_eq. intros p'. rewrite !lookup_fmap, set_index_lookup. case_decide; [|done]. by destruct (cells !! p').
Qed.

Lemma set_index_other p i cells p' r :
  p' <> p -> cells !! p' = Some r -> set_index p i cells !! p' = Some r.
Proof. intros Hne Hr. rewrite set_index_lookup, decide_False; [done|congruence]. Qed.

Section Laws.

Context (fr : frame).

Definition framed (q : requestPriorityQueue) : Prop := indexed q /\ frame_of q = fr.

Lemma framed_tpot q p r : framed q -> rq_cells q !! p = Some r -> tpot_of fr p = rq_tpot r.
Proof. intros [_ <-] Hr. unfold tpot_of, frame_of. cbn. by rewrite lookup_fmap, Hr. Qed.

Lemma framed_cells q cells items :
  framed q -> body <$> cells = body <$> rq_cells q -> indexed (q <| rq_cells := cells |> <| rq_items := items |>) ->
  framed (q <| rq_cells := cells |> <| rq_items := items |>).
Proof. intros [_ <-] Hb Hin. split; [done|]. unfold frame_of. cbn. by rewrite Hb. Qed.

Lemma rq_Swap_law q i j :
  framed q -> (i < length (rq_items q))%nat -> (j < length (rq_items q))%nat ->
  exists q', rq_Swap q i j = Some q' /\ framed q' /\ rq_items q' = lswap i j (rq_items q).
Proof.
  intros Hfr [p Hp]%lookup_lt_is_Some_2 [p' Hp']%lookup_lt_is_Some_2. unfold rq_Swap. rewrite Hp, Hp'. cbn [mbind option_bind].
  eexists. split; [reflexivity|]. split; [|done]. destruct Hfr as [Hin Hf]. split.
  2: { rewrite <- Hf. unfold frame_of. cbn. by rewrite !set_index_body. }
  intros k x Hk. cbn in *. destruct (Hin _ _ Hp) as (r & Hr & _ & Hn), (Hin _ _ Hp') as (r' & Hr' & _ & Hn').
  apply (lookup_lswap_inv _ _ _ _ _ _ _ Hp Hp') in Hk as [[-> ->]|[[-> ->]|(Hki & Hkj & Hk)]].
  - rewrite !set_index_lookup. destruct (decide (p' = p')); [|done]. rewrite Hr'.
    destruct (decide (p = p')) as [Heq|Hne]; [|by eexists].
    subst p'. rewrite (rq_indexed_inj q i j p Hin Hp Hp'). by eexists.
  - rewrite !set_index_lookup. destruct (decide (p = p)); [|done]. rewrite Hr.
    destruct (decide (p' = p)); by eexists.
  - destruct (Hin _ _ Hk) as (rx & Hrx & Hx & Hnx). exists rx. split; [|done].
    apply set_index_other, set_index_other; [|..|done]; intros ->; [by apply Hki, (rq_indexed_inj q k i p)|by apply Hkj, (rq_indexed_inj q k j p')].
Qed.

#[export, refine] Instance rq_heap_laws : HeapLaws requestPriorityQueue nat (before fr) := {
  heap_view := rq_items; heap_inv := framed;
  heap_pushable := fun q p => (p ∉ rq_items q) /\ exists r, rq_cells q !! p = Some r /\ is_nan (rq_tpot r) = false
}.
Proof.
  - done.
  - intros q i j p p' Hfr Hp Hp'. cbn. unfold rq_Less. rewrite Hp, Hp'. cbn [mbind option_bind]. pose proof Hfr as [Hin _].
    destruct (Hin _ _ Hp) as (r & Hr & _ & Hn), (Hin _ _ Hp') as (r' & Hr' & _ & Hn'). rewrite Hr, Hr'. cbn [mbind option_bind].
    unfold before. by rewrite (framed_tpot q p r), (framed_tpot q p' r'), SFltb_key.
  - apply rq_Swap_law.
  - intros q p Hfr [Hnew (r & Hr & Hn)]. cbn. split; [|done]. destruct Hfr as [Hin Hf]. split.
    2: { rewrite <- Hf. unfold frame_of. cbn. by rewrite set_index_body. }
    intros i x Hi. cbn in *. apply lookup_app_Some in Hi as [Hi|[Hlen Hi]].
    + destruct (Hin _ _ Hi) as (rx & Hrx & Hx & Hnx). exists rx. split; [|done]. apply set_index_other; [|done].
      intros ->. apply Hnew. by eapply list_elem_of_lookup_2.
    + apply list_lookup_singleton_Some in Hi as [Hi <-]. rewrite set_index_lookup, decide_True, Hr by done. eexists. split; [reflexivity|].
      cbn. split; [lia|done].
  - intros q l p Hfr Hv. cbn in *. unfold rq_Pop. rewrite Hv, length_app, Nat.add_comm. cbn [length Nat.add].
    rewrite list_lookup_middle by done. cbn [mbind option_bind]. eexists. split; [reflexivity|]. cbn [rq_items set].
    rewrite take_app_length. split; [|done]. destruct Hfr as [Hin Hf]. split.
    2: { rewrite <- Hf. unfold frame_of. cbn. by rewrite set_index_body. }
    intros i x Hi. cbn in *. assert (Hi' : rq_items q !! i = Some x) by (rewrite Hv; by apply lookup_app_l_Some).
    destruct (Hin _ _ Hi') as (rx & Hrx & Hx & Hnx). exists rx. split; [|done]. apply set_index_other; [|done]. intros ->.
    assert (Hp : rq_items q !! length l = Some p) by (rewrite Hv; by apply list_lookup_middle).
    pose proof (rq_indexed_inj q _ _ _ Hin Hp Hi'). apply lookup_lt_Some in Hi. lia.
Defined.

End Laws.

(** * What a queue represents *)

Definition heap_q (q : requestPriorityQueue) : Prop :=
  indexed q /\ heap_order (before (frame_of q)) (length (rq_items q)) (rq_items q).

(** The frame and the items of a queue that represents the map [M]. *)
Record represents (fr : frame) (items : list nat) (M : gmap string spec_float) : Prop := {
  rp_lookup id p : fr_lookup fr !! id = Some p <-> p ∈ items /\ fst <$> fr_bodies fr !! p = Some id;
  rp_map id : M !! id = (p ← fr_lookup fr !! id; snd <$> fr_bodies fr !! p);
  rp_next p : is_Some (fr_bodies fr !! p) -> (p < fr_next fr)%nat
}.

Definition rq_rel (q : requestPriorityQueue) (M : gmap string spec_float) : Prop :=
  heap_q q /\ represents (frame_of q) (rq_items q) M.

Lemma represents_perm fr items items' M : items' ≡ₚ items -> represents fr items M -> represents fr items' M.
Proof. intros Hp [H1 H2 H3]. split; [|done..]. intros id p. by rewrite Hp. Qed.

Lemma rq_indexed_nodup q : indexed q -> NoDup (rq_items q).
Proof. intros Hin. apply NoDup_alt. intros i j p. by apply rq_indexed_inj. Qed.

Lemma indexed_body q p : indexed q -> p ∈ rq_items q -> is_Some (fr_bodies (frame_of q) !! p).
Proof.
  intros Hin [i Hi]%list_elem_of_lookup. destruct (Hin _ _ Hi) as (r & Hr & _). exists (body r). cbn. by rewrite lookup_fmap, Hr.
Qed.

Lemma heap_order_ext less less' n (l : list nat) :
  (forall x y, x ∈ l -> y ∈ l -> less' x y = less x y) -> heap_order less n l -> heap_order less' n l.
Proof.
  intros Hext Ho k Hk x y Hx Hy. rewrite Hext by (by eapply list_elem_of_lookup_2). by eapply Ho.
Qed.

Lemma before_ext fr fr' p p' :
  fr_bodies fr' !! p = fr_bodies fr !! p -> fr_bodies fr' !! p' = fr_bodies fr !! p' -> before fr' p p' = before fr p p'.
Proof. intros H1 H2. unfold before, tpot_of. by rewrite H1, H2. Qed.

Lemma heap_q_ok fr q : heap_ok (before fr) q -> heap_q q /\ frame_of q = fr.
Proof. intros [[Hin <-] Ho]. by split. Qed.

Lemma ok_heap_q q : heap_q q -> heap_ok (before (frame_of q)) q.
Proof. intros [Hin Ho]. by split. Qed.

Lemma q_Push q p r :
  heap_q q -> p ∉ rq_items q -> rq_cells q !! p = Some r -> is_nan (rq_tpot r) = false ->
  exists q', Push q p = Some q' /\ heap_q q' /\ frame_of q' = frame_of q /\ rq_items q' ≡ₚ p :: rq_items q.
Proof.
  intros Hq%ok_heap_q Hp Hr Hn. destruct (Push_ok (before (frame_of q)) q p Hq) as (q' & Hpush & [Hq' Hf]%heap_q_ok & Hperm); [|by exists q'].
  split; [done|by exists r].
Qed.

Lemma q_Remove q i p :
  heap_q q -> rq_items q !! i = Some p ->
  exists q', Remove q i = Some (p, q') /\ heap_q q' /\ frame_of q' = frame_of q /\ rq_items q ≡ₚ p :: rq_items q'.
Proof.
  intros Hq%ok_heap_q Hi. destruct (Remove_ok (before (frame_of q)) q i p Hq Hi) as (q' & Hrm & [Hq' Hf]%heap_q_ok & Hperm). by exists q'.
Qed.

Lemma q_Fix q i :
  indexed q -> (i < length (rq_items q))%nat -> hole (before (frame_of q)) (length (rq_items q)) (rq_items q) i ->
  exists q', Fix q i = Some q' /\ heap_q q' /\ frame_of q' = frame_of q /\ rq_items q' ≡ₚ rq_items q.
Proof.
  intros Hin Hi Hh. destruct (Fix_ok (before (frame_of q)) q i) as (q' & Hfix & [Hq' Hf]%heap_q_ok & Hperm); [done..|]. by exists q'.
Qed.

(** Changing the priority of one item leaves a hole at its place. *)
Lemma changed_hole less less' `{!StrictWeak less} n (l : list nat) i p :
  NoDup l -> l !! i = Some p -> (forall x y, x <> p -> y <> p -> less' x y = less x y) ->
  heap_order less n l -> (n <= length l)%nat -> hole less' n l i.
Proof.
  intros Hnd Hi Hext Ho Hn.
  assert (Hne : forall k x, l !! k = Some x -> k <> i -> x <> p) by (intros k x Hk Hki ->; by apply Hki, (NoDup_lookup l k i p)).
  split.
  - intros k Hk Hki Hpk x y Hx Hy. rewrite Hext by (by eapply Hne). by eapply (Ho k).
  - intros k x y Hk Hpk Hi0 Hx Hy. pose proof (parent_lt k ltac:(lia)). pose proof (parent_lt i ltac:(lia)).
    rewrite Hext; [|eapply Hne; [exact Hy|lia]|eapply Hne; [exact Hx|lia]].
    eapply sw_incomp; [eapply (Ho k); [lia|by rewrite Hpk|exact Hy]|]. by eapply (Ho i); [lia|..].
Qed.

(** * The operations *)

Lemma new_rel : rq_rel newRequestPriorityQueue ∅.
Proof.
  split; [split|split].
  - by intros i p.
  - intros k Hk. cbn in Hk. lia.
  - intros id p. cbn. rewrite !lookup_empty, elem_of_nil. split; [done|by intros [[] _]].
  - intros id. cbn. by rewrite !lookup_empty.
  - intros p. cbn. rewrite fmap_empty, lookup_empty. by intros [].
Qed.

Lemma Add_rel q M id tpot :
  rq_rel q M -> is_nan tpot = false ->
  exists b q', rq_Add q id tpot = Some (b, q') /\
    (b = false /\ q' = q /\ (id = EmptyString \/ SFltb tpot f64_zero = true \/ is_Some (M !! id)) \/
     b = true /\ id <> EmptyString /\ SFltb tpot f64_zero = false /\ M !! id = None /\ rq_rel q' (<[id := tpot]> M)).
Proof.
  intros [Hq Hrep] Hn. pose proof Hq as [Hin Ho]. pose proof Hrep as [Hl Hm Hx]. unfold rq_Add.
  case_bool_decide as Hid; [by exists false, q; split; [|left; auto]|].
  destruct (SFltb tpot f64_zero) eqn:Hneg; [by exists false, q; split; [|left; auto]|].
  specialize (Hm id) as Hmid. cbn [frame_of fr_lookup fr_bodies] in Hmid.
  destruct (rq_lookup q !! id) as [p|] eqn:Hlk.
  { exists false, q. split; [done|]. left. split; [done|]. split; [done|]. right. right. rewrite Hmid. cbn [mbind option_bind].
    apply Hl in Hlk as [_ Hb]. cbn in Hb. by destruct ((body <$> rq_cells q) !! p). }
  set (p := rq_next q). set (q1 := q <| rq_cells := _ |> <| rq_next := _ |> <| rq_lookup := _ |>).
  assert (Hfresh : rq_cells q !! p = None).
  { destruct (rq_cells q !! p) as [r|] eqn:Hr; [|done]. specialize (Hx p). cbn in Hx. rewrite lookup_fmap, Hr in Hx.
    unfold p in Hx. specialize (Hx ltac:(by eexists)). lia. }
  assert (Hnot : p ∉ rq_items q).
  { intros Hp%(indexed_body q p Hin). cbn in Hp. rewrite lookup_fmap, Hfresh in Hp. by destruct Hp. }
  assert (Hbody : forall x, x <> p -> fr_bodies (frame_of q1) !! x = fr_bodies (frame_of q) !! x).
  { intros x Hne. cbn. by rewrite !lookup_fmap, lookup_insert_ne. }
  assert (Hq1 : heap_q q1).
  { split.
    - intros i x Hi. cbn in *. destruct (Hin _ _ Hi) as (r & Hr & Hrest). exists r. rewrite lookup_insert_ne; [done|].
      intros <-. by apply Hnot, (list_elem_of_lookup_2 _ i).
    - apply (heap_order_ext (before (frame_of q))); [|exact Ho]. intros x y Hxi Hyi. cbn [rq_items q1 set] in *.
      apply before_ext; apply Hbody; by intros ->. }
  destruct (q_Push q1 p (mkRequest id tpot 0)) as (q' & Hpush & Hq' & Hf & Hperm);
    [done|done|by cbn; rewrite lookup_insert_eq|done|].
  exists true, q'. rewrite Hpush. cbn [mbind option_bind]. split; [done|]. right. split; [done|]. split; [done|]. split; [done|].
  split; [by rewrite Hmid|]. split; [done|]. rewrite Hf. apply (represents_perm _ (p :: rq_items q)); [by rewrite Hperm|]. split.
  - intros id' p'. cbn [fr_lookup frame_of q1 rq_lookup set]. rewrite lookup_insert, elem_of_cons. case_decide as Hd; [subst id'|].
    + split; [intros [= <-]; split; [by left|]; cbn; by rewrite lookup_fmap, lookup_insert_eq|].
      intros [[->|Hp'] Hb]; [done|]. exfalso. rewrite Hbody in Hb by (by intros ->).
      assert (Hc : fr_lookup (frame_of q) !! id = Some p') by (by apply Hl). cbn in Hc. congruence.
    + rewrite (Hl id' p'). split.
      * intros [Hp' Hb]. split; [by right|]. rewrite Hbody; [done|]. by intros ->.
      * intros [[->|Hp'] Hb]; [cbn in Hb; rewrite lookup_fmap, lookup_insert_eq in Hb; cbn in Hb; congruence|].
        split; [done|]. rewrite Hbody in Hb; [done|]. by intros ->.
  - intros id'. cbn [fr_lookup frame_of q1 rq_lookup set]. rewrite !lookup_insert. case_decide as Hd; [subst id'|].
    + cbn. by rewrite lookup_fmap, lookup_insert_eq.
    + rewrite Hm. cbn [fr_lookup frame_of]. destruct (rq_lookup q !! id') as [p'|] eqn:Hp'; [|done]. cbn [mbind option_bind].
      rewrite Hbody; [done|]. intros ->. apply Hl in Hp' as [Hp' _]. done.
  - intros x. cbn. rewrite lookup_fmap, lookup_insert. case_decide; [lia|]. intros Hs. specialize (Hx x). cbn in Hx.
    rewrite lookup_fmap in Hx. specialize (Hx Hs). lia.
Qed.

(** The cell of an id that is looked up. *)
Lemma rel_cell q M id p :
  rq_rel q M -> rq_lookup q !! id = Some p ->
  exists r i, rq_cells q !! p = Some r /\ rq_id r = id /\ M !! id = Some (rq_tpot r) /\
    rq_items q !! i = Some p /\ rq_index r = Z.of_nat i /\ is_nan (rq_tpot r) = false.
Proof.
  intros [[Hin _] [Hl Hm _]] Hp. specialize (Hm id). cbn in Hm. rewrite Hp in Hm. cbn in Hm.
  destruct (proj1 (Hl id p) Hp) as [[i Hi]%list_elem_of_lookup Hb]. destruct (Hin _ _ Hi) as (r & Hr & Hx & Hn). cbn in Hb.
  rewrite lookup_fmap, Hr in Hb, Hm. cbn in Hb, Hm. injection Hb as Hb. by exists r, i.
Qed.

Lemma rel_absent q M id : rq_rel q M -> rq_lookup q !! id = None -> M !! id = None.
Proof. intros [_ [_ Hm _]] Hn. specialize (Hm id). cbn in Hm. by rewrite Hn in Hm. Qed.

Lemma Update_rel q M id tpot :
  rq_rel q M -> is_nan tpot = false ->
  exists b q', rq_Update q id tpot = Some (b, q') /\
    (b = false /\ q' = q /\ (SFltb tpot f64_zero = true \/ M !! id = None) \/
     b = true /\ SFltb tpot f64_zero = false /\ is_Some (M !! id) /\ rq_rel q' (<[id := tpot]> M)).
Proof.
  intros Hrel Hn. unfold rq_Update. destruct (SFltb tpot f64_zero) eqn:Hneg; [by exists false, q; split; [|left; auto]|].
  destruct (rq_lookup q !! id) as [p|] eqn:Hlk; [|exists false, q; split; [done|left; eauto using rel_absent]].
  destruct (rel_cell q M id p Hrel Hlk) as (r & i & Hr & Hid & HM & Hi & Hx & _).
  destruct Hrel as [[Hin Ho] [Hl Hm Hnx]]. set (q1 := q <| rq_cells := alter (fun r => r <| rq_tpot := tpot |>) p (rq_cells q) |>).
  assert (Hc1 : rq_cells q1 !! p = Some (r <| rq_tpot := tpot |>)) by (cbn; by rewrite lookup_alter_eq, Hr).
  rewrite Hc1. cbn [mbind option_bind]. change (rq_index (r <| rq_tpot := tpot |>)) with (rq_index r).
  rewrite Hx. destruct (Z.ltb_spec (Z.of_nat i) 0) as [|_]; [lia|]. rewrite Nat2Z.id.
  assert (Hbp : fr_bodies (frame_of q1) !! p = Some (id, tpot)) by (cbn; by rewrite lookup_fmap, lookup_alter_eq, Hr; cbn; rewrite Hid).
  assert (Hbody : forall x, x <> p -> fr_bodies (frame_of q1) !! x = fr_bodies (frame_of q) !! x).
  { intros x Hne. cbn. by rewrite !lookup_fmap, lookup_alter_ne. }
  assert (Hin1 : indexed q1).
  { intros j x Hj. cbn in Hj. destruct (Hin _ _ Hj) as (rx & Hrx & Hjx & Hnn). cbn. destruct (decide (x = p)) as [->|Hne].
    - rewrite lookup_alter_eq, Hrx. eexists. split; [reflexivity|]. done.
    - rewrite lookup_alter_ne by done. by exists rx. }
  destruct (q_Fix q1 i) as (q' & Hfix & Hq' & Hf & Hperm); [done|by eapply lookup_lt_Some| |].
  { apply (changed_hole (before (frame_of q)) _ _ _ i p); [by apply rq_indexed_nodup|done| |done|done].
    intros x y Hxp Hyp. by apply before_ext; apply Hbody. }
  exists true, q'. rewrite Hfix. cbn [mbind option_bind]. split; [done|]. right. split; [done|]. split; [done|].
  split; [by rewrite HM|]. split; [done|]. rewrite Hf. apply (represents_perm _ (rq_items q)); [by rewrite Hperm|].
  assert (Hfst : forall x, fst <$> fr_bodies (frame_of q1) !! x = fst <$> fr_bodies (frame_of q) !! x).
  { intros x. destruct (decide (x = p)) as [->|Hne]; [|by rewrite Hbody]. rewrite Hbp. cbn. rewrite lookup_fmap, Hr. cbn. by rewrite Hid. }
  split.
  - intros id' p'. cbn [fr_lookup frame_of q1 rq_lookup set]. rewrite (Hl id' p'). by rewrite Hfst.
  - intros id'. cbn [fr_lookup frame_of q1 rq_lookup set]. rewrite lookup_insert. case_decide as Hd; [subst id'|].
    + rewrite Hlk. cbn [mbind option_bind]. by rewrite Hbp.
    + rewrite Hm. cbn [fr_lookup frame_of]. destruct (rq_lookup q !! id') as [p'|] eqn:Hp'; [|done]. cbn [mbind option_bind].
      rewrite Hbody; [done|]. intros ->. apply Hl in Hp' as [_ Hb]. cbn in Hb. rewrite lookup_fmap, Hr in Hb. cbn in Hb. congruence.
  - intros x Hs. apply Hnx. rewrite <- (fmap_is_Some fst), <- Hfst. by rewrite fmap_is_Some.
Qed.

Lemma Remove_rel q M id :
  rq_rel q M -> exists res q', rq_Remove q id = Some (res, q') /\ rq_rel q' (delete id M) /\
    match res with
    | None => M !! id = None /\ q' = q
    | Some r => rq_id r = id /\ M !! id = Some (rq_tpot r)
    end.
Proof.
  intros Hrel. unfold rq_Remove. destruct (rq_lookup q !! id) as [p|] eqn:Hlk.
  2: { pose proof (rel_absent q M id Hrel Hlk) as HM. exists None, q. by rewrite delete_id. }
  destruct (rel_cell q M id p Hrel Hlk) as (r & i & Hr & Hid & HM & Hi & Hx & _). rewrite Hr. cbn [mbind option_bind]. rewrite Hx.
  destruct (Z.ltb_spec (Z.of_nat i) 0) as [|_]; [lia|]. rewrite Nat2Z.id.
  destruct Hrel as [Hq [Hl Hm Hnx]]. destruct (q_Remove q i p Hq Hi) as (q1 & Hrm & Hq1 & Hf & Hperm). rewrite Hrm. cbn [mbind option_bind].
  pose proof (f_equal fr_lookup Hf : rq_lookup q1 = rq_lookup q) as Hfl. pose proof (f_equal fr_next Hf : rq_next q1 = rq_next q) as Hfn.
  assert (Hnot : p ∉ rq_items q1).
  { pose proof (rq_indexed_nodup q (proj1 Hq)) as Hnd. rewrite Hperm in Hnd. by apply NoDup_cons in Hnd as []. }
  assert (Hcell : exists r', rq_cells q1 !! p = Some r' /\ body r' = body r).
  { assert (H : fr_bodies (frame_of q1) !! p = Some (body r)) by (rewrite Hf; cbn; by rewrite lookup_fmap, Hr). cbn in H. rewrite lookup_fmap in H.
    destruct (rq_cells q1 !! p) as [r'|]; [|done]. injection H as H1 H2. exists r'. split; [done|]. unfold body. congruence. }
  destruct Hcell as (r' & Hr' & Hb'). rewrite Hr'. cbn [mbind option_bind]. injection Hb' as Hb1 Hb2.
  exists (Some r'), (q1 <| rq_lookup := delete id (rq_lookup q1) |>). split; [done|]. split; [|by rewrite Hb1, Hb2].
  split; [exact Hq1|].
  replace (frame_of _) with (mkFrame (body <$> rq_cells q) (delete id (rq_lookup q)) (rq_next q)) by (unfold frame_of in *; cbn; congruence).
  split; cbn.
  - intros id' p'. rewrite lookup_delete. case_decide as Hd.
    + subst id'. split; [done|]. intros [Hp' Hb]. exfalso.
      assert (Hc : rq_lookup q !! id = Some p') by (apply Hl; split; [rewrite Hperm; by right|done]). congruence.
    + rewrite (Hl id' p'). cbn. rewrite Hperm, elem_of_cons. split; [|by intros [? ?]; auto].
      intros [[->|Hp'] Hb]; [|done]. rewrite lookup_fmap, Hr in Hb. cbn in Hb. congruence.
  - intros id'. rewrite !lookup_delete. case_decide; [done|]. by rewrite Hm.
  - exact Hnx.
Qed.

(** The first item has the smallest objective. *)
Lemma Peek_rel q M :
  rq_rel q M ->
  match rq_Peek q with
  | None => M = ∅
  | Some r => M !! rq_id r = Some (rq_tpot r) /\ forall id t, M !! id = Some t -> SFltb t (rq_tpot r) = false
  end.
Proof.
  intros Hrel. pose proof Hrel as [[Hin Ho] [Hl Hm _]]. unfold rq_Peek.
  assert (Hpos : forall id t, M !! id = Some t -> exists k p' r', rq_items q !! k = Some p' /\ rq_cells q !! p' = Some r' /\ rq_tpot r' = t).
  { intros id t Ht. destruct (rq_lookup q !! id) as [p'|] eqn:Hp'; [|by rewrite (rel_absent q M id) in Ht].
    destruct (rel_cell q M id p' Hrel Hp') as (r' & i & Hr' & _ & HM & Hi & _). exists i, p', r'. split; [done|]. split; [done|]. congruence. }
  destruct (head (rq_items q)) as [p|] eqn:Hhead; cbn [mbind option_bind].
  2: { apply map_empty. intros id. destruct (M !! id) as [t|] eqn:Ht; [|done]. destruct (Hpos id t Ht) as (k & ? & ? & Hk & _).
       by destruct (rq_items q). }
  assert (H0 : rq_items q !! 0%nat = Some p) by (by destruct (rq_items q)).
  destruct (Hin 0%nat p H0) as (r & Hr & _ & Hn). rewrite Hr. split.
  - assert (Hp : rq_lookup q !! rq_id r = Some p).
    { apply Hl. split; [by eapply list_elem_of_lookup_2|]. cbn. by rewrite lookup_fmap, Hr. }
    destruct (rel_cell q M _ p Hrel Hp) as (r' & i & Hr' & _ & HM & _). congruence.
  - intros id t Ht. destruct (Hpos id t Ht) as (k & p' & r' & Hk & Hr' & <-). destruct (Hin k p' Hk) as (r2 & Hr2 & _ & Hn2).
    assert (Hb : before (frame_of q) p' p = false) by exact (heap_order_root _ _ _ _ _ _ Ho H0 (lookup_lt_Some _ _ _ Hk) Hk).
    unfold before, tpot_of in Hb. cbn in Hb. rewrite !lookup_fmap, Hr, Hr' in Hb. cbn in Hb. rewrite SFltb_key; [done| |done]. congruence.
Qed.

Lemma Size_rel q M : rq_rel q M -> rq_GetSize q = size M.
Proof.
  intros Hrel. pose proof Hrel as [[Hin Ho] [Hl Hm _]]. unfold rq_GetSize.
  assert (Hdom : dom M = dom (rq_lookup q)).
  { apply set_eq. intros id. rewrite !elem_of_dom. destruct (rq_lookup q !! id) as [p|] eqn:Hp.
    - destruct (rel_cell q M id p Hrel Hp) as (r & i & _ & _ & -> & _). split; by eexists.
    - by rewrite (rel_absent q M id). }
  rewrite <- size_dom, Hdom, size_dom. rewrite <- length_map_to_list, <- (length_fmap snd). apply Permutation_length.
  apply NoDup_Permutation; [by apply rq_indexed_nodup| |].
  - apply NoDup_fmap_2_strong; [|apply NoDup_map_to_list]. intros [i1 p1] [i2 p2] H1%elem_of_map_to_list H2%elem_of_map_to_list Heq.
    cbn in Heq. subst p2. apply Hl in H1 as [_ H1], H2 as [_ H2]. congruence.
  - intros p. rewrite list_elem_of_fmap. split.
    + intros Hp. destruct (indexed_body q p Hin Hp) as [[id t] Hb]. exists (id, p). split; [done|]. apply elem_of_map_to_list.
      apply Hl. split; [done|]. by rewrite Hb.
    + intros ([id p'] & -> & Hp%elem_of_map_to_list). by apply Hl in Hp as [? _].
Qed.

Lemma Contains_rel q M id : rq_rel q M -> rq_Contains q id = bool_decide (is_Some (M !! id)).
Proof.
  intros Hrel. unfold rq_Contains. apply bool_decide_ext. destruct (rq_lookup q !! id) as [p|] eqn:Hp.
  - destruct (rel_cell q M id p Hrel Hp) as (r & i & _ & _ & -> & _). split; by eexists.
  - by rewrite (rel_absent q M id).
Qed.

(** * The queue refines a map *)

Inductive rq_op :=
| OpAdd (id : string) (tpot : spec_float)
| OpUpdate (id : string) (tpot : spec_float)
| OpRemove (id : string)
| OpPeek
| OpSize
| OpContains (id : string).

Inductive rq_result :=
| RBool (b : bool)
| RItem (item : option (string * spec_float))
| RSize (n : nat).

Definition rq_exec (q : requestPriorityQueue) (o : rq_op) : option (rq_result * requestPriorityQueue) :=
  match o with
  | OpAdd id tpot => '(b, q) ← rq_Add q id tpot; Some (RBool b, q)
  | OpUpdate id tpot => '(b, q) ← rq_Update q id tpot; Some (RBool b, q)
  | OpRemove id => '(r, q) ← rq_Remove q id; Some (RItem (body <$> r), q)
  | OpPeek => Some (RItem (body <$> rq_Peek q), q)
  | OpSize => Some (RSize (rq_GetSize q), q)
  | OpContains id => Some (RBool (rq_Contains q id), q)
  end.

(** What an operation returns, and what it does to the map. *)
Definition rq_spec (M : gmap string spec_float) (o : rq_op) (res : rq_result) (M' : gmap string spec_float) : Prop :=
  match o with
  | OpAdd id tpot =>
      let ok := negb (bool_decide (id = EmptyString)) && negb (SFltb tpot f64_zero) && bool_decide (M !! id = None) in
      res = RBool ok /\ M' = if ok then <[id := tpot]> M else M
  | OpUpdate id tpot =>
      let ok := negb (SFltb tpot f64_zero) && bool_decide (is_Some (M !! id)) in
      res = RBool ok /\ M' = if ok then <[id := tpot]> M else M
  | OpRemove id => res = RItem (pair id <$> M !! id) /\ M' = delete id M
  | OpPeek => M' = M /\
      match res with
      | RItem (Some (id, t)) => M !! id = Some t /\ forall id' t', M !! id' = Some t' -> SFltb t' t = false
      | RItem None => M = ∅
      | _ => False
      end
  | OpSize => res = RSize (size M) /\ M' = M
  | OpContains id => res = RBool (bool_decide (is_Some (M !! id))) /\ M' = M
  end.

(** The objectives of an operation are numbers. *)
Definition op_number (o : rq_op) : Prop :=
  match o with OpAdd _ t | OpUpdate _ t => is_nan t = false | _ => True end.

Lemma rq_exec_rel q M o :
  rq_rel q M -> op_number o -> exists res q' M', rq_exec q o = Some (res, q') /\ rq_rel q' M' /\ rq_spec M o res M'.
Proof.
  intros Hrel Hn. destruct o as [id t|id t|id| | |id]; cbn [rq_exec rq_spec].
  - destruct (Add_rel q M id t Hrel Hn) as (b & q' & -> & Hc). cbn [mbind option_bind].
    destruct Hc as [(-> & -> & Hno)|(-> & Hid & Hneg & HM & Hrel')].
    + exists (RBool false), q, M. split; [done|]. split; [done|].
      assert (Hf : negb (bool_decide (id = EmptyString)) && negb (SFltb t f64_zero) && bool_decide (M !! id = None) = false).
      { destruct Hno as [->|[->|[x ->]]]; [done|by rewrite andb_false_r|]. by rewrite (bool_decide_eq_false_2 (_ = None)), andb_false_r. }
      by rewrite Hf.
    + exists (RBool true), q', (<[id := t]> M). split; [done|]. split; [done|].
      by rewrite bool_decide_eq_false_2, Hneg, bool_decide_eq_true_2.
  - destruct (Update_rel q M id t Hrel Hn) as (b & q' & -> & Hc). cbn [mbind option_bind].
    destruct Hc as [(-> & -> & Hno)|(-> & Hneg & HM & Hrel')].
    + exists (RBool false), q, M. split; [done|]. split; [done|]. destruct Hno as [-> | ->]; [done|].
      rewrite bool_decide_eq_false_2 by (by intros []). by rewrite andb_false_r.
    + exists (RBool true), q', (<[id := t]> M). split; [done|]. split; [done|]. by rewrite Hneg, bool_decide_eq_true_2.
  - destruct (Remove_rel q M id Hrel) as (r & q' & -> & Hrel' & Hr). cbn [mbind option_bind]. eexists _, q', _. split; [reflexivity|].
    split; [exact Hrel'|]. split; [|done]. destruct r as [r|]; [by destruct Hr as [<- ->]|by destruct Hr as [-> _]].
  - eexists _, q, M. split; [reflexivity|]. split; [done|]. split; [done|]. pose proof (Peek_rel q M Hrel) as Hp.
    by destruct (rq_Peek q).
  - eexists _, q, M. split; [reflexivity|]. split; [done|]. by rewrite (Size_rel q M Hrel).
  - eexists _, q, M. split; [reflexivity|]. split; [done|]. by rewrite (Contains_rel q M id Hrel).
Qed.

Fixpoint rq_run (q : requestPriorityQueue) (ops : list rq_op) : option (list rq_result * requestPriorityQueue) :=
  match ops with
  | [] => Some ([], q)
  | o :: ops => '(res, q) ← rq_exec q o; '(rs, q) ← rq_run q ops; Some (res :: rs, q)
  end.

Inductive rq_specs : gmap string spec_float -> list rq_op -> list rq_result -> gmap string spec_float -> Prop :=
| specs_nil M : rq_specs M [] [] M
| specs_cons M o res M1 ops rs M2 : rq_spec M o res M1 -> rq_specs M1 ops rs M2 -> rq_specs M (o :: ops) (res :: rs) M2.

Lemma rq_run_rel ops : forall q M,
  rq_rel q M -> Forall op_number ops -> exists rs q' M', rq_run q ops = Some (rs, q') /\ rq_rel q' M' /\ rq_specs M ops rs M'.
Proof.
  induction ops as [|o ops IH]; intros q M Hrel Hn; [exists [], q, M; split_and!; [done..|constructor]|].
  apply Forall_cons in Hn as [Hn Hns]. destruct (rq_exec_rel q M o Hrel Hn) as (res & q1 & M1 & Hex & Hrel1 & Hsp).
  destruct (IH q1 M1 Hrel1 Hns) as (rs & q' & M' & Hrun & Hrel' & Hsps). exists (res :: rs), q', M'. cbn [rq_run]. rewrite Hex.
  cbn [mbind option_bind]. rewrite Hrun. split; [done|]. split; [done|]. by econstructor.
Qed.

(** C31: The queue of running requests refines a map from ids to objectives.  Under
    every sequence of operations whose objectives are numbers no operation panics,
    each returns what the map gives, and peeking returns an entry with the
    smallest objective. *)
Theorem request_queue_refines ops :
  Forall op_number ops ->
  exists rs q M, rq_run newRequestPriorityQueue ops = Some (rs, q) /\ rq_specs ∅ ops rs M /\
    rq_GetSize q = size M /\ forall id, rq_Contains q id = bool_decide (is_Some (M !! id)).
Proof.
  intros Hn. destruct (rq_run_rel ops _ _ new_rel Hn) as (rs & q & M & Hrun & Hrel & Hsp). exists rs, q, M.
  split; [done|]. split; [done|]. split; [by apply Size_rel|]. intros id. by apply Contains_rel.
Qed.

Definition sample_rq_ops : list rq_op :=
  [OpAdd "a" (f64_of_int 30); OpAdd "b" (f64_of_int 10); OpAdd "c" (f64_of_int 20); OpUpdate "b" (f64_of_int 40); OpRemove "c"; OpPeek].

Lemma request_queue_refines_witness :
  exists rs q, rq_run newRequestPriorityQueue sample_rq_ops = Some (rs, q) /\ last rs = Some (RItem (Some ("a", f64_of_int 30))).
Proof.
  destruct (request_queue_refines sample_rq_ops) as (rs & q & M & Hrun & _); [by repeat constructor|].
  exists rs, q. split; [exact Hrun|].
  assert (Hl : match rq_run newRequestPriorityQueue sample_rq_ops with Some (rs, _) => last rs | None => None end =
    Some (RItem (Some ("a", f64_of_int 30)))) by (vm_compute; reflexivity).
  rewrite Hrun in Hl. exact Hl.
Defined.

(** An objective that is not a number passes the checks of [Add], and the queue
    loses its order: the smallest objective is not found any more. *)
Theorem nan_objective_breaks_order :
  exists rs q, rq_run newRequestPriorityQueue
      [OpAdd "a" S754_nan; OpAdd "b" (f64_of_int 10); OpAdd "c" (f64_of_int 20); OpPeek] = Some (rs, q) /\
    rs = [RBool true; RBool true; RBool true; RItem (Some ("a", S754_nan))] /\ rq_Contains q "b" = true.
Proof. eexists _, _. split; [vm_compute; reflexivity|]. split; [reflexivity|]. vm_compute. reflexivity. Qed.
