(* ===== verification/Coalescer.v ===== *)
(** The coalescer of the latency predictor's client
    (src/sidecars/latencypredictorasync/coalescer.go, latencypredictor_async.go,
    prediction.go): concurrent callers of the bulk prediction are merged into one
    HTTP call, whose result is cut into the parts of the callers.

    Callers, dispatcher, timer and calls interleave as labelled steps; the HTTP
    call is an arbitrary result that arrives at an arbitrary time.  Requests and
    predictions are opaque. *)

From S2P Require Import Prelude.

Section Coalescer.

Context {R P : Type}.

(** * Data *)

Record BulkPredictionResponse := mkBulk {
  Predictions : list P;
  TotalRequests : nat;
  SuccessfulPredictions : nat;
  FailedPredictions : nat;
  ProcessingTimeMs : Z
}.

(** A submission; its result channel, which holds one result, is [results] of the
    state. *)
Record batchSubmission := { sub_id : nat; sub_requests : list R }.

Definition batchResult : Type := BulkPredictionResponse + string.

Record Config := { MaxCoalescedRows : Z; MaxConcurrentDispatches : nat; chanCapacity : nat }.

Context (cfg : Config).

(** A batch waits for a slot, or is in its HTTP call. *)
Inductive batch := Waiting (subs : list batchSubmission) | Calling (subs : list batchSubmission).

Definition batch_subs (b : batch) : list batchSubmission := match b with Waiting subs | Calling subs => subs end.

Record Predictor := mkPredictor {
  coalesceCh : list batchSubmission;
  running : bool;                          (* the dispatcher *)
  pending : list batchSubmission;
  totalRows : Z;
  timer : bool;
  batches : gmap nat batch;                (* the goroutines of dispatched batches *)
  nextBatch : nat;
  dispatchSem : nat;
  stopped : bool;                          (* [done] is closed *)
  waiting : gset nat;                      (* callers that wait for their result *)
  results : gmap nat batchResult;          (* results not received yet *)
  returned : gmap nat batchResult
}.

#[global] Instance eta_Predictor : Eta Predictor := fun s =>
  mkPredictor (coalesceCh s) (running s) (pending s) (totalRows s) (timer s) (batches s) (nextBatch s) (dispatchSem s) (stopped s)
    (waiting s) (results s) (returned s).

Definition New : Predictor := mkPredictor [] true [] 0 false ∅ 0 (MaxConcurrentDispatches cfg) false ∅ ∅ ∅.

Definition shutting_down : batchResult := inr "predictor shutting down".

(** Sending a result; the channel has room for one. *)
Definition send_result (s : Predictor) (id : nat) (r : batchResult) : option Predictor :=
  match results s !! id with
  | Some _ => None
  | None => Some (s <| results := <[id := r]> (results s) |>)
  end.

Definition reject_all (s : Predictor) (subs : list batchSubmission) : option Predictor :=
  ofold (fun s sub => send_result s (sub_id sub) shutting_down) subs s.

(** * The dispatcher *)

Definition dispatch (s : Predictor) : Predictor :=
  match pending s with
  | [] => s
  | subs => s <| pending := [] |> <| totalRows := 0 |>
              <| batches := <[nextBatch s := Waiting subs]> (batches s) |> <| nextBatch := S (nextBatch s) |>
  end.

Definition accumulate (s : Predictor) (sub : batchSubmission) : Predictor :=
  let s := s <| pending := pending s ++ [sub] |> <| totalRows := totalRows s + Z.of_nat (length (sub_requests sub)) |>
             <| timer := true |> in
  if (0 <? MaxCoalescedRows cfg) && (MaxCoalescedRows cfg <=? totalRows s) then dispatch (s <| timer := false |>) else s.

(** The merging loop: all requests of a batch in one list, and for each
    submission where its part begins and how long it is. *)
Record merged := { allRequests : list R; offsets : list nat; counts : list nat }.

Definition merge_one (acc : merged * nat) (sub : batchSubmission) : merged * nat :=
  let '(m, offset) := acc in
  ({| allRequests := allRequests m ++ sub_requests sub;
      offsets := offsets m ++ [offset];
      counts := counts m ++ [length (sub_requests sub)] |}, offset + length (sub_requests sub))%nat.

Definition merge (subs : list batchSubmission) : merged :=
  (foldl merge_one ({| allRequests := []; offsets := []; counts := [] |}, 0%nat) subs).1.

(** [l[lo:hi]], which panics out of range. *)
Definition slice (l : list P) (lo hi : nat) : option (list P) :=
  if Nat.leb lo hi && Nat.leb hi (length l) then Some (take (hi - lo) (drop lo l)) else None.

(** The result of the submission with index [i]. *)
Definition part (resp : BulkPredictionResponse + string) (m : merged) (i : nat) : option batchResult :=
  match resp with
  | inr err => Some (inr err)
  | inl bulk =>
      lo ← offsets m !! i;
      count ← counts m !! i;
      let hi := (lo + count)%nat in
      if Nat.ltb (length (Predictions bulk)) hi then Some (inr "coalesced response too short")
      else callerPredictions ← slice (Predictions bulk) lo hi;
           Some (inl (mkBulk callerPredictions count count 0 (ProcessingTimeMs bulk)))
  end.

(** The loop that sends the results, from index [i] on. *)
Fixpoint fan_out (resp : BulkPredictionResponse + string) (m : merged) (i : nat) (subs : list batchSubmission)
    (s : Predictor) : option Predictor :=
  match subs with
  | [] => Some s
  | sub :: subs =>
      result ← part resp m i;
      s ← send_result s (sub_id sub) result;
      fan_out resp m (S i) subs s
  end.

(** [resp] is what the call with the merged requests returned. *)
Definition dispatchBatch (resp : BulkPredictionResponse + string) (subs : list batchSubmission) (s : Predictor) : option Predictor :=
  fan_out resp (merge subs) 0 subs s.

(** * The caller *)

(** The caller hands its submission over, with a result channel of its own, when
    the channel has room. *)
Definition submit_send (s : Predictor) (id : nat) (requests : list R) : option Predictor :=
  if bool_decide (id ∈ waiting s) || bool_decide (is_Some (results s !! id)) || bool_decide (is_Some (returned s !! id)) then None
  else if Nat.ltb (length (coalesceCh s)) (chanCapacity cfg)
  then Some (s <| coalesceCh := coalesceCh s ++ [{| sub_id := id; sub_requests := requests |}] |> <| waiting := {[ id ]} ∪ waiting s |>)
  else None.

(** Then it waits for its result or for the end of its context. *)
Definition submit_result (s : Predictor) (id : nat) : option Predictor :=
  match results s !! id with
  | Some r => if bool_decide (id ∈ waiting s)
              then Some (s <| results := delete id (results s) |> <| waiting := waiting s ∖ {[ id ]} |> <| returned := <[id := r]> (returned s) |>)
              else None
  | None => None
  end.

Definition submit_cancel (s : Predictor) (id : nat) : option Predictor :=
  if bool_decide (id ∈ waiting s)
  then Some (s <| waiting := waiting s ∖ {[ id ]} |> <| returned := <[id := inr "context done"]> (returned s) |>)
  else None.

(** * Steps *)

Inductive label :=
| LSubmit (id : nat) (requests : list R)   (* a caller hands its submission over *)
| LReceive                                 (* the dispatcher takes one from the channel *)
| LTimer                                   (* the window ends *)
| LDispatcherDone                          (* the dispatcher sees that the client is stopped *)
| LAcquire (b : nat)                       (* a batch gets a slot and calls *)
| LBatchDone (b : nat)                     (* a batch sees that the client is stopped *)
| LFinish (b : nat) (resp : BulkPredictionResponse + string)
| LReturn (id : nat)                       (* a caller takes its result *)
| LCancel (id : nat)                       (* the context of a caller ends *)
| LStop.

Definition step (s : Predictor) (l : label) : option Predictor :=
  match l with
  | LSubmit id requests => submit_send s id requests
  | LReceive =>
      if running s then
        match coalesceCh s with
        | [] => None
        | sub :: rest => Some (accumulate (s <| coalesceCh := rest |>) sub)
        end
      else None
  | LTimer => if running s && timer s then Some (dispatch (s <| timer := false |>)) else None
  | LDispatcherDone =>
      if running s && stopped s then reject_all (s <| running := false |> <| pending := [] |>) (pending s) else None
  | LAcquire b =>
      match batches s !! b, dispatchSem s with
      | Some (Waiting subs), S n => Some (s <| dispatchSem := n |> <| batches := <[b := Calling subs]> (batches s) |>)
      | _, _ => None
      end
  | LBatchDone b =>
      match batches s !! b with
      | Some (Waiting subs) => if stopped s then reject_all (s <| batches := delete b (batches s) |>) subs else None
      | _ => None
      end
  | LFinish b resp =>
      match batches s !! b with
      | Some (Calling subs) =>
          s ← dispatchBatch resp subs s;
          Some (s <| batches := delete b (batches s) |> <| dispatchSem := S (dispatchSem s) |>)
      | _ => None
      end
  | LReturn id => submit_result s id
  | LCancel id => submit_cancel s id
  | LStop => if stopped s then None else Some (s <| stopped := true |>)
  end.

Definition steps (s : Predictor) (ls : list label) : option Predictor := ofold step ls s.

(** * Runs *)

Definition all_requests (subs : list batchSubmission) : list R := subs ≫= sub_requests.

(** The requests that were handed over, by caller. *)
Definition record (g : gmap nat (list R)) (l : label) : gmap nat (list R) :=
  match l with LSubmit id requests => <[id := requests]> g | _ => g end.

Inductive reachable : gmap nat (list R) -> Predictor -> Prop :=
| reach_new : reachable ∅ New
| reach_step g s l s' : reachable g s -> step s l = Some s' -> reachable (record g l) s'.

Lemma steps_reachable ls : forall g s s', reachable g s -> steps s ls = Some s' -> reachable (foldl record g ls) s'.
Proof.
  induction ls as [|l ls IH]; intros g s s' Hr; unfold steps; cbn [ofold]; [by intros [= <-]|].
  intros (s1 & Hs & Hrest)%bind_Some. by eapply IH; [eapply reach_step|].
Qed.

Section Runs.

(** What is a prediction of a request. *)
Context (predicts : R -> P -> Prop).

(** The server answers the requests it was sent in their order.  A response may
    be too short or too long. *)
Definition honest (s : Predictor) (l : label) : Prop :=
  match l with
  | LFinish b (inl bulk) =>
      match batches s !! b with
      | Some (Calling subs) => forall i r p, allRequests (merge subs) !! i = Some r -> Predictions bulk !! i = Some p -> predicts r p
      | _ => True
      end
  | _ => True
  end.

Inductive honestly : gmap nat (list R) -> Predictor -> Prop :=
| honest_new : honestly ∅ New
| honest_step g s l s' : honestly g s -> honest s l -> step s l = Some s' -> honestly (record g l) s'.

Fixpoint honest_run (s : Predictor) (ls : list label) : Prop :=
  match ls with
  | [] => True
  | l :: ls => honest s l /\ match step s l with Some s' => honest_run s' ls | None => False end
  end.

Lemma honest_run_reachable ls : forall g s, honestly g s -> honest_run s ls ->
  exists s', steps s ls = Some s' /\ honestly (foldl record g ls) s'.
Proof.
  induction ls as [|l ls IH]; intros g s Hr Hh; [by exists s|]. destruct Hh as [Hl Hh]. destruct (step s l) as [s1|] eqn:Hs; [|done].
  destruct (IH (record g l) s1) as (s' & Hst & Hr'); [by eapply honest_step|done|]. exists s'. split; [|exact Hr'].
  unfold steps. cbn [ofold]. by rewrite Hs.
Qed.

(** Every submission that has no result yet, wherever it is. *)
Definition batch_list (m : gmap nat batch) : list batchSubmission := map_to_list m ≫= fun kb => batch_subs kb.2.

Definition inside (s : Predictor) : list batchSubmission := coalesceCh s ++ pending s ++ batch_list (batches s).

(** The calls under way. *)
Definition is_call (kb : nat * batch) : option nat := match kb.2 with Calling _ => Some kb.1 | Waiting _ => None end.
Definition calling (m : gmap nat batch) : list nat := omap is_call (map_to_list m).

(** What a caller may be given. *)
Definition own_result (g : gmap nat (list R)) (id : nat) (r : batchResult) : Prop :=
  match r with
  | inl bulk => exists requests, g !! id = Some requests /\ Forall2 predicts requests (Predictions bulk) /\
                  TotalRequests bulk = length requests
  | inr _ => True
  end.

(** Callers and results: a submission is inside until it has a result. *)
Record core (g : gmap nat (list R)) (ins : list batchSubmission) (res : gmap nat batchResult) (wait : gset nat)
    (ret : gmap nat batchResult) : Prop := {
  co_nodup : NoDup (sub_id <$> ins);
  co_inside sub : sub ∈ ins -> res !! sub_id sub = None /\ g !! sub_id sub = Some (sub_requests sub);
  co_waiting id : id ∈ wait -> res !! id = None -> id ∈ sub_id <$> ins;
  co_known id : is_Some (g !! id) <-> id ∈ wait \/ is_Some (ret !! id);
  co_results id r : res !! id = Some r -> own_result g id r /\ is_Some (g !! id);
  co_returned id r : ret !! id = Some r -> own_result g id r
}.

(** The dispatcher and its batches. *)
Record disp (s : Predictor) : Prop := {
  di_sem : (dispatchSem s + length (calling (batches s)))%nat = MaxConcurrentDispatches cfg;
  di_timer : running s = true -> timer s = true <-> pending s <> [];
  di_rows : running s = true -> totalRows s = Z.of_nat (length (all_requests (pending s)));
  di_next b : is_Some (batches s !! b) -> (b < nextBatch s)%nat
}.

Definition ok (g : gmap nat (list R)) (s : Predictor) : Prop :=
  core g (inside s) (results s) (waiting s) (returned s) /\ disp s.

(** * Sending results *)

(** The results of the submissions [subs] have been sent, each one that is given
    by [Q], and nothing else has changed. *)
Definition sent (Q : batchSubmission -> batchResult -> Prop) (subs : list batchSubmission) (s s' : Predictor) : Prop :=
  exists res, s' = s <| results := res |> /\
    (forall id, id ∉ sub_id <$> subs -> res !! id = results s !! id) /\
    (forall sub, sub ∈ subs -> exists r, res !! sub_id sub = Some r /\ Q sub r).

Definition unsent (subs : list batchSubmission) (s : Predictor) : Prop :=
  NoDup (sub_id <$> subs) /\ forall sub, sub ∈ subs -> results s !! sub_id sub = None.

Lemma sent_cons Q sub subs s s1 s' r :
  unsent (sub :: subs) s -> send_result s (sub_id sub) r = Some s1 -> Q sub r -> sent Q subs s1 s' -> sent Q (sub :: subs) s s'.
Proof.
  intros [Hnd Hnone] Hs HQ (res & -> & Hout & Hin). unfold send_result in Hs. rewrite Hnone in Hs by (by left). injection Hs as <-.
  cbn in Hnd. apply NoDup_cons in Hnd as [Hn _]. exists res. split; [done|]. cbn in Hout. split.
  - intros id Hid. cbn in Hid. apply not_elem_of_cons in Hid as [H1 H2]. rewrite Hout by done. by rewrite lookup_insert_ne.
  - intros x Hx. apply elem_of_cons in Hx as [->|Hx]; [|by apply Hin]. exists r. split; [|done]. rewrite Hout by done. by rewrite lookup_insert_eq.
Qed.

Lemma unsent_cons sub subs s :
  unsent (sub :: subs) s -> forall r, exists s1, send_result s (sub_id sub) r = Some s1 /\ unsent subs s1.
Proof.
  intros [Hnd Hnone] r. unfold send_result. rewrite Hnone by (by left). eexists. split; [reflexivity|].
  cbn in Hnd. apply NoDup_cons in Hnd as [Hn Hnd]. split; [done|]. intros x Hx. cbn. rewrite lookup_insert_ne; [apply Hnone; by right|].
  intros Heq. apply Hn. rewrite Heq. by apply list_elem_of_fmap_2.
Qed.

Lemma reject_all_sent subs : forall s, unsent subs s ->
  exists s', reject_all s subs = Some s' /\ sent (fun _ r => r = shutting_down) subs s s'.
Proof.
  induction subs as [|sub subs IH]; intros s Hu.
  - exists s. split; [done|]. exists (results s). split; [by destruct s|]. split; [done|]. by intros sub ?%elem_of_nil.
  - destruct (unsent_cons sub subs s Hu shutting_down) as (s1 & Hs1 & Hu1). destruct (IH s1 Hu1) as (s' & Hr & Hsent).
    exists s'. unfold reject_all in *. cbn [ofold]. rewrite Hs1. split; [exact Hr|]. by eapply sent_cons.
Qed.

(** ** Merging *)

Lemma merge_fold subs : foldl merge_one ({| allRequests := []; offsets := []; counts := [] |}, 0%nat) subs =
  (merge subs, length (all_requests subs)) /\ allRequests (merge subs) = all_requests subs /\
  length (offsets (merge subs)) = length subs /\ length (counts (merge subs)) = length subs.
Proof.
  induction subs as [|sub subs IH] using rev_ind; [done|]. destruct IH as (IH & Hall & Ho & Hc).
  set (X := {| allRequests := allRequests (merge subs) ++ sub_requests sub;
    offsets := offsets (merge subs) ++ [length (all_requests subs)]; counts := counts (merge subs) ++ [length (sub_requests sub)] |}).
  assert (Hf : foldl merge_one ({| allRequests := []; offsets := []; counts := [] |}, 0%nat) (subs ++ [sub]) =
    (X, length (all_requests subs) + length (sub_requests sub))%nat) by (by rewrite foldl_app, IH).
  assert (Hm : merge (subs ++ [sub]) = X) by (unfold merge; by rewrite Hf).
  assert (Happ : all_requests (subs ++ [sub]) = all_requests subs ++ sub_requests sub).
  { unfold all_requests. rewrite bind_app. cbn. by rewrite app_nil_r. }
  rewrite Hf, Hm, Happ. unfold X. cbn [allRequests offsets counts]. rewrite !length_app, Hall, Ho, Hc. by split_and!.
Qed.

(** The merged list has the requests of a submission at its offset. *)
Lemma merge_spec subs i sub :
  subs !! i = Some sub ->
  exists lo B, offsets (merge subs) !! i = Some lo /\ counts (merge subs) !! i = Some (length (sub_requests sub)) /\
    allRequests (merge subs) = all_requests (take i subs) ++ sub_requests sub ++ B /\ lo = length (all_requests (take i subs)).
Proof.
  induction subs as [|x subs IH] using rev_ind; [done|]. destruct (merge_fold subs) as (Hf & Hall & Ho & Hc).
  assert (Hm : merge (subs ++ [x]) = {| allRequests := allRequests (merge subs) ++ sub_requests x;
    offsets := offsets (merge subs) ++ [length (all_requests subs)]; counts := counts (merge subs) ++ [length (sub_requests x)] |})
    by (unfold merge at 1; by rewrite foldl_app, Hf).
  rewrite Hm. cbn [allRequests offsets counts]. intros Hi. apply lookup_app_Some in Hi as [Hi|[Hge Hi]].
  - destruct (IH Hi) as (lo & B & H1 & H2 & H3 & H4). pose proof (lookup_lt_Some _ _ _ Hi) as Hlt.
    exists lo, (B ++ sub_requests x). rewrite take_app_le by lia. rewrite H3, <- !app_assoc.
    split_and!; [by apply lookup_app_l_Some|by apply lookup_app_l_Some|done|done].
  - apply list_lookup_singleton_Some in Hi as [Hi <-]. assert (i = length subs) as -> by lia.
    exists (length (all_requests subs)), []. rewrite take_app_length, app_nil_r, Hall.
    split_and!; [|rewrite <- Hc|done|done]; [rewrite <- Ho|]; by apply list_lookup_middle.
Qed.

(** ** Parts *)

Definition part_of (sub : batchSubmission) (r : batchResult) : Prop :=
  match r with
  | inl bulk => Forall2 predicts (sub_requests sub) (Predictions bulk) /\ TotalRequests bulk = length (sub_requests sub)
  | inr _ => True
  end.

(** A response to the requests [sent]. *)
Definition answers (sent : list R) (resp : BulkPredictionResponse + string) : Prop :=
  match resp with
  | inl bulk => forall i r p, sent !! i = Some r -> Predictions bulk !! i = Some p -> predicts r p
  | inr _ => True
  end.

(** A part never panics, and is that of the submission. *)
Lemma part_own resp subs i sub :
  subs !! i = Some sub ->
  exists r, part resp (merge subs) i = Some r /\ (answers (allRequests (merge subs)) resp -> part_of sub r).
Proof.
  intros Hi. destruct (merge_spec subs i sub Hi) as (lo & B & Ho & Hc & Hall & Hlo).
  unfold part. destruct resp as [bulk|err]; [|by eexists]. rewrite Ho, Hc. cbn [mbind option_bind].
  destruct (Nat.ltb_spec (length (Predictions bulk)) (lo + length (sub_requests sub))) as [|Hle]; [by eexists|].
  unfold slice. rewrite (proj2 (Nat.leb_le _ _)), (proj2 (Nat.leb_le _ _)) by lia. cbn [andb mbind option_bind].
  eexists. split; [reflexivity|]. intros Ha. split; [|done]. cbn [Predictions].
  replace (lo + length (sub_requests sub) - lo)%nat with (length (sub_requests sub)) by lia.
  apply Forall2_same_length_lookup_2; [rewrite length_take, length_drop; lia|]. intros k r p Hr Hp.
  apply lookup_take_Some in Hp as [Hp _]. rewrite lookup_drop in Hp. apply (Ha (lo + k)%nat r p); [|done].
  rewrite Hall, Hlo, lookup_app_r by lia. rewrite Nat.add_comm, Nat.add_sub. by apply lookup_app_l_Some.
Qed.

Lemma fan_out_sent resp all subs : forall i s, drop i all = subs -> unsent subs s ->
  exists s', fan_out resp (merge all) i subs s = Some s' /\
    sent (fun sub r => answers (allRequests (merge all)) resp -> part_of sub r) subs s s'.
Proof.
  induction subs as [|sub subs IH]; intros i s Hd Hu.
  - exists s. split; [done|]. exists (results s). split; [by destruct s|]. split; [done|]. by intros sub ?%elem_of_nil.
  - assert (Hi : all !! i = Some sub) by (rewrite <- (Nat.add_0_r i), <- lookup_drop, Hd; done).
    destruct (part_own resp all i sub Hi) as (r & Hr & HQ). cbn [fan_out]. rewrite Hr. cbn [mbind option_bind].
    destruct (unsent_cons sub subs s Hu r) as (s1 & Hs1 & Hu1). rewrite Hs1. cbn [mbind option_bind].
    destruct (IH (S i) s1) as (s' & Hr' & Hsent); [by rewrite <- Nat.add_1_r, <- drop_drop, Hd|done|].
    exists s'. split; [exact Hr'|]. by eapply sent_cons.
Qed.

(** * The invariant is kept *)

Lemma core_perm g ins ins' res wait ret : ins' ≡ₚ ins -> core g ins res wait ret -> core g ins' res wait ret.
Proof. intros Hp [H1 H2 H3 H4 H5 H6]. split; try done; [by rewrite Hp| |]; [intros sub|intros id]; rewrite Hp; auto. Qed.

Lemma core_submit g ins res wait ret id requests :
  core g ins res wait ret -> id ∉ wait -> res !! id = None -> ret !! id = None ->
  core (<[id := requests]> g) ({| sub_id := id; sub_requests := requests |} :: ins) res ({[ id ]} ∪ wait) ret.
Proof.
  intros [H1 H2 H3 H4 H5 H6] Hw Hres Hret.
  assert (Hg : g !! id = None).
  { destruct (g !! id) eqn:Hg; [|done]. exfalso. destruct (proj1 (H4 id)) as [?|[? ?]]; [by eexists|done|congruence]. }
  assert (Hown : forall id' r, own_result g id' r -> own_result (<[id := requests]> g) id' r).
  { intros id' [bulk|]; [|done]. intros (reqs & Hr & Hp). exists reqs. split; [|done]. rewrite lookup_insert_ne; [done|congruence]. }
  split.
  - cbn. apply NoDup_cons. split; [|done]. intros (sub & Heq & Hin)%list_elem_of_fmap. apply H2 in Hin as [_ Hin]. congruence.
  - intros sub [->|Hin]%elem_of_cons; cbn; [by rewrite lookup_insert_eq|]. destruct (H2 sub Hin) as [? Hs]. split; [done|].
    rewrite lookup_insert_ne; [done|congruence].
  - intros x [->%elem_of_singleton|Hx]%elem_of_union Hn; cbn; [left|right; by apply H3].
  - intros x. rewrite lookup_insert. case_decide as Hd; [subst; split; [intros _; left; set_solver|by eexists]|]. rewrite H4. set_solver.
  - intros x r Hr. destruct (H5 x r Hr) as [? Hs]. split; [by apply Hown|]. rewrite lookup_insert. by case_decide.
  - intros x r Hr. by apply Hown, H6.
Qed.

Lemma core_sent g ins ins' subs s s' wait ret Q :
  core g ins (results s) wait ret -> subs ++ ins' ≡ₚ ins -> sent Q subs s s' -> (forall sub r, sub ∈ subs -> Q sub r -> part_of sub r) ->
  core g ins' (results s') wait ret.
Proof.
  intros [H1 H2 H3 H4 H5 H6] Hp (res & -> & Hout & Hin) HQ. cbn [results set].
  rewrite <- Hp, fmap_app in H1. apply NoDup_app in H1 as (_ & Hdis & Hnd).
  assert (Hother : forall sub, sub ∈ ins' -> sub_id sub ∉ sub_id <$> subs).
  { intros sub Hs Hin'. apply (Hdis _ Hin'). by apply list_elem_of_fmap_2. }
  split; try done.
  - intros sub Hs. rewrite Hout by (by apply Hother). apply H2. rewrite <- Hp. apply elem_of_app. by right.
  - intros id Hw Hn. destruct (decide (id ∈ sub_id <$> subs)) as [Hs|Hs].
    + apply list_elem_of_fmap in Hs as (sub & -> & Hs). destruct (Hin sub Hs) as (r & Hr & _). cbn in Hn. congruence.
    + cbn in Hn. rewrite Hout in Hn by done. specialize (H3 id Hw Hn). rewrite <- Hp, fmap_app in H3. by apply elem_of_app in H3 as [?|?].
  - intros id r Hr. cbn in Hr. destruct (decide (id ∈ sub_id <$> subs)) as [Hs|Hs]; [|rewrite Hout in Hr by done; by apply H5].
    apply list_elem_of_fmap in Hs as (sub & -> & Hs). destruct (Hin sub Hs) as (r' & Hr' & HQ'). rewrite Hr in Hr'. injection Hr' as <-.
    destruct (H2 sub) as [_ Hg]; [rewrite <- Hp; apply elem_of_app; by left|]. split; [|by rewrite Hg].
    apply HQ in HQ'; [|done]. destruct r as [bulk|]; [|done]. destruct HQ' as [Hpr Ht]. by exists (sub_requests sub).
Qed.

Lemma core_return g ins res wait ret id r :
  core g ins res wait ret -> res !! id = Some r -> id ∈ wait -> core g ins (delete id res) (wait ∖ {[ id ]}) (<[id := r]> ret).
Proof.
  intros [H1 H2 H3 H4 H5 H6] Hr Hw. split; try done.
  - intros sub Hs. destruct (H2 sub Hs) as [Hn Hg]. split; [|done]. rewrite lookup_delete_ne; [done|]. intros ->. congruence.
  - intros x [Hx Hne]%elem_of_difference Hn. apply H3; [done|]. by rewrite lookup_delete_ne in Hn by set_solver.
  - intros x. rewrite H4, lookup_insert. case_decide as Hd; [subst; split; [intros _; right; by eexists|intros _; by left]|]. set_solver.
  - intros x r' Hx. apply lookup_delete_Some in Hx as [_ Hx]. by apply H5.
  - intros x r'. rewrite lookup_insert. case_decide; [intros [= <-]; subst; by apply H5|apply H6].
Qed.

Lemma core_cancel g ins res wait ret id err :
  core g ins res wait ret -> id ∈ wait -> core g ins res (wait ∖ {[ id ]}) (<[id := inr err]> ret).
Proof.
  intros [H1 H2 H3 H4 H5 H6] Hw. split; try done.
  - intros x [Hx Hne]%elem_of_difference Hn. by apply H3.
  - intros x. rewrite H4, lookup_insert. case_decide as Hd; [subst; split; [intros _; right; by eexists|intros _; by left]|]. set_solver.
  - intros x r'. rewrite lookup_insert. case_decide; [by intros [= <-]|apply H6].
Qed.

(** * Where submissions are *)

Lemma batch_list_insert m b x : m !! b = None -> batch_list (<[b := x]> m) ≡ₚ batch_subs x ++ batch_list m.
Proof. intros Hb. unfold batch_list. by rewrite map_to_list_insert. Qed.

Lemma batch_list_delete m b x : m !! b = Some x -> batch_list m ≡ₚ batch_subs x ++ batch_list (delete b m).
Proof. intros Hb. rewrite <- (insert_delete_id m b x Hb) at 1. apply batch_list_insert, lookup_delete_eq. Qed.

Lemma calling_insert m b x :
  m !! b = None -> length (calling (<[b := x]> m)) = (match is_call (b, x) with Some _ => 1 | None => 0 end + length (calling m))%nat.
Proof. intros Hb. unfold calling. rewrite map_to_list_insert by done. cbn [omap list_omap]. by destruct (is_call (b, x)). Qed.

Lemma calling_delete m b x :
  m !! b = Some x -> length (calling m) = (match is_call (b, x) with Some _ => 1 | None => 0 end + length (calling (delete b m)))%nat.
Proof. intros Hb. rewrite <- (insert_delete_id m b x Hb) at 1. apply calling_insert, lookup_delete_eq. Qed.

(** What the steps of the dispatcher leave alone. *)
Definition outer (s : Predictor) := (results s, waiting s, returned s, running s, stopped s).

Lemma dispatch_spec s :
  disp (s <| timer := bool_decide (pending s <> []) |>) -> timer s = false ->
  inside (dispatch s) ≡ₚ inside s /\ outer (dispatch s) = outer s /\ disp (dispatch s) /\
    coalesceCh (dispatch s) = coalesceCh s /\ pending (dispatch s) = [].
Proof.
  intros [Hsem _ Hrows Hnext] Ht. unfold dispatch. destruct (pending s) as [|sub subs] eqn:Hp.
  { split; [done|]. split; [done|]. split; [|done]. split; [exact Hsem| |exact Hrows|exact Hnext]. intros _. rewrite Ht, Hp. by split. }
  assert (Hfresh : batches s !! nextBatch s = None).
  { destruct (batches s !! nextBatch s) eqn:Hb; [|done]. specialize (Hnext (nextBatch s)). cbn in Hnext. rewrite Hb in Hnext.
    specialize (Hnext ltac:(by eexists)). lia. }
  unfold inside. cbn. rewrite Hp. split; [by rewrite batch_list_insert|]. split; [done|]. split; [|done]. split; cbn in *.
  - by rewrite calling_insert.
  - by rewrite Ht.
  - done.
  - intros b. rewrite lookup_insert. case_decide; [lia|]. intros Hb. specialize (Hnext b Hb). lia.
Qed.

Lemma accumulate_spec s sub rest :
  disp s -> running s = true -> coalesceCh s = sub :: rest ->
  let s' := accumulate (s <| coalesceCh := rest |>) sub in
  inside s' ≡ₚ inside s /\ outer s' = outer s /\ disp s' /\ coalesceCh s' = rest.
Proof.
  intros [Hsem Htimer Hrows Hnext] Hr Hch. cbv zeta. unfold accumulate.
  set (s1 := s <| coalesceCh := rest |> <| pending := _ |> <| totalRows := _ |> <| timer := true |>).
  assert (Hin : inside s1 ≡ₚ inside s) by (unfold inside; cbn; rewrite Hch; solve_Permutation).
  assert (Hd : disp s1).
  { split; cbn; try done.
    - intros _. split; [intros _; by destruct (pending s)|done].
    - intros _. rewrite Hrows by done. unfold all_requests. rewrite bind_app, length_app. cbn. rewrite app_nil_r. lia. }
  destruct (_ && _); [|done].
  destruct (dispatch_spec (s1 <| timer := false |>)) as (Hin' & Ho' & Hd' & Hc' & _); [|done|].
  { destruct Hd as [H1 H2 H3 H4]. split; [exact H1| |exact H3|exact H4]. intros _. apply bool_decide_eq_true. }
  split; [by rewrite Hin'|]. split; [done|]. split; [done|]. by rewrite Hc'.
Qed.

Lemma calling_swap m b subs : m !! b = Some (Waiting subs) ->
  batch_list (<[b := Calling subs]> m) ≡ₚ batch_list m /\ length (calling (<[b := Calling subs]> m)) = S (length (calling m)).
Proof.
  intros Hb. rewrite <- (insert_delete_eq m b (Calling subs)).
  rewrite batch_list_insert, calling_insert by apply lookup_delete_eq. split; [symmetry; exact (batch_list_delete m b (Waiting subs) Hb)|].
  by rewrite (calling_delete m b (Waiting subs)).
Qed.

(** The submissions of a batch, of the queue of the dispatcher, are unsent. *)
Lemma inside_unsent g s subs l :
  core g (inside s) (results s) (waiting s) (returned s) -> inside s ≡ₚ subs ++ l -> forall s', results s' = results s -> unsent subs s'.
Proof.
  intros [H1 H2 _ _ _ _] Hp s' Hs'. rewrite Hp, fmap_app in H1. apply NoDup_app in H1 as (Hnd & _ & _). split; [done|].
  intros sub Hs. rewrite Hs'. apply H2. rewrite Hp. apply elem_of_app. by left.
Qed.

Lemma inside_delete s b x : batches s !! b = Some x ->
  inside s ≡ₚ batch_subs x ++ inside (s <| batches := delete b (batches s) |>).
Proof. intros Hb. unfold inside. cbn. rewrite (batch_list_delete _ b x Hb). solve_Permutation. Qed.

Lemma finish_spec g s b subs resp :
  ok g s -> batches s !! b = Some (Calling subs) ->
  exists s', step s (LFinish b resp) = Some s' /\ (honest s (LFinish b resp) -> ok g s') /\
    batches s' = delete b (batches s) /\ (coalesceCh s', pending s') = (coalesceCh s, pending s).
Proof.
  intros [Hc Hd] Hb. pose proof (inside_delete s b _ Hb) as Hin. cbn [batch_subs] in Hin.
  destruct (fan_out_sent resp subs subs 0 s) as (s1 & Hf & Hsent); [done|by eapply inside_unsent|].
  pose proof Hsent as (res & Heq & _). unfold step. rewrite Hb. unfold dispatchBatch. rewrite Hf. cbn [mbind option_bind].
  eexists. split; [reflexivity|]. split; [|rewrite Heq; done]. intros Hh. split.
  - assert (Hcore : core g (inside (s <| batches := delete b (batches s) |>)) (results s1) (waiting s) (returned s)).
    { eapply core_sent; [exact Hc|by rewrite Hin|exact Hsent|]. intros sub r Hs HQ. apply HQ.
      unfold honest in Hh. rewrite Hb in Hh. destruct resp; [exact Hh|done]. }
    rewrite Heq in *. exact Hcore.
  - rewrite Heq. destruct Hd as [H1 H2 H3 H4]. rewrite (calling_delete _ b _ Hb) in H1. cbn in H1. split; cbn; try done; [lia|].
    intros b'. rewrite lookup_delete. case_decide; [by intros []|apply H4].
Qed.

Lemma batch_done_spec g s b subs s' :
  ok g s -> batches s !! b = Some (Waiting subs) -> step s (LBatchDone b) = Some s' -> ok g s'.
Proof.
  intros [Hc Hd] Hb. unfold step. rewrite Hb. destruct (stopped s); [|done]. intros Hs.
  pose proof (inside_delete s b _ Hb) as Hin. cbn [batch_subs] in Hin. set (s0 := s <| batches := delete b (batches s) |>) in *.
  destruct (reject_all_sent subs s0) as (s1 & Hr & Hsent); [by eapply inside_unsent|]. rewrite Hr in Hs. injection Hs as <-.
  assert (Hcore : core g (inside s0) (results s1) (waiting s) (returned s)).
  { eapply (core_sent g (inside s) _ _ s0); [exact Hc|by rewrite Hin|exact Hsent|]. by intros sub r _ ->. }
  destruct Hsent as (res & -> & _). split; [exact Hcore|].
  destruct Hd as [H1 H2 H3 H4]. rewrite (calling_delete _ b _ Hb) in H1. split; cbn; try done.
  intros b'. rewrite lookup_delete. case_decide; [by intros []|apply H4].
Qed.

Lemma dispatcher_done_spec g s s' : ok g s -> step s LDispatcherDone = Some s' -> ok g s'.
Proof.
  intros [Hc Hd] Hs. unfold step in Hs. destruct (running s && stopped s); [|done].
  set (s0 := s <| running := false |> <| pending := [] |>) in *.
  assert (Hin : inside s ≡ₚ pending s ++ inside s0) by (unfold inside; cbn; solve_Permutation).
  destruct (reject_all_sent (pending s) s0) as (s1 & Hr & Hsent); [by eapply inside_unsent|]. rewrite Hr in Hs. injection Hs as <-.
  assert (Hcore : core g (inside s0) (results s1) (waiting s) (returned s)).
  { eapply (core_sent g (inside s) _ _ s0); [exact Hc|by rewrite Hin|exact Hsent|]. by intros sub r _ ->. }
  destruct Hsent as (res & -> & _). split; [exact Hcore|]. destruct Hd as [H1 H2 H3 H4]. by split.
Qed.

Lemma step_ok g s l s' : ok g s -> honest s l -> step s l = Some s' -> ok (record g l) s'.
Proof.
  intros Hok Hh Hs. pose proof Hok as [Hc Hd]. destruct l as [id requests| | | |b|b|b resp|id|id|]; cbn [record].
  - unfold step, submit_send in Hs. destruct (bool_decide (id ∈ waiting s) || _ || _) eqn:Hfresh; [done|]. destruct (Nat.ltb _ _); [|done]. injection Hs as <-.
    apply orb_false_iff in Hfresh as [[H1 H2]%orb_false_iff H3]. apply bool_decide_eq_false in H1, H2, H3.
    rewrite <- eq_None_not_Some in H2, H3. split; [|by destruct Hd].
    eapply core_perm; [|by apply core_submit]. unfold inside. cbn. solve_Permutation.
  - unfold step in Hs. destruct (running s) eqn:Hr; [|done]. destruct (coalesceCh s) as [|sub rest] eqn:Hch; [done|]. injection Hs as <-.
    destruct (accumulate_spec s sub rest Hd Hr Hch) as (Hin & Ho & Hd' & _). split; [|exact Hd'].
    injection Ho as -> -> -> _ _. by eapply core_perm.
  - unfold step in Hs. destruct (running s) eqn:Hr; [|done]. destruct (timer s) eqn:Ht; [|done]. injection Hs as <-.
    destruct (dispatch_spec (s <| timer := false |>)) as (Hin & Ho & Hd' & _); [|done|].
    { destruct Hd as [H1 H2 H3 H4]. split; [exact H1| |exact H3|exact H4]. intros _. apply bool_decide_eq_true. }
    split; [|exact Hd']. injection Ho as -> -> -> _ _. by eapply core_perm.
  - by eapply dispatcher_done_spec.
  - unfold step in Hs. destruct (batches s !! b) as [[subs|subs]|] eqn:Hb; [|done..]. destruct (dispatchSem s) as [|n] eqn:Hn; [done|].
    injection Hs as <-. destruct (calling_swap _ b subs Hb) as [Hbl Hcl]. split.
    + eapply core_perm; [|exact Hc]. unfold inside. cbn. by rewrite Hbl.
    + destruct Hd as [H1 H2 H3 H4]. split; cbn; try done; [rewrite Hcl; lia|]. intros b'. rewrite lookup_insert.
      case_decide; [subst; intros _; apply H4; by rewrite Hb|apply H4].
  - destruct (batches s !! b) as [[subs|subs]|] eqn:Hb; [by eapply batch_done_spec|unfold step in Hs; by rewrite Hb in Hs..].
  - destruct (batches s !! b) as [[subs|subs]|] eqn:Hb; [unfold step in Hs; by rewrite Hb in Hs| |unfold step in Hs; by rewrite Hb in Hs].
    destruct (finish_spec g s b subs resp Hok Hb) as (s1 & Hs1 & Hok1 & _). rewrite Hs in Hs1. injection Hs1 as <-. by apply Hok1.
  - unfold step, submit_result in Hs. destruct (results s !! id) as [r|] eqn:Hr; [|done]. case_bool_decide as Hw; [|done]. injection Hs as <-.
    split; [|by destruct Hd]. cbn. by apply core_return.
  - unfold step, submit_cancel in Hs. case_bool_decide as Hw; [|done]. injection Hs as <-. split; [|by destruct Hd]. cbn. by apply core_cancel.
  - unfold step in Hs. destruct (stopped s); [done|]. injection Hs as <-. split; [done|by destruct Hd].
Qed.

Lemma honestly_ok g s : honestly g s -> ok g s.
Proof.
  induction 1 as [|g s l s' _ IH Hh Hs]; [|by eapply step_ok].
  assert (Hin : inside New = []) by done. split.
  - rewrite Hin. split; cbn; try done; [constructor|by intros sub ?%elem_of_nil|].
    intros id. rewrite !lookup_empty. split; [by intros []|]. intros [?|[]]; [set_solver|done].
  - split; cbn; try done. by intros b [].
Qed.

(** * Progress *)

(** The steps of the dispatcher, of the timer and of calls. *)
Definition internal (l : label) : bool :=
  match l with LReceive | LTimer | LAcquire _ | LFinish _ _ => true | _ => false end.

Definition measure (s : Predictor) : nat :=
  (4 * length (coalesceCh s) + 3 * length (pending s) + (2 * size (batches s) - length (calling (batches s))))%nat.

Lemma calling_size m : (length (calling m) <= size m)%nat.
Proof.
  unfold calling. rewrite <- length_map_to_list. induction (map_to_list m) as [|kb l IH]; [done|]. cbn. destruct (is_call kb); cbn in *; lia.
Qed.

Lemma dispatch_measure s :
  batches s !! nextBatch s = None -> pending s <> [] -> (measure (dispatch s) < measure s)%nat.
Proof.
  intros Hfresh Hp. unfold dispatch, measure. destruct (pending s) as [|sub subs] eqn:Hps; [done|]. cbn.
  rewrite map_size_insert_None, calling_insert by done. cbn. pose proof (calling_size (batches s)). lia.
Qed.

Lemma fresh_batch s : disp s -> batches s !! nextBatch s = None.
Proof.
  intros [_ _ _ Hnext]. destruct (batches s !! nextBatch s) eqn:Hb; [|done].
  specialize (Hnext (nextBatch s) ltac:(rewrite Hb; by eexists)). lia.
Qed.

Lemma accumulate_measure s sub :
  disp s -> (measure (accumulate s sub) < 4 + measure s)%nat.
Proof.
  intros Hd%fresh_batch. unfold accumulate. cbv zeta.
  match goal with |- context [if _ then dispatch (?x <| timer := false |>) else ?x] => set (s1 := x) end.
  assert (Hm : (measure s1 < 4 + measure s)%nat) by (unfold measure; cbn; rewrite length_app; cbn; lia).
  destruct (_ && _); [|exact Hm]. etrans; [apply dispatch_measure|exact Hm]; [exact Hd|]. cbn. by destruct (pending s).
Qed.

Lemma internal_decreases g s l s' : ok g s -> internal l = true -> step s l = Some s' -> (measure s' < measure s)%nat.
Proof.
  intros Hok Hi Hs. pose proof Hok as [Hc Hd]. destruct l as [id requests| | | |b|b|b resp|id|id|]; try discriminate Hi.
  - unfold step in Hs. destruct (running s) eqn:Hr; [|done]. destruct (coalesceCh s) as [|sub rest] eqn:Hch; [done|]. injection Hs as <-.
    eapply Nat.lt_le_trans; [apply accumulate_measure; by destruct Hd|]. unfold measure. cbn. rewrite Hch. cbn. lia.
  - unfold step in Hs. destruct (running s) eqn:Hr; [|done]. destruct (timer s) eqn:Ht; [|done]. injection Hs as <-.
    pose proof (dispatch_measure (s <| timer := false |>)) as Hm. refine (Hm _ _); [exact (fresh_batch s Hd)|]. cbn. by apply (di_timer _ Hd).
  - unfold step in Hs. destruct (batches s !! b) as [[subs|subs]|] eqn:Hb; [|done..]. destruct (dispatchSem s) as [|n] eqn:Hn; [done|].
    injection Hs as <-. destruct (calling_swap _ b subs Hb) as [_ Hcl]. pose proof (calling_size (<[b := Calling subs]> (batches s))) as Hle.
    rewrite map_size_insert_Some in Hle by (by rewrite Hb). unfold measure. cbn. rewrite map_size_insert_Some by (by rewrite Hb). lia.
  - destruct (batches s !! b) as [[subs|subs]|] eqn:Hb; [unfold step in Hs; by rewrite Hb in Hs| |unfold step in Hs; by rewrite Hb in Hs].
    destruct (finish_spec g s b subs resp Hok Hb) as (s1 & Hs1 & _ & Hb1 & Hq). rewrite Hs in Hs1. injection Hs1 as <-.
    injection Hq as Hch Hp. unfold measure. rewrite Hch, Hp, Hb1. pose proof (calling_size (delete b (batches s))).
    rewrite (calling_delete _ b _ Hb). rewrite map_size_delete_Some in * by (by rewrite Hb). cbn [is_call snd] in *.
    assert (size (batches s) <> 0%nat) by (intros Hz%map_size_empty_inv; rewrite Hz in Hb; done). lia.
Qed.

(** With a slot for calls, nothing is left inside once the steps are done. *)
Lemma quiet_empty g s :
  ok g s -> running s = true -> (0 < MaxConcurrentDispatches cfg)%nat -> (forall l, internal l = true -> step s l = None) -> inside s = [].
Proof.
  intros Hok Hr Hmax Hq. pose proof Hok as [_ Hd]. unfold inside.
  assert (Hch : coalesceCh s = []).
  { specialize (Hq LReceive eq_refl). unfold step in Hq. rewrite Hr in Hq. by destruct (coalesceCh s). }
  assert (Ht : timer s = false).
  { specialize (Hq LTimer eq_refl). unfold step in Hq. rewrite Hr in Hq. by destruct (timer s). }
  assert (Hp : pending s = []).
  { destruct (pending s) eqn:Hp; [done|]. assert (timer s = true) by (apply (di_timer _ Hd); [done|congruence]). congruence. }
  assert (Hnc : forall b subs, batches s !! b <> Some (Calling subs)).
  { intros b subs Hb. destruct (finish_spec g s b subs (inr EmptyString) Hok Hb) as (s1 & Hs1 & _). by rewrite Hq in Hs1. }
  assert (Hcalls : calling (batches s) = []).
  { unfold calling. apply elem_of_nil_inv. intros b Hb. apply list_elem_of_omap in Hb as ([k [subs|subs]] & Hin & He); [done|].
    apply elem_of_map_to_list in Hin. by apply Hnc in Hin. }
  assert (Hb : batches s = ∅).
  { apply map_empty. intros b. destruct (batches s !! b) as [[subs|subs]|] eqn:Hb; [|by apply Hnc in Hb|done].
    specialize (Hq (LAcquire b) eq_refl). unfold step in Hq. rewrite Hb in Hq. pose proof (di_sem _ Hd) as Hsem. rewrite Hcalls in Hsem.
    cbn in Hsem. destruct (dispatchSem s); [lia|done]. }
  rewrite Hch, Hp, Hb. done.
Qed.

End Runs.

(** Every response is one to what was sent, if anything is a prediction. *)
Lemma reachable_ok g s : reachable g s -> ok (fun _ _ => True) g s.
Proof.
  intros Hr. apply honestly_ok. induction Hr as [|g s l s' _ IH Hs]; [apply honest_new|]. eapply honest_step; [exact IH| |exact Hs].
  unfold honest. repeat case_match; done.
Qed.

(** * The contract *)

(** C30: The predictions a caller of the coalescer is given are those of the
    requests it handed over, in their order and all of them, however callers,
    dispatcher, timer and calls interleave and whatever batch its submission was
    merged into.  This takes a server whose response has at each position a
    prediction of the request at that position of the merged list, which may be
    too short or too long.  No response makes the batch panic, and no more calls
    are under way than [MaxConcurrentDispatches]. *)
Theorem coalesced_results_own (predicts : R -> P -> Prop) g s :
  honestly predicts g s ->
  (forall id bulk, returned s !! id = Some (inl bulk) ->
     exists requests, g !! id = Some requests /\ Forall2 predicts requests (Predictions bulk) /\
       TotalRequests bulk = length requests) /\
  (forall b subs resp, batches s !! b = Some (Calling subs) -> is_Some (step s (LFinish b resp))) /\
  (length (calling (batches s)) <= MaxConcurrentDispatches cfg)%nat.
Proof.
  intros Hok%honestly_ok. pose proof Hok as [Hc Hd]. split_and!.
  - intros id bulk Hr. exact (co_returned _ _ _ _ _ _ Hc _ _ Hr).
  - intros b subs resp Hb. destruct (finish_spec predicts g s b subs resp Hok Hb) as (s' & -> & _). by eexists.
  - pose proof (di_sem _ Hd). lia.
Qed.

(** C29: The coalescer serves every caller.  While the dispatcher runs and there is
    a slot for calls, the steps of the dispatcher, of its timer and of the calls
    come to an end, whatever the calls return, and when none is left, each caller
    that still waits has its result. *)
Theorem coalescer_serves_everyone g s :
  reachable g s -> running s = true -> (0 < MaxConcurrentDispatches cfg)%nat ->
  (forall l s', internal l = true -> step s l = Some s' -> (measure s' < measure s)%nat) /\
  ((forall l, internal l = true -> step s l = None) -> forall id, id ∈ waiting s -> is_Some (results s !! id)).
Proof.
  intros Hok%reachable_ok Hr Hmax. split; [intros l s'; by eapply (internal_decreases _ g s l s')|]. intros Hq id Hw.
  pose proof (quiet_empty _ g s Hok Hr Hmax Hq) as Hin. destruct Hok as [Hc _]. destruct (results s !! id) eqn:Hres; [by eexists|].
  apply (co_waiting _ _ _ _ _ _ Hc) in Hres; [|done]. rewrite Hin in Hres. by apply elem_of_nil in Hres.
Qed.

(** ** Submissions left at a stop *)

Lemma send_frame s id r s' : send_result s id r = Some s' -> exists res, s' = s <| results := res |>.
Proof. unfold send_result. destruct (results s !! id); [done|]. intros [= <-]. by eexists. Qed.

Lemma reject_frame subs : forall s s', reject_all s subs = Some s' -> exists res, s' = s <| results := res |>.
Proof.
  unfold reject_all. induction subs as [|sub subs IH]; intros s s' Hs; cbn [ofold] in Hs; [injection Hs as <-; exists (results s); by destruct s|].
  destruct (send_result s _ _) as [s1|] eqn:Hs1; [|done]. apply send_frame in Hs1 as (res & ->). apply IH in Hs as (res' & ->). by exists res'.
Qed.

Lemma fan_out_frame resp m subs : forall i s s', fan_out resp m i subs s = Some s' -> exists res, s' = s <| results := res |>.
Proof.
  induction subs as [|sub subs IH]; intros i s s' Hs; cbn [fan_out] in Hs; [injection Hs as <-; exists (results s); by destruct s|].
  apply bind_Some in Hs as (r & _ & Hs). apply bind_Some in Hs as (s1 & Hs1 & Hs). apply send_frame in Hs1 as (res & ->).
  apply IH in Hs as (res' & ->). by exists res'.
Qed.

Lemma stopped_step s l s' sub :
  step s l = Some s' -> running s = false -> sub ∈ coalesceCh s -> running s' = false /\ sub ∈ coalesceCh s'.
Proof.
  intros Hs Hr Hin. destruct l as [id requests| | | |b|b|b resp|id|id|]; unfold step, submit_send, submit_result, submit_cancel in Hs; try (rewrite Hr in Hs; discriminate Hs).
  - destruct (_ || _); [done|]. destruct (Nat.ltb _ _); [|done]. injection Hs as <-. split; [done|]. cbn. apply elem_of_app. by left.
  - destruct (batches s !! b) as [[subs|subs]|]; [|done..]. destruct (dispatchSem s); [done|]. by injection Hs as <-.
  - destruct (batches s !! b) as [[subs|subs]|]; [|done..]. destruct (stopped s); [|done]. by apply reject_frame in Hs as (res & ->).
  - destruct (batches s !! b) as [[subs|subs]|]; [done| |done]. unfold dispatchBatch in Hs.
    destruct (fan_out _ _ _ _ _) as [s1|] eqn:Hf; [|done]. apply fan_out_frame in Hf as (res & ->). by injection Hs as <-.
  - destruct (results s !! id); [|done]. case_bool_decide; [|done]. by injection Hs as <-.
  - case_bool_decide; [|done]. by injection Hs as <-.
  - destruct (stopped s); [done|]. by injection Hs as <-.
Qed.

(** A submission in the channel when the dispatcher has ended never gets a result,
    whatever happens afterwards: its caller waits until its own context ends. *)
Lemma submission_lost_at_stop s ls s' g' sub :
  running s = false -> sub ∈ coalesceCh s -> steps s ls = Some s' -> reachable g' s' -> results s' !! sub_id sub = None.
Proof.
  intros Hr Hin Hst [Hc _]%reachable_ok.
  enough (running s' = false /\ sub ∈ coalesceCh s') as [_ Hin'].
  { apply (co_inside _ _ _ _ _ _ Hc). unfold inside. apply elem_of_app. by left. }
  clear Hc. revert s Hr Hin Hst. induction ls as [|l ls IH]; intros s Hr Hin Hst; [by injection Hst as <-|].
  unfold steps in Hst. cbn [ofold] in Hst. destruct (step s l) as [s1|] eqn:Hs1; [|done]. cbn [mbind option_bind] in Hst.
  destruct (stopped_step s l s1 sub Hs1 Hr Hin) as [Hr1 Hin1]. exact (IH s1 Hr1 Hin1 Hst).
Qed.

End Coalescer.

(** * Witnesses *)

Abbreviation sample_cfg := {| MaxCoalescedRows := 3; MaxConcurrentDispatches := 1; chanCapacity := 4 |}.
Abbreviation sample_submits := [LSubmit 1 [10; 11]; LReceive; LSubmit 2 [20]; LReceive].
Abbreviation sample_call := [LAcquire 0; LFinish 0 (inl (mkBulk [11; 12; 21] 3 3 0 7)); LReturn 2].
Abbreviation sample_start := (@New Z Z sample_cfg).
Abbreviation next := (fun r p : Z => p = Z.succ r).

Lemma sample_honest : honest_run sample_cfg next sample_start (sample_submits ++ sample_call).
Proof.
  vm_compute. repeat split. intros [|[|[|i]]] r p Hr Hp; cbn in Hr, Hp; try discriminate Hr;
    injection Hr as <-; injection Hp as <-; reflexivity.
Qed.

(** Two callers share one call, and the second has its own prediction. *)
Lemma coalesced_results_own_witness :
  exists s, steps sample_cfg sample_start (sample_submits ++ sample_call) = Some s /\
    (exists bulk, returned s !! 2%nat = Some (inl bulk) /\ Predictions bulk = [21]) /\
    (forall id bulk, returned s !! id = Some (inl bulk) ->
       exists requests, ({[ 1%nat := [10; 11]; 2%nat := [20] ]} : gmap nat (list Z)) !! id = Some requests /\
         Forall2 next requests (Predictions bulk) /\ TotalRequests bulk = length requests) /\
    (length (calling (batches s)) <= 1)%nat.
Proof.
  destruct (honest_run_reachable sample_cfg next (sample_submits ++ sample_call) ∅ sample_start) as (s & Hs & Hr);
    [apply honest_new|exact sample_honest|].
  exists s. split; [exact Hs|]. split.
  - assert (Hret : (fun s => returned s !! 2%nat) <$> steps sample_cfg sample_start (sample_submits ++ sample_call)
                   = Some (Some (inl (mkBulk [21] 1 1 0 7)))) by (vm_compute; reflexivity).
    rewrite Hs in Hret. injection Hret as Hret. by eexists.
  - destruct (coalesced_results_own sample_cfg next _ s Hr) as (H1 & _ & H3). split; [exact H1|exact H3].
Defined.

(** The call is over and nothing is inside: the caller that waits has its result. *)
Lemma coalescer_serves_everyone_witness :
  exists s, steps sample_cfg sample_start (sample_submits ++ sample_call) = Some s /\ running s = true /\ waiting s = {[ 1%nat ]} /\
    ((forall l s', internal l = true -> step sample_cfg s l = Some s' -> (measure s' < measure s)%nat) /\
     ((forall l, internal l = true -> step sample_cfg s l = None) -> forall id, id ∈ waiting s -> is_Some (results s !! id))).
Proof.
  destruct (steps sample_cfg sample_start (sample_submits ++ sample_call)) as [s|] eqn:Hs; [|vm_compute in Hs; discriminate Hs].
  assert (Hobs : (fun s => (running s, waiting s)) <$> steps sample_cfg sample_start (sample_submits ++ sample_call)
                 = Some (true, {[ 1%nat ]})) by (vm_compute; reflexivity).
  rewrite Hs in Hobs. injection Hobs as Hrun Hw. exists s. split; [reflexivity|]. split; [exact Hrun|]. split; [exact Hw|].
  exact (coalescer_serves_everyone sample_cfg _ s (steps_reachable _ _ _ _ _ (reach_new _) Hs) Hrun (Nat.lt_0_succ 0)).
Defined.

(** The client is stopped with a submission in the channel. *)
Lemma submission_lost_example :
  exists s, steps sample_cfg sample_start [LSubmit 1 [10]; LStop; LDispatcherDone] = Some s /\
    running s = false /\ {| sub_id := 1; sub_requests := [10] |} ∈ coalesceCh s /\ waiting s = {[ 1%nat ]} /\
    forall ls s' g', steps sample_cfg s ls = Some s' -> reachable sample_cfg g' s' -> results s' !! 1%nat = None.
Proof.
  eexists. split; [vm_compute; reflexivity|]. split; [done|]. split; [by left|]. split; [done|]. intros ls s' g' Hst Hr.
  refine (submission_lost_at_stop sample_cfg _ ls s' g' {| sub_id := 1; sub_requests := [10] |} _ _ Hst Hr); [done|by left].
Qed.
