(* ===== verification/LatencyScorer.v ===== *)
(** The consumers of predicted latencies: the latency scorer
    (src/pkg/epp/framework/plugins/scheduling/scorer/latency/plugin.go) and the
    latency admission
    (src/pkg/epp/framework/plugins/requestcontrol/admitter/latencyslo/plugin.go).

    [metrics], [prefixInfo] and [latencyInfo] are what the endpoints report during
    one cycle; the last one is what the producer of PredictedLatency puts there. *)

From S2P Require Import Prelude Doubles InFlight Scheduler Saturation Scorers.

(** 1e-9, 0.5, 0.2, 100 and 0.02 *)
Definition eps : spec_float := S754_finite false 4835703278458517 (-82).
Definition f64_half : spec_float := S754_finite false 4503599627370496 (-53).
Definition f64_0_2 : spec_float := S754_finite false 7205759403792794 (-55).
Definition wMax : Z := 100.
Definition minWeight : Z := 0.
Definition f64_0_02 : spec_float := S754_finite false 5764607523034235 (-58).

Inductive HeadroomSelectionStrategy := StrategyLeast | StrategyMost.

Record LatencyScorerConfig := {
  TTFTWeight : spec_float;
  TPOTWeight : spec_float;
  Strategy : HeadroomSelectionStrategy;       (* any other value counts as least *)
  CompositeKVWeight : spec_float;
  CompositeQueueWeight : spec_float;
  CompositePrefixWeight : spec_float
}.

Definition LatencyScorerDefault : LatencyScorerConfig :=
  {| TTFTWeight := f64_0_8; TPOTWeight := f64_0_2; Strategy := StrategyLeast; CompositeKVWeight := f64_one;
     CompositeQueueWeight := f64_one; CompositePrefixWeight := f64_one |}.

Definition normalizedWeights (a b : spec_float) : spec_float * spec_float :=
  let sum := f64_add a b in
  if SFleb sum f64_zero then (f64_one, f64_zero) else (f64_div a sum, f64_div b sum).

(** * Absolute values *)

(** A double that is finite. *)
Definition bounded (x : spec_float) : Prop := is_nan x = false /\ SFltb f64_max_value (SFabs x) = false.

Lemma bounded_cases x : bounded x -> SFabs x = S754_zero false \/ exists m e, SFabs x = S754_finite false m e.
Proof. intros [H1 H2]. destruct x as [t|t| |t m e]; [by left|discriminate H2|discriminate H1|right; by exists m, e]. Qed.

Lemma bounded_abs x : bounded x -> is_nan (SFabs x) = false /\ SFltb f64_max_value (SFabs x) = false.
Proof. intros Hb. split; [|apply Hb]. by destruct (bounded_cases x Hb) as [->|(m & e & ->)]. Qed.

(** Absolute values that do not precede each other are the same. *)
Lemma abs_antisym x y :
  bounded x -> bounded y -> SFltb (SFabs x) (SFabs y) = false -> SFltb (SFabs y) (SFabs x) = false -> SFabs x = SFabs y.
Proof.
  intros Hx Hy. destruct (bounded_abs x Hx) as [Nx _], (bounded_abs y Hy) as [Ny _]. rewrite !SFltb_key by done.
  destruct (bounded_cases x Hx) as [->|(m & e & ->)], (bounded_cases y Hy) as [->|(n & f & ->)]; try done.
  unfold key_ltb, lex_ltb, f64_key. intros H1 H2. assert (e = f /\ m = n) as [-> ->]; [|done]. cbn [fst snd] in *.
  rewrite Z.eqb_refl, Z.ltb_irrefl in H1, H2. cbn [orb andb] in *.
  destruct (Z.eqb_spec e f), (Z.eqb_spec f e); cbn [negb] in *; lia.
Qed.

Lemma SFltb_not_leb x y : SFltb x y = true -> SFleb y x = false.
Proof.
  unfold SFltb, SFleb. destruct x as [s|s| |s m e], y as [t|t| |t n f]; cbn; try (destruct s); try (destruct t); try done;
    change (Pos.compare_cont Eq m n) with (Pos.compare m n); change (Pos.compare_cont Eq n m) with (Pos.compare n m);
    rewrite (Z.compare_antisym e f), (Pos.compare_antisym m n); by destruct (Z.compare e f), (Pos.compare m n).
Qed.

Lemma SFleb_not_ltb x y : SFleb x y = true -> SFltb y x = false.
Proof. intros Hl. destruct (SFltb y x) eqn:Hx; [|done]. apply SFltb_not_leb in Hx. congruence. Qed.

Section LatencyPlugins.

Context {E : Type} `{Countable E} {CycleState : Type}.
Context (metrics : E -> Metrics) (prefixInfo : E -> option PrefixCacheMatchInfo) (latencyInfo : E -> option LatencyPredictionInfo).
Context (overflow : spec_float -> Z) (config : LatencyScorerConfig).

(** An endpoint with its prediction; without one its headrooms are 0. *)
Record epData := { ep : E; info : option LatencyPredictionInfo; ttftHeadroom : spec_float; tpotHeadroom : spec_float }.

Definition gather (e : E) : epData :=
  match latencyInfo e with
  | Some i => {| ep := e; info := Some i; ttftHeadroom := TTFTHeadroom i; tpotHeadroom := TPOTHeadroom i |}
  | None => {| ep := e; info := None; ttftHeadroom := f64_zero; tpotHeadroom := f64_zero |}
  end.

Definition negative (d : epData) : bool :=
  match info d with
  | Some _ => SFltb (ttftHeadroom d) f64_zero || SFltb (tpotHeadroom d) f64_zero
  | None => false
  end.

(** The smallest and the largest absolute value. *)
Definition abs_range (headroom : epData -> spec_float) (data : list epData) : spec_float * spec_float :=
  foldl (fun '(mn, mx) d => let h := SFabs (headroom d) in (if SFltb h mn then h else mn, if SFltb mx h then h else mx))
    (f64_max_value, SFopp f64_max_value) data.

Definition normalize (headroom : epData -> spec_float) (mn range : spec_float) (d : epData) : spec_float :=
  if SFltb eps range then f64_div (f64_sub (SFabs (headroom d)) mn) range else f64_half.

Definition bucket_score (data : list epData) (forceLeast : bool) (d : epData) : spec_float :=
  let '(alpha, beta) := normalizedWeights (TTFTWeight config) (TPOTWeight config) in
  let '(minTTFT, maxTTFT) := abs_range ttftHeadroom data in
  let '(minTPOT, maxTPOT) := abs_range tpotHeadroom data in
  let ttftRange := f64_sub maxTTFT minTTFT in
  let tpotRange := f64_sub maxTPOT minTPOT in
  let '(alpha, beta) := if SFleb ttftRange eps && SFltb eps tpotRange then (f64_zero, f64_one)
                        else if SFleb tpotRange eps && SFltb eps ttftRange then (f64_one, f64_zero)
                        else (alpha, beta) in
  let combined := f64_add (f64_mul alpha (normalize ttftHeadroom minTTFT ttftRange d)) (f64_mul beta (normalize tpotHeadroom minTPOT tpotRange d)) in
  let share := match (if forceLeast then StrategyLeast else Strategy config) with
               | StrategyMost => combined
               | StrategyLeast => f64_sub f64_one combined
               end in
  let w := f64_of_int (i64 (f64_to_int64 overflow (f64_mul share (f64_of_int (wMax - minWeight))) + minWeight + 1)) in
  f64_div w (f64_of_int wMax).

Definition scoreBucket (data : list epData) (scores : gmap E spec_float) (forceLeast : bool) : gmap E spec_float :=
  foldl (fun scores d => <[ep d := bucket_score data forceLeast d]> scores) scores data.

(** The fallback without predictions. *)
Definition composite_score (maxQ : Z) (e : E) : spec_float :=
  let wkv := CompositeKVWeight config in
  let wq := CompositeQueueWeight config in
  let wpref := CompositePrefixWeight config in
  let sumw := f64_add (f64_add wkv wq) wpref in
  let '(wkv, wq, wpref, sumw) := if SFleb sumw f64_zero then (f64_one, f64_zero, f64_zero, f64_one) else (wkv, wq, wpref, sumw) in
  let wkv := f64_div wkv sumw in
  let wq := f64_div wq sumw in
  let wpref := f64_div wpref sumw in
  let qRange := f64_of_int maxQ in
  let relQueue := if SFltb f64_zero qRange then f64_div (f64_of_int (i64 (maxQ - WaitingQueueSize (metrics e)))) qRange else f64_one in
  let kvFree := f64_sub f64_one (KVCacheUsagePercent (metrics e)) in
  let composite := f64_add (f64_add (f64_mul wkv kvFree) (f64_mul wq relQueue)) (f64_mul wpref (prefixCacheScore prefixInfo e)) in
  let x := f64_add (f64_of_int minWeight) (f64_mul (f64_of_int (wMax - minWeight)) composite) in
  let w := match f64_round x with
           | Some z => if (- two63 <=? z) && (z <? two63) then z else overflow x
           | None => overflow x
           end in
  f64_div (f64_of_int w) (f64_of_int wMax).

Definition compositeScores (endpoints : list E) : gmap E spec_float :=
  let maxQ := foldl (fun maxQ e => let q := WaitingQueueSize (metrics e) in if maxQ <? q then q else maxQ) 0 endpoints in
  foldl (fun scores e => <[e := composite_score maxQ e]> scores) ∅ endpoints.

Definition idle (d : epData) : bool := match info d with Some i => DispatchedRequestCount i =? 0 | None => false end.

(** The deficits, the least severe first: only the time per token, only the first
    token, both. *)
Definition tpot_only (d : epData) : bool :=
  match info d with Some _ => negb (SFltb (ttftHeadroom d) f64_zero) && SFltb (tpotHeadroom d) f64_zero | None => false end.
Definition ttft_only (d : epData) : bool :=
  match info d with Some _ => SFltb (ttftHeadroom d) f64_zero && negb (SFltb (tpotHeadroom d) f64_zero) | None => false end.

Fixpoint first_bucket (buckets : list (list epData)) : option (list epData) :=
  match buckets with
  | [] => None
  | [] :: buckets => first_bucket buckets
  | bucket :: _ => Some bucket
  end.

(** [p] selects the endpoints of a bucket in their order. *)
Definition bucket_of (p : epData -> bool) (data : list epData) : list epData := List.filter p data.

Definition latency_Score (endpoints : list E) : gmap E spec_float :=
  let scores := foldl (fun m e => <[e := f64_zero]> m) ∅ endpoints in
  let data := gather <$> endpoints in
  if negb (existsb (fun e => match latencyInfo e with Some _ => true | None => false end) endpoints) then compositeScores endpoints
  else
    match bucket_of (fun d => negb (negative d)) data with
    | (_ :: _) as positive => scoreBucket positive scores false
    | [] =>
        let negatives := bucket_of negative data in
        match bucket_of idle negatives with
        | (_ :: _) as idles => scoreBucket idles scores true
        | [] =>
            let both := bucket_of (fun d => negb (tpot_only d) && negb (ttft_only d)) negatives in
            match first_bucket [bucket_of tpot_only negatives; bucket_of ttft_only negatives; both] with
            | Some bucket => scoreBucket bucket scores true
            | None => scoreBucket negatives scores true
            end
        end
    end.

Definition LatencyScorer : @Scorer E _ _ CycleState request := fun c _ endpoints => (latency_Score endpoints, c).

(** * Admission *)

(** The value of a header as a number; [ParseFloat] as in PredictedLatency. *)
Context (ParseFloat : string -> option spec_float).

Definition parseFloatHeaderValue (s : string) : spec_float :=
  if String.eqb s EmptyString then f64_zero else default f64_zero (ParseFloat s).

Record admission_flags := { hasValid : bool; hasCold : bool; hasIdle : bool; hasPredictions : bool }.

Definition look_at (f : admission_flags) (e : E) : admission_flags :=
  let f := {| hasValid := hasValid f; hasCold := hasCold f || SFltb (KVCacheUsagePercent (metrics e)) f64_0_02;
              hasIdle := hasIdle f || (RunningRequestsSize (metrics e) =? 0); hasPredictions := hasPredictions f |} in
  match latencyInfo e with
  | Some i => {| hasValid := hasValid f || IsValid i; hasCold := hasCold f; hasIdle := hasIdle f; hasPredictions := true |}
  | None => f
  end.

(** [true] admits the request, [false] rejects it. *)
Definition AdmitRequest (priority : Z) (headers : gmap string string) (endpoints : list E) : bool :=
  if 0 <=? priority then true
  else
    let ttftSLO := parseFloatHeaderValue (default EmptyString (headers !! "x-slo-ttft-ms")) in
    let tpotSLO := parseFloatHeaderValue (default EmptyString (headers !! "x-slo-tpot-ms")) in
    if negb (SFltb f64_zero ttftSLO || SFltb f64_zero tpotSLO) then true
    else
      let f := foldl look_at {| hasValid := false; hasCold := false; hasIdle := false; hasPredictions := false |} endpoints in
      if negb (hasPredictions f) then true
      else negb (negb (hasValid f) && negb (hasIdle f) && negb (hasCold f)).

(** * Which endpoints are scored *)

(** How far an endpoint is from its objectives: 0 if it meets them or has no
    prediction, then idle endpoints, then the deficits. *)
Definition rank (d : epData) : nat :=
  if negative d then (if idle d then 1 else if tpot_only d then 2 else if ttft_only d then 3 else 4) else 0.

Definition in_rank (r : nat) (d : epData) : bool := Nat.eqb (rank d) r.

Lemma ep_gather e : ep (gather e) = e.
Proof. unfold gather. by destruct (latencyInfo e). Qed.

Lemma insert_fold (g : epData -> spec_float) (data : list epData) (e : E) : forall m : gmap E spec_float,
  (forall d, d ∈ data -> d = gather (ep d)) ->
  (gather e ∈ data -> foldl (fun m d => <[ep d := g d]> m) m data !! e = Some (g (gather e))) /\
  (gather e ∉ data -> foldl (fun m d => <[ep d := g d]> m) m data !! e = m !! e).
Proof.
  induction data as [|d data IH]; intros m Hd; [split; [by intros ?%elem_of_nil|done]|].
  destruct (IH (<[ep d := g d]> m)) as [IH1 IH2]; [intros; apply Hd; by right|]. cbn [foldl]. split.
  - intros [Heq|Hin]%elem_of_cons; [|by apply IH1]. subst d. rewrite ep_gather in *.
    destruct (decide (e ∈ ep <$> data)) as [(d & He & Hin)%list_elem_of_fmap|Hn].
    + apply IH1. rewrite He, <- (Hd d) by (by right). done.
    + rewrite IH2; [by rewrite lookup_insert_eq|]. intros Hin. apply Hn. apply list_elem_of_fmap. exists (gather e). by rewrite ep_gather.
  - intros [Hne Hn]%not_elem_of_cons. rewrite IH2 by done. rewrite lookup_insert_ne; [done|]. intros He. apply Hne.
    rewrite <- He. symmetry. apply Hd. by left.
Qed.

Lemma zeros_lookup endpoints (e : E) : e ∈ endpoints -> foldl (fun m e => <[e := f64_zero]> m) (∅ : gmap E spec_float) endpoints !! e = Some f64_zero.
Proof.
  assert (Hall : forall m : gmap E spec_float, e ∈ endpoints \/ m !! e = Some f64_zero -> foldl (fun m e => <[e := f64_zero]> m) m endpoints !! e = Some f64_zero).
  { induction endpoints as [|x l IH]; intros m [Hin|Hm]; [by apply elem_of_nil in Hin|done| |]; cbn; apply IH.
    - apply elem_of_cons in Hin as [->|Hin]; [right; apply lookup_insert_eq|by left].
    - right. rewrite lookup_insert. by case_decide. }
  intros Hin. apply Hall. by left.
Qed.

(** Scoring the endpoints of one rank. *)
Lemma score_rank endpoints r force (e : E) :
  e ∈ endpoints -> let data := gather <$> endpoints in
  scoreBucket (bucket_of (in_rank r) data) (foldl (fun m e => <[e := f64_zero]> m) ∅ endpoints) force !! e
  = Some (if in_rank r (gather e) then bucket_score (bucket_of (in_rank r) data) force (gather e) else f64_zero).
Proof.
  intros He data. unfold scoreBucket, bucket_of.
  destruct (insert_fold (bucket_score (List.filter (in_rank r) data) force) (List.filter (in_rank r) data) e
    (foldl (fun m e => <[e := f64_zero]> m) ∅ endpoints)) as [H1 H2].
  { intros d Hd. apply list_elem_of_In, filter_In in Hd as [Hd _]. apply list_elem_of_In, list_elem_of_fmap in Hd as (x & -> & _).
    by rewrite ep_gather. }
  destruct (in_rank r (gather e)) eqn:Hr.
  - apply H1. apply list_elem_of_In, filter_In. split; [|done]. apply list_elem_of_In, list_elem_of_fmap. by exists e.
  - rewrite H2; [by apply zeros_lookup|]. intros Hin. apply list_elem_of_In, filter_In in Hin as [_ Hin]. congruence.
Qed.

Lemma bucket_ext p q data : (forall d, d ∈ data -> p d = q d) -> bucket_of p data = bucket_of q data.
Proof.
  induction data as [|d data IH]; intros Hpq; [done|]. unfold bucket_of in *. cbn. rewrite (Hpq d) by (by left).
  rewrite IH; [done|]. intros x Hx. apply Hpq. by right.
Qed.

Lemma bucket_bucket p q data : bucket_of p (bucket_of q data) = bucket_of (fun d => q d && p d) data.
Proof. induction data as [|d data IH]; [done|]. unfold bucket_of in *. cbn. destruct (q d); cbn; [destruct (p d); by rewrite IH|done]. Qed.

Lemma bucket_nil p data : bucket_of p data = [] -> forall d, d ∈ data -> p d = false.
Proof.
  intros Hn d Hd. destruct (p d) eqn:Hp; [|done]. assert (d ∈ bucket_of p data) as Hin by (apply list_elem_of_In, filter_In; by rewrite <- list_elem_of_In).
  rewrite Hn in Hin. by apply elem_of_nil in Hin.
Qed.

Lemma bucket_cons p data x l : bucket_of p data = x :: l -> x ∈ data /\ p x = true.
Proof. intros Hb. assert (x ∈ bucket_of p data) as Hin by (rewrite Hb; by left). apply list_elem_of_In, filter_In in Hin as [Hi Hp]. by rewrite list_elem_of_In. Qed.

(** The scores when [best] is the best rank there is. *)
Definition scores_rank (endpoints : list E) (scores : gmap E spec_float) (best : nat) : Prop :=
  (exists e, e ∈ endpoints /\ rank (gather e) = best) /\
  (forall e, e ∈ endpoints -> (best <= rank (gather e))%nat) /\
  forall e, e ∈ endpoints -> scores !! e =
    Some (if in_rank best (gather e) then bucket_score (bucket_of (in_rank best) (gather <$> endpoints)) (negb (Nat.eqb best 0)) (gather e)
          else f64_zero).

Lemma choose_rank endpoints p best x l :
  bucket_of p (gather <$> endpoints) = x :: l -> (forall d, d ∈ gather <$> endpoints -> p d = in_rank best d) ->
  (forall d, d ∈ gather <$> endpoints -> (best <= rank d)%nat) ->
  scores_rank endpoints (scoreBucket (x :: l) (foldl (fun m e => <[e := f64_zero]> m) ∅ endpoints) (negb (Nat.eqb best 0))) best.
Proof.
  intros Hb Hp Hmin. rewrite (bucket_ext _ _ _ Hp) in Hb. destruct (bucket_cons _ _ _ _ Hb) as [Hx Hr]. rewrite <- Hb.
  apply list_elem_of_fmap in Hx as (e & -> & He). split; [exists e; split; [done|by apply Nat.eqb_eq]|]. split.
  - intros e' He'. apply Hmin. by apply list_elem_of_fmap_2.
  - intros e' He'. by apply score_rank.
Qed.

(** Whether an endpoint is in a rank, from what is known of all of them. *)
Ltac rank_cases := let d := fresh "d" in let Hd := fresh "Hd" in intros d Hd; cbn beta; unfold in_rank, rank;
  repeat match goal with Hk : forall d, d ∈ _ -> _ = _ |- _ => rewrite (Hk d Hd) end;
  destruct (negative d), (idle d), (tpot_only d), (ttft_only d); cbn; (done || lia).

(** Nothing is in an empty bucket. *)
Ltac not_in H := let d := fresh "d" in let Hd := fresh "Hd" in let Hn := fresh "Hn" in intros d Hd; pose proof (bucket_nil _ _ H d Hd) as Hn; cbn beta in Hn;
  repeat match goal with Hk : forall d, d ∈ _ -> _ = _ |- _ => rewrite (Hk d Hd) in Hn end; by (apply negb_false_iff in Hn || exact Hn).

Lemma latency_scores_rank endpoints :
  existsb (fun e => match latencyInfo e with Some _ => true | None => false end) endpoints = true ->
  exists best, scores_rank endpoints (latency_Score endpoints) best.
Proof.
  intros Hp. unfold latency_Score. rewrite Hp. cbn [negb]. set (data := gather <$> endpoints).
  destruct (bucket_of (fun d => negb (negative d)) data) as [|x l] eqn:H0; [|exists 0%nat; by eapply (choose_rank _ _ 0); [exact H0|rank_cases..]].
  assert (Hneg : forall d, d ∈ data -> negative d = true) by not_in H0.
  rewrite !bucket_bucket.
  destruct (bucket_of (fun d => negative d && idle d) data) as [|x l] eqn:H1; [|exists 1%nat; by eapply (choose_rank _ _ 1); [exact H1|rank_cases..]].
  assert (Hidle : forall d, d ∈ data -> idle d = false) by not_in H1.
  cbn [first_bucket].
  destruct (bucket_of (fun d => negative d && tpot_only d) data) as [|x l] eqn:H2; [|exists 2%nat; by eapply (choose_rank _ _ 2); [exact H2|rank_cases..]].
  assert (Htpot : forall d, d ∈ data -> tpot_only d = false) by not_in H2.
  destruct (bucket_of (fun d => negative d && ttft_only d) data) as [|x l] eqn:H3; [|exists 3%nat; by eapply (choose_rank _ _ 3); [exact H3|rank_cases..]].
  assert (Httft : forall d, d ∈ data -> ttft_only d = false) by not_in H3.
  destruct (bucket_of _ data) as [|x l] eqn:H4 at 1; [|exists 4%nat; rewrite H4; by eapply (choose_rank _ _ 4); [exact H4|rank_cases..]].
  destruct endpoints as [|e l]; [done|]. pose proof (bucket_nil _ _ H4 (gather e) ltac:(by left)) as Hn. cbn beta in Hn.
  by rewrite (Hneg (gather e)), (Htpot (gather e)), (Httft (gather e)) in Hn by (by left).
Qed.

(** * Scores within a tier *)

Lemma abs_range_fold (headroom : epData -> spec_float) (data : list epData) : forall mn mx,
  Forall (fun d => is_nan (SFabs (headroom d)) = false) data -> is_nan mn = false -> is_nan mx = false ->
  let '(mn', mx') := foldl (fun '(mn, mx) d => let h := SFabs (headroom d) in
                              (if SFltb h mn then h else mn, if SFltb mx h then h else mx)) (mn, mx) data in
  (mn' = mn \/ exists d, d ∈ data /\ mn' = SFabs (headroom d)) /\ (mx' = mx \/ exists d, d ∈ data /\ mx' = SFabs (headroom d)) /\
  SFltb mn mn' = false /\ SFltb mx' mx = false /\
  forall d, d ∈ data -> SFltb (SFabs (headroom d)) mn' = false /\ SFltb mx' (SFabs (headroom d)) = false.
Proof.
  assert (Hirr : forall x, is_nan x = false -> SFltb x x = false) by (intros x Hx; rewrite SFltb_key by done; apply sw_irrefl).
  assert (Htr : forall x y z, is_nan x = false -> is_nan y = false -> is_nan z = false ->
    SFltb x y = false -> SFltb y z = false -> SFltb x z = false).
  { intros x y z Hx Hy Hz. rewrite !SFltb_key by done. apply sw_incomp. }
  induction data as [|d data IH]; intros mn mx Hall Hmn Hmx; cbn [foldl].
  { split_and!; [by left|by left|by apply Hirr|by apply Hirr|]. by intros d ?%elem_of_nil. }
  apply Forall_cons in Hall as [Hd Hall]. cbv zeta. set (h := SFabs (headroom d)) in *.
  set (mn1 := if SFltb h mn then h else mn). set (mx1 := if SFltb mx h then h else mx).
  assert (Hmn1 : is_nan mn1 = false /\ (mn1 = mn \/ mn1 = h) /\ SFltb mn mn1 = false /\ SFltb h mn1 = false).
  { unfold mn1. destruct (SFltb h mn) eqn:Hc; [|by auto]. split_and!; [done|by right| |by apply Hirr].
    rewrite SFltb_key in Hc |- * by done. destruct (key_ltb (f64_key mn) (f64_key h)) eqn:Hc'; [|done].
    assert (key_ltb (f64_key h) (f64_key h) = true) as Hxx by (by eapply sw_trans).
    by rewrite sw_irrefl in Hxx. }
  assert (Hmx1 : is_nan mx1 = false /\ (mx1 = mx \/ mx1 = h) /\ SFltb mx1 mx = false /\ SFltb mx1 h = false).
  { unfold mx1. destruct (SFltb mx h) eqn:Hc; [|by auto]. split_and!; [done|by right| |by apply Hirr].
    rewrite SFltb_key in Hc |- * by done. destruct (key_ltb (f64_key h) (f64_key mx)) eqn:Hc'; [|done].
    assert (key_ltb (f64_key mx) (f64_key mx) = true) as Hxx by (by eapply sw_trans).
    by rewrite sw_irrefl in Hxx. }
  destruct Hmn1 as (N1 & C1 & L1 & M1), Hmx1 as (N2 & C2 & L2 & M2).
  specialize (IH mn1 mx1 Hall N1 N2). destruct (foldl _ _ data) as [mn' mx'].
  destruct IH as (I1 & I2 & I3 & I4 & I5). rewrite Forall_forall in Hall.
  assert (Nn : is_nan mn' = false) by (destruct I1 as [->|(x & Hx & ->)]; auto).
  assert (Nx : is_nan mx' = false) by (destruct I2 as [->|(x & Hx & ->)]; auto).
  split_and!.
  - destruct I1 as [->|(x & Hx & ->)]; [destruct C1 as [->| ->]; [by left|]|]; right; [exists d; by split; [left|]|exists x; by split; [right|]].
  - destruct I2 as [->|(x & Hx & ->)]; [destruct C2 as [->| ->]; [by left|]|]; right; [exists d; by split; [left|]|exists x; by split; [right|]].
  - by apply (Htr mn mn1 mn').
  - by apply (Htr mx' mx1 mx).
  - intros x [->|Hx]%elem_of_cons; [|by apply I5]. fold h. split; [by apply (Htr h mn1 mn')|by apply (Htr mx' mx1 h)].
Qed.

(** The range of a tier runs from its smallest to its largest absolute value. *)
Lemma abs_range_extremes (headroom : epData -> spec_float) (data : list epData) dlo dhi :
  Forall (fun d => bounded (headroom d)) data -> dlo ∈ data -> dhi ∈ data ->
  (forall d, d ∈ data -> SFltb (SFabs (headroom d)) (SFabs (headroom dlo)) = false) ->
  (forall d, d ∈ data -> SFltb (SFabs (headroom dhi)) (SFabs (headroom d)) = false) ->
  abs_range headroom data = (SFabs (headroom dlo), SFabs (headroom dhi)).
Proof.
  intros Hb Hlo Hhi Hmin Hmax. rewrite Forall_forall in Hb.
  pose proof (abs_range_fold headroom data f64_max_value (SFopp f64_max_value)) as Hf. unfold abs_range.
  destruct (foldl _ _ data) as [mn mx].
  destruct Hf as (Cmn & Cmx & _ & _ & Hall); [|done|done|].
  { apply Forall_forall. intros d Hd. by apply bounded_abs, Hb. }
  f_equal.
  - destruct Cmn as [->|(d & Hd & ->)].
    + change f64_max_value with (SFabs f64_max_value) in Hall |- *.
      apply abs_antisym; [by split|by apply Hb|by apply (Hb dlo Hlo)|by apply Hall].
    + apply abs_antisym; [by apply Hb|by apply Hb|by apply Hmin|by apply Hall].
  - destruct Cmx as [->|(d & Hd & ->)].
    + destruct (Hall dhi Hhi) as [_ Hc]. destruct (bounded_cases _ (Hb dhi Hhi)) as [Hx|(m & e & Hx)]; rewrite Hx in Hc; discriminate Hc.
    + apply abs_antisym; [by apply Hb|by apply Hb|by apply Hall|by apply Hmax].
Qed.

Lemma sub_self x : bounded x -> f64_sub (SFabs x) (SFabs x) = f64_zero.
Proof.
  intros Hb. destruct (bounded_cases x Hb) as [->|(m & e & ->)]; [done|]. unfold f64_sub, SFsub. cbn.
  by rewrite Z.min_id, Z.sub_diag.
Qed.

Lemma zero_div x : SFltb eps x = true -> f64_div f64_zero x = f64_zero.
Proof. destruct x as [[]|[]| |[] m e]; intros Hx; try discriminate Hx; reflexivity. Qed.

Lemma mul_zero x : bounded x -> exists t, f64_mul x f64_zero = S754_zero t.
Proof. intros [H1 H2]. destruct x as [t|t| |t m e]; [by eexists|discriminate H2|discriminate H1|by eexists]. Qed.

(** The score of an endpoint that is nearest to its objectives wherever the
    endpoints of its bucket differ. *)
Definition nearest_score (forceLeast : bool) : spec_float :=
  match (if forceLeast then StrategyLeast else Strategy config) with
  | StrategyMost => f64_div (f64_of_int 1) (f64_of_int 100)
  | StrategyLeast => f64_div (f64_of_int 101) (f64_of_int 100)
  end.

Lemma zero_combined (forceLeast t : bool) :
  let share := match (if forceLeast then StrategyLeast else Strategy config) with
               | StrategyMost => S754_zero t
               | StrategyLeast => f64_sub f64_one (S754_zero t)
               end in
  f64_div (f64_of_int (i64 (f64_to_int64 overflow (f64_mul share (f64_of_int (wMax - minWeight))) + minWeight + 1))) (f64_of_int wMax)
  = nearest_score forceLeast.
Proof. unfold nearest_score. destruct (if forceLeast then StrategyLeast else Strategy config), t; vm_compute; reflexivity. Qed.

(** A dimension in which the endpoints of a bucket differ, and [d] is nearest, or
    are alike. *)
Definition nearest_or_alike (headroom : epData -> spec_float) (data : list epData) (d : epData) : Prop :=
  exists dlo dhi, dlo ∈ data /\ dhi ∈ data /\
    (forall x, x ∈ data -> SFltb (SFabs (headroom x)) (SFabs (headroom dlo)) = false) /\
    (forall x, x ∈ data -> SFltb (SFabs (headroom dhi)) (SFabs (headroom x)) = false) /\
    let range := f64_sub (SFabs (headroom dhi)) (SFabs (headroom dlo)) in
    (SFltb eps range = true /\ SFabs (headroom d) = SFabs (headroom dlo) \/ SFleb range eps = true).

Definition differs (headroom : epData -> spec_float) (data : list epData) : bool :=
  let '(mn, mx) := abs_range headroom data in SFltb eps (f64_sub mx mn).

(** What a dimension contributes. *)
Lemma dimension_part headroom data d :
  Forall (fun d => bounded (headroom d)) data -> nearest_or_alike headroom data d ->
  let '(mn, mx) := abs_range headroom data in
  let range := f64_sub mx mn in
  SFleb range eps = negb (differs headroom data) /\ SFltb eps range = differs headroom data /\
  normalize headroom mn range d = if differs headroom data then f64_zero else f64_half.
Proof.
  intros Hb (dlo & dhi & Hlo & Hhi & Hmin & Hmax & Hcase). unfold differs. cbv zeta in Hcase.
  rewrite (abs_range_extremes headroom data dlo dhi Hb Hlo Hhi Hmin Hmax). cbv zeta. unfold normalize.
  destruct Hcase as [[Hr Hd]|Hr].
  - rewrite Hr, Hd, (SFltb_not_leb _ _ Hr). split_and!; [done|done|].
    rewrite sub_self by (rewrite Forall_forall in Hb; by apply Hb). by apply zero_div.
  - by rewrite Hr, (SFleb_not_ltb _ _ Hr).
Qed.

Lemma bucket_nearest data forceLeast d :
  Forall (fun d => bounded (ttftHeadroom d) /\ bounded (tpotHeadroom d)) data ->
  nearest_or_alike ttftHeadroom data d -> nearest_or_alike tpotHeadroom data d ->
  differs ttftHeadroom data || differs tpotHeadroom data = true ->
  let '(alpha, beta) := normalizedWeights (TTFTWeight config) (TPOTWeight config) in bounded alpha /\ bounded beta ->
  bucket_score data forceLeast d = nearest_score forceLeast.
Proof.
  intros [Hb1 Hb2]%Forall_and Hn1 Hn2 Hdiff. unfold bucket_score.
  destruct (normalizedWeights (TTFTWeight config) (TPOTWeight config)) as [alpha beta]. intros [Ha Hbt].
  pose proof (dimension_part _ _ _ Hb1 Hn1) as H1. pose proof (dimension_part _ _ _ Hb2 Hn2) as H2.
  destruct (abs_range ttftHeadroom data) as [mn1 mx1], (abs_range tpotHeadroom data) as [mn2 mx2]. cbv zeta in H1, H2.
  destruct H1 as (L1 & G1 & ->), H2 as (L2 & G2 & ->). rewrite L1, G1, L2, G2.
  destruct (mul_zero alpha Ha) as [t1 Ht1], (mul_zero beta Hbt) as [t2 Ht2].
  assert (Hsum : exists t, (let '(alpha, beta) :=
      if negb (differs ttftHeadroom data) && differs tpotHeadroom data then (f64_zero, f64_one)
      else if negb (differs tpotHeadroom data) && differs ttftHeadroom data then (f64_one, f64_zero) else (alpha, beta) in
    f64_add (f64_mul alpha (if differs ttftHeadroom data then f64_zero else f64_half))
            (f64_mul beta (if differs tpotHeadroom data then f64_zero else f64_half))) = S754_zero t).
  { destruct (differs ttftHeadroom data), (differs tpotHeadroom data); try discriminate Hdiff; cbn [negb andb];
      [rewrite Ht1, Ht2; destruct t1, t2; by eexists|by eexists|by eexists]. }
  destruct Hsum as [t Hsum]. destruct (if negb _ && _ then _ else _) as [a b]. rewrite Hsum. apply zero_combined.
Qed.

(** * What the scorer promises *)

(** The headrooms of an endpoint; 0 without a prediction. *)
Definition ttft_of (e : E) : spec_float := match latencyInfo e with Some i => TTFTHeadroom i | None => f64_zero end.
Definition tpot_of (e : E) : spec_float := match latencyInfo e with Some i => TPOTHeadroom i | None => f64_zero end.

(** The tier of an endpoint: 0 if it has no prediction or misses no objective,
    else 1 if it is idle, else 2 if it misses only the time per token, 3 if only
    that to the first token, 4 if both. *)
Definition tier (e : E) : nat :=
  match latencyInfo e with
  | None => 0
  | Some i =>
      match SFltb (TTFTHeadroom i) f64_zero, SFltb (TPOTHeadroom i) f64_zero with
      | false, false => 0
      | ttftNeg, tpotNeg =>
          if (DispatchedRequestCount i =? 0)%Z then 1
          else if ttftNeg then (if tpotNeg then 4 else 3) else 2
      end
  end%nat.

Definition in_tier (endpoints : list E) (t : nat) (e : E) : Prop := e ∈ endpoints /\ tier e = t.

(** The endpoints of a tier whose headroom is smallest, largest, in absolute value. *)
Definition smallest (headroom : E -> spec_float) (endpoints : list E) (t : nat) (e : E) : Prop :=
  in_tier endpoints t e /\ forall e', in_tier endpoints t e' -> SFltb (SFabs (headroom e')) (SFabs (headroom e)) = false.
Definition largest (headroom : E -> spec_float) (endpoints : list E) (t : nat) (e : E) : Prop :=
  in_tier endpoints t e /\ forall e', in_tier endpoints t e' -> SFltb (SFabs (headroom e)) (SFabs (headroom e')) = false.

(** The headrooms of a tier are more than [eps] apart, or are not. *)
Definition apart (headroom : E -> spec_float) (endpoints : list E) (t : nat) : Prop :=
  exists lo hi, smallest headroom endpoints t lo /\ largest headroom endpoints t hi /\
    SFltb eps (f64_sub (SFabs (headroom hi)) (SFabs (headroom lo))) = true.
Definition close (headroom : E -> spec_float) (endpoints : list E) (t : nat) : Prop :=
  exists lo hi, smallest headroom endpoints t lo /\ largest headroom endpoints t hi /\
    SFleb (f64_sub (SFabs (headroom hi)) (SFabs (headroom lo))) eps = true.

Lemma rank_tier e : rank (gather e) = tier e.
Proof.
  unfold rank, negative, idle, tpot_only, ttft_only, tier, gather. destruct (latencyInfo e) as [i|]; [|done]. cbn [info ttftHeadroom tpotHeadroom].
  by destruct (SFltb (TTFTHeadroom i) f64_zero), (SFltb (TPOTHeadroom i) f64_zero), (DispatchedRequestCount i =? 0).
Qed.

Lemma headroom_gather e : ttftHeadroom (gather e) = ttft_of e /\ tpotHeadroom (gather e) = tpot_of e.
Proof. unfold gather, ttft_of, tpot_of. by destruct (latencyInfo e). Qed.

Lemma bucket_tier endpoints t d :
  d ∈ bucket_of (in_rank t) (gather <$> endpoints) <-> exists e, in_tier endpoints t e /\ d = gather e.
Proof.
  unfold bucket_of. rewrite list_elem_of_In, filter_In, <- list_elem_of_In, list_elem_of_fmap. unfold in_rank, in_tier. split.
  - intros [(e & -> & He) Hr]. exists e. rewrite Nat.eqb_eq, rank_tier in Hr. done.
  - intros (e & [He Ht] & ->). rewrite Nat.eqb_eq, rank_tier. split; [by exists e|done].
Qed.

Lemma smallest_same headroom endpoints t e e' :
  bounded (headroom e) -> bounded (headroom e') -> smallest headroom endpoints t e -> smallest headroom endpoints t e' ->
  SFabs (headroom e) = SFabs (headroom e').
Proof. intros Hb Hb' [Hi Hm] [Hi' Hm']. apply abs_antisym; auto. Qed.

Lemma nearest_lift (headroom : E -> spec_float) (field : epData -> spec_float) endpoints t e :
  (forall e, field (gather e) = headroom e) -> (forall e, in_tier endpoints t e -> bounded (headroom e)) ->
  apart headroom endpoints t /\ smallest headroom endpoints t e \/ close headroom endpoints t ->
  nearest_or_alike field (bucket_of (in_rank t) (gather <$> endpoints)) (gather e).
Proof.
  intros Hf Hb Hcase.
  assert (exists lo hi, smallest headroom endpoints t lo /\ largest headroom endpoints t hi /\
    (SFltb eps (f64_sub (SFabs (headroom hi)) (SFabs (headroom lo))) = true /\ SFabs (headroom e) = SFabs (headroom lo) \/
     SFleb (f64_sub (SFabs (headroom hi)) (SFabs (headroom lo))) eps = true)) as (lo & hi & [Hlo Hmin] & [Hhi Hmax] & Hr).
  { destruct Hcase as [[(lo & hi & Hlo & Hhi & Hr) He]|(lo & hi & Hlo & Hhi & Hr)]; exists lo, hi; split_and!; auto.
    left. split; [done|]. eapply smallest_same; [apply Hb, He|apply Hb, Hlo|done|done]. }
  exists (gather lo), (gather hi). rewrite !bucket_tier, !Hf. split_and!; [by exists lo|by exists hi| | |exact Hr].
  - intros x (e' & He' & ->)%bucket_tier. rewrite Hf. by apply Hmin.
  - intros x (e' & He' & ->)%bucket_tier. rewrite Hf. by apply Hmax.
Qed.

Lemma apart_differs (headroom : E -> spec_float) (field : epData -> spec_float) endpoints t :
  (forall e, field (gather e) = headroom e) -> (forall e, in_tier endpoints t e -> bounded (headroom e)) ->
  apart headroom endpoints t -> differs field (bucket_of (in_rank t) (gather <$> endpoints)) = true.
Proof.
  intros Hf Hb (lo & hi & [Hlo Hmin] & [Hhi Hmax] & Hr). unfold differs.
  rewrite (abs_range_extremes field _ (gather lo) (gather hi)); [by rewrite !Hf|..].
  - apply Forall_forall. intros x (e' & He' & ->)%bucket_tier. rewrite Hf. by apply Hb.
  - apply bucket_tier. by exists lo.
  - apply bucket_tier. by exists hi.
  - intros x (e' & He' & ->)%bucket_tier. rewrite !Hf. by apply Hmin.
  - intros x (e' & He' & ->)%bucket_tier. rewrite !Hf. by apply Hmax.
Qed.


(** * Admission *)

Lemma flags_fold endpoints : forall f,
  let f' := foldl look_at f endpoints in
  hasValid f' = hasValid f || existsb (fun e => match latencyInfo e with Some i => IsValid i | None => false end) endpoints /\
  hasCold f' = hasCold f || existsb (fun e => SFltb (KVCacheUsagePercent (metrics e)) f64_0_02) endpoints /\
  hasIdle f' = hasIdle f || existsb (fun e => RunningRequestsSize (metrics e) =? 0) endpoints /\
  hasPredictions f' = hasPredictions f || existsb (fun e => match latencyInfo e with Some _ => true | None => false end) endpoints.
Proof.
  induction endpoints as [|e endpoints IH]; intros f; cbv zeta; [by rewrite !orb_false_r|]. cbn [foldl existsb]. specialize (IH (look_at f e)).
  cbv zeta in IH. destruct IH as (-> & -> & -> & ->). unfold look_at. destruct (latencyInfo e); cbn; rewrite ?orb_assoc, ?orb_true_r; done.
Qed.

(** the latency admission rejects a request exactly if it is sheddable, has an
    objective, there are predictions, and no endpoint is predicted to meet the
    objectives, is idle, or is cold. *)
Theorem latency_admission_decides priority headers endpoints :
  AdmitRequest priority headers endpoints = false <->
  priority < 0 /\
  (SFltb f64_zero (parseFloatHeaderValue (default EmptyString (headers !! "x-slo-ttft-ms"))) = true \/
   SFltb f64_zero (parseFloatHeaderValue (default EmptyString (headers !! "x-slo-tpot-ms"))) = true) /\
  (exists e, e ∈ endpoints /\ is_Some (latencyInfo e)) /\
  forall e, e ∈ endpoints ->
    (forall i, latencyInfo e = Some i -> IsValid i = false) /\ RunningRequestsSize (metrics e) <> 0 /\
    SFltb (KVCacheUsagePercent (metrics e)) f64_0_02 = false.
Proof.
  unfold AdmitRequest. destruct (Z.leb_spec 0 priority) as [Hpr|Hpr]; [split; [done|lia]|].
  set (t := SFltb _ (parseFloatHeaderValue (default EmptyString (headers !! "x-slo-ttft-ms")))).
  set (u := SFltb _ (parseFloatHeaderValue (default EmptyString (headers !! "x-slo-tpot-ms")))).
  destruct (t || u) eqn:Htu; cbn [negb]; [|split; [done|]; intros (_ & Hs & _); destruct t, u; by destruct Hs].
  destruct (flags_fold endpoints {| hasValid := false; hasCold := false; hasIdle := false; hasPredictions := false |}) as (-> & -> & -> & ->).
  cbn [hasValid hasCold hasIdle hasPredictions orb].
  assert (Hex : forall p : E -> bool, existsb p endpoints = false <-> forall e, e ∈ endpoints -> p e = false).
  { intros p. rewrite <- not_true_iff_false, existsb_exists. split.
    - intros Hn e He. apply not_true_iff_false. intros Hp. apply Hn. exists e. by rewrite <- list_elem_of_In.
    - intros Hall (e & He & Hp). rewrite Hall in Hp; [done|by apply list_elem_of_In]. }
  destruct (existsb (fun e => match latencyInfo e with Some _ => true | None => false end) endpoints) eqn:Hpred; cbn [negb].
  - rewrite negb_false_iff, !andb_true_iff, !negb_true_iff, !Hex. split.
    + intros [[Hv Hi] Hc]. split; [done|]. split; [apply orb_true_iff in Htu; tauto|]. apply existsb_exists in Hpred as (e & He & Hp).
      split; [exists e; split; [by apply list_elem_of_In|destruct (latencyInfo e); [by eexists|done]]|]. intros e' He'.
      split; [|split; [by apply Z.eqb_neq, Hi|by apply Hc]]. intros i Hl. specialize (Hv e' He'). cbn beta in Hv. by rewrite Hl in Hv.
    + intros (_ & _ & _ & Hall). split; [split|]; intros e He; destruct (Hall e He) as (H1 & H2 & H3); [|by apply Z.eqb_neq|done].
      destruct (latencyInfo e); [by apply H1|done].
  - split; [done|]. intros (_ & _ & (e & He & [i Hi]) & _). rewrite Hex in Hpred. specialize (Hpred e He). cbn beta in Hpred. by rewrite Hi in Hpred.
Qed.

End LatencyPlugins.

(** * Witnesses *)

Definition sample_info (ttft tpot : Z) (dispatched : Z) : LatencyPredictionInfo :=
  {| TTFTValid := 0 <? ttft; TPOTValid := 0 <? tpot; TTFTHeadroom := f64_of_int ttft; TPOTHeadroom := f64_of_int tpot;
     TTFT := f64_of_int 50; TPOT := f64_of_int 20; DispatchedRequestCount := dispatched |}.

(** Endpoint 1 misses both objectives, 2 only the time per token, 3 only the first
    token; all are busy. *)
Definition sample_infos (e : nat) : option LatencyPredictionInfo :=
  match e with
  | 1%nat => Some (sample_info (-10) (-5) 3)
  | 2%nat => Some (sample_info 20 (-5) 4)
  | 3%nat => Some (sample_info (-10) 30 1)
  | _ => None
  end.

Definition sample_metrics (e : nat) : Metrics :=
  {| ActiveModels := ∅; WaitingModels := ∅; MaxActiveModels := 0; RunningRequestsSize := 1; WaitingQueueSize := 0;
     KVCacheUsagePercent := f64_zero; UpdateTime := 0 |}.

(** Endpoints 2 and 4 miss only the time per token, and 2 by less. *)
Definition sample_pair (e : nat) : option LatencyPredictionInfo :=
  match e with
  | 4%nat => Some (sample_info 60 (-9) 2)
  | _ => sample_infos e
  end.


Lemma best_tier_example :
  rank (gather sample_infos 2%nat) = 2%nat /\
  latency_Score sample_metrics (fun _ => None) sample_infos (fun _ => 0)
    LatencyScorerDefault [1; 2; 3]%nat
  = {[ 1%nat := f64_zero; 2%nat := f64_div (f64_of_int 51) (f64_of_int 100); 3%nat := f64_zero ]}.
Proof. split; vm_compute; reflexivity. Qed.

(** The score of the endpoint closest to its objectives is 1.01. *)
Theorem latency_score_exceeds_one :
  exists x, latency_Score sample_metrics (fun _ => None)
    (fun e : nat => Some (sample_info (10 * Z.of_nat e) (5 * Z.of_nat e) 1)) (fun _ => 0) LatencyScorerDefault [1; 2]%nat !! 1%nat = Some x /\
    SFltb f64_one x = true.
Proof. eexists. split; vm_compute; reflexivity. Qed.
