(* ===== verification/PredictedLatency.v ===== *)
(** The predicted-latency producer
    (src/pkg/epp/framework/plugins/requestcontrol/requestdataproducer/predictedlatency):
    it asks the prediction service what latency each candidate endpoint would
    give, keeps the prompt tokens in prefill and the objectives of the running
    requests of every endpoint, and turns the responses into training data.

    A hook is one step.  The random generator of the sampler, the parser of
    numbers, the service and the clock are arguments; measurements that only feed
    Prometheus are left out. *)

From S2P Require Import Prelude Doubles EvictionQueue InFlight Ordering Chunking ReqCtx Saturation Scheduler Scorers RequestQueue.

(** * Words *)

(** The number of bytes of the white space a string starts with, 0 if it starts
    with something else: the code points of [unicode.IsSpace] in UTF-8, whose lead
    bytes occur nowhere but at the start of a rune. *)
Definition space_width (l : list N) : nat :=
  match l with
  | c :: l =>
      if (9 <=? c)%N && (c <=? 13)%N || (c =? 32)%N then 1
      else match l with
      | d :: l =>
          if (c =? 194)%N && ((d =? 133)%N || (d =? 160)%N) then 2
          else match l with
          | e :: _ =>
              if (c =? 225)%N && (d =? 154)%N && (e =? 128)%N
                 || (c =? 226)%N && (d =? 128)%N && ((128 <=? e)%N && (e <=? 138)%N || (e =? 168)%N || (e =? 169)%N || (e =? 175)%N)
                 || (c =? 226)%N && (d =? 129)%N && (e =? 159)%N
                 || (c =? 227)%N && (d =? 128)%N && (e =? 128)%N
              then 3 else 0
          | [] => 0
          end
      | [] => 0
      end
  | [] => 0
  end.

(** Counting the words: [skip] bytes of a white space are left; [inField] says that
    the byte before belongs to a word. *)
Fixpoint count_fields (l : list N) (skip : nat) (inField : bool) : nat :=
  match l with
  | [] => 0
  | _ :: rest =>
      match skip with
      | S skip => count_fields rest skip false
      | O => match space_width l with
             | O => (if inField then 0 else 1) + count_fields rest 0 true
             | S skip => count_fields rest skip false
             end
      end
  end.

(** [len(strings.Fields(s))] *)
Definition len_fields (s : string) : Z := Z.of_nat (count_fields (Ascii.N_of_ascii <$> String.list_ascii_of_string s) 0 false).

(** * Sampling of tokens *)

Definition f64_thirty : spec_float := f64_of_int 30.

(** FNV-1a, 64 bits. *)
Definition fnv64a (s : string) : Z :=
  foldl (fun h c => (Z.lxor h (Z.of_N (Ascii.N_of_ascii c)) * 1099511628211) mod 2 ^ 64) 14695981039346656037 (String.list_ascii_of_string s).

Section Producer.

(** A generator of random numbers, the exponential function, the result of a
    conversion to an integer out of range. *)
Context {G : Type} (NewSource : Z -> G) (Float64 NormFloat64 : G -> spec_float * G) (exp : spec_float -> spec_float)
  (overflow : spec_float -> Z).

(** A bound on the draws of one sample. *)
Context (draws : nat).

Record decodeTokenSampler := mkSampler {
  rng : G;
  nextSampleToken : Z;
  samplingMean : spec_float;
  maxDecodeTokenSamples : Z;
  sampleCount : Z
}.

#[global] Instance eta_decodeTokenSampler : Eta decodeTokenSampler := fun t =>
  mkSampler (rng t) (nextSampleToken t) (samplingMean t) (maxDecodeTokenSamples t) (sampleCount t).

(** Knuth's algorithm: [for p > l { k++; p *= Float64() }]. *)
Fixpoint knuth_loop (fuel : nat) (l p : spec_float) (k : Z) (g : G) : option (Z * G) :=
  if SFltb l p then
    match fuel with
    | O => None
    | S fuel => let '(u, g) := Float64 g in knuth_loop fuel l (f64_mul p u) (k + 1) g
    end
  else Some (k, g).

(** [math.Round], then the conversion to int. *)
Definition round_int (x : spec_float) : Z :=
  match f64_round x with
  | Some z => if (- two63 <=? z) && (z <? two63) then z else overflow x
  | None => overflow x
  end.

Definition poissonNext (ts : decodeTokenSampler) : option (Z * decodeTokenSampler) :=
  let lambda := samplingMean ts in
  if SFleb lambda f64_zero then Some (1, ts)
  else if SFltb lambda f64_thirty then
    '(k, g) ← knuth_loop draws (exp (SFopp lambda)) f64_one 0 (rng ts);
    Some (k - 1, ts <| rng := g |>)
  else
    let '(normal, g) := NormFloat64 (rng ts) in
    let interval := round_int (f64_add lambda (f64_mul (SFsqrt prec emax lambda) normal)) in
    Some (if interval <? 1 then 1 else interval, ts <| rng := g |>).

Definition newDecodeTokenSampler (requestID : string) (samplingMean : spec_float) (maxSamples now : Z) : option decodeTokenSampler :=
  let seed := if String.eqb requestID EmptyString then 0 else i64 (fnv64a requestID) in
  let seed := if seed =? 0 then now else seed in
  let sampler := mkSampler (NewSource seed) 0 samplingMean maxSamples 0 in
  '(interval, sampler) ← poissonNext sampler;
  Some (sampler <| nextSampleToken := i64 (2 + interval) |>).

Definition shouldPredict (ts : decodeTokenSampler) (currentToken : Z) : bool :=
  (currentToken =? nextSampleToken ts) && (sampleCount ts <? maxDecodeTokenSamples ts).

Definition recordPrediction (ts : decodeTokenSampler) (currentToken : Z) : option decodeTokenSampler :=
  if maxDecodeTokenSamples ts <=? sampleCount ts then Some ts
  else
    let ts := ts <| sampleCount := sampleCount ts + 1 |> in
    if sampleCount ts <? maxDecodeTokenSamples ts then
      '(interval, ts) ← poissonNext ts;
      Some (ts <| nextSampleToken := i64 (currentToken + interval) |>)
    else Some ts.

(** * Configuration *)

Record Config := {
  SamplingMean : spec_float;
  MaxDecodeTokenSamplesForPrediction : Z;
  SLOBufferFactor : spec_float;
  ContextTTL : Z;
  StreamingMode : bool;
  EndpointRoleLabel : string;
  PredictInPrepareData : bool
}.

Definition DefaultConfig : Config := {|
  SamplingMean := f64_of_int 1000; MaxDecodeTokenSamplesForPrediction := 0; SLOBufferFactor := f64_one;
  ContextTTL := 300000000000; StreamingMode := false; EndpointRoleLabel := EmptyString; PredictInPrepareData := true
|}.

(** The problems that are found, joined into one error if there are any. *)
Definition validate (c : Config) : list string :=
  (if SFleb (SamplingMean c) f64_zero then ["samplingMean must be > 0"] else [])
  ++ (if MaxDecodeTokenSamplesForPrediction c <? 0 then ["maxDecodeTokenSamplesForPrediction must be >= 0"] else [])
  ++ (if SFleb (SLOBufferFactor c) f64_zero then ["sloBufferFactor must be > 0"] else []).

(** * Requests, predictions and training data *)

(** The headers and the body of a request; [V] and [Marshal] as in InFlight. *)
Context {V : Type} (Marshal : V -> string).

Record LLMRequest := { Headers : gmap string string; Body : option (InFlight.LLMRequestBody V) }.

Definition request_id (request : LLMRequest) : string := default EmptyString (Headers request !! RequestIdHeaderKey).

Abbreviation Endpoint := EndpointMetadata.
Abbreviation Result := (@SchedulingResult EndpointMetadata).

(** [NamespacedName.String()] *)
Definition pod_key (m : EndpointMetadata) : string := (NamespacedName m).1 +:+ "/" +:+ (NamespacedName m).2.

Definition pod_name (m : EndpointMetadata) : string := (NamespacedName m).2.

Record PredictionRequest := {
  pq_KVCachePercentage : spec_float;
  pq_InputTokenLength : Z;
  pq_NumRequestWaiting : Z;
  pq_NumRequestRunning : Z;
  pq_NumTokensGenerated : Z;
  pq_PrefixCacheScore : spec_float;
  pq_PodType : string;
  pq_PrefillTokensInFlight : Z
}.

Record PredictionResponse := { rsp_TTFT : spec_float; rsp_TPOT : spec_float }.

Record TrainingEntry := {
  te_KVCachePercentage : spec_float;
  te_InputTokenLength : Z;
  te_ActualTTFT : spec_float;
  te_ActualTPOT : spec_float;
  te_Timestamp : Z;
  te_NumRequestWaiting : Z;
  te_NumRequestRunning : Z;
  te_NumTokensGenerated : Z;
  te_PrefixCacheScore : spec_float;
  te_PodType : string;
  te_PrefillTokensInFlight : Z;
  te_DecodeTokensInFlight : Z
}.

(** The prediction service: [None] is an error or a nil result. *)
Record Predictor := {
  Predict : PredictionRequest -> option PredictionResponse;
  PredictBulkStrict : list PredictionRequest -> option (list PredictionResponse)
}.

Record endpointPredictionResult := {
  pr_Endpoint : Endpoint;
  pr_TTFT : spec_float;
  pr_TPOT : spec_float;
  pr_TTFTValid : bool;
  pr_TPOTValid : bool;
  pr_IsValid : bool;
  pr_Headroom : spec_float;
  pr_TTFTHeadroom : spec_float;
  pr_PrefixCacheScore : spec_float
}.

(** * The context of a request *)

Record predictedLatencyCtx := mkCtx {
  schedulingRequest : LLMRequest;
  targetMetadata : option EndpointMetadata;
  prefillTargetMetadata : option EndpointMetadata;
  schedulingResult : option Result;
  lastSeenMetrics : gmap string Metrics;
  lastTokenTimestamp : Z;
  requestReceivedTimestamp : Z;
  generatedTokenCount : Z;
  ttft : spec_float;
  predictedTTFT : spec_float;
  avgTPOT : spec_float;
  avgPredictedTPOT : spec_float;
  sampler : option decodeTokenSampler;
  tpotObservations : list spec_float;
  predictedTPOTObservations : list spec_float;
  promptText : string;
  inputTokenCount : Z;
  prefixCacheScoresForEndpoints : gmap string spec_float;
  ttftSLO : spec_float;
  avgTPOTSLO : spec_float;
  predictionsForScheduling : gmap string endpointPredictionResult;
  prefillTokensAtDispatch : Z;
  prefillTokensAtDispatchOnPrefill : Z;
  decodeTokensAtDispatch : Z
}.

#[global] Instance eta_predictedLatencyCtx : Eta predictedLatencyCtx := fun c =>
  mkCtx (schedulingRequest c) (targetMetadata c) (prefillTargetMetadata c) (schedulingResult c) (lastSeenMetrics c)
    (lastTokenTimestamp c) (requestReceivedTimestamp c) (generatedTokenCount c) (ttft c) (predictedTTFT c) (avgTPOT c)
    (avgPredictedTPOT c) (sampler c) (tpotObservations c) (predictedTPOTObservations c) (promptText c) (inputTokenCount c)
    (prefixCacheScoresForEndpoints c) (ttftSLO c) (avgTPOTSLO c) (predictionsForScheduling c) (prefillTokensAtDispatch c)
    (prefillTokensAtDispatchOnPrefill c) (decodeTokensAtDispatch c).

Definition newPredictedLatencyContext (request : LLMRequest) : predictedLatencyCtx :=
  let text := match Body request with Some body => InFlight.PromptText V Marshal body | None => EmptyString end in
  mkCtx request None None None ∅ 0 0 0 f64_zero f64_zero f64_zero f64_zero None [] [] text (len_fields text) ∅
    f64_zero f64_zero ∅ 0 0 0.

(** * The plugin *)

Record PredictedLatency := mkPlugin {
  runningRequestLists : gmap (string * string) requestPriorityQueue;
  sloContextStore : gmap string predictedLatencyCtx;
  prefillTokensInFlight : gmap string Z;
  trained : list TrainingEntry                (* handed to the service *)
}.

#[global] Instance eta_PredictedLatency : Eta PredictedLatency := fun s =>
  mkPlugin (runningRequestLists s) (sloContextStore s) (prefillTokensInFlight s) (trained s).

Definition NewPredictedLatency : PredictedLatency := mkPlugin ∅ ∅ ∅ [].

(** [podCounter(key).Load()], which makes the counter. *)
Definition podCounter (m : gmap string Z) (key : string) : gmap string Z := <[key := default 0 (m !! key)]> m.

(** [podCounter(key).Add(delta)]: the new value and the counters. *)
Definition counter_add (m : gmap string Z) (key : string) (delta : Z) : Z * gmap string Z :=
  let v := i64 (default 0 (m !! key) + delta) in (v, <[key := v]> m).

(** Subtract, and delete a counter that becomes zero. *)
Definition release_tokens (s : PredictedLatency) (m : EndpointMetadata) (tokens : Z) : PredictedLatency :=
  let '(v, counters) := counter_add (prefillTokensInFlight s) (pod_key m) (- tokens) in
  s <| prefillTokensInFlight := if v =? 0 then delete (pod_key m) counters else counters |>.

(** The tokens of the prompt leave the prefill endpoint. *)
Definition release_prefill (s : PredictedLatency) (c : predictedLatencyCtx) : PredictedLatency :=
  match prefillTargetMetadata c with
  | Some m => release_tokens s m (inputTokenCount c)
  | None => s
  end.

Definition getPredictedLatencyContextForRequest (s : PredictedLatency) (request : LLMRequest) : option predictedLatencyCtx :=
  sloContextStore s !! request_id request.

Definition setPredictedLatencyContextForRequest (s : PredictedLatency) (request : LLMRequest) (c : predictedLatencyCtx) : PredictedLatency :=
  s <| sloContextStore := <[request_id request := c]> (sloContextStore s) |>.

Definition deletePredictedLatencyContextForRequest (s : PredictedLatency) (request : LLMRequest) : PredictedLatency :=
  s <| sloContextStore := delete (request_id request) (sloContextStore s) |>.

Definition getOrMakePredictedLatencyContextForRequest (s : PredictedLatency) (request : LLMRequest) : predictedLatencyCtx :=
  match getPredictedLatencyContextForRequest s request with
  | Some c => c
  | None => newPredictedLatencyContext request
  end.

(** [strconv.ParseFloat(s, 64)]; what the endpoints report during the call. *)
Context (ParseFloat : string -> option spec_float).

(** A missing header reads 0, a malformed one is an error. *)
Definition parseFloatHeader (request : LLMRequest) (headerName : string) : option spec_float :=
  match Headers request !! headerName with
  | None => Some f64_zero
  | Some headerValue => ParseFloat headerValue
  end.

Definition TTFTSLOHeaderKey : string := "x-slo-ttft-ms".
Definition TPOTSLOHeaderKey : string := "x-slo-tpot-ms".

(** Errors are logged and leave 0. *)
Definition parseSLOHeaders (request : LLMRequest) (c : predictedLatencyCtx) : predictedLatencyCtx :=
  c <| ttftSLO := default f64_zero (parseFloatHeader request TTFTSLOHeaderKey) |>
    <| avgTPOTSLO := default f64_zero (parseFloatHeader request TPOTSLOHeaderKey) |>.

(** ** Running requests *)

Definition getRunningRequestList (s : PredictedLatency) (name : string * string) : option requestPriorityQueue :=
  runningRequestLists s !! name.

Definition getEndpointMinTPOTSLO (s : PredictedLatency) (e : Endpoint) : spec_float :=
  match getRunningRequestList s (NamespacedName e) with
  | Some runningReqs =>
      if Nat.ltb 0 (rq_GetSize runningReqs)
      then match rq_Peek runningReqs with Some r => rq_tpot r | None => f64_zero end
      else f64_zero
  | None => f64_zero
  end.

Definition getEndpointRunningRequestCount (s : PredictedLatency) (e : Endpoint) : Z :=
  match getRunningRequestList s (NamespacedName e) with
  | Some runningReqs => Z.of_nat (rq_GetSize runningReqs)
  | None => 0
  end.

Definition removeRequestFromEndpoint (s : PredictedLatency) (name : string * string) (requestID : string) : option PredictedLatency :=
  match getRunningRequestList s name with
  | None => Some s
  | Some queue =>
      '(_, queue) ← rq_Remove queue requestID;
      Some (s <| runningRequestLists :=
        if Nat.eqb (rq_GetSize queue) 0 then delete name (runningRequestLists s) else <[name := queue]> (runningRequestLists s) |>)
  end.

Definition removeRequestFromQueue (s : PredictedLatency) (requestID : string) (c : predictedLatencyCtx) : option PredictedLatency :=
  match targetMetadata c with
  | None => Some s
  | Some m => removeRequestFromEndpoint s (NamespacedName m) requestID
  end.

(** The callback of the store for a context that expires, which the store has
    removed. *)
Definition on_expired (s : PredictedLatency) (id : string) (c : predictedLatencyCtx) : option PredictedLatency :=
  s ← removeRequestFromQueue s id c;
  if (0 <? prefillTokensAtDispatch c) || (0 <? prefillTokensAtDispatchOnPrefill c) then
    let s := if SFeqb (ttft c) f64_zero then release_prefill s c else s in
    Some (match targetMetadata c with
          | Some m => release_tokens s m (inputTokenCount c)
          | None => s
          end)
  else Some s.

(** * Metrics and training data *)

(** What the endpoints report now. *)
Abbreviation metrics_view := (Endpoint -> Metrics).

Definition pod_type (roleLabel : string) (m : EndpointMetadata) : string :=
  if String.eqb roleLabel EmptyString then EmptyString else default EmptyString (Labels m !! roleLabel).

Definition buildPredictionRequest (roleLabel : string) (m : EndpointMetadata) (metrics : Metrics) (prompt : string)
    (generatedTokens : Z) (prefixCacheScore : spec_float) : PredictionRequest :=
  {| pq_KVCachePercentage := KVCacheUsagePercent metrics;
     pq_InputTokenLength := len_fields prompt;
     pq_NumRequestWaiting := WaitingQueueSize metrics;
     pq_NumRequestRunning := RunningRequestsSize metrics;
     pq_NumTokensGenerated := generatedTokens;
     pq_PrefixCacheScore := prefixCacheScore;
     pq_PodType := pod_type roleLabel m;
     pq_PrefillTokensInFlight := 0 |}.

Definition buildTrainingEntry (roleLabel : string) (m : EndpointMetadata) (metrics : Metrics) (prompt : string)
    (actualTTFT actualTPOT : spec_float) (timestamp generatedTokens : Z) (prefixCacheScore : spec_float)
    (prefillTokens decodeTokens : Z) : TrainingEntry :=
  {| te_KVCachePercentage := KVCacheUsagePercent metrics;
     te_InputTokenLength := len_fields prompt;
     te_ActualTTFT := actualTTFT;
     te_ActualTPOT := actualTPOT;
     te_Timestamp := timestamp;
     te_NumRequestWaiting := WaitingQueueSize metrics;
     te_NumRequestRunning := RunningRequestsSize metrics;
     te_NumTokensGenerated := generatedTokens;
     te_PrefixCacheScore := prefixCacheScore;
     te_PodType := pod_type roleLabel m;
     te_PrefillTokensInFlight := prefillTokens;
     te_DecodeTokensInFlight := decodeTokens |}.

Definition recordTTFTTrainingData (roleLabel : string) (c : predictedLatencyCtx) (metrics : Metrics) (m : EndpointMetadata)
    (now : Z) (prefixCacheScore : spec_float) : TrainingEntry :=
  buildTrainingEntry roleLabel m metrics (promptText c) (ttft c) f64_zero now 0 prefixCacheScore
    (if 0 <? prefillTokensAtDispatchOnPrefill c then prefillTokensAtDispatchOnPrefill c else prefillTokensAtDispatch c)
    (decodeTokensAtDispatch c).

(** The first target of every profile that has one. *)
Definition refreshLastSeenMetrics (metrics : metrics_view) (c : predictedLatencyCtx) : predictedLatencyCtx :=
  match schedulingResult c with
  | None => c
  | Some sr =>
      let seen := omap (fun r => e ← (r ≫= fun r => head (TargetEndpoints r)); Some (metrics e)) (ProfileResults sr) in
      c <| lastSeenMetrics := seen ∪ lastSeenMetrics c |>
  end.

(** [None] is the error. *)
Definition getLatestMetricsForProfile (c : predictedLatencyCtx) (profileName : string) : option Metrics :=
  if Nat.eqb (size (lastSeenMetrics c)) 0 then None
  else
    let profileName := if String.eqb profileName EmptyString
                       then match schedulingResult c with Some sr => PrimaryProfileName sr | None => profileName end
                       else profileName in
    lastSeenMetrics c !! profileName.

Definition calculateRunningAverage (currentAvg newValue : spec_float) (count : Z) : spec_float :=
  if count =? 0 then f64_zero
  else if count =? 1 then newValue
  else f64_add currentAvg (f64_div (f64_sub newValue currentAvg) (f64_of_int count)).

(** * Predictions *)

Context (cfg : Config).

(** The built-in [min] on doubles. *)
Definition f64_min (x y : spec_float) : spec_float :=
  if is_nan x || is_nan y then S754_nan
  else match x, y with
       | S754_zero s, S754_zero t => S754_zero (s || t)
       | _, _ => if SFltb y x then y else x
       end.

(** TTFT and TPOT within the objective, both, and the headroom of TPOT and TTFT. *)
Definition validatePrediction (pred : PredictionResponse) (c : predictedLatencyCtx) (podMinTPOTSLO : spec_float)
    : bool * bool * bool * spec_float * spec_float :=
  let ttftOk := SFltb (rsp_TTFT pred) (ttftSLO c) in
  let ttftHeadroom := f64_sub (ttftSLO c) (rsp_TTFT pred) in
  let '(tpotOk, headroom) :=
    if StreamingMode cfg then
      let bufferedTPOT := f64_mul (avgTPOTSLO c) (SLOBufferFactor cfg) in
      let bufferedTPOT := if SFltb f64_zero podMinTPOTSLO
                          then f64_min bufferedTPOT (f64_mul podMinTPOTSLO (SLOBufferFactor cfg)) else bufferedTPOT in
      (SFltb (rsp_TPOT pred) bufferedTPOT, f64_sub bufferedTPOT (rsp_TPOT pred))
    else (true, f64_zero) in
  (ttftOk, tpotOk, ttftOk && tpotOk, headroom, ttftHeadroom).

Definition hasPrefillRole (roleLabel : string) (e : Endpoint) : bool :=
  if String.eqb roleLabel EmptyString then false
  else String.eqb (default EmptyString (Labels e !! roleLabel)) "prefill".

Definition prefix_score_of (c : predictedLatencyCtx) (e : Endpoint) : spec_float :=
  default f64_zero (prefixCacheScoresForEndpoints c !! pod_name e).

(** The inputs of the service for the candidates; without candidates it is not
    asked. *)
Definition bulkPredictWithMetrics (service : Predictor) (metrics : metrics_view) (c : predictedLatencyCtx)
    (inFlight : list (Endpoint * Z)) : option (list PredictionResponse) :=
  let bulkRequests := (fun '(e, tokens) =>
    let r := buildPredictionRequest (EndpointRoleLabel cfg) e (metrics e) (promptText c) 1 (prefix_score_of c e) in
    {| pq_KVCachePercentage := pq_KVCachePercentage r; pq_InputTokenLength := pq_InputTokenLength r;
       pq_NumRequestWaiting := pq_NumRequestWaiting r; pq_NumRequestRunning := pq_NumRequestRunning r;
       pq_NumTokensGenerated := pq_NumTokensGenerated r; pq_PrefixCacheScore := pq_PrefixCacheScore r;
       pq_PodType := pq_PodType r; pq_PrefillTokensInFlight := tokens |}) <$> inFlight in
  match bulkRequests with
  | [] => Some []
  | _ => PredictBulkStrict service bulkRequests
  end.

(** The result for one candidate. *)
Definition predict_endpoint (s : PredictedLatency) (c : predictedLatencyCtx) (e : Endpoint) (prediction : PredictionResponse)
    : endpointPredictionResult :=
  let podMinTPOTSLO := getEndpointMinTPOTSLO s e in
  let '(ttftOk, tpotOk, isValid, headroom, ttftHeadroom) := validatePrediction prediction c podMinTPOTSLO in
  let neutral := negb (StreamingMode cfg) || hasPrefillRole (EndpointRoleLabel cfg) e in
  {| pr_Endpoint := e;
     pr_TTFT := rsp_TTFT prediction;
     pr_TPOT := rsp_TPOT prediction;
     pr_TTFTValid := ttftOk;
     pr_TPOTValid := if neutral then true else tpotOk;
     pr_IsValid := if neutral then ttftOk else isValid;
     pr_Headroom := if neutral then f64_zero else headroom;
     pr_TTFTHeadroom := ttftHeadroom;
     pr_PrefixCacheScore := prefix_score_of c e |}.

(** [bulkPredictions[i]] panics when the service gave fewer predictions. *)
Fixpoint predict_loop (s : PredictedLatency) (c : predictedLatencyCtx) (endpoints : list Endpoint)
    (bulkPredictions : list PredictionResponse) : option (list endpointPredictionResult) :=
  match endpoints, bulkPredictions with
  | [], _ => Some []
  | _, [] => None
  | e :: endpoints, prediction :: bulkPredictions =>
      rest ← predict_loop s c endpoints bulkPredictions;
      Some (predict_endpoint s c e prediction :: rest)
  end.

(** Reading the counters makes them.  The inner option is the error. *)
Definition generatePredictions (service : Predictor) (metrics : metrics_view) (s : PredictedLatency) (c : predictedLatencyCtx)
    (endpoints : list Endpoint) : option (PredictedLatency * option (list endpointPredictionResult)) :=
  let counters := foldl (fun m e => podCounter m (pod_key e)) (prefillTokensInFlight s) endpoints in
  let s := s <| prefillTokensInFlight := counters |> in
  match bulkPredictWithMetrics service metrics c ((fun e => (e, default 0 (counters !! pod_key e))) <$> endpoints) with
  | None => Some (s, None)
  | Some bulkPredictions =>
      predictions ← predict_loop s c endpoints bulkPredictions;
      Some (s, Some predictions)
  end.

Definition updateRequestContextWithPredictions (c : predictedLatencyCtx) (predictions : list endpointPredictionResult)
    : predictedLatencyCtx :=
  c <| predictionsForScheduling := foldl (fun m p => <[pod_name (pr_Endpoint p) := p]> m) ∅ predictions |>.

(** The prefix cache score of an endpoint; a quotient that is not a number is 0. *)
Definition cache_score (prefixInfo : Endpoint -> option PrefixCacheMatchInfo) (e : Endpoint) : spec_float :=
  match prefixInfo e with
  | Some info =>
      let score := f64_div (f64_of_int (MatchBlocks info)) (f64_of_int (TotalBlocks info)) in
      if is_nan score then f64_zero else score
  | None => f64_zero
  end.

(** The state and the attributes put on the endpoints. *)
Definition PrepareRequestData (service : Predictor) (metrics : metrics_view) (prefixInfo : Endpoint -> option PrefixCacheMatchInfo)
    (s : PredictedLatency) (request : LLMRequest) (endpoints : list Endpoint)
    : option (PredictedLatency * list (Endpoint * LatencyPredictionInfo)) :=
  let c := parseSLOHeaders request (getOrMakePredictedLatencyContextForRequest s request) in
  let c := c <| prefixCacheScoresForEndpoints :=
    foldl (fun m e => <[pod_name e := cache_score prefixInfo e]> m) (prefixCacheScoresForEndpoints c) endpoints |> in
  if negb (PredictInPrepareData cfg) then Some (setPredictedLatencyContextForRequest s request c, [])
  else
    '(s, predictions) ← generatePredictions service metrics s c endpoints;
    match predictions with
    | Some predictions =>
        if Nat.eqb (length predictions) (length endpoints) then
          let c := updateRequestContextWithPredictions c predictions in
          let attributes := (fun p => (pr_Endpoint p,
            {| TTFTValid := pr_TTFTValid p; TPOTValid := pr_TPOTValid p; TTFTHeadroom := pr_TTFTHeadroom p;
               TPOTHeadroom := pr_Headroom p; TTFT := pr_TTFT p; TPOT := pr_TPOT p;
               DispatchedRequestCount := getEndpointRunningRequestCount s (pr_Endpoint p) |})) <$> predictions in
          Some (setPredictedLatencyContextForRequest s request c, attributes)
        else Some (setPredictedLatencyContextForRequest s request c, [])
    | None => Some (setPredictedLatencyContextForRequest s request c, [])
    end.

(** * Hooks *)

(** [float64(t.Sub(u).Milliseconds())]; [Sub] saturates. *)
Definition elapsed_ms (t u : Z) : spec_float :=
  f64_of_int (Z.quot (Z.max (- two63) (Z.min (two63 - 1) (t - u))) 1000000).

Definition DefaultPrefillProfile : string := "prefill".

(** The stored prediction for the endpoint that computes the first token. *)
Definition processPreRequestForLatencyPrediction (now : Z) (target : EndpointMetadata) (c : predictedLatencyCtx) : predictedLatencyCtx :=
  let targetName := pod_name (default target (prefillTargetMetadata c)) in
  c <| predictedTTFT := match predictionsForScheduling c !! targetName with Some p => pr_TTFT p | None => f64_zero end |>
    <| lastTokenTimestamp := now |>.

(** The tokens of the prompt are added to the endpoint. *)
Definition add_tokens (s : PredictedLatency) (m : EndpointMetadata) (tokens : Z) : Z * PredictedLatency :=
  let '(v, counters) := counter_add (prefillTokensInFlight s) (pod_key m) tokens in
  (v, s <| prefillTokensInFlight := counters |>).

(** The tokens of the prompt at the prefill endpoint, if there is one. *)
Definition add_prefill (s : PredictedLatency) (c : predictedLatencyCtx) : PredictedLatency * predictedLatencyCtx :=
  match prefillTargetMetadata c with
  | Some m => let '(v, s) := add_tokens s m (inputTokenCount c) in (s, c <| prefillTokensAtDispatchOnPrefill := v |>)
  | None => (s, c)
  end.

(** The bookkeeping for a request that goes to [target]. *)
Definition dispatch_request (metrics : metrics_view) (now now' : Z) (s : PredictedLatency) (request : LLMRequest) (result : Result)
    (target : EndpointMetadata) (queue : requestPriorityQueue) (c : predictedLatencyCtx) : option PredictedLatency :=
  '(_, queue) ← rq_Add queue (request_id request) (avgTPOTSLO c);
  let s := s <| runningRequestLists := <[NamespacedName target := queue]> (runningRequestLists s) |> in
  let prefill := r ← ProfileResults result !! DefaultPrefillProfile; r ← r; head (TargetEndpoints r) in
  let c := c <| targetMetadata := Some target |>
             <| prefillTargetMetadata := match prefill with Some m => Some m | None => prefillTargetMetadata c end |>
             <| schedulingResult := Some result |> <| requestReceivedTimestamp := now |> in
  let c := refreshLastSeenMetrics metrics c in
  let '(s, c) := add_prefill s c in
  let '(v, s) := add_tokens s target (inputTokenCount c) in
  let c := c <| prefillTokensAtDispatch := v |> <| decodeTokensAtDispatch := 0 |> in
  Some (setPredictedLatencyContextForRequest s request (processPreRequestForLatencyPrediction now' target c)).

(** A missing primary profile, or one without targets, panics. *)
Definition PreRequest (metrics : metrics_view) (now now' : Z) (s : PredictedLatency) (request : LLMRequest) (result : Result)
    : option PredictedLatency :=
  if Nat.eqb (size (ProfileResults result)) 0 then Some s
  else
    primary ← ProfileResults result !! PrimaryProfileName result;
    primary ← primary;
    target ← head (TargetEndpoints primary);
    if String.eqb (request_id request) EmptyString then Some s
    else
      let queue := default newRequestPriorityQueue (getRunningRequestList s (NamespacedName target)) in
      let s := s <| runningRequestLists := <[NamespacedName target := queue]> (runningRequestLists s) |> in
      match getPredictedLatencyContextForRequest s request with
      | None => Some s
      | Some c => dispatch_request metrics now now' s request result target queue c
      end.

Definition initializeSampler (now : Z) (c : predictedLatencyCtx) : option predictedLatencyCtx :=
  match sampler c with
  | Some _ => Some c
  | None =>
      ts ← newDecodeTokenSampler (request_id (schedulingRequest c)) (SamplingMean cfg) (MaxDecodeTokenSamplesForPrediction cfg) now;
      Some (c <| sampler := Some ts |>)
  end.

Definition observe_prediction (tpot : spec_float) (c : predictedLatencyCtx) : predictedLatencyCtx :=
  let observations := predictedTPOTObservations c ++ [tpot] in
  c <| predictedTPOTObservations := observations |>
    <| avgPredictedTPOT := calculateRunningAverage (avgPredictedTPOT c) tpot (Z.of_nat (length observations)) |>.

(** The target is dereferenced. *)
Definition predictFirstTPOT (c : predictedLatencyCtx) : option predictedLatencyCtx :=
  target ← targetMetadata c;
  Some (observe_prediction (match predictionsForScheduling c !! pod_name target with Some p => pr_TPOT p | None => f64_zero end) c).

(** The context and the training data of the first token. *)
Definition processFirstTokenForLatencyPrediction (metrics : metrics_view) (now : Z) (c : predictedLatencyCtx)
    : option (predictedLatencyCtx * list TrainingEntry) :=
  c ← initializeSampler now c;
  let c := c <| ttft := elapsed_ms now (requestReceivedTimestamp c) |> <| generatedTokenCount := 1 |> in
  let finish entries :=
    c ← (if StreamingMode cfg then predictFirstTPOT c else Some c);
    Some (refreshLastSeenMetrics metrics (c <| lastTokenTimestamp := now |>), entries) in
  match prefillTargetMetadata c with
  | Some m =>
      finish (match getLatestMetricsForProfile c DefaultPrefillProfile with
              | Some prefillMetrics =>
                  [recordTTFTTrainingData (EndpointRoleLabel cfg) c prefillMetrics m now (prefix_score_of c m)]
              | None => []
              end)
  | None =>
      match getLatestMetricsForProfile c EmptyString with
      | None => Some (c, [])
      | Some latest =>
          target ← targetMetadata c;
          finish [recordTTFTTrainingData (EndpointRoleLabel cfg) c latest target now (prefix_score_of c target)]
      end
  end.

Definition processTokenForLatencyPrediction (service : Predictor) (metrics : metrics_view) (now : Z) (target : EndpointMetadata)
    (c : predictedLatencyCtx) : option predictedLatencyCtx :=
  c ← initializeSampler now c;
  ts ← sampler c;
  let latencyMs := elapsed_ms now (lastTokenTimestamp c) in
  let c := c <| generatedTokenCount := i64 (generatedTokenCount c + 1) |> in
  let c := if (generatedTokenCount c =? 2) || shouldPredict ts (generatedTokenCount c)
           then c <| tpotObservations := tpotObservations c ++ [latencyMs] |> else c in
  match getLatestMetricsForProfile c EmptyString with
  | None => Some c
  | Some latest =>
      c ← (if shouldPredict ts (generatedTokenCount c) then
             let p := Predict service (buildPredictionRequest (EndpointRoleLabel cfg) target latest (promptText c)
                                         (generatedTokenCount c) f64_zero) in
             let c := observe_prediction (match p with Some p => rsp_TPOT p | None => f64_zero end) c in
             ts ← recordPrediction ts (generatedTokenCount c);
             Some (c <| sampler := Some ts |>)
           else Some c);
      Some (refreshLastSeenMetrics metrics (c <| lastTokenTimestamp := now |>))
  end.

(** The end of the response: the average time per token, its training data, and
    the end of the bookkeeping. *)
Definition average_tpot (now : Z) (c : predictedLatencyCtx) : predictedLatencyCtx :=
  if SFltb f64_zero (ttft c) && (1 <? generatedTokenCount c)
  then c <| avgTPOT := f64_div (f64_sub (elapsed_ms now (requestReceivedTimestamp c)) (ttft c)) (f64_of_int (generatedTokenCount c - 1)) |>
  else c.

Definition tpot_entries (now : Z) (target : EndpointMetadata) (c : predictedLatencyCtx) : list TrainingEntry :=
  if SFltb f64_zero (avgTPOT c) then
    match getLatestMetricsForProfile c EmptyString with
    | Some latest => [buildTrainingEntry (EndpointRoleLabel cfg) target latest (promptText c) f64_zero (avgTPOT c) now 0 f64_zero
                        (prefillTokensAtDispatch c) (decodeTokensAtDispatch c)]
    | None => []
    end
  else [].

Definition finish_response (metrics : metrics_view) (now : Z) (s : PredictedLatency) (request : LLMRequest) (target : EndpointMetadata)
    (c : predictedLatencyCtx) : option PredictedLatency :=
  let ttftNotYetRecorded := SFeqb (ttft c) f64_zero in
  '(c, entries) ← (if StreamingMode cfg then Some (c, []) else processFirstTokenForLatencyPrediction metrics now c);
  let c := average_tpot now c in
  let s := s <| trained := trained s ++ entries ++ tpot_entries now target c |> in
  let s := if ttftNotYetRecorded then release_prefill s c else s in
  let s := release_tokens s target (inputTokenCount c) in
  s ← removeRequestFromQueue s (request_id request) c;
  Some (deletePredictedLatencyContextForRequest s request).

Definition ResponseBody (service : Predictor) (metrics : metrics_view) (now : Z) (s : PredictedLatency) (request : LLMRequest)
    (endOfStream : bool) (target : EndpointMetadata) : option PredictedLatency :=
  match getPredictedLatencyContextForRequest s request with
  | None => Some s
  | Some c =>
      '(s, c) ← (if SFeqb (ttft c) f64_zero then
                   if StreamingMode cfg && negb endOfStream then
                     '(c, entries) ← processFirstTokenForLatencyPrediction metrics now c;
                     let s := s <| trained := trained s ++ entries |> in
                     Some (release_prefill s c, c)
                   else Some (s, c)
                 else
                   c ← processTokenForLatencyPrediction service metrics now target c;
                   Some (s, c));
      let s := setPredictedLatencyContextForRequest s request c in
      if endOfStream then finish_response metrics now s request target c else Some s
  end.

(** * Runs *)

Inductive event :=
| EvPrepare (service : Predictor) (metrics : metrics_view) (prefixInfo : Endpoint -> option PrefixCacheMatchInfo)
    (request : LLMRequest) (endpoints : list Endpoint)
| EvPreRequest (metrics : metrics_view) (now now' : Z) (request : LLMRequest) (result : Result)
| EvResponse (service : Predictor) (metrics : metrics_view) (now : Z) (request : LLMRequest) (endOfStream : bool) (target : EndpointMetadata)
| EvExpire (id : string).

Definition exec (s : PredictedLatency) (e : event) : option PredictedLatency :=
  match e with
  | EvPrepare service metrics prefixInfo request endpoints =>
      fst <$> PrepareRequestData service metrics prefixInfo s request endpoints
  | EvPreRequest metrics now now' request result => PreRequest metrics now now' s request result
  | EvResponse service metrics now request endOfStream target => ResponseBody service metrics now s request endOfStream target
  | EvExpire id =>
      match sloContextStore s !! id with
      | Some c => on_expired (s <| sloContextStore := delete id (sloContextStore s) |>) id c
      | None => Some s
      end
  end.

Definition run (s : PredictedLatency) (events : list event) : option PredictedLatency := ofold exec events s.

End Producer.
