(* ===== verification/PredictedLatencyProps.v ===== *)
(** The bookkeeping of the predicted-latency producer is exact: for every sequence
    of hooks and expirations the counters hold the prompt tokens of the requests
    that wait for their first token, and the queues hold the objectives of the
    running requests. *)

From S2P Require Import Prelude Doubles EvictionQueue InFlight Ordering Chunking ReqCtx Saturation Scheduler Scorers RequestQueue PredictedLatency.

(** * Sums over maps *)

Definition map_sumZ {K A} `{Countable K} (f : A -> Z) (m : gmap K A) : Z := sumZ (fun kv => f kv.2) (map_to_list m).

Lemma map_sumZ_delete {K A} `{Countable K} (f : A -> Z) (m : gmap K A) k x :
  m !! k = Some x -> map_sumZ f m = f x + map_sumZ f (delete k m).
Proof. intros Hk. unfold map_sumZ. by rewrite <- (sumZ_perm _ _ _ (map_to_list_delete m k x Hk)). Qed.

Lemma map_sumZ_insert {K A} `{Countable K} (f : A -> Z) (m : gmap K A) k x :
  map_sumZ f (<[k := x]> m) = f x + map_sumZ f (delete k m).
Proof. rewrite (map_sumZ_delete f _ k x) by apply lookup_insert_eq. by rewrite delete_insert_eq. Qed.

Lemma map_sumZ_nonneg {K A} `{Countable K} (f : A -> Z) (m : gmap K A) :
  (forall k x, m !! k = Some x -> 0 <= f x) -> 0 <= map_sumZ f m.
Proof. intros Hf. apply sumZ_nonneg. intros [k x] Hin%elem_of_map_to_list. by apply (Hf k). Qed.

Lemma map_sumZ_le {K A} `{Countable K} (f g : A -> Z) (m : gmap K A) :
  (forall k x, m !! k = Some x -> f x <= g x) -> map_sumZ f m <= map_sumZ g m.
Proof.
  intros Hf. unfold map_sumZ. assert (Hl : forall kv, kv ∈ map_to_list m -> f kv.2 <= g kv.2).
  { intros [k x] Hin%elem_of_map_to_list. by apply (Hf k). }
  clear Hf. induction (map_to_list m) as [|kv l IH]; [done|]. rewrite !sumZ_cons. pose proof (Hl kv ltac:(left)).
  specialize (IH ltac:(intros; apply Hl; by right)). lia.
Qed.

Section Accounting.

Context {G : Type} (NewSource : Z -> G) (Float64 NormFloat64 : G -> spec_float * G) (exp : spec_float -> spec_float)
  (overflow : spec_float -> Z) (draws : nat).
Context {V : Type} (Marshal : V -> string) (ParseFloat : string -> option spec_float) (cfg : Config).

Abbreviation PL := (@PredictedLatency G V).
Abbreviation ctx := (@predictedLatencyCtx G V).

(** * What the bookkeeping should hold *)

Definition here (m : option EndpointMetadata) (key : string) : bool :=
  match m with Some m => String.eqb (pod_key m) key | None => false end.

(** The prompt tokens a request accounts for at a pod: at its target until it ends,
    at its prefill endpoint until its first token. *)
Definition tokens_at (key : string) (c : ctx) : Z :=
  (if here (targetMetadata c) key then inputTokenCount c else 0)
  + (if here (prefillTargetMetadata c) key && SFeqb (ttft c) f64_zero then inputTokenCount c else 0).

Definition in_flight (store : gmap string ctx) (key : string) : Z := map_sumZ (tokens_at key) store.

Definition all_tokens (store : gmap string ctx) : Z := map_sumZ (fun c => 2 * inputTokenCount c) store.

(** The objective of a request, if it is dispatched to an endpoint. *)
Definition objective_at (name : string * string) (id : string) (c : ctx) : option spec_float :=
  match targetMetadata c with
  | Some m => if bool_decide (NamespacedName m = name) then Some (avgTPOTSLO c) else None
  | None => None
  end.

(** The requests that run at an endpoint, with their objectives. *)
Definition objectives (store : gmap string ctx) (name : string * string) : gmap string spec_float := map_imap (objective_at name) store.

Definition counters_read (cs : gmap string Z) (f : string -> Z) : Prop := forall key, default 0 (cs !! key) = f key.

Definition queue_is (q : option requestPriorityQueue) (M : gmap string spec_float) : Prop :=
  match q with Some q => rq_rel q M | None => M = ∅ end.

Definition queues_read (ls : gmap (string * string) requestPriorityQueue) (F : string * string -> gmap string spec_float) : Prop :=
  forall name, queue_is (ls !! name) (F name).

Record ctx_ok (c : ctx) : Prop := {
  cx_tokens : 0 <= inputTokenCount c;
  cx_number : is_nan (avgTPOTSLO c) = false;
  cx_objective : SFltb (avgTPOTSLO c) f64_zero = false;
  cx_new : targetMetadata c = None -> prefillTargetMetadata c = None /\ SFeqb (ttft c) f64_zero = true;
  cx_dispatched : is_Some (targetMetadata c) -> inputTokenCount c = 0 \/ 0 < prefillTokensAtDispatch c
}.

Record exact (s : PL) : Prop := {
  ex_counters : counters_read (prefillTokensInFlight s) (in_flight (sloContextStore s));
  ex_queues : queues_read (runningRequestLists s) (objectives (sloContextStore s));
  ex_ctx id c : sloContextStore s !! id = Some c -> ctx_ok c;
  ex_bound : all_tokens (sloContextStore s) < two63
}.

(** * Counters *)

Definition minus_at (f : string -> Z) (m : EndpointMetadata) (n : Z) (key : string) : Z :=
  f key - (if String.eqb (pod_key m) key then n else 0).

Lemma counter_add_read cs f key n :
  counters_read cs f -> is_i64 (f key + n) ->
  (counter_add cs key n).1 = f key + n /\
  counters_read (counter_add cs key n).2 (fun k => f k + (if String.eqb key k then n else 0)).
Proof.
  intros Hr Hi. unfold counter_add. cbn [fst snd]. rewrite Hr, i64_id by done. split; [done|].
  intros k. rewrite lookup_insert. case_decide as Hk.
  - subst k. by rewrite String.eqb_refl.
  - rewrite Hr. destruct (String.eqb_spec key k); [done|lia].
Qed.

Lemma release_read (s : PL) m n f :
  counters_read (prefillTokensInFlight s) f -> is_i64 (f (pod_key m) - n) ->
  exists cs, release_tokens s m n = s <| prefillTokensInFlight := cs |> /\ counters_read cs (minus_at f m n).
Proof.
  intros Hr Hi. destruct (counter_add_read _ f (pod_key m) (- n) Hr Hi) as [Hv Hcs]. unfold release_tokens.
  destruct (counter_add _ _ _) as [v cs] eqn:Hadd. cbn [fst snd] in Hv, Hcs. subst v. eexists. split; [reflexivity|].
  assert (Hm : counters_read cs (minus_at f m n)) by (intros k; rewrite Hcs; unfold minus_at; destruct (String.eqb _ _); lia).
  destruct (_ =? 0) eqn:Hz; [|exact Hm]. apply Z.eqb_eq in Hz. intros k. rewrite lookup_delete. case_decide as Hk; [|apply Hm].
  subst k. cbn. unfold minus_at. rewrite String.eqb_refl. lia.
Qed.

Lemma add_read (s : PL) m n f :
  counters_read (prefillTokensInFlight s) f -> is_i64 (f (pod_key m) + n) ->
  exists cs, add_tokens s m n = (f (pod_key m) + n, s <| prefillTokensInFlight := cs |>) /\
    counters_read cs (fun k => f k + (if String.eqb (pod_key m) k then n else 0)).
Proof.
  intros Hr Hi. destruct (counter_add_read _ f (pod_key m) n Hr Hi) as [Hv Hcs]. unfold add_tokens.
  destruct (counter_add _ _ _) as [v cs] eqn:Hadd. cbn [fst snd] in Hv, Hcs. subst v. by eexists.
Qed.

(** * Queues *)

Definition without (F : string * string -> gmap string spec_float) (name : string * string) (id : string) (n : string * string)
  : gmap string spec_float := if decide (n = name) then delete id (F n) else F n.

Lemma queues_insert ls F name q M :
  queues_read ls F -> rq_rel q M -> queues_read (<[name := q]> ls) (fun n => if decide (n = name) then M else F n).
Proof. intros Hr Hq n. rewrite lookup_insert. case_decide; case_decide; try congruence; [exact Hq|apply Hr]. Qed.

Lemma queues_delete ls F name : queues_read ls F -> queues_read (delete name ls) (fun n => if decide (n = name) then ∅ else F n).
Proof. intros Hr n. rewrite lookup_delete. case_decide; case_decide; try congruence; apply Hr. Qed.

Lemma queues_ext ls F F' : queues_read ls F -> (forall n, F' n = F n) -> queues_read ls F'.
Proof. intros Hr Heq n. rewrite Heq. apply Hr. Qed.

Lemma remove_read (s : PL) name id F :
  queues_read (runningRequestLists s) F ->
  exists ls, removeRequestFromEndpoint s name id = Some (s <| runningRequestLists := ls |>) /\ queues_read ls (without F name id).
Proof.
  intros Hr. unfold removeRequestFromEndpoint, getRunningRequestList. pose proof (Hr name) as Hq.
  destruct (runningRequestLists s !! name) as [q|] eqn:Hl.
  - cbn in Hq. destruct (Remove_rel q (F name) id Hq) as (res & q' & Hrm & Hq' & _). rewrite Hrm. cbn [mbind option_bind].
    eexists. split; [reflexivity|]. pose proof (Size_rel _ _ Hq') as Hsz. destruct (Nat.eqb_spec (rq_GetSize q') 0) as [Hz|Hz].
    + eapply queues_ext; [by apply queues_delete|]. intros n. unfold without. cbn beta. case_decide; [|done]. subst n.
      apply map_size_empty_inv. congruence.
    + eapply queues_ext; [by apply queues_insert|]. intros n. unfold without. cbn beta. case_decide; [by subst|done].
  - exists (runningRequestLists s). split; [by destruct s|]. eapply queues_ext; [exact Hr|]. intros n. unfold without. case_decide; [|done].
    subst n. cbn in Hq. by rewrite Hq, delete_empty.
Qed.

Lemma objectives_delete st id : forall n, objectives (delete id st) n = delete id (objectives st n).
Proof. intros n. unfold objectives. by rewrite map_imap_delete. Qed.

(** Without its context a request is in no queue. *)
Lemma forget_queue (s : PL) st id c :
  st !! id = Some c -> queues_read (runningRequestLists s) (objectives st) ->
  exists ls, removeRequestFromQueue s id c = Some (s <| runningRequestLists := ls |>) /\ queues_read ls (objectives (delete id st)).
Proof.
  intros Hc Hr. unfold removeRequestFromQueue.
  assert (Hother : forall n, (forall m, targetMetadata c = Some m -> NamespacedName m <> n) -> objectives (delete id st) n = objectives st n).
  { intros n Hn. rewrite objectives_delete. apply delete_id. unfold objectives. rewrite map_lookup_imap, Hc. cbn [mbind option_bind].
    unfold objective_at. destruct (targetMetadata c) as [m|]; [|done]. by rewrite bool_decide_false by (by apply Hn). }
  destruct (targetMetadata c) as [m|] eqn:Hm.
  - destruct (remove_read s (NamespacedName m) id _ Hr) as (ls & Heq & Hls). exists ls. split; [exact Heq|]. eapply queues_ext; [exact Hls|].
    intros n. unfold without. case_decide as Hd; [by rewrite objectives_delete|]. apply Hother. intros ? [= <-]. congruence.
  - exists (runningRequestLists s). split; [by destruct s|]. eapply queues_ext; [exact Hr|]. intros n. by apply Hother.
Qed.

(** * One context of the store *)

Definition others (st : gmap string ctx) (id : string) (key : string) : Z := in_flight (delete id st) key.

Lemma in_flight_split st id c key : st !! id = Some c -> in_flight st key = others st id key + tokens_at key c.
Proof. intros Hc. unfold others, in_flight. rewrite (map_sumZ_delete _ st id c Hc). lia. Qed.

Lemma in_flight_insert st id c key : in_flight (<[id := c]> st) key = others st id key + tokens_at key c.
Proof. unfold others, in_flight. rewrite map_sumZ_insert. lia. Qed.

Lemma tokens_bounds key c : 0 <= inputTokenCount c -> 0 <= tokens_at key c <= 2 * inputTokenCount c.
Proof. intros Hn. unfold tokens_at. destruct (here _ _), (here _ _ && _); lia. Qed.

Lemma others_bounds (s : PL) id key :
  exact s -> 0 <= others (sloContextStore s) id key /\
    forall c, sloContextStore s !! id = Some c -> others (sloContextStore s) id key + 2 * inputTokenCount c < two63.
Proof.
  intros [_ _ Hctx Hb]. set (st := sloContextStore s) in *.
  assert (Hok : forall k x, delete id st !! k = Some x -> 0 <= inputTokenCount x).
  { intros k x [_ Hx]%lookup_delete_Some. by apply (cx_tokens _ (Hctx k x Hx)). }
  assert (Hle : others st id key <= all_tokens (delete id st)).
  { apply map_sumZ_le. intros k x Hx. apply tokens_bounds. by eapply Hok. }
  split; [apply map_sumZ_nonneg; intros k x Hx; apply tokens_bounds; by eapply Hok|].
  intros c Hc. unfold all_tokens in *. rewrite (map_sumZ_delete _ st id c Hc) in Hb. lia.
Qed.

Lemma small_i64 z : 0 <= z < two63 -> is_i64 z.
Proof. unfold is_i64, two63. lia. Qed.

(** What the bookkeeping depends on. *)
Definition footprint (c : ctx) :=
  (targetMetadata c, prefillTargetMetadata c, inputTokenCount c, avgTPOTSLO c, prefillTokensAtDispatch c).

Lemma objectives_update st id c c' :
  st !! id = Some c -> footprint c' = footprint c -> forall n, objectives (<[id := c']> st) n = objectives st n.
Proof.
  intros Hc Hf n. unfold footprint in Hf. injection Hf as H1 _ _ H2 _. apply map_eq. intros k. unfold objectives. rewrite !map_lookup_imap, lookup_insert.
  case_decide; [|done]. subst k. rewrite Hc. cbn [mbind option_bind]. unfold objective_at. by rewrite H1, H2.
Qed.

Lemma all_tokens_update st id c c' : st !! id = Some c -> inputTokenCount c' = inputTokenCount c -> all_tokens (<[id := c']> st) = all_tokens st.
Proof. intros Hc Hn. unfold all_tokens. by rewrite map_sumZ_insert, (map_sumZ_delete _ st id c Hc), Hn. Qed.

Lemma ctx_ok_footprint c c' :
  ctx_ok c -> footprint c' = footprint c -> (targetMetadata c = None -> ttft c' = ttft c) -> ctx_ok c'.
Proof. intros [H1 H2 H2' H3 H4] Hf Ht. unfold footprint in Hf. injection Hf as E1 E2 E3 E4 E5. split; rewrite ?E1, ?E2, ?E3, ?E4, ?E5; try done.
  intros Hn. rewrite Ht by done. by apply H3. Qed.

(** * What the processing of tokens leaves alone *)

(** The product of draws falls to the bound within [draws] steps. *)
Context (draws_enough : forall lambda g, SFltb lambda f64_thirty = true ->
  is_Some (knuth_loop Float64 draws (exp (SFopp lambda)) f64_one 0 g)).

Abbreviation next := (poissonNext Float64 NormFloat64 exp overflow draws).
Abbreviation new_sampler := (newDecodeTokenSampler NewSource Float64 NormFloat64 exp overflow draws).
Abbreviation init_sampler := (initializeSampler NewSource Float64 NormFloat64 exp overflow draws cfg).
Abbreviation first_token := (processFirstTokenForLatencyPrediction NewSource Float64 NormFloat64 exp overflow draws cfg).
Abbreviation token := (processTokenForLatencyPrediction NewSource Float64 NormFloat64 exp overflow draws cfg).

Lemma next_total ts : exists k ts', next ts = Some (k, ts').
Proof.
  unfold poissonNext. destruct (SFleb _ _); [by eexists _, _|]. destruct (SFltb _ _) eqn:Hl.
  - destruct (draws_enough _ (rng ts) Hl) as [[k g] ->]. by eexists _, _.
  - destruct (NormFloat64 _). by eexists _, _.
Qed.

Lemma init_sampler_spec now (c : ctx) : exists ts, init_sampler now c = Some (c <| sampler := Some ts |>).
Proof.
  unfold initializeSampler. destruct (sampler c) as [ts|] eqn:Hs; [exists ts; rewrite <- Hs; by destruct c|].
  unfold newDecodeTokenSampler. edestruct next_total as (k & ts & ->). cbn [mbind option_bind]. by eexists.
Qed.

Lemma record_total ts n : exists ts', recordPrediction Float64 NormFloat64 exp overflow draws ts n = Some ts'.
Proof.
  unfold recordPrediction. destruct (_ <=? _); [by eexists|]. destruct (_ <? _); [|by eexists].
  edestruct next_total as (k & ts' & ->). cbn [mbind option_bind]. by eexists.
Qed.

Lemma refresh_frame metrics (c : ctx) : footprint (refreshLastSeenMetrics metrics c) = footprint c /\ ttft (refreshLastSeenMetrics metrics c) = ttft c.
Proof. unfold refreshLastSeenMetrics. by destruct (schedulingResult c). Qed.

Lemma first_token_spec metrics now (c : ctx) :
  is_Some (targetMetadata c) ->
  exists c' es, first_token metrics now c = Some (c', es) /\ footprint c' = footprint c /\
    ttft c' = elapsed_ms now (requestReceivedTimestamp c).
Proof.
  intros [target Ht]. unfold processFirstTokenForLatencyPrediction. destruct (init_sampler_spec now c) as (ts & ->). cbn [mbind option_bind].
  set (c1 := c <| sampler := Some ts |> <| ttft := _ |> <| generatedTokenCount := 1 |>).
  assert (Hfin : forall es, exists c', (c2 ← (if StreamingMode cfg then predictFirstTPOT c1 else Some c1);
      Some (refreshLastSeenMetrics metrics (c2 <| lastTokenTimestamp := now |>), es)) = Some (c', es : list TrainingEntry) /\
      footprint c' = footprint c /\ ttft c' = elapsed_ms now (requestReceivedTimestamp c)).
  { intros es. assert (Hc2 : exists c2, (if StreamingMode cfg then predictFirstTPOT c1 else Some c1) = Some c2 /\
      footprint c2 = footprint c /\ ttft c2 = elapsed_ms now (requestReceivedTimestamp c)).
    { destruct (StreamingMode cfg); [|by exists c1]. unfold predictFirstTPOT. change (targetMetadata c1) with (targetMetadata c). rewrite Ht.
      cbn [mbind option_bind]. eexists. by split; [reflexivity|]. }
    destruct Hc2 as (c2 & -> & Hf & Htt). cbn [mbind option_bind]. eexists. split; [reflexivity|].
    destruct (refresh_frame metrics (c2 <| lastTokenTimestamp := now |>)) as [-> ->]. by split. }
  change (prefillTargetMetadata c1) with (prefillTargetMetadata c). change (targetMetadata c1) with (targetMetadata c). rewrite Ht.
  destruct (prefillTargetMetadata c); [by edestruct Hfin as (c' & Hc' & ?); exists c'; eexists|].
  destruct (getLatestMetricsForProfile c1 _); [cbn [mbind option_bind]; by edestruct Hfin as (c' & Hc' & ?); exists c'; eexists|].
  by exists c1, [].
Qed.

Lemma token_spec service metrics now target (c : ctx) :
  exists c', token service metrics now target c = Some c' /\ footprint c' = footprint c /\ ttft c' = ttft c.
Proof.
  unfold processTokenForLatencyPrediction. destruct (init_sampler_spec now c) as (ts & ->). cbn [mbind option_bind].
  change (sampler (c <| sampler := Some ts |>)) with (Some ts). cbn [mbind option_bind].
  match goal with |- context [getLatestMetricsForProfile ?x EmptyString] => set (c1 := x) end.
  assert (Hc1 : footprint c1 = footprint c /\ ttft c1 = ttft c) by (unfold c1; destruct (_ || _); done). clearbody c1.
  destruct (getLatestMetricsForProfile c1 EmptyString); [|by exists c1].
  match goal with |- context [if ?b then ?x else _] => assert (Hc2 : exists c2, (if b then x else Some c1) = Some c2 /\ footprint c2 = footprint c /\ ttft c2 = ttft c) end.
  { destruct (shouldPredict _ _); [|by exists c1]. edestruct record_total as (ts' & ->). cbn [mbind option_bind]. by eexists. }
  destruct Hc2 as (c2 & -> & Hf & Ht). cbn [mbind option_bind]. eexists. split; [reflexivity|].
  destruct (refresh_frame metrics (c2 <| lastTokenTimestamp := now |>)) as [-> ->]. by split.
Qed.

(** * Proper runs *)

Abbreviation exec' := (exec NewSource Float64 NormFloat64 exp overflow draws Marshal ParseFloat cfg).

(** What the caller of the hooks observes: a request has an id, is prepared and
    dispatched once before its response, which comes from its target; the service
    answers every request of a batch; objectives are numbers and not negative, a
    missing or malformed one being 0; the prompts in the store have fewer than 2^62
    tokens; and the first token takes a millisecond. *)
Definition proper (s : PL) (e : event) : Prop :=
  match e with
  | EvPrepare service _ _ request _ =>
      (forall c, sloContextStore s !! request_id request = Some c -> targetMetadata c = None) /\
      is_nan (default f64_zero (parseFloatHeader ParseFloat request TPOTSLOHeaderKey)) = false /\
      SFltb (default f64_zero (parseFloatHeader ParseFloat request TPOTSLOHeaderKey)) f64_zero = false /\
      (forall reqs ps, PredictBulkStrict service reqs = Some ps -> length ps = length reqs) /\
      2 * inputTokenCount (getOrMakePredictedLatencyContextForRequest Marshal s request)
        + all_tokens (delete (request_id request) (sloContextStore s)) < two63
  | EvPreRequest _ _ _ request result =>
      request_id request <> EmptyString /\
      (exists primary target, ProfileResults result !! PrimaryProfileName result = Some (Some primary) /\
                              head (TargetEndpoints primary) = Some target) /\
      (forall c, sloContextStore s !! request_id request = Some c -> targetMetadata c = None)
  | EvResponse _ _ now request endOfStream target =>
      forall c, sloContextStore s !! request_id request = Some c ->
        targetMetadata c = Some target /\
        (StreamingMode cfg && negb endOfStream = true -> SFeqb (ttft c) f64_zero = true ->
         SFeqb (elapsed_ms now (requestReceivedTimestamp c)) f64_zero = false)
  | EvExpire _ => True
  end.

Fixpoint proper_run (s : PL) (es : list event) : Prop :=
  match es with
  | [] => True
  | e :: es => proper s e /\ forall s', exec' s e = Some s' -> proper_run s' es
  end.

(** ** Preparing *)

Lemma undispatched_tokens key (c : ctx) : targetMetadata c = None -> prefillTargetMetadata c = None -> tokens_at key c = 0.
Proof. intros H1 H2. unfold tokens_at. by rewrite H1, H2. Qed.

Lemma undispatched_objective n id (c : ctx) : targetMetadata c = None -> objective_at n id c = None.
Proof. intros H1. unfold objective_at. by rewrite H1. Qed.

(** A context that is not there, or is not dispatched, counts for nothing. *)
Lemma idle_others (s : PL) id :
  exact s -> (forall c, sloContextStore s !! id = Some c -> targetMetadata c = None) ->
  (forall key, in_flight (sloContextStore s) key = others (sloContextStore s) id key) /\
  (forall n, delete id (objectives (sloContextStore s) n) = objectives (sloContextStore s) n).
Proof.
  intros Hex Hid. set (st := sloContextStore s) in *. destruct (st !! id) as [c|] eqn:Hc.
  - specialize (Hid c eq_refl). destruct (cx_new _ (ex_ctx _ Hex id c Hc) Hid) as [Hp _]. split; [intros key; rewrite (in_flight_split st id c key Hc)|].
    + rewrite undispatched_tokens by done. lia.
    + intros n. apply delete_id. unfold objectives. rewrite map_lookup_imap, Hc. cbn [mbind option_bind]. by apply undispatched_objective.
  - split; [intros key; unfold others; by rewrite delete_id|]. intros n. apply delete_id. unfold objectives. by rewrite map_lookup_imap, Hc.
Qed.

Lemma podCounter_read cs f keys : counters_read cs f -> counters_read (foldl (fun m e => podCounter m (pod_key e)) cs keys) f.
Proof.
  revert cs. induction keys as [|e keys IH]; intros cs Hr; [done|]. cbn. apply IH. intros k. unfold podCounter. rewrite lookup_insert.
  case_decide; [subst k; apply Hr|apply Hr].
Qed.

Lemma predict_loop_total (s : PL) (c : ctx) endpoints ps :
  length ps = length endpoints -> exists predictions, predict_loop cfg s c endpoints ps = Some predictions.
Proof.
  revert ps. induction endpoints as [|e endpoints IH]; intros [|p ps] Hl; try done; [by eexists..|]. injection Hl as Hl.
  cbn [predict_loop]. destruct (IH ps Hl) as (predictions & ->). by eexists.
Qed.

Lemma generate_spec service metrics (s : PL) (c : ctx) endpoints :
  (forall reqs ps, PredictBulkStrict service reqs = Some ps -> length ps = length reqs) ->
  exists cs res, generatePredictions cfg service metrics s c endpoints = Some (s <| prefillTokensInFlight := cs |>, res) /\
    forall f, counters_read (prefillTokensInFlight s) f -> counters_read cs f.
Proof.
  intros Hs. unfold generatePredictions. cbv zeta. set (cs := foldl _ _ endpoints).
  assert (Hcs : forall f, counters_read (prefillTokensInFlight s) f -> counters_read cs f) by (intros f; apply podCounter_read).
  destruct (bulkPredictWithMetrics _ _ _ _ _) as [ps|] eqn:Hb; [|by exists cs, None].
  destruct (predict_loop_total (s <| prefillTokensInFlight := cs |>) c endpoints ps) as (predictions & ->);
    [|cbn [mbind option_bind]; by exists cs, (Some predictions)].
  unfold bulkPredictWithMetrics in Hb. destruct endpoints as [|e endpoints]; [by injection Hb as <-|]. apply Hs in Hb. rewrite Hb.
  cbn. by rewrite !length_fmap.
Qed.

(** Storing a context that is not dispatched changes nothing else. *)
Lemma exact_put_idle (s : PL) id (c : ctx) cs :
  exact s -> (forall c0, sloContextStore s !! id = Some c0 -> targetMetadata c0 = None) ->
  counters_read cs (in_flight (sloContextStore s)) -> targetMetadata c = None -> ctx_ok c ->
  2 * inputTokenCount c + all_tokens (delete id (sloContextStore s)) < two63 ->
  exact (s <| prefillTokensInFlight := cs |> <| sloContextStore := <[id := c]> (sloContextStore s) |>).
Proof.
  intros Hex Hid Hcs Hc Hok Hb. destruct (idle_others s id Hex Hid) as [Hi Ho]. destruct (cx_new _ Hok Hc) as [Hp _]. split; cbn.
  - intros key. rewrite in_flight_insert, Hcs, Hi, undispatched_tokens by done. lia.
  - eapply queues_ext; [apply (ex_queues _ Hex)|]. intros n. unfold objectives. rewrite map_imap_insert_None by (by apply undispatched_objective). apply Ho.
  - intros id' c'. rewrite lookup_insert. case_decide; [by intros [= <-]|apply (ex_ctx _ Hex)].
  - unfold all_tokens in *. by rewrite map_sumZ_insert.
Qed.

Lemma len_fields_nonneg text : 0 <= len_fields text.
Proof. unfold len_fields. lia. Qed.

Lemma prepare_exact service metrics prefixInfo request endpoints (s : PL) :
  exact s -> proper s (EvPrepare service metrics prefixInfo request endpoints) ->
  exists s' attrs, PrepareRequestData Marshal ParseFloat cfg service metrics prefixInfo s request endpoints = Some (s', attrs) /\ exact s'.
Proof.
  intros Hex (Hid & Hnum & Hneg & Hsvc & Hb). set (c0 := getOrMakePredictedLatencyContextForRequest Marshal s request) in *.
  assert (Hc0 : targetMetadata c0 = None /\ prefillTargetMetadata c0 = None /\ SFeqb (ttft c0) f64_zero = true /\ 0 <= inputTokenCount c0).
  { unfold c0, getOrMakePredictedLatencyContextForRequest, getPredictedLatencyContextForRequest.
    destruct (sloContextStore s !! request_id request) as [c|] eqn:Hc; [|cbn; split_and!; try done; apply len_fields_nonneg].
    pose proof (ex_ctx _ Hex _ _ Hc) as [H1 _ _ H3 _]. destruct (H3 (Hid c eq_refl)). auto. }
  destruct Hc0 as (Ht & Hp & Htt & Hn).
  assert (Hput : forall (c : ctx) cs, (targetMetadata c, prefillTargetMetadata c, ttft c, inputTokenCount c) =
      (targetMetadata c0, prefillTargetMetadata c0, ttft c0, inputTokenCount c0) ->
      avgTPOTSLO c = default f64_zero (parseFloatHeader ParseFloat request TPOTSLOHeaderKey) ->
      (forall f, counters_read (prefillTokensInFlight s) f -> counters_read cs f) ->
      exact (setPredictedLatencyContextForRequest (s <| prefillTokensInFlight := cs |>) request c)).
  { intros c cs Hf Hslo Hcs. injection Hf as E1 E2 E3 E4. refine (exact_put_idle s (request_id request) c cs _ _ _ _ _ _); [exact Hex|exact Hid|apply Hcs, (ex_counters _ Hex)|congruence| |].
    - split; [lia|congruence|congruence|intros _; split; congruence|]. rewrite E1, Ht. by intros [].
    - by rewrite E4. }
  assert (Hsame : s = s <| prefillTokensInFlight := prefillTokensInFlight s |>) by (by destruct s).
  unfold PrepareRequestData. cbv zeta. fold c0. destruct (PredictInPrepareData cfg); cbn [negb].
  - match goal with |- context [generatePredictions cfg service metrics s ?x endpoints] =>
      destruct (generate_spec service metrics s x endpoints Hsvc) as (cs & res & -> & Hcs) end. cbn [mbind option_bind].
    destruct res as [predictions|]; [destruct (Nat.eqb _ _)|]; eexists _, _; (split; [reflexivity|by apply Hput]).
  - eexists _, _. split; [reflexivity|]. rewrite Hsame at 1. by apply Hput.
Qed.

(** ** Dispatching *)

Lemma queue_at (s : PL) n :
  exact s -> rq_rel (default newRequestPriorityQueue (runningRequestLists s !! n)) (objectives (sloContextStore s) n).
Proof.
  intros Hex. pose proof (ex_queues _ Hex n) as Hq. destruct (runningRequestLists s !! n); cbn in Hq |- *; [exact Hq|]. rewrite Hq. apply new_rel.
Qed.

(** The objectives after a context becomes dispatched. *)
Lemma objectives_dispatched (s : PL) id (c c' : ctx) target :
  exact s -> sloContextStore s !! id = Some c -> targetMetadata c = None ->
  targetMetadata c' = Some target -> avgTPOTSLO c' = avgTPOTSLO c ->
  forall m, objectives (<[id := c']> (sloContextStore s)) m =
    if decide (m = NamespacedName target) then <[id := avgTPOTSLO c]> (objectives (sloContextStore s) m)
    else objectives (sloContextStore s) m.
Proof.
  intros Hex Hc Hidle Ht Hslo m. destruct (idle_others s id Hex ltac:(congruence)) as [_ Ho].
  unfold objectives at 1. rewrite map_imap_insert. unfold objective_at at 1. rewrite Ht, Hslo. case_decide as Hm.
  - subst m. by rewrite bool_decide_true.
  - rewrite bool_decide_false by congruence. apply Ho.
Qed.

(** Adding the objective of a context that becomes dispatched. *)
Lemma add_objective (s : PL) id (c : ctx) target :
  exact s -> sloContextStore s !! id = Some c -> targetMetadata c = None -> id <> EmptyString ->
  exists b q, rq_Add (default newRequestPriorityQueue (runningRequestLists s !! NamespacedName target)) id (avgTPOTSLO c) = Some (b, q) /\
    forall c', targetMetadata c' = Some target -> avgTPOTSLO c' = avgTPOTSLO c ->
    queues_read (<[NamespacedName target := q]> (runningRequestLists s)) (objectives (<[id := c']> (sloContextStore s))).
Proof.
  intros Hex Hc Hidle Hne. set (n := NamespacedName target). pose proof (ex_ctx _ Hex id c Hc) as [_ Hnan Hneg _ _].
  destruct (idle_others s id Hex ltac:(congruence)) as [_ Ho].
  destruct (Add_rel _ _ id _ (queue_at s n Hex) Hnan) as (b & q & Hadd & Hcase). exists b, q. split; [exact Hadd|]. intros c' Ht Hslo.
  pose proof (objectives_dispatched s id c c' target Hex Hc Hidle Ht Hslo) as Hnew. fold n in Hnew.
  destruct Hcase as [(-> & -> & Hwhy)|(-> & _ & _ & _ & Hrel)].
  - exfalso. destruct Hwhy as [?|[?|[? Hm]]]; [done|congruence|]. by rewrite <- Ho, lookup_delete_eq in Hm.
  - eapply queues_ext; [apply queues_insert; [apply (ex_queues _ Hex)|exact Hrel]|].
    intros m. rewrite Hnew. cbn beta. case_decide; [by subst|done].
Qed.

Lemma exact_dispatched (s : PL) id (c c' : ctx) target ls cs tr :
  exact s -> sloContextStore s !! id = Some c -> targetMetadata c = None -> targetMetadata c' = Some target ->
  (inputTokenCount c', avgTPOTSLO c', ttft c') = (inputTokenCount c, avgTPOTSLO c, ttft c) ->
  inputTokenCount c' = 0 \/ 0 < prefillTokensAtDispatch c' ->
  counters_read cs (fun key => in_flight (sloContextStore s) key + (if here (prefillTargetMetadata c') key then inputTokenCount c else 0)
                               + (if String.eqb (pod_key target) key then inputTokenCount c else 0)) ->
  queues_read ls (objectives (<[id := c']> (sloContextStore s))) ->
  exact (mkPlugin ls (<[id := c']> (sloContextStore s)) cs tr).
Proof.
  intros Hex Hc Hidle Ht Hsame Hn Hcs Hls. injection Hsame as E1 E2 E3. pose proof (ex_ctx _ Hex id c Hc) as [H1 H2 H2' H3 H4].
  destruct (H3 Hidle) as [_ Hz]. destruct (idle_others s id Hex ltac:(congruence)) as [Hi _]. split; cbn.
  - intros key. rewrite Hcs, in_flight_insert, Hi. unfold tokens_at. rewrite Ht, E1, E3, Hz, andb_true_r. cbn [here]. lia.
  - exact Hls.
  - intros id' x. rewrite lookup_insert. case_decide; [|apply (ex_ctx _ Hex)]. intros [= <-]. split; [lia|congruence|congruence|by rewrite Ht|by intros _].
  - rewrite (all_tokens_update _ id c c') by done. apply (ex_bound _ Hex).
Qed.

Lemma add_prefill_read (s : PL) (c : ctx) f :
  counters_read (prefillTokensInFlight s) f -> (forall m, prefillTargetMetadata c = Some m -> is_i64 (f (pod_key m) + inputTokenCount c)) ->
  exists cs v, add_prefill s c = (s <| prefillTokensInFlight := cs |>, c <| prefillTokensAtDispatchOnPrefill := v |>) /\
    counters_read cs (fun key => f key + (if here (prefillTargetMetadata c) key then inputTokenCount c else 0)).
Proof.
  intros Hf Hi. unfold add_prefill. destruct (prefillTargetMetadata c) as [m|].
  - destruct (add_read s m (inputTokenCount c) f Hf (Hi m eq_refl)) as (cs & -> & Hcs). by exists cs, (f (pod_key m) + inputTokenCount c).
  - exists (prefillTokensInFlight s), (prefillTokensAtDispatchOnPrefill c). split; [by destruct s, c|]. intros key. cbn. rewrite Hf. lia.
Qed.

Lemma dispatch_request_exact metrics now now' request result target (s : PL) (c : ctx) :
  exact s -> sloContextStore s !! request_id request = Some c -> targetMetadata c = None -> request_id request <> EmptyString ->
  let queue := default newRequestPriorityQueue (runningRequestLists s !! NamespacedName target) in
  exists s', dispatch_request metrics now now' (s <| runningRequestLists := <[NamespacedName target := queue]> (runningRequestLists s) |>)
    request result target queue c = Some s' /\ exact s'.
Proof.
  intros Hex Hc Hidle Hne queue. destruct (add_objective s _ c target Hex Hc Hidle Hne) as (b & q & Hadd & Hls).
  unfold dispatch_request. fold queue in Hadd. rewrite Hadd. cbn [mbind option_bind]. cbv zeta.
  pose proof (cx_tokens _ (ex_ctx _ Hex _ _ Hc)) as Hn. set (n := inputTokenCount c) in *.
  match goal with |- context [refreshLastSeenMetrics metrics ?x] => set (c1 := x) end.
  set (c2 := refreshLastSeenMetrics metrics c1).
  assert (E1 : targetMetadata c2 = Some target) by reflexivity. assert (E2 : inputTokenCount c2 = n) by reflexivity.
  assert (E3 : avgTPOTSLO c2 = avgTPOTSLO c) by reflexivity. assert (E4 : ttft c2 = ttft c) by reflexivity. clearbody c2. clear c1.
  set (s1 := s <| runningRequestLists := _ |> <| runningRequestLists := _ |>).
  destruct (idle_others s (request_id request) Hex ltac:(congruence)) as [Hi _].
  assert (Hb : forall key, 0 <= in_flight (sloContextStore s) key /\ in_flight (sloContextStore s) key + 2 * n < two63).
  { intros key. rewrite Hi. destruct (others_bounds s (request_id request) key Hex) as [H1 H2]. split; [done|exact (H2 c Hc)]. }
  destruct (add_prefill_read s1 c2 (in_flight (sloContextStore s)) (ex_counters _ Hex)) as (cs & v & -> & Hcs).
  { intros m _. rewrite E2. pose proof (Hb (pod_key m)). apply small_i64. lia. }
  rewrite E2 in Hcs. set (s2 := s1 <| prefillTokensInFlight := cs |>). set (c3 := c2 <| prefillTokensAtDispatchOnPrefill := v |>).
  change (inputTokenCount c3) with (inputTokenCount c2). rewrite E2.
  destruct (add_read s2 target n _ Hcs) as (cs' & -> & Hcs').
  { pose proof (Hb (pod_key target)). apply small_i64. destruct (here _ _); lia. }
  eexists. split; [reflexivity|].
  refine (exact_dispatched s (request_id request) c _ target (runningRequestLists s1) cs' (trained s) Hex Hc Hidle _ _ _ _ _).
  - exact E1.
  - cbn. by rewrite E2, E3, E4.
  - cbn. rewrite E2. pose proof (Hb (pod_key target)). destruct (here _ _); lia.
  - exact Hcs'.
  - cbn. rewrite insert_insert_eq. by apply Hls.
Qed.

Lemma dispatch_exact metrics now now' request result (s : PL) :
  exact s -> proper s (EvPreRequest metrics now now' request result) ->
  exists s', PreRequest metrics now now' s request result = Some s' /\ exact s'.
Proof.
  intros Hex (Hne & (primary & target & Hprim & Hhead) & Hid). unfold PreRequest, getRunningRequestList.
  destruct (Nat.eqb_spec (size (ProfileResults result)) 0) as [Hsz|_].
  { apply map_size_empty_inv in Hsz. by rewrite Hsz in Hprim. }
  rewrite Hprim. cbn [mbind option_bind]. rewrite Hhead. cbn [mbind option_bind]. rewrite (proj2 (String.eqb_neq _ _) Hne). cbv zeta.
  unfold getPredictedLatencyContextForRequest. cbn [sloContextStore set].
  destruct (sloContextStore s !! request_id request) as [c|] eqn:Hc.
  - exact (dispatch_request_exact metrics now now' request result target s c Hex Hc (Hid c eq_refl) Hne).
  - eexists. split; [reflexivity|]. pose proof Hex as [H1 H2 H3 H4]. split; [exact H1| |exact H3|exact H4]. cbn.
    eapply queues_ext; [apply queues_insert; [exact H2|exact (queue_at s _ Hex)]|]. intros m. cbn beta. case_decide; [by subst|done].
Qed.

(** ** Releasing *)

Lemma release_prefill_read (s : PL) (c : ctx) f :
  counters_read (prefillTokensInFlight s) f -> (forall m, prefillTargetMetadata c = Some m -> is_i64 (f (pod_key m) - inputTokenCount c)) ->
  exists cs, release_prefill s c = s <| prefillTokensInFlight := cs |> /\
    counters_read cs (fun key => f key - (if here (prefillTargetMetadata c) key then inputTokenCount c else 0)).
Proof.
  intros Hf Hi. unfold release_prefill. destruct (prefillTargetMetadata c) as [m|].
  - destruct (release_read s m (inputTokenCount c) f Hf (Hi m eq_refl)) as (cs & -> & Hcs). by exists cs.
  - exists (prefillTokensInFlight s). split; [by destruct s|]. intros key. cbn. rewrite Hf. lia.
Qed.

(** The rest of the store, [f], with room for the tokens of one context. *)
Definition room (f : string -> Z) (n : Z) : Prop := forall key, 0 <= f key /\ f key + 2 * n < two63.

Lemma others_room (s : PL) id c : exact s -> sloContextStore s !! id = Some c -> room (others (sloContextStore s) id) (inputTokenCount c).
Proof. intros Hex Hc key. destruct (others_bounds s id key Hex) as [H1 H2]. split; [done|by apply H2]. Qed.

(** At the first token the prompt leaves the prefill endpoint. *)
Lemma first_token_read (s : PL) (c c' : ctx) f :
  counters_read (prefillTokensInFlight s) (fun key => f key + tokens_at key c) -> room f (inputTokenCount c) -> 0 <= inputTokenCount c ->
  SFeqb (ttft c) f64_zero = true -> SFeqb (ttft c') f64_zero = false -> footprint c' = footprint c ->
  exists cs, release_prefill s c' = s <| prefillTokensInFlight := cs |> /\ counters_read cs (fun key => f key + tokens_at key c').
Proof.
  intros Hf Hr Hn Hz Hnz Hfp. unfold footprint in Hfp. injection Hfp as E1 E2 E3 _ _.
  destruct (release_prefill_read s c' _ Hf) as (cs & -> & Hcs).
  - intros m Hm. rewrite E2 in Hm. unfold tokens_at. rewrite Hm, Hz. cbn [here]. rewrite String.eqb_refl. cbn [andb]. rewrite E3.
    destruct (Hr (pod_key m)). apply small_i64. destruct (here _ _); lia.
  - exists cs. split; [done|]. intros key. rewrite Hcs. unfold tokens_at. rewrite E1, E2, E3, Hz, Hnz, andb_true_r, andb_false_r. lia.
Qed.

(** At the end it leaves both. *)
Lemma release_all_read (s : PL) (c : ctx) target f :
  counters_read (prefillTokensInFlight s) (fun key => f key + tokens_at key c) -> room f (inputTokenCount c) -> 0 <= inputTokenCount c ->
  targetMetadata c = Some target ->
  exists cs, release_tokens (if SFeqb (ttft c) f64_zero then release_prefill s c else s) target (inputTokenCount c)
    = s <| prefillTokensInFlight := cs |> /\ counters_read cs f.
Proof.
  intros Hf Hr Hn Ht. set (n := inputTokenCount c) in *.
  assert (Hpre : exists cs, (if SFeqb (ttft c) f64_zero then release_prefill s c else s) = s <| prefillTokensInFlight := cs |> /\
    counters_read cs (fun key => f key + if String.eqb (pod_key target) key then n else 0)).
  { unfold tokens_at in Hf. rewrite Ht in Hf. cbn [here] in Hf. fold n in Hf. destruct (SFeqb (ttft c) f64_zero).
    - destruct (release_prefill_read s c _ Hf) as (cs & -> & Hcs).
      + intros m Hm. rewrite Hm. cbn [here]. rewrite String.eqb_refl. fold n. cbn [andb]. destruct (Hr (pod_key m)). apply small_i64.
        destruct (String.eqb _ _); lia.
      + exists cs. split; [done|]. intros key. rewrite Hcs, andb_true_r. fold n. lia.
    - exists (prefillTokensInFlight s). split; [by destruct s|]. intros key. rewrite Hf, andb_false_r. lia. }
  destruct Hpre as (cs & -> & Hcs).
  destruct (release_read (s <| prefillTokensInFlight := cs |>) target n (fun key => f key + if String.eqb (pod_key target) key then n else 0))
    as (cs' & -> & Hcs'); [exact Hcs| |].
  - rewrite String.eqb_refl. destruct (Hr (pod_key target)). apply small_i64. lia.
  - exists cs'. split; [done|]. intros key. rewrite Hcs'. unfold minus_at. destruct (String.eqb _ _); lia.
Qed.

(** ** Responses *)

Abbreviation finish' := (finish_response NewSource Float64 NormFloat64 exp overflow draws cfg).
Abbreviation response' := (ResponseBody NewSource Float64 NormFloat64 exp overflow draws cfg).

Lemma counters_split (s : PL) id c :
  exact s -> sloContextStore s !! id = Some c ->
  counters_read (prefillTokensInFlight s) (fun key => others (sloContextStore s) id key + tokens_at key c).
Proof. intros Hex Hc key. rewrite (ex_counters _ Hex). by apply in_flight_split. Qed.

(** A context whose bookkeeping stays, with counters for it. *)
Lemma exact_update (s : PL) id (c c' : ctx) cs tr :
  exact s -> sloContextStore s !! id = Some c -> footprint c' = footprint c -> is_Some (targetMetadata c) ->
  counters_read cs (fun key => others (sloContextStore s) id key + tokens_at key c') ->
  exact (mkPlugin (runningRequestLists s) (<[id := c']> (sloContextStore s)) cs tr).
Proof.
  intros Hex Hc Hf Ht Hcs. split; cbn.
  - intros key. by rewrite in_flight_insert.
  - eapply queues_ext; [apply (ex_queues _ Hex)|]. by eapply objectives_update.
  - intros id' x. rewrite lookup_insert. case_decide; [|apply (ex_ctx _ Hex)]. intros [= <-].
    eapply ctx_ok_footprint; [by apply (ex_ctx _ Hex id)|done|]. intros Hn. rewrite Hn in Ht. by destruct Ht.
  - unfold footprint in Hf. rewrite (all_tokens_update _ id c c') by (done || congruence). apply (ex_bound _ Hex).
Qed.

(** A store without the context. *)
Lemma exact_forget (s : PL) id ls cs tr :
  exact s -> counters_read cs (others (sloContextStore s) id) -> queues_read ls (objectives (delete id (sloContextStore s))) ->
  exact (mkPlugin ls (delete id (sloContextStore s)) cs tr).
Proof.
  intros Hex Hcs Hls. split; cbn; [exact Hcs|exact Hls| |].
  - intros id' x [_ Hx]%lookup_delete_Some. by apply (ex_ctx _ Hex id').
  - destruct (sloContextStore s !! id) as [c|] eqn:Hc; [|rewrite delete_id by done; apply (ex_bound _ Hex)].
    pose proof (ex_bound _ Hex) as Hb. unfold all_tokens in *. rewrite (map_sumZ_delete _ _ id c Hc) in Hb.
    pose proof (cx_tokens _ (ex_ctx _ Hex id c Hc)). lia.
Qed.

Lemma average_frame now (c : ctx) : footprint (average_tpot now c) = footprint c.
Proof. unfold average_tpot. by destruct (_ && _). Qed.

Lemma finish_exact metrics now request target (s : PL) (c : ctx) :
  exact s -> sloContextStore s !! request_id request = Some c -> targetMetadata c = Some target ->
  exists s', finish' metrics now s request target c = Some s' /\ exact s'.
Proof.
  intros Hex Hc Ht. unfold finish_response.
  assert (Hfirst : exists c' es, (if StreamingMode cfg then Some (c, []) else first_token metrics now c) = Some (c', es) /\ footprint c' = footprint c).
  { destruct (StreamingMode cfg); [by exists c, []|]. destruct (first_token_spec metrics now c) as (c' & es & -> & Hf & _); [by rewrite Ht|]. by exists c', es. }
  destruct Hfirst as (c1 & es & -> & Hf1). cbn [mbind option_bind]. cbv zeta. pose proof (average_frame now c1) as Hf. rewrite Hf1 in Hf.
  set (c2 := average_tpot now c1) in *. unfold footprint in Hf. injection Hf as E1 E2 E3 _ _.
  set (s1 := s <| trained := _ |>). rewrite E3.
  assert (Hrel : (if SFeqb (ttft c) f64_zero then release_prefill s1 c2 else s1) = (if SFeqb (ttft c) f64_zero then release_prefill s1 c else s1)).
  { unfold release_prefill. by rewrite E2, E3. }
  rewrite Hrel. destruct (release_all_read s1 c target (others (sloContextStore s) (request_id request))) as (cs & -> & Hcs);
    [exact (counters_split s _ c Hex Hc)|by apply others_room|apply (cx_tokens _ (ex_ctx _ Hex _ _ Hc))|done|].
  assert (Hrm : forall x, removeRequestFromQueue x (request_id request) c2 = removeRequestFromQueue x (request_id request) c).
  { intros x. unfold removeRequestFromQueue. by rewrite E1. }
  rewrite Hrm. destruct (forget_queue (s1 <| prefillTokensInFlight := cs |>) (sloContextStore s) (request_id request) c) as (ls & -> & Hls);
    [done|exact (ex_queues _ Hex)|].
  cbn [mbind option_bind]. eexists. split; [reflexivity|].
  refine (exact_forget s (request_id request) ls cs _ Hex Hcs Hls).
Qed.

Lemma response_exact service metrics now request endOfStream target (s : PL) :
  exact s -> proper s (EvResponse service metrics now request endOfStream target) ->
  exists s', response' service metrics now s request endOfStream target = Some s' /\ exact s'.
Proof.
  intros Hex Hpr. unfold ResponseBody, getPredictedLatencyContextForRequest.
  destruct (sloContextStore s !! request_id request) as [c|] eqn:Hc; [|by exists s]. destruct (Hpr c Hc) as [Ht Hms].
  pose proof (counters_split s _ c Hex Hc) as Hcs.
  match goal with |- context [?m ≫= _] => assert (Hchunk : exists s1 c1, m = Some (s1, c1) /\ targetMetadata c1 = Some target /\
    exact (setPredictedLatencyContextForRequest s1 request c1)) end.
  { destruct (SFeqb (ttft c) f64_zero) eqn:Hz; [destruct (StreamingMode cfg && negb endOfStream) eqn:Hst|].
    - destruct (first_token_spec metrics now c) as (c1 & es & -> & Hf & Htt); [by rewrite Ht|]. cbn [mbind option_bind].
      edestruct (first_token_read (s <| trained := trained s ++ es |>) c c1) as (cs & -> & Hcs1);
        [exact Hcs|by apply others_room|apply (cx_tokens _ (ex_ctx _ Hex _ _ Hc))|done|rewrite Htt; by apply Hms|done|].
      eexists _, c1. split; [reflexivity|]. split; [unfold footprint in Hf; congruence|].
      refine (exact_update s (request_id request) c c1 cs _ Hex Hc Hf _ Hcs1). by rewrite Ht.
    - exists s, c. split; [done|]. split; [done|]. refine (exact_update s (request_id request) c c _ _ Hex Hc eq_refl _ Hcs). by rewrite Ht.
    - destruct (token_spec service metrics now target c) as (c1 & -> & Hf & Htt). cbn [mbind option_bind]. exists s, c1. split; [done|].
      split; [unfold footprint in Hf; congruence|]. refine (exact_update s (request_id request) c c1 _ _ Hex Hc Hf _ _); [by rewrite Ht|].
      intros key. rewrite Hcs. unfold tokens_at. unfold footprint in Hf. injection Hf as -> -> -> _ _. by rewrite Htt. }
  destruct Hchunk as (s1 & c1 & -> & Ht1 & Hex1). cbn [mbind option_bind]. destruct endOfStream; [|by eexists].
  apply finish_exact; [exact Hex1| |done]. cbn. apply lookup_insert_eq.
Qed.

(** ** Expiration *)

Lemma expire_exact id (s : PL) : exact s -> exists s', exec' s (EvExpire id) = Some s' /\ exact s'.
Proof.
  intros Hex. unfold exec. destruct (sloContextStore s !! id) as [c|] eqn:Hc; [|by exists s].
  pose proof (counters_split s id c Hex Hc) as Hcs. pose proof (ex_ctx _ Hex id c Hc) as [Hn _ _ Hnew Hdis].
  unfold on_expired. set (s1 := s <| sloContextStore := _ |>).
  destruct (forget_queue s1 (sloContextStore s) id c Hc (ex_queues _ Hex)) as (ls & -> & Hls). cbn [mbind option_bind].
  set (s2 := s1 <| runningRequestLists := ls |>).
  assert (Hno : (forall key, tokens_at key c = 0) -> exact s2).
  { intros Hz. refine (exact_forget s id ls (prefillTokensInFlight s) (trained s) Hex _ Hls). intros key. rewrite Hcs, Hz. lia. }
  destruct (targetMetadata c) as [target|] eqn:Ht.
  - destruct (_ || _) eqn:Hcond.
    + destruct (release_all_read s2 c target (others (sloContextStore s) id)) as (cs & -> & Hcs1); [exact Hcs|by apply others_room|done|done|].
      eexists. split; [reflexivity|]. refine (exact_forget s id ls cs (trained s) Hex Hcs1 Hls).
    + eexists. split; [reflexivity|]. apply Hno. intros key. apply orb_false_iff in Hcond as [Hz%Z.ltb_ge _].
      destruct (Hdis ltac:(by eexists)) as [Hz'|]; [|lia]. unfold tokens_at. rewrite Hz'. by destruct (here _ _), (here _ _ && _).
  - destruct (Hnew eq_refl) as [Hp _]. assert (Hz : forall key, tokens_at key c = 0) by (intros key; by apply undispatched_tokens).
    unfold release_prefill. rewrite Hp. destruct (_ || _), (SFeqb _ _); eexists; (split; [reflexivity|by apply Hno]).
Qed.

Lemma exec_exact (s : PL) e : exact s -> proper s e -> exists s', exec' s e = Some s' /\ exact s'.
Proof.
  intros Hex Hp. destruct e.
  - destruct (prepare_exact _ _ _ _ _ _ Hex Hp) as (s' & attrs & Hs & Hex'). exists s'. unfold exec. by rewrite Hs.
  - by apply dispatch_exact.
  - by apply response_exact.
  - by apply expire_exact.
Qed.

Lemma latency_new_exact : exact NewPredictedLatency.
Proof. split; cbn; [done| |done|done]. intros n. cbn. rewrite lookup_empty. cbn. apply map_imap_empty. Qed.

Lemma latency_run_exact es : forall s : PL, exact s -> proper_run s es ->
  exists s', run NewSource Float64 NormFloat64 exp overflow draws Marshal ParseFloat cfg s es = Some s' /\ exact s'.
Proof.
  induction es as [|e es IH]; intros s Hex Hp; [by exists s|]. destruct Hp as [He Hes].
  destruct (exec_exact s e Hex He) as (s1 & Hs1 & Hex1). destruct (IH s1 Hex1 (Hes s1 Hs1)) as (s' & Hs' & Hex').
  exists s'. split; [|exact Hex']. unfold run in *. cbn [ofold]. by rewrite Hs1.
Qed.


(** * Training data of a stream *)

(** A context in the middle of a streamed response without a prefill endpoint:
    dispatched at [t0], first token after [first], [n] tokens so far. *)
Record streams (target : EndpointMetadata) (profile : string) (t0 : Z) (first : spec_float) (n : Z) (c : ctx) : Prop := {
  sm_target : targetMetadata c = Some target;
  sm_prefill : prefillTargetMetadata c = None;
  sm_start : requestReceivedTimestamp c = t0;
  sm_result : PrimaryProfileName <$> schedulingResult c = Some profile;
  sm_metrics : is_Some (lastSeenMetrics c !! profile);
  sm_ttft : ttft c = first;
  sm_count : generatedTokenCount c = n
}.

Lemma latest_metrics target profile t0 first n (c : ctx) :
  streams target profile t0 first n c -> exists m, getLatestMetricsForProfile c EmptyString = Some m.
Proof.
  intros [_ _ _ Hr [m Hm] _ _]. unfold getLatestMetricsForProfile. destruct (Nat.eqb_spec (size (lastSeenMetrics c)) 0) as [Hz|_].
  - apply map_size_empty_inv in Hz. by rewrite Hz in Hm.
  - cbn. destruct (schedulingResult c); [|done]. injection Hr as ->. by exists m.
Qed.

Lemma streams_refresh metrics target profile t0 first n (c : ctx) :
  streams target profile t0 first n c -> streams target profile t0 first n (refreshLastSeenMetrics metrics c).
Proof.
  intros [H1 H2 H3 H4 [m Hm] H6 H7]. unfold refreshLastSeenMetrics. destruct (schedulingResult c) as [sr|] eqn:Hr; [|done].
  split; cbn; try done; [by rewrite Hr|]. rewrite lookup_union, Hm. destruct (omap _ _ !! _); by eexists.
Qed.

Lemma stream_first metrics now target profile t0 n (c : ctx) :
  StreamingMode cfg = true -> streams target profile t0 f64_zero n c ->
  exists c' e, first_token metrics now c = Some (c', [e]) /\ streams target profile t0 (elapsed_ms now t0) 1 c' /\
    te_ActualTTFT e = elapsed_ms now t0 /\ te_ActualTPOT e = f64_zero.
Proof.
  intros Hst Hc. unfold processFirstTokenForLatencyPrediction. destruct (init_sampler_spec now c) as (ts & ->). cbn [mbind option_bind].
  set (c1 := c <| sampler := Some ts |> <| ttft := _ |> <| generatedTokenCount := 1 |>).
  assert (Hc1 : streams target profile t0 (elapsed_ms now t0) 1 c1).
  { destruct Hc as [H1 H2 H3 H4 H5 H6 H7]. split; try done. cbn. by rewrite H3. }
  destruct (latest_metrics _ _ _ _ _ _ Hc1) as (m & Hm). rewrite (sm_prefill _ _ _ _ _ _ Hc1), Hm, (sm_target _ _ _ _ _ _ Hc1), Hst.
  cbn [mbind option_bind]. unfold predictFirstTPOT. rewrite (sm_target _ _ _ _ _ _ Hc1). cbn [mbind option_bind].
  eexists _, _. split; [reflexivity|]. split; [|split; [exact (sm_ttft _ _ _ _ _ _ Hc1)|done]]. apply streams_refresh.
  destruct Hc1 as [H1 H2 H3 H4 H5 H6 H7]. by split.
Qed.

Lemma stream_next service metrics now target profile t0 first n (c : ctx) :
  streams target profile t0 first n c -> is_i64 (n + 1) ->
  exists c', token service metrics now target c = Some c' /\ streams target profile t0 first (n + 1) c'.
Proof.
  intros Hc Hn. unfold processTokenForLatencyPrediction. destruct (init_sampler_spec now c) as (ts & ->). cbn [mbind option_bind].
  change (sampler (c <| sampler := Some ts |>)) with (Some ts). cbn [mbind option_bind].
  match goal with |- context [getLatestMetricsForProfile ?x EmptyString] => set (c1 := x) end.
  assert (Hc1 : streams target profile t0 first (n + 1) c1).
  { destruct Hc as [H1 H2 H3 H4 H5 H6 H7].
    assert (Hi : i64 (generatedTokenCount c + 1) = n + 1) by (rewrite H7; by apply i64_id).
    unfold c1. destruct (_ || _); split; try done. }
  clearbody c1. destruct (latest_metrics _ _ _ _ _ _ Hc1) as (m & ->).
  match goal with |- context [if ?b then ?x else _] => assert (Hc2 : exists c2, (if b then x else Some c1) = Some c2 /\ streams target profile t0 first (n + 1) c2) end.
  { destruct (shouldPredict _ _); [|by exists c1]. edestruct record_total as (ts' & ->). cbn [mbind option_bind]. eexists. split; [reflexivity|].
    destruct Hc1 as [H1 H2 H3 H4 H5 H6 H7]. by split. }
  destruct Hc2 as (c2 & -> & Hc2). cbn [mbind option_bind]. eexists. split; [reflexivity|]. apply streams_refresh.
  destruct Hc2 as [H1 H2 H3 H4 H5 H6 H7]. by split.
Qed.

Lemma positive_nonzero x : SFltb f64_zero x = true -> SFeqb x f64_zero = false.
Proof. by destruct x as [[]|[]| |[]]. Qed.

Lemma first_chunk service metrics now request target profile t0 n (s : PL) (c : ctx) :
  StreamingMode cfg = true -> exact s -> sloContextStore s !! request_id request = Some c -> streams target profile t0 f64_zero n c ->
  SFltb f64_zero (elapsed_ms now t0) = true ->
  exists s' c' e, response' service metrics now s request false target = Some s' /\ exact s' /\
    sloContextStore s' !! request_id request = Some c' /\ streams target profile t0 (elapsed_ms now t0) 1 c' /\
    trained s' = trained s ++ [e] /\ te_ActualTTFT e = elapsed_ms now t0 /\ te_ActualTPOT e = f64_zero.
Proof.
  intros Hst Hex Hc Hs Hms. destruct (response_exact service metrics now request false target s) as (s' & Hs' & Hex'); [done| |].
  { intros c0 Hc0. rewrite Hc in Hc0. injection Hc0 as <-. split; [apply (sm_target _ _ _ _ _ _ Hs)|]. intros _ _.
    rewrite (sm_start _ _ _ _ _ _ Hs). by apply positive_nonzero. }
  destruct (stream_first metrics now target profile t0 n c Hst Hs) as (c' & e & Hf & Hs1 & He). exists s', c', e.
  split; [exact Hs'|]. split; [exact Hex'|]. unfold ResponseBody, getPredictedLatencyContextForRequest in Hs'.
  rewrite Hc, (sm_ttft _ _ _ _ _ _ Hs), Hst, Hf in Hs'. cbn [SFeqb SFcompare f64_zero negb andb mbind option_bind] in Hs'.
  unfold release_prefill in Hs'. rewrite (sm_prefill _ _ _ _ _ _ Hs1) in Hs'. injection Hs' as <-. cbn. split; [apply lookup_insert_eq|done].
Qed.

Lemma next_chunk service metrics now request target profile t0 first n (s : PL) (c : ctx) :
  exact s -> sloContextStore s !! request_id request = Some c -> streams target profile t0 first n c ->
  SFeqb first f64_zero = false -> is_i64 (n + 1) ->
  exists s' c', response' service metrics now s request false target = Some s' /\ exact s' /\
    sloContextStore s' !! request_id request = Some c' /\ streams target profile t0 first (n + 1) c' /\ trained s' = trained s.
Proof.
  intros Hex Hc Hs Hz Hn. destruct (response_exact service metrics now request false target s) as (s' & Hs' & Hex'); [done| |].
  { intros c0 Hc0. rewrite Hc in Hc0. injection Hc0 as <-. split; [apply (sm_target _ _ _ _ _ _ Hs)|]. intros _ Hz'.
    rewrite (sm_ttft _ _ _ _ _ _ Hs) in Hz'. congruence. }
  destruct (stream_next service metrics now target profile t0 first n c Hs Hn) as (c' & Hf & Hs1). exists s', c'.
  split; [exact Hs'|]. split; [exact Hex'|]. unfold ResponseBody, getPredictedLatencyContextForRequest in Hs'.
  rewrite Hc, (sm_ttft _ _ _ _ _ _ Hs), Hz, Hf in Hs'. cbn [mbind option_bind] in Hs'. injection Hs' as <-. cbn. split; [apply lookup_insert_eq|done].
Qed.

Lemma remove_frame (s : PL) id (c : ctx) s' :
  removeRequestFromQueue s id c = Some s' -> (trained s', sloContextStore s') = (trained s, sloContextStore s).
Proof.
  unfold removeRequestFromQueue, removeRequestFromEndpoint. destruct (targetMetadata c); [|by intros [= <-]].
  destruct (getRunningRequestList _ _) as [q|]; [|by intros [= <-]]. destruct (rq_Remove q id) as [[? ?]|]; [|done]. by intros [= <-].
Qed.

Lemma final_chunk service metrics now request target profile t0 first n (s : PL) (c : ctx) :
  StreamingMode cfg = true -> exact s -> sloContextStore s !! request_id request = Some c -> streams target profile t0 first n c ->
  SFltb f64_zero first = true -> 0 < n -> is_i64 (n + 1) ->
  exists s' e, response' service metrics now s request true target = Some s' /\ exact s' /\ sloContextStore s' !! request_id request = None /\
    te_ActualTPOT e = f64_div (f64_sub (elapsed_ms now t0) first) (f64_of_int n) /\
    trained s' = trained s ++ (if SFltb f64_zero (te_ActualTPOT e) then [e] else []).
Proof.
  intros Hst Hex Hc Hs Hpos Hn Hi. pose proof (positive_nonzero _ Hpos) as Hz.
  destruct (response_exact service metrics now request true target s) as (s' & Hs' & Hex'); [done| |].
  { intros c0 Hc0. rewrite Hc in Hc0. injection Hc0 as <-. split; [apply (sm_target _ _ _ _ _ _ Hs)|]. by rewrite Hst. }
  destruct (stream_next service metrics now target profile t0 first n c Hs Hi) as (c1 & Hf & Hs1).
  pose proof Hs' as Hrun. unfold ResponseBody, getPredictedLatencyContextForRequest in Hs'. rewrite Hc, (sm_ttft _ _ _ _ _ _ Hs), Hz, Hf in Hs'. cbn [mbind option_bind] in Hs'.
  unfold finish_response in Hs'. rewrite Hst, (sm_ttft _ _ _ _ _ _ Hs1), Hz in Hs'. cbn [mbind option_bind] in Hs'. cbv zeta in Hs'.
  assert (Havg : average_tpot now c1 = c1 <| avgTPOT := f64_div (f64_sub (elapsed_ms now t0) first) (f64_of_int n) |>).
  { unfold average_tpot. rewrite (sm_ttft _ _ _ _ _ _ Hs1), (sm_count _ _ _ _ _ _ Hs1), (sm_start _ _ _ _ _ _ Hs1), Hpos.
    replace (1 <? n + 1) with true by lia. cbn [andb]. by replace (n + 1 - 1) with n by lia. }
  rewrite Havg in Hs'. set (c2 := c1 <| avgTPOT := _ |>) in *.
  assert (Hs2 : streams target profile t0 first (n + 1) c2) by (destruct Hs1; by split).
  destruct (latest_metrics _ _ _ _ _ _ Hs2) as (m & Hm).
  destruct (removeRequestFromQueue _ _ c2) as [s1|] eqn:Hrm; [|done]. apply remove_frame in Hrm. injection Hrm as Htr Hst1. injection Hs' as <-.
  eexists _, (buildTrainingEntry (EndpointRoleLabel cfg) target m (promptText c2) f64_zero (avgTPOT c2) now 0 f64_zero
    (prefillTokensAtDispatch c2) (decodeTokensAtDispatch c2)).
  split; [exact Hrun|]. split; [exact Hex'|]. split; [apply lookup_delete_eq|]. split; [done|]. cbn. rewrite Htr. unfold tpot_entries. by rewrite Hm.
Qed.

Abbreviation run' := (run NewSource Float64 NormFloat64 exp overflow draws Marshal ParseFloat cfg).

Definition chunk_event (service : Predictor) (metrics : EndpointMetadata -> Metrics) (request : @LLMRequest V) (target : EndpointMetadata)
    (last : bool) (now : Z) : event := EvResponse service metrics now request last target.

Lemma next_chunks service metrics request target profile t0 first ts : forall n (s : PL) (c : ctx),
  exact s -> sloContextStore s !! request_id request = Some c -> streams target profile t0 first n c ->
  SFeqb first f64_zero = false -> 0 < n -> n + Z.of_nat (length ts) < two63 ->
  exists s' c', run' s (chunk_event service metrics request target false <$> ts) = Some s' /\ exact s' /\
    sloContextStore s' !! request_id request = Some c' /\ streams target profile t0 first (n + Z.of_nat (length ts)) c' /\ trained s' = trained s.
Proof.
  induction ts as [|t ts IH]; intros n s c Hex Hc Hs Hz Hn Hb; [exists s, c; rewrite Z.add_0_r; auto|].
  destruct (next_chunk service metrics t request target profile t0 first n s c Hex Hc Hs Hz) as (s1 & c1 & Hr & Hex1 & Hc1 & Hs1 & Ht1);
    [apply small_i64; cbn [length] in Hb; lia|].
  destruct (IH (n + 1) s1 c1 Hex1 Hc1 Hs1 Hz) as (s' & c' & Hr' & Hex' & Hc' & Hs' & Ht'); [lia|cbn [length] in Hb; lia|].
  exists s', c'. split; [|split; [done|split; [done|split; [|congruence]]]].
  - unfold run in *. cbn [fmap list_fmap ofold]. change (exec' s (chunk_event service metrics request target false t)) with
      (response' service metrics t s request false target). by rewrite Hr.
  - by replace (n + Z.of_nat (length (t :: ts))) with (n + 1 + Z.of_nat (length ts)) by (cbn [length]; lia).
Qed.


End Accounting.
