(* ===== verification/PredictedLatencyClaims.v ===== *)
(** The predicted-latency producer on concrete requests: an instance of its
    accounting theorem, and the cases in which its bookkeeping or its predictions
    go wrong. *)

From S2P Require Import Prelude Doubles EvictionQueue InFlight Ordering Chunking ReqCtx Saturation Scheduler Scorers LatencyScorer RequestQueue PredictedLatency PredictedLatencyProps.

(** * Witnesses *)

Definition sample_parse (s : string) : option spec_float :=
  if String.eqb s "10" then Some (f64_of_int 10) else if String.eqb s "100" then Some (f64_of_int 100)
  else if String.eqb s "-5" then Some (f64_of_int (-5)) else None.

Definition sample_pod (name : string) : EndpointMetadata :=
  {| NamespacedName := ("default", name); PodName := name; Address := "10.0.0.1"; Port := "8000"; MetricsHost := "10.0.0.1:8000"; Labels := ∅ |}.

Definition sample_metrics (e : EndpointMetadata) : Metrics :=
  {| ActiveModels := ∅; WaitingModels := ∅; MaxActiveModels := 0; RunningRequestsSize := 1; WaitingQueueSize := 0;
     KVCacheUsagePercent := f64_zero; UpdateTime := 0 |}.

Definition sample_request (id : string) (slo : list (string * string)) : @LLMRequest unit :=
  {| PredictedLatency.Headers := list_to_map ((RequestIdHeaderKey, id) :: slo);
     PredictedLatency.Body := Some {| Completions := Some ("one two three", []); ChatCompletions := None; Responses := None; Conversations := None |} |}.

Definition sample_service (ttft tpot : Z) : Predictor :=
  {| Predict := fun _ => None;
     PredictBulkStrict := fun reqs => Some ((fun _ => {| rsp_TTFT := f64_of_int ttft; rsp_TPOT := f64_of_int tpot |}) <$> reqs) |}.

Definition sample_result (target prefill : string) : @SchedulingResult EndpointMetadata :=
  {| ProfileResults := {[ "decode" := Some {| TargetEndpoints := [sample_pod target] |};
                          "prefill" := Some {| TargetEndpoints := [sample_pod prefill] |} ]};
     PrimaryProfileName := "decode" |}.

Definition streaming_config : Config := {|
  SamplingMean := f64_of_int 5; MaxDecodeTokenSamplesForPrediction := 2; SLOBufferFactor := f64_one;
  ContextTTL := 300000000000; StreamingMode := true; EndpointRoleLabel := EmptyString; PredictInPrepareData := true
|}.

(** 0.5 and 0.25 *)
Definition half : spec_float := S754_finite false 4503599627370496 (-53).
Definition quarter : spec_float := S754_finite false 4503599627370496 (-54).

Abbreviation sample_run := (run (fun _ => tt) (fun g => (quarter, g)) (fun g => (f64_zero, g)) (fun _ => half) (fun _ => 0) 1
  (fun _ : unit => EmptyString) sample_parse streaming_config).

Abbreviation sample_exec := (exec (fun _ => tt) (fun g => (quarter, g)) (fun g => (f64_zero, g)) (fun _ => half) (fun _ => 0) 1
  (fun _ : unit => EmptyString) sample_parse streaming_config).

Abbreviation ms := 1000000 (only parsing).

Definition sample_dispatch (id : string) (slo : list (string * string)) (target prefill : string) (now : Z) : list (@event unit) :=
  [EvPrepare (sample_service 50 20) sample_metrics (fun _ => None) (sample_request id slo) [sample_pod target; sample_pod prefill];
   EvPreRequest sample_metrics now now (sample_request id slo) (sample_result target prefill)].

Definition sample_chunk (id : string) (slo : list (string * string)) (target : string) (now : Z) (last : bool) : @event unit :=
  EvResponse (sample_service 50 20) sample_metrics now (sample_request id slo) last (sample_pod target).

Definition sample_events : list (@event unit) :=
  sample_dispatch "a" [(TPOTSLOHeaderKey, "100")] "d" "p" 0 ++ [sample_chunk "a" [(TPOTSLOHeaderKey, "100")] "d" (7 * ms) false].

Lemma sample_runs :
  (fun s => (default 0 (prefillTokensInFlight s !! "default/d"), default 0 (prefillTokensInFlight s !! "default/p"),
             getEndpointRunningRequestCount s (sample_pod "d"), getEndpointMinTPOTSLO s (sample_pod "d"))) <$>
  sample_run NewPredictedLatency sample_events = Some (3, 0, 1, f64_of_int 100).
Proof. vm_compute. reflexivity. Qed.

Lemma sample_draws lambda (g : unit) :
  SFltb lambda f64_thirty = true -> is_Some (knuth_loop (fun g => (quarter, g)) 1 half f64_one 0 g).
Proof. intros _. vm_compute. by eexists. Qed.

Lemma sample_bulk ttft tpot reqs ps : PredictBulkStrict (sample_service ttft tpot) reqs = Some ps -> length ps = length reqs.
Proof. intros [= <-]. by rewrite length_fmap. Qed.

(** Evaluate a step of a run. *)
Ltac run_step := let s := fresh "s" in let Hs := fresh "Hs" in intros s Hs; vm_compute in Hs; injection Hs as <-.

Ltac proper_prepare := split; [let c := fresh in let Hc := fresh in intros c Hc; vm_compute in Hc; discriminate Hc|
  split; [vm_compute; reflexivity|split; [vm_compute; reflexivity|split; [apply sample_bulk|vm_compute; reflexivity]]]].

Ltac proper_dispatch := split; [vm_compute; discriminate|
  split; [eexists _, _; split; vm_compute; reflexivity|
          let c := fresh in let Hc := fresh in intros c Hc; vm_compute in Hc; injection Hc as <-; reflexivity]].

Lemma sample_proper :
  proper_run (fun _ => tt) (fun g => (quarter, g)) (fun g => (f64_zero, g)) (fun _ => half) (fun _ => 0) 1
    (fun _ : unit => EmptyString) sample_parse streaming_config NewPredictedLatency sample_events.
Proof.
  split; [proper_prepare|]. run_step. split; [proper_dispatch|]. run_step. split; [|done]. intros c Hc. vm_compute in Hc. injection Hc as <-. split; [reflexivity|]. by vm_compute.
Qed.


(** ** A streamed response *)

Definition solo_result : @SchedulingResult EndpointMetadata :=
  {| ProfileResults := {[ "decode" := Some {| TargetEndpoints := [sample_pod "d"] |} ]}; PrimaryProfileName := "decode" |}.

Definition solo_events : list (@event unit) :=
  [EvPrepare (sample_service 50 20) sample_metrics (fun _ => None) (sample_request "a" []) [sample_pod "d"];
   EvPreRequest sample_metrics 0 0 (sample_request "a" []) solo_result].

Abbreviation sample_proper_run := (proper_run (fun _ => tt) (fun g => (quarter, g)) (fun g => (f64_zero, g)) (fun _ => half) (fun _ => 0) 1
  (fun _ : unit => EmptyString) sample_parse streaming_config).

Lemma solo_proper : sample_proper_run NewPredictedLatency solo_events.
Proof. split; [proper_prepare|]. run_step. split; [proper_dispatch|done]. Qed.

Lemma solo_context :
  (fun s => (fun c => (targetMetadata c, prefillTargetMetadata c, requestReceivedTimestamp c, PrimaryProfileName <$> schedulingResult c,
                       lastSeenMetrics c !! "decode", ttft c, generatedTokenCount c)) <$> sloContextStore s !! "a") <$>
  sample_run NewPredictedLatency solo_events
  = Some (Some (Some (sample_pod "d"), None, 0, Some "decode", Some (sample_metrics (sample_pod "d")), f64_zero, 0)).
Proof. vm_compute. reflexivity. Qed.


(** * Where the bookkeeping or the predictions go wrong *)

(** A request without an id is stored and answered under the empty id, but not
    dispatched: the end of its response takes tokens back that were never added. *)
Theorem missing_id_underflows :
  (fun s => prefillTokensInFlight s !! "default/d") <$>
  sample_run NewPredictedLatency (sample_dispatch EmptyString [] "d" "p" 0 ++ [sample_chunk EmptyString [] "d" (7 * ms) true]) = Some (Some (-3)).
Proof. vm_compute. reflexivity. Qed.

(** A first token within the same millisecond is recorded as a time of 0, which
    means that there was none: the second token releases the prefill endpoint once
    more. *)
Theorem instant_first_token_released_twice :
  (fun s => prefillTokensInFlight s !! "default/p") <$>
  sample_run NewPredictedLatency (sample_dispatch "a" [] "d" "p" 0 ++ [sample_chunk "a" [] "d" 999999 false; sample_chunk "a" [] "d" (7 * ms) false])
  = Some (Some (-3)).
Proof. vm_compute. reflexivity. Qed.

Abbreviation sample_prepare := (PrepareRequestData (fun _ : unit => EmptyString) sample_parse streaming_config).

(** A running request without an objective hides the objectives of the others: a
    prediction of 20 ms per token is valid at an endpoint with a running request
    whose objective is 10 ms. *)
Theorem unset_objective_hides_others :
  exists s, sample_run NewPredictedLatency (sample_dispatch "a" [] "d" "p" 0 ++ sample_dispatch "b" [(TPOTSLOHeaderKey, "10")] "d" "p" 0) = Some s /\
    objectives (sloContextStore s) ("default", "d") !! "b" = Some (f64_of_int 10) /\ getEndpointMinTPOTSLO s (sample_pod "d") = f64_zero /\
    (fun r => TPOTValid <$> r.2.*2) <$>
      sample_prepare (sample_service 50 20) sample_metrics (fun _ => None) s (sample_request "c" [(TPOTSLOHeaderKey, "100")]) [sample_pod "d"]
    = Some [true].
Proof. eexists. split; [vm_compute; reflexivity|]. split; [vm_compute; reflexivity|]. split; vm_compute; reflexivity. Qed.

(** A request with a negative objective is dispatched and its prompt is counted, but
    the queue refuses it: the endpoint has no running request. *)
Theorem negative_objective_not_running :
  (fun s => (default 0 (prefillTokensInFlight s !! "default/d"), getEndpointRunningRequestCount s (sample_pod "d"))) <$>
    sample_run NewPredictedLatency (sample_dispatch "a" [(TPOTSLOHeaderKey, "-5")] "d" "p" 0) = Some (3, 0).
Proof. vm_compute. reflexivity. Qed.

(** An objective that is not set counts as an objective of 0: a request with an
    objective for the first token only is never predicted to be served in time. *)
Theorem single_objective_never_valid :
  (fun r => (fun i => (TTFTValid i, TPOTValid i, IsValid i)) <$> r.2.*2) <$>
    sample_prepare (sample_service 50 20) sample_metrics (fun _ => None) (@NewPredictedLatency unit unit)
      (sample_request "a" [(TTFTSLOHeaderKey, "100")]) [sample_pod "d"]
  = Some [(true, false, false)].
Proof. vm_compute. reflexivity. Qed.

(** Such a request is rejected when it is sheddable and all endpoints are busy,
    although the first token is predicted in time. *)
Theorem single_objective_rejected :
  (fun r => (fun i => (TTFTValid i,
     AdmitRequest (fun _ : unit => {| ActiveModels := ∅; WaitingModels := ∅; MaxActiveModels := 0; RunningRequestsSize := 1; WaitingQueueSize := 0;
                                      KVCacheUsagePercent := half; UpdateTime := 0 |}) (fun _ => Some i) sample_parse (-1)
       {[ TTFTSLOHeaderKey := "100" ]} [tt])) <$> r.2.*2) <$>
    sample_prepare (sample_service 50 20) sample_metrics (fun _ => None) (@NewPredictedLatency unit unit)
      (sample_request "a" [(TTFTSLOHeaderKey, "100")]) [sample_pod "d"]
  = Some [(true, false)].
Proof. vm_compute. reflexivity. Qed.

(** A service that answers fewer requests than it is asked makes the hook panic. *)
Theorem short_answer_panics :
  sample_prepare {| Predict := fun _ => None; PredictBulkStrict := fun _ => Some [] |} sample_metrics (fun _ => None)
    (@NewPredictedLatency unit unit) (sample_request "a" []) [sample_pod "d"] = None.
Proof. vm_compute. reflexivity. Qed.

(** An interval of 0, which Knuth's algorithm draws, puts the next sample at the
    token that was just sampled: there is none ever after. *)
Theorem zero_interval_stops_sampling {G} (Float64 NormFloat64 : G -> spec_float * G) exp overflow draws ts n ts' :
  recordPrediction Float64 NormFloat64 exp overflow draws ts n = Some ts' -> nextSampleToken ts' = n ->
  forall n', n < n' -> shouldPredict ts' n' = false.
Proof. intros _ Hn n' Hlt. unfold shouldPredict. apply andb_false_iff. left. apply Z.eqb_neq. lia. Qed.

Lemma zero_interval_drawn :
  poissonNext (fun g : unit => (quarter, g)) (fun g => (f64_zero, g)) (fun _ => half) (fun _ => 0) 1
    (mkSampler tt 7 (f64_of_int 1) 2 0) = Some (0, mkSampler tt 7 (f64_of_int 1) 2 0).
Proof. vm_compute. reflexivity. Qed.

(** ** Two goroutines at one counter *)

(** A counter is a pointer in the map.  A goroutine fetches it, adds, and deletes
    the entry when the sum is 0. *)
Record counters := { entries : gmap string nat; cells : list Z }.

Inductive counter_op :=
| OLoad (key : string)              (* LoadOrStore *)
| OAdd (p : nat) (delta : Z)
| ODelete (key : string).

Definition counter_step (m : counters) (o : counter_op) : counters :=
  match o with
  | OLoad key => match entries m !! key with
                 | Some _ => m
                 | None => {| entries := <[key := length (cells m)]> (entries m); cells := cells m ++ [0] |}
                 end
  | OAdd p delta => {| entries := entries m; cells := alter (fun v => i64 (v + delta)) p (cells m) |}
  | ODelete key => {| entries := delete key (entries m); cells := cells m |}
  end.

Definition counter_load (m : counters) (key : string) : Z := default 0 (p ← entries m !! key; cells m !! p).

(** One request ends while the next is dispatched: it fetches the counter before
    the entry is deleted and adds afterwards, and its tokens are lost. *)
Theorem counter_update_lost :
  counter_load (foldl counter_step {| entries := ∅; cells := [] |}
    [OLoad "p"; OAdd 0 5;                  (* the first request is dispatched *)
     OLoad "p"; OAdd 0 (-5);               (* it ends, and its sum is 0 *)
     OLoad "p";                            (* the second request fetches the counter *)
     ODelete "p"; OAdd 0 7]) "p" = 0.
Proof. vm_compute. reflexivity. Qed.
