(* ===== verification/AdaptersStore.v ===== *)
(** The adapters store of body-based routing
    (src/pkg/bbr/plugins/basemodelextractor/adapters_store.go) and the reconciler
    that fills it from config maps (configmap_reconciler.go): which base model a
    model name stands for.

    The lock makes every method atomic, so a method is a function on the store.
    The YAML decoder and the API reader are arguments. *)

From stdpp Require Import fin_maps gmap strings.
From S2P Require Import Prelude Ordering.

Definition baseModelKey : string := "baseModel".
Definition adaptersKey : string := "adapters".
Definition bbrManagedLabel : string := "inference.networking.k8s.io/bbr-managed".

Record ConfigMap := mkConfigMap {
  cm_Namespace : string;
  cm_Name : string;
  cm_Labels : gmap string string;
  cm_Data : gmap string string;
  cm_Deleting : bool
}.

(** The object before anything was decoded into it. *)
Definition zero_configmap : ConfigMap := mkConfigMap EmptyString EmptyString ∅ ∅ false.

Definition cm_key (configmap : ConfigMap) : string * string := (cm_Namespace configmap, cm_Name configmap).

Record adaptersStoreImpl := mkAdapters {
  loraAdapterToBaseModel : gmap string string;
  configmapAdapters : gmap (string * string) (gset string);
  baseModels : gmap string Z
}.

#[global] Instance eta_adaptersStoreImpl : Eta adaptersStoreImpl := fun s =>
  mkAdapters (loraAdapterToBaseModel s) (configmapAdapters s) (baseModels s).

Definition NewAdaptersStore : adaptersStoreImpl := mkAdapters ∅ ∅ ∅.

(** What the API reader returns. *)
Inductive cm_result :=
| CmFound (configmap : ConfigMap)
| CmNotFound
| CmError (msg : string).

Definition hasBbrManagedLabel (configmap : ConfigMap) : bool :=
  bool_decide (default EmptyString (cm_Labels configmap !! bbrManagedLabel) = "true").

(** The events the reconciler is woken by. *)
Inductive cm_event :=
| CmCreate (object : ConfigMap)
| CmUpdate (old new : ConfigMap)
| CmDelete (object : ConfigMap)
| CmGeneric (object : ConfigMap).

Definition bbrManagedPredicate (e : cm_event) : bool :=
  match e with
  | CmCreate o | CmDelete o | CmGeneric o => hasBbrManagedLabel o
  | CmUpdate o n => hasBbrManagedLabel o || hasBbrManagedLabel n
  end.

Definition parseBaseModelFromConfigMap (configmap : ConfigMap) : string + string :=
  match cm_Data configmap !! baseModelKey with
  | Some baseModel =>
      if String.eqb (strings_TrimSpace baseModel) EmptyString
      then inr "missing or empty baseModel in configmap"
      else inl (strings_TrimSpace baseModel)
  | None => inr "missing or empty baseModel in configmap"
  end.

Definition getBaseModel (s : adaptersStoreImpl) (modelName : string) : string :=
  let trimmedModelName := strings_TrimSpace modelName in
  match loraAdapterToBaseModel s !! trimmedModelName with
  | Some baseModel => baseModel
  | None =>
      match baseModels s !! trimmedModelName with
      | Some _ => trimmedModelName
      | None => EmptyString
      end
  end.

Definition configMapDelete (s : adaptersStoreImpl) (configmap : ConfigMap) : adaptersStoreImpl :=
  match configmapAdapters s !! cm_key configmap with
  | None => s
  | Some adapters =>
      let s := s <| loraAdapterToBaseModel :=
                      set_fold (fun adapter m => delete adapter m) (loraAdapterToBaseModel s) adapters |>
                 <| configmapAdapters := delete (cm_key configmap) (configmapAdapters s) |> in
      match parseBaseModelFromConfigMap configmap with
      | inr _ => s
      | inl baseModel =>
          let count := default 0 (baseModels s !! baseModel) in
          if count =? 1 then s <| baseModels := delete baseModel (baseModels s) |>
          else s <| baseModels := <[baseModel := count - 1]> (baseModels s) |>
      end
  end.

Section Yaml.

(** [yaml.Unmarshal] into a slice of strings. *)
Variable yaml_strings : string -> list string + string.

Definition trimmed_adapters (list : list string) : gset string :=
  foldl (fun adapters adapter =>
           let trimmedAdapter := strings_TrimSpace adapter in
           if String.eqb trimmedAdapter EmptyString then adapters else {[ trimmedAdapter ]} ∪ adapters) ∅ list.

Definition parseConfigMap (configmap : ConfigMap) : (string * gset string) + string :=
  match parseBaseModelFromConfigMap configmap with
  | inr _ => inr ("failed to parse configmap " +:+ cm_Namespace configmap +:+ "/" +:+ cm_Name configmap)
  | inl baseModel =>
      match cm_Data configmap !! adaptersKey with
      | Some raw =>
          if String.eqb (strings_TrimSpace raw) EmptyString then inl (baseModel, ∅)
          else match yaml_strings raw with
               | inr err => inr ("failed to parse adapters: " +:+ err)
               | inl list => inl (baseModel, trimmed_adapters list)
               end
      | None => inl (baseModel, ∅)
      end
  end.

Definition configMapUpdateOrAddIfNotExist (s : adaptersStoreImpl) (configmap : ConfigMap)
    : adaptersStoreImpl * option string :=
  match parseConfigMap configmap with
  | inr err => (s, Some ("failed to parse configmap - " +:+ err))
  | inl (baseModel, newAdapters) =>
      let previous := configmapAdapters s !! cm_key configmap in
      let existingAdapters := default ∅ previous in
      let adaptersToRemove := existingAdapters ∖ newAdapters in
      let lora := set_fold (fun adapter m => <[adapter := baseModel]> m) (loraAdapterToBaseModel s) newAdapters in
      let lora := set_fold (fun adapter m => delete adapter m) lora adaptersToRemove in
      let bases := match previous with
                   | Some _ => baseModels s
                   | None => match baseModels s !! baseModel with
                             | Some count => <[baseModel := count + 1]> (baseModels s)
                             | None => <[baseModel := 1]> (baseModels s)
                             end
                   end in
      (mkAdapters lora (<[cm_key configmap := newAdapters]> (configmapAdapters s)) bases, None)
  end.

(** The reader decodes into [configmap] only what it found. *)
Definition ConfigMap_Reconcile (Get : string * string -> cm_result) (s : adaptersStoreImpl) (req : string * string)
    : adaptersStoreImpl * option string :=
  match Get req with
  | CmError msg => (s, Some ("unable to get ConfigMap - " +:+ msg))
  | CmNotFound => (configMapDelete s zero_configmap, None)
  | CmFound configmap =>
      if cm_Deleting configmap || negb (hasBbrManagedLabel configmap)
      then (configMapDelete s configmap, None)
      else match configMapUpdateOrAddIfNotExist s configmap with
           | (s, Some err) => (s, Some ("failed to add or update ConfigMap - " +:+ err))
           | (s, None) => (s, None)
           end
  end.

End Yaml.

(** * What the store should know

    The managed config maps by name, each with its base model and its adapters. *)

Abbreviation known := (gmap (string * string) (string * gset string)).

(** How many config maps name a base model. *)
Definition base_count (K : known) (b : string) : Z :=
  Z.of_nat (size (filter (fun kv => kv.2.1 = b) K)).

(** The answer for a trimmed model name. *)
Definition answers (K : known) (m r : string) : Prop :=
  (exists k b A, K !! k = Some (b, A) /\ m ∈ A /\ r = b) \/
  (forall k b A, K !! k = Some (b, A) -> m ∉ A) /\
  ((exists k A, K !! k = Some (m, A)) /\ r = m \/
   (forall k A, K !! k <> Some (m, A)) /\ r = EmptyString).

(** One wake-up of the reconciler: the request, and what the reader returns. *)
Definition wakeup : Type := (string * string) * cm_result.

Section Spec.

Variable yaml_strings : string -> list string + string.

(** The config maps after a wake-up.  One that was not found is gone; one that
    cannot be parsed, or could not be read, stays as it was. *)
Definition known_step (K : known) (w : wakeup) : known :=
  match w.2 with
  | CmFound cm =>
      if cm_Deleting cm || negb (hasBbrManagedLabel cm) then delete (cm_key cm) K
      else match parseConfigMap yaml_strings cm with
           | inl parsed => <[cm_key cm := parsed]> K
           | inr _ => K
           end
  | CmNotFound => delete w.1 K
  | CmError _ => K
  end.

(** What the store relies on: the reader returns the object that was asked for,
    which has a name; the base model of a config map does not change while it is
    known; no two config maps list the same adapter; and a known config map is
    seen on its way out (being deleted, or without its label) before it is not
    found. *)
Definition orderly_step (K : known) (w : wakeup) : Prop :=
  match w.2 with
  | CmFound cm =>
      cm_key cm = w.1 /\ cm_Name cm <> EmptyString /\
      if cm_Deleting cm || negb (hasBbrManagedLabel cm) then
        match K !! cm_key cm with
        | Some (b, _) => parseBaseModelFromConfigMap cm = inl b
        | None => True
        end
      else
        match parseConfigMap yaml_strings cm with
        | inl (b, A) =>
            match K !! cm_key cm with Some (b', _) => b' = b | None => True end /\
            map_Forall (fun k p => k <> cm_key cm -> A ## p.2) K
        | inr _ => True
        end
  | CmNotFound => K !! w.1 = None
  | CmError _ => True
  end.

Fixpoint orderly (K : known) (ws : list wakeup) : Prop :=
  match ws with
  | [] => True
  | w :: ws => orderly_step K w /\ orderly (known_step K w) ws
  end.

#[global] Instance orderly_step_dec K w : Decision (orderly_step K w).
Proof. unfold orderly_step. repeat case_match; apply _. Defined.

#[global] Instance orderly_dec K ws : Decision (orderly K ws).
Proof. revert K. induction ws as [|w ws IH]; intros K; cbn; apply _. Defined.

Definition reconcile_all (ws : list wakeup) (s : adaptersStoreImpl) : adaptersStoreImpl :=
  foldl (fun s w => (ConfigMap_Reconcile yaml_strings (fun _ => w.2) s w.1).1) s ws.

(** The store and what it should know. *)
Record store_models (s : adaptersStoreImpl) (K : known) : Prop := {
  sm_adapters : configmapAdapters s = snd <$> K;
  sm_lora a b : loraAdapterToBaseModel s !! a = Some b <-> exists k A, K !! k = Some (b, A) /\ a ∈ A;
  sm_bases b : baseModels s !! b = if base_count K b =? 0 then None else Some (base_count K b);
  sm_disjoint k k' b b' A A' : k <> k' -> K !! k = Some (b, A) -> K !! k' = Some (b', A') -> A ## A';
  sm_unnamed ns : K !! (ns, EmptyString) = None
}.

Lemma lookup_fold_insert (b : string) (m : gmap string string) (X : gset string) a :
  set_fold (fun x m => <[x := b]> m) m X !! a = if decide (a ∈ X) then Some b else m !! a.
Proof.
  revert a. pose (P := fun (r : gmap string string) (Y : gset string) =>
    forall a, r !! a = if decide (a ∈ Y) then Some b else m !! a).
  apply (set_fold_ind_L P); unfold P.
  - intros a. by rewrite decide_False by set_solver.
  - intros x Y r Hx IH a. destruct (decide (a = x)) as [->|Hne].
    + rewrite lookup_insert_eq, decide_True by set_solver. done.
    + rewrite lookup_insert_ne, IH by done. repeat case_decide; set_solver.
Qed.

Lemma lookup_fold_delete (m : gmap string string) (X : gset string) a :
  set_fold (fun x m => delete x m) m X !! a = if decide (a ∈ X) then None else m !! a.
Proof.
  revert a. pose (P := fun (r : gmap string string) (Y : gset string) =>
    forall a, r !! a = if decide (a ∈ Y) then None else m !! a).
  apply (set_fold_ind_L P); unfold P.
  - intros a. by rewrite decide_False by set_solver.
  - intros x Y r Hx IH a. destruct (decide (a = x)) as [->|Hne].
    + rewrite lookup_delete_eq, decide_True by set_solver. done.
    + rewrite lookup_delete_ne, IH by done. repeat case_decide; set_solver.
Qed.

Lemma base_count_insert K k b A b' :
  K !! k = None -> base_count (<[k := (b, A)]> K) b' = base_count K b' + if decide (b = b') then 1 else 0.
Proof.
  intros Hk. unfold base_count. case_decide as Hb.
  - rewrite map_filter_insert_True by done.
    rewrite map_size_insert_None; [lia|]. by apply map_lookup_filter_None_2; left.
  - rewrite map_filter_insert_False by done. rewrite delete_id by done. lia.
Qed.

Lemma base_count_replace K k b A A' b' :
  K !! k = Some (b, A) -> base_count (<[k := (b, A')]> K) b' = base_count K b'.
Proof.
  intros Hk. transitivity (base_count (<[k := (b, A)]> (delete k K)) b').
  - rewrite <- insert_delete_eq. by rewrite !base_count_insert by apply lookup_delete_eq.
  - by rewrite insert_delete_id.
Qed.

Lemma base_count_delete K k b A b' :
  K !! k = Some (b, A) -> base_count (delete k K) b' = base_count K b' - if decide (b = b') then 1 else 0.
Proof.
  intros Hk. assert (base_count K b' = base_count (<[k := (b, A)]> (delete k K)) b') as ->.
  { by rewrite insert_delete_id. }
  rewrite base_count_insert by apply lookup_delete_eq. lia.
Qed.

Lemma base_count_pos K b : 0 < base_count K b <-> exists k A, K !! k = Some (b, A).
Proof.
  unfold base_count. rewrite <- Nat2Z.inj_0, <- Nat2Z.inj_lt. split.
  - intros H. destruct (map_choose (filter (fun kv => kv.2.1 = b) K)) as (k & [b' A] & Hk).
    { intros He. rewrite He, map_size_empty in H. lia. }
    apply map_lookup_filter_Some in Hk as [Hk ?]. simpl in *. subst. eauto.
  - intros (k & A & Hk). apply Nat.neq_0_lt_0. rewrite map_size_non_empty_iff.
    intros He. apply (map_filter_empty_not_lookup _ _ k (b, A)) in He; auto.
Qed.

Lemma update_lora s K (HM : store_models s K) key b A a b' :
  (forall b' A', K !! key = Some (b', A') -> b' = b) ->
  (forall k b' A', k <> key -> K !! k = Some (b', A') -> A ## A') ->
  (if decide (a ∈ default ∅ (snd <$> K !! key) ∖ A) then None
   else if decide (a ∈ A) then Some b else loraAdapterToBaseModel s !! a) = Some b' <->
  exists k A', <[key := (b, A)]> K !! k = Some (b', A') /\ a ∈ A'.
Proof.
  intros Hbase Hdisj. destruct (decide (a ∈ A)) as [HA|HA].
  - rewrite decide_False by set_solver. split.
    + intros [= <-]. exists key, A. by rewrite lookup_insert_eq.
    + intros (k & A' & Hk & Ha). apply lookup_insert_Some in Hk as [[_ [= <- <-]]|[Hne Hk]]; [done|].
      destruct (Hdisj k b' A' (not_eq_sym Hne) Hk a HA Ha).
  - case_decide as Hr; (split; [|intros (k & A' & Hk & Ha);
      apply lookup_insert_Some in Hk as [[_ [= <- <-]]|[Hne Hk]]; [done|]]).
    + done.
    + apply elem_of_difference in Hr as [Hr _]. destruct (K !! key) as [[b0 A0]|] eqn:HK; [|set_solver].
      cbn in Hr. destruct (sm_disjoint _ _ HM key k b0 b' A0 A' Hne HK Hk a); done.
    + intros Hl. apply (sm_lora _ _ HM) in Hl as (k & A' & Hk & Ha). exists k, A'. split; [|done].
      apply lookup_insert_Some. right. split; [|done]. intros <-. rewrite Hk in Hr. cbn in Hr. set_solver.
    + apply (sm_lora _ _ HM). eauto.
Qed.

Lemma count_base s K key b A b' :
  store_models s K -> K !! key = None ->
  (match baseModels s !! b with
   | Some count => <[b := count + 1]> (baseModels s)
   | None => <[b := 1]> (baseModels s)
   end) !! b' = if base_count (<[key := (b, A)]> K) b' =? 0 then None
                else Some (base_count (<[key := (b, A)]> K) b').
Proof.
  intros HM HK. rewrite base_count_insert by done.
  assert (0 <= base_count K b') as Hnn by (unfold base_count; lia).
  case_decide as Hb.
  - subst b'. replace (base_count K b + 1 =? 0) with false by lia.
    rewrite (sm_bases _ _ HM). destruct (Z.eqb_spec (base_count K b) 0) as [H0|H0]; rewrite lookup_insert_eq; f_equal; lia.
  - rewrite Z.add_0_r, <- (sm_bases _ _ HM). case_match; by rewrite lookup_insert_ne.
Qed.

Lemma delete_lora s K (HM : store_models s K) key b A a b' :
  K !! key = Some (b, A) ->
  (if decide (a ∈ A) then None else loraAdapterToBaseModel s !! a) = Some b' <->
  exists k A', delete key K !! k = Some (b', A') /\ a ∈ A'.
Proof.
  intros HK. case_decide as HA; (split; [|intros (k & A' & Hk & Ha); apply lookup_delete_Some in Hk as [Hne Hk]]).
  - done.
  - destruct (sm_disjoint _ _ HM key k b b' A A' Hne HK Hk a HA Ha).
  - intros Hl. apply (sm_lora _ _ HM) in Hl as (k & A' & Hk & Ha). exists k, A'. split; [|done].
    apply lookup_delete_Some. split; [|done]. intros <-. congruence.
  - apply (sm_lora _ _ HM). eauto.
Qed.

Lemma uncount_base s K key b A :
  store_models s K -> K !! key = Some (b, A) ->
  forall s' b', s' = s <| loraAdapterToBaseModel := loraAdapterToBaseModel s' |>
                       <| configmapAdapters := configmapAdapters s' |> ->
  baseModels (if default 0 (baseModels s' !! b) =? 1 then s' <| baseModels := delete b (baseModels s') |>
              else s' <| baseModels := <[b := default 0 (baseModels s' !! b) - 1]> (baseModels s') |>) !! b' =
  if base_count K b' - (if decide (b = b') then 1 else 0) =? 0 then None
  else Some (base_count K b' - if decide (b = b') then 1 else 0).
Proof.
  intros HM HK s' b' Hs'. assert (baseModels s' = baseModels s) as -> by by rewrite Hs'.
  assert (0 < base_count K b) as Hpos by (apply base_count_pos; eauto).
  pose proof (sm_bases _ _ HM b) as Hb. replace (base_count K b =? 0) with false in Hb by lia.
  rewrite Hb. cbn. pose proof (sm_bases _ _ HM b') as Hb'.
  destruct (Z.eqb_spec (base_count K b) 1) as [H1|H1]; cbn; case_decide as He.
  - subst b'. rewrite lookup_delete_eq. by replace (base_count K b - 1 =? 0) with true by lia.
  - by rewrite lookup_delete_ne, Z.sub_0_r.
  - subst b'. rewrite lookup_insert_eq. by replace (base_count K b - 1 =? 0) with false by lia.
  - by rewrite lookup_insert_ne, Z.sub_0_r.
Qed.

Lemma update_models s K cm b A :
  store_models s K -> cm_Name cm <> EmptyString -> parseConfigMap yaml_strings cm = inl (b, A) ->
  (forall b' A', K !! cm_key cm = Some (b', A') -> b' = b) ->
  (forall k b' A', k <> cm_key cm -> K !! k = Some (b', A') -> A ## A') ->
  store_models (configMapUpdateOrAddIfNotExist yaml_strings s cm).1 (<[cm_key cm := (b, A)]> K).
Proof.
  intros HM Hname Hparse Hbase Hdisj. unfold configMapUpdateOrAddIfNotExist. rewrite Hparse. cbn [fst].
  assert (configmapAdapters s !! cm_key cm = snd <$> K !! cm_key cm) as Hprev
    by by rewrite (sm_adapters _ _ HM), lookup_fmap.
  split; cbn.
  - by rewrite fmap_insert, (sm_adapters _ _ HM).
  - intros a b'. rewrite lookup_fold_delete, lookup_fold_insert, Hprev.
    apply (update_lora _ _ HM _ _ _ a b' Hbase Hdisj).
  - intros b'. rewrite Hprev. destruct (K !! cm_key cm) as [[b0 A0]|] eqn:HK; cbn.
    + rewrite <- (Hbase _ _ eq_refl). rewrite (base_count_replace _ _ _ _ _ _ HK). apply (sm_bases _ _ HM).
    + by apply count_base.
  - intros k k' b1 b2 A1 A2 Hne. rewrite !lookup_insert. repeat case_decide; subst; try done.
    + intros [= <- <-] H2. by eapply Hdisj.
    + intros H1 [= <- <-]. symmetry. by eapply Hdisj.
    + by apply (sm_disjoint _ _ HM).
  - intros ns. rewrite lookup_insert_ne; [apply (sm_unnamed _ _ HM)|]. unfold cm_key. congruence.
Qed.

Lemma delete_models s K cm :
  store_models s K -> (forall b A, K !! cm_key cm = Some (b, A) -> parseBaseModelFromConfigMap cm = inl b) ->
  store_models (configMapDelete s cm) (delete (cm_key cm) K).
Proof.
  intros HM Hbase. unfold configMapDelete. rewrite (sm_adapters _ _ HM), lookup_fmap.
  destruct (K !! cm_key cm) as [[b A]|] eqn:HK; cbn [fmap option_fmap option_map]; [|by rewrite delete_id].
  rewrite (Hbase _ _ eq_refl). cbn [snd].
  set (s1 := _ <| configmapAdapters := _ |>). split.
  - subst s1. by case_match; cbn; rewrite fmap_delete.
  - intros a b'. rewrite <- (delete_lora _ _ HM _ _ _ a b' HK), <- lookup_fold_delete. subst s1. by case_match.
  - intros b'. rewrite (base_count_delete _ _ _ _ _ HK). by apply (uncount_base _ _ _ _ _ HM HK).
  - intros k k' b1 b2 A1 A2 Hne H1 H2. apply lookup_delete_Some in H1 as [_ H1], H2 as [_ H2].
    by eapply (sm_disjoint _ _ HM k k').
  - intros ns. apply lookup_delete_None. right. apply (sm_unnamed _ _ HM).
Qed.

Lemma delete_zero s K : store_models s K -> configMapDelete s zero_configmap = s.
Proof.
  intros HM. unfold configMapDelete. rewrite (sm_adapters _ _ HM), lookup_fmap.
  change (cm_key zero_configmap) with (EmptyString, EmptyString). by rewrite (sm_unnamed _ _ HM).
Qed.

Lemma reconcile_step s K w :
  store_models s K -> orderly_step K w ->
  store_models (ConfigMap_Reconcile yaml_strings (fun _ => w.2) s w.1).1 (known_step K w).
Proof.
  intros HM. unfold orderly_step, known_step, ConfigMap_Reconcile.
  destruct (w.2) as [cm| |msg]; cbn [fst]; [|intros Hgone|done].
  - intros (_ & Hname & Hcond). destruct (cm_Deleting cm || _).
    + apply delete_models; [done|]. intros b A HK. by rewrite HK in Hcond.
    + destruct (parseConfigMap yaml_strings cm) as [[b A]|err] eqn:Hparse.
      * destruct Hcond as [Hb Hd].
        assert (forall b' A', K !! cm_key cm = Some (b', A') -> b' = b) as Hbase
          by (intros b' A' HK; by rewrite HK in Hb).
        assert (forall k b' A', k <> cm_key cm -> K !! k = Some (b', A') -> A ## A') as Hdisj
          by (intros k b' A' Hne HK; exact (Hd k _ HK Hne)).
        pose proof (update_models _ _ _ _ _ HM Hname Hparse Hbase Hdisj) as H.
        by destruct (configMapUpdateOrAddIfNotExist yaml_strings s cm) as [? [?|]].
      * unfold configMapUpdateOrAddIfNotExist. by rewrite Hparse.
  - by rewrite (delete_zero _ _ HM), delete_id.
Qed.

Lemma reconcile_models ws s K :
  store_models s K -> orderly K ws -> store_models (reconcile_all ws s) (foldl known_step K ws).
Proof.
  revert s K. induction ws as [|w ws IH]; intros s K HM; [done|]. intros [Hw Hws].
  cbn [reconcile_all foldl]. apply IH; [|done]. by apply reconcile_step.
Qed.

Lemma new_store_models : store_models NewAdaptersStore ∅.
Proof.
  split; cbn.
  - by rewrite fmap_empty.
  - intros a b. rewrite lookup_empty. split; [done|]. intros (k & A & Hk & _). by rewrite lookup_empty in Hk.
  - intros b. unfold base_count. by rewrite map_filter_empty, map_size_empty, lookup_empty.
  - intros k k' b b' A A' _ Hk. by rewrite lookup_empty in Hk.
  - intros ns. apply lookup_empty.
Qed.

Lemma getBaseModel_answers s K name :
  store_models s K -> answers K (strings_TrimSpace name) (getBaseModel s name).
Proof.
  intros HM. unfold getBaseModel. set (m := strings_TrimSpace name).
  destruct (loraAdapterToBaseModel s !! m) as [b|] eqn:Hl.
  - left. apply (sm_lora _ _ HM) in Hl as (k & A & Hk & Hm). by exists k, b, A.
  - right. split.
    + intros k b A Hk Hm. assert (loraAdapterToBaseModel s !! m = Some b) as H'; [|congruence].
      apply (sm_lora _ _ HM). eauto.
    + rewrite (sm_bases _ _ HM). destruct (Z.eqb_spec (base_count K m) 0) as [H0|H0].
      * right. split; [|done]. intros k A Hk. assert (0 < base_count K m); [|lia]. apply base_count_pos. eauto.
      * left. split; [|done]. apply base_count_pos. unfold base_count in *. lia.
Qed.

(** A config map that is not found any more is not forgotten: the object handed
    to [configMapDelete] is the empty one, and the store stays that of before,
    with the config map. *)
Lemma deleted_configmap_not_forgotten s K req b A :
  store_models s K -> K !! req = Some (b, A) ->
  let s' := (ConfigMap_Reconcile yaml_strings (fun _ => CmNotFound) s req).1 in
  s' = s /\ ~ store_models s' (known_step K (req, CmNotFound)).
Proof.
  intros HM HK. unfold ConfigMap_Reconcile. rewrite (delete_zero _ _ HM). cbn [fst]. split; [done|]. intros HM'.
  pose proof (sm_adapters _ _ HM') as He. rewrite (sm_adapters _ _ HM) in He.
  apply (f_equal (fun m => m !! req)) in He. cbn [known_step snd fst] in He.
  by rewrite !lookup_fmap, HK, lookup_delete_eq in He.
Qed.

(** C26: The store answers every model name as the managed config maps say: the
    base model of the config map that lists the name as an adapter; else the name
    itself, if a config map has it as its base model; else the empty string.
    This holds for every orderly sequence of wake-ups: the reader returns the
    object asked for; a config map keeps its base model while it is known
    ([changed_base_model_miscounted]); no two config maps list the same adapter
    ([shared_adapter_lost]); and a config map is seen being deleted, or without
    its label, before it is not found, since one that is just not found is not
    forgotten ([deleted_configmap_not_forgotten]). *)
Theorem adapters_store_refines ws name :
  orderly ∅ ws ->
  answers (foldl known_step ∅ ws) (strings_TrimSpace name)
    (getBaseModel (reconcile_all ws NewAdaptersStore) name).
Proof. intros H. apply getBaseModel_answers, reconcile_models; [apply new_store_models|done]. Qed.

End Spec.

(** * Samples *)

Definition sample_yaml (s : string) : list string + string := inl [s].

Definition sample_cm (name base adapters : string) (managed : bool) : ConfigMap :=
  mkConfigMap "default" name (if managed then {[ bbrManagedLabel := "true" ]} else ∅)
    {[ baseModelKey := base; adaptersKey := adapters ]} false.

Definition wake (name base adapters : string) (managed : bool) : wakeup :=
  (("default", name), CmFound (sample_cm name base adapters managed)).

(** Two config maps, then the first one loses its label and is gone. *)
Abbreviation sample_wakeups :=
  [wake "one" "llama" "sql" true; wake "two" "qwen" "chat" true; wake "one" "llama" "sql" false;
   (("default", "one"), CmNotFound)].

Lemma adapters_store_refines_witness :
  orderly sample_yaml ∅ sample_wakeups /\
  answers (foldl (known_step sample_yaml) ∅ sample_wakeups) "chat" "qwen".
Proof.
  assert (orderly sample_yaml ∅ sample_wakeups) as H.
  { apply (bool_decide_unpack _). vm_compute. exact I. }
  split; [exact H|]. exact (adapters_store_refines sample_yaml sample_wakeups "chat" H).
Defined.

(** A changed base model is not noticed: the old name keeps answering, the new
    one does not, and removing the config map counts the new one down to -1. *)
Lemma changed_base_model_miscounted :
  let ws := [wake "one" "llama" "sql" true; wake "one" "qwen" "sql" true] in
  let s := reconcile_all sample_yaml ws NewAdaptersStore in
  let s' := reconcile_all sample_yaml [wake "one" "qwen" "sql" false] s in
  getBaseModel s "llama" = "llama" /\ getBaseModel s "qwen" = EmptyString /\
  configmapAdapters s' = ∅ /\ baseModels s' = {[ "llama" := 1; "qwen" := -1 ]} /\
  getBaseModel s' "qwen" = "qwen".
Proof. repeat split; vm_compute; reflexivity. Qed.

(** An adapter two config maps list is lost with the first of them. *)
Lemma shared_adapter_lost :
  let ws := [wake "one" "llama" "sql" true; wake "two" "llama" "sql" true; wake "one" "llama" "sql" false] in
  let s := reconcile_all sample_yaml ws NewAdaptersStore in
  configmapAdapters s = {[ ("default", "two") := {[ "sql" ]} ]} /\ getBaseModel s "sql" = EmptyString.
Proof. repeat split; vm_compute; reflexivity. Qed.
