(* ===== verification/Bbr.v ===== *)
(** Body-based routing (src/pkg/bbr): a second ext_proc server, which reads the
    body of a request and lets plugins set headers for the routing decision of
    the gateway.  Messages as plugins see them (framework/types.go), the two
    plugins (plugins/bodyfieldtoheader, plugins/basemodelextractor), the handlers
    and the stream (handlers/server.go, request.go, response.go), the flags
    (config/spec.go, server/options.go) and the choice of the plugins
    (src/cmd/bbr/runner/runner.go).

    JSON decoding and encoding, the printing of a double, the order of a range
    loop over a map and whether a send succeeds are arguments. *)

From stdpp Require Import fin_maps gmap strings pretty.
From S2P Require Import Prelude Doubles Ordering Chunking ReqCtx AdaptersStore.

(** * Values of dynamic type, as [json.Unmarshal] makes them

    An object is sorted by its keys, the order in which [fmt] prints a map. *)

Inductive any :=
| ANull
| ABool (b : bool)
| ANumber (f : SpecFloat.spec_float)
| AString (s : string)
| AArray (l : list any)
| AObject (m : list (string * any)).

Abbreviation JSONObject := (gmap string any).

(** * Messages *)

(** A nil map is [None]. *)
Record InferenceMessage := mkMsg {
  im_Headers : gmap string string;
  im_Body : option JSONObject;
  mutatedHeaders : gmap string string;
  removedHeaders : gset string;
  bodyMutated : bool
}.

#[global] Instance eta_InferenceMessage : Eta InferenceMessage := fun m =>
  mkMsg (im_Headers m) (im_Body m) (mutatedHeaders m) (removedHeaders m) (bodyMutated m).

Definition newInferenceMessage : InferenceMessage := mkMsg ∅ (Some ∅) ∅ ∅ false.

Definition SetHeader (key value : string) (r : InferenceMessage) : InferenceMessage :=
  if bool_decide (im_Headers r !! key = Some value) then r
  else r <| im_Headers := <[key := value]> (im_Headers r) |>
         <| mutatedHeaders := <[key := value]> (mutatedHeaders r) |>
         <| removedHeaders := removedHeaders r ∖ {[ key ]} |>.

Definition RemoveHeader (key : string) (r : InferenceMessage) : InferenceMessage :=
  match im_Headers r !! key with
  | Some _ => r <| im_Headers := delete key (im_Headers r) |>
                <| mutatedHeaders := delete key (mutatedHeaders r) |>
                <| removedHeaders := {[ key ]} ∪ removedHeaders r |>
  | None => r
  end.

Definition SetBody (body : option JSONObject) (r : InferenceMessage) : InferenceMessage :=
  r <| im_Body := body |> <| bodyMutated := true |>.

(** Writing to a nil map panics. *)
Definition SetBodyField (key : string) (value : any) : M InferenceMessage unit :=
  body <~ read im_Body ;;
  body <~ deref body ;;
  modify (fun r => r <| im_Body := Some (<[key := value]> body) |> <| bodyMutated := true |>).

Definition RemoveBodyField (key : string) (r : InferenceMessage) : InferenceMessage :=
  match im_Body r ≫= lookup key with
  | Some _ => r <| im_Body := delete key <$> im_Body r |> <| bodyMutated := true |>
  | None => r
  end.

(** * Storage shared by the plugins of one stream *)

Section CycleState.

Context {V : Type}.

Definition CycleState := gmap string V.

Definition NewCycleState : CycleState := ∅.

Definition ErrNotFound : goerror := ErrOther status_Unknown "not found".

Definition CycleState_Read (c : CycleState) (key : string) : V + goerror :=
  match c !! key with Some v => inl v | None => inr ErrNotFound end.

Definition CycleState_Write (key : string) (val : V) (c : CycleState) : CycleState := <[key := val]> c.

Definition CycleState_Delete (key : string) (c : CycleState) : CycleState := delete key c.

(** [assert] is the type assertion. *)
Definition ReadCycleStateKey {T} (assert : V -> option T) (c : CycleState) (key : string) : T + goerror :=
  match CycleState_Read c key with
  | inr err => inr err
  | inl raw => match assert raw with
               | Some val => inl val
               | None => inr (ErrOther status_Unknown ("unexpected type for key " +:+ key))
               end
  end.

End CycleState.
Arguments CycleState V : clear implicits.

(** * Plugins *)

Definition BodyFieldToHeaderPluginType : string := "body-field-to-header".
Definition ModelHeader : string := "X-Gateway-Model-Name".
Definition BaseModelToHeaderPluginType : string := "base-model-to-header".
Definition BaseModelHeader : string := "X-Gateway-Base-Model-Name".
Definition modelField : string := "model".

(** A processor changes the storage of the stream and the message. *)
Abbreviation processor V := (M (CycleState V * InferenceMessage) unit).

Definition on_message {V} (f : InferenceMessage -> InferenceMessage) : processor V :=
  modify (fun '(c, m) => (c, f m)).

(** The in-tree plugins. *)
Inductive BBRPlugin :=
| BodyFieldToHeaderPlugin (name fieldName headerName : string)
| BaseModelToHeaderPlugin (name : string).

Definition NewBodyFieldToHeaderPlugin (fieldName headerName : string) : BBRPlugin + string :=
  if String.eqb fieldName EmptyString then inr "fieldName is required for plugin 'body-field-to-header'"
  else if String.eqb headerName EmptyString then inr "headerName is required for plugin 'body-field-to-header'"
  else inl (BodyFieldToHeaderPlugin BodyFieldToHeaderPluginType fieldName headerName).

Definition WithName (name : string) (p : BBRPlugin) : BBRPlugin :=
  match p with
  | BodyFieldToHeaderPlugin _ f h => BodyFieldToHeaderPlugin name f h
  | BaseModelToHeaderPlugin _ => BaseModelToHeaderPlugin name
  end.

Section Plugins.

(** [fmt.Sprintf("%v", f)] of a double. *)
Variable fmt_float : SpecFloat.spec_float -> string.

(** [fmt.Sprintf("%v", v)] *)
Fixpoint fmt_v (v : any) : string :=
  match v with
  | ANull => "<nil>"
  | ABool b => if b then "true" else "false"
  | ANumber f => fmt_float f
  | AString s => s
  | AArray l => "[" +:+ String.concat " " (List.map fmt_v l) +:+ "]"
  | AObject m => "map[" +:+ String.concat " " (List.map (fun kv => kv.1 +:+ ":" +:+ fmt_v kv.2) m) +:+ "]"
  end.

Definition BodyFieldToHeader_ProcessRequest {V} (fieldName headerName : string) : processor V :=
  rawFieldValue <~ read (fun s => im_Body s.2 ≫= lookup fieldName) ;;
  match rawFieldValue with
  | None => ret tt
  | Some v =>
      let fieldStr := fmt_v v in
      if String.eqb fieldStr EmptyString then ret tt
      else on_message (SetHeader headerName fieldStr)
  end.

(** [store] is the adapters store as it is when the plugin runs. *)
Definition BaseModelToHeader_ProcessRequest {V} (store : adaptersStoreImpl) : processor V :=
  rawFieldValue <~ read (fun s => im_Body s.2 ≫= lookup modelField) ;;
  match rawFieldValue with
  | None => ret tt
  | Some v => on_message (SetHeader BaseModelHeader (getBaseModel store (fmt_v v)))
  end.

Definition ProcessRequest {V} (store : adaptersStoreImpl) (p : BBRPlugin) : processor V :=
  match p with
  | BodyFieldToHeaderPlugin _ f h => BodyFieldToHeader_ProcessRequest f h
  | BaseModelToHeaderPlugin _ => BaseModelToHeader_ProcessRequest store
  end.

End Plugins.

(** * Flags and the choice of the plugins *)

Record BBRPluginSpec := {
  sp_Type : string;
  sp_Name : string;
  sp_JSON : string;
  sp_Raw : string
}.

(** The text before the first colon, and the text after it. *)
Fixpoint cut_colon (s : string) : string * option string :=
  match s with
  | EmptyString => (EmptyString, None)
  | String c t =>
      if Ascii.eqb c (Ascii.ascii_of_nat 58) then (EmptyString, Some t)
      else let '(a, r) := cut_colon t in (String c a, r)
  end.

(** [strings.SplitN(s, ":", n + 1)] *)
Fixpoint SplitN (n : nat) (s : string) : list string :=
  match n with
  | O => [s]
  | S n => match cut_colon s with
           | (a, None) => [a]
           | (a, Some rest) => a :: SplitN n rest
           end
  end.

Definition BBRPluginSpecs_String (specs : list BBRPluginSpec) : string := String.concat " " (sp_Raw <$> specs).

Record Options := {
  GRPCPort : Z;
  GRPCHealthPort : Z;
  MetricsPort : Z
}.

Definition port_ok (port : Z) : bool := negb ((port <? 1) || (65535 <? port)).

(** [None] is success; [logging] is the verdict on the logging options. *)
Definition Options_Validate (logging : option string) (opts : Options) : option string :=
  let check name port := if port_ok port then None
    else Some ("invalid value " +:+ pretty port +:+ " for flag " +:+ name +:+ ": must be between 1 and 65535") in
  match check "grpc-port" (GRPCPort opts), check "grpc-health-port" (GRPCHealthPort opts),
        check "metrics-port" (MetricsPort opts) with
  | Some e, _, _ | None, Some e, _ | None, None, Some e => Some e
  | None, None, None =>
      let ports : gset Z := {[ GRPCPort opts; GRPCHealthPort opts; MetricsPort opts ]} in
      if Nat.ltb (size ports) 3 then Some "port conflict: the three ports must all be different"
      else logging
  end.

Definition FactoryFunc : Type := string -> string -> BBRPlugin + string.

(** How the start-up ends: with the plugins, or [Run] returns. *)
Inductive startup :=
| Serve (requestPlugins : list BBRPlugin)
| RunReturns (err : option string).

Section Runner.

(** [json.Valid], and [json.Unmarshal] into the configuration of the plugin that
    copies a field: the names of the field and of the header. *)
Variable json_Valid : string -> bool.
Variable json_Config : string -> (string * string) + string.

(** Registering the config map reconciler with the manager. *)
Variable reconciler_Complete : option string.

Definition BBRPluginSpecs_Set (p : list BBRPluginSpec) (s : string) : list BBRPluginSpec + string :=
  let add ty name js :=
    inl (p ++ [{| sp_Type := ty; sp_Name := name; sp_JSON := js; sp_Raw := s |}]) in
  match SplitN 2 s with
  | ty :: name :: rest =>
      let ty := strings_TrimSpace ty in
      let name := strings_TrimSpace name in
      if String.eqb ty EmptyString then inr "bbr plugin type cannot be empty"
      else if String.eqb name EmptyString then inr "bbr plugin name cannot be empty"
      else match rest with
           | [js] =>
               let jsonSegment := strings_TrimSpace js in
               if negb (String.eqb jsonSegment EmptyString) && negb (json_Valid jsonSegment)
               then inr "invalid json" else add ty name jsonSegment
           | _ => add ty name EmptyString
           end
  | _ => inr "usage: --plugin <type>:<name>:<json>"
  end.

Definition BodyFieldToHeaderPluginFactory : FactoryFunc := fun name rawParameters =>
  match (if String.eqb rawParameters EmptyString then inl (EmptyString, EmptyString)
         else json_Config rawParameters) with
  | inr err => inr ("failed to parse the parameters of the 'body-field-to-header' plugin - " +:+ err)
  | inl (fieldName, headerName) =>
      match NewBodyFieldToHeaderPlugin fieldName headerName with
      | inr err => inr ("failed to create 'body-field-to-header' plugin - " +:+ err)
      | inl plugin => inl (WithName name plugin)
      end
  end.

Definition NewBaseModelToHeaderPlugin : BBRPlugin + string :=
  match reconciler_Complete with
  | Some err => inr ("failed to register configmap reconciler for plugin 'base-model-to-header' - " +:+ err)
  | None => inl (BaseModelToHeaderPlugin BaseModelToHeaderPluginType)
  end.

Definition BaseModelToHeaderPluginFactory : FactoryFunc := fun name _ =>
  match NewBaseModelToHeaderPlugin with
  | inr err => inr ("failed to create plugin 'base-model-to-header' - " +:+ err)
  | inl plugin => inl (WithName name plugin)
  end.

Definition registerInTreePlugins (Registry : gmap string FactoryFunc) : gmap string FactoryFunc :=
  <[BaseModelToHeaderPluginType := BaseModelToHeaderPluginFactory]>
    (<[BodyFieldToHeaderPluginType := BodyFieldToHeaderPluginFactory]> Registry).

(** The loop over the flags.  An unknown type returns the error of the enclosing
    function, which is nil at this point. *)
Fixpoint instantiate (Registry : gmap string FactoryFunc) (specs : list BBRPluginSpec)
    (requestPlugins : list BBRPlugin) : startup :=
  match specs with
  | [] => Serve requestPlugins
  | s :: specs =>
      match Registry !! sp_Type s with
      | None => RunReturns None
      | Some factory =>
          match factory (sp_Name s) (sp_JSON s) with
          | inr err => RunReturns (Some err)
          | inl instance => instantiate Registry specs (requestPlugins ++ [instance])
          end
      end
  end.

Definition choose_plugins (Registry : gmap string FactoryFunc) (PluginSpecs : list BBRPluginSpec) : startup :=
  match PluginSpecs with
  | [] =>
      match NewBodyFieldToHeaderPlugin modelField ModelHeader with
      | inr err => RunReturns (Some err)
      | inl modelToHeaderPlugin =>
          match NewBaseModelToHeaderPlugin with
          | inr err => RunReturns (Some err)
          | inl baseModelToHeaderPlugin => Serve [modelToHeaderPlugin; baseModelToHeaderPlugin]
          end
      end
  | _ => instantiate (registerInTreePlugins Registry) PluginSpecs []
  end.

End Runner.

(** * The protocol *)

Record HttpHeaders := { hh_Headers : option (list HeaderValue); hh_EndOfStream : bool }.

Inductive Incoming :=
| InRequestHeaders (headers : option HttpHeaders)
| InRequestBody (body : bytes) (eos : bool)
| InRequestTrailers
| InResponseHeaders (headers : option HttpHeaders)
| InResponseBody (body : bytes) (eos : bool)
| InResponseTrailers
| InUnknown.

Inductive BodyMutation :=
| MutBody (body : bytes)
| MutStreamed (r : StreamedBodyResponse).

Record CommonResponse := mkCommon {
  ClearRouteCache : bool;
  SetHeaders : list (string * string);
  RemoveHeaders : list string;
  cr_BodyMutation : option BodyMutation
}.

(** What goes to Envoy; [None] is an empty answer. *)
Inductive Outgoing :=
| OutRequestHeaders (r : option CommonResponse)
| OutRequestBody (r : option CommonResponse)
| OutRequestTrailers
| OutResponseHeaders (r : option CommonResponse)
| OutResponseBody (r : option CommonResponse)
| OutResponseTrailers
| OutImmediate (r : ProcessingResponse).

(** * The server *)

(** One stream: the request context, the buffers and what was sent. *)
Record conn (V : Type) := mkConn {
  cn_received : Z;
  cn_cycle : CycleState V;
  cn_Request : InferenceMessage;
  cn_Response : InferenceMessage;
  cn_requestBody : bytes;
  cn_responseBody : bytes;
  cn_sent : list Outgoing
}.
Arguments mkConn {V} _ _ _ _ _ _ _.
Arguments cn_received {V} _.
Arguments cn_cycle {V} _.
Arguments cn_Request {V} _.
Arguments cn_Response {V} _.
Arguments cn_requestBody {V} _.
Arguments cn_responseBody {V} _.
Arguments cn_sent {V} _.

#[global] Instance eta_conn V : Eta (conn V) := fun s =>
  mkConn (cn_received s) (cn_cycle s) (cn_Request s) (cn_Response s) (cn_requestBody s) (cn_responseBody s) (cn_sent s).

Definition new_conn {V} : conn V := mkConn 0 NewCycleState newInferenceMessage newInferenceMessage [] [] [].

Inductive input :=
| CtxDone
| RecvEOF
| RecvFails (msg : string)
| Recv (now : Z) (req : Incoming).

Inductive outcome :=
| Running
| Returned (err : option goerror)
| Panicked.

Definition contentLengthHeader : string := "Content-Length".

(** The headers of a message from Envoy, stored in order. *)
Definition store_headers (headers : option HttpHeaders) (m : gmap string string) : gmap string string :=
  foldl (fun m h => <[hv_Key h := GetHeaderValue h]> m) m (default [] (headers ≫= hh_Headers)).

Definition GetEndOfStream (headers : option HttpHeaders) : bool :=
  match headers with Some h => hh_EndOfStream h | None => false end.

Section Server.

Context {V : Type}.

Variable streaming : bool.
Variable requestPlugins responsePlugins : list (processor V).

(** [json.Unmarshal] into a map, which it extends and may change even when it
    fails; and [json.Marshal]. *)
Variable json_Unmarshal : bytes -> option JSONObject -> option JSONObject * option string.
Variable json_Marshal : option JSONObject -> bytes + string.

Variable range : gmap string string -> list (string * string).
Variable UnsortedList : gset string -> list string.
Variable send_ok : list Outgoing -> Outgoing -> bool.

Abbreviation S := (M (conn V)).

Definition GenerateHeadersMutation (headers : gmap string string) : list (string * string) := range headers.

(** The mutations of a message, without a body. *)
Definition header_mutation (m : InferenceMessage) : CommonResponse :=
  mkCommon true (GenerateHeadersMutation (mutatedHeaders m)) (UnsortedList (removedHeaders m)) None.

Definition streamed (r : StreamedBodyResponse) : CommonResponse := mkCommon false [] [] (Some (MutStreamed r)).

Definition addStreamedBodyResponse (responses : list Outgoing) (requestBodyBytes : bytes) : S (list Outgoing) :=
  chunks <~ deref (BuildChunkedBodyResponses requestBodyBytes true) ;;
  ret (responses ++ ((fun r => OutRequestBody (Some (streamed r))) <$> chunks)).

Definition AddStreamedResponseBody (responses : list Outgoing) (responseBodyBytes : bytes) : S (list Outgoing) :=
  chunks <~ deref (BuildChunkedBodyResponses responseBodyBytes true) ;;
  ret (responses ++ ((fun r => OutResponseBody (Some (streamed r))) <$> chunks)).

Definition HandleRequestHeaders (now : Z) (headers : option HttpHeaders) : S (list Outgoing) :=
  modify (fun s => s <| cn_received := now |>) ;;;
  modify (fun s => s <| cn_Request := cn_Request s
                          <| im_Headers := store_headers headers (im_Headers (cn_Request s)) |> |>) ;;;
  if streaming && negb (GetEndOfStream headers) then ret [] else ret [OutRequestHeaders None].

Definition runRequestPlugins : S unit := fun s =>
  let '((c, m), r) := each (fun plugin => plugin) requestPlugins (cn_cycle s, cn_Request s) in
  (s <| cn_cycle := c |> <| cn_Request := m |>, r).

Definition runResponsePlugins : S unit := fun s =>
  let '((c, m), r) := each (fun plugin => plugin) responsePlugins (cn_cycle s, cn_Response s) in
  (s <| cn_cycle := c |> <| cn_Response := m |>, r).

(** The body to forward: encoded again if a plugin changed it. *)
Definition mutated_body (wrap : string -> string) (m : InferenceMessage) : S (option bytes) :=
  if bodyMutated m then
    match json_Marshal (im_Body m) with
    | inl b => ret (Some b)
    | inr err => fail (ErrOther status_Unknown (wrap err))
    end
  else ret None.

Definition set_content_length (b : bytes) (m : InferenceMessage) : InferenceMessage :=
  SetHeader contentLengthHeader (pretty (Z.of_nat (length b))) m.

Definition HandleRequestBody (requestBodyBytes : bytes) : S (list Outgoing) :=
  m <~ read cn_Request ;;
  let '(body, err) := json_Unmarshal requestBodyBytes (im_Body m) in
  modify (fun s => s <| cn_Request := m <| im_Body := body |> |>) ;;;
  match err with
  | Some err => fail (Err BadRequest ("failed to parse request body: " +:+ err))
  | None =>
      runRequestPlugins ;;;
      m <~ read cn_Request ;;
      mutatedBodyBytes <~ mutated_body (fun err => err) m ;;
      modify (fun s => s <| cn_Request :=
        match mutatedBodyBytes with
        | Some b => set_content_length b m
        | None => if streaming then set_content_length requestBodyBytes m else m
        end |>) ;;;
      m <~ read cn_Request ;;
      if streaming then
        addStreamedBodyResponse [OutRequestHeaders (Some (header_mutation m))]
          (default requestBodyBytes mutatedBodyBytes)
      else ret [OutRequestBody (Some (mkCommon true (SetHeaders (header_mutation m)) (RemoveHeaders (header_mutation m))
                                        (MutBody <$> mutatedBodyBytes)))]
  end.

Definition HandleRequestTrailers : S (list Outgoing) := ret [OutRequestTrailers].

Definition HandleResponseHeaders (headers : option HttpHeaders) : S (list Outgoing) :=
  modify (fun s => s <| cn_Response := cn_Response s
                          <| im_Headers := store_headers headers (im_Headers (cn_Response s)) |> |>) ;;;
  if streaming && negb (GetEndOfStream headers) then ret [] else ret [OutResponseHeaders None].

Definition generateEmptyResponseBodyResponse (responseBodyBytes : bytes) : S (list Outgoing) :=
  AddStreamedResponseBody [OutResponseHeaders None] responseBodyBytes.

(** The body goes on as it is. *)
Definition pass_response (responseBodyBytes : bytes) : S (list Outgoing) :=
  if streaming then generateEmptyResponseBodyResponse responseBodyBytes else ret [OutResponseBody None].

Definition HandleResponseBody (responseBodyBytes : bytes) : S (list Outgoing) :=
  match responsePlugins with
  | [] => pass_response responseBodyBytes
  | _ =>
      m <~ read cn_Response ;;
      let '(body, err) := json_Unmarshal responseBodyBytes (im_Body m) in
      modify (fun s => s <| cn_Response := m <| im_Body := body |> |>) ;;;
      match err with
      | Some _ => pass_response responseBodyBytes
      | None =>
          runResponsePlugins ;;;
          m <~ read cn_Response ;;
          mutatedBytes <~ mutated_body (fun err => "failed to marshal mutated response body - " +:+ err) m ;;
          modify (fun s => s <| cn_Response :=
            match mutatedBytes with Some b => set_content_length b m | None => m end |>) ;;;
          m <~ read cn_Response ;;
          if streaming then
            AddStreamedResponseBody [OutResponseHeaders (Some (header_mutation m))]
              (default responseBodyBytes mutatedBytes)
          else ret [OutResponseBody (Some (mkCommon true (SetHeaders (header_mutation m))
                                             (RemoveHeaders (header_mutation m)) (MutBody <$> mutatedBytes)))]
      end
  end.

Definition HandleResponseTrailers : S (list Outgoing) := ret [OutResponseTrailers].

Definition errSend : goerror := ErrOther status_Unknown "failed to send response back to Envoy".

Definition Send (r : Outgoing) : S unit := fun s =>
  if send_ok (cn_sent s) r then (s <| cn_sent := cn_sent s ++ [r] |>, Ret tt) else (s, Fails errSend).

(** The switch over the messages; [None] is the unknown type. *)
Definition handle (now : Z) (req : Incoming) : option (S (list Outgoing)) :=
  match req with
  | InRequestHeaders headers => Some (HandleRequestHeaders now headers)
  | InRequestBody body eos => Some (
      modify (fun s => s <| cn_requestBody := cn_requestBody s ++ body |>) ;;;
      if streaming && negb eos then ret []
      else requestBody <~ read cn_requestBody ;; HandleRequestBody requestBody)
  | InRequestTrailers => Some HandleRequestTrailers
  | InResponseHeaders headers => Some (HandleResponseHeaders headers)
  | InResponseBody body eos => Some (
      modify (fun s => s <| cn_responseBody := cn_responseBody s ++ body |>) ;;;
      if streaming && negb eos then ret []
      else responseBody <~ read cn_responseBody ;; HandleResponseBody responseBody)
  | InResponseTrailers => Some HandleResponseTrailers
  | InUnknown => None
  end.

(** One turn of the loop. *)
Definition turn (i : input) (s : conn V) : conn V * outcome :=
  match i with
  | CtxDone => (s, Returned (Some (ErrOther 1 "context canceled")))
  | RecvEOF => (s, Returned None)
  | RecvFails msg => (s, Returned (Some (ErrOther status_Unknown ("cannot receive stream request: " +:+ msg))))
  | Recv now req =>
      match handle now req with
      | None => (s, Returned (Some (ErrOther status_Unknown "unknown request type")))
      | Some m =>
          match m s with
          | (s, Panics) => (s, Panicked)
          | (s, Fails e) =>
              match BuildErrResponse e with
              | inr e' => (s, Returned (Some e'))
              | inl resp => match Send (OutImmediate resp) s with
                            | (s, Ret _) => (s, Returned None)
                            | (s, Fails e') => (s, Returned (Some e'))
                            | (s, Panics) => (s, Panicked)
                            end
              end
          | (s, Ret responses) =>
              match each Send responses s with
              | (s, Ret _) => (s, Running)
              | (s, Fails e') => (s, Returned (Some e'))
              | (s, Panics) => (s, Panicked)
              end
          end
      end
  end.

Fixpoint process_loop (inputs : list input) (s : conn V) : conn V * outcome :=
  match inputs with
  | [] => (s, Running)
  | i :: inputs =>
      match turn i s with
      | (s, Running) => process_loop inputs s
      | (s, o) => (s, o)
      end
  end.

(** The stream after the inputs; [Running] while it waits for more. *)
Definition Process (inputs : list input) : conn V * outcome := process_loop inputs new_conn.

End Server.
