(* ===== verification/BbrProps.v ===== *)
(** Body-based routing: what Envoy ends up with.  The mutations a message carries
    replay the changes plugins made; a request is forwarded with them, or answered
    with an error; the default plugins route it by its model. *)

From stdpp Require Import fin_maps gmap strings pretty.
From S2P Require Import Prelude Ordering Chunking ReqCtx AdaptersStore Bbr.

(** * Envoy *)

(** Envoy removes headers and sets headers. *)
Definition envoy_apply (r : CommonResponse) (H : gmap string string) : gmap string string :=
  foldl (fun H kv => <[kv.1 := kv.2]> H) (foldl (fun H k => delete k H) H (RemoveHeaders r)) (SetHeaders r).

Definition request_answer (o : Outgoing) : option CommonResponse :=
  match o with OutRequestHeaders r | OutRequestBody r => r | _ => None end.

(** The headers of the request after the answers. *)
Definition envoy_headers (H : gmap string string) (rs : list Outgoing) : gmap string string :=
  foldl (fun H r => envoy_apply r H) H (omap request_answer rs).

Definition mutation_bytes (b : BodyMutation) : bytes :=
  match b with MutBody b => b | MutStreamed r => Body r end.

(** The body of the request after the answers: that of the client, unless there
    is a mutation. *)
Definition envoy_body (B : bytes) (rs : list Outgoing) : bytes :=
  match omap cr_BodyMutation (omap request_answer rs) with
  | [] => B
  | l => l ≫= mutation_bytes
  end.

(** * Messages *)

(** The mutations of a message replay the changes to the headers [H]. *)
Definition replays (H : gmap string string) (m : InferenceMessage) : Prop :=
  (forall k, im_Headers m !! k = match mutatedHeaders m !! k with
                                 | Some v => Some v
                                 | None => if decide (k ∈ removedHeaders m) then None else H !! k
                                 end) /\
  (forall k, k ∈ removedHeaders m -> mutatedHeaders m !! k = None).

Lemma SetHeader_view k v m : im_Headers (SetHeader k v m) = <[k := v]> (im_Headers m).
Proof. unfold SetHeader. case_bool_decide as Hk; [by rewrite insert_id|done]. Qed.

Lemma SetHeader_replays H k v m : replays H m -> replays H (SetHeader k v m).
Proof.
  intros [HV HD]. unfold SetHeader. case_bool_decide as Hk; [done|]. split; intros k'; cbn.
  - destruct (decide (k' = k)) as [->|Hne].
    + by rewrite !lookup_insert_eq.
    + rewrite !lookup_insert_ne, HV by done. case_match; [done|].
      repeat case_decide; set_solver.
  - intros [Hr Hne]%elem_of_difference. rewrite lookup_insert_ne by set_solver. by apply HD.
Qed.

Lemma RemoveHeader_replays H k m : replays H m -> replays H (RemoveHeader k m).
Proof.
  intros [HV HD]. unfold RemoveHeader. destruct (im_Headers m !! k) eqn:Hk; [|done]. split; intros k'; cbn.
  - destruct (decide (k' = k)) as [->|Hne].
    + rewrite !lookup_delete_eq. by rewrite decide_True by set_solver.
    + rewrite !lookup_delete_ne, HV by done. case_match; [done|]. repeat case_decide; set_solver.
  - intros [->%elem_of_singleton|Hr]%elem_of_union; [by rewrite lookup_delete_eq|].
    apply lookup_delete_None. right. by apply HD.
Qed.

(** A change that leaves the headers alone. *)
Lemma replays_same H m m' :
  im_Headers m' = im_Headers m -> mutatedHeaders m' = mutatedHeaders m -> removedHeaders m' = removedHeaders m ->
  replays H m -> replays H m'.
Proof. unfold replays. by intros -> -> ->. Qed.

Lemma fresh_replays H body : replays H (mkMsg H body ∅ ∅ false).
Proof.
  split; intros k; cbn [im_Headers mutatedHeaders removedHeaders].
  - by rewrite lookup_empty, decide_False by set_solver.
  - set_solver.
Qed.

(** The ways a plugin may change a message. *)
Inductive message_op :=
| OpSetHeader (key value : string)
| OpRemoveHeader (key : string)
| OpSetBody (body : option JSONObject)
| OpSetBodyField (key : string) (value : any)
| OpRemoveBodyField (key : string).

Definition message_step (op : message_op) : M InferenceMessage unit :=
  match op with
  | OpSetHeader k v => modify (SetHeader k v)
  | OpRemoveHeader k => modify (RemoveHeader k)
  | OpSetBody b => modify (SetBody b)
  | OpSetBodyField k v => SetBodyField k v
  | OpRemoveBodyField k => modify (RemoveBodyField k)
  end.

Lemma message_step_replays H op m : replays H m -> replays H (message_step op m).1.
Proof.
  intros HR. destruct op; cbn.
  - by apply SetHeader_replays.
  - by apply RemoveHeader_replays.
  - by eapply replays_same.
  - unfold SetBodyField, bind, read, deref, modify. destruct (im_Body m); [|done]. by eapply replays_same.
  - unfold RemoveBodyField. case_match; [|done]. by eapply replays_same.
Qed.

(** A processor that changes the message only through its methods. *)
Definition uses_methods {V} (p : processor V) : Prop :=
  forall c m, exists ops, (p (c, m)).1.2 = (each message_step ops m).1.

Lemma each_steps_replay H ops m : replays H m -> replays H (each message_step ops m).1.
Proof.
  revert m. induction ops as [|op ops IH]; intros m HR; [done|]. cbn [each].
  unfold bind. pose proof (message_step_replays H op m HR) as H1.
  destruct (message_step op m) as [m1 []]; cbn in *; [by apply IH|done|done].
Qed.

Lemma each_processors_replay {V} H (ps : list (processor V)) s :
  Forall uses_methods ps -> replays H s.2 -> replays H (each (fun p => p) ps s).1.2.
Proof.
  revert s. induction ps as [|p ps IH]; intros [c m] Hall HR; [done|]. inversion Hall as [|? ? Hp Hps]; subst.
  cbn [each]. unfold bind. destruct (Hp c m) as [ops Hops].
  assert (replays H (p (c, m)).1.2) as H1 by (rewrite Hops; by apply each_steps_replay).
  destruct (p (c, m)) as [[c1 m1] []]; cbn in *; [by apply IH|done|done].
Qed.

Lemma set_content_length_replays H b m : replays H m -> replays H (set_content_length b m).
Proof. apply SetHeader_replays. Qed.

(** ** Applying the mutations *)

Lemma foldl_insert (l : list (string * string)) (H : gmap string string) :
  NoDup l.*1 -> foldl (fun H kv => <[kv.1 := kv.2]> H) H l = list_to_map l ∪ H.
Proof.
  revert H. induction l as [|[k v] l IH]; intros H; [by rewrite list_to_map_nil, map_empty_union|].
  rewrite fmap_cons. intros [Hk Hl]%NoDup_cons. cbn [foldl fst snd]. rewrite IH by done.
  rewrite <- insert_union_r by by apply not_elem_of_list_to_map_1. cbn. by rewrite insert_union_l.
Qed.

Lemma lookup_foldl_delete (l : list string) (H : gmap string string) k :
  foldl (fun H k => delete k H) H l !! k = if decide (k ∈ l) then None else H !! k.
Proof.
  revert H. induction l as [|x l IH]; intros H; [by rewrite decide_False by apply not_elem_of_nil|].
  cbn [foldl]. rewrite IH. destruct (decide (k = x)) as [->|Hne].
  - rewrite lookup_delete_eq. repeat case_decide; set_solver.
  - rewrite lookup_delete_ne by done. repeat case_decide; set_solver.
Qed.

Section Mutations.

Variable range : gmap string string -> list (string * string).
Variable UnsortedList : gset string -> list string.
Hypothesis range_perm : forall m, range m ≡ₚ map_to_list m.
Hypothesis UnsortedList_perm : forall X, UnsortedList X ≡ₚ elements X.

Lemma envoy_apply_replays H m b :
  replays H m ->
  envoy_apply (mkCommon true (SetHeaders (header_mutation range UnsortedList m))
                 (RemoveHeaders (header_mutation range UnsortedList m)) b) H = im_Headers m.
Proof.
  intros [HV HD]. unfold envoy_apply, header_mutation, GenerateHeadersMutation. cbn.
  rewrite foldl_insert by (rewrite range_perm; apply NoDup_fst_map_to_list).
  rewrite <- (list_to_map_flip (mutatedHeaders m) (range (mutatedHeaders m))) by by rewrite range_perm.
  apply map_eq. intros k. rewrite HV, lookup_union, lookup_foldl_delete.
  destruct (mutatedHeaders m !! k) as [v|] eqn:Hm; [case_decide; [done|by destruct (H !! k)]|].
  rewrite left_id by apply _.
  assert (k ∈ UnsortedList (removedHeaders m) <-> k ∈ removedHeaders m) as Hiff
    by by rewrite UnsortedList_perm, elem_of_elements.
  repeat case_decide; tauto.
Qed.

End Mutations.

(** * A request through the server *)

(** A request with headers and a body in pieces. *)
Definition request_inputs (now : Z) (hs : list HeaderValue) (cs : list bytes) (last : bytes) : list input :=
  Recv now (InRequestHeaders (Some {| hh_Headers := Some hs; hh_EndOfStream := false |}))
  :: ((fun c => Recv now (InRequestBody c false)) <$> cs) ++ [Recv now (InRequestBody last true)].

(** The headers of the client, the last of each name. *)
Definition client_headers (hs : list HeaderValue) : gmap string string :=
  store_headers (Some {| hh_Headers := Some hs; hh_EndOfStream := false |}) ∅.

(** The stream ends with the error: as an immediate response if it has a status. *)
Definition refused {V} (sent : list Outgoing) (e : goerror) (s : conn V) (o : outcome) : Prop :=
  match BuildErrResponse e with
  | inl r => o = Returned None /\ cn_sent s = sent ++ [OutImmediate r]
  | inr e' => o = Returned (Some e') /\ cn_sent s = sent
  end.

(** The answers come in the order of the protocol: the headers, then the body,
    in pieces of which only the last ends the stream. *)
Definition in_order (streaming : bool) (rs : list Outgoing) : Prop :=
  if streaming then
    exists r init last,
      rs = OutRequestHeaders (Some r) :: ((fun c => OutRequestBody (Some (streamed c))) <$> init ++ [last]) /\
      EndOfStream last = true /\ Forall (fun c => EndOfStream c = false /\ length (Body c) = BodyByteLimit) init
  else exists r, rs = [OutRequestHeaders None; OutRequestBody (Some r)].

Lemma streamed_answers (chunks : list StreamedBodyResponse) :
  omap request_answer ((fun c => OutRequestBody (Some (streamed c))) <$> chunks) = streamed <$> chunks.
Proof. induction chunks as [|c chunks IH]; [done|]. rewrite !fmap_cons. cbn. by f_equal. Qed.

Lemma streamed_mutations (chunks : list StreamedBodyResponse) : omap cr_BodyMutation (streamed <$> chunks) = MutStreamed <$> chunks.
Proof. induction chunks as [|c chunks IH]; [done|]. rewrite !fmap_cons. cbn. by f_equal. Qed.

Lemma streamed_keep_headers (chunks : list StreamedBodyResponse) H : foldl (fun H r => envoy_apply r H) H (streamed <$> chunks) = H.
Proof. induction chunks as [|c chunks IH]; [done|]. rewrite fmap_cons. apply IH. Qed.

Lemma streamed_bytes (chunks : list StreamedBodyResponse) : (MutStreamed <$> chunks) ≫= mutation_bytes = reassemble chunks.
Proof. induction chunks as [|c chunks IH]; [done|]. rewrite fmap_cons, bind_cons, IH. done. Qed.

Section Contract.

Context {V : Type}.

Variable streaming : bool.
Variable requestPlugins responsePlugins : list (processor V).
Variable json_Unmarshal : bytes -> option JSONObject -> option JSONObject * option string.
Variable json_Marshal : option JSONObject -> bytes + string.
Variable range : gmap string string -> list (string * string).
Variable UnsortedList : gset string -> list string.
Variable send_ok : list Outgoing -> Outgoing -> bool.

Hypothesis range_perm : forall m, range m ≡ₚ map_to_list m.
Hypothesis UnsortedList_perm : forall X, UnsortedList X ≡ₚ elements X.
Hypothesis send_succeeds : forall sent r, send_ok sent r = true.
Hypothesis plugins_use_methods : Forall uses_methods requestPlugins.

Abbreviation turn := (turn streaming requestPlugins responsePlugins json_Unmarshal json_Marshal range UnsortedList send_ok).
Abbreviation loop := (process_loop streaming requestPlugins responsePlugins json_Unmarshal json_Marshal range UnsortedList send_ok).
Abbreviation Process := (Process streaming requestPlugins responsePlugins json_Unmarshal json_Marshal range UnsortedList send_ok).

(** The body to forward after the plugins left [m]. *)
Definition forwarded_body (B : bytes) (m : InferenceMessage) : bytes + string :=
  if bodyMutated m then json_Marshal (im_Body m) else inl B.

(** The request goes on with the headers the plugins left, its length and the
    body [b]. *)
Definition forwarded (H : gmap string string) (B b : bytes) (m : InferenceMessage) (sent : list Outgoing) : Prop :=
  envoy_headers H sent =
    (if streaming || bodyMutated m then <[contentLengthHeader := pretty (Z.of_nat (length b))]> (im_Headers m)
     else im_Headers m) /\
  envoy_body B sent = b /\
  in_order streaming sent.

(** What becomes of a request with headers [H] and body [B]. *)
Definition answered (H : gmap string string) (B : bytes) (s : conn V) (o : outcome) : Prop :=
  let sent := if streaming then [] else [OutRequestHeaders None] in
  match json_Unmarshal B (Some ∅) with
  | (_, Some err) =>
      o = Returned None /\
      exists msg, cn_sent s = sent ++ [OutImmediate (PImmediateResponse 400 msg)]
  | (body, None) =>
      match each (fun plugin => plugin) requestPlugins (∅, mkMsg H body ∅ ∅ false) with
      | (_, Panics) => o = Panicked /\ cn_sent s = sent
      | (_, Fails e) => refused sent e s o
      | ((_, m), Ret _) =>
          match forwarded_body B m with
          | inr err => refused sent (ErrOther status_Unknown err) s o
          | inl b => o = Running /\ forwarded H B b m (cn_sent s)
          end
      end
  end.

Lemma each_Send rs (s : conn V) :
  each (Send send_ok) rs s = (s <| cn_sent := cn_sent s ++ rs |>, Ret tt).
Proof.
  revert s. induction rs as [|r rs IH]; intros [a b c d e f g]; cbn [each].
  - unfold ret. cbn. by rewrite app_nil_r.
  - unfold bind, Send. rewrite send_succeeds. rewrite IH. cbn. by rewrite <- app_assoc.
Qed.

Lemma loop_last i s : loop [i] s = turn i s.
Proof. cbn [process_loop]. destruct (Bbr.turn _ _ _ _ _ _ _ _ i s) as [s' []]; done. Qed.

Lemma loop_headers now hs rest :
  loop (Recv now (InRequestHeaders (Some {| hh_Headers := Some hs; hh_EndOfStream := false |})) :: rest) new_conn
  = loop rest (mkConn now ∅ (mkMsg (client_headers hs) (Some ∅) ∅ ∅ false) newInferenceMessage [] []
                 (if streaming then [] else [OutRequestHeaders None])).
Proof.
  cbn [process_loop]. unfold Bbr.turn. cbn [handle]. unfold HandleRequestHeaders, bind, modify.
  cbn [GetEndOfStream hh_EndOfStream negb]. rewrite andb_true_r.
  destruct streaming; unfold ret; by rewrite each_Send.
Qed.

Lemma loop_chunks now cs rest (s : conn V) :
  streaming = true ->
  loop (((fun c => Recv now (InRequestBody c false)) <$> cs) ++ rest) s
  = loop rest (s <| cn_requestBody := cn_requestBody s ++ mjoin cs |>).
Proof.
  intros Hst. revert s. induction cs as [|c cs IH]; intros [a1 a2 a3 a4 a5 a6 a7].
  - cbn. by rewrite app_nil_r.
  - rewrite fmap_cons. cbn [app process_loop]. unfold Bbr.turn. cbn [handle]. unfold bind, modify, ret.
    replace (streaming && negb false) with true by by rewrite Hst. rewrite each_Send, IH. cbn. by rewrite app_nil_r, <- app_assoc.
Qed.

(** The message the answers are made from. *)
Definition final_message (B : bytes) (mutated : option bytes) (m : InferenceMessage) : InferenceMessage :=
  match mutated with
  | Some b => set_content_length b m
  | None => if streaming then set_content_length B m else m
  end.

Lemma final_message_replays H B mutated m : replays H m -> replays H (final_message B mutated m).
Proof. intros. unfold final_message. repeat case_match; by try apply set_content_length_replays. Qed.

Lemma final_message_view B mutated m :
  bodyMutated m = (match mutated with Some _ => true | None => false end) ->
  im_Headers (final_message B mutated m) =
  if streaming || bodyMutated m
  then <[contentLengthHeader := pretty (Z.of_nat (length (default B mutated)))]> (im_Headers m) else im_Headers m.
Proof.
  intros ->. unfold final_message, set_content_length. destruct mutated; cbn.
  - by rewrite orb_true_r, SetHeader_view.
  - rewrite orb_false_r. destruct streaming; [by rewrite SetHeader_view|done].
Qed.

(** The answers to a body, after the answer to the headers. *)
Lemma answers_forward H B mutated m (s : conn V) :
  replays H m -> bodyMutated m = (match mutated with Some _ => true | None => false end) ->
  exists rs,
    (if streaming then
       addStreamedBodyResponse [OutRequestHeaders (Some (header_mutation range UnsortedList (final_message B mutated m)))]
         (default B mutated)
     else ret [OutRequestBody (Some (mkCommon true
            (SetHeaders (header_mutation range UnsortedList (final_message B mutated m)))
            (RemoveHeaders (header_mutation range UnsortedList (final_message B mutated m)))
            (MutBody <$> mutated)))]) s = (s, Ret rs) /\
    forwarded H B (default B mutated) m ((if streaming then [] else [OutRequestHeaders None]) ++ rs).
Proof.
  intros HR Hmut. unfold forwarded. rewrite <- (final_message_view B mutated m Hmut).
  apply (final_message_replays H B mutated) in HR. set (m' := final_message B mutated m) in *.
  destruct streaming; cbn [app].
  - destruct (BuildChunked_spec (default B mutated) true) as (chunks & Hc & Hre & _ & init & last & Hl & He & Hi).
    unfold addStreamedBodyResponse. rewrite Hc. cbn [deref]. unfold bind, ret. eexists. split; [reflexivity|].
    cbn [app]. unfold envoy_headers, envoy_body. cbn [omap list_omap request_answer].
    rewrite streamed_answers. split; [|split].
    + cbn [foldl]. rewrite streamed_keep_headers.
      exact (envoy_apply_replays range UnsortedList range_perm UnsortedList_perm H m' None HR).
    + cbn [omap list_omap header_mutation cr_BodyMutation]. rewrite streamed_mutations.
      rewrite Hl, <- Hre, <- streamed_bytes, Hl. by destruct init.
    + exists (header_mutation range UnsortedList m'), init, last. by rewrite Hl.
  - eexists. split; [reflexivity|]. cbn [app]. unfold envoy_headers, envoy_body. cbn. split; [|split].
    + exact (envoy_apply_replays range UnsortedList range_perm UnsortedList_perm H m' (MutBody <$> mutated) HR).
    + destruct mutated; cbn; [by rewrite app_nil_r|done].
    + by eexists.
Qed.

Lemma mutated_body_spec wrap m (s : conn V) :
  mutated_body json_Marshal wrap m s =
  (s, match (if bodyMutated m then Some (json_Marshal (im_Body m)) else None) with
      | Some (inl b) => Ret (Some b)
      | Some (inr err) => Fails (ErrOther status_Unknown (wrap err))
      | None => Ret None
      end).
Proof. unfold mutated_body. destruct (bodyMutated m); [|done]. by destruct (json_Marshal (im_Body m)). Qed.

(** What the handler of the body returns. *)
Definition handled (H : gmap string string) (B : bytes) (r : result (list Outgoing)) : Prop :=
  match json_Unmarshal B (Some ∅) with
  | (_, Some err) => exists msg, r = Fails (Err BadRequest msg)
  | (body, None) =>
      match each (fun plugin => plugin) requestPlugins (∅, mkMsg H body ∅ ∅ false) with
      | (_, Panics) => r = Panics
      | (_, Fails e) => r = Fails e
      | ((_, m), Ret _) =>
          match forwarded_body B m with
          | inr err => r = Fails (ErrOther status_Unknown err)
          | inl b => exists rs, r = Ret rs /\
                       forwarded H B b m ((if streaming then [] else [OutRequestHeaders None]) ++ rs)
          end
      end
  end.

Lemma HandleRequestBody_spec H B (s : conn V) :
  cn_Request s = mkMsg H (Some ∅) ∅ ∅ false -> cn_cycle s = ∅ ->
  exists s' r,
    HandleRequestBody streaming requestPlugins json_Unmarshal json_Marshal range UnsortedList B s = (s', r) /\
    cn_sent s' = cn_sent s /\ cn_responseBody s' = cn_responseBody s /\ handled H B r.
Proof.
  intros Hreq Hcyc. unfold HandleRequestBody, handled, runRequestPlugins. unfold bind, modify, read, fail.
  rewrite Hreq. cbn [im_Body]. destruct (json_Unmarshal B (Some ∅)) as [body [err|]].
  { do 2 eexists. split; [reflexivity|]. eauto. }
  cbn.
  pose proof (each_processors_replay H requestPlugins (∅, mkMsg H body ∅ ∅ false) plugins_use_methods) as HR.
  rewrite Hcyc. destruct (each _ requestPlugins _) as [[c m] [[]|e|]]; [|by do 2 eexists|by do 2 eexists].
  assert (replays H m) as Hm. { apply HR, fresh_replays. }
  rewrite mutated_body_spec. unfold forwarded_body. cbn [cn_Request].
  destruct (bodyMutated m) eqn:Hmut; [destruct (json_Marshal (im_Body m)) as [b|err]; [|by do 2 eexists]|].
  - edestruct (answers_forward H B (Some b) m) as (rs & Hrs & Hf); [done|done|].
    cbn. unfold ret. do 2 eexists. split; [exact Hrs|]. cbn. eauto.
  - edestruct (answers_forward H B None m) as (rs & Hrs & Hf); [done|done|].
    cbn. unfold ret. do 2 eexists. split; [exact Hrs|]. cbn. eauto.
Qed.

(** The last piece of the body. *)
Lemma turn_last now H B last :
  exists s o,
    turn (Recv now (InRequestBody last true))
      (mkConn now ∅ (mkMsg H (Some ∅) ∅ ∅ false) newInferenceMessage B []
         (if streaming then [] else [OutRequestHeaders None])) = (s, o) /\
    cn_responseBody s = [] /\ answered H (B ++ last) s o.
Proof.
  unfold Bbr.turn, handle. rewrite andb_false_r. unfold bind at 1, modify, bind at 1, read.
  edestruct (HandleRequestBody_spec H (B ++ last)) as (s' & r & -> & Hsent & Hresp & Hr); [reflexivity|reflexivity|].
  cbn in Hsent, Hresp. unfold handled in Hr. unfold answered, refused.
  destruct (json_Unmarshal (B ++ last) (Some ∅)) as [body [err|]].
  { destruct Hr as [msg ->]. cbn. unfold Send. rewrite send_succeeds, Hsent.
    do 2 eexists. split; [reflexivity|]. cbn. eauto. }
  assert (forall e, exists s o,
    match BuildErrResponse e with
    | inl resp => match Send send_ok (OutImmediate resp) s' with
                  | (s, Ret _) => (s, Returned None)
                  | (s, Fails e') => (s, Returned (Some e'))
                  | (s, Panics) => (s, Panicked)
                  end
    | inr e' => (s', Returned (Some e'))
    end = (s, o) /\ cn_responseBody s = [] /\ refused (cn_sent s') e s o) as Hfail.
  { intros e. unfold refused, Send. destruct (BuildErrResponse e); [rewrite send_succeeds|]; do 2 eexists;
      (split; [reflexivity|done]). }
  rewrite Hsent in Hfail. unfold refused in Hfail.
  destruct (each _ requestPlugins _) as [[c m] [[]|e|]]; subst; [|by apply Hfail|by do 2 eexists].
  destruct (forwarded_body (B ++ last) m) as [b|err]; [|subst; by apply Hfail].
  destruct Hr as (rs & -> & Hf). rewrite each_Send. do 2 eexists. split; [reflexivity|]. cbn. rewrite Hsent. done.
Qed.

Lemma request_answered now hs cs last :
  (streaming = false -> cs = []) ->
  exists s o, Process (request_inputs now hs cs last) = (s, o) /\ cn_responseBody s = [] /\
    answered (client_headers hs) (mjoin cs ++ last) s o.
Proof.
  intros Hcs. unfold Bbr.Process, request_inputs. rewrite loop_headers.
  destruct (turn_last now (client_headers hs) (mjoin cs) last) as (s & o & Ht & Hrest).
  exists s, o. split; [|done]. rewrite <- Ht.
  destruct (decide (streaming = true)) as [Hst|Hst].
  - rewrite loop_chunks by done. by rewrite loop_last.
  - rewrite (Hcs (not_true_is_false _ Hst)). exact (loop_last _ _).
Qed.

(** C24: A request whose body ends with its last piece is answered by body-based
    routing exactly once and completely, provided every send succeeds and the
    plugins change the message only through its methods.  It consists of headers
    that do not end the stream and of a body, in pieces if bodies are streamed.
    With a body that is not JSON it is refused with status 400; if a plugin fails,
    or the changed body cannot be encoded, with the status of the error, and
    nothing is forwarded.  If a plugin panics, so does the handler, with nothing
    forwarded.  Otherwise Envoy ends up with the headers the plugins left,
    whatever they set and removed in whatever order, with the length of the body
    where the body is streamed or was changed, and with the body: the changed
    one, or that of the client byte for byte.  The answer to the headers comes
    first, and only the last piece of the body ends it.  A streamed body that
    ends with trailers instead is not answered ([trailers_strand_request]). *)
Theorem bbr_request_contract now hs cs last :
  (streaming = false -> cs = []) ->
  exists s o, Process (request_inputs now hs cs last) = (s, o) /\
    answered (client_headers hs) (mjoin cs ++ last) s o.
Proof. intros Hcs. destruct (request_answered now hs cs last Hcs) as (s & o & HP & _ & HA). eauto. Qed.

(** ** Responses without response plugins *)

Lemma loop_app a b (s s' : conn V) : loop a s = (s', Running) -> loop (a ++ b) s = loop b s'.
Proof.
  revert s. induction a as [|i a IH]; intros s; cbn [app process_loop]; [by intros [= <-]|].
  destruct (Bbr.turn _ _ _ _ _ _ _ _ i s) as [s1 []]; [apply IH|done|done].
Qed.

Lemma loop_response_headers now h rest (s : conn V) :
  hh_EndOfStream h = false -> exists s',
  loop (Recv now (InResponseHeaders (Some h)) :: rest) s = loop rest s' /\
  cn_sent s' = cn_sent s ++ (if streaming then [] else [OutResponseHeaders None]) /\
  cn_responseBody s' = cn_responseBody s.
Proof.
  intros He. cbn [process_loop]. unfold Bbr.turn. cbn [handle].
  unfold HandleResponseHeaders, bind, modify. cbn [GetEndOfStream]. rewrite He, andb_true_r.
  destruct streaming; unfold ret; rewrite each_Send; eexists; (split; [reflexivity|done]).
Qed.

Lemma loop_response_chunks now cs rest (s : conn V) :
  streaming = true ->
  loop (((fun c => Recv now (InResponseBody c false)) <$> cs) ++ rest) s
  = loop rest (s <| cn_responseBody := cn_responseBody s ++ mjoin cs |>).
Proof.
  intros Hst. revert s. induction cs as [|c cs IH]; intros [a1 a2 a3 a4 a5 a6 a7].
  - cbn. by rewrite app_nil_r.
  - rewrite fmap_cons. cbn [app process_loop]. unfold Bbr.turn. cbn [handle]. unfold bind, modify, ret.
    replace (streaming && negb false) with true by by rewrite Hst. rewrite each_Send, IH. cbn. by rewrite app_nil_r, <- app_assoc.
Qed.

(** The response goes on as it came. *)
Definition passes (R : bytes) (rs : list Outgoing) : Prop :=
  if streaming then
    exists chunks, rs = OutResponseHeaders None :: ((fun c => OutResponseBody (Some (streamed c))) <$> chunks) /\
      reassemble chunks = R
  else rs = [OutResponseHeaders None; OutResponseBody None].

Definition response_inputs (now : Z) (hs : list HeaderValue) (cs : list bytes) (last : bytes) : list input :=
  Recv now (InResponseHeaders (Some {| hh_Headers := Some hs; hh_EndOfStream := false |}))
  :: ((fun c => Recv now (InResponseBody c false)) <$> cs) ++ [Recv now (InResponseBody last true)].

Lemma turn_response_last now last (s : conn V) :
  responsePlugins = [] -> exists s' rs,
  turn (Recv now (InResponseBody last true)) s = (s', Running) /\ cn_sent s' = cn_sent s ++ rs /\
  passes (cn_responseBody s ++ last) ((if streaming then [] else [OutResponseHeaders None]) ++ rs).
Proof.
  intros Hnone. unfold Bbr.turn, handle. rewrite andb_false_r. unfold bind at 1, modify, bind at 1, read.
  unfold HandleResponseBody. rewrite Hnone. unfold pass_response, passes.
  destruct streaming; cbn [app].
  - destruct (BuildChunked_spec (cn_responseBody s ++ last) true) as (chunks & Hc & Hre & _).
    unfold generateEmptyResponseBodyResponse, AddStreamedResponseBody. cbn [cn_responseBody set eta eta_conn].
    rewrite Hc. cbn [deref]. unfold bind, ret. rewrite each_Send. do 2 eexists. split; [reflexivity|].
    split; [reflexivity|]. by exists chunks.
  - unfold ret. rewrite each_Send. do 2 eexists. split; [reflexivity|]. split; [reflexivity|done].
Qed.

Lemma response_passed now hs cs last (s : conn V) :
  responsePlugins = [] -> (streaming = false -> cs = []) -> cn_responseBody s = [] ->
  exists s' rs, loop (response_inputs now hs cs last) s = (s', Running) /\
    cn_sent s' = cn_sent s ++ rs /\ passes (mjoin cs ++ last) rs.
Proof.
  intros Hnone Hcs Hempty. unfold response_inputs.
  edestruct loop_response_headers as (s1 & -> & Hsent & Hbody); [reflexivity|]. rewrite Hempty in Hbody.
  destruct (turn_response_last now last (s1 <| cn_responseBody := mjoin cs |>) Hnone) as (s2 & rs & Ht & Hs2 & Hp).
  exists s2. eexists. split; [|split; [|exact Hp]].
  - rewrite <- Ht. destruct (decide (streaming = true)) as [Hst|Hst].
    + rewrite loop_response_chunks by done. rewrite loop_last. by rewrite Hbody.
    + rewrite (Hcs (not_true_is_false _ Hst)), <- (loop_last _ _). cbn [fmap list_fmap app mjoin list_join].
      by destruct s1; cbn in *; subst.
  - rewrite Hs2. cbn. by rewrite Hsent, <- app_assoc.
Qed.

End Contract.

(** * The in-tree plugins *)

Lemma on_message_uses {V} k v c m :
  exists ops, (@on_message V (SetHeader k v) (c, m)).1.2 = (each message_step ops m).1.
Proof. by exists [OpSetHeader k v]. Qed.

Lemma ProcessRequest_uses_methods {V} fmt_float store p : uses_methods (@ProcessRequest fmt_float V store p).
Proof.
  intros c m. destruct p; cbn [ProcessRequest]; unfold BodyFieldToHeader_ProcessRequest, BaseModelToHeader_ProcessRequest;
    unfold bind, read; cbn [snd]; repeat case_match; simplify_eq; try apply on_message_uses; by exists [].
Qed.

Section Default.

Context {V : Type}.

Variable streaming : bool.
Variable store : adaptersStoreImpl.
Variable fmt_float : SpecFloat.spec_float -> string.
Variable json_Unmarshal : bytes -> option JSONObject -> option JSONObject * option string.
Variable json_Marshal : option JSONObject -> bytes + string.
Variable range : gmap string string -> list (string * string).
Variable UnsortedList : gset string -> list string.
Variable send_ok : list Outgoing -> Outgoing -> bool.

Hypothesis range_perm : forall m, range m ≡ₚ map_to_list m.
Hypothesis UnsortedList_perm : forall X, UnsortedList X ≡ₚ elements X.
Hypothesis send_succeeds : forall sent r, send_ok sent r = true.

(** The server with the plugins it runs without flags. *)
Definition default_processors : list (processor V) :=
  ProcessRequest fmt_float store <$>
    [BodyFieldToHeaderPlugin BodyFieldToHeaderPluginType modelField ModelHeader;
     BaseModelToHeaderPlugin BaseModelToHeaderPluginType].

Abbreviation default_Process :=
  (Process streaming default_processors [] json_Unmarshal json_Marshal range UnsortedList send_ok).

Lemma default_chain (c : CycleState V) H (obj : JSONObject) v :
  obj !! modelField = Some v -> fmt_v fmt_float v <> EmptyString ->
  each (fun plugin => plugin) default_processors (c, mkMsg H (Some obj) ∅ ∅ false) =
  ((c, SetHeader BaseModelHeader (getBaseModel store (fmt_v fmt_float v))
         (SetHeader ModelHeader (fmt_v fmt_float v) (mkMsg H (Some obj) ∅ ∅ false))), Ret tt).
Proof.
  intros Hv Hne. cbn [each fmap list_fmap default_processors ProcessRequest].
  unfold BodyFieldToHeader_ProcessRequest, BaseModelToHeader_ProcessRequest, bind, read, on_message, modify, ret.
  cbn [im_Body snd]. cbn [mbind option_bind]. rewrite Hv.
  apply String.eqb_neq in Hne. rewrite Hne. cbn beta iota delta [snd].
  assert (im_Body (SetHeader ModelHeader (fmt_v fmt_float v) (mkMsg H (Some obj) ∅ ∅ false)) = Some obj) as ->
    by (unfold SetHeader; by case_bool_decide).
  cbn [mbind option_bind]. by rewrite Hv.
Qed.

(** C25: Started without flags, body-based routing sends a request where its model
    says.  The body is JSON with a model whose text is not empty, it ends with its
    last piece, and every send succeeds.  In both modes, and in however many
    pieces the body arrives, Envoy ends up with the model in X-Gateway-Model-Name
    and the base model the adapters store has for it in X-Gateway-Base-Model-Name,
    with the other headers unchanged except for Content-Length, which is not
    stated here, and with the body of the client byte for byte; and the response
    goes back as it came. *)
Theorem bbr_routes_by_model now hs cs last obj v now' rhs rcs rlast :
  (streaming = false -> cs = [] /\ rcs = []) ->
  json_Unmarshal (mjoin cs ++ last) (Some ∅) = (Some obj, None) ->
  obj !! modelField = Some v -> fmt_v fmt_float v <> EmptyString ->
  exists s answers rest,
    default_Process (request_inputs now hs cs last ++ response_inputs now' rhs rcs rlast) = (s, Running) /\
    cn_sent s = answers ++ rest /\
    let headers := envoy_headers (client_headers hs) answers in
    headers !! ModelHeader = Some (fmt_v fmt_float v) /\
    headers !! BaseModelHeader = Some (getBaseModel store (fmt_v fmt_float v)) /\
    (forall k, k ∉ [ModelHeader; BaseModelHeader; contentLengthHeader] -> headers !! k = client_headers hs !! k) /\
    envoy_body (mjoin cs ++ last) answers = mjoin cs ++ last /\
    in_order streaming answers /\
    passes streaming (mjoin rcs ++ rlast) rest.
Proof.
  intros Hmode Hjson Hv Hne.
  destruct (request_answered streaming default_processors [] json_Unmarshal json_Marshal range UnsortedList send_ok
              range_perm UnsortedList_perm send_succeeds) with (now := now) (hs := hs) (cs := cs) (last := last)
    as (s & o & HP & Hresp & HA).
  { apply Forall_fmap, Forall_true. intros p. apply ProcessRequest_uses_methods. }
  { intros Hs. by apply Hmode. }
  unfold answered in HA. rewrite Hjson, (default_chain _ _ _ v) in HA by done.
  set (m := SetHeader _ _ _) in HA.
  assert (bodyMutated m = false) as Hb by (subst m; unfold SetHeader; by repeat case_bool_decide).
  unfold forwarded_body in HA. rewrite Hb in HA. destruct HA as (-> & Hh & Hbody & Hord).
  destruct (response_passed streaming default_processors [] json_Unmarshal json_Marshal range UnsortedList send_ok
              send_succeeds now' rhs rcs rlast s) as (s' & rs & Hl & Hs' & Hp); [done|intros Hs; by apply Hmode|done|].
  exists s', (cn_sent s), rs. split.
  { unfold Bbr.Process in *. by rewrite (loop_app _ _ _ _ _ _ _ _ _ _ _ _ HP). }
  split; [done|]. rewrite Hh, Hb, orb_false_r. subst m. rewrite !SetHeader_view. cbn [im_Headers].
  split; [|split; [|split; [|done]]].
  - destruct streaming; by simplify_map_eq.
  - destruct streaming; by simplify_map_eq.
  - intros k Hk. rewrite !not_elem_of_cons in Hk. destruct Hk as (? & ? & ? & _).
    destruct streaming; by rewrite !lookup_insert_ne by done.
Qed.

End Default.

(** Without flags these are the plugins. *)
Lemma default_plugins_chosen json_Config Registry :
  choose_plugins json_Config None Registry [] =
  Serve [BodyFieldToHeaderPlugin BodyFieldToHeaderPluginType modelField ModelHeader;
         BaseModelToHeaderPlugin BaseModelToHeaderPluginType].
Proof. done. Qed.

(** A flag with an unknown type ends the process without an error. *)
Lemma unknown_type_ends_quietly json_Config complete Registry spec specs :
  registerInTreePlugins json_Config complete Registry !! sp_Type spec = None ->
  choose_plugins json_Config complete Registry (spec :: specs) = RunReturns None.
Proof. intros H. cbn [choose_plugins instantiate]. unfold FactoryFunc in *. by rewrite H. Qed.

(** A body that is the JSON value null leaves a nil map: setting a field of it
    panics. *)
Lemma null_body_panics key value m : im_Body m = None -> (SetBodyField key value m).2 = Panics.
Proof. intros H. unfold SetBodyField, bind, read. by rewrite H. Qed.

(** * Samples *)

Definition sample_unmarshal (b : bytes) (old : option JSONObject) : option JSONObject * option string :=
  if bool_decide (b = [1; 2; 3]) then (Some {[ modelField := AString "sql" ]}, None)
  else if bool_decide (b = [4]) then (Some {[ modelField := ANull ]}, None)
  else (old, Some "not JSON").

Definition sample_store : adaptersStoreImpl :=
  mkAdapters {[ "sql" := "llama" ]} {[ ("default", "one") := {[ "sql" ]} ]} {[ "llama" := 1 ]}.

Definition sample_float (f : SpecFloat.spec_float) : string := "0".

Definition sample_header : HeaderValue := {| hv_Key := ":path"; hv_Value := EmptyString; hv_RawValue := "/v1" |}.

Abbreviation sample_processors := (@default_processors unit sample_store sample_float).
Abbreviation sample_Process streaming :=
  (Process streaming sample_processors [] sample_unmarshal (fun _ => inl []) map_to_list elements (fun _ _ => true)).

Lemma bbr_request_contract_witness :
  exists s o, sample_Process true (request_inputs 0 [sample_header] [[1; 2]] [3]) = (s, o) /\
    answered true sample_processors sample_unmarshal (fun _ => inl []) (client_headers [sample_header]) [1; 2; 3] s o.
Proof.
  apply (bbr_request_contract true sample_processors [] sample_unmarshal (fun _ => inl []) map_to_list elements
           (fun _ _ => true)).
  - intros m. reflexivity.
  - intros X. reflexivity.
  - reflexivity.
  - apply Forall_fmap, Forall_true. intros p. apply ProcessRequest_uses_methods.
  - discriminate.
Defined.

Lemma bbr_routes_by_model_witness :
  exists s answers rest,
    sample_Process true (request_inputs 0 [sample_header] [[1; 2]] [3] ++ response_inputs 1 [] [] [7]) = (s, Running) /\
    cn_sent s = answers ++ rest /\
    let headers := envoy_headers (client_headers [sample_header]) answers in
    headers !! ModelHeader = Some "sql" /\
    headers !! BaseModelHeader = Some "llama" /\
    (forall k, k ∉ [ModelHeader; BaseModelHeader; contentLengthHeader] ->
       headers !! k = client_headers [sample_header] !! k) /\
    envoy_body [1; 2; 3] answers = [1; 2; 3] /\ in_order true answers /\ passes true [7] rest.
Proof.
  apply (bbr_routes_by_model true sample_store sample_float sample_unmarshal (fun _ => inl []) map_to_list elements
           (fun _ _ => true)) with (obj := {[ modelField := AString "sql" ]}) (v := AString "sql").
  - intros m. reflexivity.
  - intros X. reflexivity.
  - reflexivity.
  - discriminate.
  - vm_compute. reflexivity.
  - vm_compute. reflexivity.
  - discriminate.
Defined.

(** A model that is null is routed as if its name were <nil>. *)
Lemma null_model_routed :
  envoy_headers ∅ (cn_sent (sample_Process false (request_inputs 0 [] [] [4])).1) !! ModelHeader = Some "<nil>".
Proof. vm_compute. reflexivity. Qed.

(** A streamed request that ends with trailers instead of a last piece is never
    forwarded: only the trailers are answered. *)
Lemma trailers_strand_request :
  let '(s, o) := sample_Process true
    [Recv 0 (InRequestHeaders (Some {| hh_Headers := Some [sample_header]; hh_EndOfStream := false |}));
     Recv 0 (InRequestBody [1; 2; 3] false); Recv 0 InRequestTrailers] in
  o = Running /\ cn_requestBody s = [1; 2; 3] /\ cn_sent s = [OutRequestTrailers].
Proof. vm_compute. done. Qed.
