(* ===== verification/ConfigLoader.v ===== *)
(** Loading the configuration (src/pkg/epp/config/loader): decoding with static
    defaults and feature gates (configloader.go), the components that are
    injected when the configuration omits them (defaults.go), validation
    (validation.go), and the assembly of scheduler, data layer, flow control and
    parser from the instantiated plugins; with the plugin handle
    (src/pkg/epp/framework/interface/plugin/handle.go) and the assembly of the
    flow-control configuration (src/pkg/epp/flowcontrol/config.go).

    The decoder, the registry of factories and the order of a range loop over the
    map of plugins are arguments.  The map the handle returns is the handle's own,
    so the loops see the plugins that were added before them. *)

From S2P Require Import RegistryConfig ControllerConfig Runtime.
From S2P Require Import Prelude FlowTypes Doubles Scheduler DataGraph.

(** * The API object *)

Record PluginSpec := mkSpec { ps_Name : string; ps_Type : string; ps_Parameters : option string }.

Record SchedulingPlugin := mkRef { PluginRef : string; Weight : option spec_float }.

Record SchedulingProfile := mkProfile { sp_Name : string; sp_Plugins : list SchedulingPlugin }.

Record DataLayerSource := mkSource { ds_PluginRef : string; ds_Extractors : list string }.

(** What the flow-control section holds beside the fields of the registry. *)
Record FlowControlAPI := {
  fa_Registry : RegistryConfig.FlowControlConfig;
  fa_DefaultRequestTTL : option Z;
  fa_UsageLimitPolicyPluginRef : string
}.

Record EndpointPickerConfig := mkEPC {
  FeatureGates : option (list string);
  Plugins : list PluginSpec;
  SchedulingProfiles : list SchedulingProfile;
  SaturationDetector : option string;
  DataLayer : option (list DataLayerSource);
  FlowControl : option FlowControlAPI;
  Parser : option string
}.

#[global] Instance eta_PluginSpec : Eta PluginSpec := fun s => mkSpec (ps_Name s) (ps_Type s) (ps_Parameters s).
#[global] Instance eta_SchedulingPlugin : Eta SchedulingPlugin := fun s => mkRef (PluginRef s) (Weight s).
#[global] Instance eta_SchedulingProfile : Eta SchedulingProfile := fun s => mkProfile (sp_Name s) (sp_Plugins s).
#[global] Instance eta_EndpointPickerConfig : Eta EndpointPickerConfig := fun c =>
  mkEPC (FeatureGates c) (Plugins c) (SchedulingProfiles c) (SaturationDetector c) (DataLayer c) (FlowControl c) (Parser c).

(** * Names *)

Definition SingleProfileHandlerType : string := "single-profile-handler".
Definition MaxScorePickerType : string := "max-score-picker".
Definition PrefixCacheScorerPluginType : string := "prefix-cache-scorer".
Definition ApproxPrefixCachePluginType : string := "approx-prefix-cache-producer".
Definition QueueScorerType : string := "queue-scorer".
Definition KvCacheUtilizationScorerType : string := "kv-cache-utilization-scorer".
Definition MetricsDataSourceType : string := "metrics-data-source".
Definition MetricsExtractorType : string := "core-metrics-extractor".
Definition OpenAIParserType : string := "openai-parser".
Definition UtilizationDetectorType : string := "utilization-detector".
Definition DefaultUsageLimitPolicyRef : string := "static-usage-limit-policy".
Definition EnableLegacyMetricsFeatureGate : string := "enableLegacyMetrics".
Definition FlowControlFeatureGate : string := "flowControl".

(** 1.0 *)
Definition DefaultScorerWeight : spec_float := f64_one.

Definition two : spec_float := f64_add f64_one f64_one.
Definition three : spec_float := f64_add two f64_one.

Definition spec_of_type (t : string) : PluginSpec := mkSpec EmptyString t None.

Definition loadDefaultConfig : EndpointPickerConfig :=
  mkEPC (Some [])
    (spec_of_type <$> [QueueScorerType; KvCacheUtilizationScorerType; PrefixCacheScorerPluginType;
                       MetricsDataSourceType; MetricsExtractorType])
    [mkProfile "default"
       [mkRef QueueScorerType (Some two);
        mkRef KvCacheUtilizationScorerType (Some two);
        mkRef PrefixCacheScorerPluginType (Some three)]]
    None
    (Some [mkSource MetricsDataSourceType [MetricsExtractorType]])
    None None.

Definition applyStaticDefaults (cfg : EndpointPickerConfig) : EndpointPickerConfig :=
  cfg <| Plugins := (fun s => if String.eqb (ps_Name s) EmptyString then s <| ps_Name := ps_Type s |> else s) <$> Plugins cfg |>
      <| FeatureGates := Some (default [] (FeatureGates cfg)) |>.

(** The first gate that is not registered. *)
Definition validateFeatureGates (registered : gset string) (gates : option (list string)) : option error :=
  match list_find (fun gate => gate ∉ registered) (default [] gates) with
  | Some (_, gate) => Some (Message ("feature gate '" +:+ gate +:+ "' is unknown or unregistered"))
  | None => None
  end.

Definition loadFeatureConfig (registered : gset string) (gates : option (list string)) : gmap string bool :=
  foldl (fun config gate => <[gate := true]> config) (gset_to_gmap false registered) (default [] gates).

Definition LoadRawConfig (decodeRawConfig : string -> EndpointPickerConfig + error) (registered : gset string)
    (configBytes : string) : (EndpointPickerConfig * gmap string bool) + error :=
  let decoded := if negb (String.eqb configBytes EmptyString) then decodeRawConfig configBytes
                 else inl loadDefaultConfig in
  match decoded with
  | inr err => inr err
  | inl rawConfig =>
      let rawConfig := applyStaticDefaults rawConfig in
      match validateFeatureGates registered (FeatureGates rawConfig) with
      | Some err => inr (Wrap "feature gate validation failed: %w" [err])
      | None => inl (rawConfig, loadFeatureConfig registered (FeatureGates rawConfig))
      end
  end.

(** * Validation *)

Definition definedPlugins (cfg : EndpointPickerConfig) : gset string := list_to_set (ps_Name <$> Plugins cfg).

Definition validateSaturationDetector (cfg : EndpointPickerConfig) : option error :=
  match SaturationDetector cfg with
  | None => None
  | Some ref =>
      if String.eqb ref EmptyString then Some (Message "saturation detector plugin reference is empty")
      else if negb (bool_decide (ref ∈ definedPlugins cfg))
      then Some (Message ("saturation detector references undefined plugin '" +:+ ref +:+ "'"))
      else None
  end.

(** The references of one profile. *)
Definition validate_refs (defined : gset string) (profile : SchedulingProfile) : option error :=
  match list_find (fun r => PluginRef r = EmptyString \/ PluginRef r ∉ defined) (sp_Plugins profile) with
  | Some (_, r) =>
      Some (if String.eqb (PluginRef r) EmptyString
            then Message ("schedulingProfiles[" +:+ sp_Name profile +:+ "].plugins is missing a 'pluginRef'")
            else Message ("schedulingProfiles[" +:+ sp_Name profile +:+ "] references undefined plugin '" +:+ PluginRef r +:+ "'"))
  | None => None
  end.

Fixpoint validate_profiles (defined seenProfileNames : gset string) (profiles : list SchedulingProfile) : option error :=
  match profiles with
  | [] => None
  | profile :: profiles =>
      if String.eqb (sp_Name profile) EmptyString then Some (Message "schedulingProfiles[%d] is missing a name")
      else if bool_decide (sp_Name profile ∈ seenProfileNames)
      then Some (Message ("schedulingProfiles[%d] has duplicate name '" +:+ sp_Name profile +:+ "'"))
      else match validate_refs defined profile with
           | Some err => Some err
           | None => validate_profiles defined ({[ sp_Name profile ]} ∪ seenProfileNames) profiles
           end
  end.

Definition validateSchedulingProfiles (cfg : EndpointPickerConfig) : option error :=
  validate_profiles (definedPlugins cfg) ∅ (SchedulingProfiles cfg).

Definition validateConfig (registered : gset string) (cfg : EndpointPickerConfig) : option error :=
  match validateFeatureGates registered (FeatureGates cfg) with
  | Some err => Some (Wrap "feature gate validation failed: %w" [err])
  | None =>
  match validateSchedulingProfiles cfg with
  | Some err => Some (Wrap "scheduling profile validation failed: %w" [err])
  | None =>
  match validateSaturationDetector cfg with
  | Some err => Some (Wrap "saturation detector validation failed: %w" [err])
  | None => None
  end end end.

(** * Plugins and the handle *)

Section Loader.

Context {E : Type} `{Countable E}.
Context {CS LLMReq : Type}.
Context {Parser_t Detector UsagePolicy : Type}.

Abbreviation sched_Plugin := (@Scheduler.Plugin E _ _ CS LLMReq).
Abbreviation sched_Profile := (@Scheduler.SchedulerProfile E _ _ CS LLMReq).

(** An instance, by the interfaces it implements. *)
Record plugin := mkPluginObject {
  pl_TypedName : TypedName;
  pl_Scheduling : sched_Plugin;
  pl_ProfileHandler : option (@Scheduler.ProfileHandler E _ _ CS LLMReq);
  pl_Parser : option Parser_t;
  pl_Detector : option Detector;
  pl_Flow : RegistryConfig.Plugin;
  pl_UsageLimit : option UsagePolicy;
  pl_DataSource : option Runtime.DataSource;
  pl_Extractor : option Runtime.Extractor
}.

Definition is_some {A} (o : option A) : bool := match o with Some _ => true | None => false end.

Definition is_Scorer (p : plugin) : bool := is_some (as_Scorer (pl_Scheduling p)).
Definition is_Picker (p : plugin) : bool := is_some (as_Picker (pl_Scheduling p)).
Definition is_Filter (p : plugin) : bool := is_some (as_Filter (pl_Scheduling p)).
Definition is_ProfileHandler (p : plugin) : bool := is_some (pl_ProfileHandler p).

(** The plugins by name. *)
Abbreviation handle := (gmap string plugin).

Definition AddPlugin (name : string) (p : plugin) (h : handle) : handle := <[name := p]> h.

Definition FactoryFunc : Type := string -> option string -> handle -> plugin + error.

Variable Registry : gmap string FactoryFunc.
Variable ApproxPrefixCacheFactory : FactoryFunc.
Variable registered : gset string.

(** The order of a range loop, by its place in the code. *)
Variable range : string -> handle -> list (string * plugin).

Definition existsByType (h : handle) (pluginType : string) : bool :=
  existsb (fun np => String.eqb (tn_Type (pl_TypedName np.2)) pluginType) (range "existsByType" h).

(** The loop over the configured plugins, with the names seen and the parameters
    of the prefix scorer. *)
Fixpoint instantiate_loop (specs : list PluginSpec) (pluginNames : gset string) (approx : option (option string))
    (h : handle) : (handle * option (option string)) + error :=
  match specs with
  | [] => inl (h, approx)
  | spec :: specs =>
      if String.eqb (ps_Type spec) EmptyString then inr (Message ("plugin '" +:+ ps_Name spec +:+ "' is missing a type"))
      else if bool_decide (ps_Name spec ∈ pluginNames)
      then inr (Message ("duplicate plugin name '" +:+ ps_Name spec +:+ "'"))
      else match Registry !! ps_Type spec with
           | None => inr (Message ("plugin type '" +:+ ps_Type spec +:+ "' is not registered"))
           | Some factory =>
               match factory (ps_Name spec) (ps_Parameters spec) h with
               | inr err => inr (Wrap "failed to create plugin '%s' (type: %s): %w" [err])
               | inl p =>
                   instantiate_loop specs ({[ ps_Name spec ]} ∪ pluginNames)
                     (if String.eqb (ps_Type spec) PrefixCacheScorerPluginType then Some (ps_Parameters spec) else approx)
                     (AddPlugin (ps_Name spec) p h)
               end
           end
  end.

Definition instantiatePlugins (configuredPlugins : list PluginSpec) (h : handle) : handle + error :=
  match instantiate_loop configuredPlugins ∅ None h with
  | inr err => inr err
  | inl (h, None) => inl h
  | inl (h, Some params) =>
      if existsByType h ApproxPrefixCachePluginType then inl h
      else match ApproxPrefixCacheFactory ApproxPrefixCachePluginType params h with
           | inr err => inr (Wrap "failed to create ApproxPrefixCache plugin for prefix cache plugin: %w, params: %s" [err])
           | inl p => inl (AddPlugin ApproxPrefixCachePluginType p h)
           end
  end.

(** * System defaults *)

Abbreviation loaded := (EndpointPickerConfig * handle)%type.

Definition registerDefaultPlugin (pluginType : string) (ch : loaded) : loaded + error :=
  let '(cfg, h) := ch in
  match Registry !! pluginType with
  | None => inr (Message ("plugin type '" +:+ pluginType +:+ "' not found in registry"))
  | Some factory =>
      match factory pluginType None h with
      | inr err => inr (Wrap ("failed to instantiate default plugin '" +:+ pluginType +:+ "': %w") [err])
      | inl p => inl (cfg <| Plugins := Plugins cfg ++ [mkSpec pluginType pluginType None] |>, AddPlugin pluginType p h)
      end
  end.

(** Registered if no plugin has the name. *)
Definition ensure_named (name : string) (ch : loaded) : loaded + error :=
  match ch.2 !! name with Some _ => inl ch | None => registerDefaultPlugin name ch end.

(** The profile made of every filter, scorer and picker. *)
Definition default_profiles (h : handle) (profiles : list SchedulingProfile) : list SchedulingProfile :=
  match profiles with
  | [] => [mkProfile "default"
             (omap (fun np => if is_Filter np.2 || is_Scorer np.2 || is_Picker np.2
                              then Some (mkRef np.1 None) else None) (range "default profile" h))]
  | _ => profiles
  end.

(** The scorers get a weight, and the profile a picker. *)
Definition complete_profile (h : handle) (pickerName : string) (prof : SchedulingProfile) : SchedulingProfile :=
  let tests (f : plugin -> bool) (r : SchedulingPlugin) :=
    match h !! PluginRef r with Some p => f p | None => false end in
  let weighted := (fun r => match Weight r with
                            | None => if tests is_Scorer r then r <| Weight := Some DefaultScorerWeight |> else r
                            | Some _ => r
                            end) <$> sp_Plugins prof in
  prof <| sp_Plugins := if existsb (tests is_Picker) (sp_Plugins prof) then weighted
                        else weighted ++ [mkRef pickerName None] |>.

Definition ensureSchedulingLayer (ch : loaded) : loaded + error :=
  let '(cfg, h) := ch in
  let cfg := cfg <| SchedulingProfiles := default_profiles h (SchedulingProfiles cfg) |> in
  ch <-? (if Nat.eqb (length (SchedulingProfiles cfg)) 1
             && negb (existsb (fun np => is_ProfileHandler np.2) (range "profile handler" h))
          then registerDefaultPlugin SingleProfileHandlerType (cfg, h) else inl (cfg, h));
  let found := list_find (fun np => is_Picker np.2) (range "picker" ch.2) in
  chn <-? match found with
          | Some (_, (name, _)) =>
              if String.eqb name EmptyString
              then ch' <-? registerDefaultPlugin MaxScorePickerType ch; inl (ch', MaxScorePickerType)
              else inl (ch, name)
          | None => ch' <-? registerDefaultPlugin MaxScorePickerType ch; inl (ch', MaxScorePickerType)
          end;
  let '((cfg, h), maxScorePickerName) := chn in
  inl (cfg <| SchedulingProfiles := complete_profile h maxScorePickerName <$> SchedulingProfiles cfg |>, h).

Definition ensureFlowControlLayer (ch : loaded) : loaded + error :=
  ch <-? ensure_named RegistryConfig.DefaultOrderingPolicyRef ch;
  ch <-? ensure_named RegistryConfig.DefaultFairnessPolicyRef ch;
  ensure_named DefaultUsageLimitPolicyRef ch.

Definition ensureParser (ch : loaded) : loaded + error :=
  let '(cfg, h) := ch in
  let ref := default OpenAIParserType (Parser cfg) in
  let cfg := cfg <| Parser := Some ref |> in
  match h !! ref with
  | Some _ => inl (cfg, h)
  | None => registerDefaultPlugin OpenAIParserType (cfg, h)
  end.

Definition ensureSaturationDetector (ch : loaded) : loaded + error :=
  let '(cfg, h) := ch in
  let ref := default UtilizationDetectorType (SaturationDetector cfg) in
  let ref := if String.eqb ref EmptyString then UtilizationDetectorType else ref in
  let cfg := cfg <| SaturationDetector := Some ref |> in
  if String.eqb ref UtilizationDetectorType then ensure_named UtilizationDetectorType (cfg, h)
  else inl (cfg, h).

Definition ensureDataLayer (ch : loaded) : loaded + error :=
  let cfg := ch.1 in
  if bool_decide (EnableLegacyMetricsFeatureGate ∈ default [] (FeatureGates cfg)) then inl ch
  else match DataLayer cfg with
       | Some _ => inl ch
       | None =>
           ch <-? ensure_named MetricsDataSourceType ch;
           ch <-? ensure_named MetricsExtractorType ch;
           inl (ch.1 <| DataLayer := Some [mkSource MetricsDataSourceType [MetricsExtractorType]] |>, ch.2)
       end.

Definition applySystemDefaults (ch : loaded) : loaded + error :=
  ch <-? RegistryConfig.wrap_err "failed to apply scheduling system defaults: %w" (ensureSchedulingLayer ch);
  ch <-? RegistryConfig.wrap_err "failed to apply flow control system defaults: %w" (ensureFlowControlLayer ch);
  ch <-? RegistryConfig.wrap_err "failed to apply parser defaults: %w" (ensureParser ch);
  ch <-? RegistryConfig.wrap_err "failed to apply saturation detector defaults: %w" (ensureSaturationDetector ch);
  RegistryConfig.wrap_err "failed to apply data layer defaults: %w" (ensureDataLayer ch).

(** * Assembly *)

(** One reference of a profile. *)
Definition add_ref (h : handle) (fwProfile : sched_Profile) (r : SchedulingPlugin) : sched_Profile + error :=
  match h !! PluginRef r with
  | None => inr (Message ("plugin '" +:+ PluginRef r +:+ "' referenced in profile '%s' not found in handle"))
  | Some p =>
      let object := match as_Scorer (pl_Scheduling p) with
                    | Some scorer => Weighted {| ws_Scorer := scorer; weight := default DefaultScorerWeight (Weight r) |}
                                       (pl_Scheduling p)
                    | None => Plain (pl_Scheduling p)
                    end in
      match Scheduler.AddPlugins fwProfile [object] with
      | (fwProfile, None) => inl fwProfile
      | (_, Some _) => inr (Message ("failed to add plugin '" +:+ PluginRef r +:+ "' to profile '%s'"))
      end
  end.

Definition build_profiles (h : handle) (configProfiles : list SchedulingProfile) : gmap string sched_Profile + error :=
  efold (fun profiles cfgProfile =>
           fwProfile <-? efold (add_ref h) (sp_Plugins cfgProfile) NewSchedulerProfile;
           inl (<[sp_Name cfgProfile := fwProfile]> profiles)) configProfiles ∅.

(** The only profile handler. *)
Definition find_handler (h : handle) : option (TypedName * Scheduler.ProfileHandler) + error :=
  efold (fun found np =>
           match pl_ProfileHandler np.2, found with
           | None, _ => inl found
           | Some ph, None => inl (Some (pl_TypedName np.2, ph))
           | Some _, Some _ => inr (Message "multiple profile handlers found ('%s', '%s'); only one is allowed")
           end) (range "handlers" h) None.

Record SchedulerConfig := { sc_profileHandler : @Scheduler.ProfileHandler E _ _ CS LLMReq; sc_profiles : gmap string sched_Profile }.

Definition buildSchedulerConfig (configProfiles : list SchedulingProfile) (h : handle) : SchedulerConfig + error :=
  profiles <-? build_profiles h configProfiles;
  found <-? find_handler h;
  match found with
  | None => inr (Message "no profile handler configured")
  | Some (name, profileHandler) =>
      if String.eqb (tn_Type name) SingleProfileHandlerType && Nat.ltb 1 (size profiles)
      then inr (Message "SingleProfileHandler cannot support multiple scheduling profiles")
      else inl {| sc_profileHandler := profileHandler; sc_profiles := profiles |}
  end.

Definition buildParserConfig (rawParserConfig : option string) (h : handle) : Parser_t + error :=
  match rawParserConfig with
  | None => inr (Message "parserConfig is not configured")
  | Some ref =>
      match h !! ref with
      | None => inr (Message "the configured parser is not loaded")
      | Some p => match pl_Parser p with
                  | None => inr (Message "the specified plugin is not a parser plugin in the config")
                  | Some v => inl v
                  end
      end
  end.

(** The error for an extractor names the source. *)
Definition build_source (h : handle) (source : DataLayerSource) : Runtime.DataSourceConfig + error :=
  match h !! ds_PluginRef source ≫= pl_DataSource with
  | None => inr (Message ("the plugin " +:+ ds_PluginRef source +:+ " is not a fwkdl.DataSource"))
  | Some sourcePlugin =>
      exts <-? efold (fun exts ref =>
                 match h !! ref ≫= pl_Extractor with
                 | Some extractorPlugin => inl (exts ++ [extractorPlugin])
                 | None => inr (Message ("the plugin " +:+ ds_PluginRef source +:+ " is not a fwkdl.Extractor"))
                 end) (ds_Extractors source) [];
      inl {| Runtime.sc_Plugin := sourcePlugin; Runtime.sc_Extractors := exts |}
  end.

Definition buildDataLayerConfig (rawDataConfig : option (list DataLayerSource)) (h : handle)
    : list Runtime.DataSourceConfig + error :=
  efold (fun sources source => cfg <-? build_source h source; inl (sources ++ [cfg])) (default [] rawDataConfig) [].

(** The order of the loops over the priority bands. *)
Variable range_bands : gmap Z RegistryConfig.PriorityBandConfig -> list (Z * RegistryConfig.PriorityBandConfig).

Record FlowControlConfig := {
  fc_Controller : ControllerConfig.Config;
  fc_Registry : RegistryConfig.Config;
  fc_UsageLimitPolicy : UsagePolicy
}.

Definition ensureUsageLimitPolicy (apiConfig : option FlowControlAPI) (h : handle) : UsagePolicy + error :=
  let ref := match apiConfig with
             | Some api => if String.eqb (fa_UsageLimitPolicyPluginRef api) EmptyString then DefaultUsageLimitPolicyRef
                           else fa_UsageLimitPolicyPluginRef api
             | None => DefaultUsageLimitPolicyRef
             end in
  match h !! ref with
  | None => inr (Message ("usage limit policy plugin '" +:+ ref +:+ "' not found"))
  | Some p => match pl_UsageLimit p with
              | None => inr (Message ("plugin '" +:+ ref +:+ "' does not implement UsageLimitPolicy"))
              | Some policy => inl policy
              end
  end.

Definition flowcontrol_NewConfigFromAPI (apiConfig : option FlowControlAPI) (h : handle) : FlowControlConfig + error :=
  registryConfig <-? RegistryConfig.wrap_err "failed to create registry config: %w"
    (RegistryConfig.NewConfigFromAPI (fun name => pl_Flow <$> h !! name) range_bands (fa_Registry <$> apiConfig));
  ctrlCfg <-? RegistryConfig.wrap_err "failed to create controller config: %w"
    (ControllerConfig.NewConfigFromAPI (apiConfig ≫= fa_DefaultRequestTTL));
  usageLimitPolicy <-? ensureUsageLimitPolicy apiConfig h;
  inl {| fc_Controller := ctrlCfg; fc_Registry := registryConfig; fc_UsageLimitPolicy := usageLimitPolicy |}.

Record Config := {
  cf_SchedulerConfig : SchedulerConfig;
  cf_SaturationDetector : Detector;
  cf_DataConfig : option (list Runtime.DataSourceConfig);
  cf_FlowControlConfig : option FlowControlConfig;
  cf_ParserConfig : Parser_t
}.

Definition enabled (gates : gmap string bool) (gate : string) : bool := default false (gates !! gate).

(** The detector the configuration names. *)
Definition find_detector (ref : string) (h : handle) : Detector + error :=
  match h !! ref with
  | None => inr (Message ("saturation detector plugin '" +:+ ref +:+ "' not found"))
  | Some p => match pl_Detector p with
              | None => inr (Message ("plugin '" +:+ ref +:+ "' is not a fwkflowcontrol.SaturationDetector"))
              | Some d => inl d
              end
  end.

(** [None] is a panic. *)
Definition InstantiateAndConfigure (rawConfig : EndpointPickerConfig) (h : handle) : option (Config + error) :=
  let built :=
    h <-? RegistryConfig.wrap_err "plugin instantiation failed: %w" (instantiatePlugins (Plugins rawConfig) h);
    ch <-? RegistryConfig.wrap_err "system default application failed: %w" (applySystemDefaults (rawConfig, h));
    _ <-? match validateConfig registered ch.1 with
          | Some err => inr (Wrap "configuration validation failed: %w" [err])
          | None => inl tt
          end;
    schedulerConfig <-? RegistryConfig.wrap_err "scheduler config build failed: %w"
      (buildSchedulerConfig (SchedulingProfiles ch.1) ch.2);
    let featureGates := loadFeatureConfig registered (FeatureGates ch.1) in
    dataConfig <-? (if enabled featureGates EnableLegacyMetricsFeatureGate then inl None
                    else cfg <-? RegistryConfig.wrap_err "data layer config build failed: %w"
                                   (buildDataLayerConfig (DataLayer ch.1) ch.2);
                         inl (Some cfg));
    flowControlConfig <-? (if enabled featureGates FlowControlFeatureGate
                           then cfg <-? RegistryConfig.wrap_err "failed to load flow control config: %w"
                                          (flowcontrol_NewConfigFromAPI (FlowControl ch.1) ch.2);
                                inl (Some cfg)
                           else inl None);
    parserConfig <-? RegistryConfig.wrap_err "parse config build failed: %w" (buildParserConfig (Parser ch.1) ch.2);
    inl (ch, schedulerConfig, dataConfig, flowControlConfig, parserConfig) in
  match built with
  | inr err => Some (inr err)
  | inl (ch, schedulerConfig, dataConfig, flowControlConfig, parserConfig) =>
      ref ← SaturationDetector ch.1;
      Some (saturationDetector <-? find_detector ref ch.2;
            inl {| cf_SchedulerConfig := schedulerConfig; cf_SaturationDetector := saturationDetector;
                   cf_DataConfig := dataConfig; cf_FlowControlConfig := flowControlConfig;
                   cf_ParserConfig := parserConfig |})
  end.

End Loader.
