(* ===== verification/ConfigLoaderProps.v ===== *)
(** Properties of the configuration loader: a configuration that loads is
    complete, the one used without a file loads, and what depends on the order of
    a map. *)

From S2P Require Import RegistryConfig ControllerConfig Runtime.
From S2P Require Import Prelude FlowTypes Doubles Scheduler DataGraph ConfigLoader.

Lemma efold_cons {S A} (f : S -> A -> S + error) x l s s' :
  efold f (x :: l) s = inl s' -> exists s1, f s x = inl s1 /\ efold f l s1 = inl s'.
Proof. cbn [efold]. unfold ebind. destruct (f s x) as [s1|]; [eauto|done]. Qed.

Lemma wrap_err_inl {A} msg (r : A + error) a : RegistryConfig.wrap_err msg r = inl a -> r = inl a.
Proof. by destruct r. Qed.

(** Take apart a chain of fallible steps that succeeded. *)
Ltac steps H :=
  repeat match type of H with
  | ebind _ _ = inl _ =>
      let a := fresh "a" in let E := fresh "E" in apply ebind_inl in H as (a & E & H); try apply wrap_err_inl in E
  | RegistryConfig.wrap_err _ _ = inl _ => apply wrap_err_inl in H
  end.

Section Props.

Context {E : Type} `{Countable E}.
Context {CS LLMReq : Type}.
Context {Parser_t Detector UsagePolicy : Type}.

Abbreviation plugin := (@plugin E _ _ CS LLMReq Parser_t Detector UsagePolicy).
Abbreviation handle := (gmap string plugin).
Abbreviation FactoryFunc := (@FactoryFunc E _ _ CS LLMReq Parser_t Detector UsagePolicy).
Abbreviation sched_Profile := (@Scheduler.SchedulerProfile E _ _ CS LLMReq).
Abbreviation Config := (@ConfigLoader.Config E _ _ CS LLMReq Parser_t Detector UsagePolicy).

Variable Registry : gmap string FactoryFunc.
Variable ApproxPrefixCacheFactory : FactoryFunc.
Variable registered : gset string.
Variable range : string -> handle -> list (string * plugin).
Variable range_bands : gmap Z RegistryConfig.PriorityBandConfig -> list (Z * RegistryConfig.PriorityBandConfig).

(** * Profiles *)

(** What a reference contributes to its profile. *)
Definition ref_filter (h : handle) (r : SchedulingPlugin) := p ← h !! PluginRef r; as_Filter (pl_Scheduling p).
Definition ref_scorer (h : handle) (r : SchedulingPlugin) :=
  p ← h !! PluginRef r; s ← as_Scorer (pl_Scheduling p);
  Some {| ws_Scorer := s; weight := default DefaultScorerWeight (Weight r) |}.
Definition ref_picker (h : handle) (r : SchedulingPlugin) := p ← h !! PluginRef r; as_Picker (pl_Scheduling p).

(** The profile has the filters, scorers and pickers of the references, in their
    order; there is room for one picker. *)
Definition profile_of (h : handle) (refs : list SchedulingPlugin) (p p' : sched_Profile) : Prop :=
  filters p' = filters p ++ omap (ref_filter h) refs /\
  scorers p' = scorers p ++ omap (ref_scorer h) refs /\
  option_list (picker p') = option_list (picker p) ++ omap (ref_picker h) refs.

Lemma add_ref_spec h p r p' : add_ref h p r = inl p' -> profile_of h [r] p p'.
Proof.
  unfold add_ref, profile_of, ref_filter, ref_scorer, ref_picker. cbn [omap list_omap].
  destruct (h !! PluginRef r) as [q|]; [|done]. cbn [mbind option_bind].
  destruct (pl_Scheduling q) as [[f|] [s|] [k|]]; cbn; unfold register; cbn;
    destruct p as [fs ss [k0|]]; cbn; intros [= <-]; cbn; by rewrite ?app_nil_r.
Qed.

Lemma profile_of_trans h r1 r2 p1 p2 p3 :
  profile_of h r1 p1 p2 -> profile_of h r2 p2 p3 -> profile_of h (r1 ++ r2) p1 p3.
Proof.
  intros (F1 & S1 & K1) (F2 & S2 & K2). unfold profile_of. rewrite !omap_app, !app_assoc.
  by rewrite F2, S2, K2, F1, S1, K1.
Qed.

Lemma add_refs_spec h refs p p' : efold (add_ref h) refs p = inl p' -> profile_of h refs p p'.
Proof.
  revert p. induction refs as [|r refs IH]; intros p Hf.
  - injection Hf as <-. unfold profile_of. by rewrite !app_nil_r.
  - apply efold_cons in Hf as (p1 & H1 & H2). apply (profile_of_trans h [r] refs p p1 p'); [|by apply IH].
    by apply add_ref_spec.
Qed.

(** The profile of a list of references. *)
Definition built_from (h : handle) (prof : SchedulingProfile) (p : sched_Profile) : Prop :=
  filters p = omap (ref_filter h) (sp_Plugins prof) /\
  scorers p = omap (ref_scorer h) (sp_Plugins prof) /\
  option_list (picker p) = omap (ref_picker h) (sp_Plugins prof).

Lemma build_profiles_spec h profs (m m' : gmap string sched_Profile) :
  efold (fun profiles cfgProfile =>
           fwProfile <-? efold (add_ref h) (sp_Plugins cfgProfile) NewSchedulerProfile;
           inl (<[sp_Name cfgProfile := fwProfile]> profiles)) profs m = inl m' ->
  NoDup (sp_Name <$> profs) ->
  (forall name, name ∉ sp_Name <$> profs -> m' !! name = m !! name) /\
  Forall (fun prof => exists p, m' !! sp_Name prof = Some p /\ built_from h prof p) profs.
Proof.
  revert m. induction profs as [|prof profs IH]; intros m Hf Hnd.
  - injection Hf as <-. split; [done|constructor].
  - apply efold_cons in Hf as (m1 & H1 & H2). steps H1. injection H1 as <-.
    rewrite fmap_cons in Hnd. apply NoDup_cons in Hnd as [Hni Hnd].
    destruct (IH _ H2 Hnd) as [Hout Hall]. split.
    + intros name Hn. rewrite fmap_cons, not_elem_of_cons in Hn. destruct Hn as [Hne Hn].
      rewrite Hout by done. by rewrite lookup_insert_ne.
    + constructor; [|done]. exists a. rewrite (Hout _ Hni), lookup_insert_eq. split; [done|].
      exact (add_refs_spec _ _ _ _ E0).
Qed.

Lemma validate_refs_ok defined prof :
  validate_refs defined prof = None -> Forall (fun r => PluginRef r ∈ defined) (sp_Plugins prof).
Proof.
  unfold validate_refs. destruct (list_find _ (sp_Plugins prof)) as [[i r]|] eqn:Hf; [done|]. intros _.
  apply list_find_None in Hf. eapply Forall_impl; [exact Hf|]. cbn. intros r Hr.
  destruct (decide (PluginRef r ∈ defined)); [done|]. tauto.
Qed.

Lemma validate_profiles_ok defined seen profs :
  validate_profiles defined seen profs = None ->
  NoDup (sp_Name <$> profs) /\ Forall (fun prof => sp_Name prof ∉ seen) profs /\
  Forall (fun prof => Forall (fun r => PluginRef r ∈ defined) (sp_Plugins prof)) profs.
Proof.
  revert seen. induction profs as [|prof profs IH]; intros seen; cbn [validate_profiles].
  - split; [constructor|done].
  - destruct (String.eqb _ _); [done|]. case_bool_decide as Hs; [done|].
    destruct (validate_refs defined prof) eqn:Hr; [done|]. intros Hv.
    destruct (IH _ Hv) as (Hnd & Hseen & Hrefs). rewrite fmap_cons. split; [|split].
    + apply NoDup_cons. split; [|done]. intros (prof' & Hn & Hin)%list_elem_of_fmap.
      rewrite Forall_forall in Hseen. specialize (Hseen _ Hin). set_solver.
    + constructor; [done|]. eapply Forall_impl; [exact Hseen|]. set_solver.
    + constructor; [|done]. by apply validate_refs_ok.
Qed.

(** * Injected components *)

Hypothesis range_perm : forall site h, range site h ≡ₚ map_to_list h.

(** The factory of the default picker makes a picker. *)
Hypothesis picker_factory : forall f name params h p,
  Registry !! MaxScorePickerType = Some f -> f name params h = inl p -> is_Picker p = true.

Definition has_picker (h : handle) (prof : SchedulingProfile) : Prop :=
  Exists (fun r => is_Some (ref_picker h r)) (sp_Plugins prof).

Lemma has_picker_mono h h' prof : h ⊆ h' -> has_picker h prof -> has_picker h' prof.
Proof.
  intros Hsub Hex. eapply Exists_impl; [exact Hex|]. intros r [k Hk]. unfold ref_picker in *.
  apply bind_Some in Hk as (p & Hp & Hk). rewrite (lookup_weaken _ _ _ _ Hp Hsub). by exists k.
Qed.

Lemma is_Picker_ref h r p : h !! PluginRef r = Some p -> is_Picker p = true -> is_Some (ref_picker h r).
Proof. intros Hp Hk. unfold ref_picker. rewrite Hp. unfold is_Picker in Hk. cbn. by destruct (as_Picker _). Qed.

(** A step of the defaults that adds plugins and leaves the profiles alone. *)
Record extends (ch ch' : EndpointPickerConfig * handle) : Prop := {
  ex_handle : ch.2 ⊆ ch'.2;
  ex_profiles : SchedulingProfiles ch'.1 = SchedulingProfiles ch.1;
  ex_Detector : SaturationDetector ch'.1 = SaturationDetector ch.1;
  ex_Parser : Parser ch'.1 = Parser ch.1
}.

#[local] Instance extends_preorder : PreOrder extends.
Proof.
  split; [by constructor|]. intros x y z [H1 P1 D1 R1] [H2 P2 D2 R2].
  constructor; [by transitivity y.2|congruence..].
Qed.

Lemma registerDefault_spec t ch ch' :
  registerDefaultPlugin Registry t ch = inl ch' ->
  exists f p, Registry !! t = Some f /\ f t None ch.2 = inl p /\ ch'.2 = <[t := p]> ch.2 /\
    (ch.2 !! t = None -> extends ch ch') /\ SchedulingProfiles ch'.1 = SchedulingProfiles ch.1 /\
    Parser ch'.1 = Parser ch.1 /\ SaturationDetector ch'.1 = SaturationDetector ch.1.
Proof.
  destruct ch as [cfg h]. unfold registerDefaultPlugin. destruct (Registry !! t) as [f|]; [|done].
  destruct (f t None h) as [p|] eqn:Hf; [|done]. intros [= <-]. exists f, p. repeat (split; [done|]).
  split; [|done]. intros Hn. constructor; cbn; [by apply insert_subseteq|done..].
Qed.

Lemma ensure_named_spec n ch ch' : ensure_named Registry n ch = inl ch' -> extends ch ch' /\ is_Some (ch'.2 !! n).
Proof.
  unfold ensure_named. destruct (ch.2 !! n) eqn:Hn; [by intros [= <-]; eauto|].
  intros (f & p & _ & _ & Hh & Hext & _)%registerDefault_spec. split; [auto|]. by rewrite Hh, lookup_insert_eq.
Qed.

Lemma ensureFlowControlLayer_spec ch ch' : ensureFlowControlLayer Registry ch = inl ch' -> extends ch ch'.
Proof.
  unfold ensureFlowControlLayer. intros Hf. steps Hf.
  apply ensure_named_spec in E0 as [E0 _], E1 as [E1 _], Hf as [Hf _]. by etransitivity; [|etransitivity].
Qed.

Lemma ensureSaturationDetector_spec ch ch' :
  ensureSaturationDetector Registry ch = inl ch' ->
  ch.2 ⊆ ch'.2 /\ SchedulingProfiles ch'.1 = SchedulingProfiles ch.1 /\ is_Some (SaturationDetector ch'.1).
Proof.
  destruct ch as [cfg h]. unfold ensureSaturationDetector. set (ref := if String.eqb _ EmptyString then _ else _).
  destruct (String.eqb ref _).
  - intros [[H1 H2 H3 _] _]%ensure_named_spec. cbn in *. rewrite H3. eauto.
  - intros [= <-]. cbn. eauto.
Qed.

Lemma ensureDataLayer_spec ch ch' :
  ensureDataLayer Registry ch = inl ch' ->
  ch.2 ⊆ ch'.2 /\ SchedulingProfiles ch'.1 = SchedulingProfiles ch.1 /\
  SaturationDetector ch'.1 = SaturationDetector ch.1.
Proof.
  unfold ensureDataLayer. case_bool_decide; [by intros [= <-]|]. destruct (DataLayer _); [by intros [= <-]|].
  intros Hd. steps Hd. injection Hd as <-. apply ensure_named_spec in E0 as [E0 _], E1 as [E1 _].
  destruct (transitivity E0 E1) as [H1 H2 H3 _]. done.
Qed.

Lemma ensureParser_spec ch ch' :
  (forall ref, Parser ch.1 = Some ref -> is_Some (ch.2 !! ref) \/ ref = OpenAIParserType) ->
  ensureParser Registry ch = inl ch' -> ch.2 ⊆ ch'.2 /\ SchedulingProfiles ch'.1 = SchedulingProfiles ch.1.
Proof.
  destruct ch as [cfg h]. unfold ensureParser. intros Href. set (ref := default _ (Parser cfg)).
  destruct (h !! ref) eqn:Hh; [by intros [= <-]|].
  assert (ref = OpenAIParserType) as Heq.
  { subst ref. cbn in Href. destruct (Parser cfg) as [r|]; [|done]. cbn in *.
    destruct (Href r eq_refl) as [[q Hq]|]; [congruence|done]. }
  rewrite Heq in *. intros (f & p & _ & _ & Hh' & Hext & Hprof & _)%registerDefault_spec.
  destruct (Hext Hh) as [H1 _ _ _]. done.
Qed.

Lemma complete_profile_picker h name p prof :
  h !! name = Some p -> is_Picker p = true -> has_picker h (complete_profile h name prof).
Proof.
  intros Hp Hk. unfold has_picker, complete_profile. cbn [sp_Plugins set eta eta_SchedulingProfile].
  destruct (existsb _ _) eqn:Hex.
  - apply existsb_exists in Hex as (r & Hin & Hr). destruct (h !! PluginRef r) as [q|] eqn:Hq; [|done].
    apply Exists_fmap, Exists_exists. exists r. split; [by apply list_elem_of_In|].
    eapply is_Picker_ref; [|exact Hr]. cbn. destruct (Weight r); [done|]. rewrite Hq. destruct (is_Scorer q); exact Hq.
  - apply Exists_app. right. constructor. by apply (is_Picker_ref h (mkRef name None) p).
Qed.

Lemma range_lookup site (h : handle) name p : (name, p) ∈ range site h <-> h !! name = Some p.
Proof. by rewrite (range_perm site h), elem_of_map_to_list. Qed.

Lemma default_profiles_nonempty h profs : default_profiles range h profs <> [].
Proof. by destruct profs. Qed.

(** The default picker is found, or made. *)
Lemma default_picker_spec ch (r : (EndpointPickerConfig * handle) * string) :
  match list_find (fun np => is_Picker np.2) (range "picker" ch.2) with
  | Some (_, (name, _)) =>
      if String.eqb name EmptyString
      then ch' <-? registerDefaultPlugin Registry MaxScorePickerType ch; inl (ch', MaxScorePickerType)
      else inl (ch, name)
  | None => ch' <-? registerDefaultPlugin Registry MaxScorePickerType ch; inl (ch', MaxScorePickerType)
  end = inl r ->
  (exists p, r.1.2 !! r.2 = Some p /\ is_Picker p = true) /\
  SchedulingProfiles r.1.1 = SchedulingProfiles ch.1 /\ Parser r.1.1 = Parser ch.1 /\ dom ch.2 ⊆ dom r.1.2.
Proof.
  assert (forall r : (EndpointPickerConfig * handle) * string,
    (ch' <-? registerDefaultPlugin Registry MaxScorePickerType ch; inl (ch', MaxScorePickerType)) = inl r ->
    (exists p, r.1.2 !! r.2 = Some p /\ is_Picker p = true) /\
    SchedulingProfiles r.1.1 = SchedulingProfiles ch.1 /\ Parser r.1.1 = Parser ch.1 /\ dom ch.2 ⊆ dom r.1.2) as Hmade.
  { intros r' Hr. steps Hr. injection Hr as <-. cbn [fst snd].
    apply registerDefault_spec in E0 as (f & p & Hreg & Hf & Hh & _ & HP & HR & _).
    rewrite Hh. split; [exists p; rewrite lookup_insert_eq; eauto|]. rewrite dom_insert. set_solver. }
  destruct (list_find _ _) as [[i [name p]]|] eqn:Hfind; [|apply Hmade].
  destruct (String.eqb name EmptyString); [apply Hmade|]. intros [= <-]. cbn [fst snd].
  apply list_find_Some in Hfind as (Hi & Hp & _). apply list_elem_of_lookup_2, range_lookup in Hi.
  split; [|done]. exists p. split; [done|]. by apply Is_true_true.
Qed.

Lemma ensureSchedulingLayer_spec ch ch' :
  ensureSchedulingLayer Registry range ch = inl ch' ->
  SchedulingProfiles ch'.1 <> [] /\ Forall (has_picker ch'.2) (SchedulingProfiles ch'.1) /\
  Parser ch'.1 = Parser ch.1 /\ dom ch.2 ⊆ dom ch'.2.
Proof.
  destruct ch as [cfg h]. unfold ensureSchedulingLayer. intros Hf. steps Hf. destruct a0 as [[cfg1 h1] name].
  injection Hf as <-. apply default_picker_spec in E1 as ((p & Hp & Hk) & Hprof & Hpar & Hdom). cbn [fst snd] in *.
  assert (SchedulingProfiles a.1 = default_profiles range h (SchedulingProfiles cfg) /\
          Parser a.1 = Parser cfg /\ dom h ⊆ dom a.2) as (Hprof0 & Hpar0 & Hdom0).
  { destruct (_ && _).
    - apply registerDefault_spec in E0 as (f & q & _ & _ & Hh & _ & HP & HR & _). rewrite Hh, dom_insert. set_solver.
    - by injection E0 as <-. }
  cbn [SchedulingProfiles Parser set eta eta_EndpointPickerConfig]. rewrite Hprof, Hprof0. split; [|split; [|split]].
  - intros Hnil%fmap_nil_inv. by apply default_profiles_nonempty in Hnil.
  - apply Forall_fmap, Forall_true. intros prof. by apply (complete_profile_picker _ _ p).
  - congruence.
  - set_solver.
Qed.

Lemma instantiate_loop_dom specs seen approx h h' approx' :
  instantiate_loop Registry specs seen approx h = inl (h', approx') ->
  dom h ⊆ dom h' /\ Forall (fun s => ps_Name s ∈ dom h') specs.
Proof.
  revert seen approx h. induction specs as [|spec specs IH]; intros seen approx h; cbn [instantiate_loop].
  - by intros [= <- _].
  - destruct (String.eqb _ EmptyString); [done|]. case_bool_decide; [done|].
    destruct (Registry !! ps_Type spec) as [f|]; [|done]. destruct (f _ _ h) as [p|]; [|done].
    intros Hrec. destruct (IH _ _ _ Hrec) as [Hd Hall]. unfold AddPlugin in Hd. rewrite dom_insert in Hd.
    split; [set_solver|]. constructor; [set_solver|done].
Qed.

Lemma instantiatePlugins_dom specs h h' :
  instantiatePlugins Registry ApproxPrefixCacheFactory range specs h = inl h' ->
  Forall (fun s => ps_Name s ∈ dom h') specs.
Proof.
  unfold instantiatePlugins. destruct (instantiate_loop _ _ _ _ _) as [[h1 [params|]]|] eqn:Hl; [|intros [= <-]|done].
  - apply instantiate_loop_dom in Hl as [_ Hall]. destruct (existsByType _ _ _); [by intros [= <-]|].
    destruct (ApproxPrefixCacheFactory _ _ _); [|done]. intros [= <-]. eapply Forall_impl; [exact Hall|].
    intros s Hs. unfold AddPlugin. rewrite dom_insert. set_solver.
  - by apply instantiate_loop_dom in Hl as [_ Hall].
Qed.

(** The parser the configuration names is one of its plugins, or the default. *)
Definition parser_named (raw : EndpointPickerConfig) : Prop :=
  forall ref, Parser raw = Some ref -> ref ∈ ps_Name <$> Plugins raw \/ ref = OpenAIParserType.

Lemma applySystemDefaults_spec raw h h' cfg :
  applySystemDefaults Registry range (raw, h) = inl (cfg, h') ->
  (forall ref, Parser raw = Some ref -> ref ∈ dom h \/ ref = OpenAIParserType) ->
  SchedulingProfiles cfg <> [] /\ Forall (has_picker h') (SchedulingProfiles cfg) /\ is_Some (SaturationDetector cfg).
Proof.
  unfold applySystemDefaults. intros Hf Hpar. steps Hf.
  apply ensureSchedulingLayer_spec in E0 as (Hne & Hpick & Hpar1 & Hdom).
  apply ensureFlowControlLayer_spec in E1 as [Hs1 Hp1 _ Hpar2].
  apply ensureParser_spec in E2 as [Hs2 Hp2].
  2:{ intros ref Href. rewrite Hpar2, Hpar1 in Href. destruct (Hpar ref Href) as [Hin|]; [left|by right].
      apply elem_of_dom. apply (subseteq_dom _ _ Hs1). set_solver. }
  apply ensureSaturationDetector_spec in E3 as (Hs3 & Hp3 & Hd3).
  apply ensureDataLayer_spec in Hf as (Hs4 & Hp4 & Hd4). cbn [fst snd] in *.
  rewrite Hp4, Hp3, Hp2, Hp1, Hd4. split; [done|]. split; [|done].
  eapply Forall_impl; [exact Hpick|]. intros prof. apply has_picker_mono. by repeat (etransitivity; [eassumption|]).
Qed.

Lemma applySystemDefaults_detector ch ch' :
  applySystemDefaults Registry range ch = inl ch' -> is_Some (SaturationDetector ch'.1).
Proof.
  unfold applySystemDefaults. intros Hf. steps Hf. apply ensureSaturationDetector_spec in E3 as (_ & _ & Hd).
  apply ensureDataLayer_spec in Hf as (_ & _ & Hd'). by rewrite Hd'.
Qed.

(** * The handler of the profiles *)

Definition handler_of (np : string * plugin) : option (TypedName * Scheduler.ProfileHandler) :=
  ph ← pl_ProfileHandler np.2; Some (pl_TypedName np.2, ph).

Lemma find_handler_spec h found :
  find_handler range h = inl found -> option_list found = omap handler_of (range "handlers" h).
Proof.
  unfold find_handler. generalize (range "handlers" h) as l.
  enough (forall l found0, efold _ l found0 = inl found ->
            option_list found = option_list found0 ++ omap handler_of l) as Hgen by (intros l; apply (Hgen l None)).
  induction l as [|np l IH]; intros found0 Hf; [injection Hf as <-; by rewrite app_nil_r|].
  apply efold_cons in Hf as (f1 & H1 & H2). rewrite (IH _ H2). cbn [omap list_omap]. unfold handler_of.
  destruct (pl_ProfileHandler np.2) as [ph|]; [|by injection H1 as <-].
  destruct found0; [done|]. by injection H1 as <-.
Qed.

(** A profile handler that is the only one. *)
Definition only_handler (h : handle) (ph : Scheduler.ProfileHandler) : Prop :=
  exists n q, h !! n = Some q /\ pl_ProfileHandler q = Some ph /\
    forall n' q', h !! n' = Some q' -> is_ProfileHandler q' = true -> n' = n.

Lemma find_handler_only h tn ph : find_handler range h = inl (Some (tn, ph)) -> only_handler h ph.
Proof.
  intros Hf%find_handler_spec. cbn [option_list] in Hf.
  assert ((tn, ph) ∈ omap handler_of (range "handlers" h)) as Hin by (rewrite <- Hf; set_solver).
  apply list_elem_of_omap in Hin as ([n q] & Hq & Hh). unfold handler_of in Hh.
  apply bind_Some in Hh as (ph' & Hph & [= _ <-]). cbn in Hph.
  exists n, q. split; [by apply range_lookup in Hq|]. split; [done|].
  intros n' q' Hn' Hk. destruct (decide (n' = n)) as [|Hne]; [done|]. exfalso.
  apply range_lookup with (site := "handlers") in Hn'.
  apply elem_of_Permutation in Hq as [k Hk1].
  assert ((n', q') ∈ k) as Hk'.
  { rewrite Hk1 in Hn'. apply elem_of_cons in Hn' as [[= -> ->]|]; done. }
  apply elem_of_Permutation in Hk' as [k' Hk2]. rewrite Hk2 in Hk1.
  apply (omap_Permutation handler_of) in Hk1. rewrite <- Hf in Hk1. apply Permutation_length in Hk1. revert Hk1.
  cbn [omap list_omap]. unfold handler_of at 1 2. cbn [snd]. rewrite Hph. unfold is_ProfileHandler in Hk.
  by destruct (pl_ProfileHandler q').
Qed.

(** * Loading *)

(** The plugins and the configuration after the defaults were injected. *)
Definition effective (raw : EndpointPickerConfig) : (EndpointPickerConfig * handle) + error :=
  h <-? RegistryConfig.wrap_err "plugin instantiation failed: %w"
          (instantiatePlugins Registry ApproxPrefixCacheFactory range (Plugins raw) ∅);
  RegistryConfig.wrap_err "system default application failed: %w" (applySystemDefaults Registry range (raw, h)).

(** What a loaded configuration is made of. *)
Record complete (eff : EndpointPickerConfig) (h : handle) (cfg : Config) : Prop := {
  co_profiles : Forall (fun prof => exists p, sc_profiles (cf_SchedulerConfig cfg) !! sp_Name prof = Some p /\
                                      built_from h prof p /\ is_Some (picker p)) (SchedulingProfiles eff);
  co_nothing_else name p : sc_profiles (cf_SchedulerConfig cfg) !! name = Some p ->
                           name ∈ sp_Name <$> SchedulingProfiles eff;
  co_some : SchedulingProfiles eff <> [];
  co_handler : only_handler h (sc_profileHandler (cf_SchedulerConfig cfg));
  co_parser : exists ref q, Parser eff = Some ref /\ h !! ref = Some q /\ pl_Parser q = Some (cf_ParserConfig cfg);
  co_detector : exists ref q, SaturationDetector eff = Some ref /\ h !! ref = Some q /\
                  pl_Detector q = Some (cf_SaturationDetector cfg)
}.

Lemma buildSchedulerConfig_spec h profs sc :
  buildSchedulerConfig range profs h = inl sc -> NoDup (sp_Name <$> profs) ->
  Forall (fun prof => exists p, sc_profiles sc !! sp_Name prof = Some p /\ built_from h prof p) profs /\
  (forall name p, sc_profiles sc !! name = Some p -> name ∈ sp_Name <$> profs) /\
  only_handler h (sc_profileHandler sc).
Proof.
  unfold buildSchedulerConfig. intros Hf Hnd. steps Hf.
  destruct a0 as [[tn ph]|]; [|done]. destruct (_ && _); [done|]. injection Hf as <-. cbn [sc_profiles sc_profileHandler].
  destruct (build_profiles_spec _ _ _ _ E0 Hnd) as [Hout Hall]. split; [done|]. split.
  - intros name p Hp. destruct (decide (name ∈ sp_Name <$> profs)) as [|Hni]; [done|].
    by rewrite (Hout _ Hni), lookup_empty in Hp.
  - by apply find_handler_only in E1.
Qed.

Lemma buildParserConfig_spec rp (h : handle) v :
  buildParserConfig rp h = inl v -> exists ref q, rp = Some ref /\ h !! ref = Some q /\ pl_Parser q = Some v.
Proof.
  unfold buildParserConfig. destruct rp as [ref|]; [|done]. destruct (h !! ref) as [q|] eqn:Hq; [|done].
  destruct (pl_Parser q) eqn:Hp; [|done]. intros [= <-]. eauto.
Qed.

Lemma find_detector_spec ref (h : handle) d :
  find_detector ref h = inl d -> exists q, h !! ref = Some q /\ pl_Detector q = Some d.
Proof.
  unfold find_detector. destruct (h !! ref) as [q|]; [|done]. destruct (pl_Detector q) eqn:Hp; [|done].
  intros [= <-]. eauto.
Qed.

Lemma built_picker h prof p : built_from h prof p -> has_picker h prof -> is_Some (picker p).
Proof.
  intros (_ & _ & Hk) Hp. apply Exists_exists in Hp as (r & Hr & k & Hrk).
  assert (k ∈ omap (ref_picker h) (sp_Plugins prof)) as Hin by (apply list_elem_of_omap; eauto).
  rewrite <- Hk in Hin. destruct (picker p); [done|]. by apply elem_of_nil in Hin.
Qed.

(** A profile with a picker never panics. *)
Lemma Run_returns range' (p : sched_Profile) request c endpoints :
  is_Some (picker p) -> is_Some (Scheduler.Run range' p request c endpoints).
Proof.
  intros [k Hk]. unfold Run. destruct (runFilterPlugins _ _ _ _) as [[|e es] c1]; [done|].
  destruct (runScorerPlugins _ _ _ _ _) as [m c2]. unfold runPickerPlugin. rewrite Hk. cbn.
  by destruct (k c2 _).
Qed.

Lemma InstantiateAndConfigure_returns raw :
  is_Some (InstantiateAndConfigure Registry ApproxPrefixCacheFactory registered range range_bands raw ∅).
Proof.
  unfold InstantiateAndConfigure. cbv zeta. destruct (ebind _ _) as [[[[[ch sc] dc] fc] pc]|err] eqn:Hb; [|done].
  steps Hb. injection Hb as <- <- <- <- <-. apply applySystemDefaults_detector in E1 as [ref Href].
  rewrite Href. done.
Qed.

(** C22: loading a configuration always returns, with an error or with a complete
    system.  When it succeeds, every scheduling profile of the effective
    configuration (and nothing else) is built, with the filters, the scorers and
    the weights its references name, in their order, and with a picker, configured
    or injected, so that running it never dereferences a nil picker; the profile
    handler is the only one among the plugins; and the parser and the saturation
    detector are the plugins the effective configuration names. *)
Theorem loaded_config_complete raw :
  parser_named raw ->
  exists r, InstantiateAndConfigure Registry ApproxPrefixCacheFactory registered range range_bands raw ∅ = Some r /\
  forall cfg, r = inl cfg ->
    exists eff h, effective raw = inl (eff, h) /\ complete eff h cfg /\
      forall name p, sc_profiles (cf_SchedulerConfig cfg) !! name = Some p ->
        forall range' request c endpoints, is_Some (Scheduler.Run range' p request c endpoints).
Proof.
  intros Hnamed. destruct (InstantiateAndConfigure_returns raw) as [r Hr]. exists r. split; [done|].
  intros cfg ->. revert Hr. unfold InstantiateAndConfigure. cbv zeta.
  destruct (ebind _ _) as [[[[[ch sc] dc] fc] pc]|err] eqn:Hb; [|done].
  steps Hb. injection Hb as <- <- <- <- <-. intros (ref & Href & Hr)%bind_Some. injection Hr as Hr.
  steps Hr. injection Hr as <-. destruct a0 as [eff h]. cbn [fst snd] in *.
  exists eff, h. split; [unfold effective; by rewrite E0; cbn; rewrite E1|].
  destruct (applySystemDefaults_spec _ _ _ _ E1) as (Hne & Hpick & _).
  { intros ref' Hp. destruct (Hnamed _ Hp) as [Hin|]; [left|by right].
    apply instantiatePlugins_dom in E0. rewrite Forall_forall in E0.
    apply list_elem_of_fmap in Hin as (s & -> & Hs). by apply E0. }
  destruct (validateConfig registered eff) eqn:Hv; [done|].
  assert (NoDup (sp_Name <$> SchedulingProfiles eff)) as Hnd.
  { unfold validateConfig in Hv. destruct (validateFeatureGates _ _); [done|].
    destruct (validateSchedulingProfiles eff) eqn:Hvs; [done|]. by apply validate_profiles_ok in Hvs as [? _]. }
  destruct (buildSchedulerConfig_spec _ _ _ E3 Hnd) as (Hall & Honly & Hhandler).
  assert (Forall (fun prof => exists p, sc_profiles a2 !! sp_Name prof = Some p /\
            built_from h prof p /\ is_Some (picker p)) (SchedulingProfiles eff)) as Hprofs.
  { rewrite Forall_forall in Hpick |- *. rewrite Forall_forall in Hall. intros prof Hin.
    destruct (Hall _ Hin) as (p & Hp & Hb). exists p. split; [done|]. split; [done|].
    eapply built_picker; eauto. }
  split.
  - constructor; cbn; try done; [by apply buildParserConfig_spec|].
    apply find_detector_spec in E7 as (q & Hq & Hd). eauto.
  - cbn. intros name p Hp range' request c endpoints. apply Run_returns.
    pose proof (Honly _ _ Hp) as (prof & -> & Hin)%list_elem_of_fmap.
    rewrite Forall_forall in Hprofs. destruct (Hprofs _ Hin) as (p' & Hp' & _ & Hk). by simplify_eq.
Qed.

End Props.

(** * The configuration that is used without a file *)

Section Default.

Context {E : Type} `{Countable E}.
Context {CS LLMReq : Type}.
Context {Parser_t Detector UsagePolicy : Type}.

Abbreviation plugin := (@plugin E _ _ CS LLMReq Parser_t Detector UsagePolicy).
Abbreviation handle := (gmap string plugin).
Abbreviation FactoryFunc := (@FactoryFunc E _ _ CS LLMReq Parser_t Detector UsagePolicy).

Variable Registry : gmap string FactoryFunc.
Variable ApproxPrefixCacheFactory : FactoryFunc.
Variable registered : gset string.
Variable range : string -> handle -> list (string * plugin).
Variable range_bands : gmap Z RegistryConfig.PriorityBandConfig -> list (Z * RegistryConfig.PriorityBandConfig).

(** What the factory of a type makes without parameters. *)
Variable inst : string -> plugin.

Hypothesis range_perm : forall site h, range site h ≡ₚ map_to_list h.

(** The types the default configuration is made of. *)
Definition default_types : list string :=
  [QueueScorerType; KvCacheUtilizationScorerType; PrefixCacheScorerPluginType; MetricsDataSourceType;
   MetricsExtractorType; SingleProfileHandlerType; MaxScorePickerType; RegistryConfig.DefaultOrderingPolicyRef;
   RegistryConfig.DefaultFairnessPolicyRef; DefaultUsageLimitPolicyRef; OpenAIParserType; UtilizationDetectorType].

Hypothesis factories : forall t name h, t ∈ default_types ->
  exists f, Registry !! t = Some f /\ f name None h = inl (inst t).
Hypothesis approx_factory : forall h,
  ApproxPrefixCacheFactory ApproxPrefixCachePluginType None h = inl (inst ApproxPrefixCachePluginType).

(** What the plugins are: scorers, one picker, one handler of profiles, a parser,
    a detector, a source and an extractor. *)
Variable queue kv prefix : @Scheduler.Scorer E _ _ CS LLMReq.
Variable pick : @Scheduler.Picker E CS.
Variable ph : @Scheduler.ProfileHandler E _ _ CS LLMReq.
Variable parser : Parser_t.
Variable detector : Detector.
Variable source : Runtime.DataSource.
Variable extractor : Runtime.Extractor.

Record default_plugins : Prop := {
  dp_type t : t ∈ default_types -> tn_Type (pl_TypedName (inst t)) = t;
  dp_queue : pl_Scheduling (inst QueueScorerType) = {| as_Filter := None; as_Scorer := Some queue; as_Picker := None |};
  dp_kv : pl_Scheduling (inst KvCacheUtilizationScorerType) =
            {| as_Filter := None; as_Scorer := Some kv; as_Picker := None |};
  dp_prefix : pl_Scheduling (inst PrefixCacheScorerPluginType) =
                {| as_Filter := None; as_Scorer := Some prefix; as_Picker := None |};
  dp_picker : pl_Scheduling (inst MaxScorePickerType) =
                {| as_Filter := None; as_Scorer := None; as_Picker := Some pick |};
  dp_no_picker t : t ∈ ApproxPrefixCachePluginType :: default_types -> t <> MaxScorePickerType ->
                   is_Picker (inst t) = false;
  dp_handler : pl_ProfileHandler (inst SingleProfileHandlerType) = Some ph;
  dp_no_handler t : t ∈ ApproxPrefixCachePluginType :: default_types -> t <> SingleProfileHandlerType ->
                    pl_ProfileHandler (inst t) = None;
  dp_parser : pl_Parser (inst OpenAIParserType) = Some parser;
  dp_detector : pl_Detector (inst UtilizationDetectorType) = Some detector;
  dp_source : pl_DataSource (inst MetricsDataSourceType) = Some source;
  dp_extractor : pl_Extractor (inst MetricsExtractorType) = Some extractor
}.

Hypothesis plugins_ok : default_plugins.

(** The plugins of some types, by their types. *)
Definition made (ts : list string) : handle := list_to_map ((fun t => (t, inst t)) <$> ts).

Lemma made_lookup ts t : made ts !! t = if decide (t ∈ ts) then Some (inst t) else None.
Proof.
  unfold made. induction ts as [|x ts IH]; [done|]. rewrite fmap_cons. cbn [list_to_map fst snd foldr uncurry].
  destruct (decide (t = x)) as [->|Hne].
  - rewrite lookup_insert_eq, decide_True by set_solver. done.
  - rewrite lookup_insert_ne, IH by done. repeat case_decide; set_solver.
Qed.

Lemma made_some ts t : t ∈ ts -> made ts !! t = Some (inst t).
Proof. intros Ht. rewrite made_lookup. by rewrite decide_True. Qed.

Lemma made_none ts t : t ∉ ts -> made ts !! t = None.
Proof. intros Ht. rewrite made_lookup. by rewrite decide_False. Qed.

Lemma range_made site ts np : np ∈ range site (made ts) <-> np.1 ∈ ts /\ np.2 = inst np.1.
Proof.
  destruct np as [n p]. rewrite (range_perm site _), elem_of_map_to_list, made_lookup. cbn.
  case_decide; naive_solver.
Qed.

Lemma existsb_made site ts (f : string * plugin -> bool) :
  Forall (fun t => f (t, inst t) = false) ts -> existsb f (range site (made ts)) = false.
Proof.
  intros Hall. apply not_true_iff_false. intros ([n p] & Hin & Hf)%existsb_exists.
  apply list_elem_of_In, range_made in Hin as [Hn Hp]. cbn in *. subst p.
  rewrite Forall_forall in Hall. by rewrite (Hall _ Hn) in Hf.
Qed.

Lemma register_made t cfg ts :
  t ∈ default_types ->
  registerDefaultPlugin Registry t (cfg, made ts) =
  inl (cfg <| Plugins := Plugins cfg ++ [mkSpec t t None] |>, made (t :: ts)).
Proof.
  intros Ht. unfold registerDefaultPlugin. destruct (factories t t (made ts) Ht) as (f & -> & ->). done.
Qed.

Lemma ensure_made t cfg ts :
  t ∈ default_types -> t ∉ ts ->
  ensure_named Registry t (cfg, made ts) =
  inl (cfg <| Plugins := Plugins cfg ++ [mkSpec t t None] |>, made (t :: ts)).
Proof. intros Ht Hn. unfold ensure_named. cbn [snd]. rewrite made_none by done. by apply register_made. Qed.

Lemma instantiate_made ts done approx :
  Forall (fun t => t ∈ default_types /\ t <> EmptyString) ts -> NoDup ts -> (forall t, t ∈ ts -> t ∉ done) ->
  instantiate_loop Registry ((fun t => mkSpec t t None) <$> ts) (list_to_set done) approx (made done) =
  inl (made (reverse ts ++ done), if decide (PrefixCacheScorerPluginType ∈ ts) then Some None else approx).
Proof.
  intros Hall. revert done approx. induction Hall as [|t ts [Ht Hne] Hall IH]; intros done approx Hnd Hfresh.
  - by rewrite decide_False by apply not_elem_of_nil.
  - rewrite fmap_cons. cbn [instantiate_loop ps_Name ps_Type ps_Parameters].
    apply String.eqb_neq in Hne. rewrite Hne, bool_decide_eq_false_2 by (rewrite elem_of_list_to_set; set_solver).
    destruct (factories t t (made done) Ht) as (f & -> & ->). apply NoDup_cons in Hnd as [Hni Hnd].
    change (AddPlugin t (inst t) (made done)) with (made (t :: done)).
    change ({[t]} ∪ list_to_set done) with (list_to_set (t :: done) : gset string).
    rewrite IH; [|done|set_solver]. rewrite reverse_cons, <- app_assoc. do 2 f_equal. cbn [app].
    destruct (String.eqb_spec t PrefixCacheScorerPluginType); repeat case_decide; set_solver.
Qed.

Lemma find_handler_unique (h : handle) n q ph' :
  h !! n = Some q -> pl_ProfileHandler q = Some ph' ->
  (forall n' q', h !! n' = Some q' -> n' <> n -> pl_ProfileHandler q' = None) ->
  find_handler range h = inl (Some (pl_TypedName q, ph')).
Proof.
  intros Hn Hq Hother. unfold find_handler. set (f := fun found np => _).
  assert (forall l l' found, Forall (fun np : string * plugin => pl_ProfileHandler np.2 = None) l ->
            efold f (l ++ l') found = efold f l' found) as Hskip.
  { induction l as [|np l IH]; intros l' found Hall; [done|]. apply Forall_cons in Hall as [Hnp Hall].
    cbn [app efold]. unfold f at 1. rewrite Hnp. cbn [ebind]. by apply IH. }
  assert ((n, q) ∈ range "handlers" h) as Hin by by rewrite (range_perm "handlers" h), elem_of_map_to_list.
  assert (NoDup (range "handlers" h).*1) as Hnd by (rewrite (range_perm "handlers" h); apply NoDup_fst_map_to_list).
  assert (forall np, np ∈ range "handlers" h -> np.1 <> n -> pl_ProfileHandler np.2 = None) as Hnone.
  { intros [n' q'] Hnp Hne. rewrite (range_perm "handlers" h), elem_of_map_to_list in Hnp. eauto. }
  destruct (list_elem_of_split _ _ Hin) as (l1 & l2 & Hl). rewrite Hl in Hnd, Hnone |- *.
  rewrite fmap_app, fmap_cons in Hnd. apply NoDup_app in Hnd as (_ & Hd1 & Hd2). apply NoDup_cons in Hd2 as [Hd2 _].
  rewrite Hskip.
  2:{ apply Forall_forall. intros np Hnp. apply Hnone; [set_solver|]. intros <-.
      apply (Hd1 np.1); [by apply list_elem_of_fmap_2|set_solver]. }
  cbn [efold]. unfold f at 1. cbn [snd]. rewrite Hq. cbn [ebind].
  rewrite <- (app_nil_r l2), Hskip; [done|].
  apply Forall_forall. intros np Hnp. apply Hnone; [set_solver|]. intros <-. apply Hd2. cbn [fst]. by apply (list_elem_of_fmap_2 fst).
Qed.

(** The plugins in the order in which they are made. *)
Abbreviation configured_types :=
  [QueueScorerType; KvCacheUtilizationScorerType; PrefixCacheScorerPluginType; MetricsDataSourceType; MetricsExtractorType].
Abbreviation first_types := (ApproxPrefixCachePluginType :: reverse configured_types).
Abbreviation all_types :=
  ([UtilizationDetectorType; OpenAIParserType; DefaultUsageLimitPolicyRef; RegistryConfig.DefaultFairnessPolicyRef;
    RegistryConfig.DefaultOrderingPolicyRef; MaxScorePickerType; SingleProfileHandlerType] ++ first_types).

Abbreviation default_raw := (applyStaticDefaults loadDefaultConfig).

(** The configuration after the defaults. *)
Definition default_effective : EndpointPickerConfig :=
  default_raw
    <| Plugins := (fun t => mkSpec t t None) <$>
         (configured_types ++ [SingleProfileHandlerType; MaxScorePickerType; RegistryConfig.DefaultOrderingPolicyRef;
            RegistryConfig.DefaultFairnessPolicyRef; DefaultUsageLimitPolicyRef; OpenAIParserType; UtilizationDetectorType]) |>
    <| SchedulingProfiles := [mkProfile "default"
         [mkRef QueueScorerType (Some two); mkRef KvCacheUtilizationScorerType (Some two);
          mkRef PrefixCacheScorerPluginType (Some three); mkRef MaxScorePickerType None]] |>
    <| SaturationDetector := Some UtilizationDetectorType |>
    <| Parser := Some OpenAIParserType |>.

(** Membership in a concrete list of names. *)
Ltac names := apply (bool_decide_unpack _); vm_compute; exact I.

Lemma default_instantiated :
  instantiatePlugins Registry ApproxPrefixCacheFactory range (Plugins default_raw) ∅ = inl (made first_types).
Proof.
  unfold instantiatePlugins.
  change (Plugins default_raw) with ((fun t => mkSpec t t None) <$> configured_types).
  pose proof (instantiate_made configured_types [] None) as Hi. cbn [list_to_set] in Hi.
  change (made []) with (∅ : handle) in Hi. rewrite Hi, app_nil_r; clear Hi.
  - rewrite decide_True by names. unfold existsByType. rewrite existsb_made.
    + rewrite approx_factory. done.
    + rewrite Forall_forall. intros t Ht. cbn [snd]. rewrite (dp_type plugins_ok) by (revert t Ht; apply Forall_forall; names).
      revert t Ht. apply Forall_forall. names.
  - names.
  - names.
  - intros t _. apply not_elem_of_nil.
Qed.

Lemma default_profile_completed :
  complete_profile (made (MaxScorePickerType :: SingleProfileHandlerType :: first_types)) MaxScorePickerType <$>
    SchedulingProfiles default_raw = SchedulingProfiles default_effective.
Proof.
  set (h := made _).
  assert (forall t, t ∈ configured_types -> h !! t = Some (inst t)) as Hh.
  { intros t Ht. apply made_some. revert t Ht. apply Forall_forall. names. }
  change (SchedulingProfiles default_raw) with
    [mkProfile "default" [mkRef QueueScorerType (Some two); mkRef KvCacheUtilizationScorerType (Some two);
                          mkRef PrefixCacheScorerPluginType (Some three)]].
  unfold complete_profile. cbn [fmap list_fmap sp_Plugins existsb PluginRef Weight].
  rewrite !Hh by names. rewrite !(dp_no_picker plugins_ok) by (names || discriminate). reflexivity.
Qed.

Lemma default_scheduling :
  ensureSchedulingLayer Registry range (default_raw, made first_types) =
  inl (default_raw
         <| Plugins := (fun t => mkSpec t t None) <$> (configured_types ++ [SingleProfileHandlerType; MaxScorePickerType]) |>
         <| SchedulingProfiles := SchedulingProfiles default_effective |>,
       made (MaxScorePickerType :: SingleProfileHandlerType :: first_types)).
Proof.
  unfold ensureSchedulingLayer. rewrite existsb_made.
  2:{ apply Forall_forall. intros t Ht. cbn [snd]. unfold is_ProfileHandler.
      rewrite (dp_no_handler plugins_ok); [done|..]; revert t Ht; apply Forall_forall; names. }
  cbn [negb andb]. rewrite andb_true_r. change (Nat.eqb _ 1) with true. cbn iota.
  rewrite register_made by names. cbn [ebind snd].
  assert (list_find (fun np => is_Picker np.2) (range "picker" (made (SingleProfileHandlerType :: first_types))) = None) as ->.
  { apply list_find_None, Forall_forall. intros [n p] [Hn Hp]%range_made. cbn in *. subst p.
    rewrite (dp_no_picker plugins_ok); [auto|..]; revert n Hn; apply Forall_forall; names. }
  rewrite register_made by names. cbn [ebind].
  change (inl (default_raw
         <| Plugins := (fun t => mkSpec t t None) <$> (configured_types ++ [SingleProfileHandlerType; MaxScorePickerType]) |>
         <| SchedulingProfiles := complete_profile (made (MaxScorePickerType :: SingleProfileHandlerType :: first_types))
              MaxScorePickerType <$> SchedulingProfiles default_raw |>,
         made (MaxScorePickerType :: SingleProfileHandlerType :: first_types)) = inl (A := _) (B := error)
       (default_raw
         <| Plugins := (fun t => mkSpec t t None) <$> (configured_types ++ [SingleProfileHandlerType; MaxScorePickerType]) |>
         <| SchedulingProfiles := SchedulingProfiles default_effective |>,
       made (MaxScorePickerType :: SingleProfileHandlerType :: first_types))).
  by rewrite default_profile_completed.
Qed.

Lemma default_defaults :
  applySystemDefaults Registry range (default_raw, made first_types) = inl (default_effective, made all_types).
Proof.
  unfold applySystemDefaults. rewrite default_scheduling. cbn [RegistryConfig.wrap_err ebind].
  unfold ensureFlowControlLayer. rewrite ensure_made by names. cbn [ebind]. rewrite ensure_made by names. cbn [ebind].
  rewrite ensure_made by names. cbn [RegistryConfig.wrap_err ebind].
  unfold ensureParser. set (ref := default OpenAIParserType _). change ref with OpenAIParserType.
  rewrite made_none by names. rewrite register_made by names. cbn [RegistryConfig.wrap_err ebind].
  unfold ensureSaturationDetector. set (ref' := default UtilizationDetectorType _). change ref' with UtilizationDetectorType.
  change (String.eqb UtilizationDetectorType EmptyString) with false. cbn iota.
  change (String.eqb UtilizationDetectorType UtilizationDetectorType) with true. cbn iota.
  rewrite ensure_made by names. reflexivity.
Qed.

Lemma default_profile_built :
  build_profiles (made all_types) (SchedulingProfiles default_effective) =
  inl {[ "default" := {| filters := [];
                         scorers := [{| ws_Scorer := queue; weight := two |}; {| ws_Scorer := kv; weight := two |};
                                     {| ws_Scorer := prefix; weight := three |}];
                         picker := Some pick |} ]}.
Proof.
  unfold build_profiles. change (SchedulingProfiles default_effective) with
    [mkProfile "default" [mkRef QueueScorerType (Some two); mkRef KvCacheUtilizationScorerType (Some two);
                          mkRef PrefixCacheScorerPluginType (Some three); mkRef MaxScorePickerType None]].
  cbn [efold sp_Plugins]. unfold add_ref. cbn [PluginRef Weight].
  rewrite !made_some by names.
  rewrite (dp_queue plugins_ok), (dp_kv plugins_ok), (dp_prefix plugins_ok), (dp_picker plugins_ok). reflexivity.
Qed.

Lemma one_source (h : handle) a b p q src ext :
  h !! a = Some p -> pl_DataSource p = Some src -> h !! b = Some q -> pl_Extractor q = Some ext ->
  buildDataLayerConfig (Some [mkSource a [b]]) h = inl [{| Runtime.sc_Plugin := src; Runtime.sc_Extractors := [ext] |}].
Proof.
  intros Ha Hp Hb Hq. unfold buildDataLayerConfig. cbn. unfold build_source. cbn.
  by rewrite Ha; cbn; rewrite Hp; cbn; rewrite Hb; cbn; rewrite Hq.
Qed.

Lemma no_gates gate : enabled (loadFeatureConfig registered (Some [])) gate = false.
Proof.
  change (default false ((gset_to_gmap false registered : gmap string bool) !! gate) = false).
  rewrite lookup_gset_to_gmap. by case_guard.
Qed.

(** C23: without a configuration file the gateway starts: the default configuration
    is accepted, whatever the order in which maps are iterated.  It has one
    profile, scored by the queue (weight 2), the KV cache (2) and the prefix cache
    (3) and picked from by the highest score.  The plugins that exist in the end
    are exactly the five it names (three scorers, the metrics source and its
    extractor) and the eight that are injected: the producer for the prefix
    scorer, the handler of a single profile, the max-score picker, the default
    ordering, fairness and usage-limit policies of flow control, the OpenAI parser
    and the utilization detector.  The factories of these types succeed, and what
    they make implements what its type stands for. *)
Theorem default_config_loads decode :
  exists cfg eff h,
    LoadRawConfig decode registered EmptyString = inl (default_raw, loadFeatureConfig registered (Some [])) /\
    InstantiateAndConfigure Registry ApproxPrefixCacheFactory registered range range_bands default_raw ∅ = Some (inl cfg) /\
    cfg = {| cf_SchedulerConfig :=
               {| sc_profileHandler := ph;
                  sc_profiles := {[ "default" :=
                    {| filters := [];
                       scorers := [{| ws_Scorer := queue; weight := two |}; {| ws_Scorer := kv; weight := two |};
                                   {| ws_Scorer := prefix; weight := three |}];
                       picker := Some pick |} ]} |};
             cf_SaturationDetector := detector;
             cf_DataConfig := Some [{| Runtime.sc_Plugin := source; Runtime.sc_Extractors := [extractor] |}];
             cf_FlowControlConfig := None;
             cf_ParserConfig := parser |} /\
    effective Registry ApproxPrefixCacheFactory range default_raw = inl (eff, h) /\
    forall t, h !! t =
      if decide (t ∈ [QueueScorerType; KvCacheUtilizationScorerType; PrefixCacheScorerPluginType;
                      MetricsDataSourceType; MetricsExtractorType; ApproxPrefixCachePluginType;
                      SingleProfileHandlerType; MaxScorePickerType; RegistryConfig.DefaultOrderingPolicyRef;
                      RegistryConfig.DefaultFairnessPolicyRef; DefaultUsageLimitPolicyRef; OpenAIParserType;
                      UtilizationDetectorType])
      then Some (inst t) else None.
Proof.
  eexists _, default_effective, (made all_types). split; [reflexivity|]. split; [|split; [reflexivity|split]].
  2:{ unfold effective. rewrite default_instantiated. cbn [RegistryConfig.wrap_err ebind]. by rewrite default_defaults. }
  2:{ intros t. rewrite made_lookup. apply decide_ext. rewrite !elem_of_app, !elem_of_cons, !elem_of_nil.
      unfold reverse. cbn [rev_append]. rewrite !elem_of_cons, !elem_of_nil. tauto. }
  unfold InstantiateAndConfigure. rewrite default_instantiated. cbn [RegistryConfig.wrap_err ebind].
  rewrite default_defaults. cbn [RegistryConfig.wrap_err ebind fst snd].
  assert (validateConfig registered default_effective = None) as -> by reflexivity. cbn [ebind].
  unfold buildSchedulerConfig. rewrite default_profile_built. cbn [ebind].
  rewrite (find_handler_unique _ SingleProfileHandlerType (inst SingleProfileHandlerType) ph);
    [|apply made_some; names|apply (dp_handler plugins_ok)|].
  2:{ intros n q Hn Hne. rewrite made_lookup in Hn. case_decide as Hin; [|done]. injection Hn as <-.
      apply (dp_no_handler plugins_ok); [|done]. clear Hne. revert n Hin. apply Forall_forall. names. }
  cbn [ebind]. rewrite map_size_singleton, andb_false_r. cbn [RegistryConfig.wrap_err ebind].
  change (FeatureGates default_effective) with (Some ([] : list string)). rewrite !no_gates.
  change (DataLayer default_effective) with (Some [mkSource MetricsDataSourceType [MetricsExtractorType]]).
  rewrite (one_source _ _ _ _ _ _ _ (made_some all_types MetricsDataSourceType ltac:(names)) (dp_source plugins_ok)
             (made_some all_types MetricsExtractorType ltac:(names)) (dp_extractor plugins_ok)).
  cbn [RegistryConfig.wrap_err ebind]. unfold buildParserConfig.
  change (Parser default_effective) with (Some OpenAIParserType). cbv beta iota. rewrite made_some by names.
  rewrite (dp_parser plugins_ok). cbn [RegistryConfig.wrap_err ebind fst snd].
  change (SaturationDetector default_effective) with (Some UtilizationDetectorType). cbn [mbind option_bind].
  unfold find_detector. rewrite made_some by names. by rewrite (dp_detector plugins_ok).
Qed.

End Default.

(** * Samples *)

Abbreviation sample_plugin := (@plugin nat _ _ unit unit unit unit unit).
Abbreviation sample_factory := (@FactoryFunc nat _ _ unit unit unit unit unit).

Definition sample_scorer : @Scheduler.Scorer nat _ _ unit unit := fun c _ endpoints =>
  (foldl (fun m e => <[e := f64_one]> m) ∅ endpoints, c).
Definition sample_picker : @Scheduler.Picker nat unit := fun c scored => ({| TargetEndpoints := se_Endpoint <$> scored |}, c).

Definition sample_source : Runtime.DataSource :=
  {| src_TypedName := {| tn_Type := MetricsDataSourceType; tn_Name := MetricsDataSourceType |};
     src_Kind := PollingDataSource; ExtractorType := None; OutputType := None; ValidateExtractor := None |}.
Definition sample_extractor : Runtime.Extractor :=
  {| ex_TypedName := {| tn_Type := MetricsExtractorType; tn_Name := MetricsExtractorType |};
     ex_Type := None; ExpectedInputType := None; ex_GVK := None; ex_Endpoint := false |}.

Definition one_of (t : string) (ts : list string) {A} (a : A) : option A :=
  if bool_decide (t ∈ ts) then Some a else None.

Definition RandomPickerType : string := "random-picker".

(** A plugin of a type implements what the type is for. *)
Definition sample_inst (t : string) : sample_plugin :=
  mkPluginObject {| tn_Type := t; tn_Name := t |}
    {| as_Filter := None;
       as_Scorer := one_of t [QueueScorerType; KvCacheUtilizationScorerType; PrefixCacheScorerPluginType] sample_scorer;
       as_Picker := one_of t [MaxScorePickerType; RandomPickerType] sample_picker |}
    (one_of t [SingleProfileHandlerType] SingleProfileHandler)
    (one_of t [OpenAIParserType] tt) (one_of t [UtilizationDetectorType] tt)
    {| RegistryConfig.as_OrderingPolicy := None; RegistryConfig.as_FairnessPolicy := None |}
    (one_of t [DefaultUsageLimitPolicyRef] tt)
    (one_of t [MetricsDataSourceType] sample_source) (one_of t [MetricsExtractorType] sample_extractor).

Definition sample_Registry : gmap string sample_factory :=
  list_to_map ((fun t => (t, (fun _ _ _ => inl (sample_inst t)) : sample_factory)) <$> RandomPickerType :: default_types).

Definition sample_approx : sample_factory := fun _ _ _ => inl (sample_inst ApproxPrefixCachePluginType).

Definition sample_range (site : string) (h : gmap string sample_plugin) : list (string * sample_plugin) := map_to_list h.

Abbreviation sample_load range := (InstantiateAndConfigure sample_Registry sample_approx ∅ range map_to_list).

Lemma loaded_config_complete_witness :
  match sample_load sample_range (applyStaticDefaults loadDefaultConfig) ∅ with Some (inl _) => true | _ => false end = true /\
  exists r, sample_load sample_range (applyStaticDefaults loadDefaultConfig) ∅ = Some r /\
  forall cfg, r = inl cfg ->
    exists eff h, effective sample_Registry sample_approx sample_range (applyStaticDefaults loadDefaultConfig) = inl (eff, h) /\
      complete eff h cfg /\
      forall name p, sc_profiles (cf_SchedulerConfig cfg) !! name = Some p ->
        forall range' request c endpoints, is_Some (Scheduler.Run range' p request c endpoints).
Proof.
  split; [vm_compute; reflexivity|].
  apply (loaded_config_complete sample_Registry sample_approx ∅ sample_range map_to_list).
  - reflexivity.
  - intros f name params h p Hf Hp.
    assert (sample_Registry !! MaxScorePickerType = Some (fun _ _ _ => inl (sample_inst MaxScorePickerType))) as Hr
      by reflexivity.
    rewrite Hr in Hf. injection Hf as <-. injection Hp as <-. reflexivity.
  - intros ref. discriminate.
Defined.

Lemma default_config_loads_witness :
  exists cfg,
    LoadRawConfig (fun _ => inr (Message EmptyString)) ∅ EmptyString =
      inl (applyStaticDefaults loadDefaultConfig, loadFeatureConfig ∅ (Some [])) /\
    sample_load sample_range (applyStaticDefaults loadDefaultConfig) ∅ = Some (inl cfg) /\
    cfg = {| cf_SchedulerConfig :=
               {| sc_profileHandler := SingleProfileHandler;
                  sc_profiles := {[ "default" :=
                    {| filters := [];
                       scorers := [{| ws_Scorer := sample_scorer; weight := two |};
                                   {| ws_Scorer := sample_scorer; weight := two |};
                                   {| ws_Scorer := sample_scorer; weight := three |}];
                       picker := Some sample_picker |} ]} |};
             cf_SaturationDetector := tt;
             cf_DataConfig := Some [{| Runtime.sc_Plugin := sample_source; Runtime.sc_Extractors := [sample_extractor] |}];
             cf_FlowControlConfig := None;
             cf_ParserConfig := tt |} /\
    exists eff h, effective sample_Registry sample_approx sample_range (applyStaticDefaults loadDefaultConfig) = inl (eff, h) /\
      h !! ApproxPrefixCachePluginType = Some (sample_inst ApproxPrefixCachePluginType) /\
      h !! DefaultUsageLimitPolicyRef = Some (sample_inst DefaultUsageLimitPolicyRef) /\ h !! RandomPickerType = None.
Proof.
  edestruct (default_config_loads sample_Registry sample_approx ∅ sample_range map_to_list sample_inst)
    as (cfg & eff & h & H1 & H2 & H3 & H4 & Hh).
  - reflexivity.
  - intros t name h Ht. exists (fun _ _ _ => inl (sample_inst t)). split; [|reflexivity].
    revert t Ht. apply Forall_forall. repeat constructor.
  - reflexivity.
  - constructor; try reflexivity.
    + refine (proj1 (Forall_forall (fun t => t <> MaxScorePickerType -> is_Picker (sample_inst t) = false) _) _).
      repeat (constructor; [intros Hne; first [reflexivity|by destruct Hne]|]). constructor.
    + refine (proj1 (Forall_forall (fun t => t <> SingleProfileHandlerType ->
                                      pl_ProfileHandler (sample_inst t) = None) _) _).
      repeat (constructor; [intros Hne; first [reflexivity|by destruct Hne]|]). constructor.
  - exists cfg. split; [exact H1|]. split; [exact H2|]. split; [exact H3|]. exists eff, h. split; [exact H4|].
    rewrite !Hh. split; [reflexivity|]. split; reflexivity.
Defined.

(** With two pickers and a profile without one, the order of a map decides which
    of them it gets. *)
Definition two_pickers : EndpointPickerConfig :=
  applyStaticDefaults (mkEPC None [spec_of_type QueueScorerType; spec_of_type MaxScorePickerType; spec_of_type RandomPickerType]
    [mkProfile "default" [mkRef QueueScorerType None]] None None None None).

Definition chosen_refs (range : string -> gmap string sample_plugin -> list (string * sample_plugin)) : list string :=
  match effective sample_Registry sample_approx range two_pickers with
  | inl (eff, _) => prof ← SchedulingProfiles eff; PluginRef <$> sp_Plugins prof
  | inr _ => []
  end.

Lemma map_order_chooses_picker :
  chosen_refs (fun _ h => map_to_list h) <> chosen_refs (fun _ h => reverse (map_to_list h)).
Proof. vm_compute. discriminate. Qed.
